(* ===== verification/_CoqProject ===== *)
-Q . S2P
Prelude.v
Mem.v
PbTypes.v
PbCommon.v
PbFields.v
PbOStream.v
PbWire.v
PbEncode.v
PbEncodeSpec.v
PbIStream.v
PbDecode.v
PbDecodeSafe.v
PbRoundTrip.v
PbDecodeSpec.v
PbExample.v
PbEncodeTheorems.v
PbDecodeTheorems.v
UvCommon.v
UvHeap.v
UvHeapShape.v
UvHeapOps.v
UvTimer.v
UvTimerSpec.v
UvTimerTheorems.v
UvInet.v
UvInetSpec.v
UvInet6.v
UvInet6Read.v
UvInetTheorems.v
LdbCoding.v
LdbCrc.v
LdbCrcSpec.v
LdbLog.v
LdbLogSpec.v
LdbBloom.v
LdbTheorems.v
LdbKey.v
LdbKeySpec.v
LdbBatch.v
LdbArena.v
LdbSkip.v
LdbSkipSpec.v
LdbSkipOps.v
LdbMem.v
LdbRecover.v
LdbMemTheorems.v
LdbIter.v
LdbBlock.v
LdbBlockSpec.v
LdbBlockIter.v
LdbBlockBuild.v
LdbFormat.v
LdbFilter.v
LdbTwoLevel.v
LdbTableTheorems.v
LdbTable.v
LdbTableWrite.v
LdbTableRead.v
LdbCache.v
LdbCacheRing.v
LdbCacheTable.v
LdbCacheSpec.v
LdbCacheOps.v
LdbCacheTrace.v
LdbCacheShards.v
LdbCacheTheorems.v
LdbSstTheorems.v
LdbEdit.v
LdbVersion.v
LdbVersionSpec.v
LdbVersionGet.v
LdbBuilder.v
LdbVersionTheorems.v
LdbMerge.v
LdbDbIter.v
LdbIterTheorems.v
LdbCompact.v
LdbInputs.v
LdbCompactWork.v
LdbCompactTheorems.v
