(* ===== verification/Prelude.v ===== *)
(** * Verification of the native code under src/mad/Pods

    The repository is a Flutter application; the code that parses bytes,
    keeps data structures and talks to disk is in the libraries it carries
    along: nanopb (protocol buffers for Firestore), libuv (timers and
    addresses for gRPC) and leveldb (the local store of Firestore).  This
    library models these in Rocq and proves what makes them correct.  A
    shallow embedding: C and C++ functions are Rocq functions that return an
    [outcome] ([Done], [Undef] for undefined behaviour such as an
    out-of-bounds access or a failed assertion, [NoFuel] for a loop whose
    bound was not enough), state is passed explicitly, integers are [Z] with
    their wrap-around written out ([u8] to [u64], [s8] to [s64]).  A theorem
    that says [Done] therefore says: no undefined behaviour, and the loop
    ends.

    ** Parts and files

    Prelude (this file): outcomes, machine integers, little-endian codecs,
    bit and list lemmas.  Mem: memory of a nanopb message, by blocks.

    nanopb (src/mad/Pods/nanopb: pb.h, pb_common.c, pb_encode.c, pb_decode.c,
    with 32-bit field sizes, malloc and a 64-bit target):
    - PbTypes, PbFields: type constants, [pb_field], the macros that fill
      descriptors;
    - PbCommon: the field iterator;
    - PbOStream, PbEncode: output streams, primitive encoders, the message
      encoder; PbIStream, PbDecode: the same for decoding, with allocation,
      extensions, unions, release;
    - PbWire: the wire format as a function; PbEncodeSpec, PbDecodeSpec,
      PbDecodeSafe, PbRoundTrip: lemmas; PbExample: a message type for
      witnesses; PbEncodeTheorems, PbDecodeTheorems: properties.

    libuv (src/mad/Pods/Libuv-gRPC/src: uv-common.h, heap-inl.h, timer.c,
    inet.c, strscpy.c):
    - UvCommon: handle flags and reference counts; UvHeap: the heap of
      linked nodes; UvTimer: timers over it;
    - UvHeapShape, UvHeapOps, UvTimerSpec: the heap as a tree, the timers as
      a set ordered by due time; UvTimerTheorems: properties;
    - UvInet: textual addresses; UvInetSpec, UvInet6, UvInet6Read: lemmas;
      UvInetTheorems: properties.

    leveldb (src/mad/Pods/leveldb-library; little-endian, signed char):
    - LdbCoding: fixed and variable-length integers (util/coding);
      LdbCrc, LdbCrcSpec: checksums (util/crc32c); LdbBloom: hash and Bloom
      filter (util/hash.cc, util/bloom.cc);
    - LdbLog: the write-ahead log (db/log_writer.cc, db/log_reader.cc);
      LdbLogSpec: its frames; LdbTheorems: properties of these;
    - LdbKey, LdbKeySpec: comparators and internal keys (util/comparator.cc,
      db/dbformat.cc); LdbBatch: write batches;
    - LdbArena: the arena (util/arena.cc); LdbSkip, LdbSkipSpec, LdbSkipOps:
      the skip list (db/skiplist.h); LdbMem: the memtable;
    - LdbRecover: RecoverLogFile of db/db_impl.cc;
      LdbMemTheorems: properties of these;
    - LdbIter: the interface of iterators and the cursor contract; LdbBlock,
      LdbBlockSpec, LdbBlockIter, LdbBlockBuild: blocks (table/block.cc,
      table/block_builder.cc); LdbFormat: handles, footer and ReadBlock
      (table/format.cc); LdbFilter: filter blocks (table/filter_block.cc);
      LdbTwoLevel: table/two_level_iterator.cc and the
      iterator wrapper; LdbTableTheorems: properties of these;
    - LdbTable: the table builder and the table (table/table_builder.cc,
      table/table.cc); LdbTableWrite, LdbTableRead: what is written and what
      is read; LdbSstTheorems: properties of whole tables;
    - LdbCache: the cache of blocks (util/cache.cc); LdbCacheRing,
      LdbCacheTable: its rings and its hash table; LdbCacheSpec: the abstract
      cache; LdbCacheOps: each operation of a shard refines it;
      LdbCacheTrace: sequences of calls; LdbCacheShards: all
      shards, and the cache as the one tables read blocks through;
      LdbCacheTheorems: properties of the cache;
    - LdbEdit: edits of versions (db/version_edit.cc); LdbVersion:
      files of a version and what is found in them (db/version_set.cc);
      LdbVersionSpec, LdbVersionGet: search,
      overlap, the level for a memtable, lookups; LdbBuilder: the builder of
      versions, one level and all edits;
      LdbVersionTheorems: properties of edits and versions;
    - LdbMerge: the merging iterator (table/merger.cc); LdbDbIter: the
      database iterator (db/db_iter.cc); LdbIterTheorems: properties of both;
    - LdbCompact: compactions and the choice of their inputs
      (db/version_set.cc); LdbInputs: iterators over the files of versions
      and compactions (db/version_set.cc); LdbCompactWork: the work of a compaction
      (DoCompactionWork of db/db_impl.cc); LdbCompactTheorems: properties of
      these.

    ** How the parts meet

    The nanopb encoder writes through an abstract sink and the decoder reads
    through an abstract source, memory buffers are instances.  Timers call the
    heap through its lemmas, user callbacks are parameters.  In leveldb, a
    write batch (LdbBatch) is a record of the log (LdbLog, which uses LdbCrc
    and LdbCoding), and recovery (LdbRecover) reads the log and inserts the
    batches into memtables (LdbMem), which are skip lists (LdbSkip) of keys
    (LdbKey) in an arena (LdbArena).  What one part promises another is a
    class: [Comparator] and [GoodComparator], [Ordered], [Heap] and
    [GoodHeap], [NodeAllocator] and [GoodAllocator], [WritableFile] and
    [GoodFile], [SequentialFile] and [GoodInput], [Handler], [Table],
    [Level0] and [GoodLevel0]; each has an instance, used by the witnesses.

    ** What the theorems show

    nanopb: decoding stays inside the destination whatever the input
    ([decode_static_safe], for descriptors that lie in their struct and
    fixed-count arrays with four bytes of it at their address); encoding produces the wire format
    ([encode_refines_wire]) and never exceeds its buffer; what was encoded
    decodes to the same value, strings that fill their array apart; sizes, required fields, allocation, skipping
    and the error cases behave as intended; and three places where they do
    not.  libuv: heap operations keep shape and order and change the contents
    as they should; every sequence of timer calls is safe, due timers fire in
    order, whatever their callbacks stop, close or start for later; addresses survive the round trip through text, and parsing never
    leaves its buffers.  leveldb:
    recovery of a log cut at any byte restores exactly the updates that were
    completely written ([recovery_exact]); a skip list is the sorted list of
    its keys; a memtable answers with the latest visible update; arena blocks
    never overlap; the optimised checksum is the bit-serial one and a damaged
    record is noticed; Bloom filters have no false negatives; separators
    keep the contract of comparators; codecs and batches round-trip, and
    arbitrary bytes read as a batch as its grammar says
    ([batch_iterate_exact]); a block reads back as its entries in
    both directions and from any target ([block_roundtrip]); the two-level
    iterator over blocks is a cursor over all entries; a filter block never
    denies a key of the block it was made for; a finished table reads back
    as its entries, and lookups in it, through filter and cache, find the
    first entry from the key on ([table_roundtrip], [table_get_exact]); the
    cache refines an abstract one over all sequences of calls, never gives a
    stale value, frees every value once and keeps to its capacity
    ([cache_refines], [cache_lookup_latest], [cache_frees_once]); a lookup in
    a version gives the newest visible update over all its files
    ([version_get_newest]), and applying edits gives the files it should, in
    order ([version_builder_exact]); merged iterators walk over all entries
    in order, and the database iterator over what a snapshot sees, in any
    sequence of moves ([merging_iterator_exact], [db_iterator_exact],
    [version_iterator_exact]);
    a compaction takes inputs that end at no boundary of the level
    ([picked_inputs_closed]), writes just the entries that survive
    ([compaction_exact]) and changes no answer of a reader at the oldest
    snapshot or later ([compaction_keeps_views]); what that needs of the
    next level, the choice of inputs does not always give
    ([next_level_boundary_left]).

    ** Bounds and fuel

    Loops that are not structural carry fuel, and the theorems show that the
    fuel given by the definitions is enough: 10 rounds for a varint, 33 levels
    for a heap of fewer than 2^32 nodes, the length of the input for loops
    that consume it, the number of nodes plus the maximal height for a skip
    list search.  Where a theorem is stated for a given fuel (the depth of
    nanopb messages, the number of log records), it says which one suffices.
    Sizes are bounded where the code uses narrower types: 2^31 for counts of
    a batch, 2^32 for lengths written as 32-bit varints.

    ** Not modelled

    The Flutter application (Dart), the Firestore client and the Firebase and
    Google libraries (Objective-C, Swift and C++ around them), generated
    message tables, platform runners; libuv's wrappers over system calls,
    its loop, thread pool and host names; leveldb's manifest, the scheduling
    of compactions, writers and its environment.  Concurrency is not modelled: libuv's loop is
    single-threaded, and leveldb's operations run one after the other.
    Allocation failures of [operator new] end the program and are left out;
    nanopb's allocator may fail and does in the model. *)

From Stdlib Require Import ZifyBool Btauto.
From stdpp Require Import base tactics numbers list gmap strings.
Open Scope Z_scope.

(** ** Outcomes of C code

    A piece of C code either finishes with a value, reaches undefined
    behaviour (out-of-bounds access, invalid free, call through a NULL
    pointer), or, in the model only, exhausts the fuel of a loop whose
    recursion is not structural. *)

Inductive outcome (A : Type) : Type :=
| Done (a : A)
| Undef
| NoFuel.
Arguments Done {A} a.
Arguments Undef {A}.
Arguments NoFuel {A}.

#[export] Instance outcome_ret : MRet outcome := fun A a => Done a.
#[export] Instance outcome_bind : MBind outcome := fun A B f x =>
  match x with
  | Done a => f a
  | Undef => Undef
  | NoFuel => NoFuel
  end.
#[export] Instance outcome_fmap : FMap outcome := fun A B f x =>
  match x with
  | Done a => Done (f a)
  | Undef => Undef
  | NoFuel => NoFuel
  end.

(** A partial memory access as an outcome: failing is undefined behaviour. *)
Definition demand {A} (o : option A) : outcome A :=
  match o with Some a => Done a | None => Undef end.

(** Code that works on a state of type [S]. *)
Definition prog (S A : Type) : Type := S -> outcome (A * S).

#[export] Instance prog_ret {S} : MRet (prog S) := fun A a s => Done (a, s).
#[export] Instance prog_bind {S} : MBind (prog S) := fun A B f x s => '(a, s1) ← x s; f a s1.

Definition prog_lift {S A} (x : outcome A) : prog S A := fun s => a ← x; Done (a, s).
(** Read and update the state; a failing access is undefined behaviour. *)
Definition prog_get {S A} (f : S -> option A) : prog S A := fun s => a ← demand (f s); Done (a, s).
Definition prog_put {S} (f : S -> option S) : prog S unit := fun s => s1 ← demand (f s); Done (tt, s1).
Definition prog_nofuel {S A} : prog S A := fun _ => NoFuel.

(** ** Machine integers *)

Definition wrap (w z : Z) : Z := z mod 2 ^ w.
Definition u8 (z : Z) : Z := wrap 8 z.
Definition u16 (z : Z) : Z := wrap 16 z.
Definition u32 (z : Z) : Z := wrap 32 z.
Definition u64 (z : Z) : Z := wrap 64 z.

(** Conversion to a [w]-bit two's complement integer. *)
Definition signed (w z : Z) : Z :=
  let r := wrap w z in if r <? 2 ^ (w - 1) then r else r - 2 ^ w.
Definition s8 (z : Z) : Z := signed 8 z.
Definition s16 (z : Z) : Z := signed 16 z.
Definition s32 (z : Z) : Z := signed 32 z.
Definition s64 (z : Z) : Z := signed 64 z.

(** Bytes are integers in [0, 256). *)
Definition is_byte (b : Z) : Prop := 0 <= b < 256.

Abbreviation zlen l := (Z.of_nat (length l)).

(** ** Little-endian codec *)

Fixpoint le_value (bs : list Z) : Z :=
  match bs with
  | [] => 0
  | b :: bs => b + 256 * le_value bs
  end.

Fixpoint le_bytes (n : nat) (v : Z) : list Z :=
  match n with
  | O => []
  | S n => v mod 256 :: le_bytes n (v / 256)
  end.

(** ** Tactics and hint databases *)

Create HintDb cint.
Create Rewrite HintDb cint.

(** One step whose outcome is known. *)
Lemma outcome_step {A B} (x : outcome A) (f : A -> outcome B) (a : A) (r : outcome B) :
  x = Done a -> f a = r -> x ≫= f = r.
Proof. by intros ->. Qed.

Lemma prog_step {S A B} (x : prog S A) (f : A -> prog S B) (s s1 : S) (a : A) (r : outcome (B * S)) :
  x s = Done (a, s1) -> f a s1 = r -> (x ≫= f) s = r.
Proof. unfold mbind, prog_bind. intros ->. done. Qed.

Lemma prog_bind_assoc {S A B C} (x : prog S A) (f : A -> prog S B) (g : B -> prog S C) (s : S) :
  ((x ≫= f) ≫= g) s = (x ≫= (fun a => f a ≫= g)) s.
Proof. unfold mbind, prog_bind. by destruct (x s) as [[]| |]. Qed.

(** Split a [Done] result of a bind into its steps. *)
Lemma bind_Done {A B} (x : outcome A) (f : A -> outcome B) (b : B) :
  x ≫= f = Done b <-> exists a, x = Done a /\ f a = Done b.
Proof. destruct x; cbn; naive_solver. Qed.

Lemma bind_assoc {A B C} (x : outcome A) (f : A -> outcome B) (g : B -> outcome C) :
  (x ≫= f) ≫= g = x ≫= (fun a => f a ≫= g).
Proof. by destruct x. Qed.

Lemma demand_Done {A} (o : option A) (a : A) : demand o = Done a <-> o = Some a.
Proof. destruct o; cbn; naive_solver. Qed.

Lemma demand_not_NoFuel {A} (o : option A) : demand o <> NoFuel.
Proof. by destruct o. Qed.

(** The computations that do not run out of fuel are closed under bind. *)
Lemma bind_not_NoFuel {A B} (x : outcome A) (f : A -> outcome B) :
  x <> NoFuel -> (forall a, x = Done a -> f a <> NoFuel) -> x ≫= f <> NoFuel.
Proof. destruct x; cbn; naive_solver. Qed.

Ltac inv_outcome :=
  repeat match goal with
  | H : (_ ≫= _) = Done _ |- _ => apply bind_Done in H; destruct H as (? & ? & H)
  | H : demand _ = Done _ |- _ => apply demand_Done in H
  | H : mret _ = Done _ |- _ => injection H as H
  | H : Done _ = Done _ |- _ => injection H as H
  | H : Undef = Done _ |- _ => discriminate H
  | H : NoFuel = Done _ |- _ => discriminate H
  | p : (_ * _)%type |- _ => destruct p
  | H : (_, _) = (_, _) |- _ => injection H as H
  | _ => progress cbn beta iota zeta in *
  end; subst.

(** ** Integer lemmas *)

Lemma wrap_range w z : 0 <= w -> 0 <= wrap w z < 2 ^ w.
Proof. intros. apply Z.mod_pos_bound. lia. Qed.

Lemma wrap_small w z : 0 <= z < 2 ^ w -> wrap w z = z.
Proof. intros. by apply Z.mod_small. Qed.

Lemma wrap_wrap w z : 0 <= w -> wrap w (wrap w z) = wrap w z.
Proof. intros. apply Z.mod_mod. lia. Qed.

Lemma u8_range z : 0 <= u8 z < 256.
Proof. by apply (wrap_range 8). Qed.
Lemma u32_range z : 0 <= u32 z < 2 ^ 32.
Proof. by apply wrap_range. Qed.
Lemma u64_range z : 0 <= u64 z < 2 ^ 64.
Proof. by apply wrap_range. Qed.
Lemma u8_small z : 0 <= z < 256 -> u8 z = z.
Proof. intros. by apply wrap_small. Qed.
Lemma u32_small z : 0 <= z < 2 ^ 32 -> u32 z = z.
Proof. intros. by apply wrap_small. Qed.
Lemma u64_small z : 0 <= z < 2 ^ 64 -> u64 z = z.
Proof. intros. by apply wrap_small. Qed.

Lemma signed_range w z : 1 <= w -> - 2 ^ (w - 1) <= signed w z < 2 ^ (w - 1).
Proof.
  intros Hw. unfold signed. pose proof (wrap_range w z ltac:(lia)).
  replace (2 ^ w) with (2 * 2 ^ (w - 1)) in * by (rewrite <- Z.pow_succ_r by lia; f_equal; lia).
  case_match eqn:E; [apply Z.ltb_lt in E | apply Z.ltb_ge in E]; lia.
Qed.

Lemma signed_small w z : 1 <= w -> - 2 ^ (w - 1) <= z < 2 ^ (w - 1) -> signed w z = z.
Proof.
  intros Hw Hz. unfold signed, wrap.
  assert (Hp : 2 ^ w = 2 * 2 ^ (w - 1)) by (rewrite <- Z.pow_succ_r by lia; f_equal; lia).
  destruct (Z.le_gt_cases 0 z).
  - rewrite Z.mod_small by lia. case_match eqn:E; [done|]. apply Z.ltb_ge in E. lia.
  - replace (z mod 2 ^ w) with (z + 2 ^ w).
    + case_match eqn:E; [apply Z.ltb_lt in E|]; lia.
    + apply Z.mod_unique with (q := -1); lia.
Qed.

Lemma signed_wrap w z : 0 <= w -> signed w (wrap w z) = signed w z.
Proof. intros. unfold signed. by rewrite wrap_wrap. Qed.

Lemma wrap_signed w z : 0 <= w -> wrap w (signed w z) = wrap w z.
Proof.
  intros. unfold signed. case_match; [by apply wrap_wrap|].
  unfold wrap. rewrite <- (Z.mod_add (z mod 2 ^ w - 2 ^ w) 1) by lia.
  rewrite Z.mul_1_l, Z.sub_add. apply Z.mod_mod. lia.
Qed.

(** A narrow view of a wider truncation. *)
Lemma wrap_wrap_le w w' z : 0 <= w <= w' -> wrap w (wrap w' z) = wrap w z.
Proof.
  intros. apply Z.mod_mod_divide. exists (2 ^ (w' - w)). rewrite <- Z.pow_add_r by lia. f_equal. lia.
Qed.

Lemma signed_wrap_le w w' z : 0 <= w <= w' -> signed w (wrap w' z) = signed w z.
Proof. intros. unfold signed. by rewrite wrap_wrap_le. Qed.

#[export] Hint Rewrite u8_small u32_small u64_small using lia : cint.
#[export] Hint Resolve u8_range u32_range u64_range : cint.

(** ** Bit lemmas *)

Lemma land_low_bits z n : 0 <= n -> Z.land z (2 ^ n - 1) = z mod 2 ^ n.
Proof. intros. rewrite <- Z.land_ones by lia. f_equal. by rewrite Z.ones_equiv. Qed.

Lemma land_127 z : Z.land z 127 = z mod 128.
Proof. by apply (land_low_bits z 7). Qed.

(** Adding a high part to a value below [2^n] is a bitwise or. *)
Lemma lor_shiftl_add a b n : 0 <= n -> 0 <= a < 2 ^ n -> Z.lor a (Z.shiftl b n) = a + b * 2 ^ n.
Proof.
  intros Hn Ha. rewrite <- Z.shiftl_mul_pow2 by done.
  assert (Z.land a (Z.shiftl b n) = 0) as Hdisj.
  { rewrite <- (Z.mod_small a (2 ^ n)), <- Z.land_ones by lia.
    apply Z.bits_inj'; intros i Hi. rewrite !Z.land_spec, Z.bits_0, Z.shiftl_spec by lia.
    destruct (Z.lt_ge_cases i n).
    - rewrite (Z.testbit_neg_r b) by lia. apply andb_false_r.
    - rewrite Z.ones_spec_high by lia. by rewrite andb_false_r. }
  rewrite <- Z.lxor_lor by done. symmetry. by apply Z.add_nocarry_lxor.
Qed.

Lemma lor_word w a b : 0 <= w -> 0 <= a < 2 ^ w -> 0 <= b < 2 ^ w -> 0 <= Z.lor a b < 2 ^ w.
Proof.
  intros Hw Ha Hb. rewrite <- (Z.mod_small a (2 ^ w)), <- (Z.mod_small b (2 ^ w)) by done.
  rewrite <- !Z.land_ones, <- Z.land_lor_distr_l, Z.land_ones by lia. apply Z.mod_pos_bound. lia.
Qed.

(** Operations that stay within 32 bits. *)
Lemma lxor_word x y : 0 <= x < 2 ^ 32 -> 0 <= y < 2 ^ 32 -> 0 <= Z.lxor x y < 2 ^ 32.
Proof.
  intros Hx Hy. rewrite <- (Z.mod_small x (2 ^ 32)), <- (Z.mod_small y (2 ^ 32)) by done.
  rewrite <- !Z.land_ones by lia.
  replace (Z.lxor (Z.land x (Z.ones 32)) (Z.land y (Z.ones 32))) with (Z.land (Z.lxor x y) (Z.ones 32)).
  - rewrite Z.land_ones by lia. apply Z.mod_pos_bound. lia.
  - apply Z.bits_inj'. intros i Hi. rewrite ?Z.lxor_spec, ?Z.land_spec, ?Z.lxor_spec. btauto.
Qed.

Lemma shiftr_word x n : 0 <= n -> 0 <= x < 2 ^ 32 -> 0 <= Z.shiftr x n < 2 ^ 32.
Proof.
  intros Hn Hx. rewrite Z.shiftr_div_pow2 by done. pose proof (Z.pow_pos_nonneg 2 n ltac:(lia) Hn).
  split; [apply Z.div_pos; lia|]. apply Z.div_lt_upper_bound; nia.
Qed.

(** A mask of adjacent bits selects a field of the number. *)
Lemma land_field x k w : 0 <= k -> 0 <= w -> Z.land x (Z.shiftl (2 ^ w - 1) k) = Z.shiftl ((x / 2 ^ k) mod 2 ^ w) k.
Proof.
  intros Hk Hw. rewrite <- Z.shiftr_div_pow2, <- land_low_bits by done.
  apply Z.bits_inj'. intros i Hi. rewrite Z.land_spec, !Z.shiftl_spec, Z.land_spec by lia.
  destruct (Z.lt_ge_cases i k).
  - rewrite !(Z.testbit_neg_r _ (i - k)) by lia. by rewrite andb_false_r.
  - rewrite Z.shiftr_spec by lia. by replace (i - k + k) with i by lia.
Qed.

(** Adding a digit at bit [k] of a [w]-bit accumulator. *)
Lemma lor_digit w r x k :
  0 <= k -> 0 <= r < 2 ^ k -> 0 <= x -> x * 2 ^ k < 2 ^ w ->
  Z.lor r (wrap w (Z.shiftl x k)) = r + x * 2 ^ k.
Proof.
  intros. rewrite wrap_small; [by apply lor_shiftl_add|].
  rewrite Z.shiftl_mul_pow2 by done. split; [apply Z.mul_nonneg_nonneg|]; lia.
Qed.

(** The parts of a varint digit. *)
Lemma land_128 x : Z.land x 128 = 128 * ((x / 128) mod 2).
Proof.
  change 128 with (Z.shiftl (2 ^ 1 - 1) 7) at 1. rewrite land_field by lia.
  rewrite Z.shiftl_mul_pow2 by lia. change (2 ^ 7) with 128. change (2 ^ 1) with 2. lia.
Qed.

Lemma digit_continues x : 0 <= x < 128 -> Z.land (x + 128) 127 = x /\ Z.land (x + 128) 128 = 128.
Proof.
  intros Hx. rewrite land_127, land_128. replace (x + 128) with (x + 1 * 128) by lia.
  by rewrite Z_mod_plus_full, Z.div_add, Z.mod_small, Z.div_small by lia.
Qed.

Lemma digit_last x : 0 <= x < 128 -> Z.land x 127 = x /\ Z.land x 128 = 0.
Proof. intros Hx. rewrite land_127, land_128. by rewrite Z.mod_small, Z.div_small by lia. Qed.

(** ** Little-endian codec lemmas *)

Lemma length_le_bytes n v : length (le_bytes n v) = n.
Proof. revert v. induction n; cbn; auto. Qed.

Lemma le_bytes_bytes n v : Forall is_byte (le_bytes n v).
Proof.
  revert v. induction n; intros v; cbn; constructor; [|done].
  apply Z.mod_pos_bound; lia.
Qed.

Lemma pow_256_succ n : 256 ^ Z.of_nat (S n) = 256 * 256 ^ Z.of_nat n.
Proof. rewrite Nat2Z.inj_succ, Z.pow_succ_r; lia. Qed.

Lemma le_value_range bs : Forall is_byte bs -> 0 <= le_value bs < 256 ^ zlen bs.
Proof.
  induction 1 as [|b bs [Hb ?] _ IH]; [cbn; lia|].
  cbn [le_value length]. rewrite pow_256_succ. nia.
Qed.

Lemma le_value_bytes n v : le_value (le_bytes n v) = v mod 256 ^ Z.of_nat n.
Proof.
  revert v. induction n as [|n IH]; intros v; cbn [le_value le_bytes].
  - by rewrite Z.mod_1_r.
  - rewrite IH, pow_256_succ, Z.rem_mul_r by lia. done.
Qed.

Lemma le_bytes_value bs : Forall is_byte bs -> le_bytes (length bs) (le_value bs) = bs.
Proof.
  induction 1 as [|b bs [Hb ?] _ IH]; [done|].
  cbn [le_value le_bytes length]. f_equal.
  - rewrite Z.mul_comm, Z_mod_plus_full. by apply Z.mod_small.
  - rewrite Z.mul_comm, Z.div_add by lia. rewrite Z.div_small, Z.add_0_l by lia. by rewrite IH.
Qed.

Lemma le_bytes_small n v : 0 <= v < 256 ^ Z.of_nat n -> le_value (le_bytes n v) = v.
Proof. intros. rewrite le_value_bytes. by apply Z.mod_small. Qed.

Lemma le_bytes_inj n v w :
  0 <= v < 256 ^ Z.of_nat n -> 0 <= w < 256 ^ Z.of_nat n -> le_bytes n v = le_bytes n w -> v = w.
Proof. intros Hv Hw E. rewrite <- (le_bytes_small n v), <- (le_bytes_small n w) by done. by rewrite E. Qed.
