(* ===== verification/Mem.v ===== *)
(** * Mem: the byte-addressed memory the message structs live in.

    A 64-bit little-endian address space: a finite map from addresses to
    cells, where an allocated but never written cell holds [None], and the
    table of the heap blocks ([malloc]'s bookkeeping) with their sizes.  An
    access outside the map, a read of a cell that was never written and a
    [free]/[realloc] of something that is not a live block are undefined
    behaviour ([None] here, [Undef] in the callers).  [malloc]'s choice of an
    address is a parameter ([Allocator]) with the C standard's contract as
    its law ([AllocatorOk]). *)

From Stdlib Require Import ZifyBool.
From stdpp Require Import base tactics numbers list gmap strings.
From S2P Require Import Prelude.
Open Scope Z_scope.

Record mem : Type := Mem {
  mbytes : gmap Z (option Z);
  mblocks : gmap Z Z;
}.

(** ** Loads and stores *)

Definition load_byte (m : mem) (a : Z) : option Z := mjoin (mbytes m !! a).

Fixpoint load_bytes (m : mem) (a : Z) (n : nat) : option (list Z) :=
  match n with
  | O => Some []
  | S n => b ← load_byte m a; bs ← load_bytes m (a + 1) n; Some (b :: bs)
  end.

Definition store_byte (m : mem) (a b : Z) : option mem :=
  _ ← mbytes m !! a; Some (Mem (<[a := Some b]> (mbytes m)) (mblocks m)).

Fixpoint store_bytes (m : mem) (a : Z) (bs : list Z) : option mem :=
  match bs with
  | [] => Some m
  | b :: bs => m' ← store_byte m a b; store_bytes m' (a + 1) bs
  end.

(** An [n]-byte unsigned integer object at address [a]. *)
Definition load_uint (n : nat) (m : mem) (a : Z) : option Z := le_value <$> load_bytes m a n.
Definition store_uint (n : nat) (m : mem) (a v : Z) : option mem := store_bytes m a (le_bytes n v).

Definition load_ptr (m : mem) (a : Z) : option Z := load_uint 8 m a.
Definition store_ptr (m : mem) (a v : Z) : option mem := store_uint 8 m a v.

(** ** The heap: [free] and [realloc] *)

Fixpoint region_get (b : gmap Z (option Z)) (a : Z) (n : nat) : list (option Z) :=
  match n with
  | O => []
  | S n => mjoin (b !! a) :: region_get b (a + 1) n
  end.

Fixpoint region_set (b : gmap Z (option Z)) (a : Z) (cs : list (option Z)) : gmap Z (option Z) :=
  match cs with
  | [] => b
  | c :: cs => region_set (<[a := c]> b) (a + 1) cs
  end.

Fixpoint region_del (b : gmap Z (option Z)) (a : Z) (n : nat) : gmap Z (option Z) :=
  match n with
  | O => b
  | S n => region_del (delete a b) (a + 1) n
  end.

Class Allocator : Type := alloc_choose : mem -> Z -> option Z.

(** The C standard's promise about [malloc]: the block is new, not at NULL
    and inside the address space. *)
Class AllocatorOk `{Allocator} : Prop := {
  alloc_nonnull : forall m n a, alloc_choose m n = Some a -> 0 < a /\ a + n <= 2 ^ 64;
  alloc_fresh : forall m n a i, alloc_choose m n = Some a -> a <= i < a + n -> mbytes m !! i = None;
  alloc_no_block : forall m n a, alloc_choose m n = Some a -> mblocks m !! a = None;
}.

(** [free(p)]: NULL is ignored, a live block is released. *)
Definition c_free (m : mem) (p : Z) : outcome mem :=
  if p =? 0 then Done m else
  n ← demand (mblocks m !! p);
  Done (Mem (region_del (mbytes m) p (Z.to_nat n)) (delete p (mblocks m))).

(** [realloc(p, n)] for [n > 0]: the result pointer, NULL (0) on failure with
    the old block left alone; otherwise a block of [n] bytes holding the old
    contents up to the shorter length, anywhere that is free once the old block
    is, its own place included. *)
Definition c_realloc `{Allocator} (m : mem) (p n : Z) : outcome (Z * mem) :=
  if p =? 0 then
    match alloc_choose m n with
    | None => Done (0, m)
    | Some a => Done (a, Mem (region_set (mbytes m) a (replicate (Z.to_nat n) None))
                             (<[a := n]> (mblocks m)))
    end
  else
    old ← demand (mblocks m !! p);
    freed ← c_free m p;
    match alloc_choose freed n with
    | None => Done (0, m)
    | Some a =>
      let keep := take (Z.to_nat n) (region_get (mbytes m) p (Z.to_nat old)) in
      let cells := keep ++ replicate (Z.to_nat n - length keep) None in
      Done (a, Mem (region_set (mbytes freed) a cells) (<[a := n]> (mblocks freed)))
    end.

(** A concrete allocator: one past the highest address in use, 16-aligned. *)
Definition top_address (m : mem) : Z :=
  map_fold (fun a _ acc => Z.max a acc) (map_fold (fun a _ acc => Z.max a acc) 0 (mblocks m))
    (mbytes m).

#[export] Instance bump_alloc : Allocator := fun m n =>
  let a := 16 * (top_address m / 16 + 1) in
  if decide (a + n <= 2 ^ 64) then Some a else None.

(** ** Lemmas on loads and stores *)

(** Addresses whose cells two memories agree on. *)
Definition same_at (m m' : mem) (a : Z) : Prop := mbytes m !! a = mbytes m' !! a.

(** [m'] differs from [m] at most on [a, a + n). *)
Definition only_differ (m m' : mem) (a n : Z) : Prop :=
  mblocks m' = mblocks m /\ forall i, ~ (a <= i < a + n) -> mbytes m' !! i = mbytes m !! i.

(** The range [a, a + n) is mapped. *)
Definition mapped (m : mem) (a n : Z) : Prop := forall i, a <= i < a + n -> is_Some (mbytes m !! i).

Lemma load_bytes_length m a n bs : load_bytes m a n = Some bs -> length bs = n.
Proof.
  revert a bs. induction n as [|n IH]; intros a bs; cbn; [by intros [= <-]|].
  intros (b & _ & H)%bind_Some. apply bind_Some in H as (bs' & H & [= <-]).
  cbn. f_equal. eauto.
Qed.

Lemma load_bytes_lookup m a n bs :
  load_bytes m a n = Some bs <->
  length bs = n /\ forall i : nat, (i < n)%nat -> bs !! i = load_byte m (a + Z.of_nat i).
Proof.
  split.
  - intros H. split; [by eapply load_bytes_length|]. revert a bs H.
    induction n as [|n IH]; intros a bs; cbn; [lia|].
    intros (b & Hb & H)%bind_Some. apply bind_Some in H as (bs' & H & [= <-]).
    intros [|i] Hi; [by rewrite Z.add_0_r|].
    cbn. rewrite (IH _ _ H) by lia. f_equal; lia.
  - intros [Hl H]. revert a bs Hl H. induction n as [|n IH]; intros a [|b bs] Hl H; cbn in *; try lia; [done|].
    pose proof (H 0%nat ltac:(lia)) as H0. cbn in H0. rewrite Z.add_0_r in H0. rewrite <- H0. cbn.
    rewrite (IH (a + 1) bs); [done|lia|]. intros i Hi.
    etrans; [exact (H (S i) ltac:(lia))|]. f_equal; lia.
Qed.

Lemma load_bytes_ext m m' a n :
  (forall i, a <= i < a + Z.of_nat n -> same_at m m' i) -> load_bytes m a n = load_bytes m' a n.
Proof.
  revert a. induction n as [|n IH]; intros a H; [done|]. cbn.
  unfold load_byte. rewrite (H a) by lia. destruct (mjoin _); [|done]. cbn.
  rewrite IH; [done|]. intros i Hi. apply H. lia.
Qed.

Lemma load_bytes_app m a n1 n2 :
  load_bytes m a (n1 + n2) =
  (bs1 ← load_bytes m a n1; bs2 ← load_bytes m (a + Z.of_nat n1) n2; Some (bs1 ++ bs2)).
Proof.
  revert a. induction n1 as [|n1 IH]; intros a; cbn.
  - rewrite Z.add_0_r. by destruct (load_bytes m a n2).
  - destruct (load_byte m a) as [b|]; [cbn|done]. rewrite IH.
    replace (a + 1 + Z.of_nat n1) with (a + Z.of_nat (S n1)) by lia.
    destruct (load_bytes m (a + 1) n1); [cbn|done]. by destruct (load_bytes _ _ n2).
Qed.

Lemma store_bytes_spec m a bs m' :
  store_bytes m a bs = Some m' ->
  only_differ m m' a (zlen bs) /\ mapped m a (zlen bs) /\
  forall i b, bs !! i = Some b -> mbytes m' !! (a + Z.of_nat i) = Some (Some b).
Proof.
  revert m a. induction bs as [|b bs IH]; intros m a; cbn [store_bytes length].
  - intros [= <-]. repeat split; [|done]. intros i; lia.
  - unfold store_byte. intros (m1 & H1 & H)%bind_Some.
    apply bind_Some in H1 as (c & Hc & [= <-]). apply IH in H as ((Hb & Hd) & Hm & Hv); cbn in *.
    repeat split; [done| | |].
    + intros i Hi. rewrite Hd by lia. apply lookup_insert_ne. lia.
    + intros i Hi. destruct (decide (i = a)) as [->|]; [by eexists|].
      destruct (Hm i ltac:(lia)) as [x Hx]. cbn in Hx. rewrite lookup_insert_ne in Hx by lia. by eexists.
    + intros [|i] b'; cbn.
      * intros [= <-]. rewrite Z.add_0_r, Hd by lia. apply lookup_insert_eq.
      * intros Hi%Hv. rewrite <- Hi. f_equal. lia.
Qed.

Lemma store_bytes_mapped m a bs : mapped m a (zlen bs) -> is_Some (store_bytes m a bs).
Proof.
  revert m a. induction bs as [|b bs IH]; intros m a Hm; [by eexists|].
  cbn. unfold store_byte. destruct (Hm a) as [c Hc]; [cbn; lia|]. rewrite Hc. cbn.
  apply IH. intros i Hi. cbn. destruct (decide (i = a)) as [->|].
  - rewrite lookup_insert_eq. by eexists.
  - rewrite lookup_insert_ne by done. apply Hm. cbn. lia.
Qed.

Lemma load_store_bytes m a bs m' : store_bytes m a bs = Some m' -> load_bytes m' a (length bs) = Some bs.
Proof.
  intros (_ & _ & Hv)%store_bytes_spec. apply load_bytes_lookup. split; [done|].
  intros i Hi. destruct (lookup_lt_is_Some_2 bs i Hi) as [b Hb].
  rewrite Hb. unfold load_byte. by rewrite (Hv _ _ Hb).
Qed.

Lemma load_store_bytes_disj m a bs m' b n :
  store_bytes m a bs = Some m' -> b + Z.of_nat n <= a \/ a + zlen bs <= b ->
  load_bytes m' b n = load_bytes m b n.
Proof.
  intros ((_ & Hd) & _)%store_bytes_spec Hdis. apply load_bytes_ext. intros i Hi.
  apply Hd. lia.
Qed.

Lemma load_store_uint n m a v m' :
  store_uint n m a v = Some m' -> 0 <= v < 256 ^ Z.of_nat n -> load_uint n m' a = Some v.
Proof.
  unfold store_uint, load_uint. intros H Hv. apply load_store_bytes in H.
  rewrite length_le_bytes in H. rewrite H. cbn. by rewrite le_bytes_small.
Qed.

(** Every initialised cell holds a byte. *)
Definition mem_ok (m : mem) : Prop := forall a b, mbytes m !! a = Some (Some b) -> is_byte b.

Lemma load_byte_range m a b : mem_ok m -> load_byte m a = Some b -> is_byte b.
Proof. unfold load_byte. intros Hm H. destruct (mbytes m !! a) as [[c|]|] eqn:E; cbn in H; simplify_eq. eauto. Qed.

Lemma load_bytes_range m a n bs : mem_ok m -> load_bytes m a n = Some bs -> Forall is_byte bs.
Proof.
  intros Hm. revert a bs. induction n as [|n IH]; intros a bs; cbn; [by intros [= <-]|].
  intros (b & Hb & H)%bind_Some. apply bind_Some in H as (bs' & H & [= <-]).
  constructor; [by eapply load_byte_range|eauto].
Qed.

Lemma load_uint_range n m a v : mem_ok m -> load_uint n m a = Some v -> 0 <= v < 256 ^ Z.of_nat n.
Proof.
  unfold load_uint. intros Hm (bs & Hbs & ->)%fmap_Some.
  rewrite <- (load_bytes_length _ _ _ _ Hbs). by eapply le_value_range, load_bytes_range.
Qed.

(** ** The concrete allocator keeps the contract *)

Lemma fold_max {A} (m : gmap Z A) b :
  b <= map_fold (fun a _ acc => Z.max a acc) b m /\
  forall i, is_Some (m !! i) -> i <= map_fold (fun a _ acc => Z.max a acc) b m.
Proof.
  induction m as [|k x m Hk Hfold IH] using map_first_key_ind.
  - rewrite map_fold_empty. split; [done|]. intros i [? Hi]. by rewrite lookup_empty in Hi.
  - rewrite map_fold_insert_first_key by done. destruct IH as [IH1 IH2]. split; [lia|].
    intros i [y Hi]. destruct (decide (i = k)) as [->|]; [lia|]. rewrite lookup_insert_ne in Hi by done.
    specialize (IH2 i ltac:(by eexists)). lia.
Qed.

Lemma top_address_bound m :
  0 <= top_address m /\ (forall i, is_Some (mbytes m !! i) -> i <= top_address m) /\
  (forall i, is_Some (mblocks m !! i) -> i <= top_address m).
Proof.
  unfold top_address. destruct (fold_max (mblocks m) 0) as [Hb1 Hb2].
  set (b := map_fold _ 0 (mblocks m)) in *. destruct (fold_max (mbytes m) b) as [Hm1 Hm2].
  split_and!; [lia|done|]. intros i Hi. specialize (Hb2 i Hi). lia.
Qed.

#[export] Instance bump_alloc_ok : AllocatorOk.
Proof.
  assert (Htop : forall m, top_address m < 16 * (top_address m / 16 + 1)).
  { intros m. pose proof (Z.div_mod (top_address m) 16 ltac:(lia)).
    pose proof (Z.mod_pos_bound (top_address m) 16 ltac:(lia)). lia. }
  split; unfold alloc_choose, bump_alloc; intros m n a.
  - case_decide; intros [= <-]. destruct (top_address_bound m) as (? & _). specialize (Htop m). lia.
  - intros i. case_decide; intros [= <-] Hi. apply eq_None_not_Some. intros Hs.
    destruct (top_address_bound m) as (_ & Hb & _). specialize (Hb i Hs). specialize (Htop m). lia.
  - case_decide; intros [= <-]. apply eq_None_not_Some. intros Hs.
    destruct (top_address_bound m) as (_ & _ & Hb). specialize (Hb _ Hs). specialize (Htop m). lia.
Qed.

(** ** Memories laid out from cells *)

Lemma region_set_lookup b a cs i :
  region_set b a cs !! i = if decide (a <= i < a + zlen cs) then cs !! Z.to_nat (i - a) else b !! i.
Proof.
  revert b a. induction cs as [|c cs IH]; intros b a; cbn [region_set length].
  - rewrite decide_False by lia. done.
  - rewrite IH. destruct (decide (i = a)) as [->|].
    + rewrite decide_False by lia. rewrite decide_True by lia. rewrite lookup_insert_eq, Z.sub_diag. done.
    + case_decide.
      * rewrite decide_True by lia. replace (Z.to_nat (i - a)) with (S (Z.to_nat (i - (a + 1)))) by lia. done.
      * rewrite decide_False by lia. by apply lookup_insert_ne.
Qed.

(** A struct of the given bytes at [a]. *)
Definition struct_mem (a : Z) (bs : list Z) : mem := Mem (region_set ∅ a (Some <$> bs)) ∅.

Lemma struct_mem_ok a bs : Forall is_byte bs -> mem_ok (struct_mem a bs).
Proof.
  intros Hb i x. cbn. rewrite region_set_lookup, length_fmap. case_decide; [|by rewrite lookup_empty].
  rewrite list_lookup_fmap. intros (y & Hy & [= ->])%fmap_Some. by eapply Forall_lookup_1.
Qed.
