(* ===== verification/PbTypes.v ===== *)
(** * PbTypes: nanopb's field descriptors (pb.h).

    The constants that encode a field's type byte, the descriptor record
    [pb_field_t], the extension type record and the C layout of the structs
    the library reads and writes through [void*] (pb_bytes_array_t,
    pb_callback_t, pb_extension_t) in the configuration the pods are built
    with: [PB_FIELD_32BIT] (so [pb_size_t] is 32 bits wide),
    [PB_ENABLE_MALLOC], 64-bit pointers and [size_t]. *)

From Stdlib Require Import ZifyBool.
From stdpp Require Import base tactics numbers list gmap strings.
From S2P Require Import Prelude.
Open Scope Z_scope.

(** ** The type byte *)

Definition PB_LTYPE_BOOL : Z := 0x00.
Definition PB_LTYPE_VARINT : Z := 0x01.
Definition PB_LTYPE_UVARINT : Z := 0x02.
Definition PB_LTYPE_SVARINT : Z := 0x03.
Definition PB_LTYPE_FIXED32 : Z := 0x04.
Definition PB_LTYPE_FIXED64 : Z := 0x05.
Definition PB_LTYPE_LAST_PACKABLE : Z := 0x05.
Definition PB_LTYPE_BYTES : Z := 0x06.
Definition PB_LTYPE_STRING : Z := 0x07.
Definition PB_LTYPE_SUBMESSAGE : Z := 0x08.
Definition PB_LTYPE_EXTENSION : Z := 0x09.
Definition PB_LTYPE_FIXED_LENGTH_BYTES : Z := 0x0A.
Definition PB_LTYPES_COUNT : Z := 0x0B.
Definition PB_LTYPE_MASK : Z := 0x0F.

Definition PB_HTYPE_REQUIRED : Z := 0x00.
Definition PB_HTYPE_OPTIONAL : Z := 0x10.
Definition PB_HTYPE_REPEATED : Z := 0x20.
Definition PB_HTYPE_ONEOF : Z := 0x30.
Definition PB_HTYPE_MASK : Z := 0x30.

Definition PB_ATYPE_STATIC : Z := 0x00.
Definition PB_ATYPE_POINTER : Z := 0x80.
Definition PB_ATYPE_CALLBACK : Z := 0x40.
Definition PB_ATYPE_MASK : Z := 0xC0.

Definition PB_ATYPE (x : Z) : Z := Z.land x PB_ATYPE_MASK.
Definition PB_HTYPE (x : Z) : Z := Z.land x PB_HTYPE_MASK.
Definition PB_LTYPE (x : Z) : Z := Z.land x PB_LTYPE_MASK.

(** [PB_SIZE_MAX], the largest [pb_size_t]; [PB_MAX_REQUIRED_FIELDS]. *)
Definition PB_SIZE_MAX : Z := 2 ^ 32 - 1.
Definition PB_MAX_REQUIRED_FIELDS : Z := 64.

(** ** Wire types *)

Definition PB_WT_VARINT : Z := 0.
Definition PB_WT_64BIT : Z := 1.
Definition PB_WT_STRING : Z := 2.
Definition PB_WT_32BIT : Z := 5.

(** ** Descriptors

    [field->ptr] is a [const void*]: NULL, the descriptor array of a
    submessage type, or the bytes of a default value.  Descriptor arrays are
    named by their index in the program's table of arrays, because message
    types may refer to each other recursively. *)
Inductive pb_ptr : Type :=
| PtrNull
| PtrFields (array : nat)
| PtrDefault (bytes : list Z).

Record pb_field : Type := PbField {
  tag : Z;
  type : Z;
  data_offset : Z;
  size_offset : Z;
  data_size : Z;
  array_size : Z;
  ptr : pb_ptr;
}.

#[export] Instance pb_ptr_eq_dec : EqDecision pb_ptr.
Proof. solve_decision. Defined.
#[export] Instance pb_field_eq_dec : EqDecision pb_field.
Proof. solve_decision. Defined.

Definition PB_LAST_FIELD : pb_field := PbField 0 0 0 0 0 0 PtrNull.

(** [pb_extension_type_t]: the two optional handlers (function pointers, 0
    for NULL) and [arg], which the default handlers take to be the
    descriptor of the extension field. *)
Record pb_extension_type : Type := PbExtensionType {
  ext_decode : Z;
  ext_encode : Z;
  ext_arg : pb_field;
}.

(** The constant data of a program that uses the library: the descriptor
    arrays and the extension types, by address. *)
Class PbProgram : Type := {
  descriptors : list (list pb_field);
  extension_types : gmap Z pb_extension_type;
}.

(** The array a submessage descriptor points to. *)
Definition submsg_fields `{PbProgram} (f : pb_field) : option (list pb_field) :=
  match ptr f with
  | PtrFields i => descriptors !! i
  | PtrNull | PtrDefault _ => None
  end.

(** ** Struct layouts *)

Definition sizeof_ptr : Z := 8.
(** [struct pb_bytes_array_s { pb_size_t size; pb_byte_t bytes[1]; }] *)
Definition bytes_array_size_off : Z := 0.
Definition bytes_array_bytes_off : Z := 4.
Definition PB_BYTES_ARRAY_T_ALLOCSIZE (n : Z) : Z := u64 (n + bytes_array_bytes_off).
(** [struct pb_callback_s { union funcs; void *arg; }] *)
Definition callback_funcs_off : Z := 0.
Definition callback_arg_off : Z := 8.
(** [struct pb_extension_s { type; dest; next; found }] *)
Definition extension_type_off : Z := 0.
Definition extension_dest_off : Z := 8.
Definition extension_next_off : Z := 16.
Definition extension_found_off : Z := 24.

(** ** Well-formed descriptors *)

Definition field_ok (f : pb_field) : Prop :=
  0 < tag f < 2 ^ 29 /\ (0 <= type f < 256 /\ PB_LTYPE (type f) < PB_LTYPES_COUNT) /\
  0 <= data_offset f <= PB_SIZE_MAX /\ - 2 ^ 31 <= size_offset f < 2 ^ 31 /\
  0 <= data_size f <= PB_SIZE_MAX /\ 0 <= array_size f <= PB_SIZE_MAX.

(** A descriptor array: proper entries, then the terminator. *)
Definition fields_ok (fields : list pb_field) : Prop :=
  exists l, fields = l ++ [PB_LAST_FIELD] /\ Forall field_ok l.

#[export] Instance field_ok_dec f : Decision (field_ok f).
Proof. unfold field_ok. apply _. Defined.

(** All the arrays of a program are well formed. *)
Definition program_ok `{PbProgram} : Prop :=
  forall i fields, descriptors !! i = Some fields -> fields_ok fields /\ zlen fields <= 2 ^ 32.

Definition is_required (f : pb_field) : bool := PB_HTYPE (type f) =? PB_HTYPE_REQUIRED.
Definition is_extension (f : pb_field) : bool := PB_LTYPE (type f) =? PB_LTYPE_EXTENSION.

(** The type byte splits into its three parts without loss. *)
Lemma type_split x : 0 <= x < 256 -> x = Z.lor (Z.lor (PB_ATYPE x) (PB_HTYPE x)) (PB_LTYPE x).
Proof.
  intros Hx. unfold PB_ATYPE, PB_HTYPE, PB_LTYPE.
  rewrite <- !Z.land_lor_distr_r. change (Z.lor _ _) with (2 ^ 8 - 1).
  rewrite land_low_bits by lia. symmetry. by apply Z.mod_small.
Qed.

(** The repetition rule is one of the four values the code switches on. *)
Lemma htype_cases x :
  PB_HTYPE x = PB_HTYPE_REQUIRED \/ PB_HTYPE x = PB_HTYPE_OPTIONAL \/
  PB_HTYPE x = PB_HTYPE_REPEATED \/ PB_HTYPE x = PB_HTYPE_ONEOF.
Proof.
  unfold PB_HTYPE. change PB_HTYPE_MASK with (Z.shiftl (2 ^ 2 - 1) 4). rewrite land_field by lia.
  pose proof (Z.mod_pos_bound (x / 2 ^ 4) (2 ^ 2) ltac:(lia)).
  assert ((x / 2 ^ 4) mod 2 ^ 2 = 0 \/ (x / 2 ^ 4) mod 2 ^ 2 = 1 \/ (x / 2 ^ 4) mod 2 ^ 2 = 2 \/
          (x / 2 ^ 4) mod 2 ^ 2 = 3) as Hc by lia.
  destruct Hc as [-> | [-> | [-> | ->]]]; auto.
Qed.
