(* ===== verification/PbCommon.v ===== *)
(** * PbCommon: the field iterator (pb_common.c).

    [pb_field_iter_t] walks a descriptor array and keeps, beside the position,
    the addresses of the current field's data and of its count/has/which
    member, and the number of required fields passed.  The theorems say that
    stepping visits exactly the layout of the struct and wraps around, and
    that a search finds a tag exactly when the array has it, from wherever
    it starts. *)

From Stdlib Require Import ZifyBool.
From stdpp Require Import base tactics numbers list gmap strings.
From S2P Require Import Prelude PbTypes.
Open Scope Z_scope.

(** [iter->pSize]: an address in the message memory, or the decoder's local
    variable [fixed_count_size], which [pb_decode_noinit] points it at. *)
Inductive size_ref : Type :=
| SizeAt (a : Z)
| SizeFixedCount.

#[export] Instance size_ref_eq_dec : EqDecision size_ref.
Proof. solve_decision. Defined.

Record pb_field_iter : Type := PbFieldIter {
  start : list pb_field;
  pos : nat;
  required_field_index : Z;
  dest_struct : Z;
  pData : Z;
  pSize : size_ref;
}.

(** [*iter->pos] *)
Definition at_pos (it : pb_field_iter) : outcome pb_field := demand (start it !! pos it).

Definition pb_field_iter_begin (fields : list pb_field) (dest : Z) : outcome (bool * pb_field_iter) :=
  f ← demand (fields !! 0%nat);
  let it :=
    if dest =? 0
    then PbFieldIter fields 0 0 dest 0 (SizeAt 0)
    else PbFieldIter fields 0 0 dest (dest + data_offset f)
           (SizeAt (dest + data_offset f + size_offset f)) in
  Done (negb (tag f =? 0), it).

(** The bytes the previous field takes in the struct. *)
Definition prev_field_size (prev : pb_field) : Z :=
  if (PB_ATYPE (type prev) =? PB_ATYPE_STATIC) && (PB_HTYPE (type prev) =? PB_HTYPE_REPEATED)
  then u64 (data_size prev * array_size prev)
  else if PB_ATYPE (type prev) =? PB_ATYPE_POINTER then sizeof_ptr
  else data_size prev.

(** Two consecutive members of one union. *)
Definition inside_union (prev f : pb_field) : bool :=
  (PB_HTYPE (type prev) =? PB_HTYPE_ONEOF) && (PB_HTYPE (type f) =? PB_HTYPE_ONEOF) &&
  (data_offset f =? PB_SIZE_MAX).

Definition pb_field_iter_next (it : pb_field_iter) : outcome (bool * pb_field_iter) :=
  prev ← at_pos it;
  if tag prev =? 0 then Done (false, it) else
  let pos' := S (pos it) in
  f ← demand (start it !! pos');
  if tag f =? 0 then
    '(_, it') ← pb_field_iter_begin (start it) (dest_struct it); Done (false, it')
  else if inside_union prev f then
    Done (true, PbFieldIter (start it) pos' (required_field_index it) (dest_struct it) (pData it) (pSize it))
  else
    let req := if PB_HTYPE (type prev) =? PB_HTYPE_REQUIRED
               then u32 (required_field_index it + 1) else required_field_index it in
    let pd := pData it + prev_field_size prev + data_offset f in
    Done (true, PbFieldIter (start it) pos' req (dest_struct it) pd (SizeAt (pd + size_offset f))).

Fixpoint iter_find_loop (fuel : nat) (origin : nat) (t : Z) (it : pb_field_iter)
    : outcome (bool * pb_field_iter) :=
  match fuel with
  | O => NoFuel
  | S fuel =>
    f ← at_pos it;
    if (tag f =? t) && negb (PB_LTYPE (type f) =? PB_LTYPE_EXTENSION) then Done (true, it) else
    '(_, it') ← pb_field_iter_next it;
    if Nat.eqb (pos it') origin then Done (false, it') else iter_find_loop fuel origin t it'
  end.

(** The loop comes back to its origin after one round of the array. *)
Definition pb_field_iter_find (it : pb_field_iter) (t : Z) : outcome (bool * pb_field_iter) :=
  iter_find_loop (S (length (start it))) (pos it) t it.

(** ** The struct layout a descriptor array describes

    [layout prev pd ps req rest]: data address, size address and required
    index of the fields [rest] that follow [prev] in the struct. *)
Fixpoint layout (prev : pb_field) (pd ps req : Z) (rest : list pb_field) : list (Z * Z * Z) :=
  match rest with
  | [] => []
  | f :: rest =>
    let '(pd', ps') :=
      if inside_union prev f then (pd, ps)
      else let a := pd + prev_field_size prev + data_offset f in (a, a + size_offset f) in
    let req' := if is_required prev then req + 1 else req in
    (pd', ps', req') :: layout f pd' ps' req' rest
  end.

Definition struct_layout (l : list pb_field) (dest : Z) : list (Z * Z * Z) :=
  match l with
  | [] => []
  | f :: rest =>
    let a := dest + data_offset f in
    (a, a + size_offset f, 0) :: layout f a (a + size_offset f) 0 rest
  end.

(** [it] stands on field [i] of [l] in the struct at [dest]; its size pointer
    may have been redirected to the decoder's local counter. *)
Definition iter_on (l : list pb_field) (dest : Z) (i : nat) (it : pb_field_iter) : Prop :=
  exists f pd ps req,
    l !! i = Some f /\ struct_layout l dest !! i = Some (pd, ps, req) /\
    start it = l ++ [PB_LAST_FIELD] /\ pos it = i /\ required_field_index it = req /\
    dest_struct it = dest /\ pData it = pd /\
    (pSize it = SizeAt ps \/ pSize it = SizeFixedCount /\ PB_HTYPE (type f) = PB_HTYPE_REPEATED).

(** The same with the size pointer in place. *)
Definition iter_at (l : list pb_field) (dest : Z) (i : nat) (it : pb_field_iter) : Prop :=
  exists pd ps req,
    struct_layout l dest !! i = Some (pd, ps, req) /\
    it = PbFieldIter (l ++ [PB_LAST_FIELD]) i req dest pd (SizeAt ps).

Lemma length_layout prev pd ps req rest : length (layout prev pd ps req rest) = length rest.
Proof.
  revert prev pd ps req. induction rest as [|f rest IH]; intros; cbn; [done|].
  case_match; cbn; by rewrite IH.
Qed.

Lemma length_struct_layout l dest : length (struct_layout l dest) = length l.
Proof. destruct l; cbn; [done|]. by rewrite length_layout. Qed.

(** One step of the layout. *)
Lemma layout_step prev pd ps req rest i f f' pd0 ps0 req0 :
  (prev :: rest) !! i = Some f -> (prev :: rest) !! S i = Some f' ->
  ((pd, ps, req) :: layout prev pd ps req rest) !! i = Some (pd0, ps0, req0) ->
  ((pd, ps, req) :: layout prev pd ps req rest) !! S i =
    Some (if inside_union f f' then (pd0, ps0, if is_required f then req0 + 1 else req0)
          else (pd0 + prev_field_size f + data_offset f',
                pd0 + prev_field_size f + data_offset f' + size_offset f',
                if is_required f then req0 + 1 else req0)).
Proof.
  revert prev pd ps req i. induction rest as [|g rest IH]; intros prev pd ps req [|i]; cbn; try done.
  - intros [= <-] [= <-] [= <- <- <-]. by case_match.
  - intros Hf Hf' Hl. destruct (if inside_union prev g then _ else _) as [pd' ps'] eqn:E.
    by apply (IH g pd' ps' _ i).
Qed.

Lemma struct_layout_step l dest i f f' pd ps req :
  l !! i = Some f -> l !! S i = Some f' -> struct_layout l dest !! i = Some (pd, ps, req) ->
  struct_layout l dest !! S i =
    Some (if inside_union f f' then (pd, ps, if is_required f then req + 1 else req)
          else (pd + prev_field_size f + data_offset f',
                pd + prev_field_size f + data_offset f' + size_offset f',
                if is_required f then req + 1 else req)).
Proof. destruct l as [|g l]; [done|]. intros. by eapply layout_step. Qed.

(** The required index of field [i] counts the required fields before it. *)
Lemma struct_layout_req l dest i pd ps req :
  struct_layout l dest !! i = Some (pd, ps, req) ->
  req = zlen (filter (fun f => is_required f = true) (take i l)).
Proof.
  revert pd ps req. induction i as [|i IH]; intros pd ps req H.
  - destruct l; cbn in *; [done|]. by injection H as <- <- <-.
  - assert (Hlt : (S i < length l)%nat).
    { rewrite <- (length_struct_layout l dest). by apply lookup_lt_Some in H. }
    destruct (lookup_lt_is_Some_2 l i ltac:(lia)) as [f Hf].
    destruct (lookup_lt_is_Some_2 l (S i) ltac:(lia)) as [f' Hf'].
    destruct (lookup_lt_is_Some_2 (struct_layout l dest) i) as [[[pd0 ps0] req0] H0].
    { rewrite length_struct_layout. lia. }
    rewrite (struct_layout_step _ _ _ _ _ _ _ _ Hf Hf' H0) in H.
    rewrite (take_S_r l i f Hf), filter_app, length_app.
    specialize (IH _ _ _ H0). rewrite filter_cons, filter_nil.
    destruct (is_required f) eqn:Er, (inside_union f f'); simplify_eq; case_decide; try done; cbn; lia.
Qed.

Lemma inside_union_not_required f f' : inside_union f f' = true -> is_required f = false.
Proof.
  unfold inside_union, is_required. intros H. apply andb_prop in H as [[H%Z.eqb_eq _]%andb_prop _].
  by rewrite H.
Qed.

Lemma last_lookup (l : list pb_field) i f :
  l !! i = Some f -> (l ++ [PB_LAST_FIELD]) !! i = Some f.
Proof. apply lookup_app_l_Some. Qed.

Lemma field_ok_tag f : field_ok f -> (tag f =? 0) = false.
Proof. intros H. apply Z.eqb_neq. destruct H. lia. Qed.

Lemma iter_at_on l dest i it f : l !! i = Some f -> iter_at l dest i it -> iter_on l dest i it.
Proof. intros Hf (pd & ps & req & H & ->). exists f, pd, ps, req. repeat split; auto. Qed.

(** Position [i] of a struct layout, as an iterator. *)
Lemma iter_at_exists l dest i : (i < length l)%nat -> exists it, iter_at l dest i it.
Proof.
  intros Hi. destruct (lookup_lt_is_Some_2 (struct_layout l dest) i) as [[[pd ps] req] H].
  { by rewrite length_struct_layout. }
  unfold iter_at. eauto 10.
Qed.

Lemma iter_begin_at l dest :
  dest <> 0 -> Forall field_ok l ->
  (l = [] -> exists it, pb_field_iter_begin (l ++ [PB_LAST_FIELD]) dest = Done (false, it)) /\
  (l <> [] -> exists it, pb_field_iter_begin (l ++ [PB_LAST_FIELD]) dest = Done (true, it) /\ iter_at l dest 0 it).
Proof.
  intros Hd Hl. apply Z.eqb_neq in Hd. unfold pb_field_iter_begin. split; [intros ->|intros Hne].
  - cbn. rewrite Hd. eauto.
  - destruct l as [|f l]; [done|]. inversion Hl; subst. cbn. rewrite Hd, field_ok_tag by done.
    eexists. split; [done|]. unfold iter_at. cbn. eauto 10.
Qed.

(** Stepping from field [i] reaches field [i + 1] with the addresses of the
    layout, or wraps to the first field. *)
Lemma iter_next_on l dest i it :
  dest <> 0 -> Forall field_ok l -> zlen l < 2 ^ 32 -> iter_on l dest i it ->
  exists it', pb_field_iter_next it = Done (bool_decide (S i < length l)%nat, it') /\
              iter_at l dest (if bool_decide (S i < length l)%nat then S i else 0%nat) it'.
Proof.
  intros Hd Hl Hlen (f & pd & ps & req & Hf & Hlay & Hs & Hp & Hr & Hds & Hpd & Hps).
  assert (Hfok : field_ok f) by (rewrite Forall_lookup in Hl; eauto).
  unfold pb_field_iter_next, at_pos. rewrite Hs, Hp, (last_lookup _ _ _ Hf). cbn -[layout].
  rewrite field_ok_tag by done. case_bool_decide as Hi.
  - destruct (lookup_lt_is_Some_2 l (S i) Hi) as [f' Hf'].
    assert (Hfok' : field_ok f') by (rewrite Forall_lookup in Hl; eauto).
    rewrite (last_lookup _ _ _ Hf'). cbn. rewrite field_ok_tag by done.
    pose proof (struct_layout_step _ _ _ _ _ _ _ _ Hf Hf' Hlay) as Hnext.
    pose proof (struct_layout_req _ _ _ _ _ _ Hlay) as Hreq.
    assert (0 <= req < 2 ^ 32 - 1) as Hreqb.
    { pose proof (length_filter (fun f => is_required f = true) (take i l)) as Hle.
      rewrite length_take in Hle. lia. }
    destruct (inside_union f f') eqn:Eu.
    + rewrite (inside_union_not_required _ _ Eu) in Hnext.
      eexists. split; [done|]. exists pd, ps, req. split; [done|].
      destruct Hps as [-> | [_ Hrep]]; [by rewrite Hr, Hds, Hpd|].
      unfold inside_union in Eu. by rewrite Hrep in Eu.
    + eexists. split; [done|]. unfold iter_at. do 3 eexists. split; [exact Hnext|].
      rewrite Hr, Hds, Hpd. unfold is_required.
      by rewrite u32_small by lia.
  - assert (i < length l)%nat by (by apply lookup_lt_Some in Hf).
    rewrite lookup_app_r by lia. replace (S i - length l)%nat with 0%nat by lia. cbn.
    rewrite Hds. assert (l <> []) as Hne by (intros ->; done).
    destruct (proj2 (iter_begin_at l dest Hd Hl) Hne) as (it' & -> & Hat). cbn. eauto.
Qed.

(** ** Searching a tag *)

Definition matches (t : Z) (f : pb_field) : Prop := tag f = t /\ PB_LTYPE (type f) <> PB_LTYPE_EXTENSION.

#[export] Instance matches_dec t f : Decision (matches t f).
Proof. unfold matches. apply _. Defined.

Lemma matches_test t f :
  (tag f =? t) && negb (PB_LTYPE (type f) =? PB_LTYPE_EXTENSION) = bool_decide (matches t f).
Proof. unfold matches. repeat case_bool_decide; destruct (Z.eqb_spec (tag f) t), (Z.eqb_spec (PB_LTYPE (type f)) PB_LTYPE_EXTENSION); naive_solver. Qed.

(** The position [k] steps after [i] on a ring of [n] fields. *)
Definition ring (n i k : nat) : nat := ((i + k) mod n)%nat.

Lemma ring_lt n i k : (0 < n)%nat -> (ring n i k < n)%nat.
Proof. intros. unfold ring. apply Nat.mod_upper_bound. lia. Qed.

Lemma ring_0 n i : (i < n)%nat -> ring n i 0 = i.
Proof. intros. unfold ring. rewrite Nat.add_0_r. by apply Nat.mod_small. Qed.

Lemma ring_S n i k :
  (i < n)%nat -> (if bool_decide (S (ring n i k) < n)%nat then S (ring n i k) else 0%nat) = ring n i (S k).
Proof.
  intros Hi. unfold ring. rewrite Nat.add_succ_r.
  pose proof (Nat.mod_upper_bound (i + k) n ltac:(lia)).
  replace (S (i + k)) with ((i + k) + 1)%nat by lia.
  rewrite <- (Nat.Div0.add_mod_idemp_l (i + k) 1 n), Nat.add_1_r.
  generalize dependent ((i + k) mod n)%nat; intros r Hr.
  case_bool_decide; [by rewrite Nat.mod_small by lia|].
  replace (S r) with n by lia. by rewrite Nat.Div0.mod_same.
Qed.

Lemma ring_return n i k : (i < n)%nat -> (0 < k <= n)%nat -> ring n i k = i -> k = n.
Proof.
  intros Hi Hk. unfold ring. intros H.
  pose proof (Nat.div_mod_eq (i + k) n). rewrite H in H0.
  assert (k = n * ((i + k) / n))%nat by lia.
  destruct ((i + k) / n)%nat as [|[|q]]; nia.
Qed.

(** The loop looks at the fields in ring order and stops at the first match
    or back at the origin. *)
Lemma iter_find_loop_spec l dest t i :
  dest <> 0 -> Forall field_ok l -> zlen l < 2 ^ 32 -> (i < length l)%nat ->
  forall fuel k it,
  (k <= length l)%nat -> (length l < k + fuel)%nat -> (k < length l)%nat ->
  iter_on l dest (ring (length l) i k) it ->
  (forall j f, (j < k)%nat -> l !! ring (length l) i j = Some f -> ~ matches t f) ->
  exists found it', iter_find_loop fuel i t it = Done (found, it') /\
    if found : bool then
      exists j f, (k <= j < length l)%nat /\ l !! ring (length l) i j = Some f /\ matches t f /\
        (forall j' f', (j' < j)%nat -> l !! ring (length l) i j' = Some f' -> ~ matches t f') /\
        (if decide (j = k) then it' = it else iter_at l dest (ring (length l) i j) it')
    else iter_at l dest i it' /\ forall f, f ∈ l -> ~ matches t f.
Proof.
  intros Hd Hl Hlen Hi. induction fuel as [|fuel IH]; intros k it Hk Hfuel Hkl Hon Hprev; [lia|].
  cbn [iter_find_loop].
  pose proof Hon as (f & pd & ps & req & Hf & _ & Hs & Hp & _).
  unfold at_pos. rewrite Hs, Hp, (last_lookup _ _ _ Hf). cbn.
  rewrite matches_test. case_bool_decide as Hm.
  { exists true, it. split; [done|]. exists k, f. repeat split; eauto; try lia; [apply Hm..|].
    by rewrite decide_True. }
  destruct (iter_next_on _ _ _ _ Hd Hl Hlen Hon) as (it' & -> & Hat). cbn.
  rewrite ring_S in Hat by done.
  assert (Hpos : pos it' = ring (length l) i (S k)) by (destruct Hat as (?&?&?&?&->); done).
  assert (Hprev' : forall j f, (j < S k)%nat -> l !! ring (length l) i j = Some f -> ~ matches t f).
  { intros j f' Hj Hf'. destruct (decide (j = k)) as [->|]; [by simplify_eq|]. eapply Hprev; eauto; lia. }
  rewrite Hpos. destruct (Nat.eqb_spec (ring (length l) i (S k)) i) as [E|E].
  - exists false, it'. split; [done|]. rewrite E in Hat. split; [done|].
    apply ring_return in E; [|done|lia].
    intros f' (j & Hj)%list_elem_of_lookup_1 Hm'. pose proof (lookup_lt_Some _ _ _ Hj).
    destruct (decide (i <= j)%nat).
    + apply (Hprev' (j - i)%nat f'); [lia| |done]. unfold ring.
      rewrite Nat.mod_small by lia. by replace (i + (j - i))%nat with j by lia.
    + apply (Hprev' (j + length l - i)%nat f'); [lia| |done]. unfold ring.
      replace (i + (j + length l - i))%nat with (j + 1 * length l)%nat by lia.
      rewrite Nat.Div0.mod_add, Nat.mod_small by lia. done.
  - assert (S k < length l)%nat.
    { destruct (decide (S k = length l)) as [Ek|]; [|lia]. exfalso. apply E. unfold ring.
      rewrite Ek. replace (i + length l)%nat with (i + 1 * length l)%nat by lia.
      rewrite Nat.Div0.mod_add, Nat.mod_small by lia. done. }
    destruct (lookup_lt_is_Some_2 l (ring (length l) i (S k))) as [g Hg]; [apply ring_lt; lia|].
    destruct (IH (S k) it' ltac:(lia) ltac:(lia) ltac:(lia) (iter_at_on _ _ _ _ _ Hg Hat) Hprev')
      as (found & it2 & -> & Hres).
    exists found, it2. split; [done|]. destruct found; [|done].
    destruct Hres as (j & fj & Hj & Hlj & Hmj & Hfirst & Hit). exists j, fj.
    repeat split; auto; try lia; [apply Hmj..|].
    rewrite decide_False by lia. case_decide; [by subst|done].
Qed.

(** [pb_field_iter_find]: from any position, on any struct, the search
    succeeds exactly when the array holds a non-extension field with the tag;
    it then stands on the first such field in ring order, with the addresses
    of the struct layout, and otherwise it is back where it started. *)
Lemma iter_find_spec l dest t i it :
  dest <> 0 -> Forall field_ok l -> zlen l < 2 ^ 32 -> iter_on l dest i it ->
  exists found it', pb_field_iter_find it t = Done (found, it') /\
    if found : bool then
      exists j f, l !! j = Some f /\ matches t f /\
        (if decide (j = i) then it' = it else iter_at l dest j it') /\
        (matches t (default PB_LAST_FIELD (l !! i)) -> j = i)
    else iter_at l dest i it' /\ forall f, f ∈ l -> ~ matches t f.
Proof.
  intros Hd Hl Hlen Hon. pose proof Hon as (f & pd & ps & req & Hf & _ & Hs & Hp & _).
  pose proof (lookup_lt_Some _ _ _ Hf) as Hi.
  destruct (iter_find_loop_spec l dest t i Hd Hl Hlen Hi (S (length (start it))) 0 it) as (found & it' & H & Hres);
    [lia|rewrite Hs, length_app; cbn; lia|lia|by rewrite ring_0|lia|].
  exists found, it'. unfold pb_field_iter_find. rewrite Hp. split; [done|].
  destruct found; [|done].
  destruct Hres as (j & fj & Hj & Hlj & Hmj & Hfirst & Hit).
  exists (ring (length l) i j), fj. split; [done|]. split; [done|].
  assert (Hring : ring (length l) i j = i <-> j = 0%nat).
  { split; [|intros ->; by apply ring_0]. intros E. destruct j as [|j]; [done|].
    apply ring_return in E; lia. }
  split.
  - repeat case_decide; tauto.
  - rewrite Hf. cbn. intros Hm. apply Hring. destruct j as [|j]; [done|].
    exfalso. apply (Hfirst 0%nat f); [lia|by rewrite ring_0|done].
Qed.
