(* ===== verification/PbFields.v ===== *)
(** * PbFields: the descriptor macros of pb.h.

    [PB_FIELD] and its relatives turn a member of a C struct into a
    [pb_field_t].  A member is given by what [offsetof] and [sizeof] say about
    it; offsets between members are computed in [size_t] and [int] and cut to
    the widths of the descriptor.  The theorem of this file closes the gap to
    the iterator: walking the descriptors a generated table holds visits the
    true addresses of the members. *)

From Stdlib Require Import ZifyBool.
From stdpp Require Import base tactics numbers list gmap strings.
From S2P Require Import Prelude PbTypes PbCommon.
Open Scope Z_scope.

(** A member: [offsetof(st, m)], [pb_membersize(st, m)],
    [pb_membersize(st, m[0])] and the offset of its [has_m], [m_count] or
    [which_u]. *)
Record member : Type := Member {
  m_offset : Z;
  m_size : Z;
  m_elem : Z;
  m_companion : Z;
}.

Definition pb_arraysize (m : member) : Z := m_size m / m_elem m.
Definition pb_delta (a b : Z) : Z := s32 (s32 a - s32 b).

Definition PB_DATAOFFSET_FIRST (m1 : member) : Z := u32 (m_offset m1).
Definition PB_DATAOFFSET_OTHER (m1 m2 : member) : Z := u32 (u64 (m_offset m1 - m_offset m2 - m_size m2)).
Definition PB_DATAOFFSET_UNION : Z := PB_SIZE_MAX.

(** [tag], type byte, [data_offset], [size_offset], [data_size], [array_size]
    and [ptr], for each rule and allocation. *)
Definition PB_REQUIRED_STATIC (t : Z) (m : member) (fd ltype : Z) (p : pb_ptr) : pb_field :=
  PbField t (Z.lor (Z.lor PB_ATYPE_STATIC PB_HTYPE_REQUIRED) ltype) fd 0 (m_size m) 0 p.
Definition PB_OPTIONAL_STATIC (t : Z) (m : member) (fd ltype : Z) (p : pb_ptr) : pb_field :=
  PbField t (Z.lor (Z.lor PB_ATYPE_STATIC PB_HTYPE_OPTIONAL) ltype) fd
    (pb_delta (m_companion m) (m_offset m)) (m_size m) 0 p.
Definition PB_SINGULAR_STATIC (t : Z) (m : member) (fd ltype : Z) (p : pb_ptr) : pb_field :=
  PbField t (Z.lor (Z.lor PB_ATYPE_STATIC PB_HTYPE_OPTIONAL) ltype) fd 0 (m_size m) 0 p.
Definition PB_REPEATED_STATIC (t : Z) (m : member) (fd ltype : Z) (p : pb_ptr) : pb_field :=
  PbField t (Z.lor (Z.lor PB_ATYPE_STATIC PB_HTYPE_REPEATED) ltype) fd
    (pb_delta (m_companion m) (m_offset m)) (m_elem m) (pb_arraysize m) p.
Definition PB_REPEATED_FIXED_COUNT (t : Z) (m : member) (fd ltype : Z) (p : pb_ptr) : pb_field :=
  PbField t (Z.lor (Z.lor PB_ATYPE_STATIC PB_HTYPE_REPEATED) ltype) fd 0 (m_elem m) (pb_arraysize m) p.
Definition PB_REQUIRED_POINTER (t : Z) (m : member) (fd ltype : Z) (p : pb_ptr) : pb_field :=
  PbField t (Z.lor (Z.lor PB_ATYPE_POINTER PB_HTYPE_REQUIRED) ltype) fd 0 (m_elem m) 0 p.
Definition PB_OPTIONAL_POINTER (t : Z) (m : member) (fd ltype : Z) (p : pb_ptr) : pb_field :=
  PbField t (Z.lor (Z.lor PB_ATYPE_POINTER PB_HTYPE_OPTIONAL) ltype) fd 0 (m_elem m) 0 p.
Definition PB_REPEATED_POINTER (t : Z) (m : member) (fd ltype : Z) (p : pb_ptr) : pb_field :=
  PbField t (Z.lor (Z.lor PB_ATYPE_POINTER PB_HTYPE_REPEATED) ltype) fd
    (pb_delta (m_companion m) (m_offset m)) (m_elem m) 0 p.
Definition PB_REQUIRED_CALLBACK (t : Z) (m : member) (fd ltype : Z) (p : pb_ptr) : pb_field :=
  PbField t (Z.lor (Z.lor PB_ATYPE_CALLBACK PB_HTYPE_REQUIRED) ltype) fd 0 (m_size m) 0 p.
Definition PB_OPTIONAL_CALLBACK (t : Z) (m : member) (fd ltype : Z) (p : pb_ptr) : pb_field :=
  PbField t (Z.lor (Z.lor PB_ATYPE_CALLBACK PB_HTYPE_OPTIONAL) ltype) fd 0 (m_size m) 0 p.
Definition PB_REPEATED_CALLBACK (t : Z) (m : member) (fd ltype : Z) (p : pb_ptr) : pb_field :=
  PbField t (Z.lor (Z.lor PB_ATYPE_CALLBACK PB_HTYPE_REPEATED) ltype) fd 0 (m_size m) 0 p.
Definition PB_ONEOF_STATIC (t : Z) (m : member) (fd ltype : Z) (p : pb_ptr) : pb_field :=
  PbField t (Z.lor (Z.lor PB_ATYPE_STATIC PB_HTYPE_ONEOF) ltype) fd
    (pb_delta (m_companion m) (m_offset m)) (m_size m) 0 p.
Definition PB_ONEOF_POINTER (t : Z) (m : member) (fd ltype : Z) (p : pb_ptr) : pb_field :=
  PbField t (Z.lor (Z.lor PB_ATYPE_POINTER PB_HTYPE_ONEOF) ltype) fd
    (pb_delta (m_companion m) (m_offset m)) (m_elem m) 0 p.
(** An extension's descriptor stands alone, with its data at the address the
    extension gives; the pointer and callback forms are the optional ones. *)
Definition PB_OPTEXT_STATIC (t : Z) (m : member) (fd ltype : Z) (p : pb_ptr) : pb_field :=
  PbField t (Z.lor (Z.lor PB_ATYPE_STATIC PB_HTYPE_REQUIRED) ltype) 0 0 (m_size m) 0 p.

Inductive rules : Type := REQUIRED | OPTIONAL | SINGULAR | REPEATED | FIXED_COUNT | ONEOF.
Inductive allocation : Type := STATIC | POINTER | CALLBACK.
Inductive placement : Type := FIRST | OTHER | UNION.

#[export] Instance rules_eq_dec : EqDecision rules.
Proof. solve_decision. Defined.
#[export] Instance placement_eq_dec : EqDecision placement.
Proof. solve_decision. Defined.

(** [PB_DATAOFFSET_ ## placement] *)
Definition data_offset_of (pl : placement) (m prev : member) : Z :=
  match pl with
  | FIRST => PB_DATAOFFSET_FIRST m
  | OTHER => PB_DATAOFFSET_OTHER m prev
  | UNION => PB_DATAOFFSET_UNION
  end.

(** [PB_FIELD], [PB_REPEATED_FIXED_COUNT] and [PB_ONEOF_FIELD]: the macro the
    arguments select; the combinations no macro exists for give [None]. *)
Definition PB_FIELD (t ltype : Z) (r : rules) (al : allocation) (pl : placement) (m prev : member) (p : pb_ptr)
    : option pb_field :=
  let fd := data_offset_of pl m prev in
  match r, al with
  | REQUIRED, STATIC => Some (PB_REQUIRED_STATIC t m fd ltype p)
  | OPTIONAL, STATIC => Some (PB_OPTIONAL_STATIC t m fd ltype p)
  | SINGULAR, STATIC => Some (PB_SINGULAR_STATIC t m fd ltype p)
  | REPEATED, STATIC => Some (PB_REPEATED_STATIC t m fd ltype p)
  | FIXED_COUNT, STATIC => Some (PB_REPEATED_FIXED_COUNT t m fd ltype p)
  | ONEOF, STATIC => Some (PB_ONEOF_STATIC t m fd ltype p)
  | REQUIRED, POINTER => Some (PB_REQUIRED_POINTER t m fd ltype p)
  | OPTIONAL, POINTER | SINGULAR, POINTER => Some (PB_OPTIONAL_POINTER t m fd ltype p)
  | REPEATED, POINTER => Some (PB_REPEATED_POINTER t m fd ltype p)
  | ONEOF, POINTER => Some (PB_ONEOF_POINTER t m fd ltype p)
  | REQUIRED, CALLBACK => Some (PB_REQUIRED_CALLBACK t m fd ltype p)
  | OPTIONAL, CALLBACK | SINGULAR, CALLBACK => Some (PB_OPTIONAL_CALLBACK t m fd ltype p)
  | REPEATED, CALLBACK => Some (PB_REPEATED_CALLBACK t m fd ltype p)
  | FIXED_COUNT, _ | ONEOF, CALLBACK => None
  end.

(** ** A generated table *)

(** The arguments of one field of a generated table. *)
Record decl : Type := Decl {
  d_tag : Z;
  d_ltype : Z;
  d_rules : rules;
  d_alloc : allocation;
  d_place : placement;
  d_member : member;
  d_ptr : pb_ptr;
}.

Definition decl_field (prev : member) (d : decl) : option pb_field :=
  PB_FIELD (d_tag d) (d_ltype d) (d_rules d) (d_alloc d) (d_place d) (d_member d) prev (d_ptr d).

(** Every entry names the entry before it as its previous field, the first one itself. *)
Fixpoint table_from (prev : member) (ds : list decl) : option (list pb_field) :=
  match ds with
  | [] => Some []
  | d :: ds => f ← decl_field prev d; fs ← table_from (d_member d) ds; Some (f :: fs)
  end.

Definition table (ds : list decl) : option (list pb_field) :=
  match ds with
  | [] => Some []
  | d :: _ => table_from (d_member d) ds
  end.

(** A member as C lays it out. *)
Definition member_ok (d : decl) : Prop :=
  let m := d_member d in
  0 <= m_offset m < 2 ^ 31 /\ 0 <= m_companion m < 2 ^ 31 /\ 0 <= m_size m < 2 ^ 31 /\ 0 <= d_ltype d < 16 /\
  (d_alloc d = POINTER -> m_size m = sizeof_ptr) /\
  (d_rules d = REPEATED \/ d_rules d = FIXED_COUNT -> d_alloc d = STATIC -> 0 < m_elem m /\ m_size m = m_elem m * pb_arraysize m).

(** Consecutive entries: a later member starts behind the earlier one, and
    entries placed in a union share the union's place and selector. *)
Definition follows (d d' : decl) : Prop :=
  match d_place d' with
  | FIRST => False
  | OTHER => m_offset (d_member d) + m_size (d_member d) <= m_offset (d_member d') /\
      m_offset (d_member d') - m_offset (d_member d) - m_size (d_member d) <> PB_SIZE_MAX
  | UNION => d_rules d = ONEOF /\ d_rules d' = ONEOF /\ m_offset (d_member d') = m_offset (d_member d) /\
      m_companion (d_member d') = m_companion (d_member d)
  end.

(** The address of the count, has or which member; the data itself when there
    is none. *)
Definition size_member (d : decl) : Z :=
  match d_rules d, d_alloc d with
  | OPTIONAL, STATIC | REPEATED, STATIC | REPEATED, POINTER | ONEOF, STATIC | ONEOF, POINTER => m_companion (d_member d)
  | _, _ => m_offset (d_member d)
  end.

Lemma pb_delta_small a b : 0 <= a < 2 ^ 31 -> 0 <= b < 2 ^ 31 -> pb_delta a b = a - b.
Proof.
  intros. unfold pb_delta, s32. rewrite (signed_small 32 a), (signed_small 32 b) by lia. apply signed_small; lia.
Qed.

Lemma small_ltype l : 0 <= l < 16 -> Z.land l PB_ATYPE_MASK = 0 /\ Z.land l PB_HTYPE_MASK = 0.
Proof.
  intros Hl. assert (exists k : nat, (k < 16)%nat /\ l = Z.of_nat k) as (k & Hk & ->) by (exists (Z.to_nat l); lia).
  do 16 (destruct k as [|k]; [by split|]). lia.
Qed.

Lemma type_atype x l : 0 <= l < 16 -> PB_ATYPE (Z.lor x l) = PB_ATYPE x.
Proof. intros Hl. unfold PB_ATYPE. rewrite Z.land_lor_distr_l. destruct (small_ltype l Hl) as [-> _]. apply Z.lor_0_r. Qed.

Lemma type_htype x l : 0 <= l < 16 -> PB_HTYPE (Z.lor x l) = PB_HTYPE x.
Proof. intros Hl. unfold PB_HTYPE. rewrite Z.land_lor_distr_l. destruct (small_ltype l Hl) as [_ ->]. apply Z.lor_0_r. Qed.

(** What a descriptor of the table says. *)
Lemma decl_field_spec prev d f :
  member_ok d -> decl_field prev d = Some f ->
  data_offset f = data_offset_of (d_place d) (d_member d) prev /\
  m_offset (d_member d) + size_offset f = size_member d /\
  prev_field_size f = m_size (d_member d) /\
  (d_rules d = ONEOF <-> PB_HTYPE (type f) = PB_HTYPE_ONEOF).
Proof.
  intros (Ho & Hc & Hs & Hl & Hp & Hr) Hf. unfold decl_field, PB_FIELD in Hf. unfold size_member, prev_field_size.
  destruct (d_rules d), (d_alloc d); try discriminate; injection Hf as <-;
    cbn [data_offset size_offset data_size array_size type PB_REQUIRED_STATIC PB_OPTIONAL_STATIC PB_SINGULAR_STATIC
      PB_REPEATED_STATIC PB_REPEATED_FIXED_COUNT PB_REQUIRED_POINTER PB_OPTIONAL_POINTER PB_REPEATED_POINTER
      PB_REQUIRED_CALLBACK PB_OPTIONAL_CALLBACK PB_REPEATED_CALLBACK PB_ONEOF_STATIC PB_ONEOF_POINTER];
    rewrite type_atype, type_htype, ?pb_delta_small by lia;
    (split; [done|]); (split; [lia|]); (split; [|by split]);
    repeat match goal with |- context [?a =? ?b] =>
      let v := eval vm_compute in (a =? b) in change (a =? b) with v end; cbn [andb];
    try (destruct Hr as [? Hr]; [tauto|done|]; rewrite u64_small; lia);
    try (symmetry; by apply Hp); done.
Qed.

(** The place of the first entry, then each entry behind the one before. *)
Fixpoint chained (d : decl) (ds : list decl) : Prop :=
  match ds with
  | [] => True
  | d' :: ds => follows d d' /\ member_ok d' /\ chained d' ds
  end.

Definition table_ok (ds : list decl) : Prop :=
  match ds with
  | [] => True
  | d :: ds => d_place d = FIRST /\ member_ok d /\ chained d ds
  end.

(** The slot the layout has for a declaration. *)
Definition decl_slot (dest : Z) (d : decl) (x : Z * Z * Z) : Prop :=
  x.1.1 = dest + m_offset (d_member d) /\ x.1.2 = dest + size_member d.

Lemma layout_table dest prev d f req ds fs :
  member_ok d -> decl_field prev d = Some f -> chained d ds -> table_from (d_member d) ds = Some fs ->
  Forall2 (decl_slot dest) ds (layout f (dest + m_offset (d_member d)) (dest + size_member d) req fs).
Proof.
  revert prev d f req fs. induction ds as [|d' ds IH]; intros prev d f req fs Hok Hf Hch Hfs; cbn in Hfs.
  { injection Hfs as <-. constructor. }
  apply bind_Some in Hfs as (f' & Hf' & Hfs). apply bind_Some in Hfs as (fs' & Hfs & [= <-]).
  destruct Hch as (Hfol & Hok' & Hch). cbn [layout].
  pose proof (decl_field_spec _ _ _ Hok Hf) as (_ & _ & Hsz & Hone).
  pose proof (decl_field_spec _ _ _ Hok' Hf') as (Hoff & Hsm & _ & Hone').
  assert (Hslot : (if inside_union f f' then (dest + m_offset (d_member d), dest + size_member d)
      else let a := dest + m_offset (d_member d) + prev_field_size f + data_offset f' in (a, a + size_offset f'))
    = (dest + m_offset (d_member d'), dest + size_member d')).
  { unfold follows in Hfol. unfold inside_union. rewrite Hsz, Hoff. pose proof Hok as (? & ? & ? & _).
    pose proof Hok' as (? & ? & ? & _). unfold data_offset_of. destruct (d_place d').
    - done.
    - destruct Hfol as [Hle Hne]. unfold PB_DATAOFFSET_OTHER. rewrite u64_small, u32_small by lia.
      destruct (Z.eqb_spec (m_offset (d_member d') - m_offset (d_member d) - m_size (d_member d)) PB_SIZE_MAX); [done|].
      rewrite andb_false_r. cbv zeta. f_equal; lia.
    - destruct Hfol as (Hr & Hr' & Ho & Hc). rewrite (proj1 Hone Hr), (proj1 Hone' Hr').
      change ((PB_HTYPE_ONEOF =? PB_HTYPE_ONEOF) && (PB_HTYPE_ONEOF =? PB_HTYPE_ONEOF) &&
        (PB_DATAOFFSET_UNION =? PB_SIZE_MAX)) with true. cbv iota. rewrite Ho. f_equal.
      unfold decl_field, PB_FIELD, size_member in *. rewrite Hr, Hr' in *.
      destruct (d_alloc d), (d_alloc d'); try discriminate; lia. }
  destruct (if inside_union f f' then _ else _) as [pd' ps']. injection Hslot as -> ->.
  constructor; [done|]. by eapply IH.
Qed.

Lemma table_layout dest ds l :
  table_ok ds -> table ds = Some l -> Forall2 (decl_slot dest) ds (struct_layout l dest).
Proof.
  intros Hok Ht. destruct ds as [|d ds]; cbn in Ht; [by injection Ht as <-; constructor|].
  destruct Hok as (Hpl & Hm & Hch). apply bind_Some in Ht as (f & Hf & Ht).
  apply bind_Some in Ht as (fs & Hfs & [= <-]). cbn [struct_layout].
  pose proof (decl_field_spec _ _ _ Hm Hf) as (Hoff & Hsm & _). rewrite Hpl in Hoff. cbn in Hoff.
  pose proof Hm as (? & _). unfold PB_DATAOFFSET_FIRST in Hoff. rewrite u32_small in Hoff by lia.
  replace (dest + data_offset f) with (dest + m_offset (d_member d)) by lia.
  replace (dest + m_offset (d_member d) + size_offset f) with (dest + size_member d) by lia.
  constructor; [done|]. by eapply layout_table.
Qed.


(** Descriptors describe the struct.  For every table built with the
    macros of pb.h from members in struct order, unions included, the layout
    the field iterator walks gives each field the address of its member and of
    its [has_], [_count] or [which_] companion. *)
Theorem macros_give_member_addresses ds l dest i d :
  table_ok ds -> table ds = Some l -> ds !! i = Some d ->
  exists req, struct_layout l dest !! i =
    Some (dest + m_offset (d_member d), dest + size_member d, req).
Proof.
  intros Hok Ht Hd. pose proof (table_layout dest ds l Hok Ht) as Hall.
  destruct (Forall2_lookup_l _ _ _ _ _ Hall Hd) as ([[pd ps] req] & Hl & [Hpd Hps]). cbn in Hpd, Hps. subst.
  by exists req.
Qed.

(** struct { int32 a; pb_size_t v_count; int32 v[3]; pb_size_t which_u; union { uint32 x; bool y; } u; char *s; } *)
Definition Sample_decls : list decl :=
  [ Decl 1 PB_LTYPE_VARINT REQUIRED STATIC FIRST (Member 0 4 4 0) PtrNull;
    Decl 2 PB_LTYPE_VARINT REPEATED STATIC OTHER (Member 8 12 4 4) PtrNull;
    Decl 3 PB_LTYPE_UVARINT ONEOF STATIC OTHER (Member 24 4 4 20) PtrNull;
    Decl 4 PB_LTYPE_BOOL ONEOF STATIC UNION (Member 24 1 1 20) PtrNull;
    Decl 5 PB_LTYPE_STRING OPTIONAL POINTER OTHER (Member 32 8 1 32) PtrNull ].

Lemma macros_give_member_addresses_witness :
  exists req, struct_layout (default [] (table Sample_decls)) 1000 !! 3%nat = Some (1000 + 24, 1000 + 20, req).
Proof.
  apply (macros_give_member_addresses Sample_decls (default [] (table Sample_decls)) 1000 3
    (Decl 4 PB_LTYPE_BOOL ONEOF STATIC UNION (Member 24 1 1 20) PtrNull)); [|reflexivity|reflexivity].
  vm_compute. repeat split; try done; intros; try discriminate; try (by destruct H).
Defined.
