(* ===== verification/PbOStream.v ===== *)
(** * PbOStream: output streams and the wire primitives of pb_encode.c.

    A [pb_ostream_t] is a callback with its state, a byte limit and a byte
    counter; a NULL callback makes a sizing stream.  The callback is code of
    the library's user, so it is an interface ([Sink]) with the contract
    pb_encode.h documents as its laws ([LawfulSink]); the library's own
    [buf_write] and the [std::string] appender of Firestore's writer.cc are
    instances.  [emits] is the specification of an encoding routine: the
    bytes it produces on every stream, and what happens when they do not
    fit. *)

From Stdlib Require Import ZifyBool.
From stdpp Require Import base tactics numbers list gmap strings.
From S2P Require Import Prelude Mem PbTypes.
Open Scope Z_scope.

Class Sink (S : Type) : Type := {
  sink_null : S;
  sink_write : S -> list Z -> outcome (bool * S);
}.

Record pb_ostream (S : Type) : Type := PbOStream {
  callback : bool;
  state : S;
  max_size : Z;
  bytes_written : Z;
  errmsg : option string;
}.
Arguments PbOStream {S} _ _ _ _ _.
Arguments callback {S} _.
Arguments state {S} _.
Arguments max_size {S} _.
Arguments bytes_written {S} _.
Arguments errmsg {S} _.

(** An encoding routine: returns C's [bool] and the updated stream. *)
Definition enc (S : Type) : Type := pb_ostream S -> outcome (bool * pb_ostream S).

(** [if (!e1) return false; e2] *)
Definition enc_seq {S} (e1 e2 : enc S) : enc S := fun s =>
  '(ok, s1) ← e1 s; if ok : bool then e2 s1 else Done (false, s1).
Infix ">>?" := enc_seq (at level 60, right associativity).

Definition enc_true {S} : enc S := fun s => Done (true, s).

(** [PB_RETURN_ERROR]: the first message is kept. *)
Definition enc_error {S} (msg : string) : enc S := fun s =>
  Done (false, PbOStream (callback s) (state s) (max_size s) (bytes_written s)
                 (Some (default msg (errmsg s)))).

(** Run a routine that depends on a memory object. *)
Definition enc_with {S A} (o : option A) (k : A -> enc S) : enc S := fun s => a ← demand o; k a s.

(** ** Memory buffers: [buf_write] and [pb_ostream_from_buffer] *)

(** [stream->state] of a buffer stream: the buffer and the position the
    pointer has reached in it. *)
Record membuf : Type := MemBuf { mb_data : list Z; mb_pos : nat }.

Definition buf_write (b : membuf) (buf : list Z) : outcome (bool * membuf) :=
  if decide (mb_pos b + length buf <= length (mb_data b))%nat
  then Done (true, MemBuf (list_inserts (mb_pos b) buf (mb_data b)) (mb_pos b + length buf))
  else Undef.

#[export] Instance membuf_sink : Sink membuf := {
  sink_null := MemBuf [] 0;
  sink_write := buf_write;
}.

Definition pb_ostream_from_buffer (buf : list Z) (bufsize : Z) : pb_ostream membuf :=
  PbOStream true (MemBuf buf 0) bufsize 0 None.

(** Firestore's [AppendToString]: the state is a [std::string]. *)
#[export] Instance string_sink : Sink (list Z) := {
  sink_null := [];
  sink_write := fun str buf => Done (true, str ++ buf);
}.

(** ** [pb_write] and the encoders of single values *)

Section Write.
Context {S : Type} `{Sink S}.

Definition PB_OSTREAM_SIZING : pb_ostream S := PbOStream false sink_null 0 0 None.

(** [buf] is [None] when the pointer is NULL or does not point to readable
    memory; it is only dereferenced when the callback runs. *)
Definition pb_write (buf : option (list Z)) (count : Z) : enc S := fun s =>
  if (0 <? count) && callback s then
    let written := u64 (bytes_written s + count) in
    if (written <? bytes_written s) || (max_size s <? written) then enc_error "stream full" s else
    data ← demand buf;
    if decide (zlen data < count) then Undef else
    '(ok, st) ← sink_write (state s) (take (Z.to_nat count) data);
    let s1 := PbOStream (callback s) st (max_size s) (bytes_written s) (errmsg s) in
    if negb ok then enc_error "io error" s1
    else Done (true, PbOStream (callback s) st (max_size s) written (errmsg s))
  else Done (true, PbOStream (callback s) (state s) (max_size s) (u64 (bytes_written s + count)) (errmsg s)).

(** The [while (value)] loop filling [buffer[10]]. *)
Fixpoint varint_loop (fuel : nat) (value : Z) (buffer : list Z) : outcome (list Z) :=
  match fuel with
  | O => NoFuel
  | Datatypes.S fuel =>
    if value =? 0 then Done buffer else
    if 10 <=? zlen buffer then Undef else
    varint_loop fuel (Z.shiftr value 7) (buffer ++ [u8 (Z.lor (Z.land value 0x7F) 0x80)])
  end.

(** [buffer[i-1] &= 0x7F] *)
Definition clear_last_top_bit (buffer : list Z) : outcome (list Z) :=
  b ← demand (last buffer);
  Done (removelast buffer ++ [Z.land b 0x7F]).

Definition pb_encode_varint (value : Z) : enc S := fun s =>
  if value <=? 0x7F then pb_write (Some [u8 value]) 1 s else
  buffer ← varint_loop 11 value [];
  buffer ← clear_last_top_bit buffer;
  pb_write (Some buffer) (zlen buffer) s.

Definition pb_encode_svarint (value : Z) : enc S :=
  let zigzagged :=
    if value <? 0 then u64 (Z.lnot (u64 (Z.shiftl (u64 value) 1)))
    else u64 (Z.shiftl (u64 value) 1) in
  pb_encode_varint zigzagged.

Definition pb_encode_fixed32 (m : mem) (value : Z) : enc S :=
  enc_with (load_uint 4 m value) (fun val =>
    pb_write (Some [u8 (Z.land val 0xFF); u8 (Z.land (Z.shiftr val 8) 0xFF);
                    u8 (Z.land (Z.shiftr val 16) 0xFF); u8 (Z.land (Z.shiftr val 24) 0xFF)]) 4).

Definition pb_encode_fixed64 (m : mem) (value : Z) : enc S :=
  enc_with (load_uint 8 m value) (fun val =>
    pb_write (Some [u8 (Z.land val 0xFF); u8 (Z.land (Z.shiftr val 8) 0xFF);
                    u8 (Z.land (Z.shiftr val 16) 0xFF); u8 (Z.land (Z.shiftr val 24) 0xFF);
                    u8 (Z.land (Z.shiftr val 32) 0xFF); u8 (Z.land (Z.shiftr val 40) 0xFF);
                    u8 (Z.land (Z.shiftr val 48) 0xFF); u8 (Z.land (Z.shiftr val 56) 0xFF)]) 8).

Definition pb_encode_tag (wiretype field_number : Z) : enc S :=
  pb_encode_varint (Z.lor (u64 (Z.shiftl field_number 3)) wiretype).

(** The wire type of a scalar or length-delimited LTYPE. *)
Definition wiretype_of (ltype : Z) : option Z :=
  if (ltype =? PB_LTYPE_BOOL) || (ltype =? PB_LTYPE_VARINT) || (ltype =? PB_LTYPE_UVARINT)
     || (ltype =? PB_LTYPE_SVARINT) then Some PB_WT_VARINT
  else if ltype =? PB_LTYPE_FIXED32 then Some PB_WT_32BIT
  else if ltype =? PB_LTYPE_FIXED64 then Some PB_WT_64BIT
  else if (ltype =? PB_LTYPE_BYTES) || (ltype =? PB_LTYPE_STRING) || (ltype =? PB_LTYPE_SUBMESSAGE)
     || (ltype =? PB_LTYPE_FIXED_LENGTH_BYTES) then Some PB_WT_STRING
  else None.

Definition pb_encode_tag_for_field (field : pb_field) : enc S :=
  match wiretype_of (PB_LTYPE (type field)) with
  | Some wiretype => pb_encode_tag wiretype (tag field)
  | None => enc_error "invalid field type"
  end.

Definition pb_encode_string (buffer : option (list Z)) (size : Z) : enc S :=
  pb_encode_varint size >>? pb_write buffer size.
End Write.

(** ** The wire format of a varint *)

(** Base-128 digits, least significant first, a set top bit on all but the
    last. *)
Fixpoint leb128 (fuel : nat) (v : Z) : list Z :=
  match fuel with
  | O => []
  | S fuel => if v <? 128 then [v] else (v mod 128 + 128) :: leb128 fuel (v / 128)
  end.

(** Ten digits are enough for 64 bits. *)
Definition wire_varint (v : Z) : list Z := leb128 10 v.
Arguments wire_varint : simpl never.

Definition wire_tag (wt t : Z) : list Z := wire_varint (8 * t + wt).

(** ** Lawful sinks and the specification of encoding routines *)

(** The contract of a stream callback: while the sink has room it accepts
    the bytes and appends them to what it has taken so far. *)
Class LawfulSink (S : Type) `{Sink S} : Type := {
  sink_content : S -> list Z;
  sink_fits : S -> Z -> Prop;
  sink_write_ok : forall st bs n, 0 < zlen bs -> sink_fits st (zlen bs + n) -> 0 <= n ->
    exists st', sink_write st bs = Done (true, st') /\
                sink_content st' = sink_content st ++ bs /\ sink_fits st' n;
  sink_fits_mono : forall st n k, sink_fits st n -> 0 <= k <= n -> sink_fits st k;
}.

#[export] Instance string_sink_lawful : LawfulSink (list Z).
Proof.
  refine {| sink_content := fun st => st; sink_fits := fun _ _ => True |}; [|done].
  intros st bs n _ _ _. exists (st ++ bs). done.
Defined.

Lemma length_list_inserts {A} i (k l : list A) : length (list_inserts i k l) = length l.
Proof. revert i. induction k; intros; cbn; [done|]. by rewrite length_insert. Qed.

Lemma take_list_inserts {A} (l k : list A) i :
  (i + length k <= length l)%nat -> take (i + length k) (list_inserts i k l) = take i l ++ k.
Proof.
  intros Hl. apply list_eq. intros j. destruct (decide (j < i + length k)%nat) as [Hj|Hj].
  - rewrite lookup_take_lt by done. destruct (decide (j < i)%nat).
    + rewrite list_lookup_inserts_lt, lookup_app_l, lookup_take_lt by (rewrite ?length_take; lia). done.
    + rewrite list_lookup_inserts by lia. rewrite lookup_app_r, length_take by (rewrite length_take; lia).
      f_equal. lia.
  - rewrite lookup_take_ge by lia. symmetry. apply lookup_ge_None.
    rewrite length_app, length_take. lia.
Qed.

#[export] Instance membuf_sink_lawful : LawfulSink membuf.
Proof.
  refine {| sink_content := fun b => take (mb_pos b) (mb_data b);
            sink_fits := fun b n => Z.of_nat (mb_pos b) + n <= zlen (mb_data b) |}.
  - intros [d p] bs n Hbs Hfit Hn. cbn in *. unfold buf_write. cbn.
    rewrite decide_True by lia. eexists. split; [done|]. cbn.
    rewrite take_list_inserts, length_list_inserts by lia. split; [done|lia].
  - intros [d p]; cbn; lia.
Defined.

Section Spec.
Context {S : Type} `{LawfulSink S}.

(** What the library expects of a stream: a counter within its limit and a
    sink that can take what the limit still allows, and [r] bytes more (a
    substream has a tighter limit than the stream whose sink it uses). *)
Definition stream_wf (r : Z) (s : pb_ostream S) : Prop :=
  0 <= bytes_written s < 2 ^ 64 /\ 0 <= r /\
  (callback s = true -> bytes_written s <= max_size s < 2 ^ 64 /\
                        sink_fits (state s) (max_size s - bytes_written s + r)).

(** The same before any error was recorded. *)
Definition stream_ok (r : Z) (s : pb_ostream S) : Prop := stream_wf r s /\ errmsg s = None.

(** [n] more bytes can be written or counted. *)
Definition room (s : pb_ostream S) (n : Z) : bool :=
  if callback s then bytes_written s + n <=? max_size s else bytes_written s + n <? 2 ^ 64.

(** [s'] is [s] after [bs] went through it. *)
Definition advanced (r : Z) (s : pb_ostream S) (bs : list Z) (s' : pb_ostream S) : Prop :=
  stream_ok r s' /\ callback s' = callback s /\ max_size s' = max_size s /\
  bytes_written s' = bytes_written s + zlen bs /\
  (if callback s then sink_content (state s') = sink_content (state s) ++ bs else state s' = state s).

(** [s'] is [s] after a write that did not fit: some prefix went through. *)
Definition overflowed (r : Z) (s : pb_ostream S) (bs : list Z) (s' : pb_ostream S) : Prop :=
  stream_wf r s' /\ callback s' = true /\ max_size s' = max_size s /\
  errmsg s' = Some "stream full"%string /\
  exists pre, pre `prefix_of` bs /\ bytes_written s' = bytes_written s + zlen pre /\
              sink_content (state s') = sink_content (state s) ++ pre.

(** The routine [e] produces exactly the bytes [bs], on writing and on sizing
    streams alike, and reports a stream that is too small. *)
Definition emits (e : enc S) (bs : list Z) : Prop :=
  forall r s, stream_ok r s ->
    (room s (zlen bs) = true -> exists s', e s = Done (true, s') /\ advanced r s bs s') /\
    (room s (zlen bs) = false -> callback s = true -> bytes_written s + zlen bs < 2 ^ 64 ->
     exists s', e s = Done (false, s') /\ overflowed r s bs s').

Lemma room_mono s n k : room s (n + k) = true -> 0 <= k -> room s n = true.
Proof. unfold room. destruct (callback s); lia. Qed.

Lemma advanced_nil r s : stream_ok r s -> advanced r s [] s.
Proof.
  intros Hok. unfold advanced. split_and!; try done; [cbn; lia|].
  case_match; [by rewrite app_nil_r|done].
Qed.

Lemma emits_true : emits enc_true [].
Proof.
  intros r s Hok. unfold room, enc_true. split.
  - intros _. exists s. split; [done|]. by apply advanced_nil.
  - intros Hr Hc _. rewrite Hc in Hr. destruct Hok as [(_ & _ & Hok) _].
    specialize (Hok Hc). cbn in Hr. lia.
Qed.

Lemma advanced_room r s bs s' n : advanced r s bs s' -> room s' n = room s (zlen bs + n).
Proof.
  intros (_ & Hc & Hm & Hw & _). unfold room. rewrite Hc, Hm, Hw. by rewrite Z.add_assoc.
Qed.

Lemma advanced_app r s bs1 s1 bs2 s2 :
  advanced r s bs1 s1 -> advanced r s1 bs2 s2 -> advanced r s (bs1 ++ bs2) s2.
Proof.
  intros (Hok1 & Hc1 & Hm1 & Hw1 & Hs1) (Hok2 & Hc2 & Hm2 & Hw2 & Hs2).
  unfold advanced. split_and!; try done; try congruence; [rewrite length_app; lia|].
  rewrite Hc1 in Hs2. destruct (callback s); [by rewrite Hs2, Hs1, app_assoc|congruence].
Qed.

Lemma overflowed_app r s bs1 s1 bs2 s2 :
  callback s = true -> advanced r s bs1 s1 -> overflowed r s1 bs2 s2 -> overflowed r s (bs1 ++ bs2) s2.
Proof.
  intros Hcb (Hok1 & Hc1 & Hm1 & Hw1 & Hs1) (Hok2 & Hc2 & Hm2 & He2 & pre & Hpre & Hw2 & Hs2).
  rewrite Hcb in Hs1. unfold overflowed. split_and!; try done; try congruence.
  exists (bs1 ++ pre). split; [by apply prefix_app|]. split; [rewrite length_app; lia|].
  by rewrite Hs2, Hs1, app_assoc.
Qed.

Lemma overflowed_prefix r s bs1 bs2 s' : overflowed r s bs1 s' -> overflowed r s (bs1 ++ bs2) s'.
Proof.
  intros (Hok & Hc & Hm & He & pre & Hpre & Hw & Hs). unfold overflowed. split_and!; try done.
  exists pre. split; [by apply prefix_app_r|done].
Qed.

(** Nothing written, the error recorded. *)
Lemma overflowed_error r s bs :
  stream_ok r s -> callback s = true -> exists s', enc_error "stream full" s = Done (false, s') /\ overflowed r s bs s'.
Proof.
  intros [Hwf Hmsg] Hcb. unfold enc_error. rewrite Hmsg. eexists. split; [done|].
  unfold overflowed. split_and!; try done. exists []. cbn.
  split_and!; [apply prefix_nil|lia|by rewrite app_nil_r].
Qed.

Lemma emits_seq e1 e2 bs1 bs2 : emits e1 bs1 -> emits e2 bs2 -> emits (e1 >>? e2) (bs1 ++ bs2).
Proof.
  intros H1 H2 r s Hok. rewrite length_app, Nat2Z.inj_add. unfold enc_seq.
  destruct (H1 r s Hok) as [Ht Hf]. destruct (room s (zlen bs1)) eqn:Hr1.
  - destruct (Ht eq_refl) as (s1 & -> & Hadv). cbn.
    pose proof Hadv as (Hok1 & Hcb1 & _).
    destruct (H2 r s1 Hok1) as [Ht2 Hf2]. rewrite (advanced_room _ _ _ _ _ Hadv) in Ht2, Hf2. split.
    + intros Hr. destruct (Ht2 Hr) as (s2 & -> & Hadv2). exists s2. split; [done|].
      by eapply advanced_app.
    + intros Hr Hcb Hsum. destruct Hadv as (? & ? & ? & Hbw & ?) eqn:Eadv.
      destruct (Hf2 Hr) as (s2 & -> & Hov2); [congruence|lia|]. exists s2. split; [done|].
      by eapply overflowed_app.
  - split.
    + intros Hr%room_mono; [congruence|lia].
    + intros _ Hcb Hsum. destruct (Hf eq_refl Hcb ltac:(lia)) as (s1 & -> & Hov). exists s1. split; [done|].
      by apply overflowed_prefix.
Qed.

(** Counting [n] bytes on a sizing stream. *)
Lemma advanced_sizing r s bs :
  stream_ok r s -> callback s = false -> room s (zlen bs) = true ->
  advanced r s bs (PbOStream (callback s) (state s) (max_size s) (u64 (bytes_written s + zlen bs)) (errmsg s)).
Proof.
  intros [(Hw & Hr & _) Hmsg] Hcb Hroom. unfold room in Hroom. rewrite Hcb in *.
  rewrite u64_small by lia. unfold advanced, stream_ok, stream_wf; cbn. rewrite Hcb.
  split_and!; try done; lia.
Qed.

(** Writing a buffer emits it. *)
Lemma emits_write bs : zlen bs < 2 ^ 64 -> emits (pb_write (Some bs) (zlen bs)) bs.
Proof.
  intros Hlen r s Hok. unfold pb_write. pose proof Hok as [(Hw & Hr0 & Hcb) Hmsg].
  destruct (0 <? zlen bs) eqn:Hpos; cbn [andb]; cycle 1.
  { destruct bs; [|cbn in Hpos; lia]. cbn [length]. rewrite Z.add_0_r, u64_small by done. split.
    - intros _. eexists. split; [done|]. destruct s. by apply advanced_nil.
    - intros Hr Ec _. unfold room in Hr. rewrite Ec in Hr. specialize (Hcb Ec). lia. }
  destruct (callback s) eqn:Ec; cycle 1.
  { split; [|done]. intros Hr. eexists. split; [done|]. rewrite <- Ec. by apply advanced_sizing. }
  unfold room. rewrite Ec. destruct (Hcb eq_refl) as [Hmax Hfit]. split.
  - intros Hr. rewrite u64_small by lia.
    destruct (Z.ltb_spec (bytes_written s + zlen bs) (bytes_written s)); [lia|].
    destruct (Z.ltb_spec (max_size s) (bytes_written s + zlen bs)); [lia|]. cbn.
    rewrite decide_False by lia. rewrite Nat2Z.id, firstn_all.
    replace (max_size s - bytes_written s + r)
      with (zlen bs + (max_size s - (bytes_written s + zlen bs) + r)) in Hfit by lia.
    destruct (sink_write_ok (state s) bs _ ltac:(lia) Hfit ltac:(lia)) as (st' & -> & Hcont & Hfit').
    eexists. split; [done|]. unfold advanced, stream_ok, stream_wf; cbn. rewrite Ec.
    split_and!; try done; try lia. intros _. split_and!; try done; lia.
  - intros Hr _ _. rewrite (proj2 (orb_true_iff _ _)); [by apply overflowed_error|].
    rewrite !Z.ltb_lt. destruct (Z.lt_ge_cases (bytes_written s + zlen bs) (2 ^ 64)).
    + rewrite u64_small by lia. lia.
    + left. unfold u64, wrap. rewrite <- (Z.mod_unique _ _ 1 (bytes_written s + zlen bs - 2 ^ 64)); lia.
Qed.
End Spec.
