(* ===== verification/PbWire.v ===== *)
(** * PbWire: the primitive encoders produce the wire format.

    Every primitive of pb_encode.c ([pb_encode_varint], [pb_encode_svarint],
    [pb_encode_fixed32/64], [pb_encode_tag], [pb_encode_string]) is shown to
    emit a reference byte string, for all values of its type, on every lawful
    stream. *)

From Stdlib Require Import ZifyBool.
From stdpp Require Import base tactics numbers list gmap strings.
From S2P Require Import Prelude Mem PbTypes PbOStream.
Open Scope Z_scope.

Create HintDb emits.

(** ** The varint digits *)

Lemma pow_128_succ n : 128 ^ Z.of_nat (S n) = 128 * 128 ^ Z.of_nat n.
Proof. rewrite Nat2Z.inj_succ, Z.pow_succ_r; lia. Qed.

Lemma leb128_length n v : (length (leb128 n v) <= n)%nat.
Proof. revert v. induction n as [|n IH]; intros v; cbn; [lia|]. case_match; cbn; [lia|]. specialize (IH (v / 128)). lia. Qed.

Lemma leb128_bytes n v : 0 <= v -> Forall is_byte (leb128 n v).
Proof.
  revert v. induction n as [|n IH]; intros v Hv; cbn; [done|].
  destruct (Z.ltb_spec v 128).
  - repeat constructor; lia.
  - constructor; [|by apply IH, Z.div_pos]. pose proof (Z.mod_pos_bound v 128). unfold is_byte; lia.
Qed.

Lemma leb128_fuel n k v : 0 <= v < 128 ^ Z.of_nat (S n) -> (n <= k)%nat -> leb128 (S n) v = leb128 (S k) v.
Proof.
  revert k v. induction n as [|n IH]; intros k v Hv Hk.
  - cbn. destruct (Z.ltb_spec v 128); [done|lia].
  - destruct k as [|k]; [lia|].
    change (leb128 (S (S n)) v) with (if v <? 128 then [v] else (v mod 128 + 128) :: leb128 (S n) (v / 128)).
    change (leb128 (S (S k)) v) with (if v <? 128 then [v] else (v mod 128 + 128) :: leb128 (S k) (v / 128)).
    case_match; [done|]. f_equal. apply IH; [|lia]. rewrite pow_128_succ in Hv.
    split; [apply Z.div_pos; lia|apply Z.div_lt_upper_bound; lia].
Qed.

Lemma wire_varint_length v : 1 <= zlen (wire_varint v) <= 10.
Proof.
  pose proof (leb128_length 10 v). unfold wire_varint.
  split; [|lia]. cbn. case_match; cbn; lia.
Qed.

Lemma wire_varint_bytes v : 0 <= v -> Forall is_byte (wire_varint v).
Proof. apply leb128_bytes. Qed.

Lemma continuation_byte v : 0 <= v -> u8 (Z.lor (Z.land v 127) 128) = v mod 128 + 128.
Proof.
  intros Hv. rewrite land_127. pose proof (Z.mod_pos_bound v 128 ltac:(lia)).
  change 128 with (Z.shiftl 1 7) at 2. rewrite lor_shiftl_add by lia.
  rewrite u8_small; lia.
Qed.

(** The loop of [pb_encode_varint] never leaves its ten-byte buffer, and the
    buffer holds the digits once the last top bit is cleared. *)
Lemma varint_loop_spec n fuel v acc :
  0 < v < 128 ^ Z.of_nat n -> (n + length acc <= 10)%nat -> (n < fuel)%nat ->
  exists buf, varint_loop fuel v acc = Done (acc ++ buf) /\
              clear_last_top_bit (acc ++ buf) = Done (acc ++ leb128 n v).
Proof.
  revert fuel v acc. induction n as [|n IH]; intros fuel v acc Hv Hacc Hfuel; [cbn in Hv; lia|].
  destruct fuel as [|fuel]; [lia|]. cbn [varint_loop].
  destruct (Z.eqb_spec v 0); [lia|]. destruct (Z.leb_spec 10 (zlen acc)); [lia|].
  rewrite continuation_byte by lia. rewrite Z.shiftr_div_pow2 by lia. change (2 ^ 7) with 128.
  cbn [leb128]. destruct (Z.ltb_spec v 128).
  - rewrite (Z.div_small v 128), Z.mod_small by lia. exists [v + 128]. split.
    + destruct fuel; [lia|done].
    + unfold clear_last_top_bit. rewrite last_snoc. cbn. rewrite removelast_last, land_127.
      f_equal. f_equal. f_equal. rewrite <- (Z.mul_1_l 128) at 1. rewrite Z_mod_plus_full.
      apply Z.mod_small; lia.
  - rewrite pow_128_succ in Hv.
    destruct (IH fuel (v / 128) (acc ++ [v mod 128 + 128])) as (buf & E1 & E2).
    + split; [apply Z.div_str_pos; lia|apply Z.div_lt_upper_bound; lia].
    + rewrite length_app. cbn. lia.
    + lia.
    + rewrite <- !app_assoc in *. exists ([v mod 128 + 128] ++ buf). split; [done|].
      exact E2.
Qed.

Section Wire.
Context {S : Type} `{Sink S}.

(** [pb_encode_varint] writes the digits of its argument, all at once. *)
Lemma pb_encode_varint_write v s :
  0 <= v < 2 ^ 64 ->
  pb_encode_varint v s = pb_write (Some (wire_varint v)) (zlen (wire_varint v)) s.
Proof.
  intros Hv. unfold pb_encode_varint, wire_varint.
  destruct (Z.leb_spec v 127).
  - rewrite u8_small by lia. cbn. destruct (Z.ltb_spec v 128); [done|lia].
  - destruct (varint_loop_spec 10 11 v []) as (buf & E1 & E2); cbn [length]; try lia.
    rewrite !app_nil_l in *. rewrite E1. cbn [mbind outcome_bind]. by rewrite E2.
Qed.

(** ** Zigzag, fixed width and tags *)

(** The zigzag image of a signed value. *)
Definition zigzag (v : Z) : Z := if v <? 0 then - 2 * v - 1 else 2 * v.

Lemma zigzag_range v : - 2 ^ 63 <= v < 2 ^ 63 -> 0 <= zigzag v < 2 ^ 64.
Proof. unfold zigzag. destruct (Z.ltb_spec v 0); lia. Qed.

(** The shift and complement of [pb_encode_svarint], at 64 bits. *)
Lemma svarint_zigzag v s :
  - 2 ^ 63 <= v < 2 ^ 63 -> pb_encode_svarint v s = pb_encode_varint (zigzag v) s.
Proof.
  intros Hv. unfold pb_encode_svarint, zigzag. apply (f_equal (fun x => pb_encode_varint x s)).
  rewrite Z.shiftl_mul_pow2 by lia. change (2 ^ 1) with 2.
  destruct (Z.ltb_spec v 0).
  - assert (u64 v = v + 2 ^ 64) as -> by (symmetry; apply Z.mod_unique with (q := -1); lia).
    assert (u64 ((v + 2 ^ 64) * 2) = 2 * v + 2 ^ 64) as ->
      by (symmetry; apply Z.mod_unique with (q := 1); lia).
    unfold Z.lnot. symmetry. apply Z.mod_unique with (q := -1); lia.
  - rewrite (u64_small v) by lia. rewrite u64_small; lia.
Qed.

Lemma byte_of_shift v k : 0 <= k -> u8 (Z.land (Z.shiftr v k) 255) = (v / 2 ^ k) mod 256.
Proof.
  intros. rewrite (land_low_bits _ 8) by lia. change (2 ^ 8) with 256.
  rewrite Z.shiftr_div_pow2 by lia. apply u8_small, Z.mod_pos_bound. lia.
Qed.

Lemma fixed32_bytes v :
  [u8 (Z.land v 0xFF); u8 (Z.land (Z.shiftr v 8) 0xFF); u8 (Z.land (Z.shiftr v 16) 0xFF);
   u8 (Z.land (Z.shiftr v 24) 0xFF)] = le_bytes 4 v.
Proof.
  rewrite <- (Z.shiftr_0_r v) at 1. rewrite !byte_of_shift by lia. cbn [le_bytes].
  rewrite !Z.div_div by lia. by rewrite Z.div_1_r.
Qed.

Lemma fixed64_bytes v :
  [u8 (Z.land v 0xFF); u8 (Z.land (Z.shiftr v 8) 0xFF); u8 (Z.land (Z.shiftr v 16) 0xFF);
   u8 (Z.land (Z.shiftr v 24) 0xFF); u8 (Z.land (Z.shiftr v 32) 0xFF); u8 (Z.land (Z.shiftr v 40) 0xFF);
   u8 (Z.land (Z.shiftr v 48) 0xFF); u8 (Z.land (Z.shiftr v 56) 0xFF)] = le_bytes 8 v.
Proof.
  rewrite <- (Z.shiftr_0_r v) at 1. rewrite !byte_of_shift by lia. cbn [le_bytes].
  rewrite !Z.div_div by lia. by rewrite Z.div_1_r.
Qed.

Lemma tag_value wt t : 0 <= wt < 8 -> 0 <= t < 2 ^ 32 -> Z.lor (u64 (Z.shiftl t 3)) wt = 8 * t + wt.
Proof.
  intros. assert (Hs : Z.shiftl t 3 = 8 * t) by (rewrite Z.shiftl_mul_pow2 by lia; lia).
  rewrite u64_small by lia. rewrite Z.lor_comm, lor_shiftl_add by lia. lia.
Qed.
End Wire.

(** ** Emission lemmas *)

Section Emits.
Context {S : Type} `{LawfulSink S}.

Lemma emits_ext e1 e2 bs : (forall s, e1 s = e2 s) -> emits e2 bs -> emits e1 bs.
Proof. intros Heq He r s Hok. rewrite (Heq s). by apply He. Qed.

Lemma emits_varint v : 0 <= v < 2 ^ 64 -> emits (pb_encode_varint v) (wire_varint v).
Proof.
  intros Hv. eapply emits_ext; [intros s; by apply pb_encode_varint_write|].
  apply emits_write. pose proof (wire_varint_length v). lia.
Qed.

Lemma emits_svarint v : - 2 ^ 63 <= v < 2 ^ 63 -> emits (pb_encode_svarint v) (wire_varint (zigzag v)).
Proof.
  intros Hv. eapply emits_ext; [intros s; by apply svarint_zigzag|]. by apply emits_varint, zigzag_range.
Qed.

Lemma emits_fixed32 m a v : load_uint 4 m a = Some v -> emits (pb_encode_fixed32 m a) (le_bytes 4 v).
Proof.
  intros Hl. apply (emits_ext _ (pb_write (Some (le_bytes 4 v)) (zlen (le_bytes 4 v)))); [|by apply emits_write].
  intros s. unfold pb_encode_fixed32, enc_with. rewrite Hl. cbn [demand mbind outcome_bind].
  by rewrite fixed32_bytes.
Qed.

Lemma emits_fixed64 m a v : load_uint 8 m a = Some v -> emits (pb_encode_fixed64 m a) (le_bytes 8 v).
Proof.
  intros Hl. apply (emits_ext _ (pb_write (Some (le_bytes 8 v)) (zlen (le_bytes 8 v)))); [|by apply emits_write].
  intros s. unfold pb_encode_fixed64, enc_with. rewrite Hl. cbn [demand mbind outcome_bind].
  by rewrite fixed64_bytes.
Qed.

Lemma emits_tag wt t : 0 <= wt < 8 -> 0 <= t < 2 ^ 32 -> emits (pb_encode_tag wt t) (wire_tag wt t).
Proof.
  intros. unfold pb_encode_tag. rewrite tag_value by done. apply emits_varint. lia.
Qed.

Lemma wiretype_of_range ltype wt : wiretype_of ltype = Some wt -> 0 <= wt < 8.
Proof. unfold wiretype_of. repeat case_match; intros; simplify_eq; unfold PB_WT_VARINT, PB_WT_32BIT, PB_WT_64BIT, PB_WT_STRING; lia. Qed.

Lemma emits_tag_for_field f wt :
  field_ok f -> wiretype_of (PB_LTYPE (type f)) = Some wt ->
  emits (pb_encode_tag_for_field f) (wire_tag wt (tag f)).
Proof.
  intros [Ht _] Hwt. unfold pb_encode_tag_for_field. rewrite Hwt.
  apply emits_tag; [by eapply wiretype_of_range|lia].
Qed.

Lemma emits_string bs : zlen bs < 2 ^ 64 -> emits (pb_encode_string (Some bs) (zlen bs)) (wire_varint (zlen bs) ++ bs).
Proof. intros. apply emits_seq; [apply emits_varint; lia|by apply emits_write]. Qed.

(** An empty string may come with a pointer that is never dereferenced. *)
Lemma emits_string_nil : emits (pb_encode_string None 0) (wire_varint 0 ++ []).
Proof.
  apply emits_seq; [apply emits_varint; lia|].
  eapply emits_ext; [|by apply (emits_write [])]. done.
Qed.
End Emits.

#[export] Hint Resolve emits_varint emits_svarint emits_fixed32 emits_fixed64 emits_tag
  emits_tag_for_field emits_string emits_string_nil emits_seq emits_true emits_write : emits.
