(* ===== verification/PbEncode.v ===== *)
(** * PbEncode: the message encoder (pb_encode.c).

    The encoder reads a C struct through its descriptors and drives an output
    stream.  The recursion through submessages is open ([enc_msg] is the
    encoder of the nested message) and tied in [pb_encode] on a fuel that
    bounds the nesting depth and the length of extension chains.  Callback
    fields and custom extension encoders are functions of the library's user
    ([EncCallbacks]); they may inspect the message memory but not change it. *)

From Stdlib Require Import ZifyBool.
From stdpp Require Import base tactics numbers list gmap strings.
From S2P Require Import Prelude Mem PbTypes PbCommon PbOStream.
Open Scope Z_scope.

(** User functions, by the value of the function pointer: a field callback is
    given the field and the address of its [arg], an extension encoder the
    address of the [pb_extension_t]. *)
Class EncCallbacks (S : Type) : Type := {
  enc_callback : Z -> mem -> pb_field -> Z -> enc S;
  ext_encode_callback : Z -> mem -> Z -> enc S;
}.

(** [safe_read_bool]: [sizeof(bool)] is one byte. *)
Definition safe_read_bool (m : mem) (p : Z) : option bool :=
  b ← load_byte m p; Some (negb (b =? 0)).

(** The byte-per-byte comparison with zero, stopping at the first difference. *)
Fixpoint all_zero (m : mem) (p : Z) (n : nat) : outcome bool :=
  match n with
  | O => Done true
  | S n => b ← demand (load_byte m p); if negb (b =? 0) then Done false else all_zero m (p + 1) n
  end.

(** [while (size < max_size && *p != 0)] *)
Fixpoint strnlen_loop (fuel : nat) (m : mem) (p size max : Z) : outcome Z :=
  match fuel with
  | O => NoFuel
  | S fuel =>
    if size <? max then
      b ← demand (load_byte m p);
      if b =? 0 then Done size else strnlen_loop fuel m (p + 1) (size + 1) max
    else Done size
  end.

(** Every iteration reads a new cell of the memory. *)
Definition c_strnlen (m : mem) (p max : Z) : outcome Z := strnlen_loop (S (size (mbytes m))) m p 0 max.

Section Encode.
Context {S : Type} `{Sink S} `{PbProgram} `{EncCallbacks S}.

(** ** Presence of proto3 fields *)

(** [do { if (!check(..)) return false; } while (pb_field_iter_next(&iter)); return true;] *)
Fixpoint proto3_default_fields (n : nat) (check : pb_field -> Z -> outcome bool) (it : pb_field_iter)
    : outcome bool :=
  match n with
  | O => NoFuel
  | Datatypes.S n =>
    f ← at_pos it;
    ok ← check f (pData it);
    if negb ok then Done false else
    '(more, it') ← pb_field_iter_next it;
    if more : bool then proto3_default_fields n check it' else Done true
  end.

Fixpoint pb_check_proto3_default_value (fuel : nat) (m : mem) (field : pb_field) (pd : Z) : outcome bool :=
  match fuel with
  | O => NoFuel
  | Datatypes.S fuel =>
    let ty := type field in
    let pSize := pd + size_offset field in
    let singular :=
      if (PB_ATYPE ty =? PB_ATYPE_STATIC) && (PB_LTYPE ty =? PB_LTYPE_BYTES) then
        n ← demand (load_uint 4 m (pd + bytes_array_size_off)); Done (n =? 0)
      else if (PB_ATYPE ty =? PB_ATYPE_STATIC) && (PB_LTYPE ty =? PB_LTYPE_STRING) then
        b ← demand (load_byte m pd); Done (b =? 0)
      else if (PB_ATYPE ty =? PB_ATYPE_STATIC) && (PB_LTYPE ty =? PB_LTYPE_FIXED_LENGTH_BYTES) then
        Done (data_size field =? 0)
      else if (PB_ATYPE ty =? PB_ATYPE_STATIC) && (PB_LTYPE ty =? PB_LTYPE_SUBMESSAGE) then
        fields ← demand (submsg_fields field);
        '(nonempty, it) ← pb_field_iter_begin fields pd;
        if nonempty : bool
        then proto3_default_fields (Datatypes.S (length fields)) (pb_check_proto3_default_value fuel m) it
        else Done true
      else if (PB_ATYPE ty =? PB_ATYPE_POINTER) && (PB_LTYPE_LAST_PACKABLE <? PB_LTYPE ty) then
        p ← demand (load_ptr m pd); Done (p =? 0)
      else all_zero m pd (Z.to_nat (data_size field)) in
    if PB_HTYPE ty =? PB_HTYPE_REQUIRED then Done false
    else if PB_HTYPE ty =? PB_HTYPE_REPEATED then
      if negb (size_offset field =? 0) then n ← demand (load_uint 4 m pSize); Done (n =? 0)
      else if PB_ATYPE ty =? PB_ATYPE_STATIC then Done false
      else singular
    else if PB_HTYPE ty =? PB_HTYPE_ONEOF then
      n ← demand (load_uint 4 m pSize); Done (n =? 0)
    else if (PB_HTYPE ty =? PB_HTYPE_OPTIONAL) && negb (size_offset field =? 0) then
      b ← demand (safe_read_bool m pSize); Done (negb b)
    else singular
  end.

(** ** Field encoders *)

Definition pb_encoder : Type := mem -> pb_field -> Z -> enc S.

Definition pb_enc_bool (m : mem) (field : pb_field) (src : Z) : enc S :=
  enc_with (safe_read_bool m src) (fun b => pb_encode_varint (if b : bool then 1 else 0)).

(** [*(const intN_t* )src] for the field's width. *)
Definition load_signed (m : mem) (src size : Z) : option (option Z) :=
  if size =? 1 then Some <$> (s8 <$> load_uint 1 m src)
  else if size =? 2 then Some <$> (s16 <$> load_uint 2 m src)
  else if size =? 4 then Some <$> (s32 <$> load_uint 4 m src)
  else if size =? 8 then Some <$> (s64 <$> load_uint 8 m src)
  else Some None.

Definition load_unsigned (m : mem) (src size : Z) : option (option Z) :=
  if size =? 1 then Some <$> load_uint 1 m src
  else if size =? 2 then Some <$> load_uint 2 m src
  else if size =? 4 then Some <$> load_uint 4 m src
  else if size =? 8 then Some <$> load_uint 8 m src
  else Some None.

Definition pb_enc_varint (m : mem) (field : pb_field) (src : Z) : enc S :=
  enc_with (load_signed m src (data_size field)) (fun v =>
    match v with
    | Some value => pb_encode_varint (u64 value)
    | None => enc_error "invalid data_size"
    end).

Definition pb_enc_uvarint (m : mem) (field : pb_field) (src : Z) : enc S :=
  enc_with (load_unsigned m src (data_size field)) (fun v =>
    match v with
    | Some value => pb_encode_varint value
    | None => enc_error "invalid data_size"
    end).

Definition pb_enc_svarint (m : mem) (field : pb_field) (src : Z) : enc S :=
  enc_with (load_signed m src (data_size field)) (fun v =>
    match v with
    | Some value => pb_encode_svarint value
    | None => enc_error "invalid data_size"
    end).

Definition pb_enc_fixed32 (m : mem) (field : pb_field) (src : Z) : enc S := pb_encode_fixed32 m src.
Definition pb_enc_fixed64 (m : mem) (field : pb_field) (src : Z) : enc S := pb_encode_fixed64 m src.

Definition pb_enc_bytes (m : mem) (field : pb_field) (src : Z) : enc S :=
  if src =? 0 then pb_encode_string None 0 else
  enc_with (load_uint 4 m (src + bytes_array_size_off)) (fun n =>
    if (PB_ATYPE (type field) =? PB_ATYPE_STATIC) && (u64 (data_size field - bytes_array_bytes_off) <? n)
    then enc_error "bytes size exceeded"
    else pb_encode_string (load_bytes m (src + bytes_array_bytes_off) (Z.to_nat n)) n).

Definition pb_enc_string (m : mem) (field : pb_field) (src : Z) : enc S := fun s =>
  let max := if PB_ATYPE (type field) =? PB_ATYPE_POINTER then 2 ^ 64 - 1 else data_size field in
  n ← (if src =? 0 then Done 0 else c_strnlen m src max);
  pb_encode_string (load_bytes m src (Z.to_nat n)) n s.

Definition pb_enc_fixed_length_bytes (m : mem) (field : pb_field) (src : Z) : enc S :=
  pb_encode_string (load_bytes m src (Z.to_nat (data_size field))) (data_size field).

Section Submessage.
(** The encoder of nested messages. *)
Variable enc_msg : list pb_field -> Z -> enc S.

Definition pb_encode_submessage (fields : list pb_field) (src : Z) : enc S := fun s =>
  '(ok, sub) ← enc_msg fields src PB_OSTREAM_SIZING;
  if negb ok
  then Done (false, PbOStream (callback s) (state s) (max_size s) (bytes_written s) (errmsg sub)) else
  let size := bytes_written sub in
  (pb_encode_varint size >>? (fun s =>
    if negb (callback s) then pb_write None size s else
    if max_size s <? u64 (bytes_written s + size) then enc_error "stream full" s else
    '(status, sub) ← enc_msg fields src (PbOStream (callback s) (state s) size 0 None);
    let s1 := PbOStream (callback s) (state sub) (max_size s)
                (u64 (bytes_written s + bytes_written sub)) (errmsg sub) in
    if negb (bytes_written sub =? size) then enc_error "submsg size changed" s1
    else Done (status, s1))) s.

Definition pb_enc_submessage (m : mem) (field : pb_field) (src : Z) : enc S :=
  match ptr field with
  | PtrNull => enc_error "invalid field descriptor"
  | _ => enc_with (submsg_fields field) (fun fields => pb_encode_submessage fields src)
  end.

(** The table indexed by LTYPE; NULL for the extension pseudo-type. *)
Definition PB_ENCODERS : list (option pb_encoder) :=
  [ Some pb_enc_bool; Some pb_enc_varint; Some pb_enc_uvarint; Some pb_enc_svarint;
    Some pb_enc_fixed32; Some pb_enc_fixed64; Some pb_enc_bytes; Some pb_enc_string;
    Some pb_enc_submessage; None; Some pb_enc_fixed_length_bytes ].

Definition call_encoder (func : option pb_encoder) : pb_encoder :=
  match func with Some f => f | None => fun _ _ _ _ => Undef end.

(** ** Arrays *)

(** [for (i = 0; i < count; i++) { item(p); p += data_size; }] *)
Fixpoint encode_items (n : nat) (item : Z -> enc S) (step p : Z) : enc S :=
  match n with
  | O => enc_true
  | Datatypes.S n => item p >>? encode_items n item step (p + step)
  end.

(** The size of a packed array. *)
Definition packed_size (m : mem) (field : pb_field) (pd count : Z) (func : pb_encoder)
    : outcome (option Z) :=
  if PB_LTYPE (type field) =? PB_LTYPE_FIXED32 then Done (Some (u64 (4 * count)))
  else if PB_LTYPE (type field) =? PB_LTYPE_FIXED64 then Done (Some (u64 (8 * count)))
  else
    '(ok, sizestream) ← encode_items (Z.to_nat count) (func m field) (data_size field) pd PB_OSTREAM_SIZING;
    Done (if ok : bool then Some (bytes_written sizestream) else None).

(** One entry of an unpacked array; entries of pointer-type string and bytes
    arrays are themselves pointers. *)
Definition encode_unpacked_item (m : mem) (field : pb_field) (func : pb_encoder) (p : Z) : enc S :=
  pb_encode_tag_for_field field >>?
  (if (PB_ATYPE (type field) =? PB_ATYPE_POINTER) &&
      ((PB_LTYPE (type field) =? PB_LTYPE_STRING) || (PB_LTYPE (type field) =? PB_LTYPE_BYTES))
   then enc_with (load_ptr m p) (fun q => func m field q)
   else func m field p).

Definition encode_array (m : mem) (field : pb_field) (pd count : Z) (func : pb_encoder) : enc S :=
  if count =? 0 then enc_true
  else if negb (PB_ATYPE (type field) =? PB_ATYPE_POINTER) && (array_size field <? count) then
    enc_error "array max size exceeded"
  else if PB_LTYPE (type field) <=? PB_LTYPE_LAST_PACKABLE then
    pb_encode_tag PB_WT_STRING (tag field) >>? (fun s =>
      size ← packed_size m field pd count func;
      match size with
      | None => Done (false, s)
      | Some size =>
        (pb_encode_varint size >>? (fun s =>
           if negb (callback s) then pb_write None size s
           else encode_items (Z.to_nat count) (func m field) (data_size field) pd s)) s
      end)
  else encode_items (Z.to_nat count) (encode_unpacked_item m field func) (data_size field) pd.

(** ** One field *)

(** The data pointer of the field and the implicit presence flag. *)
Definition basic_field_pointers (fuel : nat) (m : mem) (field : pb_field) (pd0 : Z) : outcome (Z * bool) :=
  implicit ←
    (if negb (size_offset field =? 0) then Done false
     else if PB_HTYPE (type field) =? PB_HTYPE_OPTIONAL
     then negb <$> pb_check_proto3_default_value fuel m field pd0
     else Done true);
  if PB_ATYPE (type field) =? PB_ATYPE_POINTER
  then p ← demand (load_ptr m pd0); Done (p, negb (p =? 0))
  else Done (pd0, implicit).

Definition encode_basic_field (fuel : nat) (m : mem) (field : pb_field) (pd0 : Z) : enc S := fun s =>
  func ← demand (PB_ENCODERS !! Z.to_nat (PB_LTYPE (type field)));
  let func := call_encoder func in
  let pSize := pd0 + size_offset field in
  '(pd, implicit_has) ← basic_field_pointers fuel m field pd0;
  if PB_HTYPE (type field) =? PB_HTYPE_REQUIRED then
    if pd =? 0 then enc_error "missing required field" s
    else (pb_encode_tag_for_field field >>? func m field pd) s
  else if PB_HTYPE (type field) =? PB_HTYPE_OPTIONAL then
    has ← (if negb (size_offset field =? 0) then demand (safe_read_bool m pSize) else Done implicit_has);
    if has : bool then (pb_encode_tag_for_field field >>? func m field pd) s else Done (true, s)
  else if PB_HTYPE (type field) =? PB_HTYPE_REPEATED then
    count ← (if negb (size_offset field =? 0) then demand (load_uint 4 m pSize)
             else Done (array_size field));
    encode_array m field pd count func s
  else if PB_HTYPE (type field) =? PB_HTYPE_ONEOF then
    which ← (if negb (size_offset field =? 0) then demand (load_uint 4 m pSize) else Undef);
    if which =? tag field then (pb_encode_tag_for_field field >>? func m field pd) s else Done (true, s)
  else enc_error "invalid field type" s.

Definition encode_callback_field (m : mem) (field : pb_field) (pd : Z) : enc S :=
  enc_with (load_ptr m (pd + callback_funcs_off)) (fun encode =>
    if negb (encode =? 0) then fun s =>
      '(ok, s1) ← enc_callback encode m field (pd + callback_arg_off) s;
      if negb ok then enc_error "callback error" s1 else Done (true, s1)
    else enc_true).

Definition encode_field (fuel : nat) (m : mem) (field : pb_field) (pd : Z) : enc S :=
  let atype := PB_ATYPE (type field) in
  if (atype =? PB_ATYPE_STATIC) || (atype =? PB_ATYPE_POINTER) then encode_basic_field fuel m field pd
  else if atype =? PB_ATYPE_CALLBACK then encode_callback_field m field pd
  else enc_error "invalid field type".

(** ** Extensions *)

Definition default_extension_encoder (fuel : nat) (m : mem) (ext : Z) (ety : pb_extension_type) : enc S :=
  let field := ext_arg ety in
  if PB_ATYPE (type field) =? PB_ATYPE_POINTER
  then encode_field fuel m field (ext + extension_dest_off)
  else enc_with (load_ptr m (ext + extension_dest_off)) (fun dest => encode_field fuel m field dest).

(** [while (extension)] *)
Fixpoint encode_extensions (n fuel : nat) (m : mem) (ext : Z) : enc S := fun s =>
  match n with
  | O => NoFuel
  | Datatypes.S n =>
    if ext =? 0 then Done (true, s) else
    ety ← demand (ty ← load_ptr m (ext + extension_type_off); extension_types !! ty);
    '(status, s1) ←
      (if negb (ext_encode ety =? 0) then ext_encode_callback (ext_encode ety) m ext s
       else default_extension_encoder fuel m ext ety s);
    if negb status then Done (false, s1) else
    next ← demand (load_ptr m (ext + extension_next_off));
    encode_extensions n fuel m next s1
  end.

Definition encode_extension_field (fuel : nat) (m : mem) (field : pb_field) (pd : Z) : enc S :=
  enc_with (load_ptr m pd) (fun ext => encode_extensions fuel fuel m ext).

(** [do { .. } while (pb_field_iter_next(&iter))] *)
Fixpoint encode_fields (n : nat) (enc_one : pb_field -> Z -> enc S) (it : pb_field_iter) : enc S := fun s =>
  match n with
  | O => NoFuel
  | Datatypes.S n =>
    f ← at_pos it;
    '(ok, s1) ← enc_one f (pData it) s;
    if negb ok then Done (false, s1) else
    '(more, it') ← pb_field_iter_next it;
    if more : bool then encode_fields n enc_one it' s1 else Done (true, s1)
  end.

Definition encode_any_field (fuel : nat) (m : mem) (f : pb_field) (pd : Z) : enc S :=
  if PB_LTYPE (type f) =? PB_LTYPE_EXTENSION
  then encode_extension_field fuel m f pd
  else encode_field fuel m f pd.
End Submessage.

(** ** All fields *)

Fixpoint pb_encode (fuel : nat) (m : mem) (fields : list pb_field) (src : Z) : enc S := fun s =>
  match fuel with
  | O => NoFuel
  | Datatypes.S fuel =>
    '(nonempty, it) ← pb_field_iter_begin fields src;
    if negb nonempty then Done (true, s)
    else encode_fields (Datatypes.S (length fields))
           (encode_any_field (pb_encode fuel m) fuel m) it s
  end.

Definition pb_encode_delimited (fuel : nat) (m : mem) (fields : list pb_field) (src : Z) : enc S :=
  pb_encode_submessage (pb_encode fuel m) fields src.

Definition pb_encode_nullterminated (fuel : nat) (m : mem) (fields : list pb_field) (src : Z) : enc S :=
  pb_encode fuel m fields src >>? pb_write (Some [0]) 1.

Definition pb_get_encoded_size (fuel : nat) (m : mem) (fields : list pb_field) (src : Z)
    : outcome (option Z) :=
  '(ok, s) ← pb_encode fuel m fields src PB_OSTREAM_SIZING;
  Done (if negb ok then None else Some (bytes_written s)).
End Encode.
