(* ===== verification/PbEncodeSpec.v ===== *)
(** * PbEncodeSpec: the encoder against the wire format.

    The abstract message of a struct is the list of the fields that are
    present, with their values ([read_msg]); the wire format maps an abstract
    message to bytes ([wire_msg]).  The refinement theorem says that the
    streaming, two-pass encoder of pb_encode.c emits exactly [wire_msg] of
    what [read_msg] finds, for descriptors without callback and extension
    fields.  Its corollaries: the sizing pass agrees with the writing pass
    (so "submsg size changed" cannot happen), a buffer of the computed size is
    filled exactly, and a smaller one is reported and never overrun. *)

From Stdlib Require Import ZifyBool.
From stdpp Require Import base tactics numbers list gmap strings.
From S2P Require Import Prelude Mem PbTypes PbCommon PbOStream PbWire PbEncode.
Open Scope Z_scope.

(** ** Abstract messages and their bytes *)

Inductive wval : Type :=
| WVarint (v : Z)
| WFixed32 (v : Z)
| WFixed64 (v : Z)
| WBytes (bs : list Z)
| WMsg (fs : list (Z * wval))
| WPacked (vs : list wval).

Definition wval_type (v : wval) : Z :=
  match v with
  | WVarint _ => PB_WT_VARINT
  | WFixed32 _ => PB_WT_32BIT
  | WFixed64 _ => PB_WT_64BIT
  | WBytes _ | WMsg _ | WPacked _ => PB_WT_STRING
  end.

Definition delimited (body : list Z) : list Z := wire_varint (zlen body) ++ body.

Fixpoint wire_val (v : wval) : list Z :=
  match v with
  | WVarint v => wire_varint v
  | WFixed32 v => le_bytes 4 v
  | WFixed64 v => le_bytes 8 v
  | WBytes bs => delimited bs
  | WMsg fs => delimited (concat (map (fun '(t, v) => wire_tag (wval_type v) t ++ wire_val v) fs))
  | WPacked vs => delimited (concat (map wire_val vs))
  end.

Definition wire_field (f : Z * wval) : list Z := wire_tag (wval_type f.2) f.1 ++ wire_val f.2.
Definition wire_msg (fs : list (Z * wval)) : list Z := concat (map wire_field fs).

Lemma wire_val_msg fs : wire_val (WMsg fs) = delimited (wire_msg fs).
Proof. cbn [wire_val]. unfold wire_msg. do 2 f_equal. apply map_ext. by intros []. Qed.

Lemma wire_msg_app fs gs : wire_msg (fs ++ gs) = wire_msg fs ++ wire_msg gs.
Proof. unfold wire_msg. by rewrite map_app, concat_app. Qed.

(** ** The abstract message of a struct in memory *)

Section Read.
Context `{PbProgram}.

(** [n] consecutive objects, [step] bytes apart. *)
Fixpoint read_items {A} (n : nat) (rd : Z -> option A) (step p : Z) : option (list A) :=
  match n with
  | O => Some []
  | S n => v ← rd p; vs ← read_items n rd step (p + step); Some (v :: vs)
  end.

Definition done_value {A} (o : outcome A) : option A :=
  match o with Done a => Some a | _ => None end.

(** The value of one item of a field's type at address [a] ([a] may be NULL
    for strings and bytes); [rd] reads a nested message. *)
Definition read_value (rd : list pb_field -> Z -> option (list (Z * wval))) (m : mem)
    (f : pb_field) (a : Z) : option wval :=
  let lt := PB_LTYPE (type f) in
  if lt =? PB_LTYPE_BOOL then
    b ← safe_read_bool m a; Some (WVarint (if b : bool then 1 else 0))
  else if lt =? PB_LTYPE_VARINT then
    v ← load_signed m a (data_size f); v ← v; Some (WVarint (u64 v))
  else if lt =? PB_LTYPE_UVARINT then
    v ← load_unsigned m a (data_size f); v ← v; Some (WVarint v)
  else if lt =? PB_LTYPE_SVARINT then
    v ← load_signed m a (data_size f); v ← v; Some (WVarint (zigzag v))
  else if lt =? PB_LTYPE_FIXED32 then WFixed32 <$> load_uint 4 m a
  else if lt =? PB_LTYPE_FIXED64 then WFixed64 <$> load_uint 8 m a
  else if lt =? PB_LTYPE_BYTES then
    if a =? 0 then Some (WBytes []) else
    n ← load_uint 4 m (a + bytes_array_size_off);
    if (PB_ATYPE (type f) =? PB_ATYPE_STATIC) && (u64 (data_size f - bytes_array_bytes_off) <? n)
    then None
    else WBytes <$> load_bytes m (a + bytes_array_bytes_off) (Z.to_nat n)
  else if lt =? PB_LTYPE_STRING then
    if a =? 0 then Some (WBytes []) else
    n ← done_value (c_strnlen m a (if PB_ATYPE (type f) =? PB_ATYPE_POINTER then 2 ^ 64 - 1 else data_size f));
    WBytes <$> load_bytes m a (Z.to_nat n)
  else if lt =? PB_LTYPE_SUBMESSAGE then
    if a =? 0 then None else fields ← submsg_fields f; WMsg <$> rd fields a
  else if lt =? PB_LTYPE_FIXED_LENGTH_BYTES then
    WBytes <$> load_bytes m a (Z.to_nat (data_size f))
  else None.

(** The entries an array field contributes. *)
Definition read_array (rd : list pb_field -> Z -> option (list (Z * wval))) (m : mem)
    (f : pb_field) (pd count : Z) : option (list (Z * wval)) :=
  if count =? 0 then Some []
  else if negb (PB_ATYPE (type f) =? PB_ATYPE_POINTER) && (array_size f <? count) then None
  else if PB_LTYPE (type f) <=? PB_LTYPE_LAST_PACKABLE then
    vs ← read_items (Z.to_nat count) (read_value rd m f) (data_size f) pd; Some [(tag f, WPacked vs)]
  else
    let deref := (PB_ATYPE (type f) =? PB_ATYPE_POINTER) &&
      ((PB_LTYPE (type f) =? PB_LTYPE_STRING) || (PB_LTYPE (type f) =? PB_LTYPE_BYTES)) in
    vs ← read_items (Z.to_nat count)
           (fun p => q ← (if deref then load_ptr m p else Some p); read_value rd m f q) (data_size f) pd;
    Some (map (pair (tag f)) vs).

(** The entries of one field of the struct; none when it is absent. *)
Definition read_field (fuel : nat) (rd : list pb_field -> Z -> option (list (Z * wval))) (m : mem)
    (f : pb_field) (pd0 : Z) : option (list (Z * wval)) :=
  let pSize := pd0 + size_offset f in
  if negb ((PB_ATYPE (type f) =? PB_ATYPE_STATIC) || (PB_ATYPE (type f) =? PB_ATYPE_POINTER)) then None else
  pd ← (if PB_ATYPE (type f) =? PB_ATYPE_POINTER then load_ptr m pd0 else Some pd0);
  let single := v ← read_value rd m f pd; Some [(tag f, v)] in
  if PB_HTYPE (type f) =? PB_HTYPE_REQUIRED then
    if pd =? 0 then None else single
  else if PB_HTYPE (type f) =? PB_HTYPE_OPTIONAL then
    has ← (if negb (size_offset f =? 0) then safe_read_bool m pSize
           else d ← done_value (pb_check_proto3_default_value fuel m f pd0);
                Some (if PB_ATYPE (type f) =? PB_ATYPE_POINTER then negb (pd =? 0) else negb d));
    if has : bool then single else Some []
  else if PB_HTYPE (type f) =? PB_HTYPE_REPEATED then
    count ← (if negb (size_offset f =? 0) then load_uint 4 m pSize else Some (array_size f));
    read_array rd m f pd count
  else
    which ← (if negb (size_offset f =? 0) then load_uint 4 m pSize else None);
    if which =? tag f then single else Some [].

Fixpoint read_msg (fuel : nat) (m : mem) (fields : list pb_field) (dest : Z) : option (list (Z * wval)) :=
  match fuel with
  | O => None
  | S fuel =>
    let l := removelast fields in
    concat (A := _) <$> mapM (fun '(f, (pd, _, _)) =>
                       if is_extension f then None else read_field fuel (read_msg fuel m) m f pd)
                    (zip l (struct_layout l dest))
  end.
End Read.

(** ** Emission of one value *)

Lemma zlen_app {A} (l k : list A) : zlen (l ++ k) = zlen l + zlen k.
Proof. rewrite length_app. lia. Qed.

Lemma zlen_delimited body : zlen body < zlen (delimited body) <= zlen body + 10.
Proof. unfold delimited. rewrite zlen_app. pose proof (wire_varint_length (zlen body)). lia. Qed.

Section Emit.
Context {S : Type} `{LawfulSink S} `{PbProgram} `{!EncCallbacks S}.

Lemma sizing_ok : stream_ok 0 (PB_OSTREAM_SIZING (S := S)).
Proof. unfold stream_ok, stream_wf. cbn. split_and!; try done; lia. Qed.

(** A routine that emits [bs] counts [length bs] bytes on a fresh sizing stream. *)
Lemma emits_sizing e bs :
  emits e bs -> zlen bs < 2 ^ 64 ->
  exists s', e PB_OSTREAM_SIZING = Done (true, s') /\ bytes_written s' = zlen bs.
Proof.
  intros He Hlen. destruct (He 0 _ sizing_ok) as [Ht _].
  destruct Ht as (s' & Hs' & Hadv); [unfold room; cbn; lia|].
  exists s'. split; [done|]. by destruct Hadv as (_ & _ & _ & -> & _).
Qed.

(** The second pass of a length-delimited item: skipped on a sizing stream. *)
Lemma emits_delimited_tail e body (k : enc S) :
  zlen body < 2 ^ 64 -> emits e body ->
  (forall s, callback s = false -> k s = pb_write None (zlen body) s) ->
  (forall r s, stream_ok r s -> callback s = true ->
     (room s (zlen body) = true -> exists s', k s = Done (true, s') /\ advanced r s body s') /\
     (room s (zlen body) = false -> bytes_written s + zlen body < 2 ^ 64 -> exists s', k s = Done (false, s') /\ overflowed r s body s')) ->
  emits k body.
Proof.
  intros Hlen He Hsizing Hwriting r s Hok. destruct (callback s) eqn:Ec.
  - destruct (Hwriting r s Hok Ec) as [Ht Hf]. split; auto.
  - split; [|done]. intros Hroom. rewrite Hsizing by done. unfold pb_write. rewrite Ec, andb_false_r.
    eexists. split; [done|]. rewrite <- Ec. by apply advanced_sizing.
Qed.

Lemma emits_submessage enc_msg fields src body :
  emits (enc_msg fields src) body -> zlen body < 2 ^ 64 ->
  emits (pb_encode_submessage enc_msg fields src) (delimited body).
Proof.
  intros He Hlen. destruct (emits_sizing _ _ He Hlen) as (s0 & E0 & Hw0).
  unfold delimited, pb_encode_submessage. eapply emits_ext.
  { intros s. rewrite E0. cbn [mbind outcome_bind]. cbn [negb]. rewrite Hw0. reflexivity. }
  apply emits_seq; [apply emits_varint; lia|].
  eapply emits_delimited_tail; [done|exact He| |].
  { intros s Hc. by rewrite Hc. }
  intros r s Hok Hc. pose proof Hok as [(Hw & Hr & Hcb) Hmsg]. rewrite Hc. cbn [negb].
  destruct (Hcb Hc) as [Hmax Hfit]. unfold room. rewrite Hc. split.
  - intros Hroom. rewrite u64_small by lia.
    destruct (Z.ltb_spec (max_size s) (bytes_written s + zlen body)); [lia|].
    destruct (He (r + (max_size s - bytes_written s - zlen body))
      (PbOStream true (state s) (zlen body) 0 None)) as [Ht _].
    { unfold stream_ok, stream_wf; cbn. split_and!; try done; try lia. intros _. split; [lia|].
      eapply sink_fits_mono; [exact Hfit|lia]. }
    destruct Ht as (sub & -> & Hadv); [unfold room; cbn; lia|].
    destruct Hadv as ([(Hw1 & Hr1 & Hcb1) Hmsg1] & Hc1 & Hm1 & Hbw1 & Hs1). cbn in Hc1, Hm1, Hbw1, Hs1.
    cbn [mbind outcome_bind]. rewrite Hbw1, Z.eqb_refl. cbn [negb]. eexists. split; [done|].
    destruct (Hcb1 Hc1) as [_ Hfit1]. rewrite Hm1, Hbw1 in Hfit1.
    rewrite u64_small by lia. unfold advanced, stream_ok, stream_wf; cbn. rewrite Hc.
    split_and!; try done; try lia. intros _. split; [lia|].
    eapply sink_fits_mono; [exact Hfit1|lia].
  - intros Hroom Hsum. rewrite u64_small by lia.
    destruct (Z.ltb_spec (max_size s) (bytes_written s + zlen body)); [|lia].
    by apply overflowed_error.
Qed.

Lemma load_signed_range m a n v : load_signed m a n = Some (Some v) -> - 2 ^ 63 <= v < 2 ^ 63.
Proof.
  unfold load_signed, s8, s16, s32, s64. repeat case_match; intros Hl; try done;
    apply fmap_Some in Hl as (w & (x & _ & ->)%fmap_Some & [= ->]).
  - pose proof (signed_range 8 x). lia.
  - pose proof (signed_range 16 x). lia.
  - pose proof (signed_range 32 x). lia.
  - pose proof (signed_range 64 x). lia.
Qed.

Lemma load_unsigned_range m a n v : mem_ok m -> load_unsigned m a n = Some (Some v) -> 0 <= v < 2 ^ 64.
Proof.
  intros Hm. unfold load_unsigned. repeat case_match; intros Hl; try done;
    apply fmap_Some in Hl as (w & Hw & [= ->]); apply load_uint_range in Hw; auto; cbn in Hw; lia.
Qed.

Lemma emits_with {A} (o : option A) a (k : A -> enc S) bs : o = Some a -> emits (k a) bs -> emits (enc_with o k) bs.
Proof. intros ->. by apply emits_ext. Qed.

Lemma done_value_Some {A} (o : outcome A) a : done_value o = Some a <-> o = Done a.
Proof. destruct o; cbn; naive_solver. Qed.

(** [strnlen] counts no more than the limit, and never a negative number. *)
Lemma strnlen_loop_range fuel m p n max k : 0 <= n -> strnlen_loop fuel m p n max = Done k -> n <= k.
Proof.
  revert p n. induction fuel as [|fuel IH]; intros p n Hn; cbn; [done|].
  case_match; [|by intros [= <-]]. intros Hd. inv_outcome.
  case_match; [by injection Hd as <-|]. apply IH in Hd; lia.
Qed.

(** A length-prefixed stretch of memory. *)
Lemma emits_loaded m a n bs :
  0 <= n -> load_bytes m a (Z.to_nat n) = Some bs -> zlen (delimited bs) < 2 ^ 64 ->
  emits (pb_encode_string (load_bytes m a (Z.to_nat n)) n) (delimited bs).
Proof.
  intros Hn Hl Hlen. rewrite Hl. apply load_bytes_length in Hl.
  replace n with (zlen bs) by lia. apply emits_string. pose proof (zlen_delimited bs). lia.
Qed.

Section Fields.
Variable enc_msg : list pb_field -> Z -> enc S.
Variable rd : list pb_field -> Z -> option (list (Z * wval)).
Variable m : mem.
Hypothesis Hm : mem_ok m.
Hypothesis Hrd : forall f fields a fs,
  submsg_fields f = Some fields -> a <> 0 -> rd fields a = Some fs -> zlen (wire_msg fs) < 2 ^ 64 ->
  emits (enc_msg fields a) (wire_msg fs).

Lemma emits_submsg_value f a fs :
  a <> 0 -> (fields ← submsg_fields f; WMsg <$> rd fields a) = Some fs -> zlen (wire_val fs) < 2 ^ 64 ->
  emits (pb_enc_submessage enc_msg m f a) (wire_val fs) /\ wval_type fs = PB_WT_STRING.
Proof.
  intros Ha (fields & Hf & (fs' & Hfs & ->)%fmap_Some)%bind_Some Hlen. split; [|done].
  rewrite wire_val_msg in *.
  pose proof (zlen_delimited (wire_msg fs')).
  unfold pb_enc_submessage, submsg_fields in *.
  destruct (ptr f) as [|i|] eqn:Ep; try done. eapply emits_with; [done|].
  apply emits_submessage; [|lia]. apply (Hrd f); auto; [|lia]. unfold submsg_fields. by rewrite Ep.
Qed.

(** The value read at an address is what the table's encoder emits there. *)
Lemma emits_value f a v :
  0 <= data_size f < 2 ^ 32 -> read_value rd m f a = Some v -> zlen (wire_val v) < 2 ^ 64 ->
  exists func, PB_ENCODERS enc_msg !! Z.to_nat (PB_LTYPE (type f)) = Some (Some func) /\
    emits (func m f a) (wire_val v) /\ wiretype_of (PB_LTYPE (type f)) = Some (wval_type v).
Proof.
  intros Hds. unfold read_value.
  repeat match goal with
  | |- (if ?b then _ else _) = _ -> _ => destruct b eqn:?
  | |- None = _ -> _ => done
  end; intros Hv Hlen;
  match goal with E : (PB_LTYPE (type f) =? _) = true |- _ => apply Z.eqb_eq in E; rewrite E end;
  (eexists; split; [reflexivity|]).
  - apply bind_Some in Hv as (b & Hb & [= <-]). split; [|done].
    eapply emits_with; [done|]. destruct b; apply emits_varint; lia.
  - apply bind_Some in Hv as (o & Ho & Hv). apply bind_Some in Hv as (x & -> & [= <-]). split; [|done].
    eapply emits_with; [done|]. apply emits_varint, u64_range.
  - apply bind_Some in Hv as (o & Ho & Hv). apply bind_Some in Hv as (x & -> & [= <-]). split; [|done].
    eapply emits_with; [done|]. eapply emits_varint, load_unsigned_range; eauto.
  - apply bind_Some in Hv as (o & Ho & Hv). apply bind_Some in Hv as (x & -> & [= <-]). split; [|done].
    eapply emits_with; [done|]. by eapply emits_svarint, load_signed_range.
  - apply fmap_Some in Hv as (x & Hx & ->). split; [|done]. by apply emits_fixed32.
  - apply fmap_Some in Hv as (x & Hx & ->). split; [|done]. by apply emits_fixed64.
  - injection Hv as <-. split; [|done]. unfold pb_enc_bytes.
    destruct (a =? 0); [apply emits_string_nil|done].
  - apply bind_Some in Hv as (n & Hn & Hv). case_match eqn:Eb; [done|].
    apply fmap_Some in Hv as (bs & Hbs & ->). split; [|done]. unfold pb_enc_bytes.
    destruct (a =? 0); [done|]. eapply emits_with; [done|]. rewrite Eb.
    apply load_uint_range in Hn; [|done]. apply emits_loaded; auto; lia.
  - injection Hv as <-. split; [|done]. unfold pb_enc_string.
    destruct (a =? 0); [|done]. eapply emits_ext; [|apply emits_string_nil].
    intros s. cbn [mbind outcome_bind]. unfold pb_encode_string, enc_seq.
    destruct (pb_encode_varint 0 s) as [[[] ?]| |]; done.
  - apply bind_Some in Hv as (n & Hn%done_value_Some & Hv).
    apply fmap_Some in Hv as (bs & Hbs & ->). split; [|done]. unfold pb_enc_string.
    destruct (a =? 0); [done|].
    eapply emits_ext; [intros s; rewrite Hn; cbn [mbind outcome_bind]; reflexivity|].
    apply strnlen_loop_range in Hn; [|lia]. by apply emits_loaded.
  - cbn. destruct (emits_submsg_value f a v) as [? ->]; auto; lia.
  - apply fmap_Some in Hv as (bs & Hbs & ->). split; [|done].
    apply emits_loaded; auto; lia.
Qed.

(** ** Arrays *)

Lemma emits_items {A} (w : A -> list Z) (rdi : Z -> option A) item n step p vs :
  (forall q v, rdi q = Some v -> zlen (w v) < 2 ^ 64 -> emits (item q) (w v)) ->
  read_items n rdi step p = Some vs -> zlen (concat (map w vs)) < 2 ^ 64 ->
  emits (encode_items n item step p) (concat (map w vs)).
Proof.
  intros Hitem. revert p vs. induction n as [|n IH]; intros p vs; cbn [read_items encode_items].
  - intros [= <-] _. apply emits_true.
  - intros (v & Hv & Hvs)%bind_Some Hlen. apply bind_Some in Hvs as (vs' & Hvs & [= <-]).
    cbn [map concat] in *. rewrite zlen_app in Hlen.
    apply emits_seq; [apply Hitem; auto; lia|apply IH; auto; lia].
Qed.

Lemma read_items_fixed {A} (w : A -> list Z) (rdi : Z -> option A) k n step p vs :
  (forall q v, rdi q = Some v -> zlen (w v) = k) ->
  read_items n rdi step p = Some vs -> zlen (concat (map w vs)) = k * Z.of_nat n.
Proof.
  intros Hk. revert p vs. induction n as [|n IH]; intros p vs; cbn [read_items].
  - intros [= <-]. cbn. lia.
  - intros (v & Hv & Hvs)%bind_Some. apply bind_Some in Hvs as (vs' & Hvs & [= <-]).
    cbn [map concat]. rewrite zlen_app, (Hk _ _ Hv), (IH _ _ Hvs). lia.
Qed.

(** The items of an array, encoded by the function the table holds. *)
Lemma emits_value_items f func n p vs :
  0 <= data_size f < 2 ^ 32 -> PB_ENCODERS enc_msg !! Z.to_nat (PB_LTYPE (type f)) = Some (Some func) ->
  read_items n (read_value rd m f) (data_size f) p = Some vs ->
  zlen (concat (map wire_val vs)) < 2 ^ 64 ->
  emits (encode_items n (func m f) (data_size f) p) (concat (map wire_val vs)).
Proof.
  intros Hds Hfunc. apply emits_items. intros q v Hv Hlen.
  destruct (emits_value f q v) as (func' & Hf' & He & _); auto. rewrite Hfunc in Hf'. by simplify_eq.
Qed.

(** The size computed for a packed array is the size of its body. *)
Lemma packed_size_ok f func pd count vs :
  0 <= data_size f < 2 ^ 32 -> 0 <= count < 2 ^ 32 ->
  PB_ENCODERS enc_msg !! Z.to_nat (PB_LTYPE (type f)) = Some (Some func) ->
  read_items (Z.to_nat count) (read_value rd m f) (data_size f) pd = Some vs ->
  zlen (concat (map wire_val vs)) < 2 ^ 64 ->
  packed_size m f pd count func = Done (Some (zlen (concat (map wire_val vs)))).
Proof.
  intros Hds Hc Hfunc Hvs Hlen. unfold packed_size.
  destruct (Z.eqb_spec (PB_LTYPE (type f)) PB_LTYPE_FIXED32) as [E|];
    [|destruct (Z.eqb_spec (PB_LTYPE (type f)) PB_LTYPE_FIXED64) as [E|]].
  1,2: do 2 f_equal; rewrite u64_small by lia; symmetry; erewrite read_items_fixed; [|..|exact Hvs];
    [rewrite Z2Nat.id by lia; reflexivity|]; intros q v; unfold read_value; rewrite E; cbn;
    intros (x & _ & ->)%fmap_Some; cbn [wire_val]; rewrite length_le_bytes; lia.
  destruct (emits_sizing _ _ (emits_value_items f func _ _ _ Hds Hfunc Hvs Hlen) Hlen) as (s' & -> & <-). done.
Qed.

Lemma ltype_encoder f : field_ok f -> is_extension f = false ->
  exists func, PB_ENCODERS enc_msg !! Z.to_nat (PB_LTYPE (type f)) = Some (Some func).
Proof.
  intros (_ & [_ Hlt] & _) Hext. assert (0 <= PB_LTYPE (type f)) by (apply Z.land_nonneg; right; done).
  unfold is_extension in Hext. change PB_LTYPES_COUNT with 11 in Hlt. change PB_LTYPE_EXTENSION with 9 in Hext.
  destruct (PB_LTYPE (type f)) as [|p|p]; [eexists; reflexivity| |lia].
  do 4 (destruct p as [p|p|]; try (eexists; reflexivity); try lia).
Qed.

Lemma emits_array f func pd count es :
  field_ok f -> 0 <= count < 2 ^ 32 ->
  PB_ENCODERS enc_msg !! Z.to_nat (PB_LTYPE (type f)) = Some (Some func) ->
  read_array rd m f pd count = Some es -> zlen (wire_msg es) < 2 ^ 64 ->
  emits (encode_array m f pd count func) (wire_msg es).
Proof.
  intros Hok Hc Hfunc. pose proof Hok as (Ht & _ & _ & _ & Hds & _). unfold PB_SIZE_MAX in Hds.
  unfold read_array, encode_array.
  destruct (count =? 0). { intros [= <-] _. apply emits_true. }
  destruct (negb _ && _); [done|]. destruct (PB_LTYPE (type f) <=? _) eqn:Epack.
  - intros (vs & Hvs & [= <-])%bind_Some Hlen. unfold wire_msg in *. cbn [map concat] in *.
    rewrite app_nil_r in *. unfold wire_field in *. cbn [fst snd wval_type wire_val] in *.
    rewrite zlen_app in Hlen. pose proof (zlen_delimited (concat (map wire_val vs))).
    apply emits_seq; [apply emits_tag; unfold PB_WT_STRING; lia|].
    eapply emits_ext.
    { intros s. erewrite packed_size_ok by (eauto; lia). cbn [mbind outcome_bind]. reflexivity. }
    apply emits_seq; [apply emits_varint; lia|].
    pose proof (emits_value_items f func _ _ _ ltac:(lia) Hfunc Hvs ltac:(lia)) as Hbody.
    eapply emits_delimited_tail; [lia|exact Hbody| |].
    + intros s Hcb. by rewrite Hcb.
    + intros r s Hs Hcb. rewrite Hcb. cbn [negb]. destruct (Hbody r s Hs) as [Htr Hfl]. auto.
  - intros (vs & Hvs & [= <-])%bind_Some Hlen. unfold wire_msg in *. rewrite map_map in *.
    eapply emits_items; [|exact Hvs|exact Hlen].
    intros q v (q' & Hq' & Hv)%bind_Some Hl. unfold wire_field in *. cbn [fst snd] in *.
    rewrite zlen_app in Hl.
    destruct (emits_value f q' v) as (func' & Hf' & He & Hwt); auto; try lia.
    pose proof (eq_trans (eq_sym Hfunc) Hf') as [= <-].
    apply emits_seq; [by apply emits_tag_for_field|].
    destruct (_ && _); [by eapply emits_with|by simplify_eq].
Qed.

(** ** One field of the struct *)

Lemma emits_single f func pd v :
  field_ok f -> PB_ENCODERS enc_msg !! Z.to_nat (PB_LTYPE (type f)) = Some (Some func) ->
  read_value rd m f pd = Some v -> zlen (wire_msg [(tag f, v)]) < 2 ^ 64 ->
  emits (pb_encode_tag_for_field f >>? func m f pd) (wire_msg [(tag f, v)]).
Proof.
  intros Hok Hfunc Hv. unfold wire_msg. cbn [map concat]. rewrite app_nil_r.
  unfold wire_field. cbn [fst snd]. rewrite zlen_app. intros Hlen.
  pose proof Hok as (_ & _ & _ & _ & Hds & _). unfold PB_SIZE_MAX in Hds.
  destruct (emits_value f pd v) as (func' & Hf' & He & Hwt); auto; try lia.
  pose proof (eq_trans (eq_sym Hfunc) Hf') as [= <-].
  apply emits_seq; [by apply emits_tag_for_field|done].
Qed.

(** The pointers the encoder computes, when the field can be read. *)
Lemma basic_field_pointers_ok fuel f pd0 pd :
  (if PB_ATYPE (type f) =? PB_ATYPE_POINTER then load_ptr m pd0 else Some pd0) = Some pd ->
  (size_offset f = 0 -> PB_HTYPE (type f) = PB_HTYPE_OPTIONAL ->
     exists d, pb_check_proto3_default_value fuel m f pd0 = Done d) ->
  exists ih, basic_field_pointers fuel m f pd0 = Done (pd, ih) /\
    forall d, size_offset f = 0 -> PB_HTYPE (type f) = PB_HTYPE_OPTIONAL ->
      pb_check_proto3_default_value fuel m f pd0 = Done d ->
      ih = if PB_ATYPE (type f) =? PB_ATYPE_POINTER then negb (pd =? 0) else negb d.
Proof.
  intros Hpd Hdef. unfold basic_field_pointers.
  assert (exists b, (if negb (size_offset f =? 0) then Done false
     else if PB_HTYPE (type f) =? PB_HTYPE_OPTIONAL
     then negb <$> pb_check_proto3_default_value fuel m f pd0 else Done true) = Done b /\
     forall d, size_offset f = 0 -> PB_HTYPE (type f) = PB_HTYPE_OPTIONAL ->
       pb_check_proto3_default_value fuel m f pd0 = Done d -> b = negb d) as (b & -> & Hb).
  { destruct (Z.eqb_spec (size_offset f) 0) as [Eo|]; [|eexists; split; [done|lia]].
    destruct (Z.eqb_spec (PB_HTYPE (type f)) PB_HTYPE_OPTIONAL) as [Eh|]; [|eexists; split; done].
    destruct (Hdef Eo Eh) as [d ->]. exists (negb d). split; [done|]. by intros d' _ _ [= <-]. }
  cbn [mbind outcome_bind]. destruct (PB_ATYPE (type f) =? PB_ATYPE_POINTER).
  - rewrite Hpd. cbn. eauto.
  - simplify_eq. eauto.
Qed.

Lemma emits_basic_field fuel f pd0 es :
  field_ok f -> is_extension f = false ->
  read_field fuel rd m f pd0 = Some es -> zlen (wire_msg es) < 2 ^ 64 ->
  emits (encode_basic_field enc_msg fuel m f pd0) (wire_msg es).
Proof.
  intros Hok Hext. destruct (ltype_encoder f Hok Hext) as [func Hfunc].
  unfold read_field. destruct (negb (_ || _)); [done|].
  intros (pd & Hpd & Hes)%bind_Some Hlen. unfold encode_basic_field.
  edestruct (basic_field_pointers_ok fuel f pd0 pd Hpd) as (ih & Hptrs & Hih).
  { intros Eo Eh. rewrite Eo, Eh in Hes. cbn in Hes.
    apply bind_Some in Hes as (has & Hhas & _). apply bind_Some in Hhas as (d & Hd%done_value_Some & _). eauto. }
  eapply emits_ext.
  { intros s. rewrite Hfunc, Hptrs. cbn [demand mbind outcome_bind call_encoder]. reflexivity. }
  destruct (Z.eqb_spec (PB_HTYPE (type f)) PB_HTYPE_REQUIRED) as [_|Hn1].
  { destruct (pd =? 0); [done|]. apply bind_Some in Hes as (v & Hv & [= <-]). by apply emits_single. }
  destruct (Z.eqb_spec (PB_HTYPE (type f)) PB_HTYPE_OPTIONAL) as [Eh|Hn2].
  { apply bind_Some in Hes as (has & Hhas & Hes).
    apply (emits_ext _ (fun s => if has then (pb_encode_tag_for_field f >>? func m f pd) s else Done (true, s))).
    - intros s. destruct (Z.eqb_spec (size_offset f) 0) as [Eo|]; cbn [negb] in *; [|by rewrite Hhas].
      apply bind_Some in Hhas as (d & Hd%done_value_Some & [= <-]). by rewrite (Hih d Eo Eh Hd).
    - destruct has.
      + apply bind_Some in Hes as (v & Hv & [= <-]). by apply emits_single.
      + injection Hes as <-. apply emits_true. }
  destruct (Z.eqb_spec (PB_HTYPE (type f)) PB_HTYPE_REPEATED) as [_|Hn3].
  { apply bind_Some in Hes as (count & Hcount & Hes). eapply emits_ext.
    { intros s. instantiate (1 := encode_array m f pd count func).
      destruct (size_offset f =? 0); cbn [negb] in *; [by simplify_eq|by rewrite Hcount]. }
    apply emits_array; auto. destruct (size_offset f =? 0); cbn [negb] in Hcount.
    - destruct Hok as (_ & _ & _ & _ & _ & Has). unfold PB_SIZE_MAX in Has. simplify_eq. lia.
    - apply load_uint_range in Hcount; [|done]. cbn in Hcount. lia. }
  apply bind_Some in Hes as (which & Hwhich & Hes).
  destruct (Z.eqb_spec (PB_HTYPE (type f)) PB_HTYPE_ONEOF); [|by destruct (htype_cases (type f)) as [|[|[|]]]].
  destruct (size_offset f =? 0); cbn [negb] in Hwhich; [done|]. eapply emits_ext.
  { intros s. rewrite Hwhich.
      cbn [negb demand mbind outcome_bind]. reflexivity. }
  destruct (which =? tag f).
  - apply bind_Some in Hes as (v & Hv & [= <-]). by apply emits_single.
  - injection Hes as <-. apply emits_true.
Qed.

Lemma emits_field fuel f pd0 es :
  field_ok f -> is_extension f = false ->
  read_field fuel rd m f pd0 = Some es -> zlen (wire_msg es) < 2 ^ 64 ->
  emits (encode_any_field enc_msg fuel m f pd0) (wire_msg es).
Proof.
  intros Hok Hext Hes Hlen. unfold encode_any_field, encode_field.
  unfold is_extension in Hext. rewrite Hext.
  assert ((PB_ATYPE (type f) =? PB_ATYPE_STATIC) || (PB_ATYPE (type f) =? PB_ATYPE_POINTER) = true) as ->.
  { unfold read_field in Hes. by destruct (_ || _). }
  by apply emits_basic_field.
Qed.
End Fields.

(** ** Whole messages *)

(** The loop over the fields, from position [i] on. *)
Lemma emits_fields l dest (enc_one : pb_field -> Z -> enc S) (rdf : pb_field -> Z -> option (list (Z * wval))) :
  dest <> 0 -> Forall field_ok l -> zlen l < 2 ^ 32 ->
  (forall f pd es, f ∈ l -> rdf f pd = Some es -> zlen (wire_msg es) < 2 ^ 64 -> emits (enc_one f pd) (wire_msg es)) ->
  forall n i it ess,
  (length l <= i + n)%nat -> (i < length l)%nat -> iter_on l dest i it ->
  mapM (fun '(f, (pd, _, _)) => rdf f pd) (drop i (zip l (struct_layout l dest))) = Some ess ->
  zlen (wire_msg (concat ess)) < 2 ^ 64 ->
  emits (encode_fields n enc_one it) (wire_msg (concat ess)).
Proof.
  intros Hd Hl Hlen Hone. induction n as [|n IH]; intros i it ess Hn Hi Hon Hess Hsz; [lia|].
  pose proof Hon as (f & pd & ps & req & Hf & Hlay & Hs & Hp & _ & _ & Hpd & _).
  assert (zip l (struct_layout l dest) !! i = Some (f, (pd, ps, req))) as Hz.
  { apply lookup_zip_with_Some. eauto. }
  erewrite drop_S in Hess by exact Hz. cbn in Hess.
  apply bind_Some in Hess as (es & Hes & Hess). apply bind_Some in Hess as (ess' & Hess & [= <-]).
  cbn [concat] in *. rewrite wire_msg_app in *. rewrite zlen_app in Hsz.
  destruct (iter_next_on _ _ _ _ Hd Hl Hlen Hon) as (it' & Hnext & Hat).
  apply (emits_ext _ (enc_one f pd >>? (fun s =>
    if bool_decide (Datatypes.S i < length l)%nat then encode_fields n enc_one it' s else Done (true, s)))).
  { intros s. cbn [encode_fields]. unfold at_pos, enc_seq. rewrite Hs, Hp, (last_lookup _ _ _ Hf), Hpd.
    cbn [demand mbind outcome_bind]. destruct (enc_one f pd s) as [[[] s1]| |]; try done.
    cbn [mbind outcome_bind negb]. by rewrite Hnext. }
  apply emits_seq.
  { apply Hone; [by eapply list_elem_of_lookup_2|done|lia]. }
  case_bool_decide as Hlt.
  - destruct (lookup_lt_is_Some_2 l (Datatypes.S i) Hlt) as [f' Hf'].
    apply (IH (Datatypes.S i)); auto; try lia. by eapply iter_at_on.
  - rewrite drop_ge in Hess by (rewrite length_zip_with, length_struct_layout; lia).
    cbn in Hess. injection Hess as <-. apply emits_true.
Qed.

(** The refinement: [pb_encode] emits the wire format of the message. *)
Lemma pb_encode_emits fuel m fields dest fs :
  program_ok -> mem_ok m -> fields_ok fields -> zlen fields <= 2 ^ 32 -> dest <> 0 ->
  read_msg fuel m fields dest = Some fs -> zlen (wire_msg fs) < 2 ^ 64 ->
  emits (pb_encode fuel m fields dest) (wire_msg fs).
Proof.
  intros Hprog Hm. revert fields dest fs.
  induction fuel as [|fuel IH]; intros fields dest fs (l & -> & Hl) Hlen Hd; cbn [read_msg]; [done|].
  rewrite removelast_last, zlen_app in *. cbn [length] in Hlen.
  intros (ess & Hess & ->)%fmap_Some Hsz.
  destruct (iter_begin_at l dest Hd Hl) as [Hempty Hne]. cbn [pb_encode].
  destruct l as [|f l'] eqn:El.
  { destruct (Hempty eq_refl) as [it Hit]. cbn in Hess. injection Hess as <-.
    eapply emits_ext; [|apply emits_true]. intros s. by rewrite Hit. }
  rewrite <- El in *. destruct Hne as (it & Hit & Hat); [by subst|].
  eapply emits_ext.
  { intros s. rewrite Hit. cbn [mbind outcome_bind negb]. reflexivity. }
  eapply emits_fields with (i := 0%nat)
    (rdf := fun f pd => if is_extension f then None else read_field fuel (read_msg fuel m) m f pd);
    [done|done|lia| |rewrite length_app; lia|subst; cbn; lia| |by rewrite drop_0|done].
  - intros g pd es Hg. destruct (is_extension g) eqn:Eext; [done|]. intros Hes Hz.
    assert (Hgok : field_ok g) by (rewrite Forall_forall in Hl; by apply Hl).
    eapply emits_field; eauto. intros f0 fields0 a fs0 Hsub Ha Hr Hz0.
    unfold submsg_fields in Hsub. destruct (ptr f0); try done.
    destruct (Hprog _ _ Hsub). by apply IH.
  - apply (iter_at_on _ _ _ _ f); [by subst|done].
Qed.
End Emit.
