(* ===== verification/PbIStream.v ===== *)
(** * PbIStream: input streams and the wire primitives of pb_decode.c.

    A [pb_istream_t] is a byte source with a limit ([bytes_left]).  The source
    is either the library's [buf_read] over a constant buffer, where the state
    pointer is represented by the bytes from it to the end of the buffer, or a
    callback of the user ([Source]).  A failing user callback is taken to
    leave the destination buffer alone. *)

From Stdlib Require Import ZifyBool.
From stdpp Require Import base tactics numbers list gmap strings.
From S2P Require Import Prelude Mem PbTypes PbOStream PbWire.
Open Scope Z_scope.

(** A user callback: the status, the bytes it stored and its new state. *)
Class Source (S : Type) : Type := {
  source_read : S -> Z -> outcome (bool * list Z * S);
}.

Inductive isource (S : Type) : Type :=
| SrcBuffer (rest : list Z)
| SrcUser (st : S).
Arguments SrcBuffer {S} rest.
Arguments SrcUser {S} st.

Record pb_istream (S : Type) : Type := PbIStream {
  source : isource S;
  bytes_left : Z;
  ierrmsg : option string;
}.
Arguments PbIStream {S} _ _ _.
Arguments source {S} _.
Arguments bytes_left {S} _.
Arguments ierrmsg {S} _.

(** A reading routine: [None] for C's [return false]. *)
Definition rd (S A : Type) : Type := pb_istream S -> outcome (option A * pb_istream S).

#[export] Instance rd_ret {S} : MRet (rd S) := fun A a s => Done (Some a, s).
#[export] Instance rd_bind {S} : MBind (rd S) := fun A B f x s =>
  '(r, s1) ← x s;
  match r with Some a => f a s1 | None => Done (None, s1) end.

(** [PB_RETURN_ERROR] *)
Definition set_ierror {S} (msg : string) (s : pb_istream S) : pb_istream S :=
  PbIStream (source s) (bytes_left s) (Some (default msg (ierrmsg s))).
Definition rd_error {S A} (msg : string) : rd S A := fun s => Done (None, set_ierror msg s).

(** [return false] with no message; undefined behaviour; out of fuel. *)
Definition rd_false {S A} : rd S A := fun s => Done (None, s).
Definition rd_undef {S A} : rd S A := fun _ => Undef.
Definition rd_nofuel {S A} : rd S A := fun _ => NoFuel.

Section IStream.
Context {S : Type} `{Source S}.

(** [stream->callback(stream, buf, count)]; [buf_read] past the end of its
    buffer is undefined. *)
Definition call_source (src : isource S) (count : Z) : outcome (option (list Z) * isource S) :=
  match src with
  | SrcBuffer rest =>
    if zlen rest <? count then Undef
    else Done (Some (take (Z.to_nat count) rest), SrcBuffer (drop (Z.to_nat count) rest))
  | SrcUser st =>
    '(ok, data, st') ← source_read st count;
    Done (if ok : bool then Some data else None, SrcUser st')
  end.

(** [pb_read] into a buffer. *)
Definition read_direct (count : Z) : rd S (list Z) := fun s =>
  if count =? 0 then Done (Some [], s) else
  if bytes_left s <? count then rd_error "end-of-stream" s else
  '(data, src) ← call_source (source s) count;
  match data with
  | None => rd_error "io error" (PbIStream src (bytes_left s) (ierrmsg s))
  | Some data => Done (Some data, PbIStream src (bytes_left s - count) (ierrmsg s))
  end.

(** [while (count > 16) { pb_read(stream, tmp, 16); count -= 16; }] *)
Fixpoint skip_chunks (fuel : nat) (count : Z) : rd S (list Z) := fun s =>
  match fuel with
  | O => NoFuel
  | Datatypes.S fuel =>
    if 16 <? count then (_ ← read_direct 16; skip_chunks fuel (count - 16)) s
    else read_direct count s
  end.

Definition is_buffer (src : isource S) : bool := match src with SrcBuffer _ => true | SrcUser _ => false end.

(** [pb_read(stream, buf, count)]; [null] when [buf] is NULL, which skips the
    bytes, in chunks when the source is a user callback. *)
Definition pb_read (null : bool) (count : Z) : rd S (list Z) := fun s =>
  if count =? 0 then Done (Some [], s) else
  if null && negb (is_buffer (source s))
  then skip_chunks (Datatypes.S (Datatypes.S (Z.to_nat (Z.min count (bytes_left s) / 16)))) count s
  else read_direct count s.

Definition pb_readbyte : rd S Z := fun s =>
  if bytes_left s =? 0 then rd_error "end-of-stream" s else
  '(data, src) ← call_source (source s) 1;
  match data with
  | None => rd_error "io error" (PbIStream src (bytes_left s) (ierrmsg s))
  | Some data =>
    b ← demand (head data);
    Done (Some b, PbIStream src (bytes_left s - 1) (ierrmsg s))
  end.

(** ** Varints *)

(** The do-while loop of [pb_decode_varint32_eof]; [bitpos] is a
    [uint_fast8_t], eight bits wide on the target. *)
Fixpoint varint32_loop (fuel : nat) (bitpos result : Z) : rd S Z :=
  match fuel with
  | O => rd_nofuel
  | Datatypes.S fuel =>
    byte ← pb_readbyte;
    let sign_extension := if bitpos <? 63 then 0xFF else 0x01 in
    if (32 <=? bitpos) && negb (Z.land byte 0x7F =? 0) &&
       ((Z.shiftr result 31 =? 0) || negb (byte =? sign_extension))
    then rd_error "varint overflow"
    else
      let result := if 32 <=? bitpos then result
                    else Z.lor result (u32 (Z.shiftl (Z.land byte 0x7F) bitpos)) in
      let bitpos := u8 (bitpos + 7) in
      if negb (Z.land byte 0x80 =? 0) then varint32_loop fuel bitpos result
      else if (bitpos =? 35) && negb (Z.land byte 0x70 =? 0) then rd_error "varint overflow"
      else mret result
  end.

(** The result, whether [*eof] was set, and the stream. *)
Definition pb_decode_varint32_eof (s : pb_istream S) : outcome (option Z * bool * pb_istream S) :=
  '(r, s1) ← pb_readbyte s;
  match r with
  | None => Done (None, bytes_left s1 =? 0, s1)
  | Some byte =>
    if Z.land byte 0x80 =? 0 then Done (Some byte, false, s1)
    else
      '(r, s2) ← varint32_loop (Datatypes.S (Z.to_nat (bytes_left s1))) 7 (Z.land byte 0x7F) s1;
      Done (r, false, s2)
  end.

Definition pb_decode_varint32 : rd S Z := fun s =>
  '(r, _, s1) ← pb_decode_varint32_eof s; Done (r, s1).

Fixpoint varint_decode_loop (fuel : nat) (bitpos result : Z) : rd S Z :=
  match fuel with
  | O => rd_nofuel
  | Datatypes.S fuel =>
    if 64 <=? bitpos then rd_error "varint overflow" else
    byte ← pb_readbyte;
    let result := Z.lor result (u64 (Z.shiftl (Z.land byte 0x7F) bitpos)) in
    let bitpos := u8 (bitpos + 7) in
    if negb (Z.land byte 0x80 =? 0) then varint_decode_loop fuel bitpos result else mret result
  end.

(** Ten rounds take [bitpos] past 63, the eleventh reports the overflow. *)
Definition pb_decode_varint : rd S Z := varint_decode_loop 11 0 0.

Definition pb_decode_svarint : rd S Z :=
  value ← pb_decode_varint;
  mret (if negb (Z.land value 1 =? 0) then s64 (u64 (Z.lnot (Z.shiftr value 1)))
        else s64 (Z.shiftr value 1)).

Fixpoint skip_varint_loop (fuel : nat) : rd S unit :=
  match fuel with
  | O => rd_nofuel
  | Datatypes.S fuel =>
    data ← pb_read false 1;
    match data with
    | byte :: _ => if negb (Z.land byte 0x80 =? 0) then skip_varint_loop fuel else mret tt
    | [] => rd_undef
    end
  end.

Definition pb_skip_varint : rd S unit := fun s => skip_varint_loop (Datatypes.S (Z.to_nat (bytes_left s))) s.

(** ** Length-delimited and fixed values *)

Definition pb_skip_string : rd S unit :=
  length ← pb_decode_varint32; _ ← pb_read true length; mret tt.

(** Tag and wire type, [*eof], and the stream. *)
Definition pb_decode_tag (s : pb_istream S) : outcome (option (Z * Z) * bool * pb_istream S) :=
  '(r, eof, s1) ← pb_decode_varint32_eof s;
  match r with
  | None => Done (None, eof, s1)
  | Some temp =>
    if temp =? 0 then Done (None, true, s1)
    else Done (Some (Z.shiftr temp 3, Z.land temp 7), eof, s1)
  end.

Definition pb_skip_field (wire_type : Z) : rd S unit :=
  if wire_type =? PB_WT_VARINT then pb_skip_varint
  else if wire_type =? PB_WT_64BIT then _ ← pb_read true 8; mret tt
  else if wire_type =? PB_WT_STRING then pb_skip_string
  else if wire_type =? PB_WT_32BIT then _ ← pb_read true 4; mret tt
  else rd_error "invalid wire_type".

(** The bytes of one varint, at most [max_size]; running out of the buffer
    fails without a message. *)
Fixpoint raw_varint_loop (fuel : nat) (max_size : Z) (buf : list Z) : rd S (list Z) :=
  match fuel with
  | O => rd_nofuel
  | Datatypes.S fuel =>
    if max_size <? zlen buf + 1 then rd_false else
    data ← pb_read false 1;
    match data with
    | byte :: _ =>
      if negb (Z.land byte 0x80 =? 0) then raw_varint_loop fuel max_size (buf ++ [byte])
      else mret (buf ++ [byte])
    | [] => rd_undef
    end
  end.

(** The raw bytes of a scalar; [max_size] is the caller's buffer size. *)
Definition read_raw_value (wire_type max_size : Z) : rd S (list Z) :=
  if wire_type =? PB_WT_VARINT then raw_varint_loop (Datatypes.S (Z.to_nat max_size)) max_size []
  else if wire_type =? PB_WT_64BIT then pb_read false 8
  else if wire_type =? PB_WT_32BIT then pb_read false 4
  else rd_error "invalid wire_type".

(** The stream split into its next [size] bytes and the rest. *)
Definition split_stream (size : Z) : rd S (pb_istream S) := fun s =>
  if bytes_left s <? size then rd_error "parent stream too short" s
  else Done (Some (PbIStream (source s) size (ierrmsg s)),
             PbIStream (source s) (bytes_left s - size) (ierrmsg s)).

Definition pb_make_string_substream : rd S (pb_istream S) :=
  size ← pb_decode_varint32; split_stream size.

(** Skips what is left of the substream and lets the parent go on after it. *)
Definition pb_close_string_substream (sub : pb_istream S) : rd S unit := fun s =>
  '(r, sub1) ← (if negb (bytes_left sub =? 0) then pb_read true (bytes_left sub) sub else Done (Some [], sub));
  match r with
  | None => Done (None, s)
  | Some _ => Done (Some tt, PbIStream (source sub1) (bytes_left s) (ierrmsg sub1))
  end.

Definition pb_istream_from_buffer (buf : list Z) (bufsize : Z) : pb_istream S :=
  PbIStream (SrcBuffer buf) bufsize None.

Definition pb_decode_fixed32 : rd S Z :=
  bytes ← pb_read false 4;
  match bytes with
  | [b0; b1; b2; b3] =>
    mret (Z.lor (Z.lor (Z.lor (Z.shiftl b0 0) (Z.shiftl b1 8)) (Z.shiftl b2 16)) (Z.shiftl b3 24))
  | _ => rd_undef
  end.

Definition pb_decode_fixed64 : rd S Z :=
  bytes ← pb_read false 8;
  match bytes with
  | [b0; b1; b2; b3; b4; b5; b6; b7] =>
    mret (Z.lor (Z.lor (Z.lor (Z.lor (Z.lor (Z.lor (Z.lor (Z.shiftl b0 0) (Z.shiftl b1 8))
      (Z.shiftl b2 16)) (Z.shiftl b3 24)) (Z.shiftl b4 32)) (Z.shiftl b5 40)) (Z.shiftl b6 48)) (Z.shiftl b7 56))
  | _ => rd_undef
  end.
End IStream.

(** * The wire primitives of the decoder.

    [reads r bs a]: on a buffer that starts with [bs], the routine [r]
    consumes exactly [bs] and returns [a].  The decoders invert the encoders
    of pb_encode.c on all values.  [robust r]: on every buffer, whatever it
    holds, [r] terminates, stays inside the buffer and only moves forward. *)


Create HintDb reads.
Create HintDb robust.

Section Reads.
Context {S : Type} `{Source S}.

Definition reads {A} (r : rd S A) (bs : list Z) (a : A) : Prop :=
  forall rest left msg, zlen bs <= left ->
    r (PbIStream (SrcBuffer (bs ++ rest)) left msg) =
    Done (Some a, PbIStream (SrcBuffer rest) (left - zlen bs) msg).

Lemma reads_ret {A} (a : A) : reads (mret a) [] a.
Proof. intros rest left msg _. cbn. by rewrite Z.sub_0_r. Qed.

Lemma reads_bind {A B} (r : rd S A) (k : A -> rd S B) bs1 bs2 a b :
  reads r bs1 a -> reads (k a) bs2 b -> reads (r ≫= k) (bs1 ++ bs2) b.
Proof.
  intros Hr Hk rest left msg. rewrite length_app, <- app_assoc. intros Hle.
  unfold mbind, rd_bind. rewrite Hr by lia. cbn. rewrite Hk by lia. do 3 f_equal. lia.
Qed.

Lemma reads_bind_nil {A B} (r : rd S A) (k : A -> rd S B) bs a b :
  reads r bs a -> reads (k a) [] b -> reads (r ≫= k) bs b.
Proof. intros Hr Hk. rewrite <- (app_nil_r bs). by eapply reads_bind. Qed.

Lemma reads_byte b : reads pb_readbyte [b] b.
Proof.
  intros rest left msg. cbn. intros Hle. unfold pb_readbyte. cbn.
  destruct (Z.eqb_spec left 0); [lia|]. destruct (Z.ltb_spec (Z.of_nat (Datatypes.S (length rest))) 1); [lia|]. done.
Qed.

Lemma reads_direct bs : reads (read_direct (zlen bs)) bs bs.
Proof.
  intros rest left msg Hle. unfold read_direct. cbn.
  destruct (Z.eqb_spec (zlen bs) 0) as [E|].
  - destruct bs; [|cbn in E; lia]. cbn. by rewrite Z.sub_0_r.
  - destruct (Z.ltb_spec left (zlen bs)); [lia|]. rewrite length_app.
    destruct (Z.ltb_spec (Z.of_nat (length bs + length rest)) (zlen bs)); [lia|]. cbn.
    by rewrite Nat2Z.id, take_app_length, drop_app_length.
Qed.

Lemma reads_read null bs : reads (pb_read null (zlen bs)) bs bs.
Proof.
  intros rest left msg Hle. unfold pb_read. cbn. rewrite andb_false_r.
  destruct (Z.eqb_spec (zlen bs) 0) as [E|]; [|by apply reads_direct].
  destruct bs; [|cbn in E; lia]. cbn. by rewrite Z.sub_0_r.
Qed.

(** ** Varints *)

Lemma pow2_succ7 k : 0 <= k -> 2 ^ (7 * (k + 1)) = 128 * 2 ^ (7 * k).
Proof. intros. replace (7 * (k + 1)) with (7 + 7 * k) by lia. rewrite Z.pow_add_r by lia. done. Qed.

Lemma reads_varint_loop n k fuel v r :
  0 <= v < 128 ^ Z.of_nat (Datatypes.S n) -> 0 <= k -> v * 2 ^ (7 * k) < 2 ^ 64 -> 7 * k < 64 ->
  0 <= r < 2 ^ (7 * k) -> (n < fuel)%nat ->
  reads (varint_decode_loop fuel (7 * k) r) (leb128 (Datatypes.S n) v) (r + v * 2 ^ (7 * k)).
Proof.
  revert k fuel v r. induction n as [|n IH]; intros k fuel v r Hv Hk Hsz Hk64 Hr Hf;
    (destruct fuel as [|fuel]; [lia|]); cbn [varint_decode_loop leb128];
    (destruct (Z.leb_spec 64 (7 * k)); [lia|]).
  - destruct (Z.ltb_spec v 128); [|lia].
    eapply reads_bind_nil; [apply reads_byte|].
    destruct (digit_last v) as [-> ->]; [lia|].
    unfold u64. rewrite lor_digit by lia. apply reads_ret.
  - assert (0 < 2 ^ (7 * k)) by lia. destruct (Z.ltb_spec v 128).
    + eapply reads_bind_nil; [apply reads_byte|].
      destruct (digit_last v) as [-> ->]; [lia|].
      unfold u64. rewrite lor_digit by lia. apply reads_ret.
    + pose proof (Z.div_mod v 128 ltac:(lia)) as Hdm. pose proof (Z.mod_pos_bound v 128 ltac:(lia)).
      assert (0 < v / 128) by (apply Z.div_str_pos; lia).
      assert (128 * 2 ^ (7 * k) < 2 ^ 64) by nia.
      assert (7 * (k + 1) < 64).
      { rewrite <- pow2_succ7 in * by lia. apply (Z.pow_lt_mono_r_iff 2); lia. }
      apply (reads_bind _ _ [v mod 128 + 128] _ (v mod 128 + 128)); [apply reads_byte|].
      destruct (digit_continues (v mod 128)) as [-> ->]; [lia|]. cbn [negb Z.eqb].
      unfold u64. rewrite lor_digit by nia.
      rewrite u8_small by lia. replace (7 * k + 7) with (7 * (k + 1)) by lia.
      replace (r + v * 2 ^ (7 * k)) with (r + v mod 128 * 2 ^ (7 * k) + (v / 128) * 2 ^ (7 * (k + 1)))
        by (rewrite pow2_succ7 by lia; nia).
      rewrite pow_128_succ in Hv. apply IH; try lia; rewrite ?pow2_succ7 by lia; nia.
Qed.

Lemma reads_varint v : 0 <= v < 2 ^ 64 -> reads pb_decode_varint (wire_varint v) v.
Proof.
  intros Hv. unfold pb_decode_varint, wire_varint.
  replace v with (0 + v * 2 ^ (7 * 0)) at 2 by lia.
  change 0 with (7 * 0) at 1. apply (reads_varint_loop 9 0); lia.
Qed.

(** The digits after the first, at positions below 32. *)
Lemma reads_varint32_loop n k fuel v r :
  0 < v < 128 ^ Z.of_nat (Datatypes.S n) -> 1 <= k -> v * 2 ^ (7 * k) < 2 ^ 32 ->
  0 <= r < 2 ^ (7 * k) -> (length (leb128 (Datatypes.S n) v) <= fuel)%nat ->
  reads (varint32_loop fuel (7 * k) r) (leb128 (Datatypes.S n) v) (r + v * 2 ^ (7 * k)).
Proof.
  revert k fuel v r. induction n as [|n IH]; intros k fuel v r Hv Hk Hsz Hr Hf;
    (destruct fuel as [|fuel]; [cbn [leb128] in Hf; destruct (_ <? _); cbn in Hf; lia|]);
    cbn [varint32_loop]; revert Hf; cbn [leb128];
    assert (0 < 2 ^ (7 * k)) by lia;
    (assert (7 * k < 32) by (apply (Z.pow_lt_mono_r_iff 2); [lia..|nia])).
  all: destruct (Z.ltb_spec v 128) as [Hlt|Hge]; [|try lia]; intros Hf.
  1,2: eapply reads_bind_nil; [apply reads_byte|];
    destruct (Z.leb_spec 32 (7 * k)); [lia|]; cbn [andb];
    destruct (digit_last v) as [-> ->]; [lia|]; cbn [negb Z.eqb];
    unfold u32; rewrite lor_digit by lia; rewrite u8_small by lia;
    (destruct (Z.eqb_spec (7 * k + 7) 35) as [E|]; [|cbn [andb]; apply reads_ret]);
    assert (Z.land v 112 = 0) as -> by
      (change 112 with (Z.shiftl (2 ^ 3 - 1) 4); rewrite land_field by lia;
       replace (7 * k) with 28 in * by lia; rewrite (Z.div_small v) by lia; done);
    apply reads_ret.
  pose proof (Z.div_mod v 128 ltac:(lia)) as Hdm. pose proof (Z.mod_pos_bound v 128 ltac:(lia)).
  assert (0 < v / 128) by (apply Z.div_str_pos; lia).
  apply (reads_bind _ _ [v mod 128 + 128] _ (v mod 128 + 128)); [apply reads_byte|].
  destruct (Z.leb_spec 32 (7 * k)); [lia|]. cbn [andb].
  destruct (digit_continues (v mod 128)) as [-> ->]; [lia|]. cbn [negb Z.eqb].
  unfold u32. rewrite lor_digit by nia. rewrite u8_small by lia.
  replace (7 * k + 7) with (7 * (k + 1)) by lia.
  replace (r + v * 2 ^ (7 * k)) with (r + v mod 128 * 2 ^ (7 * k) + (v / 128) * 2 ^ (7 * (k + 1)))
    by (rewrite pow2_succ7 by lia; nia).
  rewrite pow_128_succ in Hv. cbn [length] in Hf. apply le_S_n in Hf.
  apply IH; [nia | lia | rewrite pow2_succ7 by lia; nia .. | exact Hf].
Qed.

(** The result with the end-of-file flag left alone. *)
Definition reads_eof {A} (r : pb_istream S -> outcome (option A * bool * pb_istream S)) (bs : list Z) (a : A) : Prop :=
  forall rest left msg, zlen bs <= left ->
    r (PbIStream (SrcBuffer (bs ++ rest)) left msg) =
    Done (Some a, false, PbIStream (SrcBuffer rest) (left - zlen bs) msg).

Lemma reads_varint32_eof v : 0 <= v < 2 ^ 32 -> reads_eof pb_decode_varint32_eof (wire_varint v) v.
Proof.
  intros Hv rest left msg. unfold pb_decode_varint32_eof, wire_varint.
  change (leb128 10 v) with (if v <? 128 then [v] else [v mod 128 + 128] ++ leb128 9 (v / 128)).
  destruct (Z.ltb_spec v 128); intros Hle.
  - rewrite (reads_byte v) by done. cbn -[Z.land].
    destruct (digit_last v) as [_ ->]; [lia|]. done.
  - pose proof (Z.mod_pos_bound v 128 ltac:(lia)). pose proof (Z.div_mod v 128 ltac:(lia)).
    assert (0 < v / 128) by (apply Z.div_str_pos; lia).
    rewrite length_app in Hle. cbn [length] in Hle.
    rewrite <- app_assoc, (reads_byte (v mod 128 + 128)) by (cbn [length]; lia).
    cbn [mbind outcome_bind bytes_left length].
    destruct (digit_continues (v mod 128)) as [-> ->]; [lia|]. cbn [Z.eqb].
    rewrite length_app. cbn [length].
    rewrite (reads_varint32_loop 8 1 _ (v / 128) (v mod 128)); try lia.
    cbn [mbind outcome_bind length]. change (2 ^ (7 * 1)) with 128.
    replace (v mod 128 + v / 128 * 128) with v by lia. do 3 f_equal. lia.
Qed.

Lemma reads_varint32 v : 0 <= v < 2 ^ 32 -> reads pb_decode_varint32 (wire_varint v) v.
Proof. intros Hv rest left msg Hle. unfold pb_decode_varint32. by rewrite reads_varint32_eof. Qed.

Lemma reads_tag wt t :
  0 <= wt < 8 -> 0 < t < 2 ^ 29 -> reads_eof pb_decode_tag (wire_tag wt t) (t, wt).
Proof.
  intros Hwt Ht rest left msg Hle. unfold pb_decode_tag, wire_tag in *.
  rewrite reads_varint32_eof by (done || lia). cbn [mbind outcome_bind].
  destruct (Z.eqb_spec (8 * t + wt) 0); [lia|].
  rewrite (land_low_bits _ 3), Z.shiftr_div_pow2 by lia. change (2 ^ 3) with 8.
  rewrite (Z.mul_comm 8), Z.div_add_l, Z.div_small, Z.add_0_r by lia.
  by rewrite Z.add_comm, Z_mod_plus_full, Z.mod_small by lia.
Qed.

(** ** Fixed width *)

Lemma lor_bytes r x k : 0 <= k -> 0 <= r < 2 ^ k -> Z.lor r (Z.shiftl x k) = r + 2 ^ k * x.
Proof. intros. rewrite lor_shiftl_add by done. lia. Qed.

Lemma reads_fixed32 v : 0 <= v < 2 ^ 32 -> reads pb_decode_fixed32 (le_bytes 4 v) v.
Proof.
  intros Hv. eapply reads_bind_nil; [apply (reads_read false (le_bytes 4 v))|].
  pose proof (le_bytes_small 4 v ltac:(cbn; lia)) as E.
  pose proof (le_bytes_bytes 4 v) as Hb. cbn [le_bytes le_value] in *.
  rewrite !Forall_cons in Hb. unfold is_byte in Hb. destruct Hb as (?&?&?&?&_).
  rewrite Z.shiftl_0_r. rewrite (lor_bytes _ _ 8) by lia. rewrite (lor_bytes _ _ 16) by lia. rewrite (lor_bytes _ _ 24) by lia.
  match goal with |- reads (mret ?x) _ _ => replace x with v by lia end. apply reads_ret.
Qed.

Lemma reads_fixed64 v : 0 <= v < 2 ^ 64 -> reads pb_decode_fixed64 (le_bytes 8 v) v.
Proof.
  intros Hv. eapply reads_bind_nil; [apply (reads_read false (le_bytes 8 v))|].
  pose proof (le_bytes_small 8 v ltac:(cbn; lia)) as E.
  pose proof (le_bytes_bytes 8 v) as Hb. cbn [le_bytes le_value] in *.
  rewrite !Forall_cons in Hb. unfold is_byte in Hb. destruct Hb as (?&?&?&?&?&?&?&?&_).
  rewrite Z.shiftl_0_r. rewrite (lor_bytes _ _ 8) by lia. rewrite (lor_bytes _ _ 16) by lia. rewrite (lor_bytes _ _ 24) by lia. rewrite (lor_bytes _ _ 32) by lia.
  rewrite (lor_bytes _ _ 40) by lia. rewrite (lor_bytes _ _ 48) by lia. rewrite (lor_bytes _ _ 56) by lia.
  match goal with |- reads (mret ?x) _ _ => replace x with v by lia end. apply reads_ret.
Qed.

(** ** Zigzag *)

Lemma unzigzag v : - 2 ^ 63 <= v < 2 ^ 63 ->
  (if negb (Z.land (zigzag v) 1 =? 0) then s64 (u64 (Z.lnot (Z.shiftr (zigzag v) 1)))
   else s64 (Z.shiftr (zigzag v) 1)) = v.
Proof.
  intros Hv. rewrite (land_low_bits _ 1), Z.shiftr_div_pow2 by lia. change (2 ^ 1) with 2.
  unfold zigzag. destruct (Z.ltb_spec v 0).
  - replace (- 2 * v - 1) with (1 + (- v - 1) * 2) by lia.
    rewrite Z_mod_plus_full, Z.div_add, (Z.mod_small 1), (Z.div_small 1) by lia. cbn [negb Z.eqb].
    unfold Z.lnot. replace (Z.pred (- (0 + (- v - 1)))) with v by lia.
    unfold s64, u64. rewrite signed_wrap by lia. apply signed_small; lia.
  - replace (2 * v) with (0 + v * 2) by lia.
    rewrite Z_mod_plus_full, Z.div_add, Z.mod_small, Z.div_small by lia. cbn [negb Z.eqb].
    apply signed_small; lia.
Qed.

Lemma reads_svarint v : - 2 ^ 63 <= v < 2 ^ 63 -> reads pb_decode_svarint (wire_varint (zigzag v)) v.
Proof.
  intros Hv. eapply reads_bind_nil; [by apply reads_varint, zigzag_range|].
  rewrite unzigzag by done. apply reads_ret.
Qed.

(** ** Skipping *)

Lemma reads_skip_varint_loop k fuel v :
  0 <= v < 128 ^ Z.of_nat (Datatypes.S k) -> (length (leb128 (Datatypes.S k) v) <= fuel)%nat ->
  reads (skip_varint_loop fuel) (leb128 (Datatypes.S k) v) tt.
Proof.
  revert fuel v. induction k as [|k IH]; intros fuel v Hv Hf;
    (destruct fuel as [|fuel]; [cbn [leb128] in Hf; destruct (_ <? _); cbn in Hf; lia|]);
    cbn [skip_varint_loop]; revert Hf; cbn [leb128].
  all: destruct (Z.ltb_spec v 128) as [Hlt|Hge]; [|try lia]; intros Hf.
  1,2: eapply reads_bind_nil; [apply (reads_read false [v])|]; destruct (digit_last v) as [_ ->]; [lia|apply reads_ret].
  pose proof (Z.mod_pos_bound v 128 ltac:(lia)).
  apply (reads_bind _ _ [v mod 128 + 128] _ [v mod 128 + 128]); [apply (reads_read false [v mod 128 + 128])|].
  destruct (digit_continues (v mod 128)) as [_ ->]; [lia|]. cbn [negb Z.eqb].
  rewrite pow_128_succ in Hv. cbn [length] in Hf. apply le_S_n in Hf.
  apply IH; [|exact Hf]. split; [apply Z.div_pos; lia|apply Z.div_lt_upper_bound; lia].
Qed.

Lemma reads_skip_varint v : 0 <= v < 2 ^ 64 -> reads pb_skip_varint (wire_varint v) tt.
Proof.
  intros Hv rest left msg Hle. unfold pb_skip_varint. cbn [bytes_left].
  apply (reads_skip_varint_loop 9); [change (128 ^ Z.of_nat 10) with (2 ^ 70); lia| |done].
  unfold wire_varint in Hle. lia.
Qed.

Lemma reads_skip_bytes bs : reads (_ ← pb_read true (zlen bs); mret tt) bs tt.
Proof. eapply reads_bind_nil; [apply reads_read|apply reads_ret]. Qed.

Lemma reads_skip_string bs : zlen bs < 2 ^ 32 -> reads pb_skip_string (wire_varint (zlen bs) ++ bs) tt.
Proof. intros Hl. eapply reads_bind; [apply reads_varint32; lia|apply reads_skip_bytes]. Qed.
End Reads.

(** ** Arbitrary input *)

Section Robust.
Context {S : Type} `{Source S}.

(** The stream reads a buffer that holds at least [bytes_left] bytes. *)
Definition buffered (s : pb_istream S) : Prop :=
  match source s with
  | SrcBuffer rest => 0 <= bytes_left s <= zlen rest /\ Forall is_byte rest
  | SrcUser _ => False
  end.

(** [s'] is [s] with [n] bytes consumed, or more bytes written off: an error
    inside a substream leaves the parent behind the length it was charged. *)
Definition after (n : nat) (s s' : pb_istream S) : Prop :=
  match source s with
  | SrcBuffer rest => source s' = SrcBuffer (drop n rest)
  | SrcUser _ => False
  end /\ 0 <= bytes_left s' <= bytes_left s - Z.of_nat n.

Definition moved (s s' : pb_istream S) : Prop := exists n, after n s s'.

(** From every buffer: a result satisfying [P], and progress inside it. *)
Definition robust {A} (r : rd S A) (P : A -> Prop) : Prop :=
  forall s, buffered s -> exists o s', r s = Done (o, s') /\ moved s s' /\ from_option P True o.

Lemma moved_refl s : buffered s -> moved s s.
Proof.
  destruct s as [[rest|] left msg]; cbn; [|done]. intros [? _]. exists 0%nat.
  split_and!; cbn; try done; lia.
Qed.

Lemma moved_buffered s s' : buffered s -> moved s s' -> buffered s'.
Proof.
  destruct s as [[rest|] left msg], s' as [src' left' msg']; cbn; [|done].
  intros [? Hb] (n & Hs & Hl). cbn in *. subst. cbn. rewrite length_drop. split; [lia|].
  by apply Forall_drop.
Qed.

Lemma moved_trans s1 s2 s3 : buffered s1 -> moved s1 s2 -> moved s2 s3 -> moved s1 s3.
Proof.
  destruct s1 as [[rest|] left msg]; [|by intros []]. intros _ (n & Hs & Hl) (k & Hs' & Hl').
  cbn in *. rewrite Hs in Hs'. exists (n + k)%nat. split; cbn; [by rewrite Hs', drop_drop|lia].
Qed.

Lemma moved_left s s' : moved s s' -> bytes_left s' <= bytes_left s.
Proof. intros (n & _ & ?). lia. Qed.

Lemma moved_error msg s : buffered s -> moved s (set_ierror msg s).
Proof. intros Hs. destruct (moved_refl s Hs) as (n & ?). by exists n. Qed.

Lemma robust_ret {A} (a : A) (P : A -> Prop) : P a -> robust (mret a) P.
Proof. intros Ha s Hs. exists (Some a), s. split_and!; [done|by apply moved_refl|done]. Qed.

Lemma robust_error {A} msg (P : A -> Prop) : robust (rd_error msg) P.
Proof. intros s Hs. exists None, (set_ierror msg s). split_and!; [done|by apply moved_error|done]. Qed.

Lemma robust_false {A} (P : A -> Prop) : robust rd_false P.
Proof. intros s Hs. exists None, s. split_and!; [done|by apply moved_refl|done]. Qed.

Lemma robust_weaken {A} (r : rd S A) (P Q : A -> Prop) : (forall a, P a -> Q a) -> robust r P -> robust r Q.
Proof. intros HPQ Hr s Hs. destruct (Hr s Hs) as (o & s' & ? & ? & ?). exists o, s'. destruct o; cbn in *; auto. Qed.

Lemma robust_bind {A B} (r : rd S A) (k : A -> rd S B) (P : A -> Prop) (Q : B -> Prop) :
  robust r P -> (forall a, P a -> robust (k a) Q) -> robust (r ≫= k) Q.
Proof.
  intros Hr Hk s Hs. unfold mbind, rd_bind. destruct (Hr s Hs) as (o & s1 & -> & Hm & HP). cbn.
  destruct o as [a|]; [|by eauto]. cbn in HP.
  destruct (Hk a HP s1) as (o & s2 & -> & ? & ?); [by eapply moved_buffered|].
  exists o, s2. eauto using moved_trans.
Qed.

Lemma read_direct_buffer count rest left msg :
  0 < count <= left -> left <= zlen rest ->
  read_direct count (PbIStream (SrcBuffer rest) left msg) =
  Done (Some (take (Z.to_nat count) rest), PbIStream (SrcBuffer (drop (Z.to_nat count) rest)) (left - count) msg).
Proof.
  intros. unfold read_direct. cbn. destruct (Z.eqb_spec count 0), (Z.ltb_spec left count),
    (Z.ltb_spec (zlen rest) count); done || lia.
Qed.

Definition chunk (n : Z) (bs : list Z) : Prop := zlen bs = n /\ Forall is_byte bs.

Lemma robust_direct n : 0 <= n -> robust (read_direct n) (chunk n).
Proof.
  intros Hn [[rest|] left msg]; [|by intros []]. intros [? Hb]. cbn in *.
  destruct (Z.eqb_spec n 0) as [->|]; [by eapply (robust_ret []); cbn|].
  destruct (Z.ltb_spec left n).
  - unfold read_direct. cbn. destruct (Z.eqb_spec n 0), (Z.ltb_spec left n); try lia.
    by apply (robust_error _ (chunk n)).
  - rewrite read_direct_buffer by lia. eexists _, _. split; [done|]. split.
    + exists (Z.to_nat n). split; cbn; [done|lia].
    + split; [rewrite length_take; lia|]. by apply Forall_take.
Qed.

Lemma robust_read null n : 0 <= n -> robust (pb_read null n) (chunk n).
Proof.
  intros Hn s Hs. destruct s as [[rest|] left msg]; [|by destruct Hs]. unfold pb_read. cbn.
  rewrite andb_false_r. destruct (Z.eqb_spec n 0) as [->|]; [|by apply robust_direct].
  by eapply (robust_ret []).
Qed.

Lemma robust_byte : robust pb_readbyte is_byte.
Proof.
  intros [[rest|] left msg]; [|by intros []]. intros [? Hb]. cbn in *. unfold pb_readbyte. cbn.
  destruct (Z.eqb_spec left 0); [by apply (robust_error _ is_byte)|].
  destruct rest as [|b rest]; [cbn in *; lia|]. destruct (Z.ltb_spec (zlen (b :: rest)) 1); [cbn in *; lia|].
  cbn. eexists _, _. split; [done|]. split; [|cbn; by inversion Hb].
  exists 1%nat. split; cbn; [done|lia].
Qed.

(** What a byte read consumes, for the loops that run on [bytes_left]. *)
Lemma readbyte_cases s :
  buffered s ->
  (exists s', pb_readbyte s = Done (None, s') /\ moved s s') \/
  (exists b s', pb_readbyte s = Done (Some b, s') /\ is_byte b /\ moved s s' /\ bytes_left s' = bytes_left s - 1).
Proof.
  destruct s as [[rest|] left msg]; [|by intros []]. intros [? Hb]. cbn in *. unfold pb_readbyte. cbn.
  destruct (Z.eqb_spec left 0).
  - left. eexists. split; [done|]. by apply moved_error.
  - right. destruct rest as [|b rest]; [cbn in *; lia|].
    destruct (Z.ltb_spec (zlen (b :: rest)) 1); [cbn in *; lia|]. cbn.
    eexists _, _. split_and!; [done|by apply (Forall_cons_1 _ _ _ Hb)|lia..| |done].
    exists 1%nat. split; cbn; [done|lia].
Qed.

Definition word32 (v : Z) : Prop := 0 <= v < 2 ^ 32.
Definition word64 (v : Z) : Prop := 0 <= v < 2 ^ 64.

Lemma varint32_loop_robust fuel bitpos result s :
  buffered s -> bytes_left s < Z.of_nat fuel -> word32 result ->
  exists o s', varint32_loop fuel bitpos result s = Done (o, s') /\ moved s s' /\ from_option word32 True o.
Proof.
  revert bitpos result s. induction fuel as [|fuel IH]; intros bitpos result s Hs Hf Hr.
  { destruct s as [[rest|] left msg]; [|done]. cbn in *. lia. }
  cbn [varint32_loop]. unfold mbind, rd_bind.
  destruct (readbyte_cases s Hs) as [(s1 & -> & Hm)|(b & s1 & -> & Hb & Hm & Hl)]; cbn [mbind outcome_bind];
    [by exists None, s1|].
  assert (Hs1 : buffered s1) by by eapply moved_buffered.
  assert (Htail : forall A (r : rd S A) P, robust r P ->
    exists o s', r s1 = Done (o, s') /\ moved s s' /\ from_option P True o).
  { intros A r P Hrob. destruct (Hrob s1 Hs1) as (o & s2 & -> & ? & ?). exists o, s2. eauto using moved_trans. }
  destruct (_ && _); [by eapply Htail, robust_error|].
  set (result' := if 32 <=? bitpos then result else _).
  assert (Hr' : word32 result').
  { unfold result', word32. destruct (32 <=? bitpos); [exact Hr|].
    apply (lor_word 32); [lia|exact Hr|apply u32_range]. }
  destruct (negb (Z.land b 128 =? 0)).
  - destruct (IH (u8 (bitpos + 7)) result' s1 Hs1) as (o & s2 & -> & ? & ?); [lia|done|].
    exists o, s2. eauto using moved_trans.
  - case_match; [by eapply Htail, robust_error|]. by eapply Htail, robust_ret.
Qed.

(** The flag is a faithful end-of-message report: it is set only when nothing
    was consumed and nothing is left. *)
Lemma varint32_eof_robust s :
  buffered s ->
  exists o eof s', pb_decode_varint32_eof s = Done (o, eof, s') /\ moved s s' /\ from_option word32 True o /\
    (is_Some o -> eof = false /\ bytes_left s' < bytes_left s).
Proof.
  intros Hs. unfold pb_decode_varint32_eof.
  destruct (readbyte_cases s Hs) as [(s1 & -> & Hm)|(b & s1 & -> & Hb & Hm & Hl)]; cbn [mbind outcome_bind].
  { eexists _, _, _. split_and!; [done..|]. by intros [? ?]. }
  case_match.
  - eexists _, _, _. split_and!; [done|done| |lia]. cbn. unfold is_byte, word32 in *. lia.
  - assert (Hs1 : buffered s1) by by eapply moved_buffered.
    destruct (varint32_loop_robust (Datatypes.S (Z.to_nat (bytes_left s1))) 7 (Z.land b 127) s1)
      as (o & s2 & -> & Hm2 & Ho); [done| | |].
    + destruct s1 as [[rest|] left msg]; [|done]. cbn in *. lia.
    + rewrite land_127. pose proof (Z.mod_pos_bound b 128). unfold word32. lia.
    + cbn [mbind outcome_bind]. eexists _, _, _. split_and!; [done|by eapply moved_trans|done|].
      intros _. apply moved_left in Hm2. split; [done|lia].
Qed.

Lemma robust_varint32 : robust pb_decode_varint32 word32.
Proof.
  intros s Hs. unfold pb_decode_varint32.
  destruct (varint32_eof_robust s Hs) as (o & eof & s' & -> & ? & ? & _). by eexists _, _.
Qed.

Lemma robust_varint_loop fuel bitpos result :
  0 <= bitpos < 64 + 7 -> 70 < bitpos + 7 * Z.of_nat fuel -> word64 result ->
  robust (varint_decode_loop fuel bitpos result) word64.
Proof.
  revert bitpos result. induction fuel as [|fuel IH]; intros bitpos result Hb Hf Hr; [lia|].
  cbn [varint_decode_loop]. destruct (Z.leb_spec 64 bitpos); [apply robust_error|].
  eapply robust_bind; [apply robust_byte|]. intros b Hbyte.
  assert (word64 (Z.lor result (u64 (Z.shiftl (Z.land b 127) bitpos))))
    by (apply (lor_word 64); [lia|done|apply u64_range]).
  case_match; [|by apply robust_ret]. rewrite u8_small by lia. apply IH; [lia..|done].
Qed.

Lemma robust_varint : robust pb_decode_varint word64.
Proof. apply robust_varint_loop; [lia..|]. unfold word64. lia. Qed.

Lemma robust_svarint : robust pb_decode_svarint (fun v => - 2 ^ 63 <= v < 2 ^ 63).
Proof.
  eapply robust_bind; [apply robust_varint|]. intros v Hv. apply robust_ret.
  case_match; apply (signed_range 64); lia.
Qed.

Lemma robust_read1 (k : Z -> rd S unit) s :
  buffered s ->
  (forall b s', moved s s' -> bytes_left s' = bytes_left s - 1 -> exists o s'', k b s' = Done (o, s'') /\ moved s s'') ->
  exists o s', (data ← pb_read false 1; match data with b :: _ => k b | [] => rd_undef end) s = Done (o, s') /\
    moved s s'.
Proof.
  intros Hs Hk. destruct s as [[rest|] left msg]; [|done]. destruct Hs as [? Hb]. cbn in *.
  unfold mbind, rd_bind, pb_read. cbn [Z.eqb andb negb is_buffer source]. 
  destruct (Z.ltb_spec left 1).
  - unfold read_direct. cbn. destruct (Z.ltb_spec left 1); [|lia]. eexists _, _. split; [done|].
    by apply moved_error.
  - rewrite read_direct_buffer by lia. destruct rest as [|b rest]; [cbn in *; lia|].
    change (Z.to_nat 1) with 1%nat. cbn [take drop mbind outcome_bind].
    apply Hk; [|done]. exists 1%nat. split; cbn; [done|lia].
Qed.

Lemma skip_varint_loop_robust fuel s :
  buffered s -> bytes_left s < Z.of_nat fuel ->
  exists o s', skip_varint_loop fuel s = Done (o, s') /\ moved s s'.
Proof.
  revert s. induction fuel as [|fuel IH]; intros s Hs Hf.
  { destruct s as [[rest|] left msg]; [|done]. cbn in *. lia. }
  apply (robust_read1 (fun b => if negb (Z.land b 128 =? 0) then skip_varint_loop fuel else mret tt)); [done|].
  intros b s1 Hm Hl. destruct (negb _); [|by eexists _, _].
  assert (Hs1 : buffered s1) by by eapply moved_buffered.
  destruct (IH s1 Hs1) as (o & s2 & -> & ?); [lia|]. exists o, s2. eauto using moved_trans.
Qed.

Lemma robust_skip_varint : robust pb_skip_varint (fun _ => True).
Proof.
  intros s Hs. destruct (skip_varint_loop_robust (Datatypes.S (Z.to_nat (bytes_left s))) s)
    as (o & s' & E & ?); [done| |].
  - destruct s as [[rest|] left msg]; [|done]. cbn in *. lia.
  - exists o, s'. split_and!; [done|done|by destruct o].
Qed.

Lemma robust_then_unit {A} (r : rd S A) P : robust r P -> robust (_ ← r; mret tt) (fun _ => True).
Proof. intros Hr. eapply robust_bind; [done|]. intros. by apply robust_ret. Qed.

Lemma robust_skip_field wt : robust (pb_skip_field wt) (fun _ => True).
Proof.
  unfold pb_skip_field, pb_skip_string. repeat case_match.
  - apply robust_skip_varint.
  - by eapply robust_then_unit, robust_read.
  - eapply robust_bind; [apply robust_varint32|]. intros n [? _]. by eapply robust_then_unit, robust_read.
  - by eapply robust_then_unit, robust_read.
  - apply robust_error.
Qed.

Lemma robust_fixed32 : robust pb_decode_fixed32 word32.
Proof.
  eapply robust_bind; [by apply robust_read|]. intros bs [Hl Hb].
  destruct bs as [|b0 [|b1 [|b2 [|b3 [|]]]]]; cbn in Hl; try lia. apply robust_ret.
  rewrite !Forall_cons in Hb. unfold is_byte in Hb. destruct Hb as (?&?&?&?&_).
  unfold word32. rewrite Z.shiftl_0_r. rewrite (lor_bytes _ _ 8) by lia. rewrite (lor_bytes _ _ 16) by lia.
  rewrite (lor_bytes _ _ 24) by lia. lia.
Qed.

Lemma robust_fixed64 : robust pb_decode_fixed64 word64.
Proof.
  eapply robust_bind; [by apply robust_read|]. intros bs [Hl Hb].
  destruct bs as [|b0 [|b1 [|b2 [|b3 [|b4 [|b5 [|b6 [|b7 [|]]]]]]]]]; cbn in Hl; try lia. apply robust_ret.
  rewrite !Forall_cons in Hb. unfold is_byte in Hb. destruct Hb as (?&?&?&?&?&?&?&?&_).
  unfold word64. rewrite Z.shiftl_0_r. rewrite (lor_bytes _ _ 8) by lia. rewrite (lor_bytes _ _ 16) by lia.
  rewrite (lor_bytes _ _ 24) by lia. rewrite (lor_bytes _ _ 32) by lia. rewrite (lor_bytes _ _ 40) by lia.
  rewrite (lor_bytes _ _ 48) by lia. rewrite (lor_bytes _ _ 56) by lia. lia.
Qed.

(** A tag, an end of the message, or an error. *)
Lemma decode_tag_robust s :
  buffered s ->
  exists o eof s', pb_decode_tag s = Done (o, eof, s') /\ moved s s' /\
    (forall t wt, o = Some (t, wt) -> 0 <= t < 2 ^ 29 /\ 0 <= wt < 8 /\ bytes_left s' < bytes_left s).
Proof.
  intros Hs. unfold pb_decode_tag.
  destruct (varint32_eof_robust s Hs) as ([v|] & eof & s' & -> & Hm & Hv & Hl); cbn [mbind outcome_bind].
  - case_match; [by eexists _, _, _|]. eexists _, _, _. split_and!; [done|done|]. intros t wt [= <- <-].
    cbn in Hv. unfold word32 in Hv. rewrite Z.shiftr_div_pow2, (land_low_bits _ 3) by lia.
    pose proof (Z.mod_pos_bound v (2 ^ 3) ltac:(lia)). destruct (Hl ltac:(by eexists)) as [_ ?].
    split_and!; try lia; [apply Z.div_pos; lia|apply Z.div_lt_upper_bound; lia].
  - by eexists _, _, _.
Qed.
(** ** Progress: a successful read consumes something *)

Definition eats {A} (r : rd S A) : Prop :=
  forall s a s', buffered s -> r s = Done (Some a, s') -> bytes_left s' < bytes_left s.

Lemma eats_bind {A B} (r : rd S A) (k : A -> rd S B) (P : A -> Prop) (Q : B -> Prop) :
  eats r -> robust r P -> (forall a, P a -> robust (k a) Q) -> eats (r ≫= k).
Proof.
  intros Hr Hp Hk s b s' Hs. unfold mbind, rd_bind.
  destruct (Hp s Hs) as ([a|] & s1 & E & Hm & HP); rewrite E; cbn; [|done].
  destruct (Hk a HP s1) as (o & s2 & -> & Hm2 & _); [by eapply moved_buffered|].
  intros [= -> ->]. apply Hr in E; [|done]. apply moved_left in Hm2. lia.
Qed.

Lemma eats_byte : eats pb_readbyte.
Proof.
  intros s a s' Hs E. destruct (readbyte_cases s Hs) as [(s1 & E1 & _)|(b & s1 & E1 & _ & _ & ?)];
    rewrite E1 in E; simplify_eq. lia.
Qed.

Lemma eats_read n : 0 < n -> eats (pb_read false n).
Proof.
  intros Hn [[rest|] left msg] a s'; [|by intros []]. intros [? _]. cbn in *. unfold pb_read.
  cbn [andb]. destruct (Z.eqb_spec n 0); [lia|]. destruct (Z.ltb_spec left n).
  - unfold read_direct. cbn. destruct (Z.eqb_spec n 0), (Z.ltb_spec left n); done || lia.
  - rewrite read_direct_buffer by lia. intros [= <- <-]. cbn. lia.
Qed.

Lemma eats_varint32 : eats pb_decode_varint32.
Proof.
  intros s a s' Hs. unfold pb_decode_varint32.
  destruct (varint32_eof_robust s Hs) as (o & eof & s1 & -> & _ & _ & Hl). cbn. intros [= -> ->].
  by apply Hl.
Qed.

Lemma eats_varint : eats pb_decode_varint.
Proof.
  unfold pb_decode_varint. cbn [varint_decode_loop]. change (64 <=? 0) with false. cbv iota.
  eapply eats_bind; [apply eats_byte|apply robust_byte|]. intros b Hb. cbn beta.
  assert (word64 (Z.lor 0 (u64 (Z.shiftl (Z.land b 127) 0))))
    by (apply (lor_word 64); [lia|lia|apply u64_range]).
  destruct (negb _); [|by apply robust_ret]. by apply (robust_varint_loop 10 7).
Qed.

Lemma eats_svarint : eats pb_decode_svarint.
Proof.
  eapply eats_bind; [apply eats_varint|apply robust_varint|]. intros v _. by apply (robust_ret _ (fun _ => True)).
Qed.

Lemma eats_fixed32 : eats pb_decode_fixed32.
Proof.
  eapply eats_bind; [by apply eats_read|by apply robust_read|]. intros bs [Hl _].
  destruct bs as [|b0 [|b1 [|b2 [|b3 [|]]]]]; cbn in Hl; try lia. by apply (robust_ret _ (fun _ => True)).
Qed.

Lemma eats_fixed64 : eats pb_decode_fixed64.
Proof.
  eapply eats_bind; [by apply eats_read|by apply robust_read|]. intros bs [Hl _].
  destruct bs as [|b0 [|b1 [|b2 [|b3 [|b4 [|b5 [|b6 [|b7 [|]]]]]]]]]; cbn in Hl; try lia.
  by apply (robust_ret _ (fun _ => True)).
Qed.

(** ** Substreams *)

(** Making one fails, or charges its length to the parent. *)
Lemma make_substream_spec s :
  buffered s ->
  (exists s', pb_make_string_substream s = Done (None, s') /\ moved s s') \/
  (exists rest left size msg,
    pb_make_string_substream s =
      Done (Some (PbIStream (SrcBuffer rest) size msg), PbIStream (SrcBuffer rest) left msg) /\
    0 <= left /\ 0 <= size /\ left + size <= zlen rest /\ Forall is_byte rest /\
    moved s (PbIStream (SrcBuffer rest) (left + size) msg)).
Proof.
  intros Hs. unfold pb_make_string_substream, mbind, rd_bind.
  destruct (robust_varint32 s Hs) as ([size|] & s1 & -> & Hm & Hw); cbn [mbind outcome_bind]; [|by eauto].
  assert (Hs1 : buffered s1) by by eapply moved_buffered. unfold split_stream.
  destruct (Z.ltb_spec (bytes_left s1) size); [left|right].
  { eexists. split; [done|]. by eapply moved_trans, moved_error. }
  destruct s1 as [[rest|] left msg]; [|done]. destruct Hs1 as [? Hb]. cbn in *. destruct Hw as [Hw _].
  exists rest, (left - size), size, msg. split_and!; try done; try lia. by replace (left - size + size) with left by lia.
Qed.

(** Closing a substream that started at the parent's position. *)
Lemma close_substream_spec rest left size msg sub1 :
  0 <= left -> 0 <= size -> left + size <= zlen rest -> Forall is_byte rest ->
  moved (PbIStream (SrcBuffer rest) size msg) sub1 ->
  forall msg', exists s', pb_close_string_substream sub1 (PbIStream (SrcBuffer rest) left msg') = Done (Some tt, s') /\
    moved (PbIStream (SrcBuffer rest) (left + size) msg') s' /\ bytes_left s' = left.
Proof.
  intros Hl Hsz Hlen Hb (n & Hsrc & Hleft) msg'. destruct sub1 as [src left1 msg1]. cbn in *. subst src.
  unfold pb_close_string_substream. cbn.
  destruct (Z.eqb_spec left1 0) as [->|]; cbn.
  - eexists. split; [done|]. split; [|done]. exists n. split; cbn; [done|lia].
  - unfold pb_read. cbn. destruct (Z.eqb_spec left1 0); [lia|].
    rewrite read_direct_buffer; [|lia|rewrite length_drop; lia]. cbn.
    eexists. split; [done|]. split; [|done]. exists (n + Z.to_nat left1)%nat.
    split; cbn [source bytes_left]; [by rewrite drop_drop|lia].
Qed.
End Robust.
