(* ===== verification/PbDecode.v ===== *)
(** * PbDecode: the message decoder (pb_decode.c).

    Code that only works on memory (defaults, releasing) runs in [act], code
    that also reads the stream in [dec].  Both thread the message memory and
    the counter [fixed_count_size] of the enclosing [pb_decode_noinit], which
    [iter->pSize] may point at.  The recursion through submessages is open
    ([dec_msg] is [pb_decode_noinit] for the nested message) and tied on a
    fuel that bounds the nesting depth and the length of extension chains.
    The input buffer is not part of the message memory.  Callback fields and
    custom extension decoders are functions of the library's user
    ([DecCallbacks]). *)

From Stdlib Require Import ZifyBool.
From stdpp Require Import base tactics numbers list gmap strings.
From S2P Require Import Prelude Mem PbTypes PbCommon PbIStream.
Open Scope Z_scope.

(** ** Actions on memory *)

Definition dstate : Type := mem * Z.
Definition act (A : Type) : Type := dstate -> outcome (A * dstate).

#[export] Instance act_ret : MRet act := fun A a st => Done (a, st).
#[export] Instance act_bind : MBind act := fun A B f x st => '(a, st1) ← x st; f a st1.

Definition act_undef {A} : act A := fun _ => Undef.
Definition act_nofuel {A} : act A := fun _ => NoFuel.
Definition act_pure {A} (x : outcome A) : act A := fun st => a ← x; Done (a, st).
Definition act_load {A} (f : mem -> option A) : act A := fun st => a ← demand (f st.1); Done (a, st).
Definition act_store (f : mem -> option mem) : act unit := fun st => m ← demand (f st.1); Done (tt, (m, st.2)).
Definition act_mem {A} (f : mem -> outcome (A * mem)) : act A := fun st =>
  '(a, m) ← f st.1; Done (a, (m, st.2)).

(** [memset(p, 0, n)] *)
Definition zero_mem (p n : Z) : act unit := act_store (fun m => store_bytes m p (replicate (Z.to_nat n) 0)).
(** [free(p)] *)
Definition act_free (p : Z) : act unit := act_mem (fun m => m' ← c_free m p; Done (tt, m')).

(** [*(pb_size_t* )pSize] *)
Definition size_load (r : size_ref) : act Z := fun st =>
  match r with
  | SizeAt a => act_load (fun m => load_uint 4 m a) st
  | SizeFixedCount => Done (st.2, st)
  end.
Definition size_store (r : size_ref) (v : Z) : act unit := fun st =>
  match r with
  | SizeAt a => act_store (fun m => store_uint 4 m a (u32 v)) st
  | SizeFixedCount => Done (tt, (st.1, u32 v))
  end.
(** [( *size)++] *)
Definition size_incr (r : size_ref) : act unit := v ← size_load r; size_store r (v + 1).
(** [*(bool* )pSize = b]: one byte. *)
Definition has_store (r : size_ref) (b : bool) : act unit := fun st =>
  let v := if b then 1 else 0 in
  match r with
  | SizeAt a => act_store (fun m => store_byte m a v) st
  | SizeFixedCount => Done (tt, (st.1, Z.lor (Z.land st.2 0xFFFFFF00) v))
  end.

(** [iter->pSize == iter->pData] *)
Definition size_is_data (it : pb_field_iter) : bool := bool_decide (pSize it = SizeAt (pData it)).

Section Memory.
Context `{PbProgram} `{Allocator}.

(** ** Extensions *)

(** [extension->type] *)
Definition extension_type (ext : Z) : act pb_extension_type :=
  act_load (fun m => ty ← load_ptr m (ext + extension_type_off); extension_types !! ty).

Definition iter_from_extension (ext : Z) : act pb_field_iter :=
  ety ← extension_type ext;
  let field := ext_arg ety in
  dest ← act_load (fun m => load_ptr m (ext + extension_dest_off));
  '(_, it) ← act_pure (pb_field_iter_begin [field] dest);
  let pd := if PB_ATYPE (type field) =? PB_ATYPE_POINTER then ext + extension_dest_off else dest in
  mret (PbFieldIter (start it) (pos it) (required_field_index it) (dest_struct it) pd
          (SizeAt (ext + extension_found_off))).

(** [do { visit(&iter); } while (pb_field_iter_next(&iter));] *)
Fixpoint each_field (n : nat) (visit : pb_field_iter -> act unit) (it : pb_field_iter) : act unit :=
  match n with
  | O => act_nofuel
  | S n =>
    visit it;;
    '(more, it') ← act_pure (pb_field_iter_next it);
    if more : bool then each_field n visit it' else mret tt
  end.

(** [while (ext != NULL) { visit(ext); ext = ext->next; }] *)
Fixpoint each_extension (n : nat) (visit : Z -> act unit) (ext : Z) : act unit :=
  match n with
  | O => act_nofuel
  | S n =>
    if ext =? 0 then mret tt else
    visit ext;;
    next ← act_load (fun m => load_ptr m (ext + extension_next_off));
    each_extension n visit next
  end.

(** ** Defaults *)

(** [pb_message_set_to_defaults], given [pb_field_set_to_default]. *)
Definition message_defaults (set_field : pb_field_iter -> act unit) (fields : list pb_field) (dest : Z) : act unit :=
  '(nonempty, it) ← act_pure (pb_field_iter_begin fields dest);
  if nonempty : bool then each_field (length fields) set_field it else mret tt.

Fixpoint pb_field_set_to_default (fuel : nat) (it : pb_field_iter) : act unit :=
  match fuel with
  | O => act_nofuel
  | S fuel =>
    f ← act_pure (at_pos it);
    let ty := type f in
    if PB_LTYPE ty =? PB_LTYPE_EXTENSION then
      ext ← act_load (fun m => load_ptr m (pData it));
      each_extension fuel (fun ext =>
        act_store (fun m => store_byte m (ext + extension_found_off) 0);;
        ext_iter ← iter_from_extension ext;
        pb_field_set_to_default fuel ext_iter) ext
    else if PB_ATYPE ty =? PB_ATYPE_STATIC then
      init_data ←
        (if (PB_HTYPE ty =? PB_HTYPE_OPTIONAL) && negb (size_is_data it) then
           has_store (pSize it) false;; mret true
         else if (PB_HTYPE ty =? PB_HTYPE_REPEATED) || (PB_HTYPE ty =? PB_HTYPE_ONEOF) then
           size_store (pSize it) 0;; mret false
         else mret true);
      if init_data : bool then
        if PB_LTYPE ty =? PB_LTYPE_SUBMESSAGE then
          fields ← act_pure (demand (submsg_fields f));
          message_defaults (pb_field_set_to_default fuel) fields (pData it)
        else
          match ptr f with
          | PtrDefault bytes =>
            if zlen bytes <? data_size f then act_undef
            else act_store (fun m => store_bytes m (pData it) (take (Z.to_nat (data_size f)) bytes))
          | PtrFields _ => act_undef
          | PtrNull => zero_mem (pData it) (data_size f)
          end
      else mret tt
    else if PB_ATYPE ty =? PB_ATYPE_POINTER then
      act_store (fun m => store_ptr m (pData it) 0);;
      if (PB_HTYPE ty =? PB_HTYPE_REPEATED) || (PB_HTYPE ty =? PB_HTYPE_ONEOF)
      then size_store (pSize it) 0 else mret tt
    else mret tt
  end.

Definition pb_message_set_to_defaults (fuel : nat) : list pb_field -> Z -> act unit :=
  message_defaults (pb_field_set_to_default fuel).

(** ** Releasing *)

(** [pb_release], given [pb_release_single_field]. *)
Definition release_message (release_field : pb_field_iter -> act unit) (fields : list pb_field) (dest : Z) : act unit :=
  if dest =? 0 then mret tt else
  '(nonempty, it) ← act_pure (pb_field_iter_begin fields dest);
  if nonempty : bool then each_field (length fields) release_field it else mret tt.

(** [for (; count > 0; count--) { visit(pItem); pItem += step; }] *)
Fixpoint each_item (count : nat) (visit : Z -> act unit) (step p : Z) : act unit :=
  match count with
  | O => mret tt
  | S count => visit p;; each_item count visit step (p + step)
  end.

(** The number of submessages in the field. *)
Definition release_count (f : pb_field) (it : pb_field_iter) : act Z :=
  let ty := type f in
  if PB_HTYPE ty =? PB_HTYPE_REPEATED then
    count ← (if (PB_ATYPE ty =? PB_ATYPE_STATIC) && size_is_data it then mret (array_size f)
             else size_load (pSize it));
    mret (if (PB_ATYPE ty =? PB_ATYPE_STATIC) && (array_size f <? count) then array_size f else count)
  else mret 1.

(** The allocation of a pointer field itself. *)
Definition release_pointer (f : pb_field) (it : pb_field_iter) : act unit :=
  let ty := type f in
  (if (PB_HTYPE ty =? PB_HTYPE_REPEATED) &&
      ((PB_LTYPE ty =? PB_LTYPE_STRING) || (PB_LTYPE ty =? PB_LTYPE_BYTES)) then
     pItem ← act_load (fun m => load_ptr m (pData it));
     count ← size_load (pSize it);
     each_item (Z.to_nat count) (fun p =>
       q ← act_load (fun m => load_ptr m p);
       act_free q;;
       act_store (fun m => store_ptr m p 0)) sizeof_ptr pItem
   else mret tt);;
  (if PB_HTYPE ty =? PB_HTYPE_REPEATED then size_store (pSize it) 0 else mret tt);;
  p ← act_load (fun m => load_ptr m (pData it));
  act_free p;;
  act_store (fun m => store_ptr m (pData it) 0).

Fixpoint pb_release_single_field (fuel : nat) (it : pb_field_iter) : act unit :=
  match fuel with
  | O => act_nofuel
  | S fuel =>
    f ← act_pure (at_pos it);
    let ty := type f in
    current ← (if PB_HTYPE ty =? PB_HTYPE_ONEOF
               then which ← size_load (pSize it); mret (which =? tag f)
               else mret true);
    if negb current then mret tt else
    (if PB_LTYPE ty =? PB_LTYPE_EXTENSION then
       ext ← act_load (fun m => load_ptr m (pData it));
       each_extension fuel (fun ext =>
         ext_iter ← iter_from_extension ext;
         pb_release_single_field fuel ext_iter) ext
     else if (PB_LTYPE ty =? PB_LTYPE_SUBMESSAGE) && negb (PB_ATYPE ty =? PB_ATYPE_CALLBACK) then
       pItem ← (if PB_ATYPE ty =? PB_ATYPE_POINTER then act_load (fun m => load_ptr m (pData it))
                else mret (pData it));
       count ← release_count f it;
       if negb (pItem =? 0) then
         each_item (Z.to_nat count) (fun p =>
           if p =? 0 then mret tt else
           fields ← act_pure (demand (submsg_fields f));
           release_message (pb_release_single_field fuel) fields p) (data_size f) pItem
       else mret tt
     else mret tt);;
    if PB_ATYPE ty =? PB_ATYPE_POINTER then release_pointer f it else mret tt
  end.

Definition pb_release (fuel : nat) : list pb_field -> Z -> act unit :=
  release_message (pb_release_single_field fuel).
End Memory.

(** ** Decoding routines: [None] is C's [return false] *)

Definition dec (S A : Type) : Type := pb_istream S -> dstate -> outcome (option A * pb_istream S * dstate).

#[export] Instance dec_ret {S} : MRet (dec S) := fun A a s st => Done (Some a, s, st).
#[export] Instance dec_bind {S} : MBind (dec S) := fun A B f x s st =>
  '(r, s1, st1) ← x s st;
  match r with Some a => f a s1 st1 | None => Done (None, s1, st1) end.

Definition dec_undef {S A} : dec S A := fun _ _ => Undef.
Definition dec_nofuel {S A} : dec S A := fun _ _ => NoFuel.
Definition dec_false {S A} : dec S A := fun s st => Done (None, s, st).
Definition dec_error {S A} (msg : string) : dec S A := fun s st => Done (None, set_ierror msg s, st).
Definition dec_read {S A} (r : rd S A) : dec S A := fun s st => '(o, s1) ← r s; Done (o, s1, st).
Definition dec_act {S A} (x : act A) : dec S A := fun s st => '(a, st1) ← x st; Done (Some a, s, st1).
(** [stream->bytes_left] *)
Definition dec_left {S} : dec S Z := fun s st => Done (Some (bytes_left s), s, st).
(** [stream->errmsg = msg] *)
Definition dec_set_errmsg {S} (msg : string) : dec S unit := fun s st =>
  Done (Some tt, PbIStream (source s) (bytes_left s) (Some msg), st).
(** [status = x(...)] *)
Definition dec_status {S A} (x : dec S A) : dec S (option A) := fun s st =>
  '(r, s1, st1) ← x s st; Done (Some r, s1, st1).
(** The same on a local substream, which it also returns. *)
Definition dec_on {S A} (sub : pb_istream S) (x : dec S A) : dec S (option A * pb_istream S) := fun s st =>
  '(r, sub1, st1) ← x sub st; Done (Some (r, sub1), s, st1).
(** [return status] *)
Definition dec_return {S A} (status : option A) : dec S A := fun s st => Done (status, s, st).
(** A frame with a counter of its own. *)
Definition dec_frame {S A} (x : dec S A) : dec S A := fun s st =>
  '(r, s1, st1) ← x s (st.1, 0); Done (r, s1, (st1.1, st.2)).

(** User functions, by the value of the function pointer: a field callback is
    given the field and the address of its [arg], an extension decoder the
    address of the [pb_extension_t], the tag and the wire type. *)
Class DecCallbacks (S : Type) : Type := {
  dec_callback : Z -> pb_field -> Z -> pb_istream S -> mem -> outcome (bool * pb_istream S * mem);
  ext_decode_callback : Z -> Z -> Z -> Z -> pb_istream S -> mem -> outcome (bool * pb_istream S * mem);
}.

Definition dec_user {S} (f : pb_istream S -> mem -> outcome (bool * pb_istream S * mem)) : dec S unit := fun s st =>
  '(ok, s1, m) ← f s st.1; Done (if ok : bool then Some tt else None, s1, (m, st.2)).

Section Decode.
Context {S : Type} `{Source S} `{PbProgram} `{Allocator} `{DecCallbacks S}.

(** [pb_read(stream, buf, count)] into the message memory. *)
Definition read_into (buf count : Z) : dec S unit :=
  data ← dec_read (pb_read (buf =? 0) count);
  if buf =? 0 then mret tt else dec_act (act_store (fun m => store_bytes m buf data)).

Definition allocate_field (pd data_size array_size : Z) : dec S unit :=
  p ← dec_act (act_load (fun m => load_ptr m pd));
  if (data_size =? 0) || (array_size =? 0) then dec_error "invalid size" else
  if ((2 ^ 32 <=? data_size) || (2 ^ 32 <=? array_size)) && ((2 ^ 64 - 1) / array_size <? data_size)
  then dec_error "size too large" else
  q ← dec_act (act_mem (fun m => c_realloc m p (u64 (array_size * data_size))));
  if q =? 0 then dec_error "realloc failed" else
  dec_act (act_store (fun m => store_ptr m pd q)).

(** ** Field decoders *)

Definition pb_decoder : Type := pb_field -> Z -> dec S unit.

Definition pb_dec_bool (field : pb_field) (dest : Z) : dec S unit :=
  value ← dec_read pb_decode_varint32;
  dec_act (act_store (fun m => store_byte m dest (if negb (value =? 0) then 1 else 0))).

(** Store an integer in an object of [n] bytes. *)
Definition store_int (n : nat) (dest v : Z) : dec S unit :=
  dec_act (act_store (fun m => store_uint n m dest (wrap (8 * Z.of_nat n) v))).

(** [clamped = *(intN_t* )dest = (intN_t)value; ... clamped != value] *)
Definition store_clamped (conv : Z -> Z -> Z) (size dest value : Z) : dec S unit :=
  clamped ←
    (if size =? 8 then store_int 8 dest value;; mret (conv 64 value)
     else if size =? 4 then store_int 4 dest value;; mret (conv 32 value)
     else if size =? 2 then store_int 2 dest value;; mret (conv 16 value)
     else if size =? 1 then store_int 1 dest value;; mret (conv 8 value)
     else dec_error "invalid data_size");
  if negb (clamped =? value) then dec_error "integer too large" else mret tt.

Definition pb_dec_varint (field : pb_field) (dest : Z) : dec S unit :=
  value ← dec_read pb_decode_varint;
  let svalue := if data_size field =? 8 then s64 value else s32 value in
  store_clamped signed (data_size field) dest svalue.

Definition pb_dec_uvarint (field : pb_field) (dest : Z) : dec S unit :=
  value ← dec_read pb_decode_varint;
  store_clamped wrap (data_size field) dest value.

Definition pb_dec_svarint (field : pb_field) (dest : Z) : dec S unit :=
  value ← dec_read pb_decode_svarint;
  store_clamped signed (data_size field) dest value.

Definition pb_dec_fixed32 (field : pb_field) (dest : Z) : dec S unit :=
  value ← dec_read pb_decode_fixed32;
  dec_act (act_store (fun m => store_uint 4 m dest value)).

Definition pb_dec_fixed64 (field : pb_field) (dest : Z) : dec S unit :=
  value ← dec_read pb_decode_fixed64;
  dec_act (act_store (fun m => store_uint 8 m dest value)).

(** The destination of a string or bytes field: checked or allocated. *)
Definition string_dest (field : pb_field) (dest size alloc_size : Z) (overflow : string) : dec S Z :=
  if PB_ATYPE (type field) =? PB_ATYPE_POINTER then
    left ← dec_left;
    if left <? size then dec_error "end-of-stream" else
    allocate_field dest alloc_size 1;;
    dec_act (act_load (fun m => load_ptr m dest))
  else if data_size field <? alloc_size then dec_error overflow
  else mret dest.

Definition pb_dec_bytes (field : pb_field) (dest : Z) : dec S unit :=
  size ← dec_read pb_decode_varint32;
  if PB_SIZE_MAX <? size then dec_error "bytes overflow" else
  let alloc_size := PB_BYTES_ARRAY_T_ALLOCSIZE size in
  if alloc_size <? size then dec_error "size too large" else
  bdest ← string_dest field dest size alloc_size "bytes overflow";
  dec_act (act_store (fun m => store_uint 4 m (bdest + bytes_array_size_off) size));;
  read_into (bdest + bytes_array_bytes_off) size.

(** [size + 1] is computed in 32 bits. *)
Definition pb_dec_string (field : pb_field) (dest : Z) : dec S unit :=
  size ← dec_read pb_decode_varint32;
  let alloc_size := u32 (size + 1) in
  if alloc_size <? size then dec_error "size too large" else
  dest ← string_dest field dest size alloc_size "string overflow";
  status ← dec_status (read_into dest size);
  dec_act (act_store (fun m => store_byte m (dest + size) 0));;
  dec_return status.

Definition pb_dec_fixed_length_bytes (field : pb_field) (dest : Z) : dec S unit :=
  size ← dec_read pb_decode_varint32;
  if PB_SIZE_MAX <? size then dec_error "bytes overflow" else
  if size =? 0 then dec_act (zero_mem dest (data_size field)) else
  if negb (size =? data_size field) then dec_error "incorrect fixed length bytes size" else
  read_into dest (data_size field).

Definition pb_decode_bool (dest : Z) : dec S unit := pb_dec_bool PB_LAST_FIELD dest.

Section Submessage.
(** [pb_decode_noinit] of nested messages, and the fuel of the recursive
    memory walks. *)
Variable dec_msg : list pb_field -> Z -> dec S unit.
Variable fuel : nat.

(** [pb_decode], given [pb_decode_noinit]. *)
Definition decode_message (fields : list pb_field) (dest : Z) : dec S unit :=
  dec_act (pb_message_set_to_defaults fuel fields dest);;
  status ← dec_status (dec_msg fields dest);
  match status with
  | Some _ => mret tt
  | None => dec_act (pb_release fuel fields dest);; dec_false
  end.

Definition pb_dec_submessage (field : pb_field) (dest : Z) : dec S unit :=
  sub ← dec_read pb_make_string_substream;
  match ptr field with
  | PtrNull => dec_error "invalid field descriptor"
  | _ =>
    fields ← dec_act (act_pure (demand (submsg_fields field)));
    '(status, sub1) ← dec_on sub
      (if PB_HTYPE (type field) =? PB_HTYPE_REPEATED then decode_message fields dest
       else dec_msg fields dest);
    dec_read (pb_close_string_substream sub1);;
    dec_return status
  end.

(** The table indexed by LTYPE; NULL for the extension pseudo-type. *)
Definition PB_DECODERS : list (option pb_decoder) :=
  [ Some pb_dec_bool; Some pb_dec_varint; Some pb_dec_uvarint; Some pb_dec_svarint;
    Some pb_dec_fixed32; Some pb_dec_fixed64; Some pb_dec_bytes; Some pb_dec_string;
    Some pb_dec_submessage; None; Some pb_dec_fixed_length_bytes ].

Definition call_decoder (func : option pb_decoder) : pb_decoder :=
  match func with Some f => f | None => fun _ _ => dec_undef end.

(** [PB_DECODERS[PB_LTYPE(type)]] *)
Definition field_decoder (f : pb_field) : dec S pb_decoder :=
  func ← dec_act (act_pure (demand (PB_DECODERS !! Z.to_nat (PB_LTYPE (type f)))));
  mret (call_decoder func).

(** ** One field *)

(** Address of entry [n] of an array: the offset is computed in [pb_size_t]. *)
Definition array_item (base : Z) (f : pb_field) (n : Z) : Z := base + u32 (data_size f * n).

Definition is_packed (wire_type : Z) (f : pb_field) : bool :=
  (wire_type =? PB_WT_STRING) && (PB_LTYPE (type f) <=? PB_LTYPE_LAST_PACKABLE).

(** The loop over a packed array in a static field; [false] when an entry
    failed to decode. *)
Fixpoint static_packed_loop (n : nat) (func : pb_decoder) (f : pb_field) (it : pb_field_iter) : dec S bool :=
  match n with
  | O => dec_nofuel
  | Datatypes.S n =>
    left ← dec_left;
    if negb (0 <? left) then mret true else
    size ← dec_act (size_load (pSize it));
    if size <? array_size f then
      status ← dec_status (func f (array_item (pData it) f size));
      match status with
      | None => mret false
      | Some _ => dec_act (size_incr (pSize it));; static_packed_loop n func f it
      end
    else mret true
  end.

Definition decode_static_field (wire_type : Z) (it : pb_field_iter) : dec S unit :=
  f ← dec_act (act_pure (at_pos it));
  func ← field_decoder f;
  let htype := PB_HTYPE (type f) in
  if htype =? PB_HTYPE_REQUIRED then func f (pData it)
  else if htype =? PB_HTYPE_OPTIONAL then
    (if negb (size_is_data it) then dec_act (has_store (pSize it) true) else mret tt);;
    func f (pData it)
  else if htype =? PB_HTYPE_REPEATED then
    if is_packed wire_type f then
      sub ← dec_read pb_make_string_substream;
      '(status, sub1) ← dec_on sub (static_packed_loop (Datatypes.S (Z.to_nat (bytes_left sub))) func f it);
      if negb (bytes_left sub1 =? 0) then dec_error "array overflow" else
      dec_read (pb_close_string_substream sub1);;
      match status with Some true => mret tt | _ => dec_false end
    else
      size ← dec_act (size_load (pSize it));
      dec_act (size_store (pSize it) (size + 1));;
      if array_size f <=? size then dec_error "array overflow" else
      func f (array_item (pData it) f size)
  else if htype =? PB_HTYPE_ONEOF then
    (if PB_LTYPE (type f) =? PB_LTYPE_SUBMESSAGE then
       which ← dec_act (size_load (pSize it));
       if negb (which =? tag f) then
         dec_act (zero_mem (pData it) (data_size f));;
         fields ← dec_act (act_pure (demand (submsg_fields f)));
         dec_act (pb_message_set_to_defaults fuel fields (pData it))
       else mret tt
     else mret tt);;
    dec_act (size_store (pSize it) (tag f));;
    func f (pData it)
  else dec_error "invalid field type".

Definition initialize_pointer_field (pItem : Z) (f : pb_field) : dec S unit :=
  if (PB_LTYPE (type f) =? PB_LTYPE_STRING) || (PB_LTYPE (type f) =? PB_LTYPE_BYTES)
  then dec_act (act_store (fun m => store_ptr m pItem 0))
  else if PB_LTYPE (type f) =? PB_LTYPE_SUBMESSAGE then
    dec_act (zero_mem pItem (data_size f));;
    fields ← dec_act (act_pure (demand (submsg_fields f)));
    dec_act (pb_message_set_to_defaults fuel fields pItem)
  else mret tt.

(** More storage for a packed array: a guess at the remaining entries. *)
Definition grow_array (f : pb_field) (it : pb_field_iter) (left allocated : Z) : dec S Z :=
  if data_size f =? 0 then dec_undef else
  let remain := u64 ((left - 1) / data_size f + 1) in
  let allocated := if remain <? u64 (PB_SIZE_MAX - allocated) then u64 (allocated + remain)
                   else u64 (allocated + 1) in
  allocate_field (pData it) (data_size f) allocated;;
  mret allocated.

(** How the loop over a packed array in a pointer field ended. *)
Inductive packed_end : Type := PackedOk | PackedFailed | PackedTooMany.

Fixpoint pointer_packed_loop (n : nat) (func : pb_decoder) (f : pb_field) (it : pb_field_iter) (allocated : Z)
    : dec S packed_end :=
  match n with
  | O => dec_nofuel
  | Datatypes.S n =>
    left ← dec_left;
    if left =? 0 then mret PackedOk else
    size ← dec_act (size_load (pSize it));
    if size =? PB_SIZE_MAX then mret PackedTooMany else
    grown ← dec_status (if allocated <? size + 1 then grow_array f it left allocated else mret allocated);
    match grown with
    | None => mret PackedFailed
    | Some allocated =>
      base ← dec_act (act_load (fun m => load_ptr m (pData it)));
      size ← dec_act (size_load (pSize it));
      let pItem := array_item base f size in
      if pItem =? 0 then mret PackedFailed else
      initialize_pointer_field pItem f;;
      status ← dec_status (func f pItem);
      match status with
      | None => mret PackedFailed
      | Some _ => dec_act (size_incr (pSize it));; pointer_packed_loop n func f it allocated
      end
    end
  end.

Definition decode_pointer_field (wire_type : Z) (it : pb_field_iter) : dec S unit :=
  f ← dec_act (act_pure (at_pos it));
  func ← field_decoder f;
  let htype := PB_HTYPE (type f) in
  let ltype := PB_LTYPE (type f) in
  if (htype =? PB_HTYPE_REQUIRED) || (htype =? PB_HTYPE_OPTIONAL) || (htype =? PB_HTYPE_ONEOF) then
    (if ltype =? PB_LTYPE_SUBMESSAGE then
       p ← dec_act (act_load (fun m => load_ptr m (pData it)));
       if negb (p =? 0) then dec_act (pb_release_single_field fuel it) else mret tt
     else mret tt);;
    (if htype =? PB_HTYPE_ONEOF then dec_act (size_store (pSize it) (tag f)) else mret tt);;
    if (ltype =? PB_LTYPE_STRING) || (ltype =? PB_LTYPE_BYTES) then func f (pData it)
    else
      allocate_field (pData it) (data_size f) 1;;
      p ← dec_act (act_load (fun m => load_ptr m (pData it)));
      initialize_pointer_field p f;;
      p ← dec_act (act_load (fun m => load_ptr m (pData it)));
      func f p
  else if htype =? PB_HTYPE_REPEATED then
    if is_packed wire_type f then
      allocated ← dec_act (size_load (pSize it));
      sub ← dec_read pb_make_string_substream;
      '(r, sub1) ← dec_on sub (pointer_packed_loop (Datatypes.S (Z.to_nat (bytes_left sub))) func f it allocated);
      (if r is Some PackedTooMany then dec_set_errmsg "too many array entries" else mret tt);;
      dec_read (pb_close_string_substream sub1);;
      match r with Some PackedOk => mret tt | _ => dec_false end
    else
      size ← dec_act (size_load (pSize it));
      if size =? PB_SIZE_MAX then dec_error "too many array entries" else
      allocate_field (pData it) (data_size f) (size + 1);;
      base ← dec_act (act_load (fun m => load_ptr m (pData it)));
      size ← dec_act (size_load (pSize it));
      let pItem := array_item base f size in
      dec_act (size_incr (pSize it));;
      initialize_pointer_field pItem f;;
      func f pItem
  else dec_error "invalid field type".

(** [do { if (!decode(...)) fail; } while (substream.bytes_left);] *)
Fixpoint callback_loop (n : nat) (call : dec S unit) : dec S unit :=
  match n with
  | O => dec_nofuel
  | Datatypes.S n =>
    call;;
    left ← dec_left;
    if negb (left =? 0) then callback_loop n call else mret tt
  end.

Definition decode_callback_field (wire_type : Z) (it : pb_field_iter) : dec S unit :=
  f ← dec_act (act_pure (at_pos it));
  decode ← (if pData it =? 0 then mret 0
            else dec_act (act_load (fun m => load_ptr m (pData it + callback_funcs_off))));
  if decode =? 0 then dec_read (pb_skip_field wire_type) else
  let call := dec_user (dec_callback decode f (pData it + callback_arg_off)) in
  if wire_type =? PB_WT_STRING then
    sub ← dec_read pb_make_string_substream;
    '(status, sub1) ← dec_on sub (callback_loop fuel call);
    match status with
    | None => dec_error "callback failed"
    | Some _ => dec_read (pb_close_string_substream sub1)
    end
  else
    raw ← dec_read (read_raw_value wire_type 10);
    '(status, _) ← dec_on (pb_istream_from_buffer raw (zlen raw)) call;
    dec_return status.

(** Releases the old member of a union; the iterator may have moved. *)
Definition pb_release_union_field (it : pb_field_iter) : dec S pb_field_iter :=
  f ← dec_act (act_pure (at_pos it));
  old_tag ← dec_act (size_load (pSize it));
  let new_tag := tag f in
  if (old_tag =? 0) || (old_tag =? new_tag) then mret it else
  '(found, it1) ← dec_act (act_pure (pb_field_iter_find it old_tag));
  if negb found then dec_error "invalid union tag" else
  dec_act (pb_release_single_field fuel it1);;
  '(found, it2) ← dec_act (act_pure (pb_field_iter_find it1 new_tag));
  if negb found then dec_error "iterator error" else
  f2 ← dec_act (act_pure (at_pos it2));
  (if PB_ATYPE (type f2) =? PB_ATYPE_POINTER then dec_act (act_store (fun m => store_ptr m (pData it2) 0))
   else mret tt);;
  mret it2.

(** The iterator is the caller's. *)
Definition decode_field (wire_type : Z) (it0 : pb_field_iter) : dec S pb_field_iter :=
  f0 ← dec_act (act_pure (at_pos it0));
  it ← (if PB_HTYPE (type f0) =? PB_HTYPE_ONEOF then pb_release_union_field it0 else mret it0);
  f ← dec_act (act_pure (at_pos it));
  let atype := PB_ATYPE (type f) in
  (if atype =? PB_ATYPE_STATIC then decode_static_field wire_type it
   else if atype =? PB_ATYPE_POINTER then decode_pointer_field wire_type it
   else if atype =? PB_ATYPE_CALLBACK then decode_callback_field wire_type it
   else dec_error "invalid field type");;
  mret it.

Definition default_extension_decoder (ext t wire_type : Z) : dec S unit :=
  ety ← dec_act (extension_type ext);
  if negb (tag (ext_arg ety) =? t) then mret tt else
  it ← dec_act (iter_from_extension ext);
  dec_act (act_store (fun m => store_byte m (ext + extension_found_off) 1));;
  decode_field wire_type it;;
  mret tt.

(** [while (extension != NULL && pos == stream->bytes_left)] *)
Fixpoint extension_loop (n : nat) (ext t wire_type pos : Z) : dec S unit :=
  match n with
  | O => dec_nofuel
  | Datatypes.S n =>
    left ← dec_left;
    if (ext =? 0) || negb (pos =? left) then mret tt else
    ety ← dec_act (extension_type ext);
    (if negb (ext_decode ety =? 0) then dec_user (ext_decode_callback (ext_decode ety) ext t wire_type)
     else default_extension_decoder ext t wire_type);;
    next ← dec_act (act_load (fun m => load_ptr m (ext + extension_next_off)));
    extension_loop n next t wire_type pos
  end.

Definition decode_extension (t wire_type : Z) (it : pb_field_iter) : dec S unit :=
  ext ← dec_act (act_load (fun m => load_ptr m (pData it)));
  pos ← dec_left;
  extension_loop fuel ext t wire_type pos.

(** ** All fields *)

(** The locals of [pb_decode_noinit]: the two words of [fields_seen], the
    iterator, [extension_range_start] and [fixed_count_field] (its position
    in the array); [fixed_count_size] is the counter of the frame. *)
Record dlocals : Type := DLocals {
  seen0 : Z;
  seen1 : Z;
  iter : pb_field_iter;
  extension_range_start : Z;
  fixed_count_field : option nat;
}.

Fixpoint find_extension_loop (n : nat) (origin : nat) (it : pb_field_iter) : outcome (bool * pb_field_iter) :=
  match n with
  | O => NoFuel
  | Datatypes.S n =>
    f ← at_pos it;
    if PB_LTYPE (type f) =? PB_LTYPE_EXTENSION then Done (true, it) else
    '(_, it') ← pb_field_iter_next it;
    if Nat.eqb (pos it') origin then Done (false, it') else find_extension_loop n origin it'
  end.

Definition find_extension_field (it : pb_field_iter) : outcome (bool * pb_field_iter) :=
  find_extension_loop (Datatypes.S (length (start it))) (pos it) it.

(** A tag with no field of its own. *)
Definition decode_unknown (t wire_type : Z) (l : dlocals) : dec S dlocals :=
  '(handled, l) ←
    (if extension_range_start l <=? t then
       '(found, it) ← dec_act (act_pure (find_extension_field (iter l)));
       f ← dec_act (act_pure (at_pos it));
       let ext_start := if negb found then 2 ^ 32 - 1 else tag f in
       let l := DLocals (seen0 l) (seen1 l) it ext_start (fixed_count_field l) in
       if ext_start <=? t then
         before ← dec_left;
         decode_extension t wire_type it;;
         after ← dec_left;
         mret (negb (before =? after), l)
       else mret (false, l)
     else mret (false, l));
  if handled : bool then mret l else
  dec_read (pb_skip_field wire_type);;
  mret l.

(** A fixed-count array has no counter in the struct; the frame's counter
    stands in. *)
Definition redirect_size (l : dlocals) (f : pb_field) : dec S dlocals :=
  let it := iter l in
  if (PB_HTYPE (type f) =? PB_HTYPE_REPEATED) && size_is_data it then
    (if bool_decide (fixed_count_field l = Some (pos it)) then mret tt else
     (match fixed_count_field l with
      | None => mret tt
      | Some p =>
        g ← dec_act (act_pure (demand (start it !! p)));
        size ← dec_act (size_load SizeFixedCount);
        if negb (size =? array_size g) then dec_error "wrong size for fixed count field" else mret tt
      end);;
     dec_act (size_store SizeFixedCount 0));;
    mret (DLocals (seen0 l) (seen1 l)
            (PbFieldIter (start it) (pos it) (required_field_index it) (dest_struct it) (pData it) SizeFixedCount)
            (extension_range_start l) (Some (pos it)))
  else mret l.

(** [fields_seen[index >> 5] |= 1 << (index & 31)] *)
Definition mark_seen (l : dlocals) (f : pb_field) : dlocals :=
  let index := required_field_index (iter l) in
  if (PB_HTYPE (type f) =? PB_HTYPE_REQUIRED) && (index <? PB_MAX_REQUIRED_FIELDS) then
    let tmp := u32 (Z.shiftl 1 (Z.land index 31)) in
    if Z.shiftr index 5 =? 0
    then DLocals (Z.lor (seen0 l) tmp) (seen1 l) (iter l) (extension_range_start l) (fixed_count_field l)
    else DLocals (seen0 l) (Z.lor (seen1 l) tmp) (iter l) (extension_range_start l) (fixed_count_field l)
  else l.

(** [pb_decode_tag]: [None] for an end of the message. *)
Definition read_tag : dec S (option (Z * Z)) := fun s st =>
  '(r, eof, s1) ← pb_decode_tag s;
  match r with
  | Some tw => Done (Some (Some tw), s1, st)
  | None => Done (if eof : bool then Some None else None, s1, st)
  end.

(** One round of the main loop; [true] to go on. *)
Definition decode_round (l : dlocals) : dec S (bool * dlocals) :=
  tw ← read_tag;
  match tw with
  | None => mret (false, l)
  | Some (t, wire_type) =>
    '(found, it) ← dec_act (act_pure (pb_field_iter_find (iter l) t));
    let l := DLocals (seen0 l) (seen1 l) it (extension_range_start l) (fixed_count_field l) in
    if negb found then l ← decode_unknown t wire_type l; mret (true, l) else
    f ← dec_act (act_pure (at_pos it));
    l ← redirect_size l f;
    let l := mark_seen l f in
    it ← decode_field wire_type (iter l);
    mret (true, DLocals (seen0 l) (seen1 l) it (extension_range_start l) (fixed_count_field l))
  end.

Fixpoint decode_loop (n : nat) (l : dlocals) : dec S dlocals :=
  match n with
  | O => dec_nofuel
  | Datatypes.S n =>
    left ← dec_left;
    if left =? 0 then mret l else
    '(more, l) ← decode_round l;
    if more : bool then decode_loop n l else mret l
  end.

(** [do { req_field_count = ..; last_type = ..; } while (next(&iter))] *)
Fixpoint seek_end (n : nat) (it : pb_field_iter) : outcome (Z * Z * pb_field_iter) :=
  match n with
  | O => NoFuel
  | Datatypes.S n =>
    f ← at_pos it;
    '(more, it') ← pb_field_iter_next it;
    if more : bool then seek_end n it' else Done (required_field_index it, type f, it')
  end.

(** The number of required fields that are checked. *)
Definition required_count (it : pb_field_iter) : outcome Z :=
  '(req, last_type, it') ← seek_end (length (start it)) it;
  f ← at_pos it';
  let req := if (PB_HTYPE last_type =? PB_HTYPE_REQUIRED) && negb (tag f =? 0) then u32 (req + 1) else req in
  Done (if PB_MAX_REQUIRED_FIELDS <? req then PB_MAX_REQUIRED_FIELDS else req).

(** [fields_seen] against the number of required fields. *)
Definition all_seen (req w0 w1 : Z) : bool :=
  let allbits := 2 ^ 32 - 1 in
  let word i := if i =? 0 then w0 else w1 in
  let whole := Z.shiftr req 5 in
  let rest := Z.land req 31 in
  if 0 <? req then
    forallb (fun i => word (Z.of_nat i) =? allbits) (seq 0 (Z.to_nat whole)) &&
    ((rest =? 0) || (word whole =? Z.shiftr allbits (32 - rest)))
  else true.

Definition check_fixed_count (l : dlocals) : dec S unit :=
  match fixed_count_field l with
  | None => mret tt
  | Some p =>
    g ← dec_act (act_pure (demand (start (iter l) !! p)));
    size ← dec_act (size_load SizeFixedCount);
    if negb (size =? array_size g) then dec_error "wrong size for fixed count field" else mret tt
  end.

Definition check_required (l : dlocals) : dec S unit :=
  req ← dec_act (act_pure (required_count (iter l)));
  if all_seen req (seen0 l) (seen1 l) then mret tt else dec_error "missing required field".

Definition noinit_body (fields : list pb_field) (dest : Z) : dec S unit :=
  '(_, it) ← dec_act (act_pure (pb_field_iter_begin fields dest));
  left ← dec_left;
  l ← decode_loop (Datatypes.S (Z.to_nat left)) (DLocals 0 0 it 0 None);
  check_fixed_count l;;
  check_required l.
End Submessage.

Fixpoint pb_decode_noinit (fuel : nat) (fields : list pb_field) (dest : Z) : dec S unit :=
  match fuel with
  | O => dec_nofuel
  | Datatypes.S fuel => dec_frame (noinit_body (pb_decode_noinit fuel) fuel fields dest)
  end.

Definition pb_decode (fuel : nat) : list pb_field -> Z -> dec S unit :=
  decode_message (pb_decode_noinit fuel) fuel.

Definition pb_decode_delimited_noinit (fuel : nat) (fields : list pb_field) (dest : Z) : dec S unit :=
  sub ← dec_read pb_make_string_substream;
  '(status, sub1) ← dec_on sub (pb_decode_noinit fuel fields dest);
  dec_read (pb_close_string_substream sub1);;
  dec_return status.

Definition pb_decode_delimited (fuel : nat) (fields : list pb_field) (dest : Z) : dec S unit :=
  sub ← dec_read pb_make_string_substream;
  '(status, sub1) ← dec_on sub (pb_decode fuel fields dest);
  dec_read (pb_close_string_substream sub1);;
  dec_return status.

Definition pb_decode_nullterminated (fuel : nat) : list pb_field -> Z -> dec S unit := pb_decode fuel.
End Decode.
