(* ===== verification/PbDecodeSafe.v ===== *)
(** * PbDecodeSafe: the decoder on arbitrary input.

    [static_msg d fields size]: a message type all of whose fields are
    statically allocated, nested at most [d] deep, that fits in a struct of
    [size] bytes; it is [static_layout], the members lie in the struct, and
    [resets_fit], so do the counts that are reset.  The main lemmas say that decoding any byte string into such
    a struct terminates, never leaves the input buffer and never touches
    memory outside the struct, whatever the struct held before. *)

From Stdlib Require Import ZifyBool.
From stdpp Require Import base tactics numbers list gmap strings.
From S2P Require Import Prelude Mem PbTypes PbCommon PbIStream PbDecode.
Open Scope Z_scope.

(** ** Regions *)

(** The [k] bytes at [a] lie in the region of [n] bytes at [lo]. *)
Definition inside (lo n a k : Z) : Prop := lo <= a /\ 0 <= k /\ a + k <= lo + n.

(** Every cell of the region holds a byte. *)
Definition inited (m : mem) (a n : Z) : Prop :=
  forall i, a <= i < a + n -> exists b, mbytes m !! i = Some (Some b) /\ is_byte b.

Lemma inited_load m lo n a k :
  inited m lo n -> inside lo n a (Z.of_nat k) -> exists bs, load_bytes m a k = Some bs /\ Forall is_byte bs.
Proof.
  intros Hm. revert a. induction k as [|k IH]; intros a Ha; [by exists []|]. unfold inside in *.
  destruct (Hm a) as (b & Hb & ?); [lia|]. destruct (IH (a + 1)) as (bs & Hbs & ?); [lia|].
  exists (b :: bs). cbn. unfold load_byte. rewrite Hb. cbn. rewrite Hbs. cbn. auto.
Qed.

Lemma inited_store m lo n a bs :
  inited m lo n -> inside lo n a (zlen bs) -> Forall is_byte bs ->
  exists m', store_bytes m a bs = Some m' /\ only_differ m m' lo n /\ inited m' lo n.
Proof.
  intros Hm Ha Hbs. unfold inside in Ha. destruct (store_bytes_mapped m a bs) as [m' Hm'].
  { intros i Hi. destruct (Hm i) as (b & Hb & _); [lia|]. by eexists. }
  pose proof (store_bytes_spec _ _ _ _ Hm') as ([Hbl Hd] & _ & Hv).
  exists m'. split_and!; [done| |].
  - split; [done|]. intros i Hi. apply Hd. lia.
  - intros i Hi. destruct (decide (a <= i < a + zlen bs)) as [Hin|Hout]; [|by rewrite Hd by done; apply Hm].
    destruct (lookup_lt_is_Some_2 bs (Z.to_nat (i - a))) as [b Hb]; [lia|].
    exists b. split; [|by eapply Forall_lookup_1]. rewrite <- (Hv _ _ Hb). f_equal. lia.
Qed.

Lemma only_differ_trans m1 m2 m3 lo n : only_differ m1 m2 lo n -> only_differ m2 m3 lo n -> only_differ m1 m3 lo n.
Proof. intros [H1 H2] [H3 H4]. split; [congruence|]. intros i Hi. by rewrite H4, H2. Qed.

(** ** Safe actions and decoders *)

Section Safe.
Context {S : Type} `{Source S}.
(** The memory at the start, and the region that may change. *)
Context (m0 : mem) (lo n : Z).

Definition state_ok (st : dstate) : Prop :=
  only_differ m0 st.1 lo n /\ inited st.1 lo n /\ word32 st.2.

Definition asafe {A} (x : act A) (P : A -> Prop) : Prop :=
  forall st, state_ok st -> exists a st', x st = Done (a, st') /\ state_ok st' /\ P a.

Definition dsafe {A} (x : dec S A) (P : A -> Prop) : Prop :=
  forall s st, buffered s -> state_ok st ->
    exists o s' st', x s st = Done (o, s', st') /\ moved s s' /\ state_ok st' /\ from_option P True o.

Lemma asafe_ret {A} (a : A) (P : A -> Prop) : P a -> asafe (mret a) P.
Proof. intros Ha st Hst. by exists a, st. Qed.

Lemma asafe_bind {A B} (x : act A) (k : A -> act B) (P : A -> Prop) (Q : B -> Prop) :
  asafe x P -> (forall a, P a -> asafe (k a) Q) -> asafe (x ≫= k) Q.
Proof.
  intros Hx Hk st Hst. unfold mbind, act_bind. destruct (Hx st Hst) as (a & st1 & -> & ? & ?). cbn.
  by apply Hk.
Qed.

Lemma asafe_pure {A} (x : outcome A) a (P : A -> Prop) : x = Done a -> P a -> asafe (act_pure x) P.
Proof. intros -> Ha st Hst. by exists a, st. Qed.

Lemma asafe_weaken {A} (x : act A) (P Q : A -> Prop) : (forall a, P a -> Q a) -> asafe x P -> asafe x Q.
Proof. intros HPQ Hx st Hst. destruct (Hx st Hst) as (a & st' & ? & ? & ?). exists a, st'. auto. Qed.

Lemma asafe_load_uint k a :
  inside lo n a (Z.of_nat k) -> asafe (act_load (fun m => load_uint k m a)) (fun v => 0 <= v < 256 ^ Z.of_nat k).
Proof.
  intros Ha [m c] (Hd & Hi & Hc). destruct (inited_load _ _ _ _ _ Hi Ha) as (bs & Hbs & Hb).
  unfold act_load, load_uint. cbn in *. rewrite Hbs. cbn. eexists _, _. split; [done|]. split; [done|].
  rewrite <- (load_bytes_length _ _ _ _ Hbs). by apply le_value_range.
Qed.

Lemma asafe_store_bytes a bs :
  inside lo n a (zlen bs) -> Forall is_byte bs -> asafe (act_store (fun m => store_bytes m a bs)) (fun _ => True).
Proof.
  intros Ha Hb [m c] (Hd & Hi & Hc). destruct (inited_store _ _ _ _ _ Hi Ha Hb) as (m' & E & Hd' & Hi').
  unfold act_store. cbn in *. rewrite E. cbn. eexists _, _. split_and!; [done| |done].
  split_and!; [by eapply only_differ_trans|done|done].
Qed.

Lemma asafe_store_uint k a v :
  inside lo n a (Z.of_nat k) -> asafe (act_store (fun m => store_uint k m a v)) (fun _ => True).
Proof. intros Ha. apply asafe_store_bytes; [by rewrite length_le_bytes|apply le_bytes_bytes]. Qed.

Lemma asafe_store_byte a b :
  inside lo n a 1 -> is_byte b -> asafe (act_store (fun m => store_byte m a b)) (fun _ => True).
Proof.
  intros Ha Hb st Hst. destruct (asafe_store_bytes a [b]) with (st := st) as (x & st' & E & ? & ?); auto.
  exists x, st'. split; [|done]. rewrite <- E. unfold act_store. cbn. by destruct (store_byte _ _ _).
Qed.

Lemma asafe_zero a k : inside lo n a k -> asafe (zero_mem a k) (fun _ => True).
Proof.
  intros Ha. apply asafe_store_bytes.
  - unfold inside in *. rewrite length_replicate. lia.
  - apply Forall_replicate. unfold is_byte. lia.
Qed.

(** A count, has or which member that may be accessed as [k] bytes. *)
Definition size_inside (r : size_ref) (k : Z) : Prop :=
  match r with SizeAt a => inside lo n a k | SizeFixedCount => True end.

Lemma asafe_size_load r : size_inside r 4 -> asafe (size_load r) word32.
Proof.
  destruct r as [a|]; intros Hr; [by apply (asafe_load_uint 4)|].
  intros [m c] Hst. exists c, (m, c). split_and!; [done|done|apply Hst].
Qed.

Lemma asafe_size_store r v : size_inside r 4 -> asafe (size_store r v) (fun _ => True).
Proof.
  destruct r as [a|]; intros Hr; [by apply (asafe_store_uint 4)|].
  intros [m c] (? & ? & ?). eexists _, _. split_and!; [done| |done]. split_and!; [done|done|]. apply u32_range.
Qed.

Lemma asafe_size_incr r : size_inside r 4 -> asafe (size_incr r) (fun _ => True).
Proof. intros Hr. eapply asafe_bind; [by apply asafe_size_load|]. intros v _. by apply asafe_size_store. Qed.

Lemma asafe_has_store a b : inside lo n a 1 -> asafe (has_store (SizeAt a) b) (fun _ => True).
Proof. intros Ha. apply asafe_store_byte; [done|]. unfold is_byte. destruct b; lia. Qed.

Lemma dsafe_ret {A} (a : A) (P : A -> Prop) : P a -> dsafe (mret a) P.
Proof. intros Ha s st Hs Hst. exists (Some a), s, st. split_and!; [done|by apply moved_refl|done|done]. Qed.

Lemma dsafe_error {A} msg (P : A -> Prop) : dsafe (dec_error msg) P.
Proof. intros s st Hs Hst. eexists None, _, st. split_and!; [done|by apply moved_error|done|done]. Qed.

Lemma dsafe_false {A} (P : A -> Prop) : dsafe dec_false P.
Proof. intros s st Hs Hst. exists None, s, st. split_and!; [done|by apply moved_refl|done|done]. Qed.

Lemma dsafe_return {A} (o : option A) (P : A -> Prop) : from_option P True o -> dsafe (dec_return o) P.
Proof. intros Ho s st Hs Hst. exists o, s, st. split_and!; [done|by apply moved_refl|done|done]. Qed.

Lemma dsafe_bind {A B} (x : dec S A) (k : A -> dec S B) (P : A -> Prop) (Q : B -> Prop) :
  dsafe x P -> (forall a, P a -> dsafe (k a) Q) -> dsafe (x ≫= k) Q.
Proof.
  intros Hx Hk s st Hs Hst. unfold mbind, dec_bind.
  destruct (Hx s st Hs Hst) as (o & s1 & st1 & -> & Hm & Hst1 & HP). cbn.
  destruct o as [a|]; [|by exists None, s1, st1].
  destruct (Hk a HP s1 st1) as (o & s2 & st2 & -> & ? & ? & ?); [by eapply moved_buffered|done|].
  exists o, s2, st2. split_and!; [done|by eapply moved_trans|done|done].
Qed.

Lemma dsafe_weaken {A} (x : dec S A) (P Q : A -> Prop) : (forall a, P a -> Q a) -> dsafe x P -> dsafe x Q.
Proof.
  intros HPQ Hx s st Hs Hst. destruct (Hx s st Hs Hst) as (o & s' & st' & ? & ? & ? & ?).
  exists o, s', st'. split_and!; try done. destruct o; cbn in *; auto.
Qed.

Lemma dsafe_read {A} (r : rd S A) (P : A -> Prop) : robust r P -> dsafe (dec_read r) P.
Proof.
  intros Hr s st Hs Hst. destruct (Hr s Hs) as (o & s' & E & ? & ?). exists o, s', st.
  unfold dec_read. by rewrite E.
Qed.

Lemma dsafe_act {A} (x : act A) (P : A -> Prop) : asafe x P -> dsafe (dec_act x) P.
Proof.
  intros Hx s st Hs Hst. destruct (Hx st Hst) as (a & st' & E & ? & ?). exists (Some a), s, st'.
  unfold dec_act. rewrite E. split_and!; [done|by apply moved_refl|done|done].
Qed.

Lemma dsafe_left : dsafe dec_left (fun v => 0 <= v).
Proof.
  intros s st Hs Hst. exists (Some (bytes_left s)), s, st. split_and!; [done|by apply moved_refl|done|].
  destruct s as [[rest|] left msg]; [|done]. cbn in *. lia.
Qed.

Lemma dsafe_status {A} (x : dec S A) (P : A -> Prop) : dsafe x P -> dsafe (dec_status x) (from_option P True).
Proof.
  intros Hx s st Hs Hst. destruct (Hx s st Hs Hst) as (o & s' & st' & E & ? & ? & ?).
  exists (Some o), s', st'. unfold dec_status. by rewrite E.
Qed.

Lemma dsafe_frame {A} (x : dec S A) (P : A -> Prop) : dsafe x P -> dsafe (dec_frame x) P.
Proof.
  intros Hx s [m c] Hs (? & ? & ?). destruct (Hx s (m, 0) Hs) as (o & s' & [m' c'] & E & ? & (? & ? & ?) & ?).
  { split_and!; [done|done|]. unfold word32. cbn. lia. }
  exists o, s', (m', c). unfold dec_frame. cbn. rewrite E. by split_and!.
Qed.
End Safe.

Arguments dsafe_bind {S m0 lo n A B x k} P {Q} _ _.
Arguments asafe_bind {m0 lo n A B x k} P {Q} _ _.

(** ** Substreams and field decoders *)

Section Decoders.
Context {S : Type} `{Source S} `{PbProgram} `{Allocator} `{DecCallbacks S}.
Context (m0 : mem) (lo n : Z).
Abbreviation asafe := (asafe m0 lo n).
Abbreviation dsafe := (dsafe (S := S) m0 lo n).
Abbreviation state_ok := (state_ok m0 lo n).
Abbreviation inside := (inside lo n).

(** [x] run on a particular stream. *)
Definition runs_safe {A} (x : dec S A) (P : A -> Prop) (s : pb_istream S) : Prop :=
  forall st, state_ok st ->
    exists o s' st', x s st = Done (o, s', st') /\ moved s s' /\ state_ok st' /\ from_option P True o.

(** What follows a run on the substream: closing it, or giving up. *)
Inductive after_sub {B} (Q : B -> Prop) (sub1 : pb_istream S) : dec S B -> Prop :=
| AfterClose (y : dec S B) : dsafe y Q -> after_sub Q sub1 (dec_read (pb_close_string_substream sub1);; y)
| AfterError (y : dec S B) : dsafe y Q -> after_sub Q sub1 y.

Lemma moved_charged rest left size msg s' :
  0 <= size -> moved (PbIStream (S := S) (SrcBuffer rest) left msg) s' ->
  moved (PbIStream (SrcBuffer rest) (left + size) msg) s'.
Proof. intros Hsz (k & Hs & Hl). exists k. cbn in Hs, Hl. split; cbn; [done|lia]. Qed.

Lemma dsafe_sub {A B} (x : pb_istream S -> dec S A) (k : option A -> pb_istream S -> dec S B) (P : A -> Prop)
    (Q : B -> Prop) :
  (forall sub, buffered sub -> runs_safe (x sub) P sub) ->
  (forall status sub1, from_option P True status -> after_sub Q sub1 (k status sub1)) ->
  dsafe (sub ← dec_read pb_make_string_substream; '(status, sub1) ← dec_on sub (x sub); k status sub1) Q.
Proof.
  intros Hx Hk s st Hs Hst. unfold mbind, dec_bind, dec_read, dec_on.
  destruct (make_substream_spec s Hs) as [(s1 & -> & Hm)|(rest & left & size & msg & -> & Hl & Hsz & Hlen & Hb & Hm)];
    cbn [mbind outcome_bind].
  { by exists None, s1, st. }
  destruct (Hx (PbIStream (SrcBuffer rest) size msg)) with (st := st) as (o & sub1 & st1 & -> & Hm1 & Hst1 & Ho);
    [split; cbn; [lia|done]|done|]. cbn [mbind outcome_bind].
  destruct (Hk o sub1 Ho) as [y Hy|y Hy].
  - destruct (close_substream_spec rest left size msg sub1) with (msg' := msg) as (s2 & E2 & Hm2 & _); [done..|].
    unfold mbind, dec_bind, dec_read. rewrite E2. cbn [mbind outcome_bind].
    assert (Hm' : moved s s2) by by eapply moved_trans.
    destruct (Hy s2 st1) as (o2 & s3 & st3 & E3 & ? & ? & ?); [by eapply moved_buffered|done|].
    exists o2, s3, st3. split_and!; [done|by eapply moved_trans|done|done].
  - destruct (Hy (PbIStream (SrcBuffer rest) left msg) st1) as (o2 & s3 & st3 & E3 & Hm3 & ? & ?);
      [split; cbn; [lia|done]|done|].
    exists o2, s3, st3. split_and!; [done|by eapply moved_trans, moved_charged|done|done].
Qed.

Lemma dsafe_runs {A} (x : dec S A) (P : A -> Prop) s : dsafe x P -> buffered s -> runs_safe x P s.
Proof. intros Hx Hs st Hst. by apply Hx. Qed.

Lemma dsafe_read_into a k : 0 <= k -> 0 < a -> inside a k -> dsafe (read_into a k) (fun _ => True).
Proof.
  intros Hk Ha Hin. unfold read_into. destruct (Z.eqb_spec a 0); [lia|].
  eapply dsafe_bind; [by apply dsafe_read, robust_read|]. intros bs [Hl Hb].
  apply dsafe_act, asafe_store_bytes; [by rewrite Hl|done].
Qed.

(** A success consumes input. *)
Definition deats {A} (x : dec S A) : Prop :=
  forall s st a s' st', buffered s -> state_ok st -> x s st = Done (Some a, s', st') ->
    bytes_left s' < bytes_left s.

Lemma deats_read {A B} (r : rd S A) (k : A -> dec S B) (P : A -> Prop) (Q : B -> Prop) :
  eats r -> robust r P -> (forall a, P a -> dsafe (k a) Q) -> deats (dec_read r ≫= k).
Proof.
  intros Hr Hp Hk s st b s' st' Hs Hst. unfold mbind, dec_bind, dec_read.
  destruct (Hp s Hs) as ([a|] & s1 & E & Hm & HP); rewrite E; cbn; [|done].
  destruct (Hk a HP s1 st) as (o & s2 & st2 & -> & Hm2 & _); [by eapply moved_buffered|done|].
  intros [= -> -> _]. apply Hr in E; [|done]. apply moved_left in Hm2. lia.
Qed.

(** ** Fields that fit *)

(** The bytes a value decoder writes whatever [data_size] says. *)
Definition min_width (ltype : Z) : Z :=
  if ltype =? PB_LTYPE_BOOL then 1
  else if ltype =? PB_LTYPE_FIXED32 then 4
  else if ltype =? PB_LTYPE_FIXED64 then 8
  else 0.

(** Room for one value of the field. *)
Definition value_width (f : pb_field) : Z := Z.max (data_size f) (min_width (PB_LTYPE (type f))).
(** Room for the whole field. *)
Definition extent (f : pb_field) : Z :=
  if PB_HTYPE (type f) =? PB_HTYPE_REPEATED then data_size f * array_size f else value_width f.

(** The field's [ptr]: a submessage type that fits, or a default value. *)
Definition ptr_fits (sub_ok : list pb_field -> Z -> Prop) (f : pb_field) : Prop :=
  if PB_LTYPE (type f) =? PB_LTYPE_SUBMESSAGE
  then exists sub, submsg_fields f = Some sub /\ sub_ok sub (data_size f)
  else match ptr f with
       | PtrNull => True
       | PtrDefault bs => data_size f <= zlen bs /\ Forall is_byte bs
       | PtrFields _ => False
       end.

Section Field.
Context (sub_ok : list pb_field -> Z -> Prop).
Context (dec_msg : list pb_field -> Z -> dec S unit) (fuel : nat).
Hypothesis Hlo : 0 < lo.
Hypothesis sub_dec_safe : forall fields dest size,
  sub_ok fields size -> inside dest size -> dsafe (dec_msg fields dest) (fun _ => True).
Hypothesis sub_defaults_safe : forall fields dest size,
  sub_ok fields size -> inside dest size -> asafe (pb_message_set_to_defaults fuel fields dest) (fun _ => True).
Hypothesis sub_release_safe : forall fields dest size,
  sub_ok fields size -> inside dest size -> asafe (pb_release fuel fields dest) (fun _ => True).

Definition value_fits (f : pb_field) (a : Z) : Prop :=
  PB_ATYPE (type f) = PB_ATYPE_STATIC /\ PB_LTYPE (type f) <> PB_LTYPE_EXTENSION /\
  PB_LTYPE (type f) < PB_LTYPES_COUNT /\ 0 <= data_size f <= PB_SIZE_MAX /\
  inside a (value_width f) /\ ptr_fits sub_ok f.

Lemma inside_sub a k k' : inside a k -> 0 <= k' <= k -> inside a k'.
Proof. unfold inside. lia. Qed.

Lemma dsafe_store_clamped conv f a v :
  value_fits f a -> dsafe (store_clamped conv (data_size f) a v) (fun _ => True).
Proof.
  intros (_ & _ & _ & Hsz & Hin & _). unfold store_clamped, store_int.
  assert (Hst : forall k c, data_size f = Z.of_nat k -> dsafe (dec_act (act_store (fun m => store_uint k m a c)))
    (fun _ => True)).
  { intros k c E. apply dsafe_act, asafe_store_uint. eapply inside_sub; [done|]. unfold value_width. lia. }
  apply (dsafe_bind (fun _ => True)); [|intros c _; case_match; [apply dsafe_error|by apply dsafe_ret]].
  repeat case_match; try apply dsafe_error;
    (apply (dsafe_bind (fun _ => True)); [apply Hst; lia|intros _ _; by apply dsafe_ret]).
Qed.

Lemma dsafe_decode_message fields dest size :
  sub_ok fields size -> inside dest size -> dsafe (decode_message dec_msg fuel fields dest) (fun _ => True).
Proof.
  intros Hok Hin. apply (dsafe_bind (fun _ => True)); [by eapply dsafe_act, sub_defaults_safe|]. intros _ _.
  eapply dsafe_bind; [by eapply dsafe_status, sub_dec_safe|]. intros [[]|] _; [by apply dsafe_ret|].
  eapply dsafe_bind; [by eapply dsafe_act, sub_release_safe|]. intros _ _. apply dsafe_false.
Qed.

Lemma dsafe_dec_submessage f a :
  value_fits f a -> PB_LTYPE (type f) = PB_LTYPE_SUBMESSAGE ->
  dsafe (pb_dec_submessage dec_msg fuel f a) (fun _ => True).
Proof.
  intros (_ & _ & _ & Hsz & Hin & Hptr) Hty. unfold ptr_fits in Hptr. rewrite Hty in Hptr. cbn in Hptr.
  destruct Hptr as (sub & Hsub & Hok).
  assert (Hin' : inside a (data_size f)) by (eapply inside_sub; [done|]; unfold value_width; lia).
  set (body := if PB_HTYPE (type f) =? PB_HTYPE_REPEATED then decode_message dec_msg fuel sub a else dec_msg sub a).
  assert (Hd : dsafe (sub ← dec_read pb_make_string_substream; '(status, sub1) ← dec_on sub body;
    dec_read (pb_close_string_substream sub1);; dec_return status) (fun _ => True)).
  2:{ intros s st Hs Hst. destruct (Hd s st Hs Hst) as (o & s' & st' & E & Hrest). exists o, s', st'.
      split; [|done]. rewrite <- E. clear E. unfold pb_dec_submessage, submsg_fields in *.
      destruct (ptr f); [done| |done]. unfold mbind, dec_bind, dec_read.
      destruct (pb_make_string_substream s) as [[[sub0|] s0]| |]; cbn [mbind outcome_bind]; [|done..].
      unfold dec_act, act_pure. rewrite Hsub. done. }
  apply (dsafe_sub (fun _ => body) _ (fun _ => True)); unfold body.
  - intros s Hs. apply dsafe_runs; [|done]. case_match; [by eapply dsafe_decode_message|by eapply sub_dec_safe].
  - intros status sub1 _. apply AfterClose. apply dsafe_return. by destruct status.
Qed.

Lemma dsafe_string_dest f a size alloc msg :
  PB_ATYPE (type f) = PB_ATYPE_STATIC ->
  dsafe (string_dest f a size alloc msg) (fun p => p = a /\ alloc <= data_size f).
Proof.
  intros Hty. unfold string_dest. rewrite Hty. cbn. case_match; [apply dsafe_error|].
  apply dsafe_ret. lia.
Qed.

Lemma dsafe_dec_bytes f a : value_fits f a -> dsafe (pb_dec_bytes f a) (fun _ => True).
Proof.
  intros (Hty & _ & _ & Hsz & Hin & _). unfold pb_dec_bytes.
  eapply dsafe_bind; [by apply dsafe_read, robust_varint32|]. intros size [Hs0 Hs].
  case_match; [apply dsafe_error|]. case_match; [apply dsafe_error|].
  unfold PB_BYTES_ARRAY_T_ALLOCSIZE, bytes_array_bytes_off, bytes_array_size_off in *.
  rewrite u64_small in * by lia.
  eapply dsafe_bind; [by apply dsafe_string_dest|]. intros ? [-> Hle].
  assert (Hin' : inside a (data_size f)) by (eapply inside_sub; [done|]; unfold value_width; lia).
  unfold inside in Hin'. apply (dsafe_bind (fun _ => True)).
  - apply dsafe_act, (asafe_store_uint _ _ _ 4). unfold inside. lia.
  - intros _ _. apply dsafe_read_into; [lia|lia|]. unfold inside. lia.
Qed.

Lemma dsafe_dec_string f a : value_fits f a -> dsafe (pb_dec_string f a) (fun _ => True).
Proof.
  intros (Hty & _ & _ & Hsz & Hin & _). unfold pb_dec_string.
  eapply dsafe_bind; [by apply dsafe_read, robust_varint32|]. intros size [Hs0 Hs].
  case_match eqn:Ewrap; [apply dsafe_error|].
  assert (size + 1 < 2 ^ 32).
  { destruct (decide (size = 2 ^ 32 - 1)) as [->|]; [|lia]. by vm_compute in Ewrap. }
  rewrite u32_small by lia.
  eapply dsafe_bind; [by apply dsafe_string_dest|]. intros ? [-> Hle].
  assert (Hin' : inside a (data_size f)) by (eapply inside_sub; [done|]; unfold value_width; lia).
  unfold inside in Hin'.
  eapply dsafe_bind; [apply dsafe_status, dsafe_read_into; [lia|lia|unfold inside; lia]|]. intros status _.
  apply (dsafe_bind (fun _ => True)).
  - apply dsafe_act, asafe_store_byte; [unfold inside; lia|unfold is_byte; lia].
  - intros _ _. apply dsafe_return. by destruct status.
Qed.

Lemma dsafe_dec_fixed_length f a : value_fits f a -> dsafe (pb_dec_fixed_length_bytes f a) (fun _ => True).
Proof.
  intros (Hty & _ & _ & Hsz & Hin & _). unfold pb_dec_fixed_length_bytes.
  assert (Hin' : inside a (data_size f)) by (eapply inside_sub; [done|]; unfold value_width; lia).
  eapply dsafe_bind; [by apply dsafe_read, robust_varint32|]. intros size _.
  case_match; [apply dsafe_error|]. case_match; [by apply dsafe_act, asafe_zero|].
  case_match; [apply dsafe_error|]. apply dsafe_read_into; [lia|unfold inside in *; lia|done].
Qed.

(** The decoders of packable types: what they store fits, and they consume. *)
Lemma dec_read_store {A} (r : rd S A) (P : A -> Prop) (k : A -> dec S unit) :
  robust r P -> eats r -> (forall a, P a -> dsafe (k a) (fun _ => True)) ->
  dsafe (dec_read r ≫= k) (fun _ => True) /\ deats (dec_read r ≫= k).
Proof.
  intros Hr He Hk. split; [eapply dsafe_bind; [by apply dsafe_read|done]|by eapply deats_read].
Qed.

Lemma dsafe_dec_bool f a : value_fits f a -> PB_LTYPE (type f) = PB_LTYPE_BOOL ->
  dsafe (pb_dec_bool f a) (fun _ => True) /\ deats (pb_dec_bool f a).
Proof.
  intros (_ & _ & _ & Hsz & Hin & _) Hty. unfold value_width in Hin. rewrite Hty in Hin. cbn in Hin.
  eapply dec_read_store; [apply robust_varint32|apply eats_varint32|]. intros v _.
  apply dsafe_act, asafe_store_byte; [unfold inside in *; lia|unfold is_byte; case_match; lia].
Qed.

Lemma dsafe_dec_fixed32 f a : value_fits f a -> PB_LTYPE (type f) = PB_LTYPE_FIXED32 ->
  dsafe (pb_dec_fixed32 f a) (fun _ => True) /\ deats (pb_dec_fixed32 f a).
Proof.
  intros (_ & _ & _ & Hsz & Hin & _) Hty. unfold value_width in Hin. rewrite Hty in Hin. cbn in Hin.
  eapply dec_read_store; [apply robust_fixed32|apply eats_fixed32|]. intros v _.
  apply dsafe_act, (asafe_store_uint _ _ _ 4). unfold inside in *; lia.
Qed.

Lemma dsafe_dec_fixed64 f a : value_fits f a -> PB_LTYPE (type f) = PB_LTYPE_FIXED64 ->
  dsafe (pb_dec_fixed64 f a) (fun _ => True) /\ deats (pb_dec_fixed64 f a).
Proof.
  intros (_ & _ & _ & Hsz & Hin & _) Hty. unfold value_width in Hin. rewrite Hty in Hin. cbn in Hin.
  eapply dec_read_store; [apply robust_fixed64|apply eats_fixed64|]. intros v _.
  apply dsafe_act, (asafe_store_uint _ _ _ 8). unfold inside in *; lia.
Qed.

Lemma dsafe_dec_ints f a : value_fits f a ->
  (dsafe (pb_dec_varint f a) (fun _ => True) /\ deats (pb_dec_varint f a)) /\
  (dsafe (pb_dec_uvarint f a) (fun _ => True) /\ deats (pb_dec_uvarint f a)) /\
  (dsafe (pb_dec_svarint f a) (fun _ => True) /\ deats (pb_dec_svarint f a)).
Proof.
  intros Hf. split; [|split].
  - eapply dec_read_store; [apply robust_varint|apply eats_varint|]. intros v _. by apply dsafe_store_clamped.
  - eapply dec_read_store; [apply robust_varint|apply eats_varint|]. intros v _. by apply dsafe_store_clamped.
  - eapply dec_read_store; [apply robust_svarint|apply eats_svarint|]. intros v _. by apply dsafe_store_clamped.
Qed.

(** What the table gives for a field that fits. *)
Definition good_decoder (f : pb_field) (func : pb_decoder) : Prop :=
  forall a, value_fits f a ->
    dsafe (func f a) (fun _ => True) /\ (PB_LTYPE (type f) <= PB_LTYPE_LAST_PACKABLE -> deats (func f a)).

Lemma ltype_nonneg x : 0 <= PB_LTYPE x.
Proof. apply Z.land_nonneg. right. unfold PB_LTYPE_MASK. lia. Qed.

Lemma good_field_decoder f :
  PB_LTYPE (type f) < PB_LTYPES_COUNT -> PB_LTYPE (type f) <> PB_LTYPE_EXTENSION ->
  dsafe (field_decoder dec_msg fuel f) (good_decoder f).
Proof.
  intros Hlt Hne. unfold field_decoder. pose proof (ltype_nonneg (type f)).
  unfold PB_LTYPES_COUNT, PB_LTYPE_EXTENSION in *.
  assert (exists i : nat, (i < 11)%nat /\ i <> 9%nat /\ PB_LTYPE (type f) = Z.of_nat i) as (i & Hi & Hi9 & E).
  { exists (Z.to_nat (PB_LTYPE (type f))). lia. }
  rewrite E, Nat2Z.id. unfold good_decoder, PB_LTYPE_LAST_PACKABLE.
  destruct i as [|[|[|[|[|[|[|[|[|[|[|i]]]]]]]]]]]; try lia;
    apply (dsafe_ret _ _ _ _ (good_decoder f)); intros a Ha; rewrite E.
  - destruct (dsafe_dec_bool f a Ha E) as [Hs He]. split; [exact Hs|intros _; exact He].
  - destruct (proj1 (dsafe_dec_ints f a Ha)) as [Hs He]. split; [exact Hs|intros _; exact He].
  - destruct (proj1 (proj2 (dsafe_dec_ints f a Ha))) as [Hs He]. split; [exact Hs|intros _; exact He].
  - destruct (proj2 (proj2 (dsafe_dec_ints f a Ha))) as [Hs He]. split; [exact Hs|intros _; exact He].
  - destruct (dsafe_dec_fixed32 f a Ha E) as [Hs He]. split; [exact Hs|intros _; exact He].
  - destruct (dsafe_dec_fixed64 f a Ha E) as [Hs He]. split; [exact Hs|intros _; exact He].
  - split; [exact (dsafe_dec_bytes f a Ha)|intros Hp; by destruct Hp].
  - split; [exact (dsafe_dec_string f a Ha)|intros Hp; by destruct Hp].
  - split; [exact (dsafe_dec_submessage f a Ha E)|intros Hp; by destruct Hp].
  - split; [exact (dsafe_dec_fixed_length f a Ha)|intros Hp; by destruct Hp].
Qed.

(** ** One static field *)

(** The count, has or which member of a field with data at [pd]. *)
Definition size_fits (f : pb_field) (pd : Z) (pz : size_ref) : Prop :=
  match pz with
  | SizeFixedCount => PB_HTYPE (type f) = PB_HTYPE_REPEATED
  | SizeAt ps =>
    (PB_HTYPE (type f) = PB_HTYPE_OPTIONAL -> ps = pd \/ inside ps 1) /\
    (PB_HTYPE (type f) = PB_HTYPE_REPEATED \/ PB_HTYPE (type f) = PB_HTYPE_ONEOF -> inside ps 4)
  end.

Definition field_fits (f : pb_field) (pd : Z) (pz : size_ref) : Prop :=
  PB_ATYPE (type f) = PB_ATYPE_STATIC /\ PB_LTYPE (type f) <> PB_LTYPE_EXTENSION /\
  PB_LTYPE (type f) < PB_LTYPES_COUNT /\ 0 <= data_size f <= PB_SIZE_MAX /\ 0 <= array_size f /\
  inside pd (extent f) /\
  (PB_HTYPE (type f) = PB_HTYPE_REPEATED ->
     min_width (PB_LTYPE (type f)) <= data_size f /\ data_size f * array_size f <= PB_SIZE_MAX) /\
  size_fits f pd pz /\ ptr_fits sub_ok f.

Lemma field_value_fits f pd pz :
  field_fits f pd pz -> PB_HTYPE (type f) <> PB_HTYPE_REPEATED -> value_fits f pd.
Proof.
  intros (? & ? & ? & ? & ? & Hin & _ & _ & ?) Hne. unfold extent in Hin.
  destruct (Z.eqb_spec (PB_HTYPE (type f)) PB_HTYPE_REPEATED); [done|].
  unfold value_fits. tauto.
Qed.

Lemma field_item_fits f pd pz k :
  field_fits f pd pz -> PB_HTYPE (type f) = PB_HTYPE_REPEATED -> 0 <= k < array_size f ->
  value_fits f (array_item pd f k).
Proof.
  intros (? & ? & ? & ? & ? & Hin & Hrep & _ & ?) Heq Hk. destruct (Hrep Heq) as [Hw Hsz].
  unfold extent in Hin. rewrite Heq in Hin. cbn in Hin. unfold PB_SIZE_MAX, value_fits, array_item, value_width in *.
  assert (data_size f * (k + 1) <= data_size f * array_size f) by (apply Z.mul_le_mono_nonneg_l; lia).
  assert (0 <= data_size f * k) by (apply Z.mul_nonneg_nonneg; lia).
  rewrite u32_small by lia. unfold inside, PB_SIZE_MAX in *. split_and!; done || lia.
Qed.

Lemma field_size_fits f pd pz :
  field_fits f pd pz -> PB_HTYPE (type f) = PB_HTYPE_REPEATED \/ PB_HTYPE (type f) = PB_HTYPE_ONEOF ->
  size_inside lo n pz 4.
Proof. intros (_ & _ & _ & _ & _ & _ & _ & Hsz & _) Hor. destruct pz as [ps|]; [|done]. by apply Hsz. Qed.

Lemma asafe_sub_defaults f a :
  value_fits f a -> PB_LTYPE (type f) = PB_LTYPE_SUBMESSAGE ->
  dsafe (fields ← dec_act (act_pure (demand (submsg_fields f)));
         dec_act (pb_message_set_to_defaults fuel fields a)) (fun _ => True).
Proof.
  intros (_ & _ & _ & Hsz & Hin & Hptr) Hty. unfold ptr_fits in Hptr. rewrite Hty in Hptr. cbn in Hptr.
  destruct Hptr as (sub & -> & Hok). apply (dsafe_bind (fun x => x = sub)).
  - by apply dsafe_act, (asafe_pure _ _ _ _ sub).
  - intros ? ->. eapply dsafe_act, sub_defaults_safe; [done|]. eapply inside_sub; [done|]. unfold value_width. lia.
Qed.

(** The packed loop ends because every entry consumes input. *)
Lemma static_packed_runs f func it :
  field_fits f (pData it) (pSize it) -> PB_HTYPE (type f) = PB_HTYPE_REPEATED ->
  PB_LTYPE (type f) <= PB_LTYPE_LAST_PACKABLE -> good_decoder f func ->
  forall k s, buffered s -> bytes_left s < Z.of_nat k ->
    runs_safe (static_packed_loop k func f it) (fun _ => True) s.
Proof.
  intros Hf Hrep Hpack Hgood. induction k as [|k IH]; intros s Hs Hk st Hst.
  { destruct s as [[rest|] left msg]; [|done]. cbn in *. lia. }
  cbn [static_packed_loop]. unfold mbind, dec_bind, dec_left, dec_act, dec_status. cbn [mbind outcome_bind].
  destruct (Z.ltb_spec 0 (bytes_left s)); cbn [negb];
    [|exists (Some true), s, st; split_and!; [done|by apply moved_refl|done|done]].
  destruct (asafe_size_load _ _ _ (pSize it) (field_size_fits _ _ _ Hf (or_introl Hrep)) st Hst)
    as (size & st1 & E1 & Hst1 & [Hsz _]).
  rewrite E1. cbn [mbind outcome_bind].
  destruct (Z.ltb_spec size (array_size f));
    [|exists (Some true), s, st1; split_and!; [done|by apply moved_refl|done|done]].
  destruct (Hgood (array_item (pData it) f size)) as [Hfs Hfe]; [by eapply field_item_fits|].
  specialize (Hfe Hpack). destruct (Hfs s st1 Hs Hst1) as (o & s2 & st2 & E2 & Hm2 & Hst2 & _).
  rewrite E2. cbn [mbind outcome_bind]. destruct o as [[]|]; [|by exists (Some false), s2, st2].
  pose proof (Hfe _ _ _ _ _ Hs Hst1 E2).
  destruct (asafe_size_incr _ _ _ (pSize it) (field_size_fits _ _ _ Hf (or_introl Hrep)) st2 Hst2)
    as ([] & st3 & E3 & Hst3 & _).
  rewrite E3. cbn [mbind outcome_bind].
  destruct (IH s2) with (st := st3) as (o4 & s4 & st4 & E4 & Hm4 & ? & ?);
    [by eapply moved_buffered|lia|done|].
  exists o4, s4, st4. split_and!; [done|by eapply moved_trans|done|done].
Qed.

Lemma dsafe_static_packed f func it :
  field_fits f (pData it) (pSize it) -> PB_HTYPE (type f) = PB_HTYPE_REPEATED ->
  PB_LTYPE (type f) <= PB_LTYPE_LAST_PACKABLE -> good_decoder f func ->
  dsafe (sub ← dec_read pb_make_string_substream;
         '(status, sub1) ← dec_on sub (static_packed_loop (Datatypes.S (Z.to_nat (bytes_left sub))) func f it);
         if negb (bytes_left sub1 =? 0) then dec_error "array overflow" else
         dec_read (pb_close_string_substream sub1);;
         match status with Some true => mret tt | _ => dec_false end) (fun _ => True).
Proof.
  intros Hf Hrep Hpack Hgood. apply (dsafe_sub
    (fun sub => static_packed_loop (Datatypes.S (Z.to_nat (bytes_left sub))) func f it) _ (fun _ => True)).
  - intros sub Hsub. apply static_packed_runs; try done. destruct sub as [[rest|] left msg]; [|done]. cbn in *. lia.
  - intros status sub1 _. case_match; [apply AfterError, dsafe_error|]. apply AfterClose.
    destruct status as [[]|]; [by apply dsafe_ret|apply dsafe_false..].
Qed.

Lemma dsafe_decode_static wt it f :
  at_pos it = Done f -> field_fits f (pData it) (pSize it) ->
  dsafe (decode_static_field dec_msg fuel wt it) (fun _ => True).
Proof.
  intros Hat Hf. unfold decode_static_field. rewrite Hat.
  apply (dsafe_bind (fun g => g = f)); [by apply dsafe_act, (asafe_pure _ _ _ _ f)|]. intros ? ->.
  apply (dsafe_bind (good_decoder f)); [apply good_field_decoder; apply Hf|]. intros func Hgood.
  destruct (Z.eqb_spec (PB_HTYPE (type f)) PB_HTYPE_REQUIRED) as [E|_].
  { apply Hgood. eapply field_value_fits; [done|]. by rewrite E. }
  destruct (Z.eqb_spec (PB_HTYPE (type f)) PB_HTYPE_OPTIONAL) as [E|_].
  { apply (dsafe_bind (fun _ => True)).
    - destruct (size_is_data it) eqn:Esz; cbn [negb]; [by apply dsafe_ret|]. unfold size_is_data in Esz.
      apply bool_decide_eq_false in Esz. destruct Hf as (_ & _ & _ & _ & _ & _ & _ & Hsz & _).
      destruct (pSize it) as [ps|]; [|cbn in Hsz; by rewrite E in Hsz].
      destruct Hsz as [Hsz _]. destruct (Hsz E) as [->|Hin]; [done|]. by apply dsafe_act, asafe_has_store.
    - intros _ _. apply Hgood. eapply field_value_fits; [done|]. by rewrite E. }
  destruct (Z.eqb_spec (PB_HTYPE (type f)) PB_HTYPE_REPEATED) as [E|_].
  { destruct (is_packed wt f) eqn:Ep.
    - apply dsafe_static_packed; try done. unfold is_packed in Ep. lia.
    - pose proof (field_size_fits _ _ _ Hf (or_introl E)) as Hsz.
      eapply dsafe_bind; [by apply dsafe_act, asafe_size_load|]. intros size [Hs0 _].
      apply (dsafe_bind (fun _ => True)); [by apply dsafe_act, asafe_size_store|]. intros _ _.
      destruct (Z.leb_spec (array_size f) size); [apply dsafe_error|].
      apply Hgood. by eapply field_item_fits. }
  destruct (Z.eqb_spec (PB_HTYPE (type f)) PB_HTYPE_ONEOF) as [E|_]; [|apply dsafe_error].
  pose proof (field_size_fits _ _ _ Hf (or_intror E)) as Hsz.
  assert (Hv : value_fits f (pData it)) by (eapply field_value_fits; [done|]; by rewrite E).
  apply (dsafe_bind (fun _ => True)).
  - destruct (Z.eqb_spec (PB_LTYPE (type f)) PB_LTYPE_SUBMESSAGE) as [El|_]; [|by apply dsafe_ret].
    eapply dsafe_bind; [by apply dsafe_act, asafe_size_load|]. intros which _.
    case_match; [|by apply dsafe_ret]. apply (dsafe_bind (fun _ => True)); [|intros _ _; by apply asafe_sub_defaults].
    apply dsafe_act, asafe_zero. destruct Hv as (_ & _ & _ & ? & Hin & _). eapply inside_sub; [done|].
    unfold value_width. lia.
  - intros _ _. apply (dsafe_bind (fun _ => True)); [by apply dsafe_act, asafe_size_store|]. intros _ _.
    by apply Hgood.
Qed.
End Field.
End Decoders.

(** ** Message types of static fields *)

(** [fields] describes a struct of [size] bytes, nested at most [d] deep; an
    empty message still has the dummy member C asks for. *)
Fixpoint static_msg `{PbProgram} (d : nat) (fields : list pb_field) (size : Z) : Prop :=
  match d with
  | O => False
  | S d =>
    1 <= size /\ exists l, fields = l ++ [PB_LAST_FIELD] /\ Forall field_ok l /\ zlen l < 2 ^ 32 - 1 /\
      Forall2 (fun f '(pd, ps, _) => field_fits 0 size (static_msg d) f pd (SizeAt ps)) l (struct_layout l 0)
  end.

(** *** Layout and reset, apart

    [static_msg] is two conditions in one.  [static_layout] says that every
    member the descriptors name, count, presence and selector members included,
    lies inside the struct, as it does for the descriptors the macros of pb.h
    make from a C struct.  [resets_fit] is the extra condition on fixed-count
    arrays (no count member: [pSize] is the array itself): the four bytes that
    [pb_field_set_to_default] zeroes at the array, pb_decode.c:876, are bytes
    of the struct. *)
Definition field_placed `{PbProgram} (size : Z) (sub_ok : list pb_field -> Z -> Prop) (f : pb_field) (pd ps : Z) : Prop :=
  PB_ATYPE (type f) = PB_ATYPE_STATIC /\ PB_LTYPE (type f) <> PB_LTYPE_EXTENSION /\
  inside 0 size pd (extent f) /\
  (PB_HTYPE (type f) = PB_HTYPE_REPEATED ->
     min_width (PB_LTYPE (type f)) <= data_size f /\ data_size f * array_size f <= PB_SIZE_MAX) /\
  (PB_HTYPE (type f) = PB_HTYPE_OPTIONAL -> ps = pd \/ inside 0 size ps 1) /\
  (PB_HTYPE (type f) = PB_HTYPE_REPEATED -> ps = pd \/ inside 0 size ps 4) /\
  (PB_HTYPE (type f) = PB_HTYPE_ONEOF -> inside 0 size ps 4) /\
  ptr_fits sub_ok f.

Fixpoint static_layout `{PbProgram} (d : nat) (fields : list pb_field) (size : Z) : Prop :=
  match d with
  | O => False
  | S d =>
    1 <= size /\ exists l, fields = l ++ [PB_LAST_FIELD] /\ Forall field_ok l /\ zlen l < 2 ^ 32 - 1 /\
      Forall2 (fun f '(pd, ps, _) => field_placed size (static_layout d) f pd ps) l (struct_layout l 0)
  end.

Fixpoint resets_fit `{PbProgram} (d : nat) (fields : list pb_field) (size : Z) : Prop :=
  match d with
  | O => True
  | S d =>
    forall l, fields = l ++ [PB_LAST_FIELD] ->
      Forall2 (fun f '(pd, ps, _) =>
        (PB_HTYPE (type f) = PB_HTYPE_REPEATED -> ps = pd -> pd + 4 <= size) /\
        (PB_LTYPE (type f) = PB_LTYPE_SUBMESSAGE -> forall sub, submsg_fields f = Some sub -> resets_fit d sub (data_size f)))
      l (struct_layout l 0)
  end.

Lemma field_placed_fits `{PbProgram} size (ok1 ok2 : list pb_field -> Z -> Prop) f pd ps :
  field_ok f -> field_placed size ok1 f pd ps ->
  (PB_HTYPE (type f) = PB_HTYPE_REPEATED -> ps = pd -> pd + 4 <= size) ->
  (PB_LTYPE (type f) = PB_LTYPE_SUBMESSAGE -> forall sub, submsg_fields f = Some sub -> ok1 sub (data_size f) -> ok2 sub (data_size f)) ->
  field_fits 0 size ok2 f pd (SizeAt ps).
Proof.
  intros (_ & [_ Hlt] & _ & _ & Hds & Has) (Hst & Hne & Hin & Hrep & Ho & Hr & Hof & Hptr) Hres Hsub.
  assert (Hr4 : PB_HTYPE (type f) = PB_HTYPE_REPEATED -> inside 0 size ps 4).
  { intros E. destruct (Hr E) as [Hps|]; [|done]. specialize (Hres E Hps). unfold inside in *. lia. }
  unfold field_fits, size_fits. split_and!; try done; try lia; [naive_solver|].
  unfold ptr_fits in *. destruct (Z.eqb_spec (PB_LTYPE (type f)) PB_LTYPE_SUBMESSAGE) as [E|]; [|done].
  destruct Hptr as (sub & Hs & Hok). exists sub. split; [done|]. by apply Hsub.
Qed.

(** The two conditions together are what the proofs below use. *)
Lemma static_layout_msg `{PbProgram} d fields size :
  static_layout d fields size -> resets_fit d fields size -> static_msg d fields size.
Proof.
  revert fields size. induction d as [|d IH]; intros fields size; [done|].
  intros (Hsz & l & -> & Hok & Hlen & Hpl) Hres. split; [done|]. exists l. split_and!; try done.
  specialize (Hres l eq_refl). apply Forall2_same_length_lookup. split; [by eapply Forall2_length|].
  intros i f [[pd ps] req] Hf Hs. pose proof (Forall2_lookup_lr _ _ _ _ _ _ Hpl Hf Hs) as Hp.
  destruct (Forall2_lookup_lr _ _ _ _ _ _ Hres Hf Hs) as [Hr Hsub].
  eapply field_placed_fits; [by eapply Forall_lookup_1|exact Hp|exact Hr|]. intros E sub Hs' Hl.
  apply IH; [done|]. by apply Hsub.
Qed.

Definition shift_slot (k : Z) (x : Z * Z * Z) : Z * Z * Z := let '(pd, ps, req) := x in (pd + k, ps + k, req).

Lemma layout_shift k prev pd ps req rest :
  layout prev (pd + k) (ps + k) req rest = shift_slot k <$> layout prev pd ps req rest.
Proof.
  revert prev pd ps req. induction rest as [|f rest IH]; intros prev pd ps req; [done|]. cbn.
  destruct (inside_union prev f); cbn; f_equal.
  - apply IH.
  - apply f_equal2; [apply f_equal2; lia|done].
  - rewrite <- IH. f_equal; lia.
Qed.

Lemma struct_layout_shift l dest : struct_layout l dest = shift_slot dest <$> struct_layout l 0.
Proof.
  destruct l as [|f l]; [done|]. cbn. f_equal; [apply f_equal2; [apply f_equal2; lia|done]|].
  rewrite <- layout_shift. f_equal; lia.
Qed.

Lemma inside_shift lo n dest size a k :
  inside lo n dest size -> inside 0 size a k -> inside lo n (a + dest) k.
Proof. unfold inside. lia. Qed.

Lemma field_fits_shift `{PbProgram} sub_ok lo n dest size f pd ps :
  inside lo n dest size -> field_fits 0 size sub_ok f pd (SizeAt ps) ->
  field_fits lo n sub_ok f (pd + dest) (SizeAt (ps + dest)).
Proof.
  intros Hin (? & ? & ? & ? & ? & ? & ? & [Ho Hr] & ?). unfold field_fits. split_and!; try done; try lia;
    try (by eapply inside_shift); try tauto.
  split; [intros E; destruct (Ho E) as [->|]; [by left|right; by eapply inside_shift]|].
  intros E. eapply inside_shift; [done|]. auto.
Qed.

Section Message.
Context `{PbProgram} (d : nat) (l : list pb_field) (dest size lo n : Z).
Hypothesis Hlo : 0 < lo.
Hypothesis Hin : inside lo n dest size.
Hypothesis Hok : Forall field_ok l.
Hypothesis Hlen : zlen l < 2 ^ 32 - 1.
Hypothesis Hfit : Forall2 (fun f '(pd, ps, _) => field_fits 0 size (static_msg d) f pd (SizeAt ps)) l (struct_layout l 0).

Lemma dest_nonnull : dest <> 0.
Proof using Hlo Hin. clear - Hlo Hin. unfold inside in Hin. lia. Qed.

(** Where the iterator stands, the field fits. *)
Lemma iter_on_fits i it :
  iter_on l dest i it ->
  exists f, l !! i = Some f /\ at_pos it = Done f /\ field_fits lo n (static_msg d) f (pData it) (pSize it).
Proof using Hin Hfit.
  intros (f & pd & ps & req & Hf & Hlay & Hs & Hp & _ & _ & Hpd & Hps). exists f. split; [done|].
  split. { unfold at_pos. rewrite Hs, Hp. by rewrite (last_lookup _ _ _ Hf). }
  rewrite struct_layout_shift, list_lookup_fmap in Hlay.
  destruct (struct_layout l 0 !! i) as [[[pd0 ps0] req0]|] eqn:E; [|done]. injection Hlay as <- <- <-.
  pose proof (Forall2_lookup_lr _ _ _ _ _ _ Hfit Hf E) as Hff. cbn in Hff.
  pose proof (field_fits_shift _ _ _ _ _ _ _ _ Hin Hff) as Hff'. rewrite Hpd.
  destruct Hps as [->|[-> Hrep]]; [done|].
  destruct Hff' as (? & ? & ? & ? & ? & ? & ? & _ & ?). unfold field_fits. split_and!; try done; try lia; try tauto.
Qed.

Lemma asafe_each_field m0 (visit : pb_field_iter -> act unit) :
  (forall i it, iter_at l dest i it -> asafe m0 lo n (visit it) (fun _ => True)) ->
  forall k i it, iter_at l dest i it -> (length l <= i + k)%nat ->
    asafe m0 lo n (each_field k visit it) (fun _ => True).
Proof using Hlo Hin Hok Hlen.
  intros Hv. induction k as [|k IH]; intros i it Hat Hk.
  { destruct Hat as (pd & ps & req & Hlay & _). apply lookup_lt_Some in Hlay.
    rewrite length_struct_layout in Hlay. lia. }
  cbn [each_field]. eapply asafe_bind; [by eapply Hv|]. intros _ _.
  assert (Hi : (i < length l)%nat).
  { destruct Hat as (pd & ps & req & Hlay & _). apply lookup_lt_Some in Hlay. by rewrite length_struct_layout in Hlay. }
  destruct (lookup_lt_is_Some_2 l i Hi) as [f Hf].
  destruct (iter_next_on l dest i it) as (it' & E & Hat');
    [apply dest_nonnull|done|lia|by eapply iter_at_on|].
  rewrite E. eapply asafe_bind; [by eapply (asafe_pure _ _ _ _ _ (fun x => x = (bool_decide (S i < length l)%nat, it')))|].
  intros [more it2] [= -> ->]. case_bool_decide; [|by apply asafe_ret].
  eapply IH; [done|lia].
Qed.

(** A walk over all the fields of the message. *)
Lemma asafe_walk m0 (visit : pb_field_iter -> act unit) :
  (forall i it f, iter_at l dest i it -> at_pos it = Done f ->
     field_fits lo n (static_msg d) f (pData it) (pSize it) -> asafe m0 lo n (visit it) (fun _ => True)) ->
  asafe m0 lo n
    ('(nonempty, it) ← act_pure (pb_field_iter_begin (l ++ [PB_LAST_FIELD]) dest);
     if nonempty : bool then each_field (length (l ++ [PB_LAST_FIELD])) visit it else mret tt) (fun _ => True).
Proof using Hlo Hin Hok Hlen Hfit.
  intros Hv. destruct (iter_begin_at l dest dest_nonnull Hok) as [Hnil Hcons].
  destruct (decide (l = [])) as [E|Hne].
  - destruct (Hnil E) as (it & ->). eapply (asafe_bind (fun x => x = (false, it))); [by eapply asafe_pure|].
    intros ? ->. by apply asafe_ret.
  - destruct (Hcons Hne) as (it & -> & Hat). eapply (asafe_bind (fun x => x = (true, it))); [by eapply asafe_pure|].
    intros ? ->. eapply (asafe_each_field _ visit) with (i := 0%nat); [|done|rewrite length_app; cbn; lia].
    intros i it' Hat'. assert (Hi : (i < length l)%nat).
    { destruct Hat' as (pd & ps & req & Hlay & _). apply lookup_lt_Some in Hlay.
      by rewrite length_struct_layout in Hlay. }
    destruct (lookup_lt_is_Some_2 l i Hi) as [f Hf].
    destruct (iter_on_fits i it') as (f' & _ & ? & ?); [by eapply iter_at_on|]. by eapply Hv.
Qed.
End Message.

(** ** Defaults and releasing of static messages *)

Section Walks.
Context `{PbProgram} (m0 : mem) (lo n : Z).
Hypothesis Hlo : 0 < lo.

(** [sub_ok] messages are safe for the walk [w]. *)
Definition walk_safe (sub_ok : list pb_field -> Z -> Prop) (w : list pb_field -> Z -> act unit) : Prop :=
  forall fields dest size, sub_ok fields size -> inside lo n dest size -> asafe m0 lo n (w fields dest) (fun _ => True).

Lemma asafe_default_bytes f a :
  inside lo n a (data_size f) -> PB_LTYPE (type f) <> PB_LTYPE_SUBMESSAGE ->
  forall sub_ok, ptr_fits sub_ok f ->
  asafe m0 lo n
    (match ptr f with
     | PtrDefault bytes =>
       if zlen bytes <? data_size f then act_undef
       else act_store (fun m => store_bytes m a (take (Z.to_nat (data_size f)) bytes))
     | PtrFields _ => act_undef
     | PtrNull => zero_mem a (data_size f)
     end) (fun _ => True).
Proof using.
  intros Hin Hne sub_ok Hptr. unfold ptr_fits in Hptr.
  destruct (Z.eqb_spec (PB_LTYPE (type f)) PB_LTYPE_SUBMESSAGE); [done|].
  destruct (ptr f) as [|?|bs]; [by apply asafe_zero|done|]. destruct Hptr as [Hl Hb].
  destruct (Z.ltb_spec (zlen bs) (data_size f)); [lia|].
  apply asafe_store_bytes; [|by apply Forall_take]. rewrite length_take.
  replace (Z.of_nat (Z.to_nat (data_size f) `min` length bs)) with (data_size f); [done|].
  unfold inside in Hin. lia.
Qed.

Lemma asafe_set_to_default sub_ok fuel it f :
  walk_safe sub_ok (pb_message_set_to_defaults fuel) ->
  at_pos it = Done f -> field_fits lo n sub_ok f (pData it) (pSize it) -> pSize it <> SizeFixedCount ->
  asafe m0 lo n (pb_field_set_to_default (S fuel) it) (fun _ => True).
Proof using.
  intros Hw Hat Hf Hnf. cbn [pb_field_set_to_default]. rewrite Hat.
  apply (asafe_bind (fun g => g = f)); [by eapply asafe_pure|]. intros ? ->.
  pose proof Hf as (Hst & Hext & _ & Hds & _ & Hin & _ & Hsz & Hptr).
  destruct (Z.eqb_spec (PB_LTYPE (type f)) PB_LTYPE_EXTENSION); [done|].
  rewrite Hst. change (PB_ATYPE_STATIC =? PB_ATYPE_STATIC) with true. cbv iota.
  apply (asafe_bind (fun init => init = true -> PB_HTYPE (type f) <> PB_HTYPE_REPEATED)).
  - destruct ((PB_HTYPE (type f) =? PB_HTYPE_OPTIONAL) && negb (size_is_data it)) eqn:Eo.
    + apply andb_prop in Eo as [Eo Ed]. apply Z.eqb_eq in Eo. apply negb_true_iff, bool_decide_eq_false in Ed.
      destruct (pSize it) as [ps|]; [|done]. destruct Hsz as [Hsz _].
      destruct (Hsz Eo) as [->|Hps]; [done|]. apply (asafe_bind (fun _ => True)); [by apply asafe_has_store|].
      intros _ _. apply asafe_ret. intros _. by rewrite Eo.
    + destruct ((PB_HTYPE (type f) =? PB_HTYPE_REPEATED) || (PB_HTYPE (type f) =? PB_HTYPE_ONEOF)) eqn:Er.
      * apply (asafe_bind (fun _ => True)); [|by intros _ _; apply asafe_ret].
        apply asafe_size_store. eapply field_size_fits; [done|].
        apply orb_prop in Er as [Er%Z.eqb_eq|Er%Z.eqb_eq]; auto.
      * apply asafe_ret. intros _. apply orb_false_iff in Er as [Er%Z.eqb_neq _]. done.
  - intros [] Hinit; [|by apply asafe_ret]. specialize (Hinit eq_refl).
    assert (Hd : inside lo n (pData it) (data_size f)).
    { unfold extent in Hin. destruct (Z.eqb_spec (PB_HTYPE (type f)) PB_HTYPE_REPEATED); [done|].
      unfold value_width, inside in *. lia. }
    destruct (Z.eqb_spec (PB_LTYPE (type f)) PB_LTYPE_SUBMESSAGE) as [El|].
    + unfold ptr_fits in Hptr. rewrite El in Hptr. cbn in Hptr. destruct Hptr as (sub & -> & Hok).
      apply (asafe_bind (fun x => x = sub)); [by eapply asafe_pure|]. intros ? ->. by eapply Hw.
    + by eapply asafe_default_bytes.
Qed.

Lemma iter_at_size l dest i it : iter_at l dest i it -> pSize it <> SizeFixedCount.
Proof using. intros (? & ? & ? & _ & ->). done. Qed.

Lemma static_defaults_safe d fuel :
  (d <= fuel)%nat -> walk_safe (static_msg d) (pb_message_set_to_defaults fuel).
Proof using Hlo.
  revert fuel. induction d as [|d IH]; intros fuel Hfuel fields dest size Hmsg Hin; [done|].
  destruct fuel as [|fuel]; [lia|].
  destruct Hmsg as (_ & l & -> & Hok & Hlen & Hfit). unfold pb_message_set_to_defaults, message_defaults.
  eapply asafe_walk; try done. intros i it f Hat Hpos Hf.
  eapply asafe_set_to_default; [|done|done|by eapply iter_at_size]. apply IH. lia.
Qed.

Lemma asafe_release_count f it sub_ok :
  field_fits lo n sub_ok f (pData it) (pSize it) ->
  asafe m0 lo n (release_count f it)
    (fun k => PB_HTYPE (type f) = PB_HTYPE_REPEATED /\ 0 <= k <= array_size f \/
              PB_HTYPE (type f) <> PB_HTYPE_REPEATED /\ k = 1).
Proof using.
  intros Hf. pose proof Hf as (Hst & _ & _ & _ & Has & _). unfold release_count. rewrite Hst.
  change (PB_ATYPE_STATIC =? PB_ATYPE_STATIC) with true. cbn [andb].
  destruct (Z.eqb_spec (PB_HTYPE (type f)) PB_HTYPE_REPEATED) as [E|]; [|apply asafe_ret; auto].
  apply (asafe_bind (fun k => 0 <= k)).
  - case_match; [by apply asafe_ret|].
    eapply asafe_weaken; [|eapply asafe_size_load, field_size_fits; [done|by auto]]. intros k [? _]. done.
  - intros k Hk. apply asafe_ret. left. split; [done|]. destruct (Z.ltb_spec (array_size f) k); lia.
Qed.

Lemma asafe_each_item (visit : Z -> act unit) step k p :
  (forall i, (i < k)%nat -> asafe m0 lo n (visit (p + step * Z.of_nat i)) (fun _ => True)) ->
  asafe m0 lo n (each_item k visit step p) (fun _ => True).
Proof using.
  revert p. induction k as [|k IH]; intros p Hv; [by apply asafe_ret|]. cbn [each_item].
  apply (asafe_bind (fun _ => True)).
  - specialize (Hv 0%nat ltac:(lia)). rewrite Z.mul_0_r, Z.add_0_r in Hv. done.
  - intros _ _. apply IH. intros i Hi. specialize (Hv (S i) ltac:(lia)).
    by replace (p + step + step * Z.of_nat i) with (p + step * Z.of_nat (S i)) by lia.
Qed.

Lemma asafe_release_field sub_ok fuel it f :
  walk_safe sub_ok (pb_release fuel) ->
  at_pos it = Done f -> field_fits lo n sub_ok f (pData it) (pSize it) ->
  asafe m0 lo n (pb_release_single_field (S fuel) it) (fun _ => True).
Proof using Hlo.
  intros Hw Hat Hf. cbn [pb_release_single_field]. rewrite Hat.
  apply (asafe_bind (fun g => g = f)); [by eapply asafe_pure|]. intros ? ->.
  apply (asafe_bind (fun _ => True)).
  { destruct (Z.eqb_spec (PB_HTYPE (type f)) PB_HTYPE_ONEOF); [|by apply asafe_ret].
    eapply asafe_bind; [eapply asafe_size_load, field_size_fits; [done|by auto]|]. intros w _. by apply asafe_ret. }
  intros [] _; cbn [negb]; [|by apply asafe_ret].
  pose proof Hf as (Hst & Hext & _ & Hds & Has & Hin & _ & Hsz & Hptr). rewrite Hst.
  apply (asafe_bind (fun _ => True)); [|by intros _ _; apply asafe_ret].
  destruct (Z.eqb_spec (PB_LTYPE (type f)) PB_LTYPE_EXTENSION); [done|].
  change (PB_ATYPE_STATIC =? PB_ATYPE_CALLBACK) with false. change (PB_ATYPE_STATIC =? PB_ATYPE_POINTER) with false.
  cbn [negb]. rewrite andb_true_r.
  destruct (Z.eqb_spec (PB_LTYPE (type f)) PB_LTYPE_SUBMESSAGE) as [El|]; [|by apply asafe_ret].
  unfold ptr_fits in Hptr. rewrite El in Hptr. cbn in Hptr. destruct Hptr as (sub & Hsub & Hok).
  apply (asafe_bind (fun p => p = pData it)); [by apply asafe_ret|]. intros ? ->.
  eapply asafe_bind; [by eapply asafe_release_count|]. intros k Hk.
  case_match; [|by apply asafe_ret]. apply asafe_each_item. intros i Hi.
  case_match; [by apply asafe_ret|]. rewrite Hsub.
  apply (asafe_bind (fun x => x = sub)); [by eapply asafe_pure|]. intros ? ->. eapply Hw; [done|].
  unfold extent in Hin. destruct (Z.eqb_spec (PB_HTYPE (type f)) PB_HTYPE_REPEATED) as [Er|Er];
    (destruct Hk as [[Er' Hk]|[Er' ->]]; [|]; try done).
  - assert (data_size f * (Z.of_nat i + 1) <= data_size f * array_size f) by (apply Z.mul_le_mono_nonneg_l; lia).
    assert (0 <= data_size f * Z.of_nat i) by (apply Z.mul_nonneg_nonneg; lia). unfold inside in *. lia.
  - assert (i = 0%nat) as -> by lia. unfold value_width, inside in *. lia.
Qed.

Lemma static_release_safe d fuel : (d <= fuel)%nat -> walk_safe (static_msg d) (pb_release fuel).
Proof using Hlo.
  revert fuel. induction d as [|d IH]; intros fuel Hfuel fields dest size Hmsg Hin; [done|].
  destruct fuel as [|fuel]; [lia|].
  destruct Hmsg as (_ & l & -> & Hok & Hlen & Hfit). unfold pb_release, release_message.
  case_match; [by apply asafe_ret|].
  eapply asafe_walk; try done. intros i it f Hat Hpos Hf.
  eapply asafe_release_field; [|done|done]. apply IH. lia.
Qed.
End Walks.

(** ** The iterator of the main loop *)

(** The iterator stands on a field, or on the terminator of an empty message. *)
Definition cur_iter (l : list pb_field) (dest : Z) (it : pb_field_iter) : Prop :=
  (exists i, iter_on l dest i it) \/
  (l = [] /\ it = PbFieldIter [PB_LAST_FIELD] 0 0 dest dest (SizeAt dest)).

Lemma cur_iter_start l dest it : cur_iter l dest it -> start it = l ++ [PB_LAST_FIELD].
Proof. intros [(i & f & pd & ps & req & _ & _ & ? & _)|[-> ->]]; done. Qed.

Lemma iter_at_cur l dest i it : iter_at l dest i it -> cur_iter l dest it.
Proof.
  intros Hat. left. exists i. pose proof Hat as (pd & ps & req & Hlay & _).
  apply lookup_lt_Some in Hlay. rewrite length_struct_layout in Hlay.
  destruct (lookup_lt_is_Some_2 l i Hlay) as [f Hf]. by eapply iter_at_on.
Qed.

Section Iter.
Context (l : list pb_field) (dest : Z).
Hypothesis Hd : dest <> 0.
Hypothesis Hok : Forall field_ok l.
Hypothesis Hlen : zlen l < 2 ^ 32 - 1.

Lemma cur_begin : exists b it, pb_field_iter_begin (l ++ [PB_LAST_FIELD]) dest = Done (b, it) /\ cur_iter l dest it.
Proof using Hd Hok Hlen.
  destruct (iter_begin_at l dest Hd Hok) as [_ Hcons]. destruct l as [|f l'] eqn:El.
  - exists false. eexists. cbn. destruct (Z.eqb_spec dest 0); [done|]. rewrite !Z.add_0_r. split; [done|]. by right.
  - destruct (Hcons ltac:(done)) as (it & E & Hat). exists true, it. eauto using iter_at_cur.
Qed.

Lemma cur_next it :
  cur_iter l dest it -> exists b it', pb_field_iter_next it = Done (b, it') /\ cur_iter l dest it'.
Proof using Hd Hok Hlen.
  intros [[i Hon]|[-> ->]].
  - destruct (iter_next_on l dest i it) as (it' & E & Hat); [done|done|lia|done|].
    eexists _, it'. eauto using iter_at_cur.
  - eexists _, _. split; [done|]. by right.
Qed.

Lemma cur_find it t :
  cur_iter l dest it ->
  exists found it', pb_field_iter_find it t = Done (found, it') /\ cur_iter l dest it'.
Proof using Hd Hok Hlen.
  intros [[i Hon]|[-> ->]].
  - destruct (iter_find_spec l dest t i it) as (found & it' & E & Hres); [done|done|lia|done|].
    exists found, it'. split; [done|]. destruct found.
    + destruct Hres as (j & f & Hf & _ & Hit & _). case_decide; [subst; left; by eexists|]. by eapply iter_at_cur.
    + destruct Hres as [Hat _]. by eapply iter_at_cur.
  - unfold pb_field_iter_find. cbn [length start pos]. set (it := PbFieldIter _ _ _ _ _ _).
    cbn [iter_find_loop]. change (at_pos it) with (Done PB_LAST_FIELD). cbn [mbind outcome_bind].
    case_match; [eexists _, _; split; [done|by right]|].
    eexists _, _. split; [done|by right].
Qed.

(** With no extension field the search comes back empty-handed. *)
Lemma find_extension_none it :
  cur_iter l dest it -> Forall (fun f => PB_LTYPE (type f) <> PB_LTYPE_EXTENSION) l ->
  exists it', find_extension_field it = Done (false, it') /\ cur_iter l dest it'.
Proof using Hd Hok Hlen.
  intros Hcur Hne.
  assert (Heq : forall k o it, cur_iter l dest it -> find_extension_loop k o it = iter_find_loop k o (-1) it).
  { induction k as [|k IH]; intros o it0 Hit; [done|]. cbn [find_extension_loop iter_find_loop].
    assert (exists f, at_pos it0 = Done f /\ PB_LTYPE (type f) <> PB_LTYPE_EXTENSION /\ tag f <> -1)
      as (f & -> & Hext & Htag).
    { destruct Hit as [(i & f & pd & ps & req & Hf & _ & Hs & Hp & _)|[-> ->]]; [|by exists PB_LAST_FIELD].
      exists f. split. { unfold at_pos. rewrite Hs, Hp. by rewrite (last_lookup _ _ _ Hf). }
      split; [by eapply Forall_lookup_1 in Hne|]. eapply Forall_lookup_1 in Hok as [? _]; [|done]. lia. }
    cbn [mbind outcome_bind]. destruct (Z.eqb_spec (PB_LTYPE (type f)) PB_LTYPE_EXTENSION); [done|].
    destruct (Z.eqb_spec (tag f) (-1)); [done|]. cbn [andb].
    destruct (cur_next it0 Hit) as (b & it1 & -> & Hit1). cbn [mbind outcome_bind].
    case_match; [done|]. by apply IH. }
  unfold find_extension_field. rewrite Heq by done.
  destruct Hcur as [[i Hon]|[-> ->]].
  - destruct (iter_find_spec l dest (-1) i it) as (found & it' & E & Hres); [done|done|lia|done|].
    unfold pb_field_iter_find in E. rewrite E. exists it'. destruct found.
    + destruct Hres as (j & f & Hf & [Ht _] & _). eapply Forall_lookup_1 in Hok as [? _]; [|done]. lia.
    + destruct Hres as [Hat _]. split; [done|by eapply iter_at_cur].
  - eexists. split; [done|by right].
Qed.

(** The walk to the end of the array counts the required fields. *)
Lemma seek_end_on k i it :
  iter_on l dest i it -> (length l <= i + k)%nat ->
  exists f pd ps req it', seek_end k it = Done (req, type f, it') /\ last l = Some f /\
    struct_layout l dest !! pred (length l) = Some (pd, ps, req) /\ iter_at l dest 0 it'.
Proof using Hd Hok Hlen.
  revert i it. induction k as [|k IH]; intros i it Hon Hk.
  { destruct Hon as (f & ? & ? & ? & Hf & _). apply lookup_lt_Some in Hf. lia. }
  cbn [seek_end]. pose proof Hon as (f & pd & ps & req & Hf & Hlay & Hs & Hp & Hr & _).
  unfold at_pos. rewrite Hs, Hp, (last_lookup _ _ _ Hf). cbn [demand mbind outcome_bind].
  destruct (iter_next_on l dest i it) as (it' & -> & Hat); [done|done|lia|done|]. cbn [mbind outcome_bind].
  case_bool_decide as Hi.
  - destruct (lookup_lt_is_Some_2 l (S i) Hi) as [f' Hf'].
    apply (IH (S i)); [by eapply iter_at_on|lia].
  - apply lookup_lt_Some in Hf as Hlt. assert (i = pred (length l)) as -> by lia.
    exists f, pd, ps, req, it'. rewrite list.last_lookup, Hr. auto.
Qed.
End Iter.

(** ** The main loop *)

Section Loop.
Context {S : Type} `{Source S} `{PbProgram} `{Allocator} `{DecCallbacks S}.
Context (m0 : mem) (lo n : Z) (d fuel : nat) (l : list pb_field) (dest size : Z).
Context (dec_msg : list pb_field -> Z -> dec S unit).
Hypothesis Hlo : 0 < lo.
Hypothesis Hin : inside lo n dest size.
Hypothesis Hsize : 1 <= size.
Hypothesis Hok : Forall field_ok l.
Hypothesis Hlen : zlen l < 2 ^ 32 - 1.
Hypothesis Hfit : Forall2 (fun f '(pd, ps, _) => field_fits 0 size (static_msg d) f pd (SizeAt ps)) l (struct_layout l 0).
Hypothesis Hfuel : (d < fuel)%nat.
Hypothesis Hdec : forall fields dest size,
  static_msg d fields size -> inside lo n dest size -> dsafe m0 lo n (dec_msg fields dest) (fun _ => True).

Abbreviation dsafe := (dsafe (S := S) m0 lo n).
Abbreviation fits := (field_fits lo n (static_msg d)).

Lemma cur_fits it :
  cur_iter l dest it -> exists f, at_pos it = Done f /\ fits f (pData it) (pSize it).
Proof.
  intros [[i Hon]|[-> ->]].
  - destruct (iter_on_fits d l dest size lo n Hin Hfit i it Hon) as (f & _ & ? & ?). by exists f.
  - exists PB_LAST_FIELD. split; [done|]. unfold field_fits, extent, value_width, inside, ptr_fits in *.
    cbn. split_and!; try done; try lia.
    + change (dest + 1 <= lo + n). lia.
    + by intros [|].
Qed.

Lemma dsafe_pure {A} (x : outcome A) (P : A -> Prop) :
  (exists a, x = Done a /\ P a) -> dsafe (dec_act (act_pure x)) P.
Proof. intros (a & -> & Ha). by eapply dsafe_act, asafe_pure. Qed.

Lemma static_no_extension : Forall (fun f => PB_LTYPE (type f) <> PB_LTYPE_EXTENSION) l.
Proof.
  apply Forall_lookup_2. intros i f Hf.
  destruct (lookup_lt_is_Some_2 (struct_layout l 0) i) as [[[pd ps] req] E].
  { rewrite length_struct_layout. by eapply lookup_lt_Some. }
  pose proof (Forall2_lookup_lr _ _ _ _ _ _ Hfit Hf E) as (_ & Hext & _). done.
Qed.

Lemma Hdest : dest <> 0.
Proof. by eapply dest_nonnull. Qed.

Lemma dsafe_release_union it :
  cur_iter l dest it ->
  (forall f, at_pos it = Done f -> PB_HTYPE (type f) = PB_HTYPE_ONEOF) ->
  dsafe (pb_release_union_field fuel it) (cur_iter l dest).
Proof.
  intros Hcur Hone. unfold pb_release_union_field. destruct (cur_fits it Hcur) as (f & Hat & Hf). rewrite Hat.
  apply (dsafe_bind (fun g => g = f)); [by apply dsafe_pure; eauto|]. intros ? ->.
  eapply dsafe_bind; [by eapply dsafe_act, asafe_size_load, field_size_fits; eauto|]. intros old _.
  case_match; [by apply dsafe_ret|].
  destruct (cur_find l dest Hdest Hok Hlen it old Hcur) as (found & it1 & -> & Hcur1).
  apply (dsafe_bind (fun x => x = (found, it1))); [by apply dsafe_pure; eauto|]. intros ? ->.
  case_match; [apply dsafe_error|]. destruct (cur_fits it1 Hcur1) as (f1 & Hat1 & Hf1).
  assert (exists fuel', fuel = Datatypes.S fuel') as [fuel' Ef] by (exists (pred fuel); lia).
  apply (dsafe_bind (fun _ => True)).
  { rewrite Ef. eapply dsafe_act, asafe_release_field; [done|apply (static_release_safe m0 lo n Hlo d); lia|done|done]. }
  intros _ _. destruct (cur_find l dest Hdest Hok Hlen it1 (tag f) Hcur1) as (found2 & it2 & -> & Hcur2).
  apply (dsafe_bind (fun x => x = (found2, it2))); [by apply dsafe_pure; eauto|]. intros ? ->.
  case_match; [apply dsafe_error|]. destruct (cur_fits it2 Hcur2) as (f2 & Hat2 & Hf2). rewrite Hat2.
  apply (dsafe_bind (fun g => g = f2)); [by apply dsafe_pure; eauto|]. intros ? ->.
  destruct Hf2 as [-> _]. change (PB_ATYPE_STATIC =? PB_ATYPE_POINTER) with false. cbv iota.
  eapply (dsafe_bind (fun _ => True)); [by apply dsafe_ret|]. intros _ _. by apply dsafe_ret.
Qed.

Lemma dsafe_decode_field wt it :
  cur_iter l dest it -> dsafe (decode_field dec_msg fuel wt it) (cur_iter l dest).
Proof.
  intros Hcur. unfold decode_field. destruct (cur_fits it Hcur) as (f & Hat & Hf). rewrite Hat.
  apply (dsafe_bind (fun g => g = f)); [by apply dsafe_pure; eauto|]. intros ? ->.
  apply (dsafe_bind (cur_iter l dest)).
  { destruct (Z.eqb_spec (PB_HTYPE (type f)) PB_HTYPE_ONEOF); [|by apply dsafe_ret].
    apply dsafe_release_union; [done|]. intros g Hg. congruence. }
  intros it1 Hcur1. destruct (cur_fits it1 Hcur1) as (f1 & Hat1 & Hf1). rewrite Hat1.
  apply (dsafe_bind (fun g => g = f1)); [by apply dsafe_pure; eauto|]. intros ? ->.
  rewrite (proj1 Hf1). change (PB_ATYPE_STATIC =? PB_ATYPE_STATIC) with true. cbv iota.
  apply (dsafe_bind (fun _ => True)); [|intros _ _; by apply dsafe_ret].
  eapply dsafe_decode_static; try done.
  - apply (static_defaults_safe m0 lo n Hlo d). lia.
  - apply (static_release_safe m0 lo n Hlo d). lia.
Qed.

Definition locals_ok (x : dlocals) : Prop :=
  cur_iter l dest (iter x) /\ forall p, fixed_count_field x = Some p -> (p < length (l ++ [PB_LAST_FIELD]))%nat.

Lemma dsafe_decode_unknown t wt x :
  locals_ok x -> 0 <= t < 2 ^ 29 -> dsafe (decode_unknown dec_msg fuel t wt x) locals_ok.
Proof.
  intros [Hcur Hfix] Ht. unfold decode_unknown.
  apply (dsafe_bind (fun '(handled, y) => handled = false /\ locals_ok y)).
  - case_match; [|by apply dsafe_ret].
    destruct (find_extension_none l dest Hdest Hok Hlen (iter x) Hcur static_no_extension) as (it & -> & Hit).
    apply (dsafe_bind (fun y => y = (false, it))); [by apply dsafe_pure; eauto|]. intros ? ->.
    destruct (cur_fits it Hit) as (f & -> & _).
    apply (dsafe_bind (fun g => g = f)); [by apply dsafe_pure; eauto|]. intros ? ->. cbn [negb].
    destruct (Z.leb_spec (2 ^ 32 - 1) t); [lia|]. by apply dsafe_ret.
  - intros [handled y] [-> Hy]. eapply dsafe_bind; [by apply dsafe_read, robust_skip_field|].
    intros _ _. by apply dsafe_ret.
Qed.

Lemma dsafe_check_fixed x : locals_ok x -> dsafe (check_fixed_count x) (fun _ => True).
Proof.
  intros [Hcur Hfix]. unfold check_fixed_count. destruct (fixed_count_field x) as [p|] eqn:E; [|by apply dsafe_ret].
  destruct (lookup_lt_is_Some_2 (l ++ [PB_LAST_FIELD]) p) as [g Hg]; [by apply Hfix|].
  rewrite (cur_iter_start _ _ _ Hcur), Hg.
  apply (dsafe_bind (fun y => y = g)); [by apply dsafe_pure; eauto|]. intros ? ->.
  eapply dsafe_bind; [by apply dsafe_act, asafe_size_load|]. intros k _.
  case_match; [apply dsafe_error|by apply dsafe_ret].
Qed.

Lemma dsafe_redirect x f :
  locals_ok x -> at_pos (iter x) = Done f -> dsafe (redirect_size x f) locals_ok.
Proof.
  intros [Hcur Hfix] Hat. unfold redirect_size.
  destruct (_ && _) eqn:E; [|by apply dsafe_ret]. apply andb_prop in E as [E%Z.eqb_eq _].
  apply (dsafe_bind (fun _ => True)).
  - case_match; [by apply dsafe_ret|]. apply (dsafe_bind (fun _ => True)); [by apply (dsafe_check_fixed x)|].
    intros _ _. by apply dsafe_act, asafe_size_store.
  - intros _ _. apply dsafe_ret. destruct Hcur as [(i & g & pd & ps & req & Hg & Hlay & Hs & Hp & Hr & Hds & Hpd & Hps)|[El Eit]].
    + assert (g = f) as ->. { unfold at_pos in Hat. rewrite Hs, Hp, (last_lookup _ _ _ Hg) in Hat. by injection Hat. }
      split.
      * left. exists i, f, pd, ps, req. cbn. auto 10.
      * intros p [= <-]. rewrite Hp, length_app. apply lookup_lt_Some in Hg. cbn. lia.
    + rewrite Eit in Hat. injection Hat as <-. done.
Qed.

Lemma mark_seen_ok x f : locals_ok x -> locals_ok (mark_seen x f).
Proof. intros Hx. unfold mark_seen. repeat case_match; done. Qed.

(** What follows the tag in a round. *)
Lemma dsafe_after_tag x t wt :
  locals_ok x -> 0 <= t < 2 ^ 29 ->
  dsafe ('(found, it) ← dec_act (act_pure (pb_field_iter_find (iter x) t));
         let x := DLocals (seen0 x) (seen1 x) it (extension_range_start x) (fixed_count_field x) in
         if negb found then y ← decode_unknown dec_msg fuel t wt x; mret (true, y) else
         f ← dec_act (act_pure (at_pos it));
         y ← redirect_size x f;
         let y := mark_seen y f in
         it ← decode_field dec_msg fuel wt (iter y);
         mret (true, DLocals (seen0 y) (seen1 y) it (extension_range_start y) (fixed_count_field y)))
    (fun '(_, y) => locals_ok y).
Proof.
  intros [Hcur Hfix] Ht.
  destruct (cur_find l dest Hdest Hok Hlen (iter x) t Hcur) as (found & it & -> & Hcur').
  apply (dsafe_bind (fun y => y = (found, it))); [by apply dsafe_pure; eauto|]. intros ? ->. cbv zeta.
  set (x' := DLocals _ _ it _ _). assert (Hx' : locals_ok x') by done.
  destruct found; cbn [negb].
  2:{ eapply dsafe_bind; [by apply dsafe_decode_unknown|]. intros y Hy. by apply dsafe_ret. }
  destruct (cur_fits it Hcur') as (f & Hat & Hf). rewrite Hat.
  apply (dsafe_bind (fun g => g = f)); [by apply dsafe_pure; eauto|]. intros ? ->.
  eapply dsafe_bind; [by apply dsafe_redirect|]. intros y Hy%(mark_seen_ok y f).
  eapply dsafe_bind; [apply dsafe_decode_field, Hy|]. intros it2 Hit2. apply dsafe_ret. split; [done|apply Hy].
Qed.

Lemma decode_round_runs x s st :
  locals_ok x -> buffered s -> state_ok m0 lo n st ->
  exists o s' st', decode_round dec_msg fuel x s st = Done (o, s', st') /\ moved s s' /\ state_ok m0 lo n st' /\
    from_option (fun '(more, y) => locals_ok y /\ (more = true -> bytes_left s' < bytes_left s)) True o.
Proof.
  intros Hx Hs Hst. unfold decode_round, mbind at 1, dec_bind at 1, read_tag.
  destruct (decode_tag_robust s Hs) as (o & eof & s1 & -> & Hm & Ho). cbn [mbind outcome_bind].
  destruct o as [[t wt]|]; cbn [mbind outcome_bind].
  - destruct (Ho t wt eq_refl) as (Ht & _ & Hlt).
    destruct (dsafe_after_tag x t wt Hx Ht s1 st) as (o & s2 & st2 & E & Hm2 & Hst2 & Hy);
      [by eapply moved_buffered|done|].
    exists o, s2, st2. split; [exact E|]. split_and!; [by eapply moved_trans|done|].
    destruct o as [[more y]|]; [|done]. split; [done|]. intros _. apply moved_left in Hm2. lia.
  - destruct eof; cbn [mbind outcome_bind]; [|by exists None, s1, st].
    exists (Some (false, x)), s1, st. by split_and!.
Qed.

Lemma decode_loop_runs k x s :
  locals_ok x -> buffered s -> bytes_left s < Z.of_nat k ->
  runs_safe m0 lo n (decode_loop dec_msg fuel k x) locals_ok s.
Proof.
  revert x s. induction k as [|k IH]; intros x s Hx Hs Hk st Hst.
  { destruct s as [[rest|] left msg]; [|done]. cbn in *. lia. }
  cbn [decode_loop]. unfold mbind, dec_bind, dec_left. cbn [mbind outcome_bind].
  case_match; [exists (Some x), s, st; split_and!; [done|by apply moved_refl|done|done]|].
  destruct (decode_round_runs x s st Hx Hs Hst) as (o & s1 & st1 & -> & Hm & Hst1 & Ho). cbn [mbind outcome_bind].
  destruct o as [[more y]|]; [|by exists None, s1, st1]. destruct Ho as [Hy Hlt].
  destruct more; [|by exists (Some y), s1, st1].
  destruct (IH y s1 Hy) with (st := st1) as (o2 & s2 & st2 & -> & ? & ? & ?);
    [by eapply moved_buffered|specialize (Hlt eq_refl); lia|done|].
  exists o2, s2, st2. split_and!; [done|by eapply moved_trans|done|done].
Qed.

Lemma required_count_done it : cur_iter l dest it -> exists r, required_count it = Done r.
Proof.
  intros [[i Hon]|[-> ->]]; [|by eexists]. unfold required_count.
  pose proof Hon as (? & ? & ? & ? & Hf & _ & Hs & _).
  destruct (seek_end_on l dest Hdest Hok Hlen (length (start it)) i it Hon)
    as (f & pd & ps & req & it' & -> & _ & _ & Hat).
  { rewrite Hs, length_app. lia. }
  cbn [mbind outcome_bind]. destruct (cur_fits it') as (g & -> & _); [by eapply iter_at_cur|]. by eexists.
Qed.

Lemma dsafe_check_required x : locals_ok x -> dsafe (check_required x) (fun _ => True).
Proof.
  intros [Hcur _]. unfold check_required. destruct (required_count_done _ Hcur) as (r & ->).
  apply (dsafe_bind (fun y => y = r)); [by apply dsafe_pure; eauto|]. intros ? ->.
  case_match; [by apply dsafe_ret|apply dsafe_error].
Qed.

Lemma dsafe_noinit_body : dsafe (noinit_body dec_msg fuel (l ++ [PB_LAST_FIELD]) dest) (fun _ => True).
Proof.
  unfold noinit_body. destruct (cur_begin l dest Hdest Hok Hlen) as (b & it & -> & Hcur).
  apply (dsafe_bind (fun y => y = (b, it))); [by apply dsafe_pure; eauto|]. intros ? ->.
  intros s st Hs Hst. unfold mbind at 1, dec_bind at 1, dec_left. cbn [mbind outcome_bind].
  set (x := DLocals 0 0 it 0 None). assert (Hx : locals_ok x) by done.
  destruct (decode_loop_runs (Datatypes.S (Z.to_nat (bytes_left s))) x s Hx Hs) with (st := st)
    as (o & s1 & st1 & E & Hm & Hst1 & Ho); [|done|].
  { destruct s as [[rest|] left msg]; [|done]. cbn in *. lia. }
  assert (Hs1 : buffered s1) by by eapply moved_buffered.
  unfold mbind at 1, dec_bind at 1. rewrite E. cbn [mbind outcome_bind].
  destruct o as [y|]; [|by exists None, s1, st1].
  assert (Hrest : dsafe (check_fixed_count y;; check_required y) (fun _ => True)).
  { apply (dsafe_bind (fun _ => True)); [by apply dsafe_check_fixed|]. intros _ _. by apply dsafe_check_required. }
  destruct (Hrest s1 st1 Hs1 Hst1) as (o2 & s2 & st2 & E2 & ? & ? & ?).
  exists o2, s2, st2. split; [exact E2|]. split_and!; [by eapply moved_trans|done|done].
Qed.
End Loop.

Section Decode.
Context {S : Type} `{Source S} `{PbProgram} `{Allocator} `{DecCallbacks S}.
Context (m0 : mem) (lo n : Z).
Hypothesis Hlo : 0 < lo.

Lemma static_noinit_safe d fuel fields dest size :
  (d < fuel)%nat -> static_msg d fields size -> inside lo n dest size ->
  dsafe m0 lo n (pb_decode_noinit (S := S) fuel fields dest) (fun _ => True).
Proof.
  revert fuel fields dest size. induction d as [|d IH]; intros fuel fields dest size Hfuel Hmsg Hin; [done|].
  destruct fuel as [|fuel]; [lia|]. destruct Hmsg as (Hsize & l & -> & Hok & Hlen & Hfit).
  cbn [pb_decode_noinit]. apply dsafe_frame. eapply (dsafe_noinit_body m0 lo n d); try done; [lia|].
  intros fields' dest' size' Hmsg' Hin'. eapply IH; [lia|done|done].
Qed.

Lemma static_decode_safe d fuel fields dest size :
  (d < fuel)%nat -> static_msg d fields size -> inside lo n dest size ->
  dsafe m0 lo n (pb_decode (S := S) fuel fields dest) (fun _ => True).
Proof.
  intros Hfuel Hmsg Hin. eapply (dsafe_decode_message m0 lo n (static_msg d)); try done.
  - intros. by eapply static_noinit_safe.
  - apply (static_defaults_safe m0 lo n Hlo d). lia.
  - apply (static_release_safe m0 lo n Hlo d). lia.
Qed.
End Decode.
