(* ===== verification/PbRoundTrip.v ===== *)
(** * PbRoundTrip: values written by the encoder and read back by the decoder.

    [decodes x bs st a st']: on a buffer that starts with [bs], the decoding
    routine [x] consumes exactly [bs], returns [a] and takes the memory from
    [st] to [st'].  For every field type but submessages, the decoder of the
    type puts back the value the encoder of the type saw. *)

From Stdlib Require Import ZifyBool.
From stdpp Require Import base tactics numbers list gmap strings.
From S2P Require Import Prelude Mem PbTypes PbCommon PbOStream PbWire PbEncode PbEncodeSpec PbIStream PbDecode PbDecodeSafe.
Open Scope Z_scope.

Section RoundTrip.
Context {S : Type} `{Source S} `{PbProgram} `{Allocator} `{DecCallbacks S}.

Definition decodes {A} (x : dec S A) (bs : list Z) (st : dstate) (a : A) (st' : dstate) : Prop :=
  forall rest left msg, zlen bs <= left ->
    x (PbIStream (SrcBuffer (bs ++ rest)) left msg) st =
    Done (Some a, PbIStream (SrcBuffer rest) (left - zlen bs) msg, st').

Lemma decodes_ret {A} (a : A) st : decodes (mret a) [] st a st.
Proof. intros rest left msg _. cbn. by rewrite Z.sub_0_r. Qed.

Lemma decodes_read {A} (r : rd S A) bs a st : reads r bs a -> decodes (dec_read r) bs st a st.
Proof. intros Hr rest left msg Hle. unfold dec_read. by rewrite Hr. Qed.

Lemma decodes_act {A} (x : act A) st a st' : x st = Done (a, st') -> decodes (dec_act x) [] st a st'.
Proof. intros E rest left msg _. unfold dec_act. rewrite E. cbn. by rewrite Z.sub_0_r. Qed.

Lemma decodes_bind {A B} (x : dec S A) (k : A -> dec S B) bs1 bs2 st a st1 b st2 :
  decodes x bs1 st a st1 -> decodes (k a) bs2 st1 b st2 -> decodes (x ≫= k) (bs1 ++ bs2) st b st2.
Proof.
  intros Hx Hk rest left msg. rewrite length_app, <- app_assoc. intros Hle.
  unfold mbind, dec_bind. rewrite Hx by lia. cbn [mbind outcome_bind]. rewrite Hk by lia. do 3 f_equal. f_equal. lia.
Qed.

Lemma decodes_bind_nil {A B} (x : dec S A) (k : A -> dec S B) bs st a st1 b st2 :
  decodes x bs st a st1 -> decodes (k a) [] st1 b st2 -> decodes (x ≫= k) bs st b st2.
Proof. intros Hx Hk. rewrite <- (app_nil_r bs). by eapply decodes_bind. Qed.

Lemma decodes_bind_nil_l {A B} (x : dec S A) (k : A -> dec S B) bs st a st1 b st2 :
  decodes x [] st a st1 -> decodes (k a) bs st1 b st2 -> decodes (x ≫= k) bs st b st2.
Proof. intros Hx Hk. rewrite <- (app_nil_l bs). by eapply decodes_bind. Qed.

Lemma decodes_store f m c m' : f m = Some m' -> decodes (dec_act (act_store f)) [] (m, c) tt (m', c).
Proof. intros E. apply decodes_act. unfold act_store. cbn. by rewrite E. Qed.

(** A store to mapped memory. *)
Lemma store_uint_mapped k m a v :
  mapped m a (Z.of_nat k) ->
  exists m', store_uint k m a v = Some m' /\ only_differ m m' a (Z.of_nat k) /\
    load_bytes m' a k = Some (le_bytes k v).
Proof.
  intros Hm. unfold store_uint. destruct (store_bytes_mapped m a (le_bytes k v)) as [m' E].
  { by rewrite length_le_bytes. }
  exists m'. split; [done|]. split.
  - apply store_bytes_spec in E as [Hd _]. by rewrite length_le_bytes in Hd.
  - apply load_store_bytes in E. by rewrite length_le_bytes in E.
Qed.

Lemma mapped_sub m a n k : mapped m a n -> 0 <= k <= n -> mapped m a k.
Proof. intros Hm Hk i Hi. apply Hm. lia. Qed.

Lemma only_differ_sub m m' a n k : only_differ m m' a k -> 0 <= k <= n -> only_differ m m' a n.
Proof. intros [Hb Hd] Hk. split; [done|]. intros i Hi. apply Hd. lia. Qed.

(** ** Integers *)

Lemma wrap_byte_width (k : nat) v : 0 <= wrap (8 * Z.of_nat k) v < 256 ^ Z.of_nat k.
Proof.
  unfold wrap. rewrite Z.pow_mul_r by lia. apply Z.mod_pos_bound. change (2 ^ 8) with 256. lia.
Qed.

Lemma decodes_store_int k m c a v :
  mapped m a (Z.of_nat k) ->
  exists m', decodes (store_int k a v) [] (m, c) tt (m', c) /\ only_differ m m' a (Z.of_nat k) /\
    load_uint k m' a = Some (wrap (8 * Z.of_nat k) v).
Proof.
  intros Hm. destruct (store_uint_mapped k m a (wrap (8 * Z.of_nat k) v) Hm) as (m' & E & Hd & Hl).
  exists m'. split; [by apply decodes_store|]. split; [done|].
  unfold load_uint. rewrite Hl. cbn. f_equal. apply le_bytes_small, wrap_byte_width.
Qed.

Definition int_width (k : nat) : Prop := k = 1%nat \/ k = 2%nat \/ k = 4%nat \/ k = 8%nat.

Lemma decodes_store_clamped conv k m c a v :
  int_width k -> mapped m a (Z.of_nat k) -> conv (8 * Z.of_nat k) v = v ->
  exists m', decodes (store_clamped conv (Z.of_nat k) a v) [] (m, c) tt (m', c) /\
    only_differ m m' a (Z.of_nat k) /\ load_uint k m' a = Some (wrap (8 * Z.of_nat k) v).
Proof.
  intros Hk Hm Hv. destruct (decodes_store_int k m c a v Hm) as (m' & Hst & Hd & Hl).
  exists m'. split; [|done]. unfold store_clamped.
  eapply (decodes_bind_nil _ _ [] _ v _ tt); [|rewrite Z.eqb_refl; apply decodes_ret].
  destruct Hk as [->|[->|[->| ->]]];
    (eapply (decodes_bind_nil _ _ [] _ tt); [exact Hst|]);
    (replace (mret (conv _ v)) with (mret v : dec S Z) by (f_equal; by rewrite <- Hv at 1));
    apply decodes_ret.
Qed.

Lemma load_signed_width m a (k : nat) v :
  load_signed m a (Z.of_nat k) = Some (Some v) <->
  int_width k /\ exists u, load_uint k m a = Some u /\ v = signed (8 * Z.of_nat k) u.
Proof.
  unfold load_signed, int_width.
  destruct (Z.eqb_spec (Z.of_nat k) 1) as [E1|N1].
  { assert (k = 1%nat) as -> by lia. destruct (load_uint 1 m a); cbn; naive_solver. }
  destruct (Z.eqb_spec (Z.of_nat k) 2) as [E2|N2].
  { assert (k = 2%nat) as -> by lia. destruct (load_uint 2 m a); cbn; naive_solver. }
  destruct (Z.eqb_spec (Z.of_nat k) 4) as [E4|N4].
  { assert (k = 4%nat) as -> by lia. destruct (load_uint 4 m a); cbn; naive_solver. }
  destruct (Z.eqb_spec (Z.of_nat k) 8) as [E8|N8].
  { assert (k = 8%nat) as -> by lia. destruct (load_uint 8 m a); cbn; naive_solver. }
  split; [done|]. lia.
Qed.

Lemma load_unsigned_width m a (k : nat) v :
  load_unsigned m a (Z.of_nat k) = Some (Some v) <-> int_width k /\ load_uint k m a = Some v.
Proof.
  unfold load_unsigned, int_width.
  destruct (Z.eqb_spec (Z.of_nat k) 1) as [E1|N1].
  { assert (k = 1%nat) as -> by lia. destruct (load_uint 1 m a); cbn; naive_solver. }
  destruct (Z.eqb_spec (Z.of_nat k) 2) as [E2|N2].
  { assert (k = 2%nat) as -> by lia. destruct (load_uint 2 m a); cbn; naive_solver. }
  destruct (Z.eqb_spec (Z.of_nat k) 4) as [E4|N4].
  { assert (k = 4%nat) as -> by lia. destruct (load_uint 4 m a); cbn; naive_solver. }
  destruct (Z.eqb_spec (Z.of_nat k) 8) as [E8|N8].
  { assert (k = 8%nat) as -> by lia. destruct (load_uint 8 m a); cbn; naive_solver. }
  split; [done|]. lia.
Qed.

(** [func] decodes the value [v] into the [n] bytes at [a]. *)
Definition puts (rd : mem -> list pb_field -> Z -> option (list (Z * wval))) (func : pb_decoder)
    (f : pb_field) (a n : Z) (v : wval) : Prop :=
  forall m c, mapped m a n ->
    exists m', decodes (func f a) (wire_val v) (m, c) tt (m', c) /\ only_differ m m' a n /\
      read_value (rd m') m' f a = Some v.

Section Values.
Context (rd : mem -> list pb_field -> Z -> option (list (Z * wval))) (m1 : mem) (f : pb_field) (a1 a : Z).
Hypothesis Hm1 : mem_ok m1.
Hypothesis Hdata : 0 <= data_size f <= PB_SIZE_MAX.
Variable v : wval.
Hypothesis Hread : read_value (rd m1) m1 f a1 = Some v.

Lemma data_size_nat : data_size f = Z.of_nat (Z.to_nat (data_size f)).
Proof. lia. Qed.

Lemma puts_bool : PB_LTYPE (type f) = PB_LTYPE_BOOL -> puts rd pb_dec_bool f a 1 v.
Proof.
  intros Hty m c Hm. unfold read_value in *. rewrite Hty in *. cbn in Hread.
  apply bind_Some in Hread as (b & _ & [= <-]).
  destruct (store_bytes_mapped m a [if b then 1 else 0]) as [m' E]; [done|].
  pose proof (store_bytes_spec _ _ _ _ E) as (Hd & _ & Hv).
  exists m'. split_and!; [|done|].
  - cbn [wire_val]. unfold pb_dec_bool.
    eapply decodes_bind_nil; [apply decodes_read, reads_varint32; destruct b; lia|].
    apply decodes_store. rewrite <- E. cbn. destruct b; cbn; by destruct (store_byte _ _ _).
  - cbn. unfold safe_read_bool, load_byte. specialize (Hv 0%nat _ eq_refl). rewrite Z.add_0_r in Hv.
    rewrite Hv. by destruct b.
Qed.

Lemma int_width_bounds k u : int_width k -> 0 <= u < 256 ^ Z.of_nat k ->
  - 2 ^ 63 <= signed (8 * Z.of_nat k) u < 2 ^ 63 /\ (k <> 8%nat -> - 2 ^ 31 <= signed (8 * Z.of_nat k) u < 2 ^ 31).
Proof.
  intros Hk Hu. pose proof (signed_range (8 * Z.of_nat k) u ltac:(destruct Hk as [->|[->|[->| ->]]]; lia)).
  destruct Hk as [->|[->|[->| ->]]]; cbn in *; lia.
Qed.

Lemma signed_fix k u : int_width k -> signed (8 * Z.of_nat k) (signed (8 * Z.of_nat k) u) = signed (8 * Z.of_nat k) u.
Proof.
  intros Hk. apply signed_small; [destruct Hk as [->|[->|[->| ->]]]; lia|]. apply signed_range.
  destruct Hk as [->|[->|[->| ->]]]; lia.
Qed.

(** What a signed store leaves for a signed load. *)
Lemma load_signed_back k m' u :
  int_width k -> load_uint k m' a = Some (wrap (8 * Z.of_nat k) (signed (8 * Z.of_nat k) u)) ->
  load_signed m' a (Z.of_nat k) = Some (Some (signed (8 * Z.of_nat k) u)).
Proof.
  intros Hk Hl. apply load_signed_width. split; [done|]. eexists. split; [done|].
  rewrite signed_wrap by lia. by rewrite signed_fix.
Qed.

Lemma puts_varint : PB_LTYPE (type f) = PB_LTYPE_VARINT -> puts rd pb_dec_varint f a (data_size f) v.
Proof.
  intros Hty m c Hm. unfold read_value in *. rewrite Hty in *. cbn in Hread |- *.
  apply bind_Some in Hread as (o & Hl & Hread). apply bind_Some in Hread as (x & -> & [= <-]).
  rewrite data_size_nat in *. set (k := Z.to_nat (data_size f)) in *.
  apply load_signed_width in Hl as (Hk & u & Hu & ->). apply load_uint_range in Hu; [|done].
  destruct (int_width_bounds k u Hk Hu) as [Hb Hb'].
  destruct (decodes_store_clamped signed k m c a (signed (8 * Z.of_nat k) u) Hk Hm) as (m' & Hst & Hd & Hl').
  { by apply signed_fix. }
  exists m'. split_and!; [|done|]; cbn.
  - unfold pb_dec_varint. rewrite data_size_nat. fold k.
    eapply decodes_bind_nil; [apply decodes_read, reads_varint, u64_range|].
    assert ((if Z.of_nat k =? 8 then s64 (u64 (signed (8 * Z.of_nat k) u)) else s32 (u64 (signed (8 * Z.of_nat k) u)))
      = signed (8 * Z.of_nat k) u) as ->; [|done].
    unfold s64, s32, u64. destruct (Z.eqb_spec (Z.of_nat k) 8).
    + rewrite signed_wrap_le by lia. apply signed_small; lia.
    + rewrite signed_wrap_le by lia. apply signed_small; [lia|]. apply Hb'. lia.
  - by rewrite (load_signed_back k m' u).
Qed.

Lemma puts_uvarint : PB_LTYPE (type f) = PB_LTYPE_UVARINT -> puts rd pb_dec_uvarint f a (data_size f) v.
Proof.
  intros Hty m c Hm. unfold read_value in *. rewrite Hty in *. cbn in Hread |- *.
  apply bind_Some in Hread as (o & Hl & Hread). apply bind_Some in Hread as (x & -> & [= <-]).
  rewrite data_size_nat in *. set (k := Z.to_nat (data_size f)) in *.
  apply load_unsigned_width in Hl as (Hk & Hu). apply load_uint_range in Hu; [|done].
  assert (Hw : wrap (8 * Z.of_nat k) x = x).
  { apply wrap_small. rewrite Z.pow_mul_r by lia. done. }
  destruct (decodes_store_clamped wrap k m c a x Hk Hm Hw) as (m' & Hst & Hd & Hl').
  exists m'. split_and!; [|done|]; cbn.
  - unfold pb_dec_uvarint. rewrite data_size_nat. fold k.
    eapply decodes_bind_nil; [apply decodes_read, reads_varint|done].
    destruct Hk as [E|[E|[E|E]]]; rewrite E in Hu; cbn in Hu; lia.
  - rewrite Hw in Hl'.
    by rewrite (proj2 (load_unsigned_width m' a k x) (conj Hk Hl')).
Qed.

Lemma puts_svarint : PB_LTYPE (type f) = PB_LTYPE_SVARINT -> puts rd pb_dec_svarint f a (data_size f) v.
Proof.
  intros Hty m c Hm. unfold read_value in *. rewrite Hty in *. cbn in Hread |- *.
  apply bind_Some in Hread as (o & Hl & Hread). apply bind_Some in Hread as (x & -> & [= <-]).
  rewrite data_size_nat in *. set (k := Z.to_nat (data_size f)) in *.
  apply load_signed_width in Hl as (Hk & u & Hu & ->). apply load_uint_range in Hu; [|done].
  destruct (int_width_bounds k u Hk Hu) as [Hb _].
  destruct (decodes_store_clamped signed k m c a (signed (8 * Z.of_nat k) u) Hk Hm) as (m' & Hst & Hd & Hl').
  { by apply signed_fix. }
  exists m'. split_and!; [|done|]; cbn.
  - unfold pb_dec_svarint. rewrite data_size_nat. fold k.
    eapply decodes_bind_nil; [by apply decodes_read, reads_svarint|done].
  - by rewrite (load_signed_back k m' u).
Qed.

Lemma puts_fixed32 : PB_LTYPE (type f) = PB_LTYPE_FIXED32 -> puts rd pb_dec_fixed32 f a 4 v.
Proof.
  intros Hty m c Hm. unfold read_value in *. rewrite Hty in *. cbn -[load_uint] in Hread |- *.
  apply fmap_Some in Hread as (x & Hl & ->). apply load_uint_range in Hl; [|done].
  destruct (store_uint_mapped 4 m a x Hm) as (m' & E & Hd & Hl'). exists m'. split_and!; [|done|].
  - eapply decodes_bind_nil; [by apply decodes_read, reads_fixed32|]. by apply decodes_store.
  - unfold load_uint. rewrite Hl'. cbn [fmap option_fmap option_map]. by rewrite le_bytes_small.
Qed.

Lemma puts_fixed64 : PB_LTYPE (type f) = PB_LTYPE_FIXED64 -> puts rd pb_dec_fixed64 f a 8 v.
Proof.
  intros Hty m c Hm. unfold read_value in *. rewrite Hty in *. cbn -[load_uint] in Hread |- *.
  apply fmap_Some in Hread as (x & Hl & ->). apply load_uint_range in Hl; [|done].
  destruct (store_uint_mapped 8 m a x Hm) as (m' & E & Hd & Hl'). exists m'. split_and!; [|done|].
  - eapply decodes_bind_nil; [by apply decodes_read, reads_fixed64|]. by apply decodes_store.
  - unfold load_uint. rewrite Hl'. cbn [fmap option_fmap option_map]. by rewrite le_bytes_small.
Qed.

(** ** Byte strings *)

Lemma decodes_read_into b m c bs :
  0 < b -> mapped m b (zlen bs) ->
  exists m', decodes (read_into b (zlen bs)) bs (m, c) tt (m', c) /\ store_bytes m b bs = Some m'.
Proof.
  intros Hb Hm. destruct (store_bytes_mapped m b bs Hm) as [m' E]. exists m'. split; [|done].
  unfold read_into. destruct (Z.eqb_spec b 0); [lia|].
  eapply decodes_bind_nil; [apply decodes_read, reads_read|]. by apply decodes_store.
Qed.

Lemma mapped_trans m m' b n b' k : mapped m b n -> only_differ m m' b' k -> mapped m' b' k -> mapped m' b n.
Proof.
  intros Hm [_ Hd] Hm' i Hi. destruct (decide (b' <= i < b' + k)); [by apply Hm'|].
  rewrite Hd by done. by apply Hm.
Qed.

Lemma store_bytes_keeps_mapped m b bs m' b' n : store_bytes m b bs = Some m' -> mapped m b' n -> mapped m' b' n.
Proof.
  intros (Hd & _ & Hv)%store_bytes_spec Hm. eapply mapped_trans; [done|done|].
  intros i Hi. destruct (lookup_lt_is_Some_2 bs (Z.to_nat (i - b))) as [x Hx]; [lia|].
  specialize (Hv _ _ Hx).
  replace (b + Z.of_nat (Z.to_nat (i - b))) with i in Hv by lia. rewrite Hv. by eexists.
Qed.

(** The encoder's bound on a static bytes field, without its wrap-around. *)
Lemma puts_bytes :
  PB_LTYPE (type f) = PB_LTYPE_BYTES -> PB_ATYPE (type f) = PB_ATYPE_STATIC ->
  bytes_array_bytes_off <= data_size f -> 0 < a -> a1 <> 0 -> puts rd pb_dec_bytes f a (data_size f) v.
Proof.
  intros Hty Hst Hds Ha Ha1 m c Hm. unfold read_value in *. rewrite Hty, Hst in *.
  cbn -[load_uint load_bytes] in Hread |- *. destruct (Z.eqb_spec a1 0); [done|].
  apply bind_Some in Hread as (sz & Hn & Hread).
  apply load_uint_range in Hn; [|done]. change (256 ^ Z.of_nat 4) with (2 ^ 32) in Hn.
  unfold bytes_array_bytes_off, bytes_array_size_off, PB_SIZE_MAX in *.
  rewrite u64_small in * by lia. destruct (Z.ltb_spec (data_size f - 4) sz); [done|].
  apply fmap_Some in Hread as (bs & Hbs & ->). apply load_bytes_length in Hbs.
  assert (Hlen : sz = zlen bs) by lia. clear Hbs. subst sz.
  destruct (store_uint_mapped 4 m (a + 0) (zlen bs)) as (m2 & E2 & Hd2 & Hl2).
  { rewrite Z.add_0_r. eapply mapped_sub; [done|lia]. }
  destruct (decodes_read_into (a + 4) m2 c bs) as (m3 & Hr3 & E3); [lia| |].
  { intros i Hi. eapply (store_bytes_keeps_mapped _ _ _ _ a); [exact E2|exact Hm|lia]. }
  pose proof (store_bytes_spec _ _ _ _ E3) as (Hd3 & _ & _).
  rewrite Z.add_0_r in *. exists m3. split_and!.
  - unfold delimited, pb_dec_bytes. eapply decodes_bind; [by apply decodes_read, reads_varint32|].
    unfold PB_SIZE_MAX, PB_BYTES_ARRAY_T_ALLOCSIZE, bytes_array_bytes_off, bytes_array_size_off.
    rewrite u64_small by lia. destruct (Z.ltb_spec (2 ^ 32 - 1) (zlen bs)), (Z.ltb_spec (zlen bs + 4) (zlen bs)); try lia.
    unfold string_dest. rewrite Hst. cbn [Z.eqb]. change (PB_ATYPE_STATIC =? PB_ATYPE_POINTER) with false.
    destruct (Z.ltb_spec (data_size f) (zlen bs + 4)); [lia|].
    eapply decodes_bind_nil_l; [apply decodes_ret|]. rewrite Z.add_0_r.
    eapply decodes_bind_nil_l; [by apply decodes_store|]. done.
  - destruct Hd2 as [Hb2 Hd2], Hd3 as [Hb3 Hd3]. split; [congruence|]. intros i Hi.
    rewrite Hd3, Hd2 by lia. done.
  - destruct (Z.eqb_spec a 0); [lia|]. unfold load_uint.
    rewrite (load_store_bytes_disj _ _ _ _ _ _ E3), Hl2 by lia. cbn -[load_bytes le_bytes].
    rewrite le_bytes_small by (cbn; lia). destruct (Z.ltb_spec (data_size f - 4) (zlen bs)); [lia|].
    rewrite Nat2Z.id. by rewrite (load_store_bytes _ _ _ _ E3).
Qed.

Lemma puts_fixed_length :
  PB_LTYPE (type f) = PB_LTYPE_FIXED_LENGTH_BYTES -> 0 < a -> puts rd pb_dec_fixed_length_bytes f a (data_size f) v.
Proof.
  intros Hty Ha m c Hm. unfold read_value in *. rewrite Hty in *. cbn -[load_bytes] in Hread |- *.
  apply fmap_Some in Hread as (bs & Hbs & ->). apply load_bytes_length in Hbs.
  assert (Hlen : data_size f = zlen bs) by lia. unfold PB_SIZE_MAX in *. rewrite Hlen in *.
  destruct (decodes_read_into a m c bs Ha Hm) as (m' & Hr & E). exists m'.
  pose proof (store_bytes_spec _ _ _ _ E) as (Hd & _ & _). split_and!; [|done|].
  - unfold pb_dec_fixed_length_bytes, delimited. eapply decodes_bind; [by apply decodes_read, reads_varint32; lia|].
    unfold PB_SIZE_MAX. rewrite Hlen, Z.eqb_refl. destruct (Z.ltb_spec (2 ^ 32 - 1) (zlen bs)); [lia|].
    destruct (Z.eqb_spec (zlen bs) 0) as [E0|]; [|done]. destruct bs; [|cbn in E0; lia].
    cbn in E. injection E as <-. apply (decodes_store (fun m => store_bytes m a [])). done.
  - rewrite Nat2Z.id. by rewrite (load_store_bytes _ _ _ _ E).
Qed.

(** ** Strings *)

Lemma mapped_size m b (k : nat) : mapped m b (Z.of_nat k) -> (k <= size (mbytes m))%nat.
Proof.
  intros Hm. rewrite <- size_dom.
  assert (size (list_to_set (C := gset Z) (seqZ b (Z.of_nat k))) = k) as <-.
  { rewrite size_list_to_set by apply NoDup_seqZ. rewrite length_seqZ. lia. }
  apply subseteq_size. intros i Hi. apply elem_of_list_to_set, elem_of_seqZ in Hi. apply elem_of_dom. by apply Hm.
Qed.

(** The loop stops at the first zero byte. *)
Lemma strnlen_stop fuel m p k max bs :
  load_bytes m p (length bs) = Some bs -> Forall (fun x => x <> 0) bs -> load_byte m (p + zlen bs) = Some 0 ->
  k + zlen bs < max -> (length bs < fuel)%nat -> strnlen_loop fuel m p k max = Done (k + zlen bs).
Proof.
  revert p k bs. induction fuel as [|fuel IH]; intros p k bs Hl Hnz Hz Hmax Hf; [lia|]. cbn [strnlen_loop].
  destruct bs as [|x bs]; cbn [length] in *.
  - rewrite Z.add_0_r in *. rewrite Hz. destruct (Z.ltb_spec k max); [done|lia].
  - cbn in Hl. destruct (load_byte m p) as [y|] eqn:Ey; [|done]. cbn in Hl.
    destruct (load_bytes m (p + 1) (length bs)) as [bs'|] eqn:Ebs; [|done]. injection Hl as -> ->.
    destruct (Z.ltb_spec k max); [|lia]. cbn. inversion Hnz; subst. destruct (Z.eqb_spec x 0); [done|].
    rewrite (IH (p + 1) (k + 1) bs); try done; try lia.
    + f_equal. lia.
    + rewrite <- Hz. f_equal. lia.
Qed.

(** What it has passed over is not zero. *)
Lemma strnlen_result fuel m p k max r :
  strnlen_loop fuel m p k max = Done r -> k <= max ->
  k <= r <= max /\ forall bs, load_bytes m p (Z.to_nat (r - k)) = Some bs -> Forall (fun x => x <> 0) bs.
Proof.
  revert p k. induction fuel as [|fuel IH]; intros p k; cbn [strnlen_loop]; [done|].
  destruct (Z.ltb_spec k max); [|intros [= <-] ?; split; [lia|]; rewrite Z.sub_diag; intros bs [= <-]; constructor].
  destruct (load_byte m p) as [x|] eqn:Ex; cbn; [|done]. destruct (Z.eqb_spec x 0) as [->|Hx].
  - intros [= <-] _. split; [lia|]. rewrite Z.sub_diag. intros bs [= <-]. constructor.
  - intros Hr _. destruct (IH (p + 1) (k + 1) Hr) as [Hb Hnz]; [lia|]. split; [lia|].
    intros bs. replace (Z.to_nat (r - k)) with (Datatypes.S (Z.to_nat (r - (k + 1)))) by lia. cbn.
    rewrite Ex. cbn. destruct (load_bytes m (p + 1) _) eqn:E; [|done]. intros [= <-]. constructor; [done|]. by apply Hnz.
Qed.

(** A static string that leaves room for its terminator. *)
Lemma puts_string bs :
  PB_LTYPE (type f) = PB_LTYPE_STRING -> PB_ATYPE (type f) = PB_ATYPE_STATIC -> v = WBytes bs ->
  zlen bs < data_size f -> 0 < a -> a1 <> 0 -> puts rd pb_dec_string f a (data_size f) v.
Proof.
  intros Hty Hst -> Hlen Ha Ha1 m c Hm. unfold read_value in *. rewrite Hty, Hst in *.
  cbn -[load_bytes c_strnlen] in Hread |- *. change (PB_ATYPE_STATIC =? PB_ATYPE_POINTER) with false in *.
  destruct (Z.eqb_spec a1 0); [done|]. apply bind_Some in Hread as (sz & Hn & Hread).
  apply fmap_Some in Hread as (bs' & Hbs & [= <-]). unfold c_strnlen in Hn.
  destruct (strnlen_loop _ _ _ _ _) as [r| |] eqn:Er; cbn in Hn; [|done..].
  injection Hn as ->. apply strnlen_result in Er as [Hr Hnz]; [|lia]. rewrite Z.sub_0_r in Hnz. specialize (Hnz _ Hbs).
  unfold PB_SIZE_MAX in *.
  destruct (decodes_read_into a m c bs Ha) as (m2 & Hr2 & E2); [eapply mapped_sub; [done|lia]|].
  destruct (store_bytes_mapped m2 (a + zlen bs) [0]) as [m3 E3].
  { intros i Hi. cbn in Hi. eapply (store_bytes_keeps_mapped _ _ _ _ a); [exact E2|exact Hm|lia]. }
  pose proof (store_bytes_spec _ _ _ _ E2) as ([Hb2 Hd2] & _ & _).
  pose proof (store_bytes_spec _ _ _ _ E3) as ([Hb3 Hd3] & _ & Hv3). cbn in Hd3.
  exists m3. split_and!.
  - unfold delimited, pb_dec_string. eapply decodes_bind; [by apply decodes_read, reads_varint32; lia|].
    rewrite u32_small by lia. destruct (Z.ltb_spec (zlen bs + 1) (zlen bs)); [lia|].
    unfold string_dest. rewrite Hst. change (PB_ATYPE_STATIC =? PB_ATYPE_POINTER) with false.
    destruct (Z.ltb_spec (data_size f) (zlen bs + 1)); [lia|].
    eapply decodes_bind_nil_l; [apply decodes_ret|].
    eapply (decodes_bind_nil _ _ _ _ (Some tt) (m2, c)).
    { intros rest left msg Hle. unfold dec_status. by rewrite Hr2. }
    eapply decodes_bind_nil_l; [|by apply decodes_ret]. apply decodes_store. rewrite <- E3. cbn.
    by destruct (store_byte _ _ _).
  - split; [congruence|]. intros i Hi. rewrite Hd3, Hd2 by lia. done.
  - destruct (Z.eqb_spec a 0); [lia|].
    assert (Hl3 : load_bytes m3 a (length bs) = Some bs).
    { rewrite (load_store_bytes_disj _ _ _ _ _ _ E3) by lia. by apply (load_store_bytes _ _ _ _ E2). }
    assert (Hz : load_byte m3 (a + zlen bs) = Some 0).
    { specialize (Hv3 0%nat 0 eq_refl). rewrite Z.add_0_r in Hv3. unfold load_byte. by rewrite Hv3. }
    unfold c_strnlen. erewrite (strnlen_stop _ m3 a 0 _ bs); try done.
    + rewrite Z.add_0_l. cbn [done_value mbind option_bind]. rewrite Nat2Z.id. by rewrite Hl3.
    + apply le_n_S, (mapped_size m3 a). eapply mapped_sub; [|].
      * eapply store_bytes_keeps_mapped; [exact E3|]. eapply store_bytes_keeps_mapped; [exact E2|exact Hm].
      * lia.
Qed.
End Values.

Lemma puts_mono rd func f a n k v : puts rd func f a n v -> 0 <= n <= k -> puts rd func f a k v.
Proof.
  intros Hp Hnk m c Hm. destruct (Hp m c) as (m' & ? & ? & ?); [by eapply mapped_sub|].
  exists m'. split_and!; [done|by eapply only_differ_sub|done].
Qed.

(** Descriptors of one static value: a bytes field has room for its length. *)
Definition value_sound (f : pb_field) : Prop :=
  PB_ATYPE (type f) = PB_ATYPE_STATIC /\ PB_LTYPE (type f) <> PB_LTYPE_SUBMESSAGE /\
  PB_LTYPE (type f) <> PB_LTYPE_EXTENSION /\
  (PB_LTYPE (type f) = PB_LTYPE_BYTES -> bytes_array_bytes_off <= data_size f).

(** A string that fills its array, so that no terminator follows it. *)
Definition string_full (f : pb_field) (v : wval) : bool :=
  match v with
  | WBytes bs => (PB_LTYPE (type f) =? PB_LTYPE_STRING) && (data_size f <=? zlen bs)
  | _ => false
  end.

(** What [pb_dec_string] says of it: the size with the terminator is computed
    in 32 bits and wraps for the longest string. *)
Definition string_refusal (n : Z) : string :=
  if n =? 2 ^ 32 - 1 then "size too large" else "string overflow".

Lemma dec_string_full f a bs rest left st :
  PB_ATYPE (type f) = PB_ATYPE_STATIC -> data_size f <= zlen bs < 2 ^ 32 -> zlen (delimited bs) <= left ->
  exists s', pb_dec_string (S := S) f a (PbIStream (SrcBuffer (delimited bs ++ rest)) left None) st =
    Done (None, s', st) /\ ierrmsg s' = Some (string_refusal (zlen bs)).
Proof.
  intros Hst Hlen Hle. unfold delimited in *. rewrite length_app in Hle. rewrite <- app_assoc.
  unfold pb_dec_string, mbind, dec_bind, dec_read. rewrite reads_varint32 by lia. cbn [mbind outcome_bind].
  unfold string_refusal. destruct (Z.eqb_spec (zlen bs) (2 ^ 32 - 1)) as [E|].
  - rewrite E. eexists. split; reflexivity.
  - rewrite u32_small by lia. destruct (Z.ltb_spec (zlen bs + 1) (zlen bs)); [lia|].
    unfold string_dest. rewrite Hst. change (PB_ATYPE_STATIC =? PB_ATYPE_POINTER) with false. cbv iota.
    destruct (Z.ltb_spec (data_size f) (zlen bs + 1)); [|lia]. eexists. split; reflexivity.
Qed.

(** What is read from a static string field is no longer than the field. *)
Lemma read_string_bound rd m f a bs :
  0 <= data_size f -> PB_ATYPE (type f) = PB_ATYPE_STATIC -> PB_LTYPE (type f) = PB_LTYPE_STRING -> a <> 0 ->
  read_value rd m f a = Some (WBytes bs) -> zlen bs <= data_size f.
Proof.
  intros Hds Hst Hty Ha Hread. unfold read_value in Hread. rewrite Hty, Hst in Hread.
  cbn -[c_strnlen load_bytes] in Hread. destruct (Z.eqb_spec a 0); [done|].
  apply bind_Some in Hread as (k & Hn & Hread). apply fmap_Some in Hread as (bs' & Hbs & [= <-]).
  destruct (c_strnlen m a (data_size f)) eqn:Es; [|done..]. injection Hn as ->. unfold c_strnlen in Es.
  destruct (strnlen_result _ _ _ _ _ _ Es ltac:(lia)) as [Hr _]. apply load_bytes_length in Hbs. lia.
Qed.

(** The table's decoder puts back what was read, in the room of one value. *)
Lemma puts_value rd dec_msg fuel m1 f a1 a v func :
  mem_ok m1 -> field_ok f -> value_sound f -> string_full f v = false -> a1 <> 0 -> 0 < a ->
  read_value (rd m1) m1 f a1 = Some v ->
  PB_DECODERS dec_msg fuel !! Z.to_nat (PB_LTYPE (type f)) = Some (Some func) ->
  puts rd func f a (value_width f) v.
Proof.
  intros Hm1 (_ & (_ & Hlt) & _ & _ & Hds & _) (Hst & Hns & Hne & Hby) Hstr Ha1 Ha Hread Hfunc.
  assert (0 <= PB_LTYPE (type f)) by (apply Z.land_nonneg; right; unfold PB_LTYPE_MASK; lia).
  unfold PB_LTYPES_COUNT, PB_LTYPE_SUBMESSAGE, PB_LTYPE_EXTENSION in *.
  assert (exists i : nat, (i < 11)%nat /\ i <> 8%nat /\ i <> 9%nat /\ PB_LTYPE (type f) = Z.of_nat i) as (i & Hi & Hi8 & Hi9 & E).
  { exists (Z.to_nat (PB_LTYPE (type f))). lia. }
  rewrite E, Nat2Z.id in Hfunc.
  destruct i as [|[|[|[|[|[|[|[|[|[|[|i]]]]]]]]]]]; try lia; cbn in Hfunc; injection Hfunc as <-;
    unfold value_width; rewrite E;
    match goal with |- context [min_width ?x] =>
      let w := eval vm_compute in (min_width x) in change (min_width x) with w end;
    eapply puts_mono.
  - eapply puts_bool; eauto. - lia.
  - eapply puts_varint; eauto. - lia.
  - eapply puts_uvarint; eauto. - lia.
  - eapply puts_svarint; eauto. - lia.
  - eapply puts_fixed32; eauto. - lia.
  - eapply puts_fixed64; eauto. - lia.
  - eapply puts_bytes; eauto. - lia.
  - assert (exists bs, v = WBytes bs) as [bs Ev].
    { unfold read_value in Hread. rewrite E in Hread. cbn -[c_strnlen load_bytes] in Hread.
      destruct (a1 =? 0); [injection Hread as <-; by exists []|]. apply bind_Some in Hread as (? & _ & Hread).
      apply fmap_Some in Hread as (? & _ & ->). eauto. }
    eapply puts_string; eauto; subst v; cbn [string_full] in Hstr; rewrite E in Hstr; change (Z.of_nat 7 =? PB_LTYPE_STRING) with true in Hstr; cbn [andb] in Hstr; lia.
  - lia.
  - eapply puts_fixed_length; eauto. - lia.
Qed.
End RoundTrip.
