(* ===== verification/PbDecodeSpec.v ===== *)
(** * PbDecodeSpec: pieces of the decoder against their specifications.

    Allocation sizes, the bitmap of required fields, the range checks of the
    integer fields and the isolation of substreams. *)

From Stdlib Require Import ZifyBool.
From stdpp Require Import base tactics numbers list gmap strings.
From S2P Require Import Prelude Mem PbTypes PbCommon PbOStream PbWire PbEncode PbEncodeSpec PbIStream PbDecode PbDecodeSafe PbRoundTrip.
Open Scope Z_scope.

(** ** The bitmap of required fields *)

(** [fields_seen] as one 64-bit set. *)
Definition seen_bits (x : dlocals) : Z := seen0 x + 2 ^ 32 * seen1 x.
Definition seen_ok (x : dlocals) : Prop := word32 (seen0 x) /\ word32 (seen1 x).

Lemma seen_testbit x i : seen_ok x -> 0 <= i ->
  Z.testbit (seen_bits x) i = if i <? 32 then Z.testbit (seen0 x) i else Z.testbit (seen1 x) (i - 32).
Proof.
  intros [H0 H1] Hi. unfold seen_bits. rewrite Z.mul_comm, <- lor_shiftl_add, Z.lor_spec, Z.shiftl_spec by (done || lia).
  destruct (Z.ltb_spec i 32).
  - rewrite (Z.testbit_neg_r _ (i - 32)) by lia. apply orb_false_r.
  - rewrite <- (Z.mod_small (seen0 x) (2 ^ 32)) by done. by rewrite Z.mod_pow2_bits_high by lia.
Qed.

Lemma bit_word i : 0 <= i < 32 -> u32 (Z.shiftl 1 i) = 2 ^ i.
Proof.
  intros. rewrite Z.shiftl_mul_pow2, Z.mul_1_l by lia. apply u32_small. split; [lia|].
  apply Z.pow_lt_mono_r; lia.
Qed.

(** Marking a field adds its index, and nothing else, to the set. *)
Lemma mark_seen_spec x f :
  seen_ok x -> 0 <= required_field_index (iter x) ->
  seen_ok (mark_seen x f) /\
  forall i, 0 <= i -> Z.testbit (seen_bits (mark_seen x f)) i =
    Z.testbit (seen_bits x) i ||
    (is_required f && (required_field_index (iter x) <? PB_MAX_REQUIRED_FIELDS) && (i =? required_field_index (iter x))).
Proof.
  intros Hx Hidx. set (k := required_field_index (iter x)) in *. unfold mark_seen, is_required. cbv zeta. fold k.
  unfold PB_MAX_REQUIRED_FIELDS. destruct (PB_HTYPE (type f) =? PB_HTYPE_REQUIRED); cbn [andb];
    [|split; [done|]; intros; by rewrite orb_false_r].
  destruct (Z.ltb_spec k 64); cbn [andb]; [|split; [done|]; intros; by rewrite orb_false_r].
  pose proof (Z.mod_pos_bound k 32 ltac:(lia)) as Hmod. pose proof (Z.div_mod k 32 ltac:(lia)) as Hdm.
  change 31 with (2 ^ 5 - 1). rewrite land_low_bits, Z.shiftr_div_pow2 by lia. change (2 ^ 5) with 32.
  rewrite bit_word by lia.
  assert (0 <= 2 ^ (k mod 32) < 2 ^ 32) by (split; [lia|apply Z.pow_lt_mono_r; lia]).
  destruct Hx as [Hw0 Hw1]. destruct (Z.eqb_spec (k / 32) 0) as [E|E].
  - assert (Hok : seen_ok (DLocals (Z.lor (seen0 x) (2 ^ (k mod 32))) (seen1 x) (iter x)
      (extension_range_start x) (fixed_count_field x))) by (split; [by apply (lor_word 32)|done]).
    split; [done|]. intros i Hi. rewrite !seen_testbit by done. cbn [seen0 seen1].
    destruct (Z.ltb_spec i 32).
    + rewrite Z.lor_spec, Z.pow2_bits_eqb by lia. f_equal. destruct (Z.eqb_spec (k mod 32) i), (Z.eqb_spec i k); lia.
    + destruct (Z.eqb_spec i k); [lia|]. by rewrite orb_false_r.
  - assert (k / 32 < 2) by (apply Z.div_lt_upper_bound; lia).
    assert (0 <= k / 32) by (apply Z.div_pos; lia).
    assert (Hok : seen_ok (DLocals (seen0 x) (Z.lor (seen1 x) (2 ^ (k mod 32))) (iter x)
      (extension_range_start x) (fixed_count_field x))) by (split; [done|by apply (lor_word 32)]).
    split; [done|]. intros i Hi. rewrite !seen_testbit by done. cbn [seen0 seen1].
    destruct (Z.ltb_spec i 32).
    + destruct (Z.eqb_spec i k); [lia|]. by rewrite orb_false_r.
    + rewrite Z.lor_spec, Z.pow2_bits_eqb by lia. f_equal. destruct (Z.eqb_spec (k mod 32) (i - 32)), (Z.eqb_spec i k); lia.
Qed.

(** The two-word comparison is one comparison of the 64-bit sets. *)
Lemma all_seen_mask req x :
  0 <= req <= 64 -> seen_ok x -> seen_bits x < 2 ^ req ->
  all_seen req (seen0 x) (seen1 x) = true <-> seen_bits x = 2 ^ req - 1.
Proof.
  intros Hreq [Hw0 Hw1] Hlt. unfold seen_bits, word32 in *. unfold all_seen.
  change 31 with (2 ^ 5 - 1). rewrite Z.shiftr_div_pow2, land_low_bits by lia. change (2 ^ 5) with 32.
  destruct (Z.ltb_spec 0 req); [|assert (req = 0) as -> by lia; change (2 ^ 0) with 1 in *; lia].
  assert (req < 32 \/ req = 32 \/ 32 < req < 64 \/ req = 64) as [Hc|[->|[Hc| ->]]] by lia.
  - rewrite (Z.div_small req), (Z.mod_small req) by lia. change (seq 0 (Z.to_nat 0)) with ([] : list nat). cbn [forallb andb].
    destruct (Z.eqb_spec req 0); [lia|]. cbn [orb Z.eqb].
    replace (Z.shiftr (2 ^ 32 - 1) (32 - req)) with (2 ^ req - 1).
    + assert (2 ^ req <= 2 ^ 31) by (apply Z.pow_le_mono_r; lia).
      assert (seen1 x = 0) as -> by lia. lia.
    + rewrite Z.shiftr_div_pow2 by lia.
      replace (2 ^ 32) with (2 ^ req * 2 ^ (32 - req)) by (rewrite <- Z.pow_add_r by lia; f_equal; lia).
      assert (0 < 2 ^ (32 - req)) by lia. apply Z.div_unique with (r := 2 ^ (32 - req) - 1); nia.
  - change (32 / 32) with 1. change (32 mod 32) with 0. change (seq 0 (Z.to_nat 1)) with [0%nat].
    cbn [forallb orb]. change (Z.of_nat 0 =? 0) with true. change (0 =? 0) with true. cbn [orb]. rewrite !andb_true_r. lia.
  - assert (req / 32 = 1) as -> by (symmetry; apply Z.div_unique with (r := req - 32); lia).
    assert (req mod 32 = req - 32) as -> by (symmetry; apply Z.mod_unique with (q := 1); lia).
    change (seq 0 (Z.to_nat 1)) with [0%nat]. cbn [forallb]. change (Z.of_nat 0 =? 0) with true. change (1 =? 0) with false.
    cbv iota. rewrite andb_true_r.
    destruct (Z.eqb_spec (req - 32) 0); [lia|]. cbn [orb].
    replace (Z.shiftr (2 ^ 32 - 1) (32 - (req - 32))) with (2 ^ (req - 32) - 1).
    + replace (2 ^ req) with (2 ^ 32 * 2 ^ (req - 32)) in * by (rewrite <- Z.pow_add_r by lia; f_equal; lia). lia.
    + rewrite Z.shiftr_div_pow2 by lia.
      replace (2 ^ 32) with (2 ^ (req - 32) * 2 ^ (32 - (req - 32))) by (rewrite <- Z.pow_add_r by lia; f_equal; lia).
      assert (0 < 2 ^ (32 - (req - 32))) by lia. apply Z.div_unique with (r := 2 ^ (32 - (req - 32)) - 1); nia.
  - change (64 / 32) with 2. change (64 mod 32) with 0. change (seq 0 (Z.to_nat 2)) with [0%nat; 1%nat].
    cbn [forallb]. change (Z.of_nat 0 =? 0) with true. change (Z.of_nat 1 =? 0) with false.
    change (0 =? 0) with true. cbn [orb]. rewrite !andb_true_r. lia.
Qed.

Lemma bits_below z n : 0 <= n -> (forall i, n <= i -> Z.testbit z i = false) -> 0 <= z < 2 ^ n.
Proof.
  intros Hn Hz. replace z with (z mod 2 ^ n); [apply Z.mod_pos_bound; lia|].
  apply Z.bits_inj'. intros i Hi. destruct (Z.lt_ge_cases i n).
  - by rewrite Z.mod_pow2_bits_low.
  - rewrite Z.mod_pow2_bits_high by lia. symmetry. by apply Hz.
Qed.

Lemma bits_all z n : 0 <= n -> 0 <= z < 2 ^ n -> z = 2 ^ n - 1 <-> forall i, 0 <= i < n -> Z.testbit z i = true.
Proof.
  intros Hn Hz. replace (2 ^ n - 1) with (Z.ones n) by (rewrite Z.ones_equiv; lia). split.
  - intros -> i Hi. apply Z.ones_spec_low. lia.
  - intros Hall. apply Z.bits_inj'. intros i Hi. destruct (Z.lt_ge_cases i n).
    + rewrite Hall, Z.ones_spec_low by lia. done.
    + rewrite Z.ones_spec_high by lia. rewrite <- (Z.mod_small z (2 ^ n)) by done. by rewrite Z.mod_pow2_bits_high by lia.
Qed.

(** The rounds of the main loop that find a field: the iterator there, and
    the field. *)
Definition visit (x : dlocals) (it : pb_field_iter) (f : pb_field) : dlocals :=
  mark_seen (DLocals (seen0 x) (seen1 x) it (extension_range_start x) (fixed_count_field x)) f.

Definition visit_all (x : dlocals) (visits : list (pb_field_iter * pb_field)) : dlocals :=
  fold_left (fun x '(it, f) => visit x it f) visits x.

(** Field number [i] among the required ones was found. *)
Definition visited (i : Z) (visits : list (pb_field_iter * pb_field)) : Prop :=
  exists it f, (it, f) ∈ visits /\ is_required f = true /\ required_field_index it = i.

Lemma visit_all_bits x visits :
  seen_ok x -> Forall (fun '(it, f) => 0 <= required_field_index it < PB_MAX_REQUIRED_FIELDS) visits ->
  seen_ok (visit_all x visits) /\
  forall i, 0 <= i -> Z.testbit (seen_bits (visit_all x visits)) i = true <->
    Z.testbit (seen_bits x) i = true \/ visited i visits.
Proof.
  revert x. induction visits as [|[it f] visits IH]; intros x Hx Hall; cbn.
  - split; [done|]. intros i Hi. split; [by left|]. intros [?|(? & ? & Hin & _)]; [done|by apply elem_of_nil in Hin].
  - inversion Hall as [|? ? Hit Hall']; subst. set (y := DLocals (seen0 x) (seen1 x) it (extension_range_start x) (fixed_count_field x)).
    destruct (mark_seen_spec y f) as [Hy Hbits]; [exact Hx|cbn; lia|].
    destruct (IH (visit x it f) Hy Hall') as [Hok Hi']. split; [done|]. intros i Hi. rewrite Hi' by done.
    unfold visit. fold y. rewrite Hbits by done. change (seen_bits y) with (seen_bits x). cbn [iter y].
    unfold visited. setoid_rewrite elem_of_cons. rewrite orb_true_iff, !andb_true_iff, Z.eqb_eq, Z.ltb_lt. split.
    + intros [[?|((? & ?) & ->)]|(it' & f' & ? & ?)]; [by left|right; by exists it, f; auto|right; exists it', f'; tauto].
    + intros [?|(it' & f' & [[= -> ->]|?] & ? & <-)]; [by left; left|left; right; split; [split|]; (done || lia)|].
      right. by exists it', f'.
Qed.

Lemma all_seen_visited req x visits :
  0 <= req <= 64 -> seen0 x = 0 -> seen1 x = 0 ->
  Forall (fun '(it, f) => 0 <= required_field_index it < req) visits ->
  let y := visit_all x visits in
  all_seen req (seen0 y) (seen1 y) = true <-> forall i, 0 <= i < req -> visited i visits.
Proof.
  intros Hreq H0 H1 Hall y. unfold PB_MAX_REQUIRED_FIELDS in *.
  assert (Hx : seen_ok x) by (split; rewrite ?H0, ?H1; unfold word32; lia).
  assert (Hz : forall i, Z.testbit (seen_bits x) i = false).
  { intros i. unfold seen_bits. rewrite H0, H1. apply Z.bits_0. }
  destruct (visit_all_bits x visits Hx) as [Hy Hbits].
  { eapply Forall_impl; [exact Hall|]. intros [it f] ?. unfold PB_MAX_REQUIRED_FIELDS. lia. }
  fold y in Hy, Hbits.
  assert (Hlt : 0 <= seen_bits y < 2 ^ req).
  { apply bits_below; [lia|]. intros i Hi. apply not_true_is_false. rewrite Hbits by lia. rewrite Hz.
    intros [?|(it & f & Hin & _ & <-)]; [done|]. rewrite Forall_forall in Hall. specialize (Hall _ Hin). cbn in Hall. lia. }
  rewrite all_seen_mask by (done || lia). rewrite bits_all by (done || lia).
  split; intros HH i Hi; specialize (HH i Hi).
  - apply Hbits in HH as [HH|]; [by rewrite Hz in HH|done|lia].
  - apply Hbits; [lia|]. by right.
Qed.

(** ** The number of required fields *)

Definition count_required (l : list pb_field) : Z := zlen (filter (fun f => is_required f = true) l).

Lemma required_count_spec l dest it :
  dest <> 0 -> Forall field_ok l -> zlen l < 2 ^ 32 - 1 -> cur_iter l dest it ->
  required_count it = Done (Z.min PB_MAX_REQUIRED_FIELDS (count_required l)).
Proof.
  intros Hd Hok Hlen [[i Hon]|[-> ->]]; [|done]. unfold required_count.
  pose proof Hon as (? & ? & ? & ? & Hf & _ & Hs & _).
  destruct (seek_end_on l dest Hd Hok Hlen (length (start it)) i it Hon)
    as (f & pd & ps & req & it' & -> & Hlast & Hlay & Hat); [rewrite Hs, length_app; lia|].
  cbn [mbind outcome_bind]. pose proof Hat as (pd0 & ps0 & req0 & Hlay0 & ->).
  apply lookup_lt_Some in Hlay0. rewrite length_struct_layout in Hlay0.
  destruct (lookup_lt_is_Some_2 l 0 Hlay0) as [f0 Hf0].
  unfold at_pos. cbn [start pos]. rewrite (last_lookup _ _ _ Hf0). cbn [demand mbind outcome_bind].
  rewrite field_ok_tag by by eapply Forall_lookup_1. cbn [negb]. rewrite andb_true_r.
  apply struct_layout_req in Hlay. rewrite list.last_lookup in Hlast.
  unfold count_required. rewrite <- (take_drop (pred (length l)) l) at 1.
  erewrite (drop_S l) by exact Hlast. rewrite drop_ge by lia.
  rewrite filter_app, length_app. pose proof (length_filter (fun f => is_required f = true) (take (pred (length l)) l)) as Hle.
  rewrite length_take in Hle. rewrite filter_cons, filter_nil. unfold is_required in *.
  unfold PB_MAX_REQUIRED_FIELDS. destruct (Z.eqb_spec (PB_HTYPE (type f)) PB_HTYPE_REQUIRED); cbn [andb];
    [rewrite decide_True by done|rewrite decide_False by done]; cbn [length]; rewrite ?u32_small by lia;
    repeat case_match; f_equal; lia.
Qed.

(** ** Allocation *)

Section Alloc.
Context {S : Type} `{Source S} `{AllocatorOk}.

(** The guard of [allocate_field] is exactly "the product overflows". *)
Lemma size_guard data_size array_size :
  0 < data_size < 2 ^ 64 -> 0 < array_size < 2 ^ 64 ->
  ((2 ^ 32 <=? data_size) || (2 ^ 32 <=? array_size)) && ((2 ^ 64 - 1) / array_size <? data_size)
  = (2 ^ 64 <=? array_size * data_size).
Proof.
  intros Hd Ha. pose proof (Z.div_mod (2 ^ 64 - 1) array_size ltac:(lia)) as Hdm.
  pose proof (Z.mod_pos_bound (2 ^ 64 - 1) array_size ltac:(lia)).
  set (q := (2 ^ 64 - 1) / array_size) in *.
  destruct (Z.ltb_spec q data_size) as [Hq|Hq]; cycle 1.
  - rewrite andb_false_r. symmetry. apply Z.leb_gt. nia.
  - rewrite andb_true_r. assert (2 ^ 64 <= array_size * data_size) by nia.
    rewrite (proj2 (Z.leb_le (2 ^ 64) (array_size * data_size))) by done.
    apply orb_true_iff. rewrite !Z.leb_le.
    destruct (Z.le_gt_cases (2 ^ 32) data_size); [by left|right]. nia.
Qed.

(** [realloc]'s new block. *)
Lemma realloc_block m p k q m' :
  c_realloc m p k = Done (q, m') -> q <> 0 ->
  0 < q /\ q + k <= 2 ^ 64 /\ mblocks m' !! q = Some k /\
  forall p', p' <> p -> p' <> q -> mblocks m' !! p' = mblocks m !! p'.
Proof.
  unfold c_realloc. destruct (Z.eqb_spec p 0) as [->|Hp].
  - destruct (alloc_choose m k) as [a|] eqn:Ea; intros [= <- <-] Hq; [|done]. cbn.
    destruct (alloc_nonnull _ _ _ Ea). split_and!; try done; [apply lookup_insert_eq|].
    intros p' Hp' Hq'. by apply lookup_insert_ne.
  - destruct (mblocks m !! p) as [old|] eqn:Ep; cbn; [|done].
    unfold c_free. destruct (Z.eqb_spec p 0); [done|]. rewrite Ep. cbn.
    destruct (alloc_choose _ k) as [a|] eqn:Ea; [|by intros [= <- <-]].
    destruct (alloc_nonnull _ _ _ Ea) as [? ?]. intros [= <- <-] Hq. cbn.
    split_and!; try done; [apply lookup_insert_eq|].
    intros p' Hp' Hq'. by rewrite lookup_insert_ne, lookup_delete_ne by done.
Qed.

Lemma allocate_field_spec pd ds n s m c r s' m' c' :
  0 <= ds < 2 ^ 64 -> 0 <= n < 2 ^ 64 ->
  allocate_field (S := S) pd ds n s (m, c) = Done (r, s', (m', c')) ->
  (2 ^ 64 <= n * ds -> r = None /\ m' = m) /\
  (r = Some tt -> exists q, 0 < q /\ q + n * ds <= 2 ^ 64 /\ load_ptr m' pd = Some q /\ mblocks m' !! q = Some (n * ds)).
Proof.
  intros Hd Hn. unfold allocate_field, mbind, dec_bind, dec_act, act_load, act_mem. cbn [fst snd].
  destruct (load_ptr m pd) as [p|]; cbn [demand mbind outcome_bind]; [|done].
  destruct (Z.eqb_spec ds 0); [intros [= <- _ <- _]; split; [auto|done]|].
  destruct (Z.eqb_spec n 0); [intros [= <- _ <- _]; split; [auto|done]|].
  cbn [orb]. rewrite size_guard by lia. destruct (Z.leb_spec (2 ^ 64) (n * ds)).
  { intros [= <- _ <- _]. split; [auto|done]. }
  rewrite u64_small by lia. cbn [fst snd]. destruct (c_realloc m p (n * ds)) as [[q m1]| |] eqn:Er; cbn [mbind outcome_bind]; [|done..].
  destruct (Z.eqb_spec q 0); [intros [= <- _ _ _]; split; [lia|done]|].
  unfold act_store. cbn [fst snd]. destruct (store_ptr m1 pd q) as [m2|] eqn:Es; cbn [demand mbind outcome_bind]; [|done].
  intros [= <- _ <- _]. split; [lia|]. intros _. exists q.
  destruct (realloc_block _ _ _ _ _ Er) as (? & ? & Hb & _); [done|]. split_and!; try done.
  - eapply (load_store_uint 8); [exact Es|]. change (256 ^ Z.of_nat 8) with (2 ^ 64). lia.
  - unfold store_ptr, store_uint in Es. apply store_bytes_spec in Es as ([-> _] & _). done.
Qed.
End Alloc.

(** ** Integer fields: stored exactly, or refused *)

Section Ints.
Context {S : Type} `{Source S}.

Lemma uvarint_range k f a m c v rest left :
  data_size f = Z.of_nat k -> int_width k -> mapped m a (Z.of_nat k) -> 0 <= v < 2 ^ 64 ->
  zlen (wire_varint v) <= left ->
  exists m', pb_dec_uvarint (S := S) f a (PbIStream (SrcBuffer (wire_varint v ++ rest)) left None) (m, c) =
      Done (if v <? 256 ^ Z.of_nat k then Some tt else None,
            PbIStream (SrcBuffer rest) (left - zlen (wire_varint v))
              (if v <? 256 ^ Z.of_nat k then None else Some "integer too large"%string), (m', c)) /\
    only_differ m m' a (Z.of_nat k) /\ load_uint k m' a = Some (wrap (8 * Z.of_nat k) v).
Proof.
  intros Hds Hk Hm Hv Hle. destruct (store_uint_mapped k m a (wrap (8 * Z.of_nat k) v) Hm) as (m' & Est & Hd & Hl).
  exists m'. split; [|split; [done|]; unfold load_uint; rewrite Hl; cbn; f_equal; apply le_bytes_small, wrap_byte_width]. unfold pb_dec_uvarint, mbind, dec_bind, dec_read. rewrite reads_varint by done.
  cbn [mbind outcome_bind]. rewrite Hds.
  assert (Hw : wrap (8 * Z.of_nat k) v = v <-> v < 256 ^ Z.of_nat k).
  { unfold wrap. rewrite Z.pow_mul_r by lia. change (2 ^ 8) with 256.
    pose proof (Z.mod_pos_bound v (256 ^ Z.of_nat k) ltac:(lia)). split; [lia|]. intros. apply Z.mod_small. lia. }
  assert (Hrun : forall s, store_clamped (S := S) wrap (Z.of_nat k) a v s (m, c) =
    if wrap (8 * Z.of_nat k) v =? v then Done (Some tt, s, (m', c))
    else dec_error "integer too large" s (m', c)).
  { intros s.
    assert (Hst' : store_int (S := S) k a v s (m, c) = Done (Some tt, s, (m', c))).
    { unfold store_int, dec_act, act_store. cbn [fst snd]. by rewrite Est. }
    unfold store_clamped, mbind, dec_bind.
    destruct Hk as [->|[->|[->| ->]]];
      repeat match goal with |- context [Z.of_nat ?j =? ?z] =>
        let b := eval vm_compute in (Z.of_nat j =? z) in change (Z.of_nat j =? z) with b end;
      cbv iota beta; rewrite Hst'; cbn [mbind outcome_bind]; unfold mret, dec_ret; cbn [mbind outcome_bind];
      (destruct (_ =? v); reflexivity). }
  rewrite Hrun. destruct (Z.eqb_spec (wrap (8 * Z.of_nat k) v) v) as [E|E].
  - destruct (Z.ltb_spec v (256 ^ Z.of_nat k)); [done|lia].
  - destruct (Z.ltb_spec v (256 ^ Z.of_nat k)); [|done]. exfalso. apply E. by apply Hw.
Qed.
End Ints.

(** ** Substreams *)

Section Substream.
Context {S : Type} `{Source S}.

(** What the reader takes from the source it also takes from the limit. *)
Definition counts_exactly {A} (r : rd S A) : Prop :=
  forall rest left msg o s', 0 <= left <= zlen rest -> Forall is_byte rest ->
    r (PbIStream (SrcBuffer rest) left msg) = Done (o, s') ->
    exists k, source s' = SrcBuffer (drop k rest) /\ bytes_left s' = left - Z.of_nat k /\ 0 <= bytes_left s'.

Lemma substream_isolated {A} (r : rd S A) (P : A -> Prop) body rest left msg :
  robust r P -> counts_exactly r -> zlen body < 2 ^ 32 -> Forall is_byte (body ++ rest) ->
  zlen (delimited body) <= left <= zlen (delimited body ++ rest) ->
  exists sub s1 o sub1 s2,
    pb_make_string_substream (PbIStream (SrcBuffer (delimited body ++ rest)) left msg) = Done (Some sub, s1) /\
    bytes_left sub = zlen body /\ r sub = Done (o, sub1) /\
    pb_close_string_substream sub1 s1 = Done (Some tt, s2) /\
    source s2 = SrcBuffer rest /\ bytes_left s2 = left - zlen (delimited body).
Proof.
  intros Hr Hc Hlen Hb Hle. unfold delimited in *. rewrite <- app_assoc, !length_app in *.
  unfold pb_make_string_substream, mbind, rd_bind. rewrite reads_varint32 by lia.
  cbn [mbind outcome_bind]. unfold split_stream. cbn [bytes_left source ierrmsg].
  destruct (Z.ltb_spec (left - zlen (wire_varint (zlen body))) (zlen body)); [lia|].
  set (sub := PbIStream (SrcBuffer (body ++ rest)) (zlen body) msg).
  assert (Hsub : buffered sub) by (split; [cbn; rewrite length_app; lia|done]).
  destruct (Hr sub Hsub) as (o & sub1 & E & _ & _).
  destruct (Hc (body ++ rest) (zlen body) msg o sub1 ltac:(rewrite length_app; lia) Hb E) as (k & Hsrc & Hleft & Hpos).
  destruct sub1 as [src1 left1 msg1]. cbn in Hsrc, Hleft, Hpos. subst src1 left1.
  eexists sub, _, o, _, (PbIStream (SrcBuffer rest) (left - zlen (wire_varint (zlen body)) - zlen body) msg1).
  split; [reflexivity|]. split; [done|]. split; [exact E|].
  unfold pb_close_string_substream. cbn [bytes_left source].
  assert (Hdrop : drop (Z.to_nat (zlen body - Z.of_nat k)) (drop k (body ++ rest)) = rest).
  { rewrite drop_drop. replace (k + Z.to_nat (zlen body - Z.of_nat k))%nat with (length body) by lia.
    apply drop_app_length. }
  destruct (Z.eqb_spec (zlen body - Z.of_nat k) 0) as [E0|N0]; cbn [negb].
  - cbn [mbind outcome_bind source ierrmsg bytes_left].
    rewrite E0 in Hdrop. change (drop (Z.to_nat 0) ?l) with l in Hdrop. rewrite Hdrop. split_and!; [done|done|lia].
  - unfold pb_read. cbn [is_buffer source negb andb]. destruct (Z.eqb_spec (zlen body - Z.of_nat k) 0); [done|].
    rewrite read_direct_buffer by (rewrite ?length_drop, ?length_app; lia). cbn [mbind outcome_bind source ierrmsg bytes_left].
    rewrite Hdrop. split_and!; [done|done|lia].
Qed.
End Substream.
