(* ===== verification/PbExample.v ===== *)
(** * PbExample: a concrete program.

    The descriptor arrays of two message types, laid out as the generator
    lays out their structs, used to instantiate the theorems:

    struct Inner  { int32 x; }
    struct Sample { int32 id;  bool has_n; uint32 n;  pb_size_t v_count; int32 v[3];
                    bool has_s; char s[8];  bool has_inner; Inner inner;
                    pb_size_t which_u; union { uint32 u1; bool u2; } }  *)

From Stdlib Require Import ZifyBool.
From stdpp Require Import base tactics numbers list gmap strings.
From S2P Require Import Prelude Mem PbTypes PbCommon PbOStream PbEncode PbIStream PbDecode PbDecodeSafe.
Open Scope Z_scope.

Definition Inner_fields : list pb_field :=
  [ PbField 1 0x01 0 0 4 0 PtrNull; PB_LAST_FIELD ].

Definition Sample_list : list pb_field :=
  [ PbField 1 0x01 0 0 4 0 PtrNull;
    PbField 2 0x12 4 (-4) 4 0 PtrNull;
    PbField 3 0x21 4 (-4) 4 3 PtrNull;
    PbField 4 0x17 1 (-1) 8 0 PtrNull;
    PbField 5 0x18 3 (-3) 4 0 (PtrFields 0);
    PbField 6 0x32 4 (-4) 4 0 PtrNull;
    PbField 7 0x30 PB_SIZE_MAX (-4) 1 0 PtrNull ].

Definition Sample_fields : list pb_field := Sample_list ++ [PB_LAST_FIELD].
Definition Sample_size : Z := 52.

#[export] Instance sample_program : PbProgram := {
  descriptors := [Inner_fields; Sample_fields];
  extension_types := ∅;
}.

(** No user functions. *)
#[export] Instance no_source : Source unit := { source_read := fun _ _ => Undef }.
#[export] Instance no_enc_callbacks S : EncCallbacks S := {
  enc_callback := fun _ _ _ _ _ => Undef;
  ext_encode_callback := fun _ _ _ _ => Undef;
}.
#[export] Instance no_dec_callbacks : DecCallbacks unit := {
  dec_callback := fun _ _ _ _ _ => Undef;
  ext_decode_callback := fun _ _ _ _ _ _ => Undef;
}.

(** id = 150, n = 5, v = {1, 2, -1}, s = "AB", inner.x = 9, u1 = 300. *)
Definition Sample_bytes : list Z :=
  [150; 0; 0; 0;  1; 0; 0; 0;  5; 0; 0; 0;  3; 0; 0; 0;  1; 0; 0; 0;  2; 0; 0; 0;  255; 255; 255; 255;
   1; 65; 66; 0; 0; 0; 0; 0; 0;  1; 0; 0;  9; 0; 0; 0;  6; 0; 0; 0;  44; 1; 0; 0].

Definition Sample_mem : mem := struct_mem 1000 Sample_bytes.

Lemma Sample_program_ok : program_ok.
Proof.
  intros [|[|i]] fields; cbn; [intros [= <-]|intros [= <-]|done]; (split; [|vm_compute; done]).
  - exists (take 1 Inner_fields). split; [done|]. repeat constructor; vm_compute; done.
  - exists Sample_list. split; [done|]. repeat constructor; vm_compute; done.
Qed.

Lemma Sample_mem_ok : mem_ok Sample_mem.
Proof. apply struct_mem_ok. repeat constructor; vm_compute; done. Qed.

(** The fields of a closed descriptor list, one by one, at their offsets. *)
Ltac each_fits :=
  match goal with |- Forall2 ?P ?l ?k =>
    let l' := eval vm_compute in l in let k' := eval vm_compute in k in change (Forall2 P l' k')
  end; repeat (apply Forall2_cons; split); [..|by apply Forall2_nil].

Ltac solve_fits :=
  unfold field_placed, inside; split_and!; try (vm_compute; done); try done;
  try (intros _; first [left; vm_compute; done | right; vm_compute; done | split; vm_compute; done]);
  try (intros; split_and!; vm_compute; done).

Lemma Inner_layout : static_layout 1 Inner_fields 4.
Proof.
  split; [lia|]. exists (take 1 Inner_fields). split; [done|].
  split; [repeat constructor; vm_compute; done|]. split; [vm_compute; done|].
  each_fits; solve_fits.
Qed.

Lemma Sample_layout : static_layout 2 Sample_fields Sample_size.
Proof.
  split; [vm_compute; done|]. exists Sample_list. split; [done|].
  split; [repeat constructor; vm_compute; done|]. split; [vm_compute; done|].
  assert (Hsub : ptr_fits (static_layout 1) (PbField 5 0x18 3 (-3) 4 0 (PtrFields 0))).
  { exists Inner_fields. split; [done|]. apply Inner_layout. }
  revert Hsub. generalize (static_layout 1). intros sub_ok Hsub.
  each_fits; solve_fits.
Qed.

(** No count is reset outside the structs of the sample. *)
Lemma Inner_resets : resets_fit 1 Inner_fields 4.
Proof.
  intros l Hl. assert (l = take 1 Inner_fields) as ->.
  { change (take 1 Inner_fields ++ [PB_LAST_FIELD] = l ++ [PB_LAST_FIELD]) in Hl. by apply app_inj_tail in Hl as [<- _]. }
  each_fits; (split; [vm_compute; done|]); by intros.
Qed.

Lemma Sample_resets : resets_fit 2 Sample_fields Sample_size.
Proof.
  intros l Hl. assert (l = Sample_list) as ->.
  { change (Sample_list ++ [PB_LAST_FIELD] = l ++ [PB_LAST_FIELD]) in Hl. by apply app_inj_tail in Hl as [<- _]. }
  pose proof Inner_resets as Hsub. revert Hsub. generalize (resets_fit 1). intros fit Hsub.
  each_fits; (split; [first [intros Hh; discriminate Hh|vm_compute; done|intros _ Hh; discriminate Hh]|]);
    first [intros Hh; discriminate Hh|intros _ sub [= <-]; exact Hsub].
Qed.
