(* ===== verification/PbEncodeTheorems.v ===== *)
(** * PbEncodeTheorems: what the encoder promises.

    The theorems on output, with the concrete program of [PbExample] as the
    instance that shows their hypotheses can be met. *)

From Stdlib Require Import ZifyBool.
From stdpp Require Import base tactics numbers list gmap strings.
From S2P Require Import Prelude Mem PbTypes PbCommon PbOStream PbWire PbEncode PbEncodeSpec PbExample.
Open Scope Z_scope.

(** A fresh stream into a [std::string]. *)
Definition string_stream (limit : Z) : pb_ostream (list Z) := PbOStream true [] limit 0 None.

Lemma string_stream_ok limit : 0 <= limit < 2 ^ 64 -> stream_ok 0 (string_stream limit).
Proof. intros. unfold stream_ok, stream_wf. cbn. split_and!; done || lia. Qed.

Lemma buffer_stream_ok buf : zlen buf < 2 ^ 64 -> stream_ok 0 (pb_ostream_from_buffer buf (zlen buf)).
Proof. intros. unfold stream_ok, stream_wf. cbn. split_and!; done || lia. Qed.

(** The fields present in the example struct. *)
Definition Sample_msg : list (Z * wval) :=
  [(1, WVarint 150); (2, WVarint 5); (3, WPacked [WVarint 1; WVarint 2; WVarint (2 ^ 64 - 1)]);
   (4, WBytes [65; 66]); (5, WMsg [(1, WVarint 9)]); (6, WVarint 300)].

Lemma Sample_read : read_msg 3 Sample_mem Sample_fields 1000 = Some Sample_msg.
Proof. vm_compute. reflexivity. Qed.

Lemma Sample_fields_ok : fields_ok Sample_fields /\ zlen Sample_fields <= 2 ^ 32.
Proof. by apply (Sample_program_ok 1%nat). Qed.

Section Encode.
Context {S : Type} `{LawfulSink S} `{PbProgram} `{!EncCallbacks S}.

(** C16: refinement of the wire format.  Whatever struct [pb_encode] is given,
    if the memory holds an abstract message [fs] there, the encoder succeeds on
    every stream with room and appends exactly the wire format of [fs], field
    by field in descriptor order. *)
Theorem encode_refines_wire fuel m fields dest fs s :
  program_ok -> mem_ok m -> fields_ok fields -> zlen fields <= 2 ^ 32 -> dest <> 0 ->
  read_msg fuel m fields dest = Some fs -> zlen (wire_msg fs) < 2 ^ 64 ->
  stream_ok 0 s -> callback s = true -> room s (zlen (wire_msg fs)) = true ->
  exists s', pb_encode fuel m fields dest s = Done (true, s') /\
    sink_content (state s') = sink_content (state s) ++ wire_msg fs /\
    bytes_written s' = bytes_written s + zlen (wire_msg fs).
Proof.
  intros Hp Hm Hf Hn Hd Hr Hz Hs Hc Hroom. destruct (pb_encode_emits fuel m fields dest fs Hp Hm Hf Hn Hd Hr Hz 0 s Hs) as [Ht _].
  destruct (Ht Hroom) as (s' & E & Hadv). exists s'. destruct Hadv as (_ & _ & _ & Hw & Hc'). rewrite Hc in Hc'. done.
Qed.

(** C26: a stream that is too small is refused, never overrun.  When the wire
    format of the message does not fit the stream's limit, [pb_encode] returns
    false with "stream full" and what went out is a prefix of the message that
    stays within the limit. *)
Theorem encode_never_overruns fuel m fields dest fs s :
  program_ok -> mem_ok m -> fields_ok fields -> zlen fields <= 2 ^ 32 -> dest <> 0 ->
  read_msg fuel m fields dest = Some fs -> bytes_written s + zlen (wire_msg fs) < 2 ^ 64 ->
  stream_ok 0 s -> callback s = true -> room s (zlen (wire_msg fs)) = false ->
  exists s' pre, pb_encode fuel m fields dest s = Done (false, s') /\
    errmsg s' = Some "stream full"%string /\ pre `prefix_of` wire_msg fs /\
    sink_content (state s') = sink_content (state s) ++ pre /\ bytes_written s' <= max_size s.
Proof.
  intros Hp Hm Hf Hn Hd Hr Hz Hs Hc Hroom. pose proof Hs as [(Hw & _ & _) _].
  destruct (pb_encode_emits fuel m fields dest fs Hp Hm Hf Hn Hd Hr ltac:(lia) 0 s Hs) as [_ Ho].
  destruct (Ho Hroom Hc Hz) as (s' & E & (Hwf & Hcb & Hmax & He & pre & Hpre & Hbw & Hsc)). exists s', pre.
  destruct Hwf as (_ & _ & Hlim). destruct (Hlim Hcb) as [Hlim' _]. split_and!; try done. lia.
Qed.

(** C34: the size computed without writing is the size written.  For every
    struct that holds an abstract message, [pb_get_encoded_size] returns the
    length of its wire format, the number of bytes a writing stream
    receives. *)
Theorem encoded_size_exact fuel m fields dest fs :
  program_ok -> mem_ok m -> fields_ok fields -> zlen fields <= 2 ^ 32 -> dest <> 0 ->
  read_msg fuel m fields dest = Some fs -> zlen (wire_msg fs) < 2 ^ 64 ->
  pb_get_encoded_size (S := S) fuel m fields dest = Done (Some (zlen (wire_msg fs))).
Proof.
  intros Hp Hm Hf Hn Hd Hr Hz. unfold pb_get_encoded_size.
  destruct (emits_sizing _ _ (pb_encode_emits fuel m fields dest fs Hp Hm Hf Hn Hd Hr Hz) Hz) as (s' & -> & Hw).
  cbn. by rewrite Hw.
Qed.

(** Delimited messages.  [pb_encode_delimited] appends the varint of the
    message's length followed by the message; the two passes over the struct
    agree, so the "submsg size changed" error cannot occur. *)
Theorem encode_delimited_exact fuel m fields dest fs s :
  program_ok -> mem_ok m -> fields_ok fields -> zlen fields <= 2 ^ 32 -> dest <> 0 ->
  read_msg fuel m fields dest = Some fs -> zlen (wire_msg fs) < 2 ^ 64 ->
  stream_ok 0 s -> callback s = true -> room s (zlen (delimited (wire_msg fs))) = true ->
  exists s', pb_encode_delimited fuel m fields dest s = Done (true, s') /\
    sink_content (state s') = sink_content (state s) ++ wire_varint (zlen (wire_msg fs)) ++ wire_msg fs.
Proof.
  intros Hp Hm Hf Hn Hd Hr Hz Hs Hc Hroom. unfold pb_encode_delimited.
  destruct (emits_submessage (pb_encode fuel m) fields dest (wire_msg fs)
    (pb_encode_emits fuel m fields dest fs Hp Hm Hf Hn Hd Hr Hz) Hz 0 s Hs) as [Ht _].
  destruct (Ht Hroom) as (s' & E & (_ & _ & _ & _ & Hc')). exists s'. rewrite Hc in Hc'. done.
Qed.

(** Null-terminated messages.  [pb_encode_nullterminated] appends the
    message and one zero byte. *)
Theorem encode_nullterminated_exact fuel m fields dest fs s :
  program_ok -> mem_ok m -> fields_ok fields -> zlen fields <= 2 ^ 32 -> dest <> 0 ->
  read_msg fuel m fields dest = Some fs -> zlen (wire_msg fs) < 2 ^ 64 ->
  stream_ok 0 s -> callback s = true -> room s (zlen (wire_msg fs) + 1) = true ->
  exists s', pb_encode_nullterminated fuel m fields dest s = Done (true, s') /\
    sink_content (state s') = sink_content (state s) ++ wire_msg fs ++ [0].
Proof.
  intros Hp Hm Hf Hn Hd Hr Hz Hs Hc Hroom. unfold pb_encode_nullterminated.
  destruct (emits_seq _ _ _ _ (pb_encode_emits fuel m fields dest fs Hp Hm Hf Hn Hd Hr Hz)
    (emits_write [0] ltac:(cbn; lia)) 0 s Hs) as [Ht _].
  rewrite zlen_app in Ht. destruct (Ht Hroom) as (s' & E & (_ & _ & _ & _ & Hc')). exists s'. rewrite Hc in Hc'. done.
Qed.

(** The varint encoder.  For every 64-bit value, [pb_encode_varint] fills at
    most ten bytes of its ten-byte buffer (writing outside it would be undefined
    behaviour) and writes the base-128 digits of the value in one call. *)
Theorem varint_is_leb128 v s :
  0 <= v < 2 ^ 64 ->
  pb_encode_varint v s = pb_write (Some (wire_varint v)) (zlen (wire_varint v)) s /\
  1 <= zlen (wire_varint v) <= 10.
Proof. intros Hv. split; [by apply pb_encode_varint_write|apply wire_varint_length]. Qed.
End Encode.

(** ** Instances *)

Lemma encode_refines_wire_witness :
  exists s', pb_encode 3 Sample_mem Sample_fields 1000 (string_stream 100) = Done (true, s') /\
    state s' = wire_msg Sample_msg.
Proof.
  destruct (encode_refines_wire 3 Sample_mem Sample_fields 1000 Sample_msg (string_stream 100)) as (s' & E & Hc & _);
    [apply Sample_program_ok|apply Sample_mem_ok|apply Sample_fields_ok|apply Sample_fields_ok|done|apply Sample_read|
     vm_compute; done|by apply string_stream_ok|done|vm_compute; done|].
  exists s'. split; [exact E|exact Hc].
Defined.

Lemma encode_never_overruns_witness :
  exists s' pre, pb_encode 3 Sample_mem Sample_fields 1000 (pb_ostream_from_buffer (replicate 20 0) 20) = Done (false, s') /\
    errmsg s' = Some "stream full"%string /\ pre `prefix_of` wire_msg Sample_msg.
Proof.
  destruct (encode_never_overruns 3 Sample_mem Sample_fields 1000 Sample_msg (pb_ostream_from_buffer (replicate 20 0) 20))
    as (s' & pre & E & He & Hp & _);
    [apply Sample_program_ok|apply Sample_mem_ok|apply Sample_fields_ok|apply Sample_fields_ok|done|apply Sample_read|
     vm_compute; done|by apply (buffer_stream_ok (replicate 20 0))|done|vm_compute; done|].
  exists s', pre. split; [exact E|]. split; [exact He|exact Hp].
Defined.

Lemma encoded_size_exact_witness :
  pb_get_encoded_size (S := list Z) 3 Sample_mem Sample_fields 1000 = Done (Some (zlen (wire_msg Sample_msg))).
Proof.
  apply (encoded_size_exact 3 Sample_mem Sample_fields 1000 Sample_msg);
    [apply Sample_program_ok|apply Sample_mem_ok|apply Sample_fields_ok|apply Sample_fields_ok|done|apply Sample_read|
     vm_compute; done].
Defined.

Lemma encode_delimited_exact_witness :
  exists s', pb_encode_delimited 3 Sample_mem Sample_fields 1000 (string_stream 100) = Done (true, s').
Proof.
  destruct (encode_delimited_exact 3 Sample_mem Sample_fields 1000 Sample_msg (string_stream 100)) as (s' & E & _);
    [apply Sample_program_ok|apply Sample_mem_ok|apply Sample_fields_ok|apply Sample_fields_ok|done|apply Sample_read|
     vm_compute; done|by apply string_stream_ok|done|vm_compute; done|].
  exists s'. exact E.
Defined.

Lemma encode_nullterminated_exact_witness :
  exists s', pb_encode_nullterminated 3 Sample_mem Sample_fields 1000 (string_stream 100) = Done (true, s').
Proof.
  destruct (encode_nullterminated_exact 3 Sample_mem Sample_fields 1000 Sample_msg (string_stream 100)) as (s' & E & _);
    [apply Sample_program_ok|apply Sample_mem_ok|apply Sample_fields_ok|apply Sample_fields_ok|done|apply Sample_read|
     vm_compute; done|by apply string_stream_ok|done|vm_compute; done|].
  exists s'. exact E.
Defined.

Lemma varint_is_leb128_witness :
  pb_encode_varint 300 (string_stream 10) = pb_write (Some [172; 2]) 2 (string_stream 10).
Proof. apply (varint_is_leb128 300 (string_stream 10)). lia. Defined.
