(* ===== verification/PbDecodeTheorems.v ===== *)
(** * PbDecodeTheorems: what the decoder promises.

    Safety on arbitrary input, round trips with the encoder, and the pieces of
    the main loop, with concrete instances; the last section shows inputs on
    which the code does not do what it means to. *)

From Stdlib Require Import ZifyBool.
From stdpp Require Import base tactics numbers list gmap strings.
From S2P Require Import Prelude Mem PbTypes PbCommon PbOStream PbWire PbEncode PbEncodeSpec PbIStream PbDecode PbDecodeSafe PbRoundTrip PbDecodeSpec PbExample.
Open Scope Z_scope.

(** A struct of known bytes is readable and writable throughout. *)
Lemma struct_mem_inited a bs : Forall is_byte bs -> inited (struct_mem a bs) a (zlen bs).
Proof.
  intros Hb i Hi. cbn. rewrite region_set_lookup, length_fmap, decide_True by done. rewrite list_lookup_fmap.
  destruct (lookup_lt_is_Some_2 bs (Z.to_nat (i - a))) as [b Hb']; [lia|]. rewrite Hb'. exists b.
  split; [done|]. by eapply Forall_lookup_1.
Qed.

Section Safety.
Context {S : Type} `{Source S} `{PbProgram} `{Allocator} `{DecCallbacks S}.

(** C6: safety on arbitrary input.  For every message type of static fields
    (nested to any depth, with arrays, unions, strings and bytes) and every
    byte string, [pb_decode] into a struct of initialised memory finishes: it
    returns true or false, performs no undefined access, stays inside the
    input, and changes no byte outside the struct and no heap block.  The
    previous contents of the struct do not matter.  Two conditions on the
    descriptors: [static_layout], the members they name lie inside the struct;
    and [resets_fit], a fixed-count array has four bytes of its struct at its
    address.  The second is needed: pb_decode.c:876 zeroes a count there that
    such an array does not have, and with a shorter array at the end of the
    struct it writes behind the struct
    ([fixed_count_reset_writes_four_bytes]). *)
Theorem decode_static_safe d fuel fields size dest m c input :
  (d < fuel)%nat -> static_layout d fields size -> resets_fit d fields size ->
  0 < dest -> inited m dest size -> 0 <= c < 2 ^ 32 -> Forall is_byte input ->
  exists r s' m' c', pb_decode (S := S) fuel fields dest (pb_istream_from_buffer input (zlen input)) (m, c) =
      Done (r, s', (m', c')) /\
    only_differ m m' dest size /\ inited m' dest size /\
    exists k, source s' = SrcBuffer (drop k input) /\ 0 <= bytes_left s' <= zlen input - Z.of_nat k.
Proof.
  intros Hfuel Hlay Hres Hdest Hm Hc Hin. pose proof (static_layout_msg _ _ _ Hlay Hres) as Hmsg.
  assert (Hd : dsafe m dest size (pb_decode (S := S) fuel fields dest) (fun _ => True)).
  { eapply static_decode_safe; [done|done|done|]. destruct d; [done|]. destruct Hmsg as [? _]. unfold inside. lia. }
  destruct (Hd (pb_istream_from_buffer input (zlen input)) (m, c))
    as (r & s' & [m' c'] & E & (k & Hs & Hl) & (Hdif & Hini & _) & _).
  { split; [cbn; lia|done]. }
  { split_and!; [split; [done|]; by intros|done|done]. }
  exists r, s', m', c'. split_and!; [done|done|done|by exists k].
Qed.
End Safety.

Section RoundTrips.
Context {S : Type} `{Source S}.

(** Varints survive the trip.  Every 64-bit value, encoded by
    [pb_encode_varint] into a string and followed by any bytes, is read back
    by [pb_decode_varint], which consumes exactly what was written. *)
Theorem varint_roundtrip v rest left :
  0 <= v < 2 ^ 64 -> zlen (wire_varint v) <= left ->
  exists out, pb_encode_varint v (PbOStream true [] 10 0 None) = Done (true, out) /\
    pb_decode_varint (S := S) (PbIStream (SrcBuffer (state out ++ rest)) left None) =
      Done (Some v, PbIStream (SrcBuffer rest) (left - zlen (state out)) None).
Proof.
  intros Hv Hle. pose proof (wire_varint_length v).
  destruct (emits_varint (S := list Z) v Hv 0 (PbOStream true [] 10 0 None)) as [Ht _].
  { unfold stream_ok, stream_wf. cbn. split_and!; done || lia. }
  destruct Ht as (out & E & (_ & _ & _ & _ & Hc)); [unfold room; cbn; lia|].
  exists out. split; [done|]. cbn in Hc. rewrite Hc. by apply reads_varint.
Qed.

(** Signed (zigzag) varints survive the trip, for every 64-bit signed
    value. *)
Theorem svarint_roundtrip v rest left :
  - 2 ^ 63 <= v < 2 ^ 63 -> 10 <= left ->
  exists out, pb_encode_svarint v (PbOStream true [] 10 0 None) = Done (true, out) /\
    pb_decode_svarint (S := S) (PbIStream (SrcBuffer (state out ++ rest)) left None) =
      Done (Some v, PbIStream (SrcBuffer rest) (left - zlen (state out)) None).
Proof.
  intros Hv Hle. pose proof (wire_varint_length (zigzag v)).
  destruct (emits_svarint (S := list Z) v Hv 0 (PbOStream true [] 10 0 None)) as [Ht _].
  { unfold stream_ok, stream_wf. cbn. split_and!; done || lia. }
  destruct Ht as (out & E & (_ & _ & _ & _ & Hc)); [unfold room; cbn; lia|].
  exists out. split; [done|]. cbn in Hc. rewrite Hc. apply reads_svarint; [done|lia].
Qed.

(** Field headers survive the trip.  The key written by [pb_encode_tag] is
    read back by [pb_decode_tag] as the same field number and wire type, with
    no end-of-message report. *)
Theorem tag_roundtrip wt t rest left :
  0 <= wt < 8 -> 0 < t < 2 ^ 29 -> 10 <= left ->
  exists out, pb_encode_tag wt t (PbOStream true [] 10 0 None) = Done (true, out) /\
    pb_decode_tag (S := S) (PbIStream (SrcBuffer (state out ++ rest)) left None) =
      Done (Some (t, wt), false, PbIStream (SrcBuffer rest) (left - zlen (state out)) None).
Proof.
  intros Hwt Ht Hle. pose proof (wire_varint_length (8 * t + wt)).
  destruct (emits_tag (S := list Z) wt t ltac:(lia) ltac:(lia) 0 (PbOStream true [] 10 0 None)) as [Hok _].
  { unfold stream_ok, stream_wf. cbn. split_and!; done || lia. }
  destruct Hok as (out & E & (_ & _ & _ & _ & Hc)); [unfold room, wire_tag; cbn; lia|].
  exists out. split; [done|]. cbn in Hc. rewrite Hc. apply reads_tag; [done|done|]. unfold wire_tag. lia.
Qed.

(** Fixed-width values survive the trip, little-endian on the wire
    whatever the host does. *)
Theorem fixed64_roundtrip m a v rest left :
  load_uint 8 m a = Some v -> 0 <= v < 2 ^ 64 -> 8 <= left ->
  exists out, pb_encode_fixed64 m a (PbOStream true [] 8 0 None) = Done (true, out) /\
    pb_decode_fixed64 (S := S) (PbIStream (SrcBuffer (state out ++ rest)) left None) =
      Done (Some v, PbIStream (SrcBuffer rest) (left - 8) None).
Proof.
  intros Hl Hv Hle. destruct (emits_fixed64 (S := list Z) m a v Hl 0 (PbOStream true [] 8 0 None)) as [Ht _].
  { unfold stream_ok, stream_wf. cbn. split_and!; done || lia. }
  destruct Ht as (out & E & (_ & _ & _ & _ & Hc)); [unfold room; rewrite length_le_bytes; cbn; lia|].
  exists out. split; [done|]. cbn [callback state sink_content string_sink_lawful] in Hc.
  rewrite Hc. rewrite app_nil_l, (reads_fixed64 v Hv) by (rewrite length_le_bytes; lia).
  by rewrite length_le_bytes.
Qed.
End RoundTrips.

Lemma read_value_leaf `{PbProgram} rd rd' m f a :
  PB_LTYPE (type f) <> PB_LTYPE_SUBMESSAGE -> read_value rd m f a = read_value rd' m f a.
Proof.
  intros Hne. unfold read_value. destruct (Z.eqb_spec (PB_LTYPE (type f)) PB_LTYPE_SUBMESSAGE); [done|reflexivity].
Qed.

Section Values.
Context {S : Type} `{Source S} `{PbProgram} `{Allocator} `{DecCallbacks S} `{!EncCallbacks (list Z)}.
Context (rd : mem -> list pb_field -> Z -> option (list (Z * wval))).

(** C20: field values survive the trip.  Take any static field that is not a
    submessage, and a value of it in memory [m1].  The encoder of its type
    writes the value, and what it writes, followed by any bytes, is given to
    the decoder of its type with any other place [a].  Unless the value is a
    string that fills its array, exactly those bytes are consumed, only the
    value's room at [a] changes, and reading the field there gives the value
    back.  A string that fills its array has no terminator: the encoder writes
    it, the decoder refuses it and changes nothing. *)
Theorem value_roundtrip enc_msg dec_msg fuel m1 f a1 v dec a m c rest left limit :
  mem_ok m1 -> field_ok f -> value_sound f -> a1 <> 0 -> 0 < a ->
  read_value (rd m1) m1 f a1 = Some v -> zlen (wire_val v) <= limit < 2 ^ 64 ->
  PB_DECODERS dec_msg fuel !! Z.to_nat (PB_LTYPE (type f)) = Some (Some dec) ->
  mapped m a (value_width f) -> zlen (wire_val v) <= left ->
  exists enc out,
    PB_ENCODERS enc_msg !! Z.to_nat (PB_LTYPE (type f)) = Some (Some enc) /\
    enc m1 f a1 (PbOStream true [] limit 0 None) = Done (true, out) /\
    let s := PbIStream (S := S) (SrcBuffer (state out ++ rest)) left None in
    if string_full f v
    then exists s', dec f a s (m, c) = Done (None, s', (m, c)) /\ ierrmsg s' = Some (string_refusal (data_size f))
    else exists m',
      dec f a s (m, c) = Done (Some tt, PbIStream (SrcBuffer rest) (left - zlen (state out)) None, (m', c)) /\
      only_differ m m' a (value_width f) /\ read_value (rd m') m' f a = Some v.
Proof.
  intros Hm1 Hf Hs Ha1 Ha Hr Hlim Hdec Hmap Hle.
  assert (Hds : 0 <= data_size f < 2 ^ 32) by (destruct Hf as (_ & _ & _ & _ & ? & _); unfold PB_SIZE_MAX in *; lia).
  pose proof Hs as (Hst & Hnsub & _). pose proof Hr as Hr'. rewrite (read_value_leaf _ (fun _ _ => None)) in Hr by done.
  destruct (emits_value (S := list Z) enc_msg (fun _ _ => None) m1 Hm1 ltac:(done) f a1 v Hds Hr ltac:(lia))
    as (enc & Henc & He & _).
  destruct (He 0 (PbOStream true [] limit 0 None)) as [Ht _].
  { unfold stream_ok, stream_wf. cbn. split_and!; done || lia. }
  destruct Ht as (out & E & (_ & _ & _ & _ & Hc)); [unfold room; cbn; lia|].
  exists enc, out. cbn in Hc. rewrite Hc. split_and!; [done|done|]. cbv zeta. destruct (string_full f v) eqn:Efull.
  - destruct v as [| | |bs| |]; try done. cbn in Efull. apply andb_prop in Efull as [Ety Elen].
    apply Z.eqb_eq in Ety. apply Z.leb_le in Elen.
    destruct Hds as [Hds0 Hds]. pose proof (read_string_bound _ _ _ _ _ Hds0 Hst Ety Ha1 Hr).
    rewrite Ety in Hdec. injection Hdec as <-. replace (data_size f) with (zlen bs) by lia.
    apply dec_string_full; [done|lia|done].
  - destruct (puts_value rd dec_msg fuel m1 f a1 a v dec Hm1 Hf Hs Efull Ha1 Ha Hr' Hdec m c Hmap) as (m' & Hd & Hod & Hrd).
    exists m'. split_and!; [|done|done]. by apply Hd.
Qed.
End Values.

Section Pieces.
Context {S : Type} `{Source S}.

(** Unknown fields are skipped exactly.  Whatever value follows a field
    header, scalar, string, packed array or whole submessage,
    [pb_skip_field] with the header's wire type consumes that value and
    nothing more. *)
Theorem skip_field_exact v rest left :
  (forall u, v = WVarint u -> 0 <= u < 2 ^ 64) -> zlen (wire_val v) < 2 ^ 32 -> zlen (wire_val v) <= left ->
  pb_skip_field (S := S) (wval_type v) (PbIStream (SrcBuffer (wire_val v ++ rest)) left None) =
    Done (Some tt, PbIStream (SrcBuffer rest) (left - zlen (wire_val v)) None).
Proof.
  intros Hv Hlen Hle.
  assert (Hdel : forall body, wire_val v = delimited body -> zlen body < 2 ^ 32).
  { intros body E. rewrite E in Hlen. pose proof (zlen_delimited body). lia. }
  enough (reads (S := S) (pb_skip_field (wval_type v)) (wire_val v) tt) as Hr by by apply Hr.
  destruct v as [u|u|u|bs|fs|vs].
  - by apply reads_skip_varint, Hv.
  - apply (reads_skip_bytes (le_bytes 4 u)).
  - apply (reads_skip_bytes (le_bytes 8 u)).
  - by apply reads_skip_string, (Hdel bs).
  - rewrite wire_val_msg in *. by apply reads_skip_string, Hdel.
  - cbn [wire_val] in *. by apply reads_skip_string, Hdel.
Qed.

(** Substreams isolate their readers.  A length-delimited body is opened as
    a substream, read by any reader that never leaves the buffer, and closed:
    however little of the body the reader consumed, and whether it failed or
    not, the parent stream then stands exactly behind the body. *)
Theorem substream_isolates {A} (r : rd S A) (P : A -> Prop) body rest left msg :
  robust r P -> counts_exactly r -> zlen body < 2 ^ 32 -> Forall is_byte (body ++ rest) ->
  zlen (delimited body) <= left <= zlen (delimited body ++ rest) ->
  exists sub s1 o sub1 s2,
    pb_make_string_substream (PbIStream (SrcBuffer (delimited body ++ rest)) left msg) = Done (Some sub, s1) /\
    bytes_left sub = zlen body /\ r sub = Done (o, sub1) /\
    pb_close_string_substream sub1 s1 = Done (Some tt, s2) /\
    source s2 = SrcBuffer rest /\ bytes_left s2 = left - zlen (delimited body).
Proof. apply substream_isolated. Qed.

(** Integers are stored exactly or refused.  [pb_dec_uvarint] on a field
    of 1, 2, 4 or 8 bytes stores the decoded value when it fits and otherwise
    returns false with "integer too large"; it never reports success for a
    truncated value. *)
Theorem uvarint_exact_or_error k f a m c v rest left :
  data_size f = Z.of_nat k -> int_width k -> mapped m a (Z.of_nat k) -> 0 <= v < 2 ^ 64 ->
  zlen (wire_varint v) <= left ->
  exists m' msg, pb_dec_uvarint (S := S) f a (PbIStream (SrcBuffer (wire_varint v ++ rest)) left None) (m, c) =
      Done (if v <? 256 ^ Z.of_nat k then Some tt else None,
            PbIStream (SrcBuffer rest) (left - zlen (wire_varint v)) msg, (m', c)) /\
    only_differ m m' a (Z.of_nat k) /\
    (v < 256 ^ Z.of_nat k -> load_uint k m' a = Some v) /\
    (256 ^ Z.of_nat k <= v -> msg = Some "integer too large"%string).
Proof.
  intros Hds Hk Hm Hv Hle. destruct (uvarint_range (S := S) k f a m c v rest left Hds Hk Hm Hv Hle) as (m' & E & Hd & Hl).
  exists m', (if v <? 256 ^ Z.of_nat k then None else Some "integer too large"%string). split_and!; [done|done| |].
  - intros Hlt. rewrite Hl. f_equal. apply wrap_small. rewrite Z.pow_mul_r by lia. change (2 ^ 8) with 256. lia.
  - intros Hge. by destruct (Z.ltb_spec v (256 ^ Z.of_nat k)); [lia|].
Qed.

(** [pb_decode_varint] on arbitrary input terminates with a 64-bit value
    or an error, and consumes no more than the buffer's bytes. *)
Theorem varint_total input left msg :
  0 <= left <= zlen input -> Forall is_byte input ->
  exists o s', pb_decode_varint (S := S) (PbIStream (SrcBuffer input) left msg) = Done (o, s') /\
    (forall v, o = Some v -> 0 <= v < 2 ^ 64) /\ 0 <= bytes_left s' <= left.
Proof.
  intros Hl Hb. destruct (robust_varint (S := S) (PbIStream (SrcBuffer input) left msg)) as (o & s' & E & (k & _ & Hs) & Ho).
  { split; [cbn; lia|done]. }
  exists o, s'. split_and!; [done| |cbn in Hs; lia..]. intros v ->. exact Ho.
Qed.
End Pieces.

(** The allocator is asked for the true size.  When [allocate_field]
    succeeds, the pointer it stores designates a heap block of exactly
    [array_size * data_size] bytes, computed without wrapping; a product that
    does not fit in [size_t] is refused and leaves memory alone. *)
Theorem allocate_field_exact {S} `{Source S} `{AllocatorOk} pd ds n s m c r s' m' c' :
  0 <= ds < 2 ^ 64 -> 0 <= n < 2 ^ 64 ->
  allocate_field (S := S) pd ds n s (m, c) = Done (r, s', (m', c')) ->
  (2 ^ 64 <= n * ds -> r = None /\ m' = m) /\
  (r = Some tt ->
     exists q, 0 < q /\ q + n * ds <= 2 ^ 64 /\ load_ptr m' pd = Some q /\ mblocks m' !! q = Some (n * ds)).
Proof. apply allocate_field_spec. Qed.

(** The required-field check is exact.  Over the rounds of the main loop
    that found a field, the bitmap comparison accepts if and only if every
    required field (numbered from 0, up to 64 of them) was found. *)
Theorem required_check_exact req x visits :
  0 <= req <= 64 -> seen0 x = 0 -> seen1 x = 0 ->
  Forall (fun '(it, f) => 0 <= required_field_index it < req) visits ->
  let y := visit_all x visits in
  all_seen req (seen0 y) (seen1 y) = true <-> forall i, 0 <= i < req -> visited i visits.
Proof. apply all_seen_visited. Qed.

(** The number of required fields the check uses is the number of required
    fields of the descriptor array, at most 64, wherever the iterator stood when
    the input ended. *)
Theorem required_count_exact l dest it :
  dest <> 0 -> Forall field_ok l -> zlen l < 2 ^ 32 - 1 -> cur_iter l dest it ->
  required_count it = Done (Z.min PB_MAX_REQUIRED_FIELDS (count_required l)).
Proof. apply required_count_spec. Qed.

(** Tag search.  From any position, [pb_field_iter_find] terminates; it
    succeeds exactly when the array has a field with the tag, and then the
    iterator holds that field's data address from the struct layout; otherwise
    it is back where it started. *)
Theorem iter_find_exact l dest t i it :
  dest <> 0 -> Forall field_ok l -> zlen l < 2 ^ 32 -> iter_on l dest i it ->
  exists found it', pb_field_iter_find it t = Done (found, it') /\
    (found = true -> exists j f pd ps req, l !! j = Some f /\ tag f = t /\
       struct_layout l dest !! j = Some (pd, ps, req) /\ pos it' = j /\ pData it' = pd /\ required_field_index it' = req) /\
    (found = false -> pos it' = i /\ forall f, f ∈ l -> tag f = t -> PB_LTYPE (type f) = PB_LTYPE_EXTENSION).
Proof.
  intros Hd Hok Hlen Hon. destruct (iter_find_spec l dest t i it Hd Hok Hlen Hon) as (found & it' & E & Hres).
  exists found, it'. split; [done|]. destruct found; [split; [|done]|split; [done|]]; intros _.
  - destruct Hres as (j & f & Hf & [Ht _] & Hit & _). exists j, f.
    assert (exists pd ps req, struct_layout l dest !! j = Some (pd, ps, req) /\ pos it' = j /\ pData it' = pd /\
      required_field_index it' = req) as (pd & ps & req & ?); [|by exists pd, ps, req].
    case_decide as Hj.
    + subst. destruct Hon as (? & pd & ps & req & _ & Hlay & _ & Hp & Hr & _ & Hpd & _). eauto 10.
    + destruct Hit as (pd & ps & req & Hlay & ->). eauto 10.
  - destruct Hres as [(pd & ps & req & _ & ->) Hno]. split; [done|]. intros f Hf Ht.
    destruct (decide (PB_LTYPE (type f) = PB_LTYPE_EXTENSION)); [done|]. by destruct (Hno f Hf).
Qed.

(** Stepping the iterator visits the struct layout in order and wraps from
    the last field to the first, where it reports the end. *)
Theorem iter_next_exact l dest i it :
  dest <> 0 -> Forall field_ok l -> zlen l < 2 ^ 32 -> iter_on l dest i it ->
  exists it' pd ps req,
    pb_field_iter_next it = Done (bool_decide (S i < length l)%nat, it') /\
    struct_layout l dest !! (if bool_decide (S i < length l)%nat then S i else 0%nat) = Some (pd, ps, req) /\
    pData it' = pd /\ pSize it' = SizeAt ps /\ required_field_index it' = req.
Proof.
  intros Hd Hok Hlen Hon. destruct (iter_next_on l dest i it Hd Hok Hlen Hon) as (it' & E & (pd & ps & req & Hlay & ->)).
  eexists _, pd, ps, req. split_and!; [exact E|done|done|done|done].
Qed.

(** ** Instances *)

Lemma Sample_bytes_ok : Forall is_byte Sample_bytes.
Proof. repeat constructor; vm_compute; done. Qed.

Lemma Sample_inited : inited Sample_mem 1000 Sample_size.
Proof. apply (struct_mem_inited 1000 Sample_bytes), Sample_bytes_ok. Qed.

(** A truncated field, then garbage. *)
Definition garbage : list Z := [8; 150; 1; 26; 200; 1; 255; 0; 255].

Lemma garbage_ok : Forall is_byte garbage.
Proof. repeat constructor; vm_compute; done. Qed.

Lemma Sample_mapped a k : 1000 <= a /\ a + k <= 1000 + Sample_size -> mapped Sample_mem a k.
Proof. intros Ha i Hi. destruct (Sample_inited i) as (b & -> & _); [lia|]. by eexists. Qed.

Lemma decode_static_safe_witness :
  exists r s' m' c', pb_decode (S := unit) 3 Sample_fields 1000 (pb_istream_from_buffer garbage 9) (Sample_mem, 0) =
      Done (r, s', (m', c')) /\ only_differ Sample_mem m' 1000 Sample_size.
Proof.
  destruct (decode_static_safe (S := unit) 2 3 Sample_fields Sample_size 1000 Sample_mem 0 garbage)
    as (r & s' & m' & c' & E & Hd & _);
    [lia|apply Sample_layout|apply Sample_resets|lia|apply Sample_inited|lia|apply garbage_ok|].
  exists r, s', m', c'. split; [exact E|exact Hd].
Defined.

Lemma varint_roundtrip_witness :
  exists out, pb_encode_varint 300 (PbOStream true [] 10 0 None) = Done (true, out) /\
    pb_decode_varint (S := unit) (PbIStream (SrcBuffer (state out ++ [7])) 3 None) =
      Done (Some 300, PbIStream (SrcBuffer [7]) (3 - zlen (state out)) None).
Proof. apply (varint_roundtrip 300 [7] 3); [lia|vm_compute; done]. Defined.

Lemma svarint_roundtrip_witness :
  exists out, pb_encode_svarint (-300) (PbOStream true [] 10 0 None) = Done (true, out) /\
    pb_decode_svarint (S := unit) (PbIStream (SrcBuffer (state out ++ [])) 10 None) =
      Done (Some (-300), PbIStream (SrcBuffer []) (10 - zlen (state out)) None).
Proof. apply (svarint_roundtrip (-300) [] 10); lia. Defined.

Lemma tag_roundtrip_witness :
  exists out, pb_encode_tag PB_WT_STRING 1000 (PbOStream true [] 10 0 None) = Done (true, out) /\
    pb_decode_tag (S := unit) (PbIStream (SrcBuffer (state out ++ [])) 10 None) =
      Done (Some (1000, PB_WT_STRING), false, PbIStream (SrcBuffer []) (10 - zlen (state out)) None).
Proof. apply (tag_roundtrip PB_WT_STRING 1000 [] 10); unfold PB_WT_STRING; lia. Defined.

Lemma fixed64_roundtrip_witness :
  exists out, pb_encode_fixed64 Sample_mem 1000 (PbOStream true [] 8 0 None) = Done (true, out) /\
    pb_decode_fixed64 (S := unit) (PbIStream (SrcBuffer (state out ++ [])) 8 None) =
      Done (Some (150 + 2 ^ 32), PbIStream (SrcBuffer []) (8 - 8) None).
Proof. apply (fixed64_roundtrip Sample_mem 1000 (150 + 2 ^ 32) [] 8); [vm_compute; done|lia|lia]. Defined.

(** The string field of the sample, moved to address 1040; and its first two
    bytes taken as an array of two, which they fill. *)
Lemma value_roundtrip_witness :
  (exists enc out,
    PB_ENCODERS (S := list Z) (fun _ _ => enc_true) !! 7%nat = Some (Some enc) /\
    enc Sample_mem (PbField 4 0x17 1 (-1) 8 0 PtrNull) 1029 (PbOStream true [] 20 0 None) = Done (true, out) /\
    exists m', pb_dec_string (S := unit) (PbField 4 0x17 1 (-1) 8 0 PtrNull) 1040
      (PbIStream (SrcBuffer (state out ++ [])) 3 None) (Sample_mem, 0) =
      Done (Some tt, PbIStream (SrcBuffer []) (3 - zlen (state out)) None, (m', 0)) /\
    only_differ Sample_mem m' 1040 8 /\
    read_value (fun _ _ => None) m' (PbField 4 0x17 1 (-1) 8 0 PtrNull) 1040 = Some (WBytes [65; 66])) /\
  (exists enc out,
    PB_ENCODERS (S := list Z) (fun _ _ => enc_true) !! 7%nat = Some (Some enc) /\
    enc Sample_mem (PbField 4 0x17 1 (-1) 2 0 PtrNull) 1029 (PbOStream true [] 20 0 None) = Done (true, out) /\
    exists s', pb_dec_string (S := unit) (PbField 4 0x17 1 (-1) 2 0 PtrNull) 1040
      (PbIStream (SrcBuffer (state out ++ [])) 3 None) (Sample_mem, 0) = Done (None, s', (Sample_mem, 0)) /\
    ierrmsg s' = Some "string overflow"%string).
Proof.
  split.
  - apply (value_roundtrip (S := unit) (fun _ _ _ => None) (fun _ _ => enc_true) (fun _ _ => dec_false) 0 Sample_mem
      (PbField 4 0x17 1 (-1) 8 0 PtrNull) 1029 (WBytes [65; 66]) pb_dec_string 1040 Sample_mem 0 [] 3 20);
      [apply Sample_mem_ok|vm_compute; repeat split; try done; intros; discriminate|by unfold value_sound|done|lia|vm_compute; done|
       vm_compute; split; [intros H; discriminate H|done]|done|apply (Sample_mapped 1040 8); vm_compute; split; done|
       vm_compute; intros H; discriminate H].
  - apply (value_roundtrip (S := unit) (fun _ _ _ => None) (fun _ _ => enc_true) (fun _ _ => dec_false) 0 Sample_mem
      (PbField 4 0x17 1 (-1) 2 0 PtrNull) 1029 (WBytes [65; 66]) pb_dec_string 1040 Sample_mem 0 [] 3 20);
      [apply Sample_mem_ok|vm_compute; repeat split; try done; intros; discriminate|by unfold value_sound|done|lia|vm_compute; done|
       vm_compute; split; [intros H; discriminate H|done]|done|apply (Sample_mapped 1040 2); vm_compute; split; done|
       vm_compute; intros H; discriminate H].
Defined.

Lemma skip_field_exact_witness :
  pb_skip_field (S := unit) PB_WT_STRING
    (PbIStream (SrcBuffer (wire_val (WMsg [(1, WVarint 9)]) ++ [8; 1])) 5 None) =
    Done (Some tt, PbIStream (SrcBuffer [8; 1]) (5 - 3) None).
Proof.
  apply (skip_field_exact (S := unit) (WMsg [(1, WVarint 9)]) [8; 1] 5); [done|vm_compute; done|vm_compute; intros H; discriminate H].
Defined.

Lemma counts_byte : counts_exactly (S := unit) pb_readbyte.
Proof.
  intros rest left msg o s' Hl Hb. unfold pb_readbyte. cbn.
  destruct (Z.eqb_spec left 0); [intros [= <- <-]; exists 0%nat; cbn; split_and!; done || lia|].
  destruct rest as [|b rest]; [cbn in *; lia|]. destruct (Z.ltb_spec (zlen (b :: rest)) 1); [cbn in *; lia|].
  cbn. intros [= <- <-]. exists 1%nat. cbn. split_and!; done || lia.
Qed.

Lemma substream_isolates_witness :
  exists sub s1 o sub1 s2,
    pb_make_string_substream (S := unit) (PbIStream (SrcBuffer (delimited [1; 2; 3] ++ [9])) 5 None) = Done (Some sub, s1) /\
    bytes_left sub = 3 /\ pb_readbyte sub = Done (o, sub1) /\
    pb_close_string_substream sub1 s1 = Done (Some tt, s2) /\ source s2 = SrcBuffer [9] /\ bytes_left s2 = 5 - 4.
Proof.
  apply (substream_isolates (S := unit) pb_readbyte is_byte [1; 2; 3] [9] 5 None);
    [apply robust_byte|apply counts_byte|cbn; lia|repeat constructor; vm_compute; done|vm_compute; split; intros H; discriminate H].
Defined.

Lemma uvarint_exact_or_error_witness :
  exists m' msg, pb_dec_uvarint (S := unit) (PbField 1 0x02 0 0 1 0 PtrNull) 1000
      (PbIStream (SrcBuffer (wire_varint 300 ++ [])) 2 None) (Sample_mem, 0) =
      Done (None, PbIStream (SrcBuffer []) (2 - 2) msg, (m', 0)) /\
    only_differ Sample_mem m' 1000 1 /\ (300 < 256 -> load_uint 1 m' 1000 = Some 300) /\
    (256 <= 300 -> msg = Some "integer too large"%string).
Proof.
  apply (uvarint_exact_or_error (S := unit) 1 (PbField 1 0x02 0 0 1 0 PtrNull) 1000 Sample_mem 0 300 [] 2);
    [done|by left| |lia|vm_compute; intros H; discriminate H].
  intros i Hi. destruct (Sample_inited i) as (b & -> & _); [unfold Sample_size; lia|]. by eexists.
Defined.

Lemma varint_total_witness :
  exists o s', pb_decode_varint (S := unit) (PbIStream (SrcBuffer garbage) 9 None) = Done (o, s') /\
    (forall v, o = Some v -> 0 <= v < 2 ^ 64) /\ 0 <= bytes_left s' <= 9.
Proof. apply (varint_total (S := unit) garbage 9 None); [cbn; lia|apply garbage_ok]. Defined.

(** A NULL pointer field at address 2000. *)
Definition null_mem : mem := struct_mem 2000 [0; 0; 0; 0; 0; 0; 0; 0].

Lemma allocate_field_exact_witness :
  exists s' m' c' q, allocate_field (S := unit) 2000 4 3 (pb_istream_from_buffer [] 0) (null_mem, 0) =
      Done (Some tt, s', (m', c')) /\ load_ptr m' 2000 = Some q /\ mblocks m' !! q = Some 12.
Proof.
  destruct (allocate_field (S := unit) 2000 4 3 (pb_istream_from_buffer [] 0) (null_mem, 0))
    as [[[r s'] [m' c']]| |] eqn:E; [|vm_compute in E; discriminate E|vm_compute in E; discriminate E].
  assert (Hr : r = Some tt) by (vm_compute in E; injection E as <- _ _ _; reflexivity). subst r.
  destruct (allocate_field_exact 2000 4 3 _ _ _ _ _ _ _ ltac:(lia) ltac:(lia) E) as [_ Hok].
  destruct (Hok eq_refl) as (q & _ & _ & Hl & Hb). exists s', m', c', q. split; [reflexivity|]. split; [exact Hl|exact Hb].
Defined.

Definition Sample_iter : pb_field_iter := PbFieldIter Sample_fields 0 0 1000 1000 (SizeAt 1000).

Lemma Sample_iter_on : iter_on Sample_list 1000 0 Sample_iter.
Proof. eexists _, 1000, 1000, 0. split_and!; try reflexivity. by left. Qed.

Lemma Sample_list_ok : Forall field_ok Sample_list.
Proof. repeat constructor; vm_compute; done. Qed.

Lemma required_check_exact_witness :
  all_seen 1 (seen0 (visit_all (DLocals 0 0 Sample_iter 0 None) [(Sample_iter, PbField 1 0x01 0 0 4 0 PtrNull)]))
    (seen1 (visit_all (DLocals 0 0 Sample_iter 0 None) [(Sample_iter, PbField 1 0x01 0 0 4 0 PtrNull)])) = true.
Proof.
  apply (required_check_exact 1 (DLocals 0 0 Sample_iter 0 None) [(Sample_iter, PbField 1 0x01 0 0 4 0 PtrNull)]);
    [lia|done|done|repeat constructor; cbn; lia|].
  intros i Hi. exists Sample_iter, (PbField 1 0x01 0 0 4 0 PtrNull). split; [apply elem_of_cons; by left|].
  split; [done|]. cbn. lia.
Defined.

Lemma required_count_exact_witness : required_count Sample_iter = Done (Z.min 64 1).
Proof.
  apply (required_count_exact Sample_list 1000 Sample_iter); [done|apply Sample_list_ok|vm_compute; done|].
  left. exists 0%nat. apply Sample_iter_on.
Defined.

Lemma iter_find_exact_witness :
  exists found it', pb_field_iter_find Sample_iter 5 = Done (found, it') /\
    (found = true -> exists j f pd ps req, Sample_list !! j = Some f /\ tag f = 5 /\
       struct_layout Sample_list 1000 !! j = Some (pd, ps, req) /\ pos it' = j /\ pData it' = pd /\
       required_field_index it' = req) /\
    (found = false -> pos it' = 0%nat /\
       forall f, f ∈ Sample_list -> tag f = 5 -> PB_LTYPE (type f) = PB_LTYPE_EXTENSION).
Proof.
  apply (iter_find_exact Sample_list 1000 5 0 Sample_iter);
    [done|apply Sample_list_ok|vm_compute; done|apply Sample_iter_on].
Defined.

Lemma iter_next_exact_witness :
  exists it' pd ps req,
    pb_field_iter_next Sample_iter = Done (true, it') /\
    struct_layout Sample_list 1000 !! 1%nat = Some (pd, ps, req) /\
    pData it' = pd /\ pSize it' = SizeAt ps /\ required_field_index it' = req.
Proof.
  apply (iter_next_exact Sample_list 1000 0 Sample_iter);
    [done|apply Sample_list_ok|vm_compute; done|apply Sample_iter_on].
Defined.

(** ** Where the code and its intent part *)

(** Over-long varints.  The position counter of [pb_decode_varint32_eof]
    is eight bits wide and unchecked, so 36 padding digits after the first
    bring it from 7 back to 3: a 38-byte varint whose value is [b * 2^259] is
    accepted and read as [8 * b]. *)
Theorem varint32_accepts_overlong b :
  0 <= b < 128 ->
  pb_decode_varint32 (S := unit) (pb_istream_from_buffer (replicate 37 0x80 ++ [b]) 38) =
    Done (Some (8 * b), PbIStream (SrcBuffer []) 0 None).
Proof.
  intros Hb.
  assert (Hall : forall k : nat, (k < 128)%nat ->
    pb_decode_varint32 (S := unit) (pb_istream_from_buffer (replicate 37 0x80 ++ [Z.of_nat k]) 38) =
    Done (Some (8 * Z.of_nat k), PbIStream (SrcBuffer []) 0 None)).
  { intros k Hk. do 128 (destruct k as [|k]; [vm_compute; reflexivity|]). lia. }
  specialize (Hall (Z.to_nat b) ltac:(lia)). by rewrite Z2Nat.id in Hall by lia.
Qed.

(** The count reset of fixed-count arrays.  A fixed-count array has no
    count member and its [pSize] is the array itself, yet
    [pb_field_set_to_default] resets the count there: it zeroes four bytes at
    the array's address, whatever the size of the array. *)
Theorem fixed_count_reset_writes_four_bytes `{PbProgram} fuel it f m c :
  at_pos it = Done f -> PB_ATYPE (type f) = PB_ATYPE_STATIC -> PB_LTYPE (type f) <> PB_LTYPE_EXTENSION ->
  PB_HTYPE (type f) = PB_HTYPE_REPEATED -> pSize it = SizeAt (pData it) -> mapped m (pData it) 4 ->
  exists m', pb_field_set_to_default (S fuel) it (m, c) = Done (tt, (m', c)) /\
    load_bytes m' (pData it) 4 = Some [0; 0; 0; 0].
Proof.
  intros Hat Hst Hext Hrep Hsz Hm. destruct (store_uint_mapped 4 m (pData it) (u32 0) Hm) as (m' & E & _ & Hl).
  exists m'. split; [|exact Hl]. cbn [pb_field_set_to_default]. unfold mbind, act_bind, act_pure. rewrite Hat.
  cbn [mbind outcome_bind]. destruct (Z.eqb_spec (PB_LTYPE (type f)) PB_LTYPE_EXTENSION); [done|].
  rewrite Hst, Hrep, Hsz. change (PB_ATYPE_STATIC =? PB_ATYPE_STATIC) with true.
  change (PB_HTYPE_REPEATED =? PB_HTYPE_OPTIONAL) with false. change (PB_HTYPE_REPEATED =? PB_HTYPE_REPEATED) with true.
  cbn [andb orb]. unfold size_store, act_store. cbn [fst snd]. rewrite E. reflexivity.
Qed.

(** Strings without room for a terminator.  [pb_dec_string] refuses a
    static string field whose payload is as long as the array, and leaves
    memory alone; [pb_enc_string] accepts such a string. *)
Theorem full_string_refused {S} `{Source S} `{Allocator} f a bs rest left st :
  PB_ATYPE (type f) = PB_ATYPE_STATIC -> data_size f <= zlen bs -> zlen bs < 2 ^ 32 - 1 ->
  zlen (delimited bs) <= left ->
  exists s', pb_dec_string (S := S) f a (PbIStream (SrcBuffer (delimited bs ++ rest)) left None) st =
    Done (None, s', st) /\ ierrmsg s' = Some "string overflow"%string.
Proof.
  intros Hst Hlen Hmax Hle. destruct (dec_string_full f a bs rest left st) as (s' & E & Hs'); [done|lia|done|].
  exists s'. split; [exact E|]. rewrite Hs'. unfold string_refusal. by destruct (Z.eqb_spec (zlen bs) (2 ^ 32 - 1)); [lia|].
Qed.

Lemma varint32_accepts_overlong_witness :
  pb_decode_varint32 (S := unit) (pb_istream_from_buffer (replicate 37 0x80 ++ [1]) 38) =
    Done (Some 8, PbIStream (SrcBuffer []) 0 None).
Proof. apply (varint32_accepts_overlong 1). lia. Defined.

(** One bool at 1000, with three foreign bytes behind it. *)
Lemma fixed_count_reset_writes_four_bytes_witness :
  exists m', pb_field_set_to_default 1
      (PbFieldIter [PbField 1 0x20 0 0 1 1 PtrNull; PB_LAST_FIELD] 0 0 1000 1000 (SizeAt 1000))
      (struct_mem 1000 [7; 7; 7; 7], 0) = Done (tt, (m', 0)) /\ load_bytes m' 1000 4 = Some [0; 0; 0; 0].
Proof.
  apply (fixed_count_reset_writes_four_bytes 0
    (PbFieldIter [PbField 1 0x20 0 0 1 1 PtrNull; PB_LAST_FIELD] 0 0 1000 1000 (SizeAt 1000))
    (PbField 1 0x20 0 0 1 1 PtrNull) (struct_mem 1000 [7; 7; 7; 7]) 0); try done.
  intros i Hi. destruct (struct_mem_inited 1000 [7; 7; 7; 7]) with (i := i) as (b & Hb & _);
    [repeat constructor; vm_compute; done|cbn in *; lia|]. rewrite Hb. by eexists.
Defined.

Lemma full_string_refused_witness :
  exists s', pb_dec_string (S := unit) (PbField 1 0x07 0 0 3 0 PtrNull) 1000
      (PbIStream (SrcBuffer (delimited [65; 66; 67] ++ [])) 4 None) (Sample_mem, 0) = Done (None, s', (Sample_mem, 0)) /\
    ierrmsg s' = Some "string overflow"%string.
Proof.
  apply (full_string_refused (S := unit) (PbField 1 0x07 0 0 3 0 PtrNull) 1000 [65; 66; 67] [] 4 (Sample_mem, 0));
    [done|vm_compute; intros H; discriminate H|vm_compute; done|vm_compute; intros H; discriminate H].
Defined.

(** Field number 0 is not refused: in a message without fields it matches the
    terminator of the descriptor array, which is then decoded as a bool. *)
Example tag_zero_decodes_terminator :
  exists s' m' c',
    pb_decode (S := unit) 2 [PB_LAST_FIELD] 1000 (pb_istream_from_buffer [0x02; 0x05] 2)
      (struct_mem 1000 [7], 0) = Done (Some tt, s', (m', c')) /\
    load_bytes m' 1000 1 = Some [1].
Proof. eexists _, _, _. split; [vm_compute; reflexivity|vm_compute; reflexivity]. Qed.
