(* ===== verification/UvCommon.v ===== *)
(** * UvCommon: error codes and the flags every handle has
    (Libuv-gRPC/src/uv-common.h, include/uv/errno.h).

    The macros that start, stop, reference and unreference a handle change the
    handle's [flags] and the loop's [active_handles]; they are functions on
    that pair.  The error numbers are those of the Darwin build. *)

From Stdlib Require Import ZifyBool.
From stdpp Require Import base tactics numbers list gmap strings.
From S2P Require Import Prelude.
Open Scope Z_scope.

Definition UV_E2BIG : Z := -7.
Definition UV_EINVAL : Z := -22.
Definition UV_ENOSPC : Z := -28.
Definition UV_EAFNOSUPPORT : Z := -47.

Definition UV_HANDLE_CLOSING : Z := 0x01.
Definition UV_HANDLE_CLOSED : Z := 0x02.
Definition UV_HANDLE_ACTIVE : Z := 0x04.
Definition UV_HANDLE_REF : Z := 0x08.

Definition has_flag (flags f : Z) : bool := negb (Z.land flags f =? 0).

Definition uv__is_active (flags : Z) : bool := has_flag flags UV_HANDLE_ACTIVE.
Definition uv__is_closing (flags : Z) : bool := has_flag flags (Z.lor UV_HANDLE_CLOSING UV_HANDLE_CLOSED).
Definition uv__has_ref (flags : Z) : bool := has_flag flags UV_HANDLE_REF.

(** [flags] and [active_handles], both [unsigned int]. *)
Definition uv__handle_start (flags active : Z) : Z * Z :=
  if uv__is_active flags then (flags, active) else
  let flags := Z.lor flags UV_HANDLE_ACTIVE in
  (flags, if uv__has_ref flags then u32 (active + 1) else active).

Definition uv__handle_stop (flags active : Z) : Z * Z :=
  if negb (uv__is_active flags) then (flags, active) else
  let flags := Z.land flags (u32 (Z.lnot UV_HANDLE_ACTIVE)) in
  (flags, if uv__has_ref flags then u32 (active - 1) else active).

Definition uv__handle_ref (flags active : Z) : Z * Z :=
  if uv__has_ref flags then (flags, active) else
  let flags := Z.lor flags UV_HANDLE_REF in
  if has_flag flags UV_HANDLE_CLOSING then (flags, active) else
  (flags, if uv__is_active flags then u32 (active + 1) else active).

Definition uv__handle_unref (flags active : Z) : Z * Z :=
  if negb (uv__has_ref flags) then (flags, active) else
  let flags := Z.land flags (u32 (Z.lnot UV_HANDLE_REF)) in
  if has_flag flags UV_HANDLE_CLOSING then (flags, active) else
  (flags, if uv__is_active flags then u32 (active - 1) else active).

(** ** Flags as bits *)

Lemma has_flag_bit flags n : 0 <= n -> has_flag flags (2 ^ n) = Z.testbit flags n.
Proof.
  intros Hn. unfold has_flag. destruct (Z.eqb_spec (Z.land flags (2 ^ n)) 0) as [E|E]; cbn [negb].
  - apply (f_equal (fun z => Z.testbit z n)) in E. rewrite Z.land_spec, Z.pow2_bits_true, Z.bits_0, andb_true_r in E; auto.
  - destruct (Z.testbit flags n) eqn:Eb; [done|]. exfalso. apply E. apply Z.bits_inj'. intros m Hm.
    rewrite Z.land_spec, Z.bits_0, Z.pow2_bits_eqb by done. destruct (Z.eqb_spec n m) as [->|]; [by rewrite Eb|apply andb_false_r].
Qed.

Lemma active_bit flags : uv__is_active flags = Z.testbit flags 2.
Proof. apply (has_flag_bit flags 2). lia. Qed.

Lemma ref_bit flags : uv__has_ref flags = Z.testbit flags 3.
Proof. apply (has_flag_bit flags 3). lia. Qed.

Lemma closing_bits flags : uv__is_closing flags = Z.testbit flags 0 || Z.testbit flags 1.
Proof.
  rewrite <- (has_flag_bit flags 0), <- (has_flag_bit flags 1) by lia. unfold uv__is_closing, has_flag.
  change (Z.lor UV_HANDLE_CLOSING UV_HANDLE_CLOSED) with (Z.lor (2 ^ 0) (2 ^ 1)). rewrite Z.land_lor_distr_r.
  destruct (Z.eqb_spec (Z.land flags (2 ^ 0)) 0) as [->|], (Z.eqb_spec (Z.land flags (2 ^ 1)) 0) as [->|];
    cbn [negb orb]; rewrite ?Z.lor_0_l, ?Z.lor_0_r; try (apply negb_true_iff, Z.eqb_neq; done); [done|].
  apply negb_true_iff, Z.eqb_neq. rewrite Z.lor_eq_0_iff. tauto.
Qed.

(** Setting and clearing one flag. *)
Lemma set_flag_bit flags n m : 0 <= n -> Z.testbit (Z.lor flags (2 ^ n)) m = Z.testbit flags m || (n =? m).
Proof. intros. by rewrite Z.lor_spec, Z.pow2_bits_eqb. Qed.

Lemma clear_flag_bit flags n m :
  0 <= n -> 0 <= m < 32 -> Z.testbit (Z.land flags (u32 (Z.lnot (2 ^ n)))) m = Z.testbit flags m && negb (n =? m).
Proof.
  intros Hn Hm. unfold u32, wrap. rewrite Z.land_spec, Z.mod_pow2_bits_low, Z.lnot_spec, Z.pow2_bits_eqb by lia. done.
Qed.

(** Whether a handle counts towards [active_handles]. *)
Definition counts (flags : Z) : bool := uv__is_active flags && uv__has_ref flags.

Lemma handle_start_spec flags active :
  let '(flags', active') := uv__handle_start flags active in
  uv__is_active flags' = true /\ uv__has_ref flags' = uv__has_ref flags /\ uv__is_closing flags' = uv__is_closing flags /\
  active' = if uv__is_active flags then active else if uv__has_ref flags then u32 (active + 1) else active.
Proof.
  unfold uv__handle_start. destruct (uv__is_active flags) eqn:E; [done|].
  rewrite !active_bit, !ref_bit, !closing_bits. change UV_HANDLE_ACTIVE with (2 ^ 2).
  rewrite !set_flag_bit by lia. cbn. by rewrite !orb_false_r, orb_true_r.
Qed.

Lemma handle_stop_spec flags active :
  let '(flags', active') := uv__handle_stop flags active in
  uv__is_active flags' = false /\ uv__has_ref flags' = uv__has_ref flags /\ uv__is_closing flags' = uv__is_closing flags /\
  active' = if uv__is_active flags then if uv__has_ref flags then u32 (active - 1) else active else active.
Proof.
  unfold uv__handle_stop. destruct (uv__is_active flags) eqn:E; cbn [negb]; [|done].
  rewrite !active_bit, !ref_bit, !closing_bits. change UV_HANDLE_ACTIVE with (2 ^ 2).
  rewrite !clear_flag_bit by lia. cbn. by rewrite !andb_true_r, andb_false_r.
Qed.
