(* ===== verification/UvHeap.v ===== *)
(** * UvHeap: the pointer-linked binary heap (Libuv-gRPC/src/heap-inl.h).

    The nodes are C structs linked by [left], [right] and [parent] pointers;
    the store [nodes] maps the address of each node to its struct, and [NULL]
    is 0.  The comparison function is a parameter.  Loops that follow the
    links carry a fuel of 33: a heap of fewer than 2^32 elements is at most 32
    levels deep.

    UvHeapShape and UvHeapOps state and prove what the code does. *)

From Stdlib Require Import ZifyBool.
From stdpp Require Import base tactics numbers list gmap strings.
From S2P Require Import Prelude.
Open Scope Z_scope.

(** [struct heap_node] *)
Record heap_node : Type := HeapNode { left : Z; right : Z; parent : Z }.

(** [struct heap], with the memory its nodes live in. *)
Record heap : Type := Heap { min : Z; nelts : Z; nodes : gmap Z heap_node }.

(** A [struct heap_node**]: the address of [heap->min] or of a link of a node. *)
Inductive link : Type := AtMin | AtLeft (a : Z) | AtRight (a : Z).

Definition get_node (a : Z) : prog heap heap_node := prog_get (fun h => nodes h !! a).
Definition alter_node (f : heap_node -> heap_node) (a : Z) : prog heap unit := prog_put (fun h =>
  _ ← nodes h !! a; Some (Heap (min h) (nelts h) (alter f a (nodes h)))).
Definition set_left (a v : Z) : prog heap unit := alter_node (fun x => HeapNode v (right x) (parent x)) a.
Definition set_right (a v : Z) : prog heap unit := alter_node (fun x => HeapNode (left x) v (parent x)) a.
Definition set_parent (a v : Z) : prog heap unit := alter_node (fun x => HeapNode (left x) (right x) v) a.
Definition set_min (v : Z) : prog heap unit := prog_put (fun h => Some (Heap v (nelts h) (nodes h))).
Definition set_nelts (n : Z) : prog heap unit := prog_put (fun h => Some (Heap (min h) n (nodes h))).

(** [*l] and [*l = v] *)
Definition deref (l : link) : prog heap Z :=
  match l with
  | AtMin => prog_get (fun h => Some (min h))
  | AtLeft a => x ← get_node a; mret (left x)
  | AtRight a => x ← get_node a; mret (right x)
  end.
Definition assign (l : link) (v : Z) : prog heap unit :=
  match l with AtMin => set_min v | AtLeft a => set_left a v | AtRight a => set_right a v end.

(** [if (a != NULL) a->parent = v;] *)
Definition set_parent_if (a v : Z) : prog heap unit :=
  if negb (a =? 0) then set_parent a v else mret tt.

Definition heap_init (m : gmap Z heap_node) : heap := Heap 0 0 m.
Definition heap_min (h : heap) : Z := min h.

Definition heap_node_swap (par child : Z) : prog heap unit :=
  t ← get_node par;
  c ← get_node child;
  alter_node (fun _ => c) par;;
  alter_node (fun _ => t) child;;
  set_parent par child;;
  c ← get_node child;
  sibling ← (if left c =? child
             then set_left child par;; (c ← get_node child; mret (right c))
             else set_right child par;; (c ← get_node child; mret (left c)));
  set_parent_if sibling child;;
  p ← get_node par;
  set_parent_if (left p) par;;
  p ← get_node par;
  set_parent_if (right p) par;;
  c ← get_node child;
  if parent c =? 0 then set_min child else
  g ← get_node (parent c);
  if left g =? par then set_left (parent c) child else set_right (parent c) child.

(** [for (k = 0, n = ..; n >= 2; k += 1, n /= 2) path = (path << 1) | (n & 1);] *)
Fixpoint heap_path (fuel : nat) (path k n : Z) : outcome (Z * Z) :=
  match fuel with
  | O => NoFuel
  | S fuel =>
    if 2 <=? n then heap_path fuel (Z.lor (u32 (Z.shiftl path 1)) (Z.land n 1)) (u32 (k + 1)) (n / 2)
    else Done (path, k)
  end.

(** [while (k > 0) { parent = child; child = ..; path >>= 1; k -= 1; }] *)
Fixpoint heap_descend (k : nat) (path : Z) (par child : link) : prog heap (link * link) :=
  match k with
  | O => mret (par, child)
  | S k =>
    a ← deref child;
    heap_descend k (Z.shiftr path 1) child (if negb (Z.land path 1 =? 0) then AtRight a else AtLeft a)
  end.

Section Compare.
(** [heap_compare_fn]: it reads the structs that contain the nodes, not the
    links. *)
Variable less_than : Z -> Z -> outcome bool.

(** [while (a->parent != NULL && less_than(a, a->parent)) heap_node_swap(heap, a->parent, a);] *)
Fixpoint sift_up (fuel : nat) (a : Z) : prog heap unit :=
  match fuel with
  | O => prog_nofuel
  | S fuel =>
    x ← get_node a;
    if parent x =? 0 then mret tt else
    lt ← prog_lift (less_than a (parent x));
    if lt : bool then heap_node_swap (parent x) a;; sift_up fuel a else mret tt
  end.

(** [if (b != NULL && less_than(b, smallest)) smallest = b;] *)
Definition smaller (b smallest : Z) : prog heap Z :=
  if b =? 0 then mret smallest else
  lt ← prog_lift (less_than b smallest);
  mret (if lt : bool then b else smallest).

(** [for (;;) { .. heap_node_swap(heap, child, smallest); }] *)
Fixpoint sift_down (fuel : nat) (a : Z) : prog heap unit :=
  match fuel with
  | O => prog_nofuel
  | S fuel =>
    x ← get_node a;
    smallest ← smaller (left x) a;
    smallest ← smaller (right x) smallest;
    if smallest =? a then mret tt else
    heap_node_swap a smallest;;
    sift_down fuel a
  end.

Definition heap_insert (newnode : Z) : prog heap unit :=
  alter_node (fun _ => HeapNode 0 0 0) newnode;;
  n ← prog_get (fun h => Some (nelts h));
  '(path, k) ← prog_lift (heap_path 33 0 0 (u32 (1 + n)));
  '(par, child) ← heap_descend (Z.to_nat k) path AtMin AtMin;
  p ← deref par;
  set_parent newnode p;;
  assign child newnode;;
  n ← prog_get (fun h => Some (nelts h));
  set_nelts (u32 (n + 1));;
  sift_up 33 newnode.

Definition heap_remove (node : Z) : prog heap unit :=
  n ← prog_get (fun h => Some (nelts h));
  if n =? 0 then mret tt else
  '(path, k) ← prog_lift (heap_path 33 0 0 n);
  '(_, max) ← heap_descend (Z.to_nat k) path AtMin AtMin;
  set_nelts (u32 (n - 1));;
  child ← deref max;
  assign max 0;;
  if child =? node then
    m ← prog_get (fun h => Some (min h));
    if child =? m then set_min 0 else mret tt
  else
    x ← get_node node;
    alter_node (fun _ => HeapNode (left x) (right x) (parent x)) child;;
    set_parent_if (left x) child;;
    set_parent_if (right x) child;;
    x ← get_node node;
    (if parent x =? 0 then set_min child else
     g ← get_node (parent x);
     if left g =? node then set_left (parent x) child else set_right (parent x) child);;
    sift_down 33 child;;
    sift_up 33 child.

Definition heap_dequeue : prog heap unit :=
  m ← prog_get (fun h => Some (min h));
  heap_remove m.
End Compare.
