(* ===== verification/UvHeapShape.v ===== *)
(** * UvHeapShape: the tree that the links of a heap represent.

    Position [p] of a complete binary tree is a binary number: [p~0] and [p~1]
    are its children, 1 is the root, and a tree of [n] elements has the
    positions up to [n].  [represents f h] says that the links of [h] are those
    of the tree with node [f p] at position [p].  The path computed from the
    number of elements leads to the last position, and [heap_node_swap]
    exchanges the nodes at a position and at one of its children. *)

From Stdlib Require Import ZifyBool.
From stdpp Require Import base tactics numbers list gmap strings.
From S2P Require Import Prelude UvHeap.
Open Scope Z_scope.

(** ** Positions of a complete binary tree *)

Definition kid (b : bool) (p : positive) : positive := if b then p~1%positive else p~0%positive.

(** The position above, the turns from the root to a position, and back. *)
Definition up (p : positive) : option positive :=
  match p with xH => None | xO q | xI q => Some q end.

Fixpoint route (p : positive) : list bool :=
  match p with
  | xH => []
  | xO q => route q ++ [false]
  | xI q => route q ++ [true]
  end.

Definition follow (p : positive) (r : list bool) : positive := foldl (fun p b => kid b p) p r.

(** The turns as the bits of [path], the first turn lowest. *)
Fixpoint turns (r : list bool) : Z :=
  match r with [] => 0 | b :: r => Z.b2z b + 2 * turns r end.

(** [f] gives the node at each position, 0 where there is none. *)
Definition at_up (f : positive -> Z) (p : positive) : Z :=
  match up p with None => 0 | Some q => f q end.

Definition link_to (f : positive -> Z) (p : positive) : link :=
  match p with xH => AtMin | xO q => AtLeft (f q) | xI q => AtRight (f q) end.

(** The links of the nodes represent the tree [f] of [nelts] positions. *)
Record represents (f : positive -> Z) (h : heap) : Prop := Represents {
  rep_min : min h = f 1%positive;
  rep_nelts : 0 <= nelts h < 2 ^ 32;
  rep_full p : f p <> 0 <-> Z.pos p <= nelts h;
  rep_inj p q : f p = f q -> f p <> 0 -> p = q;
  rep_node p : f p <> 0 -> nodes h !! f p = Some (HeapNode (f p~0)%positive (f p~1)%positive (at_up f p));
  rep_null : nodes h !! 0 = None;
}.

Definition swapped (f : positive -> Z) (p q : positive) : positive -> Z :=
  fun r => if decide (r = p) then f q else if decide (r = q) then f p else f r.

Definition replaced (f : positive -> Z) (p : positive) (a : Z) : positive -> Z :=
  fun r => if decide (r = p) then a else f r.

Lemma kid_inj b b' p q : kid b p = kid b' q -> b = b' /\ p = q.
Proof. destruct b, b'; cbn; naive_solver. Qed.

Lemma up_kid b p : up (kid b p) = Some p.
Proof. by destruct b. Qed.

Lemma pos_cases p : p = 1%positive \/ exists b q, p = kid b q.
Proof. destruct p as [q|q|]; [right; by exists true, q|right; by exists false, q|by left]. Qed.

Lemma follow_app p r r' : follow p (r ++ r') = follow (follow p r) r'.
Proof. apply foldl_app. Qed.

Lemma follow_route p : follow 1 (route p) = p.
Proof. induction p as [q IH|q IH|]; cbn [route]; rewrite ?follow_app, ?IH; done. Qed.

Lemma route_kid b p : route (kid b p) = route p ++ [b].
Proof. by destruct b. Qed.

Lemma turns_range r : 0 <= turns r < 2 ^ Z.of_nat (length r).
Proof.
  induction r as [|b r IH]; cbn [turns length]; [lia|].
  rewrite Nat2Z.inj_succ, Z.pow_succ_r by lia. destruct b; cbn; lia.
Qed.

Lemma length_route p : Z.of_nat (length (route p)) = Z.log2 (Z.pos p).
Proof.
  induction p as [q IH|q IH|]; cbn [route]; [..|done]; rewrite length_app; cbn [length].
  - rewrite Pos2Z.inj_xI, (Z.log2_succ_double (Z.pos q)); lia.
  - rewrite Pos2Z.inj_xO, (Z.log2_double (Z.pos q)); lia.
Qed.

Lemma route_short p : Z.pos p < 2 ^ 32 -> (length (route p) < 32)%nat.
Proof. intros Hp. pose proof (length_route p). pose proof (Z.log2_lt_pow2 (Z.pos p) 32 ltac:(lia)). lia. Qed.

Lemma follow_le p r : Z.pos p <= Z.pos (follow p r).
Proof.
  revert p. induction r as [|b r IH]; intros p; cbn [follow foldl]; [lia|].
  specialize (IH (kid b p)). destruct b; cbn in *; unfold follow in IH; lia.
Qed.

(** The loop computes the turns of the route. *)
Lemma heap_path_route fuel p acc :
  (length (route p) < fuel)%nat -> (length (route p) + length acc < 32)%nat ->
  heap_path fuel (turns acc) (zlen acc) (Z.pos p) = Done (turns (route p ++ acc), zlen (route p ++ acc)).
Proof.
  revert p acc. induction fuel as [|fuel IH]; intros p acc Hf Hl; [lia|]. cbn [heap_path].
  destruct (pos_cases p) as [->|(b & q & ->)]; [done|].
  rewrite route_kid in *. rewrite length_app in Hf, Hl. cbn [length] in Hf, Hl.
  destruct (Z.leb_spec 2 (Z.pos (kid b q))); [|destruct b; cbn in *; lia].
  replace (Z.pos (kid b q) / 2) with (Z.pos q) by (apply (Z.div_unique _ _ _ (Z.b2z b)); destruct b; cbn; lia).
  assert (Z.lor (u32 (Z.shiftl (turns acc) 1)) (Z.land (Z.pos (kid b q)) 1) = turns (b :: acc)) as ->.
  { pose proof (turns_range acc). assert (2 ^ zlen acc <= 2 ^ 31) by (apply Z.pow_le_mono_r; lia).
    rewrite u32_small by (rewrite Z.shiftl_mul_pow2; lia). rewrite Z.shiftl_mul_pow2 by lia.
    assert (Z.land (Z.pos (kid b q)) 1 = Z.b2z b) as -> by (destruct b; by destruct q).
    rewrite <- Z.shiftl_mul_pow2, Z.lor_comm, lor_shiftl_add by (destruct b; cbn; lia). cbn [turns]. lia. }
  assert (u32 (zlen acc + 1) = zlen (b :: acc)) as -> by (cbn [length]; rewrite u32_small; lia).
  rewrite IH by (cbn [length]; lia). by rewrite <- app_assoc.
Qed.

(** ** Reading the links *)

Lemma rep_pos f h p : represents f h -> f p <> 0 -> Z.pos p <= nelts h.
Proof. intros Hr. by apply (rep_full f h Hr). Qed.

Lemma rep_up f h b p : represents f h -> f (kid b p) <> 0 -> f p <> 0.
Proof.
  intros Hr. rewrite !(rep_full f h Hr). destruct b; cbn; lia.
Qed.

Lemma get_node_rep f h p : represents f h -> f p <> 0 ->
  get_node (f p) h = Done (HeapNode (f p~0)%positive (f p~1)%positive (at_up f p), h).
Proof. intros Hr Hp. unfold get_node, prog_get. by rewrite (rep_node f h Hr p Hp). Qed.

Lemma deref_link f h p : represents f h -> (forall b q, p = kid b q -> f q <> 0) ->
  deref (link_to f p) h = Done (f p, h).
Proof.
  intros Hr Hq. destruct p as [q|q|]; cbn [link_to deref].
  - eapply prog_step; [apply get_node_rep; [done|by apply (Hq true q)]|done].
  - eapply prog_step; [apply get_node_rep; [done|by apply (Hq false q)]|done].
  - unfold prog_get. cbn. by rewrite (rep_min f h Hr).
Qed.

(** Descending along [r] from position [p] reaches the link to the position
    the turns lead to, and the link to the position above it. *)
Lemma descend_rep f h r p par :
  represents f h -> (forall r1 b r2, r = r1 ++ b :: r2 -> f (follow p r1) <> 0) ->
  (forall b q, p = kid b q -> f q <> 0) ->
  heap_descend (length r) (turns r) par (link_to f p) h =
    Done (match up (follow p r) with Some q => if decide (r = []) then par else link_to f q | None => par end,
          link_to f (follow p r), h).
Proof.
  intros Hr. revert p par. induction r as [|b r IH]; intros p par Hall Hp; cbn [length heap_descend].
  { cbn. by destruct (up p). }
  eapply prog_step; [by apply deref_link|].
  assert (Hfp : f p <> 0) by exact (Hall [] b r eq_refl).
  assert (Z.shiftr (turns (b :: r)) 1 = turns r) as ->.
  { rewrite Z.shiftr_div_pow2 by lia. cbn [turns]. symmetry. apply (Z.div_unique _ _ _ (Z.b2z b)); destruct b; cbn; lia. }
  assert ((if negb (Z.land (turns (b :: r)) 1 =? 0) then AtRight (f p) else AtLeft (f p)) = link_to f (kid b p)) as ->.
  { assert (Z.land (turns (b :: r)) 1 = Z.b2z b) as ->; [|by destruct b].
    change 1 with (Z.ones 1) at 1. rewrite Z.land_ones by lia. cbn [turns]. symmetry.
    apply (Z.mod_unique _ _ (turns r)); destruct b; cbn; lia. }
  rewrite IH.
  - cbn [follow foldl]. destruct r as [|b' r].
    { unfold follow. cbn [foldl]. rewrite up_kid. by rewrite decide_True, decide_False by done. }
    fold (follow (kid b p) (b' :: r)). destruct (up _) eqn:E; [by rewrite !decide_False|].
    pose proof (follow_le (kid b p) (b' :: r)). destruct (follow _ _); try discriminate E. destruct b; cbn in *; lia.
  - intros r1 b1 r2 ->. apply (Hall (b :: r1) b1 r2). done.
  - intros b' q E. apply kid_inj in E as [_ ->]. done.
Qed.

(** ** Updating the links *)

Abbreviation with_left v := (fun x => HeapNode v (right x) (parent x)).
Abbreviation with_right v := (fun x => HeapNode (left x) v (parent x)).
Abbreviation with_parent v := (fun x => HeapNode (left x) (right x) v).
Abbreviation with_nodes h m := (Heap (min h) (nelts h) m).

Lemma get_node_run a h x : nodes h !! a = Some x -> get_node a h = Done (x, h).
Proof. intros E. unfold get_node, prog_get. by rewrite E. Qed.

Lemma alter_node_run g a h x : nodes h !! a = Some x ->
  alter_node g a h = Done (tt, with_nodes h (alter g a (nodes h))).
Proof. intros E. unfold alter_node, prog_put. by rewrite E. Qed.

Lemma set_parent_if_run a v h : (a <> 0 -> is_Some (nodes h !! a)) -> nodes h !! 0 = None ->
  set_parent_if a v h = Done (tt, with_nodes h (alter (with_parent v) a (nodes h))).
Proof.
  intros Ha H0. unfold set_parent_if. destruct (Z.eqb_spec a 0) as [->|Hne]; cbn [negb].
  - assert (alter (with_parent v) 0 (nodes h) = nodes h) as ->; [|by destruct h].
    apply map_eq. intros i. destruct (decide (i = 0)) as [->|]; [|by rewrite lookup_alter_ne].
    by rewrite lookup_alter_eq, H0.
  - destruct (Ha Hne) as [x Hx]. by eapply alter_node_run.
Qed.

(** Lookups through updates at nodes of the tree are decided on positions. *)
Lemma lookup_alter_at (f : positive -> Z) g (m : gmap Z heap_node) p q :
  (forall p q, f p = f q -> f p <> 0 -> p = q) -> f p <> 0 ->
  alter g (f q) m !! f p = if decide (p = q) then g <$> m !! f p else m !! f p.
Proof.
  intros Hinj Hp. destruct (decide (p = q)) as [->|Hne]; [apply lookup_alter_eq|].
  apply lookup_alter_ne. intros E. by apply Hne, Hinj.
Qed.

Lemma lookup_alter_0 g (m : gmap Z heap_node) a : m !! 0 = None -> alter g a m !! 0 = None.
Proof. intros E. by apply lookup_alter_None. Qed.

Lemma swapped_l f p q : swapped f p q p = f q.
Proof. unfold swapped. by rewrite decide_True. Qed.
Lemma swapped_r f p q : swapped f p q q = f p.
Proof. unfold swapped. case_decide; [by subst|by rewrite decide_True]. Qed.
Lemma swapped_ne f p q r : r <> p -> r <> q -> swapped f p q r = f r.
Proof. intros. unfold swapped. by rewrite !decide_False. Qed.

Lemma swapped_involutive f p q r : swapped (swapped f p q) p q r = f r.
Proof.
  destruct (decide (r = p)) as [->|]; [by rewrite swapped_l, swapped_r|].
  destruct (decide (r = q)) as [->|]; [by rewrite swapped_r, swapped_l|]. by rewrite !swapped_ne.
Qed.

Definition exchange (p q r : positive) : positive :=
  if decide (r = p) then q else if decide (r = q) then p else r.

Lemma swapped_exchange f p q r : swapped f p q r = f (exchange p q r).
Proof. unfold swapped, exchange. by repeat case_decide. Qed.

Lemma exchange_l p q : exchange p q p = q.
Proof. unfold exchange. by rewrite decide_True. Qed.
Lemma exchange_r p q : exchange p q q = p.
Proof. unfold exchange. case_decide; [by subst|by rewrite decide_True]. Qed.
Lemma exchange_ne p q r : r <> p -> r <> q -> exchange p q r = r.
Proof. intros. unfold exchange. by rewrite !decide_False. Qed.

Lemma exchange_involutive p q r : exchange p q (exchange p q r) = r.
Proof. unfold exchange. repeat case_decide; congruence. Qed.

Ltac at_positions Hinj :=
  repeat first
    [ rewrite (lookup_alter_at _ _ _ _ _ Hinj) by assumption
    | rewrite decide_True by first [done|lia]
    | rewrite decide_False by first [done|lia] ].

Ltac run_node Hinj Hnode :=
  eapply prog_step;
  [ first [eapply get_node_run|eapply alter_node_run]; cbn [nodes]; at_positions Hinj;
    rewrite ?Hnode by assumption; reflexivity
  | cbn [nodes min nelts left right parent at_up up kid] ].

Ltac run_parent Hinj Hnode H0 :=
  eapply prog_step;
  [ apply set_parent_if_run; cbn [nodes];
    [ intros ?; at_positions Hinj; rewrite ?Hnode by assumption; by eexists
    | repeat apply lookup_alter_0; exact H0 ]
  | cbn [nodes min nelts left right parent at_up up kid] ].

Lemma eqb_positions (f : positive -> Z) p q :
  (forall p q, f p = f q -> f p <> 0 -> p = q) -> f p <> 0 -> p <> q -> (f q =? f p) = false.
Proof. intros Hinj Hp Hne. apply Z.eqb_neq. intros E. by apply Hne, Hinj. Qed.

Lemma exchange_rep f h h' p q :
  represents f h -> f p <> 0 -> f q <> 0 -> nelts h' = nelts h -> nodes h' !! 0 = None ->
  min h' = swapped f p q 1 ->
  (forall r, swapped f p q r <> 0 -> nodes h' !! swapped f p q r =
     Some (HeapNode (swapped f p q r~0)%positive (swapped f p q r~1)%positive (at_up (swapped f p q) r))) ->
  represents (swapped f p q) h'.
Proof.
  intros Hr Hp Hq Hn H0 Hm Hnode. split; [done|rewrite Hn; apply (rep_nelts f h Hr)| | |done|done].
  - intros r. rewrite Hn, <- (rep_full f h Hr). unfold swapped. repeat case_decide; subst; done.
  - intros r r'. rewrite !swapped_exchange. intros E Hne. apply (rep_inj f h Hr) in E; [|done].
    by rewrite <- (exchange_involutive p q r), E, exchange_involutive.
Qed.

(** What a swap does to the store, and the change of the link that leads to
    position [p]. *)
Definition swap_links (f : positive -> Z) (b : bool) (p : positive) (m : gmap Z heap_node) : gmap Z heap_node :=
  let c := kid b p in
  alter (with_parent (f p)) (f c~1)%positive
    (alter (with_parent (f p)) (f c~0)%positive
      (alter (with_parent (f c)) (f (kid (negb b) p))
        (alter (if b then with_right (f p) else with_left (f p)) (f c)
          (alter (with_parent (f c)) (f p)
            (alter (fun _ => HeapNode (f p~0) (f p~1) (at_up f p))%positive (f c)
              (alter (fun _ => HeapNode (f c~0) (f c~1) (f p))%positive (f p) m)))))).

Definition relinked (f : positive -> Z) (p : positive) (v : Z) (h : heap) : heap :=
  match p with
  | xH => Heap v (nelts h) (nodes h)
  | xO g => with_nodes h (alter (with_left v) (f g) (nodes h))
  | xI g => with_nodes h (alter (with_right v) (f g) (nodes h))
  end.

(** [if (parent == NULL) heap->min = v; else if (parent->left == old) ..] *)
Lemma relink_run f p v h x :
  (forall p q, f p = f q -> f p <> 0 -> p = q) -> f p <> 0 ->
  (forall b g, p = kid b g -> f g <> 0 /\ nodes h !! f g = Some (HeapNode (f g~0)%positive (f g~1)%positive (x g))) ->
  (if at_up f p =? 0 then set_min v else
   g ← get_node (at_up f p);
   if left g =? f p then set_left (at_up f p) v else set_right (at_up f p) v) h = Done (tt, relinked f p v h).
Proof.
  intros Hinj Hp Hg. destruct p as [g|g|]; cbn [at_up up relinked]; [..|done].
  - destruct (Hg true g eq_refl) as [Hne E]. rewrite (proj2 (Z.eqb_neq _ _) Hne).
    eapply prog_step; [by apply get_node_run|]. cbn [left]. rewrite (eqb_positions f) by (done || lia).
    by eapply alter_node_run.
  - destruct (Hg false g eq_refl) as [Hne E]. rewrite (proj2 (Z.eqb_neq _ _) Hne).
    eapply prog_step; [by apply get_node_run|]. cbn [left]. rewrite Z.eqb_refl. by eapply alter_node_run.
Qed.

Lemma heap_node_swap_run f h b p :
  represents f h -> f (kid b p) <> 0 ->
  heap_node_swap (f p) (f (kid b p)) h =
    Done (tt, relinked f p (f (kid b p)) (with_nodes h (swap_links f b p (nodes h)))).
Proof.
  intros Hr Hc. pose proof (rep_up f h b p Hr Hc) as Hp. pose proof (rep_inj f h Hr) as Hinj.
  pose proof (rep_node f h Hr) as Hnode. pose proof (rep_null f h Hr) as H0.
  unfold heap_node_swap, swap_links. destruct b; cbn [kid negb] in *.
  all: do 6 run_node Hinj Hnode.
  all: rewrite ?(eqb_positions f _ _ Hinj), ?Z.eqb_refl by (done || lia); etransitivity; [apply prog_bind_assoc|].
  all: run_node Hinj Hnode; etransitivity; [apply prog_bind_assoc|]; run_node Hinj Hnode.
  all: eapply prog_step; [reflexivity|].
  all: run_parent Hinj Hnode H0; run_node Hinj Hnode; run_parent Hinj Hnode H0; run_node Hinj Hnode.
  all: run_parent Hinj Hnode H0; run_node Hinj Hnode.
  all: apply (relink_run f p _ _ (at_up f) Hinj Hp); intros c g ->; cbn [nodes].
  all: assert (Hg : f g <> 0) by (by apply (rep_up f h c g)); split; [done|].
  all: destruct c; cbn [kid] in *; at_positions Hinj; by rewrite Hnode.
Qed.

(** The nodes after a swap, position by position: the two swapped positions,
    their neighbours, and the others. *)
Lemma swapped_node f h b p r :
  represents f h -> f (kid b p) <> 0 -> swapped f p (kid b p) r <> 0 ->
  nodes (relinked f p (f (kid b p)) (with_nodes h (swap_links f b p (nodes h)))) !! swapped f p (kid b p) r =
    Some (HeapNode (swapped f p (kid b p) r~0)%positive (swapped f p (kid b p) r~1)%positive
            (at_up (swapped f p (kid b p)) r)).
Proof.
  intros Hr Hc. pose proof (rep_up f h b p Hr Hc) as Hp. pose proof (rep_inj f h Hr) as Hinj.
  pose proof (rep_node f h Hr) as Hnode. rewrite (swapped_exchange f p (kid b p) r). intros Hq.
  assert (E : nodes (relinked f p (f (kid b p)) (with_nodes h (swap_links f b p (nodes h)))) !! f (exchange p (kid b p) r) =
    Some (HeapNode (f (exchange p (kid b p) r~0)) (f (exchange p (kid b p) r~1))
            (match up r with None => 0 | Some q => f (exchange p (kid b p) q) end))%positive).
  - assert (r = p \/ r = kid b p \/ r = kid (negb b) p \/ r = kid false (kid b p) \/ r = kid true (kid b p) \/ up p = Some r \/
      (r <> p /\ r <> kid b p /\ r <> kid (negb b) p /\ r <> kid false (kid b p) /\ r <> kid true (kid b p) /\ up p <> Some r)) as Hcases
      by (destruct (decide (r = p)), (decide (r = kid b p)), (decide (r = kid (negb b) p)), (decide (r = kid false (kid b p))),
            (decide (r = kid true (kid b p))), (decide (up p = Some r)); tauto).
    unfold swap_links. destruct b, p as [g|g|]; cbn [kid negb relinked nodes up] in *.
    all: rewrite !(lookup_alter_at f _ _ _ _ Hinj Hq), (Hnode _ Hq); clear Hnode Hinj Hr.
    all: destruct Hcases as [->|[->|[->|[->|[->|[Hcase|Hcase]]]]]]; try injection Hcase as <-; try done.
    all: cbn [up] in *; rewrite ?exchange_l, ?exchange_r in *.
    all: repeat rewrite exchange_ne in * by (clear -Hcase + clear; intuition congruence || lia).
    all: repeat match goal with |- context [decide (?a = ?b)] =>
           first [rewrite (decide_False (P := a = b)) by (clear -Hcase + clear; lia)
                 |rewrite (decide_True (P := a = b)) by (clear; lia)] end.
    all: try done.
    all: try (destruct g; cbn [up at_up]; rewrite ?exchange_ne by (clear; lia); done).
    all: try (rewrite decide_False by (intros ->; tauto)).
    all: destruct r as [r|r|]; cbn [up at_up]; rewrite ?exchange_ne by (clear -Hcase; lia); done.
  - rewrite E. f_equal. f_equal; [by rewrite swapped_exchange..|].
    unfold at_up. destruct (up r); [by rewrite swapped_exchange|done].
Qed.

Lemma heap_node_swap_rep f h b p :
  represents f h -> f (kid b p) <> 0 ->
  exists h', heap_node_swap (f p) (f (kid b p)) h = Done (tt, h') /\
    represents (swapped f p (kid b p)) h' /\ nelts h' = nelts h /\ dom (nodes h') = dom (nodes h).
Proof.
  intros Hr Hc. pose proof (rep_up f h b p Hr Hc) as Hp. pose proof (rep_null f h Hr) as H0.
  eexists. split; [by apply heap_node_swap_run|]. split; [|split; [by destruct p|]].
  - apply (exchange_rep f h); [done..| | | |].
    + by destruct p.
    + destruct p; cbn [relinked nodes]; unfold swap_links; by repeat apply lookup_alter_0.
    + destruct p; cbn [relinked min]; [| |by rewrite swapped_l].
      all: rewrite swapped_ne by (destruct b; done); apply (rep_min f h Hr).
    + intros r. by apply swapped_node.
  - destruct p; cbn [relinked nodes]; unfold swap_links; by rewrite !dom_alter_L.
Qed.
