(* ===== verification/UvHeapOps.v ===== *)
(** * UvHeapOps: insertion and removal keep the heap a heap.

    Hanging a node at the last position and taking it away keep the shape; the
    two sifting loops then restore the order.  Together: [heap_insert] and
    [heap_remove] terminate without touching memory outside the nodes, keep
    the complete tree and its order, and add or remove exactly one member. *)

From Stdlib Require Import ZifyBool.
From stdpp Require Import base tactics numbers list gmap strings.
From S2P Require Import Prelude UvHeap UvHeapShape.
Open Scope Z_scope.

(** ** Hanging a node at a position *)

Lemma replaced_eq f p v : replaced f p v p = v.
Proof. unfold replaced. by rewrite decide_True. Qed.
Lemma replaced_ne f p v r : r <> p -> replaced f p v r = f r.
Proof. intros. unfold replaced. by rewrite decide_False. Qed.

(** The node at [r] once position [p] holds [v]. *)
Lemma replaced_rep f h h' p v :
  represents f h -> (forall q, f q = v -> v = 0) ->
  min h' = replaced f p v 1 -> 0 <= nelts h' < 2 ^ 32 ->
  (forall r, replaced f p v r <> 0 <-> Z.pos r <= nelts h') ->
  (forall r, r <> p -> f r <> 0 -> nodes h' !! f r =
     Some (HeapNode (replaced f p v r~0)%positive (replaced f p v r~1)%positive (at_up (replaced f p v) r))) ->
  (v <> 0 -> nodes h' !! v = Some (HeapNode (f p~0)%positive (f p~1)%positive (at_up f p))) ->
  nodes h' !! 0 = None ->
  represents (replaced f p v) h'.
Proof.
  intros Hr Hv Hm Hn Hfull Hnode Hnew H0. split; [exact Hm|exact Hn|exact Hfull| | |exact H0].
  - intros q r. unfold replaced. repeat case_decide; subst; intros E Hne; try done.
    + symmetry in E. apply Hv in E. done.
    + pose proof (Hv _ E). congruence.
    + by apply (rep_inj f h Hr).
  - intros r Hne. destruct (decide (r = p)) as [->|Hrp].
    + rewrite replaced_eq in *. rewrite (Hnew Hne), !replaced_ne by lia. do 2 f_equal.
      unfold at_up. destruct p; cbn [up]; rewrite ?replaced_ne by lia; done.
    + rewrite replaced_ne in Hne |- * by done. by apply Hnode.
Qed.

Lemma assign_run f h p v :
  represents f h -> (forall b q, p = kid b q -> f q <> 0) -> assign (link_to f p) v h = Done (tt, relinked f p v h).
Proof.
  intros Hr Hq. destruct p as [q|q|]; cbn [link_to assign relinked]; [..|done].
  - eapply alter_node_run, (rep_node f h Hr), (Hq true q eq_refl).
  - eapply alter_node_run, (rep_node f h Hr), (Hq false q eq_refl).
Qed.

(** Changing the link to [p] changes the node above [p] only. *)
Lemma relinked_node f h p v r :
  represents f h -> r <> p -> f r <> 0 ->
  (forall c, f (kid c p) = 0) ->
  nodes (relinked f p v h) !! f r =
    Some (HeapNode (replaced f p v r~0)%positive (replaced f p v r~1)%positive (at_up (replaced f p v) r)).
Proof.
  intros Hr Hne Hfr Hleaf. pose proof (rep_inj f h Hr) as Hinj. pose proof (rep_node f h Hr r Hfr) as E.
  assert (Hup : at_up (replaced f p v) r = at_up f r).
  { unfold at_up. destruct (up r) as [q|] eqn:Eq; [|done]. apply replaced_ne. intros ->.
    destruct r; cbn in Eq; simplify_eq; [by specialize (Hleaf true)|by specialize (Hleaf false)]. }
  rewrite Hup. destruct p as [g|g|]; cbn [relinked nodes].
  1,2: rewrite (lookup_alter_at f _ _ _ _ Hinj Hfr), E; destruct (decide (r = g)) as [->|];
       rewrite ?replaced_eq, ?replaced_ne by lia; done.
  rewrite E, !replaced_ne by lia. done.
Qed.

Lemma relinked_null f h p v : nodes h !! 0 = None -> nodes (relinked f p v h) !! 0 = None.
Proof. intros. destruct p; cbn [relinked nodes]; by rewrite ?lookup_alter_0. Qed.

Lemma relinked_min f h p v : min h = f 1%positive -> min (relinked f p v h) = replaced f p v 1.
Proof. intros. destruct p; cbn [relinked min]; by rewrite ?replaced_eq, ?replaced_ne. Qed.

Lemma relinked_nelts f h p v : nelts (relinked f p v h) = nelts h.
Proof. by destruct p. Qed.

Lemma relinked_dom f h p v : dom (nodes (relinked f p v h)) = dom (nodes h).
Proof. destruct p; cbn [relinked nodes]; by rewrite ?dom_alter_L. Qed.

Lemma relinked_other f h p v a : (forall q, f q <> a) -> nodes (relinked f p v h) !! a = nodes h !! a.
Proof. intros Ha. destruct p; cbn [relinked nodes]; [..|done]; by rewrite lookup_alter_ne. Qed.

(** Only the links of the tree matter. *)
Lemma represents_frame f h m n :
  represents f h -> n = nelts h -> m !! 0 = None -> (forall r, f r <> 0 -> m !! f r = nodes h !! f r) ->
  represents f (Heap (min h) n m).
Proof.
  intros Hr -> H0 Hm. destruct Hr. split; cbn [min nelts nodes]; try done.
  intros r Hne. rewrite Hm by done. auto.
Qed.

(** ** The last position *)

Lemma path_run p : Z.pos p < 2 ^ 32 -> heap_path 33 0 0 (Z.pos p) = Done (turns (route p), zlen (route p)).
Proof.
  intros Hp. pose proof (route_short p Hp). pose proof (heap_path_route 33 p []) as E.
  cbn [turns length] in E. rewrite app_nil_r in E. apply E; lia.
Qed.

Lemma above_nonnull f h b p : represents f h -> Z.pos (kid b p) <= nelts h + 1 -> f p <> 0.
Proof. intros Hr Hp. apply (rep_full f h Hr). destruct b; cbn in Hp; lia. Qed.

Lemma descend_run f h p :
  represents f h -> Z.pos p <= nelts h + 1 ->
  heap_descend (length (route p)) (turns (route p)) AtMin AtMin h =
    Done (match up p with Some q => link_to f q | None => AtMin end, link_to f p, h).
Proof.
  intros Hr Hp. pose proof (descend_rep f h (route p) 1 AtMin Hr) as E. cbn [link_to] in E.
  rewrite E; [|intros r1 b r2 Er|intros b q; by destruct b].
  - rewrite follow_route. destruct p; cbn [up]; [..|done].
    all: rewrite decide_False; [done|cbn [route]; by intros [_ ?]%app_nil].
  - apply (above_nonnull f h b); [done|]. pose proof (follow_le (kid b (follow 1 r1)) r2) as Hle.
    rewrite <- (follow_route p), Er, follow_app in Hp. cbn [follow foldl] in *. unfold follow in *. lia.
Qed.

(** The first part of [heap_insert]: the new node hangs at the next position. *)
Lemma insert_link f h newnode :
  represents f h -> nelts h + 1 < 2 ^ 32 -> is_Some (nodes h !! newnode) -> newnode <> 0 -> (forall q, f q <> newnode) ->
  exists h1 p, Z.pos p = nelts h + 1 /\
    (forall less_than, heap_insert less_than newnode h = sift_up less_than 33 newnode h1) /\
    represents (replaced f p newnode) h1 /\ nelts h1 = nelts h + 1 /\ dom (nodes h1) = dom (nodes h).
Proof.
  intros Hr Hn [x0 Hx] Hnz Hfree. destruct (Z_of_nat_complete (nelts h)) as [k Hk]; [apply (rep_nelts f h Hr)|].
  set (p := Pos.of_succ_nat k). assert (Hp : Z.pos p = nelts h + 1) by (unfold p; lia). clearbody p.
  set (m0 := alter (fun _ => HeapNode 0 0 0) newnode (nodes h)).
  assert (H0 : m0 !! 0 = None) by (apply lookup_alter_0, (rep_null f h Hr)).
  assert (Hr0 : represents f (with_nodes h m0)).
  { apply represents_frame; [done..|]. intros r Hne. apply lookup_alter_ne. intros E. by apply (Hfree r). }
  set (m1 := alter (with_parent (at_up f p)) newnode m0).
  assert (Hm1 : m1 !! newnode = Some (HeapNode 0 0 (at_up f p))) by (unfold m1, m0; by rewrite !lookup_alter_eq, Hx).
  assert (Hr1 : represents f (with_nodes h m1)).
  { apply (represents_frame f (with_nodes h m0)); [done..|by apply lookup_alter_0|].
    intros r Hne. apply lookup_alter_ne. intros E. by apply (Hfree r). }
  assert (Habove : forall b q, p = kid b q -> f q <> 0).
  { intros b q E. apply (above_nonnull f h b q Hr). rewrite <- E. lia. }
  assert (Hdown : forall c, f (kid c p) = 0).
  { intros c. destruct (decide (f (kid c p) = 0)) as [|Hne]; [done|]. apply (rep_full f h Hr) in Hne. destruct c; cbn in Hne; lia. }
  set (h2 := relinked f p newnode (with_nodes h m1)).
  exists (Heap (min h2) (nelts h + 1) (nodes h2)), p. split; [done|]. split; [|split; [|split; [done|]]].
  - intros less_than. unfold heap_insert. eapply prog_step; [by eapply alter_node_run|].
    eapply prog_step; [reflexivity|]. cbn [nelts]. replace (u32 (1 + nelts h)) with (Z.pos p)
      by (rewrite u32_small; pose proof (rep_nelts f h Hr); lia).
    eapply prog_step; [unfold prog_lift; rewrite path_run by lia; reflexivity|]. cbv beta iota. rewrite Nat2Z.id.
    eapply prog_step; [apply (descend_run f (with_nodes h m0) p Hr0); cbn [nelts]; lia|]. cbv beta iota.
    eapply (prog_step _ _ _ (with_nodes h m0) (at_up f p)).
    { unfold at_up. clear h2. destruct p as [q|q|]; cbn [up].
      1: pose proof (Habove true q eq_refl) as Hq. 2: pose proof (Habove false q eq_refl) as Hq.
      1,2: apply (deref_link f (with_nodes h m0) q Hr0); intros b q' ->; by apply (rep_up f h b q' Hr).
      unfold deref, prog_get. cbn. rewrite (rep_min f h Hr). do 2 f_equal.
      destruct (decide (f 1%positive = 0)) as [|Hne]; [done|]. apply (rep_full f h Hr) in Hne. lia. }
    eapply prog_step; [eapply alter_node_run; cbn [nodes]; unfold m0; by rewrite lookup_alter_eq, Hx|]. cbn [nodes min nelts]. fold m1.
    eapply prog_step; [by apply (assign_run f (with_nodes h m1) p newnode Hr1)|]. fold h2.
    eapply prog_step; [reflexivity|]. eapply prog_step; [reflexivity|].
    unfold h2 at 2. rewrite relinked_nelts. cbn [nelts]. rewrite u32_small by (pose proof (rep_nelts f h Hr); lia). done.
  - apply (replaced_rep f (with_nodes h m1)); cbn [min nelts nodes]; [done| | | | | | |].
    + intros q E. by destruct (Hfree q).
    + apply relinked_min, (rep_min f h Hr).
    + pose proof (rep_nelts f h Hr). lia.
    + intros r. destruct (decide (r = p)) as [->|Hne]; [rewrite replaced_eq; lia|].
      rewrite replaced_ne by done. rewrite (rep_full f h Hr). lia.
    + intros r Hne Hfr. apply (relinked_node f (with_nodes h m1)); done.
    + intros _. unfold h2. rewrite relinked_other by done. cbn [nodes].
      pose proof (Hdown false) as E0. pose proof (Hdown true) as E1. cbn [kid] in E0, E1. by rewrite Hm1, E0, E1.
    + apply relinked_null. by apply lookup_alter_0.
  - cbn [nodes]. unfold h2. rewrite relinked_dom. cbn [nodes]. unfold m1, m0. by rewrite !dom_alter_L.
Qed.

(** The number of elements does not matter to links. *)
Lemma deref_last f h n p : represents f h -> f p <> 0 ->
  deref (link_to f p) (Heap (min h) n (nodes h)) = Done (f p, Heap (min h) n (nodes h)).
Proof.
  intros Hr Hp. destruct p as [q|q|]; cbn [link_to deref]; [..|by rewrite (rep_min f h Hr)].
  all: eapply prog_step; [apply get_node_run, (rep_node f h Hr)|done].
  - by apply (rep_up f h true q).
  - by apply (rep_up f h false q).
Qed.

(** Taking the last node away. *)
Lemma unlink_last f h p :
  represents f h -> Z.pos p = nelts h ->
  let h1 := relinked f p 0 (Heap (min h) (nelts h - 1) (nodes h)) in
  assign (link_to f p) 0 (Heap (min h) (nelts h - 1) (nodes h)) = Done (tt, h1) /\
  represents (replaced f p 0) h1 /\ nelts h1 = nelts h - 1 /\ dom (nodes h1) = dom (nodes h).
Proof.
  intros Hr Hn h1. assert (Hp : f p <> 0) by (apply (rep_full f h Hr); lia).
  assert (Hdown : forall c, f (kid c p) = 0).
  { intros c. destruct (decide (f (kid c p) = 0)) as [|Hne]; [done|]. apply (rep_full f h Hr) in Hne. destruct c; cbn in Hne; lia. }
  assert (Hnodes : nodes h1 = nodes (relinked f p 0 h)) by by destruct p.
  split_and!.
  - destruct p as [q|q|]; cbn [link_to assign relinked]; [..|done]; eapply alter_node_run, (rep_node f h Hr).
    + by apply (rep_up f h true q).
    + by apply (rep_up f h false q).
  - apply (replaced_rep f h); [done| | | | | | |].
    + done.
    + apply relinked_min, (rep_min f h Hr).
    + unfold h1. rewrite relinked_nelts. cbn [nelts]. pose proof (rep_nelts f h Hr). lia.
    + intros r. unfold h1. rewrite relinked_nelts. cbn [nelts].
      destruct (decide (r = p)) as [->|Hne]; [rewrite replaced_eq; lia|].
      rewrite replaced_ne by done. rewrite (rep_full f h Hr). lia.
    + intros r Hne Hfr. rewrite Hnodes. by apply (relinked_node f h).
    + done.
    + apply relinked_null, (rep_null f h Hr).
  - unfold h1. by rewrite relinked_nelts.
  - rewrite Hnodes. apply relinked_dom.
Qed.

(** The store once [child] has taken the links of the node at [p]. *)
Definition adopted (f : positive -> Z) (p : positive) (child : Z) (h : heap) : heap :=
  relinked f p child (with_nodes h (alter (with_parent child) (f p~1)%positive (alter (with_parent child) (f p~0)%positive
    (alter (fun _ => HeapNode (f p~0)%positive (f p~1)%positive (at_up f p)) child (nodes h))))).

Lemma adopt_run f h p child A (k : prog heap A) :
  represents f h -> f p <> 0 -> (forall q, f q <> child) -> child <> 0 -> is_Some (nodes h !! child) ->
  (x ← get_node (f p);
   alter_node (fun _ => HeapNode (left x) (right x) (parent x)) child;;
   set_parent_if (left x) child;;
   set_parent_if (right x) child;;
   x ← get_node (f p);
   (if parent x =? 0 then set_min child else
    g ← get_node (parent x);
    if left g =? f p then set_left (parent x) child else set_right (parent x) child);;
   k) h = k (adopted f p child h).
Proof.
  intros Hr Hp Hfree Hc [x0 Hx]. pose proof (rep_inj f h Hr) as Hinj. pose proof (rep_node f h Hr) as Hnode.
  pose proof (rep_null f h Hr) as H0. assert (Hnc : forall q, child <> f q) by (intros q E; by apply (Hfree q)).
  eapply prog_step; [by apply get_node_rep|]. cbn [left right parent].
  eapply prog_step; [by eapply alter_node_run|]. cbn [nodes min nelts].
  eapply prog_step; [apply set_parent_if_run; cbn [nodes]|]; cbn [nodes min nelts].
  { intros Hl. rewrite lookup_alter_ne, Hnode by done. by eexists. }
  { by apply lookup_alter_0. }
  eapply prog_step; [apply set_parent_if_run; cbn [nodes]|]; cbn [nodes min nelts].
  { intros Hl. at_positions Hinj. rewrite lookup_alter_ne, Hnode by done. by eexists. }
  { by repeat apply lookup_alter_0. }
  eapply prog_step; [eapply get_node_run; cbn [nodes]; at_positions Hinj; by rewrite lookup_alter_ne, Hnode|]. cbn [parent].
  eapply prog_step; [|done]. apply (relink_run f p child _ (at_up f) Hinj Hp). intros b g ->. cbn [nodes].
  assert (Hg : f g <> 0) by (by apply (rep_up f h b g)). split; [done|].
  destruct b; cbn [kid]; at_positions Hinj; by rewrite lookup_alter_ne, Hnode.
Qed.

Lemma adopted_node f h p child r :
  represents f h -> (forall q, child <> f q) -> r <> p -> f r <> 0 ->
  nodes (adopted f p child h) !! f r =
    Some (HeapNode (replaced f p child r~0)%positive (replaced f p child r~1)%positive (at_up (replaced f p child) r)).
Proof.
  intros Hr Hnc Hne Hfr. pose proof (rep_inj f h Hr) as Hinj. pose proof (rep_node f h Hr r Hfr) as Hnode.
  unfold adopted. destruct (decide (r = p~0 \/ r = p~1)%positive) as [Hkid|Hkid].
  - assert (Hup : up r = Some p) by (by destruct Hkid as [->| ->]).
    assert (E : nodes (relinked f p child (with_nodes h (alter (with_parent child) (f p~1)%positive
        (alter (with_parent child) (f p~0)%positive (alter (fun _ => HeapNode (f p~0)%positive (f p~1)%positive (at_up f p)) child
          (nodes h)))))) !! f r = Some (HeapNode (f r~0)%positive (f r~1)%positive child)).
    { destruct Hkid as [->| ->], p as [g|g|]; cbn [relinked nodes]; at_positions Hinj;
        rewrite lookup_alter_ne, Hnode by done; done. }
    rewrite E, !replaced_ne by (clear -Hkid; lia). unfold at_up. by rewrite Hup, replaced_eq.
  - assert (Hup : at_up (replaced f p child) r = at_up f r).
    { unfold at_up. destruct r as [q|q|]; cbn [up]; [..|done]; apply replaced_ne; intros ->; by apply Hkid; auto. }
    rewrite Hup. destruct p as [g|g|]; cbn [relinked nodes].
    all: rewrite !(lookup_alter_at f _ _ _ _ Hinj Hfr), lookup_alter_ne, Hnode by done.
    all: rewrite ?(decide_False (P := r = _~1%positive)), ?(decide_False (P := r = _~0%positive)) by tauto.
    3: by rewrite !replaced_ne by lia.
    all: destruct (decide (r = g)) as [->|]; rewrite ?replaced_eq, ?replaced_ne by lia; done.
Qed.

Lemma adopted_rep f h p child :
  represents f h -> f p <> 0 -> (forall q, f q <> child) -> child <> 0 -> is_Some (nodes h !! child) ->
  represents (replaced f p child) (adopted f p child h) /\ nelts (adopted f p child h) = nelts h /\
  dom (nodes (adopted f p child h)) = dom (nodes h).
Proof.
  intros Hr Hp Hfree Hc [x0 Hx]. pose proof (rep_inj f h Hr) as Hinj. pose proof (rep_node f h Hr) as Hnode.
  pose proof (rep_null f h Hr) as H0. assert (Hnc : forall q, child <> f q) by (intros q E; by apply (Hfree q)).
  unfold adopted. split_and!; [|by rewrite relinked_nelts|].
  - apply (replaced_rep f h); [done| | | | | | |].
    + intros q E. by destruct (Hfree q).
    + apply relinked_min, (rep_min f h Hr).
    + rewrite relinked_nelts. apply (rep_nelts f h Hr).
    + intros r. rewrite relinked_nelts. cbn [nelts]. rewrite <- (rep_full f h Hr).
      destruct (decide (r = p)) as [->|Hne]; [by rewrite replaced_eq|by rewrite replaced_ne].
    + intros r Hne Hfr. by apply (adopted_node f h p child r).
    + intros _. rewrite relinked_other by done. cbn [nodes].
      rewrite !(lookup_alter_ne _ _ (f _)) by done. by rewrite lookup_alter_eq, Hx.
    + apply relinked_null. by repeat apply lookup_alter_0.
  - rewrite relinked_dom. cbn [nodes]. by rewrite !dom_alter_L.
Qed.

(** ** Order *)

(** A comparison function that decides a strict weak order on the nodes of
    interest. *)
Class HeapOrder (less_than : Z -> Z -> outcome bool) (P : Z -> Prop) (lt : Z -> Z -> bool) : Prop := {
  order_runs a b : P a -> P b -> less_than a b = Done (lt a b);
  order_asym a b : lt a b = true -> lt b a = false;
  order_cotrans a b c : lt a c = true -> lt a b = true \/ lt b c = true;
}.

Definition edge_ok (lt : Z -> Z -> bool) (f : positive -> Z) (b : bool) (p : positive) : Prop :=
  f (kid b p) <> 0 -> lt (f (kid b p)) (f p) = false.

(** No child is less than its parent. *)
Definition ordered (lt : Z -> Z -> bool) (f : positive -> Z) : Prop := forall b p, edge_ok lt f b p.

(** The same except around [p], whose children are in order with its parent. *)
Record almost (lt : Z -> Z -> bool) (f : positive -> Z) (p : positive) : Prop := Almost {
  almost_edge b q : q <> p -> kid b q <> p -> edge_ok lt f b q;
  almost_grand b c g : p = kid c g -> f (kid b p) <> 0 -> lt (f (kid b p)) (f g) = false;
}.

Definition below_ok (lt : Z -> Z -> bool) (f : positive -> Z) (p : positive) : Prop := forall b, edge_ok lt f b p.

Definition member (f : positive -> Z) (a : Z) : Prop := a <> 0 /\ exists p, f p = a.

(** Inequalities of nearby positions. *)
Ltac pos_lia := clear; intros; solve [repeat match goal with b : bool |- _ => destruct b end; cbn [kid]; first [done|lia]].

Lemma member_swapped f p q a : member (swapped f p q) a <-> member f a.
Proof.
  unfold member. split; intros [Hne [r E]]; (split; [done|]).
  - exists (exchange p q r). by rewrite <- swapped_exchange.
  - exists (exchange p q r). by rewrite swapped_exchange, exchange_involutive.
Qed.

Section Sift.
Context (less_than : Z -> Z -> outcome bool) (P : Z -> Prop) (lt : Z -> Z -> bool) `{!HeapOrder less_than P lt}.

Lemma not_less_trans a b c : lt b a = false -> lt c b = false -> lt c a = false.
Proof. intros Hab Hbc. destruct (lt c a) eqn:E; [|done]. destruct (order_cotrans c b a E); congruence. Qed.

Lemma almost_up f c g :
  f g <> 0 -> almost lt f (kid c g) -> below_ok lt f (kid c g) -> lt (f (kid c g)) (f g) = true ->
  almost lt (swapped f g (kid c g)) g /\ below_ok lt (swapped f g (kid c g)) g.
Proof.
  intros Hnz [Hedge Hgrand] Hbelow Hlt. pose proof (order_asym _ _ Hlt) as Has.
  assert (Hkid : forall b p, kid b p <> p) by pos_lia. assert (Hkid2 : forall b c p, kid b (kid c p) <> p) by pos_lia.
  assert (Hsib : forall b, b <> c -> edge_ok lt f b g).
  { intros b Hb. apply Hedge; [by apply not_eq_sym|by intros [? _]%kid_inj]. }
  split; [split|].
  - intros b q Hq Hbq. unfold edge_ok. destruct (decide (q = kid c g)) as [->|Hqp].
    + rewrite swapped_r, swapped_ne by auto. by apply (Hgrand b c g).
    + assert (kid b q <> kid c g) by (by intros [_ ?]%kid_inj). rewrite !swapped_ne by done. by apply Hedge.
  - intros b d gg -> Hne. rewrite (swapped_ne _ _ _ gg) by (apply not_eq_sym; auto).
    destruct (decide (b = c)) as [->|Hb].
    + rewrite swapped_r. apply Hedge; [apply not_eq_sym; auto|apply not_eq_sym; auto|done].
    + rewrite swapped_ne in Hne |- * by (auto || by intros [? _]%kid_inj).
      apply (not_less_trans _ (f (kid d gg))); [|by apply Hsib].
      apply Hedge; [apply not_eq_sym; auto|apply not_eq_sym; auto|done].
  - intros b. unfold edge_ok. rewrite swapped_l. destruct (decide (b = c)) as [->|Hb]; [by rewrite swapped_r|].
    rewrite swapped_ne by (auto || by intros [? _]%kid_inj). intros Hne.
    apply (not_less_trans _ (f g)); [done|by apply Hsib].
Qed.

Lemma almost_down f b p :
  f (kid b p) <> 0 -> almost lt f p -> (forall d, f (kid d p) <> 0 -> lt (f (kid d p)) (f (kid b p)) = false) ->
  almost lt (swapped f p (kid b p)) (kid b p).
Proof.
  intros Hnz [Hedge Hgrand] Hmin.
  assert (Hkid : forall b p, kid b p <> p) by pos_lia. assert (Hkid2 : forall b c p, kid b (kid c p) <> p) by pos_lia.
  split.
  - intros d q Hq Hdq. unfold edge_ok. destruct (decide (q = p)) as [->|Hqp].
    + rewrite swapped_l, swapped_ne by auto. by apply Hmin.
    + rewrite (swapped_ne _ _ _ q) by done. destruct (decide (kid d q = p)) as [<-|Hdp].
      * rewrite swapped_l. by apply (Hgrand b d q).
      * rewrite swapped_ne by done. by apply Hedge.
  - intros d c g [-> ->]%kid_inj. rewrite swapped_l, swapped_ne by auto. apply Hedge; auto.
Qed.

Lemma almost_ordered f p :
  almost lt f p -> below_ok lt f p -> (forall c g, p = kid c g -> edge_ok lt f c g) -> ordered lt f.
Proof.
  intros [Hedge _] Hbelow Hup b q. destruct (decide (q = p)) as [->|Hq]; [apply Hbelow|].
  destruct (decide (kid b q = p)) as [E|Hb]; [by apply Hup|by apply Hedge].
Qed.

(** ** The sifting loops *)

Definition all_of (f : positive -> Z) : Prop := forall p, f p <> 0 -> P (f p).

Lemma all_swapped f p q : all_of f -> all_of (swapped f p q).
Proof. intros Hall r. rewrite swapped_exchange. apply Hall. Qed.

(** What a loop leaves behind: the same members, the same memory. *)
Definition same_heap (f : positive -> Z) (h : heap) (f' : positive -> Z) (h' : heap) : Prop :=
  represents f' h' /\ all_of f' /\ (forall a, member f' a <-> member f a) /\ nelts h' = nelts h /\
  dom (nodes h') = dom (nodes h).

Lemma same_heap_refl f h : represents f h -> all_of f -> same_heap f h f h.
Proof. done. Qed.

Lemma same_heap_trans f h f1 h1 f2 h2 : same_heap f h f1 h1 -> same_heap f1 h1 f2 h2 -> same_heap f h f2 h2.
Proof.
  intros (_ & _ & Hm1 & Hn1 & Hd1) (Hr & Ha & Hm2 & Hn2 & Hd2). split_and!; [done..| |congruence|congruence].
  intros a. by rewrite Hm2.
Qed.

Lemma swap_same f h b p : represents f h -> all_of f -> f (kid b p) <> 0 ->
  exists h', heap_node_swap (f p) (f (kid b p)) h = Done (tt, h') /\ same_heap f h (swapped f p (kid b p)) h'.
Proof.
  intros Hr Ha Hne. destruct (heap_node_swap_rep f h b p Hr Hne) as (h' & E & Hr' & Hn & Hd). exists h'. split; [done|].
  split_and!; [done|by apply all_swapped|apply member_swapped|done|done].
Qed.

Lemma sift_up_spec fuel f h p :
  represents f h -> all_of f -> f p <> 0 -> almost lt f p -> below_ok lt f p -> (length (route p) < fuel)%nat ->
  exists f' h', sift_up less_than fuel (f p) h = Done (tt, h') /\ same_heap f h f' h' /\ ordered lt f'.
Proof.
  revert f h p. induction fuel as [|fuel IH]; intros f h p Hr Ha Hp Hal Hbe Hfuel; [lia|]. cbn [sift_up].
  destruct (pos_cases p) as [->|(c & g & ->)].
  { exists f, h. split_and!; [|by apply same_heap_refl|].
    - eapply prog_step; [by apply get_node_rep|done].
    - apply (almost_ordered f 1 Hal Hbe). intros c g E. by destruct c. }
  pose proof (rep_up f h c g Hr Hp) as Hg. destruct (lt (f (kid c g)) (f g)) eqn:Hlt.
  - destruct (swap_same f h c g Hr Ha Hp) as (h1 & Esw & Hsame). pose proof Hsame as (Hr1 & Ha1 & _).
    destruct (almost_up f c g Hg Hal Hbe Hlt) as [Hal1 Hbe1].
    assert (Hf1 : swapped f g (kid c g) g = f (kid c g)) by apply swapped_l.
    destruct (IH (swapped f g (kid c g)) h1 g Hr1 Ha1) as (f' & h' & E & Hsame' & Hord); [by rewrite Hf1|done|done| |].
    { rewrite route_kid, length_app in Hfuel. cbn [length] in Hfuel. lia. }
    exists f', h'. split_and!; [|by eapply same_heap_trans|done].
    eapply prog_step; [by apply get_node_rep|]. cbn [parent]. unfold at_up. rewrite up_kid, (proj2 (Z.eqb_neq _ _) Hg).
    eapply prog_step; [unfold prog_lift; rewrite (order_runs _ _ (Ha _ Hp) (Ha _ Hg)), Hlt; reflexivity|].
    eapply prog_step; [exact Esw|]. by rewrite <- Hf1.
  - exists f, h. split_and!; [|by apply same_heap_refl|].
    + eapply prog_step; [by apply get_node_rep|]. cbn [parent]. unfold at_up. rewrite up_kid, (proj2 (Z.eqb_neq _ _) Hg).
      by eapply prog_step; [unfold prog_lift; rewrite (order_runs _ _ (Ha _ Hp) (Ha _ Hg)), Hlt; reflexivity|].
    + apply (almost_ordered f (kid c g) Hal Hbe). intros c' g' [-> ->]%kid_inj _. done.
Qed.

(** The choice of the child to swap with. *)
Definition choice (f : positive -> Z) (p : positive) (s : Z) : Z :=
  if negb (f p =? 0) && lt (f p) s then f p else s.

Lemma smaller_spec f h p s : all_of f -> P s -> smaller less_than (f p) s h = Done (choice f p s, h).
Proof.
  intros Ha Hs. unfold smaller, choice. destruct (Z.eqb_spec (f p) 0) as [E|Hne]; [done|].
  unfold mbind, prog_bind, prog_lift. rewrite (order_runs _ _ (Ha _ Hne) Hs). done.
Qed.

Lemma choice_in f p s : all_of f -> P s -> P (choice f p s).
Proof. intros Ha Hs. unfold choice. destruct (Z.eqb_spec (f p) 0); [done|]. destruct (lt _ _); cbn; auto. Qed.

Lemma not_less_refl a : lt a a = false.
Proof. destruct (lt a a) eqn:E; [|done]. pose proof (order_asym a a E). congruence. Qed.

(** The choice is [s] or smaller, and no larger than the candidate. *)
Lemma choice_spec f p s :
  lt s (choice f p s) = false /\ (f p <> 0 -> lt (f p) (choice f p s) = false) /\
  (choice f p s = s \/ choice f p s = f p /\ f p <> 0 /\ lt (f p) s = true).
Proof.
  unfold choice. pose proof (not_less_refl (f p)). pose proof (not_less_refl s).
  destruct (Z.eqb_spec (f p) 0); cbn [negb andb]; [tauto|].
  destruct (lt (f p) s) eqn:E; [|tauto]. pose proof (order_asym _ _ E). tauto.
Qed.

Lemma smallest_spec f p s :
  s = choice f p~1%positive (choice f p~0%positive (f p)) ->
  (s = f p /\ below_ok lt f p) \/
  exists b, s = f (kid b p) /\ s <> 0 /\ lt s (f p) = true /\ forall d, f (kid d p) <> 0 -> lt (f (kid d p)) s = false.
Proof.
  set (s0 := choice f p~0%positive (f p)). intros ->.
  destruct (choice_spec f p~0%positive (f p)) as (Hp0 & H0 & Hc0). fold s0 in Hp0, H0, Hc0.
  destruct (choice_spec f p~1%positive s0) as (Hs0 & H1 & Hc1). set (s1 := choice f p~1%positive s0) in *.
  assert (Hmin : forall d, f (kid d p) <> 0 -> lt (f (kid d p)) s1 = false).
  { intros [] Hd; cbn [kid] in *; [by apply H1|]. apply (not_less_trans _ s0); [done|by apply H0]. }
  destruct Hc1 as [E1|(E1 & Hz1 & Hlt1)].
  - destruct Hc0 as [E0|(E0 & Hz0 & Hlt0)].
    + left. split; [congruence|]. intros d Hd. rewrite <- E0, <- E1. by apply Hmin.
    + right. exists false. cbn [kid]. rewrite E1, E0 in *. done.
  - right. exists true. cbn [kid]. rewrite E1 in *. split_and!; [done|done| |done].
    destruct (lt (f p~1%positive) (f p)) eqn:E; [done|]. exfalso.
    assert (lt (f p~1%positive) s0 = false); [|congruence]. by apply (not_less_trans _ (f p)).
Qed.

Lemma sift_down_spec fuel f h p :
  represents f h -> all_of f -> f p <> 0 -> almost lt f p -> (33 <= fuel + length (route p))%nat ->
  exists f' h' p', sift_down less_than fuel (f p) h = Done (tt, h') /\ same_heap f h f' h' /\
    f' p' = f p /\ almost lt f' p' /\ below_ok lt f' p'.
Proof.
  revert f h p. induction fuel as [|fuel IH]; intros f h p Hr Ha Hp Hal Hfuel.
  { pose proof (rep_pos f h p Hr Hp). pose proof (rep_nelts f h Hr). pose proof (route_short p ltac:(lia)). lia. }
  cbn [sift_down].
  set (s := choice f p~1%positive (choice f p~0%positive (f p))).
  assert (Hrun : forall A (k : Z -> prog heap A), (x ← get_node (f p); smallest ← smaller less_than (left x) (f p);
     smallest ← smaller less_than (right x) smallest; k smallest) h = k s h).
  { intros A k. eapply prog_step; [by apply get_node_rep|]. cbn [left right].
    eapply prog_step; [apply smaller_spec; auto|]. eapply prog_step; [|done].
    apply smaller_spec; [done|]. apply choice_in; auto. }
  rewrite Hrun. destruct (smallest_spec f p s eq_refl) as [[-> Hbe]|(b & -> & Hz & Hlt & Hmin)].
  { exists f, h, p. rewrite Z.eqb_refl. split_and!; done || by apply same_heap_refl. }
  rewrite (proj2 (Z.eqb_neq _ _)) by (intros E; rewrite E, not_less_refl in Hlt; done).
  destruct (swap_same f h b p Hr Ha Hz) as (h1 & Esw & Hsame). pose proof Hsame as (Hr1 & Ha1 & _).
  assert (Hf1 : swapped f p (kid b p) (kid b p) = f p) by apply swapped_r.
  destruct (IH (swapped f p (kid b p)) h1 (kid b p) Hr1 Ha1) as (f' & h' & p' & E & Hsame' & Hp' & Hal' & Hbe').
  { by rewrite Hf1. }
  { by apply almost_down. }
  { rewrite route_kid, length_app. cbn [length]. lia. }
  exists f', h', p'. split_and!; [|by eapply same_heap_trans|congruence|done|done].
  eapply prog_step; [exact Esw|]. by rewrite <- Hf1.
Qed.

(** ** Insertion and removal *)

Lemma ordered_edge f b p : ordered lt f -> f (kid b p) <> 0 -> lt (f (kid b p)) (f p) = false.
Proof. intros Ho. apply Ho. Qed.

Lemma member_inj f h a p q : represents f h -> a <> 0 -> f p = a -> f q = a -> p = q.
Proof. intros Hr Ha Hp Hq. apply (rep_inj f h Hr); congruence. Qed.

Lemma heap_insert_spec f h newnode :
  represents f h -> ordered lt f -> all_of f -> nelts h + 1 < 2 ^ 32 ->
  is_Some (nodes h !! newnode) -> newnode <> 0 -> ~ member f newnode -> P newnode ->
  exists f' h', heap_insert less_than newnode h = Done (tt, h') /\ represents f' h' /\ ordered lt f' /\ all_of f' /\
    (forall a, member f' a <-> a = newnode \/ member f a) /\ nelts h' = nelts h + 1 /\ dom (nodes h') = dom (nodes h).
Proof.
  intros Hr Ho Ha Hn Hx Hnz Hfresh Hnew.
  assert (Hfree : forall q, f q <> newnode) by (intros q E; apply Hfresh; split; [done|by exists q]).
  destruct (insert_link f h newnode Hr Hn Hx Hnz Hfree) as (h1 & p & Hp & Erun & Hr1 & Hn1 & Hd1).
  set (f1 := replaced f p newnode). assert (Hf1 : f1 p = newnode) by apply replaced_eq.
  assert (Hleaf : forall b, f1 (kid b p) = 0).
  { intros b. destruct (decide (f1 (kid b p) = 0)) as [|Hne]; [done|]. apply (rep_full _ _ Hr1) in Hne. destruct b; cbn in Hne; lia. }
  assert (Ha1 : all_of f1) by (intros r; unfold f1, replaced; case_decide; auto).
  destruct (sift_up_spec 33 f1 h1 p Hr1 Ha1) as (f' & h' & E & (Hr' & Ha' & Hm & Hn' & Hd') & Ho').
  - by rewrite Hf1.
  - split.
    + intros b q Hq Hb. unfold edge_ok, f1. rewrite !replaced_ne by done. by apply ordered_edge.
    + intros b c g -> Hne. by rewrite Hleaf in Hne.
  - intros b Hne. by rewrite Hleaf in Hne.
  - pose proof (route_short p ltac:(lia)). lia.
  - exists f', h'. split_and!; [by rewrite Erun, <- Hf1|done..| |congruence|congruence].
    intros a. rewrite Hm. unfold member. split.
    + intros [Hne [r <-]]. unfold f1, replaced. case_decide; [by left|]. right. split; [|by exists r].
      unfold f1, replaced in Hne. by rewrite decide_False in Hne.
    + intros [->|[Hne [r <-]]]; (split; [done|]); [by exists p|]. exists r. apply replaced_ne. intros ->.
      apply (rep_full f h Hr) in Hne. lia.
Qed.

Lemma unlinked_members f h p a :
  represents f h -> f p <> 0 -> (member (replaced f p 0) a <-> member f a /\ a <> f p).
Proof.
  intros Hr Hp. unfold member. split.
  - intros [Hne [r <-]]. destruct (decide (r = p)) as [->|Hrp]; [by rewrite replaced_eq in Hne|].
    rewrite replaced_ne in Hne |- * by done. split_and!; [done|by exists r|]. intros E. apply (rep_inj f h Hr) in E; done.
  - intros [[Hne [r <-]] Hap]. split; [done|]. exists r. apply replaced_ne. by intros ->.
Qed.

Lemma replaced_members f h p v a :
  represents f h -> f p <> 0 -> v <> 0 -> (member (replaced f p v) a <-> a = v \/ (member f a /\ a <> f p)).
Proof.
  intros Hr Hp Hv. rewrite <- (unlinked_members f h p a Hr Hp). unfold member. split.
  - intros [Hne [r <-]]. destruct (decide (r = p)) as [->|Hrp]; [left; apply replaced_eq|].
    right. split; [done|]. exists r. by rewrite !replaced_ne.
  - intros [->|[Hne [r <-]]]; [split; [done|]; exists p; apply replaced_eq|]. split; [done|]. exists r.
    destruct (decide (r = p)) as [->|Hrp]; [by rewrite replaced_eq in Hne|by rewrite !replaced_ne].
Qed.

(** The first part of [heap_remove]: the last node is taken away. *)
Lemma remove_last f h node l :
  represents f h -> Z.pos l = nelts h ->
  exists h1, represents (replaced f l 0) h1 /\ nelts h1 = nelts h - 1 /\ dom (nodes h1) = dom (nodes h) /\
  heap_remove less_than node h =
    (if f l =? node then (m ← prog_get (fun h => Some (min h)); if f l =? m then set_min 0 else mret tt) else
     (x ← get_node node;
      alter_node (fun _ => HeapNode (left x) (right x) (parent x)) (f l);;
      set_parent_if (left x) (f l);;
      set_parent_if (right x) (f l);;
      x ← get_node node;
      (if parent x =? 0 then set_min (f l) else
       g ← get_node (parent x);
       if left g =? node then set_left (parent x) (f l) else set_right (parent x) (f l));;
      sift_down less_than 33 (f l);;
      sift_up less_than 33 (f l))) h1.
Proof.
  intros Hr Hl. pose proof (rep_nelts f h Hr) as Hnb. destruct (unlink_last f h l Hr Hl) as (Eas & Hr1 & Hn1 & Hd1).
  eexists. split_and!; [done..|].
  unfold heap_remove. eapply prog_step; [reflexivity|]. rewrite <- Hl. cbn [Z.eqb].
  eapply prog_step; [unfold prog_lift; rewrite path_run by lia; reflexivity|]. cbv beta iota. rewrite Nat2Z.id.
  eapply prog_step; [apply (descend_run f h l Hr); lia|]. cbv beta iota. rewrite u32_small by lia. rewrite Hl.
  eapply prog_step; [reflexivity|]. eapply prog_step; [apply deref_last; [done|apply (rep_full f h Hr); lia]|].
  eapply prog_step; [exact Eas|]. done.
Qed.

(** The rest of it: the node at [p] is replaced by [child], which is sifted
    down and then up. *)
Lemma replace_node f h p child :
  represents f h -> ordered lt f -> all_of f -> f p <> 0 -> (forall q, f q <> child) -> child <> 0 -> P child ->
  is_Some (nodes h !! child) ->
  exists f' h', (sift_down less_than 33 child;; sift_up less_than 33 child) (adopted f p child h) = Done (tt, h') /\
    represents f' h' /\ ordered lt f' /\ all_of f' /\
    (forall a, member f' a <-> a = child \/ (member f a /\ a <> f p)) /\ nelts h' = nelts h /\ dom (nodes h') = dom (nodes h).
Proof.
  intros Hr Ho Ha Hp Hfree Hc HP Hin. destruct (adopted_rep f h p child Hr) as (Hr2 & Hn2 & Hd2); [done..|].
  set (f2 := replaced f p child) in *. assert (Hf2 : f2 p = child) by apply replaced_eq.
  assert (Hn12 : forall r, r <> p -> f2 r = f r) by (intros r; apply replaced_ne).
  assert (Ha2 : all_of f2) by (intros r; unfold f2, replaced; case_decide; auto).
  assert (Hkid : forall b q, kid b q <> q) by pos_lia.
  destruct (sift_down_spec 33 f2 (adopted f p child h) p Hr2 Ha2) as (f3 & h3 & p3 & E3 & Hs3 & Hp3 & Hal3 & Hbe3).
  { by rewrite Hf2. }
  { split.
    - intros b q Hq Hb. unfold edge_ok. rewrite !Hn12 by done. by apply Ho.
    - intros b c g -> Hne. rewrite Hn12 in Hne by auto. rewrite !Hn12 by (auto || apply not_eq_sym; auto).
      apply (not_less_trans _ (f (kid c g))); [|by apply Ho]. by apply Ho. }
  { lia. }
  destruct (sift_up_spec 33 f3 h3 p3) as (f4 & h4 & E4 & Hs4 & Ho4); [apply Hs3|apply Hs3|congruence|done|done| |].
  { pose proof Hs3 as (Hr3 & _). pose proof (rep_pos f3 h3 p3 Hr3 ltac:(congruence)). pose proof (rep_nelts _ _ Hr3).
    pose proof (route_short p3 ltac:(lia)). lia. }
  pose proof (same_heap_trans _ _ _ _ _ _ Hs3 Hs4) as (Hr4 & Ha4 & Hm4 & Hn4 & Hd4).
  rewrite Hf2 in E3. rewrite Hp3, Hf2 in E4.
  exists f4, h4. split_and!; [by eapply prog_step|done..| |congruence|congruence].
  intros a. rewrite Hm4. by apply (replaced_members f h).
Qed.

Lemma heap_remove_spec f h p :
  represents f h -> ordered lt f -> all_of f -> f p <> 0 ->
  exists f' h', heap_remove less_than (f p) h = Done (tt, h') /\ represents f' h' /\ ordered lt f' /\ all_of f' /\
    (forall a, member f' a <-> member f a /\ a <> f p) /\ nelts h' = nelts h - 1 /\ dom (nodes h') = dom (nodes h).
Proof.
  intros Hr Ho Ha Hp. pose proof (rep_pos f h p Hr Hp) as Hpn.
  destruct (Z_of_nat_complete (nelts h - 1)) as [k Hk]; [lia|].
  set (l := Pos.of_succ_nat k). assert (Hl : Z.pos l = nelts h) by (unfold l; lia). clearbody l.
  assert (Hfl : f l <> 0) by (apply (rep_full f h Hr); lia).
  destruct (remove_last f h (f p) l Hr Hl) as (h1 & Hr1 & Hn1 & Hd1 & Hrun). rewrite Hrun. clear Hrun.
  set (f1 := replaced f l 0) in *.
  assert (Hf1 : forall r, r <> l -> f1 r = f r) by (intros r; apply replaced_ne).
  assert (Hz1 : forall r, f1 r <> 0 -> r <> l) by (intros r Hne ->; by unfold f1 in Hne; rewrite replaced_eq in Hne).
  assert (Ha1 : all_of f1) by (intros r Hne; rewrite Hf1 in Hne |- * by auto; auto).
  assert (Ho1 : ordered lt f1).
  { intros b q Hne. assert (Hq : q <> l) by (by apply Hz1, (rep_up f1 h1 b q)). pose proof (Hz1 _ Hne) as Hkq.
    rewrite Hf1 in Hne by done. rewrite !Hf1 by done. by apply Ho. }
  assert (Hfree : forall q, f1 q <> f l).
  { intros q E. assert (f1 q <> 0) by congruence. rewrite Hf1 in E by auto.
    apply (rep_inj f h Hr) in E; [|congruence]. by apply (Hz1 q). }
  destruct (decide (p = l)) as [->|Hpl].
  - rewrite Z.eqb_refl. exists f1, h1. split_and!; [|done..| |done|done].
    + eapply prog_step; [reflexivity|]. cbv beta. rewrite (rep_min f1 h1 Hr1).
      destruct (Z.eqb_spec (f l) (f1 1%positive)) as [E|]; [|done]. by destruct (Hfree 1%positive).
    + intros a. by apply (unlinked_members f h).
  - assert (Hf1p : f1 p = f p) by auto.
    assert (Hin : is_Some (nodes h1 !! f l)).
    { apply elem_of_dom. rewrite Hd1. apply elem_of_dom. rewrite (rep_node f h Hr l Hfl). by eexists. }
    rewrite (proj2 (Z.eqb_neq _ _)) by (rewrite <- Hf1p; apply not_eq_sym, Hfree).
    rewrite <- Hf1p, (adopt_run f1 h1 p (f l)) by (done || congruence).
    destruct (replace_node f1 h1 p (f l)) as (f' & h' & E & Hr' & Ho' & Ha' & Hm & Hn & Hd); [done..|congruence|done|done|by apply Ha|done|].
    exists f', h'. split_and!; [done..| |congruence|congruence].
    intros a. pose proof (unlinked_members f h l a Hr Hfl) as Hu. fold f1 in Hu. rewrite Hm, Hu.
    assert (member f (f l)) by (split; [done|by exists l]). specialize (Hfree p).
    clear -H Hfree. destruct (decide (a = f l)) as [->|]; [|tauto]. split; [intros _; split; congruence|by left].
Qed.

(** The root is a least member. *)
Lemma root_least f h p : represents f h -> ordered lt f -> f p <> 0 -> lt (f p) (f 1%positive) = false.
Proof.
  intros Hr Ho. induction p as [q IH|q IH|]; intros Hne; [..|apply not_less_refl].
  - pose proof (rep_up f h true q Hr Hne) as Hq. apply (not_less_trans _ (f q)); [by apply IH|by apply (Ho true q)].
  - pose proof (rep_up f h false q Hr Hne) as Hq. apply (not_less_trans _ (f q)); [by apply IH|by apply (Ho false q)].
Qed.

(** ** The heap as a set of nodes *)

(** [h] is a heap holding the nodes of [M]. *)
Definition is_heap (h : heap) (M : gset Z) : Prop :=
  exists f, represents f h /\ ordered lt f /\ all_of f /\ forall a, a ∈ M <-> member f a.

(** The nodes at the first [n] positions. *)
Definition first_nodes (f : positive -> Z) (n : nat) : list Z := (fun k => f (Pos.of_succ_nat k)) <$> seq 0 n.

Lemma is_heap_size h M : is_heap h M -> Z.of_nat (size M) = nelts h.
Proof.
  intros (f & Hr & _ & _ & HM). pose proof (rep_nelts f h Hr) as Hn.
  assert (HL : M = list_to_set (first_nodes f (Z.to_nat (nelts h)))).
  { apply set_eq. intros a. rewrite HM, elem_of_list_to_set. unfold first_nodes, member. rewrite list_elem_of_fmap. split.
    - intros [Hne [p <-]]. apply (rep_full f h Hr) in Hne. exists (Nat.pred (Pos.to_nat p)).
      split; [f_equal; lia|apply elem_of_seq; lia].
    - intros (k & -> & Hk). apply elem_of_seq in Hk. split; [apply (rep_full f h Hr); lia|by eexists]. }
  rewrite HL, size_list_to_set; unfold first_nodes; [rewrite length_fmap, length_seq; lia|].
  apply NoDup_fmap_2_strong; [|apply NoDup_seq].
  intros i j Hi Hj E. apply elem_of_seq in Hi, Hj. apply (rep_inj f h Hr) in E; [lia|]. apply (rep_full f h Hr). lia.
Qed.

Lemma heap_init_heap m : m !! 0 = None -> is_heap (heap_init m) ∅.
Proof using Type.
  clear HeapOrder0 less_than. intros H0. exists (fun _ => 0). split_and!.
  - split; cbn; try done; try lia.
  - intros b p Hne. done.
  - intros p Hne. done.
  - intros a. unfold member. set_solver.
Qed.

Lemma heap_min_least h M :
  is_heap h M ->
  (M = ∅ /\ heap_min h = 0) \/ (heap_min h ∈ M /\ heap_min h <> 0 /\ forall a, a ∈ M -> lt a (heap_min h) = false).
Proof.
  intros (f & Hr & Ho & _ & HM). unfold heap_min. rewrite (rep_min f h Hr).
  destruct (decide (f 1%positive = 0)) as [E|Hne]; [left|right].
  - split; [|done]. apply set_eq. intros a. split; [|set_solver]. intros [Hne [p <-]]%HM.
    apply (rep_full f h Hr) in Hne. exfalso. apply (rep_full f h Hr) in E; [done|lia].
  - split_and!; [apply HM; split; [done|by eexists]|done|]. intros a [Ha [p <-]]%HM. by apply (root_least f h).
Qed.

Lemma heap_insert_set h M a :
  is_heap h M -> a ∉ M -> a <> 0 -> P a -> is_Some (nodes h !! a) -> nelts h + 1 < 2 ^ 32 ->
  exists h', heap_insert less_than a h = Done (tt, h') /\ is_heap h' ({[a]} ∪ M) /\ dom (nodes h') = dom (nodes h).
Proof.
  intros (f & Hr & Ho & Ha & HM) Hni Hz HP Hin Hn.
  destruct (heap_insert_spec f h a Hr Ho Ha Hn Hin Hz) as (f' & h' & E & Hr' & Ho' & Ha' & Hm' & _ & Hd); [by rewrite <- HM|done|].
  exists h'. split_and!; [done| |done]. exists f'. split_and!; [done..|]. intros b. rewrite Hm', <- HM. set_solver.
Qed.

Lemma heap_remove_set h M a :
  is_heap h M -> a ∈ M ->
  exists h', heap_remove less_than a h = Done (tt, h') /\ is_heap h' (M ∖ {[a]}) /\ dom (nodes h') = dom (nodes h).
Proof.
  intros (f & Hr & Ho & Ha & HM) [Hz [p <-]]%HM.
  destruct (heap_remove_spec f h p Hr Ho Ha Hz) as (f' & h' & E & Hr' & Ho' & Ha' & Hm' & _ & Hd).
  exists h'. split_and!; [done| |done]. exists f'. split_and!; [done..|]. intros b. rewrite Hm', <- HM. set_solver.
Qed.
End Sift.
