(* ===== verification/UvTimer.v ===== *)
(** * UvTimer: the timers of an event loop (Libuv-gRPC/src/timer.c).

    A loop owns a clock, a counter of started timers and a heap of the active
    timers; the heap nodes are embedded in the timer structs, at a fixed
    offset.  Timer callbacks are functions of the library's user; they may
    call back into the timer functions. *)

From Stdlib Require Import ZifyBool.
From stdpp Require Import base tactics numbers list gmap strings.
From S2P Require Import Prelude UvCommon UvHeap.
Open Scope Z_scope.

(** [uv_timer_t]: the fields of a handle that the timers use, and the private
    fields of a timer; [heap_node] is in the store of the heap. *)
Record uv_timer : Type := UvTimer {
  type : Z;
  flags : Z;
  next_closing : Z;
  timer_cb : Z;
  timeout : Z;
  repeat : Z;
  start_id : Z;
}.

Definition UV_TIMER : Z := 13.

(** Offset of [heap_node] in a [uv_timer_t] (LP64): it follows the handle's
    data, loop, type, close_cb, handle_queue, u, next_closing and flags, and
    timer_cb. *)
Definition heap_node_off : Z := 104.
Definition heap_node_of (handle : Z) : Z := handle + heap_node_off.
(** [container_of(node, uv_timer_t, heap_node)] *)
Definition container_of (node : Z) : Z := node - heap_node_off.

(** [uv_loop_t], with the timers and handles it knows.  [handle_queue] is the
    list of its handles, oldest first. *)
Record uv_loop : Type := UvLoop {
  active_handles : Z;
  handle_queue : list Z;
  timer_heap : heap;
  timer_counter : Z;
  time : Z;
  timers : gmap Z uv_timer;
}.

Definition get_timer (handle : Z) : prog uv_loop uv_timer := prog_get (fun L => timers L !! handle).
Definition put_timer (handle : Z) (t : uv_timer) : prog uv_loop unit := prog_put (fun L =>
  _ ← timers L !! handle;
  Some (UvLoop (active_handles L) (handle_queue L) (timer_heap L) (timer_counter L) (time L) (<[handle := t]> (timers L)))).
Definition with_heap (x : prog heap unit) : prog uv_loop unit := fun L =>
  '(_, h) ← x (timer_heap L);
  Done (tt, UvLoop (active_handles L) (handle_queue L) h (timer_counter L) (time L) (timers L)).

Definition timer_less_than (m : gmap Z uv_timer) (ha hb : Z) : outcome bool :=
  a ← demand (m !! container_of ha);
  b ← demand (m !! container_of hb);
  Done (if timeout a <? timeout b then true
        else if timeout b <? timeout a then false
        else start_id a <? start_id b).

(** [heap_insert(timer_heap(loop), &handle->heap_node, timer_less_than)] *)
Definition timer_heap_insert (handle : Z) : prog uv_loop unit := fun L =>
  with_heap (heap_insert (timer_less_than (timers L)) (heap_node_of handle)) L.
Definition timer_heap_remove (handle : Z) : prog uv_loop unit := fun L =>
  with_heap (heap_remove (timer_less_than (timers L)) (heap_node_of handle)) L.

(** [uv__handle_start(handle)] and [uv__handle_stop(handle)] *)
Definition apply_flags (f : Z -> Z -> Z * Z) (handle : Z) : prog uv_loop unit := prog_put (fun L =>
  t ← timers L !! handle;
  let '(fl, active) := f (flags t) (active_handles L) in
  Some (UvLoop active (handle_queue L) (timer_heap L) (timer_counter L) (time L)
          (<[handle := UvTimer (type t) fl (next_closing t) (timer_cb t) (timeout t) (repeat t) (start_id t)]> (timers L)))).

(** The handle's struct may hold anything before it is initialised. *)
Definition uv_timer_init (handle : Z) : prog uv_loop Z :=
  t ← get_timer handle;
  put_timer handle (UvTimer UV_TIMER UV_HANDLE_REF 0 0 (timeout t) 0 (start_id t));;
  prog_put (fun L => Some (UvLoop (active_handles L) (handle_queue L ++ [handle]) (timer_heap L)
                             (timer_counter L) (time L) (timers L)));;
  mret 0.

Definition uv_timer_stop (handle : Z) : prog uv_loop Z :=
  t ← get_timer handle;
  if negb (uv__is_active (flags t)) then mret 0 else
  timer_heap_remove handle;;
  apply_flags uv__handle_stop handle;;
  mret 0.

Definition uv_timer_start (handle cb tmo rep : Z) : prog uv_loop Z :=
  t ← get_timer handle;
  if uv__is_closing (flags t) || (cb =? 0) then mret UV_EINVAL else
  (if uv__is_active (flags t) then uv_timer_stop handle else mret 0);;
  now ← prog_get (fun L => Some (time L));
  let clamped_timeout := u64 (now + tmo) in
  let clamped_timeout := if clamped_timeout <? tmo then 2 ^ 64 - 1 else clamped_timeout in
  t ← get_timer handle;
  id ← prog_get (fun L => Some (timer_counter L));
  prog_put (fun L => Some (UvLoop (active_handles L) (handle_queue L) (timer_heap L) (u64 (id + 1)) (time L) (timers L)));;
  put_timer handle (UvTimer (type t) (flags t) (next_closing t) cb clamped_timeout rep id);;
  timer_heap_insert handle;;
  apply_flags uv__handle_start handle;;
  mret 0.

Definition uv_timer_again (handle : Z) : prog uv_loop Z :=
  t ← get_timer handle;
  if timer_cb t =? 0 then mret UV_EINVAL else
  if negb (repeat t =? 0) then
    uv_timer_stop handle;;
    t ← get_timer handle;
    uv_timer_start handle (timer_cb t) (repeat t) (repeat t);;
    mret 0
  else mret 0.

Definition uv_timer_set_repeat (handle rep : Z) : prog uv_loop unit :=
  t ← get_timer handle;
  put_timer handle (UvTimer (type t) (flags t) (next_closing t) (timer_cb t) (timeout t) rep (start_id t)).

Definition uv_timer_get_repeat (handle : Z) : prog uv_loop Z :=
  t ← get_timer handle; mret (repeat t).

Definition uv__timer_close (handle : Z) : prog uv_loop unit :=
  uv_timer_stop handle;; mret tt.

Definition INT_MAX : Z := 2 ^ 31 - 1.

Definition uv__next_timeout (L : uv_loop) : outcome Z :=
  let node := heap_min (timer_heap L) in
  if node =? 0 then Done (-1) else
  t ← demand (timers L !! container_of node);
  if timeout t <=? time L then Done 0 else
  let diff := u64 (timeout t - time L) in
  Done (if INT_MAX <? diff then INT_MAX else diff).

(** Timer callbacks, by the value of the function pointer, applied to the
    handle. *)
Class TimerCallbacks : Type := call_timer : Z -> Z -> prog uv_loop unit.

(** The loop over due timers; the result lists the handles whose callbacks
    ran, in order.  It ends only when no timer is due, which a callback can
    prevent for ever. *)
Fixpoint uv__run_timers `{TimerCallbacks} (fuel : nat) : prog uv_loop (list Z) :=
  match fuel with
  | O => prog_nofuel
  | S fuel =>
    node ← prog_get (fun L => Some (heap_min (timer_heap L)));
    if node =? 0 then mret [] else
    let handle := container_of node in
    t ← get_timer handle;
    now ← prog_get (fun L => Some (time L));
    if now <? timeout t then mret [] else
    uv_timer_stop handle;;
    uv_timer_again handle;;
    t ← get_timer handle;
    (if timer_cb t =? 0 then fun _ => Undef else call_timer (timer_cb t) handle);;
    fired ← uv__run_timers fuel;
    mret (handle :: fired)
  end.
