(* ===== verification/UvTimerSpec.v ===== *)
(** * UvTimerSpec: the timer heap always holds exactly the active timers.

    [timers_ok] is the invariant of a loop; every operation of timer.c keeps
    it and changes the one timer it is given, as the lemmas state. *)

From Stdlib Require Import ZifyBool.
From stdpp Require Import base tactics numbers list sorting gmap strings.
From S2P Require Import Prelude UvCommon UvHeap UvHeapShape UvHeapOps UvTimer.
Open Scope Z_scope.

(** ** The order of timers *)

Definition key (m : gmap Z uv_timer) (node : Z) : Z * Z :=
  match m !! container_of node with Some t => (timeout t, start_id t) | None => (0, 0) end.

Definition key_less (x y : Z * Z) : bool := (x.1 <? y.1) || ((x.1 =? y.1) && (x.2 <? y.2)).

Definition timer_lt (m : gmap Z uv_timer) (a b : Z) : bool := key_less (key m a) (key m b).

(** Nodes that belong to a timer. *)
Definition is_timer (m : gmap Z uv_timer) (node : Z) : Prop := is_Some (m !! container_of node).

#[export] Instance timer_order m : HeapOrder (timer_less_than m) (is_timer m) (timer_lt m).
Proof.
  split.
  - intros a b [ta Ea] [tb Eb]. unfold timer_less_than, timer_lt, key, key_less. rewrite Ea, Eb. cbn. f_equal.
    destruct (Z.ltb_spec (timeout ta) (timeout tb)), (Z.ltb_spec (timeout tb) (timeout ta)); lia.
  - intros a b. unfold timer_lt, key_less. lia.
  - intros a b c. unfold timer_lt, key_less. lia.
Qed.

Lemma container_of_node handle : container_of (heap_node_of handle) = handle.
Proof. unfold container_of, heap_node_of. lia. Qed.

Lemma node_of_container node : heap_node_of (container_of node) = node.
Proof. unfold container_of, heap_node_of. lia. Qed.

(** A heap stays one when the keys of its members do not change. *)
Lemma is_heap_ext (P P' : Z -> Prop) lt lt' h M :
  is_heap P lt h M -> (forall a, a ∈ M -> P' a) -> (forall a b, a ∈ M -> b ∈ M -> lt' a b = lt a b) -> is_heap P' lt' h M.
Proof.
  intros (f & Hr & Ho & Ha & HM) HP Hlt. exists f. split_and!; [done| | |done].
  - intros b p Hne. rewrite Hlt; [by apply Ho|apply HM..]; (split; [|by eexists]); [done|by apply (rep_up f h b p)].
  - intros p Hne. apply HP, HM. split; [done|by eexists].
Qed.

(** ** The invariant *)

(** The handles that keep the loop alive. *)
Definition counted (m : gmap Z uv_timer) : Z := Z.of_nat (size (filter (fun '(_, t) => counts (flags t) = true) m)).

(** [others] is the part of [active_handles] that is not due to timers. *)
Record timers_ok (others : Z) (L : uv_loop) : Prop := TimersOk {
  ok_heap : exists M, is_heap (is_timer (timers L)) (timer_lt (timers L)) (timer_heap L) M /\
    forall handle, heap_node_of handle ∈ M <-> exists t, timers L !! handle = Some t /\ uv__is_active (flags t) = true;
  ok_nodes handle : is_Some (timers L !! handle) -> is_Some (nodes (timer_heap L) !! heap_node_of handle);
  ok_size : Z.of_nat (size (timers L)) < 2 ^ 32;
  ok_time : 0 <= time L < 2 ^ 64;
  ok_timer handle t : timers L !! handle = Some t ->
    0 <= timeout t < 2 ^ 64 /\ 0 <= repeat t < 2 ^ 64 /\ (uv__is_active (flags t) = true -> timer_cb t <> 0);
  ok_active : active_handles L = u32 (others + counted (timers L));
}.

Lemma counted_insert m handle t t' :
  m !! handle = Some t ->
  counted (<[handle := t']> m) = counted m - Z.b2z (counts (flags t)) + Z.b2z (counts (flags t')).
Proof.
  intros E. unfold counted. set (Q := fun '(_, t) => counts (flags t) = true).
  assert (Hin : filter Q m !! handle = if counts (flags t) then Some t else None).
  { destruct (counts (flags t)) eqn:Ec; [by apply map_lookup_filter_Some|].
    apply map_lookup_filter_None. right. intros x Ex HQ. cbn in HQ. congruence. }
  assert (Hpos : counts (flags t) = true -> (0 < size (filter Q m))%nat).
  { intros Ec. rewrite Ec in Hin. apply Nat.neq_0_lt_0. rewrite map_size_empty_iff. intros E0. by rewrite E0, lookup_empty in Hin. }
  rewrite map_filter_insert. destruct (decide (Q (handle, t'))) as [HQ|HQ]; cbn in HQ.
  - rewrite map_size_insert, Hin, HQ. destruct (counts (flags t)); cbn [Z.b2z id]; lia.
  - rewrite map_filter_delete, map_size_delete, Hin. destruct (counts (flags t')); [done|].
    destruct (counts (flags t)); cbn [Z.b2z id]; [specialize (Hpos eq_refl)|]; lia.
Qed.

Definition with_flags (t : uv_timer) (fl : Z) : uv_timer :=
  UvTimer (type t) fl (next_closing t) (timer_cb t) (timeout t) (repeat t) (start_id t).

(** A step that changes one timer and the heap accordingly. *)
Lemma timers_ok_update others L L' h t t' (M M' : gset Z) :
  timers_ok others L -> timers L !! h = Some t ->
  (forall handle, heap_node_of handle ∈ M <-> exists t, timers L !! handle = Some t /\ uv__is_active (flags t) = true) ->
  timers L' = <[h := t']> (timers L) -> time L' = time L ->
  dom (nodes (timer_heap L')) = dom (nodes (timer_heap L)) ->
  0 <= timeout t' < 2 ^ 64 -> 0 <= repeat t' < 2 ^ 64 -> (uv__is_active (flags t') = true -> timer_cb t' <> 0) ->
  active_handles L' = u32 (active_handles L - Z.b2z (counts (flags t)) + Z.b2z (counts (flags t'))) ->
  is_heap (is_timer (timers L')) (timer_lt (timers L')) (timer_heap L') M' ->
  (forall handle, heap_node_of handle ∈ M' <->
     (handle = h /\ uv__is_active (flags t') = true) \/ (handle <> h /\ heap_node_of handle ∈ M)) ->
  timers_ok others L'.
Proof.
  intros Hok Ht HM Hts Htm Hdom Hto Hre Hcb Hact Hheap HM'. split.
  - exists M'. split; [done|]. intros handle. rewrite HM', HM, Hts. destruct (decide (handle = h)) as [->|Hne].
    + rewrite lookup_insert_eq. naive_solver.
    + rewrite lookup_insert_ne by done. naive_solver.
  - intros handle Hin. apply elem_of_dom. rewrite Hdom. apply elem_of_dom, (ok_nodes _ _ Hok).
    rewrite Hts in Hin. destruct (decide (handle = h)) as [->|Hne]; [by eexists|by rewrite lookup_insert_ne in Hin].
  - rewrite Hts, map_size_insert_Some by done. apply (ok_size _ _ Hok).
  - rewrite Htm. apply (ok_time _ _ Hok).
  - intros handle x. rewrite Hts. destruct (decide (handle = h)) as [->|Hne].
    + rewrite lookup_insert_eq. intros [= <-]. done.
    + rewrite lookup_insert_ne by done. apply (ok_timer _ _ Hok).
  - rewrite Hact, (ok_active _ _ Hok), Hts, (counted_insert _ _ _ _ Ht). unfold u32, wrap.
    rewrite Z.add_mod, Zminus_mod_idemp_l, <- Z.add_mod by done. f_equal. lia.
Qed.

Lemma key_with_flags m h t fl node : m !! h = Some t -> key (<[h := with_flags t fl]> m) node = key m node.
Proof.
  intros E. unfold key. destruct (decide (container_of node = h)) as [->|]; [|by rewrite lookup_insert_ne].
  by rewrite lookup_insert_eq, E.
Qed.

Lemma is_timer_insert m h t node : is_timer m node -> is_timer (<[h := t]> m) node.
Proof.
  unfold is_timer. destruct (decide (container_of node = h)) as [->|]; [by rewrite lookup_insert_eq; eexists|].
  by rewrite lookup_insert_ne.
Qed.

Lemma heap_with_flags m h t fl H M :
  m !! h = Some t -> is_heap (is_timer m) (timer_lt m) H M ->
  is_heap (is_timer (<[h := with_flags t fl]> m)) (timer_lt (<[h := with_flags t fl]> m)) H M.
Proof.
  intros E Hh. apply (is_heap_ext _ _ _ _ _ _ Hh).
  - intros a Ha. apply is_timer_insert. destruct Hh as (f & _ & _ & Hall & HM). apply HM in Ha as [Hne [p <-]]. by apply Hall.
  - intros a b _ _. unfold timer_lt. by rewrite !(key_with_flags m h t fl).
Qed.

Lemma node_inj a b : heap_node_of a = heap_node_of b -> a = b.
Proof. unfold heap_node_of. lia. Qed.

Lemma get_timer_run L h t : timers L !! h = Some t -> get_timer h L = Done (t, L).
Proof. intros E. unfold get_timer, prog_get. by rewrite E. Qed.

Lemma put_timer_run L h t t' : timers L !! h = Some t ->
  put_timer h t' L = Done (tt, UvLoop (active_handles L) (handle_queue L) (timer_heap L) (timer_counter L) (time L) (<[h := t']> (timers L))).
Proof. intros E. unfold put_timer, prog_put. by rewrite E. Qed.

Lemma apply_flags_run f L h t fl active : timers L !! h = Some t -> f (flags t) (active_handles L) = (fl, active) ->
  apply_flags f h L =
    Done (tt, UvLoop active (handle_queue L) (timer_heap L) (timer_counter L) (time L) (<[h := with_flags t fl]> (timers L))).
Proof. intros E Ef. unfold apply_flags, prog_put. rewrite E. cbn. by rewrite Ef. Qed.

(** ** Stopping *)

Lemma stop_spec others L h t :
  timers_ok others L -> timers L !! h = Some t ->
  exists L' fl, uv_timer_stop h L = Done (0, L') /\ timers_ok others L' /\
    timers L' = <[h := with_flags t fl]> (timers L) /\ uv__is_active fl = false /\
    uv__has_ref fl = uv__has_ref (flags t) /\ uv__is_closing fl = uv__is_closing (flags t) /\
    time L' = time L /\ timer_counter L' = timer_counter L /\ handle_queue L' = handle_queue L.
Proof.
  intros Hok Ht. unfold uv_timer_stop. destruct (uv__is_active (flags t)) eqn:Eact.
  2:{ exists L, (flags t). split_and!; try done; [by eapply prog_step; [by apply get_timer_run|rewrite Eact]|].
      by rewrite insert_id; destruct t. }
  pose proof (ok_heap _ _ Hok) as (M & Hheap & HM).
  destruct (heap_remove_set (timer_less_than (timers L)) _ _ _ _ (heap_node_of h) Hheap) as (H' & Erun & Hheap' & Hdom).
  { apply HM. by exists t. }
  pose proof (handle_stop_spec (flags t) (active_handles L)) as Hstop.
  destruct (uv__handle_stop (flags t) (active_handles L)) as [fl active] eqn:Ef. destruct Hstop as (Ha & Hre & Hcl & Hact).
  rewrite Eact in Hact.
  exists (UvLoop active (handle_queue L) H' (timer_counter L) (time L) (<[h := with_flags t fl]> (timers L))), fl.
  split_and!; try done.
  - eapply prog_step; [by apply get_timer_run|]. rewrite Eact. cbn [negb].
    eapply prog_step; [unfold timer_heap_remove, with_heap; rewrite Erun; reflexivity|].
    eapply prog_step; [by apply apply_flags_run|done].
  - destruct (ok_timer _ _ Hok h t Ht) as (H1 & H2 & H3).
    apply (timers_ok_update others L _ h t (with_flags t fl) M (M ∖ {[heap_node_of h]})); try done.
    + cbn. congruence.
    + cbn [active_handles flags with_flags]. rewrite Hact. unfold counts. rewrite Eact, Ha. cbn [andb Z.b2z].
      destruct (uv__has_ref (flags t)); cbn [Z.b2z]; [f_equal; lia|].
      rewrite (ok_active _ _ Hok). unfold u32. rewrite Z.sub_0_r, Z.add_0_r, wrap_wrap; done.
    + cbn. by apply heap_with_flags.
    + intros handle. cbn. rewrite Ha, elem_of_difference, elem_of_singleton.
      split; [intros [Hin Hne]; right; split; [by intros ->|done]|]. intros [[_ ?]|[Hne Hin]]; [done|].
      split; [done|]. by intros E%node_inj.
Qed.

(** ** Starting *)

(** The heap does not depend on a timer that is not in it. *)
Lemma heap_other_timer m h t' H (M : gset Z) :
  is_heap (is_timer m) (timer_lt m) H M -> heap_node_of h ∉ M ->
  is_heap (is_timer (<[h := t']> m)) (timer_lt (<[h := t']> m)) H M.
Proof.
  intros Hh Hni. apply (is_heap_ext _ _ _ _ _ _ Hh).
  - intros a Ha. apply is_timer_insert. destruct Hh as (f & _ & _ & Hall & HM). apply HM in Ha as [Hne [p <-]]. by apply Hall.
  - intros a b Ha Hb. unfold timer_lt, key.
    assert (Hne : forall x, x ∈ M -> container_of x <> h).
    { intros x Hx <-. by rewrite node_of_container in Hni. }
    by rewrite !lookup_insert_ne by (apply not_eq_sym, Hne; done).
Qed.

Lemma clamp_spec now tmo :
  0 <= now < 2 ^ 64 -> 0 <= tmo < 2 ^ 64 ->
  (if u64 (now + tmo) <? tmo then 2 ^ 64 - 1 else u64 (now + tmo)) = Z.min (now + tmo) (2 ^ 64 - 1).
Proof.
  intros Hn Ht. destruct (Z.lt_ge_cases (now + tmo) (2 ^ 64)) as [Hlt|Hge].
  - rewrite u64_small by lia. destruct (Z.ltb_spec (now + tmo) tmo); lia.
  - assert (u64 (now + tmo) = now + tmo - 2 ^ 64) as -> by (symmetry; apply (Z.mod_unique _ _ 1); lia).
    destruct (Z.ltb_spec (now + tmo - 2 ^ 64) tmo); lia.
Qed.

(** The timer after it was started at time [now] as number [id]. *)
Definition started (t : uv_timer) (fl cb now tmo rep id : Z) : uv_timer :=
  UvTimer (type t) fl (next_closing t) cb (Z.min (now + tmo) (2 ^ 64 - 1)) rep id.

Lemma heap_room others L : timers_ok others L ->
  forall h t, timers L !! h = Some t -> uv__is_active (flags t) = false -> nelts (timer_heap L) + 1 < 2 ^ 32.
Proof.
  intros Hok h t Ht Hact. destruct (ok_heap _ _ Hok) as (M & Hheap & HM). rewrite <- (is_heap_size _ _ _ _ Hheap).
  pose proof (ok_size _ _ Hok) as Hsz.
  assert (Hsub : list_to_set (container_of <$> elements M) ⊆ dom (timers L) ∖ {[h]}).
  { intros x. rewrite elem_of_list_to_set, list_elem_of_fmap. intros (a & -> & Ha%elem_of_elements).
    rewrite <- (node_of_container a) in Ha. apply HM in Ha as (t' & Et & Ea).
    rewrite elem_of_difference, elem_of_dom, elem_of_singleton. split; [by eexists|]. intros E. rewrite E, Ht in Et. congruence. }
  apply subseteq_size in Hsub. rewrite size_list_to_set, length_fmap in Hsub.
  2:{ apply NoDup_fmap_2_strong; [|apply NoDup_elements]. intros a b _ _. unfold container_of. lia. }
  change (length (elements M)) with (size M) in Hsub.
  rewrite size_difference, size_singleton, size_dom in Hsub by (apply singleton_subseteq_l, elem_of_dom; by eexists).
  assert (0 < size (timers L))%nat; [|lia].
  apply Nat.neq_0_lt_0. rewrite map_size_empty_iff. intros E0. by rewrite E0, lookup_empty in Ht.
Qed.

Lemma start_spec others L h t cb tmo rep :
  timers_ok others L -> timers L !! h = Some t -> uv__is_closing (flags t) = false -> cb <> 0 ->
  0 <= tmo < 2 ^ 64 -> 0 <= rep < 2 ^ 64 ->
  exists L' fl, uv_timer_start h cb tmo rep L = Done (0, L') /\ timers_ok others L' /\
    timers L' = <[h := started t fl cb (time L) tmo rep (timer_counter L)]> (timers L) /\ uv__is_active fl = true /\
    uv__has_ref fl = uv__has_ref (flags t) /\ uv__is_closing fl = false /\
    time L' = time L /\ timer_counter L' = u64 (timer_counter L + 1) /\ handle_queue L' = handle_queue L.
Proof.
  intros Hok Ht Hclo Hcb Htmo Hrep.
  assert (Hstop : exists L1 fl1, (if uv__is_active (flags t) then uv_timer_stop h else mret 0) L = Done (0, L1) /\ timers_ok others L1 /\
    timers L1 = <[h := with_flags t fl1]> (timers L) /\ uv__is_active fl1 = false /\ uv__has_ref fl1 = uv__has_ref (flags t) /\
    uv__is_closing fl1 = uv__is_closing (flags t) /\ time L1 = time L /\ timer_counter L1 = timer_counter L /\
    handle_queue L1 = handle_queue L).
  { destruct (uv__is_active (flags t)) eqn:Ea; [by apply stop_spec|]. exists L, (flags t). split_and!; try done.
    by rewrite insert_id; destruct t. }
  destruct Hstop as (L1 & fl1 & E1 & Hok1 & Hts1 & Ha1 & Hre1 & Hcl1 & Htm1 & Hid1 & Hq1).
  set (t1 := with_flags t fl1) in *. assert (Ht1 : timers L1 !! h = Some t1) by (rewrite Hts1; apply lookup_insert_eq).
  set (t2 := started t1 fl1 cb (time L) tmo rep (timer_counter L)).
  destruct (ok_heap _ _ Hok1) as (M & Hheap & HM).
  assert (Hni : heap_node_of h ∉ M). { rewrite HM, Ht1. intros (t' & [= <-] & Ea). cbn in Ea. congruence. }
  pose proof (heap_other_timer _ h t2 _ _ Hheap Hni) as Hheap2. set (m2 := <[h := t2]> (timers L1)) in *.
  assert (Ht2 : m2 !! h = Some t2) by apply lookup_insert_eq.
  destruct (heap_insert_set (timer_less_than m2) _ _ _ _ (heap_node_of h) Hheap2) as (H3 & Erun & Hheap3 & Hdom3).
  { done. }
  { intros E0. destruct (ok_nodes _ _ Hok1 h) as [x Hx]; [by eexists|]. rewrite E0 in Hx.
    destruct Hheap as (f & Hr & _). by rewrite (rep_null f _ Hr) in Hx. }
  { unfold is_timer. rewrite container_of_node, Ht2. by eexists. }
  { apply (ok_nodes _ _ Hok1). by eexists. }
  { by apply (heap_room others L1 Hok1 h t1 Ht1). }
  pose proof (handle_start_spec fl1 (active_handles L1)) as Hstart.
  destruct (uv__handle_start fl1 (active_handles L1)) as [fl active] eqn:Ef. destruct Hstart as (Ha & Hre & Hcl & Hact).
  rewrite Ha1 in Hact.
  exists (UvLoop active (handle_queue L1) H3 (u64 (timer_counter L + 1)) (time L1) (<[h := with_flags t2 fl]> m2)), fl.
  assert (Hm3 : <[h := with_flags t2 fl]> m2 = <[h := started t fl cb (time L) tmo rep (timer_counter L)]> (timers L1)).
  { unfold m2. by rewrite insert_insert_eq. }
  split_and!; try done; try congruence.
  - unfold uv_timer_start. eapply prog_step; [by apply get_timer_run|]. rewrite Hclo, (proj2 (Z.eqb_neq _ _) Hcb). cbn [orb].
    eapply prog_step; [exact E1|]. eapply prog_step; [reflexivity|]. rewrite Htm1.
    rewrite clamp_spec by (pose proof (ok_time _ _ Hok); lia).
    eapply prog_step; [by apply get_timer_run|]. eapply prog_step; [reflexivity|]. eapply prog_step; [reflexivity|]. rewrite Hid1.
    eapply prog_step; [by apply put_timer_run with (t := t1) (t' := t2)|]. cbn [active_handles handle_queue timer_heap timer_counter time timers].
    eapply prog_step; [unfold timer_heap_insert, with_heap; cbn [timers timer_heap]; fold m2; rewrite Erun; reflexivity|].
    cbn [active_handles handle_queue timer_heap timer_counter time timers].
    eapply prog_step; [by apply apply_flags_run with (t := t2) (fl := fl) (active := active)|]. by rewrite Htm1.
  - destruct (ok_timer _ _ Hok1 h t1 Ht1) as (H1 & H2 & _). pose proof (ok_time _ _ Hok).
    apply (timers_ok_update others L1 _ h t1 (started t fl cb (time L) tmo rep (timer_counter L)) M ({[heap_node_of h]} ∪ M)); try done.
    + cbn [timeout started]. lia.
    + cbn [active_handles flags started]. rewrite Hact. unfold counts. rewrite Ha, Hre. cbn [flags t1 with_flags].
      rewrite Ha1. cbn [andb Z.b2z]. destruct (uv__has_ref fl1); cbn [Z.b2z]; [f_equal; lia|].
      rewrite (ok_active _ _ Hok1). unfold u32. rewrite Z.sub_0_r, Z.add_0_r, wrap_wrap; done.
    + cbn [timers timer_heap]. by apply heap_with_flags.
    + intros handle. cbn [flags started]. rewrite Ha, elem_of_union, elem_of_singleton.
      destruct (decide (handle = h)) as [->|Hne]; [naive_solver|].
      assert (heap_node_of handle <> heap_node_of h) by (by intros ?%node_inj). naive_solver.
  - cbn [timers]. by rewrite Hm3, Hts1, insert_insert_eq.
Qed.

Lemma start_refused L h t cb tmo rep :
  timers L !! h = Some t -> uv__is_closing (flags t) = true \/ cb = 0 -> uv_timer_start h cb tmo rep L = Done (UV_EINVAL, L).
Proof.
  intros Ht Hr. unfold uv_timer_start. eapply prog_step; [by apply get_timer_run|].
  destruct Hr as [->| ->]; [done|]. by rewrite orb_true_r.
Qed.

(** ** Rearming *)

(** What [uv_timer_again] makes of the loop. *)
Inductive rearmed (h : Z) (t : uv_timer) (L L' : uv_loop) : Prop :=
| OneShot : repeat t = 0 -> L' = L -> rearmed h t L L'
| Refused fl : repeat t <> 0 -> uv__is_closing (flags t) = true -> uv__is_active fl = false ->
    timers L' = <[h := with_flags t fl]> (timers L) -> rearmed h t L L'
| Rearmed fl : repeat t <> 0 -> uv__is_active fl = true ->
    timers L' = <[h := started t fl (timer_cb t) (time L) (repeat t) (repeat t) (timer_counter L)]> (timers L) -> rearmed h t L L'.

Lemma again_spec others L h t :
  timers_ok others L -> timers L !! h = Some t -> timer_cb t <> 0 ->
  exists L', uv_timer_again h L = Done (0, L') /\ timers_ok others L' /\ time L' = time L /\ rearmed h t L L'.
Proof.
  intros Hok Ht Hcb. destruct (ok_timer _ _ Hok h t Ht) as (_ & Hrep & _).
  unfold uv_timer_again. destruct (Z.eq_dec (repeat t) 0) as [E0|Hne].
  { exists L. split_and!; [|done|done|by apply OneShot]. eapply prog_step; [by apply get_timer_run|].
    by rewrite (proj2 (Z.eqb_neq _ _) Hcb), E0. }
  destruct (stop_spec others L h t Hok Ht) as (L1 & fl1 & E1 & Hok1 & Hts1 & Ha1 & Hre1 & Hcl1 & Htm1 & Hid1 & Hq1).
  assert (Ht1 : timers L1 !! h = Some (with_flags t fl1)) by (rewrite Hts1; apply lookup_insert_eq).
  destruct (uv__is_closing (flags t)) eqn:Ecl.
  - exists L1. split_and!; [|done|done|by apply Refused with fl1].
    eapply prog_step; [by apply get_timer_run|]. rewrite (proj2 (Z.eqb_neq _ _) Hcb), (proj2 (Z.eqb_neq _ _) Hne). cbn [negb].
    eapply prog_step; [exact E1|]. eapply prog_step; [by apply get_timer_run|].
    eapply prog_step; [eapply start_refused; [done|by left]|done].
  - destruct (start_spec others L1 h (with_flags t fl1) (timer_cb t) (repeat t) (repeat t) Hok1 Ht1)
      as (L2 & fl2 & E2 & Hok2 & Hts2 & Ha2 & _ & _ & Htm2 & _); [done..|].
    exists L2. split_and!; [|done|congruence|].
    + eapply prog_step; [by apply get_timer_run|]. rewrite (proj2 (Z.eqb_neq _ _) Hcb), (proj2 (Z.eqb_neq _ _) Hne). cbn [negb].
      eapply prog_step; [exact E1|]. eapply prog_step; [by apply get_timer_run|]. eapply prog_step; [exact E2|done].
    + apply Rearmed with fl2; [done..|]. rewrite Hts2, Hts1, insert_insert_eq, Htm1, Hid1. done.
Qed.

(** ** Initialising and changing the period *)

Lemma init_spec others L h t :
  timers_ok others L -> timers L !! h = Some t -> uv__is_active (flags t) = false ->
  exists L' t', uv_timer_init h L = Done (0, L') /\ timers_ok others L' /\ timers L' = <[h := t']> (timers L) /\
    handle_queue L' = handle_queue L ++ [h] /\ type t' = UV_TIMER /\ timer_cb t' = 0 /\ repeat t' = 0 /\
    uv__is_active (flags t') = false /\ uv__has_ref (flags t') = true /\ uv__is_closing (flags t') = false.
Proof.
  intros Hok Ht Hact. set (t' := UvTimer UV_TIMER UV_HANDLE_REF 0 0 (timeout t) 0 (start_id t)).
  exists (UvLoop (active_handles L) (handle_queue L ++ [h]) (timer_heap L) (timer_counter L) (time L) (<[h := t']> (timers L))), t'.
  split_and!; try done.
  - unfold uv_timer_init. eapply prog_step; [by apply get_timer_run|].
    eapply prog_step; [by apply put_timer_run with (t := t) (t' := t')|done].
  - destruct (ok_timer _ _ Hok h t Ht) as (H1 & _). destruct (ok_heap _ _ Hok) as (M & Hheap & HM).
    assert (Hni : heap_node_of h ∉ M) by (rewrite HM, Ht; intros (x & [= <-] & Ea); congruence).
    apply (timers_ok_update others L _ h t t' M M); try done.
    + cbn [active_handles]. unfold counts. rewrite Hact. cbn. rewrite Z.sub_0_r, Z.add_0_r, (ok_active _ _ Hok).
      unfold u32. by rewrite wrap_wrap.
    + cbn [timers timer_heap]. by apply heap_other_timer.
    + intros handle. cbn [flags t']. change (uv__is_active UV_HANDLE_REF) with false.
      split; [intros Hin; right; split; [by intros ->|done]|]. by intros [[_ ?]|[_ ?]].
Qed.

Lemma set_repeat_spec others L h t rep :
  timers_ok others L -> timers L !! h = Some t -> 0 <= rep < 2 ^ 64 ->
  exists L', uv_timer_set_repeat h rep L = Done (tt, L') /\ timers_ok others L' /\ uv_timer_get_repeat h L' = Done (rep, L').
Proof.
  intros Hok Ht Hrep.
  set (t' := UvTimer (type t) (flags t) (next_closing t) (timer_cb t) (timeout t) rep (start_id t)).
  exists (UvLoop (active_handles L) (handle_queue L) (timer_heap L) (timer_counter L) (time L) (<[h := t']> (timers L))).
  split_and!.
  - unfold uv_timer_set_repeat. eapply prog_step; [by apply get_timer_run|]. by apply put_timer_run with (t := t) (t' := t').
  - destruct (ok_timer _ _ Hok h t Ht) as (H1 & _ & H3). destruct (ok_heap _ _ Hok) as (M & Hheap & HM).
    apply (timers_ok_update others L _ h t t' M M); try done.
    + cbn. rewrite Z.sub_add, (ok_active _ _ Hok). unfold u32. by rewrite wrap_wrap.
    + cbn [timers timer_heap]. apply (is_heap_ext _ _ _ _ _ _ Hheap).
      * intros a Ha. apply is_timer_insert. rewrite <- (node_of_container a) in Ha. apply HM in Ha as (x & Ex & _). by exists x.
      * intros a b _ _. unfold timer_lt, key.
        destruct (decide (container_of a = h)) as [->|], (decide (container_of b = h)) as [->|];
          rewrite ?lookup_insert_eq, ?lookup_insert_ne, ?Ht by done; done.
    + intros handle. cbn [flags t']. rewrite HM. destruct (decide (handle = h)) as [->|]; [|naive_solver]. rewrite Ht. naive_solver.
  - unfold uv_timer_get_repeat. eapply prog_step; [apply get_timer_run; apply lookup_insert_eq|done].
Qed.

(** ** The next timeout *)

Definition due (L : uv_loop) (h : Z) (t : uv_timer) : Prop :=
  timers L !! h = Some t /\ uv__is_active (flags t) = true /\ timeout t <= time L.

(** The root of the heap: no timer is active, or it is a first active timer. *)
Lemma first_timer others L :
  timers_ok others L ->
  (heap_min (timer_heap L) = 0 /\ forall h t, timers L !! h = Some t -> uv__is_active (flags t) = false) \/
  exists h t, heap_min (timer_heap L) = heap_node_of h /\ heap_node_of h <> 0 /\ timers L !! h = Some t /\
    uv__is_active (flags t) = true /\
    forall h' t', timers L !! h' = Some t' -> uv__is_active (flags t') = true ->
      key_less (timeout t', start_id t') (timeout t, start_id t) = false.
Proof.
  intros Hok. destruct (ok_heap _ _ Hok) as (M & Hheap & HM).
  destruct (heap_min_least (timer_less_than (timers L)) _ _ _ _ Hheap) as [[-> E]|(Hin & Hne & Hleast)].
  - left. split; [done|]. intros h t Ht. destruct (uv__is_active (flags t)) eqn:Ea; [|done].
    assert (heap_node_of h ∈ (∅ : gset Z)) by (apply HM; by exists t). set_solver.
  - right. rewrite <- (node_of_container (heap_min (timer_heap L))) in *. set (h := container_of _) in *.
    pose proof Hin as (t & Ht & Ha)%HM. exists h, t. split_and!; [done..|]. intros h' t' Ht' Ha'.
    specialize (Hleast (heap_node_of h')). unfold timer_lt, key in Hleast. rewrite !container_of_node, Ht, Ht' in Hleast.
    apply Hleast, HM. by exists t'.
Qed.

(** ** Running the due timers *)

(** The timer after its callback was called by [uv__run_timers]. *)
Lemma fire_spec others L h t :
  timers_ok others L -> timers L !! h = Some t -> uv__is_active (flags t) = true ->
  exists L' t', (uv_timer_stop h;; uv_timer_again h;; get_timer h) L = Done (t', L') /\ timers_ok others L' /\
    time L' = time L /\ timers L' = <[h := t']> (timers L) /\ timer_cb t' = timer_cb t /\ timer_cb t' <> 0 /\
    (uv__is_active (flags t') = true ->
       repeat t <> 0 /\ timeout t' = Z.min (time L + repeat t) (2 ^ 64 - 1) /\ start_id t' = timer_counter L) /\
    (uv__is_closing (flags t) = false -> repeat t <> 0 -> uv__is_active (flags t') = true).
Proof.
  intros Hok Ht Ha. destruct (ok_timer _ _ Hok h t Ht) as (_ & _ & Hcb). specialize (Hcb Ha).
  destruct (stop_spec others L h t Hok Ht) as (L1 & fl1 & E1 & Hok1 & Hts1 & Ha1 & Hre1 & Hcl1 & Htm1 & Hid1 & Hq1).
  assert (Ht1 : timers L1 !! h = Some (with_flags t fl1)) by (rewrite Hts1; apply lookup_insert_eq).
  destruct (again_spec others L1 h _ Hok1 Ht1 Hcb) as (L2 & E2 & Hok2 & Htm2 & Hre).
  assert (Hend : forall t', timers L2 = <[h := t']> (timers L) ->
    (uv_timer_stop h;; uv_timer_again h;; get_timer h) L = Done (t', L2)).
  { intros t' Hts. eapply prog_step; [exact E1|]. eapply prog_step; [exact E2|]. apply get_timer_run. rewrite Hts. apply lookup_insert_eq. }
  destruct Hre as [E0 ->|fl Hne Hcl Hfl Hts2|fl Hne Hfl Hts2]; cbn [repeat with_flags flags timer_cb] in *.
  - exists L1, (with_flags t fl1). split_and!; try done; [by apply Hend|..]; cbn; congruence.
  - rewrite Hts1, insert_insert_eq in Hts2. exists L2, (with_flags t fl). split_and!; try done; [by apply Hend|congruence|..]; cbn; congruence.
  - rewrite Hts1, insert_insert_eq in Hts2. eexists L2, _. split_and!; [by apply Hend|done|congruence|exact Hts2|done..| |done].
    intros _. cbn. rewrite Htm1, Hid1. done.
Qed.

Definition is_due (L : uv_loop) (t : uv_timer) : Prop := uv__is_active (flags t) = true /\ timeout t <= time L.
#[export] Instance is_due_dec L t : Decision (is_due L t).
Proof. unfold is_due. apply _. Defined.

Definition due_set (L : uv_loop) : gset Z := dom (filter (fun '(_, t) => is_due L t) (timers L)).

Lemma elem_of_due L h : h ∈ due_set L <-> exists t, due L h t.
Proof. unfold due_set, due. rewrite elem_of_dom. unfold is_Some. setoid_rewrite map_lookup_filter_Some. done. Qed.

(** The order in which timers of a table fire. *)
Definition fires_before (m : gmap Z uv_timer) (h h' : Z) : Prop :=
  forall t t', m !! h = Some t -> m !! h' = Some t' -> key_less (timeout t', start_id t') (timeout t, start_id t) = false.

Section Run.
Context `{TimerCallbacks}.

(** One round of the loop, for a due timer that comes first. *)
Lemma run_round others L h t fuel :
  timers_ok others L -> heap_min (timer_heap L) = heap_node_of h -> heap_node_of h <> 0 ->
  timers L !! h = Some t -> uv__is_active (flags t) = true -> timeout t <= time L ->
  exists L1 t1, timers_ok others L1 /\ time L1 = time L /\ timers L1 = <[h := t1]> (timers L) /\
    (uv__is_active (flags t1) = true ->
       repeat t <> 0 /\ timeout t1 = Z.min (time L + repeat t) (2 ^ 64 - 1) /\ start_id t1 = timer_counter L) /\
    (uv_timer_stop h;; uv_timer_again h;; get_timer h) L = Done (t1, L1) /\
    uv__run_timers (S fuel) L =
      (call_timer (timer_cb t) h;; fired ← uv__run_timers fuel; mret (h :: fired)) L1.
Proof.
  intros Hok Hmin Hnz Ht Ha Hdue.
  destruct (fire_spec others L h t Hok Ht Ha) as (L1 & t1 & E & Hok1 & Htm1 & Hts1 & Hcb & Hcbn & Hact & Hact').
  exists L1, t1. split_and!; [done..|]. cbn [uv__run_timers].
  eapply prog_step; [reflexivity|]. cbv beta. rewrite Hmin, (proj2 (Z.eqb_neq _ _) Hnz), container_of_node. cbv zeta.
  eapply prog_step; [by apply get_timer_run|]. eapply prog_step; [reflexivity|].
  destruct (Z.ltb_spec (time L) (timeout t)); [lia|].
  revert E. unfold mbind, prog_bind. destruct (uv_timer_stop h L) as [[x1 S1]| |]; cbn [mbind outcome_bind]; [|discriminate..].
  destruct (uv_timer_again h S1) as [[x2 S2]| |]; cbn [mbind outcome_bind]; [|discriminate..].
  intros ->. cbn [mbind outcome_bind]. by rewrite (proj2 (Z.eqb_neq _ _) Hcbn), Hcb.
Qed.

(** The loop stops when no timer is due. *)
Lemma run_stops others L fuel :
  timers_ok others L -> (forall h t, ~ due L h t) -> uv__run_timers (S fuel) L = Done ([], L).
Proof.
  intros Hok Hnone. cbn [uv__run_timers]. eapply prog_step; [reflexivity|]. cbv beta.
  destruct (first_timer others L Hok) as [[E _]|(h & t & E & Hnz & Ht & Ha & _)]; rewrite E; [done|].
  rewrite (proj2 (Z.eqb_neq _ _) Hnz), container_of_node. cbv zeta.
  eapply prog_step; [by apply get_timer_run|]. eapply prog_step; [reflexivity|].
  destruct (Z.ltb_spec (time L) (timeout t)); [done|]. by destruct (Hnone h t).
Qed.

(** Either no timer is due, or the first one is. *)
Lemma due_or_none others L :
  timers_ok others L ->
  (forall h t, ~ due L h t) \/
  exists h t, heap_min (timer_heap L) = heap_node_of h /\ heap_node_of h <> 0 /\ due L h t /\
    forall h' t', due L h' t' -> key_less (timeout t', start_id t') (timeout t, start_id t) = false.
Proof.
  intros Hok. destruct (first_timer others L Hok) as [[_ Hnone]|(h & t & E & Hnz & Ht & Ha & Hfirst)].
  - left. intros h t (Ht & Ha & _). by rewrite (Hnone h t Ht) in Ha.
  - destruct (Z.le_gt_cases (timeout t) (time L)) as [Hd|Hnd].
    + right. exists h, t. split_and!; [done..|]. intros h' t' (Ht' & Ha' & _). by apply (Hfirst h').
    + left. intros h' t' (Ht' & Ha' & Hd). specialize (Hfirst h' t' Ht' Ha'). unfold key_less in Hfirst. cbn in Hfirst. lia.
Qed.
End Run.

Lemma StronglySorted_impl_in {A} (R R' : A -> A -> Prop) l :
  StronglySorted R l -> (forall x y, x ∈ l -> y ∈ l -> R x y -> R' x y) -> StronglySorted R' l.
Proof.
  induction 1 as [|x l Hs IH Hall]; intros Himp; constructor.
  - apply IH. intros y z Hy Hz. apply Himp; by right.
  - rewrite Forall_forall in Hall |- *. intros y Hy. apply Himp; [by left|by right|by apply Hall].
Qed.

(** A fired timer is no longer due: it is inactive or set for later. *)
Lemma fired_not_due others L L1 h t t1 :
  timers_ok others L -> due L h t -> time L < 2 ^ 64 - 1 -> time L1 = time L -> timers L1 = <[h := t1]> (timers L) ->
  (uv__is_active (flags t1) = true -> repeat t <> 0 /\ timeout t1 = Z.min (time L + repeat t) (2 ^ 64 - 1) /\ start_id t1 = timer_counter L) ->
  due_set L1 = due_set L ∖ {[h]}.
Proof.
  intros Hok (Ht & Ha & Hd) Htime Htm Hts Hact. destruct (ok_timer _ _ Hok h t Ht) as (_ & Hrep & _).
  apply set_eq. intros x. rewrite elem_of_difference, !elem_of_due, elem_of_singleton. unfold due. rewrite Hts, Htm.
  destruct (decide (x = h)) as [->|Hne].
  - rewrite lookup_insert_eq. split; [|naive_solver]. intros (y & [= <-] & Ha1 & Hd1). destruct (Hact Ha1) as (Hr & E & _). lia.
  - rewrite lookup_insert_ne by done. naive_solver.
Qed.

Lemma no_due_set L : (forall h t, ~ due L h t) -> due_set L = ∅.
Proof. intros Hnone. apply set_eq. intros x. rewrite elem_of_due. split; [|set_solver]. intros [t Hd]. by destruct (Hnone x t). Qed.

(** What a callback does, from [L] to [L'], makes no timer due: the clock
    stands, and what is due afterwards was due before, for the same time and
    with the same start number.  It may stop and close timers, and start or
    rearm them for later. *)
Definition none_made_due (L L' : uv_loop) : Prop :=
  time L' = time L /\
  forall h t', due L' h t' -> exists t, due L h t /\ timeout t = timeout t' /\ start_id t = start_id t'.

(** A call of a callback: the handle, and the loop before and after it. *)
Record fired_call : Type := FiredCall { fc_handle : Z; fc_before : uv_loop; fc_after : uv_loop }.

(** One round: the timer is the first of the due ones, it is stopped and, if
    it repeats, rearmed, and then its callback runs. *)
Definition fires `{TimerCallbacks} (L : uv_loop) (c : fired_call) : Prop :=
  exists t t1,
    due L (fc_handle c) t /\
    (forall h' t', due L h' t' -> key_less (timeout t', start_id t') (timeout t, start_id t) = false) /\
    (uv_timer_stop (fc_handle c);; uv_timer_again (fc_handle c);; get_timer (fc_handle c)) L = Done (t1, fc_before c) /\
    timers (fc_before c) = <[fc_handle c := t1]> (timers L) /\
    call_timer (timer_cb t) (fc_handle c) (fc_before c) = Done (tt, fc_after c).

Fixpoint fires_all `{TimerCallbacks} (L : uv_loop) (cs : list fired_call) (L' : uv_loop) : Prop :=
  match cs with
  | [] => L' = L
  | c :: cs => fires L c /\ fires_all (fc_after c) cs L'
  end.

(** The timers of [L] that are due later in the run have the keys they had. *)
Lemma due_later L L1 L2 h t1 x t' :
  due_set L1 = due_set L ∖ {[h]} -> timers L1 = <[h := t1]> (timers L) -> none_made_due L1 L2 -> due L2 x t' ->
  x <> h /\ exists t, due L x t /\ timeout t = timeout t' /\ start_id t = start_id t'.
Proof.
  intros Hset Hts [_ Hno] Hd. destruct (Hno x t' Hd) as (t & Ht & E1 & E2).
  assert (Hx : x ∈ due_set L1) by (apply elem_of_due; eauto). rewrite Hset in Hx. assert (Hne : x <> h) by set_solver. split; [done|].
  assert (Hx' : x ∈ due_set L) by set_solver. apply elem_of_due in Hx' as (t0 & Ht0). exists t0.
  assert (t0 = t) as ->; [|done]. destruct Ht as (Et & _), Ht0 as (Et0 & _). rewrite Hts, lookup_insert_ne in Et by done. congruence.
Qed.

Lemma fires_before_later L L1 L2 h t1 x y :
  due_set L1 = due_set L ∖ {[h]} -> timers L1 = <[h := t1]> (timers L) -> none_made_due L1 L2 ->
  x ∈ due_set L2 -> y ∈ due_set L2 -> fires_before (timers L2) x y -> fires_before (timers L) x y.
Proof.
  intros Hset Hts Hno (tx & Hx)%elem_of_due (ty & Hy)%elem_of_due Hb u v Hu Hv.
  destruct (due_later _ _ _ _ _ _ _ Hset Hts Hno Hx) as (_ & u' & (Eu & _) & E1 & E2).
  destruct (due_later _ _ _ _ _ _ _ Hset Hts Hno Hy) as (_ & v' & (Ev & _) & E3 & E4).
  rewrite Hu in Eu. rewrite Hv in Ev. injection Eu as ->. injection Ev as ->. rewrite E1, E2, E3, E4.
  destruct Hx as [Hx _], Hy as [Hy _]. by apply Hb.
Qed.

Lemma run_timers_spec `{TimerCallbacks} others fuel now L :
  (forall cb h L, timers_ok others L -> time L = now -> exists L', call_timer cb h L = Done (tt, L') /\ timers_ok others L' /\ none_made_due L L') ->
  timers_ok others L -> time L = now -> now < 2 ^ 64 - 1 -> (size (due_set L) < fuel)%nat ->
  exists cs L', uv__run_timers fuel L = Done (map fc_handle cs, L') /\ fires_all L cs L' /\ timers_ok others L' /\
    NoDup (map fc_handle cs) /\ (forall h, h ∈ map fc_handle cs -> h ∈ due_set L) /\
    StronglySorted (fires_before (timers L)) (map fc_handle cs) /\ due_set L' = ∅ /\
    (forall h, h ∈ due_set L -> h ∉ map fc_handle cs -> exists c, c ∈ cs /\ h ∈ due_set (fc_before c) /\ h ∉ due_set (fc_after c)).
Proof.
  intros Hcall. revert L. induction fuel as [|fuel IH]; intros L Hok Hnow Htime Hfuel; [lia|].
  destruct (due_or_none others L Hok) as [Hnone|(h & t & E & Hnz & Hdue & Hfirst)].
  { exists [], L. rewrite (no_due_set L Hnone). split_and!; first [by apply (run_stops others)|done|constructor|set_solver]. }
  pose proof Hdue as (Ht & Ha & Hd).
  destruct (run_round others L h t fuel Hok E Hnz Ht Ha Hd) as (L1 & t1 & Hok1 & Htm1 & Hts1 & Hact & Hstep & Hrun).
  pose proof (fired_not_due others L L1 h t t1 Hok Hdue ltac:(lia) Htm1 Hts1 Hact) as Hset.
  assert (Hin : h ∈ due_set L) by (apply elem_of_due; by exists t).
  destruct (Hcall (timer_cb t) h L1 Hok1) as (L2 & E2 & Hok2 & Hno); [congruence|].
  assert (Hlater : forall x, x ∈ due_set L2 -> x <> h /\ x ∈ due_set L).
  { intros x (tx & Hx)%elem_of_due. destruct (due_later _ _ _ _ _ _ _ Hset Hts1 Hno Hx) as (? & u & Hu & _). split; [done|]. apply elem_of_due. eauto. }
  destruct (IH L2 Hok2) as (cs & L' & E' & Hall & Hok' & Hnd & Hmem & Hsort & Hempty & Hrest).
  { destruct Hno as [-> _]. congruence. }
  { done. }
  { assert (due_set L2 ⊆ due_set L ∖ {[h]}) as Hsub by (intros x Hx; apply Hlater in Hx; set_solver).
    apply subseteq_size in Hsub. rewrite size_difference, size_singleton in Hsub by set_solver.
    assert (size (due_set L) <> 0)%nat by (apply size_non_empty_iff; set_solver). lia. }
  exists (FiredCall h L1 L2 :: cs), L'. cbn [map fc_handle fires_all fc_after]. split_and!; [| |done|done| | | |done|].
  - rewrite Hrun. eapply prog_step; [exact E2|]. eapply prog_step; [exact E'|done].
  - exists t, t1. by split_and!.
  - constructor; [|done]. intros Hx. apply Hmem, Hlater in Hx. tauto.
  - intros x [->|Hx]%elem_of_cons; [done|]. by apply Hlater, Hmem.
  - constructor.
    + apply (StronglySorted_impl_in _ _ _ Hsort). intros x y Hx Hy. eapply fires_before_later; eauto.
    + apply Forall_forall. intros x Hx. apply Hmem, Hlater in Hx as [_ Hx]. apply elem_of_due in Hx as (tx & Htx).
      intros u u' Hu Hu'. pose proof Htx as (Ex & _). rewrite Ht in Hu. rewrite Ex in Hu'. injection Hu as <-. injection Hu' as <-. by apply (Hfirst x).
  - intros x Hx Hnf. rewrite not_elem_of_cons in Hnf. destruct Hnf as [Hne Hnf]. destruct (decide (x ∈ due_set L2)) as [Hx2|Hx2].
    + destruct (Hrest x Hx2 Hnf) as (c & Hc & ?). exists c. split; [by right|done].
    + exists (FiredCall h L1 L2). cbn. split_and!; [by left|rewrite Hset; set_solver|done].
Qed.

(** With callbacks that keep the invariant, the loop is safe whatever they do. *)
Lemma run_timers_safe_spec `{TimerCallbacks} others fuel L :
  (forall cb h L, timers_ok others L -> exists L', call_timer cb h L = Done (tt, L') /\ timers_ok others L') ->
  timers_ok others L ->
  uv__run_timers fuel L = NoFuel \/
  exists fired L', uv__run_timers fuel L = Done (fired, L') /\ timers_ok others L' /\ due_set L' = ∅.
Proof.
  intros Hcall. revert L. induction fuel as [|fuel IH]; intros L Hok; [by left|].
  destruct (due_or_none others L Hok) as [Hnone|(h & t & E & Hnz & (Ht & Ha & Hd) & Hfirst)].
  { right. exists [], L. split_and!; [by apply (run_stops others)|done|by apply no_due_set]. }
  destruct (run_round others L h t fuel Hok E Hnz Ht Ha Hd) as (L1 & t1 & Hok1 & _ & _ & _ & _ & ->).
  destruct (Hcall (timer_cb t) h L1 Hok1) as (L2 & E2 & Hok2). unfold mbind, prog_bind. rewrite E2. cbn [mbind outcome_bind].
  destruct (IH L2 Hok2) as [->|(fired & L' & -> & Hok' & He)]; [by left|]. right. by exists (h :: fired), L'.
Qed.

(** ** Sequences of calls *)

(** The functions a program calls on its timers, and the passing of time. *)
Inductive timer_call : Type :=
| CallInit (h : Z)
| CallStart (h cb tmo rep : Z)
| CallStop (h : Z)
| CallAgain (h : Z)
| CallSetRepeat (h rep : Z)
| CallClose (h : Z).

Definition call_handle (c : timer_call) : Z :=
  match c with
  | CallInit h | CallStart h _ _ _ | CallStop h | CallAgain h | CallSetRepeat h _ | CallClose h => h
  end.

Definition run_call (c : timer_call) : prog uv_loop Z :=
  match c with
  | CallInit h => uv_timer_init h
  | CallStart h cb tmo rep => uv_timer_start h cb tmo rep
  | CallStop h => uv_timer_stop h
  | CallAgain h => uv_timer_again h
  | CallSetRepeat h rep => uv_timer_set_repeat h rep;; mret 0
  | CallClose h => uv__timer_close h;; mret 0
  end.

(** The handle is a timer of the loop and the arguments are 64-bit; an active
    timer is not initialised again. *)
Definition call_ok (L : uv_loop) (c : timer_call) : Prop :=
  exists t, timers L !! call_handle c = Some t /\
  match c with
  | CallInit _ => uv__is_active (flags t) = false
  | CallStart _ _ tmo rep => 0 <= tmo < 2 ^ 64 /\ 0 <= rep < 2 ^ 64
  | CallSetRepeat _ rep => 0 <= rep < 2 ^ 64
  | _ => True
  end.

Definition with_time (L : uv_loop) (now : Z) : uv_loop :=
  UvLoop (active_handles L) (handle_queue L) (timer_heap L) (timer_counter L) now (timers L).

Inductive loop_step : uv_loop -> uv_loop -> Prop :=
| StepCall L c r L' : call_ok L c -> run_call c L = Done (r, L') -> loop_step L L'
| StepClock L now : time L <= now < 2 ^ 64 -> loop_step L (with_time L now).

Lemma again_null L h t : timers L !! h = Some t -> timer_cb t = 0 -> uv_timer_again h L = Done (UV_EINVAL, L).
Proof. intros Ht E. unfold uv_timer_again. eapply prog_step; [by apply get_timer_run|]. by rewrite E. Qed.

(** No call fails, and each keeps the invariant. *)
Lemma call_spec others L c :
  timers_ok others L -> call_ok L c -> exists r L', run_call c L = Done (r, L') /\ timers_ok others L'.
Proof.
  intros Hok (t & Ht & Hc). destruct c as [h|h cb tmo rep|h|h|h rep|h]; cbn [call_handle run_call] in *.
  - destruct (init_spec others L h t Hok Ht Hc) as (L' & ? & E & Hok' & _). by eexists _, L'.
  - destruct Hc as [Htmo Hrep]. destruct (decide (uv__is_closing (flags t) = true \/ cb = 0)) as [Hr|Hr].
    + exists UV_EINVAL, L. split; [by apply (start_refused L h t)|done].
    + destruct (start_spec others L h t cb tmo rep Hok Ht) as (L' & ? & E & Hok' & _); try done.
      * destruct (uv__is_closing (flags t)); [|done]. exfalso. auto.
      * intros ->. auto.
      * by eexists _, L'.
  - destruct (stop_spec others L h t Hok Ht) as (L' & ? & E & Hok' & _). by eexists _, L'.
  - destruct (Z.eq_dec (timer_cb t) 0) as [E0|Hne]; [exists UV_EINVAL, L; split; [by apply (again_null L h t)|done]|].
    destruct (again_spec others L h t Hok Ht Hne) as (L' & E & Hok' & _). by eexists _, L'.
  - destruct (set_repeat_spec others L h t rep Hok Ht Hc) as (L' & E & Hok' & _). exists 0, L'. split; [|done].
    by eapply prog_step.
  - destruct (stop_spec others L h t Hok Ht) as (L' & ? & E & Hok' & _). exists 0, L'. split; [|done].
    eapply prog_step; [|done]. unfold uv__timer_close. by eapply prog_step.
Qed.

Lemma with_time_ok others L now : timers_ok others L -> 0 <= now < 2 ^ 64 -> timers_ok others (with_time L now).
Proof. intros [] Hnow. by split. Qed.

Lemma step_ok others L L' : timers_ok others L -> loop_step L L' -> timers_ok others L'.
Proof.
  intros Hok Hs. destruct Hs as [L c r L' Hc E|L now Hnow].
  - destruct (call_spec others L c Hok Hc) as (r' & L'' & E' & Hok'). rewrite E in E'. injection E' as <- <-. done.
  - apply with_time_ok; [done|]. pose proof (ok_time _ _ Hok). lia.
Qed.

Lemma steps_ok others L L' : timers_ok others L -> rtc loop_step L L' -> timers_ok others L'.
Proof. intros Hok Hs. induction Hs as [|L L1 L2 H1 _ IH]; [done|]. by apply IH, (step_ok others L). Qed.
