(* ===== verification/UvTimerTheorems.v ===== *)
(** * UvTimerTheorems: what the heap and the timers guarantee, with instances. *)

From Stdlib Require Import ZifyBool.
From stdpp Require Import base tactics numbers list sorting gmap strings.
From S2P Require Import Prelude UvCommon UvHeap UvHeapShape UvHeapOps UvTimer UvTimerSpec.
Open Scope Z_scope.

(** ** The heap *)

(** C27: insertion.  Into a heap holding the nodes of [M] (a complete binary
    tree linked by pointers, in order), [heap_insert] puts a new node: it
    terminates, never follows a dangling or null link, and leaves a heap
    holding [M] and the node, in the same memory. *)
Theorem heap_insert_correct less_than P lt `{!HeapOrder less_than P lt} h M a :
  is_heap P lt h M -> a ∉ M -> a <> 0 -> P a -> is_Some (nodes h !! a) -> nelts h + 1 < 2 ^ 32 ->
  exists h', heap_insert less_than a h = Done (tt, h') /\ is_heap P lt h' ({[a]} ∪ M) /\
    nelts h' = nelts h + 1 /\ dom (nodes h') = dom (nodes h).
Proof.
  intros Hh Hni Hz HP Hin Hn. destruct (heap_insert_set less_than P lt h M a Hh Hni Hz HP Hin Hn) as (h' & E & Hh' & Hd).
  exists h'. split_and!; [done..| |done]. rewrite <- (is_heap_size _ _ _ _ Hh), <- (is_heap_size _ _ _ _ Hh').
  rewrite size_union, size_singleton by set_solver. lia.
Qed.

(** C17: removal.  From a heap holding the nodes of [M], [heap_remove] takes any
    one of them, not only the least: it terminates, stays within the nodes,
    and leaves a heap holding exactly the others. *)
Theorem heap_remove_correct less_than P lt `{!HeapOrder less_than P lt} h M a :
  is_heap P lt h M -> a ∈ M ->
  exists h', heap_remove less_than a h = Done (tt, h') /\ is_heap P lt h' (M ∖ {[a]}) /\
    nelts h' = nelts h - 1 /\ dom (nodes h') = dom (nodes h).
Proof.
  intros Hh Hin. destruct (heap_remove_set less_than P lt h M a Hh Hin) as (h' & E & Hh' & Hd).
  exists h'. split_and!; [done..| |done]. rewrite <- (is_heap_size _ _ _ _ Hh), <- (is_heap_size _ _ _ _ Hh').
  rewrite size_difference, size_singleton by set_solver.
  assert (size M <> 0)%nat by (apply size_non_empty_iff; set_solver). lia.
Qed.

(** The minimum.  In a heap, the node that [heap_min] returns is a least
    member; it is NULL exactly when the heap is empty. *)
Theorem heap_min_correct less_than P lt `{!HeapOrder less_than P lt} h M :
  is_heap P lt h M ->
  (heap_min h = 0 <-> M = ∅) /\ (M <> ∅ -> heap_min h ∈ M /\ forall a, a ∈ M -> lt a (heap_min h) = false).
Proof.
  intros Hh. destruct (heap_min_least less_than P lt h M Hh) as [[-> E]|(Hin & Hz & Hl)]; [done|]. split; [|done].
  split; [done|]. set_solver.
Qed.

(** ** Timers *)

(** C23: the timer functions are safe in any order.  Whatever sequence of calls
    of the timer functions and ticks of the clock a program makes on a sound
    loop, the timer heap holds exactly the active timers, in order, the
    loop's count of active handles is right, and every further call finishes
    without undefined behaviour. *)
Theorem timer_calls_safe others L0 L :
  timers_ok others L0 -> rtc loop_step L0 L ->
  timers_ok others L /\ forall c, call_ok L c -> exists r L', run_call c L = Done (r, L') /\ timers_ok others L'.
Proof. intros Hok Hs. pose proof (steps_ok others L0 L Hok Hs) as HL. split; [done|]. intros c. by apply call_spec. Qed.

(** Starting a timer.  [uv_timer_start] on a timer that is not closing,
    with a callback, returns 0 and makes it active with the given callback
    and period, due at the loop's time plus the timeout, saturated at the
    largest 64-bit value instead of wrapping; the timer takes the next start
    number and no other timer changes, also when it was already active. *)
Theorem timer_start_exact others L h t cb tmo rep :
  timers_ok others L -> timers L !! h = Some t -> uv__is_closing (flags t) = false -> cb <> 0 ->
  0 <= tmo < 2 ^ 64 -> 0 <= rep < 2 ^ 64 ->
  exists L' t', uv_timer_start h cb tmo rep L = Done (0, L') /\ timers L' = <[h := t']> (timers L) /\
    uv__is_active (flags t') = true /\ timer_cb t' = cb /\ repeat t' = rep /\
    timeout t' = Z.min (time L + tmo) (2 ^ 64 - 1) /\ start_id t' = timer_counter L /\
    timer_counter L' = u64 (timer_counter L + 1) /\ timers_ok others L'.
Proof.
  intros Hok Ht Hcl Hcb Htmo Hrep.
  destruct (start_spec others L h t cb tmo rep Hok Ht Hcl Hcb Htmo Hrep) as (L' & fl & E & Hok' & Hts & Ha & _ & _ & _ & Hid & _).
  eexists L', _. split_and!; [exact E|exact Hts|done..].
Qed.

(** The poll timeout.  [uv__next_timeout] returns -1 when no timer is
    active; otherwise the time until the earliest active timer is due, 0 when
    it already is, capped at the largest [int]. *)
Theorem next_timeout_exact others L :
  timers_ok others L -> 
  (uv__next_timeout L = Done (-1) /\ forall h t, timers L !! h = Some t -> uv__is_active (flags t) = false) \/
  exists h t, timers L !! h = Some t /\ uv__is_active (flags t) = true /\
    (forall h' t', timers L !! h' = Some t' -> uv__is_active (flags t') = true -> timeout t <= timeout t') /\
    uv__next_timeout L = Done (Z.min INT_MAX (Z.max 0 (timeout t - time L))).
Proof.
  intros Hok. pose proof (ok_time _ _ Hok) as Htime. unfold uv__next_timeout.
  destruct (first_timer others L Hok) as [[E Hnone]|(h & t & E & Hnz & Ht & Ha & Hfirst)].
  - left. by rewrite E.
  - right. exists h, t. split_and!; [done..| |].
    + intros h' t' Ht' Ha'. specialize (Hfirst h' t' Ht' Ha'). unfold key_less in Hfirst. cbn in Hfirst. lia.
    + rewrite E, (proj2 (Z.eqb_neq _ _) Hnz), container_of_node, Ht. cbn [demand mbind outcome_bind].
      destruct (ok_timer _ _ Hok h t Ht) as (Hto & _). unfold INT_MAX. destruct (Z.leb_spec (timeout t) (time L)); [f_equal; lia|].
      rewrite u64_small by lia. destruct (Z.ltb_spec (2 ^ 31 - 1) (timeout t - time L)); f_equal; lia.
Qed.

(** C29: due timers fire once each, in order, while their callbacks work on the
    loop.  The callbacks are any that keep the loop sound, let the clock stand
    and make no further timer due; they may stop and close timers and start or
    rearm timers for later ([none_made_due]).  The clock is below its largest
    value, so that a repeating timer can be set for later.  Then [uv__run_timers] terminates
    within one round per timer due at the start.  Each round takes the first
    timer due at that moment, stops it, rearms it if it repeats, and calls its
    callback ([fires]).  No timer is called twice, only timers due at the start
    are called, and by timeout and then by start number; a timer due at the
    start is not called only if one of the callbacks before took it off; at the
    end none is due and the loop is sound. *)
Theorem run_timers_fires_due `{TimerCallbacks} others fuel L :
  (forall cb h L1, timers_ok others L1 -> time L1 = time L ->
     exists L2, call_timer cb h L1 = Done (tt, L2) /\ timers_ok others L2 /\ none_made_due L1 L2) ->
  timers_ok others L -> time L < 2 ^ 64 - 1 -> (size (due_set L) < fuel)%nat ->
  exists cs L', uv__run_timers fuel L = Done (map fc_handle cs, L') /\ fires_all L cs L' /\
    NoDup (map fc_handle cs) /\ (forall h, h ∈ map fc_handle cs -> h ∈ due_set L) /\
    StronglySorted (fires_before (timers L)) (map fc_handle cs) /\
    (forall h, h ∈ due_set L -> h ∉ map fc_handle cs ->
       exists c, c ∈ cs /\ h ∈ due_set (fc_before c) /\ h ∉ due_set (fc_after c)) /\
    due_set L' = ∅ /\ timers_ok others L'.
Proof.
  intros Hp Hok Ht Hf.
  destruct (run_timers_spec others fuel (time L) L Hp Hok eq_refl Ht Hf) as (cs & L' & E & Hall & Hok' & Hnd & Hm & Hs & He & Hr).
  exists cs, L'. done.
Qed.

(** Callbacks may do anything the timer functions allow.  If every callback
    keeps the loop sound (it may start, stop and rearm timers, itself
    included), [uv__run_timers] never reaches undefined behaviour, and if it
    ends, no timer is due. *)
Theorem run_timers_safe `{TimerCallbacks} others fuel L :
  (forall cb h L, timers_ok others L -> exists L', call_timer cb h L = Done (tt, L') /\ timers_ok others L') ->
  timers_ok others L ->
  uv__run_timers fuel L <> Undef /\
  (forall fired L', uv__run_timers fuel L = Done (fired, L') -> timers_ok others L' /\ due_set L' = ∅).
Proof.
  intros Hc Hok. destruct (run_timers_safe_spec others fuel L Hc Hok) as [->|(fired & L' & -> & Hok' & He)].
  - split; [done|]. intros fired L' [=].
  - split; [done|]. by intros f' L'' [= <- <-].
Qed.

(** ** Instances *)

(** Nodes ordered by their address. *)
Definition by_address (a b : Z) : outcome bool := Done (a <? b).
#[export] Instance by_address_order : HeapOrder by_address (fun _ => True) Z.ltb.
Proof. split; [done|intros; lia|intros; lia]. Qed.

Definition blank : heap_node := HeapNode 0 0 0.
Definition Sample_nodes : gmap Z heap_node := {[ 30 := blank; 10 := blank; 20 := blank ]}.

Lemma heap_insert_correct_witness :
  exists h', heap_insert by_address 20 (heap_init Sample_nodes) = Done (tt, h') /\ heap_min h' = 20 /\
    is_heap (fun _ => True) Z.ltb h' ({[20]} ∪ ∅).
Proof.
  destruct (heap_insert_correct by_address (fun _ => True) Z.ltb (heap_init Sample_nodes) ∅ 20) as (h' & E & Hh & _).
  - apply heap_init_heap. reflexivity.
  - set_solver.
  - done.
  - done.
  - vm_compute. by eexists.
  - vm_compute. done.
  - exists h'. split_and!; [done| |done]. vm_compute in E. by injection E as <-.
Defined.

(** The heap of the nodes 10 and 20. *)
Definition Sample_heap : heap := Heap 10 2 {[ 10 := HeapNode 20 0 0; 20 := HeapNode 0 0 10; 30 := blank ]}.

Lemma Sample_heap_ok : is_heap (fun _ => True) Z.ltb Sample_heap {[10; 20]}.
Proof.
  exists (fun p => match p with xH => 10 | xO xH => 20 | _ => 0 end). split_and!; [|..].
  - split; try done.
    + intros p. destruct p as [p|[]|]; cbn; lia.
    + intros [p|[]|] [q|[]|]; cbn; done.
    + intros [p|[]|]; cbn; done.
  - intros [] [p|p|]; unfold edge_ok; cbn; intros Hne; done || lia.
  - done.
  - intros a. unfold member. set_unfold. split.
    + intros [->| ->]; (split; [lia|]); [by exists 1%positive|by exists 2%positive].
    + intros [Hne [[p|[]|] E]]; cbn in E; lia.
Qed.

Lemma heap_remove_correct_witness :
  exists h', heap_remove by_address 10 Sample_heap = Done (tt, h') /\ heap_min h' = 20 /\ nelts h' = 1.
Proof.
  destruct (heap_remove_correct by_address (fun _ => True) Z.ltb Sample_heap {[10; 20]} 10) as (h' & E & _ & Hn & _).
  - apply Sample_heap_ok.
  - set_solver.
  - exists h'. split_and!; [done| |done]. vm_compute in E. by injection E as <-.
Defined.

Lemma heap_min_correct_witness : heap_min Sample_heap = 10 /\ forall a, a ∈ ({[10; 20]} : gset Z) -> (a <? 10) = false.
Proof.
  destruct (heap_min_correct by_address (fun _ => True) Z.ltb Sample_heap {[10; 20]} Sample_heap_ok) as [_ Hmin].
  destruct Hmin as [_ Hmin]; [set_solver|]. split; [done|exact Hmin].
Defined.

(** A loop with three timers at time 100: none started. *)
Definition fresh_timer : uv_timer := UvTimer UV_TIMER UV_HANDLE_REF 0 0 0 0 0.
Definition Sample_timers : gmap Z uv_timer := {[ 1000 := fresh_timer; 2000 := fresh_timer; 3000 := fresh_timer ]}.
Definition Empty_loop : uv_loop :=
  UvLoop 0 [] (heap_init {[ 1104 := blank; 2104 := blank; 3104 := blank ]}) 0 100 Sample_timers.

Lemma Empty_loop_ok : timers_ok 0 Empty_loop.
Proof.
  assert (Hcases : forall h t, Sample_timers !! h = Some t -> (h = 1000 \/ h = 2000 \/ h = 3000) /\ t = fresh_timer).
  { intros h t. unfold Sample_timers. rewrite !lookup_insert_Some, lookup_singleton_Some. naive_solver. }
  split; cbn [timers timer_heap time Empty_loop].
  - exists ∅. split; [apply heap_init_heap; reflexivity|].
    intros h. split; [set_solver|]. intros (t & Ht & Ha). apply Hcases in Ht as [_ ->]. done.
  - intros h [t Ht]. apply Hcases in Ht as [[->|[->| ->]] _]; by eexists.
  - by vm_compute.
  - lia.
  - intros h t Ht. apply Hcases in Ht as [_ ->]. done.
  - by vm_compute.
Qed.

(** Timer 1000 due at 105, 2000 repeating and due at 102, 3000 due at 160. *)
Definition Sample_calls : list timer_call := [CallStart 1000 7 5 0; CallStart 2000 8 2 10; CallStart 3000 9 60 0].
Definition after_calls (L : uv_loop) (cs : list timer_call) : uv_loop :=
  foldl (fun L c => match run_call c L with Done (_, L') => L' | _ => L end) L cs.
Definition Running_loop : uv_loop := with_time (after_calls Empty_loop Sample_calls) 110.

Lemma Running_steps : rtc loop_step Empty_loop Running_loop.
Proof.
  eapply rtc_l; [eapply (StepCall Empty_loop (CallStart 1000 7 5 0)); [eexists; split; [vm_compute; reflexivity|vm_compute; done]|vm_compute; reflexivity]|].
  eapply rtc_l; [eapply (StepCall _ (CallStart 2000 8 2 10)); [eexists; split; [vm_compute; reflexivity|vm_compute; done]|vm_compute; reflexivity]|].
  eapply rtc_l; [eapply (StepCall _ (CallStart 3000 9 60 0)); [eexists; split; [vm_compute; reflexivity|vm_compute; done]|vm_compute; reflexivity]|].
  eapply rtc_l; [apply (StepClock _ 110); vm_compute; done|]. vm_compute. apply rtc_refl.
Qed.

Lemma Running_ok : timers_ok 0 Running_loop.
Proof. apply (steps_ok 0 Empty_loop); [apply Empty_loop_ok|apply Running_steps]. Qed.

Lemma timer_calls_safe_witness :
  timers_ok 0 Running_loop /\ exists r L', run_call (CallAgain 2000) Running_loop = Done (r, L') /\ timers_ok 0 L'.
Proof.
  destruct (timer_calls_safe 0 Empty_loop Running_loop Empty_loop_ok Running_steps) as [Hok Hcall]. split; [exact Hok|].
  apply Hcall. eexists. split; [vm_compute; reflexivity|exact I].
Defined.

(** A timeout that would wrap is saturated. *)
Lemma timer_start_exact_witness :
  exists L' t', uv_timer_start 3000 9 (2 ^ 64 - 50) 0 Running_loop = Done (0, L') /\ timers L' !! 3000 = Some t' /\
    timeout t' = 2 ^ 64 - 1 /\ start_id t' = 3.
Proof.
  destruct (timers Running_loop !! 3000) as [t|] eqn:Ht; [|vm_compute in Ht; discriminate Ht].
  destruct (timer_start_exact 0 Running_loop 3000 t 9 (2 ^ 64 - 50) 0 Running_ok Ht) as (L' & t' & E & Hts & _ & _ & _ & Hto & Hid & _).
  - vm_compute in Ht. injection Ht as <-. reflexivity.
  - lia.
  - lia.
  - lia.
  - exists L', t'. split_and!; [exact E|rewrite Hts; apply lookup_insert_eq| |exact Hid]. rewrite Hto. vm_compute. reflexivity.
Defined.

Lemma next_timeout_exact_witness :
  uv__next_timeout Empty_loop = Done (-1) /\ uv__next_timeout Running_loop = Done 0 /\
  ((uv__next_timeout Running_loop = Done (-1) /\ forall h t, timers Running_loop !! h = Some t -> uv__is_active (flags t) = false) \/
   exists h t, timers Running_loop !! h = Some t /\ uv__is_active (flags t) = true /\
    (forall h' t', timers Running_loop !! h' = Some t' -> uv__is_active (flags t') = true -> timeout t <= timeout t') /\
    uv__next_timeout Running_loop = Done (Z.min INT_MAX (Z.max 0 (timeout t - time Running_loop)))).
Proof. split; [vm_compute; reflexivity|]. split; [vm_compute; reflexivity|]. exact (next_timeout_exact 0 Running_loop Running_ok). Defined.

(** A callback that starts its own timer again. *)
Definition restarting : TimerCallbacks := fun cb h L =>
  match timers L !! h with
  | Some t => if uv__is_closing (flags t) || (cb =? 0) then Done (tt, L) else (uv_timer_start h cb 1000 0;; mret tt) L
  | None => Done (tt, L)
  end.

(** One that stops the timer at 1000, whichever timer fires. *)
Definition stopping : TimerCallbacks := fun cb h L =>
  match timers L !! 1000 with
  | Some t => (uv_timer_stop 1000;; mret tt) L
  | None => Done (tt, L)
  end.

Lemma none_made_due_refl L : none_made_due L L.
Proof. split; [done|]. eauto. Qed.

(** Replacing a timer by one that is inactive or set for later. *)
Lemma none_made_due_insert L L' h t' :
  time L' = time L -> timers L' = <[h := t']> (timers L) -> (uv__is_active (flags t') = true -> time L < timeout t') -> none_made_due L L'.
Proof.
  intros Htm Hts Hlate. split; [done|]. intros x u (Hu & Ha & Hd). rewrite Hts in Hu. destruct (decide (x = h)) as [->|Hne].
  - rewrite lookup_insert_eq in Hu. injection Hu as <-. specialize (Hlate Ha). lia.
  - rewrite lookup_insert_ne in Hu by done. exists u. split; [|done]. split_and!; [done..|lia].
Qed.

Lemma restarting_calm cb h L : timers_ok 0 L -> time L = time Running_loop ->
  exists L', restarting cb h L = Done (tt, L') /\ timers_ok 0 L' /\ none_made_due L L'.
Proof.
  intros Hok Htm. unfold restarting. destruct (timers L !! h) as [t|] eqn:Ht; [|exists L; split_and!; [done..|apply none_made_due_refl]].
  destruct (uv__is_closing (flags t)) eqn:Ecl; [exists L; split_and!; [done..|apply none_made_due_refl]|].
  destruct (Z.eqb_spec cb 0) as [E|Hne]; [exists L; split_and!; [done..|apply none_made_due_refl]|]. cbn [orb].
  destruct (start_spec 0 L h t cb 1000 0 Hok Ht Ecl Hne) as (L' & fl & E & Hok' & Hts & _ & _ & _ & Htm' & _); [lia|lia|].
  exists L'. split; [eapply prog_step; [exact E|reflexivity]|]. split; [exact Hok'|].
  eapply none_made_due_insert; [exact Htm'|exact Hts|]. intros _. cbn [timeout]. rewrite Htm. vm_compute. done.
Qed.

Lemma stopping_calm cb h L : timers_ok 0 L -> exists L', stopping cb h L = Done (tt, L') /\ timers_ok 0 L' /\ none_made_due L L'.
Proof.
  intros Hok. unfold stopping. destruct (timers L !! 1000) as [t|] eqn:Ht; [|exists L; split_and!; [done..|apply none_made_due_refl]].
  destruct (stop_spec 0 L 1000 t Hok Ht) as (L' & fl & E & Hok' & Hts & Ha & _ & _ & Htm' & _).
  exists L'. split; [eapply prog_step; [exact E|reflexivity]|]. split; [exact Hok'|].
  eapply none_made_due_insert; [exact Htm'|exact Hts|]. cbn [flags with_flags]. congruence.
Qed.

(** Both due timers fire; with callbacks that stop the second, the first. *)
Lemma run_timers_fires_due_witness :
  (exists L', @uv__run_timers restarting 3 Running_loop = Done ([2000; 1000], L') /\ due_set L' = ∅ /\ timers_ok 0 L') /\
  (exists L', @uv__run_timers stopping 3 Running_loop = Done ([2000], L') /\ due_set L' = ∅ /\ timers_ok 0 L').
Proof.
  split.
  - destruct (@run_timers_fires_due restarting 0 3 Running_loop) as (cs & L' & E & _ & _ & _ & _ & _ & He & Hok).
    + intros cb h L Hok Htm. exact (restarting_calm cb h L Hok Htm).
    + exact Running_ok.
    + vm_compute. reflexivity.
    + vm_compute. lia.
    + exists L'. split; [|split; [exact He|exact Hok]]. rewrite E. generalize dependent (map fc_handle cs). clear. intros fired E.
      vm_compute in E. injection E as <- _. reflexivity.
  - destruct (@run_timers_fires_due stopping 0 3 Running_loop) as (cs & L' & E & _ & _ & _ & _ & _ & He & Hok).
    + intros cb h L Hok _. exact (stopping_calm cb h L Hok).
    + exact Running_ok.
    + vm_compute. reflexivity.
    + vm_compute. lia.
    + exists L'. split; [|split; [exact He|exact Hok]]. rewrite E. generalize dependent (map fc_handle cs). clear. intros fired E.
      vm_compute in E. injection E as <- _. reflexivity.
Defined.

Lemma run_timers_safe_witness :
  @uv__run_timers restarting 3 Running_loop <> Undef /\
  (forall fired L', @uv__run_timers restarting 3 Running_loop = Done (fired, L') -> timers_ok 0 L' /\ due_set L' = ∅).
Proof.
  apply (@run_timers_safe restarting 0 3 Running_loop); [|exact Running_ok].
  intros cb h L Hok. unfold call_timer, restarting. destruct (timers L !! h) as [t|] eqn:Ht; [|by exists L].
  destruct (uv__is_closing (flags t)) eqn:Ecl; [by exists L|]. destruct (Z.eqb_spec cb 0) as [E|Hne]; [by exists L|]. cbn [orb].
  destruct (start_spec 0 L h t cb 1000 0 Hok Ht Ecl Hne) as (L' & fl & E & Hok' & _); [lia|lia|].
  exists L'. split; [|exact Hok']. eapply prog_step; [exact E|reflexivity].
Defined.
