(* ===== verification/UvInet.v ===== *)
(** * UvInet: IP addresses and their text (Libuv-gRPC/src/inet.c, strscpy.c).

    Arrays are lists of bytes; reading or writing outside one is undefined
    behaviour, and no two arrays overlap.  A pointer into an array is the
    array with an index, and a [const char*] that is only read forwards is
    the rest of the array, its terminating zero included. *)

From Stdlib Require Import ZifyBool.
From stdpp Require Import base tactics numbers list gmap strings.
From S2P Require Import Prelude UvCommon.
Open Scope Z_scope.

(** ** Arrays of bytes and the C library *)

Definition buf_get (buf : list Z) (i : Z) : outcome Z :=
  if 0 <=? i then demand (buf !! Z.to_nat i) else Undef.

Definition buf_set (buf : list Z) (i v : Z) : outcome (list Z) :=
  if (0 <=? i) && (i <? zlen buf) then Done (<[Z.to_nat i := v]> buf) else Undef.

(** Write consecutive bytes from index [i]. *)
Fixpoint buf_put (buf : list Z) (i : Z) (data : list Z) : outcome (list Z) :=
  match data with
  | [] => Done buf
  | b :: data => buf ← buf_set buf i b; buf_put buf (i + 1) data
  end.

(** [memcpy(dst + i, src, n)] of a whole array. *)
Definition c_memcpy : list Z -> Z -> list Z -> outcome (list Z) := buf_put.

(** [strchr(s, c)]: the index of [c] in the text [s], without its terminator. *)
Fixpoint c_strchr (s : list Z) (c : Z) : option Z :=
  match s with
  | [] => None
  | x :: s => if x =? c then Some 0 else Z.succ <$> c_strchr s c
  end.

(** [strlen] from index [i]. *)
Fixpoint c_strlen_from (s : list Z) : outcome Z :=
  match s with
  | [] => Undef
  | x :: s => if x =? 0 then Done 0 else Z.succ <$> c_strlen_from s
  end.
Definition c_strlen (buf : list Z) (i : Z) : outcome Z :=
  if 0 <=? i then c_strlen_from (drop (Z.to_nat i) buf) else Undef.

(** The digits [printf] writes for an unsigned number in base 10 and 16. *)
Definition digit_char (d : Z) : Z := if d <? 10 then 48 + d else 97 + (d - 10).

Fixpoint digits (fuel : nat) (base n : Z) : list Z :=
  match fuel with
  | O => []
  | S fuel => if n <? base then [digit_char n] else digits fuel base (n / base) ++ [digit_char (n mod base)]
  end.
(** Numbers below 2^32 have at most ten digits. *)
Definition decimal (n : Z) : list Z := digits 10 10 n.
Definition hexadecimal (n : Z) : list Z := digits 8 16 n.

(** [sprintf(buf + i, ..)] of a text: the text and a zero; the length. *)
Definition c_sprintf (buf : list Z) (i : Z) (text : list Z) : outcome (Z * list Z) :=
  buf ← buf_put buf i (text ++ [0]); Done (zlen text, buf).
(** [snprintf(buf, size, ..)]: the text is cut to fit. *)
Definition c_snprintf (buf : list Z) (size : Z) (text : list Z) : outcome (Z * list Z) :=
  buf ← (if 0 <? size then buf_put buf 0 (take (Z.to_nat (size - 1)) text ++ [0]) else Done buf);
  Done (zlen text, buf).

(** ** strscpy.c *)

Definition SSIZE_MAX : Z := 2 ^ 63 - 1.

(** [for (i = 0; i < n; i++)] with [k = n - i] rounds to go. *)
Fixpoint strscpy_loop (k : nat) (d : list Z) (off : Z) (s : list Z) (i : Z) : outcome (Z * list Z) :=
  match k with
  | O =>
    if i =? 0 then Done (0, d) else
    d ← buf_set d (off + (i - 1)) 0;
    Done (UV_E2BIG, d)
  | S k =>
    c ← buf_get s i;
    d ← buf_set d (off + i) c;
    if c =? 0 then Done (if SSIZE_MAX <? i then UV_E2BIG else i, d)
    else strscpy_loop k d off s (i + 1)
  end.

(** [uv__strscpy(d + off, s, n)] *)
Definition uv__strscpy (d : list Z) (off : Z) (s : list Z) (n : Z) : outcome (Z * list Z) :=
  strscpy_loop (Z.to_nat n) d off s 0.

(** ** inet.c: addresses to text *)

Definition UV__INET_ADDRSTRLEN : Z := 16.
Definition UV__INET6_ADDRSTRLEN : Z := 46.
Definition AF_INET : Z := 2.
Definition AF_INET6 : Z := 30.

(** An uninitialised local array. *)
Definition local_array (n : Z) (junk : Z) : list Z := replicate (Z.to_nat n) junk.

Section Text.
(** What an uninitialised byte holds. *)
Variable junk : Z.

(** [inet_ntop4(src + soff, dst + doff, size)] *)
Definition inet_ntop4 (src : list Z) (soff : Z) (dst : list Z) (doff size : Z) : outcome (Z * list Z) :=
  a ← buf_get src soff; b ← buf_get src (soff + 1); c ← buf_get src (soff + 2); d ← buf_get src (soff + 3);
  '(l, tmp) ← c_snprintf (local_array UV__INET_ADDRSTRLEN junk) UV__INET_ADDRSTRLEN
                (decimal a ++ [46] ++ decimal b ++ [46] ++ decimal c ++ [46] ++ decimal d);
  if (l <=? 0) || (size <=? l) then Done (UV_ENOSPC, dst) else
  '(_, dst) ← uv__strscpy dst doff tmp size;
  Done (0, dst).

(** [words[i / 2] |= src[i] << ((1 - (i % 2)) << 3)] for the two bytes of each
    word. *)
Fixpoint load_words (n : nat) (src : list Z) (i : Z) : outcome (list Z) :=
  match n with
  | O => Done []
  | S n =>
    hi ← buf_get src i;
    lo ← buf_get src (i + 1);
    rest ← load_words n src (i + 2);
    Done (Z.lor (Z.lor 0 (Z.shiftl hi 8)) (Z.shiftl lo 0) :: rest)
  end.

(** [struct { int base, len; }] *)
Record run : Type := Run { base : Z; len : Z }.

(** The loop that finds the longest run of zero words: [best] and [cur]. *)
Fixpoint find_run (words : list Z) (i : Z) (best cur : run) : run * run :=
  match words with
  | [] => (best, cur)
  | w :: words =>
    if w =? 0 then
      find_run words (i + 1) best (if base cur =? -1 then Run i 1 else Run (base cur) (len cur + 1))
    else if negb (base cur =? -1) then
      let best := if (base best =? -1) || (len best <? len cur) then cur else best in
      find_run words (i + 1) best (Run (-1) (len cur))
    else find_run words (i + 1) best cur
  end.

Definition best_run (words : list Z) : run :=
  let '(best, cur) := find_run words 0 (Run (-1) 0) (Run (-1) 0) in
  let best := if negb (base cur =? -1) && ((base best =? -1) || (len best <? len cur)) then cur else best in
  if negb (base best =? -1) && (len best <? 2) then Run (-1) (len best) else best.

(** Whether word [i] starts an embedded IPv4 address. *)
Definition encapsulated (words : list Z) (best : run) (i : Z) : outcome bool :=
  w7 ← buf_get words 7;
  w5 ← buf_get words 5;
  Done ((i =? 6) && (base best =? 0) &&
        ((len best =? 6) || ((len best =? 7) && negb (w7 =? 0x0001)) || ((len best =? 5) && (w5 =? 0xffff)))).

(** The formatting loop, with [n] words to go; [tp] is an index into [tmp].
    The result is an error of [inet_ntop4], if any. *)
Fixpoint format_words (n : nat) (src words : list Z) (best : run) (i : Z) (tmp : list Z) (tp : Z)
    : outcome (Z * list Z * Z) :=
  match n with
  | O => Done (0, tmp, tp)
  | S n =>
    if negb (base best =? -1) && (base best <=? i) && (i <? base best + len best) then
      '(tmp, tp) ← (if i =? base best then tmp ← buf_set tmp tp 58; Done (tmp, tp + 1) else Done (tmp, tp));
      format_words n src words best (i + 1) tmp tp
    else
      '(tmp, tp) ← (if negb (i =? 0) then tmp ← buf_set tmp tp 58; Done (tmp, tp + 1) else Done (tmp, tp));
      v4 ← encapsulated words best i;
      if v4 : bool then
        '(err, tmp) ← inet_ntop4 src 12 tmp tp (UV__INET6_ADDRSTRLEN - tp);
        if negb (err =? 0) then Done (err, tmp, tp) else
        l ← c_strlen tmp tp;
        Done (0, tmp, tp + l)
      else
        w ← buf_get words i;
        '(l, tmp) ← c_sprintf tmp tp (hexadecimal w);
        format_words n src words best (i + 1) tmp (tp + l)
  end.

Definition inet_ntop6 (src dst : list Z) (size : Z) : outcome (Z * list Z) :=
  words ← load_words 8 src 0;
  let best := best_run words in
  '(err, tmp, tp) ← format_words 8 src words best 0 (local_array UV__INET6_ADDRSTRLEN junk) 0;
  if negb (err =? 0) then Done (err, dst) else
  '(tmp, tp) ← (if negb (base best =? -1) && (base best + len best =? 8)
                then tmp ← buf_set tmp tp 58; Done (tmp, tp + 1) else Done (tmp, tp));
  tmp ← buf_set tmp tp 0;
  '(r, dst) ← uv__strscpy dst 0 tmp size;
  Done (if r =? UV_E2BIG then UV_ENOSPC else 0, dst).

Definition uv_inet_ntop (af : Z) (src dst : list Z) (size : Z) : outcome (Z * list Z) :=
  if af =? AF_INET then inet_ntop4 src 0 dst 0 size
  else if af =? AF_INET6 then inet_ntop6 src dst size
  else Done (UV_EAFNOSUPPORT, dst).

(** ** inet.c: text to addresses *)

(** "0123456789" and the hexadecimal digits *)
Definition digits_text : list Z := map (fun i => 48 + Z.of_nat i) (seq 0 10).
Definition xdigits_l : list Z := digits_text ++ map (fun i => 97 + Z.of_nat i) (seq 0 6).
Definition xdigits_u : list Z := digits_text ++ map (fun i => 65 + Z.of_nat i) (seq 0 6).

(** The loop of [inet_pton4]; [None] is [return UV_EINVAL]. *)
Fixpoint pton4_loop (src : list Z) (tmp : list Z) (tp : Z) (saw_digit : bool) (octets : Z) : outcome (option (list Z * Z)) :=
  match src with
  | [] => Undef
  | ch :: src =>
    if ch =? 0 then Done (Some (tmp, octets)) else
    match c_strchr digits_text ch with
    | Some pch =>
      cur ← buf_get tmp tp;
      let nw := u32 (cur * 10 + pch) in
      if saw_digit && (cur =? 0) then Done None else
      if 255 <? nw then Done None else
      tmp ← buf_set tmp tp nw;
      if negb saw_digit then
        if 4 <? octets + 1 then Done None else pton4_loop src tmp tp true (octets + 1)
      else pton4_loop src tmp tp saw_digit octets
    | None =>
      if (ch =? 46) && saw_digit then
        if octets =? 4 then Done None else
        tmp ← buf_set tmp (tp + 1) 0;
        pton4_loop src tmp (tp + 1) false octets
      else Done None
    end
  end.

(** [inet_pton4(src, dst + off)] *)
Definition inet_pton4 (src : list Z) (dst : list Z) (off : Z) : outcome (Z * list Z) :=
  tmp ← buf_set (local_array 4 junk) 0 0;
  r ← pton4_loop src tmp 0 false 0;
  match r with
  | None => Done (UV_EINVAL, dst)
  | Some (tmp, octets) =>
    if octets <? 4 then Done (UV_EINVAL, dst) else
    dst ← c_memcpy dst off tmp;
    Done (0, dst)
  end.

(** [*tp++ = (val >> 8) & 0xff; *tp++ = val & 0xff;] *)
Definition put_word (tmp : list Z) (tp val : Z) : outcome (list Z) :=
  tmp ← buf_set tmp tp (Z.land (u8 (Z.shiftr val 8)) 0xff);
  buf_set tmp (tp + 1) (Z.land (u8 val) 0xff).

(** The loop of [inet_pton6]: the state at its end. *)
Record pton6_state : Type := Pton6 { p_tmp : list Z; p_tp : Z; p_colonp : option Z; p_seen : Z; p_val : Z }.

Definition endp : Z := 16.

Fixpoint pton6_loop (src curtok : list Z) (x : pton6_state) : outcome (option pton6_state) :=
  match src with
  | [] => Undef
  | ch :: src =>
    if ch =? 0 then Done (Some x) else
    let pch := match c_strchr xdigits_l ch with Some i => Some i | None => c_strchr xdigits_u ch end in
    match pch with
    | Some d =>
      let val := Z.lor (u32 (Z.shiftl (p_val x) 4)) d in
      if 4 <? p_seen x + 1 then Done None else
      pton6_loop src curtok (Pton6 (p_tmp x) (p_tp x) (p_colonp x) (p_seen x + 1) val)
    | None =>
      if ch =? 58 then
        let curtok := src in
        if p_seen x =? 0 then
          match p_colonp x with
          | Some _ => Done None
          | None => pton6_loop src curtok (Pton6 (p_tmp x) (p_tp x) (Some (p_tp x)) (p_seen x) (p_val x))
          end
        else
          next ← demand (head src);
          if next =? 0 then Done None else
          if endp <? p_tp x + 2 then Done None else
          tmp ← put_word (p_tmp x) (p_tp x) (p_val x);
          pton6_loop src curtok (Pton6 tmp (p_tp x + 2) (p_colonp x) 0 0)
      else if (ch =? 46) && (p_tp x + 4 <=? endp) then
        '(err, tmp) ← inet_pton4 curtok (p_tmp x) (p_tp x);
        if err =? 0 then Done (Some (Pton6 tmp (p_tp x + 4) (p_colonp x) 0 (p_val x))) else Done None
      else Done None
    end
  end.

(** [for (i = 1; i <= n; i++) { endp[-i] = colonp[n - i]; colonp[n - i] = 0; }]
    with [k] rounds to go. *)
Fixpoint shift_tail (k : nat) (tmp : list Z) (colonp n i : Z) : outcome (list Z) :=
  match k with
  | O => Done tmp
  | S k =>
    v ← buf_get tmp (colonp + (n - i));
    tmp ← buf_set tmp (endp - i) v;
    tmp ← buf_set tmp (colonp + (n - i)) 0;
    shift_tail k tmp colonp n (i + 1)
  end.

(** From the end of the loop: the last word, the shift of what follows "::",
    and the copy to [dst]. *)
Definition pton6_finish (x : pton6_state) (dst : list Z) : outcome (Z * list Z) :=
  if negb (p_seen x =? 0) && (endp <? p_tp x + 2) then Done (UV_EINVAL, dst) else
  '(tmp, tp) ← (if negb (p_seen x =? 0) then tmp ← put_word (p_tmp x) (p_tp x) (p_val x); Done (tmp, p_tp x + 2)
                else Done (p_tmp x, p_tp x));
  match p_colonp x with
  | Some colonp =>
    if tp =? endp then Done (UV_EINVAL, dst) else
    let n := tp - colonp in
    tmp ← shift_tail (Z.to_nat n) tmp colonp n 1;
    dst ← c_memcpy dst 0 tmp;
    Done (0, dst)
  | None =>
    if negb (tp =? endp) then Done (UV_EINVAL, dst) else
    dst ← c_memcpy dst 0 tmp;
    Done (0, dst)
  end.

Definition inet_pton6 (src dst : list Z) : outcome (Z * list Z) :=
  c0 ← demand (head src);
  c1 ← (if c0 =? 58 then demand (head (tail src)) else Done 58);
  if (c0 =? 58) && negb (c1 =? 58) then Done (UV_EINVAL, dst) else
  let src := if c0 =? 58 then tail src else src in
  r ← pton6_loop src src (Pton6 (local_array 16 0) 0 None 0 0);
  match r with
  | None => Done (UV_EINVAL, dst)
  | Some x => pton6_finish x dst
  end.

(** A null pointer is [None].  [len] is an [int]; a negative one is a huge
    count for [memcpy]. *)
Definition uv_inet_pton (af : Z) (src dst : option (list Z)) : outcome (Z * option (list Z)) :=
  match src, dst with
  | Some src, Some dst =>
    '(r, dst) ←
      (if af =? AF_INET then inet_pton4 src dst 0
       else if af =? AF_INET6 then
         n ← c_strlen src 0;
         match c_strchr (take (Z.to_nat n) src) 37 with
         | Some p =>
           let len := s32 p in
           if UV__INET6_ADDRSTRLEN - 1 <? len then Done (UV_EINVAL, dst) else
           if len <? 0 then Undef else
           s ← c_memcpy (local_array UV__INET6_ADDRSTRLEN junk) 0 (take (Z.to_nat len) src);
           s ← buf_set s len 0;
           inet_pton6 s dst
         | None => inet_pton6 src dst
         end
       else Done (UV_EAFNOSUPPORT, dst));
    Done (r, Some dst)
  | _, _ => Done (UV_EINVAL, dst)
  end.
End Text.

Example ntop4_localhost : inet_ntop4 7 [127; 0; 0; 1] 0 (replicate 16 9) 0 16 =
  Done (0, [49; 50; 55; 46; 48; 46; 48; 46; 49; 0; 9; 9; 9; 9; 9; 9]).
Proof. reflexivity. Qed.
