(* ===== verification/UvInetSpec.v ===== *)
(** * UvInetSpec: copying strings, and IPv4 text.

    Writes into an array are described by [overwrite]; the loops of strscpy.c
    and of [inet_pton4] and [inet_ntop4] against what they mean. *)

From Stdlib Require Import ZifyBool.
From stdpp Require Import base tactics numbers list gmap strings.
From S2P Require Import Prelude UvCommon UvInet.
Open Scope Z_scope.

(** ** Writing into arrays *)

(** The array after [data] was written from index [off]. *)
Definition overwrite (d : list Z) (off : nat) (data : list Z) : list Z :=
  take off d ++ data ++ drop (off + length data) d.

Lemma overwrite_nil d off : overwrite d off [] = d.
Proof. unfold overwrite. cbn. rewrite Nat.add_0_r. apply take_drop. Qed.

Lemma overwrite_length d off data : (off + length data <= length d)%nat -> length (overwrite d off data) = length d.
Proof. intros. unfold overwrite. rewrite !length_app, length_take, length_drop. lia. Qed.

Lemma overwrite_lookup d off data j : (off + length data <= length d)%nat ->
  overwrite d off data !! j =
    if decide (off <= j < off + length data)%nat then data !! (j - off)%nat else d !! j.
Proof.
  intros Hl. unfold overwrite. assert (length (take off d) = off) as Ht by (rewrite length_take; lia).
  destruct (decide (off <= j < off + length data)%nat).
  - rewrite lookup_app_r, Ht by lia. by rewrite lookup_app_l by lia.
  - destruct (Nat.lt_ge_cases j off).
    + rewrite lookup_app_l by lia. by rewrite lookup_take_lt.
    + rewrite lookup_app_r, Ht by lia. rewrite lookup_app_r by lia. rewrite lookup_drop. f_equal. lia.
Qed.

Lemma overwrite_app d off a b : (off + length a + length b <= length d)%nat ->
  overwrite (overwrite d off a) (off + length a) b = overwrite d off (a ++ b).
Proof.
  intros Hl. apply list_eq. intros j.
  rewrite !overwrite_lookup by (rewrite ?overwrite_length, ?length_app; lia). rewrite length_app.
  repeat case_decide; try lia; [rewrite lookup_app_r by lia; f_equal; lia|by rewrite lookup_app_l by lia|done].
Qed.

Lemma overwrite_again d off a b : (off + length b <= length d)%nat -> length a = length b ->
  overwrite (overwrite d off a) off b = overwrite d off b.
Proof.
  intros Hl E. apply list_eq. intros j. rewrite !overwrite_lookup by (rewrite ?overwrite_length; lia).
  repeat case_decide; try lia; done.
Qed.

Lemma buf_set_run d i v : 0 <= i < zlen d -> buf_set d i v = Done (overwrite d (Z.to_nat i) [v]).
Proof.
  intros Hi. unfold buf_set. replace ((0 <=? i) && (i <? zlen d)) with true by lia. f_equal.
  rewrite insert_take_drop by lia. unfold overwrite. cbn. do 2 f_equal. f_equal. lia.
Qed.

Lemma buf_put_run data : forall d i, 0 <= i -> i + zlen data <= zlen d ->
  buf_put d i data = Done (overwrite d (Z.to_nat i) data).
Proof.
  induction data as [|b data IH]; intros d i Hi Hl; cbn [buf_put]; [by rewrite overwrite_nil|]. cbn [length] in Hl.
  rewrite buf_set_run by lia. cbn [mbind outcome_bind]. rewrite IH by (rewrite ?overwrite_length; cbn; lia). f_equal.
  replace (Z.to_nat (i + 1)) with (Z.to_nat i + length [b])%nat by (cbn; lia). apply overwrite_app. cbn. lia.
Qed.

Lemma buf_get_run s (i : nat) x : s !! i = Some x -> buf_get s (Z.of_nat i) = Done x.
Proof. intros E. unfold buf_get. rewrite Nat2Z.id, E. by destruct (Z.leb_spec 0 (Z.of_nat i)); [|lia]. Qed.

Lemma overwrite_prefix d off data : (off <= length d)%nat -> take (length data) (drop off (overwrite d off data)) = data.
Proof.
  intros. unfold overwrite. rewrite drop_app_ge by (rewrite length_take; lia).
  rewrite length_take, Nat.min_l, Nat.sub_diag by lia. by rewrite drop_0, take_app_length.
Qed.

(** ** strscpy *)

Lemma strscpy_loop_run k : forall d off s (i : nat),
  0 <= off -> (i + k <= length s)%nat -> off + Z.of_nat (i + k) <= zlen d -> Forall (fun c => c <> 0) (take (i + k) s) ->
  strscpy_loop k (overwrite d (Z.to_nat off) (take i s)) off s (Z.of_nat i) =
    if decide (i + k = 0)%nat then Done (0, d)
    else Done (UV_E2BIG, overwrite d (Z.to_nat off) (take (i + k - 1) s ++ [0])).
Proof.
  induction k as [|k IH]; intros d off s i Hoff Hs Hd Hnz; cbn [strscpy_loop].
  - rewrite Nat.add_0_r in *. destruct i as [|i]; [by rewrite overwrite_nil|].
    rewrite (decide_False (P := (S i = 0)%nat)) by lia. destruct (Z.eqb_spec (Z.of_nat (S i)) 0); [lia|].
    destruct (lookup_lt_is_Some_2 s i ltac:(lia)) as [x Hx]. rewrite (take_S_r s i x Hx).
    assert (length (take i s) = i) as Hti by (rewrite length_take; lia).
    rewrite buf_set_run by (rewrite overwrite_length; rewrite ?length_app; cbn; lia). cbn [mbind outcome_bind]. do 2 f_equal.
    replace (S i - 1)%nat with i by lia.
    rewrite <- (overwrite_app d (Z.to_nat off) (take i s) [x]) by (cbn; lia).
    replace (Z.to_nat (off + (Z.of_nat (S i) - 1))) with (Z.to_nat off + length (take i s))%nat by lia.
    rewrite <- (overwrite_app d (Z.to_nat off) (take i s) [0]) by (cbn; lia).
    apply overwrite_again; [rewrite overwrite_length; cbn; lia|done].
  - destruct (lookup_lt_is_Some_2 s i ltac:(lia)) as [x Hx]. rewrite (buf_get_run s i x Hx). cbn [mbind outcome_bind].
    assert (length (take i s) = i) as Hti by (rewrite length_take; lia).
    rewrite buf_set_run by (rewrite overwrite_length; lia). cbn [mbind outcome_bind].
    assert (x <> 0) as Hxz.
    { rewrite Forall_lookup in Hnz. apply (Hnz i). by rewrite lookup_take_lt by lia. }
    rewrite (proj2 (Z.eqb_neq _ _) Hxz). replace (Z.of_nat i + 1) with (Z.of_nat (S i)) by lia.
    replace (Z.to_nat (off + Z.of_nat i)) with (Z.to_nat off + length (take i s))%nat by lia.
    rewrite overwrite_app by (cbn; lia). rewrite <- (take_S_r s i x Hx). replace (i + S k)%nat with (S i + k)%nat in * by lia.
    by apply IH.
Qed.

(** The loop up to the terminator. *)
Lemma strscpy_text_run k : forall d off text rest (i : nat),
  0 <= off -> (i + k = length text)%nat -> off + zlen text + 1 <= zlen d -> Forall (fun c => c <> 0) text -> zlen text <= SSIZE_MAX ->
  forall k', (k < k')%nat ->
  strscpy_loop k' (overwrite d (Z.to_nat off) (take i text)) off (text ++ 0 :: rest) (Z.of_nat i) =
    Done (zlen text, overwrite d (Z.to_nat off) (text ++ [0])).
Proof.
  induction k as [|k IH]; intros d off text rest i Hoff Hi Hd Hnz Hmax k' Hk; (destruct k' as [|k']; [lia|]); cbn [strscpy_loop].
  - assert (i = length text) as -> by lia. rewrite firstn_all.
    rewrite (buf_get_run _ _ 0) by (by rewrite lookup_app_r, Nat.sub_diag by lia). cbn [mbind outcome_bind].
    rewrite buf_set_run by (rewrite overwrite_length; lia). cbn [mbind outcome_bind].
    destruct (Z.ltb_spec SSIZE_MAX (zlen text)); [lia|]. cbn. do 2 f_equal.
    replace (Z.to_nat (off + zlen text)) with (Z.to_nat off + length text)%nat by lia. apply overwrite_app. cbn. lia.
  - destruct (lookup_lt_is_Some_2 text i ltac:(lia)) as [x Hx].
    rewrite (buf_get_run _ _ x) by (by rewrite lookup_app_l by lia). cbn [mbind outcome_bind].
    assert (length (take i text) = i) as Hti by (rewrite length_take; lia).
    rewrite buf_set_run by (rewrite overwrite_length; lia). cbn [mbind outcome_bind].
    assert (x <> 0) as Hxz by (rewrite Forall_lookup in Hnz; by apply (Hnz i)).
    rewrite (proj2 (Z.eqb_neq _ _) Hxz). replace (Z.of_nat i + 1) with (Z.of_nat (S i)) by lia.
    replace (Z.to_nat (off + Z.of_nat i)) with (Z.to_nat off + length (take i text))%nat by lia.
    rewrite overwrite_app by (cbn; lia). rewrite <- (take_S_r text i x Hx). apply IH; try done; lia.
Qed.

Lemma strscpy_fits d off text rest n :
  0 <= off -> off + zlen text + 1 <= zlen d -> Forall (fun c => c <> 0) text -> zlen text < n -> zlen text <= SSIZE_MAX ->
  uv__strscpy d off (text ++ 0 :: rest) n = Done (zlen text, overwrite d (Z.to_nat off) (text ++ [0])).
Proof.
  intros Hoff Hd Hnz Hn Hmax. unfold uv__strscpy.
  pose proof (strscpy_text_run (length text) d off text rest 0 Hoff eq_refl Hd Hnz Hmax (Z.to_nat n) ltac:(lia)) as E.
  by rewrite take_0, overwrite_nil in E.
Qed.

Lemma strscpy_cut d off text rest n :
  0 <= off -> 0 <= n -> off + n <= zlen d -> Forall (fun c => c <> 0) text -> n <= zlen text ->
  uv__strscpy d off (text ++ 0 :: rest) n =
    if n =? 0 then Done (0, d) else Done (UV_E2BIG, overwrite d (Z.to_nat off) (take (Z.to_nat n - 1) text ++ [0])).
Proof.
  intros Hoff Hn Hd Hnz Hle. unfold uv__strscpy.
  pose proof (strscpy_loop_run (Z.to_nat n) d off (text ++ 0 :: rest) 0 Hoff) as E.
  rewrite take_0, overwrite_nil in E. change (Z.of_nat 0) with 0 in E. change (0 + Z.to_nat n)%nat with (Z.to_nat n) in E. rewrite E; clear E.
  - destruct (decide (Z.to_nat n = 0)%nat), (Z.eqb_spec n 0); try lia; [done|]. by rewrite take_app_le by lia.
  - rewrite length_app. cbn. lia.
  - lia.
  - rewrite take_app_le by lia. by apply Forall_take.
Qed.

(** ** Decimal text *)

Definition is_digit (c : Z) : Prop := 48 <= c < 58.

Lemma strchr_None s c : Forall (fun x => x <> c) s -> c_strchr s c = None.
Proof. induction 1 as [|x s Hx _ IH]; [done|]. cbn [c_strchr]. by rewrite (proj2 (Z.eqb_neq _ _) Hx), IH. Qed.

Lemma strchr_digits c : c_strchr digits_text c = if decide (is_digit c) then Some (c - 48) else None.
Proof.
  unfold is_digit. destruct (decide (48 <= c < 58)) as [Hc|Hc].
  - assert (c = 48 \/ c = 49 \/ c = 50 \/ c = 51 \/ c = 52 \/ c = 53 \/ c = 54 \/ c = 55 \/ c = 56 \/ c = 57) as Hcases by lia.
    by destruct_or! Hcases; subst.
  - apply strchr_None. unfold digits_text. cbn [map seq]. repeat constructor; lia.
Qed.

Lemma decimal_digit d : 0 <= d < 10 -> decimal d = [48 + d].
Proof. intros Hd. cbn. unfold digit_char. by destruct (Z.ltb_spec d 10); [|lia]. Qed.

Lemma digits_S fuel base n :
  digits (S fuel) base n =
    if n <? base then [digit_char n] else digits fuel base (n / base) ++ [digit_char (n mod base)].
Proof. done. Qed.

(** One more digit on the right. *)
Lemma decimal_push n d : 0 < n < 100 -> 0 <= d < 10 -> decimal (n * 10 + d) = decimal n ++ [48 + d].
Proof.
  intros Hn Hd. unfold decimal. rewrite (digits_S 9 10 (n * 10 + d)). destruct (Z.ltb_spec (n * 10 + d) 10); [lia|].
  assert ((n * 10 + d) / 10 = n) as -> by (symmetry; apply (Z.div_unique _ _ _ d); lia).
  assert ((n * 10 + d) mod 10 = d) as -> by (symmetry; apply (Z.mod_unique _ _ n); lia).
  unfold digit_char at 1. destruct (Z.ltb_spec d 10); [|lia]. f_equal.
  rewrite (digits_S 8), (digits_S 9). destruct (Z.ltb_spec n 10); [done|]. f_equal.
  assert (n / 10 < 10) by (apply Z.div_lt_upper_bound; lia).
  rewrite (digits_S 7), (digits_S 8). destruct (Z.ltb_spec (n / 10) 10); [done|lia].
Qed.

Lemma decimal_cases n : 0 <= n < 256 ->
  (n < 10 /\ decimal n = [48 + n]) \/
  exists m d, 0 < m < 100 /\ 0 <= d < 10 /\ n = m * 10 + d /\ decimal n = decimal m ++ [48 + d].
Proof.
  intros Hn. destruct (Z.lt_ge_cases n 10); [left; split; [done|apply decimal_digit; lia]|right].
  exists (n / 10), (n mod 10). pose proof (Z.div_mod n 10). pose proof (Z.mod_pos_bound n 10).
  split_and!; try lia. rewrite <- decimal_push by lia. f_equal. lia.
Qed.

Lemma decimal_chars n : 0 <= n < 256 -> Forall is_digit (decimal n) /\ (1 <= length (decimal n) <= 3)%nat.
Proof.
  intros Hn. destruct (decimal_cases n Hn) as [[Hl ->]|(m & d & Hm & Hd & -> & ->)].
  { split; [|cbn; lia]. constructor; [unfold is_digit; lia|constructor]. }
  destruct (decimal_cases m ltac:(lia)) as [[Hl ->]|(m' & d' & Hm' & Hd' & -> & ->)].
  { split; [|cbn; lia]. unfold is_digit. repeat constructor; lia. }
  rewrite (decimal_digit m') by lia. split; [|cbn; lia]. unfold is_digit. repeat constructor; lia.
Qed.

(** "a.b.c.d" *)
Definition octet_dot (o : Z) : list Z := decimal o ++ [46].
Definition dotted (bs : list Z) : list Z :=
  match bs with
  | [a; b; c; d] => octet_dot a ++ octet_dot b ++ octet_dot c ++ decimal d
  | _ => []
  end.

(** ** inet_pton4 *)

(** What has been read when the loop is at octet [tp]. *)
Record pton4_inv (consumed tmp : list Z) (tp : nat) (saw : bool) (octets : Z) : Prop := Pton4Inv {
  p4_length : length tmp = 4%nat;
  p4_tp : (tp < 4)%nat;
  p4_octets : octets = Z.of_nat tp + Z.b2z saw;
  p4_done : Forall is_byte (take (tp + 1) tmp);
  p4_fresh : saw = false -> tmp !! tp = Some 0;
  p4_text cur : tmp !! tp = Some cur -> consumed = concat (map octet_dot (take tp tmp)) ++ (if saw then decimal cur else []);
}.

Lemma pton4_step_digit consumed tmp tp saw octets cur d :
  pton4_inv consumed tmp tp saw octets -> tmp !! tp = Some cur -> 0 <= d < 10 -> (saw = true -> cur <> 0) -> cur * 10 + d < 256 ->
  octets + Z.b2z (negb saw) <= 4 ->
  pton4_inv (consumed ++ [48 + d]) (overwrite tmp tp [cur * 10 + d]) tp true (octets + Z.b2z (negb saw)).
Proof.
  intros [Hl Htp Hoct Hdone Hfresh Htext] Hcur Hd Hnz Hlt Hfour.
  assert (Hlk : overwrite tmp tp [cur * 10 + d] !! tp = Some (cur * 10 + d)).
  { rewrite overwrite_lookup by (cbn; lia). rewrite decide_True, Nat.sub_diag by (cbn; lia). done. }
  assert (Htake : take tp (overwrite tmp tp [cur * 10 + d]) = take tp tmp).
  { unfold overwrite. rewrite take_app_le by (rewrite length_take; lia). rewrite take_take. f_equal. lia. }
  assert (Hcb : is_byte cur).
  { rewrite Forall_lookup in Hdone. apply (Hdone tp). by rewrite lookup_take_lt by lia. }
  split.
  - rewrite overwrite_length; cbn; lia.
  - done.
  - rewrite Hoct. destruct saw; cbn; lia.
  - rewrite Nat.add_1_r, (take_S_r _ _ _ Hlk), Htake. apply Forall_app. split.
    + rewrite Nat.add_1_r in Hdone. rewrite (take_S_r _ _ _ Hcur) in Hdone. by apply Forall_app in Hdone as [? _].
    + repeat constructor; unfold is_byte in *; lia.
  - done.
  - intros cur' Hcur'. rewrite Hlk in Hcur'. injection Hcur' as <-. rewrite Htake, (Htext cur Hcur), <- app_assoc. f_equal.
    destruct saw.
    + symmetry. apply decimal_push; [|done]. specialize (Hnz eq_refl). unfold is_byte in Hcb. lia.
    + rewrite (Hfresh eq_refl) in Hcur. injection Hcur as <-. by rewrite decimal_digit.
Qed.

Lemma pton4_step_dot consumed tmp tp octets :
  pton4_inv consumed tmp tp true octets -> octets <> 4 ->
  pton4_inv (consumed ++ [46]) (overwrite tmp (tp + 1) [0]) (tp + 1) false octets.
Proof.
  intros [Hl Htp Hoct Hdone _ Htext] Hne. cbn in Hoct.
  destruct (lookup_lt_is_Some_2 tmp tp ltac:(lia)) as [cur Hcur].
  assert (Hlk : overwrite tmp (tp + 1) [0] !! (tp + 1)%nat = Some 0).
  { rewrite overwrite_lookup by (cbn; lia). rewrite decide_True, Nat.sub_diag by (cbn; lia). done. }
  assert (Htake : take (tp + 1) (overwrite tmp (tp + 1) [0]) = take (tp + 1) tmp).
  { unfold overwrite. rewrite take_app_le by (rewrite length_take; lia). rewrite take_take. f_equal. lia. }
  split; [rewrite overwrite_length; cbn; lia|lia|cbn; lia| |done|].
  - rewrite Nat.add_1_r, (take_S_r _ _ _ Hlk), Htake. apply Forall_app. split; [done|repeat constructor; done].
  - intros cur' _. rewrite Htake, (Htext cur Hcur), Nat.add_1_r, (take_S_r _ _ _ Hcur), map_app, concat_app.
    cbn. unfold octet_dot. by rewrite !app_nil_r, <- app_assoc.
Qed.

(** On any terminated text the loop ends, and it succeeds only on text in
    canonical form. *)
Lemma pton4_loop_sound text rest : forall consumed tmp tp saw octets,
  Forall (fun c => c <> 0) text -> pton4_inv consumed tmp tp saw octets ->
  pton4_loop (text ++ 0 :: rest) tmp (Z.of_nat tp) saw octets = Done None \/
  exists tmp' tp' saw' octets', pton4_loop (text ++ 0 :: rest) tmp (Z.of_nat tp) saw octets = Done (Some (tmp', octets')) /\
    pton4_inv (consumed ++ text) tmp' tp' saw' octets'.
Proof.
  induction text as [|ch text IH]; intros consumed tmp tp saw octets Hnz Hinv; cbn [app pton4_loop].
  { right. exists tmp, tp, saw, octets. by rewrite app_nil_r. }
  apply Forall_cons in Hnz as [Hch Hnz]. rewrite (proj2 (Z.eqb_neq _ _) Hch), strchr_digits.
  pose proof (p4_length _ _ _ _ _ Hinv) as Hl. pose proof (p4_tp _ _ _ _ _ Hinv) as Htp. pose proof (p4_octets _ _ _ _ _ Hinv) as Hoct.
  assert (Hassoc : forall a : Z, consumed ++ a :: text = (consumed ++ [a]) ++ text) by (intros; by rewrite <- app_assoc).
  destruct (decide (is_digit ch)) as [Hd|Hd]; unfold is_digit in Hd.
  - destruct (lookup_lt_is_Some_2 tmp tp ltac:(lia)) as [cur Hcur]. rewrite (buf_get_run _ _ _ Hcur). cbn [mbind outcome_bind].
    assert (Hcb : is_byte cur).
    { pose proof (p4_done _ _ _ _ _ Hinv) as Hdone. rewrite Forall_lookup in Hdone. apply (Hdone tp). by rewrite lookup_take_lt by lia. }
    unfold is_byte in Hcb. rewrite u32_small by lia.
    destruct (saw && (cur =? 0)) eqn:Esaw; [by left|]. destruct (Z.ltb_spec 255 (cur * 10 + (ch - 48))); [by left|].
    rewrite buf_set_run, Nat2Z.id by lia. cbn [mbind outcome_bind].
    assert (Hstep : octets + Z.b2z (negb saw) <= 4 -> pton4_inv (consumed ++ [ch]) (overwrite tmp tp [cur * 10 + (ch - 48)]) tp true (octets + Z.b2z (negb saw))).
    { intros. replace ch with (48 + (ch - 48)) at 1 by lia. apply (pton4_step_digit _ _ _ saw); try done; lia. }
    rewrite Hassoc. destruct saw; cbn [negb Z.b2z] in *.
    + rewrite Z.add_0_r in Hstep. apply IH; [done|]. apply Hstep. lia.
    + destruct (Z.ltb_spec 4 (octets + 1)); [by left|]. apply IH; [done|]. apply Hstep. lia.
  - destruct (Z.eqb_spec ch 46) as [->|]; cbn [andb]; [|by left]. destruct saw; [|by left]. cbn [andb].
    destruct (Z.eqb_spec octets 4); [by left|]. cbn in Hoct.
    rewrite buf_set_run by lia. cbn [mbind outcome_bind]. rewrite Hassoc.
    replace (Z.to_nat (Z.of_nat tp + 1)) with (tp + 1)%nat by lia. replace (Z.of_nat tp + 1) with (Z.of_nat (tp + 1)) by lia.
    apply IH; [done|]. by apply pton4_step_dot.
Qed.

Lemma first_digit_run d tail tmp (tp : nat) octets :
  0 <= d < 10 -> tmp !! tp = Some 0 -> octets + 1 <= 4 ->
  pton4_loop ((48 + d) :: tail) tmp (Z.of_nat tp) false octets =
    pton4_loop tail (overwrite tmp tp [d]) (Z.of_nat tp) true (octets + 1).
Proof.
  intros Hd Htp Hoct. pose proof (lookup_lt_Some _ _ _ Htp). cbn [pton4_loop].
  destruct (Z.eqb_spec (48 + d) 0); [lia|]. rewrite strchr_digits, decide_True by (unfold is_digit; lia).
  rewrite (buf_get_run _ _ _ Htp). cbn [mbind outcome_bind andb]. rewrite u32_small by lia.
  destruct (Z.ltb_spec 255 (0 * 10 + (48 + d - 48))); [lia|]. rewrite buf_set_run, Nat2Z.id by lia. cbn [mbind outcome_bind negb].
  destruct (Z.ltb_spec 4 (octets + 1)); [lia|]. replace (0 * 10 + (48 + d - 48)) with d by lia. done.
Qed.

Lemma next_digit_run cur d tail tmp (tp : nat) octets :
  0 <= d < 10 -> tmp !! tp = Some cur -> 0 < cur -> cur * 10 + d < 256 ->
  pton4_loop ((48 + d) :: tail) tmp (Z.of_nat tp) true octets =
    pton4_loop tail (overwrite tmp tp [cur * 10 + d]) (Z.of_nat tp) true octets.
Proof.
  intros Hd Htp Hcur Hlt. pose proof (lookup_lt_Some _ _ _ Htp). cbn [pton4_loop].
  destruct (Z.eqb_spec (48 + d) 0); [lia|]. rewrite strchr_digits, decide_True by (unfold is_digit; lia).
  rewrite (buf_get_run _ _ _ Htp). cbn [mbind outcome_bind andb]. rewrite u32_small by lia.
  destruct (Z.eqb_spec cur 0); [lia|]. cbn [andb].
  destruct (Z.ltb_spec 255 (cur * 10 + (48 + d - 48))); [lia|]. rewrite buf_set_run, Nat2Z.id by lia. cbn [mbind outcome_bind negb].
  replace (48 + d - 48) with d by lia. done.
Qed.

Lemma overwrite_one_lookup (tmp : list Z) tp v : (tp < length tmp)%nat -> overwrite tmp tp [v] !! tp = Some v.
Proof. intros. rewrite overwrite_lookup by (cbn; lia). by rewrite decide_True, Nat.sub_diag by (cbn; lia). Qed.

(** A whole octet. *)
Lemma octet_run o tail tmp (tp : nat) octets :
  0 <= o < 256 -> tmp !! tp = Some 0 -> octets + 1 <= 4 ->
  pton4_loop (decimal o ++ tail) tmp (Z.of_nat tp) false octets =
    pton4_loop tail (overwrite tmp tp [o]) (Z.of_nat tp) true (octets + 1).
Proof.
  intros Ho Htp Hoct. pose proof (lookup_lt_Some _ _ _ Htp).
  assert (Hstep : forall m d tl, 0 < m -> 0 <= d < 10 -> m * 10 + d < 256 ->
    pton4_loop ((48 + d) :: tl) (overwrite tmp tp [m]) (Z.of_nat tp) true (octets + 1) =
      pton4_loop tl (overwrite tmp tp [m * 10 + d]) (Z.of_nat tp) true (octets + 1)).
  { intros m d tl Hm Hd Hlt. rewrite (next_digit_run m) by (done || by apply overwrite_one_lookup).
    by rewrite overwrite_again by (cbn; lia). }
  destruct (decimal_cases o Ho) as [[Hl ->]|(m & d & Hm & Hd & -> & ->)]; [apply first_digit_run; done || lia|].
  rewrite <- app_assoc. cbn [app].
  destruct (decimal_cases m ltac:(lia)) as [[Hl ->]|(m' & d' & Hm' & Hd' & -> & ->)].
  - cbn [app]. rewrite first_digit_run by (done || lia). apply Hstep; lia.
  - rewrite (decimal_digit m'), <- app_assoc by lia. cbn [app]. rewrite first_digit_run by (done || lia).
    rewrite !Hstep by lia. done.
Qed.

Lemma dot_run tail tmp (tp : nat) octets :
  octets <> 4 -> (tp + 1 < length tmp)%nat ->
  pton4_loop (46 :: tail) tmp (Z.of_nat tp) true octets =
    pton4_loop tail (overwrite tmp (tp + 1) [0]) (Z.of_nat (tp + 1)) false octets.
Proof.
  intros Hoct Htp. cbn [pton4_loop]. rewrite strchr_digits, decide_False by (unfold is_digit; lia). cbn [Z.eqb Pos.eqb andb].
  rewrite (proj2 (Z.eqb_neq _ _) Hoct), buf_set_run by lia. cbn [mbind outcome_bind]. replace (Z.of_nat tp + 1) with (Z.of_nat (tp + 1)) by lia.
  by rewrite Nat2Z.id.
Qed.

Lemma pton4_dotted junk a b c d rest :
  is_byte a -> is_byte b -> is_byte c -> is_byte d ->
  pton4_loop (dotted [a; b; c; d] ++ 0 :: rest) [0; junk; junk; junk] 0 false 0 = Done (Some ([a; b; c; d], 4)).
Proof.
  unfold is_byte, dotted, octet_dot. intros Ha Hb Hc Hd. rewrite <- !app_assoc.
  rewrite (octet_run a _ _ 0) by (done || lia). cbn [app]. rewrite (dot_run _ _ 0) by (cbn; lia).
  rewrite (octet_run b _ _ 1) by (done || lia). cbn [app]. rewrite (dot_run _ _ 1) by (cbn; lia).
  rewrite (octet_run c _ _ 2) by (done || lia). cbn [app]. rewrite (dot_run _ _ 2) by (cbn; lia).
  rewrite (octet_run d _ _ 3) by (done || lia). done.
Qed.

Lemma dotted_nonzero bs : Forall is_byte bs -> Forall (fun c => c <> 0) (dotted bs).
Proof.
  intros Hbs. destruct bs as [|a [|b [|c [|d [|]]]]]; try constructor. rewrite !Forall_cons in Hbs. destruct Hbs as (Ha & Hb & Hc & Hd & _).
  assert (Hdec : forall o, is_byte o -> Forall (fun c => c <> 0) (decimal o)).
  { intros o Ho. destruct (decimal_chars o Ho) as [Hch _]. eapply Forall_impl; [exact Hch|]. unfold is_digit. intros; lia. }
  unfold dotted, octet_dot. rewrite !Forall_app. split_and!; auto; repeat constructor; lia.
Qed.

Lemma dotted_length a b c d : Forall is_byte [a; b; c; d] -> (7 <= length (dotted [a; b; c; d]) <= 15)%nat.
Proof.
  rewrite !Forall_cons. intros (Ha & Hb & Hc & Hd & _). unfold dotted, octet_dot. rewrite !length_app. cbn [length].
  pose proof (proj2 (decimal_chars a Ha)). pose proof (proj2 (decimal_chars b Hb)).
  pose proof (proj2 (decimal_chars c Hc)). pose proof (proj2 (decimal_chars d Hd)). lia.
Qed.

(** [inet_pton4] accepts exactly the canonical dotted texts. *)
Lemma inet_pton4_spec junk text rest dst off :
  Forall (fun c => c <> 0) text -> 0 <= off -> off + 4 <= zlen dst ->
  (exists bs, length bs = 4%nat /\ Forall is_byte bs /\ text = dotted bs /\
     inet_pton4 junk (text ++ 0 :: rest) dst off = Done (0, overwrite dst (Z.to_nat off) bs)) \/
  ((forall bs, length bs = 4%nat -> Forall is_byte bs -> text <> dotted bs) /\
   inet_pton4 junk (text ++ 0 :: rest) dst off = Done (UV_EINVAL, dst)).
Proof.
  intros Hnz Hoff Hdst. set (tmp0 := [0; junk; junk; junk]).
  assert (Hrun : inet_pton4 junk (text ++ 0 :: rest) dst off =
    (r ← pton4_loop (text ++ 0 :: rest) tmp0 0 false 0;
     match r with
     | None => Done (UV_EINVAL, dst)
     | Some (tmp, octets) => if octets <? 4 then Done (UV_EINVAL, dst) else dst ← c_memcpy dst off tmp; Done (0, dst)
     end)) by done.
  assert (Hinv : pton4_inv [] tmp0 0 false 0).
  { split; cbn; try done; try lia; [repeat constructor; done]. }
  subst tmp0. destruct (pton4_loop_sound text rest [] _ 0 false 0 Hnz Hinv) as [E|(tmp & tp & saw & octets & E & Hinv')].
  - change (Z.of_nat 0) with 0 in E. right. split; [|by rewrite Hrun, E]. intros bs Hl Hb ->. destruct bs as [|a [|b [|c [|d [|]]]]]; try done.
    rewrite !Forall_cons in Hb. destruct Hb as (Ha & Hb & Hc & Hd & _). rewrite pton4_dotted in E by done. done.
  - cbn [app] in Hinv'. change (Z.of_nat 0) with 0 in E. destruct Hinv' as [Hl Htp Hoct Hdone Hfresh Htext].
    destruct (Z.ltb_spec octets 4) as [Hlt|Hge].
    + right. split.
      * intros bs Hl' Hb ->. destruct bs as [|a [|b [|c [|d [|]]]]]; try done.
        rewrite !Forall_cons in Hb. destruct Hb as (Ha & Hb & Hc & Hd & _). rewrite pton4_dotted in E by done.
        injection E as _ <-. lia.
      * rewrite Hrun, E. cbn [mbind outcome_bind]. by destruct (Z.ltb_spec octets 4); [|lia].
    + left. assert (saw = true /\ tp = 3%nat) as [-> ->] by (destruct saw; cbn in Hoct; lia).
      destruct tmp as [|a [|b [|c [|d [|]]]]]; try done. cbn [Nat.add take] in Hdone.
      exists [a; b; c; d]. split_and!; [done|done| |].
      * rewrite (Htext d eq_refl). cbn. by rewrite app_nil_r, <- !app_assoc.
      * rewrite Hrun, E. cbn [mbind outcome_bind]. destruct (Z.ltb_spec octets 4); [lia|].
        unfold c_memcpy. by rewrite buf_put_run by (cbn; lia).
Qed.

(** ** inet_ntop4 *)

Lemma inet_ntop4_spec junk src soff a b c d dst doff size :
  buf_get src soff = Done a -> buf_get src (soff + 1) = Done b -> buf_get src (soff + 2) = Done c -> buf_get src (soff + 3) = Done d ->
  Forall is_byte [a; b; c; d] -> 0 <= doff -> doff + size <= zlen dst ->
  inet_ntop4 junk src soff dst doff size =
    if size <=? zlen (dotted [a; b; c; d]) then Done (UV_ENOSPC, dst)
    else Done (0, overwrite dst (Z.to_nat doff) (dotted [a; b; c; d] ++ [0])).
Proof.
  intros Ea Eb Ec Ed Hb Hdoff Hdst. pose proof (dotted_length a b c d Hb) as Hlen. pose proof (dotted_nonzero _ Hb) as Hnz.
  unfold inet_ntop4. rewrite Ea, Eb, Ec, Ed. cbn [mbind outcome_bind].
  replace (decimal a ++ [46] ++ decimal b ++ [46] ++ decimal c ++ [46] ++ decimal d) with (dotted [a; b; c; d])
    by (unfold dotted, octet_dot; by rewrite <- !app_assoc).
  set (t := dotted [a; b; c; d]) in *. clearbody t. unfold c_snprintf, local_array, UV__INET_ADDRSTRLEN.
  rewrite firstn_all2 by lia. cbn [Z.ltb Z.compare].
  rewrite buf_put_run by (rewrite ?length_app, ?length_replicate; cbn [length]; lia). cbn [mbind outcome_bind].
  destruct (Z.leb_spec (zlen t) 0); [lia|]. cbn [orb]. destruct (Z.leb_spec size (zlen t)); [done|].
  unfold overwrite at 1. change (Z.to_nat 0) with 0%nat. rewrite take_0, <- app_assoc. cbn [app].
  rewrite strscpy_fits by (done || unfold SSIZE_MAX; lia). done.
Qed.
