(* ===== verification/UvInet6.v ===== *)
(** * UvInet6: IPv6 text survives the trip.

    What [inet_ntop6] prints is a sequence of pieces (colons, hexadecimal
    words, an embedded IPv4 address) that depends only on which words are zero
    and on two tests of words 5 and 7.  [inet_pton6] is simulated on the
    pieces, with bytes named by their position in the address; that the
    simulation ends with every byte in its place is then checked by
    computation for all the 1024 cases. *)

From Stdlib Require Import ZifyBool.
From stdpp Require Import base tactics numbers list gmap strings.
From S2P Require Import Prelude UvCommon UvInet UvInetSpec.
Open Scope Z_scope.

(** ** Pieces *)

Inductive piece : Type := PColon | PHex (i : Z) | PV4.
#[export] Instance piece_eq_dec : EqDecision piece.
Proof. solve_decision. Defined.

Definition in_run (best : run) (i : Z) : bool :=
  negb (base best =? -1) && (base best <=? i) && (i <? base best + len best).

Fixpoint pieces (n : nat) (best : run) (v4 : bool) (i : Z) : list piece :=
  match n with
  | O => []
  | S n =>
    if in_run best i then (if i =? base best then [PColon] else []) ++ pieces n best v4 (i + 1)
    else (if negb (i =? 0) then [PColon] else []) ++
         (if (i =? 6) && v4 then [PV4] else PHex i :: pieces n best v4 (i + 1))
  end.

Definition run_at_end (best : run) : bool := negb (base best =? -1) && (base best + len best =? 8).
Definition pieces_to_end (n : nat) (best : run) (v4 : bool) : list piece :=
  pieces n best v4 0 ++ (if run_at_end best then [PColon] else []).

(** Whether the last two words are printed as an IPv4 address. *)
Definition prints_v4 (best : run) (w7_is_1 w5_is_ffff : bool) : bool :=
  (base best =? 0) && ((len best =? 6) || ((len best =? 7) && negb w7_is_1) || ((len best =? 5) && w5_is_ffff)).

(** An upper bound on the length of the text. *)
Definition weight (p : piece) : Z := match p with PColon => 1 | PHex _ => 4 | PV4 => 15 end.
Definition total (ps : list piece) : Z := foldr (fun p n => weight p + n) 0 ps.

(** The longest run from the zero flags of the words. *)
Definition flag_word (z : bool) : Z := if z then 0 else 1.
Definition best_of (flags : list bool) : run := best_run (map flag_word flags).

(** ** Reading pieces *)

(** Bytes are named by codes: 0 is zero, [k + 1] is byte [k] of the address. *)
Record abs : Type := Abs { a_tmp : list Z; a_tp : Z; a_colonp : option Z; a_word : option Z }.

Definition abs_put (tmp : list Z) (tp : Z) (i : Z) : outcome (list Z) :=
  if i <? 0 then Undef else
  tmp ← buf_set tmp tp (2 * i + 1);
  buf_set tmp (tp + 1) (2 * i + 2).

Fixpoint abs_run (ps : list piece) (x : abs) : outcome (option abs) :=
  match ps with
  | [] => Done (Some x)
  | PHex i :: ps =>
    match a_word x, ps with
    | None, ([] | PColon :: _) => abs_run ps (Abs (a_tmp x) (a_tp x) (a_colonp x) (Some i))
    | _, _ => Done None
    end
  | PColon :: ps =>
    match a_word x with
    | None =>
      match a_colonp x with
      | Some _ => Done None
      | None => abs_run ps (Abs (a_tmp x) (a_tp x) (Some (a_tp x)) None)
      end
    | Some i =>
      if bool_decide (ps = []) || (endp <? a_tp x + 2) then Done None else
      tmp ← abs_put (a_tmp x) (a_tp x) i;
      abs_run ps (Abs tmp (a_tp x + 2) (a_colonp x) None)
    end
  | PV4 :: ps =>
    if bool_decide (ps = []) && (a_tp x + 4 <=? endp) && bool_decide (a_word x = None) then
      tmp ← buf_put (a_tmp x) (a_tp x) [13; 14; 15; 16];
      Done (Some (Abs tmp (a_tp x + 4) (a_colonp x) None))
    else Done None
  end.

Definition abs_finish (x : abs) : outcome (option (list Z)) :=
  '(tmp, tp) ← match a_word x with
               | Some i => tmp ← abs_put (a_tmp x) (a_tp x) i; Done (tmp, a_tp x + 2)
               | None => Done (a_tmp x, a_tp x)
               end;
  if bool_decide (is_Some (a_word x)) && (endp <? tp) then Done None else
  match a_colonp x with
  | Some c => if tp =? endp then Done None else Some <$> shift_tail (Z.to_nat (tp - c)) tmp c (tp - c) 1
  | None => Done (if tp =? endp then Some tmp else None)
  end.

(** A leading colon must be one of two, and is dropped. *)
Definition abs_pton6 (ps : list piece) : outcome (option (list Z)) :=
  match ps with
  | PColon :: (PColon :: _) as ps' =>
    r ← abs_run (tail ps) (Abs (replicate 16 0) 0 None None);
    match r with Some x => abs_finish x | None => Done None end
  | PColon :: _ | [] => Done None
  | _ =>
    r ← abs_run ps (Abs (replicate 16 0) 0 None None);
    match r with Some x => abs_finish x | None => Done None end
  end.

(** Byte [k] is itself, or zero in a word that is zero. *)
Definition in_place (flags : list bool) (k : nat) (code : Z) : bool :=
  (code =? Z.of_nat k + 1) || ((code =? 0) && default false (flags !! Nat.div2 k)).

Definition pieces_ok (flags : list bool) (ps : list piece) : bool :=
  (total ps <=? 44) &&
  match abs_pton6 ps with
  | Done (Some codes) =>
    (length codes =? 16)%nat && forallb (fun '(k, c) => in_place flags k c) (zip (seq 0 16) codes)
  | _ => false
  end.

Lemma pieces_ok_spec flags ps : pieces_ok flags ps = true ->
  total ps <= 44 /\
  exists codes, abs_pton6 ps = Done (Some codes) /\ length codes = 16%nat /\
    forall k c, codes !! k = Some c -> in_place flags k c = true.
Proof.
  unfold pieces_ok. rewrite andb_true_iff. intros [Ht H]. split; [lia|].
  destruct (abs_pton6 ps) as [[codes|]| |]; try done. rewrite andb_true_iff, Nat.eqb_eq, forallb_forall in H. destruct H as [Hl H].
  exists codes. split_and!; [done..|]. intros k c Hk. pose proof (lookup_lt_Some _ _ _ Hk). apply (H (k, c)), list_elem_of_In.
  apply (list_elem_of_lookup_2 _ k), lookup_zip_Some. by rewrite lookup_seq_lt by lia.
Qed.

Definition case_ok (flags : list bool) (b7 b5 : bool) : bool :=
  pieces_ok flags (pieces_to_end 8 (best_of flags) (prints_v4 (best_of flags) b7 b5)).

Fixpoint all_flags (n : nat) : list (list bool) :=
  match n with O => [[]] | S n => l ← all_flags n; [true :: l; false :: l] end.

Lemma all_cases_ok :
  forallb (fun flags => case_ok flags true true && case_ok flags true false && case_ok flags false true && case_ok flags false false)
    (all_flags 8) = true.
Proof. vm_compute. reflexivity. Qed.

(** ** The longest run depends on which words are zero *)

Lemma find_run_ext ws ws' : Forall2 (fun w w' => (w =? 0) = (w' =? 0)) ws ws' ->
  forall i best cur, find_run ws i best cur = find_run ws' i best cur.
Proof.
  induction 1 as [|w w' ws ws' E _ IH]; intros i best cur; [done|]. cbn [find_run]. rewrite E.
  destruct (w' =? 0); [apply IH|]. destruct (negb (base cur =? -1)); apply IH.
Qed.

Lemma best_of_words words : best_run words = best_of (map (fun w => w =? 0) words).
Proof.
  unfold best_of, best_run. rewrite (find_run_ext words (map flag_word (map (fun w => w =? 0) words))); [done|].
  induction words as [|w ws IH]; constructor; [by destruct (w =? 0)|done].
Qed.

(** Every list of eight flags is one of the cases. *)
Lemma all_flags_complete n flags : length flags = n -> flags ∈ all_flags n.
Proof.
  revert flags. induction n as [|n IH]; intros [|b flags] Hl; try done; cbn [all_flags].
  - by apply list_elem_of_singleton.
  - injection Hl as Hl. apply list_elem_of_bind. exists flags. split; [|by apply IH]. destruct b; set_solver.
Qed.

Lemma case_checked flags b7 b5 : length flags = 8%nat -> case_ok flags b7 b5 = true.
Proof.
  intros Hl. pose proof all_cases_ok as Hall. rewrite forallb_forall in Hall.
  specialize (Hall flags). rewrite <- list_elem_of_In in Hall. specialize (Hall (all_flags_complete 8 flags Hl)).
  rewrite !andb_true_iff in Hall. destruct b7, b5; tauto.
Qed.

Lemma case_words ws b7 b5 : length ws = 8%nat ->
  pieces_ok (map (fun w => w =? 0) ws) (pieces_to_end 8 (best_run ws) (prints_v4 (best_run ws) b7 b5)) = true.
Proof.
  intros Hl. rewrite best_of_words. apply (case_checked (map (fun w => w =? 0) ws) b7 b5). by rewrite length_map.
Qed.

(** ** Printing *)

(** Hexadecimal words are short and have no zero byte. *)
Lemma hex_length w : 0 <= w < 2 ^ 16 -> (1 <= length (hexadecimal w) <= 4)%nat.
Proof.
  intros Hw. unfold hexadecimal. rewrite (digits_S 7). destruct (Z.ltb_spec w 16); [cbn; lia|]. rewrite length_app.
  rewrite (digits_S 6). destruct (Z.ltb_spec (w / 16) 16); [cbn; lia|]. rewrite length_app.
  rewrite (digits_S 5). destruct (Z.ltb_spec (w / 16 / 16) 16); [cbn; lia|]. rewrite length_app.
  rewrite (digits_S 4). destruct (Z.ltb_spec (w / 16 / 16 / 16) 16); [cbn; lia|].
  assert (w / 16 / 16 / 16 < 16); [|lia]. repeat (apply Z.div_lt_upper_bound; [lia|]). lia.
Qed.

Lemma hex_nonzero fuel w : 0 <= w -> Forall (fun c => c <> 0) (digits fuel 16 w).
Proof.
  assert (Hd : forall d, 0 <= d -> digit_char d <> 0) by (intros d Hd; unfold digit_char; destruct (Z.ltb_spec d 10); lia).
  revert w. induction fuel as [|fuel IH]; intros w Hw; [constructor|]. cbn [digits].
  destruct (Z.ltb_spec w 16); [by repeat constructor; apply Hd|]. apply Forall_app. split; [apply IH; apply Z.div_pos; lia|].
  repeat constructor. apply Hd. by apply Z.mod_pos_bound.
Qed.

Lemma total_app ps ps' : total (ps ++ ps') = total ps + total ps'.
Proof. induction ps as [|p ps IH]; [done|]. unfold total in *. cbn [app foldr]. lia. Qed.

Lemma total_nonneg ps : 0 <= total ps.
Proof. induction ps as [|p ps IH]; [done|]. unfold total in *. cbn [foldr]. destruct p; cbn [weight]; lia. Qed.

(** A text followed by a zero has the length [strlen] finds. *)
Lemma strlen_text tmp (off : nat) text rest :
  drop off tmp = text ++ 0 :: rest -> Forall (fun c => c <> 0) text -> c_strlen tmp (Z.of_nat off) = Done (zlen text).
Proof.
  intros E Hnz. unfold c_strlen. destruct (Z.leb_spec 0 (Z.of_nat off)); [|lia]. rewrite Nat2Z.id, E. clear E.
  induction Hnz as [|c text Hc _ IH]; [done|]. cbn [app c_strlen_from]. rewrite (proj2 (Z.eqb_neq _ _) Hc), IH.
  cbn [fmap outcome_fmap length]. f_equal. lia.
Qed.

Section Address.
(** The sixteen bytes of an address. *)
Context (src : list Z) (Hlen : length src = 16%nat) (Hbytes : Forall is_byte src).

Definition byte_at (k : Z) : Z := default 0 (src !! Z.to_nat k).
Definition word_at (i : Z) : Z := byte_at (2 * i) * 256 + byte_at (2 * i + 1).
Definition words : list Z := map (fun i => word_at (Z.of_nat i)) (seq 0 8).
Definition flags : list bool := map (fun w => w =? 0) words.
Definition v4_text : list Z := dotted [byte_at 12; byte_at 13; byte_at 14; byte_at 15].

Definition render (p : piece) : list Z :=
  match p with PColon => [58] | PHex i => hexadecimal (word_at i) | PV4 => v4_text end.
Definition text_of (ps : list piece) : list Z := concat (map render ps).

Lemma byte_at_range k : is_byte (byte_at k).
Proof.
  unfold byte_at. destruct (src !! Z.to_nat k) eqn:E; cbn; [|done]. rewrite Forall_lookup in Hbytes. by apply (Hbytes _ _ E).
Qed.

Lemma word_at_range i : 0 <= word_at i < 2 ^ 16.
Proof. unfold word_at. pose proof (byte_at_range (2 * i)). pose proof (byte_at_range (2 * i + 1)). unfold is_byte in *. lia. Qed.

Lemma src_get k : 0 <= k < 16 -> buf_get src k = Done (byte_at k).
Proof.
  intros Hk. unfold buf_get, byte_at. destruct (Z.leb_spec 0 k); [|lia].
  destruct (lookup_lt_is_Some_2 src (Z.to_nat k) ltac:(lia)) as [x ->]. done.
Qed.

Lemma load_words_at n i : (0 <= i)%nat -> (i + n = 8)%nat ->
  load_words n src (2 * Z.of_nat i) = Done (map (fun i => word_at (Z.of_nat i)) (seq i n)).
Proof.
  revert i. induction n as [|n IH]; intros i _ Hi; [done|]. cbn [load_words seq map].
  rewrite !src_get by lia. cbn [mbind outcome_bind]. replace (2 * Z.of_nat i + 2) with (2 * Z.of_nat (S i)) by lia.
  rewrite IH by lia. cbn [mbind outcome_bind]. do 2 f_equal. rewrite Z.lor_0_l, Z.shiftl_0_r, Z.lor_comm.
  pose proof (byte_at_range (2 * Z.of_nat i + 1)) as Hb. unfold is_byte in Hb. rewrite lor_shiftl_add by lia. unfold word_at. lia.
Qed.

Lemma load_words_all : load_words 8 src 0 = Done words.
Proof. apply (load_words_at 8 0); lia. Qed.

Lemma words_get i : 0 <= i < 8 -> buf_get words i = Done (word_at i).
Proof.
  intros Hi. unfold words. replace i with (Z.of_nat (Z.to_nat i)) at 1 by lia. apply buf_get_run.
  rewrite list_lookup_fmap, lookup_seq_lt by lia. cbn. do 2 f_equal. lia.
Qed.

Lemma v4_bytes : Forall is_byte [byte_at 12; byte_at 13; byte_at 14; byte_at 15].
Proof. repeat constructor; apply byte_at_range. Qed.

Lemma render_length p : zlen (render p) <= weight p.
Proof.
  destruct p as [|i|]; cbn [render weight]; [cbn; lia|pose proof (hex_length (word_at i) (word_at_range i)); lia|].
  pose proof (dotted_length _ _ _ _ v4_bytes). unfold v4_text. lia.
Qed.

Lemma render_nonzero p : Forall (fun c => c <> 0) (render p).
Proof.
  destruct p as [|i|]; cbn [render]; [by repeat constructor| |apply dotted_nonzero, v4_bytes].
  apply hex_nonzero. apply word_at_range.
Qed.

Lemma text_length ps : zlen (text_of ps) <= total ps.
Proof.
  induction ps as [|p ps IH]; [done|]. unfold text_of in *. cbn [map concat total foldr]. rewrite length_app.
  pose proof (render_length p). unfold total in IH. lia.
Qed.

Lemma text_nonzero ps : Forall (fun c => c <> 0) (text_of ps).
Proof. induction ps as [|p ps IH]; [constructor|]. apply Forall_app. split; [apply render_nonzero|done]. Qed.

Lemma text_app ps ps' : text_of (ps ++ ps') = text_of ps ++ text_of ps'.
Proof. unfold text_of. by rewrite map_app, concat_app. Qed.

(** [tmp] begins with the text [t]. *)
Definition holds (tmp t : list Z) : Prop := length tmp = 46%nat /\ take (length t) tmp = t.

Lemma holds_write tmp t data more :
  holds tmp t -> zlen t + zlen data + zlen more <= 46 ->
  exists tmp', buf_put tmp (zlen t) (data ++ more) = Done tmp' /\ holds tmp' (t ++ data).
Proof.
  intros [Hl Ht] Hfit. rewrite buf_put_run by (rewrite ?length_app; lia). eexists. split; [done|]. rewrite Nat2Z.id.
  split; [rewrite overwrite_length; rewrite ?length_app; lia|].
  unfold overwrite. rewrite Ht, length_app. rewrite take_app_ge by lia. f_equal.
  replace (length t + length data - length t)%nat with (length data) by lia. rewrite <- app_assoc. apply take_app_length.
Qed.

Lemma holds_set tmp t c : holds tmp t -> zlen t < 46 -> exists tmp', buf_set tmp (zlen t) c = Done tmp' /\ holds tmp' (t ++ [c]).
Proof.
  intros Hh Hfit. destruct (holds_write tmp t [c] [] Hh) as (tmp' & E & Hh'); [cbn; lia|]. exists tmp'. split; [|done].
  cbn in E. by destruct (buf_set tmp (zlen t) c).
Qed.

Lemma encapsulated_run best i :
  encapsulated words best i = Done ((i =? 6) && prints_v4 best (word_at 7 =? 1) (word_at 5 =? 0xffff)).
Proof. unfold encapsulated, prints_v4. rewrite !words_get by lia. cbn [mbind outcome_bind]. by rewrite !andb_assoc. Qed.

(** An optional colon. *)
Lemma maybe_colon tmp t (b : bool) :
  holds tmp t -> zlen t + 1 <= 45 ->
  exists tmp', (if b then tmp' ← buf_set tmp (zlen t) 58; Done (tmp', zlen t + 1) else Done (tmp, zlen t)) =
      Done (tmp', zlen (t ++ if b then [58] else [])) /\ holds tmp' (t ++ if b then [58] else []).
Proof.
  intros Hh Hfit. destruct b; [|exists tmp; by rewrite app_nil_r].
  destruct (holds_set tmp t 58 Hh) as (tmp' & E & Hh'); [lia|]. exists tmp'. rewrite E. cbn [mbind outcome_bind].
  split; [|done]. do 2 f_equal. rewrite length_app. cbn. lia.
Qed.

Lemma text_colon (b : bool) ps : text_of ((if b then [PColon] else []) ++ ps) = (if b then [58] else []) ++ text_of ps.
Proof. by destruct b. Qed.

Lemma total_colon (b : bool) ps : total ((if b then [PColon] else []) ++ ps) = Z.b2z b + total ps.
Proof. destruct b; [|done]. unfold total. cbn [app foldr weight Z.b2z]. done. Qed.

Lemma length_colon (t : list Z) (b : bool) : zlen (t ++ if b then [58] else []) = zlen t + Z.b2z b.
Proof. rewrite length_app. destruct b; cbn [length Z.b2z]; lia. Qed.

(** The embedded IPv4 address. *)
Lemma format_v4 junk tmp t :
  holds tmp t -> zlen t + 15 <= 45 ->
  exists tmp', inet_ntop4 junk src 12 tmp (zlen t) (UV__INET6_ADDRSTRLEN - zlen t) = Done (0, tmp') /\
    c_strlen tmp' (zlen t) = Done (zlen v4_text) /\ holds tmp' (t ++ v4_text).
Proof.
  intros Hh Hfit. pose proof (dotted_length _ _ _ _ v4_bytes) as Hl4. destruct (Hh) as [Hl Ht].
  rewrite (inet_ntop4_spec junk src 12 (byte_at 12) (byte_at 13) (byte_at 14) (byte_at 15))
    by (try apply src_get; try apply v4_bytes; unfold UV__INET6_ADDRSTRLEN; lia).
  fold v4_text in Hl4 |- *. unfold UV__INET6_ADDRSTRLEN. destruct (Z.leb_spec (46 - zlen t) (zlen v4_text)); [lia|].
  rewrite Nat2Z.id. eexists. split; [done|].
  destruct (holds_write tmp t v4_text [0] Hh) as (tmp' & E & Hh'); [change (length [0]) with 1%nat; lia|].
  rewrite buf_put_run, Nat2Z.id in E by (rewrite ?length_app; change (length [0]) with 1%nat; lia). injection E as <-. split; [|done].
  eapply strlen_text; [|apply dotted_nonzero, v4_bytes].
  unfold overwrite. rewrite drop_app_length' by (rewrite length_take; lia). rewrite <- app_assoc. done.
Qed.

(** The formatting loop writes the text of the pieces. *)
Lemma format_spec junk best v4 n :
  v4 = prints_v4 best (word_at 7 =? 1) (word_at 5 =? 0xffff) ->
  forall i tmp t,
  0 <= i -> i + Z.of_nat n = 8 -> holds tmp t -> zlen t + total (pieces n best v4 i) <= 44 ->
  exists tmp', format_words junk n src words best i tmp (zlen t) =
      Done (0, tmp', zlen (t ++ text_of (pieces n best v4 i))) /\
    holds tmp' (t ++ text_of (pieces n best v4 i)).
Proof.
  intros Hv4. induction n as [|n IH]; intros i tmp t Hi Hn Hh Hfit; cbn [format_words pieces] in *; [exists tmp; by rewrite app_nil_r|].
  fold (in_run best i). destruct (in_run best i).
  - rewrite total_colon in Hfit. pose proof (total_nonneg (pieces n best v4 (i + 1))).
    destruct (maybe_colon tmp t (i =? base best) Hh) as (tmp1 & E & Hh1); [lia|].
    rewrite E. cbn [mbind outcome_bind]. rewrite text_colon, app_assoc. apply IH; [lia|lia|done|]. rewrite length_colon. lia.
  - rewrite total_colon in Hfit.
    destruct (maybe_colon tmp t (negb (i =? 0)) Hh) as (tmp1 & E & Hh1).
    { match type of Hfit with _ + (_ + total ?ps) <= _ => pose proof (total_nonneg ps) end. lia. }
    rewrite E. cbn [mbind outcome_bind]. rewrite encapsulated_run. rewrite <- Hv4. cbn [mbind outcome_bind]. rewrite text_colon, app_assoc.
    pose proof (length_colon t (negb (i =? 0))) as Ht1. set (t1 := t ++ if negb (i =? 0) then [58] else []) in *.
    assert (Hfit1 : zlen t1 + total (if (i =? 6) && v4 then [PV4] else PHex i :: pieces n best v4 (i + 1)) <= 44) by lia.
    clearbody t1. clear E Hh Hfit Ht1 tmp t. destruct ((i =? 6) && v4).
    + destruct (format_v4 junk tmp1 t1 Hh1) as (tmp2 & -> & El & Hh2); [change (total [PV4]) with 15 in Hfit1; lia|].
      cbn [mbind outcome_bind negb Z.eqb]. rewrite El. cbn [mbind outcome_bind]. exists tmp2. unfold text_of. cbn [map concat render].
      rewrite app_nil_r. split; [|done]. rewrite length_app. do 3 f_equal. lia.
    + rewrite words_get by lia. cbn [mbind outcome_bind]. unfold c_sprintf.
      pose proof (total_nonneg (pieces n best v4 (i + 1))).
      assert (Hw : zlen t1 + 4 + total (pieces n best v4 (i + 1)) <= 44) by (unfold total in *; cbn [foldr weight] in Hfit1; lia).
      pose proof (hex_length (word_at i) (word_at_range i)) as Hhex.
      destruct (holds_write tmp1 t1 (hexadecimal (word_at i)) [0] Hh1) as (tmp2 & E & Hh2); [change (length [0]) with 1%nat; lia|].
      rewrite E. cbn [mbind outcome_bind]. replace (zlen t1 + zlen (hexadecimal (word_at i))) with (zlen (t1 ++ hexadecimal (word_at i)))
        by (rewrite length_app; lia).
      destruct (IH (i + 1) tmp2 (t1 ++ hexadecimal (word_at i))) as (tmp3 & E3 & Hh3); [lia|lia|done|rewrite length_app; lia|].
      exists tmp3. rewrite E3. unfold text_of in *. cbn [map concat render]. rewrite <- app_assoc in E3, Hh3 |- *. done.
Qed.

(** ** What inet_ntop6 prints *)

(** [holds] after the terminator is written. *)
Lemma holds_zero tmp t : holds tmp (t ++ [0]) -> exists rest, tmp = t ++ 0 :: rest.
Proof.
  intros [_ Ht]. exists (drop (length (t ++ [0])) tmp). rewrite <- (take_drop (length (t ++ [0])) tmp) at 1. rewrite Ht, <- app_assoc. done.
Qed.

Lemma text_to_end n best v4 :
  text_of (pieces_to_end n best v4) = text_of (pieces n best v4 0) ++ if run_at_end best then [58] else [].
Proof. unfold pieces_to_end. rewrite text_app. by destruct (run_at_end best). Qed.

Lemma total_to_end n best v4 : total (pieces n best v4 0) <= total (pieces_to_end n best v4).
Proof. unfold pieces_to_end. rewrite total_app. pose proof (total_nonneg (if run_at_end best then [PColon] else [])). lia. Qed.

(** What [inet_ntop6] does with a text. *)
Definition ntop6_outcome (text dst : list Z) (size : Z) : outcome (Z * list Z) :=
  if zlen text <? size then Done (0, overwrite dst 0 (text ++ [0]))
  else if size =? 0 then Done (0, dst)
  else Done (UV_ENOSPC, overwrite dst 0 (take (Z.to_nat size - 1) text ++ [0])).

Lemma copy_out text rest dst size :
  Forall (fun c => c <> 0) text -> zlen text <= 44 -> 0 <= size <= zlen dst ->
  ('(r, dst') ← uv__strscpy dst 0 (text ++ 0 :: rest) size; Done (if r =? UV_E2BIG then UV_ENOSPC else 0, dst')) = ntop6_outcome text dst size.
Proof.
  intros Hnz Hl Hs. unfold ntop6_outcome. destruct (Z.ltb_spec (zlen text) size).
  - rewrite strscpy_fits by (done || unfold SSIZE_MAX; lia). cbn [mbind outcome_bind].
    destruct (Z.eqb_spec (zlen text) UV_E2BIG); [unfold UV_E2BIG in *; lia|done].
  - rewrite strscpy_cut by (done || lia). by destruct (size =? 0).
Qed.

Lemma format_all junk best v4 ps tmp :
  v4 = prints_v4 best (word_at 7 =? 1) (word_at 5 =? 0xffff) -> ps = pieces_to_end 8 best v4 -> total ps <= 44 -> length tmp = 46%nat ->
  exists t0 tmp', format_words junk 8 src words best 0 tmp 0 = Done (0, tmp', zlen t0) /\
    holds tmp' t0 /\ zlen t0 <= 44 /\ text_of ps = t0 ++ if run_at_end best then [58] else [].
Proof.
  intros Hv4 -> Htot Hl. pose proof (total_to_end 8 best v4). rewrite (text_to_end 8). exists (text_of (pieces 8 best v4 0)).
  destruct (format_spec junk best v4 8 Hv4 0 tmp []) as (tmp' & E & Hh); [lia|lia|done|change (zlen []) with 0; lia|].
  exists tmp'. split; [exact E|]. split; [exact Hh|]. split; [|done]. pose proof (text_length (pieces 8 best v4 0)). lia.
Qed.

Lemma inet_ntop6_run junk best v4 ps dst size :
  best_run words = best -> v4 = prints_v4 best (word_at 7 =? 1) (word_at 5 =? 0xffff) -> ps = pieces_to_end 8 best v4 -> total ps <= 44 ->
  0 <= size <= zlen dst -> inet_ntop6 junk src dst size = ntop6_outcome (text_of ps) dst size.
Proof.
  intros Hbest Hv4 Hps Htot Hsize.
  destruct (format_all junk best v4 ps (local_array UV__INET6_ADDRSTRLEN junk) Hv4 Hps Htot eq_refl) as (t0 & tmp & E & Hh & Ht0 & Htext).
  pose proof (text_length ps) as Hlt. pose proof (text_nonzero ps) as Hnz.
  destruct (maybe_colon tmp t0 (run_at_end best) Hh) as (tmp1 & E1 & Hh1); [lia|]. rewrite <- Htext in *.
  destruct (holds_set tmp1 (text_of ps) 0 Hh1) as (tmp2 & E2 & Hh2); [lia|]. destruct (holds_zero _ _ Hh2) as [rest ->].
  eapply outcome_step; [exact load_words_all|]. cbv beta zeta. rewrite Hbest.
  eapply outcome_step; [exact E|]. cbn [negb Z.eqb].
  eapply outcome_step; [exact E1|]. eapply outcome_step; [exact E2|]. apply copy_out; done || lia.
Qed.

(** The text is that of pieces which [inet_pton6] reads back. *)
Lemma inet_ntop6_spec :
  exists ps, pieces_ok flags ps = true /\
    forall junk dst size, 0 <= size <= zlen dst -> inet_ntop6 junk src dst size = ntop6_outcome (text_of ps) dst size.
Proof.
  pose proof (case_words words (word_at 7 =? 1) (word_at 5 =? 0xffff) (length_map _ _)) as Hok.
  remember (best_run words) as best eqn:Hbest. remember (prints_v4 best (word_at 7 =? 1) (word_at 5 =? 0xffff)) as v4 eqn:Hv4.
  remember (pieces_to_end 8 best v4) as ps eqn:Hps. exists ps. split; [exact Hok|]. intros junk dst size Hs.
  apply (inet_ntop6_run junk best v4 ps dst size (eq_sym Hbest) Hv4 Hps); [apply (pieces_ok_spec _ _ Hok)|done].
Qed.
End Address.
