(* ===== verification/UvInet6Read.v ===== *)
(** * UvInet6Read: inet_pton6 on the text inet_ntop6 prints.

    The loop of [inet_pton6] is simulated by [abs_run] of UvInet6: the bytes
    it has stored are those the codes of the abstract run name. *)

From Stdlib Require Import ZifyBool.
From stdpp Require Import base tactics numbers list gmap strings.
From S2P Require Import Prelude UvCommon UvInet UvInetSpec UvInet6.
Open Scope Z_scope.

(** ** Characters *)

Lemma digit_char_read d : 0 <= d < 16 -> c_strchr xdigits_l (digit_char d) = Some d.
Proof.
  intros Hd. assert (d = 0 \/ d = 1 \/ d = 2 \/ d = 3 \/ d = 4 \/ d = 5 \/ d = 6 \/ d = 7 \/ d = 8 \/ d = 9 \/ d = 10 \/
    d = 11 \/ d = 12 \/ d = 13 \/ d = 14 \/ d = 15) as Hc by lia.
  by destruct_or! Hc; subst.
Qed.

Lemma digit_char_range d : 0 <= d < 16 -> 48 <= digit_char d /\ digit_char d <> 58.
Proof. unfold digit_char. destruct (Z.ltb_spec d 10); lia. Qed.

Definition letter (c : Z) : Prop := 46 <= c /\ c <> 58.

Lemma digits_letters fuel base n : 2 <= base <= 16 -> 0 <= n -> Forall letter (digits fuel base n).
Proof.
  intros Hbase. revert n. induction fuel as [|fuel IH]; intros n Hn; [constructor|]. rewrite digits_S.
  assert (Hd : forall d, 0 <= d < base -> letter (digit_char d)) by (intros d Hd; pose proof (digit_char_range d); unfold letter; lia).
  destruct (Z.ltb_spec n base); [by repeat constructor; apply Hd|]. apply Forall_app. split; [apply IH, Z.div_pos; lia|].
  repeat constructor; apply Hd, Z.mod_pos_bound; lia.
Qed.

Lemma dotted_letters bs : Forall is_byte bs -> Forall letter (dotted bs).
Proof.
  intros Hbs. destruct bs as [|a [|b [|c [|d [|]]]]]; try constructor. rewrite !Forall_cons in Hbs. destruct Hbs as (Ha & Hb & Hc & Hd & _).
  unfold dotted, octet_dot, decimal, is_byte in *. rewrite !Forall_app.
  split_and!; try (apply digits_letters; lia); repeat constructor; lia.
Qed.

(** One hexadecimal digit. *)
Lemma read_digit junk d src curtok x :
  0 <= d < 16 -> 0 <= p_val x < 2 ^ 12 -> p_seen x < 4 ->
  pton6_loop junk (digit_char d :: src) curtok x =
    pton6_loop junk src curtok (Pton6 (p_tmp x) (p_tp x) (p_colonp x) (p_seen x + 1) (p_val x * 16 + d)).
Proof.
  intros Hd Hv Hs. cbn [pton6_loop]. pose proof (digit_char_range d Hd). destruct (Z.eqb_spec (digit_char d) 0); [lia|].
  rewrite digit_char_read by done. destruct (Z.ltb_spec 4 (p_seen x + 1)); [lia|]. do 2 f_equal.
  rewrite u32_small by (rewrite Z.shiftl_mul_pow2 by lia; lia). rewrite Z.lor_comm, lor_shiftl_add by lia. lia.
Qed.

(** A number in hexadecimal. *)
Lemma read_hex junk fuel : forall w tail curtok tmp tp colonp,
  0 <= w < 2 ^ 16 -> w < 16 ^ Z.of_nat fuel -> (length (digits fuel 16 w) <= 4)%nat ->
  pton6_loop junk (digits fuel 16 w ++ tail) curtok (Pton6 tmp tp colonp 0 0) =
    pton6_loop junk tail curtok (Pton6 tmp tp colonp (zlen (digits fuel 16 w)) w).
Proof.
  induction fuel as [|fuel IH]; intros w tail curtok tmp tp colonp Hw Hf Hl; [change (16 ^ Z.of_nat 0) with 1 in Hf; by assert (w = 0) as -> by lia|].
  rewrite digits_S in *. destruct (Z.ltb_spec w 16) as [Hlt|Hge].
  - cbn [app length]. rewrite read_digit by (cbn; lia). cbn [p_tmp p_tp p_colonp p_seen p_val]. done.
  - rewrite length_app in Hl. cbn [length] in Hl. pose proof (Z.mod_pos_bound w 16 ltac:(lia)). pose proof (Z.div_mod w 16 ltac:(lia)).
    replace (Z.of_nat (S fuel)) with (Z.of_nat fuel + 1) in Hf by lia. rewrite Z.pow_add_r in Hf by lia.
    rewrite <- app_assoc. cbn [app]. rewrite IH by lia. rewrite read_digit by (cbn [p_val p_seen]; lia).
    cbn [p_tmp p_tp p_colonp p_seen p_val]. do 2 f_equal; [rewrite length_app; cbn [length]; lia|lia].
Qed.

(** Decimal digits are read as hexadecimal ones. *)
Lemma read_decimal junk ds : forall tail curtok x,
  Forall is_digit ds -> 0 <= p_val x < 16 ^ p_seen x -> 0 <= p_seen x -> p_seen x + zlen ds <= 3 ->
  exists v, pton6_loop junk (ds ++ tail) curtok x =
    pton6_loop junk tail curtok (Pton6 (p_tmp x) (p_tp x) (p_colonp x) (p_seen x + zlen ds) v).
Proof.
  induction ds as [|c ds IH]; intros tail curtok x Hds Hv Hs Hl.
  { exists (p_val x). rewrite Z.add_0_r. by destruct x. }
  apply Forall_cons in Hds as [Hc Hds]. unfold is_digit in Hc. cbn [length] in Hl.
  assert (Hpow : 16 ^ p_seen x <= 16 ^ 3) by (apply Z.pow_le_mono_r; lia). change (16 ^ 3) with (2 ^ 12) in Hpow.
  replace c with (digit_char (c - 48)) by (unfold digit_char; destruct (Z.ltb_spec (c - 48) 10); lia).
  cbn [app]. rewrite read_digit by lia.
  destruct (IH tail curtok (Pton6 (p_tmp x) (p_tp x) (p_colonp x) (p_seen x + 1) (p_val x * 16 + (c - 48))) Hds) as [v E];
    cbn [p_tmp p_tp p_colonp p_seen p_val] in *; [rewrite Z.pow_add_r by lia; lia|lia|lia|].
  exists v. rewrite E. do 2 f_equal. cbn [length]. lia.
Qed.

Lemma inet_pton4_dotted junk bs rest dst off :
  length bs = 4%nat -> Forall is_byte bs -> 0 <= off -> off + 4 <= zlen dst ->
  inet_pton4 junk (dotted bs ++ 0 :: rest) dst off = Done (0, overwrite dst (Z.to_nat off) bs).
Proof.
  intros Hl Hb Hoff Hd. destruct bs as [|a [|b [|c [|d [|]]]]]; try done. rewrite !Forall_cons in Hb. destruct Hb as (Ha & Hb & Hc & Hdd & _).
  eapply outcome_step; [reflexivity|]. eapply outcome_step; [by apply (pton4_dotted junk)|]. cbn [Z.ltb Z.compare].
  unfold c_memcpy. by rewrite buf_put_run by (cbn; lia).
Qed.

(** Only in-bounds writes succeed. *)
Lemma put_fits b data : forall d i d', buf_put d i (b :: data) = Done d' -> 0 <= i /\ i + zlen (b :: data) <= zlen d.
Proof.
  revert b. induction data as [|c data IH]; intros b d i d' E;
    apply bind_Done in E as (d1 & E1 & E); unfold buf_set in E1; destruct ((0 <=? i) && (i <? zlen d)) eqn:Ei; try discriminate E1.
  - cbn [length]. lia.
  - injection E1 as <-. destruct (IH c _ _ _ E) as [_ H]. rewrite length_insert in H. cbn [length] in *. lia.
Qed.

(** ** The simulation *)

Section Read.
Context (junk : Z) (src : list Z) (Hlen : length src = 16%nat) (Hbytes : Forall is_byte src).

(** The byte a code names. *)
Definition ev (c : Z) : Z := if c =? 0 then 0 else byte_at src (c - 1).

Lemma get_map tmp i : buf_get (map ev tmp) i = ev <$> buf_get tmp i.
Proof. unfold buf_get. destruct (0 <=? i); [|done]. rewrite list_lookup_fmap. by destruct (tmp !! Z.to_nat i). Qed.

Lemma set_map tmp i v : buf_set (map ev tmp) i (ev v) = map ev <$> buf_set tmp i v.
Proof. unfold buf_set. rewrite length_map. destruct (_ && _); [|done]. cbn. f_equal. symmetry. apply list_fmap_insert. Qed.

Lemma put_map data : forall tmp i, buf_put (map ev tmp) i (map ev data) = map ev <$> buf_put tmp i data.
Proof.
  induction data as [|c data IH]; intros tmp i; [done|]. cbn [map buf_put]. rewrite set_map.
  destruct (buf_set tmp i c); [|done..]. cbn. apply IH.
Qed.

Lemma shift_map k : forall tmp c n i, shift_tail k (map ev tmp) c n i = map ev <$> shift_tail k tmp c n i.
Proof.
  induction k as [|k IH]; intros tmp c n i; [done|]. cbn [shift_tail]. rewrite get_map.
  destruct (buf_get tmp (c + (n - i))) as [v| |]; [|done..]. cbn [fmap outcome_fmap mbind outcome_bind]. rewrite set_map.
  destruct (buf_set tmp (endp - i) v) as [tmp1| |]; [|done..]. cbn [fmap outcome_fmap mbind outcome_bind].
  change 0 with (ev 0) at 1. rewrite set_map. destruct (buf_set tmp1 (c + (n - i)) 0) as [tmp2| |]; [|done..]. apply IH.
Qed.

Lemma put_word_map tmp tp i tmp' :
  abs_put tmp tp i = Done tmp' -> put_word (map ev tmp) tp (word_at src i) = Done (map ev tmp').
Proof.
  unfold abs_put, put_word. destruct (Z.ltb_spec i 0) as [|Hi]; [done|]. intros E.
  pose proof (byte_at_range src Hbytes (2 * i)) as Hhi. pose proof (byte_at_range src Hbytes (2 * i + 1)) as Hlo. unfold is_byte in *.
  assert (Z.land (u8 (Z.shiftr (word_at src i) 8)) 255 = ev (2 * i + 1)) as ->.
  { unfold word_at. rewrite Z.shiftr_div_pow2, Z.div_add_l, Z.div_small, Z.add_0_r by lia. rewrite u8_small by lia.
    change 255 with (Z.ones 8). rewrite Z.land_ones, Z.mod_small by lia. unfold ev. destruct (Z.eqb_spec (2 * i + 1) 0); [lia|]. f_equal. lia. }
  assert (Z.land (u8 (word_at src i)) 255 = ev (2 * i + 2)) as ->.
  { unfold word_at, u8, wrap. rewrite Z.add_comm, Z.mod_add, Z.mod_small by lia. change 255 with (Z.ones 8).
    rewrite Z.land_ones, Z.mod_small by lia. unfold ev. destruct (Z.eqb_spec (2 * i + 2) 0); [lia|]. f_equal. lia. }
  rewrite set_map. apply bind_Done in E as (tmp1 & -> & E). cbn [fmap outcome_fmap mbind outcome_bind]. by rewrite set_map, E.
Qed.

(** The loop's state and the abstract one; at the end of the text and before
    it. *)
Record final_sim (x : pton6_state) (a : abs) : Prop := FinalSim {
  fs_tmp : p_tmp x = map ev (a_tmp a);
  fs_tp : p_tp x = a_tp a;
  fs_colonp : p_colonp x = a_colonp a;
  fs_seen : (p_seen x =? 0) = bool_decide (a_word a = None);
  fs_val i : a_word a = Some i -> p_val x = word_at src i;
}.

Definition sim (x : pton6_state) (a : abs) : Prop :=
  final_sim x a /\ (a_word a = None -> p_val x = 0 /\ p_seen x = 0).

Lemma sim_hex i tail curtok x a :
  sim x a -> a_word a = None ->
  exists x', pton6_loop junk (hexadecimal (word_at src i) ++ tail) curtok x = pton6_loop junk tail curtok x' /\
    sim x' (Abs (a_tmp a) (a_tp a) (a_colonp a) (Some i)).
Proof.
  intros [[Et Ep Ec Es Ev] Hnone] Hw. destruct (Hnone Hw) as [Hv Hs]. destruct x as [tmp tp colonp seen val]. cbn [p_tmp p_tp p_colonp p_seen p_val] in *. subst.
  pose proof (word_at_range src Hlen Hbytes i) as Hr. pose proof (hex_length (word_at src i) Hr) as Hl.
  eexists. split; [apply (read_hex junk 8); [done|change (Z.of_nat 8) with 8; lia|apply Hl]|].
  split; [|done]. split; cbn [p_tmp p_tp p_colonp p_seen p_val a_tmp a_tp a_colonp a_word]; try done; [|by intros ? [= ->]]. rewrite bool_decide_false by done. apply Z.eqb_neq.
  fold (hexadecimal (word_at src i)). lia.
Qed.

Lemma sim_first_colon tail curtok x a :
  sim x a -> a_word a = None -> a_colonp a = None ->
  exists x', pton6_loop junk (58 :: tail) curtok x = pton6_loop junk tail tail x' /\
    sim x' (Abs (a_tmp a) (a_tp a) (Some (a_tp a)) None).
Proof.
  intros [[Et Ep Ec Es Ev] Hnone] Hw Hc. destruct (Hnone Hw) as [Hv Hs]. destruct x as [tmp tp colonp seen val]. cbn [p_tmp p_tp p_colonp p_seen p_val] in *. subst.
  rewrite Hc in *. eexists. split; [reflexivity|]. split; done.
Qed.

Lemma sim_next_colon i tail c tmp' curtok x a :
  sim x a -> a_word a = Some i -> head tail = Some c -> c <> 0 -> a_tp a + 2 <= endp -> abs_put (a_tmp a) (a_tp a) i = Done tmp' ->
  exists x', pton6_loop junk (58 :: tail) curtok x = pton6_loop junk tail tail x' /\
    sim x' (Abs tmp' (a_tp a + 2) (a_colonp a) None).
Proof.
  intros [[Et Ep Ec Es Ev] Hnone] Hw Hh Hc Hfit E. rewrite Hw in *. specialize (Ev i eq_refl).
  rewrite bool_decide_false in Es by done. destruct x as [tmp tp colonp seen val]. cbn [p_tmp p_tp p_colonp p_seen p_val] in *. subst.
  exists (Pton6 (map ev tmp') (a_tp a + 2) (a_colonp a) 0 0). split; [|split; [split|]; done].
  cbn [pton6_loop Z.eqb Pos.eqb]. change (c_strchr xdigits_l 58) with (@None Z). change (c_strchr xdigits_u 58) with (@None Z).
  cbn [p_tmp p_tp p_colonp p_seen p_val]. rewrite Es, Hh. cbn [demand mbind outcome_bind]. rewrite (proj2 (Z.eqb_neq _ _) Hc).
  destruct (Z.ltb_spec endp (a_tp a + 2)); [lia|]. by rewrite (put_word_map _ _ _ _ E).
Qed.

Lemma sim_v4 rest tmp' x a :
  sim x a -> a_word a = None -> a_tp a + 4 <= endp -> buf_put (a_tmp a) (a_tp a) [13; 14; 15; 16] = Done tmp' ->
  exists x', pton6_loop junk (v4_text src ++ 0 :: rest) (v4_text src ++ 0 :: rest) x = Done (Some x') /\
    final_sim x' (Abs tmp' (a_tp a + 4) (a_colonp a) None).
Proof.
  intros [[Et Ep Ec Es Ev] Hnone] Hw Hfit E. destruct (Hnone Hw) as [Hv Hs]. destruct x as [tmp tp colonp seen val].
  cbn [p_tmp p_tp p_colonp p_seen p_val] in *. subst.
  pose proof (v4_bytes src Hbytes) as Hb4. pose proof (f_equal (fun o => map ev <$> o) E) as E'. cbn beta in E'.
  rewrite <- put_map in E'. change (map ev [13; 14; 15; 16]) with [byte_at src 12; byte_at src 13; byte_at src 14; byte_at src 15] in E'.
  set (bs := [byte_at src 12; byte_at src 13; byte_at src 14; byte_at src 15]) in *.
  assert (Hp4 : inet_pton4 junk (v4_text src ++ 0 :: rest) (map ev (a_tmp a)) (a_tp a) = Done (0, map ev tmp')).
  { destruct (put_fits _ _ _ _ _ E) as [Hoff Hend]. cbn [length] in Hend.
    unfold v4_text. fold bs. rewrite inet_pton4_dotted by (try done; rewrite ?length_map; unfold endp in *; lia).
    rewrite buf_put_run in E' by (rewrite ?length_map; subst bs; cbn [length]; lia). cbn in E'; by injection E' as ->. }
  unfold v4_text at 1, dotted, octet_dot at 1. rewrite <- !app_assoc.
  apply Forall_cons in Hb4 as [H12 _]. destruct (decimal_chars (byte_at src 12) H12) as [Hch Hln].
  edestruct (fun tail curtok => read_decimal junk (decimal (byte_at src 12)) tail curtok
    (Pton6 (map ev (a_tmp a)) (a_tp a) (a_colonp a) 0 0) Hch) as [v Ev']; [cbn; lia|cbn; lia|cbn [p_seen]; lia|rewrite Ev'].
  cbn [p_tmp p_tp p_colonp p_seen p_val app pton6_loop Z.eqb Pos.eqb]. 
  replace (c_strchr xdigits_l 46) with (@None Z) by done. replace (c_strchr xdigits_u 46) with (@None Z) by done.
  cbn [andb]. destruct (Z.leb_spec (a_tp a + 4) endp); [|lia]. rewrite Hp4. cbn [mbind outcome_bind Z.eqb].
  eexists. split; [reflexivity|]. split; done.
Qed.

Lemma render_letters p : p <> PColon -> Forall letter (render src p) /\ render src p <> [].
Proof.
  destruct p as [|i|]; intros Hp; [done| |]; cbn [render].
  - pose proof (word_at_range src Hlen Hbytes i) as Hr. pose proof (hex_length _ Hr) as Hl. split; [apply digits_letters; lia|].
    intros E. rewrite E in Hl. cbn in Hl. lia.
  - pose proof (v4_bytes src Hbytes) as Hb. pose proof (dotted_length _ _ _ _ Hb) as Hl. split; [by apply dotted_letters|].
    intros E. unfold v4_text in E. rewrite E in Hl. cbn in Hl. lia.
Qed.

Lemma text_head p ps rest : exists c, head (text_of src (p :: ps) ++ rest) = Some c /\ c <> 0 /\ (p <> PColon -> c <> 58).
Proof.
  unfold text_of. cbn [map concat]. destruct (decide (p = PColon)) as [->|Hp]; [by exists 58|].
  destruct (render_letters p Hp) as [Hl Hne]. destruct (render src p) as [|c t]; [done|]. exists c. split; [done|].
  apply Forall_cons in Hl as [[] _]. lia.
Qed.

Lemma text_cons p ps rest : text_of src (p :: ps) ++ rest = render src p ++ (text_of src ps ++ rest).
Proof. unfold text_of. cbn [map concat]. by rewrite app_assoc. Qed.

(** The loop on the text of pieces. *)
Lemma sim_run rest ps : forall curtok x a a',
  sim x a -> (a_word a = None -> curtok = text_of src ps ++ 0 :: rest) -> abs_run ps a = Done (Some a') ->
  exists x', pton6_loop junk (text_of src ps ++ 0 :: rest) curtok x = Done (Some x') /\ final_sim x' a'.
Proof.
  induction ps as [|p ps IH]; intros curtok x a a' Hsim Hcur E.
  { cbn [abs_run] in E. injection E as <-. exists x. split; [done|apply Hsim]. }
  rewrite text_cons in *. destruct p as [|i|]; cbn [abs_run render] in *.
  - destruct (a_word a) as [i|] eqn:Hw.
    + destruct (bool_decide (ps = []) || (endp <? a_tp a + 2)) eqn:Eg; [done|]. apply orb_false_iff in Eg as [Hne Hfit].
      apply bool_decide_eq_false in Hne. apply bind_Done in E as (tmp' & Eput & E).
      destruct ps as [|p ps]; [done|]. destruct (text_head p ps (0 :: rest)) as (c & Hh & Hc & _).
      destruct (sim_next_colon i (text_of src (p :: ps) ++ 0 :: rest) c tmp' curtok x a Hsim Hw Hh Hc ltac:(lia) Eput) as (x' & Ex & Hsim').
      cbn [app]. rewrite Ex. by apply (IH _ x' _ a' Hsim').
    + destruct (a_colonp a) eqn:Hc; [done|].
      destruct (sim_first_colon (text_of src ps ++ 0 :: rest) curtok x a Hsim Hw Hc) as (x' & Ex & Hsim').
      cbn [app]. rewrite Ex. by apply (IH _ x' _ a' Hsim').
  - destruct (a_word a) as [j|] eqn:Hw; [done|].
    destruct (sim_hex i (text_of src ps ++ 0 :: rest) curtok x a Hsim Hw) as (x' & Ex & Hsim'). rewrite Ex.
    assert (E' : abs_run ps (Abs (a_tmp a) (a_tp a) (a_colonp a) (Some i)) = Done (Some a')) by (by destruct ps as [|[] ps]).
    by apply (IH _ x' _ a' Hsim').
  - destruct (bool_decide (ps = []) && (a_tp a + 4 <=? endp) && bool_decide (a_word a = None)) eqn:Eg; [|done].
    rewrite !andb_true_iff, !bool_decide_eq_true in Eg. destruct Eg as [[-> Hfit] Hw].
    apply bind_Done in E as (tmp' & Eput & E). injection E as <-. rewrite (Hcur Hw).
    apply (sim_v4 rest tmp' x a Hsim Hw ltac:(lia) Eput).
Qed.

(** The bytes in their place are the address. *)
Lemma in_place_src codes :
  length codes = 16%nat -> (forall k c, codes !! k = Some c -> in_place (flags src) k c = true) -> map ev codes = src.
Proof.
  intros Hl Hin. apply list_eq. intros k. rewrite list_lookup_fmap. destruct (codes !! k) as [c|] eqn:Hk; cbn [fmap option_fmap option_map].
  2: { symmetry. apply lookup_ge_None. apply lookup_ge_None in Hk. lia. }
  pose proof (lookup_lt_Some _ _ _ Hk) as Hlt. destruct (lookup_lt_is_Some_2 src k ltac:(lia)) as [b Hb].
  assert (Hbk : byte_at src (Z.of_nat k) = b) by (unfold byte_at; by rewrite Nat2Z.id, Hb). rewrite Hb. f_equal.
  specialize (Hin k c Hk). unfold in_place in Hin. apply orb_true_iff in Hin as [Hc|Hz].
  - apply Z.eqb_eq in Hc as ->. unfold ev. destruct (Z.eqb_spec (Z.of_nat k + 1) 0); [lia|]. rewrite <- Hbk. f_equal. lia.
  - apply andb_true_iff in Hz as [Hc Hz]. apply Z.eqb_eq in Hc as ->. change (ev 0) with 0.
    unfold flags, words in Hz. rewrite !list_lookup_fmap in Hz. pose proof (Nat.div2_odd k) as Hodd.
    rewrite lookup_seq_lt in Hz by (destruct (Nat.odd k); cbn in Hodd; lia). cbn in Hz. apply Z.eqb_eq in Hz. unfold word_at in Hz.
    pose proof (byte_at_range src Hbytes (2 * Z.of_nat (Nat.div2 k))) as H0. pose proof (byte_at_range src Hbytes (2 * Z.of_nat (Nat.div2 k) + 1)) as H1.
    unfold is_byte in *. assert (Z.of_nat k = 2 * Z.of_nat (Nat.div2 k) \/ Z.of_nat k = 2 * Z.of_nat (Nat.div2 k) + 1) as [E|E]
      by (destruct (Nat.odd k); cbn in Hodd; lia); rewrite E in Hbk; lia.
Qed.

(** What is done after the loop. *)
Lemma finish_run x a codes dst :
  final_sim x a -> abs_finish a = Done (Some codes) -> length codes = 16%nat -> 16 <= zlen dst ->
  pton6_finish x dst = Done (0, overwrite dst 0 (map ev codes)).
Proof.
  intros [Et Ep Ec Es Ev] E Hl Hd. unfold abs_finish in E. apply bind_Done in E as ([tmp tp] & Eput & E).
  assert (negb (p_seen x =? 0) && (endp <? p_tp x + 2) = false /\
    (if negb (p_seen x =? 0) then tmp ← put_word (p_tmp x) (p_tp x) (p_val x); Done (tmp, p_tp x + 2) else Done (p_tmp x, p_tp x)) =
      Done (map ev tmp, tp)) as [Eguard Eword].
  { rewrite Es, Et, Ep. destruct (a_word a) as [i|]; [|rewrite bool_decide_true by done; cbn; by injection Eput as -> ->].
    rewrite bool_decide_false by done. cbn [negb andb]. apply bind_Done in Eput as (tmp1 & Eput & E1). injection E1 as -> <-.
    rewrite (bool_decide_true (is_Some _)) in E by done. cbn [andb] in E. destruct (Z.ltb_spec endp (a_tp a + 2)); [done|].
    split; [done|]. rewrite (Ev i eq_refl), (put_word_map _ _ _ _ Eput). done. }
  unfold pton6_finish. rewrite Eguard. eapply outcome_step; [exact Eword|]. cbv beta iota. rewrite Ec.
  destruct (bool_decide (is_Some (a_word a)) && (endp <? tp)); [done|].
  assert (Hcopy : c_memcpy dst 0 (map ev codes) = Done (overwrite dst 0 (map ev codes)))
    by (unfold c_memcpy; rewrite buf_put_run by (rewrite ?length_map; lia); done).
  destruct (a_colonp a) as [c|].
  - destruct (tp =? endp); [done|]. destruct (shift_tail (Z.to_nat (tp - c)) tmp c (tp - c) 1) as [codes'| |] eqn:Esh; try done.
    injection E as ->. cbv zeta. rewrite shift_map, Esh. cbn [fmap outcome_fmap mbind outcome_bind]. by rewrite Hcopy.
  - destruct (tp =? endp); [|done]. injection E as ->. cbn [negb]. by rewrite Hcopy.
Qed.

Lemma pieces_read ps rest a codes dst :
  abs_run ps (Abs (replicate 16 0) 0 None None) = Done (Some a) -> abs_finish a = Done (Some codes) -> length codes = 16%nat ->
  16 <= zlen dst ->
  (r ← pton6_loop junk (text_of src ps ++ 0 :: rest) (text_of src ps ++ 0 :: rest) (Pton6 (local_array 16 0) 0 None 0 0);
   match r with None => Done (UV_EINVAL, dst) | Some x => pton6_finish x dst end) = Done (0, overwrite dst 0 (map ev codes)).
Proof.
  intros E Ef Hl Hd.
  destruct (sim_run rest ps (text_of src ps ++ 0 :: rest) (Pton6 (local_array 16 0) 0 None 0 0)
    (Abs (replicate 16 0) 0 None None) a) as (x & Ex & Hx); [|done|exact E|].
  - split; [|done]. split; done.
  - eapply outcome_step; [exact Ex|]. by apply (finish_run x a).
Qed.

(** [inet_pton6] reads back what [inet_ntop6] printed. *)
Lemma pton6_pieces ps rest dst :
  pieces_ok (flags src) ps = true -> 16 <= zlen dst ->
  inet_pton6 junk (text_of src ps ++ 0 :: rest) dst = Done (0, overwrite dst 0 src).
Proof.
  intros Hok Hd. destruct (pieces_ok_spec _ _ Hok) as [_ (codes & E & Hl & Hin)].
  rewrite <- (in_place_src codes Hl Hin) at 2. destruct ps as [|p ps]; [done|].
  destruct (decide (p = PColon)) as [->|Hp].
  - destruct ps as [|[] ps]; try done. apply bind_Done in E as ([a|] & E & Ef); [|done].
    unfold inet_pton6. rewrite !text_cons. cbn [render app head tail demand mbind outcome_bind Z.eqb Pos.eqb negb andb].
    apply (pieces_read (PColon :: ps) rest a codes dst); done.
  - assert (E' : (r ← abs_run (p :: ps) (Abs (replicate 16 0) 0 None None); match r with Some x => abs_finish x | None => Done None end) =
      Done (Some codes)) by (by destruct p). clear E. apply bind_Done in E' as ([a|] & E & Ef); [|done].
    destruct (text_head p ps (0 :: rest)) as (c & Hh & _ & Hc). unfold inet_pton6. rewrite Hh. cbn [demand mbind outcome_bind].
    rewrite (proj2 (Z.eqb_neq _ _) (Hc Hp)). cbn [mbind outcome_bind andb]. by apply (pieces_read (p :: ps) rest a codes dst).
Qed.
End Read.

(** * Inet_pton6 on any text.

    Whatever the text, [inet_pton6] stays inside its arrays and either stores
    sixteen bytes or leaves the destination alone. *)


(** Sixteen bytes, [tp] among them and [colonp] before it. *)
Record pton6_inv (x : pton6_state) : Prop := Pton6Inv {
  p6_length : length (p_tmp x) = 16%nat;
  p6_bytes : Forall is_byte (p_tmp x);
  p6_tp : 0 <= p_tp x <= endp;
  p6_colonp c : p_colonp x = Some c -> 0 <= c <= p_tp x;
}.

(** A text with its terminator. *)
Definition terminated (s : list Z) : Prop := exists text rest, s = text ++ 0 :: rest /\ Forall (fun c => c <> 0) text.

Lemma terminated_nonempty s : terminated s -> exists c s', s = c :: s' /\ (c <> 0 -> terminated s').
Proof.
  intros (text & rest & -> & Hnz). destruct text as [|c text]; [by exists 0, rest|]. apply Forall_cons in Hnz as [Hc Hnz].
  exists c, (text ++ 0 :: rest). split; [done|]. intros _. by exists text, rest.
Qed.

Lemma overwrite_bytes d off data : Forall is_byte d -> Forall is_byte data -> Forall is_byte (overwrite d off data).
Proof. intros Hd Hdata. unfold overwrite. apply Forall_app; split; [by apply Forall_take|apply Forall_app; split; [done|by apply Forall_drop]]. Qed.

Lemma low_byte v : is_byte (Z.land (u8 v) 0xff).
Proof. change 0xff with (Z.ones 8). rewrite Z.land_ones by lia. apply Z.mod_pos_bound. lia. Qed.

Lemma put_word_safe tmp tp v :
  length tmp = 16%nat -> Forall is_byte tmp -> 0 <= tp -> tp + 2 <= endp ->
  exists tmp', put_word tmp tp v = Done tmp' /\ length tmp' = 16%nat /\ Forall is_byte tmp'.
Proof.
  intros Hl Hb Htp Hend. unfold endp in Hend. unfold put_word. rewrite buf_set_run by lia. cbn [mbind outcome_bind].
  rewrite buf_set_run by (rewrite overwrite_length; cbn [length]; lia). eexists. split; [done|].
  rewrite !overwrite_length by (rewrite ?overwrite_length; cbn [length]; lia). split; [done|].
  repeat apply overwrite_bytes; [done|..]; repeat constructor; apply low_byte.
Qed.

Lemma pton4_safe junk s tmp tp :
  terminated s -> length tmp = 16%nat -> Forall is_byte tmp -> 0 <= tp -> tp + 4 <= endp ->
  exists err tmp', inet_pton4 junk s tmp tp = Done (err, tmp') /\ length tmp' = 16%nat /\ Forall is_byte tmp'.
Proof.
  intros (text & rest & -> & Hnz) Hl Hb Htp Hend. unfold endp in Hend.
  destruct (inet_pton4_spec junk text rest tmp tp Hnz Htp ltac:(lia)) as [(bs & Hbl & Hbb & _ & E)|[_ E]]; rewrite E; eexists _, _; split_and!; try done.
  - rewrite overwrite_length; lia.
  - by apply overwrite_bytes.
Qed.

Lemma pton6_loop_safe junk s : forall curtok x,
  terminated s -> terminated curtok -> pton6_inv x ->
  exists r, pton6_loop junk s curtok x = Done r /\ forall x', r = Some x' -> pton6_inv x'.
Proof.
  induction s as [|ch s IH]; intros curtok x Hs Hcur Hx; destruct (terminated_nonempty _ Hs) as (c & s' & Ec & Hs'); [done|].
  injection Ec as -> ->. cbn [pton6_loop]. destruct (Z.eqb_spec c 0) as [|Hc]; [eexists; split; [done|]; by intros x' [= <-]|].
  specialize (Hs' Hc). destruct (match c_strchr xdigits_l c with Some i => Some i | None => c_strchr xdigits_u c end) as [d|].
  { destruct (4 <? p_seen x + 1); [by eexists|]. apply IH; [done..|]. destruct Hx. by split. }
  destruct Hx as [Hl Hb Htp Hcol]. destruct (c =? 58).
  - destruct (p_seen x =? 0).
    + destruct (p_colonp x) as [cp|]; [by eexists|]. apply IH; [done..|]. split; cbn; try done. intros ? [= <-]. lia.
    + destruct (terminated_nonempty _ Hs') as (n & s2 & -> & _). cbn [head demand mbind outcome_bind].
      destruct (n =? 0); [by eexists|]. destruct (Z.ltb_spec endp (p_tp x + 2)); [by eexists|].
      destruct (put_word_safe (p_tmp x) (p_tp x) (p_val x) Hl Hb ltac:(lia) ltac:(lia)) as (tmp' & -> & Hl' & Hb'). cbn [mbind outcome_bind].
      apply IH; [done..|]. split; cbn; try done; [lia|]. intros cp Hcp. specialize (Hcol cp Hcp). lia.
  - destruct ((c =? 46) && (p_tp x + 4 <=? endp)) eqn:Ed; [|by eexists].
    destruct (pton4_safe junk curtok (p_tmp x) (p_tp x) Hcur Hl Hb ltac:(lia) ltac:(lia)) as (err & tmp' & -> & Hl' & Hb'). cbn [mbind outcome_bind].
    destruct (err =? 0); [|by eexists]. eexists. split; [done|]. intros x' [= <-]. split; cbn; try done; [lia|].
    intros cp Hcp. specialize (Hcol cp Hcp). lia.
Qed.

Lemma shift_tail_safe k : forall tmp c n i,
  length tmp = 16%nat -> Forall is_byte tmp -> 0 <= c -> c + n <= endp -> 1 <= i -> i + Z.of_nat k = n + 1 ->
  exists tmp', shift_tail k tmp c n i = Done tmp' /\ length tmp' = 16%nat /\ Forall is_byte tmp'.
Proof.
  induction k as [|k IH]; intros tmp c n i Hl Hb Hc Hn Hi Hk; cbn [shift_tail]; [by eexists|]. unfold endp in *.
  destruct (lookup_lt_is_Some_2 tmp (Z.to_nat (c + (n - i))) ltac:(lia)) as [v Hv].
  assert (buf_get tmp (c + (n - i)) = Done v) as -> by (unfold buf_get; rewrite Hv; by destruct (Z.leb_spec 0 (c + (n - i))); [|lia]).
  cbn [mbind outcome_bind].
  rewrite buf_set_run by lia. cbn [mbind outcome_bind]. rewrite buf_set_run by (rewrite overwrite_length; cbn [length]; lia). cbn [mbind outcome_bind].
  apply IH; try lia; [rewrite !overwrite_length; rewrite ?overwrite_length; cbn [length]; lia|].
  rewrite Forall_lookup in Hb. pose proof (Hb _ _ Hv) as Hvb. rewrite <- Forall_lookup in Hb.
  repeat apply overwrite_bytes; [done|..]; repeat constructor; unfold is_byte in *; lia.
Qed.

(** What [inet_pton6] stored. *)
Definition pton6_result (dst : list Z) (r : Z) (dst' : list Z) : Prop :=
  (r = UV_EINVAL /\ dst' = dst) \/
  (r = 0 /\ exists bs, length bs = 16%nat /\ Forall is_byte bs /\ dst' = overwrite dst 0 bs).

Lemma copy_result tmp dst :
  length tmp = 16%nat -> Forall is_byte tmp -> 16 <= zlen dst ->
  exists r dst', (dst' ← c_memcpy dst 0 tmp; Done (0, dst')) = Done (r, dst') /\ pton6_result dst r dst'.
Proof.
  intros Hl Hb Hd. unfold c_memcpy. rewrite buf_put_run by lia. eexists _, _. split; [done|]. right. split; [done|]. by exists tmp.
Qed.

Lemma pton6_finish_safe x dst :
  pton6_inv x -> 16 <= zlen dst -> exists r dst', pton6_finish x dst = Done (r, dst') /\ pton6_result dst r dst'.
Proof.
  intros [Hl Hb Htp Hcol] Hd. unfold pton6_finish.
  assert (Hbad : exists r dst', Done (UV_EINVAL, dst) = Done (r, dst') /\ pton6_result dst r dst') by (eexists _, _; split; [done|by left]).
  destruct (negb (p_seen x =? 0) && (endp <? p_tp x + 2)) eqn:Eg; [done|].
  assert (exists tmp tp, (if negb (p_seen x =? 0) then tmp ← put_word (p_tmp x) (p_tp x) (p_val x); Done (tmp, p_tp x + 2)
      else Done (p_tmp x, p_tp x)) = Done (tmp, tp) /\ length tmp = 16%nat /\ Forall is_byte tmp /\ p_tp x <= tp <= endp)
    as (tmp & tp & -> & Hl' & Hb' & Htp').
  { destruct (negb (p_seen x =? 0)); [|eexists _, _; split_and!; [done..|lia|lia]]. cbn [andb] in Eg.
    destruct (put_word_safe (p_tmp x) (p_tp x) (p_val x) Hl Hb ltac:(lia) ltac:(lia)) as (tmp' & -> & Hl' & Hb').
    eexists _, _. split_and!; [done..|lia|lia]. }
  cbn [mbind outcome_bind]. destruct (p_colonp x) as [c|].
  - destruct (tp =? endp); [done|]. specialize (Hcol c eq_refl).
    destruct (shift_tail_safe (Z.to_nat (tp - c)) tmp c (tp - c) 1 Hl' Hb') as (tmp2 & E & Hl2 & Hb2); [lia..|].
    cbv zeta. rewrite E. cbn [mbind outcome_bind]. by apply copy_result.
  - destruct (negb (tp =? endp)); [done|]. by apply copy_result.
Qed.

Lemma inet_pton6_safe junk s dst :
  terminated s -> 16 <= zlen dst -> exists r dst', inet_pton6 junk s dst = Done (r, dst') /\ pton6_result dst r dst'.
Proof.
  intros Hs Hd. unfold inet_pton6. destruct (terminated_nonempty _ Hs) as (c & s' & -> & Hs'). cbn [head tail demand mbind outcome_bind].
  assert (Hrun : forall s, terminated s -> exists r dst',
    (r ← pton6_loop junk s s (Pton6 (local_array 16 0) 0 None 0 0);
     match r with None => Done (UV_EINVAL, dst) | Some x => pton6_finish x dst end) = Done (r, dst') /\ pton6_result dst r dst').
  { intros t Ht. destruct (pton6_loop_safe junk t t (Pton6 (local_array 16 0) 0 None 0 0) Ht Ht) as (r & -> & Hinv).
    { split; cbn; try done. by repeat constructor. }
    cbn [mbind outcome_bind]. destruct r as [x|]; [|eexists _, _; split; [done|by left]]. apply pton6_finish_safe; [by apply Hinv|done]. }
  destruct (Z.eqb_spec c 58) as [->|]; [|cbn [mbind outcome_bind andb]; by apply Hrun].
  destruct (terminated_nonempty s' (Hs' ltac:(lia))) as (c1 & s2 & -> & _). cbn [head demand mbind outcome_bind andb].
  destruct (negb (c1 =? 58)); [eexists _, _; split; [done|by left]|]. apply Hrun, Hs'. lia.
Qed.
