(* ===== verification/UvInetTheorems.v ===== *)
(** * UvInetTheorems: string copies and IP addresses, the properties. *)

From Stdlib Require Import ZifyBool.
From stdpp Require Import base tactics numbers list gmap strings.
From S2P Require Import Prelude UvCommon UvInet UvInetSpec UvInet6 UvInet6Read.
Open Scope Z_scope.

(** Uv__strscpy.  Copying a string of length below SSIZE_MAX into the [n]
    bytes at [d + off], the function writes only there: with room it copies
    text and terminator and returns the length; without room it copies the
    first [n - 1] bytes, terminates them and returns UV_E2BIG; with [n = 0]
    it returns 0 and writes nothing. *)
Theorem strscpy_exact d off text rest n :
  Forall (fun c => c <> 0) text -> zlen text <= SSIZE_MAX -> 0 <= off -> 0 <= n -> off + n <= zlen d ->
  uv__strscpy d off (text ++ 0 :: rest) n =
    if zlen text <? n then Done (zlen text, overwrite d (Z.to_nat off) (text ++ [0]))
    else if n =? 0 then Done (0, d)
    else Done (UV_E2BIG, overwrite d (Z.to_nat off) (take (Z.to_nat n - 1) text ++ [0])).
Proof.
  intros Hnz Hmax Hoff Hn Hd. destruct (Z.ltb_spec (zlen text) n); [apply strscpy_fits; done || lia|]. apply strscpy_cut; done || lia.
Qed.

Lemma strscpy_exact_witness : uv__strscpy [9; 9; 9; 9; 9] 1 ([104; 101; 121] ++ 0 :: []) 3 = Done (UV_E2BIG, [9; 104; 101; 0; 9]).
Proof. rewrite (strscpy_exact [9; 9; 9; 9; 9] 1 [104; 101; 121] [] 3); [reflexivity|repeat constructor; lia|vm_compute; discriminate|lia..|vm_compute; discriminate]. Defined.

(** IPv4 text.  On any string, [inet_pton4] stays inside its arrays, accepts
    exactly the four decimal octets without leading zeros separated by dots,
    and stores their values; otherwise it returns UV_EINVAL and stores
    nothing. *)
Theorem pton4_exact junk text rest dst off :
  Forall (fun c => c <> 0) text -> 0 <= off -> off + 4 <= zlen dst ->
  (exists bs, length bs = 4%nat /\ Forall is_byte bs /\ text = dotted bs /\
     inet_pton4 junk (text ++ 0 :: rest) dst off = Done (0, overwrite dst (Z.to_nat off) bs)) \/
  ((forall bs, length bs = 4%nat -> Forall is_byte bs -> text <> dotted bs) /\
   inet_pton4 junk (text ++ 0 :: rest) dst off = Done (UV_EINVAL, dst)).
Proof. apply inet_pton4_spec. Qed.

Lemma pton4_exact_witness :
  inet_pton4 7 ([49; 46; 50; 46; 51; 46; 52] ++ [0]) [9; 9; 9; 9] 0 = Done (0, [1; 2; 3; 4]) /\
  inet_pton4 7 ([48; 49; 46; 50; 46; 51; 46; 52] ++ [0]) [9; 9; 9; 9] 0 = Done (UV_EINVAL, [9; 9; 9; 9]) /\
  (forall bs, length bs = 4%nat -> Forall is_byte bs -> [48; 49; 46; 50; 46; 51; 46; 52] <> dotted bs).
Proof.
  split; [reflexivity|]. split; [reflexivity|].
  destruct (pton4_exact 7 [48; 49; 46; 50; 46; 51; 46; 52] [] [9; 9; 9; 9] 0) as [(bs & _ & _ & _ & E)|[Hno _]];
    [repeat constructor; lia|lia|cbn; lia|vm_compute in E; discriminate E|exact Hno].
Defined.

(** IPv4 round trip.  An address that [uv_inet_ntop] printed is read back
    unchanged by [uv_inet_pton]; any buffer of 16 bytes is enough. *)
Theorem inet4_roundtrip junk junk' bs buf size dst :
  length bs = 4%nat -> Forall is_byte bs -> 16 <= size <= zlen buf -> 4 <= zlen dst ->
  exists buf', uv_inet_ntop junk AF_INET bs buf size = Done (0, buf') /\
    uv_inet_pton junk' AF_INET (Some buf') (Some dst) = Done (0, Some (overwrite dst 0 bs)).
Proof.
  intros Hl Hb Hs Hd. destruct bs as [|a [|b [|c [|d [|]]]]]; try done. pose proof (dotted_length _ _ _ _ Hb) as Ht.
  eexists. split.
  - unfold uv_inet_ntop. cbn [Z.eqb AF_INET Pos.eqb]. rewrite (inet_ntop4_spec junk _ 0 a b c d) by (done || lia).
    destruct (Z.leb_spec size (zlen (dotted [a; b; c; d]))); [lia|]. reflexivity.
  - unfold uv_inet_pton. cbn [Z.eqb AF_INET Pos.eqb]. unfold overwrite at 1. change (Z.to_nat 0) with 0%nat. rewrite take_0. cbn [app].
    rewrite <- app_assoc. cbn [app]. rewrite inet_pton4_dotted by (done || lia). done.
Qed.

Lemma inet4_roundtrip_witness :
  exists buf', uv_inet_ntop 1 AF_INET [192; 168; 0; 1] (replicate 16 9) 16 = Done (0, buf') /\
    uv_inet_pton 2 AF_INET (Some buf') (Some [9; 9; 9; 9]) = Done (0, Some [192; 168; 0; 1]).
Proof.
  destruct (inet4_roundtrip 1 2 [192; 168; 0; 1] (replicate 16 9) 16 [9; 9; 9; 9]) as (buf' & E & E');
    [reflexivity|repeat constructor; unfold is_byte; lia|cbn; lia|cbn; lia|]. exists buf'. split; [exact E|exact E'].
Defined.

(** A string cut at its terminator, and the search for a zone in it. *)
Lemma strlen_start text rest : Forall (fun c => c <> 0) text -> c_strlen (text ++ 0 :: rest) 0 = Done (zlen text).
Proof. intros Hnz. by apply (strlen_text (text ++ 0 :: rest) 0 text rest). Qed.

Lemma strchr_app s c t : Forall (fun x => x <> c) s -> c_strchr (s ++ c :: t) c = Some (zlen s).
Proof.
  induction 1 as [|x s Hx _ IH]; cbn [app c_strchr]; [by rewrite Z.eqb_refl|]. rewrite (proj2 (Z.eqb_neq _ _) Hx), IH.
  cbn [fmap option_fmap option_map length]. f_equal. lia.
Qed.

Lemma strchr_range s c n : c_strchr s c = Some n -> 0 <= n < zlen s.
Proof.
  revert n. induction s as [|x s IH]; intros n; cbn [c_strchr]; [done|]. destruct (x =? c); [intros [= <-]; cbn [length]; lia|].
  destruct (c_strchr s c) as [m|] eqn:E; [|done]. intros [= <-]. specialize (IH m eq_refl). cbn [length]. lia.
Qed.

Lemma text_letters src ps : length src = 16%nat -> Forall is_byte src -> Forall (fun c => 46 <= c) (text_of src ps).
Proof.
  intros Hl Hb. unfold text_of. apply Forall_concat, Forall_map, Forall_true. intros p.
  destruct (decide (p = PColon)) as [->|Hp]; [repeat constructor; lia|].
  destruct (render_letters src Hl Hb p Hp) as [H _]. eapply Forall_impl; [exact H|]. by intros ? [].
Qed.

(** A zone is nothing or a percent sign and an interface name. *)
Definition is_zone (zone : list Z) : Prop := Forall (fun c => c <> 0) zone /\ (zone = [] \/ exists name, zone = 37 :: name).

Lemma zone_ignored junk text zone rest dst dst' :
  Forall (fun c => 46 <= c) text -> zlen text <= 45 -> is_zone zone ->
  (forall rest, inet_pton6 junk (text ++ 0 :: rest) dst = Done (0, dst')) ->
  uv_inet_pton junk AF_INET6 (Some (text ++ zone ++ 0 :: rest)) (Some dst) = Done (0, Some dst').
Proof.
  intros Hlet Hlen [Hz Hzone] Hread.
  assert (Hnz : Forall (fun c => c <> 0) text) by (eapply Forall_impl; [exact Hlet|]; cbn; lia).
  assert (Hnp : Forall (fun c => c <> 37) text) by (eapply Forall_impl; [exact Hlet|]; cbn; lia).
  unfold uv_inet_pton. change (AF_INET6 =? AF_INET) with false. change (AF_INET6 =? AF_INET6) with true. cbv iota.
  rewrite app_assoc. rewrite strlen_start by (by apply Forall_app). cbn [mbind outcome_bind].
  rewrite Nat2Z.id, take_app_length. destruct Hzone as [->|[name ->]].
  - rewrite app_nil_r, strchr_None by done. by rewrite Hread.
  - rewrite strchr_app by done. cbv zeta. unfold s32. rewrite signed_small by lia. unfold UV__INET6_ADDRSTRLEN.
    destruct (Z.ltb_spec (46 - 1) (zlen text)); [lia|]. destruct (Z.ltb_spec (zlen text) 0); [lia|].
    rewrite <- app_assoc, Nat2Z.id, take_app_length. unfold c_memcpy, local_array.
    rewrite buf_put_run by (rewrite ?length_replicate; lia). cbn [mbind outcome_bind]. change (Z.to_nat 0) with 0%nat.
    rewrite buf_set_run by (rewrite overwrite_length by (rewrite length_replicate; lia); rewrite length_replicate; lia).
    cbn [mbind outcome_bind]. rewrite Nat2Z.id.
    pose proof (overwrite_app (replicate (Z.to_nat 46) junk) 0 text [0]) as E. cbn [Nat.add] in E.
    rewrite E by (rewrite length_replicate; cbn [length]; lia). unfold overwrite. rewrite take_0, <- app_assoc. cbn [app]. by rewrite Hread.
Qed.

(** C25: IPv6 round trip.  What [uv_inet_ntop] prints for an IPv6 address, in
    any of its forms ("::", one run of zeros compressed, an embedded IPv4
    address), [uv_inet_pton] reads back as the same sixteen bytes, also with
    a zone such as "%en0" appended; 46 bytes are enough for the text. *)
Theorem inet6_roundtrip junk junk' src buf size dst zone rest :
  length src = 16%nat -> Forall is_byte src -> 46 <= size <= zlen buf -> is_zone zone -> 16 <= zlen dst ->
  exists text, Forall (fun c => c <> 0) text /\
    uv_inet_ntop junk AF_INET6 src buf size = Done (0, overwrite buf 0 (text ++ [0])) /\
    uv_inet_pton junk' AF_INET6 (Some (text ++ zone ++ 0 :: rest)) (Some dst) = Done (0, Some (overwrite dst 0 src)).
Proof.
  intros Hl Hb Hs Hz Hd. destruct (inet_ntop6_spec src Hl Hb) as (ps & Hok & Hntop). exists (text_of src ps).
  pose proof (text_length src Hl Hb ps) as Hlen. pose proof (proj1 (pieces_ok_spec _ _ Hok)) as Htot.
  split_and!; [by apply text_nonzero| |].
  - transitivity (inet_ntop6 junk src buf size); [done|]. rewrite Hntop by lia. unfold ntop6_outcome.
    destruct (Z.ltb_spec (zlen (text_of src ps)) size); [done|lia].
  - apply zone_ignored; [by apply text_letters|lia|done|]. intros rest'. by apply pton6_pieces.
Qed.

(** The address ::ffff:10.0.0.1, and "%lo" as its zone. *)
Definition Mapped_address : list Z := [0; 0; 0; 0; 0; 0; 0; 0; 0; 0; 255; 255; 10; 0; 0; 1].

Lemma inet6_roundtrip_witness :
  uv_inet_ntop 1 AF_INET6 Mapped_address (replicate 46 9) 46 =
    Done (0, [58; 58; 102; 102; 102; 102; 58; 49; 48; 46; 48; 46; 48; 46; 49; 0] ++ replicate 30 9) /\
  exists text, uv_inet_ntop 1 AF_INET6 Mapped_address (replicate 46 9) 46 = Done (0, overwrite (replicate 46 9) 0 (text ++ [0])) /\
    uv_inet_pton 2 AF_INET6 (Some (text ++ [37; 108; 111] ++ [0])) (Some (replicate 16 9)) = Done (0, Some Mapped_address).
Proof.
  split; [vm_compute; reflexivity|].
  destruct (inet6_roundtrip 1 2 Mapped_address (replicate 46 9) 46 (replicate 16 9) [37; 108; 111] [])
    as (text & _ & E & E'); [reflexivity|repeat constructor; unfold is_byte; lia|cbn; lia| |cbn; lia|].
  - split; [repeat constructor; lia|right; by exists [108; 111]].
  - exists text. split; [exact E|exact E'].
Defined.

(** Uv_inet_ntop in a small buffer.  [inet_ntop6] with a buffer too small
    for the text and its terminator fills it with a terminated prefix and
    returns UV_ENOSPC, except that with size 0 it reports success although
    it writes nothing; nothing beyond [size] bytes is ever written. *)
Theorem ntop6_small_buffer junk src dst size :
  length src = 16%nat -> Forall is_byte src -> 0 <= size <= zlen dst ->
  exists text, Forall (fun c => c <> 0) text /\ zlen text < 46 /\
    uv_inet_ntop junk AF_INET6 src dst size =
      if zlen text <? size then Done (0, overwrite dst 0 (text ++ [0]))
      else if size =? 0 then Done (0, dst)
      else Done (UV_ENOSPC, overwrite dst 0 (take (Z.to_nat size - 1) text ++ [0])).
Proof.
  intros Hl Hb Hs. destruct (inet_ntop6_spec src Hl Hb) as (ps & Hok & Hntop). exists (text_of src ps).
  pose proof (text_length src Hl Hb ps) as Hlen. pose proof (proj1 (pieces_ok_spec _ _ Hok)) as Htot.
  split_and!; [by apply text_nonzero|lia|by apply Hntop].
Qed.

Lemma ntop6_small_buffer_witness :
  uv_inet_ntop 1 AF_INET6 Mapped_address [9; 9; 9] 3 = Done (UV_ENOSPC, [58; 58; 0]) /\
  uv_inet_ntop 1 AF_INET6 Mapped_address [9; 9; 9] 0 = Done (0, [9; 9; 9]) /\
  exists text, Forall (fun c => c <> 0) text /\ zlen text < 46 /\
    uv_inet_ntop 1 AF_INET6 Mapped_address [9; 9; 9] 3 =
      if zlen text <? 3 then Done (0, overwrite [9; 9; 9] 0 (text ++ [0]))
      else Done (UV_ENOSPC, overwrite [9; 9; 9] 0 (take (Z.to_nat 3 - 1) text ++ [0])).
Proof.
  split; [vm_compute; reflexivity|]. split; [vm_compute; reflexivity|].
  apply (ntop6_small_buffer 1 Mapped_address [9; 9; 9] 3); [reflexivity|repeat constructor; unfold is_byte; lia|cbn; lia].
Defined.

(** Any text is safe to parse.  [uv_inet_pton] on any terminated string
    shorter than 2^31 (an [int] holds the place of the zone), for any address family, never reads or writes outside its arrays; it
    stores a whole address and returns 0, or it stores nothing and returns
    UV_EINVAL or UV_EAFNOSUPPORT. *)
Theorem inet_pton_safe junk af s dst :
  terminated s -> zlen s < 2 ^ 31 -> 16 <= zlen dst ->
  exists r dst', uv_inet_pton junk af (Some s) (Some dst) = Done (r, Some dst') /\
    ((r = 0 /\ exists bs, Forall is_byte bs /\ length bs = (if (af =? AF_INET)%Z then 4 else 16)%nat /\ dst' = overwrite dst 0 bs) \/
     ((r = UV_EINVAL \/ r = UV_EAFNOSUPPORT) /\ dst' = dst)).
Proof.
  intros Hs Hshort Hd. unfold uv_inet_pton. destruct (af =? AF_INET) eqn:E4.
  - destruct Hs as (text & rest & -> & Hnz).
    destruct (inet_pton4_spec junk text rest dst 0 Hnz ltac:(lia) ltac:(lia)) as [(bs & Hbl & Hbb & _ & E)|[_ E]]; rewrite E;
      eexists _, _; (split; [done|]); [left; split; [done|by exists bs]|right; split; [by left|done]].
  - assert (Hlift : forall x, (exists r dst', x = Done (r, dst') /\ pton6_result dst r dst') ->
      exists r dst', (y ← x; let '(r, d) := y in Done (r, Some d)) = Done (r, Some dst') /\
        ((r = 0 /\ exists bs, Forall is_byte bs /\ length bs = 16%nat /\ dst' = overwrite dst 0 bs) \/
         ((r = UV_EINVAL \/ r = UV_EAFNOSUPPORT) /\ dst' = dst))).
    { intros x (r & dst' & -> & [[-> ->]|[-> (bs & Hl & Hb & ->)]]); eexists _, _; (split; [done|]);
        [right; split; [by left|done]|left; split; [done|by exists bs]]. }
    destruct (af =? AF_INET6); [|eexists _, _; split; [done|right; split; [by right|done]]].
    destruct Hs as (text & rest & -> & Hnz). rewrite strlen_start by done. cbn [mbind outcome_bind]. rewrite Nat2Z.id, take_app_length.
    destruct (c_strchr text 37) as [n|] eqn:En; [|apply Hlift, inet_pton6_safe; [by exists text, rest|done]].
    pose proof (strchr_range _ _ _ En) as Hn. rewrite length_app in Hshort. cbv zeta. unfold s32. rewrite signed_small by lia. unfold UV__INET6_ADDRSTRLEN.
    destruct (Z.ltb_spec (46 - 1) n); [eexists _, _; split; [done|right; split; [by left|done]]|]. destruct (Z.ltb_spec n 0); [lia|].
    rewrite take_app_le by lia. unfold c_memcpy, local_array. rewrite buf_put_run by (rewrite ?length_replicate, ?length_take; lia).
    cbn [mbind outcome_bind]. change (Z.to_nat 0) with 0%nat. set (t := take (Z.to_nat n) text) in *.
    assert (Htl : zlen t = n) by (subst t; rewrite length_take; lia).
    rewrite buf_set_run by (rewrite overwrite_length; rewrite ?length_replicate; lia). cbn [mbind outcome_bind].
    apply Hlift, inet_pton6_safe; [|done]. replace (Z.to_nat n) with (0 + length t)%nat by lia.
    rewrite overwrite_app by (rewrite length_replicate; cbn [length]; lia).
    exists t. eexists. split; [|by apply Forall_take]. unfold overwrite. rewrite take_0, <- app_assoc. reflexivity.
Qed.

Lemma inet_pton_safe_witness :
  uv_inet_pton 5 AF_INET6 (Some ([49; 58; 58; 50; 58; 58; 51] ++ [0])) (Some (replicate 16 9)) = Done (UV_EINVAL, Some (replicate 16 9)) /\
  exists r dst', uv_inet_pton 5 AF_INET6 (Some ([49; 58; 58; 50; 58; 58; 51] ++ [0])) (Some (replicate 16 9)) = Done (r, Some dst').
Proof.
  split; [vm_compute; reflexivity|].
  destruct (inet_pton_safe 5 AF_INET6 ([49; 58; 58; 50; 58; 58; 51] ++ [0]) (replicate 16 9)) as (r & dst' & E & _).
  - exists [49; 58; 58; 50; 58; 58; 51], []. split; [reflexivity|repeat constructor; lia].
  - cbn. lia.
  - cbn. lia.
  - exists r, dst'. exact E.
Defined.
