(* ===== verification/LdbCoding.v ===== *)
(** * LdbCoding: integers and strings in leveldb's files
    (leveldb-library/util/coding.cc, coding.h).

    A [std::string] and a [Slice] are lists of bytes; a pair of pointers
    [p, limit] is the list of the bytes between them, and advancing [p] drops
    bytes from it. *)

From Stdlib Require Import ZifyBool.
From stdpp Require Import base tactics numbers list gmap strings.
From S2P Require Import Prelude PbOStream PbWire.
Open Scope Z_scope.

Definition kLittleEndian : bool := true.

(** ** Fixed-width integers *)

Definition EncodeFixed32 (value : Z) : list Z :=
  if kLittleEndian then le_bytes 4 value
  else [Z.land value 0xff; Z.land (Z.shiftr value 8) 0xff; Z.land (Z.shiftr value 16) 0xff; Z.land (Z.shiftr value 24) 0xff].

Definition EncodeFixed64 (value : Z) : list Z :=
  if kLittleEndian then le_bytes 8 value
  else [Z.land value 0xff; Z.land (Z.shiftr value 8) 0xff; Z.land (Z.shiftr value 16) 0xff; Z.land (Z.shiftr value 24) 0xff;
        Z.land (Z.shiftr value 32) 0xff; Z.land (Z.shiftr value 40) 0xff; Z.land (Z.shiftr value 48) 0xff; Z.land (Z.shiftr value 56) 0xff].

Definition PutFixed32 (dst : list Z) (value : Z) : list Z := dst ++ EncodeFixed32 value.
Definition PutFixed64 (dst : list Z) (value : Z) : list Z := dst ++ EncodeFixed64 value.

(** The four or eight bytes at [ptr]; reading fewer is undefined. *)
Definition DecodeFixed32 (ptr : list Z) : outcome Z :=
  match ptr with
  | a :: b :: c :: d :: _ =>
    Done (if kLittleEndian then le_value [a; b; c; d]
          else Z.lor (Z.lor (Z.lor a (Z.shiftl b 8)) (Z.shiftl c 16)) (Z.shiftl d 24))
  | _ => Undef
  end.

Definition DecodeFixed64 (ptr : list Z) : outcome Z :=
  if kLittleEndian then
    match ptr with
    | a :: b :: c :: d :: e :: f :: g :: h :: _ => Done (le_value [a; b; c; d; e; f; g; h])
    | _ => Undef
    end
  else
    lo ← DecodeFixed32 ptr;
    hi ← DecodeFixed32 (drop 4 ptr);
    Done (Z.lor (u64 (Z.shiftl hi 32)) lo).

(** ** Varints *)

(** The bytes written at [dst]. *)
Definition EncodeVarint32 (v : Z) : list Z :=
  let B := 128 in
  if v <? Z.shiftl 1 7 then [u8 v]
  else if v <? Z.shiftl 1 14 then [u8 (Z.lor v B); u8 (Z.shiftr v 7)]
  else if v <? Z.shiftl 1 21 then [u8 (Z.lor v B); u8 (Z.lor (Z.shiftr v 7) B); u8 (Z.shiftr v 14)]
  else if v <? Z.shiftl 1 28 then [u8 (Z.lor v B); u8 (Z.lor (Z.shiftr v 7) B); u8 (Z.lor (Z.shiftr v 14) B); u8 (Z.shiftr v 21)]
  else [u8 (Z.lor v B); u8 (Z.lor (Z.shiftr v 7) B); u8 (Z.lor (Z.shiftr v 14) B); u8 (Z.lor (Z.shiftr v 21) B); u8 (Z.shiftr v 28)].

Definition PutVarint32 (dst : list Z) (v : Z) : list Z := dst ++ EncodeVarint32 v.

(** [while (v >= B)]; ten rounds are enough for 64 bits. *)
Fixpoint varint64_loop (fuel : nat) (v : Z) : outcome (list Z) :=
  match fuel with
  | O => NoFuel
  | S fuel =>
    if 128 <=? v then rest ← varint64_loop fuel (Z.shiftr v 7); Done (u8 (Z.lor v 128) :: rest) else Done [u8 v]
  end.
Definition EncodeVarint64 (v : Z) : outcome (list Z) := varint64_loop 10 v.

(** The local buffer holds ten bytes. *)
Definition PutVarint64 (dst : list Z) (v : Z) : outcome (list Z) :=
  buf ← EncodeVarint64 v;
  if 10 <? zlen buf then Undef else Done (dst ++ buf).

Definition PutLengthPrefixedSlice (dst value : list Z) : list Z := PutVarint32 dst (u32 (zlen value)) ++ value.

Fixpoint varint_length_loop (fuel : nat) (v len : Z) : outcome Z :=
  match fuel with
  | O => NoFuel
  | S fuel => if 128 <=? v then varint_length_loop fuel (Z.shiftr v 7) (len + 1) else Done len
  end.
Definition VarintLength (v : Z) : outcome Z := varint_length_loop 10 v 1.

(** The value and the position after it; [None] is a null pointer. *)
Fixpoint varint32_fallback (p : list Z) (shift result : Z) : option (Z * list Z) :=
  if shift <=? 28 then
    match p with
    | [] => None
    | byte :: p =>
      if negb (Z.land byte 128 =? 0) then varint32_fallback p (u32 (shift + 7)) (Z.lor result (u32 (Z.shiftl (Z.land byte 127) shift)))
      else Some (Z.lor result (u32 (Z.shiftl byte shift)), p)
    end
  else None.
Definition GetVarint32PtrFallback (p : list Z) : option (Z * list Z) := varint32_fallback p 0 0.

Definition GetVarint32Ptr (p : list Z) : option (Z * list Z) :=
  match p with
  | result :: p' => if Z.land result 128 =? 0 then Some (result, p') else GetVarint32PtrFallback p
  | [] => GetVarint32PtrFallback p
  end.

Fixpoint varint64_ptr (p : list Z) (shift result : Z) : option (Z * list Z) :=
  if shift <=? 63 then
    match p with
    | [] => None
    | byte :: p =>
      if negb (Z.land byte 128 =? 0) then varint64_ptr p (u32 (shift + 7)) (Z.lor result (u64 (Z.shiftl (Z.land byte 127) shift)))
      else Some (Z.lor result (u64 (Z.shiftl byte shift)), p)
    end
  else None.
Definition GetVarint64Ptr (p : list Z) : option (Z * list Z) := varint64_ptr p 0 0.

(** The slice is advanced past the value; [None] is [return false]. *)
Definition GetVarint32 (input : list Z) : option (Z * list Z) := GetVarint32Ptr input.
Definition GetVarint64 (input : list Z) : option (Z * list Z) := GetVarint64Ptr input.

(** [GetLengthPrefixedSlice(p, limit, result)] *)
Definition GetLengthPrefixedSlicePtr (p : list Z) : option (list Z * list Z) :=
  '(len, p) ← GetVarint32Ptr p;
  if zlen p <? len then None else Some (take (Z.to_nat len) p, drop (Z.to_nat len) p).

Definition GetLengthPrefixedSlice (input : list Z) : option (list Z * list Z) :=
  '(len, input) ← GetVarint32 input;
  if len <=? zlen input then Some (take (Z.to_nat len) input, drop (Z.to_nat len) input) else None.

(** ** Both encoders write base-128 digits *)

Lemma top_digit v : 0 <= v -> u8 (Z.lor v 128) = v mod 128 + 128.
Proof.
  intros Hv. unfold u8, wrap. rewrite <- Z.land_ones, Z.land_lor_distr_l by lia. change (Z.land 128 (Z.ones 8)) with 128.
  rewrite <- (continuation_byte v Hv), land_127, u8_small.
  2: { pose proof (Z.mod_pos_bound v 128 ltac:(lia)). apply (lor_word 8); lia. }
  apply Z.bits_inj'. intros i Hi. rewrite !Z.lor_spec, Z.land_spec. change 128 with (2 ^ 7).
  rewrite <- Z.land_ones, Z.land_spec, Z.pow2_bits_eqb, !Z.testbit_ones by lia. destruct (Z.testbit v i); [|by rewrite !andb_false_l].
  cbn [andb orb]. lia.
Qed.

Lemma varint64_loop_digits n : forall v, 0 <= v < 128 ^ Z.of_nat n -> varint64_loop n v = Done (leb128 n v) \/ n = 0%nat.
Proof.
  induction n as [|n IH]; intros v Hv; [by right|left]. rewrite pow_128_succ in Hv. cbn [varint64_loop leb128].
  destruct (Z.leb_spec 128 v), (Z.ltb_spec v 128); try lia; [|by rewrite u8_small by lia].
  rewrite Z.shiftr_div_pow2 by lia. change (2 ^ 7) with 128.
  destruct (IH (v / 128)) as [->| ->].
  - split; [apply Z.div_pos; lia|apply Z.div_lt_upper_bound; lia].
  - cbn [mbind outcome_bind]. by rewrite top_digit by lia.
  - cbn in Hv. lia.
Qed.

Lemma encode_varint64_digits v : 0 <= v < 2 ^ 64 -> EncodeVarint64 v = Done (wire_varint v).
Proof. intros Hv. destruct (varint64_loop_digits 10 v) as [E|E]; [|exact E|done]. change (Z.of_nat 10) with 10. lia. Qed.

Lemma put_varint64_digits dst v : 0 <= v < 2 ^ 64 -> PutVarint64 dst v = Done (dst ++ wire_varint v).
Proof.
  intros Hv. unfold PutVarint64. rewrite encode_varint64_digits by done. cbn [mbind outcome_bind].
  pose proof (wire_varint_length v). by destruct (Z.ltb_spec 10 (zlen (wire_varint v))); [lia|].
Qed.

Lemma leb128_S n v : leb128 (S n) v = if v <? 128 then [v] else (v mod 128 + 128) :: leb128 n (v / 128).
Proof. done. Qed.

Lemma encode_varint32_digits v : 0 <= v < 2 ^ 32 -> EncodeVarint32 v = wire_varint v.
Proof.
  intros Hv. unfold EncodeVarint32, wire_varint. change (Z.shiftl 1 7) with 128. change (Z.shiftl 1 14) with 16384.
  change (Z.shiftl 1 21) with 2097152. change (Z.shiftl 1 28) with 268435456.
  rewrite !Z.shiftr_div_pow2 by lia. change (2 ^ 7) with 128.
  change (2 ^ 14) with (128 * 128). change (2 ^ 21) with (128 * 128 * 128). change (2 ^ 28) with (128 * 128 * 128 * 128).
  rewrite <- !Z.div_div by lia.
  assert (Hd : forall x, 128 * (x / 128) <= x < 128 * (x / 128) + 128)
    by (intros x; pose proof (Z.div_mod x 128 ltac:(lia)); pose proof (Z.mod_pos_bound x 128 ltac:(lia)); lia).
  pose proof (Hd v). pose proof (Hd (v / 128)). pose proof (Hd (v / 128 / 128)). pose proof (Hd (v / 128 / 128 / 128)).
  rewrite (leb128_S 9), (leb128_S 8), (leb128_S 7), (leb128_S 6), (leb128_S 5).
  destruct (Z.ltb_spec v 128); [by rewrite u8_small by lia|]. rewrite !top_digit by lia.
  destruct (Z.ltb_spec v 16384), (Z.ltb_spec (v / 128) 128); try lia; [by rewrite u8_small by lia|].
  destruct (Z.ltb_spec v 2097152), (Z.ltb_spec (v / 128 / 128) 128); try lia; [by rewrite u8_small by lia|].
  destruct (Z.ltb_spec v 268435456), (Z.ltb_spec (v / 128 / 128 / 128) 128); try lia; [by rewrite u8_small by lia|].
  destruct (Z.ltb_spec (v / 128 / 128 / 128 / 128) 128); [by rewrite u8_small by lia|lia].
Qed.

Lemma varint_length_loop_digits n : forall v len,
  0 <= v < 128 ^ Z.of_nat n -> varint_length_loop n v len = Done (len - 1 + zlen (leb128 n v)) \/ n = 0%nat.
Proof.
  induction n as [|n IH]; intros v len Hv; [by right|left]. rewrite pow_128_succ in Hv. cbn [varint_length_loop]. rewrite leb128_S.
  destruct (Z.leb_spec 128 v), (Z.ltb_spec v 128); try lia; [|cbn [length]; f_equal; lia].
  rewrite Z.shiftr_div_pow2 by lia. change (2 ^ 7) with 128.
  destruct (IH (v / 128) (len + 1)) as [->| ->]; [split; [apply Z.div_pos; lia|apply Z.div_lt_upper_bound; lia]| |cbn in Hv; lia].
  f_equal. cbn [length]. lia.
Qed.

Lemma varint_length_digits v : 0 <= v < 2 ^ 64 -> VarintLength v = Done (zlen (wire_varint v)).
Proof.
  intros Hv. destruct (varint_length_loop_digits 10 v 1) as [E|E]; [change (Z.of_nat 10) with 10; lia| |done].
  unfold VarintLength. rewrite E. unfold wire_varint. do 2 f_equal; lia.
Qed.

(** ** Reading back *)

Lemma varint64_ptr_digits n : forall v k r rest,
  0 <= v -> v * 2 ^ k < 2 ^ 64 -> v < 128 ^ Z.of_nat n -> 0 <= r < 2 ^ k -> 0 <= k -> k + 7 * (Z.of_nat n - 1) <= 63 ->
  n = 0%nat \/ varint64_ptr (leb128 n v ++ rest) k r = Some (r + v * 2 ^ k, rest).
Proof.
  induction n as [|n IH]; intros v k r rest Hv Hmax Hn Hr Hk Hlim; [by left|right]. rewrite pow_128_succ in Hn.
  rewrite leb128_S. destruct (Z.ltb_spec v 128) as [Hlt|Hge]; cbn [app varint64_ptr]; (destruct (Z.leb_spec k 63); [|lia]).
  - rewrite (proj2 (digit_last v ltac:(lia))). cbn [Z.eqb negb]. unfold u64. by rewrite lor_digit by lia.
  - pose proof (Z.mod_pos_bound v 128 ltac:(lia)) as Hm. pose proof (Z.div_mod v 128 ltac:(lia)) as Hdm.
    destruct (digit_continues (v mod 128) Hm) as [-> ->]. cbn [Z.eqb negb].
    assert (Hp : 2 ^ (k + 7) = 2 ^ k * 128) by (rewrite Z.pow_add_r by lia; lia). pose proof (Z.pow_pos_nonneg 2 k ltac:(lia) Hk).
    rewrite u32_small by lia. unfold u64. rewrite lor_digit by (try lia; nia).
    destruct (IH (v / 128) (k + 7) (r + v mod 128 * 2 ^ k) rest) as [->| ->];
      [apply Z.div_pos; lia|rewrite Hp; nia|apply Z.div_lt_upper_bound; lia|rewrite Hp; nia|lia|lia|cbn in Hn; lia|].
    do 2 f_equal. rewrite Hp. nia.
Qed.

Lemma get_varint64_digits v rest : 0 <= v < 2 ^ 64 -> GetVarint64 (wire_varint v ++ rest) = Some (v, rest).
Proof.
  intros Hv. destruct (varint64_ptr_digits 10 v 0 0 rest) as [E|E]; [try change (Z.of_nat 10) with 10; lia..|done|].
  unfold GetVarint64, GetVarint64Ptr, wire_varint. rewrite E. do 2 f_equal. lia.
Qed.

Lemma varint32_fallback_digits n : forall v k r rest,
  0 <= v -> v * 2 ^ k < 2 ^ 32 -> v < 128 ^ Z.of_nat n -> 0 <= r < 2 ^ k -> 0 <= k -> k + 7 * (Z.of_nat n - 1) <= 28 ->
  n = 0%nat \/ varint32_fallback (leb128 n v ++ rest) k r = Some (r + v * 2 ^ k, rest).
Proof.
  induction n as [|n IH]; intros v k r rest Hv Hmax Hn Hr Hk Hlim; [by left|right]. rewrite pow_128_succ in Hn.
  rewrite leb128_S. destruct (Z.ltb_spec v 128) as [Hlt|Hge]; cbn [app varint32_fallback]; (destruct (Z.leb_spec k 28); [|lia]).
  - rewrite (proj2 (digit_last v ltac:(lia))). cbn [Z.eqb negb]. unfold u32. by rewrite lor_digit by lia.
  - pose proof (Z.mod_pos_bound v 128 ltac:(lia)) as Hm. pose proof (Z.div_mod v 128 ltac:(lia)) as Hdm.
    destruct (digit_continues (v mod 128) Hm) as [-> ->]. cbn [Z.eqb negb].
    assert (Hp : 2 ^ (k + 7) = 2 ^ k * 128) by (rewrite Z.pow_add_r by lia; lia). pose proof (Z.pow_pos_nonneg 2 k ltac:(lia) Hk).
    rewrite (u32_small (k + 7)) by lia. unfold u32. rewrite lor_digit by (try lia; nia).
    destruct (IH (v / 128) (k + 7) (r + v mod 128 * 2 ^ k) rest) as [->| ->];
      [apply Z.div_pos; lia|rewrite Hp; nia|apply Z.div_lt_upper_bound; lia|rewrite Hp; nia|lia|lia|cbn in Hn; lia|].
    do 2 f_equal. rewrite Hp. nia.
Qed.

Lemma get_varint32_digits v rest : 0 <= v < 2 ^ 32 -> GetVarint32 (wire_varint v ++ rest) = Some (v, rest).
Proof.
  intros Hv. assert (wire_varint v = leb128 5 v) as ->
    by (symmetry; apply (leb128_fuel 4 9); [change (Z.of_nat 5) with 5; lia|lia]).
  assert (E : varint32_fallback (leb128 5 v ++ rest) 0 0 = Some (v, rest)).
  { destruct (varint32_fallback_digits 5 v 0 0 rest) as [E|E]; [try change (Z.of_nat 5) with 5; lia..|done|].
    rewrite E. do 2 f_equal. lia. }
  unfold GetVarint32, GetVarint32Ptr, GetVarint32PtrFallback. rewrite leb128_S in *. destruct (Z.ltb_spec v 128); cbn [app] in *.
  - by rewrite (proj2 (digit_last v ltac:(lia))).
  - by rewrite (proj2 (digit_continues (v mod 128) (Z.mod_pos_bound v 128 ltac:(lia)))).
Qed.

Lemma fixed32_back v rest : 0 <= v < 2 ^ 32 -> DecodeFixed32 (EncodeFixed32 v ++ rest) = Done v.
Proof.
  intros Hv. unfold EncodeFixed32, kLittleEndian. pose proof (length_le_bytes 4 v) as Hl.
  destruct (le_bytes 4 v) as [|a [|b [|c [|d [|]]]]] eqn:E; try done. cbn [app DecodeFixed32]. f_equal. rewrite <- E.
  apply (le_bytes_small 4). change (256 ^ Z.of_nat 4) with (2 ^ 32). lia.
Qed.

Lemma fixed64_back v rest : 0 <= v < 2 ^ 64 -> DecodeFixed64 (EncodeFixed64 v ++ rest) = Done v.
Proof.
  intros Hv. unfold EncodeFixed64, DecodeFixed64, kLittleEndian. pose proof (length_le_bytes 8 v) as Hl.
  destruct (le_bytes 8 v) as [|a [|b [|c [|d [|e [|f [|g [|h [|]]]]]]]]] eqn:E; try done. cbn [app]. f_equal. rewrite <- E.
  apply (le_bytes_small 8). change (256 ^ Z.of_nat 8) with (2 ^ 64). lia.
Qed.

Lemma slice_back dst value rest :
  zlen value < 2 ^ 32 ->
  exists body, PutLengthPrefixedSlice dst value = dst ++ body /\ GetLengthPrefixedSlice (body ++ rest) = Some (value, rest) /\
    GetLengthPrefixedSlicePtr (body ++ rest) = Some (value, rest).
Proof.
  intros Hl. unfold PutLengthPrefixedSlice, PutVarint32. rewrite u32_small, encode_varint32_digits by lia.
  exists (wire_varint (zlen value) ++ value). split; [by rewrite app_assoc|].
  unfold GetLengthPrefixedSlice, GetLengthPrefixedSlicePtr. rewrite <- app_assoc. fold (GetVarint32 (wire_varint (zlen value) ++ value ++ rest)).
  rewrite get_varint32_digits by lia. cbn [mbind option_bind].
  destruct (Z.leb_spec (zlen value) (zlen (value ++ rest))); [|rewrite length_app in *; lia].
  destruct (Z.ltb_spec (zlen (value ++ rest)) (zlen value)); [lia|]. by rewrite Nat2Z.id, take_app_length, drop_app_length.
Qed.

(** ** Reading arbitrary bytes

    What a reader accepts, told without the reader.  A base-128 number is any
    number of bytes with the top bit and one without; it need not be the
    shortest. *)

Inductive base128 : list Z -> Prop :=
| Base128Last d : 0 <= d < 128 -> base128 [d]
| Base128More d ds : 128 <= d < 256 -> base128 ds -> base128 (d :: ds).

Fixpoint digits_value (ds : list Z) : Z :=
  match ds with [] => 0 | d :: ds => d mod 128 + 128 * digits_value ds end.

(** [p] is the string [s] behind its length: at most five digits, of which the
    low 32 bits count. *)
Definition slice_written (p s : list Z) : Prop :=
  exists ds, p = ds ++ s /\ base128 ds /\ (length ds <= 5)%nat /\ u32 (digits_value ds) = zlen s.

Lemma digits_value_nonneg ds : 0 <= digits_value ds.
Proof. induction ds as [|d ds IH]; cbn; [lia|]. pose proof (Z.mod_pos_bound d 128 ltac:(lia)). lia. Qed.

Lemma top_bit b : 0 <= b < 256 -> (Z.land b 128 =? 0) = (b <? 128).
Proof.
  intros Hb. destruct (Z.ltb_spec b 128); [by rewrite (proj2 (digit_last b ltac:(lia)))|].
  replace b with (b - 128 + 128) by lia. by rewrite (proj2 (digit_continues (b - 128) ltac:(lia))).
Qed.

(** One more digit at position [k], in 32 bits. *)
Lemma lor_digit32 r d k : 0 <= k <= 28 -> 0 <= r < 2 ^ k -> 0 <= d -> Z.lor r (u32 (Z.shiftl d k)) = u32 (r + d * 2 ^ k).
Proof.
  intros Hk Hr Hd. unfold u32, wrap. rewrite Z.shiftl_mul_pow2 by lia.
  assert (E : 2 ^ 32 = 2 ^ (32 - k) * 2 ^ k) by (rewrite <- Z.pow_add_r by lia; f_equal; lia).
  pose proof (Z.pow_pos_nonneg 2 k ltac:(lia) ltac:(lia)) as Hp. pose proof (Z.pow_pos_nonneg 2 (32 - k) ltac:(lia) ltac:(lia)) as Hp'.
  rewrite E, Z.mul_mod_distr_r by lia. pose proof (Z.mod_pos_bound d (2 ^ (32 - k)) Hp') as Hm.
  rewrite <- Z.shiftl_mul_pow2, lor_shiftl_add by lia. apply (Zmod_unique _ _ (d / 2 ^ (32 - k))); [nia|].
  rewrite (Z.div_mod d (2 ^ (32 - k))) at 1 by lia. ring.
Qed.

Lemma varint32_reads ds : base128 ds -> forall k r rest, (k + length ds <= 5)%nat -> 0 <= r < 2 ^ (7 * Z.of_nat k) ->
  varint32_fallback (ds ++ rest) (7 * Z.of_nat k) r = Some (u32 (r + digits_value ds * 2 ^ (7 * Z.of_nat k)), rest).
Proof.
  induction 1 as [d Hd|d ds Hd Hds IH]; intros k r rest Hk Hr; cbn [app varint32_fallback length digits_value] in *;
    (destruct (Z.leb_spec (7 * Z.of_nat k) 28); [|lia]); rewrite top_bit by lia.
  - destruct (Z.ltb_spec d 128); [|lia]. cbn [negb]. rewrite lor_digit32 by lia. rewrite (Z.mod_small d) by lia. do 3 f_equal. lia.
  - destruct (Z.ltb_spec d 128); [lia|]. cbn [negb]. rewrite land_127. pose proof (Z.mod_pos_bound d 128 ltac:(lia)) as Hm.
    assert (Hlen : (1 <= length ds)%nat) by (destruct Hds; cbn; lia).
    assert (E : 2 ^ (7 * Z.of_nat (S k)) = 128 * 2 ^ (7 * Z.of_nat k)) by (rewrite <- (Z.pow_add_r 2 7) by lia; f_equal; lia).
    assert (2 ^ (7 * Z.of_nat (S k)) <= 2 ^ 28) by (apply Z.pow_le_mono_r; lia).
    rewrite lor_digit32 by lia. rewrite (u32_small (r + _)) by nia. rewrite u32_small by lia.
    replace (7 * Z.of_nat k + 7) with (7 * Z.of_nat (S k)) by lia. rewrite IH by (lia || nia). do 3 f_equal. rewrite E. ring.
Qed.

Lemma varint32_splits i : Forall is_byte i -> forall k r v rest, varint32_fallback i (7 * Z.of_nat k) r = Some (v, rest) ->
  exists ds, i = ds ++ rest /\ base128 ds /\ (k + length ds <= 5)%nat.
Proof.
  induction 1 as [|b i Hb _ IH]; intros k r v rest; cbn [varint32_fallback]; (destruct (Z.leb_spec (7 * Z.of_nat k) 28); [|done]); [done|].
  unfold is_byte in Hb. rewrite top_bit by lia. destruct (Z.ltb_spec b 128); cbn [negb].
  - intros [= _ <-]. exists [b]. split_and!; [done|constructor; lia|cbn; lia].
  - rewrite u32_small by lia. replace (7 * Z.of_nat k + 7) with (7 * Z.of_nat (S k)) by lia.
    intros (ds & -> & Hds & Hl)%IH. exists (b :: ds). split_and!; [done|constructor; [lia|done]|cbn; lia].
Qed.

Lemma get_varint32_fallback i : Forall is_byte i -> GetVarint32 i = varint32_fallback i 0 0.
Proof.
  intros Hi. unfold GetVarint32, GetVarint32Ptr, GetVarint32PtrFallback. destruct Hi as [|b i Hb _]; [done|]. cbn [varint32_fallback Z.leb Z.compare].
  unfold is_byte in Hb. destruct (Z.land b 128 =? 0); [|done]. cbn [negb]. rewrite Z.shiftl_0_r, u32_small by lia. by rewrite Z.lor_0_l.
Qed.

Lemma varint32_reads_all ds rest : base128 ds -> (length ds <= 5)%nat -> varint32_fallback (ds ++ rest) 0 0 = Some (u32 (digits_value ds), rest).
Proof.
  intros Hds Hl. pose proof (varint32_reads ds Hds 0 0 rest ltac:(lia) ltac:(done)) as E. change (7 * Z.of_nat 0) with 0 in E.
  by rewrite Z.pow_0_r, Z.mul_1_r, Z.add_0_l in E.
Qed.

(** [GetLengthPrefixedSlice] takes exactly such a slice off the front ... *)
Lemma get_slice_complete p s rest : Forall is_byte (p ++ rest) -> slice_written p s -> GetLengthPrefixedSlice (p ++ rest) = Some (s, rest).
Proof.
  intros Hb (ds & -> & Hds & Hl & Hv). unfold GetLengthPrefixedSlice. rewrite get_varint32_fallback by done. rewrite <- app_assoc.
  rewrite varint32_reads_all by done. cbn [mbind option_bind]. rewrite Hv, length_app.
  destruct (Z.leb_spec (zlen s) (Z.of_nat (length s + length rest))); [|lia]. by rewrite Nat2Z.id, take_app_length, drop_app_length.
Qed.

(** ... and refuses where there is none. *)
Lemma get_slice_sound i s rest : Forall is_byte i -> GetLengthPrefixedSlice i = Some (s, rest) -> exists p, i = p ++ rest /\ slice_written p s.
Proof.
  intros Hb. unfold GetLengthPrefixedSlice. rewrite get_varint32_fallback by done.
  destruct (varint32_fallback i 0 0) as [[len r]|] eqn:E; [|done]. cbn [mbind option_bind].
  destruct (Z.leb_spec len (zlen r)) as [Hle|]; [|done]. intros [= <- <-].
  destruct (varint32_splits i Hb 0 0 len r E) as (ds & -> & Hds & Hl). rewrite varint32_reads_all in E by (done || lia).
  injection E as E. assert (0 <= len) by (subst len; unfold u32, wrap; apply Z.mod_pos_bound; lia).
  exists (ds ++ take (Z.to_nat len) r). split; [by rewrite <- app_assoc, take_drop|]. exists ds. split_and!; [done|done|lia|].
  rewrite E, length_take. lia.
Qed.
