(* ===== verification/LdbCrcSpec.v ===== *)
(** * LdbCrcSpec: the table-driven CRC is the bit-serial one.

    The reference divides by the polynomial one bit at a time.  One step is
    linear in the exclusive or, and so are all its powers: this is what lets
    the code look bytes up in tables and work on four words at once. *)

From Stdlib Require Import ZifyBool Btauto.
From stdpp Require Import base tactics numbers list gmap strings.
From S2P Require Import Prelude PbOStream PbWire LdbCoding LdbCrc.
Open Scope Z_scope.

(** ** The reference *)

(** The reflected Castagnoli polynomial. *)
Definition poly : Z := 0x82f63b78.

(** Shift one bit out of the remainder. *)
Definition bit_step (x : Z) : Z := if Z.odd x then Z.lxor (Z.shiftr x 1) poly else Z.shiftr x 1.
Definition bit_steps (n : nat) (x : Z) : Z := Nat.iter n bit_step x.

(** Feed bytes, low bit first. *)
Definition feed (l : Z) (data : list Z) : Z := foldl (fun l b => bit_steps 8 (Z.lxor l b)) l data.

Definition crc32c (crc : Z) (data : list Z) : Z := Z.lxor (feed (Z.lxor crc kCRC32Xor) data) kCRC32Xor.

(** ** Linearity *)

Ltac lxor_bits :=
  apply Z.bits_inj'; intros ? ?; rewrite ?Z.lxor_spec, ?Z.bits_0; btauto.

Class Linear (f : Z -> Z) : Prop := linear : forall x y, f (Z.lxor x y) = Z.lxor (f x) (f y).

#[export] Instance bit_step_linear : Linear bit_step.
Proof.
  intros x y. unfold bit_step. rewrite <- !Z.bit0_odd, Z.lxor_spec, Z.shiftr_lxor.
  destruct (Z.testbit x 0), (Z.testbit y 0); cbn [xorb]; lxor_bits.
Qed.

Lemma bit_steps_S n x : bit_steps (S n) x = bit_step (bit_steps n x).
Proof. done. Qed.

Lemma bit_steps_add n m x : bit_steps (n + m) x = bit_steps n (bit_steps m x).
Proof. induction n as [|n IH]; [done|]. cbn [Nat.add]. by rewrite !bit_steps_S, IH. Qed.

#[export] Instance bit_steps_linear n : Linear (bit_steps n).
Proof. intros x y. induction n as [|n IH]; [done|]. rewrite !bit_steps_S, IH. apply linear. Qed.

(** Zeros at the low end are shifted out. *)
Lemma bit_steps_shift n x k : bit_steps n (Z.shiftl x (Z.of_nat n + k)) = Z.shiftl x k \/ k < 0.
Proof.
  destruct (Z.lt_ge_cases k 0) as [Hk|Hk]; [by right|left].
  revert k Hk. induction n as [|n IH]; intros k Hk; [done|]. rewrite bit_steps_S.
  replace (Z.of_nat (S n) + k) with (Z.of_nat n + (k + 1)) by lia. rewrite IH by lia. unfold bit_step.
  rewrite <- Z.bit0_odd, Z.shiftl_spec_low by lia. rewrite Z.shiftr_shiftl_l by lia. f_equal. lia.
Qed.

Lemma bit_steps_8_shift x : bit_steps 8 (Z.shiftl x 8) = x.
Proof. destruct (bit_steps_shift 8 x 0) as [E|]; [|lia]. by rewrite Z.shiftl_0_r in E. Qed.

Lemma poly_word : 0 <= poly < 2 ^ 32.
Proof. unfold poly. lia. Qed.

Lemma bit_steps_word n x : 0 <= x < 2 ^ 32 -> 0 <= bit_steps n x < 2 ^ 32.
Proof.
  intros Hx. induction n as [|n IH]; [done|]. rewrite bit_steps_S. unfold bit_step.
  destruct (Z.odd (bit_steps n x)); [apply lxor_word; [|apply poly_word]|]; by apply shiftr_word.
Qed.

Lemma feed_word l data : 0 <= l < 2 ^ 32 -> Forall is_byte data -> 0 <= feed l data < 2 ^ 32.
Proof.
  intros Hl Hd. revert l Hl. induction Hd as [|b data Hb _ IH]; intros l Hl; [done|]. cbn [feed foldl]. apply IH, bit_steps_word, lxor_word; [done|].
  unfold is_byte in Hb. lia.
Qed.

(** From here on [bit_steps] is used through these lemmas. *)
#[global] Opaque bit_steps.

(** ** The tables *)

(** Entry [i] is what [i], shifted by [sh], becomes in [n] steps. *)
Definition table_ok (t : list Z) (sh : Z) (n : nat) : Prop :=
  forall i, 0 <= i < 256 -> table_at t i = Done (bit_steps n (Z.shiftl i sh)).

Definition table_check (t : list Z) (sh : Z) (n : nat) : bool :=
  forallb (fun i => bool_decide (t !! i = Some (bit_steps n (Z.shiftl (Z.of_nat i) sh)))) (seq 0 256).

Lemma table_checked t sh n : table_check t sh n = true -> table_ok t sh n.
Proof.
  unfold table_check. rewrite forallb_forall. intros H i Hi. specialize (H (Z.to_nat i)). rewrite in_seq in H.
  specialize (H ltac:(lia)). apply bool_decide_eq_true in H. unfold table_at. destruct (Z.leb_spec 0 i); [|lia]. rewrite H.
  cbn [demand]. do 3 f_equal. lia.
Qed.

Lemma byte_table : table_ok kByteExtensionTable 0 8.
Proof. apply table_checked. vm_compute. reflexivity. Qed.
Lemma stride_table3 : table_ok kStrideExtensionTable3 0 128.
Proof. apply table_checked. vm_compute. reflexivity. Qed.
Lemma stride_table2 : table_ok kStrideExtensionTable2 8 128.
Proof. apply table_checked. vm_compute. reflexivity. Qed.
Lemma stride_table1 : table_ok kStrideExtensionTable1 16 128.
Proof. apply table_checked. vm_compute. reflexivity. Qed.
Lemma stride_table0 : table_ok kStrideExtensionTable0 24 128.
Proof. apply table_checked. vm_compute. reflexivity. Qed.

Lemma land_byte x : 0 <= Z.land x 0xff < 256.
Proof. change 0xff with (Z.ones 8). rewrite Z.land_ones by lia. apply Z.mod_pos_bound. lia. Qed.

(** A number is its low byte and the rest. *)
Lemma split_byte x : x = Z.lxor (Z.land x 0xff) (Z.shiftl (Z.shiftr x 8) 8).
Proof.
  apply Z.bits_inj'. intros i Hi. change 0xff with (Z.ones 8). rewrite Z.lxor_spec, Z.land_spec, Z.testbit_ones, Z.shiftl_spec by lia.
  destruct (Z.ltb_spec i 8).
  - rewrite (Z.testbit_neg_r _ (i - 8)) by lia. replace (0 <=? i) with true by lia. by rewrite andb_true_r, xorb_false_r.
  - rewrite Z.shiftr_spec by lia. rewrite andb_false_r, andb_false_r. cbn [xorb]. f_equal. lia.
Qed.

(** One table lookup is eight steps. *)
Lemma byte_lookup x : Z.lxor (bit_steps 8 (Z.land x 0xff)) (Z.shiftr x 8) = bit_steps 8 x.
Proof. rewrite (split_byte x) at 3. rewrite linear, bit_steps_8_shift. done. Qed.

Lemma STEP1_spec l b : 0 <= l < 2 ^ 32 -> is_byte b -> STEP1 l b = Done (bit_steps 8 (Z.lxor l b)).
Proof.
  intros Hl Hb. unfold is_byte in Hb. unfold STEP1.
  assert (Hi : Z.lxor (Z.land l 0xff) b = Z.land (Z.lxor l b) 0xff).
  { rewrite <- (Z.mod_small b (2 ^ 8)) by lia. rewrite <- Z.land_ones by lia. change 0xff with (Z.ones 8).
    apply Z.bits_inj'. intros i _. rewrite ?Z.lxor_spec, ?Z.land_spec, ?Z.lxor_spec, ?Z.land_spec. btauto. }
  rewrite Hi, (byte_table _ (land_byte _)), Z.shiftl_0_r. cbn [mbind outcome_bind]. rewrite <- (byte_lookup (Z.lxor l b)). do 2 f_equal.
  rewrite Z.shiftr_lxor. rewrite (Z.shiftr_div_pow2 b), (Z.div_small b) by lia. by rewrite Z.lxor_0_r.
Qed.

Lemma step_bytes_spec data rest l :
  0 <= l < 2 ^ 32 -> Forall is_byte data -> step_bytes (length data) l (data ++ rest) = Done (feed l data, rest).
Proof.
  intros Hl Hd. revert l Hl. induction Hd as [|b data Hb _ IH]; intros l Hl; [done|]. cbn [length step_bytes app feed foldl].
  rewrite STEP1_spec by done. cbn [mbind outcome_bind]. apply IH, bit_steps_word, lxor_word; [done|]. unfold is_byte in Hb. lia.
Qed.

(** ** Words *)

Lemma le_value_lxor b bs : is_byte b -> le_value (b :: bs) = Z.lxor b (Z.shiftl (le_value bs) 8).
Proof.
  intros Hb. unfold is_byte in Hb. cbn [le_value]. rewrite Z.shiftl_mul_pow2 by lia. change (2 ^ 8) with 256.
  replace (256 * le_value bs) with (le_value bs * 2 ^ 8) by lia. rewrite <- (lor_shiftl_add b (le_value bs) 8) by lia.
  rewrite Z.shiftl_mul_pow2 by lia. symmetry. replace (le_value bs * 256) with (le_value bs * 2 ^ 8) by lia.
  apply Z.lxor_lor. apply Z.bits_inj'. intros i Hi. rewrite Z.land_spec, Z.bits_0, <- Z.shiftl_mul_pow2 by lia.
  destruct (Z.ltb_spec i 8); [rewrite Z.shiftl_spec_low by lia; apply andb_false_r|].
  rewrite <- (Z.mod_small b (2 ^ 8)), <- Z.land_ones, Z.land_spec, Z.ones_spec_high by lia. by rewrite andb_false_r.
Qed.

(** Bytes can be fed all at once, as one little-endian number. *)
Lemma feed_at_once data l : Forall is_byte data -> feed l data = bit_steps (8 * length data) (Z.lxor l (le_value data)).
Proof.
  intros Hd. revert l. induction Hd as [|b data Hb _ IH]; intros l; [cbn; by rewrite Z.lxor_0_r|].
  change (feed l (b :: data)) with (feed (bit_steps 8 (Z.lxor l b)) data). rewrite IH. cbn [length].
  replace (8 * S (length data))%nat with (8 * length data + 8)%nat by lia. rewrite bit_steps_add. f_equal.
  rewrite le_value_lxor by done. rewrite <- Z.lxor_assoc, (bit_steps_linear 8 (Z.lxor l b)), bit_steps_8_shift. done.
Qed.

Lemma feed_app l a b : feed l (a ++ b) = feed (feed l a) b.
Proof. apply foldl_app. Qed.

(** Four bytes. *)
Abbreviation word_step := (bit_steps 32).

(** The next four bytes as a word. *)
Record next_word (p : list Z) (w : Z) (p' : list Z) : Prop := NextWord {
  nw_read : ReadUint32LE p = Done w;
  nw_word : 0 <= w < 2 ^ 32;
  nw_drop : drop 4 p = p';
  nw_bytes : Forall is_byte p';
  nw_length : zlen p = zlen p' + 4;
  nw_feed l : feed l p = feed (word_step (Z.lxor l w)) p';
}.

Lemma read_word p : Forall is_byte p -> 4 <= zlen p -> exists w p', next_word p w p'.
Proof.
  intros Hp Hl. destruct p as [|a [|b [|c [|d p]]]]; try (cbn in Hl; lia). rewrite !Forall_cons in Hp. destruct Hp as (Ha & Hb & Hc & Hd & Hp).
  assert (Hw : Forall is_byte [a; b; c; d]) by (repeat (constructor; [done|]); constructor).
  exists (le_value [a; b; c; d]), p. split; try done.
  - apply (le_value_range _ Hw).
  - cbn [length]. lia.
  - intros l. change (a :: b :: c :: d :: p) with ([a; b; c; d] ++ p). rewrite feed_app, (feed_at_once _ l Hw). reflexivity.
Qed.

(** ** Strides *)

(** STEP4 moves a stride over the sixteen bytes of a swath. *)
Abbreviation stride_step := (bit_steps 128).

Lemma stride_words x : stride_step x = word_step (word_step (word_step (word_step x))).
Proof. rewrite <- !bit_steps_add. reflexivity. Qed.

Lemma split_word x : 0 <= x < 2 ^ 32 ->
  x = Z.lxor (Z.lxor (Z.lxor (Z.land x 0xff) (Z.shiftl (Z.land (Z.shiftr x 8) 0xff) 8)) (Z.shiftl (Z.land (Z.shiftr x 16) 0xff) 16))
        (Z.shiftl (Z.shiftr x 24) 24).
Proof.
  intros Hx. rewrite (split_byte x) at 1. rewrite (split_byte (Z.shiftr x 8)) at 1. rewrite (split_byte (Z.shiftr (Z.shiftr x 8) 8)) at 1.
  rewrite !Z.shiftr_shiftr by lia. change (8 + 8) with 16. change (16 + 8) with 24.
  rewrite !Z.shiftl_lxor, !Z.shiftl_shiftl by lia. change (8 + 8) with 16. change (16 + 8) with 24. by rewrite !Z.lxor_assoc.
Qed.

Lemma STEP4_spec p s crc w p' :
  next_word (drop (s * 4) p) w p' -> 0 <= crc < 2 ^ 32 -> STEP4 p s crc = Done (Z.lxor w (stride_step crc)).
Proof.
  intros [Hr _ _ _ _ _] Hc. unfold STEP4. rewrite Hr. cbn [mbind outcome_bind].
  assert (H24 : 0 <= Z.shiftr crc 24 < 256) by (rewrite Z.shiftr_div_pow2 by lia; split; [apply Z.div_pos; lia|apply Z.div_lt_upper_bound; lia]).
  rewrite (stride_table3 _ (land_byte _)), (stride_table2 _ (land_byte _)), (stride_table1 _ (land_byte _)), (stride_table0 _ H24).
  cbn [mbind outcome_bind]. rewrite (split_word crc Hc) at 5. rewrite !(bit_steps_linear 128), Z.shiftl_0_r, !Z.lxor_assoc. done.
Qed.

(** What the four strides stand for. *)
Definition combine (c : strides) : Z :=
  word_step (Z.lxor (crc3 c) (word_step (Z.lxor (crc2 c) (word_step (Z.lxor (crc1 c) (word_step (crc0 c))))))).

Definition words (c : strides) : Prop :=
  0 <= crc0 c < 2 ^ 32 /\ 0 <= crc1 c < 2 ^ 32 /\ 0 <= crc2 c < 2 ^ 32 /\ 0 <= crc3 c < 2 ^ 32.

(** One more word through the first stride. *)
Definition rotated (c : strides) (w : Z) : strides := Strides (crc1 c) (crc2 c) (crc3 c) (Z.lxor w (stride_step (crc0 c))).

Lemma combine_rotated c w : combine (rotated c w) = word_step (Z.lxor (combine c) w).
Proof.
  unfold combine, rotated. cbn [crc0 crc1 crc2 crc3]. rewrite stride_words. rewrite !(bit_steps_linear 32).
  lxor_bits.
Qed.

Lemma rotated_words c w : words c -> 0 <= w < 2 ^ 32 -> words (rotated c w).
Proof.
  intros (H0 & H1 & H2 & H3) Hw. refine (conj H1 (conj H2 (conj H3 _))).
  apply lxor_word; [done|]. by apply bit_steps_word.
Qed.

Lemma rotate_loop_spec fuel : forall c p,
  words c -> Forall is_byte p -> (length p <= fuel)%nat ->
  exists c' p', rotate_loop fuel c p = Done (c', p') /\ words c' /\ Forall is_byte p' /\ zlen p' < 4 /\
    feed (combine c) p = feed (combine c') p'.
Proof.
  induction fuel as [|fuel IH]; intros c p Hc Hp Hf; cbn [rotate_loop].
  { destruct (Z.leb_spec 4 (zlen p)); [lia|]. by exists c, p. }
  destruct (Z.leb_spec 4 (zlen p)); [|by exists c, p].
  destruct (read_word p Hp ltac:(lia)) as (w & p1 & Hw). rewrite (STEP4_spec p 0 _ w p1 Hw) by apply Hc. cbn [mbind outcome_bind].
  destruct Hw as [_ Hww <- Hp1 Hl Hfeed]. destruct (IH (rotated c w) (drop 4 p)) as (c' & p' & E & Hc' & Hp' & Hl' & Hfd);
    [by apply rotated_words|done|lia|]. exists c', p'. split; [exact E|]. do 3 (split; [done|]).
  rewrite Hfeed, <- combine_rotated. exact Hfd.
Qed.

(** A swath is four rotations. *)
Lemma STEP16_spec c p :
  words c -> Forall is_byte p -> 16 <= zlen p ->
  exists c', STEP16 p c = Done (c', drop 16 p) /\ words c' /\ feed (combine c) p = feed (combine c') (drop 16 p).
Proof.
  intros Hc Hp Hl.
  destruct (read_word p Hp ltac:(lia)) as (w0 & p1 & Hw0). pose proof (nw_bytes _ _ _ Hw0) as Hp1. pose proof (nw_length _ _ _ Hw0).
  destruct (read_word p1 Hp1 ltac:(lia)) as (w1 & p2 & Hw1). pose proof (nw_bytes _ _ _ Hw1) as Hp2. pose proof (nw_length _ _ _ Hw1).
  destruct (read_word p2 Hp2 ltac:(lia)) as (w2 & p3 & Hw2). pose proof (nw_bytes _ _ _ Hw2) as Hp3. pose proof (nw_length _ _ _ Hw2).
  destruct (read_word p3 Hp3 ltac:(lia)) as (w3 & p4 & Hw3).
  assert (E1 : drop (1 * 4) p = p1) by (apply (nw_drop _ _ _ Hw0)).
  assert (E2 : drop (2 * 4) p = p2) by (rewrite <- (nw_drop _ _ _ Hw1), <- E1, drop_drop; done).
  assert (E3 : drop (3 * 4) p = p3) by (rewrite <- (nw_drop _ _ _ Hw2), <- E2, drop_drop; done).
  assert (E4 : drop 16 p = p4) by (rewrite <- (nw_drop _ _ _ Hw3), <- E3, drop_drop; done).
  destruct Hc as (Hc0 & Hc1 & Hc2 & Hc3). unfold STEP16. rewrite E4.
  rewrite (STEP4_spec p 0 _ w0 p1) by done. cbn [mbind outcome_bind]. rewrite (STEP4_spec p 1 _ w1 p2) by (rewrite ?E1; done). cbn [mbind outcome_bind].
  rewrite (STEP4_spec p 2 _ w2 p3) by (rewrite ?E2; done). cbn [mbind outcome_bind]. rewrite (STEP4_spec p 3 _ w3 p4) by (rewrite ?E3; done).
  cbn [mbind outcome_bind]. exists (rotated (rotated (rotated (rotated c w0) w1) w2) w3). split; [done|].
  pose proof (nw_word _ _ _ Hw0). pose proof (nw_word _ _ _ Hw1). pose proof (nw_word _ _ _ Hw2). pose proof (nw_word _ _ _ Hw3).
  split; [repeat apply rotated_words; done|]. rewrite !combine_rotated, (nw_feed _ _ _ Hw0), (nw_feed _ _ _ Hw1), (nw_feed _ _ _ Hw2), (nw_feed _ _ _ Hw3). done.
Qed.

Lemma swath_loop_spec fuel : forall c p,
  words c -> Forall is_byte p -> (length p <= fuel)%nat ->
  exists c' p', swath_loop fuel c p = Done (c', p') /\ words c' /\ Forall is_byte p' /\ feed (combine c) p = feed (combine c') p'.
Proof.
  induction fuel as [|fuel IH]; intros c p Hc Hp Hf; cbn [swath_loop].
  { destruct (Z.leb_spec 16 (zlen p)); [lia|]. by exists c, p. }
  destruct (Z.leb_spec 16 (zlen p)); [|by exists c, p].
  destruct (STEP16_spec c p Hc Hp ltac:(lia)) as (c1 & E & Hc1 & Hfeed). rewrite E. cbn [mbind outcome_bind].
  destruct (IH c1 (drop 16 p) Hc1) as (c' & p' & E' & Hc' & Hp' & Hfd); [by apply Forall_drop|rewrite length_drop; lia|].
  exists c', p'. rewrite Hfeed. done.
Qed.

Lemma word_loop_spec n w : 0 <= w < 2 ^ 32 -> word_loop n w = Done (bit_steps (8 * n) w).
Proof.
  revert w. induction n as [|n IH]; intros w Hw; [done|]. cbn [word_loop]. rewrite (byte_table _ (land_byte _)), Z.shiftl_0_r. cbn [mbind outcome_bind].
  rewrite Z.lxor_comm, byte_lookup, IH by (by apply bit_steps_word). f_equal. rewrite <- bit_steps_add. f_equal. lia.
Qed.

Lemma STEP4W_spec w l : 0 <= w < 2 ^ 32 -> 0 <= l < 2 ^ 32 -> STEP4W w l = Done (word_step (Z.lxor w l)).
Proof. intros Hw Hl. unfold STEP4W. rewrite word_loop_spec by (by apply lxor_word). done. Qed.

Lemma extend_swaths_spec l p :
  0 <= l < 2 ^ 32 -> Forall is_byte p -> 16 <= zlen p ->
  exists l' p', extend_swaths l p = Done (l', p') /\ 0 <= l' < 2 ^ 32 /\ Forall is_byte p' /\ feed l p = feed l' p'.
Proof.
  intros Hl Hp Hlen.
  destruct (read_word p Hp ltac:(lia)) as (w0 & p1 & Hw0). pose proof (nw_bytes _ _ _ Hw0) as Hp1. pose proof (nw_length _ _ _ Hw0).
  destruct (read_word p1 Hp1 ltac:(lia)) as (w1 & p2 & Hw1). pose proof (nw_bytes _ _ _ Hw1) as Hp2. pose proof (nw_length _ _ _ Hw1).
  destruct (read_word p2 Hp2 ltac:(lia)) as (w2 & p3 & Hw2). pose proof (nw_bytes _ _ _ Hw2) as Hp3. pose proof (nw_length _ _ _ Hw2).
  destruct (read_word p3 Hp3 ltac:(lia)) as (w3 & p4 & Hw3).
  assert (E1 : drop (1 * 4) p = p1) by (apply (nw_drop _ _ _ Hw0)).
  assert (E2 : drop (2 * 4) p = p2) by (rewrite <- (nw_drop _ _ _ Hw1), <- E1, drop_drop; done).
  assert (E3 : drop (3 * 4) p = p3) by (rewrite <- (nw_drop _ _ _ Hw2), <- E2, drop_drop; done).
  assert (E4 : drop 16 p = p4) by (rewrite <- (nw_drop _ _ _ Hw3), <- E3, drop_drop; done).
  pose proof (nw_word _ _ _ Hw0). pose proof (nw_word _ _ _ Hw1). pose proof (nw_word _ _ _ Hw2). pose proof (nw_word _ _ _ Hw3).
  unfold extend_swaths. rewrite E1, E2, E3, E4. change (drop (0 * 4) p) with p.
  rewrite (nw_read _ _ _ Hw0), (nw_read _ _ _ Hw1), (nw_read _ _ _ Hw2), (nw_read _ _ _ Hw3). cbn [mbind outcome_bind].
  set (c0 := Strides (Z.lxor w0 l) w1 w2 w3).
  assert (Hc0 : words c0) by (refine (conj _ (conj _ (conj _ _))); try done; by apply lxor_word).
  destruct (swath_loop_spec (length p4) c0 p4 Hc0 (nw_bytes _ _ _ Hw3) ltac:(lia)) as (c1 & p5 & -> & Hc1 & Hp5 & Hf1). cbn [mbind outcome_bind].
  destruct (rotate_loop_spec (length p5) c1 p5 Hc1 Hp5 ltac:(lia)) as (c2 & p6 & -> & Hc2 & Hp6 & _ & Hf2). cbn [mbind outcome_bind].
  destruct Hc2 as (Ha & Hb & Hc & Hd).
  rewrite STEP4W_spec by done. cbn [mbind outcome_bind]. rewrite Z.lxor_0_r.
  do 3 (rewrite STEP4W_spec by (try done; apply bit_steps_word; repeat apply lxor_word; try done; repeat (apply bit_steps_word, lxor_word || apply bit_steps_word; try done));
        cbn [mbind outcome_bind]).
  exists (combine c2), p6. split; [done|]. split; [|split; [done|]].
  - apply bit_steps_word, lxor_word; [done|]. repeat (apply bit_steps_word, lxor_word; [done|]). by apply bit_steps_word.
  - rewrite <- Hf2, <- Hf1. rewrite (nw_feed _ _ _ Hw0), (nw_feed _ _ _ Hw1), (nw_feed _ _ _ Hw2), (nw_feed _ _ _ Hw3). f_equal.
    unfold combine, c0. cbn [crc0 crc1 crc2 crc3]. rewrite (Z.lxor_comm l w0).
    rewrite !(Z.lxor_comm (word_step _) _). done.
Qed.

(** ** Extend *)

Lemma RoundUp_4 addr : 0 <= addr < 2 ^ 64 - 3 -> addr <= RoundUp 4 addr <= addr + 3.
Proof.
  intros Ha. unfold RoundUp. rewrite u64_small by lia. change (u64 (Z.lnot (4 - 1))) with (Z.shiftl (2 ^ 62 - 1) 2).
  rewrite land_field, Z.shiftl_mul_pow2 by lia. change (2 ^ 2) with 4. change (4 - 1) with 3.
  rewrite (Z.mod_small ((addr + 3) / 4)) by (split; [apply Z.div_pos; lia|apply Z.div_lt_upper_bound; lia]).
  pose proof (Z.div_mod (addr + 3) 4 ltac:(lia)). pose proof (Z.mod_pos_bound (addr + 3) 4 ltac:(lia)). lia.
Qed.

Lemma step_prefix n l p :
  0 <= l < 2 ^ 32 -> Forall is_byte p -> (n <= length p)%nat ->
  step_bytes n l p = Done (feed l (take n p), drop n p) /\ 0 <= feed l (take n p) < 2 ^ 32.
Proof.
  intros Hl Hp Hn. split; [|apply feed_word; [done|by apply Forall_take]]. rewrite <- (take_drop n p) at 1.
  rewrite <- (length_take_le p n Hn) at 1. apply step_bytes_spec; [done|by apply Forall_take].
Qed.

Lemma Extend_spec addr crc data :
  0 <= addr < 2 ^ 64 - 3 -> 0 <= crc < 2 ^ 32 -> Forall is_byte data -> Extend addr crc data = Done (crc32c crc data).
Proof.
  intros Ha Hc Hd. unfold Extend, crc32c. change CanAccelerateCRC32C with false. cbv iota zeta.
  assert (Hl : 0 <= Z.lxor crc kCRC32Xor < 2 ^ 32) by (apply lxor_word; [done|unfold kCRC32Xor; lia]).
  set (l := Z.lxor crc kCRC32Xor) in *. clearbody l. pose proof (RoundUp_4 addr Ha) as Hx. set (x := RoundUp 4 addr) in *. clearbody x.
  assert (exists l1 p1, (if x <=? addr + zlen data then step_bytes (Z.to_nat (x - addr)) l data else Done (l, data)) = Done (l1, p1) /\
    0 <= l1 < 2 ^ 32 /\ Forall is_byte p1 /\ feed l data = feed l1 p1) as (l1 & p1 & E1 & Hl1 & Hp1 & ->).
  { destruct (Z.leb_spec x (addr + zlen data)); [|by exists l, data].
    destruct (step_prefix (Z.to_nat (x - addr)) l data Hl Hd ltac:(lia)) as [E Hr]. eexists _, _. split; [exact E|]. split; [exact Hr|].
    split; [by apply Forall_drop|]. by rewrite <- feed_app, take_drop. }
  rewrite E1. cbn [mbind outcome_bind]. clear E1 Hd Hl Hx.
  assert (exists l2 p2, (if 16 <=? zlen p1 then extend_swaths l1 p1 else Done (l1, p1)) = Done (l2, p2) /\
    0 <= l2 < 2 ^ 32 /\ Forall is_byte p2 /\ feed l1 p1 = feed l2 p2) as (l2 & p2 & E2 & Hl2 & Hp2 & ->).
  { destruct (Z.leb_spec 16 (zlen p1)); [by apply extend_swaths_spec|by exists l1, p1]. }
  rewrite E2. cbn [mbind outcome_bind]. pose proof (step_bytes_spec p2 [] l2 Hl2 Hp2) as E. rewrite app_nil_r in E. by rewrite E.
Qed.

Lemma crc32c_app crc a b : crc32c (crc32c crc a) b = crc32c crc (a ++ b).
Proof.
  unfold crc32c. rewrite Z.lxor_assoc, Z.lxor_nilpotent, Z.lxor_0_r, feed_app. done.
Qed.

Lemma crc32c_word crc data : 0 <= crc < 2 ^ 32 -> Forall is_byte data -> 0 <= crc32c crc data < 2 ^ 32.
Proof.
  intros Hc Hd. assert (0 <= kCRC32Xor < 2 ^ 32) by (unfold kCRC32Xor; lia).
  apply lxor_word; [apply feed_word; [by apply lxor_word|done]|done].
Qed.

(** ** Masked checksums *)

Lemma mask_word crc : 0 <= Mask crc < 2 ^ 32.
Proof. apply u32_range. Qed.

(** Splitting a word at bit [n] and putting the low part on top. *)
Lemma rotate_value x n : 0 <= x < 2 ^ 32 -> 0 <= n <= 32 ->
  Z.lor (Z.shiftr x n) (u32 (Z.shiftl x (32 - n))) = x / 2 ^ n + (x mod 2 ^ n) * 2 ^ (32 - n).
Proof.
  intros Hx Hn. rewrite Z.shiftr_div_pow2 by lia. unfold u32, wrap. rewrite Z.shiftl_mul_pow2 by lia.
  assert (E32 : 2 ^ 32 = 2 ^ n * 2 ^ (32 - n)) by (rewrite <- Z.pow_add_r by lia; f_equal; lia).
  pose proof (Z.pow_pos_nonneg 2 n ltac:(lia) ltac:(lia)). pose proof (Z.pow_pos_nonneg 2 (32 - n) ltac:(lia) ltac:(lia)).
  rewrite E32, Z.mul_mod_distr_r by lia. rewrite <- Z.shiftl_mul_pow2 by lia. rewrite lor_shiftl_add; [by rewrite ?Z.shiftl_mul_pow2 by lia|lia|].
  split; [apply Z.div_pos; lia|apply Z.div_lt_upper_bound; nia].
Qed.

Lemma Unmask_Mask crc : 0 <= crc < 2 ^ 32 -> Unmask (Mask crc) = crc.
Proof.
  intros Hc. unfold Unmask, Mask. pose proof (rotate_value crc 15 Hc ltac:(lia)) as E15. change (32 - 15) with 17 in E15. rewrite E15. clear E15.
  pose proof (Z.mod_pos_bound crc (2 ^ 15) ltac:(lia)). pose proof (Z.div_mod crc (2 ^ 15) ltac:(lia)).
  assert (Hq : 0 <= crc / 2 ^ 15 < 2 ^ 17) by (split; [apply Z.div_pos; lia|apply Z.div_lt_upper_bound; lia]).
  set (q := crc / 2 ^ 15) in *. set (r := crc mod 2 ^ 15) in *.
  assert (u32 (u32 (q + r * 2 ^ 17 + kMaskDelta) - kMaskDelta) = q + r * 2 ^ 17) as ->.
  { unfold u32, wrap. rewrite Zminus_mod_idemp_l, Z.add_simpl_r. apply Z.mod_small. lia. }
  pose proof (rotate_value (q + r * 2 ^ 17) 17 ltac:(lia) ltac:(lia)) as E17. change (32 - 17) with 15 in E17. rewrite E17. clear E17.
  rewrite Z.div_add, (Z.div_small q), Z.mod_add, (Z.mod_small q) by lia. lia.
Qed.

(** ** Error detection *)

#[local] Transparent bit_steps.
Lemma bit_step_zero x : 0 <= x < 2 ^ 32 -> bit_step x = 0 -> x = 0.
Proof.
  intros Hx. unfold bit_step. rewrite Z.shiftr_div_pow2 by lia. change (2 ^ 1) with 2.
  pose proof (Z.div_mod x 2 ltac:(lia)) as Hdm. rewrite (Zmod_odd x) in Hdm. destruct (Z.odd x).
  - intros E. apply Z.lxor_eq in E. unfold poly in E. lia.
  - intros E. lia.
Qed.

Lemma bit_steps_zero n x : 0 <= x < 2 ^ 32 -> bit_steps n x = 0 -> x = 0.
Proof.
  intros Hx. induction n as [|n IH]; [done|]. rewrite bit_steps_S. intros E. apply IH. apply bit_step_zero in E; [done|]. by apply bit_steps_word.
Qed.

Lemma bit_steps_inj n x y : 0 <= x < 2 ^ 32 -> 0 <= y < 2 ^ 32 -> bit_steps n x = bit_steps n y -> x = y.
Proof.
  intros Hx Hy E. apply Z.lxor_eq. apply (bit_steps_zero n); [by apply lxor_word|]. by rewrite (bit_steps_linear n), E, Z.lxor_nilpotent.
Qed.

Lemma lxor_inj_l x y z : Z.lxor x y = Z.lxor x z -> y = z.
Proof. intros E. apply (f_equal (Z.lxor x)) in E. by rewrite <- !Z.lxor_assoc, Z.lxor_nilpotent, !Z.lxor_0_l in E. Qed.

Lemma feed_inj_state data l l' : 0 <= l < 2 ^ 32 -> 0 <= l' < 2 ^ 32 -> Forall is_byte data -> feed l data = feed l' data -> l = l'.
Proof.
  intros Hl Hl' Hd. revert l l' Hl Hl'. induction Hd as [|b data Hb _ IH]; intros l l' Hl Hl' E; [done|]. cbn [feed foldl] in E. unfold is_byte in Hb.
  assert (0 <= Z.lxor l b < 2 ^ 32) by (apply lxor_word; lia). assert (0 <= Z.lxor l' b < 2 ^ 32) by (apply lxor_word; lia).
  apply IH in E; [|by apply bit_steps_word..]. apply bit_steps_inj in E; [|done..]. rewrite !(Z.lxor_comm _ b) in E. by apply lxor_inj_l in E.
Qed.

(** Two words differing within four adjacent bytes have different checksums. *)
Lemma feed_burst l a x y b :
  0 <= l < 2 ^ 32 -> Forall is_byte (a ++ x ++ b) -> Forall is_byte y -> length x = length y -> (length x <= 4)%nat ->
  feed l (a ++ x ++ b) = feed l (a ++ y ++ b) -> x = y.
Proof.
  intros Hl Hab Hy Hxy H4 E. rewrite !Forall_app in Hab. destruct Hab as (Ha & Hx & Hb). rewrite !feed_app in E.
  assert (Hla : 0 <= feed l a < 2 ^ 32) by (by apply feed_word).
  apply feed_inj_state in E; [|by apply feed_word..|done].
  rewrite (feed_at_once x), (feed_at_once y), Hxy in E by done.
  assert (Hval : forall z, Forall is_byte z -> (length z <= 4)%nat -> 0 <= le_value z < 2 ^ 32).
  { intros z Hz Hlz. pose proof (le_value_range z Hz). assert (256 ^ zlen z <= 256 ^ 4) by (apply Z.pow_le_mono_r; lia). lia. }
  pose proof (Hval x Hx ltac:(lia)). pose proof (Hval y Hy ltac:(lia)).
  apply bit_steps_inj in E; [|by apply lxor_word..]. apply lxor_inj_l in E.
  rewrite <- (le_bytes_value x Hx), <- (le_bytes_value y Hy), Hxy. by f_equal.
Qed.
