(* ===== verification/LdbLog.v ===== *)
(** * LdbLog: the write-ahead log of leveldb
    (leveldb-library/db/log_format.h, log_writer.cc, log_reader.cc).

    A log is a sequence of 32768-byte blocks; a logical record is written as
    one or more physical records, none of which crosses a block boundary.
    Files are interfaces of the environment; a failing [assert] is undefined
    behaviour. *)

From Stdlib Require Import ZifyBool.
From stdpp Require Import base tactics numbers list gmap strings pretty.
From S2P Require Import Prelude PbOStream PbWire LdbCoding LdbCrc.
Open Scope Z_scope.

(** [Status] of include/leveldb/status.h, with its message. *)
Inductive Status : Type :=
| OK
| NotFound (msg : string)
| Corruption (msg : string)
| NotSupported (msg : string)
| InvalidArgument (msg : string)
| IOError (msg : string).

Definition ok (s : Status) : bool := match s with OK => true | _ => false end.

(** [Slice]: an address and the bytes there. *)
Record Slice : Type := MkSlice { data : Z; bytes : list Z }.
Definition size (s : Slice) : Z := zlen (bytes s).
Definition empty_slice : Slice := MkSlice 0 [].
Definition remove_prefix (n : Z) (s : Slice) : Slice := MkSlice (data s + n) (drop (Z.to_nat n) (bytes s)).

(** ** log_format.h *)

Definition kZeroType : Z := 0.
Definition kFullType : Z := 1.
Definition kFirstType : Z := 2.
Definition kMiddleType : Z := 3.
Definition kLastType : Z := 4.
Definition kMaxRecordType : Z := kLastType.
Definition kBlockSize : Z := 32768.
Definition kHeaderSize : Z := 4 + 2 + 1.

(** ** log_writer.cc *)

(** [WritableFile] of include/leveldb/env.h, as far as the log uses it. *)
Class WritableFile (F : Type) : Type := {
  Append : list Z -> F -> Status * F;
  Flush : F -> Status * F;
}.

Section Writer.
Context {F : Type} `{WritableFile F}.

Record Writer : Type := MkWriter { dest_ : F; block_offset_ : Z; type_crc_ : list Z }.

(** The checksums of the bytes 0 to [kMaxRecordType]; [addr] is the address of
    the local variable [t]. *)
Fixpoint init_type_crc (addr : Z) (types : list Z) : outcome (list Z) :=
  match types with
  | [] => Done []
  | t :: types => c ← Value addr [t]; rest ← init_type_crc addr types; Done (c :: rest)
  end.
Definition InitTypeCrc (addr : Z) : outcome (list Z) := init_type_crc addr [0; 1; 2; 3; 4].

(** [Writer(dest, dest_length)]; the other constructor has length 0. *)
Definition new_Writer (addr : Z) (dest : F) (dest_length : Z) : outcome Writer :=
  crcs ← InitTypeCrc addr;
  Done (MkWriter dest (dest_length mod kBlockSize) crcs).

Definition EmitPhysicalRecord (t : Z) (ptr : Slice) (w : Writer) : outcome (Status * Writer) :=
  let length := size ptr in
  if 0xffff <? length then Undef else
  if kBlockSize <? block_offset_ w + kHeaderSize + length then Undef else
  type_crc ← demand (type_crc_ w !! Z.to_nat t);
  crc ← Extend (data ptr) type_crc (bytes ptr);
  let crc := Mask crc in
  let buf := EncodeFixed32 crc ++ [u8 (Z.land length 0xff); u8 (Z.shiftr length 8); u8 t] in
  let '(s, dest) := Append buf (dest_ w) in
  let '(s, dest) :=
    if ok s then
      let '(s, dest) := Append (bytes ptr) dest in
      if ok s then Flush dest else (s, dest)
    else (s, dest) in
  Done (s, MkWriter dest (block_offset_ w + (kHeaderSize + length)) (type_crc_ w)).

(** Switch to a new block, filling the trailer of the old one, if a header
    does not fit any more. *)
Definition next_block (w : Writer) : Writer :=
  let leftover := kBlockSize - block_offset_ w in
  if leftover <? kHeaderSize then
    let dest := if 0 <? leftover then snd (Append (replicate (Z.to_nat leftover) 0) (dest_ w)) else dest_ w in
    MkWriter dest 0 (type_crc_ w)
  else w.

(** The do-while loop of [AddRecord]. *)
Fixpoint add_record_loop (fuel : nat) (begin : bool) (ptr : Slice) (w : Writer) : outcome (Status * Writer) :=
  match fuel with
  | O => NoFuel
  | S fuel =>
    let leftover := kBlockSize - block_offset_ w in
    if leftover <? 0 then Undef else
    let w := next_block w in
    if kBlockSize - block_offset_ w - kHeaderSize <? 0 then Undef else
    let avail := kBlockSize - block_offset_ w - kHeaderSize in
    let left := size ptr in
    let fragment_length := if left <? avail then left else avail in
    let end_ := left =? fragment_length in
    let type :=
      if begin && end_ then kFullType else if begin then kFirstType else if end_ then kLastType else kMiddleType in
    '(s, w) ← EmitPhysicalRecord type (MkSlice (data ptr) (take (Z.to_nat fragment_length) (bytes ptr))) w;
    let ptr := remove_prefix fragment_length ptr in
    if ok s && (0 <? size ptr) then add_record_loop fuel false ptr w else Done (s, w)
  end.

(** A round that stores no byte is followed by one in a fresh block. *)
Definition AddRecord (slice : Slice) (w : Writer) : outcome (Status * Writer) :=
  add_record_loop (length (bytes slice) + 2) true slice w.
End Writer.
Arguments Writer F : clear implicits.

(** ** log_reader.cc *)

(** [SequentialFile]: [Read(n, &result, scratch)] and [Skip(n)]. *)
Class SequentialFile (F : Type) : Type := {
  Read : Z -> Z -> F -> Status * Slice * F;
  Skip : Z -> F -> Status * F;
}.

Definition kEof : Z := kMaxRecordType + 1.
Definition kBadRecord : Z := kMaxRecordType + 2.

Section Reader.
Context {F : Type} `{SequentialFile F}.

(** [reporter_] is null in [None], otherwise the calls it has received. *)
Record Reader : Type := MkReader {
  file_ : F;
  reporter_ : option (list (Z * Status));
  checksum_ : bool;
  backing_store_ : Z;
  buffer_ : Slice;
  eof_ : bool;
  last_record_offset_ : Z;
  end_of_buffer_offset_ : Z;
  initial_offset_ : Z;
  resyncing_ : bool;
}.

(** [Reader(file, reporter, checksum, initial_offset)]; [store] is the address
    of the new block. *)
Definition new_Reader (file : F) (reporter : option (list (Z * Status))) (checksum : bool) (store initial_offset : Z) : Reader :=
  MkReader file reporter checksum store empty_slice false 0 0 initial_offset (0 <? initial_offset).

Definition set_file (f : F) (r : Reader) : Reader :=
  MkReader f (reporter_ r) (checksum_ r) (backing_store_ r) (buffer_ r) (eof_ r) (last_record_offset_ r) (end_of_buffer_offset_ r)
    (initial_offset_ r) (resyncing_ r).
Definition set_buffer (b : Slice) (r : Reader) : Reader :=
  MkReader (file_ r) (reporter_ r) (checksum_ r) (backing_store_ r) b (eof_ r) (last_record_offset_ r) (end_of_buffer_offset_ r)
    (initial_offset_ r) (resyncing_ r).
Definition set_eof (b : bool) (r : Reader) : Reader :=
  MkReader (file_ r) (reporter_ r) (checksum_ r) (backing_store_ r) (buffer_ r) b (last_record_offset_ r) (end_of_buffer_offset_ r)
    (initial_offset_ r) (resyncing_ r).
Definition set_last (n : Z) (r : Reader) : Reader :=
  MkReader (file_ r) (reporter_ r) (checksum_ r) (backing_store_ r) (buffer_ r) (eof_ r) n (end_of_buffer_offset_ r)
    (initial_offset_ r) (resyncing_ r).
Definition set_end (n : Z) (r : Reader) : Reader :=
  MkReader (file_ r) (reporter_ r) (checksum_ r) (backing_store_ r) (buffer_ r) (eof_ r) (last_record_offset_ r) n
    (initial_offset_ r) (resyncing_ r).
Definition set_resyncing (b : bool) (r : Reader) : Reader :=
  MkReader (file_ r) (reporter_ r) (checksum_ r) (backing_store_ r) (buffer_ r) (eof_ r) (last_record_offset_ r) (end_of_buffer_offset_ r)
    (initial_offset_ r) b.
Definition add_report (x : Z * Status) (r : Reader) : Reader :=
  MkReader (file_ r) ((fun l => l ++ [x]) <$> reporter_ r) (checksum_ r) (backing_store_ r) (buffer_ r) (eof_ r) (last_record_offset_ r)
    (end_of_buffer_offset_ r) (initial_offset_ r) (resyncing_ r).

Definition LastRecordOffset (r : Reader) : Z := last_record_offset_ r.

Definition ReportDrop (n : Z) (reason : Status) (r : Reader) : Reader :=
  if bool_decide (is_Some (reporter_ r)) && (initial_offset_ r <=? u64 (end_of_buffer_offset_ r - size (buffer_ r) - n))
  then add_report (n, reason) r else r.

Definition ReportCorruption (n : Z) (reason : string) (r : Reader) : Reader := ReportDrop n (Corruption reason) r.

Definition SkipToInitialBlock (r : Reader) : bool * Reader :=
  let offset_in_block := initial_offset_ r mod kBlockSize in
  let block_start_location := initial_offset_ r - offset_in_block in
  let block_start_location :=
    if kBlockSize - 6 <? offset_in_block then u64 (block_start_location + kBlockSize) else block_start_location in
  let r := set_end block_start_location r in
  if 0 <? block_start_location then
    let '(skip_status, f) := Skip block_start_location (file_ r) in
    let r := set_file f r in
    if ok skip_status then (true, r) else (false, ReportDrop block_start_location skip_status r)
  else (true, r).

(** The stored checksum against that of the type and the payload. *)
Definition crc_matches (header : Slice) (length : Z) : outcome bool :=
  stored ← DecodeFixed32 (bytes header);
  let expected_crc := Unmask stored in
  actual_crc ← Value (data header + 6) (take (Z.to_nat (1 + length)) (drop 6 (bytes header)));
  Done (actual_crc =? expected_crc).

(** What [ReadPhysicalRecord] does with a buffer that holds a header.  The
    result is the type and the slice in [*result]. *)
Definition parse_record (result : Slice) (r : Reader) : outcome (Z * Slice * Reader) :=
  let header := buffer_ r in
  h4 ← demand (bytes header !! 4%nat);
  h5 ← demand (bytes header !! 5%nat);
  h6 ← demand (bytes header !! 6%nat);
  let a := Z.land (u32 (s8 h4)) 0xff in
  let b := Z.land (u32 (s8 h5)) 0xff in
  let type := u32 (s8 h6) in
  let length := Z.lor a (Z.shiftl b 8) in
  if size (buffer_ r) <? kHeaderSize + length then
    let drop_size := size (buffer_ r) in
    let r := set_buffer empty_slice r in
    if negb (eof_ r) then Done (kBadRecord, result, ReportCorruption drop_size "bad record length" r)
    else Done (kEof, result, r)
  else if (type =? kZeroType) && (length =? 0) then Done (kBadRecord, result, set_buffer empty_slice r)
  else
    good ← (if checksum_ r then crc_matches header length else Done true);
    if negb good then
      let drop_size := size (buffer_ r) in
      Done (kBadRecord, result, ReportCorruption drop_size "checksum mismatch" (set_buffer empty_slice r))
    else
      let r := set_buffer (remove_prefix (kHeaderSize + length) (buffer_ r)) r in
      if u64 (end_of_buffer_offset_ r - size (buffer_ r) - kHeaderSize - length) <? initial_offset_ r
      then Done (kBadRecord, empty_slice, r)
      else Done (type, MkSlice (data header + kHeaderSize) (take (Z.to_nat length) (drop (Z.to_nat kHeaderSize) (bytes header))), r).

(** The loop refills the buffer at most once. *)
Fixpoint read_physical_loop (fuel : nat) (result : Slice) (r : Reader) : outcome (Z * Slice * Reader) :=
  match fuel with
  | O => NoFuel
  | S fuel =>
    if size (buffer_ r) <? kHeaderSize then
      if negb (eof_ r) then
        let r := set_buffer empty_slice r in
        let '(status, buffer, f) := Read kBlockSize (backing_store_ r) (file_ r) in
        let r := set_file f (set_buffer buffer r) in
        let r := set_end (u64 (end_of_buffer_offset_ r + size (buffer_ r))) r in
        if negb (ok status) then
          Done (kEof, result, set_eof true (ReportDrop kBlockSize status (set_buffer empty_slice r)))
        else
          let r := if size (buffer_ r) <? kBlockSize then set_eof true r else r in
          read_physical_loop fuel result r
      else Done (kEof, result, set_buffer empty_slice r)
    else parse_record result r
  end.
Definition ReadPhysicalRecord (result : Slice) (r : Reader) : outcome (Z * Slice * Reader) := read_physical_loop 2 result r.

(** The loop of [ReadRecord]: the record, if there is one, the scratch string
    and the reader. *)
Fixpoint read_record_loop (fuel : nat) (fragment : Slice) (in_fragmented_record : bool) (prospective : Z) (scratch : list Z) (r : Reader)
    : outcome (option (list Z) * Reader) :=
  match fuel with
  | O => NoFuel
  | S fuel =>
    '(record_type, fragment, r) ← ReadPhysicalRecord fragment r;
    let physical_record_offset := u64 (end_of_buffer_offset_ r - size (buffer_ r) - kHeaderSize - size fragment) in
    if resyncing_ r && (record_type =? kMiddleType) then read_record_loop fuel fragment in_fragmented_record prospective scratch r else
    if resyncing_ r && (record_type =? kLastType) then
      read_record_loop fuel fragment in_fragmented_record prospective scratch (set_resyncing false r) else
    let r := set_resyncing false r in
    if record_type =? kFullType then
      let r := if in_fragmented_record && negb (zlen scratch =? 0)
               then ReportCorruption (zlen scratch) "partial record without end(1)" r else r in
      Done (Some (bytes fragment), set_last physical_record_offset r)
    else if record_type =? kFirstType then
      let r := if in_fragmented_record && negb (zlen scratch =? 0)
               then ReportCorruption (zlen scratch) "partial record without end(2)" r else r in
      read_record_loop fuel fragment true physical_record_offset (bytes fragment) r
    else if record_type =? kMiddleType then
      if negb in_fragmented_record then
        read_record_loop fuel fragment in_fragmented_record prospective scratch
          (ReportCorruption (size fragment) "missing start of fragmented record(1)" r)
      else read_record_loop fuel fragment in_fragmented_record prospective (scratch ++ bytes fragment) r
    else if record_type =? kLastType then
      if negb in_fragmented_record then
        read_record_loop fuel fragment in_fragmented_record prospective scratch
          (ReportCorruption (size fragment) "missing start of fragmented record(2)" r)
      else Done (Some (scratch ++ bytes fragment), set_last prospective r)
    else if record_type =? kEof then Done (None, r)
    else if record_type =? kBadRecord then
      if in_fragmented_record then
        read_record_loop fuel fragment false prospective [] (ReportCorruption (zlen scratch) "error in middle of record" r)
      else read_record_loop fuel fragment in_fragmented_record prospective scratch r
    else
      let r := ReportCorruption (size fragment + (if in_fragmented_record then zlen scratch else 0))
                 ("unknown record type " ++ pretty record_type) r in
      read_record_loop fuel fragment false prospective [] r
  end.

(** [None] is [return false]. *)
Definition ReadRecord (fuel : nat) (r : Reader) : outcome (option (list Z) * Reader) :=
  let '(ready, r) := if last_record_offset_ r <? initial_offset_ r then SkipToInitialBlock r else (true, r) in
  if negb ready then Done (None, r) else read_record_loop fuel empty_slice false 0 [] r.
End Reader.
Arguments Reader F : clear implicits.
