(* ===== verification/LdbLogSpec.v ===== *)
(** * LdbLogSpec: what the log writer writes the log reader reads.

    [frames] is the layout of physical records in blocks.  The writer appends
    frames; the reader returns the records of the frames it finds complete. *)

From Stdlib Require Import ZifyBool.
From stdpp Require Import base tactics numbers list gmap strings pretty.
From S2P Require Import Prelude PbOStream PbWire LdbCoding LdbCrc LdbCrcSpec LdbLog.
Open Scope Z_scope.

(** ** The layout *)

Definition is_type (t : Z) : Prop := 1 <= t <= 4.

(** A physical record. *)
Definition header (t : Z) (payload : list Z) : list Z :=
  EncodeFixed32 (Mask (crc32c 0 (t :: payload))) ++ [zlen payload mod 256; zlen payload / 256; t].
Definition physical (t : Z) (payload : list Z) : list Z := header t payload ++ payload.

(** The zeros before a record, and where it starts in its block. *)
Definition padding (off : Z) : list Z := if kBlockSize - off <? kHeaderSize then replicate (Z.to_nat (kBlockSize - off)) 0 else [].
Definition start (off : Z) : Z := if kBlockSize - off <? kHeaderSize then 0 else off.
Definition next_off (off : Z) (payload : list Z) : Z := start off + kHeaderSize + zlen payload.

Fixpoint frames (off : Z) (fs : list (Z * list Z)) : list Z :=
  match fs with
  | [] => []
  | (t, d) :: fs => padding off ++ physical t d ++ frames (next_off off d) fs
  end.

Fixpoint end_off (off : Z) (fs : list (Z * list Z)) : Z :=
  match fs with [] => off | (t, d) :: fs => end_off (next_off off d) fs end.

(** Records of known types that stay inside their blocks. *)
Fixpoint fits (off : Z) (fs : list (Z * list Z)) : Prop :=
  match fs with
  | [] => 0 <= off <= kBlockSize
  | (t, d) :: fs => 0 <= off <= kBlockSize /\ is_type t /\ Forall is_byte d /\ next_off off d <= kBlockSize /\ fits (next_off off d) fs
  end.

(** The physical records of one logical record, or of the rest of one. *)
Inductive record_frames : bool -> list Z -> list (Z * list Z) -> Prop :=
| frames_end begin d : record_frames begin d [(if begin then kFullType else kLastType, d)]
| frames_more begin d d' fs : record_frames false d' fs ->
    record_frames begin (d ++ d') ((if begin then kFirstType else kMiddleType, d) :: fs).

Lemma frames_app fs gs : forall off, frames off (fs ++ gs) = frames off fs ++ frames (end_off off fs) gs.
Proof. induction fs as [|[t d] fs IH]; intros off; [done|]. cbn [app frames end_off]. by rewrite IH, !app_assoc. Qed.

Lemma end_off_app fs gs : forall off, end_off off (fs ++ gs) = end_off (end_off off fs) gs.
Proof. induction fs as [|[t d] fs IH]; intros off; [done|]. cbn [app end_off]. by rewrite IH. Qed.

Lemma fits_app fs gs : forall off, fits off (fs ++ gs) <-> fits off fs /\ fits (end_off off fs) gs.
Proof.
  induction fs as [|[t d] fs IH]; intros off; cbn [app fits end_off].
  - split; [|tauto]. intros Hg. split; [|done]. destruct gs as [|[t d] gs]; cbn in Hg; tauto.
  - rewrite IH. tauto.
Qed.

Lemma fits_off off fs : fits off fs -> 0 <= off <= kBlockSize.
Proof. destruct fs as [|[t d] fs]; cbn; tauto. Qed.

Lemma length_header t payload : length (header t payload) = 7%nat.
Proof. unfold header, EncodeFixed32, kLittleEndian. by rewrite length_app, length_le_bytes. Qed.

Lemma length_physical t payload : zlen (physical t payload) = kHeaderSize + zlen payload.
Proof. unfold physical. rewrite length_app, length_header. unfold kHeaderSize. lia. Qed.

Lemma length_padding off : 0 <= off <= kBlockSize -> zlen (padding off) < kHeaderSize.
Proof. intros Ho. unfold padding, kHeaderSize. destruct (Z.ltb_spec (kBlockSize - off) (4 + 2 + 1)); [rewrite length_replicate|cbn]; lia. Qed.

(** ** The writer *)

(** A file whose operations succeed, with what has been written to it. *)
Class GoodFile (F : Type) `{WritableFile F} : Type := {
  contents : F -> list Z;
  Append_good d f : exists f', Append d f = (OK, f') /\ contents f' = contents f ++ d;
  Flush_good f : exists f', Flush f = (OK, f') /\ contents f' = contents f;
}.

(** The addresses an object of [n] bytes can have. *)
Definition address (a n : Z) : Prop := 0 <= a /\ a + n < 2 ^ 64 - 3.

Lemma type_crcs addr : address addr 1 -> InitTypeCrc addr = Done (map (fun t => crc32c 0 [t]) [0; 1; 2; 3; 4]).
Proof.
  intros [Ha0 Ha]. unfold InitTypeCrc.
  assert (Hv : forall t, 0 <= t <= 4 -> Value addr [t] = Done (crc32c 0 [t])).
  { intros t Ht. unfold Value. apply Extend_spec; [lia|lia|]. repeat constructor; lia. }
  cbn [init_type_crc]. rewrite !Hv by lia. done.
Qed.

Section Writing.
Context {F : Type} `{GoodFile F}.

Definition writer_ok (w : Writer F) : Prop :=
  0 <= block_offset_ w <= kBlockSize /\ type_crc_ w = map (fun t => crc32c 0 [t]) [0; 1; 2; 3; 4].

Lemma emit_spec t ptr w :
  writer_ok w -> is_type t -> Forall is_byte (bytes ptr) -> address (data ptr) (size ptr) ->
  block_offset_ w + kHeaderSize + size ptr <= kBlockSize ->
  exists w', EmitPhysicalRecord t ptr w = Done (OK, w') /\ writer_ok w' /\
    block_offset_ w' = block_offset_ w + kHeaderSize + size ptr /\ contents (dest_ w') = contents (dest_ w) ++ physical t (bytes ptr).
Proof.
  intros [Hoff Hcrc] Ht Hb [Ha0 Ha] Hfit. unfold kHeaderSize, kBlockSize in *. unfold is_type in Ht. unfold EmitPhysicalRecord.
  assert (0 <= size ptr) by (unfold size; lia).
  destruct (Z.ltb_spec 0xffff (size ptr)); [lia|]. unfold kBlockSize, kHeaderSize. destruct (Z.ltb_spec 32768 (block_offset_ w + (4 + 2 + 1) + size ptr)); [lia|].
  assert (Ht' : type_crc_ w !! Z.to_nat t = Some (crc32c 0 [t])).
  { rewrite Hcrc, list_lookup_fmap. assert (t = 1 \/ t = 2 \/ t = 3 \/ t = 4) as Hc by lia. by destruct_or! Hc; subst. }
  rewrite Ht'. cbn [demand mbind outcome_bind].
  rewrite Extend_spec; [|lia|apply crc32c_word; [lia|repeat constructor; lia]|done]. cbn [mbind outcome_bind].
  rewrite crc32c_app. cbn [app].
  assert (Hhead : EncodeFixed32 (Mask (crc32c 0 (t :: bytes ptr))) ++ [u8 (Z.land (size ptr) 0xff); u8 (Z.shiftr (size ptr) 8); u8 t] =
    header t (bytes ptr)).
  { unfold header. fold (size ptr). f_equal. change 0xff with (Z.ones 8). rewrite Z.land_ones, Z.shiftr_div_pow2 by lia. change (2 ^ 8) with 256.
    pose proof (Z.mod_pos_bound (size ptr) 256 ltac:(lia)). assert (0 <= size ptr / 256 < 256) by (split; [apply Z.div_pos; lia|apply Z.div_lt_upper_bound; lia]).
    by rewrite !u8_small by lia. }
  rewrite Hhead. destruct (Append_good (header t (bytes ptr)) (dest_ w)) as (f1 & E1 & C1). rewrite E1. cbn [ok].
  destruct (Append_good (bytes ptr) f1) as (f2 & E2 & C2). rewrite E2. cbn [ok]. destruct (Flush_good f2) as (f3 & E3 & C3). rewrite E3.
  eexists. split; [done|]. cbn [block_offset_ dest_ type_crc_]. split; [split; [cbn [block_offset_]; unfold kBlockSize, size in *; lia|done]|]. split; [lia|].
  rewrite C3, C2, C1. unfold physical. by rewrite app_assoc.
Qed.

(** Padding, if the block is full. *)
Lemma switch_block w :
  writer_ok w ->
  exists w1, next_block w = w1 /\
    writer_ok w1 /\ block_offset_ w1 = start (block_offset_ w) /\ block_offset_ w1 + kHeaderSize <= kBlockSize /\
    contents (dest_ w1) = contents (dest_ w) ++ padding (block_offset_ w).
Proof.
  intros [Hoff Hcrc]. eexists. split; [done|]. unfold next_block, start, padding, kHeaderSize, kBlockSize in *. cbv zeta.
  destruct (Z.ltb_spec (32768 - block_offset_ w) (4 + 2 + 1)); cbn [block_offset_ dest_ type_crc_].
  - split; [split; [cbn [block_offset_]; unfold kBlockSize; lia|done]|]. split; [done|]. split; [lia|]. destruct (Z.ltb_spec 0 (32768 - block_offset_ w)).
    + destruct (Append_good (replicate (Z.to_nat (32768 - block_offset_ w)) 0) (dest_ w)) as (f & -> & C). exact C.
    + replace (Z.to_nat (32768 - block_offset_ w)) with 0%nat by lia. by rewrite app_nil_r.
  - split; [by split|]. split; [done|]. split; [lia|]. by rewrite app_nil_r.
Qed.

(** More rounds than there are bytes left, and one to get to a fresh block. *)
Definition enough (fuel : nat) (off : Z) (left : list Z) : Prop :=
  (length left + (if decide (start off + kHeaderSize < kBlockSize)%Z then 0 else 1) < fuel)%nat.

Lemma add_loop_spec fuel : forall begin ptr w,
  writer_ok w -> Forall is_byte (bytes ptr) -> address (data ptr) (size ptr) -> enough fuel (block_offset_ w) (bytes ptr) ->
  exists w' fs, add_record_loop fuel begin ptr w = Done (OK, w') /\ writer_ok w' /\
    record_frames begin (bytes ptr) fs /\ fits (block_offset_ w) fs /\ block_offset_ w' = end_off (block_offset_ w) fs /\
    contents (dest_ w') = contents (dest_ w) ++ frames (block_offset_ w) fs.
Proof.
  induction fuel as [|fuel IH]; intros begin ptr w Hw Hb Ha Hfuel; [unfold enough in Hfuel; lia|]. cbn [add_record_loop].
  pose proof (proj1 Hw) as Hoff. destruct (Z.ltb_spec (kBlockSize - block_offset_ w) 0); [lia|].
  destruct (switch_block w Hw) as (w1 & -> & Hw1 & Hstart & Hroom & Hpad). cbv zeta.
  destruct (Z.ltb_spec (kBlockSize - block_offset_ w1 - kHeaderSize) 0); [lia|].
  set (avail := kBlockSize - block_offset_ w1 - kHeaderSize) in *. set (fl := if size ptr <? avail then size ptr else avail).
  set (piece := MkSlice (data ptr) (take (Z.to_nat fl) (bytes ptr))).
  assert (Hfl : 0 <= fl <= size ptr /\ fl <= avail) by (subst fl; destruct (Z.ltb_spec (size ptr) avail); unfold size in *; lia).
  assert (Hps : size piece = fl) by (unfold size, piece; cbn [bytes]; rewrite length_take; unfold size in Hfl; lia).
  assert (Hpb : Forall is_byte (bytes piece)) by (by apply Forall_take).
  assert (Hpa : address (data piece) (size piece)) by (unfold address in *; change (data piece) with (data ptr); lia).
  assert (Hnext : next_off (block_offset_ w) (bytes piece) = block_offset_ w1 + kHeaderSize + size piece) by (unfold next_off; by rewrite Hstart).
  set (t := if begin && (size ptr =? fl) then kFullType else if begin then kFirstType else if size ptr =? fl then kLastType else kMiddleType).
  assert (Ht : is_type t) by (subst t; unfold is_type, kFullType, kFirstType, kLastType, kMiddleType; destruct begin, (size ptr =? fl); cbn; lia).
  destruct (emit_spec t piece w1 Hw1 Ht Hpb Hpa ltac:(lia)) as (w2 & -> & Hw2 & Hoff2 & Hc2). cbn [mbind outcome_bind ok andb].
  assert (Hfits1 : fits (block_offset_ w) [(t, bytes piece)]).
  { cbn [fits]. rewrite Hnext. pose proof (proj1 Hw2). split_and!; try done; try lia; apply Ht. }
  assert (Hrest : size (remove_prefix fl ptr) = size ptr - fl) by (unfold size, remove_prefix; cbn [bytes]; rewrite length_drop; unfold size in Hfl; lia).
  rewrite Hrest. destruct (Z.ltb_spec 0 (size ptr - fl)) as [Hmore|Hend].
  - assert (Et : t = if begin then kFirstType else kMiddleType) by (subst t; destruct (Z.eqb_spec (size ptr) fl); [lia|]; by destruct begin).
    assert (fl = avail) as Hav by (subst fl; destruct (Z.ltb_spec (size ptr) avail); lia).
    destruct (IH false (remove_prefix fl ptr) w2 Hw2) as (w' & fs & -> & Hw' & Hrf & Hfit & Hend & Hc).
    + by apply Forall_drop.
    + unfold address in *. rewrite Hrest. unfold remove_prefix. cbn [data]. lia.
    + unfold enough in *. unfold remove_prefix. cbn [bytes]. rewrite length_drop, Hoff2.
      assert (Hs2 : start (block_offset_ w1 + kHeaderSize + size piece) = 0).
      { unfold start. destruct (Z.ltb_spec (kBlockSize - (block_offset_ w1 + kHeaderSize + size piece)) kHeaderSize); [done|]. unfold kHeaderSize in *. lia. }
      rewrite Hs2, decide_True by (unfold kHeaderSize, kBlockSize; lia). rewrite <- Hstart in Hfuel. unfold size in Hmore, Hfl.
      destruct (decide (block_offset_ w1 + kHeaderSize < kBlockSize)); lia.
    + exists w', ((t, bytes piece) :: fs). split; [done|]. split; [done|]. split; [|split; [|split]].
      * rewrite <- (take_drop (Z.to_nat fl) (bytes ptr)), Et. by apply frames_more.
      * cbn [fits] in Hfits1 |- *. rewrite Hnext, <- Hoff2 in *. tauto.
      * cbn [end_off]. by rewrite Hnext, <- Hoff2.
      * cbn [frames]. rewrite Hc, Hc2, Hpad, Hnext, <- Hoff2. by rewrite <- !app_assoc.
  - exists w2, [(t, bytes piece)]. split; [done|]. split; [done|].
    assert (Hall : bytes piece = bytes ptr) by (unfold piece; cbn [bytes]; apply take_ge; unfold size in *; lia).
    split; [|split; [done|split]].
    + rewrite Hall. subst t. replace (size ptr =? fl) with true by lia. destruct begin; cbn [andb]; [apply (frames_end true)|apply (frames_end false)].
    + cbn [end_off]. lia.
    + cbn [frames]. by rewrite Hc2, Hpad, app_nil_r, <- app_assoc.
Qed.

Lemma AddRecord_spec slice w :
  writer_ok w -> Forall is_byte (bytes slice) -> address (data slice) (size slice) ->
  exists w' fs, AddRecord slice w = Done (OK, w') /\ writer_ok w' /\
    record_frames true (bytes slice) fs /\ fits (block_offset_ w) fs /\ block_offset_ w' = end_off (block_offset_ w) fs /\
    contents (dest_ w') = contents (dest_ w) ++ frames (block_offset_ w) fs.
Proof. intros Hw Hb Ha. apply add_loop_spec; try done. unfold enough. destruct (decide _); lia. Qed.
End Writing.

(** * The reader finds the records of a log, or of what a crash has
    left of it. *)


(** A file that can be read to its end, with the bytes still to come. *)
Class GoodInput (F : Type) `{SequentialFile F} : Type := {
  remaining : F -> list Z;
  Read_good n store f : 0 <= n -> address store n -> exists s f', Read n store f = (OK, s, f') /\ bytes s = take (Z.to_nat n) (remaining f) /\
    remaining f' = drop (Z.to_nat n) (remaining f) /\ address (data s) (size s);
}.

(** ** Headers *)

Lemma char_low_byte h : is_byte h -> Z.land (u32 (s8 h)) 0xff = h.
Proof.
  intros Hh. unfold is_byte in Hh. change 0xff with (2 ^ 8 - 1). rewrite land_low_bits by lia.
  change ((u32 (s8 h)) mod 2 ^ 8) with (wrap 8 (wrap 32 (signed 8 h))). rewrite wrap_wrap_le, wrap_signed by lia. apply wrap_small. lia.
Qed.

Lemma char_type t : is_type t -> u32 (s8 t) = t.
Proof. intros Ht. unfold is_type in Ht. unfold s8. rewrite signed_small by lia. apply u32_small. lia. Qed.

Lemma length_back n : 0 <= n < 2 ^ 16 -> Z.lor (n mod 256) (Z.shiftl (n / 256) 8) = n.
Proof. intros Hn. pose proof (Z.mod_pos_bound n 256). pose proof (Z.div_mod n 256). rewrite lor_shiftl_add by lia. lia. Qed.

Lemma header_field t d x (i : nat) : (4 <= i < 7)%nat -> (header t d ++ x) !! i = [zlen d mod 256; zlen d / 256; t] !! (i - 4)%nat.
Proof.
  intros Hi. rewrite lookup_app_l by (rewrite length_header; lia). unfold header, EncodeFixed32, kLittleEndian.
  rewrite lookup_app_r by (rewrite length_le_bytes; lia). by rewrite length_le_bytes.
Qed.

Lemma header_rest t d x : drop 6 (header t d ++ x) = t :: x.
Proof.
  unfold header, EncodeFixed32, kLittleEndian. pose proof (length_le_bytes 4 (Mask (crc32c 0 (t :: d)))) as Hl4.
  destruct (le_bytes 4 (Mask (crc32c 0 (t :: d)))) as [|? [|? [|? [|? [|]]]]]; try done.
Qed.

(** The checksum is compared with that of what follows it. *)
Lemma crc_matches_spec head t d y :
  bytes head = header t d ++ d ++ y -> is_type t -> Forall is_byte d -> 0 <= data head -> data head + size head < 2 ^ 64 - 3 ->
  crc_matches head (zlen d) = Done true.
Proof.
  intros E Ht Hd Ha0 Ha. unfold is_type in Ht. unfold crc_matches. rewrite E.
  assert (Hs : size head = 7 + zlen d + zlen y) by (unfold size; rewrite E, !length_app, length_header; lia).
  assert (DecodeFixed32 (header t d ++ d ++ y) = Done (Mask (crc32c 0 (t :: d)))) as ->
    by (unfold header; rewrite <- app_assoc; apply fixed32_back, mask_word).
  assert (Hb : Forall is_byte (t :: d)) by (constructor; [unfold is_byte; lia|done]).
  cbn [mbind outcome_bind]. cbv zeta. rewrite Unmask_Mask by (apply crc32c_word; [lia|done]).
  rewrite (header_rest t d (d ++ y)). replace (Z.to_nat (1 + zlen d)) with (S (length d)) by lia. cbn [take]. rewrite take_app_length.
  unfold Value. rewrite Extend_spec; [|lia|lia|done]. cbn [mbind outcome_bind]. by rewrite Z.eqb_refl.
Qed.

(** The fields of a header. *)
Lemma parse_fields {F} `{SequentialFile F} result (r : Reader F) t d x :
  bytes (buffer_ r) = header t d ++ x -> is_type t -> zlen d < 2 ^ 16 ->
  parse_record result r =
    if size (buffer_ r) <? kHeaderSize + zlen d then
      let r1 := set_buffer empty_slice r in
      if negb (eof_ r1) then Done (kBadRecord, result, ReportCorruption (size (buffer_ r)) "bad record length" r1)
      else Done (kEof, result, r1)
    else if (t =? kZeroType) && (zlen d =? 0) then Done (kBadRecord, result, set_buffer empty_slice r)
    else
      good ← (if checksum_ r then crc_matches (buffer_ r) (zlen d) else Done true);
      if negb good then
        Done (kBadRecord, result, ReportCorruption (size (buffer_ r)) "checksum mismatch" (set_buffer empty_slice r))
      else
        let r1 := set_buffer (remove_prefix (kHeaderSize + zlen d) (buffer_ r)) r in
        if u64 (end_of_buffer_offset_ r1 - size (buffer_ r1) - kHeaderSize - zlen d) <? initial_offset_ r1
        then Done (kBadRecord, empty_slice, r1)
        else Done (t, MkSlice (data (buffer_ r) + kHeaderSize) (take (Z.to_nat (zlen d)) (drop (Z.to_nat kHeaderSize) (header t d ++ x))), r1).
Proof.
  intros Eb Ht Hlen. pose proof (Z.mod_pos_bound (zlen d) 256 ltac:(lia)) as Hmod.
  assert (Hdiv : 0 <= zlen d / 256 < 256) by (split; [apply Z.div_pos; lia|apply Z.div_lt_upper_bound; lia]).
  assert (E4 : (header t d ++ x) !! 4%nat = Some (zlen d mod 256)) by (apply (header_field t d x 4); lia).
  assert (E5 : (header t d ++ x) !! 5%nat = Some (zlen d / 256)) by (apply (header_field t d x 5); lia).
  assert (E6 : (header t d ++ x) !! 6%nat = Some t) by (apply (header_field t d x 6); lia).
  unfold parse_record. rewrite Eb, E4, E5, E6. cbn [demand mbind outcome_bind].
  rewrite !char_low_byte, length_back by (unfold is_byte; lia). by rewrite (char_type t Ht).
Qed.

Section Reading.
Context {F : Type} `{GoodInput F}.

(** The parts of a reader that reading physical records leaves alone. *)
Record same (r r' : Reader F) : Prop := Same {
  same_reporter : reporter_ r' = reporter_ r;
  same_checksum : checksum_ r' = checksum_ r;
  same_initial : initial_offset_ r' = initial_offset_ r;
  same_resyncing : resyncing_ r' = resyncing_ r;
  same_store : backing_store_ r' = backing_store_ r;
}.

Lemma same_refl r : same r r.
Proof. by split. Qed.
Lemma same_trans r1 r2 r3 : same r1 r2 -> same r2 r3 -> same r1 r3.
Proof. intros [] []. split; congruence. Qed.

(** A buffer that starts with a header. *)
Lemma parse_spec result (r : Reader F) t d x :
  bytes (buffer_ r) = header t d ++ x -> is_type t -> Forall is_byte d -> zlen d < 2 ^ 16 -> initial_offset_ r = 0 ->
  address (data (buffer_ r)) (size (buffer_ r)) ->
  (zlen x < zlen d -> eof_ r = true -> parse_record result r = Done (kEof, result, set_buffer empty_slice r)) /\
  (forall y, x = d ++ y -> exists s r', parse_record result r = Done (t, s, r') /\ bytes s = d /\
     r' = set_buffer (remove_prefix (kHeaderSize + zlen d) (buffer_ r)) r /\ bytes (buffer_ r') = y).
Proof.
  intros Eb Ht Hd Hlen Hinit [Ha0 Ha].
  assert (Hsize : size (buffer_ r) = 7 + zlen x) by (unfold size; rewrite Eb, length_app, length_header; lia).
  rewrite (parse_fields result r t d x Eb Ht Hlen), Hsize.
  unfold kHeaderSize. change (4 + 2 + 1) with 7. split.
  - intros Hx He. destruct (Z.ltb_spec (7 + zlen x) (7 + zlen d)); [|lia]. cbn [eof_ set_buffer]. by rewrite He.
  - intros y ->. rewrite length_app in *. destruct (Z.ltb_spec (7 + Z.of_nat (length d + length y)) (7 + zlen d)); [lia|].
    unfold is_type in Ht. destruct (Z.eqb_spec t kZeroType) as [E|]; [unfold kZeroType in E; lia|]. cbn [andb].
    assert ((if checksum_ r then crc_matches (buffer_ r) (zlen d) else Done true) = Done true) as ->.
    { destruct (checksum_ r); [|done]. apply (crc_matches_spec (buffer_ r) t d y); done || lia. }
    cbn [mbind outcome_bind negb]. cbn [initial_offset_ set_buffer]. rewrite Hinit.
    match goal with |- context [u64 ?z <? 0] => destruct (Z.ltb_spec (u64 z) 0); [pose proof (u64_range z); lia|] end.
    eexists _, _. split; [reflexivity|]. cbn [bytes]. split.
    + rewrite Nat2Z.id. change (Z.to_nat 7) with 7%nat. rewrite drop_app_length' by (by rewrite length_header). by rewrite take_app_length.
    + split; [done|]. cbn [buffer_ set_buffer remove_prefix bytes]. rewrite Eb. rewrite drop_app_ge by (rewrite length_header; lia).
      rewrite length_header. replace (Z.to_nat (7 + zlen d) - 7)%nat with (length d) by lia. apply drop_app_length.
Qed.

(** ** Reading physical records *)

(** The reader stands at offset [off] of a block, with the bytes [rest] still
    to come.  The buffer is the rest of the block, unless the block is the
    last one; at offset 0 the block has not been read yet. *)
Record reading (r : Reader F) (off : Z) (rest : list Z) : Prop := MkReading {
  rd_rest : bytes (buffer_ r) ++ remaining (file_ r) = rest;
  rd_address : address (data (buffer_ r)) (size (buffer_ r));
  rd_last : eof_ r = true -> remaining (file_ r) = [] /\ off + size (buffer_ r) < kBlockSize;
  rd_block : eof_ r = false -> size (buffer_ r) = if off =? 0 then 0 else kBlockSize - off;
  rd_initial : initial_offset_ r = 0;
  rd_bytes : Forall is_byte rest;
  rd_store : address (backing_store_ r) kBlockSize;
}.

(** The block at hand is in the buffer. *)
Record loaded (r : Reader F) (off : Z) (rest : list Z) : Prop := MkLoaded {
  ld_rest : bytes (buffer_ r) ++ remaining (file_ r) = rest;
  ld_address : address (data (buffer_ r)) (size (buffer_ r));
  ld_last : eof_ r = true -> remaining (file_ r) = [] /\ off + size (buffer_ r) < kBlockSize;
  ld_block : eof_ r = false -> size (buffer_ r) = kBlockSize - off;
  ld_initial : initial_offset_ r = 0;
}.

(** Nothing more will be read. *)
Definition finished (r : Reader F) : Prop := eof_ r = true /\ bytes (buffer_ r) = [].

Lemma refill_spec result r :
  eof_ r = false -> size (buffer_ r) < kHeaderSize -> initial_offset_ r = 0 -> address (backing_store_ r) kBlockSize ->
  exists r1, read_physical_loop 2 result r = read_physical_loop 1 result r1 /\ same r r1 /\ loaded r1 0 (remaining (file_ r)).
Proof.
  intros He Hs Hinit Hstore. cbn [read_physical_loop]. destruct (Z.ltb_spec (size (buffer_ r)) kHeaderSize); [|lia]. rewrite He. cbn [negb].
  destruct (Read_good kBlockSize (backing_store_ r) (file_ r)) as (s & f & E & Eb & Ef & Ea); [done|done|].
  cbn [set_buffer backing_store_ file_]. rewrite E. cbn [ok negb]. eexists. split; [reflexivity|].
  cbn [set_end set_file set_buffer buffer_].
  assert (Hss : size s <= kBlockSize) by (unfold size; rewrite Eb, length_take; unfold kBlockSize; lia).
  destruct (Z.ltb_spec (size s) kBlockSize) as [Hlt|Hge].
  - split; [by split|]. split; cbn [set_eof set_end set_file set_buffer buffer_ file_ eof_ initial_offset_]; try done.
    + by rewrite Eb, Ef, take_drop.
    + intros _. split; [|lia]. rewrite Ef. apply drop_ge. unfold size in Hlt. rewrite Eb, length_take in Hlt. unfold kBlockSize in *. lia.
  - split; [by split|]. split; cbn [set_eof set_end set_file set_buffer buffer_ file_ eof_ initial_offset_]; try done.
    + by rewrite Eb, Ef, take_drop.
    + by rewrite He.
    + intros _. lia.
Qed.

(** Two lists with equal prefixes of the same length. *)
Lemma prefix_same_length {A} (a b x y : list A) : length a = length b -> (a ++ x) `prefix_of` (b ++ y) -> a = b /\ x `prefix_of` y.
Proof. intros Hl [k E]. rewrite <- app_assoc in E. apply app_inj_1 in E as [-> E]; [|done]. split; [done|]. by exists k. Qed.

(** Before a record: at the end of the file, or with its block loaded. *)
Lemma position result r off rest Y :
  reading r off rest -> 0 <= off <= kBlockSize -> rest `prefix_of` padding off ++ Y ->
  (ReadPhysicalRecord result r = Done (kEof, result, set_buffer empty_slice r) /\ eof_ r = true /\ zlen rest < kHeaderSize) \/
  exists r1 rest1, ReadPhysicalRecord result r = read_physical_loop 1 result r1 /\ same r r1 /\ loaded r1 (start off) rest1 /\
    rest = padding off ++ rest1 /\ rest1 `prefix_of` Y.
Proof.
  intros [Hrest Haddr Hlast Hblock Hinit Hbytes Hstore] Hoff Hpre. unfold ReadPhysicalRecord. destruct (eof_ r) eqn:He.
  - destruct (Hlast eq_refl) as [Hrem Hshort]. rewrite Hrem, app_nil_r in Hrest. subst rest. fold (size (buffer_ r)).
    destruct (Z.lt_ge_cases (size (buffer_ r)) kHeaderSize) as [Hlt|Hge].
    + left. split; [|done]. cbn [read_physical_loop]. destruct (Z.ltb_spec (size (buffer_ r)) kHeaderSize); [|lia]. by rewrite He.
    + right. exists r, (bytes (buffer_ r)).
      assert (Hroom : (kBlockSize - off <? kHeaderSize) = false) by lia.
      unfold padding, start in *. rewrite Hroom in *. split_and!; [|apply same_refl| |done|done].
      * cbn [read_physical_loop]. destruct (Z.ltb_spec (size (buffer_ r)) kHeaderSize); [lia|done].
      * split; try done; [by rewrite Hrem, app_nil_r|by rewrite He].
  - right. specialize (Hblock eq_refl). destruct (Z.eqb_spec off 0) as [->|Hnz].
    { destruct (refill_spec result r He ltac:(unfold kHeaderSize; lia) Hinit Hstore) as (r1 & E & Hs & Hl). exists r1, (remaining (file_ r)).
      unfold size in Hblock. destruct (bytes (buffer_ r)) eqn:Eb; [|cbn in Hblock; lia]. cbn [app] in Hrest. subst rest.
      change (padding 0) with (@nil Z) in *. change (start 0) with 0. done. }
    unfold padding, start in *. destruct (Z.ltb_spec (kBlockSize - off) kHeaderSize) as [Hpad|Hroom].
    + destruct (refill_spec result r He ltac:(lia) Hinit Hstore) as (r1 & E & Hs & Hl). exists r1, (remaining (file_ r)).
      rewrite <- Hrest in Hpre. apply prefix_same_length in Hpre as [Eb Hpre]; [|rewrite length_replicate; unfold size in Hblock; lia].
      rewrite <- Hrest, Eb. done.
    + exists r, rest. split_and!; [|apply same_refl| |done|done].
      * cbn [read_physical_loop]. destruct (Z.ltb_spec (size (buffer_ r)) kHeaderSize); [lia|done].
      * split; try done. by rewrite He.
Qed.

(** A prefix that is long enough contains the first part. *)
Lemma prefix_split {A} (x a b : list A) : x `prefix_of` a ++ b -> (length a <= length x)%nat -> exists y, x = a ++ y.
Proof.
  intros [k E] Hl. exists (drop (length a) x). rewrite <- (take_drop (length a) x) at 1. f_equal.
  apply (f_equal (take (length a))) in E. rewrite take_app_length, take_app_le in E by done. done.
Qed.

Lemma loaded_step result r off t d Y rest :
  loaded r off rest -> address (backing_store_ r) kBlockSize -> rest `prefix_of` physical t d ++ Y -> is_type t -> Forall is_byte d -> Forall is_byte rest ->
  0 <= off -> off + kHeaderSize + zlen d <= kBlockSize ->
  exists r', same r r' /\
  ((exists rest' s, rest = physical t d ++ rest' /\ read_physical_loop 1 result r = Done (t, s, r') /\ bytes s = d /\
      reading r' (off + kHeaderSize + zlen d) rest') \/
   (zlen rest < zlen (physical t d) /\ read_physical_loop 1 result r = Done (kEof, result, r') /\ finished r')).
Proof.
  intros [Hrest Haddr Hlast Hblock Hinit] Hstore Hpre Ht Hd Hbytes Hoff Hfit. rewrite length_physical. cbn [read_physical_loop].
  assert (Heof : size (buffer_ r) < kHeaderSize + zlen d -> eof_ r = true).
  { intros Hs. destruct (eof_ r); [done|]. specialize (Hblock eq_refl). lia. }
  destruct (Z.ltb_spec (size (buffer_ r)) kHeaderSize) as [Hlt|Hge].
  - specialize (Heof ltac:(lia)). destruct (Hlast Heof) as [Hrem _]. rewrite Hrem, app_nil_r in Hrest. subst rest. rewrite Heof. cbn [negb].
    exists (set_buffer empty_slice r). split; [by split|]. right. unfold size in Hlt. split; [lia|]. split; [done|]. by split.
  - assert (Hbuf : bytes (buffer_ r) `prefix_of` header t d ++ (d ++ Y)).
    { unfold physical in Hpre. rewrite <- app_assoc in Hpre. etransitivity; [|exact Hpre]. rewrite <- Hrest. by apply prefix_app_r. }
    destruct (prefix_split _ _ _ Hbuf) as [x Ex]; [rewrite length_header; unfold size, kHeaderSize in Hge; lia|].
    assert (Hsx : size (buffer_ r) = kHeaderSize + zlen x) by (unfold size; rewrite Ex, length_app, length_header; unfold kHeaderSize; lia).
    unfold kHeaderSize, kBlockSize in Hfit.
    destruct (parse_spec result r t d x Ex Ht Hd ltac:(lia) Hinit Haddr) as [Hshort Hfull].
    destruct (Z.lt_ge_cases (zlen x) (zlen d)) as [Hlt|Hge'].
    + specialize (Heof ltac:(lia)). destruct (Hlast Heof) as [Hrem _]. rewrite Hrem, app_nil_r in Hrest. subst rest.
      exists (set_buffer empty_slice r). split; [by split|]. right. split; [unfold size in Hsx; lia|]. split; [by apply Hshort|]. by split.
    + rewrite Ex in Hbuf. apply prefix_app_inv in Hbuf. destruct (prefix_split _ _ _ Hbuf ltac:(lia)) as [y Ey].
      destruct (Hfull y Ey) as (s & r' & E & Es & Er & Eb). exists r'. rewrite E. split; [rewrite Er; by split|]. left.
      exists (y ++ remaining (file_ r)), s.
      assert (Erest : rest = physical t d ++ (y ++ remaining (file_ r))).
      { rewrite <- Hrest, Ex, Ey. unfold physical. by rewrite <- !app_assoc. }
      split; [done|]. split; [done|]. split; [done|].
      assert (Hsize : size (buffer_ r') = size (buffer_ r) - (kHeaderSize + zlen d)).
      { rewrite Hsx. unfold size. rewrite Eb, Ey, length_app. lia. }
      assert (file_ r' = file_ r /\ eof_ r' = eof_ r /\ initial_offset_ r' = initial_offset_ r /\
        data (buffer_ r') = data (buffer_ r) + (kHeaderSize + zlen d)) as (Ef & Ee & Ei & Ed) by (by rewrite Er).
      split.
      * by rewrite Eb, Ef.
      * destruct Haddr as [Ha0 Ha]. rewrite Ed, Hsize. unfold address, kHeaderSize. lia.
      * rewrite Ee, Ef. intros He. destruct (Hlast He) as [Hrem Hs]. split; [done|]. lia.
      * rewrite Ee. intros He. specialize (Hblock He). unfold kHeaderSize in *. destruct (Z.eqb_spec (off + (4 + 2 + 1) + zlen d) 0); lia.
      * by rewrite Ei.
      * rewrite Erest in Hbytes. by apply Forall_app in Hbytes as [_ ?].
      * by rewrite Er.
Qed.

(** The next physical record, if it is complete. *)
Lemma physical_step result r off t d gs rest :
  reading r off rest -> fits off ((t, d) :: gs) -> rest `prefix_of` frames off ((t, d) :: gs) ->
  exists r', same r r' /\
  ((exists rest' s, rest = frames off [(t, d)] ++ rest' /\ rest' `prefix_of` frames (next_off off d) gs /\
      ReadPhysicalRecord result r = Done (t, s, r') /\ bytes s = d /\ reading r' (next_off off d) rest') \/
   (zlen rest < zlen (frames off [(t, d)]) /\ ReadPhysicalRecord result r = Done (kEof, result, r') /\ finished r')).
Proof.
  intros Hr (Hoff & Ht & Hd & Hnext & _) Hpre. cbn [frames] in *. rewrite app_nil_r.
  destruct (position result r off rest _ Hr Hoff Hpre) as [(E & He & Hshort)|(r1 & rest1 & E & Hs1 & Hl1 & -> & Hpre1)].
  - exists (set_buffer empty_slice r). split; [by split|]. right. rewrite length_app. pose proof (length_physical t d). split; [lia|]. split; [done|]. by split.
  - pose proof (rd_bytes _ _ _ Hr) as Hb. apply Forall_app in Hb as [_ Hb].
    assert (Hst : 0 <= start off) by (unfold start; destruct (kBlockSize - off <? kHeaderSize); lia).
    destruct (loaded_step result r1 (start off) t d _ rest1 Hl1 ltac:(rewrite (same_store _ _ Hs1); apply Hr) Hpre1 Ht Hd Hb Hst Hnext) as (r' & Hs & [(rest' & s & -> & E' & Es & Hr')|(Hshort & E' & Hfin)]).
    + exists r'. split; [by eapply same_trans|]. left. exists rest', s. rewrite E. split; [by rewrite app_assoc|]. split; [|done].
      by apply prefix_app_inv in Hpre1.
    + exists r'. split; [by eapply same_trans|]. right. rewrite E, !length_app. split; [lia|done].
Qed.

(** ** Reading logical records *)

Lemma reading_set_last n r off rest : reading r off rest -> reading (set_last n r) off rest.
Proof. intros []. by split. Qed.

Lemma set_resyncing_same (r : Reader F) : resyncing_ r = false -> set_resyncing false r = r.
Proof. destruct r. cbn. by intros ->. Qed.

(** What reading one record, or the rest of one, comes to. *)
Definition record_read (r : Reader F) (off : Z) (rest : list Z) (fs gs : list (Z * list Z)) (d : list Z)
    (run : outcome (option (list Z) * Reader F)) : Prop :=
  exists r', same r r' /\
  ((exists rest', rest = frames off fs ++ rest' /\ rest' `prefix_of` frames (end_off off fs) gs /\
      run = Done (Some d, r') /\ reading r' (end_off off fs) rest' /\ 0 <= last_record_offset_ r') \/
   (zlen rest < zlen (frames off fs) /\ run = Done (None, r') /\ finished r')).

Lemma frames_cons off t d fs : frames off ((t, d) :: fs) = frames off [(t, d)] ++ frames (next_off off d) fs.
Proof. cbn [frames]. by rewrite app_nil_r, <- app_assoc. Qed.

Lemma record_read_cons r r1 off t d rest1 fs gs x run :
  same r r1 -> record_read r1 (next_off off d) rest1 fs gs x run -> record_read r off (frames off [(t, d)] ++ rest1) ((t, d) :: fs) gs x run.
Proof.
  intros Hs (r' & Hs' & Hrun). exists r'. split; [by eapply same_trans|]. rewrite (frames_cons off t d fs). cbn [end_off].
  destruct Hrun as [(rest' & -> & Hpre & Hrun)|(Hshort & Hrun)].
  - left. exists rest'. split; [by rewrite app_assoc|done].
  - right. rewrite !length_app. split; [lia|done].
Qed.

Lemma read_loop_spec begin d fs : record_frames begin d fs ->
  forall fuel fragment prospective scratch r off rest gs,
  reading r off rest -> resyncing_ r = false -> fits off (fs ++ gs) -> rest `prefix_of` frames off (fs ++ gs) -> (length fs <= fuel)%nat ->
  0 <= prospective -> (begin = true -> scratch = []) ->
  record_read r off rest fs gs (scratch ++ d) (read_record_loop fuel fragment (negb begin) prospective scratch r).
Proof.
  induction 1 as [begin d|begin d d' fs Hrf IH]; intros fuel fragment prospective scratch r off rest gs Hr Hsync Hfits Hpre Hfuel Hpro Hscr;
    (destruct fuel as [|fuel]; [cbn in Hfuel; lia|]); cbn [read_record_loop app] in *;
    match type of Hfits with fits _ ((?t, _) :: ?l) =>
      destruct (physical_step fragment r off t d l rest Hr Hfits Hpre) as (r1 & Hs & [(rest1 & s & Erest & Hpre1 & -> & Es & Hr1)|(Hshort & -> & Hfin)]) end;
    cbn [mbind outcome_bind]; pose proof (eq_trans (same_resyncing _ _ Hs) Hsync) as Hsync1; rewrite Hsync1; cbn [andb];
    rewrite (set_resyncing_same r1 Hsync1).
  - match goal with |- context [set_last ?n r1] => set (off1 := n) end. destruct begin; cbn [negb andb].
    + rewrite Hscr by done. cbn [app Z.eqb Pos.eqb kFullType]. eexists. split; [|left; exists rest1; split; [done|]; split; [done|]; split; [by rewrite Es|]].
      * destruct Hs. by split.
      * split; [by apply reading_set_last|]. cbn [last_record_offset_ set_last]. apply u64_range.
    + cbn [Z.eqb Pos.eqb kFullType kFirstType kMiddleType kLastType]. eexists.
      split; [|left; exists rest1; split; [done|]; split; [done|]; split; [by rewrite Es|]].
      * destruct Hs. by split.
      * split; [by apply reading_set_last|]. cbn [last_record_offset_ set_last]. lia.
  - cbn [Z.eqb Pos.eqb kFullType kFirstType kMiddleType kLastType kEof kMaxRecordType]. exists r1. split; [done|]. right. done.
  - match type of Hfits with fits _ _ => destruct Hfits as (_ & _ & _ & _ & Hfits) end. subst rest.
    apply (record_read_cons r r1); [done|]. cbn [length] in Hfuel. destruct begin; cbn [negb andb].
    + rewrite Hscr by done. cbn [app Z.eqb Pos.eqb kFullType kFirstType]. rewrite <- Es.
      apply (IH fuel s _ (bytes s) r1 (next_off off (bytes s)) rest1 gs); try done; rewrite ?Es; try done; [lia|apply u64_range].
    + cbn [Z.eqb Pos.eqb kFullType kFirstType kMiddleType]. rewrite app_assoc, Es.
      apply (IH fuel s _ (scratch ++ d) r1 (next_off off d) rest1 gs); try done; lia.
  - assert (Hlong : zlen rest < zlen (frames off (((if begin then kFirstType else kMiddleType), d) :: fs)))
      by (rewrite frames_cons, length_app; lia).
    cbn [Z.eqb Pos.eqb kFullType kFirstType kMiddleType kLastType kEof kMaxRecordType]. exists r1. split; [done|]. right. done.
Qed.

Lemma ReadRecord_spec fuel d fs r off rest gs :
  record_frames true d fs -> reading r off rest -> resyncing_ r = false -> 0 <= last_record_offset_ r ->
  fits off (fs ++ gs) -> rest `prefix_of` frames off (fs ++ gs) -> (length fs <= fuel)%nat ->
  record_read r off rest fs gs d (ReadRecord fuel r).
Proof.
  intros Hrf Hr Hsync Hlast Hfits Hpre Hfuel. unfold ReadRecord. rewrite (rd_initial _ _ _ Hr).
  destruct (Z.ltb_spec (last_record_offset_ r) 0); [lia|]. cbn [negb].
  apply (read_loop_spec true d fs Hrf fuel empty_slice 0 [] r off rest gs); done || lia.
Qed.

(** At the end of the file. *)
Lemma ReadRecord_end fuel r off :
  reading r off [] -> resyncing_ r = false -> 0 <= last_record_offset_ r -> 0 <= off <= kBlockSize -> (1 <= fuel)%nat ->
  exists r', ReadRecord fuel r = Done (None, r') /\ same r r' /\ finished r'.
Proof.
  intros Hr Hsync Hlast Hoff Hfuel.
  assert (Hfits : fits off [(kFullType, [])]).
  { cbn [fits]. unfold next_off, start, is_type, kFullType, kHeaderSize, kBlockSize in *. cbn [length].
    destruct (Z.ltb_spec (32768 - off) (4 + 2 + 1)); split_and!; try lia; constructor. }
  destruct (ReadRecord_spec fuel [] [(kFullType, [])] r off [] []) as (r' & Hs & [(rest' & E & _)|(_ & E & Hfin)]); try done.
  - apply (frames_end true).
  - apply prefix_nil.
  - exfalso. apply (f_equal length) in E. cbn [frames] in E. rewrite !length_app in E. pose proof (length_physical kFullType []). unfold kHeaderSize in *. cbn [length] in *. lia.
  - by exists r'.
Qed.

(** ** Whole logs *)

(** Read records until there are no more. *)
Fixpoint read_all (n : nat) (fuel : nat) (r : Reader F) : outcome (list (list Z) * Reader F) :=
  match n with
  | O => NoFuel
  | S n =>
    '(record, r) ← ReadRecord fuel r;
    match record with
    | None => Done ([], r)
    | Some d => '(ds, r) ← read_all n fuel r; Done (d :: ds, r)
    end
  end.

(** The frames of several records. *)
Definition log_frames (rs : list (list Z)) (fss : list (list (Z * list Z))) : Prop := Forall2 (record_frames true) rs fss.

Lemma read_all_spec rs fss : log_frames rs fss -> forall n fuel r off rest,
  reading r off rest -> resyncing_ r = false -> 0 <= last_record_offset_ r ->
  fits off (concat fss) -> rest `prefix_of` frames off (concat fss) -> (length rs < n)%nat -> (length (concat fss) < fuel)%nat ->
  exists k r', read_all n fuel r = Done (take k rs, r') /\ same r r' /\ (k <= length rs)%nat /\
    zlen (frames off (concat (take k fss))) <= zlen rest /\
    (forall j, (k < j <= length rs)%nat -> zlen rest < zlen (frames off (concat (take j fss)))).
Proof.
  induction 1 as [|d fs rs fss Hrf _ IH]; intros n fuel r off rest Hr Hsync Hlast Hfits Hpre Hn Hfuel; (destruct n as [|n]; [cbn in Hn; lia|]).
  - cbn [concat frames] in Hpre. apply prefix_nil_inv in Hpre as ->. cbn [read_all].
    destruct (ReadRecord_end fuel r off Hr Hsync Hlast (fits_off _ _ Hfits) ltac:(cbn in Hfuel; lia)) as (r' & -> & Hs & _).
    exists 0%nat, r'. cbn [mbind outcome_bind]. split; [done|]. split; [done|]. split; [lia|]. split; [done|]. intros j Hj. cbn in Hj. lia.
  - cbn [concat] in *. rewrite length_app in Hfuel. cbn [length] in Hn. cbn [read_all].
    destruct (ReadRecord_spec fuel d fs r off rest (concat fss) Hrf Hr Hsync Hlast Hfits Hpre ltac:(lia))
      as (r1 & Hs & [(rest' & -> & Hpre' & -> & Hr1 & Hlast1)|(Hshort & -> & _)]); cbn [mbind outcome_bind].
    + apply fits_app in Hfits as [Hf1 Hf2].
      destruct (IH n fuel r1 (end_off off fs) rest' Hr1 (eq_trans (same_resyncing _ _ Hs) Hsync) Hlast1 Hf2 Hpre' ltac:(lia) ltac:(lia))
        as (k & r' & -> & Hs' & Hk & Hle & Hmax). exists (S k), r'. cbn [mbind outcome_bind take]. split; [done|].
      split; [by eapply same_trans|]. cbn [length concat]. rewrite frames_app, !length_app. split; [lia|]. split; [lia|].
      intros j Hj. destruct j as [|j]; [lia|]. cbn [take concat]. rewrite frames_app, length_app. specialize (Hmax j ltac:(lia)). lia.
    + exists 0%nat, r1. split; [done|]. split; [done|]. split; [lia|]. split; [cbn; lia|]. intros j Hj. destruct j as [|j]; [lia|].
      cbn [take concat]. rewrite frames_app, length_app. lia.
Qed.
End Reading.
