(* ===== verification/LdbBloom.v ===== *)
(** * LdbBloom: the hash function and the bloom filter of leveldb
    (leveldb-library/util/hash.cc, bloom.cc).

    Keys and filters are lists of bytes.  The number of probes comes from a
    multiplication with the double 0.69; up to 43 bits per key, where it is
    not a whole number, truncating it is dividing 69 times the number by 100,
    and from 44 on the result is cut to 30. *)

From Stdlib Require Import ZifyBool.
From stdpp Require Import base tactics numbers list gmap strings.
From S2P Require Import Prelude PbOStream PbWire LdbCoding.
Open Scope Z_scope.

(** ** hash.cc *)

Definition hash_m : Z := 0xc6a4a793.
Definition hash_r : Z := 24.

(** [while (data + 4 <= limit)] *)
Fixpoint hash_words (fuel : nat) (data : list Z) (h : Z) : outcome (Z * list Z) :=
  if 4 <=? zlen data then
    match fuel with
    | O => NoFuel
    | S fuel =>
      w ← DecodeFixed32 data;
      let h := u32 (h + w) in
      let h := u32 (h * hash_m) in
      hash_words fuel (drop 4 data) (Z.lxor h (Z.shiftr h 16))
    end
  else Done (h, data).

(** The switch over the bytes that are left. *)
Definition hash_tail (data : list Z) (h : Z) : Z :=
  let last h d0 :=
    let h := u32 (h + d0) in
    let h := u32 (h * hash_m) in
    Z.lxor h (Z.shiftr h hash_r) in
  match data with
  | [d0; d1; d2] => last (u32 (u32 (h + Z.shiftl d2 16) + Z.shiftl d1 8)) d0
  | [d0; d1] => last (u32 (h + Z.shiftl d1 8)) d0
  | [d0] => last h d0
  | _ => h
  end.

Definition Hash (data : list Z) (seed : Z) : outcome Z :=
  let h := u32 (Z.lxor seed (u64 (zlen data * hash_m))) in
  '(h, data) ← hash_words (length data) data h;
  Done (hash_tail data h).

(** ** bloom.cc *)

Definition BloomHash (key : list Z) : outcome Z := Hash key 0xbc9f1d34.

Record BloomFilterPolicy : Type := MkBloom { bits_per_key_ : Z; k_ : Z }.

(** [bits_per_key * 0.69] is a double.  Below the cap of 30 its distance to
    the next integer is at least 0.01 (or it is 0), so it truncates like the
    exact product; at -1 or below the conversion to [size_t] is undefined. *)
Definition NewBloomFilterPolicy (bits_per_key : Z) : outcome BloomFilterPolicy :=
  if bits_per_key <? -1 then Undef else
  let k := Z.quot (bits_per_key * 69) 100 in
  let k := if k <? 1 then 1 else k in
  let k := if 30 <? k then 30 else k in
  Done (MkBloom (u64 bits_per_key) k).

(** [(h >> 17) | (h << 15)] *)
Definition bloom_delta (h : Z) : Z := Z.lor (Z.shiftr h 17) (u32 (Z.shiftl h 15)).

(** [array[bitpos / 8] |= (1 << (bitpos % 8))] *)
Definition set_bit (array : list Z) (bitpos : Z) : outcome (list Z) :=
  b ← demand (array !! Z.to_nat (bitpos / 8));
  Done (<[Z.to_nat (bitpos / 8) := u8 (Z.lor b (Z.shiftl 1 (bitpos mod 8)))]> array).

(** [for (size_t j = 0; j < k_; j++)] *)
Fixpoint set_probes (k : nat) (array : list Z) (bits h delta : Z) : outcome (list Z) :=
  match k with
  | O => Done array
  | S k => array ← set_bit array (h mod bits); set_probes k array bits (u32 (h + delta)) delta
  end.

Fixpoint add_keys (k : nat) (keys : list (list Z)) (array : list Z) (bits : Z) : outcome (list Z) :=
  match keys with
  | [] => Done array
  | key :: keys =>
    h ← BloomHash key;
    array ← set_probes k array bits h (bloom_delta h);
    add_keys k keys array bits
  end.

(** The filter is appended to [dst]. *)
Definition CreateFilter (p : BloomFilterPolicy) (keys : list (list Z)) (dst : list Z) : outcome (list Z) :=
  let bits := u64 (zlen keys * bits_per_key_ p) in
  let bits := if bits <? 64 then 64 else bits in
  let bytes := u64 (bits + 7) / 8 in
  let bits := u64 (bytes * 8) in
  array ← add_keys (Z.to_nat (k_ p)) keys (replicate (Z.to_nat bytes) 0) bits;
  Done (dst ++ array ++ [u8 (k_ p)]).

Fixpoint test_probes (k : nat) (array : list Z) (bits h delta : Z) : outcome bool :=
  match k with
  | O => Done true
  | S k =>
    let bitpos := h mod bits in
    b ← demand (array !! Z.to_nat (bitpos / 8));
    if Z.land (s8 b) (Z.shiftl 1 (bitpos mod 8)) =? 0 then Done false
    else test_probes k array bits (u32 (h + delta)) delta
  end.

Definition KeyMayMatch (key bloom_filter : list Z) : outcome bool :=
  let len := zlen bloom_filter in
  if len <? 2 then Done false else
  let bits := u64 ((len - 1) * 8) in
  last ← demand (bloom_filter !! Z.to_nat (len - 1));
  let k := u64 (s8 last) in
  if 30 <? k then Done true else
  h ← BloomHash key;
  test_probes (Z.to_nat k) bloom_filter bits h (bloom_delta h).

(** ** No false negatives *)

Lemma hash_mix_word h n : 0 <= n -> 0 <= Z.lxor (u32 h) (Z.shiftr (u32 h) n) < 2 ^ 32.
Proof. intros Hn. pose proof (u32_range h). by apply lxor_word, shiftr_word. Qed.

Lemma hash_words_total fuel : forall data h, (length data <= fuel)%nat -> 0 <= h < 2 ^ 32 ->
  exists h' data', hash_words fuel data h = Done (h', data') /\ 0 <= h' < 2 ^ 32.
Proof.
  induction fuel as [|fuel IH]; intros data h Hf Hh; cbn [hash_words]; (destruct (Z.leb_spec 4 (zlen data)); [|by eexists _, _]); [lia|].
  destruct data as [|a [|b [|c [|d data]]]]; try (cbn in *; lia). cbn [DecodeFixed32 mbind outcome_bind drop].
  apply IH; [rewrite drop_0; cbn [length] in Hf; lia|]. by apply hash_mix_word.
Qed.

Lemma hash_tail_word data h : 0 <= h < 2 ^ 32 -> 0 <= hash_tail data h < 2 ^ 32.
Proof. intros Hh. unfold hash_tail. destruct data as [|? [|? [|? [|]]]]; try done; by apply hash_mix_word. Qed.

(** The hash of any key is defined. *)
Lemma BloomHash_total key : exists h, BloomHash key = Done h /\ 0 <= h < 2 ^ 32.
Proof.
  unfold BloomHash, Hash. cbv zeta.
  destruct (hash_words_total (length key) key (u32 (Z.lxor 0xbc9f1d34 (u64 (zlen key * hash_m)))) ltac:(lia) (u32_range _)) as (h & data & -> & Hh).
  cbn [mbind outcome_bind]. eexists. split; [done|]. by apply hash_tail_word.
Qed.

(** Bit [pos] of a filter. *)
Definition bit_at (array : list Z) (pos : Z) : bool :=
  match array !! Z.to_nat (pos / 8) with Some b => Z.testbit b (pos mod 8) | None => false end.

Lemma set_bit_spec array pos :
  Forall is_byte array -> 0 <= pos < 8 * zlen array ->
  exists array', set_bit array pos = Done array' /\ length array' = length array /\ Forall is_byte array' /\
    bit_at array' pos = true /\ forall q, bit_at array q = true -> bit_at array' q = true.
Proof.
  intros Hb Hpos. pose proof (Z.div_mod pos 8 ltac:(lia)) as Hdm. pose proof (Z.mod_pos_bound pos 8 ltac:(lia)) as Hm.
  destruct (lookup_lt_is_Some_2 array (Z.to_nat (pos / 8)) ltac:(lia)) as [b Hlk]. unfold set_bit. rewrite Hlk. cbn [demand mbind outcome_bind].
  assert (Hbb : is_byte b) by (rewrite Forall_lookup in Hb; by apply (Hb _ _ Hlk)). unfold is_byte in Hbb.
  rewrite Z.shiftl_1_l. assert (H2 : 0 <= 2 ^ (pos mod 8) < 2 ^ 8) by (split; [apply Z.pow_nonneg; lia|apply Z.pow_lt_mono_r; lia]).
  pose proof (lor_word 8 b (2 ^ (pos mod 8)) ltac:(lia) ltac:(lia) H2) as Hor. rewrite u8_small by lia.
  eexists. split; [done|]. rewrite length_insert. split; [done|]. split; [apply Forall_insert; [done|unfold is_byte; lia]|].
  assert (Hl : (Z.to_nat (pos / 8) < length array)%nat) by (eapply lookup_lt_Some; exact Hlk). split.
  - unfold bit_at. rewrite list_lookup_insert_eq by done. rewrite Z.lor_spec, Z.pow2_bits_true by lia. apply orb_true_r.
  - intros q. unfold bit_at. destruct (decide (Z.to_nat (q / 8) = Z.to_nat (pos / 8))) as [E|Hne].
    + rewrite E, Hlk, list_lookup_insert_eq by done. intros Hq. rewrite Z.lor_spec, Hq. done.
    + by rewrite list_lookup_insert_ne by done.
Qed.

(** The bits a key is hashed to. *)
Fixpoint positions (k : nat) (bits h delta : Z) : list Z :=
  match k with O => [] | S k => h mod bits :: positions k bits (u32 (h + delta)) delta end.

Lemma set_probes_spec k : forall array bits h delta,
  Forall is_byte array -> bits = 8 * zlen array -> 0 < bits ->
  exists array', set_probes k array bits h delta = Done array' /\ length array' = length array /\ Forall is_byte array' /\
    (forall q, q ∈ positions k bits h delta -> bit_at array' q = true) /\ (forall q, bit_at array q = true -> bit_at array' q = true).
Proof.
  induction k as [|k IH]; intros array bits h delta Hb Ebits Hpos; cbn [set_probes positions].
  { exists array. split_and!; try done. by intros q Hq%not_elem_of_nil. }
  pose proof (Z.mod_pos_bound h bits Hpos) as Hm. destruct (set_bit_spec array (h mod bits) Hb ltac:(lia)) as (a1 & -> & Hl1 & Hb1 & Hset & Hmono).
  cbn [mbind outcome_bind]. destruct (IH a1 bits (u32 (h + delta)) delta Hb1 ltac:(lia) Hpos) as (a2 & -> & Hl2 & Hb2 & Hset2 & Hmono2).
  exists a2. split; [done|]. split; [lia|]. split; [done|]. split; [|by auto]. intros q Hq. apply elem_of_cons in Hq as [->|Hq]; auto.
Qed.

Definition key_bits (k : nat) (bits : Z) (key : list Z) (q : Z) : Prop :=
  exists h, BloomHash key = Done h /\ q ∈ positions k bits h (bloom_delta h).

Lemma add_keys_spec k bits keys : forall array,
  Forall is_byte array -> bits = 8 * zlen array -> 0 < bits ->
  exists array', add_keys k keys array bits = Done array' /\ length array' = length array /\ Forall is_byte array' /\
    (forall key q, key ∈ keys -> key_bits k bits key q -> bit_at array' q = true) /\ (forall q, bit_at array q = true -> bit_at array' q = true).
Proof.
  induction keys as [|key keys IH]; intros array Hb Ebits Hpos; cbn [add_keys].
  { exists array. split_and!; try done. by intros key q Hq%not_elem_of_nil. }
  destruct (BloomHash_total key) as (h & Eh & _). rewrite Eh. cbn [mbind outcome_bind].
  destruct (set_probes_spec k array bits h (bloom_delta h) Hb Ebits Hpos) as (a1 & -> & Hl1 & Hb1 & Hset & Hmono). cbn [mbind outcome_bind].
  destruct (IH a1 Hb1 ltac:(lia) Hpos) as (a2 & -> & Hl2 & Hb2 & Hset2 & Hmono2). exists a2. split; [done|]. split; [lia|]. split; [done|].
  split; [|by auto]. intros key' q Hin Hq. apply elem_of_cons in Hin as [->|Hin]; [|by eapply Hset2].
  destruct Hq as (h' & Eh' & Hq). rewrite Eh in Eh'. injection Eh' as <-. auto.
Qed.

Lemma char_bit b i : 0 <= i < 8 -> Z.testbit (s8 b) i = Z.testbit b i.
Proof.
  intros Hi. rewrite <- (Z.mod_pow2_bits_low (s8 b) 8 i), <- (Z.mod_pow2_bits_low b 8 i) by lia. f_equal. apply (wrap_signed 8). lia.
Qed.

Lemma test_probes_true k : forall array x bits h delta,
  bits = 8 * zlen array -> 0 < bits -> (forall q, q ∈ positions k bits h delta -> bit_at array q = true) ->
  test_probes k (array ++ x) bits h delta = Done true.
Proof.
  induction k as [|k IH]; intros array x bits h delta Ebits Hpos Hset; [done|]. cbn [test_probes positions] in *.
  pose proof (Z.mod_pos_bound h bits Hpos) as Hm. pose proof (Z.mod_pos_bound (h mod bits) 8 ltac:(lia)) as Hm8.
  pose proof (Z.div_mod (h mod bits) 8 ltac:(lia)) as Hdm.
  pose proof (Hset (h mod bits) (list_elem_of_here _ _)) as Hbit. unfold bit_at in Hbit.
  destruct (array !! Z.to_nat ((h mod bits) / 8)) as [b|] eqn:Hlk; [|done].
  rewrite lookup_app_l by (eapply lookup_lt_Some; exact Hlk). rewrite Hlk. cbn [demand mbind outcome_bind].
  destruct (Z.eqb_spec (Z.land (s8 b) (Z.shiftl 1 (h mod bits mod 8))) 0) as [E|_].
  - exfalso. apply (f_equal (fun z => Z.testbit z (h mod bits mod 8))) in E.
    rewrite Z.land_spec, Z.bits_0, Z.shiftl_1_l, Z.pow2_bits_true, char_bit, Hbit in E by lia. done.
  - apply IH; [done|done|]. intros q Hq. apply Hset. by apply list_elem_of_further.
Qed.

Lemma test_probes_total k : forall array x bits h delta, bits = 8 * zlen array -> 0 < bits ->
  exists b, test_probes k (array ++ x) bits h delta = Done b.
Proof.
  induction k as [|k IH]; intros array x bits h delta Ebits Hpos; [by eexists|]. cbn [test_probes].
  pose proof (Z.mod_pos_bound h bits Hpos) as Hm. pose proof (Z.div_mod (h mod bits) 8 ltac:(lia)). pose proof (Z.mod_pos_bound (h mod bits) 8 ltac:(lia)).
  destruct (lookup_lt_is_Some_2 (array ++ x) (Z.to_nat ((h mod bits) / 8))) as [b ->]; [rewrite length_app; lia|]. cbn [demand mbind outcome_bind].
  destruct (_ =? 0); [by eexists|]. by apply IH.
Qed.

(** ** Making a filter *)

Definition bloom_ok (p : BloomFilterPolicy) : Prop := 0 <= bits_per_key_ p < 2 ^ 31 /\ 1 <= k_ p <= 30.

Lemma new_bloom bits_per_key : 0 <= bits_per_key < 2 ^ 31 -> exists p, NewBloomFilterPolicy bits_per_key = Done p /\ bloom_ok p.
Proof.
  intros Hb. unfold NewBloomFilterPolicy. destruct (Z.ltb_spec bits_per_key (-1)); [lia|]. eexists. split; [done|]. unfold bloom_ok. cbn [bits_per_key_ k_].
  rewrite Z.quot_div_nonneg, u64_small by lia. destruct (Z.ltb_spec (bits_per_key * 69 / 100) 1); [cbn; lia|].
  destruct (Z.ltb_spec 30 (bits_per_key * 69 / 100)); lia.
Qed.

(** What [KeyMayMatch] does with a filter that has an array of [bytes] bytes. *)
Lemma match_probes array k bytes key : zlen array = bytes -> 1 <= bytes < 2 ^ 60 -> 1 <= k <= 30 -> exists h, BloomHash key = Done h /\
  KeyMayMatch key (array ++ [u8 k]) = test_probes (Z.to_nat k) (array ++ [u8 k]) (bytes * 8) h (bloom_delta h).
Proof.
  intros Hla Hb Hk. destruct (BloomHash_total key) as (h & Eh & _). exists h. split; [done|]. unfold KeyMayMatch. rewrite length_app. cbn [length].
  destruct (Z.ltb_spec (Z.of_nat (length array + 1)) 2); [lia|]. replace (Z.of_nat (length array + 1) - 1) with bytes by lia.
  rewrite lookup_app_r by lia. replace (Z.to_nat bytes - length array)%nat with 0%nat by lia. cbn [lookup list_lookup demand mbind outcome_bind].
  rewrite (u8_small k) by lia. unfold s8. rewrite signed_small, (u64_small k) by lia. destruct (Z.ltb_spec 30 k); [lia|]. rewrite Eh.
  cbn [mbind outcome_bind]. by rewrite u64_small by lia.
Qed.

Lemma bloom_create p keys dst : bloom_ok p -> zlen keys < 2 ^ 31 ->
  exists filter, CreateFilter p keys dst = Done (dst ++ filter) /\ (forall key, key ∈ keys -> KeyMayMatch key filter = Done true) /\
    (forall key, exists b, KeyMayMatch key filter = Done b) /\ Forall is_byte filter /\ (keys <> [] -> zlen filter <= (bits_per_key_ p + 10) * zlen keys).
Proof.
  intros [Hb Hk] Hn. unfold CreateFilter. rewrite (u64_small (zlen keys * bits_per_key_ p)) by nia.
  set (bits := if zlen keys * bits_per_key_ p <? 64 then 64 else zlen keys * bits_per_key_ p).
  assert (Hbits : 64 <= bits < 2 ^ 62 /\ bits <= 64 + zlen keys * bits_per_key_ p) by (subst bits; destruct (Z.ltb_spec (zlen keys * bits_per_key_ p) 64); nia). clearbody bits.
  rewrite (u64_small (bits + 7)) by lia. pose proof (Z.div_mod (bits + 7) 8 ltac:(lia)). pose proof (Z.mod_pos_bound (bits + 7) 8 ltac:(lia)).
  set (bytes := (bits + 7) / 8) in *. clearbody bytes. rewrite (u64_small (bytes * 8)) by lia.
  assert (Hzero : Forall is_byte (replicate (Z.to_nat bytes) 0)) by (by apply Forall_replicate).
  assert (Hzl : zlen (replicate (Z.to_nat bytes) 0) = bytes) by (rewrite length_replicate; lia).
  destruct (add_keys_spec (Z.to_nat (k_ p)) (bytes * 8) keys _ Hzero ltac:(lia) ltac:(lia)) as (array & -> & Hl & Hba & Hset & _).
  exists (array ++ [u8 (k_ p)]). split; [done|]. assert (Hla : zlen array = bytes) by lia. split_and!.
  - intros key Hin. destruct (match_probes array (k_ p) bytes key Hla ltac:(lia) Hk) as (h & Eh & ->). apply test_probes_true; [lia|lia|].
    intros q Hq. apply (Hset key q Hin). by exists h.
  - intros key. destruct (match_probes array (k_ p) bytes key Hla ltac:(lia) Hk) as (h & Eh & ->). apply test_probes_total; lia.
  - apply Forall_app. split; [done|]. apply Forall_singleton. apply u8_range.
  - intros Hne. rewrite length_app. cbn [length]. assert (1 <= zlen keys) by (destruct keys; [done|cbn; lia]). nia.
Qed.
