(* ===== verification/LdbTheorems.v ===== *)
(** * LdbTheorems: leveldb's codecs, checksums and write-ahead log, the
    properties. *)

From Stdlib Require Import ZifyBool.
From stdpp Require Import base tactics numbers list gmap strings pretty.
From S2P Require Import Prelude PbOStream PbWire LdbCoding LdbCrc LdbCrcSpec LdbLog LdbLogSpec LdbBloom.
Open Scope Z_scope.

(** ** The log *)

(** Write records one after the other. *)
Fixpoint write_all {F} `{WritableFile F} (rs : list Slice) (w : Writer F) : outcome (Status * Writer F) :=
  match rs with
  | [] => Done (OK, w)
  | r :: rs => '(s, w) ← AddRecord r w; if ok s then write_all rs w else Done (s, w)
  end.

Definition sound_slice (s : Slice) : Prop := Forall is_byte (bytes s) /\ address (data s) (size s).

Lemma physical_nonempty t d : (7 <= length (physical t d))%nat.
Proof. pose proof (length_physical t d). unfold kHeaderSize in *. lia. Qed.

Lemma frames_count fs : forall off, (length fs <= length (frames off fs))%nat.
Proof.
  induction fs as [|[t d] fs IH]; intros off; [done|]. cbn [frames length]. rewrite !length_app. specialize (IH (next_off off d)).
  pose proof (physical_nonempty t d). lia.
Qed.

Lemma frames_bytes fs : forall off, fits off fs -> Forall is_byte (frames off fs).
Proof.
  induction fs as [|[t d] fs IH]; intros off Hf; [constructor|]. destruct Hf as (Hoff & Ht & Hd & Hnext & Hf). cbn [frames].
  assert (Hl : zlen d < 2 ^ 16).
  { unfold next_off, start, kHeaderSize, kBlockSize in *. destruct (32768 - off <? 4 + 2 + 1); lia. }
  repeat apply Forall_app_2; [|..|done|by apply IH].
  - unfold padding. destruct (_ <? _); [|constructor]. by apply Forall_replicate.
  - unfold EncodeFixed32, kLittleEndian. apply le_bytes_bytes.
  - unfold is_type in Ht. pose proof (Z.mod_pos_bound (zlen d) 256 ltac:(lia)).
    assert (0 <= zlen d / 256 < 256) by (split; [apply Z.div_pos; lia|apply Z.div_lt_upper_bound; lia]). repeat constructor; lia.
Qed.

Section Log.
Context {W : Type} `{GoodFile W} {R : Type} `{GoodInput R}.

Lemma write_all_spec rs : Forall sound_slice rs -> forall w : Writer W, writer_ok w ->
  exists fss w', write_all rs w = Done (OK, w') /\ writer_ok w' /\ log_frames (map bytes rs) fss /\
    fits (block_offset_ w) (concat fss) /\ contents (dest_ w') = contents (dest_ w) ++ frames (block_offset_ w) (concat fss) /\
    forall j, (j <= length rs)%nat -> exists wj, write_all (take j rs) w = Done (OK, wj) /\
      contents (dest_ wj) = contents (dest_ w) ++ frames (block_offset_ w) (concat (take j fss)).
Proof.
  induction 1 as [|r rs [Hb Ha] _ IH]; intros w Hw.
  - exists [], w. split; [done|]. split; [done|]. split; [constructor|]. split; [apply Hw|]. split; [by rewrite app_nil_r|].
    intros j Hj. exists w. destruct j; cbn; by rewrite app_nil_r.
  - destruct (AddRecord_spec r w Hw Hb Ha) as (w1 & fs & E & Hw1 & Hrf & Hfit & Hoff & Hc).
    destruct (IH w1 Hw1) as (fss & w' & E' & Hw' & Hlog & Hfits & Hc' & Hall). rewrite Hoff in *.
    exists (fs :: fss), w'. cbn [write_all concat map]. rewrite E. cbn [mbind outcome_bind ok]. split; [done|]. split; [done|].
    split; [by constructor|]. split; [by apply fits_app|]. split; [by rewrite Hc', Hc, frames_app, app_assoc|].
    intros [|j] Hj; [exists w; by rewrite app_nil_r|]. cbn [length] in Hj. destruct (Hall j ltac:(lia)) as (wj & Ej & Hcj).
    exists wj. cbn [take write_all concat]. rewrite E. cbn [mbind outcome_bind ok]. split; [done|]. by rewrite Hcj, Hc, frames_app, app_assoc.
Qed.

(** A writer on an empty file. *)
Lemma new_log (dest : W) addr : contents dest = [] -> address addr 1 ->
  exists w0, new_Writer addr dest 0 = Done w0 /\ writer_ok w0 /\ block_offset_ w0 = 0 /\ contents (dest_ w0) = [].
Proof.
  intros Hempty Haddr. unfold new_Writer. rewrite (type_crcs addr Haddr). cbn [mbind outcome_bind]. eexists. split; [done|].
  split; [split; [cbn [block_offset_]; change (0 mod kBlockSize) with 0; unfold kBlockSize; lia|done]|]. done.
Qed.

(** C24: recovery of the log after a crash.  Write any records to an empty file
    and cut the file anywhere: reading it back terminates and returns exactly
    the records that were completely on disk at the cut, in order and
    unchanged, and reports no corruption; with nothing cut off it returns all
    of them.  Checksums may be verified or not. *)
Theorem log_recovers (rs : list Slice) (dest : W) (addr : Z) (reporter : option (list (Z * Status))) (checksum : bool) (store : Z) :
  Forall sound_slice rs -> contents dest = [] -> address addr 1 -> address store kBlockSize ->
  exists w0 w, new_Writer addr dest 0 = Done w0 /\ write_all rs w0 = Done (OK, w) /\
    forall (f : R), remaining f `prefix_of` contents (dest_ w) ->
    exists k r', read_all (S (length rs)) (S (length (contents (dest_ w)))) (new_Reader f reporter checksum store 0) =
        Done (take k (map bytes rs), r') /\ reporter_ r' = reporter /\
      (forall j wj, (j <= length rs)%nat -> write_all (take j rs) w0 = Done (OK, wj) ->
         (j <= k)%nat <-> zlen (contents (dest_ wj)) <= zlen (remaining f)) /\
      (remaining f = contents (dest_ w) -> take k (map bytes rs) = map bytes rs).
Proof.
  intros Hrs Hempty Haddr Hstore. destruct (new_log dest addr Hempty Haddr) as (w0 & E0 & Hw0 & Hoff0 & Hc0).
  destruct (write_all_spec rs Hrs w0 Hw0) as (fss & w & E & _ & Hlog & Hfits & Hc & Hall). rewrite Hoff0, Hc0 in *. cbn [app] in *.
  exists w0, w. split; [done|]. split; [done|]. intros f Hpre. rewrite Hc in *.
  assert (Hread : reading (new_Reader f reporter checksum store 0) 0 (remaining f)).
  { split; try done. destruct Hpre as [tail Ht]. pose proof (frames_bytes _ _ Hfits) as Hb. rewrite Ht in Hb. by apply Forall_app in Hb as [? _]. }
  pose proof (frames_count (concat fss) 0) as Hcount.
  destruct (read_all_spec (map bytes rs) fss Hlog (S (length rs)) (S (length (frames 0 (concat fss)))) _ 0 (remaining f) Hread)
    as (k & r' & Erd & Hs & Hk & Hle & Hmax); try done; try (rewrite ?length_map; lia).
  rewrite length_map in *. exists k, r'. split; [done|]. split; [apply Hs|].
  assert (Hlen : forall j wj, (j <= length rs)%nat -> write_all (take j rs) w0 = Done (OK, wj) ->
    contents (dest_ wj) = frames 0 (concat (take j fss))).
  { intros j wj Hj Ej. destruct (Hall j Hj) as (wj' & Ej' & Hcj). rewrite Ej in Ej'. injection Ej' as ->. exact Hcj. }
  assert (Hmono : forall j, (j <= k)%nat -> zlen (frames 0 (concat (take j fss))) <= zlen (frames 0 (concat (take k fss)))).
  { intros j Hj. rewrite <- (take_drop j (take k fss)), take_take, Nat.min_l, concat_app, frames_app, length_app by lia. lia. }
  split.
  - intros j wj Hj Ej. rewrite (Hlen j wj Hj Ej). split; [intros Hjk; specialize (Hmono j Hjk); lia|]. intros Hjr.
    destruct (Nat.le_gt_cases j k); [done|]. specialize (Hmax j ltac:(lia)). lia.
  - intros Hall'. destruct (Nat.lt_ge_cases k (length rs)) as [Hlt|]; [|apply take_ge; rewrite length_map; lia]. exfalso.
    specialize (Hmax (length rs) ltac:(lia)). rewrite Hall', take_ge in Hmax; [lia|]. rewrite <- (Forall2_length _ _ _ Hlog), length_map. lia.
Qed.
End Log.

(** C32: a damaged record is not returned.  When up to four adjacent bytes of
    the payload of a physical record have changed and checksums are
    verified, the reader reports a checksum mismatch for the rest of the
    block, drops it, and hands out nothing of the record. *)
Theorem log_detects_damage {R} `{SequentialFile R} (r : Reader R) result t a x x' b y l d d' :
  d = a ++ x ++ b -> d' = a ++ x' ++ b ->
  bytes (buffer_ r) = header t d ++ d' ++ y -> checksum_ r = true -> initial_offset_ r = 0 -> reporter_ r = Some l ->
  address (data (buffer_ r)) (size (buffer_ r)) -> is_type t -> Forall is_byte d -> Forall is_byte d' -> zlen d < 2 ^ 16 ->
  length x = length x' -> (length x <= 4)%nat -> x <> x' ->
  exists r', ReadPhysicalRecord result r = Done (kBadRecord, result, r') /\ bytes (buffer_ r') = [] /\
    reporter_ r' = Some (l ++ [(size (buffer_ r), Corruption "checksum mismatch")]).
Proof.
  intros Ed Ed' Eb Hck Hinit Hrep [Ha0 Ha] Ht Hd Hd' Hlen Hx H4 Hne.
  assert (Hl : length d' = length d) by (rewrite Ed, Ed', !length_app; lia).
  assert (Hsize : size (buffer_ r) = 7 + zlen d + zlen y) by (unfold size; rewrite Eb, !length_app, length_header; lia).
  unfold ReadPhysicalRecord. cbn [read_physical_loop]. destruct (Z.ltb_spec (size (buffer_ r)) kHeaderSize); [unfold kHeaderSize in *; lia|].
  unfold is_type in Ht. rewrite (parse_fields result r t d (d' ++ y)) by (done || unfold is_type; lia).
  rewrite Hsize. unfold kHeaderSize. destruct (Z.ltb_spec (7 + zlen d + zlen y) (4 + 2 + 1 + zlen d)); [lia|].
  destruct (Z.eqb_spec t kZeroType) as [E|_]; [unfold kZeroType in E; lia|]. cbn [andb]. rewrite Hck.
  assert (Hcrc : crc_matches (buffer_ r) (zlen d) = Done false).
  { unfold crc_matches. rewrite Eb.
    assert (DecodeFixed32 (header t d ++ d' ++ y) = Done (Mask (crc32c 0 (t :: d)))) as ->
      by (unfold header; rewrite <- app_assoc; apply fixed32_back, mask_word).
    assert (Htb : is_byte t) by (unfold is_byte; lia).
    cbn [mbind outcome_bind]. cbv zeta. rewrite Unmask_Mask by (apply crc32c_word; [lia|by constructor]).
    rewrite (header_rest t d (d' ++ y)). replace (Z.to_nat (1 + zlen d)) with (S (length d')) by lia. cbn [take]. rewrite take_app_length.
    unfold Value. rewrite Extend_spec; [|lia|lia|by constructor]. cbn [mbind outcome_bind]. f_equal. apply Z.eqb_neq. intros E. apply Hne.
    unfold crc32c in E. rewrite !(Z.lxor_comm _ kCRC32Xor) in E. apply lxor_inj_l in E. rewrite Z.lxor_0_r in E.
    subst d d'. symmetry in E. apply (feed_burst kCRC32Xor (t :: a) x x' b); cbn [app]; try done; [by constructor|].
    by rewrite !Forall_app in Hd'; destruct Hd' as (_ & ? & _). }
  rewrite Hcrc. cbn [mbind outcome_bind negb]. eexists. split; [reflexivity|].
  unfold ReportCorruption, ReportDrop. cbn [reporter_ set_buffer initial_offset_]. rewrite Hrep, Hinit. cbn [andb].
  match goal with |- context [0 <=? u64 ?z] => destruct (Z.leb_spec 0 (u64 z)); [|pose proof (u64_range z); lia] end.
  rewrite bool_decide_true by done. cbn. by rewrite Hrep.
Qed.

(** ** Checksums *)

(** C21: the optimised checksum.  On data at any address, [Extend] with its five
    tables, its aligned words and its four interleaved strides computes the
    bit-serial CRC-32C, and reads only the data. *)
Theorem crc_extend_exact addr crc data :
  0 <= addr < 2 ^ 64 - 3 -> 0 <= crc < 2 ^ 32 -> Forall is_byte data -> Extend addr crc data = Done (crc32c crc data).
Proof. apply Extend_spec. Qed.

(** Checksums can be extended piece by piece, as the writer does with the
    record type: the result is that of the whole, wherever the pieces are. *)
Theorem crc_extend_pieces addr addr' crc a b :
  0 <= addr < 2 ^ 64 - 3 -> 0 <= addr' < 2 ^ 64 - 3 -> 0 <= crc < 2 ^ 32 -> Forall is_byte a -> Forall is_byte b ->
  (c ← Extend addr crc a; Extend addr' c b) = Extend addr crc (a ++ b).
Proof.
  intros Ha Ha' Hc Hba Hbb. rewrite !Extend_spec by (done || by apply Forall_app). cbn [mbind outcome_bind].
  rewrite Extend_spec by (done || by apply crc32c_word). by rewrite crc32c_app.
Qed.

(** Masking is undone by unmasking, for every checksum. *)
Theorem mask_roundtrip crc : 0 <= crc < 2 ^ 32 -> 0 <= Mask crc < 2 ^ 32 /\ Unmask (Mask crc) = crc.
Proof. intros Hc. split; [apply mask_word|by apply Unmask_Mask]. Qed.

(** ** Codecs *)

(** Varints.  Both encoders write the base-128 digits, at most five and ten
    bytes; the decoders read back every value and leave what follows, and
    [VarintLength] is the number of bytes written. *)
Theorem varint_codec dst v rest :
  (0 <= v < 2 ^ 32 -> PutVarint32 dst v = dst ++ wire_varint v /\ GetVarint32 (EncodeVarint32 v ++ rest) = Some (v, rest)) /\
  (0 <= v < 2 ^ 64 -> PutVarint64 dst v = Done (dst ++ wire_varint v) /\ GetVarint64 (wire_varint v ++ rest) = Some (v, rest) /\
     VarintLength v = Done (zlen (wire_varint v))).
Proof.
  split; intros Hv.
  - unfold PutVarint32. rewrite encode_varint32_digits by done. split; [done|by apply get_varint32_digits].
  - split; [by apply put_varint64_digits|]. split; [by apply get_varint64_digits|by apply varint_length_digits].
Qed.

(** Strings with their length.  Every string below 4 GB that
    [PutLengthPrefixedSlice] appends is taken off again by both getters, with
    what follows it. *)
Theorem length_prefixed_roundtrip dst value rest :
  zlen value < 2 ^ 32 ->
  exists body, PutLengthPrefixedSlice dst value = dst ++ body /\ GetLengthPrefixedSlice (body ++ rest) = Some (value, rest) /\
    GetLengthPrefixedSlicePtr (body ++ rest) = Some (value, rest).
Proof. apply slice_back. Qed.

(** ** Bloom filters *)

(** No false negatives.  For any policy and any set of keys, creating the
    filter stays inside its array, and every key it was created from may
    match; asking about any other key is also defined. *)
Theorem bloom_no_false_negatives bits_per_key keys dst :
  0 <= bits_per_key < 2 ^ 31 -> zlen keys < 2 ^ 31 ->
  exists p filter, NewBloomFilterPolicy bits_per_key = Done p /\ CreateFilter p keys dst = Done (dst ++ filter) /\
    (forall key, key ∈ keys -> KeyMayMatch key filter = Done true) /\ (forall key, exists b, KeyMayMatch key filter = Done b).
Proof.
  intros Hb Hn. destruct (new_bloom bits_per_key Hb) as (p & E & Hp). destruct (bloom_create p keys dst Hp Hn) as (filter & Ef & Hmatch & Htotal & _ & _).
  by exists p, filter.
Qed.

(** ** Instances *)

(** Files in memory. *)
#[export] Instance string_writable : WritableFile (list Z) := {| Append d f := (OK, f ++ d); Flush f := (OK, f) |}.
#[export] Program Instance string_good : GoodFile (list Z) := {| contents f := f |}.
Next Obligation. by intros d f; eexists. Qed.
Next Obligation. by intros f; eexists. Qed.

#[export] Instance string_sequential : SequentialFile (list Z) :=
  {| Read n store f := (OK, MkSlice store (take (Z.to_nat n) f), drop (Z.to_nat n) f); Skip n f := (OK, drop (Z.to_nat n) f) |}.
#[export] Program Instance string_input : GoodInput (list Z) := {| remaining f := f |}.
Next Obligation.
  intros n store f Hn [Ha0 Ha]. eexists _, _. split; [done|]. split; [done|]. split; [done|].
  unfold address, size. cbn [data bytes]. rewrite length_take. lia.
Qed.

Ltac byte_list := repeat (apply Forall_cons_2; [unfold is_byte; lia|]); apply Forall_nil_2.

(** Three records, of which the second is empty; the file is cut inside the
    third. *)
Definition Sample_records : list Slice := [MkSlice 4096 [1; 2; 3]; MkSlice 8192 []; MkSlice 12289 [7; 7; 7; 7]].

Lemma log_recovers_witness :
  exists w0 w : Writer (list Z), new_Writer 64 [] 0 = Done w0 /\ write_all Sample_records w0 = Done (OK, w) /\
    length (dest_ w) = 28%nat /\
    exists k r', read_all 4 29 (new_Reader (take 27 (dest_ w)) (Some []) true 65536 0) = Done (take k [[1; 2; 3]; []; [7; 7; 7; 7]], r') /\
      reporter_ r' = Some [] /\ k = 2%nat.
Proof.
  destruct (log_recovers (R := list Z) Sample_records ([] : list Z) 64 (Some []) true 65536) as (w0 & w & E0 & E & Hread).
  - repeat (apply Forall_cons_2; [split; [cbn [bytes]; byte_list|unfold address, size; cbn; lia]|]). apply Forall_nil_2.
  - reflexivity.
  - unfold address. lia.
  - unfold address, kBlockSize. lia.
  - exists w0, w. split; [exact E0|]. split; [exact E|]. vm_compute in E0. injection E0 as <-.
    assert (Hl : length (dest_ w) = 28%nat) by (vm_compute in E; injection E as <-; reflexivity). split; [exact Hl|].
    destruct (Hread (take 27 (dest_ w))) as (k & r' & Er & Hrep & Hk & _).
    { exists (drop 27 (dest_ w)). symmetry. apply take_drop. }
    exists k, r'. change (contents (dest_ w)) with (dest_ w) in Er. rewrite Hl in Er. split; [exact Er|]. split; [exact Hrep|].
    assert (H2 : (2 <= k)%nat).
    { eapply Hk; [cbn; lia|vm_compute; reflexivity|]. change (remaining (take 27 (dest_ w))) with (take 27 (dest_ w)).
      rewrite length_take, Hl. vm_compute. discriminate. }
    assert (H3 : ~ (3 <= k)%nat).
    { intros Hle. eapply Hk in Hle; [|cbn; lia|vm_compute; reflexivity]. change (remaining (take 27 (dest_ w))) with (take 27 (dest_ w)) in Hle.
      rewrite length_take, Hl in Hle. vm_compute in Hle. by apply Hle. }
    lia.
Defined.

(** One changed byte in a block with one record. *)
Definition Damaged_reader : Reader (list Z) :=
  MkReader [] (Some []) true 4096 (MkSlice 4096 (header 1 [10; 20; 30] ++ [10; 21; 30] ++ [])) false 0 10 0 false.

Lemma log_detects_damage_witness :
  exists r', ReadPhysicalRecord empty_slice Damaged_reader = Done (kBadRecord, empty_slice, r') /\ bytes (buffer_ r') = [] /\
    reporter_ r' = Some ([] ++ [(size (buffer_ Damaged_reader), Corruption "checksum mismatch")]).
Proof.
  apply (log_detects_damage Damaged_reader empty_slice 1 [10] [20] [21] [30] [] [] [10; 20; 30] [10; 21; 30]);
    try reflexivity; try byte_list; [split; vm_compute; [discriminate|reflexivity]|unfold is_type; lia|cbn; lia|discriminate].
Defined.

Lemma crc_extend_exact_witness : Extend 6 0 (replicate 32 0) = Done (crc32c 0 (replicate 32 0)) /\ Extend 6 0 (replicate 32 0) = Done 0x8a9136aa.
Proof.
  split; [|vm_compute; reflexivity]. apply crc_extend_exact; [lia|lia|]. apply Forall_replicate. unfold is_byte. lia.
Defined.

Lemma crc_extend_pieces_witness : (c ← Extend 1 0 [49; 50; 51; 52]; Extend 6 c [53; 54; 55; 56; 57]) = Done 0xe3069283.
Proof.
  rewrite (crc_extend_pieces 1 6 0 [49; 50; 51; 52] [53; 54; 55; 56; 57]);
    [vm_compute; reflexivity|lia|lia|lia|byte_list|byte_list].
Defined.

Lemma mask_roundtrip_witness : Mask 0xe3069283 = 0xc78ab0e5 /\ Unmask (Mask 0xe3069283) = 0xe3069283.
Proof. split; [vm_compute; reflexivity|]. apply (mask_roundtrip 0xe3069283). lia. Defined.

Lemma varint_codec_witness :
  PutVarint32 [9] 300 = [9; 172; 2] /\ GetVarint32 ([172; 2] ++ [5]) = Some (300, [5]) /\ VarintLength (2 ^ 63) = Done 10.
Proof.
  pose proof (proj1 (varint_codec [9] 300 [5]) ltac:(lia)) as [E1 E2]. split; [exact E1|]. split; [exact E2|].
  exact (proj2 (proj2 (proj2 (varint_codec [9] (2 ^ 63) []) ltac:(lia)))).
Defined.

Lemma length_prefixed_roundtrip_witness :
  exists body, PutLengthPrefixedSlice [] [97; 98] = [] ++ body /\ body = [2; 97; 98] /\ GetLengthPrefixedSlice (body ++ [1]) = Some ([97; 98], [1]).
Proof.
  destruct (length_prefixed_roundtrip [] [97; 98] [1]) as (body & E & E' & _); [cbn; lia|]. exists body. split; [exact E|]. split; [|exact E'].
  symmetry. exact E.
Defined.

Lemma bloom_no_false_negatives_witness :
  exists p filter, NewBloomFilterPolicy 10 = Done p /\ k_ p = 6 /\ CreateFilter p [[104; 101; 108; 108; 111]; [119]] [] = Done ([] ++ filter) /\
    length filter = 9%nat /\ KeyMayMatch [119] filter = Done true /\ KeyMayMatch [120] filter = Done false.
Proof.
  destruct (bloom_no_false_negatives 10 [[104; 101; 108; 108; 111]; [119]] []) as (p & filter & Ep & Ef & Hin & _); [lia|cbn; lia|].
  exists p, filter. split; [exact Ep|]. vm_compute in Ep. injection Ep as <-. split; [reflexivity|]. split; [exact Ef|].
  split; [vm_compute in Ef; injection Ef as <-; reflexivity|]. split; [apply Hin, list_elem_of_further, list_elem_of_here|].
  vm_compute in Ef. injection Ef as <-. vm_compute. reflexivity.
Defined.
