(* ===== verification/LdbKey.v ===== *)
(** * LdbKey: leveldb's keys and their order (util/comparator.cc,
    db/dbformat.h, db/dbformat.cc).

    The database sorts internal keys: a user key followed by eight bytes that
    pack a sequence number and a type.  The order of the user keys is an
    interface; the file holds the bytewise implementation of it, the order
    of internal keys built on any implementation, and what both promise. *)

From Stdlib Require Import ZifyBool.
From stdpp Require Import base tactics numbers list gmap strings.
From S2P Require Import Prelude PbOStream PbWire LdbCoding LdbBloom.
Open Scope Z_scope.

(** ** util/comparator.cc *)

(** The interface [Comparator]; a failing [assert] is undefined behaviour. *)
Record Comparator : Type := MkComparator {
  Compare : list Z -> list Z -> outcome Z;
  FindShortestSeparator : list Z -> list Z -> outcome (list Z);
  FindShortSuccessor : list Z -> outcome (list Z);
}.

(** The C function, on as many bytes as both have; only the sign of the
    result is specified, and only the sign is used. *)
Fixpoint memcmp (a b : list Z) : Z :=
  match a, b with
  | x :: a, y :: b => if x =? y then memcmp a b else x - y
  | _, _ => 0
  end.

(** [Slice::compare] *)
Definition compare (a b : list Z) : Z :=
  let min_len := if zlen a <? zlen b then length a else length b in
  let r := memcmp (take min_len a) (take min_len b) in
  if r =? 0 then
    if zlen a <? zlen b then -1 else if zlen b <? zlen a then 1 else r
  else r.

(** The loop that finds the length of the common prefix. *)
Fixpoint find_diff (start limit : list Z) : nat :=
  match start, limit with
  | x :: start, y :: limit => if x =? y then S (find_diff start limit) else O
  | _, _ => O
  end.

Definition bytewise_separator (start limit : list Z) : outcome (list Z) :=
  let min_length := Nat.min (length start) (length limit) in
  let diff_index := find_diff start limit in
  if (min_length <=? diff_index)%nat then Done start
  else
    diff_byte ← demand (start !! diff_index);
    limit_byte ← demand (limit !! diff_index);
    if (diff_byte <? 0xff) && (diff_byte + 1 <? limit_byte) then
      let start := take (diff_index + 1) (<[diff_index := u8 (diff_byte + 1)]> start) in
      if compare start limit <? 0 then Done start else Undef
    else Done start.

Fixpoint bytewise_successor (key : list Z) : list Z :=
  match key with
  | [] => []
  | byte :: rest => if negb (byte =? 0xff) then [u8 (byte + 1)] else byte :: bytewise_successor rest
  end.

Definition BytewiseComparator : Comparator :=
  MkComparator (fun a b => Done (compare a b)) bytewise_separator (fun key => Done (bytewise_successor key)).

(** ** dbformat.h *)

Definition kTypeDeletion : Z := 0x0.
Definition kTypeValue : Z := 0x1.
Definition kValueTypeForSeek : Z := kTypeValue.
Definition kMaxSequenceNumber : Z := Z.shiftl 1 56 - 1.

Record ParsedInternalKey : Type := MkParsed { user_key : list Z; sequence : Z; type_ : Z }.

Definition InternalKeyEncodingLength (key : ParsedInternalKey) : Z := zlen (user_key key) + 8.

Definition ExtractUserKey (internal_key : list Z) : outcome (list Z) :=
  if zlen internal_key <? 8 then Undef else Done (take (length internal_key - 8) internal_key).

(** [data() + size() - 8] *)
Definition key_tag (internal_key : list Z) : outcome Z := DecodeFixed64 (drop (length internal_key - 8) internal_key).

(** [None] is [return false]. *)
Definition ParseInternalKey (internal_key : list Z) : outcome (option ParsedInternalKey) :=
  if zlen internal_key <? 8 then Done None
  else
    num ← key_tag internal_key;
    let c := Z.land num 0xff in
    let result := MkParsed (take (length internal_key - 8) internal_key) (Z.shiftr num 8) c in
    Done (if c <=? kTypeValue then Some result else None).

(** ** dbformat.cc *)

Definition PackSequenceAndType (seq t : Z) : outcome Z :=
  if kMaxSequenceNumber <? seq then Undef
  else if kValueTypeForSeek <? t then Undef
  else Done (Z.lor (u64 (Z.shiftl seq 8)) t).

Definition AppendInternalKey (result : list Z) (key : ParsedInternalKey) : outcome (list Z) :=
  num ← PackSequenceAndType (sequence key) (type_ key);
  Done (PutFixed64 (result ++ user_key key) num).

Definition internal_compare (c : Comparator) (akey bkey : list Z) : outcome Z :=
  ua ← ExtractUserKey akey;
  ub ← ExtractUserKey bkey;
  r ← Compare c ua ub;
  if r =? 0 then
    anum ← key_tag akey;
    bnum ← key_tag bkey;
    if bnum <? anum then Done (-1) else if anum <? bnum then Done 1 else Done r
  else Done r.

(** [Compare(a, b) < 0] as an assertion. *)
Definition assert_less (c : Comparator) (a b : list Z) : outcome unit :=
  r ← internal_compare c a b; if r <? 0 then Done tt else Undef.

Definition internal_separator (c : Comparator) (start limit : list Z) : outcome (list Z) :=
  user_start ← ExtractUserKey start;
  user_limit ← ExtractUserKey limit;
  tmp ← FindShortestSeparator c user_start user_limit;
  if zlen tmp <? zlen user_start then
    r ← Compare c user_start tmp;
    if r <? 0 then
      num ← PackSequenceAndType kMaxSequenceNumber kValueTypeForSeek;
      let tmp := PutFixed64 tmp num in
      _ ← assert_less c start tmp;
      _ ← assert_less c tmp limit;
      Done tmp
    else Done start
  else Done start.

Definition internal_successor (c : Comparator) (key : list Z) : outcome (list Z) :=
  user_key ← ExtractUserKey key;
  tmp ← FindShortSuccessor c user_key;
  if zlen tmp <? zlen user_key then
    r ← Compare c user_key tmp;
    if r <? 0 then
      num ← PackSequenceAndType kMaxSequenceNumber kValueTypeForSeek;
      let tmp := PutFixed64 tmp num in
      _ ← assert_less c key tmp;
      Done tmp
    else Done key
  else Done key.

Definition InternalKeyComparator (user_comparator : Comparator) : Comparator :=
  MkComparator (internal_compare user_comparator) (internal_separator user_comparator) (internal_successor user_comparator).

(** The loop of [InternalFilterPolicy::CreateFilter]. *)
Fixpoint extract_user_keys (keys : list (list Z)) : outcome (list (list Z)) :=
  match keys with
  | [] => Done []
  | key :: keys => u ← ExtractUserKey key; us ← extract_user_keys keys; Done (u :: us)
  end.

(** [LookupKey]: the bytes from [start_] to [end_], and [kstart_ - start_]. *)
Record LookupKey : Type := MkLookup { memtable_key : list Z; kstart : nat }.

Definition new_LookupKey (user_key : list Z) (s : Z) : outcome LookupKey :=
  let usize := zlen user_key in
  let needed := u64 (usize + 13) in
  let capacity := if needed <=? 200 then 200 else needed in
  let len := EncodeVarint32 (u32 (usize + 8)) in
  num ← PackSequenceAndType s kValueTypeForSeek;
  let rep := len ++ user_key ++ EncodeFixed64 num in
  if capacity <? zlen rep then Undef else Done (MkLookup rep (length len)).

Definition internal_key (k : LookupKey) : list Z := drop (kstart k) (memtable_key k).
Definition lookup_user_key (k : LookupKey) : list Z := take (length (memtable_key k) - kstart k - 8) (internal_key k).
