(* ===== verification/LdbKeySpec.v ===== *)
(** * LdbKeySpec: what comparators promise, and that the bytewise one and the
    one of internal keys keep the promise. *)

From Stdlib Require Import ZifyBool.
From stdpp Require Import base tactics numbers list gmap strings.
From S2P Require Import Prelude PbOStream PbWire LdbCoding LdbBloom LdbKey.
Open Scope Z_scope.

(** ** The contract *)

(** A comparison that is defined on the valid keys and is a total preorder
    of them. *)
Class Ordered {K : Type} (compare : K -> K -> outcome Z) (valid : K -> Prop) (cmp : K -> K -> Z) : Prop := {
  cmp_total a b : valid a -> valid b -> compare a b = Done (cmp a b);
  cmp_anti a b : valid a -> valid b -> 0 < cmp a b <-> cmp b a < 0;
  cmp_trans a b c : valid a -> valid b -> valid c -> cmp a b <= 0 -> cmp b c <= 0 -> cmp a c <= 0;
}.

(** The contract of include/leveldb/comparator.h. *)
Class GoodComparator (c : Comparator) (valid : list Z -> Prop) (cmp : list Z -> list Z -> Z) : Prop := {
  good_order :: Ordered (Compare c) valid cmp;
  good_separator start limit : valid start -> valid limit ->
    exists sep, FindShortestSeparator c start limit = Done sep /\ valid sep /\
      (cmp start limit < 0 -> cmp start sep <= 0 /\ cmp sep limit < 0) /\ (0 <= cmp start limit -> sep = start);
  good_successor key : valid key ->
    exists succ, FindShortSuccessor c key = Done succ /\ valid succ /\ cmp key succ <= 0;
}.

Section Order.
Context {K : Type} {compare : K -> K -> outcome Z} {valid : K -> Prop} {cmp : K -> K -> Z} `{!Ordered compare valid cmp}.

Lemma cmp_refl a : valid a -> cmp a a = 0.
Proof. intros Ha. pose proof (cmp_anti a a Ha Ha). lia. Qed.

Lemma cmp_zero_sym a b : valid a -> valid b -> cmp a b = 0 -> cmp b a = 0.
Proof. intros Ha Hb E. pose proof (cmp_anti a b Ha Hb). pose proof (cmp_anti b a Hb Ha). lia. Qed.

Lemma cmp_lt_le a b c : valid a -> valid b -> valid c -> cmp a b < 0 -> cmp b c <= 0 -> cmp a c < 0.
Proof.
  intros Ha Hb Hc Hab Hbc. pose proof (cmp_trans a b c Ha Hb Hc (Z.lt_le_incl _ _ Hab) Hbc).
  destruct (Z.eq_dec (cmp a c) 0) as [E|]; [|lia]. apply (cmp_zero_sym a c Ha Hc) in E.
  pose proof (cmp_trans b c a Hb Hc Ha Hbc (Z.eq_le_incl _ _ E)). pose proof (cmp_anti b a Hb Ha). lia.
Qed.

Lemma cmp_le_lt a b c : valid a -> valid b -> valid c -> cmp a b <= 0 -> cmp b c < 0 -> cmp a c < 0.
Proof.
  intros Ha Hb Hc Hab Hbc. pose proof (cmp_trans a b c Ha Hb Hc Hab (Z.lt_le_incl _ _ Hbc)).
  destruct (Z.eq_dec (cmp a c) 0) as [E|]; [|lia]. apply (cmp_zero_sym a c Ha Hc) in E.
  pose proof (cmp_trans c a b Hc Ha Hb (Z.eq_le_incl _ _ E) Hab). pose proof (cmp_anti c b Hc Hb). lia.
Qed.

Lemma cmp_lt_trans a b c : valid a -> valid b -> valid c -> cmp a b < 0 -> cmp b c < 0 -> cmp a c < 0.
Proof. intros. apply (cmp_lt_le a b c); auto. lia. Qed.

(** Keys that compare equal compare alike. *)
Lemma cmp_zero_l a b c : valid a -> valid b -> valid c -> cmp a b = 0 -> (cmp a c < 0 <-> cmp b c < 0) /\ (cmp a c = 0 <-> cmp b c = 0).
Proof.
  intros Ha Hb Hc E. pose proof (cmp_zero_sym a b Ha Hb E) as E'.
  assert (forall x y, valid x -> valid y -> cmp x y = 0 -> cmp x c <= 0 -> cmp y c <= 0).
  { intros x y Hx Hy Exy Hle. apply (cmp_trans y x c); auto. pose proof (cmp_zero_sym x y Hx Hy Exy). lia. }
  assert (forall x y, valid x -> valid y -> cmp x y = 0 -> cmp x c < 0 -> cmp y c < 0).
  { intros x y Hx Hy Exy Hle. apply (cmp_le_lt y x c); auto. pose proof (cmp_zero_sym x y Hx Hy Exy). lia. }
  pose proof (H a b Ha Hb E). pose proof (H b a Hb Ha E'). pose proof (H0 a b Ha Hb E). pose proof (H0 b a Hb Ha E'). lia.
Qed.
End Order.

(** ** The bytewise order *)

(** Lexicographic comparison, by recursion. *)
Fixpoint lex (a b : list Z) : Z :=
  match a, b with
  | [], [] => 0
  | [], _ :: _ => -1
  | _ :: _, [] => 1
  | x :: a, y :: b => if x =? y then lex a b else x - y
  end.

Lemma compare_lex a : forall b, compare a b = lex a b.
Proof.
  induction a as [|x a IH]; intros [|y b]; try done. specialize (IH b). unfold compare in *. cbn [length lex].
  destruct (Z.ltb_spec (Z.of_nat (S (length a))) (Z.of_nat (S (length b)))), (Z.ltb_spec (zlen a) (zlen b)); try lia; cbn [take memcmp];
    (destruct (Z.eqb_spec x y); [|destruct (Z.eqb_spec (x - y) 0); lia]); rewrite <- IH; [done|].
  destruct (Z.ltb_spec (Z.of_nat (S (length b))) (Z.of_nat (S (length a)))), (Z.ltb_spec (zlen b) (zlen a)); try lia; done.
Qed.

Lemma lex_anti a : forall b, 0 < lex a b <-> lex b a < 0.
Proof.
  induction a as [|x a IH]; intros [|y b]; cbn [lex]; try lia.
  destruct (Z.eqb_spec x y), (Z.eqb_spec y x); try lia. apply IH.
Qed.

Lemma lex_trans a : forall b c, lex a b <= 0 -> lex b c <= 0 -> lex a c <= 0.
Proof.
  induction a as [|x a IH]; intros [|y b] [|z c]; cbn [lex]; try lia.
  destruct (Z.eqb_spec x y), (Z.eqb_spec y z), (Z.eqb_spec x z); try lia. apply IH.
Qed.

Lemma lex_zero a : forall b, lex a b = 0 <-> a = b.
Proof.
  induction a as [|x a IH]; intros [|y b]; cbn [lex]; try (split; [lia|discriminate]); [done|].
  destruct (Z.eqb_spec x y); [rewrite IH|]; (split; [|congruence || (intros E; injection E; lia)]); [by intros ->; subst|lia].
Qed.

Lemma lex_app p : forall a b, lex (p ++ a) (p ++ b) = lex a b.
Proof. induction p as [|x p IH]; intros a b; [done|]. cbn [app lex]. by rewrite Z.eqb_refl. Qed.

(** The common prefix and what follows it on both sides. *)
Lemma find_diff_spec start : forall limit, exists p s l, start = p ++ s /\ limit = p ++ l /\ find_diff start limit = length p /\
  match s, l with x :: _, y :: _ => x <> y | _, _ => True end.
Proof.
  induction start as [|x start IH]; intros [|y limit]; [by exists [], [], []|by exists [], [], (y :: limit)|by exists [], (x :: start), []|].
  cbn [find_diff]. destruct (Z.eqb_spec x y) as [->|Hne]; [|by exists [], (x :: start), (y :: limit)].
  destruct (IH limit) as (p & s & l & -> & -> & -> & Hd). by exists (y :: p), s, l.
Qed.

Lemma bytewise_separator_spec start limit : Forall is_byte start -> Forall is_byte limit ->
  exists sep, bytewise_separator start limit = Done sep /\ Forall is_byte sep /\
    (lex start limit < 0 -> lex start sep <= 0 /\ lex sep limit < 0) /\ (0 <= lex start limit -> sep = start).
Proof.
  intros Hs Hl. assert (Hkeep : bytewise_separator start limit = Done start -> exists sep, bytewise_separator start limit = Done sep /\
    Forall is_byte sep /\ (lex start limit < 0 -> lex start sep <= 0 /\ lex sep limit < 0) /\ (0 <= lex start limit -> sep = start)).
  { intros E. exists start. assert (lex start start = 0) by by apply lex_zero. split; [done|]. split; [done|]. split; [lia|done]. }
  destruct (find_diff_spec start limit) as (p & s & l & -> & -> & E & Hd). revert Hkeep. unfold bytewise_separator. rewrite E, !length_app.
  destruct (Nat.leb_spec (Nat.min (length p + length s) (length p + length l)) (length p)); [intros Hk; by apply Hk|].
  destruct s as [|x s], l as [|y l]; cbn [length] in *; try lia. rewrite !lookup_app_r, Nat.sub_diag by lia. cbn [lookup list_lookup demand mbind outcome_bind].
  destruct (Z.ltb_spec x 255), (Z.ltb_spec (x + 1) y); cbn [andb]; try (intros Hk; by apply Hk). intros _.
  apply Forall_app in Hs as [Hp [Hx _]%Forall_cons], Hl as [_ [Hy _]%Forall_cons]. unfold is_byte in Hx, Hy.
  assert (take (length p + 1) (<[length p := u8 (x + 1)]> (p ++ x :: s)) = p ++ [x + 1]) as ->.
  { rewrite u8_small, insert_app_r_alt, Nat.sub_diag by lia. cbn [insert list_insert]. by rewrite take_app_add. }
  rewrite compare_lex, !lex_app. cbn [lex]. destruct (Z.eqb_spec (x + 1) y); [lia|]. destruct (Z.ltb_spec (x + 1 - y) 0); [|lia].
  eexists. split; [done|]. split; [apply Forall_app_2; [done|]; repeat constructor; lia|]. rewrite !lex_app. cbn [lex].
  destruct (Z.eqb_spec x (x + 1)), (Z.eqb_spec (x + 1) y), (Z.eqb_spec x y); lia.
Qed.

Lemma bytewise_successor_spec key : Forall is_byte key -> Forall is_byte (bytewise_successor key) /\ lex key (bytewise_successor key) <= 0.
Proof.
  induction 1 as [|x key Hx _ [IH1 IH2]]; [by split|]. unfold is_byte in Hx. cbn [bytewise_successor].
  destruct (Z.eqb_spec x 255); cbn [negb lex].
  - rewrite Z.eqb_refl. split; [by constructor|done].
  - rewrite u8_small by lia. destruct (Z.eqb_spec x (x + 1)); [lia|]. split; [repeat constructor; lia|lia].
Qed.

#[export] Instance bytewise_good : GoodComparator BytewiseComparator (Forall is_byte) lex.
Proof.
  split; [split|..]; cbn [BytewiseComparator Compare FindShortestSeparator FindShortSuccessor].
  - intros a b _ _. by rewrite compare_lex.
  - intros a b _ _. apply lex_anti.
  - intros a b c _ _ _. apply lex_trans.
  - apply bytewise_separator_spec.
  - intros key Hk. eexists. split; [done|]. by apply bytewise_successor_spec.
Qed.

(** ** Internal keys *)

Definition user_part (k : list Z) : list Z := take (length k - 8) k.
Definition tag_part (k : list Z) : Z := le_value (drop (length k - 8) k).

(** An internal key over valid user keys. *)
Definition valid_ikey (valid : list Z -> Prop) (k : list Z) : Prop :=
  (8 <= length k)%nat /\ valid (user_part k) /\ Forall is_byte (drop (length k - 8) k).

(** By user key, then by decreasing tag. *)
Definition icmp (cmp : list Z -> list Z -> Z) (a b : list Z) : Z :=
  if cmp (user_part a) (user_part b) =? 0 then
    if tag_part b <? tag_part a then -1 else if tag_part a <? tag_part b then 1 else 0
  else cmp (user_part a) (user_part b).

Lemma key_tag_spec k : (8 <= length k)%nat -> key_tag k = Done (tag_part k).
Proof.
  intros Hl. unfold key_tag, tag_part, DecodeFixed64, kLittleEndian.
  assert (length (drop (length k - 8) k) = 8%nat) as Hd by (rewrite length_drop; lia).
  destruct (drop _ k) as [|? [|? [|? [|? [|? [|? [|? [|? [|]]]]]]]]]; done.
Qed.

Lemma ExtractUserKey_spec k : (8 <= length k)%nat -> ExtractUserKey k = Done (user_part k).
Proof. intros Hl. unfold ExtractUserKey. by destruct (Z.ltb_spec (zlen k) 8); [lia|]. Qed.

(** An internal key made of its parts. *)
Lemma length_fixed64 num : length (EncodeFixed64 num) = 8%nat.
Proof. unfold EncodeFixed64, kLittleEndian. apply length_le_bytes. Qed.

Lemma ikey_parts u num : 0 <= num < 2 ^ 64 ->
  length (u ++ EncodeFixed64 num) = (length u + 8)%nat /\ user_part (u ++ EncodeFixed64 num) = u /\ tag_part (u ++ EncodeFixed64 num) = num.
Proof.
  intros Hn. pose proof (length_fixed64 num) as H8. unfold user_part, tag_part. rewrite length_app, H8, Nat.add_sub, take_app_length, drop_app_length.
  split; [done|]. split; [done|]. unfold EncodeFixed64, kLittleEndian. apply le_bytes_small. change (256 ^ Z.of_nat 8) with (2 ^ 64). lia.
Qed.

Lemma valid_ikey_app (valid : list Z -> Prop) u num : 0 <= num < 2 ^ 64 -> valid u -> valid_ikey valid (u ++ EncodeFixed64 num).
Proof.
  intros Hn Hu. destruct (ikey_parts u num Hn) as (Hl & Hup & _). split; [lia|]. split; [by rewrite Hup|].
  rewrite length_app, length_fixed64, Nat.add_sub, drop_app_length. unfold EncodeFixed64, kLittleEndian. apply le_bytes_bytes.
Qed.

Lemma pack_spec seq t : 0 <= seq <= kMaxSequenceNumber -> 0 <= t <= kTypeValue ->
  PackSequenceAndType seq t = Done (seq * 256 + t) /\ 0 <= seq * 256 + t < 2 ^ 64.
Proof.
  unfold PackSequenceAndType, kValueTypeForSeek, kMaxSequenceNumber, kTypeValue. change (Z.shiftl 1 56 - 1) with (2 ^ 56 - 1). intros Hs Ht.
  destruct (Z.ltb_spec (2 ^ 56 - 1) seq); [lia|]. destruct (Z.ltb_spec 1 t); [lia|]. split; [|lia].
  rewrite u64_small by (rewrite Z.shiftl_mul_pow2; lia). rewrite Z.lor_comm, lor_shiftl_add by lia. f_equal. lia.
Qed.

Section Internal.
Context {c : Comparator} {valid : list Z -> Prop} {cmp : list Z -> list Z -> Z} `{!GoodComparator c valid cmp}.

Lemma internal_compare_spec a b : valid_ikey valid a -> valid_ikey valid b -> internal_compare c a b = Done (icmp cmp a b).
Proof.
  intros (Ha & Hua & _) (Hb & Hub & _). unfold internal_compare, icmp. rewrite !ExtractUserKey_spec by done. cbn [mbind outcome_bind].
  rewrite cmp_total by done. cbn [mbind outcome_bind]. rewrite !key_tag_spec by done. cbn [mbind outcome_bind].
  destruct (Z.eqb_spec (cmp (user_part a) (user_part b)) 0) as [->|]; [|done].
  destruct (_ <? _); [done|]. by destruct (_ <? _).
Qed.

Lemma internal_ordered : Ordered (internal_compare c) (valid_ikey valid) (icmp cmp).
Proof.
  split.
  - apply internal_compare_spec.
  - intros a b (_ & Ha & _) (_ & Hb & _). unfold icmp. pose proof (cmp_anti _ _ Ha Hb). pose proof (cmp_anti _ _ Hb Ha).
    destruct (Z.eqb_spec (cmp (user_part a) (user_part b)) 0), (Z.eqb_spec (cmp (user_part b) (user_part a)) 0); repeat case_match; lia.
  - intros x y z (_ & Hx & _) (_ & Hy & _) (_ & Hz & _). unfold icmp.
    pose proof (cmp_trans _ _ _ Hx Hy Hz) as Ht. pose proof (cmp_lt_le _ _ _ Hx Hy Hz) as H1. pose proof (cmp_le_lt _ _ _ Hx Hy Hz) as H2.
    destruct (Z.eqb_spec (cmp (user_part x) (user_part y)) 0), (Z.eqb_spec (cmp (user_part y) (user_part z)) 0),
      (Z.eqb_spec (cmp (user_part x) (user_part z)) 0); repeat case_match; lia.
Qed.

(** The key with the earliest tag of a larger user key. *)
Lemma icmp_users a b : cmp (user_part a) (user_part b) < 0 -> icmp cmp a b < 0.
Proof. intros Hlt. unfold icmp. destruct (Z.eqb_spec (cmp (user_part a) (user_part b)) 0); lia. Qed.

Lemma icmp_le_users a b : icmp cmp a b < 0 -> cmp (user_part a) (user_part b) <= 0.
Proof. unfold icmp. destruct (Z.eqb_spec (cmp (user_part a) (user_part b)) 0); lia. Qed.

Lemma assert_less_spec a b : valid_ikey valid a -> valid_ikey valid b -> icmp cmp a b < 0 -> assert_less c a b = Done tt.
Proof.
  intros Ha Hb Hlt. unfold assert_less. rewrite internal_compare_spec by done. cbn [mbind outcome_bind]. by destruct (Z.ltb_spec (icmp cmp a b) 0); [|lia].
Qed.

Lemma internal_separator_spec start limit : valid_ikey valid start -> valid_ikey valid limit ->
  exists sep, internal_separator c start limit = Done sep /\ valid_ikey valid sep /\
    (icmp cmp start limit < 0 -> icmp cmp start sep <= 0 /\ icmp cmp sep limit < 0) /\ (0 <= icmp cmp start limit -> sep = start).
Proof.
  intros Hs Hl. pose proof Hs as (Hs8 & Hus & _). pose proof Hl as (Hl8 & Hul & _).
  assert (Hkeep : internal_separator c start limit = Done start -> exists sep, internal_separator c start limit = Done sep /\ valid_ikey valid sep /\
    (icmp cmp start limit < 0 -> icmp cmp start sep <= 0 /\ icmp cmp sep limit < 0) /\ (0 <= icmp cmp start limit -> sep = start)).
  { intros E. exists start. assert (icmp cmp start start = 0) by by apply (cmp_refl (Ordered0 := internal_ordered)).
    split; [done|]. split; [done|]. split; [lia|done]. }
  revert Hkeep. unfold internal_separator. rewrite !ExtractUserKey_spec by done. cbn [mbind outcome_bind].
  destruct (good_separator _ _ Hus Hul) as (tmp & -> & Htmp & Hlt & Hsame). cbn [mbind outcome_bind].
  destruct (Z.ltb_spec (zlen tmp) (zlen (user_part start))); [|intros Hk; by apply Hk].
  rewrite (cmp_total _ _ Hus Htmp). cbn [mbind outcome_bind].
  destruct (Z.ltb_spec (cmp (user_part start) tmp) 0) as [Hlt'|]; [|intros Hk; by apply Hk]. intros _.
  assert (Hless : cmp (user_part start) (user_part limit) < 0).
  { destruct (Z.lt_ge_cases (cmp (user_part start) (user_part limit)) 0) as [|Hge]; [done|]. rewrite (Hsame Hge) in *. lia. }
  destruct (pack_spec kMaxSequenceNumber kValueTypeForSeek) as [-> Hnum]; [done|done|]. cbn [mbind outcome_bind].
  set (num := kMaxSequenceNumber * 256 + kValueTypeForSeek) in *. unfold PutFixed64. destruct (ikey_parts tmp num Hnum) as (_ & Hup & _).
  pose proof (valid_ikey_app valid tmp num Hnum Htmp) as Hv. destruct (Hlt Hless) as [_ Htl].
  assert (H1 : icmp cmp start (tmp ++ EncodeFixed64 num) < 0) by (apply icmp_users; by rewrite Hup).
  assert (H2 : icmp cmp (tmp ++ EncodeFixed64 num) limit < 0) by (apply icmp_users; by rewrite Hup).
  rewrite !assert_less_spec by done. cbn [mbind outcome_bind]. eexists. split; [done|]. split; [done|]. split; [lia|].
  intros Hge. pose proof (icmp_users start limit Hless). lia.
Qed.

Lemma internal_successor_spec key : valid_ikey valid key ->
  exists succ, internal_successor c key = Done succ /\ valid_ikey valid succ /\ icmp cmp key succ <= 0.
Proof.
  intros Hk. pose proof Hk as (Hk8 & Huk & _).
  assert (Hkeep : internal_successor c key = Done key -> exists succ, internal_successor c key = Done succ /\ valid_ikey valid succ /\ icmp cmp key succ <= 0).
  { intros E. exists key. assert (icmp cmp key key = 0) by by apply (cmp_refl (Ordered0 := internal_ordered)). split; [done|]. split; [done|lia]. }
  revert Hkeep. unfold internal_successor. rewrite ExtractUserKey_spec by done. cbn [mbind outcome_bind].
  destruct (good_successor _ Huk) as (tmp & -> & Htmp & Hle). cbn [mbind outcome_bind].
  destruct (Z.ltb_spec (zlen tmp) (zlen (user_part key))); [|intros Hk'; by apply Hk'].
  rewrite (cmp_total _ _ Huk Htmp). cbn [mbind outcome_bind].
  destruct (Z.ltb_spec (cmp (user_part key) tmp) 0) as [Hlt'|]; [|intros Hk'; by apply Hk']. intros _.
  destruct (pack_spec kMaxSequenceNumber kValueTypeForSeek) as [-> Hnum]; [done|done|]. cbn [mbind outcome_bind].
  set (num := kMaxSequenceNumber * 256 + kValueTypeForSeek) in *. unfold PutFixed64. destruct (ikey_parts tmp num Hnum) as (_ & Hup & _).
  pose proof (valid_ikey_app valid tmp num Hnum Htmp) as Hv.
  assert (H1 : icmp cmp key (tmp ++ EncodeFixed64 num) < 0) by (apply icmp_users; by rewrite Hup).
  rewrite assert_less_spec by done. cbn [mbind outcome_bind]. eexists. split; [done|]. split; [done|lia].
Qed.

#[export] Instance internal_good : GoodComparator (InternalKeyComparator c) (valid_ikey valid) (icmp cmp).
Proof.
  split; [exact internal_ordered| |]; cbn [InternalKeyComparator FindShortestSeparator FindShortSuccessor].
  - apply internal_separator_spec.
  - apply internal_successor_spec.
Qed.
End Internal.

(** ** Lengths *)

Lemma internal_separator_length c start limit sep : internal_separator c start limit = Done sep -> zlen sep <= zlen start.
Proof.
  unfold internal_separator, ExtractUserKey. destruct (Z.ltb_spec (zlen start) 8); [done|]. cbn [mbind outcome_bind].
  destruct (zlen limit <? 8); [done|]. cbn [mbind outcome_bind]. destruct (FindShortestSeparator c _ _) as [tmp| |]; [|done|done]. cbn [mbind outcome_bind].
  rewrite length_take. destruct (Z.ltb_spec (zlen tmp) (Z.of_nat (Nat.min (length start - 8) (length start)))); [|by injection 1 as <-].
  destruct (Compare c _ tmp) as [r| |]; [|done|done]. cbn [mbind outcome_bind]. destruct (r <? 0); [|by injection 1 as <-].
  destruct (PackSequenceAndType _ _) as [num| |]; [|done|done]. cbn [mbind outcome_bind]. destruct (assert_less c start _); [|done|done]. cbn [mbind outcome_bind].
  destruct (assert_less c _ limit); [|done|done]. cbn [mbind outcome_bind]. injection 1 as <-. unfold PutFixed64. rewrite length_app, length_fixed64. lia.
Qed.

Lemma internal_successor_length c key succ : internal_successor c key = Done succ -> zlen succ <= zlen key.
Proof.
  unfold internal_successor, ExtractUserKey. destruct (Z.ltb_spec (zlen key) 8); [done|]. cbn [mbind outcome_bind]. intros E. inv_outcome.
  destruct (Z.ltb_spec (zlen x) (zlen (take (length key - 8) key))) as [Hlt|]; [|by inv_outcome]. rewrite length_take in Hlt. inv_outcome.
  destruct (x0 <? 0); inv_outcome; [|lia]. unfold PutFixed64. rewrite length_app, length_fixed64. lia.
Qed.

Lemma bytewise_separator_length start limit sep : bytewise_separator start limit = Done sep -> zlen sep <= zlen start.
Proof.
  unfold bytewise_separator. case_match; [by intros [= <-]|]. intros E. inv_outcome. case_match; [|by inv_outcome]. case_match; inv_outcome.
  rewrite length_take, length_insert. lia.
Qed.

Lemma bytewise_successor_length key : zlen (bytewise_successor key) <= zlen key.
Proof. induction key as [|b key IH]; [done|]. cbn [bytewise_successor]. case_match; cbn [length]; lia. Qed.

(** Valid keys are bytes, and what a comparator makes of them is no longer. *)
Class ShortComparator (c : Comparator) (valid : list Z -> Prop) : Prop := {
  short_bytes k : valid k -> Forall is_byte k;
  short_separator start limit sep : valid start -> FindShortestSeparator c start limit = Done sep -> zlen sep <= zlen start;
  short_successor key succ : valid key -> FindShortSuccessor c key = Done succ -> zlen succ <= zlen key;
}.

#[export] Instance bytewise_short : ShortComparator BytewiseComparator (Forall is_byte).
Proof.
  split; [done|intros start limit sep _; apply bytewise_separator_length|]. intros key succ _ [= <-]. apply bytewise_successor_length.
Qed.

#[export] Instance internal_short c valid : ShortComparator c valid -> ShortComparator (InternalKeyComparator c) (valid_ikey valid).
Proof.
  intros S. split.
  - intros k (Hl & Hu & Ht). rewrite <- (take_drop (length k - 8) k). apply Forall_app. split; [by apply (short_bytes (c := c))|done].
  - intros start limit sep (Hl & _). by apply internal_separator_length.
  - intros key succ _. apply internal_successor_length.
Qed.

(** ** Separators and keys alike *)

(** A separator of two keys does not come between two keys that are alike, one
    after the first key and one from the second on. *)
Class KeepsApart (c : Comparator) (valid : list Z -> Prop) (cmp : list Z -> list Z -> Z) (same : list Z -> list Z -> Prop) : Prop := {
  apart start limit sep k e : valid start -> valid limit -> valid k -> valid e -> FindShortestSeparator c start limit = Done sep ->
    cmp start limit < 0 -> cmp start k < 0 -> cmp k sep <= 0 -> cmp limit e <= 0 -> ~ same k e;
}.

(** Equal keys are not separated. *)
Lemma apart_equal c valid cmp : GoodComparator c valid cmp -> KeepsApart c valid cmp (fun k e => cmp k e = 0).
Proof.
  intros G. split. intros start limit sep k e Hs Hl Hk He E Hlt _ Hks Hle Heq. destruct (good_separator start limit Hs Hl) as (sep' & E' & Hsep & Hb & _).
  rewrite E in E'. injection E' as <-. destruct (Hb Hlt) as [_ Hsl]. pose proof (cmp_le_lt k sep limit Hk Hsep Hl Hks Hsl) as H1. pose proof (cmp_lt_le k limit e Hk Hl He H1 Hle). lia.
Qed.

#[export] Instance bytewise_apart : KeepsApart BytewiseComparator (Forall is_byte) lex (fun k e => k = e).
Proof.
  split. intros start limit sep k e Hs Hl Hk He E Hlt H1 H2 H3 ->.
  exact (apart (KeepsApart := apart_equal _ _ _ _) start limit sep e e Hs Hl Hk He E Hlt H1 H2 H3 (proj2 (lex_zero e e) eq_refl)).
Qed.

Section InternalApart.
Context {c : Comparator} {valid : list Z -> Prop} {cmp : list Z -> list Z -> Z} `{!GoodComparator c valid cmp}.

Lemma icmp_le_user a b : icmp cmp a b <= 0 -> cmp (user_part a) (user_part b) <= 0.
Proof. unfold icmp. destruct (Z.eqb_spec (cmp (user_part a) (user_part b)) 0); lia. Qed.

(** Neither are the versions of one user key. *)
#[export] Instance internal_apart : KeepsApart (InternalKeyComparator c) (valid_ikey valid) (icmp cmp) (fun k e => user_part k = user_part e).
Proof.
  split. intros start limit sep k e Hs Hl Hk He E Hlt Hsk Hks Hle Heq. cbn [InternalKeyComparator FindShortestSeparator] in E.
  pose proof Hs as (Hs8 & Hus & _). pose proof Hl as (Hl8 & Hul & _). pose proof Hk as (_ & Huk & _). pose proof He as (_ & Hue & _).
  assert (Hkeep : sep <> start). { intros ->. pose proof (cmp_anti (Ordered := internal_ordered) k start Hk Hs). lia. }
  unfold internal_separator in E. rewrite !ExtractUserKey_spec in E by done. cbn [mbind outcome_bind] in E. destruct (good_separator _ _ Hus Hul) as (tmp & Et & Htmp & Hb & Hsame).
  rewrite Et in E. cbn [mbind outcome_bind] in E. destruct (Z.ltb_spec (zlen tmp) (zlen (user_part start))); [|congruence]. rewrite (cmp_total _ _ Hus Htmp) in E. cbn [mbind outcome_bind] in E.
  destruct (Z.ltb_spec (cmp (user_part start) tmp) 0) as [Hst|]; [|congruence].
  assert (Hless : cmp (user_part start) (user_part limit) < 0).
  { destruct (Z.lt_ge_cases (cmp (user_part start) (user_part limit)) 0) as [|Hge]; [done|]. rewrite (Hsame Hge) in *. lia. }
  destruct (Hb Hless) as [_ Htl]. destruct (pack_spec kMaxSequenceNumber kValueTypeForSeek) as [Ep Hnum]; [done|done|]. rewrite Ep in E. cbn [mbind outcome_bind] in E. inv_outcome.
  unfold PutFixed64 in *. apply icmp_le_user in Hks. apply icmp_le_user in Hle. destruct (ikey_parts tmp _ Hnum) as (_ & Hup & _). rewrite Hup in Hks.
  pose proof (cmp_le_lt _ _ _ Huk Htmp Hul Hks Htl) as Hkl. pose proof (cmp_lt_le _ _ _ Huk Hul Hue Hkl Hle) as Hke. rewrite Heq, (cmp_refl _ Hue) in Hke. lia.
Qed.
End InternalApart.
