(* ===== verification/LdbBatch.v ===== *)
(** * LdbBatch: write batches (db/write_batch.cc).

    A batch is a string: a sequence number, a count and the updates one after
    the other.  It is what the log stores and what a memtable is filled
    from. *)

From Stdlib Require Import ZifyBool.
From stdpp Require Import base tactics numbers list gmap strings.
From S2P Require Import Prelude PbOStream PbWire LdbCoding LdbLog LdbKey LdbKeySpec.
Open Scope Z_scope.

Definition kHeader : Z := 12.

(** [WriteBatch], by its [rep_]. *)
Record WriteBatch : Type := MkBatch { rep_ : list Z }.

Definition Clear : WriteBatch := MkBatch (replicate (Z.to_nat kHeader) 0).
Definition new_WriteBatch : WriteBatch := Clear.
Definition ApproximateSize (b : WriteBatch) : Z := zlen (rep_ b).

(** Store bytes inside a string; anything else is out of bounds. *)
Definition overwrite (at_ : nat) (bs s : list Z) : outcome (list Z) :=
  if (length s <? at_ + length bs)%nat then Undef else Done (take at_ s ++ bs ++ drop (at_ + length bs) s).

Definition Count (b : WriteBatch) : outcome Z := n ← DecodeFixed32 (drop 8 (rep_ b)); Done (s32 n).
Definition SetCount (n : Z) (b : WriteBatch) : outcome WriteBatch := MkBatch <$> overwrite 8 (EncodeFixed32 (u32 n)) (rep_ b).
Definition Sequence (b : WriteBatch) : outcome Z := DecodeFixed64 (rep_ b).
Definition SetSequence (seq : Z) (b : WriteBatch) : outcome WriteBatch := MkBatch <$> overwrite 0 (EncodeFixed64 seq) (rep_ b).

(** The sum of two [int]; overflow is undefined. *)
Definition int_add (a b : Z) : outcome Z := if (- 2 ^ 31 <=? a + b) && (a + b <? 2 ^ 31) then Done (a + b) else Undef.

Definition batch_Put (key value : list Z) (b : WriteBatch) : outcome WriteBatch :=
  count ← Count b;
  n ← int_add count 1;
  b ← SetCount n b;
  Done (MkBatch (PutLengthPrefixedSlice (PutLengthPrefixedSlice (rep_ b ++ [kTypeValue]) key) value)).

Definition batch_Delete (key : list Z) (b : WriteBatch) : outcome WriteBatch :=
  count ← Count b;
  n ← int_add count 1;
  b ← SetCount n b;
  Done (MkBatch (PutLengthPrefixedSlice (rep_ b ++ [kTypeDeletion]) key)).

Definition batch_Append (dst src : WriteBatch) : outcome WriteBatch :=
  dcount ← Count dst;
  scount ← Count src;
  n ← int_add dcount scount;
  dst ← SetCount n dst;
  if zlen (rep_ src) <? kHeader then Undef else Done (MkBatch (rep_ dst ++ drop (Z.to_nat kHeader) (rep_ src))).

Definition SetContents (contents : list Z) : outcome WriteBatch := if zlen contents <? kHeader then Undef else Done (MkBatch contents).

(** The interface [WriteBatch::Handler]. *)
Class Handler (H : Type) : Type := {
  Put : list Z -> list Z -> H -> outcome H;
  Delete : list Z -> H -> outcome H;
}.

Section Iterate.
Context {H : Type} `{Handler H}.

(** [while (!input.empty())]; a round takes at least the tag. *)
Fixpoint iterate_loop (fuel : nat) (input : list Z) (found : Z) (handler : H) : outcome (Status * Z * H) :=
  match fuel with
  | O => NoFuel
  | S fuel =>
    match input with
    | [] => Done (OK, found, handler)
    | tag :: input =>
      found ← int_add found 1;
      if s8 tag =? kTypeValue then
        match GetLengthPrefixedSlice input with
        | Some (key, input) =>
          match GetLengthPrefixedSlice input with
          | Some (value, input) => handler ← Put key value handler; iterate_loop fuel input found handler
          | None => Done (Corruption "bad WriteBatch Put", found, handler)
          end
        | None => Done (Corruption "bad WriteBatch Put", found, handler)
        end
      else if s8 tag =? kTypeDeletion then
        match GetLengthPrefixedSlice input with
        | Some (key, input) => handler ← Delete key handler; iterate_loop fuel input found handler
        | None => Done (Corruption "bad WriteBatch Delete", found, handler)
        end
      else Done (Corruption "unknown WriteBatch tag", found, handler)
    end
  end.

Definition Iterate (b : WriteBatch) (handler : H) : outcome (Status * H) :=
  let input := rep_ b in
  if zlen input <? kHeader then Done (Corruption "malformed WriteBatch (too small)", handler)
  else
    let input := drop (Z.to_nat kHeader) input in
    '(s, found, handler) ← iterate_loop (S (length input)) input 0 handler;
    if ok s then
      count ← Count b;
      Done (if negb (found =? count) then Corruption "WriteBatch has wrong count" else OK, handler)
    else Done (s, handler).
End Iterate.

(** What the inserter needs of a memtable. *)
Class Table (M : Type) : Type := { Add : Z -> Z -> list Z -> list Z -> M -> outcome M }.

Record MemTableInserter (M : Type) : Type := MkInserter { sequence_ : Z; mem_ : M }.
Arguments MkInserter {M}.
Arguments sequence_ {M}.
Arguments mem_ {M}.

#[export] Instance inserter_handler {M} `{Table M} : Handler (MemTableInserter M) := {|
  Put key value i := mem ← Add (sequence_ i) kTypeValue key value (mem_ i); Done (MkInserter (u64 (sequence_ i + 1)) mem);
  Delete key i := mem ← Add (sequence_ i) kTypeDeletion key [] (mem_ i); Done (MkInserter (u64 (sequence_ i + 1)) mem);
|}.

Definition InsertInto {M} `{Table M} (b : WriteBatch) (memtable : M) : outcome (Status * M) :=
  seq ← Sequence b;
  '(s, inserter) ← Iterate b (MkInserter seq memtable);
  Done (s, mem_ inserter).

(** * A batch represents a list of updates. *)


Inductive update : Type :=
| UPut (key value : list Z)
| UDelete (key : list Z).

Definition small_update (u : update) : Prop :=
  match u with UPut k v => zlen k < 2 ^ 32 /\ zlen v < 2 ^ 32 | UDelete k => zlen k < 2 ^ 32 end.

Definition slice_bytes (s : list Z) : list Z := wire_varint (zlen s) ++ s.
Definition update_bytes (u : update) : list Z :=
  match u with
  | UPut k v => kTypeValue :: slice_bytes k ++ slice_bytes v
  | UDelete k => kTypeDeletion :: slice_bytes k
  end.

(** The batch with a sequence number and updates. *)
Definition batch_of (seq : Z) (us : list update) : WriteBatch :=
  MkBatch (EncodeFixed64 seq ++ EncodeFixed32 (zlen us) ++ concat (map update_bytes us)).

(** ** The string of a batch *)

Lemma put_slice dst s : zlen s < 2 ^ 32 -> PutLengthPrefixedSlice dst s = dst ++ slice_bytes s.
Proof.
  intros Hl. unfold PutLengthPrefixedSlice, PutVarint32, slice_bytes. by rewrite u32_small, encode_varint32_digits, app_assoc by lia.
Qed.

Lemma get_slice s rest : zlen s < 2 ^ 32 -> GetLengthPrefixedSlice (slice_bytes s ++ rest) = Some (s, rest).
Proof. intros Hl. destruct (slice_back [] s rest Hl) as (body & E & E' & _). rewrite put_slice in E by done. cbn in E. by subst body. Qed.

Lemma length_fixed32 v : length (EncodeFixed32 v) = 4%nat.
Proof. unfold EncodeFixed32, kLittleEndian. apply length_le_bytes. Qed.

Lemma overwrite_spec a old new rest : length new = length old -> overwrite (length a) new (a ++ old ++ rest) = Done (a ++ new ++ rest).
Proof.
  intros Hl. unfold overwrite. rewrite !length_app. destruct (Nat.ltb_spec (length a + (length old + length rest)) (length a + length new)); [lia|].
  by rewrite take_app_length, drop_app_add, Hl, drop_app_length.
Qed.

Lemma count_batch seq us : zlen us < 2 ^ 31 -> Count (batch_of seq us) = Done (zlen us).
Proof.
  intros Hn. unfold Count, batch_of. cbn [rep_]. rewrite <- (length_fixed64 seq) at 1.
  rewrite drop_app_length, fixed32_back by lia. cbn [mbind outcome_bind]. unfold s32. by rewrite signed_small by lia.
Qed.

Lemma sequence_batch seq us : 0 <= seq < 2 ^ 64 -> Sequence (batch_of seq us) = Done seq.
Proof. intros Hs. unfold Sequence, batch_of. cbn [rep_]. by apply fixed64_back. Qed.

Lemma set_sequence_batch seq seq' us : SetSequence seq' (batch_of seq us) = Done (batch_of seq' us).
Proof.
  unfold SetSequence, batch_of. cbn [rep_].
  pose proof (overwrite_spec [] (EncodeFixed64 seq) (EncodeFixed64 seq') (EncodeFixed32 (zlen us) ++ concat (map update_bytes us))) as E.
  cbn [length app] in E. rewrite E by by rewrite !length_fixed64. done.
Qed.

Lemma set_count_batch seq us n : 0 <= n < 2 ^ 32 ->
  SetCount n (batch_of seq us) = Done (MkBatch (EncodeFixed64 seq ++ EncodeFixed32 n ++ concat (map update_bytes us))).
Proof.
  intros Hn. unfold SetCount, batch_of. cbn [rep_]. rewrite u32_small by lia. rewrite <- (length_fixed64 seq) at 1.
  by rewrite overwrite_spec by by rewrite !length_fixed32.
Qed.

Lemma int_add_small a b : - 2 ^ 31 <= a + b < 2 ^ 31 -> int_add a b = Done (a + b).
Proof. intros Hr. unfold int_add. by destruct (Z.leb_spec (- 2 ^ 31) (a + b)), (Z.ltb_spec (a + b) (2 ^ 31)); try lia. Qed.

Lemma clear_batch : Clear = batch_of 0 [].
Proof. done. Qed.

Lemma batch_of_app seq us vs : rep_ (batch_of seq (us ++ vs)) =
  EncodeFixed64 seq ++ EncodeFixed32 (zlen us + zlen vs) ++ concat (map update_bytes us) ++ concat (map update_bytes vs).
Proof. unfold batch_of. cbn [rep_]. by rewrite map_app, concat_app, length_app, Nat2Z.inj_add. Qed.

Definition batch_add (u : update) (b : WriteBatch) : outcome WriteBatch :=
  match u with UPut k v => batch_Put k v b | UDelete k => batch_Delete k b end.

Lemma batch_add_spec seq us u : zlen us + 1 < 2 ^ 31 -> small_update u -> batch_add u (batch_of seq us) = Done (batch_of seq (us ++ [u])).
Proof.
  intros Hn Hu. assert (E : forall b, rep_ b = rep_ (batch_of seq (us ++ [u])) -> b = batch_of seq (us ++ [u])) by (intros [r]; cbn; by intros ->).
  destruct u as [k v|k]; cbn [batch_add small_update] in *; [unfold batch_Put|unfold batch_Delete];
    rewrite count_batch by lia; cbn [mbind outcome_bind]; rewrite int_add_small by lia; cbn [mbind outcome_bind];
    rewrite set_count_batch by lia; cbn [mbind outcome_bind rep_]; rewrite !put_slice by tauto; f_equal; apply E; rewrite batch_of_app; cbn;
    rewrite ?app_nil_r; by rewrite <- !app_assoc.
Qed.

Lemma batch_append_spec seq us seq' vs : zlen us + zlen vs < 2 ^ 31 ->
  batch_Append (batch_of seq us) (batch_of seq' vs) = Done (batch_of seq (us ++ vs)).
Proof.
  intros Hn. unfold batch_Append. rewrite !count_batch by lia. cbn [mbind outcome_bind]. rewrite int_add_small by lia. cbn [mbind outcome_bind].
  rewrite set_count_batch by lia. cbn [mbind outcome_bind rep_ batch_of].
  assert (Hl : (Z.to_nat kHeader = length (EncodeFixed64 seq' ++ EncodeFixed32 (zlen vs)))%nat) by by rewrite length_app, length_fixed64, length_fixed32.
  rewrite (app_assoc (EncodeFixed64 seq') (EncodeFixed32 (zlen vs))), Hl, drop_app_length, !length_app, length_fixed64, length_fixed32.
  destruct (Z.ltb_spec (Z.of_nat (8 + 4 + length (concat (map update_bytes vs)))) kHeader) as [Hlt|]; [unfold kHeader in Hlt; lia|].
  f_equal. unfold batch_of. f_equal. by rewrite map_app, concat_app, length_app, Nat2Z.inj_add, <- !app_assoc.
Qed.

(** ** Reading a batch *)

Section Run.
Context {H : Type} `{Handler H}.

Definition run_update (u : update) (h : H) : outcome H := match u with UPut k v => Put k v h | UDelete k => Delete k h end.
Fixpoint run_updates (us : list update) (h : H) : outcome H :=
  match us with [] => Done h | u :: us => h ← run_update u h; run_updates us h end.

Lemma iterate_updates us : Forall small_update us -> forall fuel found h,
  (length (concat (map update_bytes us)) < fuel)%nat -> 0 <= found -> found + zlen us < 2 ^ 31 ->
  iterate_loop fuel (concat (map update_bytes us)) found h = (h ← run_updates us h; Done (OK, found + zlen us, h)).
Proof.
  induction 1 as [|u us Hu _ IH]; intros [|fuel] found h Hfuel Hf Hn; try (cbn in Hfuel; lia).
  - cbn. do 3 f_equal. lia.
  - cbn [map concat length run_updates] in *. rewrite length_app in Hfuel.
    assert (Hnext : forall h' : H, iterate_loop fuel (concat (map update_bytes us)) (found + 1) h' =
      (h ← run_updates us h'; Done (OK, found + Z.of_nat (S (length us)), h))).
    { intros h'. rewrite IH by (destruct u; cbn [update_bytes length] in Hfuel; lia). by replace (found + 1 + zlen us) with (found + Z.of_nat (S (length us))) by lia. }
    destruct u as [k v|k]; cbn [update_bytes app iterate_loop small_update run_update] in *.
    + rewrite int_add_small by lia. cbn [mbind outcome_bind]. rewrite <- app_assoc. change (s8 kTypeValue =? kTypeValue) with true. cbn iota.
      rewrite get_slice by tauto. rewrite get_slice by tauto. destruct (Put k v h); cbn [mbind outcome_bind]; [apply Hnext|done|done].
    + rewrite int_add_small by lia. cbn [mbind outcome_bind]. change (s8 kTypeDeletion =? kTypeValue) with false.
      change (s8 kTypeDeletion =? kTypeDeletion) with true. cbn iota. rewrite get_slice by done.
      destruct (Delete k h); cbn [mbind outcome_bind]; [apply Hnext|done|done].
Qed.

Lemma iterate_batch seq us h : Forall small_update us -> zlen us < 2 ^ 31 ->
  Iterate (batch_of seq us) h = (h ← run_updates us h; Done (OK, h)).
Proof.
  intros Hu Hn. unfold Iterate.
  assert (Hl : (Z.to_nat kHeader = length (EncodeFixed64 seq ++ EncodeFixed32 (zlen us)))%nat) by by rewrite length_app, length_fixed64, length_fixed32.
  cbn [rep_ batch_of]. rewrite (app_assoc (EncodeFixed64 seq)), Hl, drop_app_length, !length_app, length_fixed64, length_fixed32.
  destruct (Z.ltb_spec (Z.of_nat (8 + 4 + length (concat (map update_bytes us)))) kHeader) as [Hlt|]; [unfold kHeader in Hlt; lia|].
  rewrite iterate_updates by (done || lia). destruct (run_updates us h) as [h'| |]; [|done|done]. cbn [mbind outcome_bind ok].
  rewrite count_batch by done. cbn [mbind outcome_bind].
  by rewrite Z.add_0_l, Z.eqb_refl.
Qed.

End Run.

(** ** What the bytes of a batch mean

    The format of write_batch.cc as a grammar over arbitrary bytes, with the
    status for bytes that do not follow it. *)

Inductive update_written : list Z -> update -> Prop :=
| PutWritten kb k vb v : slice_written kb k -> slice_written vb v -> update_written (kTypeValue :: kb ++ vb) (UPut k v)
| DeleteWritten kb k : slice_written kb k -> update_written (kTypeDeletion :: kb) (UDelete k).

(** No update stands at the front of [bs]. *)
Definition no_update (bs : list Z) : Prop := forall p u rest, bs = p ++ rest -> ~ update_written p u.

(** [bs] begins with the updates [us]; then it ends, or the status says what
    is wrong with the rest. *)
Inductive updates_written : list Z -> list update -> Status -> Prop :=
| WrittenEnd : updates_written [] [] OK
| WrittenUpdate p u rest us s : update_written p u -> updates_written rest us s -> updates_written (p ++ rest) (u :: us) s
| BadPut bs : no_update (kTypeValue :: bs) -> updates_written (kTypeValue :: bs) [] (Corruption "bad WriteBatch Put")
| BadDelete bs : no_update (kTypeDeletion :: bs) -> updates_written (kTypeDeletion :: bs) [] (Corruption "bad WriteBatch Delete")
| UnknownTag tag bs : tag <> kTypeValue -> tag <> kTypeDeletion -> updates_written (tag :: bs) [] (Corruption "unknown WriteBatch tag").

(** The whole batch: twelve bytes of header, the last four of them the number
    of updates as a signed integer. *)
Inductive batch_written : list Z -> list update -> Status -> Prop :=
| TooSmall rep : zlen rep < 12 -> batch_written rep [] (Corruption "malformed WriteBatch (too small)")
| RightCount seq count body us : length seq = 8%nat -> length count = 4%nat -> updates_written body us OK ->
    s32 (le_value count) = zlen us -> batch_written (seq ++ count ++ body) us OK
| WrongCount seq count body us : length seq = 8%nat -> length count = 4%nat -> updates_written body us OK ->
    s32 (le_value count) <> zlen us -> batch_written (seq ++ count ++ body) us (Corruption "WriteBatch has wrong count")
| BadBody seq count body us s : length seq = 8%nat -> length count = 4%nat -> updates_written body us s -> s <> OK ->
    batch_written (seq ++ count ++ body) us s.

(** The update at the front of a string, by the reader of the code. *)
Definition read_update (bs : list Z) : option (update * list Z) :=
  tag ← head bs;
  '(key, i) ← GetLengthPrefixedSlice (tail bs);
  if tag =? kTypeValue then '(value, i) ← GetLengthPrefixedSlice i; Some (UPut key value, i)
  else if tag =? kTypeDeletion then Some (UDelete key, i)
  else None.

Lemma read_update_complete p u rest : Forall is_byte (p ++ rest) -> update_written p u -> read_update (p ++ rest) = Some (u, rest).
Proof.
  intros Hb Hu. revert Hb. destruct Hu as [kb k vb v Hk Hv|kb k Hk]; cbn [app]; intros [_ Hb]%Forall_cons;
    unfold read_update; cbn [head tail mbind option_bind].
  - rewrite <- app_assoc in *. rewrite (get_slice_complete _ _ _ Hb Hk). cbn [mbind option_bind].
    apply Forall_app in Hb as [_ Hb]. by rewrite (get_slice_complete _ _ _ Hb Hv).
  - by rewrite (get_slice_complete _ _ _ Hb Hk).
Qed.

Lemma read_update_sound bs u rest : Forall is_byte bs -> read_update bs = Some (u, rest) -> exists p, bs = p ++ rest /\ update_written p u.
Proof.
  intros [|tag i Ht Hb]; [done|]. unfold read_update. cbn [head tail mbind option_bind].
  destruct (GetLengthPrefixedSlice i) as [[k i1]|] eqn:E1; [|done]. cbn [mbind option_bind].
  destruct (get_slice_sound _ _ _ Hb E1) as (kb & -> & Hk). apply Forall_app in Hb as [_ Hb1].
  destruct (Z.eqb_spec tag kTypeValue) as [->|]; [|destruct (Z.eqb_spec tag kTypeDeletion) as [->|]; [|done]].
  - destruct (GetLengthPrefixedSlice i1) as [[v i2]|] eqn:E2; [|done]. intros [= <- <-].
    destruct (get_slice_sound _ _ _ Hb1 E2) as (vb & -> & Hv). exists (kTypeValue :: kb ++ vb).
    split; [cbn; by rewrite <- app_assoc|by constructor].
  - intros [= <- <-]. exists (kTypeDeletion :: kb). split; [done|by constructor].
Qed.

Lemma no_update_read bs : Forall is_byte bs -> no_update bs <-> read_update bs = None.
Proof.
  intros Hb. split.
  - intros Hno. destruct (read_update bs) as [[u rest]|] eqn:E; [|done].
    destruct (read_update_sound _ _ _ Hb E) as (p & Hp & Hu). by destruct (Hno p u rest Hp).
  - intros E p u rest -> Hu. by rewrite (read_update_complete p u rest) in E.
Qed.

Lemma update_nonempty p u : update_written p u -> (1 <= length p)%nat.
Proof. destruct 1; cbn; lia. Qed.

(** Every string of bytes reads one way at least. *)
Lemma updates_written_total n : forall bs, (length bs <= n)%nat -> Forall is_byte bs -> exists us s, updates_written bs us s.
Proof.
  induction n as [|n IH]; intros bs Hn Hb; (destruct bs as [|tag bs]; [by eexists _, _; constructor|]); [cbn in Hn; lia|].
  destruct (read_update (tag :: bs)) as [[u rest]|] eqn:E.
  - destruct (read_update_sound _ _ _ Hb E) as (p & Hp & Hu). rewrite Hp in Hb, Hn |- *. rewrite length_app in Hn.
    pose proof (update_nonempty _ _ Hu). apply Forall_app in Hb as [_ Hb].
    destruct (IH rest) as (us & s & Hr); [lia|done|]. exists (u :: us), s. by apply WrittenUpdate.
  - apply no_update_read in E; [|done]. exists [].
    destruct (decide (tag = kTypeValue)) as [->|]; [eexists; by apply BadPut|].
    destruct (decide (tag = kTypeDeletion)) as [->|]; eexists; [by apply BadDelete|by apply UnknownTag].
Qed.

Lemma batch_written_total rep : Forall is_byte rep -> exists us s, batch_written rep us s.
Proof.
  intros Hb. destruct (Z.ltb_spec (zlen rep) 12) as [|Hl]; [eexists _, _; by apply TooSmall|].
  rewrite <- (take_drop 8 rep), <- (take_drop 4 (drop 8 rep)).
  assert (H8 : length (take 8 rep) = 8%nat) by (rewrite length_take; lia).
  assert (H4 : length (take 4 (drop 8 rep)) = 4%nat) by (rewrite length_take, length_drop; lia).
  destruct (updates_written_total (length rep) (drop 4 (drop 8 rep))) as (us & s & Hu);
    [rewrite !length_drop; lia|by do 2 apply Forall_drop|].
  destruct s as [| | | | | ]; try (by eexists _, _; apply BadBody).
  destruct (decide (s32 (le_value (take 4 (drop 8 rep))) = zlen us)); eexists _, _; [by apply RightCount|by apply WrongCount].
Qed.

Section Exact.
Context {H : Type} `{Handler H}.

Lemma tag_byte tag : is_byte tag -> forall k, 0 <= k < 128 -> (s8 tag =? k) = (tag =? k).
Proof.
  intros Ht k Hk. unfold is_byte in Ht. unfold s8, signed, wrap. rewrite Z.mod_small by lia. change (2 ^ (8 - 1)) with 128.
  destruct (Z.ltb_spec tag 128); lia.
Qed.

(** A round of the loop is [read_update]. *)
Lemma iterate_round fuel tag i found (h : H) : is_byte tag -> 0 <= found < 2 ^ 31 - 1 ->
  iterate_loop (S fuel) (tag :: i) found h =
    match read_update (tag :: i) with
    | Some (u, rest) => h ← run_update u h; iterate_loop fuel rest (found + 1) h
    | None => Done (Corruption (if tag =? kTypeValue then "bad WriteBatch Put" else if tag =? kTypeDeletion then "bad WriteBatch Delete" else "unknown WriteBatch tag"), found + 1, h)
    end.
Proof.
  intros Ht Hf. cbn [iterate_loop]. rewrite int_add_small by lia. cbn [mbind outcome_bind]. unfold read_update. cbn [head tail mbind option_bind].
  rewrite !tag_byte by (done || (unfold kTypeValue, kTypeDeletion; lia)).
  destruct (tag =? kTypeValue) eqn:E1; [|destruct (tag =? kTypeDeletion) eqn:E2].
  - destruct (GetLengthPrefixedSlice i) as [[k i1]|]; [|done]. cbn [mbind option_bind]. by destruct (GetLengthPrefixedSlice i1) as [[v i2]|].
  - by destruct (GetLengthPrefixedSlice i) as [[k i1]|].
  - by destruct (GetLengthPrefixedSlice i) as [[k i1]|].
Qed.

Lemma iterate_written bs us s : updates_written bs us s -> Forall is_byte bs -> forall fuel found (h : H),
  (length bs < fuel)%nat -> 0 <= found -> found + zlen bs < 2 ^ 31 ->
  iterate_loop fuel bs found h = (h ← run_updates us h; Done (s, found + zlen us + (if ok s then 0 else 1), h)).
Proof.
  induction 1 as [|p u rest us s Hu Hr IH|bs Hno|bs Hno|tag bs Hv Hd]; intros Hb [|fuel] found h Hfuel Hf Hn; try lia.
  - cbn. do 3 f_equal. lia.
  - pose proof (read_update_complete p u rest Hb Hu) as E. pose proof (update_nonempty _ _ Hu) as Hp. rewrite length_app in Hfuel, Hn.
    apply Forall_app in Hb as [Hbp Hb]. destruct p as [|tag p]; [cbn in Hp; lia|]. apply Forall_cons in Hbp as [Ht _]. cbn [app length] in *.
    rewrite iterate_round by (done || lia). rewrite E. cbn [run_updates]. destruct (run_update u h); [|done|done]. cbn [mbind outcome_bind].
    rewrite IH by (done || lia). destruct (run_updates us _); [|done|done]. cbn [mbind outcome_bind length]. do 3 f_equal. lia.
  - apply no_update_read in Hno; [|done]. cbn in Hfuel, Hn. rewrite iterate_round by (done || lia). rewrite Hno. cbn. do 3 f_equal. lia.
  - apply no_update_read in Hno; [|done]. cbn in Hfuel, Hn. rewrite iterate_round by (done || lia). rewrite Hno. cbn. do 3 f_equal. lia.
  - cbn in Hfuel, Hn. apply Forall_cons in Hb as [Ht Hb]. rewrite iterate_round by (done || lia).
    destruct (read_update (tag :: bs)) as [[u rest]|] eqn:E.
    + apply read_update_sound in E as (p & Hp & Hu); [|by constructor]. destruct Hu; by injection Hp as ->.
    + destruct (Z.eqb_spec tag kTypeValue), (Z.eqb_spec tag kTypeDeletion); try done. cbn. do 3 f_equal. lia.
Qed.

(** Reading a batch calls the handler with the updates its bytes hold and
    returns the status of the grammar. *)
Lemma iterate_exact rep us s (h : H) : batch_written rep us s -> Forall is_byte rep -> zlen rep < 2 ^ 31 ->
  Iterate (MkBatch rep) h = (h ← run_updates us h; Done (s, h)).
Proof.
  intros Hw Hb Hn. unfold Iterate. cbn [rep_]. destruct (Z.ltb_spec (zlen rep) kHeader) as [Hl|Hl]; unfold kHeader in Hl.
  { destruct Hw; [done|..]; rewrite !length_app in Hl; lia. }
  assert (Hbody : forall seq count body us s', length seq = 8%nat -> length count = 4%nat -> updates_written body us s' -> rep = seq ++ count ++ body ->
    drop (Z.to_nat kHeader) rep = body /\ Count (MkBatch rep) = Done (s32 (le_value count)) /\
    iterate_loop (S (length body)) body 0 h = (h ← run_updates us h; Done (s', zlen us + (if ok s' then 0 else 1), h))).
  { intros seq count body us0 s' H8 H4 Hu ->. split.
    - replace (Z.to_nat kHeader) with (length (seq ++ count)) by by rewrite length_app, H8, H4. by rewrite app_assoc, drop_app_length.
    - unfold Count. cbn [rep_]. rewrite <- H8, drop_app_length. rewrite !length_app in Hn.
      split; [by destruct count as [|? [|? [|? [|? [|]]]]]|].
      rewrite (iterate_written body us0 s') by (done || lia || by do 2 apply Forall_app in Hb as [_ Hb]). by destruct (run_updates us0 h). }
  destruct Hw as [rep Hs|seq count body us H8 H4 Hu Hc|seq count body us H8 H4 Hu Hc|seq count body us s H8 H4 Hu Hs]; [lia|..];
    destruct (Hbody seq count body us _ H8 H4 Hu eq_refl) as (-> & EC & ->); destruct (run_updates us h) as [h'| |]; try done; cbn [mbind outcome_bind ok].
  - rewrite EC. cbn [mbind outcome_bind]. rewrite Hc, Z.add_0_r, Z.eqb_refl. done.
  - rewrite EC. cbn [mbind outcome_bind]. rewrite Z.add_0_r. destruct (Z.eqb_spec (zlen us) (s32 (le_value count))); [lia|done].
  - by destruct s.
Qed.
End Exact.

(** The handler that records the updates. *)
#[export] Instance record_handler : Handler (list update) := {| Put k v h := Done (h ++ [UPut k v]); Delete k h := Done (h ++ [UDelete k]) |}.

Lemma record_updates us : forall h, run_updates us h = Done (h ++ us).
Proof. induction us as [|[k v|k] us IH]; intros h; cbn; [by rewrite app_nil_r|by rewrite IH, <- app_assoc..]. Qed.
