(* ===== verification/LdbArena.v ===== *)
(** * LdbArena: the bump allocator of a memtable (util/arena.h,
    util/arena.cc).

    Addresses are integers; pointers into one array do not wrap around.
    [operator new[]] is an interface of the environment: it either returns an
    array of its own, or throws and the program ends, which the model leaves
    out. *)

From Stdlib Require Import ZifyBool.
From stdpp Require Import base tactics numbers list gmap strings.
From S2P Require Import Prelude.
Open Scope Z_scope.

(** [new char[n]] *)
Class Heap (H : Type) : Type := { new_array : Z -> H -> Z * H }.

Definition arena_kBlockSize : Z := 4096.
(** [sizeof(char* )] *)
Definition sizeof_ptr : Z := 8.

Section Arena.
Context {H : Type} `{Heap H}.

Record Arena : Type := MkArena {
  alloc_ptr_ : Z;
  alloc_bytes_remaining_ : Z;
  blocks_ : list Z;
  memory_usage_ : Z;
  heap_ : H;
}.

Definition new_Arena (h : H) : Arena := MkArena 0 0 [] 0 h.
Definition MemoryUsage (a : Arena) : Z := memory_usage_ a.

Definition AllocateNewBlock (block_bytes : Z) (a : Arena) : Z * Arena :=
  let '(result, h) := new_array block_bytes (heap_ a) in
  (result, MkArena (alloc_ptr_ a) (alloc_bytes_remaining_ a) (blocks_ a ++ [result]) (u64 (memory_usage_ a + block_bytes + sizeof_ptr)) h).

(** Advance [alloc_ptr_] by [n]. *)
Definition bump (n : Z) (a : Arena) : Arena :=
  MkArena (alloc_ptr_ a + n) (u64 (alloc_bytes_remaining_ a - n)) (blocks_ a) (memory_usage_ a) (heap_ a).

Definition AllocateFallback (bytes : Z) (a : Arena) : Z * Arena :=
  if arena_kBlockSize / 4 <? bytes then AllocateNewBlock bytes a
  else
    let '(ptr, a) := AllocateNewBlock arena_kBlockSize a in
    let a := MkArena ptr arena_kBlockSize (blocks_ a) (memory_usage_ a) (heap_ a) in
    (ptr, bump bytes a).

Definition Allocate (bytes : Z) (a : Arena) : outcome (Z * Arena) :=
  if bytes <=? 0 then Undef
  else if bytes <=? alloc_bytes_remaining_ a then Done (alloc_ptr_ a, bump bytes a)
  else Done (AllocateFallback bytes a).

Definition AllocateAligned (bytes : Z) (a : Arena) : outcome (Z * Arena) :=
  let align := if 8 <? sizeof_ptr then sizeof_ptr else 8 in
  let current_mod := Z.land (alloc_ptr_ a) (align - 1) in
  let slop := if current_mod =? 0 then 0 else align - current_mod in
  let needed := u64 (bytes + slop) in
  let '(result, a) :=
    if needed <=? alloc_bytes_remaining_ a then (alloc_ptr_ a + slop, bump needed a) else AllocateFallback bytes a in
  if negb (Z.land result (align - 1) =? 0) then Undef else Done (result, a).
End Arena.
Arguments Arena H : clear implicits.

(** ** Disjointness *)

(** A stretch of memory: its address and its length. *)
Definition region : Type := Z * Z.
Definition apart (r s : region) : Prop := fst r + snd r <= fst s \/ fst s + snd s <= fst r.
Definition within (r s : region) : Prop := fst s <= fst r /\ fst r + snd r <= fst s + snd s.

(** What [operator new[]] promises: memory of its own, aligned for any type. *)
Class GoodHeap (H : Type) `{Heap H} : Type := {
  arrays : H -> list region;
  new_array_fresh n h : 0 < n -> forall p h', new_array n h = (p, h') ->
    arrays h' = (p, n) :: arrays h /\ 0 < p /\ p mod 8 = 0 /\ Forall (apart (p, n)) (arrays h);
}.

Lemma apart_sym r s : apart r s -> apart s r.
Proof. unfold apart. lia. Qed.

Lemma apart_within r s t : within r s -> apart s t -> apart r t.
Proof. unfold within, apart. lia. Qed.

Section Spec.
Context {H : Type} `{GoodHeap H}.

(** The stretches handed out lie in arrays, away from each other and from the
    free tail of the current block. *)
Definition tail (a : Arena H) : region := (alloc_ptr_ a, alloc_bytes_remaining_ a).
Definition in_arrays (a : Arena H) (r : region) : Prop := Exists (within r) (arrays (heap_ a)).

Record arena_ok (a : Arena H) (used : list region) : Prop := {
  ao_used : Forall (fun r => 0 < fst r /\ 0 < snd r /\ in_arrays a r) used;
  ao_apart : ForallOrdPairs apart used;
  ao_size : 0 <= alloc_bytes_remaining_ a < 2 ^ 64;
  ao_tail : alloc_bytes_remaining_ a = 0 \/ 0 < alloc_ptr_ a /\ in_arrays a (tail a) /\ Forall (apart (tail a)) used;
}.

Lemma new_arena_ok h : arena_ok (new_Arena h) [].
Proof. split; [constructor|constructor|cbn; lia|by left]. Qed.

Lemma in_arrays_within a r s : within r s -> in_arrays a s -> in_arrays a r.
Proof. intros Hw Hin. eapply Exists_impl; [exact Hin|]. unfold within in *. lia. Qed.

(** Taking a part of the tail, after [k] unused bytes. *)
Lemma bump_ok a used k n : arena_ok a used -> 0 <= k -> 0 < n -> k + n <= alloc_bytes_remaining_ a ->
  0 < alloc_ptr_ a + k /\ arena_ok (bump (k + n) a) ((alloc_ptr_ a + k, n) :: used) /\ Forall (apart (alloc_ptr_ a + k, n)) used.
Proof.
  intros [Hu Ha Hr Hb] Hk Hn Hle. destruct Hb as [?|(Hp & Hin & Ht)]; [lia|]. split; [lia|].
  assert (Hnew : within (alloc_ptr_ a + k, n) (tail a)) by (unfold within, tail; cbn; lia).
  assert (Hrest : within (tail (bump (k + n) a)) (tail a)).
  { unfold within, tail, bump. cbn. rewrite u64_small by lia. lia. }
  assert (Hap : forall r, within r (tail a) -> Forall (apart r) used).
  { intros r Hw. eapply Forall_impl; [exact Ht|]. intros s. by apply apart_within. }
  split; [|by apply Hap]. split.
  - constructor; [|done]. split; [cbn; lia|]. split; [done|]. by apply (in_arrays_within a _ (tail a)).
  - constructor; [by apply Hap|exact Ha].
  - cbn. rewrite u64_small by lia. lia.
  - right. cbn [alloc_ptr_ bump]. split; [lia|]. split; [by apply (in_arrays_within a _ (tail a))|].
    constructor; [|by apply Hap]. unfold apart, tail. cbn. lia.
Qed.

Lemma new_block_ok a used n : arena_ok a used -> 0 < n -> exists p h', new_array n (heap_ a) = (p, h') /\ 0 < p /\ p mod 8 = 0 /\
  Forall (apart (p, n)) used /\ arrays h' = (p, n) :: arrays (heap_ a) /\ (alloc_bytes_remaining_ a = 0 \/ apart (p, n) (tail a)).
Proof.
  intros [Hu Ha Hr Hb] Hn. destruct (new_array n (heap_ a)) as [p h'] eqn:E. destruct (new_array_fresh n (heap_ a) Hn p h' E) as (Harr & Hp & Hal & Hap).
  exists p, h'. split; [done|]. split; [done|]. split; [done|].
  assert (Hin : forall r, in_arrays a r -> apart (p, n) r).
  { intros r Hex. apply Exists_exists in Hex as (s & Hs & Hw). rewrite Forall_forall in Hap. apply apart_sym, (apart_within r s); [done|]. apply apart_sym, Hap, Hs. }
  split; [|split; [done|]].
  - eapply Forall_impl; [exact Hu|]. intros r (_ & _ & Hr'). by apply Hin.
  - destruct Hb as [?|(_ & Hb & _)]; [by left|]. right. by apply Hin.
Qed.

Lemma fallback_ok a used n : arena_ok a used -> 0 < n -> exists p a', AllocateFallback n a = (p, a') /\ 0 < p /\ p mod 8 = 0 /\
  arena_ok a' ((p, n) :: used) /\ Forall (apart (p, n)) used.
Proof.
  intros Hok Hn. unfold AllocateFallback, AllocateNewBlock, arena_kBlockSize. change (4096 / 4) with 1024. destruct (Z.ltb_spec 1024 n).
  - destruct (new_block_ok a used n Hok Hn) as (p & h' & -> & Hp & Hal & Hap & Harr & Htail). destruct Hok as [Hu Ha Hr Hb].
    eexists _, _. split; [done|]. split; [done|]. split; [done|]. split; [|done]. set (a' := MkArena _ _ _ _ _).
    assert (Hmono : forall r, in_arrays a r -> in_arrays a' r) by (intros r Hr'; unfold in_arrays, a'; cbn [heap_]; rewrite Harr; by right).
    split; [| |done|].
    + constructor; [|eapply Forall_impl; [exact Hu|]; naive_solver]. split; [done|]. split; [done|].
      unfold in_arrays, a'. cbn [heap_]. rewrite Harr. left. unfold within. lia.
    + by constructor.
    + destruct Hb as [?|(? & Hb & ?)]; [by left|]. destruct Htail as [?|Htail]; [by left|]. right. split; [done|]. split; [by apply Hmono|].
      constructor; [by apply apart_sym|done].
  - destruct (new_block_ok a used 4096 Hok ltac:(lia)) as (p & h' & -> & Hp & Hal & Hap & Harr & Htail). destruct Hok as [Hu Ha Hr Hb].
    cbn [blocks_ memory_usage_ heap_]. set (a' := MkArena _ _ _ _ _).
    assert (Hmono : forall r, in_arrays a r -> in_arrays a' r) by (intros r Hr'; unfold in_arrays, a'; cbn [heap_]; rewrite Harr; by right).
    assert (Hok' : arena_ok a' used).
    { split; [eapply Forall_impl; [exact Hu|]; naive_solver|done|cbn; lia|]. right. split; [done|]. split; [|done].
      unfold in_arrays, a'. cbn [heap_]. rewrite Harr. left. unfold within, tail. cbn. lia. }
    destruct (bump_ok a' used 0 n Hok' ltac:(lia) Hn ltac:(cbn; lia)) as (_ & Hok2 & Hap2). cbn [alloc_ptr_ a'] in *. rewrite Z.add_0_r, ?Z.add_0_l in *.
    eexists _, _. split; [done|]. split; [done|]. split; [done|]. split; [exact Hok2|exact Hap2].
Qed.

(** Every allocation is a stretch of its own. *)
Lemma allocate_ok a used n : arena_ok a used -> 0 < n -> exists p a', Allocate n a = Done (p, a') /\ 0 < p /\
  arena_ok a' ((p, n) :: used) /\ Forall (apart (p, n)) used.
Proof.
  intros Hok Hn. unfold Allocate. destruct (Z.leb_spec n 0); [lia|]. destruct (Z.leb_spec n (alloc_bytes_remaining_ a)).
  - destruct (bump_ok a used 0 n Hok ltac:(lia) Hn ltac:(lia)) as (Hp & Hok' & Hap). rewrite Z.add_0_r, Z.add_0_l in *. eexists _, _. by split_and!.
  - destruct (fallback_ok a used n Hok Hn) as (p & a' & -> & Hp & _ & Hok' & Hap). eexists _, _. by split_and!.
Qed.

Lemma allocate_aligned_ok a used n : arena_ok a used -> 0 < n < 2 ^ 64 - 8 -> exists p a', AllocateAligned n a = Done (p, a') /\ 0 < p /\ p mod 8 = 0 /\
  arena_ok a' ((p, n) :: used) /\ Forall (apart (p, n)) used.
Proof.
  intros Hok Hn. unfold AllocateAligned, sizeof_ptr. change (8 <? 8) with false. cbv iota zeta. change (8 - 1) with (2 ^ 3 - 1).
  rewrite land_low_bits by lia. change (2 ^ 3) with 8. set (cur := alloc_ptr_ a mod 8).
  pose proof (Z.mod_pos_bound (alloc_ptr_ a) 8 ltac:(lia)) as Hcur. fold cur in Hcur.
  set (slop := if cur =? 0 then 0 else 8 - cur). assert (Hslop : 0 <= slop < 8 /\ (alloc_ptr_ a + slop) mod 8 = 0).
  { subst slop. destruct (Z.eqb_spec cur 0) as [E|E]; [split; [lia|by rewrite Z.add_0_r]|]. split; [lia|].
    rewrite (Z.div_mod (alloc_ptr_ a) 8) by lia. fold cur. replace (8 * (alloc_ptr_ a / 8) + cur + (8 - cur)) with ((alloc_ptr_ a / 8 + 1) * 8) by lia. by apply Z_mod_mult. }
  rewrite (u64_small (n + slop)) by lia. destruct (Z.leb_spec (n + slop) (alloc_bytes_remaining_ a)).
  - rewrite (Z.add_comm n slop). destruct (bump_ok a used slop n Hok ltac:(lia) ltac:(lia) ltac:(lia)) as (Hp & Hok' & Hap).
    change (8 - 1) with (2 ^ 3 - 1). rewrite land_low_bits by lia. change (2 ^ 3) with 8. destruct Hslop as [_ Hal]. rewrite Hal. cbn [Z.eqb negb].
    eexists _, _. by split_and!.
  - destruct (fallback_ok a used n Hok ltac:(lia)) as (p & a' & -> & Hp & Hal & Hok' & Hap).
    change (8 - 1) with (2 ^ 3 - 1). rewrite land_low_bits by lia. change (2 ^ 3) with 8. rewrite Hal. cbn [Z.eqb negb]. eexists _, _. by split_and!.
Qed.
End Spec.
