(* ===== verification/LdbSkip.v ===== *)
(** * LdbSkip: the skip list of a memtable (db/skiplist.h) and its random
    numbers (util/random.h).

    Nodes live at addresses that an arena hands out; a node has a key and an
    array of links, one per level, which are uninitialised until stored.
    Readers that run beside the one writer are not modelled: every operation
    runs on its own. *)

From Stdlib Require Import ZifyBool.
From stdpp Require Import base tactics numbers list gmap strings.
From S2P Require Import Prelude.
Open Scope Z_scope.

(** ** util/random.h *)

Definition new_Random (s : Z) : Z :=
  let seed := Z.land s 0x7fffffff in
  if (seed =? 0) || (seed =? 2147483647) then 1 else seed.

(** The new seed, which is also the result. *)
Definition Random_Next (seed : Z) : Z :=
  let M := 2147483647 in
  let A := 16807 in
  let product := u64 (seed * A) in
  let seed := u32 (Z.shiftr product 31 + Z.land product M) in
  if M <? seed then u32 (seed - M) else seed.

(** The conversion of a possibly negative [int] to unsigned is written out; a
    remainder by zero is undefined. *)
Definition Random_Uniform (n seed : Z) : outcome (Z * Z) :=
  let seed := Random_Next seed in if u32 n =? 0 then Undef else Done (seed mod u32 n, seed).
Definition Random_OneIn (n seed : Z) : outcome (bool * Z) :=
  let seed := Random_Next seed in if u32 n =? 0 then Undef else Done (seed mod u32 n =? 0, seed).

(** ** Nodes *)

Definition kMaxHeight : nat := 12.

(** Memory for nodes, as the arena gives it. *)
Class NodeAllocator (A : Type) : Type := { allocate_aligned : Z -> A -> outcome (Z * A) }.

Section SkipList.
Context {K : Type} (compare_ : K -> K -> outcome Z) (key0 : K) {A : Type} `{NodeAllocator A}.

Record Node : Type := MkNode { node_key : K; next_ : list (option Z) }.

(** The list, with the nodes by address; 0 is the null pointer. *)
Record SkipList : Type := MkSkipList {
  arena_ : A;
  head_ : Z;
  max_height_ : nat;
  rnd_ : Z;
  nodes : gmap Z Node;
}.

Definition set_nodes (m : gmap Z Node) (l : SkipList) : SkipList := MkSkipList (arena_ l) (head_ l) (max_height_ l) (rnd_ l) m.

(** [Next(n)] and [SetNext(n, x)] of the node at [p]. *)
Definition NodeNext (m : gmap Z Node) (p : Z) (n : nat) : outcome Z :=
  node ← demand (m !! p);
  link ← demand (next_ node !! n);
  demand link.
Definition NodeSetNext (p : Z) (n : nat) (x : Z) (m : gmap Z Node) : outcome (gmap Z Node) :=
  node ← demand (m !! p);
  if (n <? length (next_ node))%nat then Done (<[p := MkNode (node_key node) (<[n := Some x]> (next_ node))]> m) else Undef.

(** [sizeof(Node)] with one link and a pointer as key. *)
Definition sizeof_Node : Z := 16.
Definition NewNode (key : K) (height : nat) (l : SkipList) : outcome (Z * SkipList) :=
  '(p, a) ← allocate_aligned (sizeof_Node + 8 * (Z.of_nat height - 1)) (arena_ l);
  Done (p, MkSkipList a (head_ l) (max_height_ l) (rnd_ l) (<[p := MkNode key (replicate height None)]> (nodes l))).

(** ** Searching *)

Definition KeyIsAfterNode (l : SkipList) (key : K) (n : Z) : outcome bool :=
  if n =? 0 then Done false
  else node ← demand (nodes l !! n); r ← compare_ (node_key node) key; Done (r <? 0).

(** [if (prev != nullptr) prev[level] = x] *)
Definition set_prev (prev : option (list (option Z))) (level : nat) (x : Z) : outcome (option (list (option Z))) :=
  match prev with
  | None => Done None
  | Some p => if (level <? length p)%nat then Done (Some (<[level := Some x]> p)) else Undef
  end.

(** Every round moves to a later node or one level down. *)
Definition search_fuel (l : SkipList) : nat := size (nodes l) + kMaxHeight.

Fixpoint find_ge_loop (fuel : nat) (l : SkipList) (key : K) (x : Z) (level : nat) (prev : option (list (option Z))) : outcome (Z * option (list (option Z))) :=
  match fuel with
  | O => NoFuel
  | S fuel =>
    next ← NodeNext (nodes l) x level;
    after ← KeyIsAfterNode l key next;
    if after : bool then find_ge_loop fuel l key next level prev
    else
      prev ← set_prev prev level x;
      match level with
      | O => Done (next, prev)
      | S level => find_ge_loop fuel l key x level prev
      end
  end.
Definition FindGreaterOrEqual (key : K) (prev : option (list (option Z))) (l : SkipList) : outcome (Z * option (list (option Z))) :=
  find_ge_loop (search_fuel l) l key (head_ l) (max_height_ l - 1) prev.

(** [assert(x == head_ || compare_(x->key, key) < 0)] *)
Definition assert_before (l : SkipList) (key : K) (x : Z) : outcome unit :=
  if x =? head_ l then Done tt
  else node ← demand (nodes l !! x); r ← compare_ (node_key node) key; if r <? 0 then Done tt else Undef.

Fixpoint find_lt_loop (fuel : nat) (l : SkipList) (key : K) (x : Z) (level : nat) : outcome Z :=
  match fuel with
  | O => NoFuel
  | S fuel =>
    _ ← assert_before l key x;
    next ← NodeNext (nodes l) x level;
    stop ← (if next =? 0 then Done true else node ← demand (nodes l !! next); r ← compare_ (node_key node) key; Done (0 <=? r));
    if stop : bool then
      match level with
      | O => Done x
      | S level => find_lt_loop fuel l key x level
      end
    else find_lt_loop fuel l key next level
  end.
Definition FindLessThan (key : K) (l : SkipList) : outcome Z := find_lt_loop (search_fuel l) l key (head_ l) (max_height_ l - 1).

Fixpoint find_last_loop (fuel : nat) (l : SkipList) (x : Z) (level : nat) : outcome Z :=
  match fuel with
  | O => NoFuel
  | S fuel =>
    next ← NodeNext (nodes l) x level;
    if next =? 0 then
      match level with
      | O => Done x
      | S level => find_last_loop fuel l x level
      end
    else find_last_loop fuel l next level
  end.
Definition FindLast (l : SkipList) : outcome Z := find_last_loop (search_fuel l) l (head_ l) (max_height_ l - 1).

Definition Contains (key : K) (l : SkipList) : outcome bool :=
  '(x, _) ← FindGreaterOrEqual key None l;
  if x =? 0 then Done false
  else node ← demand (nodes l !! x); r ← compare_ key (node_key node); Done (r =? 0).

(** ** Construction and insertion *)

(** [for (int i = 0; i < kMaxHeight; i++) head_->SetNext(i, nullptr)] *)
Fixpoint clear_links (n i : nat) (p : Z) (m : gmap Z Node) : outcome (gmap Z Node) :=
  match n with
  | O => Done m
  | S n => m ← NodeSetNext p i 0 m; clear_links n (S i) p m
  end.

Definition new_SkipList (arena : A) : outcome SkipList :=
  '(head, l) ← NewNode key0 kMaxHeight (MkSkipList arena 0 1 (new_Random 0xdeadbeef) ∅);
  m ← clear_links kMaxHeight 0 head (nodes l);
  Done (MkSkipList (arena_ l) head (max_height_ l) (rnd_ l) m).

Definition kBranching : Z := 4.
Fixpoint random_height_loop (fuel height : nat) (rnd : Z) : outcome (nat * Z) :=
  match fuel with
  | O => NoFuel
  | S fuel =>
    if (height <? kMaxHeight)%nat then
      let rnd := Random_Next rnd in
      if rnd mod kBranching =? 0 then random_height_loop fuel (S height) rnd else Done (height, rnd)
    else Done (height, rnd)
  end.
Definition RandomHeight (rnd : Z) : outcome (nat * Z) :=
  '(height, rnd) ← random_height_loop kMaxHeight 1 rnd;
  if ((0 <? height) && (height <=? kMaxHeight))%nat then Done (height, rnd) else Undef.

(** [for (int i = GetMaxHeight(); i < height; i++) prev[i] = head_] *)
Fixpoint fill_prev (n i : nat) (head : Z) (prev : option (list (option Z))) : outcome (option (list (option Z))) :=
  match n with
  | O => Done prev
  | S n => prev ← set_prev prev i head; fill_prev n (S i) head prev
  end.

(** [for (int i = 0; i < height; i++)], the new node before its successor. *)
Fixpoint link_loop (n i : nat) (prev : list (option Z)) (x : Z) (m : gmap Z Node) : outcome (gmap Z Node) :=
  match n with
  | O => Done m
  | S n =>
    p ← demand (mjoin (prev !! i));
    next ← NodeNext m p i;
    m ← NodeSetNext x i next m;
    m ← NodeSetNext p i x m;
    link_loop n (S i) prev x m
  end.

Definition Insert (key : K) (l : SkipList) : outcome SkipList :=
  '(x, prev) ← FindGreaterOrEqual key (Some (replicate kMaxHeight None)) l;
  equal ← (if x =? 0 then Done false else node ← demand (nodes l !! x); r ← compare_ key (node_key node); Done (r =? 0));
  if equal : bool then Undef
  else
    '(height, rnd) ← RandomHeight (rnd_ l);
    prev ← (if (max_height_ l <? height)%nat then fill_prev (height - max_height_ l) (max_height_ l) (head_ l) prev else Done prev);
    prev ← demand prev;
    let max_height := if (max_height_ l <? height)%nat then height else max_height_ l in
    '(x, l) ← NewNode key height (MkSkipList (arena_ l) (head_ l) max_height rnd (nodes l));
    m ← link_loop height 0 prev x (nodes l);
    Done (set_nodes m l).

(** ** Iterators: the node they stand on *)

Definition iter_Valid (node : Z) : bool := negb (node =? 0).
Definition iter_key (node : Z) (l : SkipList) : outcome K := if negb (iter_Valid node) then Undef else node_key <$> demand (nodes l !! node).
Definition iter_Next (node : Z) (l : SkipList) : outcome Z := if negb (iter_Valid node) then Undef else NodeNext (nodes l) node 0.
(** [if (node_ == list_->head_) node_ = nullptr] *)
Definition not_head (node : Z) (l : SkipList) : Z := if node =? head_ l then 0 else node.
Definition iter_Prev (node : Z) (l : SkipList) : outcome Z :=
  key ← iter_key node l;
  node ← FindLessThan key l;
  Done (not_head node l).
Definition iter_Seek (target : K) (l : SkipList) : outcome Z := '(node, _) ← FindGreaterOrEqual target None l; Done node.
Definition iter_SeekToFirst (l : SkipList) : outcome Z := NodeNext (nodes l) (head_ l) 0.
Definition iter_SeekToLast (l : SkipList) : outcome Z := node ← FindLast l; Done (not_head node l).
End SkipList.
Arguments SkipList K A : clear implicits.
Arguments Node K : clear implicits.
