(* ===== verification/LdbSkipSpec.v ===== *)
(** * LdbSkipSpec: a skip list represents a sorted list of keys.

    The abstract state is the list of entries in order, each with its address
    and height.  The links are described by splits: wherever the list is cut,
    the last entry before the cut that reaches a level points to the first
    one behind it that does. *)

From Stdlib Require Import ZifyBool Sorting.Sorted.
From stdpp Require Import base tactics numbers list gmap strings.
From S2P Require Import Prelude LdbKeySpec LdbSkip.
Open Scope Z_scope.

(** What a node allocator promises: addresses it has not given out before. *)
Class GoodAllocator (A : Type) `{NodeAllocator A} : Type := {
  given : A -> gset Z -> Prop;
  allocate_fresh a s n : given a s -> 0 < n < 2 ^ 32 ->
    exists p a', allocate_aligned n a = Done (p, a') /\ 0 < p /\ (p ∉ s) /\ given a' ({[p]} ∪ s);
}.

(** ** Random numbers *)

Lemma random_next_spec seed : 0 < seed < 2147483647 ->
  Random_Next seed = (seed * 16807) mod 2147483647 /\ 0 < Random_Next seed < 2147483647.
Proof.
  intros Hs. unfold Random_Next. rewrite u64_small by lia. rewrite Z.shiftr_div_pow2 by lia. cbv zeta.
  assert (Z.land (seed * 16807) 2147483647 = (seed * 16807) mod 2 ^ 31) as -> by (apply (land_low_bits _ 31); lia).
  pose proof (Z.div_mod (seed * 16807) (2 ^ 31) ltac:(lia)). pose proof (Z.mod_pos_bound (seed * 16807) (2 ^ 31) ltac:(lia)).
  set (hi := seed * 16807 / 2 ^ 31) in *. set (lo := (seed * 16807) mod 2 ^ 31) in *. rewrite u32_small by lia.
  assert (Hne : (seed * 16807) mod 2147483647 <> 0).
  { intros E. apply Z.mod_divide in E; [|lia]. rewrite Z.mul_comm in E. apply Z.gauss in E; [|reflexivity]. apply Z.divide_pos_le in E; lia. }
  assert (Hmod : (seed * 16807) mod 2147483647 = (hi + lo) mod 2147483647).
  { replace (seed * 16807) with (hi + lo + hi * 2147483647) by lia. by rewrite Z.mod_add by lia. }
  destruct (Z.ltb_spec 2147483647 (hi + lo)).
  - rewrite u32_small by lia. rewrite Hmod in *. replace (hi + lo) with (hi + lo - 2147483647 + 1 * 2147483647) by lia. rewrite Z.mod_add by lia.
    rewrite Z.mod_small by lia. lia.
  - assert (hi + lo <> 2147483647) by (intros E; apply Hne; rewrite Hmod, E; done). rewrite Hmod, Z.mod_small by lia. split; [done|].
    assert (hi + lo <> 0) by (intros E; apply Hne; rewrite Hmod, E; done). lia.
Qed.

Lemma random_height_spec rnd : exists h rnd', RandomHeight rnd = Done (h, rnd') /\ (1 <= h <= kMaxHeight)%nat.
Proof.
  unfold RandomHeight.
  assert (Hloop : forall fuel h r, (1 <= h <= kMaxHeight)%nat -> (kMaxHeight - h < fuel)%nat ->
    exists h' r', random_height_loop fuel h r = Done (h', r') /\ (1 <= h' <= kMaxHeight)%nat).
  { induction fuel as [|fuel IH]; intros h r Hh Hf; [lia|]. cbn [random_height_loop].
    destruct (Nat.ltb_spec h kMaxHeight); [|by eexists _, _]. destruct (_ =? _); [apply IH; lia|by eexists _, _]. }
  destruct (Hloop kMaxHeight 1%nat rnd) as (h & r' & -> & Hh); [unfold kMaxHeight; lia|unfold kMaxHeight; lia|].
  exists h, r'. cbn [mbind outcome_bind]. by destruct (Nat.ltb_spec 0 h), (Nat.leb_spec h kMaxHeight); try lia.
Qed.

(** ** Levels *)

Record entry (K : Type) : Type := MkEntry { addr : Z; ekey : K; height : nat }.
Arguments MkEntry {K}.
Arguments addr {K}.
Arguments ekey {K}.
Arguments height {K}.

Section Levels.
Context {K : Type}.
Implicit Types (es : list (entry K)) (e : entry K).

(** The entries that reach level [i]. *)
Definition lev (i : nat) es : list (entry K) := filter (fun e => (i < height e)%nat) es.
Definition last_at (h : Z) (i : nat) es : Z := from_option addr h (last (lev i es)).
Definition first_at (i : nat) es : Z := from_option addr 0 (head (lev i es)).

Lemma lev_app i es es' : lev i (es ++ es') = lev i es ++ lev i es'.
Proof. apply filter_app. Qed.

Lemma last_at_app h i es es' : last_at h i (es ++ es') = last_at (last_at h i es) i es'.
Proof. unfold last_at. rewrite lev_app, last_app. by destruct (last (lev i es')). Qed.

Lemma first_at_app i es es' : first_at i (es ++ es') = match lev i es with [] => first_at i es' | e :: _ => addr e end.
Proof. unfold first_at. rewrite lev_app. by destruct (lev i es). Qed.

Lemma lev_cons i e es : lev i (e :: es) = if decide (i < height e)%nat then e :: lev i es else lev i es.
Proof. unfold lev. rewrite filter_cons. done. Qed.

Lemma last_at_skip h i es : lev i es = [] -> last_at h i es = h.
Proof. unfold last_at. by intros ->. Qed.

Lemma last_at_elem h i es : last_at h i es = h /\ lev i es = [] \/ exists e, e ∈ es /\ (i < height e)%nat /\ last_at h i es = addr e.
Proof.
  unfold last_at. destruct (last (lev i es)) as [e|] eqn:E.
  - right. exists e. apply last_Some in E as [l' E]. assert (Hin : e ∈ lev i es) by (rewrite E; apply elem_of_app; right; by apply list_elem_of_singleton).
    apply list_elem_of_filter in Hin as [??]. done.
  - left. apply last_None in E. done.
Qed.

Lemma last_at_end h i es e : (i < height e)%nat -> last_at h i (es ++ [e]) = addr e.
Proof. intros Hi. unfold last_at. rewrite lev_app, lev_cons, decide_True by done. change (lev i []) with (@nil (entry K)). by rewrite last_snoc. Qed.

(** The first entry of a level, with what it skips. *)
Lemma lev_first i es : lev i es = [] \/ exists skip e rest, es = skip ++ e :: rest /\ lev i skip = [] /\ (i < height e)%nat /\ first_at i es = addr e.
Proof.
  induction es as [|e es IH]; [by left|]. destruct (decide (i < height e)%nat) as [Hi|Hi].
  - right. exists [], e, es. split; [done|]. split; [done|]. split; [done|]. unfold first_at. by rewrite lev_cons, decide_True.
  - rewrite lev_cons, decide_False by done. destruct IH as [IH|(skip & e' & rest & -> & Hs & Hh & Hf)]; [by left|right].
    exists (e :: skip), e', rest. split; [done|]. split; [by rewrite lev_cons, decide_False|]. split; [done|].
    unfold first_at in *. by rewrite lev_cons, decide_False.
Qed.

Lemma last_at_cons h i e es : last_at h i (e :: es) = last_at (if decide (i < height e)%nat then addr e else h) i es.
Proof. change (e :: es) with ([e] ++ es). rewrite last_at_app. unfold last_at at 2. rewrite lev_cons. by destruct (decide _). Qed.

Lemma last_at_base h h' i es : lev i es <> [] -> last_at h i es = last_at h' i es.
Proof. unfold last_at. intros Hne. by destruct (last (lev i es)) eqn:E; [|apply last_None in E]. Qed.

(** Entries in different parts of the list are at different addresses. *)
Lemma addrs_apart es es' e e' : NoDup (map addr (es ++ es')) -> e ∈ es -> e' ∈ es' -> addr e <> addr e'.
Proof.
  rewrite map_app. intros Hnd He He' E. apply NoDup_app in Hnd as (_ & Hd & _).
  apply (Hd (addr e)); [by apply list_elem_of_fmap_2|]. rewrite E. by apply list_elem_of_fmap_2.
Qed.

Lemma lev_zero es : Forall (fun e => (1 <= height e)%nat) es -> lev 0 es = es.
Proof. induction 1 as [|e es He _ IH]; [done|]. rewrite lev_cons, decide_True by lia. by rewrite IH. Qed.
End Levels.

(** ** The invariant *)

Section Spec.
Context {K : Type} {compare_ : K -> K -> outcome Z} {valid : K -> Prop} {cmp : K -> K -> Z} `{!Ordered compare_ valid cmp}.
Context {A : Type} `{GoodAllocator A}.
Implicit Types (es bs rest : list (entry K)) (l : SkipList K A).

Definition before (a b : entry K) : Prop := cmp (ekey a) (ekey b) < 0.

(** Where the node of an entry is, and how many links it has. *)
Definition node_at (m : gmap Z (Node K)) (p : Z) (h : nat) : Prop := exists k ls, m !! p = Some (MkNode k ls) /\ length ls = h.
Definition has_entry (m : gmap Z (Node K)) (e : entry K) : Prop := exists ls, m !! addr e = Some (MkNode (ekey e) ls) /\ length ls = height e.

Definition links (m : gmap Z (Node K)) (h : Z) es : Prop :=
  forall i bs rest, (i < kMaxHeight)%nat -> es = bs ++ rest -> NodeNext m (last_at h i bs) i = Done (first_at i rest).

Record skip_ok l es : Prop := {
  so_sorted : StronglySorted before es;
  so_valid : Forall (fun e => valid (ekey e)) es;
  so_addrs : NoDup (0 :: head_ l :: map addr es);
  so_heights : Forall (fun e => (1 <= height e <= max_height_ l)%nat) es;
  so_max : (1 <= max_height_ l <= kMaxHeight)%nat;
  so_head : node_at (nodes l) (head_ l) kMaxHeight;
  so_entries : Forall (has_entry (nodes l)) es;
  so_links : links (nodes l) (head_ l) es;
  so_size : size (nodes l) = S (length es);
  so_given : exists s, given (arena_ l) s /\ dom (nodes l) ⊆ s;
}.

(** ** One step of a search *)

(** The search stands on [x], which reaches [level], at the end of [bs]. *)
Definition stands l (bs : list (entry K)) (x : Z) (level : nat) : Prop :=
  bs = [] /\ x = head_ l \/ exists b e, bs = b ++ [e] /\ x = addr e /\ (level < height e)%nat.

Lemma stands_last l bs x level i : stands l bs x level -> (i <= level)%nat -> last_at (head_ l) i bs = x.
Proof. intros [[-> ->]|(b & e & -> & -> & Hh)] Hi; [done|]. apply last_at_end. lia. Qed.

Lemma stands_down l bs x level : stands l bs x (S level) -> stands l bs x level.
Proof. intros [?|(b & e & -> & -> & Hh)]; [by left|right]. exists b, e. split; [done|]. split; [done|]. lia. Qed.

(** The link leads past entries below the level, to the end or to an entry. *)
Lemma search_step l es bs rest x level : skip_ok l es -> es = bs ++ rest -> stands l bs x level -> (level < kMaxHeight)%nat ->
  (NodeNext (nodes l) x level = Done 0 /\ lev level rest = []) \/
  exists skip e rest', rest = skip ++ e :: rest' /\ lev level skip = [] /\ NodeNext (nodes l) x level = Done (addr e) /\ addr e <> 0 /\ addr e <> head_ l /\
    (exists ls, nodes l !! addr e = Some (MkNode (ekey e) ls)) /\ stands l (bs ++ skip ++ [e]) (addr e) level.
Proof.
  intros Hok -> Hst Hl. pose proof (so_links _ _ Hok level bs rest Hl eq_refl) as Hnext. rewrite (stands_last _ _ _ _ _ Hst) in Hnext by lia.
  destruct (lev_first level rest) as [E|(skip & e & rest' & -> & Hskip & Hh & Hf)].
  - left. split; [|done]. rewrite Hnext. unfold first_at. by rewrite E.
  - right. exists skip, e, rest'. rewrite Hnext, Hf. split; [done|]. split; [done|]. split; [done|].
    assert (Hin : e ∈ bs ++ skip ++ e :: rest') by (rewrite !elem_of_app, elem_of_cons; tauto).
    pose proof (so_addrs _ _ Hok) as Hnd. apply NoDup_cons in Hnd as [Hz [Hhd _]%NoDup_cons].
    assert (Hm : addr e ∈ map addr (bs ++ skip ++ e :: rest')) by by apply list_elem_of_fmap_2.
    split; [intros E; apply Hz; rewrite elem_of_cons, <- E; tauto|]. split; [intros E; apply Hhd; by rewrite <- E|].
    split; [pose proof (so_entries _ _ Hok) as He; rewrite Forall_forall in He; destruct (He e Hin) as (ls & ? & _); eauto|].
    right. exists (bs ++ skip), e. by rewrite app_assoc.
Qed.

(** A split of the sorted list at a key. *)
Definition splits (k : K) es bs rest : Prop :=
  es = bs ++ rest /\ Forall (fun e => cmp (ekey e) k < 0) bs /\ Forall (fun e => 0 <= cmp (ekey e) k) rest.

Lemma splits_exists l es k : skip_ok l es -> valid k -> exists bs rest, splits k es bs rest.
Proof.
  intros [Hs Hv _ _ _ _ _ _ _ _] Hk. induction Hs as [|e es Hs IH Hb]; [by exists [], []|]. apply Forall_cons in Hv as [He Hv].
  destruct (Z.lt_ge_cases (cmp (ekey e) k) 0) as [Hlt|Hge].
  - destruct (IH Hv) as (bs & rest & -> & H1 & H2). exists (e :: bs), rest. split; [done|]. by split; [constructor|].
  - exists [], (e :: es). split; [done|]. split; [constructor|]. constructor; [done|]. rewrite Forall_forall in *. intros e' Hin.
    destruct (Z.lt_ge_cases (cmp (ekey e') k) 0) as [Hlt|]; [|done].
    pose proof (cmp_lt_trans (ekey e) (ekey e') k He (Hv e' Hin) Hk (Hb e' Hin) Hlt). lia.
Qed.

(** The part of a split behind a place in its first half. *)
Lemma splits_tail k es b0 b1 skip e rest rest' : splits k es (b0 ++ b1) rest -> b1 ++ rest = skip ++ e :: rest' ->
  (cmp (ekey e) k < 0 /\ exists b2, b1 = skip ++ e :: b2) \/ (0 <= cmp (ekey e) k /\ exists r, skip = b1 ++ r).
Proof.
  intros (_ & H1 & H2) E. apply app_eq_app in E as [l [[E1 E2]|[E1 E2]]].
  - destruct l as [|e' l]; cbn in *; [right|left].
    + rewrite app_nil_r in E1. subst. apply Forall_cons in H2 as [He _]. split; [done|]. exists []. by rewrite app_nil_r.
    + injection E2 as -> ->. subst b1. rewrite !Forall_app, Forall_cons in H1. split; [tauto|]. by exists l.
  - right. subst. rewrite Forall_app, Forall_cons in H2. split; [tauto|]. by exists l.
Qed.

(** What a link shows to a search that stands before the key: an entry that is
    still before it, or that the search is done on this level. *)
Definition sees l (k : K) (next : Z) (e : entry K) : Prop :=
  next = addr e /\ next <> 0 /\ next <> head_ l /\ (exists ls, nodes l !! next = Some (MkNode (ekey e) ls)) /\ valid (ekey e).

Lemma heights_pos l es : skip_ok l es -> Forall (fun e => (1 <= height e)%nat) es.
Proof. intros Hok. eapply Forall_impl; [exact (so_heights _ _ Hok)|]. cbn. lia. Qed.

Lemma search_split l es k b0 b1 rest x level : skip_ok l es -> splits k es (b0 ++ b1) rest -> stands l b0 x level -> (level < kMaxHeight)%nat ->
  exists next, NodeNext (nodes l) x level = Done next /\
    ((exists e skip b2, sees l k next e /\ b1 = skip ++ e :: b2 /\ cmp (ekey e) k < 0 /\ stands l (b0 ++ skip ++ [e]) next level) \/
     (lev level b1 = [] /\ (level = 0%nat -> b1 = [] /\ next = first_at 0 rest) /\ (next = 0 \/ exists e, sees l k next e /\ 0 <= cmp (ekey e) k))).
Proof.
  intros Hok Hsp Hst Hl. pose proof Hsp as (Ees & _ & _). rewrite <- app_assoc in Ees. pose proof (heights_pos l es Hok) as Hpos.
  rewrite Ees, !Forall_app in Hpos. destruct Hpos as (_ & Hp1 & Hp2).
  destruct (search_step l es b0 (b1 ++ rest) x level Hok Ees Hst Hl) as [[E Hlev]|(skip & e & rest' & Erest & Hskip & E & Hne & Hnh & Hnode & Hst')].
  - exists 0. split; [done|]. right. rewrite lev_app in Hlev. apply app_eq_nil in Hlev as [Hb1 Hr]. split; [done|]. split; [|by left].
    intros ->. rewrite lev_zero in Hb1 by done. unfold first_at. by rewrite Hr.
  - exists (addr e). split; [done|].
    assert (Hv : valid (ekey e)).
    { pose proof (so_valid _ _ Hok) as Hv. rewrite Forall_forall in Hv. apply Hv. rewrite Ees, Erest, !elem_of_app, elem_of_cons. tauto. }
    destruct (splits_tail k es b0 b1 skip e rest rest' Hsp Erest) as [[Hlt (b2 & ->)]|[Hge (r & ->)]]; [left; by exists e, skip, b2|right].
    rewrite lev_app in Hskip. apply app_eq_nil in Hskip as [Hb1 Hr]. split; [done|]. split; [|right; by exists e].
    intros ->. rewrite lev_zero in Hb1 by done. split; [done|]. rewrite <- app_assoc in Erest. apply app_inv_head in Erest. subst rest.
    rewrite !Forall_app, Forall_cons in Hp2. rewrite first_at_app, Hr. unfold first_at. rewrite lev_cons, decide_True by lia. done.
Qed.

Lemma after_node_spec l k next e : valid k -> sees l k next e -> KeyIsAfterNode compare_ l k next = Done (cmp (ekey e) k <? 0).
Proof.
  intros Hk (-> & Hne & _ & (ls & E) & Hv). unfold KeyIsAfterNode. destruct (Z.eqb_spec (addr e) 0); [done|]. rewrite E.
  cbn [demand mbind outcome_bind node_key]. by rewrite cmp_total by done.
Qed.

(** ** The searches *)

(** What [prev] holds above and below a level. *)
Definition prev_done l bs (level : nat) (prev prev' : option (list (option Z))) : Prop :=
  match prev, prev' with
  | None, None => True
  | Some p, Some p' => length p' = length p /\ (forall j, (j <= level)%nat -> p' !! j = Some (Some (last_at (head_ l) j bs))) /\
      forall j, (level < j)%nat -> p' !! j = p !! j
  | _, _ => False
  end.
Definition prev_room (prev : option (list (option Z))) : Prop := match prev with Some p => length p = kMaxHeight | None => True end.

Lemma set_prev_spec l bs prev level x : prev_room prev -> (level < kMaxHeight)%nat -> last_at (head_ l) level bs = x ->
  exists prev1, set_prev prev level x = Done prev1 /\ prev_room prev1 /\ (level = 0%nat -> prev_done l bs level prev prev1) /\
    forall lower prev2, level = S lower -> prev_done l bs lower prev1 prev2 -> prev_done l bs level prev prev2.
Proof.
  intros Hr Hl Hx. destruct prev as [p|]; cbn [set_prev prev_room] in *.
  - rewrite Hr. destruct (Nat.ltb_spec level kMaxHeight); [|lia]. eexists. split; [done|]. cbn [prev_room]. rewrite length_insert. split; [done|].
    assert (Hat : <[level:=Some x]> p !! level = Some (Some (last_at (head_ l) level bs))) by (rewrite list_lookup_insert_eq by lia; by rewrite Hx).
    assert (Hoff : forall j, j <> level -> <[level:=Some x]> p !! j = p !! j) by (intros j Hj; by rewrite list_lookup_insert_ne).
    split.
    + intros ->. split; [by rewrite length_insert|]. split; [intros j Hj; by replace j with 0%nat by lia|]. intros j Hj. apply Hoff. lia.
    + intros lower [p'|] ->; [|done]. intros (Hlen & Hlow & Hhigh). rewrite length_insert in Hlen. split; [done|]. split; intros j Hj.
      * destruct (Nat.eq_dec j (S lower)) as [->|]; [by rewrite Hhigh by lia|apply Hlow; lia].
      * rewrite Hhigh by lia. apply Hoff. lia.
  - eexists. split; [done|]. split; [done|]. split; [done|]. by intros ? [|].
Qed.

Lemma find_ge_loop_spec l es k bs rest : skip_ok l es -> valid k -> splits k es bs rest ->
  forall fuel b0 b1 x level prev, bs = b0 ++ b1 -> stands l b0 x level -> (level < kMaxHeight)%nat -> (length b1 + level < fuel)%nat -> prev_room prev ->
  exists prev', find_ge_loop compare_ fuel l k x level prev = Done (first_at 0 rest, prev') /\ prev_done l bs level prev prev'.
Proof.
  intros Hok Hk Hsp. induction fuel as [|fuel IH]; intros b0 b1 x level prev -> Hst Hl Hf Hp; [lia|]. cbn [find_ge_loop].
  destruct (search_split l es k b0 b1 rest x level Hok Hsp Hst Hl) as (next & -> & [(e & skip & b2 & Hsee & -> & Hlt & Hst')|(Hlev & Hz & Hnext)]); cbn [mbind outcome_bind].
  - rewrite (after_node_spec l k next e) by done. cbn [mbind outcome_bind]. destruct (Z.ltb_spec (cmp (ekey e) k) 0); [|lia].
    rewrite length_app in Hf. cbn [length] in Hf. apply (IH (b0 ++ skip ++ [e]) b2); [by rewrite <- !app_assoc|done|done|lia|done].
  - assert (KeyIsAfterNode compare_ l k next = Done false) as ->.
    { destruct Hnext as [->|(e & Hsee & Hge)]; [done|]. rewrite (after_node_spec l k next e) by done. f_equal. lia. }
    cbn [mbind outcome_bind].
    assert (Hx : last_at (head_ l) level (b0 ++ b1) = x) by (rewrite last_at_app, (stands_last _ _ _ _ _ Hst) by lia; by apply last_at_skip).
    destruct (set_prev_spec l (b0 ++ b1) prev level x Hp Hl Hx) as (prev1 & -> & Hp1 & H0' & HS). cbn [mbind outcome_bind].
    destruct level as [|level]; [destruct (Hz eq_refl) as [_ ->]; eexists; split; [done|]; by apply H0'|].
    destruct (IH b0 b1 x level prev1) as (prev' & -> & Hd); [done|by apply stands_down|lia|lia|done|]. eexists. split; [done|]. by apply (HS level).
Qed.

Lemma find_lt_loop_spec l es k bs rest : skip_ok l es -> valid k -> splits k es bs rest ->
  forall fuel b0 b1 x level, bs = b0 ++ b1 -> stands l b0 x level -> (level < kMaxHeight)%nat -> (length b1 + level < fuel)%nat ->
  assert_before compare_ l k x = Done tt -> find_lt_loop compare_ fuel l k x level = Done (last_at (head_ l) 0 bs).
Proof.
  intros Hok Hk Hsp. induction fuel as [|fuel IH]; intros b0 b1 x level -> Hst Hl Hf Has; [lia|]. cbn [find_lt_loop]. rewrite Has. cbn [mbind outcome_bind].
  destruct (search_split l es k b0 b1 rest x level Hok Hsp Hst Hl) as (next & -> & [(e & skip & b2 & Hsee & -> & Hlt & Hst')|(Hlev & Hz & Hnext)]); cbn [mbind outcome_bind].
  - destruct Hsee as (-> & Hne & Hnh & (ls & En) & Hv). destruct (Z.eqb_spec (addr e) 0); [done|]. rewrite En. cbn [demand mbind outcome_bind node_key].
    rewrite cmp_total by done. cbn [mbind outcome_bind]. destruct (Z.leb_spec 0 (cmp (ekey e) k)); [lia|].
    rewrite length_app in Hf. cbn [length] in Hf. rewrite (IH (b0 ++ skip ++ [e]) b2); [done|by rewrite <- !app_assoc|done|done|lia|].
    unfold assert_before. destruct (Z.eqb_spec (addr e) (head_ l)); [done|]. rewrite En. cbn [demand mbind outcome_bind node_key].
    rewrite cmp_total by done. cbn [mbind outcome_bind]. by destruct (Z.ltb_spec (cmp (ekey e) k) 0); [|lia].
  - assert (Hstop : (if next =? 0 then Done true else node ← demand (nodes l !! next); r ← compare_ (node_key node) k; Done (0 <=? r)) = Done true).
    { destruct Hnext as [->|(e & (-> & Hne & _ & (ls & En) & Hv) & Hge)]; [done|]. destruct (Z.eqb_spec (addr e) 0); [done|]. rewrite En.
      cbn [demand mbind outcome_bind node_key]. rewrite cmp_total by done. cbn [mbind outcome_bind]. f_equal. lia. }
    rewrite Hstop. cbn [mbind outcome_bind]. destruct level as [|level]; [|apply (IH b0 b1); [done|by apply stands_down|lia|lia|done]].
    destruct (Hz eq_refl) as [-> _]. rewrite app_nil_r. by rewrite (stands_last _ _ _ _ _ Hst).
Qed.

Lemma find_last_loop_spec l es : skip_ok l es ->
  forall fuel b0 b1 x level, es = b0 ++ b1 -> stands l b0 x level -> (level < kMaxHeight)%nat -> (length b1 + level < fuel)%nat ->
  find_last_loop fuel l x level = Done (last_at (head_ l) 0 es).
Proof.
  intros Hok. induction fuel as [|fuel IH]; intros b0 b1 x level -> Hst Hl Hf; [lia|]. cbn [find_last_loop].
  destruct (search_step l _ b0 b1 x level Hok eq_refl Hst Hl) as [[-> Hlev]|(skip & e & b2 & -> & _ & -> & Hne & _ & _ & Hst')]; cbn [mbind outcome_bind Z.eqb].
  - destruct level as [|level]; [|apply (IH b0 b1); [done|by apply stands_down|lia|lia]].
    pose proof (heights_pos _ _ Hok) as Hp. apply Forall_app in Hp as [_ Hp]. rewrite lev_zero in Hlev by done. subst b1.
    rewrite app_nil_r. by rewrite (stands_last _ _ _ _ _ Hst).
  - destruct (Z.eqb_spec (addr e) 0); [done|]. rewrite length_app in Hf. cbn [length] in Hf.
    apply (IH (b0 ++ skip ++ [e]) b2); [by rewrite <- !app_assoc|done|done|lia].
Qed.
End Spec.
