(* ===== verification/LdbSkipOps.v ===== *)
(** * LdbSkipOps: the operations of the skip list on its abstract state. *)

From Stdlib Require Import ZifyBool Sorting.Sorted.
From stdpp Require Import base tactics numbers list gmap strings sorting.
From S2P Require Import Prelude LdbKeySpec LdbSkip LdbSkipSpec.
Open Scope Z_scope.

Section Ops.
Context {K : Type} {compare_ : K -> K -> outcome Z} {valid : K -> Prop} {cmp : K -> K -> Z} `{!Ordered compare_ valid cmp}.
Context {A : Type} `{GoodAllocator A}.
Implicit Types (es bs rest : list (entry K)) (l : SkipList K A).
#[local] Abbreviation skip_ok := (skip_ok (valid := valid) (cmp := cmp)).
#[local] Abbreviation splits := (splits (cmp := cmp)).

(** ** Searching from the head *)

Lemma fuel_enough l es : skip_ok l es -> (length es + (max_height_ l - 1) < search_fuel l)%nat.
Proof. intros Hok. unfold search_fuel. rewrite (so_size _ _ Hok). pose proof (so_max _ _ Hok). lia. Qed.

Lemma FindGreaterOrEqual_spec l es k bs rest prev : skip_ok l es -> valid k -> splits k es bs rest -> prev_room prev ->
  exists prev', FindGreaterOrEqual compare_ k prev l = Done (first_at 0 rest, prev') /\ prev_done l bs (max_height_ l - 1) prev prev'.
Proof.
  intros Hok Hk Hsp Hp. pose proof (fuel_enough l es Hok) as Hf. pose proof (so_max _ _ Hok). unfold FindGreaterOrEqual.
  apply (find_ge_loop_spec l es k bs rest Hok Hk Hsp _ [] bs); [done|by left|lia| |done]. destruct Hsp as (-> & _). rewrite length_app in Hf. lia.
Qed.

Lemma FindLessThan_spec l es k bs rest : skip_ok l es -> valid k -> splits k es bs rest -> FindLessThan compare_ k l = Done (last_at (head_ l) 0 bs).
Proof.
  intros Hok Hk Hsp. pose proof (fuel_enough l es Hok) as Hf. pose proof (so_max _ _ Hok). unfold FindLessThan.
  apply (find_lt_loop_spec l es k bs rest Hok Hk Hsp _ [] bs); [done|by left|lia| |]; [destruct Hsp as (-> & _); rewrite length_app in Hf; lia|].
  unfold assert_before. by rewrite Z.eqb_refl.
Qed.

Lemma FindLast_spec l es : skip_ok l es -> FindLast l = Done (last_at (head_ l) 0 es).
Proof.
  intros Hok. pose proof (fuel_enough l es Hok) as Hf. pose proof (so_max _ _ Hok). unfold FindLast.
  apply (find_last_loop_spec l es Hok _ [] es); [done|by left|lia|lia].
Qed.

Lemma first_at_zero l es bs rest : skip_ok l es -> es = bs ++ rest -> first_at 0 rest = from_option addr 0 (head rest).
Proof. intros Hok ->. pose proof (heights_pos _ _ Hok) as Hp. apply Forall_app in Hp as [_ Hp]. unfold first_at. by rewrite lev_zero. Qed.

Lemma last_at_zero l es bs rest : skip_ok l es -> es = bs ++ rest -> last_at (head_ l) 0 bs = from_option addr (head_ l) (last bs).
Proof. intros Hok ->. pose proof (heights_pos _ _ Hok) as Hp. apply Forall_app in Hp as [Hp _]. unfold last_at. by rewrite lev_zero. Qed.

(** ** Links after an update *)

Lemma set_next_spec (m : gmap Z (Node K)) p i v h : node_at m p h -> (i < h)%nat ->
  exists m', NodeSetNext p i v m = Done m' /\ (forall q j, NodeNext m' q j = if decide (q = p /\ j = i) then Done v else NodeNext m q j) /\
    (forall q g, node_at m' q g <-> node_at m q g) /\ (forall e, has_entry m' e <-> has_entry m e) /\ dom m' = dom m.
Proof.
  intros (k & ls & E & Hl) Hi. unfold NodeSetNext. rewrite E. cbn [demand mbind outcome_bind next_ node_key].
  destruct (Nat.ltb_spec i (length ls)); [|lia]. eexists. split; [done|]. set (m' := <[p := _]> m).
  assert (Hm : forall q, q <> p -> m' !! q = m !! q) by (intros q Hq; unfold m'; by rewrite lookup_insert_ne).
  assert (Hp : m' !! p = Some (MkNode k (<[i := Some v]> ls))) by (unfold m'; by rewrite lookup_insert_eq).
  split; [|split; [|split]].
  - intros q j. unfold NodeNext. destruct (decide (q = p)) as [->|Hq].
    + rewrite Hp, E. cbn [demand mbind outcome_bind next_]. destruct (decide (p = p /\ j = i)) as [[_ ->]|Hj].
      * by rewrite list_lookup_insert_eq by lia.
      * rewrite list_lookup_insert_ne by (intros ->; by apply Hj). done.
    + rewrite Hm by done. rewrite decide_False by (by intros [??]). done.
  - intros q g. unfold node_at. destruct (decide (q = p)) as [->|Hq]; [|by rewrite Hm]. rewrite Hp, E. split; intros (k' & ls' & [= <- <-] & Hg).
    + rewrite length_insert in Hg. eauto.
    + eexists _, _. split; [done|]. by rewrite length_insert.
  - intros e. unfold has_entry. destruct (decide (addr e = p)) as [Ea|Hq]; [|by rewrite Hm]. rewrite Ea, Hp, E. split; intros (ls' & [= Ek <-] & Hg).
    + rewrite length_insert in Hg. exists ls. by subst.
    + eexists. split; [by subst|]. by rewrite length_insert.
  - unfold m'. rewrite dom_insert_L. assert (p ∈ dom m) by (apply elem_of_dom; by eexists). set_solver.
Qed.

Lemma node_next_done (m : gmap Z (Node K)) p i v : NodeNext m p i = Done v -> exists h, node_at m p h /\ (i < h)%nat.
Proof.
  unfold NodeNext. destruct (m !! p) as [[k ls]|] eqn:E; [|done]. cbn [demand mbind outcome_bind next_]. destruct (ls !! i) as [x|] eqn:Ei; [|done].
  intros _. exists (length ls). split; [by eexists _, _|]. by apply lookup_lt_Some in Ei.
Qed.

(** The new node is linked in after its predecessors, level by level. *)
Lemma link_loop_spec (P : nat -> Z) prev x h : forall n i (m : gmap Z (Node K)), (i + n = h)%nat -> node_at m x h ->
  (forall j, (i <= j < h)%nat -> prev !! j = Some (Some (P j)) /\ P j <> x /\ exists v, NodeNext m (P j) j = Done v) ->
  exists m', link_loop n i prev x m = Done m' /\
    (forall q j, NodeNext m' q j = if decide (i <= j < h)%nat then (if decide (q = x) then NodeNext m (P j) j else if decide (q = P j) then Done x else NodeNext m q j)
                                   else NodeNext m q j) /\
    (forall q g, node_at m' q g <-> node_at m q g) /\ (forall e, has_entry m' e <-> has_entry m e) /\ dom m' = dom m.
Proof.
  induction n as [|n IH]; intros i m Hn Hx HP.
  { exists m. split; [done|]. split; [|done]. intros q j. by rewrite decide_False by lia. }
  cbn [link_loop]. destruct (HP i ltac:(lia)) as (Epi & Hne & v & Ev). rewrite Epi. cbn [mjoin option_join demand mbind outcome_bind]. rewrite Ev. cbn [mbind outcome_bind].
  destruct (set_next_spec m x i v h Hx ltac:(lia)) as (m1 & -> & Hn1 & Ha1 & He1 & Hd1). cbn [mbind outcome_bind].
  destruct (node_next_done m (P i) i v Ev) as (hp & Hph & Hip).
  destruct (set_next_spec m1 (P i) i x hp ltac:(by apply Ha1) Hip) as (m2 & -> & Hn2 & Ha2 & He2 & Hd2). cbn [mbind outcome_bind].
  assert (Hother : forall q j, j <> i -> NodeNext m2 q j = NodeNext m q j) by (intros q j Hj; rewrite Hn2, Hn1; by rewrite !decide_False by (by intros [??])).
  destruct (IH (S i) m2 ltac:(lia)) as (m' & -> & Hn' & Ha' & He' & Hd').
  { by apply Ha2, Ha1. }
  { intros j Hj. destruct (HP j ltac:(lia)) as (Ep & Hnj & vj & Evj). split; [done|]. split; [done|]. exists vj. by rewrite Hother by lia. }
  exists m'. split; [done|]. split.
  - intros q j. rewrite Hn'. destruct (Nat.eq_dec j i) as [->|Hj].
    + rewrite (decide_False (P := (S i <= i < h)%nat)), (decide_True (P := (i <= i < h)%nat)) by lia. rewrite Hn2, Hn1. destruct (decide (q = x)) as [->|Hq].
      * rewrite decide_False by (intros [E _]; by apply Hne). by rewrite decide_True, Ev by done.
      * destruct (decide (q = P i)) as [->|Hq']; [by rewrite decide_True by done|]. by rewrite !decide_False by (by intros [??]).
    + destruct (decide (S i <= j < h)%nat).
      * rewrite (decide_True (P := (i <= j < h)%nat)) by lia. by rewrite !Hother by done.
      * rewrite (decide_False (P := (i <= j < h)%nat)) by lia. by apply Hother.
  - split; [intros q g; by rewrite Ha', Ha2, Ha1|]. split; [intros e; by rewrite He', He2, He1|]. by rewrite Hd', Hd2.
Qed.

(** ** Insertion *)

(** The links of a level that the new entry does not reach. *)
Lemma links_above (m : gmap Z (Node K)) hd bs rest e i cs ds : links m hd (bs ++ rest) -> (i < kMaxHeight)%nat -> (height e <= i)%nat ->
  bs ++ e :: rest = cs ++ ds -> NodeNext m (last_at hd i cs) i = Done (first_at i ds).
Proof.
  intros Hlinks Hi Hh E. apply app_eq_app in E as [c [[-> ->]|[-> E]]].
  - rewrite (Hlinks i cs (c ++ rest) Hi) by by rewrite app_assoc. rewrite !first_at_app. unfold first_at. by rewrite lev_cons, decide_False by lia.
  - destruct c as [|e' c]; [cbn in E; subst ds; rewrite app_nil_r|injection E as <- ->].
    + rewrite (Hlinks i bs rest Hi) by done. unfold first_at. by rewrite lev_cons, decide_False by lia.
    + rewrite last_at_app, last_at_cons, decide_False, <- last_at_app by lia. apply Hlinks; [done|]. by rewrite app_assoc.
Qed.

(** The links of a level that it reaches. *)
Lemma links_at (m : gmap Z (Node K)) hd bs rest e i cs ds : NoDup (hd :: map addr (bs ++ e :: rest)) -> links m hd (bs ++ rest) ->
  (i < kMaxHeight)%nat -> (i < height e)%nat -> bs ++ e :: rest = cs ++ ds ->
  (if decide (last_at hd i cs = addr e) then NodeNext m (last_at hd i bs) i
   else if decide (last_at hd i cs = last_at hd i bs) then Done (addr e) else NodeNext m (last_at hd i cs) i) = Done (first_at i ds).
Proof.
  intros Hnd Hlinks Hi Hh E. apply NoDup_cons in Hnd as [Hhd Hnd].
  assert (Hhead : forall x, x ∈ bs ++ e :: rest -> addr x <> hd) by (intros x Hx Ex; apply Hhd; rewrite <- Ex; by apply list_elem_of_fmap_2).
  assert (Hfe : first_at i (e :: rest) = addr e) by (unfold first_at; by rewrite lev_cons, decide_True).
  assert (Hbe : forall x, x ∈ bs -> addr x <> addr e) by (intros x Hx; apply (addrs_apart bs (e :: rest)); [done|done|by left]).
  apply app_eq_app in E as [c [[-> ->]|[-> E]]].
  - rewrite decide_False.
    2: { destruct (last_at_elem hd i cs) as [[-> _]|(x & Hx & _ & ->)]; [intros Ex; symmetry in Ex; revert Ex; apply Hhead|apply Hbe]; rewrite !elem_of_app; [right; by left|by left]. }
    rewrite first_at_app. destruct (lev i c) as [|y lc] eqn:Ec.
    + rewrite last_at_app, (last_at_skip _ i c Ec), decide_True by done. by rewrite Hfe.
    + rewrite decide_False.
      * rewrite (Hlinks i cs (c ++ rest) Hi) by by rewrite app_assoc. by rewrite first_at_app, Ec.
      * rewrite last_at_app. destruct (last_at_elem (last_at hd i cs) i c) as [[_ E']|(z & Hz & _ & ->)]; [by rewrite E' in Ec|].
        destruct (last_at_elem hd i cs) as [[-> _]|(x & Hx & _ & ->)].
        { intros Ex. symmetry in Ex. revert Ex. apply Hhead. rewrite !elem_of_app. tauto. }
        apply (addrs_apart cs (c ++ e :: rest)); [by rewrite app_assoc|done|rewrite elem_of_app; tauto].
  - destruct c as [|e' c].
    { cbn in E. subst ds. rewrite app_nil_r, decide_False; [by rewrite decide_True, Hfe by done|].
      destruct (last_at_elem hd i bs) as [[-> _]|(x & Hx & _ & ->)]; [|by apply Hbe]. intros Ex. symmetry in Ex. revert Ex. apply Hhead. rewrite elem_of_app. right. by left. }
    injection E as <- ->. rewrite last_at_app, last_at_cons, (decide_True (P := (i < height e)%nat)) by done. destruct (lev i c) as [|y lc] eqn:Ec.
    + rewrite (last_at_skip _ i c Ec), decide_True by done. rewrite (Hlinks i bs (c ++ ds) Hi) by done. by rewrite first_at_app, Ec.
    + rewrite (last_at_base (addr e) (last_at hd i bs) i c) by by rewrite Ec.
      destruct (last_at_elem (last_at hd i bs) i c) as [[_ E']|(z & Hz & _ & Ez)]; [by rewrite E' in Ec|]. rewrite Ez.
      assert (Hze : addr z <> addr e).
      { intros Ex. symmetry in Ex. revert Ex. apply (addrs_apart (bs ++ [e]) (c ++ ds)); [by rewrite <- app_assoc|rewrite elem_of_app; right; by left|rewrite elem_of_app; by left]. }
      rewrite decide_False by done. rewrite decide_False.
      * rewrite <- Ez, <- last_at_app. apply Hlinks; [done|]. by rewrite app_assoc.
      * destruct (last_at_elem hd i bs) as [[-> _]|(x & Hx & _ & ->)]; [apply Hhead; rewrite elem_of_app, elem_of_cons, elem_of_app; tauto|].
        intros Ex. symmetry in Ex. revert Ex. apply (addrs_apart bs (e :: c ++ ds)); [done|done|]. rewrite elem_of_cons, elem_of_app. tauto.
Qed.

Lemma fill_prev_spec hd : forall n i p, length p = kMaxHeight -> (i + n <= kMaxHeight)%nat ->
  exists p', fill_prev n i hd (Some p) = Done (Some p') /\ length p' = kMaxHeight /\
    forall j, p' !! j = if decide (i <= j < i + n)%nat then Some (Some hd) else p !! j.
Proof.
  induction n as [|n IH]; intros i p Hp Hi; cbn [fill_prev]; [exists p; split; [done|]; split; [done|]; intros j; by rewrite decide_False by lia|].
  cbn [set_prev]. rewrite Hp. destruct (Nat.ltb_spec i kMaxHeight); [|lia]. cbn [mbind outcome_bind].
  destruct (IH (S i) (<[i := Some hd]> p)) as (p' & -> & Hl & Hj); [by rewrite length_insert|lia|]. exists p'. split; [done|]. split; [done|].
  intros j. rewrite Hj. destruct (Nat.eq_dec j i) as [->|Hne].
  - rewrite decide_False, decide_True by lia. apply list_lookup_insert_eq. lia.
  - rewrite list_lookup_insert_ne by done. destruct (decide (S i <= j < S i + n)%nat), (decide (i <= j < i + S n)%nat); try done; lia.
Qed.

(** Predecessors are nodes of the list. *)
Lemma last_at_node l es bs rest i : skip_ok l es -> es = bs ++ rest -> last_at (head_ l) i bs ∈ dom (nodes l).
Proof.
  intros Hok ->. destruct (last_at_elem (head_ l) i bs) as [[-> _]|(e & He & _ & ->)].
  - destruct (so_head _ _ Hok) as (k & ls & E & _). apply elem_of_dom. by eexists.
  - pose proof (so_entries _ _ Hok) as Hen. rewrite Forall_forall in Hen. destruct (Hen e) as (ls & E & _); [rewrite elem_of_app; by left|].
    apply elem_of_dom. by eexists.
Qed.

Lemma node_next_extend (m : gmap Z (Node K)) p nd q i : q <> p -> NodeNext (<[p := nd]> m) q i = NodeNext m q i.
Proof. intros Hne. unfold NodeNext. by rewrite lookup_insert_ne by done. Qed.

(** The new entry in its place. *)
Lemma inserted_sorted l k bs rest p h : skip_ok l (bs ++ rest) -> valid k -> splits k (bs ++ rest) bs rest ->
  Forall (fun e => cmp (ekey e) k <> 0) (bs ++ rest) -> StronglySorted (before (cmp := cmp)) (bs ++ MkEntry p k h :: rest).
Proof.
  intros Hok Hk (_ & Hbs & Hrest) Hdiff. pose proof (so_sorted _ _ Hok) as Hs. rewrite StronglySorted_app in *. destruct Hs as (Hc & Hs1 & Hs2).
  split; [|split; [done|constructor; [done|]]].
  - intros x y Hx Hy. apply elem_of_cons in Hy as [->|Hy]; [|by apply Hc]. rewrite Forall_forall in Hbs. unfold before. cbn. by apply Hbs.
  - rewrite Forall_forall in *. intros e He. unfold before. cbn [ekey]. specialize (Hrest e He). specialize (Hdiff e ltac:(rewrite elem_of_app; by right)).
    apply cmp_anti; [|done|lia]. pose proof (so_valid _ _ Hok) as Hv. rewrite Forall_forall in Hv. apply Hv. rewrite elem_of_app. by right.
Qed.

Lemma fresh_addrs l es p : skip_ok l es -> p ∉ dom (nodes l) -> head_ l <> p /\ forall e, e ∈ es -> addr e <> p.
Proof.
  intros Hok Hfresh. assert (Hnew : forall q nd, nodes l !! q = Some nd -> q <> p) by (intros q nd E ->; apply Hfresh, elem_of_dom; by eexists).
  split; [destruct (so_head _ _ Hok) as (k' & ls & E & _); by eapply Hnew|]. intros e He. pose proof (so_entries _ _ Hok) as Hen.
  rewrite Forall_forall in Hen. destruct (Hen e He) as (ls & E & _). by eapply Hnew.
Qed.

Lemma inserted_addrs l k bs rest p h : skip_ok l (bs ++ rest) -> 0 < p -> p ∉ dom (nodes l) ->
  NoDup (0 :: head_ l :: map addr (bs ++ MkEntry p k h :: rest)).
Proof.
  intros Hok Hp Hfresh. destruct (fresh_addrs l _ p Hok Hfresh) as [Hhd Haddr]. pose proof (so_addrs _ _ Hok) as Hnd. rewrite map_app, map_cons in *. cbn [addr].
  assert (Hpe : 0 :: head_ l :: map addr bs ++ p :: map addr rest ≡ₚ p :: 0 :: head_ l :: map addr bs ++ map addr rest) by solve_Permutation.
  rewrite Hpe. apply NoDup_cons. split; [|done]. rewrite !elem_of_cons. intros [->|[E|Hin]]; [lia|by apply Hhd|].
  rewrite <- map_app in Hin. apply list_elem_of_fmap_1 in Hin as (e & E & He). by apply (Haddr e He).
Qed.

Lemma inserted_entries l k bs rest p h : skip_ok l (bs ++ rest) -> p ∉ dom (nodes l) ->
  Forall (has_entry (<[p := MkNode k (replicate h None)]> (nodes l))) (bs ++ MkEntry p k h :: rest).
Proof.
  intros Hok Hfresh. destruct (fresh_addrs l _ p Hok Hfresh) as [_ Haddr]. pose proof (so_entries _ _ Hok) as Hen.
  assert (Hold : forall es, Forall (has_entry (nodes l)) es -> (forall e, e ∈ es -> e ∈ bs ++ rest) -> Forall (has_entry (<[p := MkNode k (replicate h None)]> (nodes l))) es).
  { intros es Hes Hin. rewrite Forall_forall in *. intros e He. destruct (Hes e He) as (ls & E & Hl). exists ls. by rewrite lookup_insert_ne by (symmetry; apply Haddr, Hin, He). }
  apply Forall_app in Hen as [H1 H2]. apply Forall_app. split; [apply Hold; [done|]; intros; rewrite elem_of_app; tauto|].
  constructor; [|apply Hold; [done|]; intros; rewrite elem_of_app; tauto]. eexists. cbn [addr ekey height]. rewrite lookup_insert_eq. split; [done|]. apply length_replicate.
Qed.

(** The state after the new node is linked in. *)
Lemma inserted_ok l es k bs rest p h a m rnd : skip_ok l es -> valid k -> splits k es bs rest -> Forall (fun e => cmp (ekey e) k <> 0) es ->
  (1 <= h <= kMaxHeight)%nat -> 0 < p -> p ∉ dom (nodes l) -> (exists s, given a s /\ {[p]} ∪ dom (nodes l) ⊆ s) ->
  (forall q j, NodeNext m q j = if decide (0 <= j < h)%nat then
      (if decide (q = p) then NodeNext (<[p := MkNode k (replicate h None)]> (nodes l)) (last_at (head_ l) j bs) j
       else if decide (q = last_at (head_ l) j bs) then Done p else NodeNext (<[p := MkNode k (replicate h None)]> (nodes l)) q j)
    else NodeNext (<[p := MkNode k (replicate h None)]> (nodes l)) q j) ->
  (forall q g, node_at m q g <-> node_at (<[p := MkNode k (replicate h None)]> (nodes l)) q g) ->
  (forall e, has_entry m e <-> has_entry (<[p := MkNode k (replicate h None)]> (nodes l)) e) -> dom m = {[p]} ∪ dom (nodes l) ->
  skip_ok (MkSkipList a (head_ l) (if (max_height_ l <? h)%nat then h else max_height_ l) rnd m) (bs ++ MkEntry p k h :: rest).
Proof.
  intros Hok Hk Hsp Hdiff Hh Hp Hfresh Hgiven Hnext Hnode Hent Hdom. pose proof Hsp as (-> & _ & _).
  pose proof (inserted_addrs l k bs rest p h Hok Hp Hfresh) as Hnd. destruct (fresh_addrs l _ p Hok Hfresh) as [Hhd _].
  split; cbn [head_ max_height_ nodes arena_]; [by apply (inserted_sorted l)| |exact Hnd|..].
  - pose proof (so_valid _ _ Hok) as Hv. rewrite Forall_app, ?Forall_cons in *. tauto.
  - assert (Hold : Forall (fun e : entry K => (1 <= height e <= if (max_height_ l <? h)%nat then h else max_height_ l)%nat) (bs ++ rest)).
    { eapply Forall_impl; [exact (so_heights _ _ Hok)|]. intros e He; cbn beta in *. destruct (Nat.ltb_spec (max_height_ l) h); lia. }
    rewrite Forall_app, ?Forall_cons in *. cbn [height]. destruct Hold as [H1 H2]. split; [done|]. split; [|done]. destruct (Nat.ltb_spec (max_height_ l) h); lia.
  - pose proof (so_max _ _ Hok). destruct (Nat.ltb_spec (max_height_ l) h); lia.
  - apply Hnode. destruct (so_head _ _ Hok) as (k' & ls & E & Hl). exists k', ls. by rewrite lookup_insert_ne.
  - eapply Forall_impl; [by apply (inserted_entries l k bs rest p h)|]. intros e He. by apply Hent.
  - assert (Hlinks : links (<[p := MkNode k (replicate h None)]> (nodes l)) (head_ l) (bs ++ rest)).
    { intros i cs ds Hi E. pose proof (last_at_node l _ cs ds i Hok E) as Hin. rewrite node_next_extend by (intros Ep; by rewrite Ep in Hin). by apply (so_links _ _ Hok). }
    intros i cs ds Hi E. rewrite Hnext. destruct (decide (0 <= i < h)%nat).
    + apply (links_at _ (head_ l) bs rest (MkEntry p k h)); try done; [by apply NoDup_cons in Hnd as [_ ?]|cbn; lia].
    + apply (links_above _ _ bs rest (MkEntry p k h)); try done. cbn. lia.
  - pose proof (so_size _ _ Hok) as Hsz. rewrite <- !size_dom in *. rewrite Hdom, size_union by set_solver. rewrite size_singleton, Hsz, !length_app. cbn. lia.
  - destruct Hgiven as (s & ? & ?). exists s. split; [done|]. by rewrite Hdom.
Qed.

(** The predecessors that the search and the filling leave in [prev]. *)
Lemma insert_prev l es bs rest h prev : skip_ok l es -> es = bs ++ rest -> (1 <= h <= kMaxHeight)%nat ->
  prev_done l bs (max_height_ l - 1) (Some (replicate kMaxHeight None)) prev ->
  exists p', (if (max_height_ l <? h)%nat then fill_prev (h - max_height_ l) (max_height_ l) (head_ l) prev else Done prev) = Done (Some p') /\
    forall j, (j < h)%nat -> p' !! j = Some (Some (last_at (head_ l) j bs)).
Proof.
  intros Hok -> Hh Hd. destruct prev as [p|]; [|done]. destruct Hd as (Hl & Hlow & _). rewrite length_replicate in Hl. pose proof (so_max _ _ Hok) as Hm.
  assert (Htop : forall j, (max_height_ l <= j)%nat -> last_at (head_ l) j bs = head_ l).
  { intros j Hj. apply last_at_skip. destruct (lev j bs) as [|e x] eqn:E; [done|]. exfalso. assert (He : e ∈ lev j bs) by (rewrite E; by left).
    apply list_elem_of_filter in He as [Hlt Hin]. pose proof (so_heights _ _ Hok) as Hh'. rewrite Forall_forall in Hh'.
    specialize (Hh' e ltac:(rewrite elem_of_app; by left)). cbn in Hh'. lia. }
  destruct (Nat.ltb_spec (max_height_ l) h).
  - destruct (fill_prev_spec (head_ l) (h - max_height_ l) (max_height_ l) p Hl ltac:(lia)) as (p' & -> & _ & Hj). exists p'. split; [done|].
    intros j Hjh. rewrite Hj. destruct (decide _); [by rewrite Htop by lia|]. apply Hlow. lia.
  - exists p. split; [done|]. intros j Hjh. apply Hlow. lia.
Qed.

Lemma Insert_spec l es k bs rest : skip_ok l es -> valid k -> splits k es bs rest -> Forall (fun e => cmp (ekey e) k <> 0) es ->
  exists l' p h, Insert compare_ k l = Done l' /\ skip_ok l' (bs ++ MkEntry p k h :: rest).
Proof.
  intros Hok Hk Hsp Hdiff. unfold Insert. destruct (FindGreaterOrEqual_spec l es k bs rest (Some (replicate kMaxHeight None)) Hok Hk Hsp) as (prev & -> & Hprev); [done|].
  pose proof Hsp as (Ees & _ & _). cbn [mbind outcome_bind]. rewrite (first_at_zero l es bs rest Hok Ees).
  assert (Hne : (if from_option addr 0 (head rest) =? 0 then Done false else node ← demand (nodes l !! from_option addr 0 (head rest)); r ← compare_ k (node_key node); Done (r =? 0)) = Done false).
  { destruct rest as [|e rest]; [done|]. cbn [head from_option]. assert (Hin : e ∈ es) by (rewrite Ees, elem_of_app; right; by left).
    destruct (Z.eqb_spec (addr e) 0) as [|]; [done|]. pose proof (so_entries _ _ Hok) as Hen. pose proof (so_valid _ _ Hok) as Hv. rewrite Forall_forall in Hen, Hv, Hdiff.
    destruct (Hen e Hin) as (ls & -> & _). cbn [demand mbind outcome_bind node_key]. rewrite cmp_total by (done || by apply Hv). cbn [mbind outcome_bind]. f_equal.
    apply Z.eqb_neq. intros E. apply (Hdiff e Hin), cmp_zero_sym; [done|by apply Hv|done]. }
  rewrite Hne. cbn [mbind outcome_bind]. destruct (random_height_spec (rnd_ l)) as (h & rnd & -> & Hh). cbn [mbind outcome_bind].
  destruct (insert_prev l es bs rest h prev Hok Ees Hh Hprev) as (p' & -> & Hp'). cbn [mbind outcome_bind demand]. unfold NewNode. cbn [arena_ nodes head_ max_height_ rnd_].
  destruct (so_given _ _ Hok) as (s & Hg & Hdom).
  destruct (allocate_fresh (arena_ l) s (sizeof_Node + 8 * (Z.of_nat h - 1)) Hg) as (x & a & -> & Hx & Hfresh & Hg'); [unfold sizeof_Node, kMaxHeight in *; lia|]. cbn [mbind outcome_bind nodes].
  assert (Hxd : x ∉ dom (nodes l)) by set_solver.
  destruct (link_loop_spec (fun j => last_at (head_ l) j bs) p' x h h 0 (<[x := MkNode k (replicate h None)]> (nodes l))) as (m & -> & Hn & Ha & He & Hd).
  - lia.
  - exists k, (replicate h None). rewrite lookup_insert_eq. split; [done|apply length_replicate].
  - intros j Hj. split; [apply Hp'; lia|]. pose proof (last_at_node l es bs rest j Hok Ees) as Hin. assert (last_at (head_ l) j bs <> x) by (intros E; by rewrite E in Hin).
    split; [done|]. rewrite node_next_extend by done. eexists. apply (so_links _ _ Hok j bs rest); [lia|done].
  - cbn [mbind outcome_bind]. eexists _, x, h. split; [done|]. unfold set_nodes. cbn [arena_ head_ max_height_ rnd_].
    apply (inserted_ok l es); try done; [exists ({[x]} ∪ s); split; [done|set_solver]|]. rewrite Hd. by rewrite dom_insert_L.
Qed.

(** ** The empty list *)

Lemma clear_links_spec p h : forall n i (m : gmap Z (Node K)), node_at m p h -> (i + n <= h)%nat ->
  exists m', clear_links n i p m = Done m' /\ (forall q j, NodeNext m' q j = if decide (q = p /\ (i <= j < i + n)%nat) then Done 0 else NodeNext m q j) /\
    (forall q g, node_at m' q g <-> node_at m q g) /\ dom m' = dom m.
Proof.
  induction n as [|n IH]; intros i m Hp Hi; cbn [clear_links]; [exists m; split; [done|]; split; [intros q j; by rewrite decide_False by lia|done]|].
  destruct (set_next_spec m p i 0 h Hp ltac:(lia)) as (m1 & -> & Hn1 & Ha1 & _ & Hd1). cbn [mbind outcome_bind].
  destruct (IH (S i) m1 ltac:(by apply Ha1) ltac:(lia)) as (m' & -> & Hn & Ha & Hd). exists m'. split; [done|].
  split; [|split; [intros q g; by rewrite Ha, Ha1|by rewrite Hd, Hd1]]. intros q j. rewrite Hn, Hn1.
  destruct (decide (q = p /\ (S i <= j < S i + n)%nat)), (decide (q = p /\ (i <= j < i + S n)%nat)), (decide (q = p /\ j = i)); try done; lia.
Qed.

Lemma new_SkipList_spec (key0 : K) (a : A) s : given a s -> exists l, new_SkipList key0 a = Done l /\ skip_ok l [].
Proof.
  intros Hg. unfold new_SkipList, NewNode. cbn [arena_ nodes head_ max_height_ rnd_].
  destruct (allocate_fresh a s (sizeof_Node + 8 * (Z.of_nat kMaxHeight - 1)) Hg) as (p & a' & -> & Hp & Hfresh & Hg'); [done|]. cbn [mbind outcome_bind nodes].
  assert (Hat : node_at (<[p := MkNode key0 (replicate kMaxHeight None)]> ∅) p kMaxHeight) by (eexists _, _; rewrite lookup_insert_eq; split; [done|apply length_replicate]).
  destruct (clear_links_spec p kMaxHeight kMaxHeight 0 _ Hat ltac:(lia)) as (m & -> & Hn & Ha & Hd). cbn [mbind outcome_bind]. eexists. split; [done|].
  cbn [arena_ max_height_ rnd_]. assert (Hdom : dom m = {[p]}) by (rewrite Hd, dom_insert_L, dom_empty_L; set_solver).
  split; cbn [arena_ nodes head_ max_height_ rnd_ map length]; try (by constructor); [|unfold kMaxHeight; lia|by apply Ha| | |].
  - apply NoDup_cons. split; [rewrite list_elem_of_singleton; lia|apply NoDup_singleton].
  - intros i bs rest Hi E. symmetry in E. apply app_eq_nil in E as [-> ->]. cbn. rewrite Hn. rewrite decide_True by lia. done.
  - by rewrite <- size_dom, Hdom, size_singleton.
  - exists ({[p]} ∪ s). split; [done|]. rewrite Hdom. set_solver.
Qed.

(** ** Reading *)

Lemma entry_node l es e : skip_ok l es -> e ∈ es -> addr e <> 0 /\ addr e <> head_ l /\ valid (ekey e) /\ exists ls, nodes l !! addr e = Some (MkNode (ekey e) ls).
Proof.
  intros Hok He. pose proof (so_addrs _ _ Hok) as Hnd. apply NoDup_cons in Hnd as [Hz [Hhd _]%NoDup_cons].
  assert (Hm : addr e ∈ map addr es) by by apply list_elem_of_fmap_2.
  pose proof (so_entries _ _ Hok) as Hen. pose proof (so_valid _ _ Hok) as Hv. rewrite Forall_forall in Hen, Hv.
  split; [intros E; apply Hz; rewrite elem_of_cons, <- E; tauto|]. split; [intros E; apply Hhd; by rewrite <- E|]. split; [by apply Hv|].
  destruct (Hen e He) as (ls & ? & _). eauto.
Qed.

Lemma Contains_spec l es k bs rest : skip_ok l es -> valid k -> splits k es bs rest ->
  Contains compare_ k l = Done (match rest with e :: _ => cmp k (ekey e) =? 0 | [] => false end).
Proof.
  intros Hok Hk Hsp. unfold Contains. destruct (FindGreaterOrEqual_spec l es k bs rest None Hok Hk Hsp) as (prev & -> & _); [done|].
  pose proof Hsp as (Ees & _ & _). cbn [mbind outcome_bind]. rewrite (first_at_zero l es bs rest Hok Ees). destruct rest as [|e rest]; [done|]. cbn [head from_option].
  destruct (entry_node l es e Hok) as (Hz & _ & Hv & ls & E); [rewrite Ees, elem_of_app; right; by left|]. destruct (Z.eqb_spec (addr e) 0); [done|].
  rewrite E. cbn [demand mbind outcome_bind node_key]. by rewrite cmp_total by done.
Qed.

(** Where an iterator stands: on the [n]th entry, or nowhere. *)
Definition at_pos es (n : nat) : Z := from_option addr 0 (es !! n).

Lemma iter_key_spec l es n e : skip_ok l es -> es !! n = Some e -> iter_Valid (at_pos es n) = true /\ iter_key (at_pos es n) l = Done (ekey e).
Proof.
  intros Hok En. unfold at_pos. rewrite En. cbn [from_option]. destruct (entry_node l es e Hok) as (Hz & _ & _ & ls & E); [by apply list_elem_of_lookup_2 in En|].
  assert (Hv : iter_Valid (addr e) = true) by (unfold iter_Valid; by destruct (Z.eqb_spec (addr e) 0)). split; [done|]. unfold iter_key. rewrite Hv, E. done.
Qed.

Lemma iter_Next_spec l es n e : skip_ok l es -> es !! n = Some e -> iter_Next (at_pos es n) l = Done (at_pos es (S n)).
Proof.
  intros Hok En. destruct (iter_key_spec l es n e Hok En) as [Hv _]. unfold iter_Next. rewrite Hv. cbn [negb].
  assert (Es : es = (take n es ++ [e]) ++ drop (S n) es) by (rewrite <- app_assoc; cbn; by rewrite take_drop_middle).
  pose proof (so_links _ _ Hok 0%nat (take n es ++ [e]) (drop (S n) es) ltac:(unfold kMaxHeight; lia) Es) as Hl.
  rewrite last_at_end in Hl by (pose proof (heights_pos _ _ Hok) as Hp; rewrite Forall_forall in Hp; apply list_elem_of_lookup_2 in En; by apply Hp).
  rewrite (first_at_zero l es _ _ Hok Es) in Hl. unfold at_pos in *. rewrite En. cbn [from_option]. rewrite Hl. f_equal. rewrite head_lookup, lookup_drop. by rewrite Nat.add_0_r.
Qed.

Lemma splits_at l es n e : skip_ok l es -> es !! n = Some e -> splits (ekey e) es (take n es) (drop n es).
Proof.
  intros Hok En. split; [by rewrite take_drop|]. pose proof (so_sorted _ _ Hok) as Hs. pose proof (so_valid _ _ Hok) as Hv.
  assert (Ed : drop n es = e :: drop (S n) es) by by apply drop_S. rewrite <- (take_drop n es) in Hs, Hv. rewrite Ed in *.
  apply StronglySorted_app in Hs as (Hc & _ & Hs). apply StronglySorted_inv in Hs as [_ Hs]. rewrite Forall_app, Forall_cons in Hv. destruct Hv as (Hv1 & He & Hv2).
  rewrite !Forall_forall in *. split; [intros x Hx; apply Hc; [done|by left]|]. intros x Hx. apply elem_of_cons in Hx as [->|Hx]; [rewrite (cmp_refl (valid := valid)); done|].
  pose proof (proj2 (cmp_anti (ekey x) (ekey e) (Hv2 x Hx) He) (Hs x Hx)). lia.
Qed.

Lemma last_take {X} (xs : list X) n : (n <= length xs)%nat -> last (take n xs) = match n with O => None | S n => xs !! n end.
Proof.
  intros Hn. rewrite last_lookup, length_take, Nat.min_l by done. destruct n; [done|]. cbn [pred]. by rewrite lookup_take_lt by lia.
Qed.

(** Not the head, so it is an entry. *)
Lemma not_head_spec l es bs rest : skip_ok l es -> es = bs ++ rest -> not_head (last_at (head_ l) 0 bs) l = from_option addr 0 (last bs).
Proof.
  intros Hok Ees. rewrite (last_at_zero l es bs rest Hok Ees). unfold not_head. destruct (last bs) as [e|] eqn:E; cbn [from_option]; [|by rewrite Z.eqb_refl].
  apply last_Some in E as [b ->]. destruct (entry_node l es e Hok) as (_ & Hh & _); [rewrite Ees, !elem_of_app; left; right; by left|].
  by destruct (Z.eqb_spec (addr e) (head_ l)).
Qed.

Lemma iter_Prev_spec l es n e : skip_ok l es -> es !! n = Some e ->
  iter_Prev compare_ (at_pos es n) l = Done (match n with O => 0 | S n => at_pos es n end).
Proof.
  intros Hok En. unfold iter_Prev. destruct (iter_key_spec l es n e Hok En) as [_ ->]. cbn [mbind outcome_bind].
  pose proof (splits_at l es n e Hok En) as Hsp. pose proof (so_valid _ _ Hok) as Hv. rewrite Forall_forall in Hv. pose proof (list_elem_of_lookup_2 _ _ _ En) as Hin.
  rewrite (FindLessThan_spec l es (ekey e) _ _ Hok (Hv e Hin) Hsp). cbn [mbind outcome_bind]. f_equal.
  rewrite (not_head_spec l es _ _ Hok (proj1 Hsp)), last_take by (apply lookup_lt_Some in En; lia). by destruct n.
Qed.

Lemma iter_Seek_spec l es k bs rest : skip_ok l es -> valid k -> splits k es bs rest -> iter_Seek compare_ k l = Done (at_pos es (length bs)).
Proof.
  intros Hok Hk Hsp. unfold iter_Seek. destruct (FindGreaterOrEqual_spec l es k bs rest None Hok Hk Hsp) as (prev & -> & _); [done|].
  pose proof Hsp as (Ees & _ & _). cbn [mbind outcome_bind]. rewrite (first_at_zero l es bs rest Hok Ees), Ees. unfold at_pos. f_equal.
  by rewrite lookup_app_r, Nat.sub_diag, head_lookup by lia.
Qed.

Lemma iter_SeekToFirst_spec l es : skip_ok l es -> iter_SeekToFirst l = Done (at_pos es 0).
Proof.
  intros Hok. unfold iter_SeekToFirst. pose proof (so_links _ _ Hok 0%nat [] es ltac:(unfold kMaxHeight; lia) eq_refl) as Hl. cbn in Hl. rewrite Hl.
  rewrite (first_at_zero l es [] es Hok eq_refl). unfold at_pos. by rewrite head_lookup.
Qed.

Lemma iter_SeekToLast_spec l es : skip_ok l es -> iter_SeekToLast l = Done (from_option addr 0 (last es)).
Proof.
  intros Hok. unfold iter_SeekToLast. rewrite (FindLast_spec l es Hok). cbn [mbind outcome_bind]. f_equal. apply (not_head_spec l es es []); [done|by rewrite app_nil_r].
Qed.
End Ops.
