(* ===== verification/LdbMem.v ===== *)
(** * LdbMem: the memtable (db/memtable.h, db/memtable.cc).

    A memtable is a skip list of encoded entries in an arena: the length of
    the internal key, the internal key, the length of the value, the value.
    A pointer to an entry is the bytes from there on; the null pointer has
    none. *)

From Stdlib Require Import ZifyBool Sorting.Sorted.
From stdpp Require Import base tactics numbers list gmap strings sorting.
From S2P Require Import Prelude PbOStream PbWire LdbCoding LdbLog LdbKey LdbKeySpec LdbBatch LdbArena LdbSkip LdbSkipSpec LdbSkipOps.
Open Scope Z_scope.

(** [GetLengthPrefixedSlice(const char* data)], with what follows the slice.
    The length is read wherever it ends: a malformed one is undefined. *)
Definition mem_GetLengthPrefixedSlice (data : list Z) : outcome (list Z * list Z) :=
  match GetVarint32Ptr data with
  | Some (len, p) => if zlen p <? len then Undef else Done (take (Z.to_nat len) p, drop (Z.to_nat len) p)
  | None => Undef
  end.

(** [MemTable::KeyComparator] *)
Definition KeyComparator (c : Comparator) (aptr bptr : list Z) : outcome Z :=
  '(a, _) ← mem_GetLengthPrefixedSlice aptr;
  '(b, _) ← mem_GetLengthPrefixedSlice bptr;
  Compare (InternalKeyComparator c) a b.

Definition EncodeKey (target : list Z) : list Z := PutVarint32 [] (u32 (zlen target)) ++ target.

(** What [Get] returns, with the value or the status it stores. *)
Inductive get_result : Type :=
| GetValue (value : list Z)
| GetNotFound
| GetFalse.

#[export] Instance arena_allocator {H} `{Heap H} : NodeAllocator (Arena H) := {| allocate_aligned := AllocateAligned |}.

Section MemTable.
Context (c : Comparator) {H : Type} `{Heap H}.

(** The arena is that of the skip list. *)
Record MemTable : Type := MkMemTable { refs_ : Z; table_ : SkipList (list Z) (Arena H) }.

Definition new_MemTable (h : H) : outcome MemTable := table ← new_SkipList [] (new_Arena h); Done (MkMemTable 0 table).
Definition Ref (m : MemTable) : MemTable := MkMemTable (refs_ m + 1) (table_ m).
(** [None]: deleted. *)
Definition Unref (m : MemTable) : outcome (option MemTable) :=
  let refs := refs_ m - 1 in
  if refs <? 0 then Undef else Done (if refs <=? 0 then None else Some (MkMemTable refs (table_ m))).
Definition ApproximateMemoryUsage (m : MemTable) : Z := MemoryUsage (arena_ (table_ m)).

Definition set_arena (a : Arena H) (l : SkipList (list Z) (Arena H)) : SkipList (list Z) (Arena H) :=
  MkSkipList a (head_ l) (max_height_ l) (rnd_ l) (nodes l).

Definition mem_Add (s type : Z) (key value : list Z) (m : MemTable) : outcome MemTable :=
  let key_size := zlen key in
  let val_size := zlen value in
  let internal_key_size := u64 (key_size + 8) in
  klen ← VarintLength internal_key_size;
  vlen ← VarintLength val_size;
  let encoded_len := u64 (klen + internal_key_size + vlen + val_size) in
  '(_, a) ← Allocate encoded_len (arena_ (table_ m));
  let buf := EncodeVarint32 (u32 internal_key_size) ++ key ++ EncodeFixed64 (Z.lor (u64 (Z.shiftl s 8)) type) ++
    EncodeVarint32 (u32 val_size) ++ value in
  if negb (zlen buf =? encoded_len) then Undef
  else table ← Insert (KeyComparator c) buf (set_arena a (table_ m)); Done (MkMemTable (refs_ m) table).

Definition Get (key : LookupKey) (m : MemTable) : outcome get_result :=
  let memkey := memtable_key key in
  node ← iter_Seek (KeyComparator c) memkey (table_ m);
  if iter_Valid node then
    entry ← iter_key node (table_ m);
    '(key_length, key_ptr) ← demand (GetVarint32Ptr entry);
    let ulen := Z.to_nat (u32 (key_length - 8)) in
    if (length key_ptr <? ulen)%nat then Undef
    else
      r ← Compare c (take ulen key_ptr) (lookup_user_key key);
      if r =? 0 then
        tag ← DecodeFixed64 (drop ulen key_ptr);
        let t := Z.land tag 0xff in
        if t =? kTypeValue then '(v, _) ← mem_GetLengthPrefixedSlice (drop (Z.to_nat key_length) key_ptr); Done (GetValue v)
        else if t =? kTypeDeletion then Done GetNotFound
        else Done GetFalse
      else Done GetFalse
  else Done GetFalse.

(** [MemTableIterator]: the node it stands on. *)
Definition mem_iter_Seek (k : list Z) (m : MemTable) : outcome Z := iter_Seek (KeyComparator c) (EncodeKey k) (table_ m).
Definition mem_iter_key (node : Z) (m : MemTable) : outcome (list Z) :=
  entry ← iter_key node (table_ m); '(k, _) ← mem_GetLengthPrefixedSlice entry; Done k.
Definition mem_iter_value (node : Z) (m : MemTable) : outcome (list Z) :=
  entry ← iter_key node (table_ m);
  '(_, rest) ← mem_GetLengthPrefixedSlice entry;
  '(v, _) ← mem_GetLengthPrefixedSlice rest;
  Done v.

#[export] Instance memtable_table : Table MemTable := {| Add := mem_Add |}.
End MemTable.
Arguments MemTable H : clear implicits.

(** * A memtable represents the list of updates added to it. *)


(** ** The arena as node allocator *)

Section Allocator.
Context {H : Type} `{GoodHeap H}.

Definition arena_given (a : Arena H) (s : gset Z) : Prop := exists used, arena_ok a used /\ s = list_to_set (map fst used).

Lemma used_fresh (a : Arena H) used p n : arena_ok a used -> 0 < n -> Forall (apart (p, n)) used -> p ∉ (list_to_set (map fst used) : gset Z).
Proof.
  intros Hok Hn Hap Hin. apply elem_of_list_to_set, list_elem_of_fmap_1 in Hin as ([q m] & E & Hr). cbn in E. subst q.
  pose proof (ao_used _ _ Hok) as Hu. rewrite Forall_forall in Hu, Hap. destruct (Hu _ Hr) as (_ & Hm & _). specialize (Hap _ Hr). unfold apart in Hap. cbn in *. lia.
Qed.

#[export] Program Instance arena_good : GoodAllocator (Arena H) := {| given := arena_given |}.
Next Obligation.
  intros a s n (used & Hok & ->) Hn. destruct (allocate_aligned_ok a used n Hok) as (p & a' & E & Hp & _ & Hok' & Hap); [lia|].
  exists p, a'. split; [exact E|]. split; [done|]. split; [apply (used_fresh a used p n); done || lia|]. by exists ((p, n) :: used).
Qed.

Lemma allocate_given (a : Arena H) s n : arena_given a s -> 0 < n -> exists p a', Allocate n a = Done (p, a') /\ arena_given a' ({[p]} ∪ s).
Proof.
  intros (used & Hok & ->) Hn. destruct (allocate_ok a used n Hok Hn) as (p & a' & E & Hp & Hok' & Hap). exists p, a'. split; [done|]. by exists ((p, n) :: used).
Qed.
End Allocator.

(** ** Entries *)

(** What [Add] is given. *)
Record mentry : Type := MkMEntry { mkey : list Z; mseq : Z; mtype : Z; mvalue : list Z }.

Definition mtag (e : mentry) : Z := mseq e * 256 + mtype e.
Definition ikey_of (e : mentry) : list Z := mkey e ++ EncodeFixed64 (mtag e).
Definition entry_bytes (e : mentry) : list Z := slice_bytes (ikey_of e) ++ slice_bytes (mvalue e).

Section Mem.
Context {c : Comparator} {valid : list Z -> Prop} {cmp : list Z -> list Z -> Z} `{!GoodComparator c valid cmp}.

Definition good_entry (e : mentry) : Prop :=
  valid (mkey e) /\ zlen (mkey e) + 8 < 2 ^ 32 /\ zlen (mvalue e) < 2 ^ 32 /\ 0 <= mseq e <= kMaxSequenceNumber /\ (mtype e = kTypeDeletion \/ mtype e = kTypeValue).

(** A string that starts with an internal key. *)
Definition valid_mkey (k : list Z) : Prop := exists ik rest, k = slice_bytes ik ++ rest /\ valid_ikey valid ik /\ zlen ik < 2 ^ 32.
Definition parse_key (k : list Z) : list Z := match GetLengthPrefixedSlice k with Some (ik, _) => ik | None => [] end.
Definition mcmp (a b : list Z) : Z := icmp cmp (parse_key a) (parse_key b).

Lemma parse_slice ik rest : zlen ik < 2 ^ 32 -> parse_key (slice_bytes ik ++ rest) = ik.
Proof. intros Hl. unfold parse_key. by rewrite get_slice. Qed.

Lemma mem_slice s rest : zlen s < 2 ^ 32 -> mem_GetLengthPrefixedSlice (slice_bytes s ++ rest) = Done (s, rest).
Proof.
  intros Hl. unfold mem_GetLengthPrefixedSlice, slice_bytes. rewrite <- app_assoc.
  pose proof (get_varint32_digits (zlen s) (s ++ rest) ltac:(lia)) as E. unfold GetVarint32 in E. rewrite E.
  destruct (Z.ltb_spec (zlen (s ++ rest)) (zlen s)); [rewrite length_app in *; lia|]. by rewrite Nat2Z.id, take_app_length, drop_app_length.
Qed.

#[export] Instance mem_ordered : Ordered (KeyComparator c) valid_mkey mcmp.
Proof.
  split.
  - intros a b (ia & ra & -> & Ha & Hla) (ib & rb & -> & Hb & Hlb). unfold KeyComparator, mcmp. rewrite !mem_slice by done. cbn [mbind outcome_bind].
    rewrite !parse_slice by done. by apply internal_compare_spec.
  - intros a b (ia & ra & -> & Ha & Hla) (ib & rb & -> & Hb & Hlb). unfold mcmp. rewrite !parse_slice by done. by apply (cmp_anti (Ordered := internal_ordered)).
  - intros x y z (ia & ra & -> & Ha & Hla) (ib & rb & -> & Hb & Hlb) (iz & rz & -> & Hz & Hlz). unfold mcmp. rewrite !parse_slice by done. by apply (cmp_trans (Ordered := internal_ordered)).
Qed.

Lemma tag_range e : good_entry e -> 0 <= mtag e < 2 ^ 64.
Proof. intros (_ & _ & _ & Hs & Ht). unfold mtag, kMaxSequenceNumber, kTypeValue, kTypeDeletion in *. change (Z.shiftl 1 56 - 1) with (2 ^ 56 - 1) in Hs. lia. Qed.

Lemma ikey_valid e : good_entry e -> valid_ikey valid (ikey_of e) /\ zlen (ikey_of e) = zlen (mkey e) + 8 /\ user_part (ikey_of e) = mkey e /\ tag_part (ikey_of e) = mtag e.
Proof.
  intros He. pose proof (tag_range e He) as Ht. unfold ikey_of. destruct (ikey_parts (mkey e) (mtag e) Ht) as (Hl & Hu & Htp).
  split; [apply valid_ikey_app; [done|apply He]|]. split; [lia|]. done.
Qed.

Lemma entry_valid e : good_entry e -> valid_mkey (entry_bytes e).
Proof. intros He. destruct (ikey_valid e He) as (Hv & Hl & _). eexists _, _. split; [done|]. split; [done|]. pose proof (proj1 (proj2 He)). lia. Qed.

Lemma parse_entry e : good_entry e -> parse_key (entry_bytes e) = ikey_of e.
Proof. intros He. apply parse_slice. destruct (ikey_valid e He) as (_ & -> & _). apply He. Qed.

(** The order of entries. *)
Lemma mcmp_entries e e' : good_entry e -> good_entry e' ->
  mcmp (entry_bytes e) (entry_bytes e') = if cmp (mkey e) (mkey e') =? 0 then (if mtag e' <? mtag e then -1 else if mtag e <? mtag e' then 1 else 0) else cmp (mkey e) (mkey e').
Proof.
  intros He He'. unfold mcmp, icmp. rewrite !parse_entry by done. destruct (ikey_valid e He) as (_ & _ & -> & ->). by destruct (ikey_valid e' He') as (_ & _ & -> & ->).
Qed.

(** ** The state *)

Context {H : Type} `{GoodHeap H}.

(** The memtable holds the entries [log], in any order. *)
Definition mem_ok (m : MemTable H) (log : list mentry) : Prop :=
  Forall good_entry log /\ exists es, skip_ok (valid := valid_mkey) (cmp := mcmp) (table_ m) es /\ map ekey es ≡ₚ map entry_bytes log.

Lemma new_MemTable_ok h : exists m, new_MemTable h = Done m /\ mem_ok m [].
Proof.
  unfold new_MemTable. destruct (new_SkipList_spec (valid := valid_mkey) (cmp := mcmp) [] (new_Arena h) ∅) as (l & -> & Hok); [exists []; split; [apply new_arena_ok|done]|].
  cbn [mbind outcome_bind]. eexists. split; [done|]. split; [constructor|]. by exists [].
Qed.

(** The entry [Add] builds. *)
Lemma add_buffer e : good_entry e ->
  EncodeVarint32 (u32 (u64 (zlen (mkey e) + 8))) ++ mkey e ++ EncodeFixed64 (Z.lor (u64 (Z.shiftl (mseq e) 8)) (mtype e)) ++
    EncodeVarint32 (u32 (zlen (mvalue e))) ++ mvalue e = entry_bytes e /\
  VarintLength (u64 (zlen (mkey e) + 8)) = Done (zlen (wire_varint (zlen (mkey e) + 8))) /\
  VarintLength (zlen (mvalue e)) = Done (zlen (wire_varint (zlen (mvalue e)))) /\
  zlen (entry_bytes e) = zlen (wire_varint (zlen (mkey e) + 8)) + (zlen (mkey e) + 8) + zlen (wire_varint (zlen (mvalue e))) + zlen (mvalue e).
Proof.
  intros He. destruct (ikey_valid e He) as (_ & Hil & _). pose proof He as (_ & Hk & Hv & Hs & Ht).
  rewrite (u64_small (zlen (mkey e) + 8)), !u32_small by lia. rewrite !varint_length_digits by lia. rewrite !encode_varint32_digits by lia.
  split; [|split; [done|split; [done|]]].
  - unfold entry_bytes, slice_bytes. rewrite Hil. rewrite <- !app_assoc. f_equal. unfold ikey_of. rewrite <- app_assoc. do 2 f_equal. f_equal.
    unfold mtag, kMaxSequenceNumber, kTypeValue, kTypeDeletion in *. change (Z.shiftl 1 56 - 1) with (2 ^ 56 - 1) in Hs.
    rewrite u64_small by (rewrite Z.shiftl_mul_pow2; lia). rewrite Z.lor_comm, lor_shiftl_add by lia. lia.
  - unfold entry_bytes, slice_bytes. rewrite !length_app. rewrite Hil. lia.
Qed.

(** ** Add *)

Lemma skip_set_arena (m : MemTable H) es a s : skip_ok (valid := valid_mkey) (cmp := mcmp) (table_ m) es ->
  arena_given a s -> dom (nodes (table_ m)) ⊆ s -> skip_ok (valid := valid_mkey) (cmp := mcmp) (set_arena a (table_ m)) es.
Proof. intros [] Hg Hs. split; try done. by exists s. Qed.

Lemma Add_spec (m : MemTable H) log e : mem_ok m log -> good_entry e -> Forall (fun e' => cmp (mkey e') (mkey e) = 0 -> mtag e' <> mtag e) log ->
  exists m', mem_Add c (mseq e) (mtype e) (mkey e) (mvalue e) m = Done m' /\ mem_ok m' (log ++ [e]) /\ refs_ m' = refs_ m.
Proof.
  intros (Hlog & es & Hok & Hperm) He Hdiff. unfold mem_Add. destruct (add_buffer e He) as (Hbuf & -> & -> & Hlen). cbn [mbind outcome_bind].
  pose proof He as (_ & Hk & Hv & _ & _). pose proof (wire_varint_length (zlen (mkey e) + 8)). pose proof (wire_varint_length (zlen (mvalue e))).
  rewrite (u64_small (zlen (mkey e) + 8)) by lia. rewrite (u64_small (_ + _ + _ + _)) by lia. rewrite <- Hlen.
  destruct (so_given _ _ Hok) as (s & Hg & Hdom). destruct (allocate_given (arena_ (table_ m)) s (zlen (entry_bytes e)) Hg) as (p & a & -> & Hg'); [lia|].
  cbn [mbind outcome_bind]. rewrite (u64_small (zlen (mkey e) + 8)) in Hbuf by lia. rewrite Hbuf, Z.eqb_refl. cbn [negb].
  pose proof (skip_set_arena m es a _ Hok Hg' ltac:(set_solver)) as Hok'. pose proof (entry_valid e He) as Hve.
  destruct (splits_exists _ es (entry_bytes e) Hok' Hve) as (bs & rest & Hsp).
  destruct (Insert_spec _ es (entry_bytes e) bs rest Hok' Hve Hsp) as (l' & q & h & -> & Hok2).
  - apply Forall_forall. intros x Hx. assert (Hin : ekey x ∈ map entry_bytes log) by (rewrite <- Hperm; by apply list_elem_of_fmap_2).
    apply list_elem_of_fmap_1 in Hin as (e' & -> & He'). rewrite Forall_forall in Hlog, Hdiff. rewrite mcmp_entries by (done || by apply Hlog).
    specialize (Hdiff e' He'). destruct (Z.eqb_spec (cmp (mkey e') (mkey e)) 0) as [E|]; [|done]. specialize (Hdiff E). repeat case_match; lia.
  - cbn [mbind outcome_bind]. eexists. split; [done|]. split; [|done]. split; [apply Forall_app_2; [done|by constructor]|]. eexists. split; [exact Hok2|].
    pose proof (proj1 Hsp) as ->. rewrite map_app in *. cbn [map ekey]. rewrite map_app. cbn [map]. rewrite <- Hperm. solve_Permutation.
Qed.

(** ** Get *)

(** The lookup key as an entry of its own. *)
Definition seek_entry (u : list Z) (s : Z) : mentry := MkMEntry u s kValueTypeForSeek [].

Lemma short_varint v : 0 <= v < 2 ^ 32 -> zlen (wire_varint v) <= 5.
Proof.
  intros Hv. rewrite <- encode_varint32_digits by done. unfold EncodeVarint32.
  repeat match goal with |- context [if ?b then _ else _] => destruct b end; cbn [length]; lia.
Qed.

Lemma lookup_key_spec u s : good_entry (seek_entry u s) -> exists k, new_LookupKey u s = Done k /\
  memtable_key k = slice_bytes (ikey_of (seek_entry u s)) /\ internal_key k = ikey_of (seek_entry u s) /\ lookup_user_key k = u.
Proof.
  intros He. destruct (ikey_valid _ He) as (_ & Hil & _). pose proof He as (_ & Hk & _ & Hs & _). cbn [seek_entry mkey mseq] in *.
  unfold new_LookupKey. destruct (pack_spec s kValueTypeForSeek Hs) as [-> Ht]; [done|]. cbn [mbind outcome_bind].
  rewrite u32_small, (u64_small (zlen u + 13)), encode_varint32_digits by lia. pose proof (short_varint (zlen u + 8) ltac:(lia)).
  change (s * 256 + kValueTypeForSeek) with (mtag (seek_entry u s)). assert (H8 := length_fixed64 (mtag (seek_entry u s))).
  assert (Hcap : zlen u + 13 <= (if zlen u + 13 <=? 200 then 200 else zlen u + 13)) by (destruct (Z.leb_spec (zlen u + 13) 200); lia).
  destruct (Z.ltb_spec (if zlen u + 13 <=? 200 then 200 else zlen u + 13) (zlen (wire_varint (zlen u + 8) ++ u ++ EncodeFixed64 (mtag (seek_entry u s)))));
    [rewrite !length_app, H8 in *; lia|].
  eexists. split; [done|]. unfold internal_key, lookup_user_key, internal_key. cbn [memtable_key kstart]. rewrite drop_app_length.
  split; [unfold slice_bytes; by rewrite Hil|]. split; [done|]. rewrite !length_app, H8.
  replace (length (wire_varint (zlen u + 8)) + (length u + 8) - length (wire_varint (zlen u + 8)) - 8)%nat with (length u) by lia. apply take_app_length.
Qed.

Definition visible (u : list Z) (s : Z) (e : mentry) : Prop := cmp (mkey e) u = 0 /\ mseq e <= s.
Definition result_of (e : mentry) : get_result := if mtype e =? kTypeValue then GetValue (mvalue e) else GetNotFound.

(** An entry is at or behind the lookup key exactly when its user key is larger,
    or the same and it is visible. *)
Lemma seek_order u s e : good_entry (seek_entry u s) -> good_entry e ->
  0 <= mcmp (entry_bytes e) (slice_bytes (ikey_of (seek_entry u s))) <-> 0 < cmp (mkey e) u \/ visible u s e.
Proof.
  intros H0' He. unfold mcmp, icmp. rewrite parse_entry by done. destruct (ikey_valid _ H0') as (_ & Hl & Hu & Htag). destruct (ikey_valid e He) as (_ & _ & -> & ->).
  assert (parse_key (slice_bytes (ikey_of (seek_entry u s))) = ikey_of (seek_entry u s)) as ->
    by (rewrite <- (app_nil_r (slice_bytes _)); apply parse_slice; rewrite Hl; apply H0').
  rewrite Hu, Htag. unfold visible, mtag. cbn [seek_entry mkey mseq mtype]. pose proof He as (_ & _ & _ & _ & Ht). unfold kValueTypeForSeek, kTypeValue, kTypeDeletion in *.
  destruct (Z.eqb_spec (cmp (mkey e) u) 0); [|lia]. repeat case_match; lia.
Qed.

(** What [Get] does with the entry that it finds. *)
Lemma get_entry e : good_entry e ->
  GetVarint32Ptr (entry_bytes e) = Some (zlen (mkey e) + 8, ikey_of e ++ slice_bytes (mvalue e)) /\
  DecodeFixed64 (drop (length (mkey e)) (ikey_of e ++ slice_bytes (mvalue e))) = Done (mtag e) /\ Z.land (mtag e) 0xff = mtype e /\
  mem_GetLengthPrefixedSlice (drop (Z.to_nat (zlen (mkey e) + 8)) (ikey_of e ++ slice_bytes (mvalue e))) = Done (mvalue e, []).
Proof.
  intros He. destruct (ikey_valid e He) as (_ & Hl & _). pose proof He as (_ & Hk & Hv & _ & Ht). pose proof (tag_range e He) as Htr. split; [|split; [|split]].
  - unfold entry_bytes, slice_bytes at 1. rewrite <- app_assoc, Hl. apply get_varint32_digits. lia.
  - unfold ikey_of. rewrite <- app_assoc, drop_app_length. by apply fixed64_back.
  - change 255 with (2 ^ 8 - 1). rewrite land_low_bits by lia. unfold mtag. unfold kTypeValue, kTypeDeletion in Ht. rewrite Z.add_comm, Z.mod_add by lia. apply Z.mod_small. lia.
  - replace (Z.to_nat (zlen (mkey e) + 8)) with (length (ikey_of e)) by lia. rewrite drop_app_length, <- (app_nil_r (slice_bytes _)). by apply mem_slice.
Qed.

Lemma Get_found (m : MemTable H) x e u k : good_entry e -> ekey x = entry_bytes e -> iter_Seek (KeyComparator c) (memtable_key k) (table_ m) = Done (addr x) ->
  iter_Valid (addr x) = true -> iter_key (addr x) (table_ m) = Done (ekey x) -> lookup_user_key k = u -> valid u ->
  Get c k m = Done (if cmp (mkey e) u =? 0 then result_of e else GetFalse).
Proof.
  intros He Ex Hseek Hval Hkey Hu Hvu. unfold Get. rewrite Hseek. cbn [mbind outcome_bind]. rewrite Hval, Hkey, Ex. cbn [mbind outcome_bind].
  destruct (get_entry e He) as (-> & Htag & Hlow & Hval'). cbn [demand mbind outcome_bind]. pose proof He as (Hvk & Hk & _ & _ & Ht).
  rewrite u32_small, Z.add_simpl_r, Nat2Z.id by lia. destruct (ikey_valid e He) as (_ & Hl & _). rewrite length_app.
  destruct (Nat.ltb_spec (length (ikey_of e) + length (slice_bytes (mvalue e))) (length (mkey e))); [lia|].
  assert (take (length (mkey e)) (ikey_of e ++ slice_bytes (mvalue e)) = mkey e) as -> by (unfold ikey_of; by rewrite <- app_assoc, take_app_length).
  rewrite Hu, cmp_total by done. cbn [mbind outcome_bind]. destruct (cmp (mkey e) u =? 0); [|done]. rewrite Htag. cbn [mbind outcome_bind]. rewrite Hlow.
  unfold result_of. destruct (Z.eqb_spec (mtype e) kTypeValue); [by rewrite Hval'|]. destruct Ht as [->|Ht]; [done|]. by rewrite Ht in *.
Qed.

Lemma Get_spec (m : MemTable H) log u s k : mem_ok m log -> good_entry (seek_entry u s) -> new_LookupKey u s = Done k ->
  (exists e, e ∈ log /\ visible u s e /\ (forall e', e' ∈ log -> visible u s e' -> mtag e' <= mtag e) /\ Get c k m = Done (result_of e)) \/
  ((forall e, e ∈ log -> ~ visible u s e) /\ Get c k m = Done GetFalse).
Proof.
  intros (Hlog & es & Hok & Hperm) Hse Ek. destruct (lookup_key_spec u s Hse) as (k' & Ek' & Hmk & _ & Huk). rewrite Ek in Ek'. injection Ek' as <-.
  set (mk := slice_bytes (ikey_of (seek_entry u s))) in *. assert (Hv : valid_mkey mk).
  { destruct (ikey_valid _ Hse) as (Hv & Hl & _). exists (ikey_of (seek_entry u s)), []. split; [by rewrite app_nil_r|]. split; [done|]. rewrite Hl. apply Hse. }
  destruct (splits_exists _ es mk Hok Hv) as (bs & rest & Hsp). pose proof (iter_Seek_spec _ es mk bs rest Hok Hv Hsp) as Hseek. pose proof Hsp as (Ees & Hbs & Hrest).
  rewrite Forall_forall in Hlog; rewrite Forall_forall in Hbs, Hrest.
  assert (Hof : forall e, e ∈ log -> exists x, x ∈ es /\ ekey x = entry_bytes e).
  { intros e He. assert (Hin : entry_bytes e ∈ map ekey es) by (rewrite Hperm; by apply list_elem_of_fmap_2). apply list_elem_of_fmap_1 in Hin as (x & ? & ?). by exists x. }
  assert (Hrest' : forall e, e ∈ log -> visible u s e -> exists x, x ∈ rest /\ ekey x = entry_bytes e).
  { intros e He Hvis. destruct (Hof e He) as (x & Hx & Ex). exists x. split; [|done]. rewrite Ees, elem_of_app in Hx. destruct Hx as [Hx|]; [|done].
    specialize (Hbs x Hx). cbn in Hbs. rewrite Ex in Hbs. pose proof (proj2 (seek_order u s e Hse (Hlog e He)) (or_intror Hvis)) as Hge. fold mk in Hge. lia. }
  destruct rest as [|x rest].
  { right. split; [intros e He Hvis; destruct (Hrest' e He Hvis) as (x & Hx & _); by apply elem_of_nil in Hx|].
    unfold Get. rewrite Hmk, Hseek. unfold at_pos. by rewrite Ees, app_nil_r, lookup_ge_None_2 by lia. }
  assert (Hxin : x ∈ es) by (rewrite Ees, elem_of_app; right; by left).
  assert (Hat : es !! length bs = Some x) by (rewrite Ees, lookup_app_r, Nat.sub_diag by lia; done).
  assert (exists e, e ∈ log /\ ekey x = entry_bytes e) as (e & He & Ex).
  { assert (Hin : ekey x ∈ map entry_bytes log) by (rewrite <- Hperm; by apply list_elem_of_fmap_2). apply list_elem_of_fmap_1 in Hin as (e & ? & ?). by exists e. }
  destruct (iter_key_spec _ es (length bs) x Hok Hat) as [Hval Hkey]. unfold at_pos in *. rewrite Hat in *. cbn [from_option] in *. rewrite <- Hmk in Hseek.
  pose proof (Get_found m x e u k (Hlog e He) Ex Hseek Hval Hkey Huk (proj1 Hse)) as HGet.
  assert (Hge : 0 < cmp (mkey e) u \/ visible u s e) by (apply seek_order; [done|by apply Hlog|]; rewrite <- Ex; apply Hrest; by left).
  assert (Hmin : forall e', e' ∈ log -> visible u s e' -> mcmp (entry_bytes e) (entry_bytes e') <= 0).
  { intros e' He' Hvis'. destruct (Hrest' e' He' Hvis') as (x' & Hx' & <-). rewrite <- Ex. apply elem_of_cons in Hx' as [->|Hx'].
    - pose proof (so_valid _ _ Hok) as Hvs. rewrite Forall_forall in Hvs. rewrite (cmp_refl (valid := valid_mkey)); [done|]. by apply Hvs.
    - pose proof (so_sorted _ _ Hok) as Hs. rewrite Ees in Hs. apply StronglySorted_app in Hs as (_ & _ & Hs). apply StronglySorted_inv in Hs as [_ Hs].
      rewrite Forall_forall in Hs. specialize (Hs x' Hx'). unfold before in Hs. lia. }
  rewrite HGet. destruct (Z.eqb_spec (cmp (mkey e) u) 0) as [E|Hne].
  - left. exists e. assert (Hvis : visible u s e) by (destruct Hge as [?|]; [lia|done]). split; [done|]. split; [done|]. split; [|done].
    intros e' He' Hvis'. specialize (Hmin e' He' Hvis'). rewrite mcmp_entries in Hmin by (by apply Hlog).
    assert (E' : cmp (mkey e) (mkey e') = 0).
    { pose proof (Hlog e He) as (Hve & _). pose proof (Hlog e' He') as (Hve' & _). apply (cmp_zero_sym (valid := valid)); [done|done|].
      apply (cmp_zero_l (valid := valid) (mkey e') u (mkey e)); [done|apply Hse|done|apply Hvis'|]. apply (cmp_zero_sym (valid := valid)); [done|apply Hse|done]. }
    rewrite E' in Hmin. cbn [Z.eqb] in Hmin. destruct (Z.ltb_spec (mtag e') (mtag e)); [lia|]. destruct (Z.ltb_spec (mtag e) (mtag e')); lia.
  - right. split; [|done]. intros e' He' Hvis'. specialize (Hmin e' He' Hvis'). rewrite mcmp_entries in Hmin by (by apply Hlog).
    pose proof (Hlog e He) as (Hve & _). pose proof (Hlog e' He') as (Hve' & _).
    assert (Hle : cmp (mkey e) (mkey e') <= 0) by (destruct (Z.eqb_spec (cmp (mkey e) (mkey e')) 0); lia).
    pose proof (cmp_trans (mkey e) (mkey e') u Hve Hve' (proj1 Hse) Hle (Z.eq_le_incl _ _ (proj1 Hvis'))). destruct Hge as [?|[? _]]; lia.
Qed.
End Mem.

(** ** Memtables filled with updates *)

Definition entry_of (seq : Z) (u : update) : mentry :=
  match u with UPut k v => MkMEntry k seq kTypeValue v | UDelete k => MkMEntry k seq kTypeDeletion [] end.

(** The entries of updates numbered from [seq]. *)
Fixpoint entries_of (seq : Z) (us : list update) : list mentry :=
  match us with [] => [] | u :: us => entry_of seq u :: entries_of (seq + 1) us end.

Lemma entries_app us vs : forall seq, entries_of seq (us ++ vs) = entries_of seq us ++ entries_of (seq + zlen us) vs.
Proof.
  induction us as [|u us IH]; intros seq; cbn [entries_of app length]; [by rewrite Z.add_0_r|]. rewrite IH. do 2 f_equal. f_equal. lia.
Qed.

Lemma entries_seq us : forall seq, Forall (fun e => seq <= mseq e < seq + zlen us) (entries_of seq us).
Proof.
  induction us as [|u us IH]; intros seq; [constructor|]. cbn [entries_of length]. constructor; [destruct u; cbn; lia|].
  eapply Forall_impl; [apply IH|]. cbn. lia.
Qed.

(** Numbered in the order in which they were added. *)
Definition numbered (log : list mentry) : Prop := StronglySorted (fun e e' => mseq e < mseq e') log.

Lemma entries_numbered us : forall seq, numbered (entries_of seq us).
Proof.
  induction us as [|u us IH]; intros seq; [constructor|]. cbn [entries_of]. constructor; [apply IH|].
  eapply Forall_impl; [apply entries_seq|]. intros e. cbn beta. destruct u; cbn; lia.
Qed.

Lemma numbered_filter (P : mentry -> Prop) `{forall e, Decision (P e)} log : numbered log -> numbered (filter P log).
Proof.
  induction 1 as [|e log Hs IH Hall]; [constructor|]. rewrite filter_cons. destruct (decide (P e)); [|done]. constructor; [done|].
  rewrite Forall_forall in *. intros e' [_ Hin]%list_elem_of_filter. by apply Hall.
Qed.

Section Updates.
Context {c : Comparator} {valid : list Z -> Prop} {cmp : list Z -> list Z -> Z} `{!GoodComparator c valid cmp} {H : Type} `{GoodHeap H}.
#[local] Abbreviation mem_ok := (mem_ok (valid := valid) (cmp := cmp)).
#[local] Abbreviation good_entry := (good_entry (valid := valid)).

(** Updates a memtable can hold. *)
Definition good_update (u : update) : Prop := match u with
  | UPut k v => valid k /\ zlen k + 8 < 2 ^ 32 /\ zlen v < 2 ^ 32
  | UDelete k => valid k /\ zlen k + 8 < 2 ^ 32
  end.

Lemma good_entry_of seq u : good_update u -> 0 <= seq <= kMaxSequenceNumber -> good_entry (entry_of seq u).
Proof. destruct u; intros Hu Hs; cbn in *; repeat split; try tauto; cbn; try lia; tauto. Qed.

Lemma good_small u : good_update u -> small_update u.
Proof. destruct u; cbn; lia. Qed.

Lemma insert_updates us : Forall good_update us -> forall (m : MemTable H) log seq, mem_ok m log -> Forall (fun e => mseq e < seq) log ->
  0 <= seq -> seq + zlen us - 1 <= kMaxSequenceNumber ->
  exists m', @run_updates _ (@inserter_handler _ (memtable_table c)) us (MkInserter seq m) = Done (MkInserter (seq + zlen us) m') /\
    mem_ok m' (log ++ entries_of seq us) /\ refs_ m' = refs_ m.
Proof.
  intros Hus. assert (Hmx : kMaxSequenceNumber = 2 ^ 56 - 1) by done.
  induction Hus as [|u us Hu _ IH]; intros m log seq Hm Hlt Hs Hmax; cbn [run_updates length entries_of] in *.
  { exists m. rewrite Z.add_0_r, app_nil_r. done. }
  assert (He : good_entry (entry_of seq u)) by (apply good_entry_of; [done|lia]).
  destruct (Add_spec m log (entry_of seq u) Hm He) as (m1 & Eadd & Hm1 & Hr1).
  { pose proof (proj1 Hm) as Hg. rewrite Forall_forall in Hg, Hlt |- *. intros e Hin _ E. specialize (Hlt e Hin). destruct (Hg e Hin) as (_ & _ & _ & _ & Ht).
    pose proof He as (_ & _ & _ & _ & Ht'). unfold mtag, kTypeDeletion, kTypeValue in *. assert (mseq (entry_of seq u) = seq) by by destruct u. lia. }
  assert (Erun : @run_update _ (@inserter_handler _ (memtable_table c)) u (MkInserter seq m) = Done (MkInserter (seq + 1) m1)).
  { destruct u as [k v|k]; cbn [run_update Put Delete inserter_handler Add memtable_table sequence_ mem_ entry_of mseq mtype mkey mvalue] in *;
      rewrite Eadd; cbn [mbind outcome_bind]; by rewrite u64_small by lia. }
  rewrite Erun. cbn [mbind outcome_bind]. destruct (IH m1 (log ++ [entry_of seq u]) (seq + 1) Hm1) as (m' & -> & Hm' & Hr').
  - apply Forall_app_2; [eapply Forall_impl; [exact Hlt|]; cbn; lia|]. constructor; [|done]. destruct u; cbn; lia.
  - lia.
  - lia.
  - exists m'. replace (seq + 1 + zlen us) with (seq + Z.of_nat (S (length us))) by lia. split; [done|]. split; [|congruence]. by rewrite <- app_assoc in Hm'.
Qed.

Lemma InsertInto_spec us (m : MemTable H) log seq : Forall good_update us -> mem_ok m log -> Forall (fun e => mseq e < seq) log ->
  0 <= seq -> seq + zlen us - 1 <= kMaxSequenceNumber -> zlen us < 2 ^ 31 ->
  exists m', @InsertInto _ (memtable_table c) (batch_of seq us) m = Done (OK, m') /\ mem_ok m' (log ++ entries_of seq us) /\ refs_ m' = refs_ m.
Proof.
  intros Hus Hm Hlt Hs Hmax Hn. destruct (insert_updates us Hus m log seq Hm Hlt Hs Hmax) as (m' & Erun & Hm' & Hr'). exists m'.
  unfold InsertInto. rewrite sequence_batch by (change kMaxSequenceNumber with (2 ^ 56 - 1) in Hmax; lia). cbn [mbind outcome_bind].
  assert (Forall small_update us) by (eapply Forall_impl; [exact Hus|]; apply good_small). by rewrite iterate_batch, Erun by done.
Qed.

(** ** Looking up the latest update *)

#[export] Instance visible_dec u s e : Decision (visible (cmp := cmp) u s e).
Proof. unfold visible. apply _. Defined.

Definition latest (u : list Z) (s : Z) (log : list mentry) : option mentry := last (filter (visible (cmp := cmp) u s) log).

Lemma Get_latest (m : MemTable H) log u s k : mem_ok m log -> numbered log -> good_entry (seek_entry u s) -> new_LookupKey u s = Done k ->
  Get c k m = Done (from_option result_of GetFalse (latest u s log)).
Proof.
  intros Hm Hnum Hse Ek. unfold latest. destruct (Get_spec m log u s k Hm Hse Ek) as [(e & He & Hvis & Hmax & ->)|[Hnone ->]].
  - f_equal. destruct (last (filter _ log)) as [e'|] eqn:El.
    + cbn [from_option]. apply last_Some in El as [l' El]. assert (Hin' : e' ∈ filter (visible (cmp := cmp) u s) log) by (rewrite El, elem_of_app; right; by left).
      apply list_elem_of_filter in Hin' as [Hvis' Hin']. specialize (Hmax e' Hin' Hvis').
      assert (Hin : e ∈ l' ++ [e']) by (rewrite <- El; by apply list_elem_of_filter). apply elem_of_app in Hin as [Hin|Hin]; [|by apply list_elem_of_singleton in Hin as ->].
      exfalso. assert (Hs : StronglySorted (fun e e' => mseq e < mseq e') (l' ++ [e'])) by (rewrite <- El; by apply numbered_filter).
      apply StronglySorted_app in Hs as (Hc & _). specialize (Hc e e' Hin ltac:(by left)). pose proof (proj1 Hm) as Hg. rewrite Forall_forall in Hg.
      destruct (Hg e He) as (_ & _ & _ & _ & Ht). destruct (Hg e' Hin') as (_ & _ & _ & _ & Ht'). unfold mtag, kTypeDeletion, kTypeValue in *. lia.
    + apply last_None in El. exfalso. assert (Hin : e ∈ filter (visible (cmp := cmp) u s) log) by by apply list_elem_of_filter. rewrite El in Hin. by apply elem_of_nil in Hin.
  - f_equal. destruct (filter _ log) as [|e l'] eqn:El; [done|]. exfalso. assert (Hin : e ∈ filter (visible (cmp := cmp) u s) log) by (rewrite El; by left).
    apply list_elem_of_filter in Hin as [Hvis Hin]. by apply (Hnone e).
Qed.
End Updates.
