(* ===== verification/LdbRecover.v ===== *)
(** * LdbRecover: rebuilding memtables from a log (DBImpl::RecoverLogFile of
    db/db_impl.cc).

    The level-0 tables that full memtables are written to are an interface;
    so are the files.  Messages to the information log are left out. *)

From Stdlib Require Import ZifyBool.
From stdpp Require Import base tactics numbers list gmap strings.
From S2P Require Import Prelude PbOStream PbWire LdbCoding LdbCrc LdbCrcSpec LdbLog LdbLogSpec LdbKey LdbKeySpec LdbBatch LdbArena LdbSkip LdbMem.
Open Scope Z_scope.

(** The options that recovery looks at. *)
Record Options : Type := MkOptions { paranoid_checks : bool; write_buffer_size : Z; reuse_logs : bool }.

Definition MaybeIgnoreError (o : Options) (s : Status) : Status := if ok s || paranoid_checks o then s else OK.

(** [LogReporter::Corruption] for the reports of one call: the first one is
    kept as the status. *)
Definition note_reports (o : Options) (status : Status) (reports : list (Z * Status)) : Status :=
  match reports with
  | (_, s) :: _ => if paranoid_checks o && ok status then s else status
  | [] => status
  end.
Definition reports_of {F} (r : Reader F) : list (Z * Status) := default [] (reporter_ r).

(** [WriteLevel0Table(mem, edit, nullptr)] *)
Class Level0 (D H : Type) : Type := { WriteLevel0Table : MemTable H -> D -> outcome (Status * D) }.

Section Recover.
Context (o : Options) (c : Comparator) {H D R W : Type} `{Heap H} `{Level0 D H} `{SequentialFile R}.
(** The heap when the [n]th memtable is created. *)
Context (heap_at : nat -> H).

(** The variables of the function, and what it changes of the database. *)
Record Recovery : Type := MkRecovery {
  status : Status;
  reader : Reader R;
  mem : option (MemTable H);
  created : nat;
  db : D;
  max_sequence : Z;
  compactions : Z;
  save_manifest : bool;
}.

Definition set_read (s : Status) (r : Reader R) (st : Recovery) : Recovery :=
  MkRecovery s r (mem st) (created st) (db st) (max_sequence st) (compactions st) (save_manifest st).

(** [if (mem == nullptr) { mem = new MemTable(..); mem->Ref(); }] *)
Definition ensure_mem (st : Recovery) : outcome (MemTable H * nat) :=
  match mem st with
  | Some m => Done (m, created st)
  | None => m ← new_MemTable (heap_at (created st)); Done (Ref m, S (created st))
  end.

(** Write the memtable out and drop the reference. *)
Definition flush_mem (m : MemTable H) (d : D) : outcome (Status * D) :=
  '(s, d) ← WriteLevel0Table m d;
  _ ← Unref m;
  Done (s, d).

(** The body of the loop for a record of at least twelve bytes; the result
    says whether the loop goes on. *)
Definition recover_batch (record : list Z) (st : Recovery) : outcome (bool * Recovery) :=
  batch ← SetContents record;
  '(m, n) ← ensure_mem st;
  '(s, m) ← @InsertInto _ (memtable_table c) batch m;
  let s := MaybeIgnoreError o s in
  if negb (ok s) then Done (false, MkRecovery s (reader st) (Some m) n (db st) (max_sequence st) (compactions st) (save_manifest st))
  else
    seq ← Sequence batch;
    count ← Count batch;
    let last_seq := u64 (seq + count - 1) in
    let max_seq := if max_sequence st <? last_seq then last_seq else max_sequence st in
    if write_buffer_size o <? ApproximateMemoryUsage m then
      '(s, d) ← flush_mem m (db st);
      Done (ok s, MkRecovery s (reader st) None n d max_seq (compactions st + 1) true)
    else Done (true, MkRecovery s (reader st) (Some m) n (db st) max_seq (compactions st) (save_manifest st)).

(** [while (reader.ReadRecord(&record, &scratch) && status.ok())] *)
Fixpoint recover_loop (fuel rfuel : nat) (st : Recovery) : outcome Recovery :=
  match fuel with
  | O => NoFuel
  | S fuel =>
    '(record, r) ← ReadRecord rfuel (reader st);
    let s := note_reports o (status st) (drop (length (reports_of (reader st))) (reports_of r)) in
    let st := set_read s r st in
    match record with
    | None => Done st
    | Some record =>
      if negb (ok s) then Done st
      else if zlen record <? 12 then
        let report := (zlen record, Corruption "log record too small") in
        recover_loop fuel rfuel (set_read (note_reports o s [report]) (add_report report r) st)
      else
        '(more, st) ← recover_batch record st;
        if more : bool then recover_loop fuel rfuel st else Done st
    end
  end.

(** The members of the database that the end of the function sets. *)
Record Reused : Type := MkReused { log_ : option (Writer W); mem_table : option (MemTable H) }.

(** What becomes of the log and the last memtable; [reopen] is the file, its
    length and the address of a local variable if both environment calls
    succeed. *)
Definition finish (last_log : bool) (reopen : option (W * Z * Z)) (st : Recovery) : outcome (Status * Reused * Recovery) :=
  let keep := ok (status st) && reuse_logs o && last_log && (compactions st =? 0) in
  '(reused, unused, n) ←
    (match (if keep then reopen else None) with
     | Some (file, size, addr) =>
       w ← new_Writer addr file size;
       match mem st with
       | Some m => Done (MkReused (Some w) (Some m), None, created st)
       | None => m ← new_MemTable (heap_at (created st)); Done (MkReused (Some w) (Some (Ref m)), None, S (created st))
       end
     | None => Done (MkReused None None, mem st, created st)
     end);
  match unused with
  | None => Done (status st, reused, MkRecovery (status st) (reader st) None n (db st) (max_sequence st) (compactions st) (save_manifest st))
  | Some m =>
    if ok (status st) then
      '(s, d) ← flush_mem m (db st);
      Done (s, reused, MkRecovery s (reader st) None n d (max_sequence st) (compactions st) true)
    else
      _ ← Unref m;
      Done (status st, reused, MkRecovery (status st) (reader st) None n (db st) (max_sequence st) (compactions st) (save_manifest st))
  end.

(** [file] is what the environment opened, or why it could not; [store] the
    address of the reader's block. *)
Definition RecoverLogFile (fuel rfuel : nat) (file : Status + R) (store : Z) (last_log : bool) (reopen : option (W * Z * Z))
  (d : D) (max_seq : Z) (manifest : bool) : outcome (Status * Reused * option Recovery) :=
  match file with
  | inl s => Done (MaybeIgnoreError o s, MkReused None None, None)
  | inr f =>
    st ← recover_loop fuel rfuel (MkRecovery OK (new_Reader f (Some []) true store 0) None 0 d max_seq 0 manifest);
    '(s, reused, st) ← finish last_log reopen st;
    Done (s, reused, Some st)
  end.
End Recover.

(** * Recovery finds the updates whose log records are whole. *)


(** Writing a table that always succeeds; [tables] are the memtables that went
    into tables, oldest first. *)
Class GoodLevel0 (D H : Type) `{Level0 D H} : Type := {
  tables : D -> list (MemTable H);
  write_table m d : exists d', WriteLevel0Table m d = Done (OK, d') /\ tables d' = tables d ++ [m];
}.

(** Batches of updates, numbered one after the other. *)
Fixpoint batches (seq : Z) (uss : list (list update)) : list WriteBatch :=
  match uss with [] => [] | us :: uss => batch_of seq us :: batches (seq + zlen us) uss end.

Section Spec.
Context (o : Options) {c : Comparator} {valid : list Z -> Prop} {cmp : list Z -> list Z -> Z} `{!GoodComparator c valid cmp}.
Context {H : Type} `{GoodHeap H} {D : Type} `{GoodLevel0 D H} {R : Type} `{GoodInput R} {W : Type}.
Context (heap_at : nat -> H).
#[local] Abbreviation mem_ok := (mem_ok (valid := valid) (cmp := cmp)).
#[local] Abbreviation good_update := (good_update (valid := valid)).

(** The memtables so far: the tables written since [d0], and the current one. *)
Definition holds (d0 : list (MemTable H)) (st : Recovery (H := H) (D := D) (R := R)) (seq : Z) (es : list mentry) : Prop :=
  exists ts logs cur, tables (db st) = d0 ++ ts /\ Forall2 mem_ok ts logs /\ concat logs ++ cur = es /\ Forall (fun e => mseq e < seq) es /\
    match mem st with Some m => mem_ok m cur /\ refs_ m = 1 | None => cur = [] end.

Lemma ensure_mem_spec d0 st seq es : holds d0 st seq es -> exists ts logs cur m n, ensure_mem heap_at st = Done (m, n) /\
  tables (db st) = d0 ++ ts /\ Forall2 mem_ok ts logs /\ concat logs ++ cur = es /\ Forall (fun e => mseq e < seq) es /\ mem_ok m cur /\ refs_ m = 1.
Proof.
  intros (ts & logs & cur & Ht & Hl & Ec & Hlt & Hm). exists ts, logs, cur. unfold ensure_mem. destruct (mem st) as [m|].
  - destruct Hm as [Hm Hr]. by exists m, (created st).
  - subst cur. destruct (new_MemTable_ok (valid := valid) (cmp := cmp) (heap_at (created st))) as (m & E & Hm). rewrite E. cbn [mbind outcome_bind].
    exists (Ref m), (S (created st)). split; [done|]. split; [done|]. split; [done|]. split; [done|]. split; [done|]. split; [exact Hm|].
    unfold new_MemTable in E. destruct (new_SkipList _ _) as [tb| |]; [|done|done]. by injection E as <-.
Qed.

Lemma flush_mem_spec (m : MemTable H) (d : D) : refs_ m = 1 -> exists d', flush_mem m d = Done (OK, d') /\ tables d' = tables d ++ [m].
Proof.
  intros Hr. unfold flush_mem. destruct (write_table m d) as (d' & -> & Ht). cbn [mbind outcome_bind]. unfold Unref. rewrite Hr. cbn. by exists d'.
Qed.

Lemma recover_batch_spec d0 st seq es us : holds d0 st seq es -> Forall good_update us -> 1 <= seq -> seq + zlen us - 1 <= kMaxSequenceNumber -> zlen us < 2 ^ 31 ->
  max_sequence st = seq - 1 ->
  exists st', recover_batch o c heap_at (rep_ (batch_of seq us)) st = Done (true, st') /\ holds d0 st' (seq + zlen us) (es ++ entries_of seq us) /\
    max_sequence st' = seq + zlen us - 1 /\ reader st' = reader st /\ status st' = OK.
Proof.
  intros Hh Hus Hs Hmax Hn Hms. unfold recover_batch, SetContents.
  assert (Hlen : 12 <= zlen (rep_ (batch_of seq us))) by (unfold batch_of; cbn [rep_]; rewrite !length_app, length_fixed64, length_fixed32; lia).
  destruct (Z.ltb_spec (zlen (rep_ (batch_of seq us))) kHeader) as [Hl|_]; [unfold kHeader in Hl; lia|]. cbn [mbind outcome_bind].
  destruct (ensure_mem_spec d0 st seq es Hh) as (ts & logs & cur & m & n & -> & Ht & Hlogs & Ec & Hlt & Hm & Hr). cbn [mbind outcome_bind].
  assert (Hcur : Forall (fun e => mseq e < seq) cur) by (rewrite <- Ec in Hlt; by apply Forall_app in Hlt as [_ ?]).
  change (MkBatch (rep_ (batch_of seq us))) with (batch_of seq us).
  destruct (InsertInto_spec us m cur seq Hus Hm Hcur ltac:(lia) Hmax Hn) as (m' & -> & Hm' & Hr'). cbn [mbind outcome_bind MaybeIgnoreError ok orb negb].
  change kMaxSequenceNumber with (2 ^ 56 - 1) in Hmax. rewrite sequence_batch, count_batch by lia. cbn [mbind outcome_bind]. rewrite (u64_small (seq + zlen us - 1)), Hms by lia.
  assert (Hes : Forall (fun e => mseq e < seq + zlen us) (es ++ entries_of seq us)).
  { apply Forall_app_2; [eapply Forall_impl; [exact Hlt|]; cbn; lia|]. eapply Forall_impl; [apply entries_seq|]. cbn. lia. }
  assert (Hmx : (if seq - 1 <? seq + zlen us - 1 then seq + zlen us - 1 else seq - 1) = seq + zlen us - 1) by (destruct (Z.ltb_spec (seq - 1) (seq + zlen us - 1)); lia). rewrite Hmx.
  destruct (write_buffer_size o <? ApproximateMemoryUsage m').
  - destruct (flush_mem_spec m' (db st) ltac:(lia)) as (d' & -> & Ht'). cbn [mbind outcome_bind ok]. eexists. split; [done|]. split; [|done].
    exists (ts ++ [m']), (logs ++ [cur ++ entries_of seq us]), []. cbn [db mem]. rewrite Ht', Ht, app_assoc. split; [done|].
    split; [apply Forall2_app; [done|by constructor]|]. rewrite concat_app, <- Ec. cbn [concat]. rewrite !app_nil_r, app_assoc. split; [done|]. rewrite <- Ec in Hes. by split.
  - eexists. split; [done|]. split; [|done]. exists ts, logs, (cur ++ entries_of seq us). cbn [db mem]. split; [done|]. split; [done|].
    rewrite <- Ec, app_assoc. split; [done|]. rewrite <- Ec in Hes. split; [done|]. split; [done|lia].
Qed.

Lemma no_reports (r r' : Reader R) s : reporter_ r' = reporter_ r -> note_reports o s (drop (length (reports_of r)) (reports_of r')) = s.
Proof. intros E. unfold reports_of. rewrite E. by rewrite drop_ge by lia. Qed.

Lemma holds_read d0 st seq es s r : holds d0 st seq es -> holds d0 (set_read s r st) seq es.
Proof. done. Qed.

(** The loop over a log of batches, cut anywhere. *)
Lemma recover_loop_spec d0 uss : Forall (fun us => Forall good_update us /\ zlen us < 2 ^ 31) uss ->
  forall seq fss fuel rfuel st es off rest, log_frames (map rep_ (batches seq uss)) fss -> reading (reader st) off rest -> resyncing_ (reader st) = false ->
  0 <= last_record_offset_ (reader st) -> fits off (concat fss) -> rest `prefix_of` frames off (concat fss) -> (length uss < fuel)%nat ->
  (length (concat fss) < rfuel)%nat -> status st = OK -> holds d0 st seq es -> 1 <= seq -> seq + zlen (concat uss) - 1 <= kMaxSequenceNumber -> max_sequence st = seq - 1 ->
  exists k st', recover_loop o c heap_at fuel rfuel st = Done st' /\ status st' = OK /\
    holds d0 st' (seq + zlen (concat (take k uss))) (es ++ entries_of seq (concat (take k uss))) /\ max_sequence st' = seq + zlen (concat (take k uss)) - 1 /\
    (k <= length uss)%nat /\ zlen (frames off (concat (take k fss))) <= zlen rest /\
    (forall j, (k < j <= length uss)%nat -> zlen rest < zlen (frames off (concat (take j fss)))).
Proof.
  induction 1 as [|us uss [Hus Hn] _ IH]; intros seq fss fuel rfuel st es off rest Hlog Hr Hsync Hlast Hfits Hpre Hfuel Hrf Hst Hh Hs Hmax Hms;
    (destruct fuel as [|fuel]; [cbn in Hfuel; lia|]); cbn [batches map] in Hlog.
  - apply Forall2_nil_inv_l in Hlog as ->. cbn [concat frames] in Hpre. apply prefix_nil_inv in Hpre as ->. cbn [recover_loop].
    destruct (ReadRecord_end rfuel (reader st) off Hr Hsync Hlast (fits_off _ _ Hfits) ltac:(cbn in Hrf; lia)) as (r' & -> & Hsame & _). cbn [mbind outcome_bind].
    rewrite (no_reports _ _ _ (same_reporter _ _ Hsame)). exists 0%nat. eexists. split; [done|]. cbn [take concat entries_of length frames]. rewrite Z.add_0_r, app_nil_r.
    split; [done|]. split; [by apply holds_read|]. split; [done|]. split; [lia|]. split; [lia|]. intros j Hj. lia.
  - apply Forall2_cons_inv_l in Hlog as (fs & fss' & Hrec & Hlog & ->). cbn [concat length] in *. rewrite length_app in *. cbn [recover_loop].
    destruct (ReadRecord_spec rfuel _ fs (reader st) off rest (concat fss') Hrec Hr Hsync Hlast Hfits Hpre ltac:(lia))
      as (r1 & Hsame & [(rest' & -> & Hpre' & -> & Hr1 & Hlast1)|(Hshort & -> & _)]); cbn [mbind outcome_bind];
      rewrite (no_reports _ _ _ (same_reporter _ _ Hsame)), Hst.
    + cbn [ok negb]. destruct (Z.ltb_spec (zlen (rep_ (batch_of seq us))) 12) as [Hl|_].
      { unfold batch_of in Hl. cbn [rep_] in Hl. rewrite !length_app, length_fixed64, length_fixed32 in Hl. lia. }
      destruct (recover_batch_spec d0 (set_read OK r1 st) seq es us (holds_read _ _ _ _ _ _ Hh) Hus Hs ltac:(lia) Hn Hms) as (st1 & -> & Hh1 & Hms1 & Erd & Est1).
      cbn [mbind outcome_bind]. apply fits_app in Hfits as [Hf1 Hf2]. cbn [reader set_read] in Erd.
      destruct (IH (seq + zlen us) fss' fuel rfuel st1 (es ++ entries_of seq us) (end_off off fs) rest') as (k & st' & -> & Est & Hh' & Hms' & Hk & Hle & Hmx);
        rewrite ?Erd; try done; try lia; [exact (eq_trans (same_resyncing _ _ Hsame) Hsync)|].
      exists (S k), st'. cbn [take concat]. rewrite entries_app, app_assoc, length_app, frames_app, !length_app. rewrite Nat2Z.inj_add, Z.add_assoc. split; [done|]. split; [done|].
      split; [done|]. split; [done|]. split; [lia|]. split; [lia|]. intros j Hj. destruct j as [|j]; [lia|]. cbn [take concat]. rewrite frames_app, length_app.
      specialize (Hmx j ltac:(lia)). lia.
    + exists 0%nat. eexists. split; [done|]. cbn [take concat entries_of length frames]. rewrite Z.add_0_r, app_nil_r. split; [done|]. split; [by apply holds_read|]. split; [done|].
      split; [lia|]. split; [lia|]. intros j Hj. destruct j as [|j]; [lia|]. cbn [take concat]. rewrite frames_app, length_app. lia.
Qed.

(** ** After the loop *)

Definition from_option_list {X} (x : option X) : list X := match x with Some x => [x] | None => [] end.

Lemma finish_spec d0 st seq es last_log (reopen : option (W * Z * Z)) : holds d0 st seq es -> status st = OK ->
  match reopen with Some (_, _, a) => address a 1 | None => True end ->
  exists reused st' ts logs, finish o heap_at last_log reopen st = Done (OK, reused, st') /\ max_sequence st' = max_sequence st /\ mem st' = None /\
    tables (db st') ++ from_option_list (mem_table reused) = d0 ++ ts /\ Forall2 mem_ok ts logs /\ concat logs = es.
Proof.
  intros (ts & logs & cur & Ht & Hl & Ec & _ & Hm) Hst Hre. unfold finish. rewrite Hst. cbn [ok andb].
  destruct (if reuse_logs o && last_log && (compactions st =? 0) then reopen else None) as [[[file size] addr]|] eqn:Eop.
  - assert (Ha : address addr 1) by (destruct (reuse_logs o && last_log && (compactions st =? 0)); [by rewrite Eop in Hre|done]). unfold new_Writer. rewrite (type_crcs addr Ha). cbn [mbind outcome_bind].
    destruct (mem st) as [m|] eqn:Em; cbn [mbind outcome_bind].
    + destruct Hm as [Hm _]. eexists _, _, (ts ++ [m]), (logs ++ [cur]). split; [done|]. split; [done|]. split; [done|]. cbn [mem_table db from_option_list].
      rewrite Ht, app_assoc. split; [done|]. split; [apply Forall2_app; [done|by constructor]|]. rewrite concat_app. cbn [concat]. by rewrite app_nil_r.
    + subst cur. destruct (new_MemTable_ok (valid := valid) (cmp := cmp) (heap_at (created st))) as (m & -> & Hm). cbn [mbind outcome_bind].
      eexists _, _, (ts ++ [Ref m]), (logs ++ [[]]). split; [done|]. split; [done|]. split; [done|]. cbn [mem_table db from_option_list].
      rewrite Ht, app_assoc. split; [done|]. split; [apply Forall2_app; [done|constructor; [exact Hm|constructor]]|]. rewrite concat_app. cbn [concat app]. by rewrite ?app_nil_r in *.
  - clear Eop. cbn [mbind outcome_bind]. destruct (mem st) as [m|] eqn:Em.
    + destruct Hm as [Hm Hr]. destruct (flush_mem_spec m (db st) Hr) as (d' & -> & Ht'). cbn [mbind outcome_bind].
      eexists _, _, (ts ++ [m]), (logs ++ [cur]). split; [done|]. split; [done|]. split; [done|]. cbn [mem_table db from_option_list].
      rewrite Ht', Ht, app_nil_r, app_assoc. split; [done|]. split; [apply Forall2_app; [done|by constructor]|]. rewrite concat_app. cbn [concat]. by rewrite app_nil_r.
    + subst cur. eexists _, _, ts, logs. split; [done|]. split; [done|]. split; [done|]. cbn [mem_table db from_option_list]. rewrite Ht, app_nil_r in *. done.
Qed.
End Spec.
