(* ===== verification/LdbMemTheorems.v ===== *)
(** * LdbMemTheorems: keys, batches, memtables and recovery, the properties. *)

From Stdlib Require Import ZifyBool Sorting.Sorted.
From stdpp Require Import base tactics numbers list gmap strings sorting.
From S2P Require Import Prelude PbOStream PbWire LdbCoding LdbCrc LdbCrcSpec LdbLog LdbLogSpec LdbBloom LdbTheorems LdbKey LdbKeySpec LdbBatch LdbArena LdbSkip LdbSkipSpec LdbSkipOps LdbMem LdbRecover.
Open Scope Z_scope.

(** ** Keys *)

(** C33: index keys.  Between two internal keys the comparator finds a separator
    that is not before the first, before the second, and no longer than the
    first; a successor is not before its key; none of the assertions on the
    way can fail.  For every user comparator that keeps its contract. *)
Theorem separator_contract c (valid : list Z -> Prop) cmp start limit :
  GoodComparator c valid cmp -> valid_ikey valid start -> valid_ikey valid limit -> icmp cmp start limit < 0 ->
  (exists sep, FindShortestSeparator (InternalKeyComparator c) start limit = Done sep /\ valid_ikey valid sep /\
     icmp cmp start sep <= 0 /\ icmp cmp sep limit < 0 /\ zlen sep <= zlen start) /\
  (exists succ, FindShortSuccessor (InternalKeyComparator c) start = Done succ /\ valid_ikey valid succ /\ icmp cmp start succ <= 0).
Proof.
  intros Hc Hs Hl Hlt. split.
  - destruct (good_separator start limit Hs Hl) as (sep & E & Hv & Hin & _). exists sep. split; [done|]. split; [done|]. destruct (Hin Hlt) as [H1 H2].
    split; [done|]. split; [done|]. by apply (internal_separator_length c start limit).
  - destruct (good_successor start Hs) as (succ & ? & ? & ?). by exists succ.
Qed.

(** ** Arena *)

(** Requests to an arena; [true] asks for alignment. *)
Fixpoint allocate_all {H} `{Heap H} (rs : list (bool * Z)) (a : Arena H) : outcome (list Z * Arena H) :=
  match rs with
  | [] => Done ([], a)
  | (aligned, n) :: rs =>
    '(p, a) ← (if aligned : bool then AllocateAligned n a else Allocate n a);
    '(ps, a) ← allocate_all rs a;
    Done (p :: ps, a)
  end.

Lemma allocate_all_ok {H} `{GoodHeap H} rs : Forall (fun r => 0 < snd r < 2 ^ 63) rs -> forall (a : Arena H) used, arena_ok a used ->
  exists ps a', allocate_all rs a = Done (ps, a') /\ arena_ok a' (rev (zip ps (map snd rs)) ++ used) /\ length ps = length rs /\
    Forall2 (fun p r => fst r = true -> p mod 8 = 0) ps rs.
Proof.
  induction 1 as [|[al n] rs Hn _ IH]; intros a used Hok; cbn [allocate_all]; [by exists [], a|]. cbn [snd] in Hn.
  assert (exists p a1, (if al then AllocateAligned n a else Allocate n a) = Done (p, a1) /\ (al = true -> p mod 8 = 0) /\ arena_ok a1 ((p, n) :: used)) as (p & a1 & -> & Hal & Hok1).
  { destruct al; [destruct (allocate_aligned_ok a used n Hok ltac:(lia)) as (p & a1 & ? & _ & ? & ? & _)|destruct (allocate_ok a used n Hok ltac:(lia)) as (p & a1 & ? & _ & ? & _)];
      by exists p, a1. }
  cbn [mbind outcome_bind]. destruct (IH a1 _ Hok1) as (ps & a' & -> & Hok' & Hl & Hall). cbn [mbind outcome_bind]. exists (p :: ps), a'. split; [done|].
  cbn [map zip_with rev snd length]. rewrite <- app_assoc. split; [done|]. split; [by rewrite Hl|]. by constructor.
Qed.

(** C30: the arena.  Whatever is asked of it, in whatever order, every request
    succeeds with a stretch of memory that lies in one array, overlaps no
    other and is aligned when that was asked for. *)
Theorem arena_disjoint {H} `{GoodHeap H} (h : H) rs : Forall (fun r => 0 < snd r < 2 ^ 63) rs ->
  exists ps a, allocate_all rs (new_Arena h) = Done (ps, a) /\ length ps = length rs /\
    Forall2 (fun p r => fst r = true -> p mod 8 = 0) ps rs /\ ForallOrdPairs apart (rev (zip ps (map snd rs))) /\
    Forall (fun r => 0 < fst r /\ Exists (within r) (arrays (heap_ a))) (zip ps (map snd rs)).
Proof.
  intros Hrs. destruct (allocate_all_ok rs Hrs (new_Arena h) [] (new_arena_ok h)) as (ps & a & E & Hok & Hl & Hal). rewrite app_nil_r in Hok.
  exists ps, a. split; [done|]. split; [done|]. split; [done|]. split; [apply Hok|]. pose proof (ao_used _ _ Hok) as Hu. rewrite Forall_forall in *.
  intros r Hr. destruct (Hu r) as (? & _ & ?); [by apply list_elem_of_In, in_rev; rewrite rev_involutive; apply list_elem_of_In|done].
Qed.

(** ** Skip list *)

Section Skip.
Context {K : Type} {compare_ : K -> K -> outcome Z} {valid : K -> Prop} {cmp : K -> K -> Z} `{!Ordered compare_ valid cmp}.
Context {A : Type} `{GoodAllocator A}.

Fixpoint insert_all (ks : list K) (l : SkipList K A) : outcome (SkipList K A) :=
  match ks with [] => Done l | k :: ks => l ← Insert compare_ k l; insert_all ks l end.

(** The keys from a node on, following an iterator forwards or backwards. *)
Fixpoint scan (fuel : nat) (step : Z -> SkipList K A -> outcome Z) (node : Z) (l : SkipList K A) : outcome (list K) :=
  match fuel with
  | O => NoFuel
  | S fuel =>
    if iter_Valid node then
      k ← iter_key node l;
      node ← step node l;
      ks ← scan fuel step node l;
      Done (k :: ks)
    else Done []
  end.

Lemma scan_next l es : skip_ok (valid := valid) (cmp := cmp) l es -> forall n fuel, (length es - n < fuel)%nat ->
  scan fuel iter_Next (at_pos es n) l = Done (map ekey (drop n es)).
Proof.
  intros Hok n fuel. revert n. induction fuel as [|fuel IH]; intros n Hf; [lia|]. cbn [scan]. destruct (es !! n) as [e|] eqn:En.
  - destruct (iter_key_spec l es n e Hok En) as [-> ->]. cbn [mbind outcome_bind]. rewrite (iter_Next_spec l es n e Hok En). cbn [mbind outcome_bind].
    apply lookup_lt_Some in En as Hn. rewrite IH by lia. cbn [mbind outcome_bind]. by rewrite (drop_S es e n En).
  - assert (at_pos es n = 0) as -> by (unfold at_pos; by rewrite En). cbn. by rewrite drop_ge by (by apply lookup_ge_None).
Qed.

Lemma scan_prev l es : skip_ok (valid := valid) (cmp := cmp) l es -> forall n fuel, (n < fuel)%nat -> (n <= length es)%nat ->
  scan fuel (iter_Prev compare_) (match n with O => 0 | S n => at_pos es n end) l = Done (rev (map ekey (take n es))).
Proof.
  intros Hok n fuel. revert n. induction fuel as [|fuel IH]; intros n Hf Hn; [lia|]. cbn [scan]. destruct n as [|n]; [done|].
  destruct (lookup_lt_is_Some_2 es n ltac:(lia)) as [e En]. destruct (iter_key_spec l es n e Hok En) as [-> ->]. cbn [mbind outcome_bind].
  rewrite (iter_Prev_spec l es n e Hok En). cbn [mbind outcome_bind]. rewrite IH by lia. cbn [mbind outcome_bind].
  rewrite (take_S_r es n e En), map_app. cbn [map]. by rewrite rev_app_distr.
Qed.

Lemma insert_all_ok ks : forall (l : SkipList K A) es, skip_ok (valid := valid) (cmp := cmp) l es -> Forall valid ks -> ForallOrdPairs (fun a b => cmp a b <> 0) ks ->
  Forall (fun e => Forall (fun k => cmp (ekey e) k <> 0) ks) es ->
  exists l' es', insert_all ks l = Done l' /\ skip_ok (valid := valid) (cmp := cmp) l' es' /\ map ekey es' ≡ₚ map ekey es ++ ks.
Proof.
  induction ks as [|k ks IH]; intros l es Hok Hv Hd Hes; cbn [insert_all]; [exists l, es; by rewrite app_nil_r|].
  apply Forall_cons in Hv as [Hk Hv]. inversion Hd as [|? ? Hdk Hd']; subst. destruct (splits_exists l es k Hok Hk) as (bs & rest & Hsp).
  destruct (Insert_spec l es k bs rest Hok Hk Hsp) as (l1 & p & h & -> & Hok1); [eapply Forall_impl; [exact Hes|]; by intros e [? _]%Forall_cons|].
  cbn [mbind outcome_bind]. pose proof (proj1 Hsp) as ->. destruct (IH l1 _ Hok1 Hv Hd') as (l' & es' & -> & Hok' & Hp).
  - assert (Hes' : Forall (fun e => Forall (fun k' => cmp (ekey e) k' <> 0) ks) (bs ++ rest)) by (eapply Forall_impl; [exact Hes|]; by intros e [_ ?]%Forall_cons).
    rewrite Forall_app, ?Forall_cons in *. tauto.
  - exists l', es'. split; [done|]. split; [done|]. rewrite Hp, !map_app. cbn [map ekey]. solve_Permutation.
Qed.

(** Which keys a split contains. *)
Lemma filter_split k bs rest : Forall (fun e => cmp (ekey e) k < 0) bs -> Forall (fun e => 0 <= cmp (ekey e) k) rest ->
  filter (fun x => 0 <= cmp x k) (map ekey (bs ++ rest)) = map (ekey (K := K)) rest.
Proof.
  intros Hbs Hrest. induction Hbs as [|e bs He _ IH]; cbn [app map].
  - induction Hrest as [|e rest He _ IH]; [done|]. cbn [map]. rewrite filter_cons, decide_True by done. by rewrite IH.
  - rewrite filter_cons, decide_False by lia. exact IH.
Qed.

Lemma contains_split l es k bs rest keys : skip_ok (valid := valid) (cmp := cmp) l es -> valid k -> splits (cmp := cmp) k es bs rest -> map ekey es ≡ₚ keys ->
  match rest with e :: _ => cmp k (ekey e) =? 0 | [] => false end = existsb (fun x => cmp k x =? 0) keys.
Proof.
  intros Hok Hk (Ees & Hbs & Hrest) Hp. apply eq_true_iff_eq. rewrite existsb_exists. pose proof (so_valid _ _ Hok) as Hv. rewrite Forall_forall in Hv, Hbs, Hrest. split.
  - destruct rest as [|e rest]; [done|]. intros E. exists (ekey e). split; [|done]. apply list_elem_of_In. rewrite <- Hp. apply list_elem_of_fmap_2. rewrite Ees, elem_of_app. right. by left.
  - intros (x & Hx & Ex%Z.eqb_eq). apply list_elem_of_In in Hx. rewrite <- Hp in Hx. apply list_elem_of_fmap_1 in Hx as (e' & -> & He').
    pose proof (cmp_zero_sym k (ekey e') Hk (Hv e' He') Ex) as Ex'. pose proof He' as Hin. rewrite Ees, elem_of_app in Hin.
    destruct Hin as [Hin|Hin]; [specialize (Hbs e' Hin); cbn in Hbs; lia|]. destruct rest as [|e rest]; [by apply elem_of_nil in Hin|].
    apply elem_of_cons in Hin as [->|Hin]; [by apply Z.eqb_eq|]. exfalso.
    pose proof (so_sorted _ _ Hok) as Hs. rewrite Ees in Hs. apply StronglySorted_app in Hs as (_ & _ & Hs). apply StronglySorted_inv in Hs as [_ Hs].
    rewrite Forall_forall in Hs. specialize (Hs e' Hin). unfold before in Hs. assert (He : e ∈ es) by (rewrite Ees, elem_of_app; right; by left).
    pose proof (cmp_lt_le (ekey e) (ekey e') k (Hv e He) (Hv e' He') Hk Hs (Z.eq_le_incl _ _ Ex')). specialize (Hrest e ltac:(by left)). cbn in Hrest. lia.
Qed.

(** C13: the skip list.  Inserting keys no two of which compare equal always
    succeeds, whatever heights are drawn, and gives the sorted list of them:
    iterating forwards visits the keys in order, backwards in reverse order,
    [Contains] finds exactly the inserted keys, and from [Seek] on the
    iterator visits exactly the keys not before the target. *)
Theorem skiplist_sorted (key0 : K) (a : A) (s : gset Z) keys : given a s -> Forall valid keys -> ForallOrdPairs (fun a b => cmp a b <> 0) keys ->
  exists l0 l sorted, new_SkipList key0 a = Done l0 /\ insert_all keys l0 = Done l /\ sorted ≡ₚ keys /\ StronglySorted (fun a b => cmp a b < 0) sorted /\
    (node ← iter_SeekToFirst l; scan (S (length keys)) iter_Next node l) = Done sorted /\
    (node ← iter_SeekToLast l; scan (S (length keys)) (iter_Prev compare_) node l) = Done (rev sorted) /\
    forall k, valid k -> Contains compare_ k l = Done (existsb (fun x => cmp k x =? 0) keys) /\
      (node ← iter_Seek compare_ k l; scan (S (length keys)) iter_Next node l) = Done (filter (fun x => 0 <= cmp x k) sorted).
Proof.
  intros Hg Hv Hd. destruct (new_SkipList_spec (valid := valid) (cmp := cmp) key0 a s Hg) as (l0 & E0 & Hok0).
  destruct (insert_all_ok keys l0 [] Hok0 Hv Hd ltac:(constructor)) as (l & es & E & Hok & Hp). cbn [map app] in Hp.
  assert (Hlen : length es = length keys) by (rewrite <- (length_map ekey es); by rewrite Hp).
  exists l0, l, (map ekey es). split; [done|]. split; [done|]. split; [done|].
  split; [pose proof (so_sorted _ _ Hok) as Hs; clear -Hs; induction Hs as [|e es Hs IH Hall]; [constructor|]; cbn [map]; constructor; [done|]; by apply Forall_fmap|].
  split; [rewrite (iter_SeekToFirst_spec l es Hok); cbn [mbind outcome_bind]; by rewrite (scan_next l es Hok) by lia|].
  split.
  { rewrite (iter_SeekToLast_spec l es Hok). cbn [mbind outcome_bind].
    assert (from_option addr 0 (last es) = match length es with O => 0 | S n => at_pos es n end) as -> by (rewrite last_lookup; by destruct es).
    rewrite (scan_prev l es Hok) by lia. by rewrite take_ge by lia. }
  intros k Hk. destruct (splits_exists l es k Hok Hk) as (bs & rest & Hsp). pose proof Hsp as (Ees & Hbs & Hrest). split.
  - rewrite (Contains_spec l es k bs rest Hok Hk Hsp). f_equal. by apply (contains_split l es k bs rest).
  - rewrite (iter_Seek_spec l es k bs rest Hok Hk Hsp). cbn [mbind outcome_bind]. rewrite (scan_next l es Hok) by lia. f_equal.
    by rewrite Ees, drop_app_length, filter_split.
Qed.
End Skip.

(** ** Write batches *)

Fixpoint build (us : list update) (b : WriteBatch) : outcome WriteBatch :=
  match us with [] => Done b | u :: us => b ← batch_add u b; build us b end.

Lemma build_spec us : Forall small_update us -> forall seq vs, zlen vs + zlen us < 2 ^ 31 -> build us (batch_of seq vs) = Done (batch_of seq (vs ++ us)).
Proof.
  induction 1 as [|u us Hu _ IH]; intros seq vs Hn; cbn [build length] in *; [by rewrite app_nil_r|].
  rewrite batch_add_spec by (done || lia). cbn [mbind outcome_bind]. rewrite IH by (rewrite length_app; cbn [length]; lia). by rewrite <- app_assoc.
Qed.

(** Write batches.  Puts and deletes into two batches, one appended to the
    other, and numbered: the result has the number and the count, and reading
    it calls the handler with exactly these updates, in order. *)
Theorem batch_roundtrip {H} `{Handler H} seq us vs (h : H) : Forall small_update (us ++ vs) -> zlen (us ++ vs) < 2 ^ 31 -> 0 <= seq < 2 ^ 64 ->
  exists b1 b2 b3 b, build us new_WriteBatch = Done b1 /\ build vs new_WriteBatch = Done b2 /\ batch_Append b1 b2 = Done b3 /\ SetSequence seq b3 = Done b /\
    Sequence b = Done seq /\ Count b = Done (zlen (us ++ vs)) /\ Iterate b h = (h ← run_updates (us ++ vs) h; Done (OK, h)).
Proof.
  intros Hall Hn Hs. pose proof Hall as [Hus Hvs]%Forall_app. pose proof Hn as Hn'. rewrite length_app in Hn'.
  change new_WriteBatch with (batch_of 0 []). exists (batch_of 0 us), (batch_of 0 vs), (batch_of 0 (us ++ vs)), (batch_of seq (us ++ vs)).
  split; [by rewrite build_spec by (done || cbn; lia)|]. split; [by rewrite build_spec by (done || cbn; lia)|].
  split; [apply batch_append_spec; lia|]. split; [apply set_sequence_batch|]. split; [by apply sequence_batch|]. split; [by apply count_batch|]. by apply iterate_batch.
Qed.

(** C39: what any bytes mean as a batch.  Every string of bytes, hostile ones
    included, reads exactly one way in the grammar [batch_written]: a list of
    updates and a status, which is OK or says that the string is shorter than
    its header, that a put or a delete is cut short or has a bad length, that a
    tag is unknown or that the count is wrong.  [Iterate] calls the handler
    with exactly these updates, in order, and returns that status, whatever the
    handler is. *)
Theorem batch_iterate_exact rep : Forall is_byte rep -> zlen rep < 2 ^ 31 ->
  exists us s, batch_written rep us s /\ (forall us' s', batch_written rep us' s' -> us' = us /\ s' = s) /\
    forall H `(Handler H) (h : H), Iterate (MkBatch rep) h = (h ← run_updates us h; Done (s, h)).
Proof.
  intros Hb Hn. destruct (batch_written_total rep Hb) as (us & s & Hw). exists us, s. split; [done|]. split.
  - intros us' s' Hw'. pose proof (iterate_exact rep us s ([] : list update) Hw Hb Hn) as E.
    rewrite (iterate_exact rep us' s' ([] : list update) Hw' Hb Hn), !record_updates in E. by injection E.
  - intros. by apply iterate_exact.
Qed.

(** ** Memtables *)

Section Lookup.
Context {c : Comparator} {valid : list Z -> Prop} {cmp : list Z -> list Z -> Z} `{!GoodComparator c valid cmp} {H : Type} `{GoodHeap H}.

Definition update_key (x : update) : list Z := match x with UPut k _ => k | UDelete k => k end.
Definition update_result (x : update) : get_result := match x with UPut _ v => GetValue v | UDelete _ => GetNotFound end.

(** The answer for a key at a snapshot: what the last update of the key does
    that is numbered up to the snapshot. *)
Definition answer (u : list Z) (s seq : Z) (us : list update) : get_result :=
  from_option update_result GetFalse (last (filter (fun x => cmp (update_key x) u = 0) (take (Z.to_nat (s - seq + 1)) us))).

Lemma visible_updates u s us : forall seq,
  map result_of (filter (visible (cmp := cmp) u s) (entries_of seq us)) =
  map update_result (filter (fun x => cmp (update_key x) u = 0) (take (Z.to_nat (s - seq + 1)) us)).
Proof.
  induction us as [|x us IH]; intros seq; cbn [entries_of]; [by rewrite take_nil|].
  destruct (Z.lt_ge_cases s seq) as [Hlt|Hge].
  - replace (Z.to_nat (s - seq + 1)) with 0%nat by lia. cbn [take]. rewrite filter_cons, decide_False by (intros [_ Hs]; destruct x; cbn in Hs; lia).
    rewrite IH. by replace (Z.to_nat (s - (seq + 1) + 1)) with 0%nat by lia.
  - replace (Z.to_nat (s - seq + 1)) with (S (Z.to_nat (s - (seq + 1) + 1))) by lia. cbn [take]. rewrite !filter_cons.
    assert (Hiff : visible (cmp := cmp) u s (entry_of seq x) <-> cmp (update_key x) u = 0) by (destruct x; unfold visible; cbn; lia).
    destruct (decide (visible u s (entry_of seq x))) as [Hv|Hv], (decide (cmp (update_key x) u = 0)); try tauto; cbn [map]; rewrite IH; [|done]. f_equal. by destruct x.
Qed.

Lemma latest_answer u s seq us : from_option result_of GetFalse (latest (cmp := cmp) u s (entries_of seq us)) = answer u s seq us.
Proof.
  unfold latest, answer. assert (Hl : forall X (f : X -> get_result) (l : list X), from_option f GetFalse (last l) = from_option id GetFalse (last (map f l)))
    by (intros X f l; rewrite fmap_last; by destruct (last l)).
  rewrite (Hl _ result_of), (Hl _ update_result). by rewrite visible_updates.
Qed.

(** C18: the memtable.  Fill a new memtable with a batch of updates and look a
    key up at any snapshot: [Get] finds the value or the deletion of the last
    update of that key at or before the snapshot, and nothing if there is
    none. *)
Theorem memtable_get_latest (h : H) seq us u s : Forall (good_update (valid := valid)) us -> 0 <= seq -> seq + zlen us - 1 <= kMaxSequenceNumber -> zlen us < 2 ^ 31 ->
  valid u -> zlen u + 8 < 2 ^ 32 -> 0 <= s <= kMaxSequenceNumber ->
  exists m0 m k, new_MemTable h = Done m0 /\ @InsertInto _ (memtable_table c) (batch_of seq us) m0 = Done (OK, m) /\ new_LookupKey u s = Done k /\
    Get c k m = Done (answer u s seq us).
Proof.
  intros Hus Hseq Hmax Hn Hu Hul Hs. destruct (new_MemTable_ok (valid := valid) (cmp := cmp) h) as (m0 & E0 & Hm0).
  destruct (InsertInto_spec us m0 [] seq Hus Hm0 ltac:(constructor) Hseq Hmax Hn) as (m & E & Hm & _). cbn [app] in Hm.
  assert (Hse : good_entry (valid := valid) (seek_entry u s)) by (repeat split; cbn; try done; try lia; by right).
  destruct (lookup_key_spec u s Hse) as (k & Ek & _). exists m0, m, k. split; [done|]. split; [done|]. split; [done|].
  rewrite (Get_latest m _ u s k Hm (entries_numbered us seq) Hse Ek). by rewrite latest_answer.
Qed.

(** Ask the newest memtable first, as a read does. *)
Fixpoint get_tables (k : LookupKey) (ts : list (MemTable H)) : outcome get_result :=
  match ts with
  | [] => Done GetFalse
  | t :: ts => r ← Get c k t; match r with GetFalse => get_tables k ts | _ => Done r end
  end.

Lemma get_tables_spec ts logs u s k : Forall2 (mem_ok (valid := valid) (cmp := cmp)) ts logs -> numbered (concat logs) ->
  good_entry (valid := valid) (seek_entry u s) -> new_LookupKey u s = Done k ->
  get_tables k (rev ts) = Done (from_option result_of GetFalse (latest (cmp := cmp) u s (concat logs))).
Proof.
  intros Hf. revert logs Hf. induction ts as [|t ts IH] using rev_ind; intros logs Hf Hnum Hse Ek.
  { apply Forall2_nil_inv_l in Hf as ->. done. }
  apply Forall2_app_inv_l in Hf as (logs' & l1 & Hf & H1' & ->). apply Forall2_cons_inv_l in H1' as (log & l2 & Hm & H2' & ->). apply Forall2_nil_inv_l in H2' as ->.
  rewrite concat_app in *. cbn [concat] in *. rewrite app_nil_r in *. unfold numbered in Hnum. apply StronglySorted_app in Hnum as (_ & Hn1 & Hn2).
  rewrite rev_unit. cbn [get_tables]. rewrite (Get_latest t log u s k Hm Hn2 Hse Ek). cbn [mbind outcome_bind]. unfold latest in *. rewrite filter_app, last_app.
  destruct (last (filter _ log)) as [e|]; cbn [from_option].
  - unfold result_of. by destruct (_ =? _).
  - by apply IH.
Qed.

(** ** Recovery *)

Context (o : Options) {D : Type} `{GoodLevel0 D H} {R : Type} `{GoodInput R} {W : Type} `{GoodFile W} (heap_at : nat -> H).

(** C1: recovery.  Log the batches of a database in its order and cut the file
    anywhere, as a crash does: [RecoverLogFile] succeeds, restores the last
    sequence number, and leaves memtables and tables in which every lookup at
    every snapshot is answered by exactly the updates whose batches were
    completely on disk; whether memtables fill up on the way, whether the log
    is reused, and whether checks are paranoid makes no difference. *)
Theorem recovery_exact uss seq (rs : list Slice) (dest : W) addr store : Forall sound_slice rs -> map bytes rs = map rep_ (batches seq uss) ->
  Forall (fun us => Forall (good_update (valid := valid)) us /\ zlen us < 2 ^ 31) uss -> 1 <= seq -> seq + zlen (concat uss) - 1 <= kMaxSequenceNumber ->
  contents dest = [] -> address addr 1 -> address store kBlockSize ->
  exists w0 w, new_Writer addr dest 0 = Done w0 /\ write_all rs w0 = Done (OK, w) /\
    forall (f : R) (d : D) last_log (reopen : option (W * Z * Z)) manifest, remaining f `prefix_of` contents (dest_ w) ->
    match reopen with Some (_, _, a) => address a 1 | None => True end ->
    exists k reused st ts, RecoverLogFile o c heap_at (S (length uss)) (S (length (contents (dest_ w)))) (inr f) store last_log reopen d (seq - 1) manifest =
        Done (OK, reused, Some st) /\
      max_sequence st = seq + zlen (concat (take k uss)) - 1 /\ tables (db st) ++ from_option_list (mem_table reused) = tables d ++ ts /\
      (forall u s lk, valid u -> zlen u + 8 < 2 ^ 32 -> 0 <= s <= kMaxSequenceNumber -> new_LookupKey u s = Done lk ->
         get_tables lk (rev ts) = Done (answer u s seq (concat (take k uss)))) /\
      (forall j wj, (j <= length rs)%nat -> write_all (take j rs) w0 = Done (OK, wj) ->
         (j <= k)%nat <-> zlen (contents (dest_ wj)) <= zlen (remaining f)).
Proof.
  intros Hrs Hbytes Huss Hseq Hmax Hempty Haddr Hstore. destruct (new_log dest addr Hempty Haddr) as (w0 & E0 & Hw0 & Hoff0 & Hc0).
  destruct (write_all_spec rs Hrs w0 Hw0) as (fss & w & E & _ & Hlog & Hfits & Hc & Hall). rewrite Hoff0, Hc0, Hbytes in *. cbn [app] in *.
  assert (Hlen : length rs = length uss) by (rewrite <- (length_map bytes rs), Hbytes, length_map; clear; revert seq; induction uss; intros; cbn; by rewrite ?IHuss).
  exists w0, w. split; [done|]. split; [done|]. intros f d last_log reopen manifest Hpre Hre. rewrite Hc in *.
  set (st0 := MkRecovery (H := H) OK (new_Reader f (Some []) true store 0) None 0 d (seq - 1) 0 manifest).
  assert (Hread : reading (reader st0) 0 (remaining f)).
  { split; try done. destruct Hpre as [tail Ht]. pose proof (frames_bytes _ _ Hfits) as Hb. rewrite Ht in Hb. by apply Forall_app in Hb as [? _]. }
  pose proof (frames_count (concat fss) 0) as Hcount.
  destruct (recover_loop_spec o heap_at (tables d) uss Huss seq fss (S (length uss)) (S (length (frames 0 (concat fss)))) st0 [] 0 (remaining f))
    as (k & st & Erec & Est & Hh & Hms & Hk & Hle & Hmx); try done; try lia.
  { exists [], [], []. rewrite app_nil_r. split; [done|]. split; [constructor|]. split; [done|]. split; [constructor|done]. }
  destruct (finish_spec o heap_at (tables d) st _ _ last_log reopen Hh Est Hre) as (reused & st' & ts & logs & Efin & Hms' & _ & Ht & Hf2 & Hcl). cbn [app] in Hcl.
  exists k, reused, st', ts. unfold RecoverLogFile. fold st0. rewrite Erec. cbn [mbind outcome_bind]. rewrite Efin. cbn [mbind outcome_bind].
  split; [done|]. split; [lia|]. split; [done|]. split.
  - intros u s lk Hu Hul Hs Elk. assert (Hse : good_entry (valid := valid) (seek_entry u s)) by (repeat split; cbn; try done; try lia; by right).
    rewrite (get_tables_spec ts logs u s lk Hf2) by (try done; rewrite Hcl; apply entries_numbered). by rewrite Hcl, latest_answer.
  - intros j wj Hj Ej. destruct (Hall j Hj) as (wj' & Ej' & Hcj). rewrite Ej in Ej'. injection Ej' as <-. rewrite Hcj. rewrite Hlen in Hj.
    assert (Hmono : (j <= k)%nat -> zlen (frames 0 (concat (take j fss))) <= zlen (frames 0 (concat (take k fss)))).
    { intros Hjk. rewrite <- (take_drop j (take k fss)), take_take, Nat.min_l, concat_app, frames_app, length_app by lia. lia. }
    split; [intros Hjk; specialize (Hmono Hjk); lia|]. intros Hjr. destruct (Nat.le_gt_cases j k); [done|]. specialize (Hmx j ltac:(lia)). lia.
Qed.
End Lookup.

(** ** Instances *)

(** A heap that puts every array behind all others. *)
Definition list_end (h : list region) : Z := fold_right (fun r acc => Z.max (fst r + snd r) acc) 0 h.
#[export] Instance list_heap : Heap (list region) := {| new_array n h := let p := 8 * (list_end h / 8) + 8 in (p, (p, n) :: h) |}.
#[export] Program Instance list_good : GoodHeap (list region) := {| arrays h := h |}.
Next Obligation.
  intros n h Hn p h'. cbn [new_array list_heap]. injection 1 as <- <-. assert (0 <= list_end h) by (clear; induction h as [|r h IH]; [done|]; unfold list_end in *; cbn [fold_right]; lia).
  pose proof (Z.div_mod (list_end h) 8 ltac:(lia)). pose proof (Z.mod_pos_bound (list_end h) 8 ltac:(lia)).
  split; [done|]. split; [lia|]. split; [rewrite Z.add_comm, Z.mul_comm, Z.mod_add by lia; done|]. apply Forall_forall. intros r Hr.
  assert (fst r + snd r <= list_end h) by (clear -Hr; induction Hr as [r h|r x h Hr IH]; unfold list_end in *; cbn [fold_right]; lia). unfold apart. cbn [fst snd]. lia.
Qed.

(** Tables that are kept as memtables. *)
#[export] Instance list_level0 {H} : Level0 (list (MemTable H)) H := {| WriteLevel0Table m d := Done (OK, d ++ [m]) |}.
#[export] Program Instance list_good_level0 {H} : GoodLevel0 (list (MemTable H)) H := {| tables d := d |}.
Next Obligation. by intros H m d; eexists. Qed.

#[export] Instance Z_ordered : Ordered (fun a b : Z => Done (a - b)) (fun _ => True) Z.sub.
Proof. split; intros; [done|lia|lia]. Qed.

Lemma separator_contract_witness :
  exists sep, FindShortestSeparator (InternalKeyComparator BytewiseComparator) ([97; 98; 99; 49] ++ EncodeFixed64 257) ([97; 98; 122] ++ EncodeFixed64 512) = Done sep /\
    zlen sep = 11 /\ zlen sep <= zlen ([97; 98; 99; 49] ++ EncodeFixed64 257).
Proof.
  destruct (separator_contract BytewiseComparator (Forall is_byte) lex ([97; 98; 99; 49] ++ EncodeFixed64 257) ([97; 98; 122] ++ EncodeFixed64 512)) as [(sep & E & _ & _ & _ & Hl) _].
  - apply bytewise_good.
  - apply valid_ikey_app; [lia|byte_list].
  - apply valid_ikey_app; [lia|byte_list].
  - vm_compute. reflexivity.
  - exists sep. split; [exact E|]. split; [vm_compute in E; injection E as <-; reflexivity|exact Hl].
Defined.

Lemma arena_disjoint_witness :
  exists ps a, allocate_all [(false, 5); (true, 16); (false, 2000); (true, 3000)] (new_Arena ([] : list region)) = Done (ps, a) /\ length ps = 4%nat /\
    ForallOrdPairs apart (rev (zip ps [5; 16; 2000; 3000])).
Proof.
  destruct (arena_disjoint ([] : list region) [(false, 5); (true, 16); (false, 2000); (true, 3000)]) as (ps & a & E & Hl & _ & Hap & _); [repeat (apply Forall_cons_2; [cbn [snd]; lia|]); apply Forall_nil_2|].
  exists ps, a. split; [exact E|]. split; [exact Hl|exact Hap].
Defined.

Lemma skiplist_sorted_witness :
  exists l0 l sorted, new_SkipList 0 (new_Arena ([] : list region)) = Done l0 /\ insert_all (compare_ := fun a b => Done (a - b)) [5; 1; 9; 3] l0 = Done l /\
    StronglySorted (fun a b => a - b < 0) sorted /\ sorted ≡ₚ [5; 1; 9; 3] /\ Contains (fun a b => Done (a - b)) 9 l = Done true /\ Contains (fun a b => Done (a - b)) 4 l = Done false.
Proof.
  destruct (skiplist_sorted (compare_ := fun a b => Done (a - b)) (valid := fun _ => True) (cmp := Z.sub) 0 (new_Arena ([] : list region)) ∅ [5; 1; 9; 3])
    as (l0 & l & sorted & E0 & E & Hp & Hs & _ & _ & Hc).
  - exists []. split; [apply new_arena_ok|reflexivity].
  - repeat constructor.
  - repeat constructor; discriminate.
  - exists l0, l, sorted. split; [exact E0|]. split; [exact E|]. split; [exact Hs|]. split; [exact Hp|].
    split; [exact (proj1 (Hc 9 I))|exact (proj1 (Hc 4 I))].
Defined.

Lemma batch_roundtrip_witness : exists b1 b2 b3 b, build [UPut [1] [2]] new_WriteBatch = Done b1 /\ build [UDelete [3]] new_WriteBatch = Done b2 /\
  batch_Append b1 b2 = Done b3 /\ SetSequence 7 b3 = Done b /\ Iterate b ([] : list update) = Done (OK, [UPut [1] [2]; UDelete [3]]).
Proof.
  destruct (batch_roundtrip 7 [UPut [1] [2]] [UDelete [3]] ([] : list update)) as (b1 & b2 & b3 & b & E1 & E2 & E3 & E & _ & _ & Hit).
  - repeat (apply Forall_cons_2; [cbn; lia|]). apply Forall_nil_2.
  - cbn. lia.
  - lia.
  - exists b1, b2, b3, b. split; [exact E1|]. split; [exact E2|]. split; [exact E3|]. split; [exact E|exact Hit].
Defined.

(** A put, a delete whose key is behind an overlong length, and a put whose
    value is cut short; the count does not come to be looked at. *)
Lemma batch_iterate_exact_witness :
  exists us s, batch_written (replicate 12 0 ++ [1; 1; 65; 1; 66; 0; 129; 0; 67; 1; 1; 68; 3; 69]) us s /\
    (forall us' s', batch_written (replicate 12 0 ++ [1; 1; 65; 1; 66; 0; 129; 0; 67; 1; 1; 68; 3; 69]) us' s' -> us' = us /\ s' = s) /\
    us = [UPut [65] [66]; UDelete [67]] /\ s = Corruption "bad WriteBatch Put".
Proof.
  destruct (batch_iterate_exact (replicate 12 0 ++ [1; 1; 65; 1; 66; 0; 129; 0; 67; 1; 1; 68; 3; 69])) as (us & s & Hw & Huniq & Hit).
  - apply (bool_decide_unpack _). vm_compute. done.
  - cbn. lia.
  - exists us, s. split; [exact Hw|]. split; [exact Huniq|]. specialize (Hit (list update) _ []).
    rewrite record_updates in Hit. vm_compute in Hit. injection Hit as <- <-. done.
Defined.

(** Three updates of one key, numbered 10, 11 and 12. *)
Definition Sample_updates : list update := [UPut [7] [1]; UPut [7] [2; 2]; UDelete [7]].

Lemma memtable_get_latest_witness :
  exists m0 m k, new_MemTable ([] : list region) = Done m0 /\ @InsertInto _ (memtable_table BytewiseComparator) (batch_of 10 Sample_updates) m0 = Done (OK, m) /\
    new_LookupKey [7] 11 = Done k /\ Get BytewiseComparator k m = Done (GetValue [2; 2]).
Proof.
  destruct (memtable_get_latest (c := BytewiseComparator) (valid := Forall is_byte) (cmp := lex) ([] : list region) 10 Sample_updates [7] 11) as (m0 & m & k & E0 & E & Ek & EG).
  - unfold Sample_updates. repeat (apply Forall_cons_2; [cbn [good_update]; repeat split; try (cbn; lia); byte_list|]). apply Forall_nil_2.
  - lia.
  - vm_compute. discriminate.
  - cbn. lia.
  - byte_list.
  - cbn. lia.
  - vm_compute. split; discriminate.
  - exists m0, m, k. split; [exact E0|]. split; [exact E|]. split; [exact Ek|exact EG].
Defined.

(** Two batches; the file is cut inside the second. *)
Definition Sample_batches : list (list update) := [[UPut [7] [1]; UPut [8] [3]]; [UDelete [7]]].
Definition Sample_log : list Slice :=
  [MkSlice 4096 [1; 0; 0; 0; 0; 0; 0; 0; 2; 0; 0; 0; 1; 1; 7; 1; 1; 1; 1; 8; 1; 3]; MkSlice 8192 [3; 0; 0; 0; 0; 0; 0; 0; 1; 0; 0; 0; 0; 1; 7]].

Lemma recovery_exact_witness :
  exists w0 w : Writer (list Z), new_Writer 64 [] 0 = Done w0 /\ write_all Sample_log w0 = Done (OK, w) /\ length (dest_ w) = 51%nat /\
    exists k reused st ts lk, RecoverLogFile (MkOptions true 4096 false) BytewiseComparator (fun _ => []) 3 52 (inr (take 50 (dest_ w))) 65536 true (None : option (list Z * Z * Z)) [] 0 false =
        Done (OK, reused, Some st) /\ tables (db st) ++ from_option_list (mem_table reused) = [] ++ ts /\ max_sequence st = 2 /\ k = 1%nat /\
      new_LookupKey [7] 100 = Done lk /\ get_tables (c := BytewiseComparator) lk (rev ts) = Done (GetValue [1]).
Proof.
  destruct (recovery_exact (c := BytewiseComparator) (valid := Forall is_byte) (cmp := lex) (MkOptions true 4096 false) (D := list (MemTable (list region))) (R := list Z)
    (fun _ => []) Sample_batches 1 Sample_log ([] : list Z) 64 65536) as (w0 & w & E0 & E & Hrec).
  - unfold Sample_log. repeat (apply Forall_cons_2; [split; [cbn [bytes]; byte_list|split; vm_compute; [discriminate|reflexivity]]|]). apply Forall_nil_2.
  - reflexivity.
  - unfold Sample_batches. repeat (apply Forall_cons_2; [split; [repeat (apply Forall_cons_2; [cbn [good_update]; repeat split; try (cbn; lia); byte_list|]); apply Forall_nil_2|cbn; lia]|]). apply Forall_nil_2.
  - lia.
  - vm_compute. discriminate.
  - reflexivity.
  - split; vm_compute; [discriminate|reflexivity].
  - split; vm_compute; [discriminate|reflexivity].
  - exists w0, w. split; [exact E0|]. split; [exact E|].
    assert (Hl : length (dest_ w) = 51%nat) by (vm_compute in E0; injection E0 as <-; vm_compute in E; injection E as <-; reflexivity). split; [exact Hl|].
    destruct (Hrec (take 50 (dest_ w)) [] true None false) as (k & reused & st & ts & Er & Hmax & Ht & Hget & Hk); [exists (drop 50 (dest_ w)); symmetry; apply take_drop|exact I|].
    change (contents (dest_ w)) with (dest_ w) in Er. rewrite Hl in Er.
    assert (Ek : k = 1%nat).
    { vm_compute in E0. injection E0 as <-.
      assert (H1 : (1 <= k)%nat) by (eapply Hk; [cbn; lia|vm_compute; reflexivity|change (remaining (take 50 (dest_ w))) with (take 50 (dest_ w)); rewrite length_take, Hl; vm_compute; discriminate]).
      assert (H2 : ~ (2 <= k)%nat).
      { intros Hle. eapply Hk in Hle; [|cbn; lia|vm_compute; reflexivity]. change (remaining (take 50 (dest_ w))) with (take 50 (dest_ w)) in Hle.
        rewrite length_take, Hl in Hle. vm_compute in Hle. by apply Hle. }
      lia. }
    subst k. assert (exists lk, new_LookupKey [7] 100 = Done lk) as (lk & Elk) by (eexists; vm_compute; reflexivity).
    exists 1%nat, reused, st, ts, lk. split; [exact Er|]. split; [exact Ht|]. split; [exact Hmax|]. split; [reflexivity|]. split; [exact Elk|].
    rewrite (Hget [7] 100 lk); [vm_compute; reflexivity|byte_list|cbn; lia|vm_compute; split; discriminate|exact Elk].
Defined.
