(* ===== verification/LdbIter.v ===== *)
(** * LdbIter: iterators (include/leveldb/iterator.h, table/iterator.cc,
    table/iterator_wrapper.h) and what an implementation promises.

    [Iterator] is the interface of iterator.h; a virtual call is a call through
    an instance.  [Cursor] is the promise: the iterator stands on a position of
    a fixed list of entries, the position after the last one being the state in
    which it is not valid. *)

From Stdlib Require Import ZifyBool Sorting.Sorted.
From stdpp Require Import base tactics numbers list gmap strings sorting.
From S2P Require Import Prelude LdbLog LdbKey.
Open Scope Z_scope.

Class Iterator (I : Type) : Type := MkIterator {
  vValid : I -> bool;
  vSeekToFirst : I -> outcome I;
  vSeekToLast : I -> outcome I;
  vSeek : list Z -> I -> outcome I;
  vNext : I -> outcome I;
  vPrev : I -> outcome I;
  vkey : I -> outcome (list Z);
  vvalue : I -> outcome (list Z);
  vstatus : I -> Status;
}.

Lemma sorted_lookup {A} (R : A -> A -> Prop) l : StronglySorted R l -> forall i j x y, (i < j)%nat -> l !! i = Some x -> l !! j = Some y -> R x y.
Proof.
  induction 1 as [|a l Hl IH Ha]; intros i j x y Hij Ei Ej; [done|]. destruct j as [|j]; [lia|]. cbn in Ej. destruct i as [|i]; cbn in Ei.
  - injection Ei as <-. apply (proj1 (Forall_forall _ _) Ha). by apply list_elem_of_lookup_2 with j.
  - apply (IH i j); [lia|done..].
Qed.

(** ** What an iterator promises *)

Abbreviation entry := (list Z * list Z)%type.

(** The index of the first entry that is not before the target. *)
Fixpoint lower_bound (cmp : list Z -> list Z -> Z) (target : list Z) (es : list entry) : nat :=
  match es with
  | [] => 0%nat
  | e :: es => if cmp e.1 target <? 0 then S (lower_bound cmp target es) else 0%nat
  end.

(** The index reached from [i] by a step back. *)
Definition pred_index (es : list entry) (i : nat) : nat := match i with O => length es | S i => i end.

Class Cursor {I : Type} `{!Iterator I} (valid : list Z -> Prop) (cmp : list Z -> list Z -> Z) (es : list entry) (at_ : I -> nat -> Prop) : Prop := {
  cur_range it i : at_ it i -> (i <= length es)%nat;
  cur_valid it i : at_ it i -> vValid it = bool_decide (i < length es)%nat;
  cur_entry it i e : at_ it i -> es !! i = Some e -> vkey it = Done e.1 /\ vvalue it = Done e.2;
  cur_status it i : at_ it i -> vstatus it = OK;
  cur_first it i : at_ it i -> exists it', vSeekToFirst it = Done it' /\ at_ it' 0%nat;
  cur_last it i : at_ it i -> exists it', vSeekToLast it = Done it' /\ at_ it' (length es - 1)%nat;
  cur_seek it i target : at_ it i -> valid target -> exists it', vSeek target it = Done it' /\ at_ it' (lower_bound cmp target es);
  cur_next it i : at_ it i -> (i < length es)%nat -> exists it', vNext it = Done it' /\ at_ it' (S i);
  cur_prev it i : at_ it i -> (i < length es)%nat -> exists it', vPrev it = Done it' /\ at_ it' (pred_index es i);
}.

(** ** Scanning *)

Section Scan.
Context {I : Type} `{!Iterator I}.

(** [for (...; iter->Valid(); iter->Next())], collecting the entries. *)
Fixpoint scan_forward (fuel : nat) (it : I) : outcome (list entry) :=
  match fuel with
  | O => NoFuel
  | S fuel =>
    if vValid it then
      k ← vkey it; v ← vvalue it; it ← vNext it; rest ← scan_forward fuel it; Done ((k, v) :: rest)
    else Done []
  end.

Fixpoint scan_backward (fuel : nat) (it : I) : outcome (list entry) :=
  match fuel with
  | O => NoFuel
  | S fuel =>
    if vValid it then
      k ← vkey it; v ← vvalue it; it ← vPrev it; rest ← scan_backward fuel it; Done ((k, v) :: rest)
    else Done []
  end.

Context {valid : list Z -> Prop} {cmp : list Z -> list Z -> Z} {es : list entry} {at_ : I -> nat -> Prop} `{!Cursor valid cmp es at_}.

Lemma scan_forward_spec fuel : forall it i, at_ it i -> (length es - i < fuel)%nat -> scan_forward fuel it = Done (drop i es).
Proof.
  induction fuel as [|fuel IH]; intros it i Hat Hf; [lia|]. cbn [scan_forward]. rewrite (cur_valid it i Hat).
  case_bool_decide as Hi; [|by rewrite drop_ge by lia]. destruct (lookup_lt_is_Some_2 es i Hi) as [e Ee].
  destruct (cur_entry it i e Hat Ee) as [-> ->]. destruct (cur_next it i Hat Hi) as (it' & -> & Hat'). cbn [mbind outcome_bind].
  rewrite (IH it' (S i) Hat') by lia. cbn [mbind outcome_bind]. rewrite (drop_S es e i Ee). by destruct e.
Qed.

Lemma scan_backward_spec fuel : forall it i, at_ it i -> (i < length es)%nat -> (S i < fuel)%nat -> scan_backward fuel it = Done (reverse (take (S i) es)).
Proof.
  induction fuel as [|fuel IH]; intros it i Hat Hi Hf; [lia|]. cbn [scan_backward]. rewrite (cur_valid it i Hat).
  rewrite bool_decide_true by done. destruct (lookup_lt_is_Some_2 es i Hi) as [e Ee].
  destruct (cur_entry it i e Hat Ee) as [-> ->]. destruct (cur_prev it i Hat Hi) as (it' & -> & Hat'). cbn [mbind outcome_bind].
  rewrite (take_S_r es i e Ee), reverse_snoc. destruct i as [|i]; cbn [pred_index] in Hat'.
  - destruct fuel as [|fuel]; [lia|]. cbn [scan_backward]. rewrite (cur_valid it' _ Hat'), bool_decide_false by lia. cbn. by destruct e.
  - rewrite (IH it' i Hat') by lia. cbn [mbind outcome_bind]. by destruct e.
Qed.

(** A scan from one end reads every entry. *)
Lemma scan_all it i fuel : at_ it i -> (length es < fuel)%nat ->
  (it ← vSeekToFirst it; scan_forward fuel it) = Done es /\ (it ← vSeekToLast it; scan_backward fuel it) = Done (reverse es).
Proof.
  intros Hat Hf. destruct (cur_first it i Hat) as (it1 & -> & H1). destruct (cur_last it i Hat) as (it2 & -> & H2). cbn [mbind outcome_bind].
  split; [by rewrite (scan_forward_spec fuel it1 0 H1) by lia|]. destruct (decide (length es = 0%nat)) as [E0|E0].
  - destruct fuel; [lia|]. cbn [scan_backward]. rewrite (cur_valid it2 _ H2), bool_decide_false by lia. by apply nil_length_inv in E0 as ->.
  - rewrite (scan_backward_spec fuel it2 _ H2) by lia. by rewrite take_ge by lia.
Qed.
End Scan.

(** ** Lower bounds *)

Lemma lower_bound_le cmp target es : (lower_bound cmp target es <= length es)%nat.
Proof. induction es as [|e es IH]; [done|]. cbn. case_match; lia. Qed.

Lemma lower_bound_before cmp target es : forall i e, (i < lower_bound cmp target es)%nat -> es !! i = Some e -> cmp e.1 target < 0.
Proof.
  induction es as [|d es IH]; intros i e Hi Ee; [done|]. cbn in Hi. destruct (Z.ltb_spec (cmp d.1 target) 0); [|lia].
  destruct i as [|i]; cbn in Ee; [by injection Ee as <-|]. apply (IH i); [lia|done].
Qed.

Lemma lower_bound_at cmp target es : forall e, es !! lower_bound cmp target es = Some e -> 0 <= cmp e.1 target.
Proof.
  induction es as [|d es IH]; intros e Ee; [done|]. cbn in Ee. destruct (Z.ltb_spec (cmp d.1 target) 0); cbn in Ee; [by apply IH|by injection Ee as <-].
Qed.

(** The two facts determine it. *)
Lemma lower_bound_unique cmp target es n : (n <= length es)%nat ->
  (forall i e, (i < n)%nat -> es !! i = Some e -> cmp e.1 target < 0) -> (forall e, es !! n = Some e -> 0 <= cmp e.1 target) ->
  n = lower_bound cmp target es.
Proof.
  intros Hn Hlt Hge. pose proof (lower_bound_le cmp target es) as Hl. destruct (Nat.lt_trichotomy n (lower_bound cmp target es)) as [H|[H|H]]; [|done|].
  - destruct (lookup_lt_is_Some_2 es n) as [e Ee]; [lia|]. specialize (Hge e Ee). pose proof (lower_bound_before cmp target es n e H Ee). lia.
  - destruct (lookup_lt_is_Some_2 es (lower_bound cmp target es)) as [e Ee]; [lia|]. specialize (Hlt _ e H Ee). pose proof (lower_bound_at cmp target es e Ee). lia.
Qed.
