(* ===== verification/LdbBlock.v ===== *)
(** * LdbBlock: blocks of a table (table/block_builder.cc, table/block.cc).

    A block is a sequence of entries, in order, whose keys share prefixes with
    the key before; every few entries a restart point stores its key in full.
    The offsets of the restart points follow the entries.  Pointers into a
    block are offsets from its start; those past its end are only compared. *)

From Stdlib Require Import ZifyBool.
From stdpp Require Import base tactics numbers list gmap strings.
From S2P Require Import Prelude PbOStream PbWire LdbCoding LdbLog LdbKey LdbIter.
Open Scope Z_scope.

(** ** block_builder.cc *)

Section Builder.
(** [options_->block_restart_interval] and [options_->comparator] *)
Context (block_restart_interval : Z) (c : Comparator).

Record BlockBuilder : Type := MkBuilder {
  bb_buffer : list Z;
  bb_restarts : list Z;
  bb_counter : Z;
  bb_finished : bool;
  bb_last_key : list Z;
}.

Definition new_BlockBuilder : outcome BlockBuilder :=
  if block_restart_interval <? 1 then Undef else Done (MkBuilder [] [0] 0 false []).

Definition bb_Reset (b : BlockBuilder) : BlockBuilder := MkBuilder [] [0] 0 false [].

Definition CurrentSizeEstimate (b : BlockBuilder) : Z := zlen (bb_buffer b) + zlen (bb_restarts b) * 4 + 4.
Definition bb_empty (b : BlockBuilder) : bool := zlen (bb_buffer b) =? 0.

Definition bb_Finish (b : BlockBuilder) : list Z * BlockBuilder :=
  let buffer := fold_left PutFixed32 (bb_restarts b) (bb_buffer b) in
  let buffer := PutFixed32 buffer (u32 (zlen (bb_restarts b))) in
  (buffer, MkBuilder buffer (bb_restarts b) (bb_counter b) true (bb_last_key b)).

(** [buffer_.empty() || options_->comparator->Compare(key, last_key_piece) > 0] *)
Definition assert_larger (key : list Z) (b : BlockBuilder) : outcome unit :=
  if bb_empty b then Done tt else r ← Compare c key (bb_last_key b); if 0 <? r then Done tt else Undef.

Definition bb_Add (key value : list Z) (b : BlockBuilder) : outcome BlockBuilder :=
  if bb_finished b then Undef
  else if block_restart_interval <? bb_counter b then Undef
  else
    _ ← assert_larger key b;
    let '(shared, restarts, counter) :=
      if bb_counter b <? block_restart_interval then (find_diff (bb_last_key b) key, bb_restarts b, bb_counter b)
      else (0%nat, bb_restarts b ++ [u32 (zlen (bb_buffer b))], 0) in
    let non_shared := zlen key - Z.of_nat shared in
    let buffer := PutVarint32 (bb_buffer b) (u32 (Z.of_nat shared)) in
    let buffer := PutVarint32 buffer (u32 non_shared) in
    let buffer := PutVarint32 buffer (u32 (zlen value)) in
    let buffer := buffer ++ drop shared key ++ value in
    let last_key := take shared (bb_last_key b) ++ drop shared key in
    if bool_decide (last_key = key) then Done (MkBuilder buffer restarts (counter + 1) false last_key) else Undef.
End Builder.

(** ** block.cc *)

(** [Block]: the contents, or none when they were found to be too small, and
    the offset of the restart array. *)
Record Block : Type := MkBlock { data_ : list Z; size_ : Z; restart_offset_ : Z }.

Definition NumRestarts (data : list Z) (size : Z) : outcome Z :=
  if size <? 4 then Undef else DecodeFixed32 (drop (Z.to_nat (size - 4)) data).

Definition new_Block (contents : list Z) : outcome Block :=
  let size := zlen contents in
  if size <? 4 then Done (MkBlock contents 0 0)
  else
    let max_restarts_allowed := (size - 4) / 4 in
    n ← NumRestarts contents size;
    if max_restarts_allowed <? n then Done (MkBlock contents 0 0)
    else Done (MkBlock contents size (u32 (size - u32 (1 + n) * 4))).

(** [None] is the null pointer; otherwise the three numbers and the offset
    of the key. *)
Definition DecodeEntry (data : list Z) (p limit : Z) : outcome (option (Z * Z * Z * Z)) :=
  if limit - p <? 3 then Done None
  else
    let bs := take (Z.to_nat (limit - p)) (drop (Z.to_nat p) data) in
    shared ← demand (bs !! 0%nat);
    non_shared ← demand (bs !! 1%nat);
    value_length ← demand (bs !! 2%nat);
    let parsed :=
      if Z.lor (Z.lor shared non_shared) value_length <? 128 then Some (shared, non_shared, value_length, drop 3 bs)
      else
        '(shared, bs) ← GetVarint32Ptr bs;
        '(non_shared, bs) ← GetVarint32Ptr bs;
        '(value_length, bs) ← GetVarint32Ptr bs;
        Some (shared, non_shared, value_length, bs) in
    match parsed with
    | None => Done None
    | Some (shared, non_shared, value_length, bs) =>
      if u32 (zlen bs) <? u32 (non_shared + value_length) then Done None
      else Done (Some (shared, non_shared, value_length, limit - zlen bs))
    end.

(** [Block::Iter].  [value_] is an offset and a length, [None] when it points
    outside the block. *)
Record Iter : Type := MkIter {
  it_comparator : Comparator;
  it_data : list Z;
  restarts_ : Z;
  num_restarts_ : Z;
  current_ : Z;
  restart_index_ : Z;
  key_ : list Z;
  value_ : option (Z * Z);
  status_ : Status;
}.

Definition new_Iter (c : Comparator) (data : list Z) (restarts num_restarts : Z) : outcome Iter :=
  if num_restarts <=? 0 then Undef else Done (MkIter c data restarts num_restarts restarts num_restarts [] None OK).

Definition set_pos (current restart_index : Z) (it : Iter) : Iter :=
  MkIter (it_comparator it) (it_data it) (restarts_ it) (num_restarts_ it) current restart_index (key_ it) (value_ it) (status_ it).
Definition set_entry (key : list Z) (value : option (Z * Z)) (it : Iter) : Iter :=
  MkIter (it_comparator it) (it_data it) (restarts_ it) (num_restarts_ it) (current_ it) (restart_index_ it) key value (status_ it).
Definition set_status (s : Status) (it : Iter) : Iter :=
  MkIter (it_comparator it) (it_data it) (restarts_ it) (num_restarts_ it) (current_ it) (restart_index_ it) (key_ it) (value_ it) s.

(** The bytes from an offset on, of a given length, if they are in the block. *)
Definition block_bytes (data : list Z) (off len : Z) : outcome (list Z) :=
  if (0 <=? off) && (0 <=? len) && (off + len <=? zlen data) then Done (take (Z.to_nat len) (drop (Z.to_nat off) data)) else Undef.

Definition it_Valid (it : Iter) : bool := current_ it <? restarts_ it.
Definition it_key (it : Iter) : outcome (list Z) := if it_Valid it then Done (key_ it) else Undef.
Definition it_value (it : Iter) : outcome (list Z) :=
  if it_Valid it then '(off, len) ← demand (value_ it); block_bytes (it_data it) off len else Undef.

Definition NextEntryOffset (it : Iter) : outcome Z := '(off, len) ← demand (value_ it); Done (u32 (off + len)).

Definition GetRestartPoint (index : Z) (it : Iter) : outcome Z :=
  if num_restarts_ it <=? index then Undef else DecodeFixed32 (drop (Z.to_nat (restarts_ it + index * 4)) (it_data it)).

Definition SeekToRestartPoint (index : Z) (it : Iter) : outcome Iter :=
  offset ← GetRestartPoint index it;
  Done (set_entry [] (Some (offset, 0)) (set_pos (current_ it) index it)).

Definition CorruptionError (it : Iter) : Iter :=
  set_entry [] None (set_status (Corruption "bad entry in block") (set_pos (restarts_ it) (num_restarts_ it) it)).

(** [while (restart_index_ + 1 < num_restarts_ && ...) ++restart_index_] *)
Fixpoint advance_restart (fuel : nat) (it : Iter) : outcome Iter :=
  match fuel with
  | O => NoFuel
  | S fuel =>
    if u32 (restart_index_ it + 1) <? num_restarts_ it then
      offset ← GetRestartPoint (u32 (restart_index_ it + 1)) it;
      if offset <? current_ it then advance_restart fuel (set_pos (current_ it) (u32 (restart_index_ it + 1)) it) else Done it
    else Done it
  end.

Definition ParseNextKey (it : Iter) : outcome (bool * Iter) :=
  current ← NextEntryOffset it;
  let it := set_pos current (restart_index_ it) it in
  if restarts_ it <=? current then Done (false, set_pos (restarts_ it) (num_restarts_ it) it)
  else
    entry ← DecodeEntry (it_data it) current (restarts_ it);
    match entry with
    | None => Done (false, CorruptionError it)
    | Some (shared, non_shared, value_length, p) =>
      if zlen (key_ it) <? shared then Done (false, CorruptionError it)
      else
        delta ← block_bytes (it_data it) p non_shared;
        let it := set_entry (take (Z.to_nat shared) (key_ it) ++ delta) (Some (p + non_shared, value_length)) it in
        it ← advance_restart (S (Z.to_nat (num_restarts_ it))) it;
        Done (true, it)
    end.

Definition it_Next (it : Iter) : outcome Iter := if it_Valid it then '(_, it) ← ParseNextKey it; Done it else Undef.

(** [while (GetRestartPoint(restart_index_) >= original)]; [None] when the first
    restart point was reached. *)
Fixpoint prev_restart (fuel : nat) (original : Z) (it : Iter) : outcome (option Iter) :=
  match fuel with
  | O => NoFuel
  | S fuel =>
    offset ← GetRestartPoint (restart_index_ it) it;
    if original <=? offset then
      if restart_index_ it =? 0 then Done None else prev_restart fuel original (set_pos (current_ it) (restart_index_ it - 1) it)
    else Done (Some it)
  end.

(** [do {} while (ParseNextKey() && NextEntryOffset() < original)], which also
    moves to the last entry. *)
Fixpoint skip_entries (fuel : nat) (original : Z) (it : Iter) : outcome Iter :=
  match fuel with
  | O => NoFuel
  | S fuel =>
    '(more, it) ← ParseNextKey it;
    if more : bool then
      off ← NextEntryOffset it;
      if off <? original then skip_entries fuel original it else Done it
    else Done it
  end.

(** Every entry takes bytes of the block. *)
Definition entry_fuel (it : Iter) : nat := S (length (it_data it)).

Definition it_Prev (it : Iter) : outcome Iter :=
  if it_Valid it then
    let original := current_ it in
    found ← prev_restart (S (Z.to_nat (num_restarts_ it))) original it;
    match found with
    | None => Done (set_pos (restarts_ it) (num_restarts_ it) it)
    | Some it => it ← SeekToRestartPoint (restart_index_ it) it; skip_entries (entry_fuel it) original it
    end
  else Undef.

(** The binary search; [None] when it met a bad entry. *)
Fixpoint search_restarts (fuel : nat) (target : list Z) (left right : Z) (it : Iter) : outcome (option Z) :=
  match fuel with
  | O => NoFuel
  | S fuel =>
    if left <? right then
      let mid := u32 (left + right + 1) / 2 in
      region_offset ← GetRestartPoint mid it;
      entry ← DecodeEntry (it_data it) region_offset (restarts_ it);
      match entry with
      | None => Done None
      | Some (shared, non_shared, _, p) =>
        if negb (shared =? 0) then Done None
        else
          mid_key ← block_bytes (it_data it) p non_shared;
          r ← Compare (it_comparator it) mid_key target;
          if r <? 0 then search_restarts fuel target mid right it else search_restarts fuel target left (u32 (mid - 1)) it
      end
    else Done (Some left)
  end.

Fixpoint seek_linear (fuel : nat) (target : list Z) (it : Iter) : outcome Iter :=
  match fuel with
  | O => NoFuel
  | S fuel =>
    '(more, it) ← ParseNextKey it;
    if more : bool then
      r ← Compare (it_comparator it) (key_ it) target;
      if 0 <=? r then Done it else seek_linear fuel target it
    else Done it
  end.

Definition it_Seek (target : list Z) (it : Iter) : outcome Iter :=
  found ← search_restarts (S (Z.to_nat (num_restarts_ it))) target 0 (num_restarts_ it - 1) it;
  match found with
  | None => Done (CorruptionError it)
  | Some index => it ← SeekToRestartPoint index it; seek_linear (entry_fuel it) target it
  end.

Definition it_SeekToFirst (it : Iter) : outcome Iter :=
  it ← SeekToRestartPoint 0 it; '(_, it) ← ParseNextKey it; Done it.
Definition it_SeekToLast (it : Iter) : outcome Iter :=
  it ← SeekToRestartPoint (num_restarts_ it - 1) it; skip_entries (entry_fuel it) (restarts_ it) it.

(** ** iterator.cc *)

(** What an [Iterator*] made here points to: an [EmptyIterator] of iterator.cc,
    or an iterator of a block. *)
Inductive block_iterator : Type :=
| EmptyIterator (s : Status)
| BlockIterator (it : Iter).

Definition NewEmptyIterator : block_iterator := EmptyIterator OK.
Definition NewErrorIterator (s : Status) : block_iterator := EmptyIterator s.

Definition on_block (f : Iter -> outcome Iter) (empty : outcome block_iterator) (b : block_iterator) : outcome block_iterator :=
  match b with EmptyIterator _ => empty | BlockIterator it => BlockIterator <$> f it end.

#[export] Instance block_iter : Iterator block_iterator := {|
  vValid b := match b with EmptyIterator _ => false | BlockIterator it => it_Valid it end;
  vSeekToFirst b := on_block it_SeekToFirst (Done b) b;
  vSeekToLast b := on_block it_SeekToLast (Done b) b;
  vSeek target b := on_block (it_Seek target) (Done b) b;
  vNext b := on_block it_Next Undef b;
  vPrev b := on_block it_Prev Undef b;
  vkey b := match b with EmptyIterator _ => Undef | BlockIterator it => it_key it end;
  vvalue b := match b with EmptyIterator _ => Undef | BlockIterator it => it_value it end;
  vstatus b := match b with EmptyIterator s => s | BlockIterator it => status_ it end;
|}.

(** [Block::NewIterator] *)
Definition NewIterator (c : Comparator) (b : Block) : outcome block_iterator :=
  if size_ b <? 4 then Done (NewErrorIterator (Corruption "bad block contents"))
  else
    num_restarts ← NumRestarts (data_ b) (size_ b);
    if num_restarts =? 0 then Done NewEmptyIterator
    else BlockIterator <$> new_Iter c (data_ b) (restart_offset_ b) num_restarts.
