(* ===== verification/LdbBlockSpec.v ===== *)
(** * LdbBlockSpec: a block represents a list of items.

    An item is an entry with the number of bytes its key shares with the key
    before.  The layout of a block is given by its items and the indices of
    those at restart points; what the iterator does is proved for every layout,
    what the builder does is one layout. *)

From Stdlib Require Import ZifyBool Sorting.Sorted.
From stdpp Require Import base tactics numbers list gmap strings sorting.
From S2P Require Import Prelude PbOStream PbWire LdbCoding LdbLog LdbKey LdbKeySpec LdbBatch LdbBlock.
Open Scope Z_scope.

Record item : Type := Item { ishared : nat; ikey : list Z; ivalue : list Z }.

Definition item_bytes (x : item) : list Z :=
  wire_varint (Z.of_nat (ishared x)) ++ wire_varint (zlen (ikey x) - Z.of_nat (ishared x)) ++ wire_varint (zlen (ivalue x)) ++ drop (ishared x) (ikey x) ++ ivalue x.

(** The item's key from the key before. *)
Definition follows (prev : list Z) (x : item) : Prop := (ishared x <= length prev)%nat /\ take (ishared x) prev ++ drop (ishared x) (ikey x) = ikey x.

Definition entries_bytes (xs : list item) : list Z := concat (map item_bytes xs).
(** The offset of the [i]th item. *)
Definition off (xs : list item) (i : nat) : Z := zlen (entries_bytes (take i xs)).
Definition restarts_bytes (xs : list item) (rp : list nat) : list Z :=
  concat (map (fun i => EncodeFixed32 (off xs i)) rp) ++ EncodeFixed32 (zlen rp).
Definition block_of (xs : list item) (rp : list nat) : list Z := entries_bytes xs ++ restarts_bytes xs rp.

Record layout (xs : list item) (rp : list nat) : Prop := {
  la_first : rp !! 0%nat = Some 0%nat;
  la_sorted : StronglySorted lt rp;
  la_range : Forall (fun i => (i < length xs)%nat \/ xs = [] /\ i = 0%nat) rp;
  la_full : forall i x, i ∈ rp -> xs !! i = Some x -> ishared x = 0%nat;
  la_follows : forall i x y, xs !! i = Some x -> xs !! S i = Some y -> follows (ikey x) y;
  la_bytes : Forall (fun x => Forall is_byte (ikey x) /\ Forall is_byte (ivalue x)) xs;
  la_size : zlen (block_of xs rp) < 2 ^ 32;
}.

(** ** Offsets *)

Lemma item_length x : (3 <= length (item_bytes x))%nat.
Proof. unfold item_bytes. rewrite !length_app. pose proof (wire_varint_length (Z.of_nat (ishared x))). pose proof (wire_varint_length (zlen (ikey x) - Z.of_nat (ishared x))). pose proof (wire_varint_length (zlen (ivalue x))). lia. Qed.

Lemma entries_bytes_app xs ys : entries_bytes (xs ++ ys) = entries_bytes xs ++ entries_bytes ys.
Proof. unfold entries_bytes. by rewrite map_app, concat_app. Qed.

Lemma off_S xs i x : xs !! i = Some x -> off xs (S i) = off xs i + zlen (item_bytes x).
Proof.
  intros E. unfold off. rewrite (take_S_r xs i x E), entries_bytes_app, length_app. unfold entries_bytes at 2. cbn [map concat]. rewrite app_nil_r. lia.
Qed.

Lemma off_mono xs i j : (i <= j)%nat -> off xs i <= off xs j.
Proof.
  intros Hij. unfold off. rewrite <- (take_drop i (take j xs)), take_take, Nat.min_l, entries_bytes_app, length_app by lia. lia.
Qed.

Lemma off_lt xs i j : (i < j)%nat -> (i < length xs)%nat -> off xs i < off xs j.
Proof.
  intros Hij Hi. destruct (lookup_lt_is_Some_2 xs i Hi) as [x Ex]. pose proof (off_S xs i x Ex). pose proof (item_length x). pose proof (off_mono xs (S i) j ltac:(lia)). lia.
Qed.

Lemma off_end xs : off xs (length xs) = zlen (entries_bytes xs).
Proof. unfold off. by rewrite take_ge by lia. Qed.

Lemma off_nonneg xs i : 0 <= off xs i.
Proof. unfold off. lia. Qed.

Lemma items_le xs : (length xs <= length (entries_bytes xs))%nat.
Proof.
  induction xs as [|x xs IH]; [done|]. unfold entries_bytes in *. cbn [map concat length]. rewrite length_app. pose proof (item_length x). lia.
Qed.

(** The block around an item. *)
Lemma block_at xs rp i x : xs !! i = Some x ->
  block_of xs rp = entries_bytes (take i xs) ++ item_bytes x ++ entries_bytes (drop (S i) xs) ++ restarts_bytes xs rp.
Proof.
  intros E. unfold block_of. rewrite <- (take_drop_middle xs i x E) at 1. rewrite entries_bytes_app. unfold entries_bytes at 2. cbn [map concat]. by rewrite <- !app_assoc.
Qed.

Lemma drop_at xs rp i x : xs !! i = Some x ->
  drop (Z.to_nat (off xs i)) (block_of xs rp) = item_bytes x ++ entries_bytes (drop (S i) xs) ++ restarts_bytes xs rp.
Proof. intros E. rewrite (block_at xs rp i x E). unfold off. by rewrite Nat2Z.id, drop_app_length. Qed.

(** ** Decoding an entry *)

Lemma lor_ge a b : 0 <= a -> 0 <= b -> a <= Z.lor a b /\ b <= Z.lor a b.
Proof.
  intros Ha Hb. assert (H : forall x y, 0 <= x -> 0 <= y -> x <= Z.lor x y).
  { intros x y Hx Hy. assert (Z.lor x y = x + Z.ldiff y x) as ->; [|pose proof (proj2 (Z.ldiff_nonneg y x) (or_introl Hy)); lia].
    rewrite Z.add_nocarry_lxor; apply Z.bits_inj'; intros n Hn;
      rewrite ?Z.lxor_spec, ?Z.lor_spec, ?Z.land_spec, !Z.ldiff_spec, ?Z.bits_0; by destruct (Z.testbit x n), (Z.testbit y n). }
  split; [by apply H|rewrite Z.lor_comm; by apply H].
Qed.

Lemma get_byte b rest : 0 <= b < 128 -> GetVarint32Ptr (b :: rest) = Some (b, rest).
Proof. intros Hb. cbn [GetVarint32Ptr]. by rewrite (proj2 (digit_last b Hb)). Qed.

(** The three numbers at the front of an entry, with no shortcut. *)
Definition three_varints (bs : list Z) : option (Z * Z * Z * list Z) :=
  '(shared, bs) ← GetVarint32Ptr bs;
  '(non_shared, bs) ← GetVarint32Ptr bs;
  '(value_length, bs) ← GetVarint32Ptr bs;
  Some (shared, non_shared, value_length, bs).

(** The fast path reads what the general one does. *)
Lemma fast_path a b c rest : is_byte a -> is_byte b -> is_byte c ->
  (if Z.lor (Z.lor a b) c <? 128 then Some (a, b, c, rest) else three_varints (a :: b :: c :: rest)) = three_varints (a :: b :: c :: rest).
Proof.
  intros Ha Hb Hc. destruct (Z.ltb_spec (Z.lor (Z.lor a b) c) 128) as [Hlt|]; [|done]. unfold is_byte in *.
  destruct (lor_ge a b); [lia..|]. destruct (lor_ge (Z.lor a b) c); [lia..|]. unfold three_varints.
  do 3 (rewrite get_byte by lia; cbn [mbind option_bind]). done.
Qed.

Lemma DecodeEntry_parse data p limit :
  Forall is_byte (take (Z.to_nat (limit - p)) (drop (Z.to_nat p) data)) -> (3 <= length (take (Z.to_nat (limit - p)) (drop (Z.to_nat p) data)))%nat ->
  DecodeEntry data p limit =
    match three_varints (take (Z.to_nat (limit - p)) (drop (Z.to_nat p) data)) with
    | None => Done None
    | Some (shared, non_shared, value_length, bs) =>
      if u32 (zlen bs) <? u32 (non_shared + value_length) then Done None
      else Done (Some (shared, non_shared, value_length, limit - zlen bs))
    end.
Proof.
  intros Hb Hl. unfold DecodeEntry. pose proof (length_take_le (drop (Z.to_nat p) data) (Z.to_nat (limit - p))). rewrite length_take in *.
  destruct (Z.ltb_spec (limit - p) 3); [lia|]. set (bs := take _ _) in *. assert (3 <= length bs)%nat by (subst bs; rewrite length_take; lia).
  destruct bs as [|a [|b [|c rest]]]; try (cbn in *; lia). cbn [lookup list_lookup demand mbind outcome_bind drop].
  rewrite !Forall_cons in Hb. destruct Hb as (Ha & Hb & Hc & _). fold (three_varints (a :: b :: c :: rest)). by rewrite fast_path.
Qed.

Lemma three_varints_back a b c rest : 0 <= a < 2 ^ 32 -> 0 <= b < 2 ^ 32 -> 0 <= c < 2 ^ 32 ->
  three_varints (wire_varint a ++ wire_varint b ++ wire_varint c ++ rest) = Some (a, b, c, rest).
Proof.
  intros Ha Hb Hc. unfold three_varints. change GetVarint32Ptr with GetVarint32.
  do 3 (rewrite get_varint32_digits by lia; cbn [mbind option_bind]). done.
Qed.

(** ** Words of the restart array *)

Lemma words_length (f : nat -> Z) l : length (concat (map (fun i => EncodeFixed32 (f i)) l)) = (4 * length l)%nat.
Proof. induction l as [|a l IH]; [done|]. cbn [map concat length]. rewrite length_app, length_fixed32, IH. lia. Qed.

Lemma words_bytes (f : nat -> Z) l : Forall is_byte (concat (map (fun i => EncodeFixed32 (f i)) l)).
Proof. induction l as [|a l IH]; [constructor|]. cbn [map concat]. apply Forall_app. split; [apply le_bytes_bytes|done]. Qed.

Lemma words_drop (f : nat -> Z) l : forall k a, l !! k = Some a ->
  exists rest, drop (4 * k) (concat (map (fun i => EncodeFixed32 (f i)) l)) = EncodeFixed32 (f a) ++ rest.
Proof.
  induction l as [|b l IH]; intros k a E; [done|]. cbn [map concat]. destruct k as [|k]; cbn in E.
  - injection E as <-. by eexists.
  - destruct (IH k a E) as [rest Er]. exists rest. rewrite <- Er. rewrite drop_app_ge by (rewrite length_fixed32; lia). rewrite length_fixed32. f_equal. lia.
Qed.

Section Layout.
Context (xs : list item) (rp : list nat) (L : layout xs rp).

Lemma block_length : zlen (block_of xs rp) = off xs (length xs) + 4 * zlen rp + 4.
Proof. unfold block_of, restarts_bytes. rewrite off_end, !length_app, length_fixed32, words_length. lia. Qed.

Lemma off_le i : off xs i <= off xs (length xs).
Proof. destruct (Nat.le_gt_cases i (length xs)); [by apply off_mono|]. unfold off. rewrite !(take_ge xs) by lia. lia. Qed.

Lemma off_word i : 0 <= off xs i < 2 ^ 32.
Proof. pose proof (off_nonneg xs i). pose proof (off_le i). pose proof block_length. pose proof (la_size _ _ L). lia. Qed.

Lemma rp_word : 0 < zlen rp < 2 ^ 32.
Proof.
  pose proof block_length. pose proof (la_size _ _ L). pose proof (off_nonneg xs (length xs)). pose proof (la_first _ _ L) as E.
  apply lookup_lt_Some in E. lia.
Qed.

Lemma first_full x : xs !! 0%nat = Some x -> ishared x = 0%nat.
Proof. apply (la_full _ _ L). apply list_elem_of_lookup. exists 0%nat. apply (la_first _ _ L). Qed.

Lemma item_sizes i : forall x, xs !! i = Some x -> (ishared x <= length (ikey x))%nat /\ zlen (ikey x) <= off xs (S i) /\
  zlen (ikey x) - Z.of_nat (ishared x) + zlen (ivalue x) <= off xs (S i) - off xs i.
Proof.
  assert (Hitem : forall x, Z.of_nat (length (drop (ishared x) (ikey x))) + zlen (ivalue x) <= zlen (item_bytes x)).
  { intros x. unfold item_bytes. rewrite !length_app. lia. }
  induction i as [|i IH]; intros x Ex; rewrite (off_S xs _ x Ex); specialize (Hitem x); rewrite length_drop in Hitem.
  - rewrite (first_full x Ex) in *. change (off xs 0) with 0. lia.
  - destruct (lookup_lt_is_Some_2 xs i) as [y Ey]; [apply lookup_lt_Some in Ex; lia|]. destruct (IH y Ey) as (Hs & Hk & _).
    destruct (la_follows _ _ L i y x Ey Ex) as [Hp Eq]. pose proof (f_equal length Eq) as El. rewrite length_app, length_take, length_drop in El. lia.
Qed.

Lemma item_is_bytes x : x ∈ xs -> Forall is_byte (item_bytes x).
Proof.
  intros Hx. destruct (proj1 (Forall_forall _ _) (la_bytes _ _ L) x Hx) as [Hk Hv]. apply list_elem_of_lookup in Hx as [i Ei].
  destruct (item_sizes i x Ei) as [Hs _]. unfold item_bytes. rewrite !Forall_app. split_and!; try (apply wire_varint_bytes; lia); [by apply Forall_drop|done].
Qed.

Lemma entries_are_bytes ys : ys ⊆ xs -> Forall is_byte (entries_bytes ys).
Proof.
  induction ys as [|y ys IH]; intros Hsub; [constructor|]. unfold entries_bytes. cbn [map concat]. apply Forall_app. split.
  - apply item_is_bytes. set_solver.
  - apply IH. set_solver.
Qed.

Lemma off_split i : off xs (length xs) = off xs i + zlen (entries_bytes (drop i xs)).
Proof. rewrite off_end. unfold off. rewrite <- (take_drop i xs) at 1. rewrite entries_bytes_app, length_app. lia. Qed.

(** The bytes between an item and the restart array. *)
Lemma entry_window i x : xs !! i = Some x ->
  take (Z.to_nat (off xs (length xs) - off xs i)) (drop (Z.to_nat (off xs i)) (block_of xs rp)) = item_bytes x ++ entries_bytes (drop (S i) xs).
Proof.
  intros E. rewrite (drop_at xs rp i x E), app_assoc. apply take_app_length'.
  rewrite (off_split (S i)), (off_S xs i x E), length_app. lia.
Qed.

Lemma decode_at i x : xs !! i = Some x ->
  DecodeEntry (block_of xs rp) (off xs i) (off xs (length xs)) =
    Done (Some (Z.of_nat (ishared x), zlen (ikey x) - Z.of_nat (ishared x), zlen (ivalue x),
      off xs (S i) - zlen (ivalue x) - (zlen (ikey x) - Z.of_nat (ishared x)))).
Proof.
  intros E. pose proof (item_length x) as H3. destruct (item_sizes i x E) as (Hs & Hk & Hv). pose proof (off_word (S i)). pose proof (off_word i).
  rewrite DecodeEntry_parse; rewrite (entry_window i x E).
  - unfold item_bytes. rewrite <- !app_assoc. rewrite three_varints_back by lia. rewrite !app_assoc.
    set (tail := (drop _ _ ++ _) ++ _). assert (Ht : zlen tail = off xs (length xs) - off xs (S i) + (zlen (ikey x) - Z.of_nat (ishared x)) + zlen (ivalue x)).
    { subst tail. rewrite !length_app, length_drop, (off_split (S i)). lia. }
    pose proof (off_word (length xs)). pose proof (off_le (S i)). destruct (Z.ltb_spec (u32 (zlen tail)) (u32 (zlen (ikey x) - Z.of_nat (ishared x) + zlen (ivalue x)))) as [Hlt|].
    + rewrite !u32_small in Hlt by lia. lia.
    + do 3 f_equal. lia.
  - apply Forall_app. split; [apply item_is_bytes|apply entries_are_bytes]; [by apply list_elem_of_lookup_2 with i|apply subseteq_drop].
  - rewrite length_app. lia.
Qed.
End Layout.
