(* ===== verification/LdbBlockIter.v ===== *)
(** * LdbBlockIter: the iterator of a block reads the items of its layout. *)

From Stdlib Require Import ZifyBool Sorting.Sorted.
From stdpp Require Import base tactics numbers list gmap strings sorting.
From S2P Require Import Prelude PbOStream PbWire LdbCoding LdbLog LdbKey LdbKeySpec LdbBatch LdbIter LdbBlock LdbBlockSpec.
Open Scope Z_scope.

Section BlockIter.
Context (c : Comparator) (xs : list item) (rp : list nat) (L : layout xs rp).
Abbreviation n := (length xs).

(** ** Positions *)

Record base (it : Iter) : Prop := {
  ba_comparator : it_comparator it = c;
  ba_data : it_data it = block_of xs rp;
  ba_restarts : restarts_ it = off xs n;
  ba_num : num_restarts_ it = zlen rp;
  ba_status : status_ it = OK;
}.

(** The restart index is that of a restart point not after item [i]. *)
Definition near (it : Iter) (i : nat) : Prop := exists r a, restart_index_ it = Z.of_nat r /\ rp !! r = Some a /\ (a <= i)%nat.

(** Before item [i]: the next parse reads it. *)
Record ready (it : Iter) (i : nat) : Prop := {
  re_base : base it;
  re_range : (i <= n)%nat;
  re_next : exists o l, value_ it = Some (o, l) /\ o + l = off xs i;
  re_key : forall x, xs !! i = Some x -> follows (key_ it) x;
  re_near : near it i;
}.

(** On item [i]. *)
Record on_item (it : Iter) (i : nat) (x : item) : Prop := {
  on_base : base it;
  on_lookup : xs !! i = Some x;
  on_current : current_ it = off xs i;
  on_key : key_ it = ikey x;
  on_value : value_ it = Some (off xs (S i) - zlen (ivalue x), zlen (ivalue x));
  on_near : near it i;
}.

Record finished (it : Iter) : Prop := { fi_base : base it; fi_current : current_ it = off xs n }.

Definition pos (it : Iter) (i : nat) : Prop := match xs !! i with Some x => on_item it i x | None => i = n /\ finished it end.

Lemma pos_item it i x : xs !! i = Some x -> pos it i <-> on_item it i x.
Proof. unfold pos. by intros ->. Qed.

Lemma pos_end it : pos it n <-> finished it.
Proof. unfold pos. rewrite lookup_ge_None_2 by done. naive_solver. Qed.

(** ** Restart points *)

Lemma restart_point it r a : base it -> rp !! r = Some a -> GetRestartPoint (Z.of_nat r) it = Done (off xs a).
Proof.
  intros B E. unfold GetRestartPoint. rewrite (ba_num _ B), (ba_data _ B), (ba_restarts _ B). pose proof (lookup_lt_Some _ _ _ E).
  destruct (Z.leb_spec (zlen rp) (Z.of_nat r)); [lia|]. destruct (words_drop (off xs) rp r a E) as [rest Er].
  unfold block_of, restarts_bytes. rewrite off_end. replace (Z.to_nat (zlen (entries_bytes xs) + Z.of_nat r * 4)) with (length (entries_bytes xs) + 4 * r)%nat by lia.
  rewrite <- drop_drop, drop_app_length, drop_app_le by (rewrite words_length; lia). rewrite Er, <- app_assoc. apply fixed32_back. by apply (off_word xs rp L).
Qed.

Lemma rp_lt r a s b : rp !! r = Some a -> rp !! s = Some b -> (r < s)%nat -> (a < b)%nat.
Proof. intros Hr Hs Hlt. by apply (sorted_lookup lt rp (la_sorted _ _ L) r s). Qed.

Lemma rp_le_n r a : rp !! r = Some a -> (a <= n)%nat.
Proof. intros E. apply (Forall_lookup_1 _ _ _ _ (la_range _ _ L)) in E. destruct E as [E|[-> ->]]; lia. Qed.

Lemma off_ltb i j : (i <= n)%nat -> (j <= n)%nat -> (off xs i <? off xs j) = bool_decide (i < j)%nat.
Proof.
  intros Hi Hj. case_bool_decide as H; apply Z.ltb_lt || apply Z.ltb_ge; [apply off_lt; lia|apply off_mono; lia].
Qed.

Lemma base_entry it k v : base it -> base (set_entry k v it).
Proof. by intros []. Qed.

Lemma base_pos it p r : base it -> base (set_pos p r it).
Proof. by intros []. Qed.

Lemma SeekToRestartPoint_spec it r a : base it -> rp !! r = Some a ->
  exists it', SeekToRestartPoint (Z.of_nat r) it = Done it' /\ ready it' a /\ restart_index_ it' = Z.of_nat r.
Proof.
  intros B E. unfold SeekToRestartPoint. rewrite (restart_point it r a B E). cbn [mbind outcome_bind]. eexists. split; [done|]. split; [|done].
  split; [by apply base_entry, base_pos|by apply (rp_le_n r)|exists (off xs a), 0; split; [done|lia]| |by exists r, a].
  intros x Ex. unfold follows. cbn [key_ set_entry].
  rewrite (la_full _ _ L a x (list_elem_of_lookup_2 _ _ _ E) Ex). split; [lia|done].
Qed.

(** ** Parsing *)

Lemma advance_restart_spec fuel : forall it i, base it -> current_ it = off xs i -> (i <= n)%nat -> near it i -> 
  zlen rp - restart_index_ it < Z.of_nat fuel ->
  exists r, advance_restart fuel it = Done (set_pos (current_ it) r it) /\ near (set_pos (current_ it) r it) i.
Proof.
  induction fuel as [|fuel IH]; intros it i B Ec Hi (r & a & Er & Ea & Hle) Hf; pose proof (lookup_lt_Some _ _ _ Ea) as Hr; [lia|].
  pose proof (rp_word xs rp L). cbn [advance_restart]. rewrite (ba_num _ B), Er, u32_small by lia.
  assert (Estay : it = set_pos (current_ it) (restart_index_ it) it) by by destruct it.
  destruct (Z.ltb_spec (Z.of_nat r + 1) (zlen rp)) as [Hlt|].
  2: { exists (restart_index_ it). rewrite <- Estay. split; [done|by exists r, a]. }
  replace (Z.of_nat r + 1) with (Z.of_nat (S r)) by lia. destruct (lookup_lt_is_Some_2 rp (S r)) as [b Eb]; [lia|].
  rewrite (restart_point it (S r) b B Eb), Ec. cbn [mbind outcome_bind]. rewrite off_ltb by (try done; by apply (rp_le_n (S r))).
  case_bool_decide as Hb.
  - destruct (IH (set_pos (current_ it) (Z.of_nat (S r)) it) i) as (r' & E' & N'); [by apply base_pos|done|done| |cbn; lia|].
    + exists (S r), b. split_and!; [done..|lia].
    + rewrite Ec in *. exists r'. split; [exact E'|exact N'].
  - exists (restart_index_ it). rewrite Ec in Estay. rewrite <- Estay. split; [done|by exists r, a].
Qed.

Lemma NextEntryOffset_spec it i : ready it i -> NextEntryOffset it = Done (off xs i).
Proof.
  intros R. destruct (re_next _ _ R) as (o & l & Ev & Eo). unfold NextEntryOffset. rewrite Ev. cbn [demand mbind outcome_bind].
  rewrite Eo, u32_small; [done|apply (off_word xs rp L)].
Qed.

(** The bytes of the key that are stored. *)
Lemma delta_bytes i x : xs !! i = Some x ->
  block_bytes (block_of xs rp) (off xs (S i) - zlen (ivalue x) - (zlen (ikey x) - Z.of_nat (ishared x))) (zlen (ikey x) - Z.of_nat (ishared x)) = Done (drop (ishared x) (ikey x)) /\
  block_bytes (block_of xs rp) (off xs (S i) - zlen (ivalue x)) (zlen (ivalue x)) = Done (ivalue x).
Proof.
  intros E. destruct (item_sizes xs rp L i x E) as (Hs & Hk & Hv). pose proof (off_S xs i x E) as Eo.
  assert (Hlen : zlen (block_of xs rp) >= off xs (S i)) by (pose proof (block_length xs rp); pose proof (off_le xs (S i)); lia).
  pose proof (off_nonneg xs i).
  assert (Ei : block_of xs rp = (entries_bytes (take i xs) ++ wire_varint (Z.of_nat (ishared x)) ++ wire_varint (zlen (ikey x) - Z.of_nat (ishared x)) ++ wire_varint (zlen (ivalue x))) ++
    drop (ishared x) (ikey x) ++ ivalue x ++ entries_bytes (drop (S i) xs) ++ restarts_bytes xs rp).
  { rewrite (block_at xs rp i x E). unfold item_bytes. by rewrite <- !app_assoc. }
  set (front := entries_bytes (take i xs) ++ _) in Ei.
  assert (Hfront : zlen front = off xs (S i) - zlen (ivalue x) - (zlen (ikey x) - Z.of_nat (ishared x))).
  { rewrite Eo. unfold item_bytes, front, off. rewrite !length_app, length_drop. lia. }
  unfold block_bytes. split; (case_match; [|lia]); rewrite Ei.
  - rewrite drop_app_length' by lia. rewrite take_app_length' by (rewrite length_drop; lia). done.
  - rewrite (app_assoc front). rewrite drop_app_length' by (rewrite length_app, length_drop; lia). by rewrite take_app_length' by lia.
Qed.

Lemma parse_item it i x : ready it i -> xs !! i = Some x -> exists it', ParseNextKey it = Done (true, it') /\ on_item it' i x.
Proof.
  intros R E. pose proof (re_base _ _ R) as B. pose proof (lookup_lt_Some _ _ _ E) as Hi. unfold ParseNextKey. rewrite (NextEntryOffset_spec it i R).
  cbn [mbind outcome_bind]. set (it1 := set_pos (off xs i) (restart_index_ it) it). assert (B1 : base it1) by by apply base_pos.
  rewrite (ba_restarts _ B1), (ba_data _ B1). pose proof (off_lt xs i n ltac:(lia) ltac:(lia)). destruct (Z.leb_spec (off xs n) (off xs i)); [lia|].
  rewrite (decode_at xs rp L i x E). cbn [mbind outcome_bind]. destruct (re_key _ _ R x E) as [Hs Ek]. change (key_ it1) with (key_ it).
  destruct (Z.ltb_spec (zlen (key_ it)) (Z.of_nat (ishared x))); [lia|]. rewrite (proj1 (delta_bytes i x E)). cbn [mbind outcome_bind].
  rewrite Nat2Z.id, Ek. set (it2 := set_entry _ _ it1). assert (B2 : base it2) by by apply base_entry.
  destruct (advance_restart_spec (S (Z.to_nat (num_restarts_ it2))) it2 i) as (r & -> & N); [done|done|lia|exact (re_near _ _ R)| |].
  { rewrite (ba_num _ B2). destruct (re_near _ _ R) as (r & a & Er & _). change (restart_index_ it2) with (restart_index_ it). rewrite Er. lia. }
  cbn [mbind outcome_bind]. eexists. split; [done|]. split; [by apply base_pos|done|done|done| |done]. cbn. do 2 f_equal; lia.
Qed.

Lemma parse_end it : ready it n -> exists it', ParseNextKey it = Done (false, it') /\ finished it'.
Proof.
  intros R. pose proof (re_base _ _ R) as B. unfold ParseNextKey. rewrite (NextEntryOffset_spec it n R). cbn [mbind outcome_bind].
  set (it1 := set_pos _ _ it). assert (B1 : base it1) by by apply base_pos. rewrite (ba_restarts _ B1). destruct (Z.leb_spec (off xs n) (off xs n)); [|lia].
  eexists. split; [done|]. split; [by apply base_pos|done].
Qed.

(** After an item the iterator is ready for the next. *)
Lemma on_item_ready it i x : on_item it i x -> ready it (S i).
Proof.
  intros O. pose proof (on_lookup _ _ _ O) as E. pose proof (lookup_lt_Some _ _ _ E).
  split; [exact (on_base _ _ _ O)|lia|eexists _, _; split; [exact (on_value _ _ _ O)|lia]| |].
  - intros y Ey. rewrite (on_key _ _ _ O). by apply (la_follows _ _ L i).
  - destruct (on_near _ _ _ O) as (r & a & Er & Ea & Hle). exists r, a. split_and!; [done..|lia].
Qed.

Lemma parse_next_spec it i : ready it i -> exists it', ParseNextKey it = Done (bool_decide (i < n)%nat, it') /\ pos it' i.
Proof.
  intros R. case_bool_decide as Hi.
  - destruct (lookup_lt_is_Some_2 xs i Hi) as [x E]. destruct (parse_item it i x R E) as (it' & -> & O). exists it'. split; [done|]. by apply (pos_item it' i x).
  - pose proof (re_range _ _ R). assert (i = n) as -> by lia. destruct (parse_end it R) as (it' & -> & F). exists it'. split; [done|]. by apply pos_end.
Qed.

(** ** Moving *)

Lemma near_first it : near it 0 -> restart_index_ it = 0.
Proof.
  intros (r & a & Er & Ea & Hle). destruct r as [|r]; [done|]. pose proof (rp_lt 0 0%nat (S r) a (la_first _ _ L) Ea). lia.
Qed.

Lemma pos_base it i : pos it i -> base it.
Proof. unfold pos. destruct (xs !! i) as [x|]; [apply on_base|]. intros [_ F]. apply (fi_base _ F). Qed.

Lemma pos_valid it i : pos it i -> it_Valid it = bool_decide (i < n)%nat.
Proof.
  intros P. unfold it_Valid. rewrite (ba_restarts _ (pos_base _ _ P)). unfold pos in P. destruct (xs !! i) as [x|] eqn:E.
  - rewrite (on_current _ _ _ P). pose proof (lookup_lt_Some _ _ _ E). apply off_ltb; lia.
  - destruct P as [-> F]. rewrite (fi_current _ F), bool_decide_false by lia. lia.
Qed.

Lemma Next_spec it i : pos it i -> (i < n)%nat -> exists it', it_Next it = Done it' /\ pos it' (S i).
Proof.
  intros P Hi. unfold it_Next. rewrite (pos_valid it i P), bool_decide_true by done. destruct (lookup_lt_is_Some_2 xs i Hi) as [x E].
  apply (pos_item it i x E) in P. destruct (parse_next_spec it (S i) (on_item_ready it i x P)) as (it' & -> & P'). by exists it'.
Qed.

Lemma SeekToFirst_spec it : base it -> exists it', it_SeekToFirst it = Done it' /\ pos it' 0.
Proof.
  intros B. unfold it_SeekToFirst. destruct (SeekToRestartPoint_spec it 0 0 B (la_first _ _ L)) as (it1 & E1 & R & _).
  change 0 with (Z.of_nat 0). rewrite E1. cbn [mbind outcome_bind]. destruct (parse_next_spec it1 0 R) as (it' & -> & P). by exists it'.
Qed.

(** The loop of [Prev] and of [SeekToLast]. *)
Lemma skip_entries_spec fuel : forall it j m, ready it j -> (j <= m)%nat -> (m < n)%nat -> (m - j < fuel)%nat ->
  exists it', skip_entries fuel (off xs (S m)) it = Done it' /\ pos it' m.
Proof.
  induction fuel as [|fuel IH]; intros it j m R Hj Hm Hf; [lia|]. cbn [skip_entries].
  destruct (parse_next_spec it j R) as (it1 & -> & P). rewrite bool_decide_true by lia. cbn [mbind outcome_bind].
  destruct (lookup_lt_is_Some_2 xs j) as [x E]; [lia|]. pose proof (proj1 (pos_item it1 j x E) P) as O. apply on_item_ready in O as R1.
  rewrite (NextEntryOffset_spec it1 (S j) R1). cbn [mbind outcome_bind]. rewrite off_ltb by lia. case_bool_decide as Hlt.
  - apply (IH it1 (S j) m R1); lia.
  - assert (j = m) as -> by lia. by exists it1.
Qed.

Lemma entry_fuel_enough it : base it -> (n < entry_fuel it)%nat.
Proof.
  intros B. unfold entry_fuel. rewrite (ba_data _ B). unfold block_of. rewrite length_app. pose proof (items_le xs). lia.
Qed.

Lemma SeekToLast_spec it : base it -> exists it', it_SeekToLast it = Done it' /\ pos it' (n - 1).
Proof.
  intros B. unfold it_SeekToLast. pose proof (rp_word xs rp L) as Hr. rewrite (ba_num _ B). destruct (lookup_lt_is_Some_2 rp (length rp - 1)) as [a Ea]; [lia|].
  destruct (SeekToRestartPoint_spec it (length rp - 1) a B Ea) as (it1 & E1 & R & _). replace (zlen rp - 1) with (Z.of_nat (length rp - 1)) by lia. rewrite E1.
  cbn [mbind outcome_bind]. pose proof (re_base _ _ R) as B1. rewrite (ba_restarts _ B1). pose proof (entry_fuel_enough it1 B1) as Hfuel.
  pose proof (Forall_lookup_1 _ _ _ _ (la_range _ _ L) Ea) as Hrange. cbn beta in Hrange. destruct (decide (n = 0%nat)) as [E0|E0].
  - assert (a = n) as -> by (destruct Hrange as [?|[-> ->]]; [lia|done]). destruct (entry_fuel it1) as [|fuel]; [lia|]. cbn [skip_entries].
    destruct (parse_end it1 R) as (it' & -> & F). exists it'. split; [done|]. replace (n - 1)%nat with n by lia. by apply pos_end.
  - replace (off xs n) with (off xs (S (n - 1))) by (f_equal; lia). apply (skip_entries_spec _ it1 a); [done|destruct Hrange as [?|[-> ->]]; [lia|done]|lia..].
Qed.

Lemma prev_restart_spec fuel : forall it i, base it -> near it (S i) -> (S i <= n)%nat -> restart_index_ it < Z.of_nat fuel ->
  exists it', prev_restart fuel (off xs (S i)) it = Done (Some it') /\ base it' /\ near it' i.
Proof.
  induction fuel as [|fuel IH]; intros it i B (r & a & Er & Ea & Hle) Hi Hf; [lia|]. cbn [prev_restart]. rewrite Er, (restart_point it r a B Ea).
  cbn [mbind outcome_bind]. pose proof (off_ltb a (S i) ltac:(lia) Hi) as Hcmp. case_bool_decide as Hlt.
  - destruct (Z.leb_spec (off xs (S i)) (off xs a)); [lia|]. exists it. split_and!; [done..|]. exists r, a. split_and!; [done..|lia].
  - destruct (Z.leb_spec (off xs (S i)) (off xs a)); [|lia]. destruct r as [|r].
    + rewrite (la_first _ _ L) in Ea. injection Ea as <-. lia.
    + destruct (Z.eqb_spec (Z.of_nat (S r)) 0); [lia|]. destruct (lookup_lt_is_Some_2 rp r) as [b Eb]; [apply lookup_lt_Some in Ea; lia|].
      pose proof (rp_lt r b (S r) a Eb Ea ltac:(lia)). apply IH; [by apply base_pos| |done|cbn; lia]. exists r, b. split_and!; [cbn; lia|done|lia].
Qed.

Lemma Prev_spec it i : pos it i -> (i < n)%nat -> exists it', it_Prev it = Done it' /\ pos it' (match i with O => n | S j => j end).
Proof.
  intros P Hi. unfold it_Prev. rewrite (pos_valid it i P), bool_decide_true by done. destruct (lookup_lt_is_Some_2 xs i Hi) as [x E].
  apply (pos_item it i x E) in P as O. pose proof (on_base _ _ _ O) as B. rewrite (on_current _ _ _ O), (ba_num _ B).
  destruct (on_near _ _ _ O) as (r & a & Er & Ea & Hle). pose proof (lookup_lt_Some _ _ _ Ea). destruct i as [|j].
  - cbn [prev_restart]. pose proof (near_first it (on_near _ _ _ O)) as E0. rewrite E0.
    pose proof (restart_point it 0 0 B (la_first _ _ L)) as EG. change (Z.of_nat 0) with 0 in EG. rewrite EG. cbn [mbind outcome_bind]. destruct (Z.leb_spec (off xs 0) (off xs 0)); [|lia]. cbn [Z.eqb].
    eexists. split; [done|]. apply pos_end. split; [by apply base_pos|exact (ba_restarts _ B)].
  - destruct (prev_restart_spec (S (Z.to_nat (zlen rp))) it j B (on_near _ _ _ O)) as (it1 & -> & B1 & (s & b & Es & Eb & Hb)); [lia|lia|].
    cbn [mbind outcome_bind]. rewrite Es. destruct (SeekToRestartPoint_spec it1 s b B1 Eb) as (it2 & -> & R & _). cbn [mbind outcome_bind].
    pose proof (entry_fuel_enough it2 (re_base _ _ R)). apply (skip_entries_spec _ it2 b j R); lia.
Qed.

Definition entries : list entry := map (fun x => (ikey x, ivalue x)) xs.

(** ** Seeking *)

Section Seek.
Context {valid : list Z -> Prop} {cmp : list Z -> list Z -> Z} `{!Ordered (Compare c) valid cmp}.
Context (Hvalid : Forall (fun x => valid (ikey x)) xs) (Hsorted : StronglySorted (fun x y => cmp (ikey x) (ikey y) < 0) xs).
Context (target : list Z) (Htarget : valid target).

Lemma valid_at i x : xs !! i = Some x -> valid (ikey x).
Proof. intros E. exact (Forall_lookup_1 _ _ _ _ Hvalid E). Qed.

(** All items before [i] are before the target. *)
Definition below (i : nat) : Prop := forall j x, (j < i)%nat -> xs !! j = Some x -> cmp (ikey x) target < 0.

Lemma below_item i x : xs !! i = Some x -> cmp (ikey x) target < 0 -> below (S i).
Proof.
  intros E Hc j y Hj Ey. destruct (decide (j = i)) as [->|]; [congruence|].
  pose proof (sorted_lookup _ _ Hsorted j i y x ltac:(lia) Ey E) as Hlt. cbn beta in Hlt.
  apply (cmp_lt_trans _ (ikey x)); [by apply (valid_at j)|by apply (valid_at i)|done..].
Qed.

Lemma below_bound i : (i <= n)%nat -> below i -> (forall x, xs !! i = Some x -> 0 <= cmp (ikey x) target) -> i = lower_bound cmp target entries.
Proof.
  intros Hi Hb Hat. apply lower_bound_unique; [unfold entries; by rewrite length_map| |].
  - intros j e Hj Ej. unfold entries in Ej. apply list_lookup_fmap_Some in Ej as (x & -> & Ex). by apply (Hb j).
  - intros e Ee. unfold entries in Ee. apply list_lookup_fmap_Some in Ee as (x & -> & Ex). by apply Hat.
Qed.

Lemma seek_linear_spec fuel : forall it i, ready it i -> below i -> (n - i < fuel)%nat ->
  exists it', seek_linear fuel target it = Done it' /\ pos it' (lower_bound cmp target entries).
Proof.
  induction fuel as [|fuel IH]; intros it i R Hb Hf; [lia|]. cbn [seek_linear]. destruct (parse_next_spec it i R) as (it1 & -> & P). cbn [mbind outcome_bind].
  pose proof (re_range _ _ R). case_bool_decide as Hi.
  - destruct (lookup_lt_is_Some_2 xs i Hi) as [x E]. apply (pos_item it1 i x E) in P as O. rewrite (on_key _ _ _ O), (ba_comparator _ (on_base _ _ _ O)).
    rewrite (cmp_total _ _ (valid_at i x E) Htarget). cbn [mbind outcome_bind]. destruct (Z.leb_spec 0 (cmp (ikey x) target)).
    + exists it1. split; [done|]. rewrite <- (below_bound i); [done|lia|done|naive_solver].
    + apply (IH it1 (S i)); [by apply on_item_ready with x|by apply (below_item i x)|lia].
  - exists it1. split; [done|]. rewrite <- (below_bound i); [done|lia|done|]. intros x E. apply lookup_lt_Some in E. lia.
Qed.

(** A restart point that the search may stop at. *)
Definition low_restart (r : nat) : Prop := exists a, rp !! r = Some a /\ below a.

Lemma restart_key it r a : base it -> rp !! r = Some a -> (0 < r)%nat -> exists x, xs !! a = Some x /\ ishared x = 0%nat /\
  DecodeEntry (it_data it) (off xs a) (restarts_ it) = Done (Some (0, zlen (ikey x), zlen (ivalue x), off xs (S a) - zlen (ivalue x) - zlen (ikey x))) /\
  block_bytes (it_data it) (off xs (S a) - zlen (ivalue x) - zlen (ikey x)) (zlen (ikey x)) = Done (ikey x).
Proof.
  intros B E Hr. pose proof (rp_lt 0 0 r a (la_first _ _ L) E Hr). pose proof (Forall_lookup_1 _ _ _ _ (la_range _ _ L) E) as Hrange.
  destruct (lookup_lt_is_Some_2 xs a) as [x Ex]; [cbn beta in Hrange; destruct Hrange as [?|[-> ->]]; lia|]. exists x.
  pose proof (la_full _ _ L a x (list_elem_of_lookup_2 _ _ _ E) Ex) as Es. rewrite (ba_data _ B), (ba_restarts _ B).
  pose proof (decode_at xs rp L a x Ex) as Hd. pose proof (proj1 (delta_bytes a x Ex)) as Hb. rewrite Es, Z.sub_0_r in Hd, Hb. done.
Qed.

Lemma search_restarts_spec fuel : forall it lo hi, base it -> low_restart lo -> (lo <= hi)%nat -> (hi < length rp)%nat -> (hi - lo < fuel)%nat ->
  exists r, search_restarts fuel target (Z.of_nat lo) (Z.of_nat hi) it = Done (Some (Z.of_nat r)) /\ low_restart r.
Proof.
  induction fuel as [|fuel IH]; intros it lo hi B Hlo Hle Hhi Hf; [lia|]. cbn [search_restarts]. pose proof (rp_word xs rp L).
  destruct (Z.ltb_spec (Z.of_nat lo) (Z.of_nat hi)); [|by exists lo].
  assert (Hmid : exists mid, u32 (Z.of_nat lo + Z.of_nat hi + 1) / 2 = Z.of_nat mid /\ (lo < mid <= hi)%nat).
  { exists (Z.to_nat ((Z.of_nat lo + Z.of_nat hi + 1) / 2)). pose proof (block_length xs rp). pose proof (la_size _ _ L). pose proof (off_nonneg xs n).
    rewrite u32_small by lia. split; [|split]; Z.div_mod_to_equations; lia. }
  destruct Hmid as (mid & -> & Hmid). destruct (lookup_lt_is_Some_2 rp mid) as [a Ea]; [lia|].
  destruct (restart_key it mid a B Ea ltac:(lia)) as (x & Ex & Es & Hd & Hb).
  rewrite (restart_point it mid a B Ea). cbn [mbind outcome_bind]. rewrite Hd. cbn [mbind outcome_bind Z.eqb negb]. rewrite Hb. cbn [mbind outcome_bind].
  rewrite (ba_comparator _ B), (cmp_total _ _ (valid_at a x Ex) Htarget). cbn [mbind outcome_bind]. destruct (Z.ltb_spec (cmp (ikey x) target) 0) as [Hc|Hc].
  - apply IH; [done| |lia..]. exists a. split; [done|]. intros j y Hj Ey. apply (below_item a x Ex Hc j); [lia|done].
  - rewrite u32_small by lia. replace (Z.of_nat mid - 1) with (Z.of_nat (mid - 1)) by lia. apply IH; [done..|lia|lia|lia].
Qed.

Lemma Seek_spec it : base it -> exists it', it_Seek target it = Done it' /\ pos it' (lower_bound cmp target entries).
Proof.
  intros B. unfold it_Seek. pose proof (rp_word xs rp L). rewrite (ba_num _ B).
  destruct (search_restarts_spec (S (Z.to_nat (zlen rp))) it 0 (length rp - 1) B) as (r & Es & a & Ea & Hb); [|lia..|].
  { exists 0%nat. split; [apply (la_first _ _ L)|]. intros j x Hj. lia. }
  change (Z.of_nat 0) with 0 in Es. replace (Z.of_nat (length rp - 1)) with (zlen rp - 1) in Es by lia. rewrite Es. cbn [mbind outcome_bind].
  destruct (SeekToRestartPoint_spec it r a B Ea) as (it1 & -> & R & _). cbn [mbind outcome_bind].
  pose proof (entry_fuel_enough it1 (re_base _ _ R)). apply (seek_linear_spec _ it1 a R Hb). lia.
Qed.
End Seek.

(** ** The block's iterator is a cursor over its entries *)

Definition block_at_ (b : block_iterator) (i : nat) : Prop := exists it, b = BlockIterator it /\ pos it i.

Lemma entries_length : length entries = n.
Proof. apply length_map. Qed.

Lemma pos_entry it i e : pos it i -> entries !! i = Some e -> it_key it = Done e.1 /\ it_value it = Done e.2.
Proof.
  intros P Ee. apply list_lookup_fmap_Some in Ee as (x & -> & Ex). pose proof (lookup_lt_Some _ _ _ Ex). unfold it_key, it_value.
  rewrite (pos_valid it i P), bool_decide_true by done. apply (pos_item it i x Ex) in P as O. rewrite (on_key _ _ _ O), (on_value _ _ _ O), (ba_data _ (on_base _ _ _ O)).
  split; [done|]. cbn [demand mbind outcome_bind]. apply (delta_bytes i x Ex).
Qed.

Lemma num_restarts_spec : NumRestarts (block_of xs rp) (zlen (block_of xs rp)) = Done (zlen rp).
Proof.
  unfold NumRestarts. pose proof (block_length xs rp). pose proof (off_nonneg xs n). pose proof (rp_word xs rp L).
  destruct (Z.ltb_spec (zlen (block_of xs rp)) 4); [lia|]. unfold block_of, restarts_bytes. rewrite app_assoc, drop_app_length' by (rewrite !length_app, length_fixed32; lia).
  rewrite <- (app_nil_r (EncodeFixed32 _)). apply fixed32_back. lia.
Qed.

Lemma new_Block_spec : new_Block (block_of xs rp) = Done (MkBlock (block_of xs rp) (zlen (block_of xs rp)) (off xs n)).
Proof.
  unfold new_Block. pose proof (block_length xs rp) as Hl. pose proof (la_size _ _ L). pose proof (off_word xs rp L n). pose proof (rp_word xs rp L).
  destruct (Z.ltb_spec (zlen (block_of xs rp)) 4); [lia|]. rewrite num_restarts_spec. cbn [mbind outcome_bind].
  destruct (Z.ltb_spec ((zlen (block_of xs rp) - 4) / 4) (zlen rp)) as [Hlt|]; [Z.div_mod_to_equations; lia|]. do 2 f_equal. rewrite Hl, (u32_small (1 + zlen rp)) by lia. rewrite u32_small; lia.
Qed.

Lemma NewIterator_spec : exists b, NewIterator c (MkBlock (block_of xs rp) (zlen (block_of xs rp)) (off xs n)) = Done b /\ block_at_ b n.
Proof.
  unfold NewIterator. cbn [size_ data_ restart_offset_]. pose proof (block_length xs rp). pose proof (off_nonneg xs n). pose proof (rp_word xs rp L).
  destruct (Z.ltb_spec (zlen (block_of xs rp)) 4); [lia|]. rewrite num_restarts_spec. cbn [mbind outcome_bind]. destruct (Z.eqb_spec (zlen rp) 0); [lia|].
  unfold new_Iter. destruct (Z.leb_spec (zlen rp) 0); [lia|]. eexists. split; [done|]. eexists. split; [done|]. by apply pos_end.
Qed.

Lemma block_cursor {valid : list Z -> Prop} {cmp : list Z -> list Z -> Z} `{!Ordered (Compare c) valid cmp} :
  Forall (fun x => valid (ikey x)) xs -> StronglySorted (fun x y => cmp (ikey x) (ikey y) < 0) xs -> Cursor valid cmp entries block_at_.
Proof.
  intros Hv Hs. split.
  - intros b i (it & -> & P). rewrite entries_length. unfold pos in P. destruct (xs !! i) as [x|] eqn:E; [apply lookup_lt_Some in E; lia|lia].
  - intros b i (it & -> & P). rewrite entries_length. exact (pos_valid it i P).
  - intros b i e (it & -> & P). exact (pos_entry it i e P).
  - intros b i (it & -> & P). exact (ba_status _ (pos_base _ _ P)).
  - intros b i (it & -> & P). destruct (SeekToFirst_spec it (pos_base _ _ P)) as (it' & E & P'). cbn [vSeekToFirst vSeekToLast vSeek vNext vPrev block_iter on_block]. rewrite E. eexists. split; [done|]. by exists it'.
  - intros b i (it & -> & P). destruct (SeekToLast_spec it (pos_base _ _ P)) as (it' & E & P'). cbn [vSeekToFirst vSeekToLast vSeek vNext vPrev block_iter on_block]. rewrite E. eexists. split; [done|]. rewrite entries_length. by exists it'.
  - intros b i target (it & -> & P) Ht. destruct (Seek_spec Hv Hs target Ht it (pos_base _ _ P)) as (it' & E & P'). cbn [vSeekToFirst vSeekToLast vSeek vNext vPrev block_iter on_block]. rewrite E. eexists. split; [done|]. by exists it'.
  - intros b i (it & -> & P) Hi. rewrite entries_length in Hi. destruct (Next_spec it i P Hi) as (it' & E & P'). cbn [vSeekToFirst vSeekToLast vSeek vNext vPrev block_iter on_block]. rewrite E. eexists. split; [done|]. by exists it'.
  - intros b i (it & -> & P) Hi. unfold pred_index. rewrite entries_length in *. destruct (Prev_spec it i P Hi) as (it' & E & P'). cbn [vSeekToFirst vSeekToLast vSeek vNext vPrev block_iter on_block]. rewrite E. eexists. split; [done|]. by exists it'.
Qed.
End BlockIter.
