(* ===== verification/LdbBlockBuild.v ===== *)
(** * LdbBlockBuild: a block builder lays out the entries that are added. *)

From Stdlib Require Import ZifyBool Sorting.Sorted.
From stdpp Require Import base tactics numbers list gmap strings sorting.
From S2P Require Import Prelude PbOStream PbWire LdbCoding LdbLog LdbKey LdbKeySpec LdbBatch LdbIter LdbBlock LdbBlockSpec LdbBlockIter.
Open Scope Z_scope.

(** ** Adding an item to a layout *)

Lemma off_app_le xs ys i : (i <= length xs)%nat -> off (xs ++ ys) i = off xs i.
Proof. intros Hi. unfold off. by rewrite take_app_le by lia. Qed.

(** One more item takes at most this many bytes, a new restart point included. *)
Definition entry_cost (e : entry) : Z := zlen e.1 + zlen e.2 + 34.

Lemma item_bytes_length x : (ishared x <= length (ikey x))%nat -> zlen (item_bytes x) <= zlen (ikey x) + zlen (ivalue x) + 30.
Proof.
  intros Hs. unfold item_bytes. rewrite !length_app, length_drop. pose proof (wire_varint_length (Z.of_nat (ishared x))).
  pose proof (wire_varint_length (zlen (ikey x) - Z.of_nat (ishared x))). pose proof (wire_varint_length (zlen (ivalue x))). lia.
Qed.

Definition last_key (xs : list item) : list Z := match last xs with Some x => ikey x | None => [] end.

Lemma layout_snoc xs rp rp' x : layout xs rp ->
  rp' = rp \/ rp' = rp ++ [length xs] /\ xs <> [] /\ ishared x = 0%nat ->
  follows (last_key xs) x -> Forall is_byte (ikey x) -> Forall is_byte (ivalue x) -> zlen (block_of (xs ++ [x]) rp') < 2 ^ 32 ->
  layout (xs ++ [x]) rp'.
Proof.
  intros L Hrp Hf Hk Hv Hsize. assert (Hr : Forall (fun i => (i < length (xs ++ [x]))%nat) rp).
  { eapply Forall_impl; [apply (la_range _ _ L)|]. intros i [?|[-> ->]]; rewrite length_app; cbn; lia. }
  assert (Hfull : forall i y, i ∈ rp -> (xs ++ [x]) !! i = Some y -> ishared y = 0%nat).
  { intros i y Hi Ey. destruct (Nat.lt_ge_cases i (length xs)) as [Hlt|Hge].
    - rewrite lookup_app_l in Ey by done. by apply (la_full _ _ L i).
    - destruct (proj1 (Forall_forall _ _) (la_range _ _ L) i Hi) as [?|[-> ->]]; [lia|]. injection Ey as <-. destruct Hf as [Hs _]. cbn in Hs. lia. }
  split.
  - destruct Hrp as [->|(-> & _)]; [apply (la_first _ _ L)|]. apply lookup_app_l_Some, (la_first _ _ L).
  - destruct Hrp as [->|(-> & Hne & _)]; [apply (la_sorted _ _ L)|]. apply StronglySorted_app_2; [|apply (la_sorted _ _ L)|by repeat constructor].
    intros i j Hi Hj. apply list_elem_of_singleton in Hj as ->. destruct (proj1 (Forall_forall _ _) (la_range _ _ L) i Hi) as [?|[-> ->]]; [lia|done].
  - assert (Hr' : Forall (fun i => (i < length (xs ++ [x]))%nat) rp').
    { destruct Hrp as [->|(-> & _)]; [done|]. apply Forall_app. split; [done|]. rewrite length_app. repeat constructor. cbn. lia. }
    eapply Forall_impl; [exact Hr'|]. intros i Hi. by left.
  - intros i y Hi Ey. destruct Hrp as [->|(-> & Hne & Hs)]; [by apply (Hfull i)|]. apply elem_of_app in Hi as [Hi|Hi]; [by apply (Hfull i)|].
    apply list_elem_of_singleton in Hi as ->. rewrite lookup_app_r, Nat.sub_diag in Ey by lia. by injection Ey as <-.
  - intros i y z Ey Ez. pose proof (lookup_lt_Some _ _ _ Ez) as Hi. rewrite length_app in Hi. cbn in Hi. rewrite lookup_app_l in Ey by lia.
    destruct (Nat.lt_ge_cases (S i) (length xs)).
    + rewrite lookup_app_l in Ez by done. by apply (la_follows _ _ L i).
    + assert (S i = length xs) as E by lia. rewrite lookup_app_r, E, Nat.sub_diag in Ez by lia. injection Ez as <-. unfold last_key in Hf.
      rewrite last_lookup, <- E in Hf. cbn in Hf. by rewrite Ey in Hf.
  - apply Forall_app. split; [apply (la_bytes _ _ L)|]. by repeat constructor.
  - done.
Qed.

(** ** The builder *)

Section Build.
Context (interval : Z) (Hinterval : 1 <= interval) (c : Comparator).
Context {valid : list Z -> Prop} {cmp : list Z -> list Z -> Z} `{!Ordered (Compare c) valid cmp}.

Record built (b : BlockBuilder) (xs : list item) (rp : list nat) : Prop := {
  bu_buffer : bb_buffer b = entries_bytes xs;
  bu_restarts : bb_restarts b = map (off xs) rp;
  bu_last : bb_last_key b = last_key xs;
  bu_open : bb_finished b = false;
  bu_counter : 0 <= bb_counter b <= interval;
  bu_started : xs = [] -> bb_counter b = 0;
  bu_layout : layout xs rp;
  bu_valid : Forall (fun x => valid (ikey x)) xs;
  bu_sorted : StronglySorted (fun x y => cmp (ikey x) (ikey y) < 0) xs;
}.

Lemma layout_nil : layout [] [0%nat].
Proof.
  split; [done|by repeat constructor| |done|done|done|by vm_compute]. apply Forall_singleton. by right.
Qed.

Lemma built_new : exists b, new_BlockBuilder interval = Done b /\ built b [] [0%nat].
Proof.
  unfold new_BlockBuilder. destruct (Z.ltb_spec interval 1); [lia|]. eexists. split; [done|].
  split; [done..|cbn; lia|done|apply layout_nil|constructor|constructor].
Qed.

Lemma built_Reset b : built (bb_Reset b) [] [0%nat].
Proof. split; [done..|cbn; lia|done|apply layout_nil|constructor|constructor]. Qed.

Lemma built_size b xs rp : built b xs rp -> CurrentSizeEstimate b = zlen (block_of xs rp).
Proof.
  intros B. unfold CurrentSizeEstimate. rewrite (bu_buffer _ _ _ B), (bu_restarts _ _ _ B), length_map, block_length, off_end. lia.
Qed.

Lemma restarts_snoc xs ys rp : Forall (fun i => (i <= length xs)%nat) rp -> map (off (xs ++ ys)) rp = map (off xs) rp.
Proof. induction 1 as [|i l Hi Hl IH]; [done|]. cbn [map]. by rewrite off_app_le, IH. Qed.

Lemma follows_shared prev key value : follows prev (Item (find_diff prev key) key value).
Proof.
  destruct (find_diff_spec prev key) as (p & s & l & -> & -> & -> & _). unfold follows. cbn [ishared ikey]. rewrite length_app.
  split; [lia|]. by rewrite take_app_length, drop_app_length.
Qed.

Lemma assert_larger_spec b xs rp key : built b xs rp -> valid key -> (forall x, last xs = Some x -> cmp (ikey x) key < 0) -> assert_larger c key b = Done tt.
Proof.
  intros B Hk Hlt. unfold assert_larger, bb_empty. rewrite (bu_buffer _ _ _ B), (bu_last _ _ _ B). unfold last_key.
  destruct (last xs) as [x|] eqn:E.
  - destruct (Z.eqb_spec (zlen (entries_bytes xs)) 0); [done|]. specialize (Hlt x eq_refl).
    assert (Hx : valid (ikey x)). { rewrite last_lookup in E. exact (Forall_lookup_1 _ _ _ _ (bu_valid _ _ _ B) E). }
    rewrite cmp_total by done. cbn [mbind outcome_bind]. pose proof (cmp_anti key (ikey x) Hk Hx). by destruct (Z.ltb_spec 0 (cmp key (ikey x))); [|lia].
  - apply last_None in E as ->. done.
Qed.

Lemma before_last xs key : Forall (fun x => valid (ikey x)) xs -> StronglySorted (fun x y => cmp (ikey x) (ikey y) < 0) xs -> valid key ->
  (forall x, last xs = Some x -> cmp (ikey x) key < 0) -> forall y, y ∈ xs -> cmp (ikey y) key < 0.
Proof.
  intros Hv Hs Hk Hlast y Hy. destruct xs as [|x xs _] using rev_ind; [by apply elem_of_nil in Hy|]. rewrite last_snoc in Hlast. specialize (Hlast x eq_refl).
  rewrite Forall_app, Forall_singleton in Hv. destruct Hv as [Hv Hx]. apply elem_of_app in Hy as [Hy|Hy]; [|by apply list_elem_of_singleton in Hy as ->].
  apply (cmp_lt_trans _ (ikey x)); [exact (proj1 (Forall_forall _ _) Hv y Hy)|done|done| |done].
  exact (StronglySorted_app_1_elem_of (fun x y => cmp (ikey x) (ikey y) < 0) xs [x] y x Hs Hy (proj2 (list_elem_of_singleton x x) eq_refl)).
Qed.

(** [Add]: the new item, and the restart points with it. *)
Definition next_item (b : BlockBuilder) (key value : list Z) : item :=
  Item (if bb_counter b <? interval then find_diff (bb_last_key b) key else 0%nat) key value.
Definition next_rp (b : BlockBuilder) (xs : list item) (rp : list nat) : list nat := if bb_counter b <? interval then rp else rp ++ [length xs].

Lemma next_item_fits b xs rp key value : built b xs rp ->
  (next_rp b xs rp = rp \/ next_rp b xs rp = rp ++ [length xs] /\ xs <> [] /\ ishared (next_item b key value) = 0%nat) /\
  follows (last_key xs) (next_item b key value) /\ (ishared (next_item b key value) <= length key)%nat /\
  zlen (block_of (xs ++ [next_item b key value]) (next_rp b xs rp)) <= zlen (block_of xs rp) + entry_cost (key, value).
Proof.
  intros B. unfold next_rp, next_item. rewrite (bu_last _ _ _ B).
  assert (Hlen : forall x rp', (ishared x <= length (ikey x))%nat -> (length rp' <= S (length rp))%nat ->
    zlen (block_of (xs ++ [x]) rp') <= zlen (block_of xs rp) + entry_cost (ikey x, ivalue x)).
  { intros x rp' Hs Hr. rewrite !block_length, !off_end, entries_bytes_app, length_app. unfold entries_bytes at 2. cbn [map concat].
    rewrite app_nil_r. pose proof (item_bytes_length x Hs). unfold entry_cost. cbn [fst snd]. lia. }
  assert (Hd : forall p k, (find_diff p k <= length k)%nat).
  { intros p k. destruct (find_diff_spec p k) as (q & s & l & -> & -> & -> & _). rewrite length_app. lia. }
  destruct (Z.ltb_spec (bb_counter b) interval).
  - split; [by left|]. split; [apply follows_shared|]. split; [apply Hd|]. apply (Hlen (Item _ key value)); [apply Hd|lia].
  - split; [right|]. { split_and!; [done| |done]. intros ->. pose proof (bu_started _ _ _ B eq_refl). lia. }
    split; [split; [cbn; lia|done]|]. split; [cbn; lia|]. apply (Hlen (Item _ key value)); [cbn; lia|rewrite length_app; cbn; lia].
Qed.

Lemma bb_Add_spec b xs rp key value : built b xs rp -> valid key -> Forall is_byte key -> Forall is_byte value ->
  (forall x, last xs = Some x -> cmp (ikey x) key < 0) -> CurrentSizeEstimate b + entry_cost (key, value) < 2 ^ 32 ->
  exists b', bb_Add interval c key value b = Done b' /\ built b' (xs ++ [next_item b key value]) (next_rp b xs rp).
Proof.
  intros B Hk Hkb Hvb Hlt Hsize. rewrite (built_size b xs rp B) in Hsize. destruct (next_item_fits b xs rp key value B) as (Hrp & Hfol & Hs & Hlen).
  assert (L' : layout (xs ++ [next_item b key value]) (next_rp b xs rp)) by (apply (layout_snoc xs rp); [apply (bu_layout _ _ _ B)|done..|lia]).
  set (x := next_item b key value) in *. pose proof (item_sizes _ _ L' (length xs) x (list_lookup_middle xs [] x _ eq_refl)) as (_ & Hkl & Hvl).
  pose proof (off_word _ _ L' (S (length xs))). pose proof (off_word _ _ (bu_layout _ _ _ B) (length xs)). rewrite (off_app_le xs [x] (length xs)) in Hvl by lia.
  unfold bb_Add. rewrite (bu_open _ _ _ B). pose proof (bu_counter _ _ _ B). destruct (Z.ltb_spec interval (bb_counter b)); [lia|].
  rewrite (assert_larger_spec b xs rp key B Hk Hlt). cbn [mbind outcome_bind].
  assert (E : (if bb_counter b <? interval then (find_diff (bb_last_key b) key, bb_restarts b, bb_counter b)
       else (0%nat, bb_restarts b ++ [u32 (zlen (bb_buffer b))], 0)) =
    (ishared x, map (off (xs ++ [x])) (next_rp b xs rp), if bb_counter b <? interval then bb_counter b else 0)).
  { assert (Hr : Forall (fun i => (i <= length xs)%nat) rp) by (eapply Forall_impl; [apply (la_range _ _ (bu_layout _ _ _ B))|]; intros i [?|[-> ->]]; lia).
    unfold next_rp. rewrite (bu_restarts _ _ _ B), (bu_buffer _ _ _ B). subst x. unfold next_item. destruct (Z.ltb_spec (bb_counter b) interval); cbn [ishared].
    - by rewrite restarts_snoc.
    - rewrite map_app, restarts_snoc by done. cbn [map]. by rewrite off_app_le, <- off_end, u32_small by lia. }
  rewrite E. unfold PutVarint32. change (ikey x) with key in *. change (ivalue x) with value in *.
  rewrite !u32_small, !encode_varint32_digits by lia. destruct Hfol as [Hp Eq]. change (ikey x) with key in Eq. rewrite (bu_last _ _ _ B), Eq.
  rewrite bool_decide_true by done. eexists. split; [done|]. split; cbn.
  - rewrite entries_bytes_app, (bu_buffer _ _ _ B). unfold entries_bytes at 3. cbn [map concat]. unfold item_bytes. by rewrite app_nil_r, <- !app_assoc.
  - done.
  - unfold last_key. by rewrite last_snoc.
  - done.
  - destruct (Z.ltb_spec (bb_counter b) interval); lia.
  - intros En. by apply app_nil in En as [_ En].
  - done.
  - apply Forall_app. split; [apply (bu_valid _ _ _ B)|by repeat constructor].
  - apply StronglySorted_app_2; [|apply (bu_sorted _ _ _ B)|by repeat constructor]. intros y z Hy Hz. apply list_elem_of_singleton in Hz as ->. cbn.
    exact (before_last xs key (bu_valid _ _ _ B) (bu_sorted _ _ _ B) Hk Hlt y Hy).
Qed.

Lemma words_append (f : nat -> Z) l : forall buf, fold_left PutFixed32 (map f l) buf = buf ++ concat (map (fun i => EncodeFixed32 (f i)) l).
Proof. induction l as [|a l IH]; intros buf; cbn [map fold_left concat]; [by rewrite app_nil_r|]. rewrite IH. unfold PutFixed32. by rewrite <- app_assoc. Qed.

Lemma bb_Finish_spec b xs rp : built b xs rp -> (bb_Finish b).1 = block_of xs rp.
Proof.
  intros B. unfold bb_Finish, block_of, restarts_bytes. cbn [fst]. rewrite (bu_restarts _ _ _ B), (bu_buffer _ _ _ B), words_append, length_map.
  unfold PutFixed32. rewrite u32_small, <- app_assoc; [done|]. pose proof (rp_word _ _ (bu_layout _ _ _ B)). lia.
Qed.

(** ** In terms of entries *)

(** The builder holds these entries. *)
Definition builder_holds (b : BlockBuilder) (es : list entry) : Prop := exists xs rp, built b xs rp /\ entries xs = es.

(** These bytes are a block with these entries. *)
Definition is_block (contents : list Z) (es : list entry) : Prop :=
  exists xs rp, layout xs rp /\ contents = block_of xs rp /\ entries xs = es /\
    Forall (fun x => valid (ikey x)) xs /\ StronglySorted (fun x y => cmp (ikey x) (ikey y) < 0) xs.

Lemma builder_new : exists b, new_BlockBuilder interval = Done b /\ builder_holds b [].
Proof. destruct built_new as (b & E & B). exists b. split; [done|]. by exists [], [0%nat]. Qed.

Lemma builder_Reset b : builder_holds (bb_Reset b) [].
Proof. exists [], [0%nat]. split; [apply built_Reset|done]. Qed.

Lemma builder_empty b es : builder_holds b es -> bb_empty b = bool_decide (es = []).
Proof.
  intros (xs & rp & B & <-). unfold bb_empty. rewrite (bu_buffer _ _ _ B). pose proof (items_le xs). destruct xs as [|x xs]; [done|].
  rewrite bool_decide_false by done. apply Z.eqb_neq. cbn in *. lia.
Qed.

Lemma builder_Add b es key value : builder_holds b es -> valid key -> Forall is_byte key -> Forall is_byte value ->
  (forall e, last es = Some e -> cmp e.1 key < 0) -> CurrentSizeEstimate b + entry_cost (key, value) < 2 ^ 32 ->
  exists b', bb_Add interval c key value b = Done b' /\ builder_holds b' (es ++ [(key, value)]) /\
    CurrentSizeEstimate b' <= CurrentSizeEstimate b + entry_cost (key, value).
Proof.
  intros (xs & rp & B & <-) Hk Hkb Hvb Hlt Hsize. destruct (bb_Add_spec b xs rp key value B Hk Hkb Hvb) as (b' & E & B'); [|done|].
  { intros x Ex. apply (Hlt (ikey x, ivalue x)). pose proof (fmap_last (fun x => (ikey x, ivalue x)) xs) as El. by rewrite Ex in El. }
  exists b'. split; [done|]. split; [|rewrite (built_size _ _ _ B), (built_size _ _ _ B'); by apply next_item_fits].
  eexists _, _. split; [exact B'|]. unfold entries. by rewrite map_app.
Qed.

Lemma builder_Finish b es : builder_holds b es -> is_block (bb_Finish b).1 es.
Proof.
  intros (xs & rp & B & <-). exists xs, rp. split_and!; [apply (bu_layout _ _ _ B)|by apply bb_Finish_spec|done|apply (bu_valid _ _ _ B)|apply (bu_sorted _ _ _ B)].
Qed.

(** Opening a block gives a cursor over its entries. *)
Lemma open_block contents es : is_block contents es ->
  exists b it at_, new_Block contents = Done b /\ NewIterator c b = Done it /\ Cursor valid cmp es at_ /\ at_ it (length es).
Proof.
  intros (xs & rp & L & -> & <- & Hv & Hs). destruct (NewIterator_spec c xs rp L) as (it & E & At). eexists _, it, (block_at_ c xs rp).
  split; [by apply new_Block_spec|]. split; [done|]. split; [by apply block_cursor|]. by rewrite entries_length.
Qed.

(** Adding entries one after the other. *)
Fixpoint add_all (es : list entry) (b : BlockBuilder) : outcome BlockBuilder :=
  match es with
  | [] => Done b
  | e :: es => b ← bb_Add interval c e.1 e.2 b; add_all es b
  end.

Definition total_cost (es : list entry) : Z := foldr (fun e t => entry_cost e + t) 0 es.

Lemma total_cost_nonneg es : 0 <= total_cost es.
Proof. induction es as [|e es IH]; [done|]. cbn [total_cost foldr]. fold (total_cost es). unfold entry_cost. lia. Qed.

Definition good_entry (e : entry) : Prop := valid e.1 /\ Forall is_byte e.1 /\ Forall is_byte e.2.
Definition sorted_entries (es : list entry) : Prop := StronglySorted (fun a b => cmp a.1 b.1 < 0) es.

Lemma sorted_last es e es' : sorted_entries (es ++ e :: es') -> forall d, last es = Some d -> cmp d.1 e.1 < 0.
Proof.
  intros Hs d Hd. rewrite last_lookup in Hd. apply (StronglySorted_app_1_elem_of _ es (e :: es') d e Hs); [by apply list_elem_of_lookup_2 in Hd|by left].
Qed.

Lemma add_all_spec es : forall b ds, builder_holds b ds -> Forall good_entry es -> sorted_entries (ds ++ es) ->
  CurrentSizeEstimate b + total_cost es < 2 ^ 32 -> exists b', add_all es b = Done b' /\ builder_holds b' (ds ++ es).
Proof.
  induction es as [|[k v] es IH]; intros b ds Hb Hg Hs Hc; [exists b; by rewrite app_nil_r|]. cbn [add_all total_cost foldr] in *. fold (total_cost es) in Hc.
  apply Forall_cons in Hg as [(Hk & Hkb & Hvb) Hg]. pose proof (total_cost_nonneg es).
  destruct (builder_Add b ds k v Hb Hk Hkb Hvb) as (b1 & E & Hb1 & Hc1); [exact (sorted_last ds (k, v) es Hs)|lia|]. cbn [fst snd].
  rewrite E. cbn [mbind outcome_bind]. destruct (IH b1 (ds ++ [(k, v)]) Hb1 Hg) as (b' & E' & Hb'); [by rewrite <- app_assoc|lia|].
  exists b'. split; [done|]. by rewrite <- app_assoc in Hb'.
Qed.
End Build.
