(* ===== verification/LdbFormat.v ===== *)
(** * LdbFormat: block handles, the footer of a table and reading a block
    (table/format.h, table/format.cc, the compression calls of
    port/port_stdcxx.h). *)

From Stdlib Require Import ZifyBool.
From stdpp Require Import base tactics numbers list gmap strings.
From S2P Require Import Prelude PbOStream PbWire LdbCoding LdbCrc LdbCrcSpec LdbLog LdbLogSpec LdbBatch.
Open Scope Z_scope.

(** ** Block handles *)

Record BlockHandle : Type := MkHandle { offset_ : Z; hsize_ : Z }.

(** [~static_cast<uint64_t>(0)] *)
Definition unset : Z := 2 ^ 64 - 1.
Definition new_BlockHandle : BlockHandle := MkHandle unset unset.
Definition kMaxEncodedLength : Z := 10 + 10.

Definition handle_EncodeTo (h : BlockHandle) (dst : list Z) : outcome (list Z) :=
  if offset_ h =? unset then Undef
  else if hsize_ h =? unset then Undef
  else dst ← PutVarint64 dst (offset_ h); PutVarint64 dst (hsize_ h).

(** The slice is advanced past what was read. *)
Definition handle_DecodeFrom (input : list Z) (h : BlockHandle) : Status * BlockHandle * list Z :=
  match GetVarint64 input with
  | None => (Corruption "bad block handle", h, input)
  | Some (offset, input) =>
    match GetVarint64 input with
    | None => (Corruption "bad block handle", MkHandle offset (hsize_ h), input)
    | Some (size, input) => (OK, MkHandle offset size, input)
    end
  end.

(** ** The footer *)

Record Footer : Type := MkFooter { metaindex_handle_ : BlockHandle; index_handle_ : BlockHandle }.

Definition footer_length : Z := 2 * kMaxEncodedLength + 8.
Definition kTableMagicNumber : Z := 0xdb4775248b80fb57.
Definition kBlockTrailerSize : Z := 5.

(** [dst->resize(n)] *)
Definition resize (n : Z) (dst : list Z) : list Z := take (Z.to_nat n) dst ++ replicate (Z.to_nat n - length dst) 0.

Definition footer_EncodeTo (f : Footer) (dst : list Z) : outcome (list Z) :=
  let original_size := zlen dst in
  dst ← handle_EncodeTo (metaindex_handle_ f) dst;
  dst ← handle_EncodeTo (index_handle_ f) dst;
  let dst := resize (2 * kMaxEncodedLength) dst in
  let dst := PutFixed32 dst (u32 (Z.land kTableMagicNumber 0xffffffff)) in
  let dst := PutFixed32 dst (u32 (Z.shiftr kTableMagicNumber 32)) in
  if zlen dst =? original_size + footer_length then Done dst else Undef.

Definition footer_DecodeFrom (input : list Z) (f : Footer) : outcome (Status * Footer * list Z) :=
  let magic_ptr := drop (Z.to_nat (footer_length - 8)) input in
  magic_lo ← DecodeFixed32 magic_ptr;
  magic_hi ← DecodeFixed32 (drop 4 magic_ptr);
  let magic := Z.lor (u64 (Z.shiftl magic_hi 32)) magic_lo in
  if negb (magic =? kTableMagicNumber) then Done (Corruption "not an sstable (bad magic number)", f, input)
  else
    let '(result, metaindex, rest) := handle_DecodeFrom input (metaindex_handle_ f) in
    let '(result, index, rest) := if ok result then handle_DecodeFrom rest (index_handle_ f) else (result, index_handle_ f, rest) in
    Done (result, MkFooter metaindex index, if ok result then drop (Z.to_nat footer_length) input else rest).

(** ** Reading a block *)

(** [RandomAccessFile] of include/leveldb/env.h: [Read(offset, n, &result, scratch)].
    The result may point into [scratch] or elsewhere. *)
Class RandomAccessFile (F : Type) : Type := { ReadAt : Z -> Z -> Z -> F -> Status * Slice }.

(** The functions of the port; [None] is [return false]. *)
Class Snappy : Type := {
  Snappy_Compress : list Z -> option (list Z);
  Snappy_GetUncompressedLength : list Z -> option Z;
  Snappy_Uncompress : list Z -> option (list Z);
}.

(** The port without [HAVE_SNAPPY]. *)
Definition no_snappy : Snappy := {|
  Snappy_Compress _ := None;
  Snappy_GetUncompressedLength _ := None;
  Snappy_Uncompress _ := None;
|}.

Definition kNoCompression : Z := 0x0.
Definition kSnappyCompression : Z := 0x1.

Record BlockContents : Type := MkContents { bc_data : Slice; cachable : bool; heap_allocated : bool }.
Definition no_contents : BlockContents := MkContents empty_slice false false.

(** [buf] and [ubuf] are the addresses that [new char[]] returns. *)
Definition ReadBlock {F} `{!RandomAccessFile F} `{!Snappy} (file : F) (verify_checksums : bool) (handle : BlockHandle) (buf ubuf : Z) : outcome (Status * BlockContents) :=
  let n := hsize_ handle in
  let '(s, contents) := ReadAt (offset_ handle) (u64 (n + kBlockTrailerSize)) buf file in
  if negb (ok s) then Done (s, no_contents)
  else if negb (size contents =? u64 (n + kBlockTrailerSize)) then Done (Corruption "truncated block read", no_contents)
  else
    let data := bytes contents in
    good ←
      (if verify_checksums then
         word ← DecodeFixed32 (drop (Z.to_nat (n + 1)) data);
         let crc := Unmask word in
         if zlen data <? n + 1 then Undef
         else actual ← Value (LdbLog.data contents) (take (Z.to_nat (n + 1)) data); Done (actual =? crc)
       else Done true);
    if negb good then Done (Corruption "block checksum mismatch", no_contents)
    else
      type ← demand (data !! Z.to_nat n);
      if type =? kNoCompression then
        let mine := LdbLog.data contents =? buf in
        Done (OK, MkContents (MkSlice (LdbLog.data contents) (take (Z.to_nat n) data)) mine mine)
      else if type =? kSnappyCompression then
        match Snappy_GetUncompressedLength (take (Z.to_nat n) data) with
        | None => Done (Corruption "corrupted compressed block contents", no_contents)
        | Some ulength =>
          match Snappy_Uncompress (take (Z.to_nat n) data) with
          | None => Done (Corruption "corrupted compressed block contents", no_contents)
          | Some raw => if zlen raw =? ulength then Done (OK, MkContents (MkSlice ubuf raw) true true) else Undef
          end
        end
      else Done (Corruption "bad block type", no_contents).

(** ** Handles and footers read back *)

(** A handle that has been set. *)
Definition handle_set (h : BlockHandle) : Prop := 0 <= offset_ h < unset /\ 0 <= hsize_ h < unset.
Definition handle_bytes (h : BlockHandle) : list Z := wire_varint (offset_ h) ++ wire_varint (hsize_ h).

Lemma handle_encode h dst : handle_set h -> handle_EncodeTo h dst = Done (dst ++ handle_bytes h).
Proof.
  unfold handle_set, unset. intros [Ho Hs]. unfold handle_EncodeTo, unset. destruct (Z.eqb_spec (offset_ h) (2 ^ 64 - 1)), (Z.eqb_spec (hsize_ h) (2 ^ 64 - 1)); try lia.
  rewrite put_varint64_digits by lia. cbn [mbind outcome_bind]. rewrite put_varint64_digits by lia. unfold handle_bytes. by rewrite app_assoc.
Qed.

Lemma handle_decode h old rest : handle_set h -> handle_DecodeFrom (handle_bytes h ++ rest) old = (OK, h, rest).
Proof.
  unfold handle_set, unset. intros [Ho Hs]. unfold handle_DecodeFrom, handle_bytes. rewrite <- app_assoc.
  rewrite get_varint64_digits by lia. rewrite get_varint64_digits by lia. by destruct h.
Qed.

Lemma handle_bytes_length h : 2 <= zlen (handle_bytes h) <= 20.
Proof. unfold handle_bytes. rewrite length_app. pose proof (wire_varint_length (offset_ h)). pose proof (wire_varint_length (hsize_ h)). lia. Qed.

Lemma handle_bytes_bytes h : handle_set h -> Forall is_byte (handle_bytes h).
Proof. intros [Ho Hs]. apply Forall_app. split; apply wire_varint_bytes; lia. Qed.

Lemma handle_bytes_inj h h' : handle_set h -> handle_set h' -> handle_bytes h = handle_bytes h' -> h = h'.
Proof.
  intros Hh Hh' E. pose proof (handle_decode h new_BlockHandle [] Hh) as E1. rewrite E, (handle_decode h' new_BlockHandle [] Hh') in E1. by injection E1.
Qed.

(** The bytes of a footer. *)
Definition footer_bytes (f : Footer) : list Z :=
  resize 40 (handle_bytes (metaindex_handle_ f) ++ handle_bytes (index_handle_ f)) ++ EncodeFixed32 0x8b80fb57 ++ EncodeFixed32 0xdb477524.

Definition footer_set (f : Footer) : Prop := handle_set (metaindex_handle_ f) /\ handle_set (index_handle_ f).

Lemma resize_length n l : 0 <= n -> zlen (resize n l) = n.
Proof. intros Hn. unfold resize. rewrite length_app, length_take, length_replicate. lia. Qed.

Lemma footer_bytes_length f : zlen (footer_bytes f) = footer_length.
Proof. unfold footer_bytes. rewrite length_app, Nat2Z.inj_add, resize_length, length_app, !length_fixed32 by lia. done. Qed.

Lemma footer_encode f : footer_set f -> footer_EncodeTo f [] = Done (footer_bytes f).
Proof.
  intros [Hm Hi]. unfold footer_EncodeTo. rewrite handle_encode by done. cbn [mbind outcome_bind]. rewrite handle_encode by done. cbn [mbind outcome_bind app].
  unfold PutFixed32. change (u32 (Z.land kTableMagicNumber 0xffffffff)) with 0x8b80fb57. change (u32 (Z.shiftr kTableMagicNumber 32)) with 0xdb477524.
  rewrite <- app_assoc. change (2 * kMaxEncodedLength) with 40. fold (footer_bytes f). by rewrite footer_bytes_length, Z.eqb_refl.
Qed.

Lemma footer_decode f old rest : footer_set f -> footer_DecodeFrom (footer_bytes f ++ rest) old = Done (OK, f, rest).
Proof.
  intros [Hm Hi]. unfold footer_DecodeFrom. pose proof (handle_bytes_length (metaindex_handle_ f)) as Lm. pose proof (handle_bytes_length (index_handle_ f)) as Li.
  assert (Er : resize 40 (handle_bytes (metaindex_handle_ f) ++ handle_bytes (index_handle_ f)) = handle_bytes (metaindex_handle_ f) ++ handle_bytes (index_handle_ f) ++
    replicate (40 - length (handle_bytes (metaindex_handle_ f) ++ handle_bytes (index_handle_ f))) 0).
  { unfold resize. rewrite take_ge by (rewrite length_app; lia). by rewrite <- app_assoc. }
  assert (E40 : drop (Z.to_nat (footer_length - 8)) (footer_bytes f ++ rest) = EncodeFixed32 0x8b80fb57 ++ EncodeFixed32 0xdb477524 ++ rest).
  { unfold footer_bytes. rewrite <- !app_assoc. apply drop_app_length'. pose proof (resize_length 40 (handle_bytes (metaindex_handle_ f) ++ handle_bytes (index_handle_ f)) ltac:(lia)).
    unfold footer_length, kMaxEncodedLength. lia. }
  rewrite E40, fixed32_back by lia. cbn [mbind outcome_bind]. rewrite (drop_app_length' (EncodeFixed32 0x8b80fb57)) by (by rewrite length_fixed32).
  rewrite fixed32_back by lia. cbn [mbind outcome_bind]. change (Z.lor _ _ =? _) with true. cbn [negb].
  assert (E48 : drop (Z.to_nat footer_length) (footer_bytes f ++ rest) = rest) by (apply drop_app_length'; pose proof (footer_bytes_length f); lia).
  rewrite E48. unfold footer_bytes. rewrite Er, <- !app_assoc. rewrite handle_decode by done. cbn [ok]. rewrite handle_decode by done. by destruct f.
Qed.

(** ** Blocks in a file *)

(** A compression that what it promises reads back (port_example.h). *)
Class GoodSnappy `{!Snappy} : Prop := {
  snappy_back raw z : Snappy_Compress raw = Some z -> Forall is_byte raw ->
    Forall is_byte z /\ Snappy_GetUncompressedLength z = Some (zlen raw) /\ Snappy_Uncompress z = Some raw;
}.

#[export] Instance no_snappy_good : @GoodSnappy no_snappy.
Proof. by split. Qed.

(** What is stored for a block: the body, its type and the checksum of both. *)
Definition trailer (body : list Z) (type : Z) : list Z := type :: EncodeFixed32 (Mask (crc32c 0 (body ++ [type]))).

Inductive encodes `{!Snappy} (raw : list Z) : list Z -> Z -> Prop :=
| encodes_plain : encodes raw raw kNoCompression
| encodes_snappy z : Snappy_GetUncompressedLength z = Some (zlen raw) -> Snappy_Uncompress z = Some raw -> encodes raw z kSnappyCompression.

(** The file has the block [raw] at this handle. *)
Definition stored `{!Snappy} (file : list Z) (h : BlockHandle) (raw : list Z) : Prop :=
  exists before body type after, file = before ++ (body ++ trailer body type) ++ after /\ offset_ h = zlen before /\ hsize_ h = zlen body /\
    encodes raw body type /\ Forall is_byte body.

Lemma stored_app `{!Snappy} file h raw more : stored file h raw -> stored (file ++ more) h raw.
Proof. intros (before & body & type & after & -> & Ho & Hs & He & Hb). exists before, body, type, (after ++ more). by rewrite <- !app_assoc. Qed.

(** A file with these bytes: a read gives what there is, at an address or in
    the caller's buffer. *)
Class GoodRandomFile {F : Type} `{!RandomAccessFile F} (contents : F -> list Z) : Prop := {
  read_at file off n scratch : 0 <= off -> 0 <= n -> off + n <= zlen (contents file) ->
    exists s, ReadAt off n scratch file = (OK, s) /\ bytes s = take (Z.to_nat n) (drop (Z.to_nat off) (contents file)) /\
      (address scratch n -> address (data s) n);
}.

Section ReadBlock.
Context {F : Type} `{!RandomAccessFile F} {contents : F -> list Z} `{!GoodRandomFile contents} `{!Snappy}.

Lemma trailer_length body type : length (trailer body type) = 5%nat.
Proof. unfold trailer. cbn [length]. by rewrite length_fixed32. Qed.

Lemma encodes_type raw body type : encodes raw body type -> is_byte type.
Proof. destruct 1; unfold is_byte, kNoCompression, kSnappyCompression; lia. Qed.

Lemma ReadBlock_stored file verify h raw buf ubuf : stored (contents file) h raw -> address buf (hsize_ h + kBlockTrailerSize) ->
  exists bc, ReadBlock file verify h buf ubuf = Done (OK, bc) /\ bytes (bc_data bc) = raw.
Proof.
  intros (before & body & type & after & Ef & Ho & Hs & He & Hb) Ha. unfold ReadBlock. pose proof (trailer_length body type) as Ht.
  assert (Hl : zlen (contents file) = zlen before + zlen body + 5 + zlen after) by (rewrite Ef, !length_app, Ht; lia). unfold address in Ha.
  unfold kBlockTrailerSize in *. destruct (read_at file (offset_ h) (hsize_ h + 5) buf) as (s & Er & Es & Has); [lia..|].
  rewrite u64_small by lia. rewrite Er. cbn [ok negb].
  assert (Eb : bytes s = body ++ trailer body type).
  { rewrite Es, Ef, Ho. rewrite drop_app_length' by lia. rewrite take_app_length'; [done|]. rewrite length_app, Ht. lia. }
  unfold size. rewrite Eb. destruct (Z.eqb_spec (zlen (body ++ trailer body type)) (hsize_ h + 5)) as [_|Hne]; [|rewrite length_app in Hne; lia]. cbn [negb].
  assert (E1 : drop (Z.to_nat (hsize_ h + 1)) (body ++ trailer body type) = EncodeFixed32 (Mask (crc32c 0 (body ++ [type])))).
  { unfold trailer. rewrite (cons_middle type body), app_assoc. apply drop_app_length'. rewrite length_app. cbn. lia. }
  assert (E2 : take (Z.to_nat (hsize_ h + 1)) (body ++ trailer body type) = body ++ [type]).
  { unfold trailer. rewrite (cons_middle type body), app_assoc. apply take_app_length'. rewrite length_app. cbn. lia. }
  assert (E3 : (body ++ trailer body type) !! Z.to_nat (hsize_ h) = Some type) by (rewrite lookup_app_r by lia; replace (Z.to_nat (hsize_ h) - length body)%nat with 0%nat by lia; done).
  assert (E4 : take (Z.to_nat (hsize_ h)) (body ++ trailer body type) = body) by (apply take_app_length'; lia).
  assert (Hbt : Forall is_byte (body ++ [type])) by (apply Forall_app; split; [done|]; apply Forall_singleton; by apply (encodes_type raw body)).
  assert (Ev : Value (data s) (body ++ [type]) = Done (crc32c 0 (body ++ [type]))).
  { apply Extend_spec; [|lia|done]. unfold address in Has. lia. }
  rewrite E1, E2, E3, E4. rewrite <- (app_nil_r (EncodeFixed32 _)), fixed32_back by apply mask_word. cbn [mbind outcome_bind].
  rewrite Unmask_Mask by (apply crc32c_word; [lia|done]). rewrite Ev. cbn [mbind outcome_bind]. rewrite Z.eqb_refl.
  destruct (Z.ltb_spec (zlen (body ++ trailer body type)) (hsize_ h + 1)) as [Hlt|]; [rewrite length_app in Hlt; lia|].
  replace (if verify then Done true else Done true) with (@Done bool true) by by destruct verify. cbn [mbind outcome_bind negb demand].
  destruct He as [|z Hul Hu]; cbn [Z.eqb kNoCompression kSnappyCompression].
  - by eexists.
  - rewrite Hul, Hu. rewrite Z.eqb_refl. by eexists.
Qed.
End ReadBlock.
