(* ===== verification/LdbFilter.v ===== *)
(** * LdbFilter: filter blocks (table/filter_block.cc) and the filter policy of
    internal keys (db/dbformat.cc).

    One filter is made for every 2 KB of data blocks; the filters are followed
    by the array of their offsets. *)

From Stdlib Require Import ZifyBool Sorting.Sorted.
From stdpp Require Import base tactics numbers list gmap strings.
From S2P Require Import Prelude PbOStream PbWire LdbCoding LdbBloom LdbKey LdbBatch LdbBlockSpec.
Open Scope Z_scope.

(** [FilterPolicy] of include/leveldb/filter_policy.h; [CreateFilter] appends to
    its last argument. *)
Record FilterPolicy : Type := MkPolicy {
  Name : list Z;
  policy_CreateFilter : list (list Z) -> list Z -> outcome (list Z);
  policy_KeyMayMatch : list Z -> list Z -> outcome bool;
}.

(** [InternalFilterPolicy] *)
Definition InternalFilterPolicy (user_policy : FilterPolicy) : FilterPolicy := {|
  Name := Name user_policy;
  policy_CreateFilter keys dst := us ← extract_user_keys keys; policy_CreateFilter user_policy us dst;
  policy_KeyMayMatch key f := u ← ExtractUserKey key; policy_KeyMayMatch user_policy u f;
|}.

Definition kFilterBaseLg : Z := 11.
Definition kFilterBase : Z := Z.shiftl 1 kFilterBaseLg.

(** ** FilterBlockBuilder *)

Record FilterBlockBuilder : Type := MkFilterBuilder {
  fb_keys : list Z;
  fb_start : list Z;
  fb_result : list Z;
  fb_offsets : list Z;
}.
Definition new_FilterBlockBuilder : FilterBlockBuilder := MkFilterBuilder [] [] [] [].

Section Builder.
Context (policy : FilterPolicy).

(** [tmp_keys_]: the keys between consecutive starts. *)
Fixpoint split_keys (keys : list Z) (start : list Z) : outcome (list (list Z)) :=
  match start with
  | a :: (b :: _) as rest =>
    if (a <=? b) && (b <=? zlen keys) then
      ks ← split_keys keys rest; Done (take (Z.to_nat (b - a)) (drop (Z.to_nat a) keys) :: ks)
    else Undef
  | _ => Done []
  end.

(** The policy takes the number of keys as an [int]. *)
Definition GenerateFilter (f : FilterBlockBuilder) : outcome FilterBlockBuilder :=
  let num_keys := zlen (fb_start f) in
  if num_keys =? 0 then Done (MkFilterBuilder (fb_keys f) (fb_start f) (fb_result f) (fb_offsets f ++ [u32 (zlen (fb_result f))]))
  else if 2 ^ 31 <=? num_keys then Undef
  else
    tmp_keys ← split_keys (fb_keys f) (fb_start f ++ [zlen (fb_keys f)]);
    result ← policy_CreateFilter policy tmp_keys (fb_result f);
    Done (MkFilterBuilder [] [] result (fb_offsets f ++ [u32 (zlen (fb_result f))])).

(** [while (filter_index > filter_offsets_.size()) GenerateFilter();] *)
Fixpoint generate_until (fuel : nat) (filter_index : Z) (f : FilterBlockBuilder) : outcome FilterBlockBuilder :=
  if zlen (fb_offsets f) <? filter_index then
    match fuel with
    | O => NoFuel
    | S fuel => f ← GenerateFilter f; generate_until fuel filter_index f
    end
  else Done f.

Definition StartBlock (block_offset : Z) (f : FilterBlockBuilder) : outcome FilterBlockBuilder :=
  let filter_index := block_offset / kFilterBase in
  if filter_index <? zlen (fb_offsets f) then Undef
  else generate_until (Z.to_nat (filter_index - zlen (fb_offsets f))) filter_index f.

Definition AddKey (key : list Z) (f : FilterBlockBuilder) : FilterBlockBuilder :=
  MkFilterBuilder (fb_keys f ++ key) (fb_start f ++ [zlen (fb_keys f)]) (fb_result f) (fb_offsets f).

Definition filter_Finish (f : FilterBlockBuilder) : outcome (list Z * FilterBlockBuilder) :=
  f ← (if 0 <? zlen (fb_start f) then GenerateFilter f else Done f);
  let array_offset := u32 (zlen (fb_result f)) in
  let result := fold_left PutFixed32 (fb_offsets f) (fb_result f) in
  let result := PutFixed32 result array_offset ++ [u8 kFilterBaseLg] in
  Done (result, MkFilterBuilder (fb_keys f) (fb_start f) result (fb_offsets f)).

(** ** FilterBlockReader *)

(** [data_] is null in the state for short or damaged contents, which has no
    filters. *)
Record FilterBlockReader : Type := MkFilterReader { fr_data : list Z; fr_offset : Z; num_ : Z; base_lg_ : Z }.

Definition new_FilterBlockReader (contents : list Z) : outcome FilterBlockReader :=
  let n := zlen contents in
  if n <? 5 then Done (MkFilterReader [] 0 0 0)
  else
    last ← demand (contents !! Z.to_nat (n - 1));
    let base_lg := u64 (s8 last) in
    last_word ← DecodeFixed32 (drop (Z.to_nat (n - 5)) contents);
    if n - 5 <? last_word then Done (MkFilterReader [] 0 0 base_lg)
    else Done (MkFilterReader contents last_word ((n - 5 - last_word) / 4) base_lg).

(** Shifting a 64-bit number by 64 or more is undefined. *)
Definition filter_KeyMayMatch (block_offset : Z) (key : list Z) (r : FilterBlockReader) : outcome bool :=
  if 64 <=? base_lg_ r then Undef
  else
    let index := Z.shiftr block_offset (base_lg_ r) in
    if index <? num_ r then
      start ← DecodeFixed32 (drop (Z.to_nat (fr_offset r + index * 4)) (fr_data r));
      limit ← DecodeFixed32 (drop (Z.to_nat (fr_offset r + index * 4 + 4)) (fr_data r));
      if (start <=? limit) && (limit <=? fr_offset r) then
        policy_KeyMayMatch policy key (take (Z.to_nat (limit - start)) (drop (Z.to_nat start) (fr_data r)))
      else if start =? limit then Done false
      else Done true
    else Done true.
End Builder.

(** ** What a policy promises *)

(** [same k k']: the policy treats the keys alike.  A filter matches every key
    like one it was made for, and matching is defined for every valid key; [B]
    bounds the bytes of a filter per key. *)
Class GoodPolicy (p : FilterPolicy) (valid : list Z -> Prop) (same : list Z -> list Z -> Prop) (B : Z) : Prop := {
  policy_create keys dst : Forall valid keys -> zlen keys < 2 ^ 31 ->
    exists filter, policy_CreateFilter p keys dst = Done (dst ++ filter) /\
      (forall k k', valid k -> k' ∈ keys -> same k k' -> policy_KeyMayMatch p k filter = Done true) /\
      (forall k, valid k -> exists b, policy_KeyMayMatch p k filter = Done b) /\ Forall is_byte filter /\ (keys <> [] -> zlen filter <= B * zlen keys);
  policy_empty k : valid k -> exists b, policy_KeyMayMatch p k [] = Done b;
}.

(** The policy of internal keys looks at user keys only. *)
Lemma extract_user_keys_spec keys : Forall (fun k => (8 <= length k)%nat) keys -> extract_user_keys keys = Done (map (fun k => take (length k - 8) k) keys).
Proof.
  induction 1 as [|k keys Hk Hks IH]; [done|]. cbn [extract_user_keys map]. unfold ExtractUserKey. destruct (Z.ltb_spec (zlen k) 8); [lia|].
  cbn [mbind outcome_bind]. by rewrite IH.
Qed.

Lemma internal_policy_good p (valid : list Z -> Prop) (same : list Z -> list Z -> Prop) B : GoodPolicy p valid same B ->
  GoodPolicy (InternalFilterPolicy p) (fun k => (8 <= length k)%nat /\ valid (take (length k - 8) k)) (fun k k' => same (take (length k - 8) k) (take (length k' - 8) k')) B.
Proof.
  intros G. assert (Hex : forall k, (8 <= length k)%nat -> ExtractUserKey k = Done (take (length k - 8) k)).
  { intros k Hk. unfold ExtractUserKey. by destruct (Z.ltb_spec (zlen k) 8); [lia|]. }
  split.
  - intros keys dst Hk Hn. cbn [policy_CreateFilter policy_KeyMayMatch InternalFilterPolicy].
    rewrite extract_user_keys_spec by (eapply Forall_impl; [exact Hk|]; by intros k [? _]). cbn [mbind outcome_bind].
    destruct (policy_create (map (fun k => take (length k - 8) k) keys) dst) as (filter & -> & Hmatch & Htotal & Hb & Hsz).
    { apply Forall_map. eapply Forall_impl; [exact Hk|]. by intros k [_ ?]. }
    { by rewrite length_map. }
    exists filter. split_and!; [done| | |done|rewrite length_map in Hsz; intros Hne; apply Hsz; by destruct keys].
    + intros k k' [Hl Hv] Hin Hsame. rewrite Hex by done. cbn [mbind outcome_bind]. apply (Hmatch _ (take (length k' - 8) k')); [done| |done].
      apply list_elem_of_fmap. by exists k'.
    + intros k [Hl Hv]. rewrite Hex by done. by apply Htotal.
  - intros k [Hl Hv]. cbn [policy_KeyMayMatch InternalFilterPolicy]. rewrite Hex by done. by apply policy_empty.
Qed.

(** The policy of util/bloom.cc. *)
Definition bloom_policy (p : BloomFilterPolicy) : FilterPolicy := {|
  Name := map (fun c => Z.of_N (Ascii.N_of_ascii c)) (String.list_ascii_of_string "leveldb.BuiltinBloomFilter2");
  policy_CreateFilter := CreateFilter p;
  policy_KeyMayMatch := KeyMayMatch;
|}.

Lemma bloom_policy_good p : bloom_ok p -> GoodPolicy (bloom_policy p) (fun _ => True) (fun k k' => k = k') (bits_per_key_ p + 10).
Proof.
  intros Hp. split; [|intros k _; by exists false]. intros keys dst _ Hn. destruct (bloom_create p keys dst Hp Hn) as (filter & E & Hm & Ht & Hb & Hsz).
  exists filter. split_and!; [done| |by intros k _; apply Ht|done|done]. intros k k' _ Hin ->. by apply Hm.
Qed.

(** ** Filters in a block *)

Section FilterSpec.
Context (policy : FilterPolicy) {valid : list Z -> Prop} {same : list Z -> list Z -> Prop} {B : Z} `{!GoodPolicy policy valid same B}.

(** A filter for a group of keys; a group with no keys has the empty one. *)
Definition filter_for (g : list (list Z)) (f : list Z) : Prop :=
  (forall k k', valid k -> k' ∈ g -> same k k' -> policy_KeyMayMatch policy k f = Done true) /\ (forall k, valid k -> exists b, policy_KeyMayMatch policy k f = Done b) /\
  Forall is_byte f.

(** Where the [i]th piece of a concatenation starts. *)
Definition cat_off (fs : list (list Z)) (i : nat) : Z := zlen (concat (take i fs)).

(** The builder has made the filters [fs] for the groups [gs], and [ks] are
    the keys added since. *)
Record filters_made (b : FilterBlockBuilder) (gs : list (list (list Z))) (fs : list (list Z)) (ks : list (list Z)) : Prop := {
  fm_groups : Forall2 filter_for gs fs;
  fm_result : fb_result b = concat fs;
  fm_offsets : fb_offsets b = map (fun i => u32 (cat_off fs i)) (seq 0 (length fs));
  fm_size : zlen (concat fs) <= B * zlen (concat gs);
  fm_keys : fb_keys b = concat ks;
  fm_start : fb_start b = map (cat_off ks) (seq 0 (length ks));
  fm_valid : Forall valid ks;
}.

Lemma cat_off_app fs gs i : (i <= length fs)%nat -> cat_off (fs ++ gs) i = cat_off fs i.
Proof. intros Hi. unfold cat_off. by rewrite take_app_le by lia. Qed.

Lemma cat_off_all fs : cat_off fs (length fs) = zlen (concat fs).
Proof. unfold cat_off. by rewrite take_ge by lia. Qed.

Lemma cat_off_cons f fs i : cat_off (f :: fs) (S i) = zlen f + cat_off fs i.
Proof. unfold cat_off. cbn [take concat]. rewrite length_app. lia. Qed.

Lemma cat_offs_snoc (h : Z -> Z) fs f : map (fun i => h (cat_off (fs ++ [f]) i)) (seq 0 (length (fs ++ [f]))) = map (fun i => h (cat_off fs i)) (seq 0 (length fs)) ++ [h (zlen (concat fs))].
Proof.
  rewrite length_app. cbn [length]. rewrite seq_app, map_app. cbn [seq map]. f_equal.
  - apply map_ext_in. intros i Hi. apply in_seq in Hi. by rewrite cat_off_app by lia.
  - by rewrite Nat.add_0_l, cat_off_app, cat_off_all by lia.
Qed.

Lemma split_keys_cons keys a b rest : split_keys keys (a :: b :: rest) =
  if (a <=? b) && (b <=? zlen keys) then ks ← split_keys keys (b :: rest); Done (take (Z.to_nat (b - a)) (drop (Z.to_nat a) keys) :: ks) else Undef.
Proof. done. Qed.

Lemma split_keys_spec ks : forall p, split_keys (p ++ concat ks) (map (fun i => zlen p + cat_off ks i) (seq 0 (S (length ks)))) = Done ks.
Proof.
  induction ks as [|k ks IH]; intros p; [done|]. cbn [length]. specialize (IH (p ++ k)).
  assert (E : map (fun i => zlen p + cat_off (k :: ks) i) (seq 0 (S (S (length ks)))) = zlen p :: map (fun i => zlen (p ++ k) + cat_off ks i) (seq 0 (S (length ks)))).
  { rewrite <- (cons_seq (S (length ks))). cbn [map]. f_equal; [unfold cat_off; cbn; lia|]. rewrite <- seq_shift, map_map. apply map_ext. intros i. rewrite cat_off_cons, length_app. lia. }
  rewrite E. rewrite <- (cons_seq (length ks)) in IH |- *. cbn [map concat] in *. rewrite split_keys_cons.
  change (cat_off ks 0) with 0 in *. rewrite Z.add_0_r, length_app in *.
  destruct (Z.leb_spec (zlen p) (Z.of_nat (length p + length k))); [|lia].
  destruct (Z.leb_spec (Z.of_nat (length p + length k)) (zlen (p ++ k ++ concat ks))) as [_|Hgt]; [|rewrite !length_app in Hgt; lia]. cbn [andb].
  rewrite <- app_assoc in IH. rewrite IH. cbn [mbind outcome_bind]. rewrite drop_app_length' by lia. by rewrite take_app_length' by lia.
Qed.

Lemma GenerateFilter_spec b gs fs ks : filters_made b gs fs ks -> zlen ks < 2 ^ 31 ->
  exists b' f, GenerateFilter policy b = Done b' /\ filters_made b' (gs ++ [ks]) (fs ++ [f]) [].
Proof.
  intros M Hn. unfold GenerateFilter. rewrite (fm_start _ _ _ _ M), length_map, length_seq. destruct (Z.eqb_spec (zlen ks) 0) as [E0|E0].
  - assert (ks = []) as -> by (apply nil_length_inv; lia). eexists _, []. split; [done|]. split; cbn [fb_result fb_offsets fb_keys fb_start].
    + apply Forall2_app; [apply (fm_groups _ _ _ _ M)|]. constructor; [|constructor]. split_and!; [intros k k' _ Hk; by apply elem_of_nil in Hk|apply policy_empty|constructor].
    + rewrite (fm_result _ _ _ _ M), concat_app. cbn. by rewrite app_nil_r.
    + by rewrite cat_offs_snoc, (fm_offsets _ _ _ _ M), (fm_result _ _ _ _ M).
    + rewrite !concat_app. cbn [concat]. rewrite !app_nil_r. apply (fm_size _ _ _ _ M).
    + apply (fm_keys _ _ _ _ M).
    + done.
    + constructor.
  - destruct (Z.leb_spec (2 ^ 31) (zlen ks)); [lia|].
    assert (Es : map (cat_off ks) (seq 0 (length ks)) ++ [zlen (fb_keys b)] = map (fun i => zlen (@nil Z) + cat_off ks i) (seq 0 (S (length ks)))).
    { rewrite (fm_keys _ _ _ _ M), seq_S, map_app. cbn [map]. rewrite Nat.add_0_l, cat_off_all. done. }
    rewrite Es, (fm_keys _ _ _ _ M). change (concat ks) with ([] ++ concat ks). rewrite split_keys_spec. cbn [mbind outcome_bind].
    destruct (policy_create ks (fb_result b) (fm_valid _ _ _ _ M) Hn) as (f & -> & Hf1 & Hf2 & Hf3 & Hsz). cbn [mbind outcome_bind]. eexists _, f. split; [done|].
    split; cbn [fb_result fb_offsets fb_keys fb_start]; [|by rewrite (fm_result _ _ _ _ M), concat_app; cbn; rewrite app_nil_r| | |done|done|constructor].
    + apply Forall2_app; [apply (fm_groups _ _ _ _ M)|]. constructor; [done|constructor].
    + by rewrite cat_offs_snoc, (fm_offsets _ _ _ _ M), (fm_result _ _ _ _ M).
    + rewrite !concat_app, !length_app. cbn [concat]. rewrite !app_nil_r. pose proof (fm_size _ _ _ _ M). assert (ks <> []) as Hne by (by intros ->). specialize (Hsz Hne). lia.
Qed.

(** [StartBlock] closes the pending group, if the block is in another region. *)
Lemma made_length b gs fs ks : filters_made b gs fs ks -> zlen (fb_offsets b) = zlen gs.
Proof. intros M. rewrite (fm_offsets _ _ _ _ M), length_map, length_seq. by rewrite (Forall2_length _ _ _ (fm_groups _ _ _ _ M)). Qed.

Definition start_groups (idx : nat) (gs : list (list (list Z))) (ks : list (list Z)) : list (list (list Z)) * list (list Z) :=
  if (length gs <? idx)%nat then (gs ++ ks :: replicate (idx - length gs - 1) [], []) else (gs, ks).

Lemma generate_until_spec fuel : forall b gs fs ks, filters_made b gs fs ks -> zlen ks < 2 ^ 31 -> forall idx, (idx <= length gs + fuel)%nat -> (length gs <= idx)%nat ->
  exists b' fs', generate_until policy fuel (Z.of_nat idx) b = Done b' /\ filters_made b' (start_groups idx gs ks).1 fs' (start_groups idx gs ks).2.
Proof.
  induction fuel as [|fuel IH]; intros b gs fs ks M Hn idx Hf Hi; cbn [generate_until]; rewrite (made_length b gs fs ks M).
  - destruct (Z.ltb_spec (zlen gs) (Z.of_nat idx)); [lia|]. exists b, fs. split; [done|]. unfold start_groups. by destruct (Nat.ltb_spec (length gs) idx); [lia|].
  - destruct (Z.ltb_spec (zlen gs) (Z.of_nat idx)) as [Hlt|Hge].
    + destruct (GenerateFilter_spec b gs fs ks M Hn) as (b1 & f & -> & M1). cbn [mbind outcome_bind].
      destruct (IH b1 _ _ _ M1 ltac:(cbn; lia) idx) as (b' & fs' & E & M'); [rewrite length_app; cbn; lia..|]. exists b', fs'. split; [done|].
      assert (start_groups idx gs ks = start_groups idx (gs ++ [ks]) []) as ->; [|done]. unfold start_groups. rewrite length_app. cbn [length].
      destruct (Nat.ltb_spec (length gs) idx); [|lia]. destruct (Nat.ltb_spec (length gs + 1) idx).
      * f_equal. rewrite <- app_assoc. cbn [app]. do 2 f_equal. change ([] :: replicate ?n []) with (replicate (S n) (@nil (list Z))). f_equal. lia.
      * replace (idx - length gs - 1)%nat with 0%nat by lia. done.
    + exists b, fs. split; [done|]. unfold start_groups. by destruct (Nat.ltb_spec (length gs) idx); [lia|].
Qed.

Lemma StartBlock_spec b gs fs ks o : filters_made b gs fs ks -> zlen ks < 2 ^ 31 -> zlen gs <= o / kFilterBase ->
  exists b' fs', StartBlock policy o b = Done b' /\ filters_made b' (start_groups (Z.to_nat (o / kFilterBase)) gs ks).1 fs' (start_groups (Z.to_nat (o / kFilterBase)) gs ks).2.
Proof.
  intros M Hn Ho. unfold StartBlock. rewrite (made_length b gs fs ks M). destruct (Z.ltb_spec (o / kFilterBase) (zlen gs)); [lia|].
  destruct (generate_until_spec (Z.to_nat (o / kFilterBase - zlen gs)) b gs fs ks M Hn (Z.to_nat (o / kFilterBase))) as (b' & fs' & E & M'); [lia..|].
  rewrite Z2Nat.id in E by lia. by exists b', fs'.
Qed.

Lemma AddKey_spec b gs fs ks k : filters_made b gs fs ks -> valid k -> filters_made (AddKey k b) gs fs (ks ++ [k]).
Proof.
  intros M Hk. split; cbn [fb_result fb_offsets fb_keys fb_start AddKey]; [apply (fm_groups _ _ _ _ M)|apply (fm_result _ _ _ _ M)|apply (fm_offsets _ _ _ _ M)|apply (fm_size _ _ _ _ M)| | |].
  - rewrite (fm_keys _ _ _ _ M), concat_app. cbn. by rewrite app_nil_r.
  - rewrite (cat_offs_snoc (fun z => z)). by rewrite (fm_start _ _ _ _ M), (fm_keys _ _ _ _ M).
  - apply Forall_app. split; [apply (fm_valid _ _ _ _ M)|by apply Forall_singleton].
Qed.

Lemma made_new : filters_made new_FilterBlockBuilder [] [] [].
Proof. split; [constructor|done|done|cbn; lia|done|done|constructor]. Qed.

(** ** The finished block *)

Definition filter_block (fs : list (list Z)) : list Z :=
  concat fs ++ concat (map (fun i => EncodeFixed32 (cat_off fs i)) (seq 0 (S (length fs)))) ++ [kFilterBaseLg].

Lemma put_offsets (f : nat -> Z) l : forall buf, fold_left PutFixed32 (map f l) buf = buf ++ concat (map (fun i => EncodeFixed32 (f i)) l).
Proof. induction l as [|a l IH]; intros buf; cbn [map fold_left concat]; [by rewrite app_nil_r|]. rewrite IH. unfold PutFixed32. by rewrite <- app_assoc. Qed.

Lemma cat_off_range fs i : 0 <= cat_off fs i <= zlen (concat fs).
Proof. unfold cat_off. rewrite <- (take_drop i fs) at 3. rewrite concat_app, length_app. lia. Qed.

Lemma filter_Finish_spec b gs fs ks : filters_made b gs fs ks -> zlen ks < 2 ^ 31 ->
  exists b' fs' f, filter_Finish policy b = Done (f, b') /\ Forall2 filter_for (if decide (ks = []) then gs else gs ++ [ks]) fs' /\ fb_result b' = f /\
    zlen f = zlen (concat fs') + 4 * zlen fs' + 5 /\ zlen (concat fs') <= B * zlen (concat gs ++ ks) /\ (zlen f < 2 ^ 32 -> f = filter_block fs').
Proof.
  intros M Hn. unfold filter_Finish.
  assert (H : exists b1 fs1, (if 0 <? zlen (fb_start b) then GenerateFilter policy b else Done b) = Done b1 /\ filters_made b1 (if decide (ks = []) then gs else gs ++ [ks]) fs1 []).
  { rewrite (fm_start _ _ _ _ M), length_map, length_seq. destruct (decide (ks = [])) as [->|Hne].
    - exists b, fs. by split; [|destruct M].
    - destruct (Z.ltb_spec 0 (zlen ks)); [|apply length_zero_iff_nil in Hne || (exfalso; apply Hne, nil_length_inv; lia)].
      destruct (GenerateFilter_spec b gs fs ks M Hn) as (b1 & f & E & M1). by exists b1, (fs ++ [f]). }
  destruct H as (b1 & fs1 & -> & M1). cbn [mbind outcome_bind]. eexists _, fs1, _. split; [done|]. split; [apply (fm_groups _ _ _ _ M1)|]. split; [done|]. split_and!.
  { rewrite (fm_offsets _ _ _ _ M1), (fm_result _ _ _ _ M1), put_offsets. unfold PutFixed32. rewrite !length_app, words_length, length_seq, length_fixed32. cbn [length]. lia. }
  { pose proof (fm_size _ _ _ _ M1) as Hs. destruct (decide (ks = [])) as [->|]; [by rewrite app_nil_r|]. rewrite concat_app in Hs. cbn [concat] in Hs. by rewrite app_nil_r in Hs. }
  intros Hsize. rewrite (fm_offsets _ _ _ _ M1), (fm_result _ _ _ _ M1), put_offsets in *. unfold PutFixed32 in *.
  assert (Hc : zlen (concat fs1) < 2 ^ 32) by (rewrite !length_app in Hsize; lia). unfold filter_block. rewrite seq_S, map_app, concat_app. cbn [map concat].
  rewrite Nat.add_0_l, cat_off_all, app_nil_r, u32_small, <- !app_assoc by lia. f_equal. f_equal. f_equal. apply map_ext. intros i.
  rewrite u32_small; [done|]. pose proof (cat_off_range fs1 i). lia.
Qed.

Lemma new_reader_spec fs : zlen (filter_block fs) < 2 ^ 32 ->
  new_FilterBlockReader (filter_block fs) = Done (MkFilterReader (filter_block fs) (zlen (concat fs)) (zlen fs) kFilterBaseLg).
Proof.
  intros Hsize. unfold new_FilterBlockReader. pose proof (words_length (cat_off fs) (seq 0 (S (length fs)))) as Hw. rewrite length_seq in Hw.
  assert (Hl : zlen (filter_block fs) = zlen (concat fs) + 4 * zlen fs + 5) by (unfold filter_block; rewrite !length_app, Hw; cbn [length]; lia).
  destruct (Z.ltb_spec (zlen (filter_block fs)) 5); [lia|].
  assert (E1 : filter_block fs !! Z.to_nat (zlen (filter_block fs) - 1) = Some kFilterBaseLg).
  { replace (Z.to_nat (zlen (filter_block fs) - 1)) with (length (concat fs) + 4 * S (length fs) + 0)%nat by lia. unfold filter_block.
    rewrite app_assoc, <- Hw, <- length_app, lookup_app_r by lia. by rewrite Nat.add_comm, Nat.add_sub. }
  rewrite E1. cbn [demand mbind outcome_bind].
  assert (E2 : drop (Z.to_nat (zlen (filter_block fs) - 5)) (filter_block fs) = EncodeFixed32 (zlen (concat fs)) ++ [kFilterBaseLg]).
  { replace (Z.to_nat (zlen (filter_block fs) - 5)) with (length (concat fs) + 4 * length fs)%nat by lia. unfold filter_block. rewrite seq_S, map_app, concat_app. cbn [map concat]. rewrite Nat.add_0_l, cat_off_all, app_nil_r, <- !app_assoc, app_assoc.
    apply drop_app_length'. rewrite length_app, words_length, length_seq. lia. }
  rewrite E2, fixed32_back by lia. cbn [mbind outcome_bind]. destruct (Z.ltb_spec (zlen (filter_block fs) - 5) (zlen (concat fs))); [lia|].
  do 2 f_equal. rewrite Hl. replace (zlen (concat fs) + 4 * zlen fs + 5 - 5 - zlen (concat fs)) with (zlen fs * 4) by lia. by rewrite Z.div_mul.
Qed.

Lemma filter_block_bytes gs fs : Forall2 filter_for gs fs -> Forall is_byte (filter_block fs).
Proof.
  intros Hg. unfold filter_block. rewrite !Forall_app. split_and!; [|apply words_bytes|by apply Forall_singleton].
  induction Hg as [|g f gs fs (_ & _ & Hf) Hg IH]; [constructor|]. cbn [concat]. by apply Forall_app.
Qed.

Lemma offset_word fs i : (i <= length fs)%nat -> zlen (filter_block fs) < 2 ^ 32 ->
  DecodeFixed32 (drop (Z.to_nat (zlen (concat fs) + Z.of_nat i * 4)) (filter_block fs)) = Done (cat_off fs i).
Proof.
  intros Hi Hsize. destruct (words_drop (cat_off fs) (seq 0 (S (length fs))) i i) as [rest Er]; [rewrite lookup_seq_lt by lia; done|].
  unfold filter_block. replace (Z.to_nat (zlen (concat fs) + Z.of_nat i * 4)) with (length (concat fs) + 4 * i)%nat by lia.
  rewrite <- drop_drop, drop_app_length, drop_app_le by (rewrite words_length, length_seq; lia). rewrite Er, <- app_assoc. apply fixed32_back.
  pose proof (cat_off_range fs i). unfold filter_block in Hsize. rewrite length_app in Hsize. lia.
Qed.

(** The reader finds the filter of a region. *)
Lemma reader_spec gs fs o k : Forall2 filter_for gs fs -> zlen (filter_block fs) < 2 ^ 32 -> 0 <= o -> valid k ->
  exists b, filter_KeyMayMatch policy o k (MkFilterReader (filter_block fs) (zlen (concat fs)) (zlen fs) kFilterBaseLg) = Done b /\
    forall g k', gs !! Z.to_nat (o / kFilterBase) = Some g -> k' ∈ g -> same k k' -> b = true.
Proof.
  intros Hg Hsize Ho Hk. unfold filter_KeyMayMatch. cbn [base_lg_ num_ fr_offset fr_data]. change (64 <=? kFilterBaseLg) with false. cbv iota.
  rewrite Z.shiftr_div_pow2 by (unfold kFilterBaseLg; lia). change (2 ^ kFilterBaseLg) with kFilterBase. assert (Hi : 0 <= o / kFilterBase) by (apply Z.div_pos; [done|by vm_compute]).
  destruct (Z.ltb_spec (o / kFilterBase) (zlen fs)) as [Hlt|Hge]; [|exists true; split; [done|]; done].
  set (i := Z.to_nat (o / kFilterBase)) in *. assert (Hil : (i < length fs)%nat) by lia. replace (o / kFilterBase) with (Z.of_nat i) by lia. clearbody i.
  destruct (lookup_lt_is_Some_2 fs i) as [f Ef]; [lia|]. destruct (Forall2_lookup_r _ _ _ _ _ Hg Ef) as (g & Eg & Hf).
  rewrite offset_word by (try done; lia). cbn [mbind outcome_bind]. replace (zlen (concat fs) + Z.of_nat i * 4 + 4) with (zlen (concat fs) + Z.of_nat (S i) * 4) by lia.
  rewrite offset_word by (try done; lia). cbn [mbind outcome_bind].
  assert (Ec : concat fs = concat (take i fs) ++ f ++ concat (drop (S i) fs)) by (rewrite <- (take_drop_middle fs i f Ef) at 1; by rewrite concat_app).
  assert (Es : cat_off fs (S i) = cat_off fs i + zlen f) by (unfold cat_off; rewrite (take_S_r fs i f Ef), concat_app, length_app; cbn; rewrite app_nil_r; lia).
  pose proof (cat_off_range fs (S i)). rewrite Es. destruct (Z.leb_spec (cat_off fs i) (cat_off fs i + zlen f)); [|lia].
  destruct (Z.leb_spec (cat_off fs i + zlen f) (zlen (concat fs))); [|lia]. cbn [andb].
  assert (take (Z.to_nat (cat_off fs i + zlen f - cat_off fs i)) (drop (Z.to_nat (cat_off fs i)) (filter_block fs)) = f) as ->.
  { unfold filter_block. rewrite Ec, <- !app_assoc. unfold cat_off. rewrite drop_app_length' by lia. by rewrite take_app_length' by lia. }
  destruct Hf as (Hmatch & Htotal & _). destruct (Htotal k Hk) as [b Eb]. exists b. split; [done|]. intros g' k' Eg' Hin Hsame. rewrite Eg in Eg'. injection Eg' as <-.
  specialize (Hmatch k k' Hk Hin Hsame). congruence.
Qed.

(** ** Keys are in the filter of their block *)

Lemma start_groups_length idx gs ks : (length gs <= idx)%nat -> length (start_groups idx gs ks).1 = idx.
Proof.
  intros Hle. unfold start_groups. destruct (Nat.ltb_spec (length gs) idx); cbn [fst]; [|lia]. rewrite length_app. cbn [length]. rewrite length_replicate. lia.
Qed.

Lemma start_groups_total idx gs ks : (length (concat (start_groups idx gs ks).1) + length (start_groups idx gs ks).2 = length (concat gs) + length ks)%nat.
Proof.
  unfold start_groups. destruct (length gs <? idx)%nat; [|done]. cbn [fst snd]. rewrite concat_app. cbn [concat]. rewrite !length_app. cbn [length].
  assert (concat (replicate (idx - length gs - 1) (@nil (list Z))) = []) as ->; [|cbn; lia]. by induction (idx - length gs - 1)%nat.
Qed.

Lemma start_groups_pending idx gs ks : (start_groups idx gs ks).2 ⊆ ks.
Proof. unfold start_groups. destruct (length gs <? idx)%nat; cbn [snd]; [apply list_subseteq_nil|done]. Qed.

Lemma start_groups_count idx gs ks : (length (start_groups idx gs ks).2 <= length ks)%nat.
Proof. unfold start_groups. destruct (length gs <? idx)%nat; cbn; lia. Qed.

(** A key of region [i] is in the group of the region, made or pending. *)
Definition placed (gs : list (list (list Z))) (ks : list (list Z)) (i : nat) (k : list Z) : Prop :=
  (exists g, gs !! i = Some g /\ k ∈ g) \/ (i = length gs /\ k ∈ ks).

Lemma placed_start idx gs ks i k : (length gs <= idx)%nat -> placed gs ks i k -> placed (start_groups idx gs ks).1 (start_groups idx gs ks).2 i k.
Proof.
  intros Hle Hp. unfold start_groups. destruct (Nat.ltb_spec (length gs) idx) as [Hlt|]; [|done]. cbn [fst snd]. left. destruct Hp as [(g & Eg & Hin)|[-> Hin]].
  - exists g. split; [by apply lookup_app_l_Some|done].
  - exists ks. split; [by apply list_lookup_middle|done].
Qed.

Lemma placed_add gs ks i k k' : placed gs ks i k -> placed gs (ks ++ [k']) i k.
Proof. intros [?|[-> ?]]; [by left|right]. split; [done|]. apply elem_of_app. by left. Qed.

Lemma placed_new gs ks k : placed gs (ks ++ [k]) (length gs) k.
Proof. right. split; [done|]. apply elem_of_app. right. by apply list_elem_of_singleton. Qed.

Lemma placed_finish gs ks i k : placed gs ks i k -> exists g, (if decide (ks = []) then gs else gs ++ [ks]) !! i = Some g /\ k ∈ g.
Proof.
  intros [(g & Eg & Hin)|[-> Hin]].
  - exists g. split; [|done]. destruct (decide (ks = [])); [done|by apply lookup_app_l_Some].
  - exists ks. destruct (decide (ks = [])) as [->|]; [by apply elem_of_nil in Hin|]. split; [by apply list_lookup_middle|done].
Qed.

(** The calls that a table builder makes: a block is started, its keys are
    added. *)
Fixpoint add_filter_keys (keys : list (list Z)) (b : FilterBlockBuilder) : FilterBlockBuilder :=
  match keys with [] => b | k :: keys => add_filter_keys keys (AddKey k b) end.

Fixpoint filter_blocks (bs : list (Z * list (list Z))) (b : FilterBlockBuilder) : outcome FilterBlockBuilder :=
  match bs with
  | [] => Done b
  | (o, keys) :: bs => b ← StartBlock policy o b; filter_blocks bs (add_filter_keys keys b)
  end.

Lemma add_filter_keys_spec keys : forall b gs fs ks, filters_made b gs fs ks -> Forall valid keys -> filters_made (add_filter_keys keys b) gs fs (ks ++ keys).
Proof.
  induction keys as [|k keys IH]; intros b gs fs ks M Hv; cbn [add_filter_keys]; [by rewrite app_nil_r|]. apply Forall_cons in Hv as [Hk Hv].
  rewrite cons_middle, app_assoc. apply IH; [by apply AddKey_spec|done].
Qed.

(** The number of keys of all blocks. *)
Definition key_count (bs : list (Z * list (list Z))) : Z := zlen (concat (map snd bs)).

Lemma filter_blocks_spec bs : forall b gs fs ks,
  filters_made b gs fs ks -> Forall (fun p => Forall valid p.2) bs -> zlen ks + key_count bs < 2 ^ 31 ->
  Sorted.StronglySorted (fun a b => a <= b) (kFilterBase * zlen gs :: map fst bs) ->
  exists b' gs' fs' ks', filter_blocks bs b = Done b' /\ filters_made b' gs' fs' ks' /\ zlen ks' < 2 ^ 31 /\
    (forall i k, placed gs ks i k -> placed gs' ks' i k) /\
    (forall o keys k, (o, keys) ∈ bs -> k ∈ keys -> placed gs' ks' (Z.to_nat (o / kFilterBase)) k).
Proof.
  induction bs as [|[o keys] bs IH]; intros b gs fs ks M Hv Hn Hs.
  { exists b, gs, fs, ks. unfold key_count in Hn. cbn in Hn. split_and!; [done|done|lia|done|]. intros o keys k Hin. by apply elem_of_nil in Hin. }
  cbn [map] in Hs. apply Sorted.StronglySorted_inv in Hs as [Hs Hle]. apply Forall_cons in Hle as [Ho _]. cbn [fst] in Ho. unfold key_count in *. cbn [map concat] in Hn. rewrite length_app in Hn.
  apply Forall_cons in Hv as [Hk Hv]. cbn [snd] in Hk, Hn. cbn [filter_blocks].
  assert (Hbase : 0 < kFilterBase) by done. assert (Hidx : zlen gs <= o / kFilterBase) by (apply Z.div_le_lower_bound; lia).
  destruct (StartBlock_spec b gs fs ks o M) as (b1 & fs1 & -> & M1); [lia|done|]. cbn [mbind outcome_bind].
  set (idx := Z.to_nat (o / kFilterBase)) in *. assert (Hgl : (length gs <= idx)%nat) by lia.
  pose proof (start_groups_length idx gs ks Hgl) as Hlen. pose proof (start_groups_count idx gs ks) as Hcount.
  pose proof (add_filter_keys_spec keys b1 _ _ _ M1 Hk) as M2.
  destruct (IH _ _ _ _ M2 Hv) as (b' & gs' & fs' & ks' & E & M' & Hn' & Hold & Hnew); [rewrite length_app; lia| |].
  { apply Sorted.StronglySorted_inv in Hs as [Hs Hle]. constructor; [done|]. eapply Forall_impl; [exact Hle|]. intros z Hz. cbn [fst] in Hz. rewrite Hlen.
    assert (Z.of_nat idx = o / kFilterBase) as -> by (subst idx; lia). pose proof (Z.mul_div_le o kFilterBase Hbase). lia. }
  exists b', gs', fs', ks'. split_and!; [done|done|lia| |].
  - intros i k Hp. apply Hold. apply (placed_start idx) in Hp; [|done]. destruct Hp as [?|[-> Hin]]; [by left|right; split; [done|]; apply elem_of_app; by left].
  - intros o' keys' k Hin Hk'. apply elem_of_cons in Hin as [Hin|Hin]; [|by apply (Hnew o' keys')]. injection Hin as -> ->. apply Hold. right. split; [fold idx; lia|]. apply elem_of_app. by right.
Qed.
End FilterSpec.
