(* ===== verification/LdbTwoLevel.v ===== *)
(** * LdbTwoLevel: iterators over the blocks of a table
    (table/iterator_wrapper.h, table/two_level_iterator.cc).

    The code is written against the interface of iterators, and so is what is
    proved here: over an index that is a cursor and blocks that are cursors, the
    two-level iterator is a cursor over all entries. *)

From Stdlib Require Import ZifyBool Sorting.Sorted.
From stdpp Require Import base tactics numbers list gmap strings sorting.
From S2P Require Import Prelude LdbCoding LdbLog LdbKey LdbKeySpec LdbIter.
Open Scope Z_scope.

(** ** iterator_wrapper.h *)

Section Wrapper.
Context {I : Type} `{!Iterator I}.

Record IteratorWrapper : Type := MkWrapper { w_iter : option I; w_valid : bool; w_key_ : list Z }.

Definition w_Update (it : I) (w : IteratorWrapper) : outcome IteratorWrapper :=
  if vValid it then k ← vkey it; Done (MkWrapper (Some it) true k) else Done (MkWrapper (Some it) false (w_key_ w)).

Definition w_Set (iter : option I) (w : IteratorWrapper) : outcome IteratorWrapper :=
  match iter with
  | None => Done (MkWrapper None false (w_key_ w))
  | Some it => w_Update it w
  end.

(** [IteratorWrapper(iter)] *)
Definition new_wrapper (iter : option I) : outcome IteratorWrapper := w_Set iter (MkWrapper None false []).

Definition w_key (w : IteratorWrapper) : outcome (list Z) := if w_valid w then Done (w_key_ w) else Undef.
Definition w_value (w : IteratorWrapper) : outcome (list Z) := if w_valid w then it ← demand (w_iter w); vvalue it else Undef.
Definition w_status (w : IteratorWrapper) : outcome Status := it ← demand (w_iter w); Done (vstatus it).

(** The moving methods: [assert(iter_)], the call, [Update()]. *)
Definition w_move (f : I -> outcome I) (w : IteratorWrapper) : outcome IteratorWrapper :=
  it ← demand (w_iter w); it ← f it; w_Update it w.
Definition w_Next : IteratorWrapper -> outcome IteratorWrapper := w_move vNext.
Definition w_Prev : IteratorWrapper -> outcome IteratorWrapper := w_move vPrev.
Definition w_Seek (k : list Z) : IteratorWrapper -> outcome IteratorWrapper := w_move (vSeek k).
Definition w_SeekToFirst : IteratorWrapper -> outcome IteratorWrapper := w_move vSeekToFirst.
Definition w_SeekToLast : IteratorWrapper -> outcome IteratorWrapper := w_move vSeekToLast.

(** The wrapper shows the state of the iterator. *)
Definition wraps (w : IteratorWrapper) (it : I) : Prop := w_iter w = Some it /\ w_valid w = vValid it /\ (vValid it = true -> vkey it = Done (w_key_ w)).

Context {valid : list Z -> Prop} {cmp : list Z -> list Z -> Z} {es : list entry} {at_ : I -> nat -> Prop} `{!Cursor valid cmp es at_}.

Lemma Update_spec it i w : at_ it i -> exists w', w_Update it w = Done w' /\ wraps w' it.
Proof.
  intros Hat. unfold w_Update, wraps. pose proof (cur_valid it i Hat) as Hv. case_bool_decide as Hi; rewrite Hv.
  - destruct (lookup_lt_is_Some_2 es i Hi) as [e Ee]. destruct (cur_entry it i e Hat Ee) as [-> _]. cbn. by eexists.
  - eexists. split; [done|]. cbn. done.
Qed.

Lemma move_spec f w it it' i : wraps w it -> f it = Done it' -> at_ it' i -> exists w', w_move f w = Done w' /\ wraps w' it'.
Proof.
  intros (Ew & _) Ef Hat. unfold w_move. rewrite Ew. cbn [demand mbind outcome_bind]. rewrite Ef. cbn [mbind outcome_bind]. by apply (Update_spec it' i).
Qed.

Lemma wraps_entry w it i e : wraps w it -> at_ it i -> es !! i = Some e -> w_key w = Done e.1 /\ w_value w = Done e.2 /\ w_valid w = true.
Proof.
  intros (Ew & Ev & Ek) Hat Ee. pose proof (lookup_lt_Some _ _ _ Ee). unfold w_key, w_value. rewrite Ew, Ev, (cur_valid it i Hat), bool_decide_true by done.
  rewrite (cur_valid it i Hat), bool_decide_true in Ek by done. specialize (Ek eq_refl). destruct (cur_entry it i e Hat Ee) as [E1 E2]. cbn. rewrite E2. rewrite E1 in Ek. by injection Ek as ->.
Qed.

Lemma wraps_valid w it i : wraps w it -> at_ it i -> w_valid w = bool_decide (i < length es)%nat.
Proof. intros (_ & -> & _) Hat. by apply cur_valid. Qed.

Lemma wraps_status w it i : wraps w it -> at_ it i -> w_status w = Done OK.
Proof. intros (Ew & _) Hat. unfold w_status. rewrite Ew. cbn. by rewrite (cur_status it i Hat). Qed.
End Wrapper.
Arguments IteratorWrapper I : clear implicits.

(** ** two_level_iterator.cc *)

Section TwoLevel.
(** [S] is what [arg_] points to; [fuel] bounds the blocks skipped at once. *)
Context {II DI S : Type} `{!Iterator II} `{!Iterator DI} (block_function : list Z -> S -> outcome (DI * S)) (fuel : nat).

Record TwoLevelIterator : Type := MkTwoLevel {
  tl_arg : S;
  tl_status_ : Status;
  index_iter_ : IteratorWrapper II;
  data_iter_ : IteratorWrapper DI;
  data_block_handle_ : list Z;
}.

Definition NewTwoLevelIterator (index_iter : II) (arg : S) : outcome TwoLevelIterator :=
  index ← new_wrapper (Some index_iter);
  data ← new_wrapper None;
  Done (MkTwoLevel arg OK index data []).

Definition set_index (w : IteratorWrapper II) (t : TwoLevelIterator) : TwoLevelIterator := MkTwoLevel (tl_arg t) (tl_status_ t) w (data_iter_ t) (data_block_handle_ t).
Definition set_data (w : IteratorWrapper DI) (t : TwoLevelIterator) : TwoLevelIterator := MkTwoLevel (tl_arg t) (tl_status_ t) (index_iter_ t) w (data_block_handle_ t).

Definition SaveError (s : Status) (t : TwoLevelIterator) : TwoLevelIterator :=
  if ok (tl_status_ t) && negb (ok s) then MkTwoLevel (tl_arg t) s (index_iter_ t) (data_iter_ t) (data_block_handle_ t) else t.

Definition SetDataIterator (data_iter : option DI) (t : TwoLevelIterator) : outcome TwoLevelIterator :=
  let t := match w_iter (data_iter_ t) with Some it => SaveError (vstatus it) t | None => t end in
  data ← w_Set data_iter (data_iter_ t);
  Done (set_data data t).

Definition InitDataBlock (t : TwoLevelIterator) : outcome TwoLevelIterator :=
  if negb (w_valid (index_iter_ t)) then SetDataIterator None t
  else
    handle ← w_value (index_iter_ t);
    if bool_decide (w_iter (data_iter_ t) <> None) && (compare handle (data_block_handle_ t) =? 0) then Done t
    else
      '(iter, arg) ← block_function handle (tl_arg t);
      SetDataIterator (Some iter) (MkTwoLevel arg (tl_status_ t) (index_iter_ t) (data_iter_ t) handle).

(** [if (data_iter_.iter() != nullptr) data_iter_.f()] *)
Definition on_data (f : IteratorWrapper DI -> outcome (IteratorWrapper DI)) (t : TwoLevelIterator) : outcome TwoLevelIterator :=
  match w_iter (data_iter_ t) with
  | Some _ => data ← f (data_iter_ t); Done (set_data data t)
  | None => Done t
  end.

Definition on_index (f : IteratorWrapper II -> outcome (IteratorWrapper II)) (t : TwoLevelIterator) : outcome TwoLevelIterator :=
  index ← f (index_iter_ t); Done (set_index index t).

(** [SkipEmptyDataBlocksForward] with [Next], [SeekToFirst], and
    [SkipEmptyDataBlocksBackward] with [Prev], [SeekToLast]. *)
Fixpoint SkipEmptyDataBlocks (move : IteratorWrapper II -> outcome (IteratorWrapper II)) (enter : IteratorWrapper DI -> outcome (IteratorWrapper DI))
    (fuel : nat) (t : TwoLevelIterator) : outcome TwoLevelIterator :=
  match fuel with
  | O => NoFuel
  | Datatypes.S fuel =>
    if bool_decide (w_iter (data_iter_ t) = None) || negb (w_valid (data_iter_ t)) then
      if negb (w_valid (index_iter_ t)) then SetDataIterator None t
      else
        t ← on_index move t;
        t ← InitDataBlock t;
        t ← on_data enter t;
        SkipEmptyDataBlocks move enter fuel t
    else Done t
  end.
Definition SkipEmptyDataBlocksForward : TwoLevelIterator -> outcome TwoLevelIterator := SkipEmptyDataBlocks w_Next w_SeekToFirst fuel.
Definition SkipEmptyDataBlocksBackward : TwoLevelIterator -> outcome TwoLevelIterator := SkipEmptyDataBlocks w_Prev w_SeekToLast fuel.

Definition tl_Seek (target : list Z) (t : TwoLevelIterator) : outcome TwoLevelIterator :=
  t ← on_index (w_Seek target) t; t ← InitDataBlock t; t ← on_data (w_Seek target) t; SkipEmptyDataBlocksForward t.
Definition tl_SeekToFirst (t : TwoLevelIterator) : outcome TwoLevelIterator :=
  t ← on_index w_SeekToFirst t; t ← InitDataBlock t; t ← on_data w_SeekToFirst t; SkipEmptyDataBlocksForward t.
Definition tl_SeekToLast (t : TwoLevelIterator) : outcome TwoLevelIterator :=
  t ← on_index w_SeekToLast t; t ← InitDataBlock t; t ← on_data w_SeekToLast t; SkipEmptyDataBlocksBackward t.

Definition tl_Valid (t : TwoLevelIterator) : bool := w_valid (data_iter_ t).
Definition tl_Next (t : TwoLevelIterator) : outcome TwoLevelIterator :=
  if tl_Valid t then data ← w_Next (data_iter_ t); SkipEmptyDataBlocksForward (set_data data t) else Undef.
Definition tl_Prev (t : TwoLevelIterator) : outcome TwoLevelIterator :=
  if tl_Valid t then data ← w_Prev (data_iter_ t); SkipEmptyDataBlocksBackward (set_data data t) else Undef.
Definition tl_key (t : TwoLevelIterator) : outcome (list Z) := if tl_Valid t then w_key (data_iter_ t) else Undef.
Definition tl_value (t : TwoLevelIterator) : outcome (list Z) := if tl_Valid t then w_value (data_iter_ t) else Undef.

Definition tl_status (t : TwoLevelIterator) : Status :=
  match w_iter (index_iter_ t) with
  | Some index =>
    if negb (ok (vstatus index)) then vstatus index
    else match w_iter (data_iter_ t) with
         | Some data => if negb (ok (vstatus data)) then vstatus data else tl_status_ t
         | None => tl_status_ t
         end
  | None => tl_status_ t
  end.

Instance two_level : Iterator TwoLevelIterator := {|
  vValid := tl_Valid;
  vSeekToFirst := tl_SeekToFirst;
  vSeekToLast := tl_SeekToLast;
  vSeek := tl_Seek;
  vNext := tl_Next;
  vPrev := tl_Prev;
  vkey := tl_key;
  vvalue := tl_value;
  vstatus := tl_status;
|}.
End TwoLevel.
Arguments TwoLevelIterator II DI S : clear implicits.

(** * The two-level iterator is a cursor over the entries of
    all blocks. *)


(** ** Lower bounds in concatenations *)

Lemma lower_bound_app cmp target es es' : lower_bound cmp target (es ++ es') =
  if (lower_bound cmp target es <? length es)%nat then lower_bound cmp target es else (length es + lower_bound cmp target es')%nat.
Proof.
  induction es as [|e es IH]; [done|]. cbn [lower_bound app length]. destruct (cmp e.1 target <? 0); [|done]. rewrite IH.
  destruct (Nat.ltb_spec (lower_bound cmp target es) (length es)), (Nat.ltb_spec (S (lower_bound cmp target es)) (S (length es))); lia.
Qed.

Lemma lower_bound_all cmp target es : Forall (fun e => cmp e.1 target < 0) es -> lower_bound cmp target es = length es.
Proof. induction 1 as [|e es He Hes IH]; [done|]. cbn [lower_bound length]. destruct (Z.ltb_spec (cmp e.1 target) 0); [by rewrite IH|lia]. Qed.

Lemma lower_bound_none cmp target es : Forall (fun e => 0 <= cmp e.1 target) es -> lower_bound cmp target es = 0%nat.
Proof. destruct 1 as [|e es He Hes]; [done|]. cbn [lower_bound]. destruct (Z.ltb_spec (cmp e.1 target) 0); [lia|done]. Qed.

Lemma concat_lookup {A} (bs : list (list A)) i b l : bs !! i = Some b -> (l < length b)%nat -> concat bs !! (length (concat (take i bs)) + l)%nat = b !! l.
Proof.
  intros E Hl. assert (concat bs = concat (take i bs) ++ b ++ concat (drop (S i) bs)) as -> by (rewrite <- (take_drop_middle bs i b E) at 1; by rewrite concat_app).
  rewrite lookup_app_r by lia. rewrite lookup_app_l by lia. f_equal. lia.
Qed.

(** ** The index and its blocks *)

Section Spec.
Context {II DI S : Type} `{!Iterator II} `{!Iterator DI} (block_function : list Z -> S -> outcome (DI * S)) (fuel : nat).
Context {valid : list Z -> Prop} {cmp : list Z -> list Z -> Z} {compare : list Z -> list Z -> outcome Z} `{!Ordered compare valid cmp}.
Context (idx : list entry) (blks : list (list entry)) (iat : II -> nat -> Prop) (dat : nat -> DI -> nat -> Prop) (good : S -> Prop).

(** Block [i] has entries up to the [i]th key of the index, the blocks after it
    have entries past that key. *)
Record separated : Prop := {
  sep_length : length idx = length blks;
  sep_nonempty i b : blks !! i = Some b -> b <> [];
  sep_valid : Forall (fun e => valid e.1) idx /\ Forall (Forall (fun e => valid e.1)) blks;
  sep_below i e b : idx !! i = Some e -> blks !! i = Some b -> Forall (fun d => cmp d.1 e.1 <= 0) b;
  sep_above i j e b : idx !! i = Some e -> blks !! j = Some b -> (i < j)%nat -> Forall (fun d => cmp e.1 d.1 < 0) b;
}.

Context (Hfuel : (2 < fuel)%nat) (Sep : separated) `{!Cursor valid cmp idx iat} (Hdat : forall i b, blks !! i = Some b -> Cursor valid cmp b (dat i)).
Context (Hdistinct : forall i j e e', idx !! i = Some e -> idx !! j = Some e' -> e.2 = e'.2 -> i = j).
Context (Hblock : forall i e b s, idx !! i = Some e -> blks !! i = Some b -> good s ->
  exists d s', block_function e.2 s = Done (d, s') /\ good s' /\ dat i d (length b)).

Abbreviation TL := (TwoLevelIterator II DI S).
Abbreviation N := (length idx).
Abbreviation all := (concat blks).
(** The index of the first entry of block [i]. *)
Definition start (i : nat) : nat := length (concat (take i blks)).

Lemma start_S i b : blks !! i = Some b -> start (Datatypes.S i) = (start i + length b)%nat.
Proof. intros E. unfold start. rewrite (take_S_r blks i b E), concat_app, length_app. cbn. rewrite app_nil_r. lia. Qed.

Lemma start_N : start N = length all.
Proof. unfold start. rewrite (sep_length Sep). by rewrite take_ge. Qed.

Lemma start_le i : (start i <= length all)%nat.
Proof. unfold start. rewrite <- (take_drop i blks) at 2. rewrite concat_app, length_app. lia. Qed.

Lemma lower_bound_blocks target : valid target ->
  lower_bound cmp target all = match blks !! lower_bound cmp target idx with
                               | Some b => (start (lower_bound cmp target idx) + lower_bound cmp target b)%nat
                               | None => length all
                               end.
Proof.
  intros Ht. pose proof (lower_bound_le cmp target idx) as Hle. set (i := lower_bound cmp target idx) in *.
  assert (Hbefore : Forall (fun e => cmp e.1 target < 0) (concat (take i blks))).
  { apply Forall_concat, Forall_lookup. intros j b Ej. apply lookup_take_Some in Ej as [Ej Hj]. destruct (lookup_lt_is_Some_2 idx j) as [e Ee]; [lia|].
    pose proof (lower_bound_before cmp target idx j e Hj Ee) as Hlt. pose proof (sep_below Sep j e b Ee Ej) as Hb. destruct (sep_valid Sep) as [Hvi Hvb].
    pose proof (Forall_lookup_1 _ _ _ _ Hvb Ej) as Hv. apply Forall_forall. intros d Hd. rewrite Forall_forall in Hb, Hv.
    apply (cmp_le_lt _ e.1); [by apply Hv|exact (Forall_lookup_1 _ _ _ _ Hvi Ee)|done|by apply Hb|done]. }
  destruct (blks !! i) as [b|] eqn:Eb.
  - rewrite <- (take_drop_middle blks i b Eb) at 1. rewrite concat_app. cbn [concat]. rewrite lower_bound_app, (lower_bound_all _ _ _ Hbefore), Nat.ltb_irrefl.
    fold (start i). f_equal. rewrite lower_bound_app. pose proof (lower_bound_le cmp target b). destruct (Nat.ltb_spec (lower_bound cmp target b) (length b)); [done|].
    rewrite lower_bound_none; [lia|]. apply Forall_concat, Forall_lookup. intros j d Ej. rewrite lookup_drop in Ej.
    destruct (lookup_lt_is_Some_2 idx i) as [e Ee]; [rewrite (sep_length Sep); by apply lookup_lt_Some in Eb|]. pose proof (lower_bound_at cmp target idx e Ee) as Hge.
    pose proof (sep_above Sep i _ e d Ee Ej ltac:(lia)) as Hab. destruct (sep_valid Sep) as [Hvi Hvb]. pose proof (Forall_lookup_1 _ _ _ _ Hvb Ej) as Hv.
    apply Forall_forall. intros x Hx. rewrite Forall_forall in Hab, Hv. specialize (Hab x Hx). specialize (Hv x Hx). pose proof (Forall_lookup_1 _ _ _ _ Hvi Ee) as Hve. cbn beta in *.
    destruct (Z.le_gt_cases 0 (cmp x.1 target)); [done|]. pose proof (cmp_lt_trans e.1 x.1 target Hve Hv Ht Hab ltac:(lia)). lia.
  - apply lookup_ge_None in Eb. rewrite take_ge in Hbefore by done. by apply lower_bound_all.
Qed.

(** ** States *)

(** Healthy, with the index on [i]. *)
Record calm (t : TL) (i : nat) : Prop := {
  ca_index : exists it, wraps (index_iter_ t) it /\ iat it i;
  ca_status : tl_status_ t = OK;
  ca_arg : good (tl_arg t);
  ca_data : forall d, w_iter (data_iter_ t) = Some d ->
    wraps (data_iter_ t) d /\ exists k e b l, idx !! k = Some e /\ blks !! k = Some b /\ data_block_handle_ t = e.2 /\ dat k d l;
}.

(** On entry [l] of block [i]; past the end of the block when [l] is its length. *)
Record inside (t : TL) (i l : nat) : Prop := {
  in_calm : calm t i;
  in_data : exists d e b, w_iter (data_iter_ t) = Some d /\ idx !! i = Some e /\ blks !! i = Some b /\ data_block_handle_ t = e.2 /\ dat i d l;
}.

Record outside (t : TL) : Prop := { out_calm : calm t N; out_data : w_iter (data_iter_ t) = None /\ w_valid (data_iter_ t) = false }.

Definition tl_at (t : TL) (j : nat) : Prop :=
  (exists i l b, inside t i l /\ blks !! i = Some b /\ (l < length b)%nat /\ j = (start i + l)%nat) \/ (outside t /\ j = length all).

Lemma calm_valid t i : calm t i -> w_valid (index_iter_ t) = bool_decide (i < N)%nat.
Proof. intros C. destruct (ca_index _ _ C) as (it & W & A). by apply (wraps_valid _ it). Qed.

Lemma calm_range t i : calm t i -> (i <= N)%nat.
Proof. intros C. destruct (ca_index _ _ C) as (it & W & A). by apply (cur_range it). Qed.

Lemma index_move f t i j : calm t i -> (forall it, iat it i -> exists it', f it = Done it' /\ iat it' j) -> exists t', on_index (w_move f) t = Done t' /\ calm t' j.
Proof.
  intros C Hf. destruct (ca_index _ _ C) as (it & W & A). destruct (Hf it A) as (it' & E & A'). unfold on_index.
  destruct (move_spec f (index_iter_ t) it it' j W E A') as (w' & -> & W'). eexists. split; [done|]. split; [by exists it'|apply (ca_status _ _ C)|apply (ca_arg _ _ C)|apply (ca_data _ _ C)].
Qed.

Lemma data_status d k e b l : idx !! k = Some e -> blks !! k = Some b -> dat k d l -> vstatus d = OK.
Proof. intros _ Eb D. pose proof (Hdat k b Eb). by apply (cur_status d l). Qed.

(** Replacing a healthy data iterator saves no error. *)
Lemma set_data_quiet (t : TL) : (forall d, w_iter (data_iter_ t) = Some d -> vstatus d = OK) ->
  match w_iter (data_iter_ t) with Some it => SaveError (vstatus it) t | None => t end = t.
Proof. intros H. destruct (w_iter (data_iter_ t)) as [d|] eqn:E; [|done]. unfold SaveError. by rewrite (H d eq_refl), andb_false_r. Qed.

Lemma calm_quiet t i : calm t i -> forall d, w_iter (data_iter_ t) = Some d -> vstatus d = OK.
Proof. intros C d E. destruct (ca_data _ _ C d E) as (_ & k & e & b & l & Ei & Eb & _ & D). by apply (data_status d k e b l). Qed.

Lemma set_none t i : calm t i -> exists t', SetDataIterator None t = Done t' /\ calm t' i /\ w_iter (data_iter_ t') = None /\ w_valid (data_iter_ t') = false.
Proof.
  intros C. unfold SetDataIterator. rewrite (set_data_quiet t (calm_quiet t i C)). cbn [w_Set mbind outcome_bind]. eexists. split; [done|]. split; [|done].
  split; [apply (ca_index _ _ C)|apply (ca_status _ _ C)|apply (ca_arg _ _ C)|done].
Qed.

Lemma InitDataBlock_end t : calm t N -> exists t', InitDataBlock block_function t = Done t' /\ outside t'.
Proof.
  intros C. unfold InitDataBlock. rewrite (calm_valid t N C), bool_decide_false by lia. cbn [negb]. destruct (set_none t N C) as (t' & E & C' & D). exists t'. split; [done|]. by split.
Qed.

Lemma InitDataBlock_block t i : calm t i -> (i < N)%nat -> exists t' l, InitDataBlock block_function t = Done t' /\ inside t' i l.
Proof.
  intros C Hi. destruct (lookup_lt_is_Some_2 idx i Hi) as [e Ee]. destruct (lookup_lt_is_Some_2 blks i) as [b Eb]; [by rewrite <- (sep_length Sep)|].
  unfold InitDataBlock. destruct (ca_index _ _ C) as (it & W & A). destruct (wraps_entry _ it i e W A Ee) as (_ & -> & ->). cbn [negb mbind outcome_bind].
  assert (Hnew : exists t' l, ('(iter, arg) ← block_function e.2 (tl_arg t);
      SetDataIterator (Some iter) (MkTwoLevel arg (tl_status_ t) (index_iter_ t) (data_iter_ t) e.2)) = Done t' /\ inside t' i l).
  { destruct (Hblock i e b (tl_arg t) Ee Eb (ca_arg _ _ C)) as (d & s & -> & Hs & D). cbn [mbind outcome_bind]. pose proof (Hdat i b Eb) as Cd.
    unfold SetDataIterator. rewrite set_data_quiet by exact (calm_quiet t i C). cbn [data_iter_ w_Set]. destruct (Update_spec d (length b) (data_iter_ t) D) as (w & -> & Wd).
    cbn [mbind outcome_bind]. eexists _, (length b). split; [done|]. assert (Ew : w_iter w = Some d) by apply Wd. split; cbn.
    - split; cbn; [by exists it|apply (ca_status _ _ C)|done|]. intros d' Ed'. rewrite Ew in Ed'. injection Ed' as <-. split; [done|]. by exists i, e, b, (length b).
    - by exists d, e, b. }
  case_bool_decide as Hd; cbn [andb]; [|done]. destruct (Z.eqb_spec (LdbKey.compare e.2 (data_block_handle_ t)) 0) as [Ec|_]; [|done].
  destruct (w_iter (data_iter_ t)) as [d|] eqn:Ed; [|done]. destruct (ca_data _ _ C d Ed) as (Wd & k & e' & b' & l & Ei & Eb' & Eh & D).
  rewrite compare_lex in Ec. apply lex_zero in Ec. assert (i = k) as -> by (apply (Hdistinct i k e e'); [done..|congruence]). exists t, l. split; [done|]. split; [done|].
  exists d, e', b'. split_and!; congruence.
Qed.

(** Moving the data iterator. *)
Lemma data_move f t i l l' : inside t i l -> (forall d b, blks !! i = Some b -> dat i d l -> exists d', f d = Done d' /\ dat i d' l') ->
  exists w, w_move f (data_iter_ t) = Done w /\ inside (set_data w t) i l' /\ on_data (w_move f) t = Done (set_data w t).
Proof.
  intros [C (d & e & b & Ed & Ee & Eb & Eh & D)] Hf. destruct (Hf d b Eb D) as (d' & Ef & D'). destruct (ca_data _ _ C d Ed) as [Wd _]. pose proof (Hdat i b Eb) as Cd.
  destruct (move_spec f (data_iter_ t) d d' l' Wd Ef D') as (w & Ew & W). exists w. split; [done|]. split; [|unfold on_data; by rewrite Ed, Ew].
  assert (Ewi : w_iter w = Some d') by apply W. split; [|by exists d', e, b].
  split; cbn; [apply (ca_index _ _ C)|apply (ca_status _ _ C)|apply (ca_arg _ _ C)|]. intros d0 E0. rewrite Ewi in E0. injection E0 as <-. split; [done|]. by exists i, e, b, l'.
Qed.

Lemma inside_valid t i l b : inside t i l -> blks !! i = Some b -> w_valid (data_iter_ t) = bool_decide (l < length b)%nat /\ w_iter (data_iter_ t) <> None /\ (i < N)%nat.
Proof.
  intros [C (d & e & b' & Ed & Ee & Eb & Eh & D)] Eb'. rewrite Eb in Eb'. injection Eb' as ->. destruct (ca_data _ _ C d Ed) as [Wd _]. pose proof (Hdat i b Eb) as Cd.
  split_and!; [by apply (wraps_valid _ d)|by rewrite Ed|by apply lookup_lt_Some in Ee].
Qed.

(** ** Skipping *)

Lemma skip_outside move enter n t : outside t -> exists t', SkipEmptyDataBlocks block_function move enter (Datatypes.S n) t = Done t' /\ outside t'.
Proof.
  intros [C [Ed Ev]]. cbn [SkipEmptyDataBlocks]. rewrite Ed, bool_decide_true by done. cbn [orb]. rewrite (calm_valid t N C), bool_decide_false by lia. cbn [negb].
  destruct (set_none t N C) as (t' & E & C' & D). exists t'. split; [done|]. by split.
Qed.

Lemma skip_valid move enter n t i l b : inside t i l -> blks !! i = Some b -> (l < length b)%nat -> SkipEmptyDataBlocks block_function move enter (Datatypes.S n) t = Done t.
Proof.
  intros In Eb Hl. destruct (inside_valid t i l b In Eb) as (Ev & En & _). cbn [SkipEmptyDataBlocks]. rewrite Ev, bool_decide_false, (bool_decide_true (l < length b)%nat) by done. done.
Qed.

(** Entering block [i] at a valid entry, or leaving. *)
Lemma enter_block enter t i j : calm t i ->
  (forall k b d l, blks !! k = Some b -> dat k d l -> exists d', enter d = Done d' /\ dat k d' (j k)) ->
  (i < N)%nat -> exists t1 t2, InitDataBlock block_function t = Done t1 /\ on_data (w_move enter) t1 = Done t2 /\ inside t2 i (j i).
Proof.
  intros C He Hi. destruct (InitDataBlock_block t i C Hi) as (t1 & l & E1 & In). destruct (data_move enter t1 i l (j i) In) as (w & _ & In2 & E2).
  { intros d b Eb D. by apply (He i b d l). }
  by exists t1, (set_data w t1).
Qed.

Lemma fuel_two : exists n, fuel = Datatypes.S (Datatypes.S n).
Proof. exists (fuel - 2)%nat. lia. Qed.

(** One step past the end of a block and into another. *)
Lemma skip_step move enter j next t i b l : inside t i l -> blks !! i = Some b -> (length b <= l)%nat ->
  (forall it, iat it i -> exists it', move it = Done it' /\ iat it' next) ->
  (forall k b d l, blks !! k = Some b -> dat k d l -> exists d', enter d = Done d' /\ dat k d' (j k)) ->
  (forall b, blks !! next = Some b -> (j next < length b)%nat) -> (next <= N)%nat ->
  exists t', SkipEmptyDataBlocks block_function (w_move move) (w_move enter) fuel t = Done t' /\ (if decide (next = N) then outside t' else inside t' next (j next)).
Proof.
  intros In Eb Hl Hmove Henter Hvalid Hn. destruct fuel_two as [n Efuel]. rewrite Efuel. destruct (inside_valid t i l b In Eb) as (Ev & En & Hi).
  cbn [SkipEmptyDataBlocks]. rewrite Ev, (bool_decide_false (l < length b)%nat) by lia. rewrite orb_true_r. rewrite (calm_valid t i (in_calm _ _ _ In)), bool_decide_true by done. cbn [negb].
  destruct (index_move move t i next (in_calm _ _ _ In) Hmove) as (t1 & -> & C1). cbn [mbind outcome_bind]. destruct (decide (next = N)) as [->|Hne].
  - destruct (InitDataBlock_end t1 C1) as (t2 & -> & Out). cbn [mbind outcome_bind]. assert (on_data (w_move enter) t2 = Done t2) as -> by (unfold on_data; by rewrite (proj1 (out_data _ Out))).
    cbn [mbind outcome_bind]. destruct (skip_outside (w_move move) (w_move enter) n t2 Out) as (t' & E & Out'). by exists t'.
  - destruct (enter_block enter t1 next j C1 Henter) as (t2 & t3 & -> & E3 & In3); [lia|]. cbn [mbind outcome_bind]. rewrite E3. cbn [mbind outcome_bind].
    destruct (lookup_lt_is_Some_2 blks next) as [b' Eb']; [rewrite <- (sep_length Sep); lia|]. exists t3. split; [|done]. apply (skip_valid _ _ n t3 next (j next) b'); auto.
Qed.

(** ** The cursor *)

Lemma block_nonempty i b : blks !! i = Some b -> (0 < length b)%nat.
Proof. intros E. pose proof (sep_nonempty Sep i b E). destruct b; [done|cbn; lia]. Qed.

(** Ending a forward or a backward motion. *)
Lemma forward_ends t i l : inside t i l -> exists t', SkipEmptyDataBlocksForward block_function fuel t = Done t' /\ tl_at t' (start i + l).
Proof.
  intros In. destruct (in_data _ _ _ In) as (d & e & b & _ & Ee & Eb & _ & D). pose proof (Hdat i b Eb) as Cd. pose proof (cur_range d l D) as Hl. pose proof (lookup_lt_Some _ _ _ Ee).
  unfold SkipEmptyDataBlocksForward. destruct (decide (l = length b)) as [->|Hne].
  - destruct (skip_step vNext vSeekToFirst (fun _ => 0%nat) (Datatypes.S i) t i b (length b) In Eb) as (t' & E & Ht').
    + lia.
    + intros it A. by apply cur_next.
    + intros k b' d' l' Eb' D'. pose proof (Hdat k b' Eb'). by apply (cur_first d' l').
    + intros b'. apply block_nonempty.
    + lia.
    + exists t'. split; [exact E|]. destruct (decide (Datatypes.S i = N)) as [EN|HN].
      * right. split; [done|]. rewrite <- start_N, <- EN. by rewrite (start_S i b Eb).
      * destruct (lookup_lt_is_Some_2 blks (Datatypes.S i)) as [b' Eb']; [rewrite <- (sep_length Sep); lia|]. left. exists (Datatypes.S i), 0%nat, b'.
        split_and!; [done|done|by apply (block_nonempty (Datatypes.S i))|]. rewrite (start_S i b Eb). lia.
  - destruct fuel_two as [n Efuel]. rewrite Efuel. rewrite (skip_valid w_Next w_SeekToFirst _ t i l b In Eb) by lia. exists t. split; [done|]. left. exists i, l, b. split_and!; [done|done|lia|done].
Qed.

Lemma backward_ends t i l b : inside t i l -> blks !! i = Some b -> exists t', SkipEmptyDataBlocksBackward block_function fuel t = Done t' /\
  tl_at t' (if decide (l = length b) then pred_index all (start i) else (start i + l)%nat).
Proof.
  intros In Eb. destruct (in_data _ _ _ In) as (d & e & b' & _ & Ee & Eb' & _ & D). rewrite Eb in Eb'. injection Eb' as <-. pose proof (Hdat i b Eb) as Cd. pose proof (cur_range d l D) as Hl.
  pose proof (lookup_lt_Some _ _ _ Ee). unfold SkipEmptyDataBlocksBackward. destruct (decide (l = length b)) as [->|Hne].
  - destruct (skip_step vPrev vSeekToLast (fun k => (match blks !! k with Some b => length b | None => 0 end - 1)%nat) (pred_index idx i) t i b (length b) In Eb) as (t' & E & Ht').
    + lia.
    + intros it A. by apply cur_prev.
    + intros k b' d' l' Eb' D'. pose proof (Hdat k b' Eb'). rewrite Eb'. by apply (cur_last d' l').
    + intros b' Eb'. rewrite Eb'. pose proof (block_nonempty _ b' Eb'). lia.
    + destruct i; cbn; lia.
    + exists t'. split; [exact E|]. destruct i as [|i]; cbn [pred_index] in *.
      * destruct (decide (N = N)) as [_|]; [|done]. by right.
      * destruct (decide (i = N)); [lia|]. destruct (lookup_lt_is_Some_2 blks i) as [b' Eb']; [rewrite <- (sep_length Sep); lia|]. rewrite Eb' in Ht'.
        pose proof (block_nonempty i b' Eb'). left. exists i, (length b' - 1)%nat, b'. split_and!; [done|done|lia|]. rewrite (start_S i b' Eb'). destruct (length b'); [lia|].
        replace (start i + Datatypes.S n0)%nat with (Datatypes.S (start i + n0)) by lia. cbn. lia.
  - destruct fuel_two as [n Efuel]. rewrite Efuel. rewrite (skip_valid w_Prev w_SeekToLast _ t i l b In Eb) by lia. exists t. split; [done|]. left. exists i, l, b. split_and!; [done|done|lia|done].
Qed.

Lemma tl_at_calm t j : tl_at t j -> exists i, calm t i.
Proof. intros [(i & l & b & In & _)|[Out _]]; eexists; [apply (in_calm _ _ _ In)|apply (out_calm _ Out)]. Qed.

(** Seeking: the index, then the block, then forward. *)
Lemma seek_forward (f : forall I, Iterator I -> I -> outcome I) t i next j :
  calm t i -> (forall it, iat it i -> exists it', f II _ it = Done it' /\ iat it' next) ->
  (forall k b d l, blks !! k = Some b -> dat k d l -> exists d', f DI _ d = Done d' /\ dat k d' (j k)) -> (next <= N)%nat ->
  exists t1 t2 t3, on_index (w_move (f II _)) t = Done t1 /\ InitDataBlock block_function t1 = Done t2 /\ on_data (w_move (f DI _)) t2 = Done t3 /\
    (if decide (next = N) then outside t3 else inside t3 next (j next)).
Proof.
  intros C Hi Hd Hn. destruct (index_move (f II _) t i next C Hi) as (t1 & E1 & C1). exists t1. destruct (decide (next = N)) as [->|Hne].
  - destruct (InitDataBlock_end t1 C1) as (t2 & E2 & Out). exists t2, t2. split_and!; [done|done| |done]. unfold on_data. by rewrite (proj1 (out_data _ Out)).
  - destruct (enter_block (f DI _) t1 next j C1 Hd) as (t2 & t3 & E2 & E3 & In); [lia|]. by exists t2, t3.
Qed.

Lemma outside_forward t : outside t -> exists t', SkipEmptyDataBlocksForward block_function fuel t = Done t' /\ tl_at t' (length all).
Proof.
  intros Out. unfold SkipEmptyDataBlocksForward. destruct fuel_two as [n Efuel]. rewrite Efuel. destruct (skip_outside w_Next w_SeekToFirst (Datatypes.S n) t Out) as (t' & E & Out'). exists t'. split; [done|]. by right.
Qed.

Lemma outside_backward t : outside t -> exists t', SkipEmptyDataBlocksBackward block_function fuel t = Done t' /\ tl_at t' (length all).
Proof.
  intros Out. unfold SkipEmptyDataBlocksBackward. destruct fuel_two as [n Efuel]. rewrite Efuel. destruct (skip_outside w_Prev w_SeekToLast (Datatypes.S n) t Out) as (t' & E & Out'). exists t'. split; [done|]. by right.
Qed.

Lemma tl_Seek_spec t j target : tl_at t j -> valid target -> exists t', tl_Seek block_function fuel target t = Done t' /\ tl_at t' (lower_bound cmp target all).
Proof.
  intros At Ht. destruct (tl_at_calm t j At) as [i C]. unfold tl_Seek. pose proof (lower_bound_le cmp target idx) as Hle.
  destruct (seek_forward (fun I _ => vSeek target) t i (lower_bound cmp target idx) (fun k => lower_bound cmp target (match blks !! k with Some b => b | None => [] end)) C) as (t1 & t2 & t3 & E1 & E2 & E3 & H3).
  { intros it A. by apply (cur_seek it i). }
  { intros k b d l Eb D. rewrite Eb. pose proof (Hdat k b Eb). by apply (cur_seek d l). }
  { done. }
  unfold w_Seek. rewrite E1. cbn [mbind outcome_bind]. rewrite E2. cbn [mbind outcome_bind]. rewrite E3. cbn [mbind outcome_bind]. rewrite (lower_bound_blocks target Ht).
  destruct (decide (lower_bound cmp target idx = N)) as [EN|HN].
  - rewrite (lookup_ge_None_2 blks) by (rewrite <- (sep_length Sep); lia). by apply outside_forward.
  - destruct (lookup_lt_is_Some_2 blks (lower_bound cmp target idx)) as [b Eb]; [rewrite <- (sep_length Sep); lia|]. rewrite Eb in *. by apply forward_ends.
Qed.

Lemma tl_SeekToFirst_spec t j : tl_at t j -> exists t', tl_SeekToFirst block_function fuel t = Done t' /\ tl_at t' 0.
Proof.
  intros At. destruct (tl_at_calm t j At) as [i C]. unfold tl_SeekToFirst.
  destruct (seek_forward (fun I _ => vSeekToFirst) t i 0 (fun _ => 0%nat) C) as (t1 & t2 & t3 & E1 & E2 & E3 & H3).
  { intros it A. by apply (cur_first it i). }
  { intros k b d l Eb D. pose proof (Hdat k b Eb). by apply (cur_first d l). }
  { lia. }
  unfold w_SeekToFirst. rewrite E1. cbn [mbind outcome_bind]. rewrite E2. cbn [mbind outcome_bind]. rewrite E3. cbn [mbind outcome_bind]. destruct (decide (0%nat = N)) as [E0|H0].
  - replace 0%nat with (length all); [by apply outside_forward|]. rewrite <- start_N, <- E0. done.
  - apply (forward_ends t3 0 0 H3).
Qed.

Lemma tl_SeekToLast_spec t j : tl_at t j -> exists t', tl_SeekToLast block_function fuel t = Done t' /\ tl_at t' (length all - 1).
Proof.
  intros At. destruct (tl_at_calm t j At) as [i C]. unfold tl_SeekToLast.
  destruct (seek_forward (fun I _ => vSeekToLast) t i (N - 1) (fun k => (match blks !! k with Some b => length b | None => 0 end - 1)%nat) C) as (t1 & t2 & t3 & E1 & E2 & E3 & H3).
  { intros it A. by apply (cur_last it i). }
  { intros k b d l Eb D. rewrite Eb. pose proof (Hdat k b Eb). by apply (cur_last d l). }
  { lia. }
  unfold w_SeekToLast. rewrite E1. cbn [mbind outcome_bind]. rewrite E2. cbn [mbind outcome_bind]. rewrite E3. cbn [mbind outcome_bind]. destruct (decide ((N - 1)%nat = N)) as [E0|H0].
  - assert (length all = 0%nat) as E by (rewrite <- start_N; replace N with 0%nat by lia; done). replace (length all - 1)%nat with (length all) by lia. by apply outside_backward.
  - destruct (lookup_lt_is_Some_2 blks (N - 1)) as [b Eb]; [rewrite <- (sep_length Sep); lia|]. rewrite Eb in H3. pose proof (block_nonempty _ b Eb).
    destruct (backward_ends t3 _ _ b H3 Eb) as (t' & E & At'). exists t'. split; [done|]. destruct (decide ((length b - 1)%nat = length b)); [lia|].
    rewrite <- start_N. replace N with (Datatypes.S (N - 1)) by lia. rewrite (start_S _ b Eb). by replace (start (N - 1) + length b - 1)%nat with (start (N - 1) + (length b - 1))%nat by lia.
Qed.

Lemma tl_at_inside t j : tl_at t j -> (j < length all)%nat -> exists i l b, inside t i l /\ blks !! i = Some b /\ (l < length b)%nat /\ j = (start i + l)%nat.
Proof. intros [?|[_ ->]] Hj; [done|lia]. Qed.

Lemma tl_at_range t j : tl_at t j -> (j <= length all)%nat.
Proof.
  intros [(i & l & b & _ & Eb & Hl & ->)|[_ ->]]; [|done]. pose proof (start_le (Datatypes.S i)). rewrite (start_S i b Eb) in *. lia.
Qed.

Lemma tl_at_valid t j : tl_at t j -> tl_Valid t = bool_decide (j < length all)%nat.
Proof.
  intros [(i & l & b & In & Eb & Hl & ->)|[Out ->]]; unfold tl_Valid.
  - destruct (inside_valid t i l b In Eb) as (-> & _). pose proof (start_le (Datatypes.S i)). rewrite (start_S i b Eb) in *. rewrite !bool_decide_true by lia. done.
  - rewrite (proj2 (out_data _ Out)), bool_decide_false by lia. done.
Qed.

Lemma tl_at_entry t j e : tl_at t j -> all !! j = Some e -> tl_key t = Done e.1 /\ tl_value t = Done e.2.
Proof.
  intros At Ee. pose proof (lookup_lt_Some _ _ _ Ee) as Hj. unfold tl_key, tl_value. rewrite (tl_at_valid t j At), bool_decide_true by done.
  destruct (tl_at_inside t j At Hj) as (i & l & b & In & Eb & Hl & ->). unfold start in Ee. rewrite (concat_lookup blks i b l Eb Hl) in Ee.
  destruct (in_data _ _ _ In) as (d & e' & b' & Ed & _ & Eb' & _ & D). destruct (ca_data _ _ (in_calm _ _ _ In) d Ed) as [Wd _]. pose proof (Hdat i b Eb) as Cd.
  destruct (wraps_entry _ d l e Wd D Ee) as (-> & -> & _). done.
Qed.

Lemma tl_at_status t j : tl_at t j -> tl_status t = OK.
Proof.
  intros At. destruct (tl_at_calm t j At) as [i C]. unfold tl_status. destruct (ca_index _ _ C) as (it & W & A). rewrite (proj1 W), (cur_status it i A). cbn [ok negb].
  destruct (w_iter (data_iter_ t)) as [d|] eqn:Ed; [|apply (ca_status _ _ C)]. rewrite (calm_quiet t i C d Ed). apply (ca_status _ _ C).
Qed.

Lemma tl_Next_spec t j : tl_at t j -> (j < length all)%nat -> exists t', tl_Next block_function fuel t = Done t' /\ tl_at t' (Datatypes.S j).
Proof.
  intros At Hj. unfold tl_Next. rewrite (tl_at_valid t j At), bool_decide_true by done. destruct (tl_at_inside t j At Hj) as (i & l & b & In & Eb & Hl & ->).
  destruct (data_move vNext t i l (Datatypes.S l) In) as (w & Ew & In' & _).
  { intros d b' Eb' D. rewrite Eb in Eb'. injection Eb' as <-. pose proof (Hdat i b Eb). by apply cur_next. }
  unfold w_Next. rewrite Ew. cbn [mbind outcome_bind]. destruct (forward_ends _ i (Datatypes.S l) In') as (t' & E & At'). exists t'. split; [done|]. by rewrite Nat.add_succ_r in At'.
Qed.

Lemma tl_Prev_spec t j : tl_at t j -> (j < length all)%nat -> exists t', tl_Prev block_function fuel t = Done t' /\ tl_at t' (pred_index all j).
Proof.
  intros At Hj. unfold tl_Prev. rewrite (tl_at_valid t j At), bool_decide_true by done. destruct (tl_at_inside t j At Hj) as (i & l & b & In & Eb & Hl & ->).
  destruct (data_move vPrev t i l (pred_index b l) In) as (w & Ew & In' & _).
  { intros d b' Eb' D. rewrite Eb in Eb'. injection Eb' as <-. pose proof (Hdat i b Eb). by apply cur_prev. }
  unfold w_Prev. rewrite Ew. cbn [mbind outcome_bind]. destruct (backward_ends _ i _ b In' Eb) as (t' & E & At'). exists t'. split; [done|]. destruct l as [|l]; cbn [pred_index] in At'.
  - rewrite decide_True in At' by done. by rewrite Nat.add_0_r.
  - rewrite decide_False in At' by lia. by rewrite Nat.add_succ_r.
Qed.

Lemma two_level_cursor : @Cursor TL (two_level block_function fuel) valid cmp all tl_at.
Proof.
  split; [exact tl_at_range|exact tl_at_valid|exact tl_at_entry|exact tl_at_status|exact tl_SeekToFirst_spec|exact tl_SeekToLast_spec| |exact tl_Next_spec|exact tl_Prev_spec].
  intros t j target. apply tl_Seek_spec.
Qed.

Lemma NewTwoLevelIterator_spec it s : iat it N -> good s -> exists t : TL, NewTwoLevelIterator it s = Done t /\ tl_at t (length all).
Proof.
  intros A Hs. unfold NewTwoLevelIterator, new_wrapper. cbn [w_Set]. destruct (Update_spec it N (MkWrapper None false []) A) as (w & -> & W). cbn [mbind outcome_bind].
  eexists. split; [done|]. right. split; [|done]. split; [|done]. split; [by exists it|done|done|done].
Qed.
End Spec.
