(* ===== verification/LdbTableTheorems.v ===== *)
(** * LdbTableTheorems: blocks, filters and tables, the properties. *)

From Stdlib Require Import ZifyBool Sorting.Sorted.
From stdpp Require Import base tactics numbers list gmap strings sorting.
From S2P Require Import Prelude PbOStream PbWire LdbCoding LdbCrc LdbCrcSpec LdbLog LdbLogSpec LdbBloom LdbKey LdbKeySpec LdbBatch LdbTheorems LdbIter LdbBlock LdbBlockSpec LdbBlockIter LdbBlockBuild LdbFormat LdbFilter.
Open Scope Z_scope.

(** ** Blocks *)

(** A block of these entries. *)
Definition build_block (interval : Z) (c : Comparator) (es : list entry) : outcome (list Z) :=
  b ← new_BlockBuilder interval;
  b ← add_all interval c es b;
  Done (bb_Finish b).1.

(** An iterator over a block. *)
Definition iterate_block (c : Comparator) (contents : list Z) : outcome block_iterator :=
  b ← new_Block contents;
  NewIterator c b.

(** C15: a block gives back its entries.  For every restart interval and every
    comparator that orders keys, a block built from entries in order is opened
    without error; a scan forward reads exactly the entries, a scan backward
    reads them in reverse, and a seek stops at the first entry that is not
    before the target. *)
Theorem block_roundtrip interval c (valid : list Z -> Prop) (cmp : list Z -> list Z -> Z) es :
  1 <= interval -> Ordered (Compare c) valid cmp ->
  Forall (good_entry (valid := valid)) es -> sorted_entries (cmp := cmp) es -> 8 + total_cost es < 2 ^ 32 ->
  exists contents it, build_block interval c es = Done contents /\ iterate_block c contents = Done it /\
    (forall fuel, (length es < fuel)%nat ->
      (it ← vSeekToFirst it; scan_forward fuel it) = Done es /\ (it ← vSeekToLast it; scan_backward fuel it) = Done (reverse es)) /\
    (forall target, valid target -> exists it', vSeek target it = Done it' /\ vstatus it' = OK /\
      forall fuel, (length es < fuel)%nat -> scan_forward fuel it' = Done (drop (lower_bound cmp target es) es)).
Proof.
  intros Hi Ho Hg Hs Hc. destruct (builder_new (valid := valid) (cmp := cmp) interval Hi) as (b0 & E0 & B0).
  destruct (add_all_spec interval Hi c es b0 [] B0 Hg Hs) as (b & Eb & B); [unfold new_BlockBuilder in E0; destruct (interval <? 1); [done|]; injection E0 as <-; exact Hc|].
  destruct (open_block c _ es (builder_Finish interval b es B)) as (blk & it & at_ & Eblk & Eit & Cu & At).
  exists (bb_Finish b).1, it. unfold build_block, iterate_block. rewrite E0. cbn [mbind outcome_bind]. rewrite Eb. cbn [mbind outcome_bind]. rewrite Eblk. cbn [mbind outcome_bind].
  split_and!; [done|done|intros fuel Hf; by apply (scan_all it (length es))|]. intros target Ht. destruct (cur_seek it _ target At Ht) as (it' & E' & At').
  exists it'. split_and!; [done|exact (cur_status _ _ At')|]. intros fuel Hf. apply scan_forward_spec; [done|lia].
Qed.

(** A block with one entry whose key is said to have [2^32 - 1] bytes and whose
    value is said to have one. *)
Definition overflowing_block : list Z := [0; 255; 255; 255; 255; 15; 1] ++ EncodeFixed32 0 ++ EncodeFixed32 1.

(** A damaged block can be read past its end.  The sum of the two lengths
    of an entry is computed in 32 bits, where it wraps around, so the check
    that the entry ends before the restart array passes and the iterator copies
    a key from outside the block. *)
Theorem block_entry_overflow c : exists it, iterate_block c overflowing_block = Done it /\ vSeekToFirst it = Undef.
Proof. eexists. split; [reflexivity|]. vm_compute. reflexivity. Qed.

(** ** Filter blocks *)

Definition build_filter (p : FilterPolicy) (bs : list (Z * list (list Z))) : outcome (list Z) :=
  b ← filter_blocks p bs new_FilterBlockBuilder;
  '(contents, _) ← filter_Finish p b;
  Done contents.

(** C28: a filter block has no false negatives.  When blocks start at offsets
    that do not decrease, the filter block made from their keys answers every
    question, and answers "maybe" for a key like one that was added for a block
    at the block's offset. *)
Theorem filter_block_no_false_negatives p (valid : list Z -> Prop) (same : list Z -> list Z -> Prop) B bs :
  GoodPolicy p valid same B -> Forall (fun b => Forall valid b.2) bs -> key_count bs < 2 ^ 31 -> StronglySorted (fun a b => a <= b) (0 :: map fst bs) ->
  exists contents, build_filter p bs = Done contents /\
    (zlen contents < 2 ^ 32 -> exists r, new_FilterBlockReader contents = Done r /\
      (forall o k, 0 <= o -> valid k -> exists m, filter_KeyMayMatch p o k r = Done m) /\
      (forall o keys k k', (o, keys) ∈ bs -> k' ∈ keys -> valid k -> same k k' -> filter_KeyMayMatch p o k r = Done true)).
Proof.
  intros G Hv Hn Hs. destruct (filter_blocks_spec p bs new_FilterBlockBuilder [] [] [] (made_new p) Hv) as (b & gs & fs & ks & E & M & Hk & _ & Hplaced); [done|done|].
  destruct (filter_Finish_spec p b gs fs ks M Hk) as (b' & fs' & contents & Ef & Hg & _ & _ & _ & Hc). exists contents. unfold build_filter. rewrite E. cbn [mbind outcome_bind]. rewrite Ef.
  split; [done|]. intros Hsize. specialize (Hc Hsize) as ->. rewrite new_reader_spec by done. eexists. split; [done|]. split.
  - intros o k Ho Hvk. destruct (reader_spec p _ fs' o k Hg Hsize Ho Hvk) as (m & Em & _). by exists m.
  - intros o keys k k' Hin Hk' Hvk Hsame. assert (Ho : 0 <= o).
    { apply StronglySorted_inv in Hs as [_ Hle]. rewrite Forall_forall in Hle. apply Hle. apply list_elem_of_fmap. by exists (o, keys). }
    destruct (reader_spec p _ fs' o k Hg Hsize Ho Hvk) as (m & -> & Hm). destruct (placed_finish _ _ _ _ (Hplaced o keys k' Hin Hk')) as (g & Eg & Hkg). by rewrite (Hm g k' Eg Hkg Hsame).
Qed.

(** The last byte of a filter block is used as a shift count without a
    check: if it is 64 or more, or negative as a [char], every question to the
    filter shifts a 64-bit number too far. *)
Theorem filter_base_unchecked p contents b o k :
  Forall is_byte contents -> is_byte b -> 64 <= b -> zlen contents < 2 ^ 32 - 1 ->
  (4 <= length contents)%nat -> exists r, new_FilterBlockReader (contents ++ [b]) = Done r /\ filter_KeyMayMatch p o k r = Undef.
Proof.
  intros Hc Hb H64 Hl H4. unfold new_FilterBlockReader. rewrite length_app. cbn [length]. destruct (Z.ltb_spec (Z.of_nat (length contents + 1)) 5); [lia|].
  rewrite lookup_app_r by lia. replace (Z.to_nat (Z.of_nat (length contents + 1) - 1) - length contents)%nat with 0%nat by lia. cbn [lookup list_lookup demand mbind outcome_bind].
  assert (Hlg : 64 <= u64 (s8 b)).
  { unfold is_byte in Hb. unfold s8, signed. change (wrap 8 b) with (u8 b). rewrite u8_small by lia. change (2 ^ (8 - 1)) with 128. destruct (Z.ltb_spec b 128).
    - rewrite u64_small by lia. lia.
    - unfold u64, wrap. change (2 ^ 8) with 256. rewrite <- (Z_mod_plus_full (b - 256) 1 (2 ^ 64)), Z.mod_small by lia. lia. }
  set (lg := u64 (s8 b)) in *. clearbody lg. rewrite drop_app_le by lia. set (d := drop _ contents). assert (Hd : length d = 4%nat) by (subst d; rewrite length_drop; lia).
  destruct d as [|a0 [|a1 [|a2 [|a3 [|]]]]] eqn:Ed; try done. cbn [app DecodeFixed32 mbind outcome_bind].
  assert (Hm : forall r, base_lg_ r = lg -> filter_KeyMayMatch p o k r = Undef).
  { intros r Er. unfold filter_KeyMayMatch. rewrite Er. by destruct (Z.leb_spec 64 lg); [|lia]. }
  case_match; eexists; (split; [done|]); by apply Hm.
Qed.

(** ** Handles *)

(** Reading a block whose handle has a size near [2^64]: adding the length
    of the trailer wraps around, a few bytes are read, and the type byte is
    looked up far outside of them. *)
Theorem read_block_overflow {F} `{!RandomAccessFile F} {contents : F -> list Z} `{!GoodRandomFile contents} `{!Snappy} file n buf ubuf :
  2 ^ 64 - 5 <= n < 2 ^ 64 -> n + 5 - 2 ^ 64 <= zlen (contents file) ->
  ReadBlock file false (MkHandle 0 n) buf ubuf = Undef.
Proof.
  intros Hn Hl. unfold ReadBlock. cbn [hsize_ offset_]. unfold kBlockTrailerSize.
  assert (Eu : u64 (n + 5) = n + 5 - 2 ^ 64) by (unfold u64, wrap; rewrite <- (Z_mod_plus_full (n + 5) (-1) (2 ^ 64)), Z.mod_small by lia; lia). rewrite Eu.
  destruct (read_at file 0 (n + 5 - 2 ^ 64) buf) as (s & -> & Es & _); [lia..|]. cbn [ok negb]. unfold size.
  assert (Hlen : zlen (bytes s) = n + 5 - 2 ^ 64) by (rewrite Es, length_take, length_drop; lia). rewrite Hlen, Z.eqb_refl. cbn [negb mbind outcome_bind].
  rewrite lookup_ge_None_2; [done|]. lia.
Qed.

(** ** Instances *)

(** A file in memory: reads go to the caller's buffer. *)
#[export] Instance string_random : RandomAccessFile (list Z) :=
  {| ReadAt off n scratch f := (OK, MkSlice scratch (take (Z.to_nat n) (drop (Z.to_nat off) f))) |}.
#[export] Instance string_random_good : GoodRandomFile (fun f : list Z => f).
Proof. split. intros f off n scratch Ho Hn Hl. by eexists. Qed.

Ltac sorted_list := repeat (constructor; [|repeat (constructor; [vm_compute; reflexivity|]); constructor]); constructor.

Lemma block_roundtrip_witness :
  exists contents it, build_block 2 BytewiseComparator [([97; 98], [1]); ([97; 99], []); ([98], [2; 3])] = Done contents /\ iterate_block BytewiseComparator contents = Done it /\
    length contents = 28%nat /\ (it ← vSeekToFirst it; scan_forward 4 it) = Done [([97; 98], [1]); ([97; 99], []); ([98], [2; 3])] /\
    exists it', vSeek [97; 98; 1] it = Done it' /\ scan_forward 4 it' = Done [([97; 99], []); ([98], [2; 3])].
Proof.
  destruct (block_roundtrip 2 BytewiseComparator (Forall is_byte) lex [([97; 98], [1]); ([97; 99], []); ([98], [2; 3])]) as (contents & it & E & Ei & Hscan & Hseek).
  - lia.
  - exact good_order.
  - unfold good_entry. repeat (apply Forall_cons_2; [split_and!; cbn [fst snd]; byte_list|]). apply Forall_nil_2.
  - unfold sorted_entries. sorted_list.
  - vm_compute. reflexivity.
  - exists contents, it. split; [exact E|]. split; [exact Ei|]. split; [vm_compute in E; injection E as <-; reflexivity|].
    split; [apply Hscan; cbn; lia|]. destruct (Hseek [97; 98; 1]) as (it' & E' & _ & H'); [byte_list|]. exists it'. split; [exact E'|]. rewrite H' by (cbn; lia). reflexivity.
Defined.

Lemma filter_block_no_false_negatives_witness :
  exists p contents r, NewBloomFilterPolicy 10 = Done p /\ build_filter (bloom_policy p) [(0, [[97]; [98]]); (5000, [[99]])] = Done contents /\
    new_FilterBlockReader contents = Done r /\ filter_KeyMayMatch (bloom_policy p) 5000 [99] r = Done true /\ filter_KeyMayMatch (bloom_policy p) 5000 [97] r = Done false.
Proof.
  destruct (new_bloom 10) as (p & Ep & Hp); [lia|].
  destruct (filter_block_no_false_negatives (bloom_policy p) (fun _ => True) (fun k k' => k = k') (bits_per_key_ p + 10) [(0, [[97]; [98]]); (5000, [[99]])]) as (contents & E & H).
  - by apply bloom_policy_good.
  - repeat (apply Forall_cons_2; [repeat (apply Forall_cons_2; [exact I|]); apply Forall_nil_2|]). apply Forall_nil_2.
  - vm_compute. reflexivity.
  - repeat (constructor; [|repeat (constructor; [cbn; lia|]); constructor]). constructor.
  - exists p, contents. assert (Ec : exists q, p = q) by by exists p. clear Ec. vm_compute in Ep. injection Ep as <-.
    destruct H as (r & Er & _ & Hm); [vm_compute in E; injection E as <-; vm_compute; reflexivity|]. exists r. split; [reflexivity|]. split; [exact E|]. split; [exact Er|].
    split; [apply (Hm 5000 [[99]] [99] [99]); [apply list_elem_of_further, list_elem_of_here|apply list_elem_of_here|exact I|reflexivity]|].
    vm_compute in E. injection E as <-. vm_compute in Er. injection Er as <-. vm_compute. reflexivity.
Defined.

Lemma filter_base_unchecked_witness : exists r, new_FilterBlockReader ([0; 0; 0; 0] ++ [255]) = Done r /\ filter_KeyMayMatch (bloom_policy (MkBloom 10 6)) 0 [97] r = Undef.
Proof. apply (filter_base_unchecked (bloom_policy (MkBloom 10 6)) [0; 0; 0; 0] 255 0 [97]); [byte_list|unfold is_byte; lia|lia|cbn; lia|cbn; lia]. Defined.

Lemma read_block_overflow_witness : ReadBlock (F := list Z) (H := no_snappy) [1; 2; 3; 4; 5] false (MkHandle 0 (2 ^ 64 - 3)) 4096 8192 = Undef.
Proof. apply (read_block_overflow (contents := fun f => f)); cbn; lia. Defined.
