(* ===== verification/LdbTable.v ===== *)
(** * LdbTable: writing and reading a table (table/table_builder.cc,
    table/table.cc).

    A table is a file of blocks: data blocks, a filter block, a block that
    names it, the index of the data blocks, and a footer.  Strings whose checksum
    is computed have an address, given by [addr_of]. *)

From Stdlib Require Import ZifyBool.
From stdpp Require Import base tactics numbers list gmap strings.
From S2P Require Import Prelude PbOStream PbWire LdbCoding LdbCrc LdbLog LdbBloom LdbKey LdbIter LdbBlock LdbFormat LdbFilter LdbTwoLevel.
Open Scope Z_scope.

(** The fields of [Options] that tables use; a comparator has an address. *)
Record Options : Type := MkOptions {
  comparator : Comparator;
  comparator_ptr : Z;
  paranoid_checks : bool;
  block_size : Z;
  block_restart_interval : Z;
  compression : Z;
  filter_policy : option FilterPolicy;
}.

Definition set_interval (n : Z) (o : Options) : Options :=
  MkOptions (comparator o) (comparator_ptr o) (paranoid_checks o) (block_size o) n (compression o) (filter_policy o).

(** ["filter."] followed by the name of the policy *)
Definition filter_key (p : FilterPolicy) : list Z := [102; 105; 108; 116; 101; 114; 46] ++ Name p.

(** ** table_builder.cc *)

Section Builder.
Context {F : Type} `{!WritableFile F} `{!Snappy} (addr_of : list Z -> Z).

Record Rep : Type := MkRep {
  r_options : Options;
  r_index_options : Options;
  r_file : F;
  r_offset : Z;
  r_status : Status;
  r_data_block : BlockBuilder;
  r_index_block : BlockBuilder;
  r_last_key : list Z;
  r_num_entries : Z;
  r_closed : bool;
  (** with its [policy_] *)
  r_filter_block : option (FilterPolicy * FilterBlockBuilder);
  r_pending_index_entry : bool;
  r_pending_handle : BlockHandle;
}.

Definition r_set_file (s : Status) (f : F) (r : Rep) : Rep :=
  MkRep (r_options r) (r_index_options r) f (r_offset r) s (r_data_block r) (r_index_block r) (r_last_key r) (r_num_entries r) (r_closed r) (r_filter_block r) (r_pending_index_entry r) (r_pending_handle r).
Definition r_set_offset (o : Z) (r : Rep) : Rep :=
  MkRep (r_options r) (r_index_options r) (r_file r) o (r_status r) (r_data_block r) (r_index_block r) (r_last_key r) (r_num_entries r) (r_closed r) (r_filter_block r) (r_pending_index_entry r) (r_pending_handle r).
Definition r_set_data (b : BlockBuilder) (r : Rep) : Rep :=
  MkRep (r_options r) (r_index_options r) (r_file r) (r_offset r) (r_status r) b (r_index_block r) (r_last_key r) (r_num_entries r) (r_closed r) (r_filter_block r) (r_pending_index_entry r) (r_pending_handle r).
Definition r_set_index (b : BlockBuilder) (last_key : list Z) (r : Rep) : Rep :=
  MkRep (r_options r) (r_index_options r) (r_file r) (r_offset r) (r_status r) (r_data_block r) b last_key (r_num_entries r) (r_closed r) (r_filter_block r) (r_pending_index_entry r) (r_pending_handle r).
Definition r_set_last (last_key : list Z) (num_entries : Z) (r : Rep) : Rep :=
  MkRep (r_options r) (r_index_options r) (r_file r) (r_offset r) (r_status r) (r_data_block r) (r_index_block r) last_key num_entries (r_closed r) (r_filter_block r) (r_pending_index_entry r) (r_pending_handle r).
Definition r_set_closed (b : bool) (r : Rep) : Rep :=
  MkRep (r_options r) (r_index_options r) (r_file r) (r_offset r) (r_status r) (r_data_block r) (r_index_block r) (r_last_key r) (r_num_entries r) b (r_filter_block r) (r_pending_index_entry r) (r_pending_handle r).
Definition r_set_filter (b : option (FilterPolicy * FilterBlockBuilder)) (r : Rep) : Rep :=
  MkRep (r_options r) (r_index_options r) (r_file r) (r_offset r) (r_status r) (r_data_block r) (r_index_block r) (r_last_key r) (r_num_entries r) (r_closed r) b (r_pending_index_entry r) (r_pending_handle r).
Definition r_set_pending (b : bool) (h : BlockHandle) (r : Rep) : Rep :=
  MkRep (r_options r) (r_index_options r) (r_file r) (r_offset r) (r_status r) (r_data_block r) (r_index_block r) (r_last_key r) (r_num_entries r) (r_closed r) (r_filter_block r) b h.
Definition r_set_options (o io : Options) (r : Rep) : Rep :=
  MkRep o io (r_file r) (r_offset r) (r_status r) (r_data_block r) (r_index_block r) (r_last_key r) (r_num_entries r) (r_closed r) (r_filter_block r) (r_pending_index_entry r) (r_pending_handle r).

(** [if (r->filter_block != nullptr) r->filter_block->StartBlock(offset)] *)
Definition start_filter (offset : Z) (r : Rep) : outcome Rep :=
  match r_filter_block r with
  | Some (p, f) => f ← StartBlock p offset f; Done (r_set_filter (Some (p, f)) r)
  | None => Done r
  end.

Definition new_TableBuilder (options : Options) (file : F) : outcome Rep :=
  data_block ← new_BlockBuilder (block_restart_interval options);
  index_block ← new_BlockBuilder (block_restart_interval options);
  start_filter 0
    (MkRep options (set_interval 1 options) file 0 OK data_block index_block [] 0 false
       (match filter_policy options with None => None | Some p => Some (p, new_FilterBlockBuilder) end) false new_BlockHandle).

Definition ChangeOptions (options : Options) (r : Rep) : Status * Rep :=
  if negb (comparator_ptr options =? comparator_ptr (r_options r)) then (InvalidArgument "changing comparator while building table", r)
  else (OK, r_set_options options (set_interval 1 options) r).

Definition WriteRawBlock (block_contents : list Z) (type : Z) (r : Rep) : outcome (BlockHandle * Rep) :=
  let handle := MkHandle (r_offset r) (zlen block_contents) in
  let '(s, file) := Append block_contents (r_file r) in
  let r := r_set_file s file r in
  if ok s then
    crc ← Value (addr_of block_contents) block_contents;
    crc ← Extend (addr_of [u8 type]) crc [u8 type];
    let trailer := [u8 type] ++ EncodeFixed32 (Mask crc) in
    let '(s, file) := Append trailer (r_file r) in
    let r := r_set_file s file r in
    Done (handle, if ok s then r_set_offset (u64 (r_offset r + (zlen block_contents + kBlockTrailerSize))) r else r)
  else Done (handle, r).

(** What is written for a block and its type. *)
Definition compressed_block (type : Z) (raw : list Z) : list Z * Z :=
  if type =? kNoCompression then (raw, type)
  else if type =? kSnappyCompression then
    match Snappy_Compress raw with
    | Some compressed => if zlen compressed <? zlen raw - zlen raw / 8 then (compressed, type) else (raw, kNoCompression)
    | None => (raw, kNoCompression)
    end
  else ([], type).

Definition WriteBlock (block : BlockBuilder) (r : Rep) : outcome (BlockHandle * BlockBuilder * Rep) :=
  if negb (ok (r_status r)) then Undef
  else
    let '(raw, block) := bb_Finish block in
    let '(block_contents, type) := compressed_block (compression (r_options r)) raw in
    '(handle, r) ← WriteRawBlock block_contents type r;
    Done (handle, bb_Reset block, r).

Definition table_Flush (r : Rep) : outcome Rep :=
  if r_closed r then Undef
  else if negb (ok (r_status r)) then Done r
  else if bb_empty (r_data_block r) then Done r
  else if r_pending_index_entry r then Undef
  else
    '(handle, block, r) ← WriteBlock (r_data_block r) r;
    let r := r_set_pending (r_pending_index_entry r) handle (r_set_data block r) in
    let r :=
      if ok (r_status r) then
        let r := r_set_pending true handle r in
        let '(s, file) := Flush (r_file r) in r_set_file s file r
      else r in
    start_filter (r_offset r) r.

(** [if (r->num_entries > 0) assert(... > 0)] *)
Definition assert_after (key : list Z) (r : Rep) : outcome unit :=
  if 0 <? r_num_entries r then c ← Compare (comparator (r_options r)) key (r_last_key r); if 0 <? c then Done tt else Undef
  else Done tt.

(** The entry of the index for the block written last. *)
Definition add_index_entry (last_key : list Z) (r : Rep) : outcome Rep :=
  handle_encoding ← handle_EncodeTo (r_pending_handle r) [];
  index ← bb_Add (block_restart_interval (r_index_options r)) (comparator (r_index_options r)) last_key handle_encoding (r_index_block r);
  Done (r_set_pending false (r_pending_handle r) (r_set_index index last_key r)).

Definition table_Add (key value : list Z) (r : Rep) : outcome Rep :=
  if r_closed r then Undef
  else if negb (ok (r_status r)) then Done r
  else
    _ ← assert_after key r;
    r ← (if r_pending_index_entry r then
           if bb_empty (r_data_block r) then
             last_key ← FindShortestSeparator (comparator (r_options r)) (r_last_key r) key;
             add_index_entry last_key r
           else Undef
         else Done r);
    let r := match r_filter_block r with Some (p, f) => r_set_filter (Some (p, AddKey key f)) r | None => r end in
    let r := r_set_last key (r_num_entries r + 1) r in
    data ← bb_Add (block_restart_interval (r_options r)) (comparator (r_options r)) key value (r_data_block r);
    let r := r_set_data data r in
    if block_size (r_options r) <=? CurrentSizeEstimate data then table_Flush r else Done r.

(** Each step of [Finish] is under [if (ok())]. *)
Definition write_filter (r : Rep) : outcome (BlockHandle * Rep) :=
  match r_filter_block r with
  | Some (p, f) =>
    if ok (r_status r) then
      '(contents, f) ← filter_Finish p f;
      WriteRawBlock contents kNoCompression (r_set_filter (Some (p, f)) r)
    else Done (new_BlockHandle, r)
  | None => Done (new_BlockHandle, r)
  end.

Definition write_metaindex (filter_block_handle : BlockHandle) (r : Rep) : outcome (BlockHandle * Rep) :=
  if ok (r_status r) then
    meta_index_block ← new_BlockBuilder (block_restart_interval (r_options r));
    meta_index_block ←
      (match r_filter_block r with
       | Some _ =>
         p ← demand (filter_policy (r_options r));
         handle_encoding ← handle_EncodeTo filter_block_handle [];
         bb_Add (block_restart_interval (r_options r)) (comparator (r_options r)) (filter_key p) handle_encoding meta_index_block
       | None => Done meta_index_block
       end);
    '(handle, _, r) ← WriteBlock meta_index_block r;
    Done (handle, r)
  else Done (new_BlockHandle, r).

Definition write_index (r : Rep) : outcome (BlockHandle * Rep) :=
  if ok (r_status r) then
    r ← (if r_pending_index_entry r then
           last_key ← FindShortSuccessor (comparator (r_options r)) (r_last_key r);
           add_index_entry last_key r
         else Done r);
    '(handle, block, r) ← WriteBlock (r_index_block r) r;
    Done (handle, r_set_index block (r_last_key r) r)
  else Done (new_BlockHandle, r).

Definition write_footer (metaindex_block_handle index_block_handle : BlockHandle) (r : Rep) : outcome Rep :=
  if ok (r_status r) then
    footer_encoding ← footer_EncodeTo (MkFooter metaindex_block_handle index_block_handle) [];
    let '(s, file) := Append footer_encoding (r_file r) in
    let r := r_set_file s file r in
    Done (if ok s then r_set_offset (u64 (r_offset r + zlen footer_encoding)) r else r)
  else Done r.

Definition table_Finish (r : Rep) : outcome (Status * Rep) :=
  r ← table_Flush r;
  if r_closed r then Undef
  else
    let r := r_set_closed true r in
    '(filter_block_handle, r) ← write_filter r;
    '(metaindex_block_handle, r) ← write_metaindex filter_block_handle r;
    '(index_block_handle, r) ← write_index r;
    r ← write_footer metaindex_block_handle index_block_handle r;
    Done (r_status r, r).

Definition Abandon (r : Rep) : outcome Rep := if r_closed r then Undef else Done (r_set_closed true r).
Definition NumEntries (r : Rep) : Z := u64 (r_num_entries r).
Definition FileSize (r : Rep) : Z := r_offset r.
End Builder.
Arguments Rep F : clear implicits.

(** ** table.cc *)

(** [Cache] of include/leveldb/cache.h, of blocks: [Lookup], [Insert] with a
    charge, and [NewId]. *)
Class Cache (C : Type) : Type := {
  Lookup : list Z -> C -> option Block * C;
  Insert : list Z -> Block -> Z -> C -> C;
  NewId : C -> Z * C;
}.

Record ReadOptions : Type := MkReadOptions { verify_checksums : bool; fill_cache : bool }.
(** [ReadOptions opt; if (options.paranoid_checks) opt.verify_checksums = true;] *)
Definition paranoid_options (o : Options) : ReadOptions := MkReadOptions (paranoid_checks o) true.

Section Table.
(** [buf] and [ubuf] are where blocks are read to and uncompressed to. *)
Context {F : Type} `{!RandomAccessFile F} {C : Type} `{!Cache C} `{!Snappy} (buf ubuf : Z).

(** [block_cache] is null in [None]. *)
Record Table : Type := MkTable {
  t_options : Options;
  t_file : F;
  t_cache_id : Z;
  t_filter : option FilterBlockReader;
  t_metaindex_handle : BlockHandle;
  t_index_block : Block;
}.

Definition ReadFilter (filter_handle_value : list Z) (t : Table) : outcome Table :=
  let '(s, filter_handle, _) := handle_DecodeFrom filter_handle_value new_BlockHandle in
  if negb (ok s) then Done t
  else
    '(s, block) ← ReadBlock (t_file t) (verify_checksums (paranoid_options (t_options t))) filter_handle buf ubuf;
    if negb (ok s) then Done t
    else
      filter ← new_FilterBlockReader (bytes (bc_data block));
      Done (MkTable (t_options t) (t_file t) (t_cache_id t) (Some filter) (t_metaindex_handle t) (t_index_block t)).

Definition ReadMeta (footer : Footer) (t : Table) : outcome Table :=
  match filter_policy (t_options t) with
  | None => Done t
  | Some p =>
    '(s, contents) ← ReadBlock (t_file t) (verify_checksums (paranoid_options (t_options t))) (metaindex_handle_ footer) buf ubuf;
    if negb (ok s) then Done t
    else
      meta ← new_Block (bytes (bc_data contents));
      iter ← NewIterator BytewiseComparator meta;
      iter ← vSeek (filter_key p) iter;
      if vValid iter then
        k ← vkey iter;
        if bool_decide (k = filter_key p) then v ← vvalue iter; ReadFilter v t else Done t
      else Done t
  end.

(** [Open]; [footer_space] is the address of the local array. *)
Definition Open (options : Options) (file : F) (size : Z) (footer_space : Z) (cache : option C) : outcome (Status * option Table * option C) :=
  if size <? footer_length then Done (Corruption "file is too short to be an sstable", None, cache)
  else
    let '(s, footer_input) := ReadAt (size - footer_length) footer_length footer_space file in
    if negb (ok s) then Done (s, None, cache)
    else
      '(s, footer, _) ← footer_DecodeFrom (bytes footer_input) (MkFooter new_BlockHandle new_BlockHandle);
      if negb (ok s) then Done (s, None, cache)
      else
        '(s, index_block_contents) ← ReadBlock file (verify_checksums (paranoid_options options)) (index_handle_ footer) buf ubuf;
        if negb (ok s) then Done (s, None, cache)
        else
          index_block ← new_Block (bytes (bc_data index_block_contents));
          let '(id, cache) := match cache with Some c => let '(id, c) := NewId c in (id, Some c) | None => (0, None) end in
          t ← ReadMeta footer (MkTable options file id None (metaindex_handle_ footer) index_block);
          Done (OK, Some t, cache).

Definition cache_key (id offset : Z) : list Z := EncodeFixed64 id ++ EncodeFixed64 offset.

(** A block read from the file; [None] is an error. *)
Definition read_new (t : Table) (options : ReadOptions) (handle : BlockHandle) : outcome (Status * option (Block * bool)) :=
  '(s, contents) ← ReadBlock (t_file t) (verify_checksums options) handle buf ubuf;
  if ok s then block ← new_Block (bytes (bc_data contents)); Done (s, Some (block, cachable contents)) else Done (s, None).

(** The block of a handle, from the cache or the file. *)
Definition find_block (t : Table) (options : ReadOptions) (handle : BlockHandle) (cache : option C) : outcome (Status * option Block * option C) :=
  match cache with
  | None => '(s, block) ← read_new t options handle; Done (s, option_map fst block, None)
  | Some c =>
    let key := cache_key (t_cache_id t) (offset_ handle) in
    match (Lookup key c).1 with
    | Some block => Done (OK, Some block, Some (Lookup key c).2)
    | None =>
      '(s, block) ← read_new t options handle;
      Done (s, option_map fst block,
        match block with
        | Some (block, true) => Some (if fill_cache options then Insert key block (size_ block) (Lookup key c).2 else (Lookup key c).2)
        | _ => Some (Lookup key c).2
        end)
    end
  end.

Definition BlockReader (t : Table) (options : ReadOptions) (index_value : list Z) (cache : option C) : outcome (block_iterator * option C) :=
  let '(s, handle, _) := handle_DecodeFrom index_value new_BlockHandle in
  '(s, block, cache) ← (if ok s then find_block t options handle cache else Done (s, None, cache));
  match block with
  | Some block => iter ← NewIterator (comparator (t_options t)) block; Done (iter, cache)
  | None => Done (NewErrorIterator s, cache)
  end.

(** A skip of empty blocks passes over entries of the index, which take bytes. *)
Definition table_fuel (t : Table) : nat := (3 + length (data_ (t_index_block t)))%nat.

Definition table_NewIterator (t : Table) (options : ReadOptions) (cache : option C) : outcome (TwoLevelIterator block_iterator block_iterator (option C)) :=
  index ← NewIterator (comparator (t_options t)) (t_index_block t);
  NewTwoLevelIterator index cache.

#[global] Instance table_iterator (t : Table) (options : ReadOptions) : Iterator (TwoLevelIterator block_iterator block_iterator (option C)) :=
  two_level (BlockReader t options) (table_fuel t).

(** [filter != nullptr && handle.DecodeFrom(&handle_value).ok() && !filter->KeyMayMatch(handle.offset(), k)] *)
Definition filtered_out (t : Table) (handle_value k : list Z) : outcome bool :=
  match t_filter t, filter_policy (t_options t) with
  | Some filter, Some p =>
    let '(s, handle, _) := handle_DecodeFrom handle_value new_BlockHandle in
    if ok s then m ← filter_KeyMayMatch p (offset_ handle) k filter; Done (negb m) else Done false
  | Some _, None => Undef
  | None, _ => Done false
  end.

(** The second result is what [handle_result] is called with, if it is. *)
Definition InternalGet (t : Table) (options : ReadOptions) (k : list Z) (cache : option C) : outcome (Status * option entry * option C) :=
  iiter ← NewIterator (comparator (t_options t)) (t_index_block t);
  iiter ← vSeek k iiter;
  '(s, found, cache) ←
    (if vValid iiter then
       handle_value ← vvalue iiter;
       skip ← filtered_out t handle_value k;
       if skip : bool then Done (OK, None, cache)
       else
         '(block_iter, cache) ← BlockReader t options handle_value cache;
         block_iter ← vSeek k block_iter;
         found ← (if vValid block_iter then key ← vkey block_iter; value ← vvalue block_iter; Done (Some (key, value)) else Done None);
         Done (vstatus block_iter, found, cache)
     else Done (OK, None, cache));
  Done (if ok s then vstatus iiter else s, found, cache).

Definition ApproximateOffsetOf (t : Table) (key : list Z) : outcome Z :=
  index_iter ← NewIterator (comparator (t_options t)) (t_index_block t);
  index_iter ← vSeek key index_iter;
  if vValid index_iter then
    input ← vvalue index_iter;
    let '(s, handle, _) := handle_DecodeFrom input new_BlockHandle in
    Done (if ok s then offset_ handle else offset_ (t_metaindex_handle t))
  else Done (offset_ (t_metaindex_handle t)).
End Table.
Arguments Table F : clear implicits.
