(* ===== verification/LdbTableWrite.v ===== *)
(** * LdbTableWrite: what a table builder has written. *)

From Stdlib Require Import ZifyBool Sorting.Sorted.
From stdpp Require Import base tactics numbers list gmap strings sorting.
From S2P Require Import Prelude PbOStream PbWire LdbCoding LdbCrc LdbCrcSpec LdbLog LdbLogSpec LdbBloom LdbKey LdbKeySpec LdbBatch LdbIter LdbBlock LdbBlockSpec LdbBlockIter LdbBlockBuild LdbFormat LdbFilter LdbTwoLevel LdbTable.
Open Scope Z_scope.

(** The fields of an updated state. *)
Ltac rep_simpl := cbn [r_set_file r_set_offset r_set_data r_set_index r_set_last r_set_closed r_set_filter r_set_pending r_set_options
  r_options r_index_options r_file r_offset r_status r_data_block r_index_block r_last_key r_num_entries r_closed r_filter_block r_pending_index_entry r_pending_handle].

Section Write.
Context {F : Type} `{GF : GoodFile F} `{!Snappy} `{!GoodSnappy} (addr_of : list Z -> Z).
Context (Haddr : forall bs, zlen bs < 2 ^ 62 -> address (addr_of bs) (zlen bs)).

(** ** Raw blocks *)

Lemma WriteRawBlock_spec body type (r : Rep F) : Forall is_byte body -> is_byte type -> 0 <= r_offset r -> r_offset r + zlen body + 5 < 2 ^ 62 ->
  exists f, WriteRawBlock addr_of body type r = Done (MkHandle (r_offset r) (zlen body), r_set_offset (r_offset r + (zlen body + 5)) (r_set_file OK f r)) /\
    contents f = contents (r_file r) ++ body ++ trailer body type.
Proof.
  intros Hb Ht Ho Hl. unfold WriteRawBlock. destruct (Append_good body (r_file r)) as (f1 & -> & C1). cbn [ok r_file r_set_file]. unfold is_byte in Ht.
  rewrite (u8_small type) by lia. unfold Value. pose proof (Haddr body ltac:(lia)) as Ha1. pose proof (Haddr [type] ltac:(cbn; lia)) as Ha2. unfold address in *.
  rewrite (Extend_spec _ 0 body) by (done || lia). cbn [mbind outcome_bind].
  assert (Hbt : Forall is_byte [type]) by by apply Forall_singleton.
  rewrite Extend_spec by (done || lia || (apply crc32c_word; [lia|done])). cbn [mbind outcome_bind]. rewrite crc32c_app.
  destruct (Append_good ([type] ++ EncodeFixed32 (Mask (crc32c 0 (body ++ [type])))) f1) as (f2 & -> & C2). cbn [ok]. exists f2. split.
  - unfold kBlockTrailerSize. cbn [r_offset r_set_file]. by rewrite u64_small by lia.
  - rewrite C2, C1. by rewrite <- app_assoc.
Qed.

Lemma compressed_block_spec type raw : type = kNoCompression \/ type = kSnappyCompression -> Forall is_byte raw ->
  exists body type', compressed_block type raw = (body, type') /\ encodes raw body type' /\ zlen body <= zlen raw /\ Forall is_byte body /\ is_byte type'.
Proof.
  intros Htype Hb. unfold compressed_block. assert (is_byte kNoCompression /\ is_byte kSnappyCompression) as [B0 B1] by (unfold is_byte, kNoCompression, kSnappyCompression; lia).
  assert (Hraw : exists body type', (raw, kNoCompression) = (body, type') /\ encodes raw body type' /\ zlen body <= zlen raw /\ Forall is_byte body /\ is_byte type').
  { exists raw, kNoCompression. split_and!; [done|constructor|lia|done|apply B0..]. }
  destruct Htype as [->| ->]; [done|]. cbn [Z.eqb kSnappyCompression kNoCompression]. destruct (Snappy_Compress raw) as [z|] eqn:E; [|done].
  destruct (snappy_back raw z E Hb) as (Hz & Hl & Hu). pose proof (Z.div_pos (zlen raw) 8 ltac:(lia) ltac:(lia)).
  destruct (Z.ltb_spec (zlen z) (zlen raw - zlen raw / 8)); [|done]. exists z, kSnappyCompression. split_and!; [done|by constructor|lia|done|apply B1..].
Qed.

Lemma WriteBlock_spec b raw (r : Rep F) : (bb_Finish b).1 = raw -> Forall is_byte raw -> r_status r = OK ->
  compression (r_options r) = kNoCompression \/ compression (r_options r) = kSnappyCompression -> 0 <= r_offset r -> r_offset r = zlen (contents (r_file r)) -> r_offset r + zlen raw + 5 < 2 ^ 62 ->
  exists h b0 f n, WriteBlock addr_of b r = Done (h, bb_Reset b0, r_set_offset (r_offset r + n) (r_set_file OK f r)) /\
    offset_ h = r_offset r /\ handle_set h /\ 5 <= n <= zlen raw + 5 /\ zlen (contents f) = r_offset r + n /\ stored (contents f) h raw /\
    exists more, contents f = contents (r_file r) ++ more.
Proof.
  intros Hraw Hb Hs Hc Ho Eo Hl. unfold WriteBlock. rewrite Hs. cbn [ok negb]. destruct (bb_Finish b) as [raw' b'] eqn:Ef. cbn [fst] in Hraw. subst raw'.
  destruct (compressed_block_spec _ raw Hc Hb) as (body & type & -> & He & Hle & Hbb & Hbt).
  destruct (WriteRawBlock_spec body type r Hbb Hbt Ho) as (f & -> & Cf); [lia|]. cbn [mbind outcome_bind]. eexists _, b', f, (zlen body + 5). split; [done|].
  split; [done|]. split; [unfold handle_set, unset; cbn; lia|]. split; [lia|]. split; [rewrite Cf, !length_app, trailer_length; lia|]. split.
  - exists (contents (r_file r)), body, type, []. split; [by rewrite app_nil_r|]. split; [done|]. by split.
  - eexists. exact Cf.
Qed.

(** ** The state of the builder *)

Context (o : Options) {valid : list Z -> Prop} {cmp : list Z -> list Z -> Z} `{!GoodComparator (comparator o) valid cmp} `{!ShortComparator (comparator o) valid}.
Context (Hinterval : 1 <= block_restart_interval o) (Hcompression : compression o = kNoCompression \/ compression o = kSnappyCompression).
(** A policy, if there is one, is good and has a short name. *)
Context (same : list Z -> list Z -> Prop) `{!KeepsApart (comparator o) valid cmp same} (B : Z) (HB : 0 <= B).
Context (Hpolicy : forall p, filter_policy o = Some p -> GoodPolicy p valid same B /\ Forall is_byte (Name p) /\ zlen (Name p) < 2 ^ 16).

Abbreviation holds i b es := (builder_holds (valid := valid) (cmp := cmp) i b es).
Abbreviation block raw es := (is_block (valid := valid) (cmp := cmp) raw es).
Abbreviation good e := (good_entry (valid := valid) e).
Abbreviation sorted es := (sorted_entries (cmp := cmp) es).

(** The file has the blocks at the handles. *)
Definition blocks_stored (file : list Z) (blks : list (list entry)) (hs : list BlockHandle) : Prop :=
  Forall2 (fun b h => exists raw, stored file h raw /\ block raw b) blks hs.

(** [e] is after the index entry [x] of the block [b]: no key alike to [e], or to
    one after it, lies between the last entry of [b] and [x]. *)
Definition after_entry (x : entry) (b : list entry) (e : list Z) : Prop :=
  cmp x.1 e < 0 /\ forall d k e', last b = Some d -> valid k -> valid e' -> cmp e e' <= 0 -> cmp d.1 k < 0 -> cmp k x.1 <= 0 -> ~ same k e'.

Lemma after_mono x b e e' : valid x.1 -> valid e -> valid e' -> cmp e e' < 0 -> after_entry x b e -> after_entry x b e'.
Proof.
  intros Hx He He' Hlt [H1' H2']. split; [by apply (cmp_lt_trans _ e)|]. intros d k e0 Ed Hk He0 Hle. apply (H2' d k e0 Ed Hk He0). apply (cmp_trans _ e'); [done..|lia|done].
Qed.

(** The index so far: keys between the blocks, and their handles. *)
Record index_ok (idx : list entry) (blks : list (list entry)) (hs : list BlockHandle) : Prop := {
  ix_handles : map snd idx = map handle_bytes (take (length idx) hs);
  ix_below i e b : idx !! i = Some e -> blks !! i = Some b -> Forall (fun d => cmp d.1 e.1 <= 0) b;
  ix_above i j x b b' : idx !! i = Some x -> blks !! i = Some b -> blks !! j = Some b' -> (i < j)%nat -> Forall (fun d => after_entry x b d.1) b';
}.

(** Handles in the order of the file, before [limit]. *)
Definition handles_ok (hs : list BlockHandle) (limit : Z) : Prop :=
  StronglySorted (fun h h' => offset_ h < offset_ h') hs /\ Forall (fun h => handle_set h /\ offset_ h < limit) hs.

(** The keys of a block are placed in the region of its offset. *)
Definition filter_ok (r : Rep F) (blks : list (list entry)) (hs : list BlockHandle) (cur : list entry) : Prop :=
  match filter_policy o with
  | None => r_filter_block r = None
  | Some p => exists f gs fs ks, r_filter_block r = Some (p, f) /\ filters_made (valid := valid) (same := same) (B := B) p f gs fs ks /\
      zlen gs = r_offset r / kFilterBase /\ (length (concat gs) + length ks = length (concat blks ++ cur))%nat /\
      (forall i b h e, blks !! i = Some b -> hs !! i = Some h -> e ∈ b -> placed gs ks (Z.to_nat (offset_ h / kFilterBase)) e.1) /\
      (forall e, e ∈ cur -> placed gs ks (length gs) e.1)
  end.

Record table_inv (r : Rep F) (blks : list (list entry)) (hs : list BlockHandle) (idx cur : list entry) : Prop := {
  ti_options : r_options r = o /\ r_index_options r = set_interval 1 o;
  ti_status : r_status r = OK;
  ti_offset : r_offset r = zlen (contents (r_file r));
  ti_offset_le : r_offset r <= 2 * total_cost (concat blks);
  ti_blocks : blocks_stored (contents (r_file r)) blks hs;
  ti_handles : handles_ok hs (r_offset r);
  ti_data : holds (block_restart_interval o) (r_data_block r) cur;
  ti_data_le : CurrentSizeEstimate (r_data_block r) <= 8 + total_cost cur;
  ti_index : holds 1 (r_index_block r) idx;
  ti_index_le : CurrentSizeEstimate (r_index_block r) <= 8 + 2 * total_cost (concat (take (length idx) blks));
  ti_index_ok : index_ok idx blks hs;
  ti_index_cur i x b : idx !! i = Some x -> blks !! i = Some b -> Forall (fun d => after_entry x b d.1) cur;
  ti_pending : if r_pending_index_entry r then cur = [] /\ length blks = S (length idx) /\ last hs = Some (r_pending_handle r)
    else length idx = length blks;
  ti_nonempty : Forall (fun b => b <> []) blks;
  ti_good : Forall (fun e => good e) (concat blks ++ cur);
  ti_sorted : sorted (concat blks ++ cur);
  ti_num : r_num_entries r = zlen (concat blks ++ cur);
  ti_filter : filter_ok r blks hs cur;
}.

(** ** Costs *)

Lemma total_cost_app es es' : total_cost (es ++ es') = total_cost es + total_cost es'.
Proof. induction es as [|e es IH]; [done|]. cbn [app total_cost foldr]. fold (total_cost (es ++ es')). fold (total_cost es). lia. Qed.

Lemma total_cost_cons e es : total_cost (e :: es) = entry_cost e + total_cost es.
Proof. done. Qed.

Lemma total_cost_length es : 34 * zlen es <= total_cost es.
Proof. induction es as [|e es IH]; [done|]. rewrite total_cost_cons. unfold entry_cost. cbn [length]. lia. Qed.

Lemma total_cost_elem e es : e ∈ es -> zlen e.1 + 34 <= total_cost es.
Proof.
  intros He. apply list_elem_of_split in He as (l1 & l2 & ->). rewrite total_cost_app, total_cost_cons. pose proof (total_cost_nonneg l1). pose proof (total_cost_nonneg l2).
  unfold entry_cost. lia.
Qed.

Lemma total_cost_take n es : total_cost (concat (take n es)) <= total_cost (concat es).
Proof. rewrite <- (take_drop n es) at 2. rewrite concat_app, total_cost_app. pose proof (total_cost_nonneg (concat (drop n es))). lia. Qed.

(** ** Blocks *)

Lemma is_block_bytes raw es : block raw es -> Forall is_byte raw.
Proof.
  intros (xs & rp & L & -> & _). unfold block_of, restarts_bytes. rewrite !Forall_app. split_and!; [by apply (entries_are_bytes xs rp)|apply words_bytes|apply le_bytes_bytes].
Qed.

Lemma holds_size i b es : holds i b es -> zlen (bb_Finish b).1 = CurrentSizeEstimate b.
Proof. intros (xs & rp & Hb & _). by rewrite (bb_Finish_spec i b xs rp Hb), (built_size i b xs rp Hb). Qed.

Lemma blocks_stored_app file more blks hs : blocks_stored file blks hs -> blocks_stored (file ++ more) blks hs.
Proof. intros Hst. eapply Forall2_impl; [exact Hst|]. intros b h (raw & Hs & Hb). exists raw. split; [by apply stored_app|done]. Qed.

Lemma handles_snoc hs h limit : handles_ok hs (offset_ h) -> handle_set h -> offset_ h < limit -> handles_ok (hs ++ [h]) limit.
Proof.
  intros [Hs Hf] Hh Hl. split.
  - apply StronglySorted_app_2; [|done|by repeat constructor]. intros x y Hx Hy. apply list_elem_of_singleton in Hy as ->. rewrite Forall_forall in Hf. by apply Hf.
  - apply Forall_app. split; [|by apply Forall_singleton]. eapply Forall_impl; [exact Hf|]. intros x [? ?]. split; [done|lia].
Qed.

(** ** Flush *)

(** The filter after a block was written. *)
Lemma start_filter_spec (r : Rep F) blks hs cur h : handles_ok hs (offset_ h) ->
  filter_ok (r_set_offset (offset_ h) r) blks hs cur -> 0 <= offset_ h <= r_offset r -> length hs = length blks -> zlen (concat blks ++ cur) < 2 ^ 31 ->
  exists fb, start_filter (r_offset r) r = Done (r_set_filter fb r) /\ filter_ok (r_set_filter fb r) (blks ++ [cur]) (hs ++ [h]) [].
Proof.
  intros Hh Hf Ho Hlen Hcount. unfold start_filter, filter_ok in *. cbn [r_filter_block r_set_filter r_offset r_set_offset] in *. destruct (filter_policy o) as [p|] eqn:Ep.
  - destruct Hf as (f & gs & fs & ks & Ef & M & Hg & Hn & Hp & Hc). destruct (Hpolicy p eq_refl) as [G _]. rewrite Ef.
    assert (Hmono : offset_ h / kFilterBase <= r_offset r / kFilterBase) by (apply Z.div_le_mono; [by vm_compute|lia]). pose proof (Z.div_pos (offset_ h) kFilterBase ltac:(lia) ltac:(by vm_compute)).
    destruct (StartBlock_spec p f gs fs ks (r_offset r) M) as (f' & fs' & -> & M'); [lia|lia|]. cbn [mbind outcome_bind]. eexists. split; [done|].
    set (idx := Z.to_nat (r_offset r / kFilterBase)) in *. assert (Hle : (length gs <= idx)%nat) by lia. pose proof (start_groups_length idx gs ks Hle) as Hgl.
    pose proof (start_groups_total idx gs ks) as Htot. exists f', (start_groups idx gs ks).1, fs', (start_groups idx gs ks).2. split; [done|]. split; [done|]. split; [lia|].
    split; [rewrite concat_app; cbn [concat]; rewrite !app_nil_r; lia|]. split; [|intros e He; by apply elem_of_nil in He].
    intros i b h' e Eb Eh He. apply placed_start; [done|]. destruct (Nat.lt_ge_cases i (length blks)).
    + rewrite lookup_app_l in Eb by lia. rewrite lookup_app_l in Eh by lia. by apply (Hp i b h').
    + assert (i = length blks) as -> by (apply lookup_lt_Some in Eb; rewrite length_app in Eb; cbn in Eb; lia).
      rewrite lookup_app_r, Nat.sub_diag in Eb by lia. rewrite <- Hlen, lookup_app_r, Nat.sub_diag in Eh by lia. injection Eb as <-. injection Eh as <-.
      replace (Z.to_nat (offset_ h / kFilterBase)) with (length gs) by lia. by apply Hc.
  - rewrite Hf. exists None. by destruct r; cbn in *; subst.
Qed.

Lemma inv_small r blks hs idx cur : table_inv r blks hs idx cur -> total_cost (concat blks ++ cur) < 2 ^ 30 ->
  0 <= r_offset r < 2 ^ 31 /\ zlen (concat blks ++ cur) < 2 ^ 31 /\ 0 <= total_cost (concat blks) < 2 ^ 30 /\ 0 <= total_cost cur < 2 ^ 30 /\ length hs = length blks.
Proof.
  intros I Hc. pose proof (ti_offset _ _ _ _ _ I). pose proof (ti_offset_le _ _ _ _ _ I). pose proof (total_cost_length (concat blks ++ cur)). rewrite total_cost_app in *.
  pose proof (total_cost_nonneg (concat blks)). pose proof (total_cost_nonneg cur). pose proof (Forall2_length _ _ _ (ti_blocks _ _ _ _ _ I)). split_and!; lia.
Qed.

Lemma index_ok_snoc idx blks hs b h : index_ok idx blks hs -> (forall i x b', idx !! i = Some x -> blks !! i = Some b' -> Forall (fun d => after_entry x b' d.1) b) ->
  length hs = length blks -> (length idx <= length blks)%nat -> index_ok idx (blks ++ [b]) (hs ++ [h]).
Proof.
  intros X Hb Hl Hi. split.
  - rewrite take_app_le by lia. apply (ix_handles _ _ _ X).
  - intros i e b' Ee Eb. pose proof (lookup_lt_Some _ _ _ Ee). rewrite lookup_app_l in Eb by lia. by apply (ix_below _ _ _ X i).
  - intros i j x b1 b2 Ex Eb1 Eb2 Hij. pose proof (lookup_lt_Some _ _ _ Ex). rewrite lookup_app_l in Eb1 by lia. destruct (Nat.lt_ge_cases j (length blks)) as [Hlt|Hge].
    + rewrite lookup_app_l in Eb2 by done. by apply (ix_above _ _ _ X i j x).
    + rewrite lookup_app_r in Eb2 by done. apply list_lookup_singleton_Some in Eb2 as [_ <-]. by apply (Hb i x b1).
Qed.

(** Between calls: the key of the last entry is remembered, and blocks whose
    index entries are all written are followed by entries. *)
Definition between (r : Rep F) (blks : list (list entry)) (cur : list entry) : Prop :=
  (forall e, last (concat blks ++ cur) = Some e -> r_last_key r = e.1) /\ (r_pending_index_entry r = false -> cur = [] -> blks = []).

Lemma table_Flush_spec r blks hs idx cur : table_inv r blks hs idx cur -> between r blks cur -> r_closed r = false -> total_cost (concat blks ++ cur) < 2 ^ 30 ->
  exists r' blks' hs', table_Flush addr_of r = Done r' /\ r_closed r' = false /\ table_inv r' blks' hs' idx [] /\ between r' blks' [] /\
    concat blks' = concat blks ++ cur.
Proof.
  intros I [Hlast Hbetween] Hopen Hc. destruct (inv_small _ _ _ _ _ I Hc) as (Hoff & Hn & Hcb & Hcc & Hlen). unfold table_Flush. rewrite Hopen, (ti_status _ _ _ _ _ I). cbn [ok negb].
  rewrite (builder_empty (block_restart_interval o) _ cur (ti_data _ _ _ _ _ I)). case_bool_decide as Hne.
  { subst cur. exists r, blks, hs. split_and!; [done|done|done|done|by rewrite app_nil_r]. }
  pose proof (ti_pending _ _ _ _ _ I) as Hpend. destruct (r_pending_index_entry r) eqn:Epend; [by destruct Hpend as [-> _]|].
  destruct (ti_options _ _ _ _ _ I) as [Eopt _]. set (raw := (bb_Finish (r_data_block r)).1).
  assert (Hblock : block raw cur) by exact (builder_Finish _ _ _ (ti_data _ _ _ _ _ I)).
  assert (Hraw : zlen raw <= 8 + total_cost cur) by (unfold raw; rewrite (holds_size _ _ _ (ti_data _ _ _ _ _ I)); apply (ti_data_le _ _ _ _ _ I)).
  assert (Hcost : 34 <= total_cost cur) by (pose proof (total_cost_length cur); destruct cur; [done|cbn in *; lia]).
  destruct (WriteBlock_spec (r_data_block r) raw r eq_refl (is_block_bytes raw cur Hblock) (ti_status _ _ _ _ _ I)) as (h & b0 & f & n & -> & Eh & Hh & Hnb & Hcf & Hst & more & Ef).
  { by rewrite Eopt. } { lia. } { apply (ti_offset _ _ _ _ _ I). } { lia. }
  cbn [mbind outcome_bind]. cbv zeta. change (ok (r_status (r_set_pending _ _ _))) with true. cbv iota. change (r_file (r_set_pending _ _ _)) with f.
  destruct (Flush_good f) as (f' & -> & Cf'). set (r2 := r_set_file OK f' _). assert (Hfilter : filter_ok (r_set_offset (offset_ h) r2) blks hs cur) by (pose proof (ti_filter _ _ _ _ _ I); rewrite Eh; by destruct r).
  destruct (ti_handles _ _ _ _ _ I) as [Hsort Hall].
  destruct (start_filter_spec r2 blks hs cur h) as (fb & Esf & Hfb); [by rewrite Eh|done|cbn; lia|done|done|].
  rewrite Esf. eexists _, (blks ++ [cur]), (hs ++ [h]). split; [done|]. split; [exact Hopen|].
  assert (Hcat : concat (blks ++ [cur]) = concat blks ++ cur) by (rewrite concat_app; cbn; by rewrite app_nil_r).
  split; [|split; [split; [rewrite Hcat, app_nil_r; exact Hlast|intros [=]]|exact Hcat]]. subst r2. split; rep_simpl.
  - apply (ti_options _ _ _ _ _ I).
  - done.
  - rewrite Cf'. lia.
  - rewrite Hcat, total_cost_app. pose proof (ti_offset_le _ _ _ _ _ I). lia.
  - rewrite Cf', Ef. apply Forall2_app; [apply blocks_stored_app, (ti_blocks _ _ _ _ _ I)|]. constructor; [|constructor]. exists raw. by rewrite <- Ef.
  - apply handles_snoc; [by rewrite Eh|done|lia].
  - by apply builder_Reset.
  - done.
  - apply (ti_index _ _ _ _ _ I).
  - rewrite take_app_le by lia. apply (ti_index_le _ _ _ _ _ I).
  - apply index_ok_snoc; [apply (ti_index_ok _ _ _ _ _ I)|apply (ti_index_cur _ _ _ _ _ I)|done|lia].
  - intros. constructor.
  - split; [done|]. split; [rewrite length_app; cbn; lia|]. by rewrite last_snoc.
  - apply Forall_app. split; [apply (ti_nonempty _ _ _ _ _ I)|by apply Forall_singleton].
  - rewrite Hcat, app_nil_r. apply (ti_good _ _ _ _ _ I).
  - rewrite Hcat, app_nil_r. apply (ti_sorted _ _ _ _ _ I).
  - rewrite Hcat, app_nil_r. apply (ti_num _ _ _ _ _ I).
  - exact Hfb.
Qed.

(** ** Index entries *)

Lemma last_block blks idx hs r : table_inv r blks hs idx [] -> r_pending_index_entry r = true ->
  exists blks0 b e, blks = blks0 ++ [b] /\ length blks0 = length idx /\ last (concat blks) = Some e /\ last b = Some e /\ Forall (fun d => cmp d.1 e.1 <= 0) b /\ good e.
Proof.
  intros I Hp. pose proof (ti_pending _ _ _ _ _ I) as Hpend. rewrite Hp in Hpend. destruct Hpend as (_ & Hl & _).
  destruct blks as [|b blks0 _] using rev_ind; [done|]. rewrite length_app in Hl. cbn in Hl. pose proof (ti_nonempty _ _ _ _ _ I) as Hne. apply Forall_app in Hne as [_ Hne].
  rewrite Forall_singleton in Hne. destruct b as [|e b _] using rev_ind; [done|]. exists blks0, (b ++ [e]), e. rewrite concat_app. cbn [concat]. rewrite app_nil_r, app_assoc, last_snoc.
  pose proof (ti_sorted _ _ _ _ _ I) as Hs. pose proof (ti_good _ _ _ _ _ I) as Hg. rewrite app_nil_r, concat_app in Hs, Hg. cbn [concat] in Hs, Hg. rewrite app_nil_r in Hs, Hg.
  apply Forall_app in Hg as [_ Hg]. rewrite Forall_app, Forall_singleton in Hg. destruct Hg as [_ Hge]. split_and!; [done|lia|done|by rewrite last_snoc| |done].
  apply Forall_app. split; [|apply Forall_singleton; rewrite (cmp_refl e.1); [lia|apply Hge]]. apply StronglySorted_app_1_r in Hs. apply Forall_forall. intros d Hd.
  pose proof (StronglySorted_app_1_elem_of _ b [e] d e Hs Hd (proj2 (list_elem_of_singleton e e) eq_refl)) as Hlt. cbn beta in Hlt. lia.
Qed.

Lemma add_index_spec r blks hs idx sep e : table_inv r blks hs idx [] -> r_pending_index_entry r = true -> total_cost (concat blks) < 2 ^ 30 ->
  last (concat blks) = Some e -> valid sep -> cmp e.1 sep <= 0 -> zlen sep <= zlen e.1 ->
  exists ib h, (forall r' : Rep F, r_pending_handle r' = r_pending_handle r -> r_index_options r' = r_index_options r -> r_index_block r' = r_index_block r ->
      add_index_entry sep r' = Done (r_set_pending false h (r_set_index ib sep r'))) /\
    holds 1 ib (idx ++ [(sep, handle_bytes h)]) /\ CurrentSizeEstimate ib <= 8 + 2 * total_cost (concat blks) /\ index_ok (idx ++ [(sep, handle_bytes h)]) blks hs.
Proof.
  intros I Hp Hc Elast Hv Hle Hlen. destruct (last_block _ _ _ _ I Hp) as (blks0 & b & e' & -> & Hl0 & Elast' & Hlb & Hb & Hge). rewrite Elast in Elast'. injection Elast' as <-.
  assert (Hin : e ∈ b) by (rewrite last_lookup in Hlb; by apply list_elem_of_lookup_2 in Hlb).
  pose proof (ti_pending _ _ _ _ _ I) as Hpend. rewrite Hp in Hpend. destruct Hpend as (_ & Hl & Hh). pose proof (ti_index_ok _ _ _ _ _ I) as X.
  pose proof (Forall2_length _ _ _ (ti_blocks _ _ _ _ _ I)) as Hhs. set (h := r_pending_handle r) in *.
  assert (Hset : handle_set h). { destruct (ti_handles _ _ _ _ _ I) as [_ Hf]. rewrite last_lookup in Hh. apply (Forall_lookup_1 _ _ _ _ Hf) in Hh. apply Hh. }
  pose proof (handle_bytes_length h) as Hhl. pose proof (ti_index_le _ _ _ _ _ I) as Hsize. pose proof (total_cost_elem e b Hin) as Hcb.
  rewrite concat_app, total_cost_app in Hc |- *. cbn [concat] in Hc |- *. rewrite app_nil_r in Hc |- *. pose proof (total_cost_nonneg (concat blks0)).
  rewrite take_app_le, take_ge in Hsize by lia.
  assert (Hcost : entry_cost (sep, handle_bytes h) <= 2 * total_cost b) by (unfold entry_cost; cbn [fst snd]; lia).
  destruct (builder_Add 1 ltac:(lia) (comparator o) (r_index_block r) idx sep (handle_bytes h) (ti_index _ _ _ _ _ I) Hv) as (ib & Eib & Hib & Hie).
  - by apply (short_bytes (c := comparator o)).
  - by apply handle_bytes_bytes.
  - intros x Ex. rewrite last_lookup in Ex. destruct idx as [|i0 idx0] eqn:Eidx; [done|]. rewrite <- Eidx in *. clear Eidx i0 idx0.
    assert (Eb : (blks0 ++ [b]) !! length idx = Some b) by (rewrite lookup_app_r, Hl0, Nat.sub_diag by lia; done).
    pose proof (lookup_lt_Some _ _ _ Ex). destruct (lookup_lt_is_Some_2 (blks0 ++ [b]) (pred (length idx))) as [bx Ebx]; [rewrite length_app; lia|].
    pose proof (ix_above _ _ _ X _ _ x bx b Ex Ebx Eb ltac:(lia)) as Hab. rewrite Forall_forall in Hab. destruct (Hab e Hin) as [Hxe _].
    destruct (ti_index _ _ _ _ _ I) as (xs & rp & Hbu & Exs). pose proof (bu_valid _ _ _ _ Hbu) as Hvx. rewrite <- Exs in Ex. apply list_lookup_fmap_Some in Ex as (y & -> & Ey).
    pose proof (Forall_lookup_1 _ _ _ _ Hvx Ey) as Hy. cbn beta in Hy. cbn [fst] in *. apply (cmp_lt_le _ e.1); [done|apply Hge|done..].
  - lia.
  - exists ib, h. split.
    { intros r' E1 E2 E3. unfold add_index_entry. rewrite E1, E2, E3. fold h. rewrite handle_encode by done. destruct (ti_options _ _ _ _ _ I) as [_ ->]. cbn [mbind outcome_bind app].
      change (block_restart_interval (set_interval 1 o)) with 1. change (comparator (set_interval 1 o)) with (comparator o). by rewrite Eib. }
    split; [done|]. split; [lia|]. split.
    + rewrite map_app, (ix_handles _ _ _ X), length_app. cbn [length map snd]. rewrite last_lookup in Hh. replace (pred (length hs)) with (length idx) in Hh by (rewrite length_app in *; cbn in *; lia).
      rewrite Nat.add_1_r, (take_S_r _ _ _ Hh), map_app. done.
    + intros i e0 b0 Ee0 Eb0. destruct (Nat.lt_ge_cases i (length idx)) as [Hlt|Hge'].
      * rewrite lookup_app_l in Ee0 by done. by apply (ix_below _ _ _ X i).
      * rewrite lookup_app_r in Ee0 by done. apply list_lookup_singleton_Some in Ee0 as [Hi0 <-]. assert (i = length idx) as -> by lia.
        rewrite lookup_app_r, Hl0, Nat.sub_diag in Eb0 by lia. injection Eb0 as <-. cbn [fst]. pose proof (ti_good _ _ _ _ _ I) as Hg. rewrite app_nil_r, concat_app in Hg. cbn [concat] in Hg.
        rewrite app_nil_r in Hg. apply Forall_app in Hg as [_ Hg]. apply Forall_forall. intros d Hd. rewrite Forall_forall in Hb, Hg. apply (cmp_trans _ e.1); [apply (Hg d Hd)|apply Hge|done|by apply Hb|done].
    + intros i j e0 b0 b1 Ee0 Eb0 Eb1 Hij. destruct (Nat.lt_ge_cases i (length idx)) as [Hlt|Hge'].
      * rewrite lookup_app_l in Ee0 by done. by apply (ix_above _ _ _ X i j e0).
      * apply lookup_lt_Some in Eb1. rewrite length_app in Eb1. cbn in Eb1. lia.
Qed.

(** ** Add *)

Lemma assert_after_spec r blks hs idx cur k v : table_inv r blks hs idx cur -> between r blks cur -> good (k, v) -> sorted ((concat blks ++ cur) ++ [(k, v)]) ->
  assert_after k r = Done tt.
Proof.
  intros I [Hlast _] Hk Hs. unfold assert_after. rewrite (ti_num _ _ _ _ _ I). destruct (Z.ltb_spec 0 (zlen (concat blks ++ cur))) as [Hpos|]; [|done].
  destruct (last (concat blks ++ cur)) as [e|] eqn:E; [|apply last_None in E; by rewrite E in Hpos]. rewrite (Hlast e eq_refl). destruct (ti_options _ _ _ _ _ I) as [-> _].
  pose proof (sorted_last _ (k, v) [] Hs e E) as Hlt. cbn [fst] in Hlt. rewrite last_lookup in E. pose proof (Forall_lookup_1 _ _ _ _ (ti_good _ _ _ _ _ I) E) as Hge.
  destruct Hk as [Hk _]. destruct Hge as [Hge _]. cbn [fst] in Hk. rewrite (cmp_total k e.1 Hk Hge). cbn [mbind outcome_bind]. pose proof (cmp_anti k e.1 Hk Hge). by destruct (Z.ltb_spec 0 (cmp k e.1)); [|lia].
Qed.

(** After the index entry of the block before, if it was due. *)
Lemma before_add r blks hs idx cur k v : table_inv r blks hs idx cur -> between r blks cur -> good (k, v) -> sorted ((concat blks ++ cur) ++ [(k, v)]) ->
  total_cost (concat blks ++ cur) < 2 ^ 30 ->
  exists r' idx', (if r_pending_index_entry r then
           if bb_empty (r_data_block r) then
             last_key ← FindShortestSeparator (comparator (r_options r)) (r_last_key r) k;
             add_index_entry last_key r
           else Undef
         else Done r) = Done r' /\ r_closed r' = r_closed r /\ table_inv r' blks hs idx' cur /\ r_pending_index_entry r' = false /\
    length idx' = length blks /\ (forall i x b, idx' !! i = Some x -> blks !! i = Some b -> after_entry x b k).
Proof.
  intros I [Hlast Hbetween] Hk Hs Hc. pose proof (ti_pending _ _ _ _ _ I) as Hpend. destruct Hk as (Hvk & Hkb & Hvb). cbn [fst snd] in *.
  assert (Hidx : Forall (fun e => valid e.1) idx).
  { destruct (ti_index _ _ _ _ _ I) as (xs & rp & Hbu & <-). apply Forall_map. exact (bu_valid _ _ _ _ Hbu). }
  destruct (r_pending_index_entry r) eqn:Ep.
  - destruct Hpend as (-> & Hl & Hh). rewrite (builder_empty _ _ [] (ti_data _ _ _ _ _ I)), bool_decide_true by done. rewrite app_nil_r in *.
    destruct (last_block _ _ _ _ I Ep) as (blks0 & b & e & Eb & Hl0 & Elast & Hlb & Hb & Hge & _). rewrite (Hlast e Elast). destruct (ti_options _ _ _ _ _ I) as [Eo _]. rewrite Eo.
    destruct (good_separator e.1 k Hge Hvk) as (sep & Es & Hv & Hsep & _). pose proof (sorted_last _ (k, v) [] Hs e Elast) as Hlt. cbn [fst] in Hlt. destruct (Hsep Hlt) as [Hs1 Hs2].
    rewrite Es. cbn [mbind outcome_bind]. destruct (add_index_spec r blks hs idx sep e I Ep Hc Elast Hv Hs1 (short_separator _ _ _ Hge Es)) as (ib & h & E & Hib & Hsz & X).
    eexists _, (idx ++ [(sep, handle_bytes h)]). split; [exact (E r eq_refl eq_refl eq_refl)|]. split; [done|].
    assert (Hlen' : length (idx ++ [(sep, handle_bytes h)]) = length blks) by (rewrite length_app; cbn; lia). split; [|split; [done|]; split; [done|]].
    + destruct I. split; rep_simpl; try done. { by rewrite Hlen', take_ge by lia. } 
    + assert (Eb' : blks !! length idx = Some b) by (rewrite Eb, lookup_app_r, Hl0, Nat.sub_diag by lia; done).
      intros i x bx Ex Ebx. destruct (Nat.lt_ge_cases i (length idx)) as [Hi|Hi].
      * rewrite lookup_app_l in Ex by done. pose proof (ix_above _ _ _ (ti_index_ok _ _ _ _ _ I) i (length idx) x bx b Ex Ebx Eb' Hi) as Hab.
        rewrite last_lookup in Hlb. apply (Forall_lookup_1 _ _ _ _ Hab) in Hlb. apply (after_mono x bx e.1); [exact (Forall_lookup_1 _ _ _ _ Hidx Ex)|done..].
      * rewrite lookup_app_r in Ex by done. apply list_lookup_singleton_Some in Ex as [Hi0 <-]. assert (i = length idx) as -> by lia. rewrite Eb' in Ebx. injection Ebx as <-.
        split; [exact Hs2|]. intros d k' e' Ed Hk' He' Hle Hdk Hks. rewrite Hlb in Ed. injection Ed as <-. by apply (apart e.1 k sep).
  - exists r, idx. split_and!; [done|done|done|done|done|]. intros i x b Ex Eb. destruct cur as [|d cur _] using rev_ind.
    + rewrite (Hbetween eq_refl eq_refl) in Eb. done.
    + pose proof (ti_index_cur _ _ _ _ _ I i x b Ex Eb) as Hd. rewrite Forall_app, Forall_singleton in Hd. destruct Hd as [_ Hd].
      pose proof (ti_good _ _ _ _ _ I) as Hg. rewrite app_assoc, Forall_app, Forall_singleton in Hg. destruct Hg as [_ [Hdv _]].
      assert (Hdk : cmp d.1 k < 0) by (apply (sorted_last _ (k, v) [] Hs d); by rewrite app_assoc, last_snoc).
      apply (after_mono x b d.1); [exact (Forall_lookup_1 _ _ _ _ Hidx Ex)|done..].
Qed.

(** A key more in the filter. *)
Lemma add_filter_key r blks hs cur k v : filter_ok r blks hs cur -> valid k -> exists fb,
  (match r_filter_block r with Some (p, f) => r_set_filter (Some (p, AddKey k f)) r | None => r end) = r_set_filter fb r /\
  filter_ok (r_set_filter fb r) blks hs (cur ++ [(k, v)]).
Proof.
  unfold filter_ok. cbn [r_filter_block r_set_filter r_offset]. destruct (filter_policy o) as [p|] eqn:Ep.
  - intros (f & gs & fs & ks & -> & M & Hg & Hn & Hp & Hc) Hk. destruct (Hpolicy p eq_refl) as [G _]. eexists. split; [done|]. exists (AddKey k f), gs, fs, (ks ++ [k]). split; [done|].
    split; [by apply AddKey_spec|]. split; [done|]. split; [rewrite app_assoc, !length_app in *; cbn; lia|]. split.
    + intros i b h e Eb Eh He. apply placed_add. by apply (Hp i b h).
    + intros e He. apply elem_of_app in He as [He|He]; [by apply placed_add, Hc|]. apply list_elem_of_singleton in He as ->. apply placed_new.
  - intros E _. exists None. rewrite E. split; [|done]. by destruct r; cbn in *; subst.
Qed.

Lemma table_Add_spec r blks hs idx cur k v : table_inv r blks hs idx cur -> between r blks cur -> r_closed r = false -> good (k, v) ->
  sorted ((concat blks ++ cur) ++ [(k, v)]) -> total_cost ((concat blks ++ cur) ++ [(k, v)]) < 2 ^ 30 ->
  exists r' blks' hs' idx' cur', table_Add addr_of k v r = Done r' /\ r_closed r' = false /\ table_inv r' blks' hs' idx' cur' /\ between r' blks' cur' /\
    concat blks' ++ cur' = (concat blks ++ cur) ++ [(k, v)].
Proof.
  intros I Hb Hopen Hk Hs Hc. pose proof Hc as Hc'. rewrite total_cost_app, total_cost_cons in Hc'. change (total_cost []) with 0 in Hc'. pose proof (total_cost_nonneg (concat blks ++ cur)) as Hpos.
  assert (Hcost : 0 <= entry_cost (k, v)) by (unfold entry_cost; lia). unfold table_Add. rewrite Hopen, (ti_status _ _ _ _ _ I). cbn [ok negb].
  rewrite (assert_after_spec r blks hs idx cur k v I Hb Hk Hs). cbn [mbind outcome_bind].
  destruct (before_add r blks hs idx cur k v I Hb Hk Hs ltac:(lia)) as (r1 & idx' & -> & Ecl & I1 & Ep1 & Hl1 & Hi1). cbn [mbind outcome_bind].
  destruct Hk as (Hvk & Hkb & Hvb). cbn [fst snd] in *. destruct (add_filter_key r1 blks hs cur k v (ti_filter _ _ _ _ _ I1) Hvk) as (fb & -> & Hfb).
  destruct (ti_options _ _ _ _ _ I1) as [Eo1 _]. cbv zeta. change (r_options (r_set_last _ _ _)) with (r_options r1). change (r_data_block (r_set_last _ _ _)) with (r_data_block r1). rewrite Eo1.
  destruct (inv_small _ _ _ _ _ I1 ltac:(lia)) as (_ & _ & Hcb & Hcc & _). rewrite total_cost_app in Hc', Hpos.
  destruct (builder_Add (block_restart_interval o) Hinterval (comparator o) (r_data_block r1) cur k v (ti_data _ _ _ _ _ I1) Hvk Hkb Hvb) as (d & -> & Hd & Hde).
  { intros e Ee. apply (sorted_last _ (k, v) [] Hs e). rewrite last_app, Ee. done. } { pose proof (ti_data_le _ _ _ _ _ I1). lia. }
  cbn [mbind outcome_bind]. set (r2 := r_set_data d _).
  assert (I2 : table_inv r2 blks hs idx' (cur ++ [(k, v)])).
  { destruct I1. subst r2. split; rep_simpl; try done.
    - rewrite total_cost_app, total_cost_cons. change (total_cost []) with 0. lia.
    - intros i x b Ex Eb. rewrite Forall_app, Forall_singleton. split; [by apply (ti_index_cur0 i)|]. by apply (Hi1 i).
    - by rewrite Ep1.
    - rewrite app_assoc, Forall_app, Forall_singleton. by split.
    - by rewrite app_assoc.
    - rewrite ti_num0, app_assoc, !length_app. cbn. lia. }
  assert (Hb2 : between r2 blks (cur ++ [(k, v)])).
  { split; [|by destruct cur]. intros e Ee. rewrite app_assoc, last_snoc in Ee. injection Ee as <-. done. }
  rewrite <- app_assoc in Hc |- *. assert (Hcl2 : r_closed r2 = false) by (change (r_closed r1 = false); congruence).
  change (r_options r2) with (r_options r1). rewrite Eo1. destruct (block_size o <=? CurrentSizeEstimate d).
  - destruct (table_Flush_spec r2 blks hs idx' _ I2 Hb2 Hcl2 Hc) as (r' & blks' & hs' & E & Hcl' & I' & Hb' & Ec).
    exists r', blks', hs', idx', []. split_and!; [done|done|done|done|]. by rewrite app_nil_r.
  - exists r2, blks, hs, idx', (cur ++ [(k, v)]). by split_and!.
Qed.

(** ** A new builder, and all entries *)

Lemma new_table_spec file : contents file = [] -> exists r, new_TableBuilder o file = Done r /\ r_closed r = false /\ table_inv r [] [] [] [] /\ between r [] [].
Proof.
  intros Hf. unfold new_TableBuilder, new_BlockBuilder. destruct (Z.ltb_spec (block_restart_interval o) 1); [lia|]. cbn [mbind outcome_bind].
  set (r0 := MkRep _ _ _ _ _ _ _ _ _ _ _ _ _).
  assert (Hstart : exists fb, start_filter 0 r0 = Done (r_set_filter fb r0) /\ filter_ok (r_set_filter fb r0) [] [] []).
  { unfold start_filter, filter_ok. cbn [r_filter_block r_set_filter r_offset]. subst r0. cbn [r_filter_block]. destruct (filter_policy o) as [p|] eqn:Ep; [|by exists None].
    destruct (Hpolicy p eq_refl) as [G _]. destruct (StartBlock_spec p new_FilterBlockBuilder [] [] [] 0 (made_new p)) as (f' & fs' & -> & M'); [done|done|]. cbn [mbind outcome_bind].
    eexists. split; [done|]. exists f', [], fs', []. split; [done|]. split; [done|]. split; [done|]. split; [done|]. split; [done|]. intros e He. by apply elem_of_nil in He. }
  destruct Hstart as (fb & E & Hfb). exists (r_set_filter fb r0). split; [done|]. split; [done|]. split; [|split; done]. subst r0. split; rep_simpl; try done.
  - by rewrite Hf.
  - constructor.
  - split; constructor.
  - exact (builder_Reset _ Hinterval (MkBuilder [] [0] 0 false [])).
  - exact (builder_Reset 1 ltac:(lia) (MkBuilder [] [0] 0 false [])).
  - constructor.
Qed.

Fixpoint table_add_all (es : list entry) (r : Rep F) : outcome (Rep F) :=
  match es with
  | [] => Done r
  | e :: es => r ← table_Add addr_of e.1 e.2 r; table_add_all es r
  end.

Lemma table_add_all_spec es : forall r blks hs idx cur, table_inv r blks hs idx cur -> between r blks cur -> r_closed r = false -> Forall (fun e => good e) es ->
  sorted ((concat blks ++ cur) ++ es) -> total_cost ((concat blks ++ cur) ++ es) < 2 ^ 30 ->
  exists r' blks' hs' idx' cur', table_add_all es r = Done r' /\ r_closed r' = false /\ table_inv r' blks' hs' idx' cur' /\ between r' blks' cur' /\
    concat blks' ++ cur' = (concat blks ++ cur) ++ es.
Proof.
  induction es as [|[k v] es IH]; intros r blks hs idx cur I Hb Hcl Hg Hs Hc.
  { exists r, blks, hs, idx, cur. split_and!; [done..|by rewrite app_nil_r]. }
  apply Forall_cons in Hg as [Hk Hg]. cbn [table_add_all fst snd]. rewrite cons_middle, app_assoc in Hs, Hc.
  destruct (table_Add_spec r blks hs idx cur k v I Hb Hcl Hk) as (r1 & blks1 & hs1 & idx1 & cur1 & -> & Hcl1 & I1 & Hb1 & E1).
  { by apply StronglySorted_app_1_l in Hs. } { rewrite total_cost_app in Hc. pose proof (total_cost_nonneg es). lia. }
  cbn [mbind outcome_bind]. rewrite <- E1 in Hs, Hc. destruct (IH r1 blks1 hs1 idx1 cur1 I1 Hb1 Hcl1 Hg Hs Hc) as (r' & blks' & hs' & idx' & cur' & E & Hcl' & I' & Hb' & E').
  exists r', blks', hs', idx', cur'. split_and!; [done..|]. by rewrite E', E1, <- app_assoc.
Qed.

(** ** Finish *)

(** The entries of the block that names the filter block. *)
Definition meta_entries (fh : BlockHandle) : list entry := match filter_policy o with None => [] | Some p => [(filter_key p, handle_bytes fh)] end.

(** What is known of the filter block. *)
Definition filter_stored (file : list Z) (fh : BlockHandle) (blks : list (list entry)) (hs : list BlockHandle) : Prop :=
  match filter_policy o with
  | None => True
  | Some p => handle_set fh /\ exists gs fs, stored file fh (filter_block fs) /\ Forall2 (filter_for (valid := valid) (same := same) p) gs fs /\ zlen (filter_block fs) < 2 ^ 32 /\
      (forall i b h e, blks !! i = Some b -> hs !! i = Some h -> e ∈ b -> exists g, gs !! Z.to_nat (offset_ h / kFilterBase) = Some g /\ e.1 ∈ g)
  end.

(** The states in which [Finish] writes. *)
Definition writing (r : Rep F) : Prop := r_status r = OK /\ r_options r = o /\ r_offset r = zlen (contents (r_file r)).

Lemma write_filter_spec r blks hs idx : table_inv r blks hs idx [] -> (B + 8) * total_cost (concat blks) + 2 ^ 20 < 2 ^ 31 ->
  exists fh f fb n, write_filter addr_of (r_set_closed true r) = Done (fh, r_set_offset n (r_set_file OK f (r_set_filter fb (r_set_closed true r)))) /\
    n = zlen (contents f) /\ (fb = None <-> filter_policy o = None) /\ filter_stored (contents f) fh blks hs /\ (exists more, contents f = contents (r_file r) ++ more) /\ n < 2 ^ 32 - 2 ^ 20.
Proof.
  intros I Hbud. pose proof (total_cost_nonneg (concat blks)) as Hpos. destruct (inv_small _ _ _ _ _ I) as (Hoff & Hn & _ & _ & _); [rewrite app_nil_r; nia|].
  pose proof (ti_offset _ _ _ _ _ I) as Eoff. pose proof (ti_offset_le _ _ _ _ _ I) as Hofle. pose proof (ti_filter _ _ _ _ _ I) as Hf. unfold filter_ok, filter_stored, write_filter in *.
  cbn [r_filter_block r_set_closed r_status]. rewrite app_nil_r in Hf. destruct (filter_policy o) as [p|] eqn:Ep.
  - destruct Hf as (fb & gs & fs & ks & -> & M & Hgs & Hcount & Hpl & _). destruct (Hpolicy p eq_refl) as [G _]. rewrite (ti_status _ _ _ _ _ I). cbn [ok].
    pose proof (total_cost_length (concat blks)) as Hcl.
    destruct (filter_Finish_spec p fb gs fs ks M) as (fb' & fs' & c & Ec & Hg & _ & Hlen & Hsz & Hshape); [lia|]. rewrite Ec. cbn [mbind outcome_bind].
    assert (Hfl : zlen fs' <= zlen gs + 1). { rewrite <- (Forall2_length _ _ _ Hg). case_decide; [lia|]. rewrite length_app. cbn. lia. }
    assert (Hgz : zlen gs <= r_offset r) by (rewrite Hgs; apply Z.div_le_upper_bound; [by vm_compute|]; unfold kFilterBase, kFilterBaseLg; change (Z.shiftl 1 11) with 2048; lia).
    rewrite length_app in Hsz. assert (Hcs : zlen (concat fs') <= B * total_cost (concat blks)) by nia.
    assert (Hc32 : zlen c < 2 ^ 31 - 2 ^ 19) by nia. specialize (Hshape ltac:(lia)). subst c. pose proof (filter_block_bytes p _ fs' Hg) as Hb.
    destruct (WriteRawBlock_spec (filter_block fs') kNoCompression (r_set_filter (Some (p, fb')) (r_set_closed true r)) Hb) as (f & E & Cf); [unfold is_byte, kNoCompression; lia|cbn; lia|cbn; lia|].
    rewrite E. eexists _, f, _, _. split; [done|]. cbn [r_offset r_set_filter r_set_closed r_file] in *. pose proof (trailer_length (filter_block fs') kNoCompression) as Ht.
    split; [rewrite Cf, !length_app, Ht; lia|]. split; [done|]. split; [|split; [eexists; exact Cf|lia]]. split; [unfold handle_set, unset; cbn; lia|].
    exists (if decide (ks = []) then gs else gs ++ [ks]), fs'. split_and!; [|done|lia|].
    + exists (contents (r_file r)), (filter_block fs'), kNoCompression, []. rewrite app_nil_r. split_and!; [done|cbn; lia|done|constructor|done].
    + intros i b h e Eb Eh He. apply placed_finish. by apply (Hpl i b h e).
  - rewrite Hf. exists new_BlockHandle, (r_file r), None, (r_offset r). split_and!; [|done|done|done|exists []; by rewrite app_nil_r|lia].
    pose proof (ti_status _ _ _ _ _ I) as Es. by destruct r; cbn in *; subst.
Qed.

Lemma add_first_any i c c' k v b : bb_empty b = true -> bb_Add i c k v b = bb_Add i c' k v b.
Proof. intros Hb. unfold bb_Add, assert_larger. by rewrite Hb. Qed.

Lemma write_metaindex_spec r fh : writing r -> (r_filter_block r = None <-> filter_policy o = None) -> (filter_policy o <> None -> handle_set fh) -> r_offset r < 2 ^ 32 ->
  exists mh f n raw, write_metaindex addr_of fh r = Done (mh, r_set_offset n (r_set_file OK f r)) /\ n = zlen (contents f) /\ handle_set mh /\ stored (contents f) mh raw /\
    is_block (valid := Forall is_byte) (cmp := lex) raw (meta_entries fh) /\ (exists more, contents f = contents (r_file r) ++ more) /\ n < r_offset r + 2 ^ 17.
Proof.
  intros (Es & Eo & Eoff) Hiff Hfh Hoff. unfold write_metaindex. rewrite Es, Eo. cbn [ok].
  destruct (builder_new (valid := Forall is_byte) (cmp := lex) (block_restart_interval o) Hinterval) as (b0 & E0 & Hb0). rewrite E0. cbn [mbind outcome_bind].
  assert (Hest : CurrentSizeEstimate b0 = 8) by (unfold new_BlockBuilder in E0; destruct (block_restart_interval o <? 1); [done|]; by injection E0 as <-).
  pose proof (handle_bytes_length fh) as Hhl.
  assert (Hb1 : exists b, (match r_filter_block r with
       | Some _ =>
         p ← demand (filter_policy o);
         handle_encoding ← handle_EncodeTo fh [];
         bb_Add (block_restart_interval o) (comparator o) (filter_key p) handle_encoding b0
       | None => Done b0
       end) = Done b /\ builder_holds (valid := Forall is_byte) (cmp := lex) (block_restart_interval o) b (meta_entries fh) /\ CurrentSizeEstimate b <= 2 ^ 16 + 100).
  { unfold meta_entries. destruct (r_filter_block r) as [fb|], (filter_policy o) as [p|] eqn:Ep.
    - cbn [demand mbind outcome_bind]. rewrite handle_encode by by apply Hfh. cbn [mbind outcome_bind app]. destruct (Hpolicy p eq_refl) as (_ & Hnb & Hnl).
      assert (Hkb : Forall is_byte (filter_key p)) by (unfold filter_key; apply Forall_app; split; [repeat (constructor; [unfold is_byte; lia|]); constructor|done]).
      assert (Hkl : zlen (filter_key p) < 2 ^ 16 + 10) by (unfold filter_key; rewrite length_app; cbn [length]; lia).
      rewrite (add_first_any _ _ BytewiseComparator) by (rewrite (builder_empty _ b0 [] Hb0); done).
      destruct (builder_Add (block_restart_interval o) Hinterval BytewiseComparator b0 [] (filter_key p) (handle_bytes fh) Hb0 Hkb Hkb) as (b & E & Hb & He).
      + by apply handle_bytes_bytes, Hfh.
      + done.
      + unfold entry_cost. cbn [fst snd]. lia.
      + exists b. split; [done|]. split; [done|]. unfold entry_cost in He. cbn [fst snd] in He. lia.
    - destruct Hiff as [_ Hiff]. by specialize (Hiff eq_refl).
    - destruct Hiff as [Hiff _]. by specialize (Hiff eq_refl).
    - exists b0. split; [done|]. split; [done|]. lia. }
  destruct Hb1 as (b & -> & Hb & Hsz). cbn [mbind outcome_bind]. set (raw := (bb_Finish b).1). assert (Hblk : is_block (valid := Forall is_byte) (cmp := lex) raw (meta_entries fh)) by exact (builder_Finish _ _ _ Hb).
  assert (Hl : zlen raw = CurrentSizeEstimate b) by (destruct Hb as (xs & rp & Hbu & _); unfold raw; by rewrite (bb_Finish_spec _ _ _ _ Hbu), (built_size _ _ _ _ Hbu)).
  assert (Hrb : Forall is_byte raw).
  { destruct Hblk as (xs & rp & L & -> & _). unfold block_of, restarts_bytes. rewrite !Forall_app. split_and!; [by apply (entries_are_bytes xs rp)|apply words_bytes|apply le_bytes_bytes]. }
  destruct (WriteBlock_spec b raw r eq_refl Hrb Es) as (h & b1 & f & n & -> & Eh & Hh & Hn & Hcf & Hst & more & Ef); [by rewrite Eo|lia|done|lia|]. cbn [mbind outcome_bind].
  eexists h, f, _, raw. split; [done|]. split_and!; [lia|done|done|done|by exists more|lia].
Qed.

(** What the index entries are made from. *)
Definition same_index (r' r : Rep F) : Prop :=
  r_pending_index_entry r' = r_pending_index_entry r /\ r_pending_handle r' = r_pending_handle r /\ r_index_options r' = r_index_options r /\
  r_index_block r' = r_index_block r /\ r_last_key r' = r_last_key r.

(** The last entry of the index. *)
Lemma finish_index r r' blks hs idx : table_inv r blks hs idx [] -> between r blks [] -> r_options r' = o -> same_index r' r -> total_cost (concat blks) < 2 ^ 30 ->
  exists ib p h k idx', (if r_pending_index_entry r' then
           last_key ← FindShortSuccessor (comparator (r_options r')) (r_last_key r');
           add_index_entry last_key r'
         else Done r') = Done (r_set_pending p h (r_set_index ib k r')) /\
    holds 1 ib idx' /\ CurrentSizeEstimate ib <= 8 + 2 * total_cost (concat blks) /\ index_ok idx' blks hs /\ length idx' = length blks.
Proof.
  intros I [Hlast Hbetween] Eo (E1 & E2 & E3 & E4 & E5) Hc. pose proof (ti_pending _ _ _ _ _ I) as Hpend. rewrite E1, E5, Eo. destruct (r_pending_index_entry r) eqn:Ep.
  - destruct (last_block _ _ _ _ I Ep) as (blks0 & b & e & Eb & Hl0 & Elast & _ & _ & Hge & _). rewrite (Hlast e) by by rewrite app_nil_r.
    destruct (good_successor e.1 Hge) as (succ & Es & Hv & Hle). rewrite Es. cbn [mbind outcome_bind].
    destruct (add_index_spec r blks hs idx succ e I Ep Hc Elast Hv Hle (short_successor _ _ Hge Es)) as (ib & h & E & Hib & Hsz & X). rewrite (E r' E2 E3 E4).
    eexists ib, _, _, _, _. split; [done|]. split_and!; [done|done|done|]. rewrite length_app. destruct Hpend as (_ & Hl & _). cbn. lia.
  - exists (r_index_block r'), (r_pending_index_entry r'), (r_pending_handle r'), (r_last_key r'), idx. split; [by destruct r'|]. rewrite E4. pose proof (ti_index_le _ _ _ _ _ I) as Hsz.
    pose proof (total_cost_take (length idx) blks). split_and!; [apply (ti_index _ _ _ _ _ I)|lia|apply (ti_index_ok _ _ _ _ _ I)|done].
Qed.

Lemma write_index_spec r r' blks hs idx : table_inv r blks hs idx [] -> between r blks [] -> writing r' -> same_index r' r -> total_cost (concat blks) < 2 ^ 30 -> r_offset r' < 2 ^ 32 ->
  exists ih r2 idx' raw, write_index addr_of r' = Done (ih, r2) /\ writing r2 /\ handle_set ih /\ stored (contents (r_file r2)) ih raw /\ block raw idx' /\
    index_ok idx' blks hs /\ length idx' = length blks /\ (exists more, contents (r_file r2) = contents (r_file r') ++ more) /\ r_offset r2 < 2 ^ 33 /\ zlen raw < 2 ^ 32.
Proof.
  intros I Hb (Es & Eo & Eoff) Hsame Hc Hoff. unfold write_index. rewrite Es. cbn [ok].
  destruct (finish_index r r' blks hs idx I Hb Eo Hsame Hc) as (ib & p & h & k & idx' & -> & Hib & Hsz & X & Hl). cbn [mbind outcome_bind].
  set (r1 := r_set_pending p h _). set (raw := (bb_Finish ib).1). assert (Hblk : block raw idx') by exact (builder_Finish _ _ _ Hib).
  assert (Hraw : zlen raw = CurrentSizeEstimate ib) by exact (holds_size _ _ _ Hib).
  destruct (WriteBlock_spec ib raw r1 eq_refl (is_block_bytes _ _ Hblk) Es) as (ih & b1 & f & n & E & Eh & Hh & Hn & Hcf & Hst & more & Ef);
    [change (r_options r1) with (r_options r'); by rewrite Eo|change (r_offset r1) with (r_offset r'); lia|exact Eoff|change (r_offset r1) with (r_offset r'); lia|].
  change (r_index_block r1) with ib. rewrite E. cbn [mbind outcome_bind]. change (r_offset r1) with (r_offset r') in *.
  eexists ih, _, idx', raw. split; [done|]. split; [split_and!; [done|exact Eo|rep_simpl; by rewrite Hcf]|]. split_and!; [done|done|done|done|done|by exists more|cbn; lia|lia].
Qed.

(** ** The file of a table *)

(** What a finished table has. *)
Record table_file (file : list Z) (blks : list (list entry)) (hs : list BlockHandle) (idx : list entry) (fh mh ih : BlockHandle) : Prop := {
  tf_blocks : blocks_stored file blks hs;
  tf_handles : handles_ok hs (2 ^ 33);
  tf_nonempty : Forall (fun b => b <> []) blks;
  tf_good : Forall (fun e => good e) (concat blks);
  tf_index : exists raw, stored file ih raw /\ block raw idx;
  tf_index_ok : index_ok idx blks hs;
  tf_index_length : length idx = length blks;
  tf_meta : exists raw, stored file mh raw /\ is_block (valid := Forall is_byte) (cmp := lex) raw (meta_entries fh);
  tf_filter : filter_stored file fh blks hs;
  tf_set : handle_set mh /\ handle_set ih;
  tf_footer : exists front, file = front ++ footer_bytes (MkFooter mh ih);
  tf_size : zlen file < 2 ^ 34;
}.

(** The table has these entries. *)
Definition is_table (file : list Z) (es : list entry) : Prop := exists blks hs idx fh mh ih, table_file file blks hs idx fh mh ih /\ concat blks = es.

Lemma filter_stored_app file more fh blks hs : filter_stored file fh blks hs -> filter_stored (file ++ more) fh blks hs.
Proof.
  unfold filter_stored. destruct (filter_policy o); [|done]. intros (Hf & gs & fs & Hs & Hrest). split; [done|]. exists gs, fs. split; [by apply stored_app|done].
Qed.

Lemma write_footer_spec mh ih r : writing r -> handle_set mh -> handle_set ih -> r_offset r < 2 ^ 40 -> exists r', write_footer mh ih r = Done r' /\ r_status r' = OK /\
  contents (r_file r') = contents (r_file r) ++ footer_bytes (MkFooter mh ih) /\ r_offset r' = zlen (contents (r_file r')).
Proof.
  intros (Es & _ & Eo) Hm Hi Hsmall. unfold write_footer. rewrite Es. cbn [ok]. rewrite footer_encode by done. cbn [mbind outcome_bind].
  destruct (Append_good (footer_bytes (MkFooter mh ih)) (r_file r)) as (f & -> & Cf). cbn [ok]. eexists. split_and!; [done|done|done|]. cbn [r_offset r_file r_set_offset r_set_file].
  pose proof (footer_bytes_length (MkFooter mh ih)) as Hfl. change footer_length with 48 in Hfl. rewrite Cf, length_app, u64_small by lia. lia.
Qed.

Lemma table_Finish_spec r blks hs idx cur : table_inv r blks hs idx cur -> between r blks cur -> r_closed r = false -> (B + 8) * total_cost (concat blks ++ cur) + 2 ^ 20 < 2 ^ 31 ->
  exists r', table_Finish addr_of r = Done (OK, r') /\ is_table (contents (r_file r')) (concat blks ++ cur) /\ r_offset r' = zlen (contents (r_file r')).
Proof.
  intros I Hb Hcl Hbud. pose proof (total_cost_nonneg (concat blks ++ cur)) as Hpos. unfold table_Finish.
  destruct (table_Flush_spec r blks hs idx cur I Hb Hcl) as (r1 & blks1 & hs1 & -> & Hcl1 & I1 & Hb1 & Ecat); [nia|]. rewrite <- Ecat in *. cbn [mbind outcome_bind]. rewrite Hcl1. cbv zeta.
  destruct (write_filter_spec r1 blks1 hs1 idx I1 Hbud) as (fh & f1 & fb & n1 & -> & En1 & Hfb & Hfs & (m1 & Ef1) & Hn1). cbn [mbind outcome_bind]. set (r2 := r_set_offset n1 _).
  destruct (ti_options _ _ _ _ _ I1) as [Eo _]. assert (W2 : writing r2) by (split_and!; [done|exact Eo|exact En1]).
  destruct (write_metaindex_spec r2 fh W2 Hfb) as (mh & f3 & n3 & rawm & -> & En3 & Hmh & Hms & Hmb & (m3 & Ef3) & Hn3).
  { unfold filter_stored in Hfs. destruct (filter_policy o); [|done]. intros _. apply Hfs. } { cbn. lia. }
  cbn [mbind outcome_bind]. set (r3 := r_set_offset n3 _). change (r_offset r2) with n1 in Hn3. change (r_file r2) with f1 in Ef3.
  destruct (write_index_spec r1 r3 blks1 hs1 idx I1 Hb1) as (ih & r4 & idx' & raw & -> & W4 & Hih & Hst & Hblk & X & Hl & (m4 & Ef4) & Hn4 & _).
  { split_and!; [done|exact Eo|exact En3]. } { by split_and!. } { nia. } { cbn. lia. }
  cbn [mbind outcome_bind]. destruct (write_footer_spec mh ih r4 W4 Hmh Hih) as (r5 & -> & Es5 & Ef5 & Eo5). { pose proof (ti_offset_le _ _ _ _ _ I1). cbn in Hn4. nia. } cbn [mbind outcome_bind]. rewrite Es5. exists r5. split; [done|]. split; [|done].
  exists blks1, hs1, idx', fh, mh, ih. split; [|done]. change (r_file r3) with f3 in Ef4. set (ft := footer_bytes _) in *.
  split.
  - rewrite Ef5, Ef4, Ef3, Ef1, <- !app_assoc. apply blocks_stored_app, (ti_blocks _ _ _ _ _ I1).
  - destruct (ti_handles _ _ _ _ _ I1) as [Hs Hf]. split; [done|]. eapply Forall_impl; [exact Hf|]. intros h [? ?]. split; [done|].
    pose proof (ti_offset_le _ _ _ _ _ I1). nia.
  - apply (ti_nonempty _ _ _ _ _ I1).
  - pose proof (ti_good _ _ _ _ _ I1) as Hg. by rewrite app_nil_r in Hg.
  - exists raw. split; [|done]. rewrite Ef5. by apply stored_app.
  - done.
  - done.
  - exists rawm. split; [|done]. rewrite Ef5, Ef4, <- app_assoc. by apply stored_app.
  - rewrite Ef5, Ef4, Ef3, <- !app_assoc. by apply filter_stored_app.
  - done.
  - by eexists.
  - destruct W4 as (_ & _ & Eoff). rewrite Ef5, length_app. pose proof (footer_bytes_length (MkFooter mh ih)) as Hfl. fold ft in Hfl. change footer_length with 48 in Hfl. lia.
Qed.

(** A table from entries in order. *)
Definition build_table (file : F) (es : list entry) : outcome (Status * Rep F) :=
  r ← new_TableBuilder o file;
  r ← table_add_all es r;
  table_Finish addr_of r.

Lemma build_table_spec file es : contents file = [] -> Forall (fun e => good e) es -> sorted es -> (B + 8) * total_cost es + 2 ^ 20 < 2 ^ 31 ->
  exists r, build_table file es = Done (OK, r) /\ is_table (contents (r_file r)) es.
Proof.
  intros Hf Hg Hs Hbud. pose proof (total_cost_nonneg es) as Hpos. unfold build_table. destruct (new_table_spec file Hf) as (r0 & -> & Hcl & I0 & Hb0). cbn [mbind outcome_bind].
  destruct (table_add_all_spec es r0 [] [] [] [] I0 Hb0 Hcl Hg Hs) as (r1 & blks & hs & idx & cur & -> & Hcl1 & I1 & Hb1 & Ecat); [cbn [concat app]; nia|]. cbn [mbind outcome_bind concat app] in *.
  rewrite <- Ecat in *. destruct (table_Finish_spec r1 blks hs idx cur I1 Hb1 Hcl1 Hbud) as (r' & -> & Ht & _). by exists r'.
Qed.
End Write.
