(* ===== verification/LdbTableRead.v ===== *)
(** * LdbTableRead: what is read from a table.

    Over the file of a table, [Open] succeeds, the table's iterator is a cursor
    over all entries, and [InternalGet] finds what is there.  The cache is
    known by what it may hold. *)

From Stdlib Require Import ZifyBool Sorting.Sorted.
From stdpp Require Import base tactics numbers list gmap strings sorting.
From S2P Require Import Prelude PbOStream PbWire LdbCoding LdbCrc LdbCrcSpec LdbLog LdbLogSpec LdbBloom LdbKey LdbKeySpec LdbBatch LdbIter LdbBlock LdbBlockSpec LdbBlockIter LdbBlockBuild LdbFormat LdbFilter LdbTwoLevel LdbTable LdbTableWrite.
Open Scope Z_scope.

(** ** Blocks with given entries *)

Section OnEntries.
Context (c : Comparator) {valid : list Z -> Prop} {cmp : list Z -> list Z -> Z} `{!Ordered (Compare c) valid cmp}.

(** A state of an iterator over some block with the entries [es]. *)
Definition on_entries (es : list entry) (it : block_iterator) (i : nat) : Prop :=
  exists xs rp, (layout xs rp /\ entries xs = es /\ Forall (fun x => valid (ikey x)) xs /\ StronglySorted (fun x y => cmp (ikey x) (ikey y) < 0) xs) /\ block_at_ c xs rp it i.

#[export] Instance on_entries_cursor es : Cursor valid cmp es (on_entries es).
Proof.
  split.
  all: intros it i; first [intros (xs & rp & P & A)|intros ? (xs & rp & P & A)]; pose proof P as (L & <- & Hv & Hs); pose proof (block_cursor c xs rp L Hv Hs) as Cu.
  - by apply (cur_range it).
  - by apply (cur_valid it).
  - by apply (cur_entry it).
  - by apply (cur_status it i).
  - destruct (cur_first it i A) as (it' & E & A'). exists it'. split; [done|]. by exists xs, rp.
  - destruct (cur_last it i A) as (it' & E & A'). exists it'. split; [done|]. by exists xs, rp.
  - intros Ht. destruct (cur_seek it i _ A Ht) as (it' & E & A'). exists it'. split; [done|]. by exists xs, rp.
  - intros Hi. destruct (cur_next it i A Hi) as (it' & E & A'). exists it'. split; [done|]. by exists xs, rp.
  - intros Hi. destruct (cur_prev it i A Hi) as (it' & E & A'). exists it'. split; [done|]. by exists xs, rp.
Qed.

(** The block has these entries. *)
Definition opens (blk : Block) (es : list entry) : Prop := exists it, NewIterator c blk = Done it /\ on_entries es it (length es).

Lemma is_block_opens raw es : is_block (valid := valid) (cmp := cmp) raw es -> exists blk, new_Block raw = Done blk /\ opens blk es.
Proof.
  intros (xs & rp & L & -> & <- & Hv & Hs). eexists. split; [by apply new_Block_spec|]. destruct (NewIterator_spec c xs rp L) as (it & E & At).
  exists it. split; [done|]. exists xs, rp. by rewrite entries_length.
Qed.
End OnEntries.

(** ** The cache *)

(** A cache gives out what was inserted under a key, and nothing else.  [cached]
    says what it may hold. *)
Class GoodCache {C : Type} `{!Cache C} (cached : C -> list Z -> Block -> Prop) : Prop := {
  lookup_cached k c b : (Lookup k c).1 = Some b -> cached c k b;
  lookup_keeps k c k' b : cached (Lookup k c).2 k' b -> cached c k' b;
  insert_cached k b n c k' b' : cached (Insert k b n c) k' b' -> (k' = k /\ b' = b) \/ cached c k' b';
}.

Lemma cache_key_inj id a b : 0 <= a < 2 ^ 64 -> 0 <= b < 2 ^ 64 -> cache_key id a = cache_key id b -> a = b.
Proof.
  intros Ha Hb E. unfold cache_key in E. apply app_inv_head in E. pose proof (fixed64_back a [] Ha) as Ea. rewrite E, (fixed64_back b [] Hb) in Ea. by injection Ea as ->.
Qed.

(** ** Reading *)

Section Read.
Context {F : Type} `{!RandomAccessFile F} {contents : F -> list Z} `{!GoodRandomFile contents} `{SN : !Snappy}.
Context {C : Type} `{!Cache C} {cached : C -> list Z -> Block -> Prop} `{!GoodCache cached} (buf ubuf : Z) (Hbuf : address buf (2 ^ 35)).
Context (o : Options) {valid : list Z -> Prop} {cmp : list Z -> list Z -> Z} `{!Ordered (Compare (comparator o)) valid cmp} (same : list Z -> list Z -> Prop).
Context (Hname : forall p, filter_policy o = Some p -> Forall is_byte (Name p)).
Context (file : F) (blks : list (list entry)) (hs : list BlockHandle) (idx : list entry) (fh mh ih : BlockHandle).
Context (T : table_file (valid := valid) (cmp := cmp) o same (contents file) blks hs idx fh mh ih).

Lemma read_stored verify h raw : stored (contents file) h raw -> exists bc, ReadBlock file verify h buf ubuf = Done (OK, bc) /\ bytes (bc_data bc) = raw.
Proof.
  intros Hs. apply ReadBlock_stored; [done|]. destruct Hs as (before & body & type & after & Ef & Ho & Hh & _). pose proof (tf_size _ _ _ _ _ _ _ _ _ T) as Hsz.
  unfold address, kBlockTrailerSize in *. rewrite Ef, !length_app in Hsz. lia.
Qed.

(** The reader of the filter block answers for the blocks' keys. *)
Definition filter_good (t : Table F) : Prop :=
  match filter_policy o with
  | None => t_filter t = None
  | Some p => exists gs fs, t_filter t = Some (MkFilterReader (filter_block fs) (zlen (concat fs)) (zlen fs) kFilterBaseLg) /\
      Forall2 (filter_for (valid := valid) (same := same) p) gs fs /\ zlen (filter_block fs) < 2 ^ 32 /\
      forall i b h e, blks !! i = Some b -> hs !! i = Some h -> e ∈ b -> exists g, gs !! Z.to_nat (offset_ h / kFilterBase) = Some g /\ e.1 ∈ g
  end.

Record good_table (t : Table F) : Prop := {
  gt_options : t_options t = o;
  gt_file : t_file t = file;
  gt_index : opens (valid := valid) (cmp := cmp) (comparator o) (t_index_block t) idx;
  gt_meta : t_metaindex_handle t = mh;
  gt_filter : filter_good t;
}.

(** Blocks of the table that the cache may hold are the table's. *)
Definition cache_good (id : Z) (cache : option C) : Prop :=
  match cache with
  | None => True
  | Some c => forall i h b blk, hs !! i = Some h -> blks !! i = Some b -> cached c (cache_key id (offset_ h)) blk -> opens (valid := valid) (cmp := cmp) (comparator o) blk b
  end.

Lemma filter_key_bytes p : filter_policy o = Some p -> Forall is_byte (filter_key p).
Proof. intros Ep. unfold filter_key. apply Forall_app. split; [repeat (constructor; [unfold is_byte; lia|]); constructor|by apply Hname]. Qed.

(** ** Open *)

Lemma ReadMeta_spec t : t_options t = o -> t_file t = file -> t_filter t = None ->
  exists fr, ReadMeta buf ubuf (MkFooter mh ih) t = Done (MkTable (t_options t) (t_file t) (t_cache_id t) fr (t_metaindex_handle t) (t_index_block t)) /\
    filter_good (MkTable (t_options t) (t_file t) (t_cache_id t) fr (t_metaindex_handle t) (t_index_block t)).
Proof.
  intros Eo Ef Et. unfold ReadMeta, filter_good. rewrite Eo, Ef. cbn [t_filter metaindex_handle_]. pose proof (tf_filter _ _ _ _ _ _ _ _ _ T) as Hfs. unfold filter_stored in Hfs.
  destruct (tf_meta _ _ _ _ _ _ _ _ _ T) as (rawm & Hms & Hmb). unfold meta_entries in Hmb.
  pose proof filter_key_bytes as Hkey. pose proof read_stored as Hread. destruct (filter_policy o) as [p|] eqn:Ep.
  - destruct (Hread (verify_checksums (paranoid_options o)) mh rawm Hms) as (bc & -> & Ebc). cbn [mbind outcome_bind ok negb]. rewrite Ebc.
    destruct (is_block_opens BytewiseComparator rawm _ Hmb) as (meta & -> & it & Eit & At). cbn [mbind outcome_bind]. rewrite Eit. cbn [mbind outcome_bind].
    destruct (cur_seek it _ (filter_key p) At (Hkey p eq_refl)) as (it' & -> & At'). cbn [mbind outcome_bind].
    assert (El : lower_bound lex (filter_key p) [(filter_key p, handle_bytes fh)] = 0%nat) by (cbn [lower_bound fst]; by rewrite (proj2 (lex_zero _ _) eq_refl)). rewrite El in At'.
    rewrite (cur_valid _ _ At'). cbn [length]. rewrite bool_decide_true by lia. destruct (cur_entry (es := [(filter_key p, handle_bytes fh)]) _ _ (filter_key p, handle_bytes fh) At' eq_refl) as [-> ->]. cbn [fst snd mbind outcome_bind].
    rewrite bool_decide_true by done. destruct Hfs as (Hfh & gs & fs & Hst & Hg & Hsz & Hp). unfold ReadFilter.
    pose proof (handle_decode fh new_BlockHandle [] Hfh) as Ed. rewrite app_nil_r in Ed. rewrite Ed. cbn [ok negb]. rewrite Eo, Ef.
    destruct (Hread (verify_checksums (paranoid_options o)) fh _ Hst) as (bf & -> & Ebf). cbn [mbind outcome_bind ok negb]. rewrite Ebf. rewrite new_reader_spec by done. cbn [mbind outcome_bind].
    eexists. split; [done|]. by exists gs, fs.
  - exists (t_filter t). split; [destruct t; cbn in *; congruence|done].
Qed.

Lemma footer_read footer_space : exists s, ReadAt (zlen (contents file) - footer_length) footer_length footer_space file = (OK, s) /\ bytes s = footer_bytes (MkFooter mh ih) /\
  footer_length <= zlen (contents file).
Proof.
  destruct (tf_footer _ _ _ _ _ _ _ _ _ T) as [front Ef]. pose proof (footer_bytes_length (MkFooter mh ih)) as Hl.
  assert (Hz : zlen (contents file) = zlen front + footer_length) by (rewrite Ef, length_app; lia). change footer_length with 48 in *.
  destruct (read_at file (zlen (contents file) - 48) 48 footer_space) as (s & E & Es & _); [lia..|]. exists s. split; [done|]. split; [|lia].
  rewrite Es, Ef, drop_app_length' by (rewrite length_app; lia). apply take_ge. lia.
Qed.

(** The cache has nothing under an id it has just given out. *)
Definition fresh (cache : option C) : Prop := forall c, cache = Some c -> forall off b, ~ cached (NewId c).2 (cache_key (NewId c).1 off) b.

Lemma Open_spec footer_space cache : fresh cache ->
  exists t cache', Open buf ubuf o file (zlen (contents file)) footer_space cache = Done (OK, Some t, cache') /\ good_table t /\ cache_good (t_cache_id t) cache'.
Proof.
  intros Hfresh. unfold Open. destruct (footer_read footer_space) as (s & E & Es & Hl). destruct (Z.ltb_spec (zlen (contents file)) footer_length); [lia|].
  rewrite E. cbn [ok negb]. rewrite Es. pose proof (footer_decode (MkFooter mh ih) (MkFooter new_BlockHandle new_BlockHandle) [] (tf_set _ _ _ _ _ _ _ _ _ T)) as Ed.
  rewrite app_nil_r in Ed. rewrite Ed. cbn [mbind outcome_bind ok negb index_handle_ metaindex_handle_]. destruct (tf_index _ _ _ _ _ _ _ _ _ T) as (rawi & His & Hib).
  destruct (read_stored (verify_checksums (paranoid_options o)) ih rawi His) as (bc & -> & Ebc). cbn [mbind outcome_bind ok negb]. rewrite Ebc.
  destruct (is_block_opens (comparator o) rawi idx Hib) as (blk & -> & Hopens). cbn [mbind outcome_bind].
  assert (Hc : exists id cache', (match cache with Some c => let '(id, c) := NewId c in (id, Some c) | None => (0, None) end) = (id, cache') /\ cache_good id cache').
  { destruct cache as [c|]; [|by exists 0, None]. specialize (Hfresh c eq_refl). destruct (NewId c) as [id c']. exists id, (Some c'). split; [done|].
    intros i h b blk' _ _ Hcached. by apply Hfresh in Hcached. }
  destruct Hc as (id & cache' & -> & Hgood). destruct (ReadMeta_spec (MkTable o file id None mh blk) eq_refl eq_refl eq_refl) as (fr & -> & Hf). cbn [mbind outcome_bind t_options t_file t_cache_id t_metaindex_handle t_index_block] in *.
  eexists _, cache'. split; [done|]. split; [|done]. by split.
Qed.

(** ** Blocks *)

Lemma handle_of i h : hs !! i = Some h -> handle_set h /\ 0 <= offset_ h < 2 ^ 64.
Proof. intros E. destruct (tf_handles _ _ _ _ _ _ _ _ _ T) as [_ Hf]. apply (Forall_lookup_1 _ _ _ _ Hf) in E. destruct E as [Hs Hl]. split; [done|]. destruct Hs as [Ho _]. lia. Qed.

Lemma handle_index i j h h' : hs !! i = Some h -> hs !! j = Some h' -> offset_ h = offset_ h' -> i = j.
Proof.
  intros Ei Ej E. destruct (tf_handles _ _ _ _ _ _ _ _ _ T) as [Hs _]. destruct (Nat.lt_trichotomy i j) as [Hlt|[->|Hlt]]; [|done|].
  - pose proof (sorted_lookup _ _ Hs i j h h' Hlt Ei Ej). cbn in *. lia.
  - pose proof (sorted_lookup _ _ Hs j i h' h Hlt Ej Ei). cbn in *. lia.
Qed.

Lemma read_new_spec t options i h b : good_table t -> hs !! i = Some h -> blks !! i = Some b ->
  exists blk cch, read_new buf ubuf t options h = Done (OK, Some (blk, cch)) /\ opens (valid := valid) (cmp := cmp) (comparator o) blk b.
Proof.
  intros G Eh Eb. unfold read_new. rewrite (gt_file _ G). destruct (Forall2_lookup_lr _ _ _ _ _ _ (tf_blocks _ _ _ _ _ _ _ _ _ T) Eb Eh) as (raw & Hst & Hblk).
  destruct (read_stored (verify_checksums options) h raw Hst) as (bc & -> & Ebc). cbn [mbind outcome_bind ok]. rewrite Ebc. destruct (is_block_opens (comparator o) raw b Hblk) as (blk & -> & Ho). cbn [mbind outcome_bind].
  by eexists _, _.
Qed.

Lemma find_block_spec t options i h b cache : good_table t -> cache_good (t_cache_id t) cache -> hs !! i = Some h -> blks !! i = Some b ->
  exists blk cache', find_block buf ubuf t options h cache = Done (OK, Some blk, cache') /\ opens (valid := valid) (cmp := cmp) (comparator o) blk b /\ cache_good (t_cache_id t) cache'.
Proof.
  intros G Hc Eh Eb. unfold find_block. destruct (read_new_spec t options i h b G Eh Eb) as (blk & cch & -> & Ho). destruct cache as [c|]; [|by eexists _, None].
  set (key := cache_key (t_cache_id t) (offset_ h)). assert (Hkeep : cache_good (t_cache_id t) (Some (Lookup key c).2)).
  { intros j h' b' blk' Ej Ebj Hk. apply (Hc j h' b' blk' Ej Ebj). by apply lookup_keeps in Hk. }
  destruct ((Lookup key c).1) as [found|] eqn:El.
  - eexists _, _. split; [done|]. split; [|done]. apply (Hc i h b found Eh Eb). by apply lookup_cached.
  - cbn [mbind outcome_bind option_map fst]. eexists _, _. split; [done|]. split; [done|]. destruct cch; [|done]. destruct (fill_cache options); [|done].
    intros j h' b' blk' Ej Ebj Hk. apply insert_cached in Hk as [[Ek ->]|Hk]; [|by apply (Hkeep j h')].
    apply cache_key_inj in Ek; [|by apply (handle_of j)|by apply (handle_of i)]. rewrite (handle_index j i h' h Ej Eh Ek) in Ebj. congruence.
Qed.

Lemma BlockReader_spec t options i h b cache : good_table t -> cache_good (t_cache_id t) cache -> hs !! i = Some h -> blks !! i = Some b ->
  exists it cache', BlockReader buf ubuf t options (handle_bytes h) cache = Done (it, cache') /\ cache_good (t_cache_id t) cache' /\
    on_entries (valid := valid) (cmp := cmp) (comparator o) b it (length b).
Proof.
  intros G Hc Eh Eb. unfold BlockReader. destruct (handle_of i h Eh) as [Hh _]. pose proof (handle_decode h new_BlockHandle [] Hh) as Ed. rewrite app_nil_r in Ed. rewrite Ed. cbn [ok].
  destruct (find_block_spec t options i h b cache G Hc Eh Eb) as (blk & cache' & -> & (it & E & At) & Hc'). cbn [mbind outcome_bind]. rewrite (gt_options _ G), E. cbn [mbind outcome_bind].
  by eexists _, _.
Qed.

(** ** The iterator *)

Lemma index_entry i e : idx !! i = Some e -> exists h, hs !! i = Some h /\ e.2 = handle_bytes h.
Proof.
  intros Ee. pose proof (ix_handles _ _ _ _ (tf_index_ok _ _ _ _ _ _ _ _ _ T)) as Hm. pose proof (f_equal (.!! i) Hm) as Hi. cbn beta in Hi.
  rewrite !list_lookup_fmap, Ee in Hi. cbn in Hi. destruct (take (length idx) hs !! i) as [h|] eqn:Eh; [|done]. apply lookup_take_Some in Eh as [Eh _]. exists h. split; [done|]. by injection Hi.
Qed.

Lemma table_separated : separated (valid := valid) (cmp := cmp) idx blks.
Proof.
  split; [apply (tf_index_length _ _ _ _ _ _ _ _ _ T)| | |apply (ix_below _ _ _ _ (tf_index_ok _ _ _ _ _ _ _ _ _ T))|].
  3: { intros i j x b Ex Eb Hij. destruct (lookup_lt_is_Some_2 blks i) as [b0 Eb0]; [apply lookup_lt_Some in Eb; lia|].
    eapply Forall_impl; [exact (ix_above _ _ _ _ (tf_index_ok _ _ _ _ _ _ _ _ _ T) i j x b0 b Ex Eb0 Eb Hij)|]. by intros d [Hd _]. }
  - intros i b Eb. exact (Forall_lookup_1 _ _ _ _ (tf_nonempty _ _ _ _ _ _ _ _ _ T) Eb).
  - split.
    + destruct (tf_index _ _ _ _ _ _ _ _ _ T) as (raw & _ & xs & rp & _ & _ & <- & Hv & _). by apply Forall_map.
    + pose proof (tf_good _ _ _ _ _ _ _ _ _ T) as Hg. apply Forall_concat in Hg. eapply Forall_impl; [exact Hg|]. intros b Hb. eapply Forall_impl; [exact Hb|]. intros e He. apply He.
Qed.

Lemma index_distinct i j e e' : idx !! i = Some e -> idx !! j = Some e' -> e.2 = e'.2 -> i = j.
Proof.
  intros Ei Ej E. destruct (index_entry i e Ei) as (h & Eh & E1). destruct (index_entry j e' Ej) as (h' & Eh' & E2). apply (handle_index i j h h'); [done..|].
  f_equal. apply handle_bytes_inj; [by apply (handle_of i)|by apply (handle_of j)|congruence].
Qed.

Lemma table_block t options i e b cache : good_table t -> idx !! i = Some e -> blks !! i = Some b -> cache_good (t_cache_id t) cache ->
  exists d cache', BlockReader buf ubuf t options e.2 cache = Done (d, cache') /\ cache_good (t_cache_id t) cache' /\
    on_entries (valid := valid) (cmp := cmp) (comparator o) b d (length b).
Proof. intros G Ee Eb Hc. destruct (index_entry i e Ee) as (h & Eh & ->). by apply (BlockReader_spec t options i). Qed.

(** Where the table's iterator stands. *)
Definition table_at (t : Table F) : TwoLevelIterator block_iterator block_iterator (option C) -> nat -> Prop :=
  tl_at idx blks (on_entries (valid := valid) (cmp := cmp) (comparator o) idx) (fun i => on_entries (valid := valid) (cmp := cmp) (comparator o) (default [] (blks !! i)))
    (cache_good (t_cache_id t)).

Lemma table_cursor t options : good_table t -> @Cursor _ (table_iterator buf ubuf t options) valid cmp (concat blks) (table_at t).
Proof.
  intros G. apply (two_level_cursor (BlockReader buf ubuf t options) (table_fuel t) (compare := Compare (comparator o))).
  - unfold table_fuel. lia.
  - apply table_separated.
  - exact (on_entries_cursor (comparator o) idx).
  - intros i b Eb. rewrite Eb. exact (on_entries_cursor (comparator o) b).
  - apply index_distinct.
  - intros i e b s Ee Eb Hs. rewrite Eb. by apply (table_block t options i).
Qed.

Lemma table_NewIterator_spec t options cache : good_table t -> cache_good (t_cache_id t) cache ->
  exists it, table_NewIterator t options cache = Done it /\ table_at t it (length (concat blks)).
Proof.
  intros G Hc. unfold table_NewIterator. rewrite (gt_options _ G). destruct (gt_index _ G) as (it & -> & At). cbn [mbind outcome_bind].
  apply (NewTwoLevelIterator_spec idx blks (on_entries (valid := valid) (cmp := cmp) (comparator o) idx)
    (fun i => on_entries (valid := valid) (cmp := cmp) (comparator o) (default [] (blks !! i))) (cache_good (t_cache_id t)) it cache At Hc).
Qed.

(** ** Get *)

(** The block that has the first entry not before [k], if it is in a block
    whose index key is not before [k]. *)
Lemma index_seek t k : good_table t -> valid k ->
  exists it it', NewIterator (comparator o) (t_index_block t) = Done it /\ vSeek k it = Done it' /\ vstatus it' = OK /\
    vValid it' = bool_decide (lower_bound cmp k idx < length idx)%nat /\
    forall e, idx !! lower_bound cmp k idx = Some e -> vvalue it' = Done e.2.
Proof.
  intros G Hk. destruct (gt_index _ G) as (it & E & At). destruct (cur_seek it _ k At Hk) as (it' & E' & At'). exists it, it'. split_and!; [done|done|exact (cur_status _ _ At')|by apply cur_valid|].
  intros e Ee. by apply (cur_entry it' _ e At').
Qed.

Lemma filtered_out_spec t i e h b k : good_table t -> valid k -> idx !! i = Some e -> hs !! i = Some h -> blks !! i = Some b ->
  exists skip, filtered_out t e.2 k = Done skip /\ (skip = true -> forall d, d ∈ b -> ~ same k d.1).
Proof.
  intros G Hk Ee Eh Eb. destruct (index_entry i e Ee) as (h' & Eh' & ->). rewrite Eh in Eh'. injection Eh' as <-. destruct (handle_of i h Eh) as [Hh Ho].
  unfold filtered_out. rewrite (gt_options _ G). pose proof (gt_filter _ G) as Hf. unfold filter_good in Hf. destruct (filter_policy o) as [p|].
  - destruct Hf as (gs & fs & -> & Hg & Hsz & Hp). pose proof (handle_decode h new_BlockHandle [] Hh) as Ed. rewrite app_nil_r in Ed. rewrite Ed. cbn [ok].
    destruct (reader_spec p gs fs (offset_ h) k Hg Hsz ltac:(lia) Hk) as (m & -> & Hm). cbn [mbind outcome_bind]. exists (negb m). split; [done|].
    intros Hneg d Hd Hsame. destruct (Hp i b h d Eb Eh Hd) as (g & Eg & Hin). by rewrite (Hm g d.1 Eg Hin Hsame) in Hneg.
  - rewrite Hf. by exists false.
Qed.

(** A key alike to [k] is not in the blocks after the one that the index picks. *)
Lemma not_past i x b k e : valid k -> idx !! i = Some x -> blks !! i = Some b -> i = lower_bound cmp k idx -> (length b <= lower_bound cmp k b)%nat ->
  concat blks !! (start blks i + lower_bound cmp k b)%nat = Some e -> ~ same k e.1.
Proof.
  intros Hk Ex Eb Ei Hge Ee. assert (Hlb : lower_bound cmp k b = length b) by (pose proof (lower_bound_le cmp k b); lia). rewrite Hlb, <- (start_S 3 blks ltac:(lia) i b Eb) in Ee.
  pose proof (lookup_lt_Some _ _ _ Ee) as Hlt. destruct (blks !! S i) as [b'|] eqn:Eb'.
  2: { apply lookup_ge_None in Eb'. unfold start in Hlt. rewrite take_ge in Hlt by done. lia. }
  pose proof (sep_nonempty idx blks table_separated _ _ Eb') as Hne. destruct b' as [|e' b']; [done|]. pose proof (concat_lookup blks (S i) _ 0 Eb' ltac:(cbn; lia)) as El.
  unfold start in Ee. rewrite Nat.add_0_r, Ee in El. injection El as ->.
  pose proof (ix_above _ _ _ _ (tf_index_ok _ _ _ _ _ _ _ _ _ T) i (S i) x b _ Ex Eb Eb' ltac:(lia)) as Hab. apply Forall_cons in Hab as [[_ Hab] _].
  destruct (sep_valid idx blks table_separated) as [Hvi Hvb]. pose proof (Forall_lookup_1 _ _ _ _ Hvi Ex) as Hvx. pose proof (Forall_lookup_1 _ _ _ _ Hvb Eb') as Hve. apply Forall_cons in Hve as [Hve _].
  pose proof (sep_nonempty idx blks table_separated _ _ Eb) as Hbne. destruct (last b) as [d|] eqn:Ed; [|by apply last_None in Ed].
  apply (Hab d k e'.1 eq_refl Hk Hve).
  - by rewrite (cmp_refl _ Hve).
  - rewrite last_lookup in Ed. apply (lower_bound_before cmp k b (pred (length b))); [|done]. apply lookup_lt_Some in Ed. lia.
  - subst i. pose proof (lower_bound_at cmp k idx x Ex) as Hat. pose proof (cmp_anti k x.1 Hk Hvx). lia.
Qed.

Lemma InternalGet_spec t options k cache : good_table t -> cache_good (t_cache_id t) cache -> valid k ->
  exists found cache', InternalGet buf ubuf t options k cache = Done (OK, found, cache') /\ cache_good (t_cache_id t) cache' /\
    (forall e, found = Some e -> concat blks !! lower_bound cmp k (concat blks) = Some e) /\
    (forall e, concat blks !! lower_bound cmp k (concat blks) = Some e -> same k e.1 -> found = Some e).
Proof.
  intros G Hc Hk. unfold InternalGet. rewrite (gt_options _ G). destruct (index_seek t k G Hk) as (it & it' & -> & Es & Est & Ev & Eval). cbn [mbind outcome_bind]. rewrite Es. cbn [mbind outcome_bind].
  rewrite Ev, Est. pose proof (lower_bound_blocks 3 idx blks ltac:(lia) table_separated k Hk) as Hlb. set (i := lower_bound cmp k idx) in *.
  case_bool_decide as Hi.
  - destruct (lookup_lt_is_Some_2 idx i Hi) as [x Ex]. rewrite (Eval x Ex). cbn [mbind outcome_bind]. destruct (index_entry i x Ex) as (h & Eh & _).
    destruct (lookup_lt_is_Some_2 blks i) as [b Eb]; [by rewrite <- (sep_length idx blks table_separated)|]. rewrite Eb in Hlb.
    destruct (filtered_out_spec t i x h b k G Hk Ex Eh Eb) as (skip & -> & Hskip). cbn [mbind outcome_bind].
    assert (Hin : forall e, concat blks !! lower_bound cmp k (concat blks) = Some e -> same k e.1 -> (lower_bound cmp k b < length b)%nat).
    { intros e Ee Hsame. pose proof (lower_bound_le cmp k b) as Hle. destruct (Nat.lt_ge_cases (lower_bound cmp k b) (length b)) as [|Hge]; [done|]. exfalso.
      rewrite Hlb in Ee. by apply (not_past i x b k e). }
    assert (Hat : (lower_bound cmp k b < length b)%nat -> concat blks !! lower_bound cmp k (concat blks) = b !! lower_bound cmp k b).
    { intros Hl. rewrite Hlb. unfold start. by apply concat_lookup. }
    destruct skip.
    + cbn [mbind outcome_bind ok]. exists None, cache. split_and!; [done|done|done|]. intros e Ee Hsame. pose proof (Hin e Ee Hsame) as Hl. rewrite (Hat Hl) in Ee.
      exfalso. apply (Hskip eq_refl e); [by apply list_elem_of_lookup_2 with (lower_bound cmp k b)|done].
    + destruct (table_block t options i x b cache G Ex Eb Hc) as (d & cache' & -> & Hc' & At). cbn [mbind outcome_bind].
      destruct (cur_seek d _ k At Hk) as (d' & -> & At'). cbn [mbind outcome_bind]. rewrite (cur_valid d' _ At'), (cur_status d' _ At').
      case_bool_decide as Hl.
      * destruct (lookup_lt_is_Some_2 b _ Hl) as [e Ee]. destruct (cur_entry d' _ e At' Ee) as [-> ->]. cbn [mbind outcome_bind ok]. exists (Some (e.1, e.2)), cache'. rewrite <- surjective_pairing.
        split_and!; [done|done|intros e' [= <-]; by rewrite Hat|]. intros e' Ee' _. rewrite (Hat Hl), Ee in Ee'. exact Ee'.
      * cbn [mbind outcome_bind ok]. exists None, cache'. split_and!; [done|done|done|]. intros e Ee Hsame. by apply Hin in Ee.
  - cbn [mbind outcome_bind ok]. exists None, cache. split_and!; [done|done|done|]. intros e Ee. rewrite (lookup_ge_None_2 blks i) in Hlb by (rewrite <- (sep_length idx blks table_separated); lia).
    rewrite Hlb in Ee. apply lookup_lt_Some in Ee. lia.
Qed.
End Read.
