(* ===== verification/LdbCache.v ===== *)
(** * LdbCache: the cache of blocks (util/cache.cc).

    Entries are at addresses; 0 is the null pointer, and the heads of the two
    rings of a shard are at 1 and 2 of its memory.  [malloc] returns an address
    that is an argument of [lru_Insert].  Calls of deleters are recorded.  Each
    operation holds the mutex of its shard from start to end, so operations are
    run one after the other. *)

From Stdlib Require Import ZifyBool.
From stdpp Require Import base tactics numbers list gmap strings.
From S2P Require Import Prelude LdbBloom.
Open Scope Z_scope.

Section Cache.
(** What [value] points to. *)
Context {V : Type}.

Record LRUHandle : Type := MkLRU {
  lh_value : option V;
  deleter : Z;
  next_hash : Z;
  lh_next : Z;
  lh_prev : Z;
  charge : Z;
  key_data : list Z;
  in_cache : bool;
  refs : Z;
  lh_hash : Z;
}.

Definition set_next_hash (p : Z) (x : LRUHandle) : LRUHandle :=
  MkLRU (lh_value x) (deleter x) p (lh_next x) (lh_prev x) (charge x) (key_data x) (in_cache x) (refs x) (lh_hash x).
Definition set_next (p : Z) (x : LRUHandle) : LRUHandle :=
  MkLRU (lh_value x) (deleter x) (next_hash x) p (lh_prev x) (charge x) (key_data x) (in_cache x) (refs x) (lh_hash x).
Definition set_prev_link (p : Z) (x : LRUHandle) : LRUHandle :=
  MkLRU (lh_value x) (deleter x) (next_hash x) (lh_next x) p (charge x) (key_data x) (in_cache x) (refs x) (lh_hash x).
Definition set_in_cache (b : bool) (x : LRUHandle) : LRUHandle :=
  MkLRU (lh_value x) (deleter x) (next_hash x) (lh_next x) (lh_prev x) (charge x) (key_data x) b (refs x) (lh_hash x).
Definition set_refs (n : Z) (x : LRUHandle) : LRUHandle :=
  MkLRU (lh_value x) (deleter x) (next_hash x) (lh_next x) (lh_prev x) (charge x) (key_data x) (in_cache x) n (lh_hash x).

Abbreviation memory := (gmap Z LRUHandle).

Definition handle (p : Z) (m : memory) : outcome LRUHandle := demand (m !! p).
Definition lh_update (p : Z) (f : LRUHandle -> LRUHandle) (m : memory) : outcome memory := x ← handle p m; Done (<[p := f x]> m).

(** [key()] with its assertion. *)
Definition lh_key (p : Z) (m : memory) : outcome (list Z) := x ← handle p m; if lh_next x =? p then Undef else Done (key_data x).

(** ** The hash table *)

Record HandleTable : Type := MkTab { length_ : Z; elems_ : Z; list_ : list Z }.

(** What an [LRUHandle**] points to: an element of [list_] or a [next_hash]. *)
Inductive Slot : Type := Bucket (i : Z) | NextHash (p : Z).

Definition read_slot (s : Slot) (t : HandleTable) (m : memory) : outcome Z :=
  match s with
  | Bucket i => demand (list_ t !! Z.to_nat i)
  | NextHash p => x ← handle p m; Done (next_hash x)
  end.

Definition write_slot (s : Slot) (v : Z) (t : HandleTable) (m : memory) : outcome (HandleTable * memory) :=
  match s with
  | Bucket i => _ ← demand (list_ t !! Z.to_nat i); Done (MkTab (length_ t) (elems_ t) (<[Z.to_nat i := v]> (list_ t)), m)
  | NextHash p => m ← lh_update p (set_next_hash v) m; Done (t, m)
  end.

Definition bucket_of (hash length : Z) : Z := Z.land hash (u32 (length - 1)).

Fixpoint find_pointer (fuel : nat) (key : list Z) (hash : Z) (ptr : Slot) (t : HandleTable) (m : memory) : outcome Slot :=
  match fuel with
  | O => NoFuel
  | S fuel =>
    p ← read_slot ptr t m;
    if p =? 0 then Done ptr
    else
      x ← handle p m;
      if negb (lh_hash x =? hash) then find_pointer fuel key hash (NextHash p) t m
      else
        k ← lh_key p m;
        if bool_decide (key = k) then Done ptr else find_pointer fuel key hash (NextHash p) t m
  end.
Definition FindPointer (key : list Z) (hash : Z) (t : HandleTable) (m : memory) : outcome Slot :=
  find_pointer (S (size m)) key hash (Bucket (bucket_of hash (length_ t))) t m.

(** [while (new_length < elems_) new_length *= 2] *)
Fixpoint grow (fuel : nat) (new_length elems : Z) : outcome Z :=
  match fuel with
  | O => NoFuel
  | S fuel => if new_length <? elems then grow fuel (u32 (new_length * 2)) elems else Done new_length
  end.

(** The chain from [h] into the new array. *)
Fixpoint move_chain (fuel : nat) (h new_length : Z) (new_list : list Z) (count : Z) (m : memory) : outcome (list Z * Z * memory) :=
  match fuel with
  | O => NoFuel
  | S fuel =>
    if h =? 0 then Done (new_list, count, m)
    else
      x ← handle h m;
      let i := Z.to_nat (bucket_of (lh_hash x) new_length) in
      old ← demand (new_list !! i);
      m ← lh_update h (set_next_hash old) m;
      move_chain fuel (next_hash x) new_length (<[i := h]> new_list) (u32 (count + 1)) m
  end.

(** The buckets of the old array. *)
Fixpoint move_buckets (old : list Z) (new_length : Z) (new_list : list Z) (count : Z) (m : memory) : outcome (list Z * Z * memory) :=
  match old with
  | [] => Done (new_list, count, m)
  | h :: old =>
    '(new_list, count, m) ← move_chain (S (size m)) h new_length new_list count m;
    move_buckets old new_length new_list count m
  end.

Definition Resize (t : HandleTable) (m : memory) : outcome (HandleTable * memory) :=
  new_length ← grow 33 4 (elems_ t);
  '(new_list, count, m) ← move_buckets (take (Z.to_nat (length_ t)) (list_ t)) new_length (replicate (Z.to_nat new_length) 0) 0 m;
  if elems_ t =? count then Done (MkTab new_length (elems_ t) new_list, m) else Undef.

Definition new_HandleTable (m : memory) : outcome (HandleTable * memory) := Resize (MkTab 0 0 []) m.

Definition ht_Lookup (key : list Z) (hash : Z) (t : HandleTable) (m : memory) : outcome Z := ptr ← FindPointer key hash t m; read_slot ptr t m.

Definition ht_Insert (h : Z) (t : HandleTable) (m : memory) : outcome (Z * HandleTable * memory) :=
  k ← lh_key h m;
  x ← handle h m;
  ptr ← FindPointer k (lh_hash x) t m;
  old ← read_slot ptr t m;
  after ← (if old =? 0 then Done 0 else y ← handle old m; Done (next_hash y));
  m ← lh_update h (set_next_hash after) m;
  '(t, m) ← write_slot ptr h t m;
  if old =? 0 then
    let t := MkTab (length_ t) (u32 (elems_ t + 1)) (list_ t) in
    if length_ t <? elems_ t then '(t, m) ← Resize t m; Done (old, t, m) else Done (old, t, m)
  else Done (old, t, m).

Definition ht_Remove (key : list Z) (hash : Z) (t : HandleTable) (m : memory) : outcome (Z * HandleTable * memory) :=
  ptr ← FindPointer key hash t m;
  result ← read_slot ptr t m;
  if result =? 0 then Done (result, t, m)
  else
    y ← handle result m;
    '(t, m) ← write_slot ptr (next_hash y) t m;
    Done (result, MkTab (length_ t) (u32 (elems_ t - 1)) (list_ t), m).

(** ** A shard *)

(** [&lru_] and [&in_use_] *)
Definition lru_ : Z := 1.
Definition in_use_ : Z := 2.

Record LRUCache : Type := MkLRUCache {
  capacity_ : Z;
  usage_ : Z;
  table_ : HandleTable;
  mem : memory;
  deleted : list (Z * list Z * option V);
}.

Definition c_set (t : HandleTable) (m : memory) (c : LRUCache) : LRUCache := MkLRUCache (capacity_ c) (usage_ c) t m (deleted c).
Definition c_set_mem (m : memory) (c : LRUCache) : LRUCache := c_set (table_ c) m c.
Definition c_set_usage (n : Z) (c : LRUCache) : LRUCache := MkLRUCache (capacity_ c) n (table_ c) (mem c) (deleted c).

(** A head: only its links are used. *)
Definition list_head (p : Z) : LRUHandle := MkLRU None 0 0 p p 0 [] false 0 0.

Definition new_LRUCache : outcome LRUCache :=
  '(t, m) ← new_HandleTable (<[lru_ := list_head lru_]> (<[in_use_ := list_head in_use_]> ∅));
  Done (MkLRUCache 0 0 t m []).
Definition SetCapacity (capacity : Z) (c : LRUCache) : LRUCache := MkLRUCache capacity (usage_ c) (table_ c) (mem c) (deleted c).
Definition lru_TotalCharge (c : LRUCache) : Z := usage_ c.

Definition LRU_Remove (e : Z) (m : memory) : outcome memory :=
  x ← handle e m; m ← lh_update (lh_next x) (set_prev_link (lh_prev x)) m;
  x ← handle e m; lh_update (lh_prev x) (set_next (lh_next x)) m.

Definition LRU_Append (list e : Z) (m : memory) : outcome memory :=
  m ← lh_update e (set_next list) m;
  l ← handle list m; m ← lh_update e (set_prev_link (lh_prev l)) m;
  x ← handle e m; m ← lh_update (lh_prev x) (set_next e) m;
  x ← handle e m; lh_update (lh_next x) (set_prev_link e) m.

Definition lru_Ref (e : Z) (c : LRUCache) : outcome LRUCache :=
  x ← handle e (mem c);
  m ← (if (refs x =? 1) && in_cache x then m ← LRU_Remove e (mem c); LRU_Append in_use_ e m else Done (mem c));
  m ← lh_update e (fun x => set_refs (u32 (refs x + 1)) x) m;
  Done (c_set_mem m c).

Definition lru_Unref (e : Z) (c : LRUCache) : outcome LRUCache :=
  x ← handle e (mem c);
  if refs x <=? 0 then Undef
  else
    m ← lh_update e (set_refs (refs x - 1)) (mem c);
    if refs x - 1 =? 0 then
      if in_cache x then Undef
      else
        k ← lh_key e m;
        Done (MkLRUCache (capacity_ c) (usage_ c) (table_ c) (delete e m) (deleted c ++ [(deleter x, k, lh_value x)]))
    else if in_cache x && (refs x - 1 =? 1) then
      m ← LRU_Remove e m; m ← LRU_Append lru_ e m; Done (c_set_mem m c)
    else Done (c_set_mem m c).

Definition FinishErase (e : Z) (c : LRUCache) : outcome (bool * LRUCache) :=
  if e =? 0 then Done (false, c)
  else
    x ← handle e (mem c);
    if in_cache x then
      m ← LRU_Remove e (mem c);
      m ← lh_update e (set_in_cache false) m;
      c ← lru_Unref e (c_set_usage (u64 (usage_ c - charge x)) (c_set_mem m c));
      Done (true, c)
    else Undef.

Definition lru_Lookup (key : list Z) (hash : Z) (c : LRUCache) : outcome (Z * LRUCache) :=
  e ← ht_Lookup key hash (table_ c) (mem c);
  if e =? 0 then Done (e, c) else c ← lru_Ref e c; Done (e, c).

Definition lru_Release (handle : Z) (c : LRUCache) : outcome LRUCache := lru_Unref handle c.

(** [FinishErase(table_.Remove(key, hash))] *)
Definition lru_Erase (key : list Z) (hash : Z) (c : LRUCache) : outcome (bool * LRUCache) :=
  '(e, t, m) ← ht_Remove key hash (table_ c) (mem c);
  FinishErase e (c_set t m c).

(** The removal of the oldest entry, with its assertions. *)
Definition evict_oldest (c : LRUCache) : outcome LRUCache :=
  l ← handle lru_ (mem c);
  let old := lh_next l in
  x ← handle old (mem c);
  if negb (refs x =? 1) then Undef
  else
    k ← lh_key old (mem c);
    '(erased, c) ← lru_Erase k (lh_hash x) c;
    if erased : bool then Done c else Undef.

(** [while (more && lru_.next != &lru_)] *)
Fixpoint evict_loop (fuel : nat) (more : LRUCache -> bool) (c : LRUCache) : outcome LRUCache :=
  match fuel with
  | O => NoFuel
  | S fuel =>
    l ← handle lru_ (mem c);
    if more c && negb (lh_next l =? lru_) then c ← evict_oldest c; evict_loop fuel more c else Done c
  end.

(** [e] is what [malloc] returned; the fields that are not set are 0. *)
Definition lru_Insert (e : Z) (key : list Z) (hash : Z) (value : V) (chg del : Z) (c : LRUCache) : outcome (Z * LRUCache) :=
  let x := MkLRU (Some value) del 0 0 0 chg key false 1 hash in
  c ←
    (if 0 <? capacity_ c then
       m ← LRU_Append in_use_ e (<[e := set_in_cache true (set_refs 2 x)]> (mem c));
       let c := c_set_usage (u64 (usage_ c + chg)) c in
       '(old, t, m) ← ht_Insert e (table_ c) m;
       '(_, c) ← FinishErase old (c_set t m c);
       Done c
     else Done (c_set_mem (<[e := set_next 0 x]> (mem c)) c));
  c ← evict_loop (S (size (mem c))) (fun c => capacity_ c <? usage_ c) c;
  Done (e, c).

Definition lru_Prune (c : LRUCache) : outcome LRUCache := evict_loop (S (size (mem c))) (fun _ => true) c.

(** ~LRUCache *)
Fixpoint destroy_loop (fuel : nat) (e : Z) (c : LRUCache) : outcome LRUCache :=
  match fuel with
  | O => NoFuel
  | S fuel =>
    if e =? lru_ then Done c
    else
      x ← handle e (mem c);
      if in_cache x then
        m ← lh_update e (set_in_cache false) (mem c);
        if refs x =? 1 then c ← lru_Unref e (c_set_mem m c); destroy_loop fuel (lh_next x) c else Undef
      else Undef
  end.
Definition delete_LRUCache (c : LRUCache) : outcome LRUCache :=
  u ← handle in_use_ (mem c);
  if negb (lh_next u =? in_use_) then Undef
  else l ← handle lru_ (mem c); destroy_loop (S (size (mem c))) (lh_next l) c.

(** ** All shards *)

Definition kNumShardBits : Z := 4.
Definition kNumShards : Z := Z.shiftl 1 kNumShardBits.

Record ShardedLRUCache : Type := MkSharded { shard_ : list LRUCache; last_id_ : Z }.

Definition HashSlice (s : list Z) : outcome Z := Hash s 0.
Definition Shard (hash : Z) : Z := Z.shiftr hash (32 - kNumShardBits).

Fixpoint new_shards (n : nat) (capacity : Z) : outcome (list LRUCache) :=
  match n with
  | O => Done []
  | S n => c ← new_LRUCache; rest ← new_shards n capacity; Done (SetCapacity capacity c :: rest)
  end.
Definition NewLRUCache (capacity : Z) : outcome ShardedLRUCache :=
  let per_shard := u64 (capacity + (kNumShards - 1)) / kNumShards in
  shards ← new_shards (Z.to_nat kNumShards) per_shard;
  Done (MkSharded shards 0).

(** ~ShardedLRUCache destroys the elements of [shard_], the last one first. *)
Fixpoint delete_shards (cs : list LRUCache) : outcome (list LRUCache) :=
  match cs with
  | [] => Done []
  | c :: cs => rest ← delete_shards cs; c ← delete_LRUCache c; Done (c :: rest)
  end.
Definition delete_ShardedLRUCache (s : ShardedLRUCache) : outcome (list LRUCache) := delete_shards (shard_ s).

(** An operation of the shard of a hash. *)
Definition in_shard {A} (hash : Z) (f : LRUCache -> outcome (A * LRUCache)) (s : ShardedLRUCache) : outcome (A * ShardedLRUCache) :=
  c ← demand (shard_ s !! Z.to_nat (Shard hash));
  '(a, c) ← f c;
  Done (a, MkSharded (<[Z.to_nat (Shard hash) := c]> (shard_ s)) (last_id_ s)).

Definition cache_Insert (e : Z) (key : list Z) (value : V) (chg del : Z) (s : ShardedLRUCache) : outcome (Z * ShardedLRUCache) :=
  hash ← HashSlice key; in_shard hash (lru_Insert e key hash value chg del) s.
Definition cache_Lookup (key : list Z) (s : ShardedLRUCache) : outcome (Z * ShardedLRUCache) :=
  hash ← HashSlice key; in_shard hash (lru_Lookup key hash) s.

(** The entry at an address, in the memory of the shard that has it. *)
Fixpoint find_handle (p : Z) (cs : list LRUCache) : option LRUHandle :=
  match cs with
  | [] => None
  | c :: cs => match mem c !! p with Some x => Some x | None => find_handle p cs end
  end.

Definition cache_Release (p : Z) (s : ShardedLRUCache) : outcome ShardedLRUCache :=
  x ← demand (find_handle p (shard_ s));
  '(_, s) ← in_shard (lh_hash x) (fun c => c ← lru_Release p c; Done (tt, c)) s;
  Done s.
Definition cache_Value (p : Z) (s : ShardedLRUCache) : outcome V := x ← demand (find_handle p (shard_ s)); demand (lh_value x).
Definition cache_Erase (key : list Z) (s : ShardedLRUCache) : outcome ShardedLRUCache :=
  hash ← HashSlice key; '(_, s) ← in_shard hash (lru_Erase key hash) s; Done s.
Definition cache_NewId (s : ShardedLRUCache) : Z * ShardedLRUCache :=
  let id := u64 (last_id_ s + 1) in (id, MkSharded (shard_ s) id).

Fixpoint prune_shards (cs : list LRUCache) : outcome (list LRUCache) :=
  match cs with
  | [] => Done []
  | c :: cs => c ← lru_Prune c; rest ← prune_shards cs; Done (c :: rest)
  end.
Definition cache_Prune (s : ShardedLRUCache) : outcome ShardedLRUCache := cs ← prune_shards (shard_ s); Done (MkSharded cs (last_id_ s)).
Definition cache_TotalCharge (s : ShardedLRUCache) : Z := fold_left (fun total c => u64 (total + lru_TotalCharge c)) (shard_ s) 0.
End Cache.
Arguments LRUHandle V : clear implicits.
Arguments LRUCache V : clear implicits.
Arguments ShardedLRUCache V : clear implicits.
