(* ===== verification/LdbCacheRing.v ===== *)
(** * LdbCacheRing: the rings of cache entries.

    [LRU_Remove] and [LRU_Append] change the links of three entries at most; in
    terms of the entries of a ring in order, they remove one and add one at the
    end. *)

From Stdlib Require Import ZifyBool.
From stdpp Require Import base tactics numbers list gmap strings.
From S2P Require Import Prelude LdbCache.
Open Scope Z_scope.

Section Ring.
Context {V : Type}.
Abbreviation memory := (gmap Z (LRUHandle V)).
Implicit Types m : memory.

Definition next m (p : Z) : option Z := lh_next <$> m !! p.
Definition prev m (p : Z) : option Z := lh_prev <$> m !! p.
(** All but the links. *)
Definition body (x : LRUHandle V) : LRUHandle V := set_next 0 (set_prev_link 0 x).
Definition same_bodies m m' : Prop := forall p, body <$> m' !! p = body <$> m !! p.

(** From [a] through [l] to [b]. *)
Fixpoint seg m (a : Z) (l : list Z) (b : Z) : Prop :=
  match l with
  | [] => next m a = Some b /\ prev m b = Some a
  | x :: l => next m a = Some x /\ prev m x = Some a /\ seg m x l b
  end.

Definition ring m (head : Z) (l : list Z) : Prop := NoDup (head :: l) /\ seg m head l head.

Definition end_of (a : Z) (l : list Z) : Z := default a (last l).

Lemma end_of_cons a x l : end_of a (x :: l) = end_of x l.
Proof. unfold end_of. rewrite last_cons. destruct (last l); done. Qed.

Lemma end_of_snoc a l x : end_of a (l ++ [x]) = x.
Proof. unfold end_of. by rewrite last_snoc. Qed.

Lemma end_of_elem a l : end_of a l ∈ a :: l.
Proof. revert a. induction l as [|x l IH]; intros a; [apply list_elem_of_here|]. rewrite end_of_cons. apply list_elem_of_further, IH. Qed.

Lemma seg_app m l1 : forall a x l2 b, seg m a (l1 ++ x :: l2) b <-> seg m a l1 x /\ seg m x l2 b.
Proof. induction l1 as [|y l1 IH]; intros a x l2 b; cbn [app seg]; [tauto|]. rewrite IH. tauto. Qed.

Lemma seg_end m l : forall a b, seg m a l b -> next m (end_of a l) = Some b /\ prev m b = Some (end_of a l).
Proof. induction l as [|x l IH]; intros a b; cbn [seg]; [done|]. rewrite end_of_cons. intros (_ & _ & Hs). by apply IH. Qed.

(** Segments depend on the links inside. *)
Lemma seg_frame m m' l : forall a b, seg m a l b -> (forall p, p ∈ a :: l -> next m' p = next m p) -> (forall p, p ∈ l ++ [b] -> prev m' p = prev m p) -> seg m' a l b.
Proof.
  induction l as [|x l IH]; intros a b; cbn [seg app].
  - intros [Hn Hp] Fn Fp. rewrite Fn, Fp by apply list_elem_of_here. done.
  - intros (Hn & Hp & Hs) Fn Fp. rewrite Fn, Fp by apply list_elem_of_here. split_and!; [done|done|]. apply IH; [done| |]; intros p Hin; [apply Fn|apply Fp]; by apply list_elem_of_further.
Qed.

(** A segment with another end. *)
Lemma seg_retarget m m' l : forall a b c, seg m a l b -> (forall p, p ∈ a :: l -> p <> end_of a l -> next m' p = next m p) -> (forall p, p ∈ l -> prev m' p = prev m p) ->
  NoDup (a :: l) -> next m' (end_of a l) = Some c -> prev m' c = Some (end_of a l) -> seg m' a l c.
Proof.
  induction l as [|x l IH]; intros a b c; cbn [seg].
  - by intros _ _ _ _.
  - rewrite end_of_cons. intros (Hn & Hp & Hs) Fn Fp Hnd En Ep. apply NoDup_cons in Hnd as [Ha Hnd]. split_and!.
    + rewrite Fn; [done|apply list_elem_of_here|]. intros E. apply Ha. rewrite E. apply end_of_elem.
    + rewrite Fp; [done|apply list_elem_of_here].
    + apply (IH x b c); [done| | |done|done|done]; intros p Hin; [apply Fn; by apply list_elem_of_further|apply Fp; by apply list_elem_of_further].
Qed.

Lemma seg_dom m l : forall a b p, seg m a l b -> p ∈ a :: l ++ [b] -> is_Some (m !! p).
Proof.
  induction l as [|x l IH]; intros a b p; cbn [seg app]; unfold next, prev.
  - intros [Hn Hp] Hin. apply elem_of_cons in Hin as [->|Hin]; [by destruct (m !! a)|]. apply list_elem_of_singleton in Hin as ->. by destruct (m !! b).
  - intros (Hn & Hp & Hs) Hin. apply elem_of_cons in Hin as [->|Hin]; [by destruct (m !! a)|]. by apply (IH x b).
Qed.

(** ** Bodies *)

Lemma same_bodies_refl m : same_bodies m m.
Proof. done. Qed.
Lemma same_bodies_trans m1 m2 m3 : same_bodies m1 m2 -> same_bodies m2 m3 -> same_bodies m1 m3.
Proof. intros H1 H2 p. by rewrite H2, H1. Qed.

Lemma same_bodies_some m m' p x : same_bodies m m' -> m !! p = Some x -> exists x', m' !! p = Some x' /\ body x' = body x.
Proof. intros Hb E. specialize (Hb p). rewrite E in Hb. destruct (m' !! p) as [x'|]; [|done]. exists x'. split; [done|]. exact (Some_inj _ _ Hb). Qed.

Lemma same_bodies_dom m m' p : same_bodies m m' -> is_Some (m' !! p) <-> is_Some (m !! p).
Proof. intros Hb. by rewrite <- (fmap_is_Some body), Hb, fmap_is_Some. Qed.

Lemma same_bodies_size m m' : same_bodies m m' -> size m' = size m.
Proof.
  intros Hb. rewrite <- !(size_dom (D := gset Z)). f_equal. apply set_eq. intros p. rewrite !elem_of_dom. by apply same_bodies_dom.
Qed.

Lemma body_insert m p x f : m !! p = Some x -> body (f x) = body x -> same_bodies m (<[p := f x]> m).
Proof. intros E Hf q. destruct (decide (q = p)) as [->|]; [rewrite lookup_insert_eq, E; cbn; by rewrite Hf|by rewrite lookup_insert_ne]. Qed.

(** ** Removing *)

Lemma LRU_Remove_links m e x : m !! e = Some x -> is_Some (m !! lh_next x) -> is_Some (m !! lh_prev x) -> lh_next x <> e -> lh_prev x <> e ->
  exists m', LRU_Remove e m = Done m' /\ same_bodies m m' /\ (forall q, next m' q = if decide (q = lh_prev x) then Some (lh_next x) else next m q) /\
    (forall q, prev m' q = if decide (q = lh_next x) then Some (lh_prev x) else prev m q).
Proof.
  intros E [xs Es] [xp Ep] Hs Hp. unfold LRU_Remove, lh_update, handle. rewrite E. cbn [demand mbind outcome_bind]. rewrite Es. cbn [demand mbind outcome_bind].
  rewrite lookup_insert_ne by done. rewrite E. cbn [demand mbind outcome_bind].
  set (m1 := <[lh_next x := _]> m). assert (B1 : same_bodies m m1) by by apply (body_insert m (lh_next x) xs (set_prev_link (lh_prev x))).
  destruct (same_bodies_some m m1 _ _ B1 Ep) as (xp' & Ep' & Bp). rewrite Ep'. cbn [demand mbind outcome_bind]. eexists. split; [done|].
  split; [apply (same_bodies_trans m m1); [done|]; by apply (body_insert m1 (lh_prev x) xp' (set_next (lh_next x)))|].
  split; intros q; unfold next, prev; rewrite lookup_insert; case_decide as H1; subst.
  - rewrite decide_True by done. done.
  - rewrite decide_False by done. unfold m1. rewrite lookup_insert. case_decide as H2; [|done]. subst. by rewrite Es.
  - cbn. replace (lh_prev xp') with (if decide (lh_prev x = lh_next x) then lh_prev x else lh_prev xp); [by rewrite Ep; case_decide|].
    unfold m1 in Ep'. destruct (decide (lh_prev x = lh_next x)) as [H2|H2].
    + rewrite H2, lookup_insert_eq in Ep'. apply Some_inj in Ep'. by subst xp'.
    + rewrite lookup_insert_ne, Ep in Ep' by done. apply Some_inj in Ep'. by subst xp'.
  - unfold m1. rewrite lookup_insert. case_decide as H2; case_decide; try congruence; done.
Qed.

Lemma ring_Remove m head l1 e l2 x : ring m head (l1 ++ e :: l2) -> m !! e = Some x ->
  exists m', LRU_Remove e m = Done m' /\ same_bodies m m' /\ ring m' head (l1 ++ l2) /\
    (forall q, q ∉ head :: l1 ++ l2 -> next m' q = next m q /\ prev m' q = prev m q).
Proof.
  intros [Hnd Hseg] E. rewrite seg_app in Hseg. destruct Hseg as [H1 H2]. destruct (seg_end m l1 head e H1) as [En Ep].
  assert (Epx : lh_prev x = end_of head l1) by (unfold prev in Ep; rewrite E in Ep; by injection Ep).
  assert (Hin : end_of head l1 ∈ head :: l1) by apply end_of_elem. pose proof Hnd as Hnd'. apply NoDup_cons in Hnd' as [Hh Hnd']. apply NoDup_app in Hnd' as (Hl1 & Hd & Hel2).
  apply NoDup_cons in Hel2 as [He Hl2].
  assert (Hpe : lh_prev x <> e). { rewrite Epx. intros Ee. rewrite Ee in Hin. apply elem_of_cons in Hin as [->|Hin]; [apply Hh, elem_of_app; right; apply list_elem_of_here|].
    apply (Hd e Hin), list_elem_of_here. }
  assert (Hhead : (head ∉ l1) /\ (head ∉ l2) /\ head <> e). { rewrite elem_of_app, elem_of_cons in Hh. tauto. }
  destruct Hhead as (Hh1 & Hh2 & Hhe).
  assert (Hnd2 : NoDup (head :: l1 ++ l2)).
  { apply NoDup_cons. split; [rewrite elem_of_app; tauto|]. apply NoDup_app. split_and!; [done| |done]. intros y Hy Hy2. apply (Hd y Hy). by apply list_elem_of_further. }
  assert (Hd2 : forall y, y ∈ l1 -> y ∉ l2) by (intros y Hy Hy2; apply (Hd y Hy); by apply list_elem_of_further).
  assert (Hdom : is_Some (m !! lh_prev x)) by (rewrite Epx; apply (seg_dom m l1 head e _ H1); apply elem_of_cons in Hin as [->|Hin]; [apply list_elem_of_here|apply list_elem_of_further, elem_of_app; by left]).
  assert (Hnx : exists s rest, lh_next x = s /\ (l2 = s :: rest /\ seg m s rest head \/ l2 = [] /\ s = head) /\ is_Some (m !! s) /\ s <> e).
  { destruct l2 as [|s rest]; cbn [seg] in H2.
    - exists head, []. destruct H2 as [H2 H3]. unfold next in H2. rewrite E in H2. split; [by injection H2|]. split; [by right|]. split; [|tauto]. unfold prev in H3. by destruct (m !! head).
    - exists s, rest. destruct H2 as (H2 & H3 & H4). unfold next in H2. rewrite E in H2. split; [by injection H2|]. split; [by left|]. split; [unfold prev in H3; by destruct (m !! s)|].
      intros ->. apply He, list_elem_of_here. }
  destruct Hnx as (s & rest & Es & Hcase & Hsd & Hse). rewrite <- Es in Hsd, Hse.
  destruct (LRU_Remove_links m e x E Hsd Hdom Hse Hpe) as (m' & Er & B & Nx & Pv). rewrite Epx, Es in *.
  exists m'. split; [done|]. split; [done|].
  assert (Nend : next m' (end_of head l1) = Some s) by (rewrite Nx, decide_True by done; done).
  assert (Pend : prev m' s = Some (end_of head l1)) by (rewrite Pv, decide_True by done; done).
  assert (Hleft : seg m' head l1 s).
  { apply (seg_retarget m m' l1 head e s H1); [| | |done|done].
    - intros p Hp Hne. rewrite Nx. by rewrite decide_False.
    - intros p Hp. rewrite Pv. rewrite decide_False; [done|]. intros ->. destruct Hcase as [[-> _]|[_ ->]]; [apply (Hd2 _ Hp), list_elem_of_here|done].
    - apply NoDup_cons. split; done. }
  split.
  - split; [done|]. destruct Hcase as [[-> Hrest]|[-> ->]]; [|by rewrite app_nil_r]. rewrite seg_app. split; [done|].
    apply (seg_frame m m'); [done| |].
    + intros p Hp. rewrite Nx. rewrite decide_False; [done|]. intros ->. apply elem_of_cons in Hin as [E1|Hin]; [|by apply (Hd2 _ Hin)]. by rewrite E1 in Hp.
    + intros p Hp. rewrite Pv. rewrite decide_False; [done|]. intros ->. apply elem_of_app in Hp as [Hp|Hp]; [by apply NoDup_cons in Hl2 as [? _]|].
      apply list_elem_of_singleton in Hp as ->. apply Hh2, list_elem_of_here.
  - intros q Hq. rewrite Nx, Pv. rewrite elem_of_cons, elem_of_app in Hq. split; rewrite decide_False; try done.
    + intros ->. apply elem_of_cons in Hin as [E1|Hin]; [rewrite E1 in Hq; tauto|tauto].
    + intros ->. destruct Hcase as [[-> _]|[_ ->]]; [apply Hq; right; right; apply list_elem_of_here|tauto].
Qed.

(** ** Adding *)

Lemma update_next m p v : is_Some (m !! p) -> exists m', lh_update p (set_next v) m = Done m' /\ same_bodies m m' /\
  (forall q, next m' q = if decide (q = p) then Some v else next m q) /\ (forall q, prev m' q = prev m q).
Proof.
  intros [x E]. unfold lh_update, handle. rewrite E. cbn [demand mbind outcome_bind]. eexists. split; [done|]. split; [by apply body_insert|].
  split; intros q; unfold next, prev; rewrite lookup_insert.
  - destruct (decide (p = q)) as [->|Hq]; [by rewrite decide_True|]. by rewrite decide_False by congruence.
  - destruct (decide (p = q)) as [->|Hq]; [by rewrite E|done].
Qed.

Lemma update_prev m p v : is_Some (m !! p) -> exists m', lh_update p (set_prev_link v) m = Done m' /\ same_bodies m m' /\
  (forall q, prev m' q = if decide (q = p) then Some v else prev m q) /\ (forall q, next m' q = next m q).
Proof.
  intros [x E]. unfold lh_update, handle. rewrite E. cbn [demand mbind outcome_bind]. eexists. split; [done|]. split; [by apply body_insert|].
  split; intros q; unfold next, prev; rewrite lookup_insert.
  - destruct (decide (p = q)) as [->|Hq]; [by rewrite decide_True|]. by rewrite decide_False by congruence.
  - destruct (decide (p = q)) as [->|Hq]; [by rewrite E|done].
Qed.

Lemma handle_prev m p q : prev m p = Some q -> exists x, handle p m = Done x /\ lh_prev x = q.
Proof. unfold prev, handle. destruct (m !! p) as [x|]; [|done]. intros [= <-]. by exists x. Qed.

Lemma handle_next m p q : next m p = Some q -> exists x, handle p m = Done x /\ lh_next x = q.
Proof. unfold next, handle. destruct (m !! p) as [x|]; [|done]. intros [= <-]. by exists x. Qed.

Lemma LRU_Append_links m list e lp : is_Some (m !! e) -> prev m list = Some lp -> is_Some (m !! lp) -> list <> e -> lp <> e ->
  exists m', LRU_Append list e m = Done m' /\ same_bodies m m' /\
    (forall q, next m' q = if decide (q = e) then Some list else if decide (q = lp) then Some e else next m q) /\
    (forall q, prev m' q = if decide (q = list) then Some e else if decide (q = e) then Some lp else prev m q).
Proof.
  intros He Hl Hlp Hle Hlpe. unfold LRU_Append. destruct (update_next m e list He) as (m1 & -> & B1 & N1 & P1). cbn [mbind outcome_bind].
  destruct (handle_prev m1 list lp) as (l & -> & Epl); [by rewrite P1|]. cbn [mbind outcome_bind]. rewrite Epl.
  destruct (update_prev m1 e lp) as (m2 & -> & B2 & P2 & N2); [by apply (same_bodies_dom m)|]. cbn [mbind outcome_bind].
  destruct (handle_prev m2 e lp) as (x & -> & Epx); [by rewrite P2, decide_True|]. cbn [mbind outcome_bind]. rewrite Epx.
  destruct (update_next m2 lp e) as (m3 & -> & B3 & N3 & P3); [by apply (same_bodies_dom m1), (same_bodies_dom m)|]. cbn [mbind outcome_bind].
  destruct (handle_next m3 e list) as (y & -> & Eny); [by rewrite N3, decide_False, N2, N1, decide_True by done|]. cbn [mbind outcome_bind]. rewrite Eny.
  destruct (update_prev m3 list e) as (m4 & -> & B4 & P4 & N4).
  { apply (same_bodies_dom m2), (same_bodies_dom m1), (same_bodies_dom m); [done..|]. unfold prev in Hl. by destruct (m !! list). }
  exists m4. split; [done|]. split; [by apply (same_bodies_trans m m3); [apply (same_bodies_trans m m2); [apply (same_bodies_trans m m1)|]|]|].
  split; intros q.
  - rewrite N4, N3, N2, N1. destruct (decide (q = lp)), (decide (q = e)); congruence.
  - rewrite P4, P3, P2, P1. done.
Qed.

Lemma ring_Append m head l e : ring m head l -> is_Some (m !! e) -> e ∉ head :: l ->
  exists m', LRU_Append head e m = Done m' /\ same_bodies m m' /\ ring m' head (l ++ [e]) /\
    (forall q, q ∉ head :: l ++ [e] -> next m' q = next m q /\ prev m' q = prev m q).
Proof.
  intros [Hnd Hseg] He Hnew. destruct (seg_end m l head head Hseg) as [En Ep]. pose proof (end_of_elem head l) as Hin.
  assert (Hlp : is_Some (m !! end_of head l)) by (unfold next in En; by destruct (m !! end_of head l)).
  destruct (LRU_Append_links m head e (end_of head l)) as (m' & E & B & Nx & Pv); [done..| | |].
  { intros ->. apply Hnew, list_elem_of_here. } { intros Ee. by rewrite Ee in Hin. }
  assert (Hhe : head <> e) by (intros ->; apply Hnew, list_elem_of_here). assert (Hle : e ∉ l) by (intros Hel; by apply Hnew, list_elem_of_further).
  pose proof Hnd as Hnd'. apply NoDup_cons in Hnd' as [Hh Hl].
  exists m'. split; [done|]. split; [done|]. split.
  - split.
    + apply NoDup_cons. rewrite elem_of_app, list_elem_of_singleton. split; [intuition congruence|]. apply NoDup_app. split_and!; [done| |apply NoDup_singleton].
      intros y Hy Hy'. apply list_elem_of_singleton in Hy' as ->. done.
    + rewrite seg_app. split.
      * apply (seg_retarget m m' l head head e Hseg); [| |done| |].
        -- intros p Hp Hne. rewrite Nx, decide_False by (intros ->; done). by rewrite decide_False.
        -- intros p Hp. rewrite Pv, decide_False by (intros ->; done). by rewrite decide_False by (intros ->; done).
        -- rewrite Nx, decide_False by (intros Ee; by rewrite Ee in Hin). by rewrite decide_True.
        -- rewrite Pv, decide_False by done. by rewrite decide_True.
      * cbn [seg]. rewrite Nx, Pv, !decide_True by done. done.
  - intros q Hq. rewrite elem_of_cons, elem_of_app, list_elem_of_singleton in Hq. rewrite Nx, Pv. split; rewrite !decide_False; try done; try tauto.
    intros ->. apply elem_of_cons in Hin as [E1|Hin]; [rewrite E1 in Hq; tauto|tauto].
Qed.

(** A ring whose links did not change. *)
Lemma ring_frame m m' head l : ring m head l -> (forall p, p ∈ head :: l -> next m' p = next m p /\ prev m' p = prev m p) -> ring m' head l.
Proof.
  intros [Hnd Hs] Hf. split; [done|]. apply (seg_frame m m'); [done| |]; intros p Hp; [by apply Hf|]. apply Hf. apply elem_of_app in Hp as [Hp|Hp]; [by apply list_elem_of_further|].
  apply list_elem_of_singleton in Hp as ->. apply list_elem_of_here.
Qed.

(** In a ring, an entry is not its own successor. *)
Lemma ring_next m head l p : ring m head l -> p ∈ l -> exists q, next m p = Some q /\ q <> p.
Proof.
  intros [Hnd Hs] Hp. apply list_elem_of_split in Hp as (l1 & l2 & ->). rewrite seg_app in Hs. destruct Hs as [_ Hs]. apply NoDup_cons in Hnd as [Hh Hnd]. apply NoDup_app in Hnd as (_ & _ & Hnd).
  apply NoDup_cons in Hnd as [Hp _]. destruct l2 as [|q l2]; cbn [seg] in Hs.
  - exists head. split; [apply Hs|]. intros ->. apply Hh, elem_of_app. right. apply list_elem_of_here.
  - exists q. split; [apply Hs|]. intros ->. apply Hp, list_elem_of_here.
Qed.

(** ** Two rings *)

Definition two_rings m (h1 : Z) (l1 : list Z) (h2 : Z) (l2 : list Z) : Prop := ring m h1 l1 /\ ring m h2 l2 /\ NoDup (h1 :: h2 :: l1 ++ l2).

Lemma two_rings_sym m h1 l1 h2 l2 : two_rings m h1 l1 h2 l2 -> two_rings m h2 l2 h1 l1.
Proof.
  intros (R1 & R2 & Hnd). split_and!; [done|done|]. assert (Hp : h2 :: h1 :: l2 ++ l1 ≡ₚ h1 :: h2 :: l1 ++ l2) by (rewrite (Permutation_app_comm l2 l1); by constructor). by rewrite Hp.
Qed.

(** An entry that may be asked for its key. *)
Definition keyed m (p : Z) : Prop := exists n, next m p = Some n /\ n <> p.

Lemma keyed_rings m m' h1 l1 h2 l2 p : two_rings m' h1 l1 h2 l2 -> (p ∉ l1 ++ l2 -> next m' p = next m p) -> keyed m p -> keyed m' p.
Proof.
  intros (R1 & R2 & _) Hn (n & En & Hne). destruct (decide (p ∈ l1)) as [H1|H1]; [by apply (ring_next m' h1 l1)|]. destruct (decide (p ∈ l2)) as [H2|H2]; [by apply (ring_next m' h2 l2)|].
  exists n. rewrite Hn by (rewrite elem_of_app; tauto). done.
Qed.

(** Without one entry. *)
Definition without (e : Z) (l : list Z) : list Z := filter (fun p => p <> e) l.

Lemma without_not e l : e ∉ l -> without e l = l.
Proof. intros He. induction l as [|x l IH]; [done|]. rewrite elem_of_cons in He. unfold without. rewrite filter_cons_True by (intros ->; tauto). f_equal. apply IH. tauto. Qed.

Lemma without_split e l1 l2 : NoDup (l1 ++ e :: l2) -> without e (l1 ++ e :: l2) = l1 ++ l2.
Proof.
  intros Hnd. apply NoDup_app in Hnd as (_ & Hd & Hnd). apply NoDup_cons in Hnd as [He _]. unfold without. rewrite filter_app, filter_cons_False by (intros H; by apply H).
  fold (without e l1). fold (without e l2). rewrite !without_not; [done|done|]. intros H. apply (Hd e H), list_elem_of_here.
Qed.

Lemma elem_without e l p : p ∈ without e l <-> p ∈ l /\ p <> e.
Proof. unfold without. rewrite list_elem_of_filter. tauto. Qed.

Lemma detach m h1 l1 h2 l2 e : two_rings m h1 l1 h2 l2 -> e ∈ l1 -> exists m', LRU_Remove e m = Done m' /\ same_bodies m m' /\ two_rings m' h1 (without e l1) h2 l2 /\
  (forall p, p ∉ h1 :: without e l1 -> next m' p = next m p).
Proof.
  intros (R1 & R2 & Hnd) He. apply list_elem_of_split in He as (a & b & ->). pose proof R1 as [Hn1 Hs]. apply NoDup_cons in Hn1 as [Hh1 Hn1]. rewrite (without_split e a b Hn1).
  destruct (m !! e) as [x|] eqn:E.
  2: { destruct (seg_dom m (a ++ e :: b) h1 h1 e Hs) as [x Ex]; [|congruence]. apply list_elem_of_further, elem_of_app. left. apply elem_of_app. right. apply list_elem_of_here. }
  destruct (ring_Remove m h1 a e b x R1 E) as (m' & Er & B & R1' & Hf). exists m'. split; [done|]. split; [done|].
  assert (Hperm : h1 :: h2 :: (a ++ e :: b) ++ l2 ≡ₚ e :: h1 :: h2 :: (a ++ b) ++ l2).
  { rewrite <- !app_assoc. cbn [app]. rewrite <- (Permutation_middle a). rewrite (perm_swap e h2 (a ++ b ++ l2)), (perm_swap e h1). done. }
  rewrite Hperm in Hnd. apply NoDup_cons in Hnd as [He Hnd]. split; [|intros p Hp; by apply Hf]. split_and!; [done| |done].
  apply (ring_frame m m' h2 l2 R2). intros p Hp. apply Hf. intros Hin. apply NoDup_cons in Hnd as [Hh1' Hnd]. apply NoDup_cons in Hnd as [Hh2' Hnd]. apply NoDup_app in Hnd as (_ & Hd & _).
  apply elem_of_cons in Hp as [->|Hp].
  - apply elem_of_cons in Hin as [->|Hin]; [apply Hh1', list_elem_of_here|]. apply Hh2', elem_of_app. by left.
  - apply elem_of_cons in Hin as [->|Hin]; [apply Hh1', list_elem_of_further, elem_of_app; by right|]. by apply (Hd p).
Qed.

Lemma attach m h1 l1 h2 l2 e : two_rings m h1 l1 h2 l2 -> is_Some (m !! e) -> e ∉ h1 :: h2 :: l1 ++ l2 -> exists m', LRU_Append h1 e m = Done m' /\ same_bodies m m' /\
  two_rings m' h1 (l1 ++ [e]) h2 l2 /\ (forall p, p ∉ h1 :: l1 ++ [e] -> next m' p = next m p).
Proof.
  intros (R1 & R2 & Hnd) He Hnew. assert (Hnew1 : e ∉ h1 :: l1).
  { intros H. apply Hnew. apply elem_of_cons in H as [->|H]; [apply list_elem_of_here|]. apply list_elem_of_further, list_elem_of_further, elem_of_app. by left. }
  destruct (ring_Append m h1 l1 e R1 He Hnew1) as (m' & Er & B & R1' & Hf). exists m'. split; [done|]. split; [done|].
  assert (Hperm : h1 :: h2 :: (l1 ++ [e]) ++ l2 ≡ₚ e :: h1 :: h2 :: l1 ++ l2).
  { rewrite <- !app_assoc. cbn [app]. rewrite <- (Permutation_middle l1). rewrite (perm_swap e h2 (l1 ++ l2)), (perm_swap e h1). done. }
  assert (Hnd' : NoDup (h1 :: h2 :: (l1 ++ [e]) ++ l2)) by (rewrite Hperm; by apply NoDup_cons). split; [|intros p Hp; by apply Hf]. split_and!; [done| |done].
  apply (ring_frame m m' h2 l2 R2). intros p Hp. apply Hf. intros Hin. apply NoDup_cons in Hnd' as [Hh1' Hnd']. apply NoDup_cons in Hnd' as [Hh2' Hnd']. apply NoDup_app in Hnd' as (_ & Hd & _).
  apply elem_of_cons in Hp as [->|Hp].
  - apply elem_of_cons in Hin as [->|Hin]; [apply Hh1', list_elem_of_here|]. apply Hh2', elem_of_app. by left.
  - apply elem_of_cons in Hin as [->|Hin]; [apply Hh1', list_elem_of_further, elem_of_app; by right|]. by apply (Hd p).
Qed.
End Ring.
