(* ===== verification/LdbCacheTable.v ===== *)
(** * LdbCacheTable: the hash table of a cache holds the entries of its chains. *)

From Stdlib Require Import ZifyBool.
From stdpp Require Import base tactics numbers list gmap strings.
From S2P Require Import Prelude LdbCache LdbCacheRing.
Open Scope Z_scope.

Section Table.
Context {V : Type}.
Abbreviation memory := (gmap Z (LRUHandle V)).
Implicit Types m : memory.

Definition nh m (p : Z) : option Z := next_hash <$> m !! p.
(** All but [next_hash]. *)
Definition core (x : LRUHandle V) : LRUHandle V := set_next_hash 0 x.
Definition same_core m m' : Prop := forall p, core <$> m' !! p = core <$> m !! p.

(** The chain that starts with the pointer [p] has the entries [ps]. *)
Fixpoint chain m (p : Z) (ps : list Z) : Prop :=
  match ps with
  | [] => p = 0
  | q :: ps => p = q /\ q <> 0 /\ exists n, nh m q = Some n /\ chain m n ps
  end.

Lemma chain_frame m m' ps : forall p, chain m p ps -> (forall q, q ∈ ps -> nh m' q = nh m q) -> chain m' p ps.
Proof.
  induction ps as [|q ps IH]; intros p; cbn [chain]; [done|]. intros (-> & Hq & n & En & Hc) Hf. split_and!; [done|done|]. exists n. rewrite Hf by apply list_elem_of_here. split; [done|].
  apply IH; [done|]. intros q' Hq'. apply Hf. by apply list_elem_of_further.
Qed.

(** The pointer to the first entry. *)
Definition first (ps : list Z) : Z := match ps with [] => 0 | p :: _ => p end.

Lemma chain_head m p ps : chain m p ps -> p = first ps.
Proof. destruct ps as [|q ps]; cbn [chain first]; [done|]. by intros (-> & _). Qed.

Lemma chain_dom m ps : forall p q, chain m p ps -> q ∈ ps -> q <> 0 /\ is_Some (m !! q).
Proof.
  induction ps as [|q' ps IH]; intros p q Hc Hq; [by apply elem_of_nil in Hq|]. cbn [chain] in Hc. destruct Hc as (-> & H0 & n & En & Hc).
  apply elem_of_cons in Hq as [->|Hq]; [split; [done|]; unfold nh in En; by destruct (m !! q')|by apply (IH n)].
Qed.

(** ** Updates of [next_hash] *)

Lemma same_core_refl m : same_core m m.
Proof. done. Qed.
Lemma same_core_trans m1 m2 m3 : same_core m1 m2 -> same_core m2 m3 -> same_core m1 m3.
Proof. intros H1 H2 p. by rewrite H2, H1. Qed.
Lemma same_core_some m m' p x : same_core m m' -> m !! p = Some x -> exists x', m' !! p = Some x' /\ core x' = core x.
Proof. intros Hb E. specialize (Hb p). rewrite E in Hb. destruct (m' !! p) as [x'|]; [|done]. exists x'. split; [done|]. exact (Some_inj _ _ Hb). Qed.
Lemma same_core_back m m' p x' : same_core m m' -> m' !! p = Some x' -> exists x, m !! p = Some x /\ core x' = core x.
Proof. intros Hb E. specialize (Hb p). rewrite E in Hb. destruct (m !! p) as [x|]; [|done]. exists x. split; [done|]. exact (Some_inj _ _ Hb). Qed.
Lemma same_core_dom m m' p : same_core m m' -> is_Some (m' !! p) <-> is_Some (m !! p).
Proof. intros Hb. by rewrite <- (fmap_is_Some core), Hb, fmap_is_Some. Qed.
Lemma same_core_size m m' : same_core m m' -> size m' = size m.
Proof. intros Hb. rewrite <- !(size_dom (D := gset Z)). f_equal. apply set_eq. intros p. rewrite !elem_of_dom. by apply same_core_dom. Qed.
Lemma same_core_links m m' p : same_core m m' -> next m' p = next m p /\ prev m' p = prev m p.
Proof.
  intros Hb. specialize (Hb p). unfold next, prev. destruct (m' !! p) as [x'|], (m !! p) as [x|]; try done. apply Some_inj in Hb. cbn.
  split; f_equal; [change (lh_next (core x') = lh_next (core x))|change (lh_prev (core x') = lh_prev (core x))]; by rewrite Hb.
Qed.

Lemma core_hash x x' : core x' = core x -> lh_hash x' = lh_hash x /\ key_data x' = key_data x.
Proof. intros E. split; [change (lh_hash (core x') = lh_hash (core x))|change (key_data (core x') = key_data (core x))]; by rewrite E. Qed.

Lemma update_nh m p v : is_Some (m !! p) -> exists m', lh_update p (set_next_hash v) m = Done m' /\ same_core m m' /\ nh m' p = Some v /\ (forall q, q <> p -> nh m' q = nh m q).
Proof.
  intros [x E]. unfold lh_update, handle. rewrite E. cbn [demand mbind outcome_bind]. eexists. split; [done|]. split; [|split].
  - intros q. destruct (decide (q = p)) as [->|]; [by rewrite lookup_insert_eq, E|by rewrite lookup_insert_ne].
  - unfold nh. by rewrite lookup_insert_eq.
  - intros q Hq. unfold nh. by rewrite lookup_insert_ne.
Qed.

(** ** Finding *)

Definition matches m (key : list Z) (hash q : Z) : Prop := exists x, m !! q = Some x /\ lh_hash x = hash /\ key_data x = key.

#[local] Instance matches_dec m key hash q : Decision (matches m key hash q).
Proof.
  unfold matches. destruct (m !! q) as [x|] eqn:E; [|right; intros (x & E' & _); congruence].
  destruct (decide (lh_hash x = hash /\ key_data x = key)) as [H|H]; [left; by exists x|]. right. intros (x' & E' & H'). simplify_eq. done.
Defined.

Lemma keyed_key m p x : keyed m p -> m !! p = Some x -> lh_key p m = Done (key_data x).
Proof.
  intros (n & En & Hn) E. unfold lh_key, handle. unfold next in En. rewrite E in En |- *. cbn in *. injection En as <-. by destruct (Z.eqb_spec (lh_next x) p).
Qed.

(** The slot after the entries [ps]. *)
Definition slot_after (ptr : Slot) (ps : list Z) : Slot := match last ps with Some q => NextHash q | None => ptr end.

Lemma find_pointer_spec fuel key hash t m ps : forall p ptr, chain m p ps -> Forall (keyed m) ps -> read_slot ptr t m = Done p -> (length ps < fuel)%nat ->
  exists ps1 ps2, ps = ps1 ++ ps2 /\ find_pointer fuel key hash ptr t m = Done (slot_after ptr ps1) /\ read_slot (slot_after ptr ps1) t m = Done (first ps2) /\
    Forall (fun q => ~ matches m key hash q) ps1 /\ (forall q, head ps2 = Some q -> matches m key hash q).
Proof.
  revert fuel. induction ps as [|q ps IH]; intros fuel p ptr Hc Hk Er Hf; (destruct fuel as [|fuel]; [lia|]); cbn [chain find_pointer] in *; rewrite Er; cbn [mbind outcome_bind].
  - subst p. exists [], []. by split_and!.
  - destruct Hc as (-> & Hq & n & En & Hc). apply Forall_cons in Hk as [Hkq Hk]. destruct (Z.eqb_spec q 0); [done|]. pose proof En as En'. unfold nh in En'. destruct (m !! q) as [x|] eqn:E; [|done].
    apply Some_inj in En'. assert (Eh : handle q m = Done x) by (unfold handle; by rewrite E). rewrite Eh. cbn [mbind outcome_bind]. rewrite (keyed_key m q x Hkq E). cbn [mbind outcome_bind].
    assert (Hrest : ~ matches m key hash q -> exists ps1 ps2, q :: ps = ps1 ++ ps2 /\ find_pointer fuel key hash (NextHash q) t m = Done (slot_after ptr ps1) /\
      read_slot (slot_after ptr ps1) t m = Done (first ps2) /\ Forall (fun q => ~ matches m key hash q) ps1 /\ (forall q, head ps2 = Some q -> matches m key hash q)).
    { intros Hno. assert (Er' : read_slot (NextHash q) t m = Done n) by (cbn [read_slot]; rewrite Eh; cbn; by rewrite En').
      destruct (IH fuel n (NextHash q) Hc Hk Er' ltac:(cbn in Hf; lia)) as (ps1 & ps2 & -> & Ef & Es & Ha & Hb). exists (q :: ps1), ps2.
      assert (Esl : slot_after ptr (q :: ps1) = slot_after (NextHash q) ps1) by (unfold slot_after; rewrite last_cons; by destruct (last ps1)).
      rewrite Esl. split_and!; [done|done|done|by constructor|done]. }
    destruct (Z.eqb_spec (lh_hash x) hash) as [Eha|Hne]; cbn [negb].
    + case_bool_decide as Ek.
      * exists [], (q :: ps). split_and!; [done|done|done|constructor|]. intros q' [= <-]. by exists x.
      * apply Hrest. intros (x' & E' & _ & Ek'). rewrite E in E'. apply Some_inj in E'. subst x'. congruence.
    + apply Hrest. intros (x' & E' & Eh' & _). rewrite E in E'. apply Some_inj in E'. subst x'. congruence.
Qed.

(** Writing the slot after [ps1]. *)
Lemma chain_write m m' ps1 : forall p v ps2 ps', chain m p (ps1 ++ ps2) -> NoDup ps1 -> (forall q, q ∈ ps1 -> Some q <> last ps1 -> nh m' q = nh m q) ->
  (forall q, last ps1 = Some q -> nh m' q = Some v) -> chain m' v ps' -> chain m' (match ps1 with [] => v | _ => p end) (ps1 ++ ps').
Proof.
  induction ps1 as [|q ps1 IH]; intros p v ps2 ps' Hc Hnd Hf Hl Hv; [done|]. cbn [chain app] in *. destruct Hc as (-> & Hq & n & En & Hc). split_and!; [done|done|].
  apply NoDup_cons in Hnd as [Hq1 Hnd]. destruct ps1 as [|q2 ps1].
  - exists v. split; [by apply Hl|done].
  - exists n. split.
    + rewrite Hf; [done|apply list_elem_of_here|]. cbn [last]. intros El. symmetry in El. apply Hq1. change (last (q2 :: ps1) = Some q) in El. rewrite last_lookup in El. by apply list_elem_of_lookup_2 in El.
    + apply (IH n v ps2 ps' Hc Hnd); [|done|done]. intros q' Hq' Hne. apply Hf; [by apply list_elem_of_further|done].
Qed.

(** ** The whole table *)

(** Entries are in the bucket of their hash. *)
Definition placed m (bs : list (list Z)) : Prop := forall i b q x, bs !! i = Some b -> q ∈ b -> m !! q = Some x -> Z.to_nat (bucket_of (lh_hash x) (zlen bs)) = i.

Lemma placed_core m m' bs : same_core m m' -> placed m bs -> placed m' bs.
Proof. intros Hc Hp i b q x' Eb Hq Ex. destruct (same_core_back m m' q x' Hc Ex) as (x & E & Ecore). destruct (core_hash _ _ Ecore) as [-> _]. by apply (Hp i b q). Qed.

Record table_ok (t : HandleTable) m (bs : list (list Z)) : Prop := {
  tk_length : length_ t = zlen bs;
  tk_pow : exists k, 2 <= k <= 31 /\ zlen bs = 2 ^ k;
  tk_chains : Forall2 (chain m) (list_ t) bs;
  tk_nodup : NoDup (concat bs);
  tk_place : placed m bs;
  tk_elems : elems_ t = zlen (concat bs);
  tk_unique q q' key hash : q ∈ concat bs -> q' ∈ concat bs -> matches m key hash q -> matches m key hash q' -> q = q';
}.

Lemma bucket_range hash k : 2 <= k <= 31 -> 0 <= bucket_of hash (2 ^ k) < 2 ^ k.
Proof.
  intros Hk. unfold bucket_of. assert (2 ^ 2 <= 2 ^ k <= 2 ^ 31) by (split; apply Z.pow_le_mono_r; lia). rewrite u32_small by lia.
  replace (2 ^ k - 1) with (Z.ones k) by (rewrite Z.ones_equiv; lia). rewrite Z.land_ones by lia. apply Z.mod_pos_bound. lia.
Qed.

Lemma elem_of_concat (bs : list (list Z)) q : q ∈ concat bs <-> exists b, q ∈ b /\ b ∈ bs.
Proof.
  induction bs as [|b bs IH]; cbn [concat]; [split; [intros H; by apply elem_of_nil in H|intros (b & _ & H); by apply elem_of_nil in H]|].
  rewrite elem_of_app, IH. split.
  - intros [H|(c & H & Hc)]; [exists b; split; [done|apply list_elem_of_here]|exists c; split; [done|by apply list_elem_of_further]].
  - intros (c & H & Hc). apply elem_of_cons in Hc as [->|Hc]; [by left|right; by exists c].
Qed.

Lemma chains_dom m l bs q : Forall2 (chain m) l bs -> q ∈ concat bs -> q <> 0 /\ is_Some (m !! q).
Proof.
  intros Hc Hq. apply elem_of_concat in Hq as (b & Hq & Hb). apply list_elem_of_lookup in Hb as [i Ei]. destruct (Forall2_lookup_r _ _ _ _ _ Hc Ei) as (p & _ & Hch). by apply (chain_dom m b p).
Qed.

Lemma nodup_size m ps : NoDup ps -> (forall q, q ∈ ps -> is_Some (m !! q)) -> (length ps <= size m)%nat.
Proof.
  intros Hnd Hd. rewrite <- (size_dom (D := gset Z)), <- (size_list_to_set (C := gset Z) ps Hnd). apply subseteq_size. intros q Hq. apply elem_of_list_to_set in Hq. by apply elem_of_dom, Hd.
Qed.

Lemma concat_insert (bs : list (list Z)) i b : bs !! i = Some b -> exists rest, concat bs ≡ₚ b ++ rest /\ (forall b', concat (<[i := b']> bs) ≡ₚ b' ++ rest) /\
  (forall q, q ∈ rest <-> exists j c, j <> i /\ bs !! j = Some c /\ q ∈ c).
Proof.
  intros E. exists (concat (take i bs) ++ concat (drop (S i) bs)). pose proof (lookup_lt_Some _ _ _ E) as Hl. split_and!.
  - rewrite <- (take_drop_middle bs i b E) at 1. rewrite concat_app. cbn [concat]. rewrite !app_assoc. f_equiv. apply Permutation_app_comm.
  - intros b'. rewrite insert_take_drop by done. rewrite concat_app. cbn [concat]. rewrite !app_assoc. f_equiv. apply Permutation_app_comm.
  - intros q. rewrite elem_of_app, !elem_of_concat. split.
    + intros [(c & Hq & Hc)|(c & Hq & Hc)]; apply list_elem_of_lookup in Hc as [j Ej].
      * apply lookup_take_Some in Ej as [Ej Hj]. exists j, c. split_and!; [lia|done|done].
      * rewrite lookup_drop in Ej. exists (S i + j)%nat, c. split_and!; [lia|done|done].
    + intros (j & c & Hj & Ej & Hq). destruct (Nat.lt_ge_cases j i) as [Hlt|Hge]; [left|right]; exists c; (split; [done|]).
      * apply list_elem_of_lookup_2 with j. by apply lookup_take_Some.
      * apply list_elem_of_lookup_2 with (j - S i)%nat. rewrite lookup_drop. by replace (S i + (j - S i))%nat with j by lia.
Qed.

Lemma find_in_table t m bs key hash : table_ok t m bs -> Forall (keyed m) (concat bs) ->
  exists i b ps1 ps2, bs !! i = Some b /\ b = ps1 ++ ps2 /\ i = Z.to_nat (bucket_of hash (zlen bs)) /\ FindPointer key hash t m = Done (slot_after (Bucket (Z.of_nat i)) ps1) /\
    read_slot (slot_after (Bucket (Z.of_nat i)) ps1) t m = Done (first ps2) /\ (forall q, head ps2 = Some q -> matches m key hash q) /\
    (head ps2 = None -> forall q, q ∈ concat bs -> ~ matches m key hash q).
Proof.
  intros K Hk. destruct (tk_pow _ _ _ K) as (k & Hk31 & Ek). pose proof (bucket_range hash k Hk31) as Hr. rewrite <- Ek in Hr. set (i := Z.to_nat (bucket_of hash (zlen bs))).
  destruct (lookup_lt_is_Some_2 bs i) as [b Eb]; [lia|]. destruct (Forall2_lookup_r _ _ _ _ _ (tk_chains _ _ _ K) Eb) as (p & Ep & Hc).
  destruct (concat_insert bs i b Eb) as (rest & Hperm & _ & Hrest).
  assert (Hkb : Forall (keyed m) b) by (rewrite Hperm, Forall_app in Hk; apply Hk).
  assert (Hnb : NoDup b) by (pose proof (tk_nodup _ _ _ K) as Hn; rewrite Hperm in Hn; by apply NoDup_app in Hn as [? _]).
  destruct (find_pointer_spec (S (size m)) key hash t m b p (Bucket (bucket_of hash (zlen bs))) Hc Hkb) as (ps1 & ps2 & Eb2 & Ef & Es & Hno & Hyes).
  { cbn [read_slot]. fold i. by rewrite Ep. } { pose proof (nodup_size m b Hnb) as Hs. assert (length b <= size m)%nat; [|lia]. apply Hs. intros q Hq. by apply (chain_dom m b p). }
  assert (Ebi : bucket_of hash (zlen bs) = Z.of_nat i) by lia. rewrite Ebi in Ef, Es. exists i, b, ps1, ps2. split_and!; [done|done|done| |done|done|].
  - unfold FindPointer. rewrite (tk_length _ _ _ K), Ebi. exact Ef.
  - intros Hh q Hq (x & Ex & Ehx & Ekx). destruct ps2; [|done]. rewrite app_nil_r in Eb2. subst ps1. rewrite Hperm, elem_of_app in Hq. destruct Hq as [Hq|Hq].
    + rewrite Forall_forall in Hno. apply (Hno q Hq). by exists x.
    + apply Hrest in Hq as (j & c & Hj & Ej & Hqc). apply Hj. pose proof (tk_place _ _ _ K j c q x Ej Hqc Ex) as Hpl. rewrite Ehx in Hpl. done.
Qed.

Lemma chains_insert m' l bs i p' b' : length l = length bs -> chain m' p' b' -> (forall j p b, j <> i -> l !! j = Some p -> bs !! j = Some b -> chain m' p b) ->
  Forall2 (chain m') (<[i := p']> l) (<[i := b']> bs).
Proof.
  intros Hl Hc Hj. apply Forall2_same_length_lookup. rewrite !length_insert. split; [done|]. intros j p b Ep Eb. destruct (decide (j = i)) as [->|Hne].
  - apply list_lookup_insert_Some in Ep as [(_ & -> & _)|[? _]]; [|done]. apply list_lookup_insert_Some in Eb as [(_ & -> & _)|[? _]]; done.
  - rewrite list_lookup_insert_ne in Ep by done. rewrite list_lookup_insert_ne in Eb by done. by apply (Hj j).
Qed.

Lemma write_slot_spec t m bs i b ps1 ps2 v ps' : Forall2 (chain m) (list_ t) bs -> NoDup (concat bs) -> bs !! i = Some b -> b = ps1 ++ ps2 -> chain m v ps' -> (forall q, q ∈ ps1 -> q ∉ ps') ->
  exists t' m', write_slot (slot_after (Bucket (Z.of_nat i)) ps1) v t m = Done (t', m') /\ same_core m m' /\ length_ t' = length_ t /\ elems_ t' = elems_ t /\
    Forall2 (chain m') (list_ t') (<[i := ps1 ++ ps']> bs).
Proof.
  intros Hc Hnd Eb -> Hv Hdis. pose proof (Forall2_length _ _ _ Hc) as Hlen. destruct (Forall2_lookup_r _ _ _ _ _ Hc Eb) as (p & Ep & Hcb).
  destruct (concat_insert bs i _ Eb) as (rest & Hperm & _ & Hrest). rewrite Hperm in Hnd. apply NoDup_app in Hnd as (Hnb & Hdb & _). apply NoDup_app in Hnb as (Hn1 & _ & _).
  unfold slot_after. destruct (last ps1) as [q|] eqn:El.
  - assert (Hq1 : q ∈ ps1) by (rewrite last_lookup in El; by apply list_elem_of_lookup_2 in El). assert (Hqb : q ∈ ps1 ++ ps2) by (apply elem_of_app; by left).
    destruct (update_nh m q v) as (m' & E & Hcore & Hnq & Hno); [by apply (chain_dom m (ps1 ++ ps2) p q Hcb)|].
    exists t, m'. cbn [write_slot]. rewrite E. cbn [mbind outcome_bind]. split_and!; [done|done|done|done|].
    rewrite <- (list_insert_id (list_ t) i p Ep). apply chains_insert; [done| |].
    + pose proof (chain_write m m' ps1 p v ps2 ps' Hcb Hn1) as Hw. destruct ps1 as [|q0 ps1]; [done|]. apply Hw.
      * intros q' Hq' Hne. apply Hno. congruence.
      * intros q' E'. rewrite El in E'. by injection E' as <-.
      * apply (chain_frame m); [done|]. intros q' Hq'. apply Hno. intros ->. by apply (Hdis q).
    + intros j p' b' Hj Ep' Eb'. apply (chain_frame m); [exact (Forall2_lookup_lr _ _ _ _ _ _ Hc Ep' Eb')|]. intros q' Hq'. apply Hno. intros ->. apply (Hdb q Hqb), Hrest. by exists j, b'.
  - apply last_None in El. subst ps1. cbn [write_slot app]. rewrite Nat2Z.id, Ep. cbn [demand mbind outcome_bind]. eexists _, m. split_and!; [done|done|done|done|]. cbn [list_].
    apply chains_insert; [done|done|]. intros j p' b' _ Ep' Eb'. exact (Forall2_lookup_lr _ _ _ _ _ _ Hc Ep' Eb').
Qed.

(** ** Resizing *)

Lemma grow_spec elems : elems <= 2 ^ 31 -> forall fuel k, 2 <= k <= 31 -> 31 - k < Z.of_nat fuel -> exists k', k <= k' <= 31 /\ grow fuel (2 ^ k) elems = Done (2 ^ k').
Proof.
  intros He. induction fuel as [|fuel IH]; intros k Hk Hf; [lia|]. cbn [grow]. destruct (Z.ltb_spec (2 ^ k) elems) as [Hlt|Hge]; [|exists k; split; [lia|done]].
  assert (k < 31). { destruct (Z.eq_dec k 31) as [->|]; lia. } replace (2 ^ k * 2) with (2 ^ (k + 1)) by (rewrite Z.pow_add_r by lia; lia).
  assert (2 ^ (k + 1) <= 2 ^ 31) by (apply Z.pow_le_mono_r; lia). rewrite u32_small by lia. destruct (IH (k + 1)) as (k' & Hk' & E); [lia|lia|]. exists k'. split; [lia|done].
Qed.

Lemma move_chain_spec k ps : 2 <= k <= 31 -> forall fuel h nl ns count m, chain m h ps -> NoDup ps -> zlen ns = 2 ^ k -> Forall2 (chain m) nl ns -> (forall q, q ∈ ps -> q ∉ concat ns) ->
  placed m ns -> (length ps < fuel)%nat -> 0 <= count -> count + zlen ps < 2 ^ 32 ->
  exists nl' ns' m', move_chain fuel h (2 ^ k) nl count m = Done (nl', count + zlen ps, m') /\ same_core m m' /\ Forall2 (chain m') nl' ns' /\ zlen ns' = 2 ^ k /\
    concat ns' ≡ₚ ps ++ concat ns /\ placed m' ns' /\ (forall q, q ∉ ps -> nh m' q = nh m q).
Proof.
  intros Hk. induction ps as [|q ps IH]; intros fuel h nl ns count m Hc Hnd Hlen Hch Hdis Hpl Hf Hc0 Hcount; (destruct fuel as [|fuel]; [lia|]); cbn [chain move_chain] in *.
  - subst h. cbn [length]. rewrite Z.eqb_refl, Z.add_0_r. exists nl, ns, m. by split_and!.
  - destruct Hc as (-> & Hq & n & En & Hc). destruct (Z.eqb_spec q 0); [done|]. pose proof En as En'. unfold nh in En'. destruct (m !! q) as [x|] eqn:E; [|done]. apply Some_inj in En'.
    unfold handle. rewrite E. cbn [demand mbind outcome_bind]. rewrite En'. pose proof (bucket_range (lh_hash x) k Hk) as Hr. set (i := Z.to_nat (bucket_of (lh_hash x) (2 ^ k))).
    pose proof (Forall2_length _ _ _ Hch) as Hl. destruct (lookup_lt_is_Some_2 nl i) as [old Eold]; [lia|]. destruct (Forall2_lookup_l _ _ _ _ _ Hch Eold) as (b & Eb & Hcb).
    rewrite Eold. cbn [demand mbind outcome_bind]. apply NoDup_cons in Hnd as [Hqps Hnd]. destruct (concat_insert ns i b Eb) as (rest & Hperm & Hins & Hrest).
    assert (Hqns : q ∉ concat ns) by (apply Hdis, list_elem_of_here).
    destruct (update_nh m q old) as (m1 & -> & Hcore & Hnq & Hno); [by eexists|]. cbn [mbind outcome_bind].
    assert (Hfr : forall q', q' ∈ concat ns -> nh m1 q' = nh m q') by (intros q' Hq'; apply Hno; intros ->; done).
    assert (Hin : forall j c q', ns !! j = Some c -> q' ∈ c -> q' ∈ concat ns) by (intros j c q' Ej Hq'; apply elem_of_concat; exists c; split; [done|by apply list_elem_of_lookup_2 with j]).
    set (ns1 := <[i := q :: b]> ns). assert (Hl1 : zlen ns1 = 2 ^ k) by (unfold ns1; rewrite length_insert; done).
    destruct (IH fuel n (<[i := q]> nl) ns1 (u32 (count + 1)) m1) as (nl' & ns' & m' & Em & Hcore' & Hch' & Hlen' & Hperm' & Hpl' & Hno').
    + apply (chain_frame m); [done|]. intros q' Hq'. apply Hno. intros ->. done.
    + done.
    + done.
    + apply chains_insert; [done| |].
      * cbn [chain]. split_and!; [done|done|]. exists old. split; [done|]. apply (chain_frame m); [done|]. intros q' Hq'. apply Hfr. by apply (Hin i b).
      * intros j p' b' Hj Ep' Eb'. apply (chain_frame m); [exact (Forall2_lookup_lr _ _ _ _ _ _ Hch Ep' Eb')|]. intros q' Hq'. apply Hfr. by apply (Hin j b').
    + intros q' Hq' Hin'. unfold ns1 in Hin'. rewrite (Hins (q :: b)) in Hin'. cbn [app] in Hin'. rewrite elem_of_cons, <- Hperm in Hin'. destruct Hin' as [->|Hin']; [done|].
      apply (Hdis q'); [by apply list_elem_of_further|done].
    + intros j c q' x' Ej Hq' Ex'. unfold ns1 in Ej |- *. rewrite length_insert. apply (placed_core m m1 ns Hcore) in Hpl as Hpl1. destruct (decide (j = i)) as [->|Hj].
      * apply list_lookup_insert_Some in Ej as [(_ & <- & _)|[? _]]; [|done]. apply elem_of_cons in Hq' as [->|Hq']; [|by apply (Hpl1 i b q')].
        destruct (same_core_back m m1 q x' Hcore Ex') as (x0 & Ex0 & Ecore). rewrite E in Ex0. apply Some_inj in Ex0. subst x0. destruct (core_hash _ _ Ecore) as [-> _]. by rewrite Hlen.
      * rewrite list_lookup_insert_ne in Ej by done. by apply (Hpl1 j c q').
    + cbn in Hf. lia.
    + rewrite u32_small; cbn [length] in Hcount; lia.
    + rewrite u32_small; cbn [length] in Hcount; lia.
    + rewrite u32_small in Em by (cbn [length] in Hcount; lia). exists nl', ns', m'. split_and!; [|by apply (same_core_trans m m1)|done|done| |done|].
      * rewrite u32_small by (cbn [length] in Hcount; lia). rewrite Em. do 3 f_equal. cbn [length]. lia.
      * rewrite Hperm'. unfold ns1. rewrite (Hins (q :: b)), Hperm. cbn [app]. by rewrite <- Permutation_middle.
      * intros q' Hq'. rewrite elem_of_cons in Hq'. rewrite Hno' by tauto. apply Hno. tauto.
Qed.

Lemma move_buckets_spec k obs : 2 <= k <= 31 -> forall old nl ns count m, Forall2 (chain m) old obs -> NoDup (concat obs) -> zlen ns = 2 ^ k -> Forall2 (chain m) nl ns ->
  (forall q, q ∈ concat obs -> q ∉ concat ns) -> placed m ns -> 0 <= count -> count + zlen (concat obs) < 2 ^ 32 ->
  exists nl' ns' m', move_buckets old (2 ^ k) nl count m = Done (nl', count + zlen (concat obs), m') /\ same_core m m' /\ Forall2 (chain m') nl' ns' /\ zlen ns' = 2 ^ k /\
    concat ns' ≡ₚ concat obs ++ concat ns /\ placed m' ns'.
Proof.
  intros Hk. induction obs as [|b obs IH]; intros old nl ns count m Hold Hnd Hlen Hch Hdis Hpl Hc0 Hcount; inversion Hold as [|h ? old' ? Hc Hold' E1 E2]; subst; cbn [move_buckets].
  - exists nl, ns, m. cbn [concat length app]. rewrite Z.add_0_r. by split_and!.
  - cbn [concat] in *. rewrite length_app in Hcount. apply NoDup_app in Hnd as (Hnb & Hdb & Hnd).
    destruct (move_chain_spec k b Hk (S (size m)) h nl ns count m Hc Hnb Hlen Hch) as (nl1 & ns1 & m1 & -> & Hcore & Hch1 & Hlen1 & Hperm1 & Hpl1 & Hno).
    + intros q Hq. apply Hdis, elem_of_app. by left.
    + done.
    + assert (length b <= size m)%nat; [|lia]. apply nodup_size; [done|]. intros q Hq. by apply (chain_dom m b h).
    + done.
    + lia.
    + cbn [mbind outcome_bind]. destruct (IH old' nl1 ns1 (count + zlen b) m1) as (nl' & ns' & m' & -> & Hcore' & Hch' & Hlen' & Hperm' & Hpl').
      * apply Forall2_same_length_lookup. split; [by eapply Forall2_length|]. intros j p' b' Ep' Eb'. apply (chain_frame m); [exact (Forall2_lookup_lr _ _ _ _ _ _ Hold' Ep' Eb')|].
        intros q Hq. apply Hno. intros Hqb. apply (Hdb q Hqb), elem_of_concat. exists b'. split; [done|by apply list_elem_of_lookup_2 with j].
      * done.
      * done.
      * done.
      * intros q Hq. rewrite Hperm1, elem_of_app. intros [Hqb|Hqn]; [by apply (Hdb q)|]. apply (Hdis q); [apply elem_of_app; by right|done].
      * done.
      * lia.
      * lia.
      * exists nl', ns', m'. split_and!; [|by apply (same_core_trans m m1)|done|done| |done].
        -- do 3 f_equal. rewrite length_app. lia.
        -- rewrite Hperm', Hperm1, !app_assoc. f_equiv. apply Permutation_app_comm.
Qed.

Lemma matches_core m m' key hash q : same_core m m' -> matches m' key hash q -> matches m key hash q.
Proof. intros Hc (x' & E & Hh & Hk). destruct (same_core_back m m' q x' Hc E) as (x & E' & Ecore). destruct (core_hash _ _ Ecore) as [E1 E2]. exists x. split_and!; [done|congruence|congruence]. Qed.

Lemma unique_core m m' bs bs' : same_core m m' -> concat bs' ≡ₚ concat bs -> (forall q q' key hash, q ∈ concat bs -> q' ∈ concat bs -> matches m key hash q -> matches m key hash q' -> q = q') ->
  forall q q' key hash, q ∈ concat bs' -> q' ∈ concat bs' -> matches m' key hash q -> matches m' key hash q' -> q = q'.
Proof. intros Hc Hp Hu q q' key hash Hq Hq' H1 H2. rewrite Hp in Hq, Hq'. apply (Hu q q' key hash Hq Hq'); by apply (matches_core m m'). Qed.

Lemma Resize_spec t m bs : Forall2 (chain m) (list_ t) bs -> length_ t = zlen bs -> NoDup (concat bs) -> elems_ t = zlen (concat bs) -> zlen (concat bs) <= 2 ^ 31 ->
  (forall q q' key hash, q ∈ concat bs -> q' ∈ concat bs -> matches m key hash q -> matches m key hash q' -> q = q') ->
  exists t' m' bs', Resize t m = Done (t', m') /\ same_core m m' /\ table_ok t' m' bs' /\ concat bs' ≡ₚ concat bs.
Proof.
  intros Hch Hlen Hnd He Hsz Hu. unfold Resize. change 4 with (2 ^ 2). destruct (grow_spec (elems_ t) ltac:(lia) 33 2 ltac:(lia) ltac:(lia)) as (k & Hk & ->). cbn [mbind outcome_bind].
  pose proof (Forall2_length _ _ _ Hch) as Hl. rewrite take_ge by lia. assert (0 < 2 ^ k) by (apply Z.pow_pos_nonneg; lia).
  set (n := Z.to_nat (2 ^ k)). assert (Hcat : concat (replicate n ([] : list Z)) = []) by (clear; induction n; [done|]; done).
  destruct (move_buckets_spec k bs ltac:(lia) (list_ t) (replicate n 0) (replicate n []) 0 m Hch Hnd) as (nl & ns & m' & -> & Hcore & Hch' & Hlen' & Hperm & Hpl).
  - rewrite length_replicate. lia.
  - apply Forall2_replicate. done.
  - intros q _. rewrite Hcat. apply not_elem_of_nil.
  - intros i b q x Eb Hq. apply lookup_replicate in Eb as [-> _]. by apply elem_of_nil in Hq.
  - lia.
  - lia.
  - cbn [mbind outcome_bind]. rewrite Z.add_0_l, He, Z.eqb_refl. rewrite Hcat, app_nil_r in Hperm. eexists _, m', ns. split; [done|]. split; [done|]. split; [|done].
    split; cbn [length_ elems_ list_].
    + lia.
    + exists k. split; [lia|done].
    + done.
    + by rewrite Hperm.
    + done.
    + by rewrite Hperm.
    + by apply (unique_core m m' bs ns).
Qed.

(** ** Operations *)

Lemma ht_Lookup_spec t m bs key hash : table_ok t m bs -> Forall (keyed m) (concat bs) ->
  exists p, ht_Lookup key hash t m = Done p /\ (p = 0 /\ (forall q, q ∈ concat bs -> ~ matches m key hash q) \/ p ∈ concat bs /\ matches m key hash p).
Proof.
  intros K Hk. destruct (find_in_table t m bs key hash K Hk) as (i & b & ps1 & ps2 & Eb & -> & _ & Ef & Er & Hyes & Hno). unfold ht_Lookup. rewrite Ef. cbn [mbind outcome_bind]. rewrite Er.
  eexists. split; [done|]. destruct ps2 as [|p ps2]; cbn [head first] in *; [left; split; [done|by apply Hno]|right]. split; [|by apply Hyes].
  apply elem_of_concat. exists (ps1 ++ p :: ps2). split; [apply elem_of_app; right; apply list_elem_of_here|by apply list_elem_of_lookup_2 with i].
Qed.

Lemma placed_insert m bs i b b' : placed m bs -> bs !! i = Some b -> (forall q x, q ∈ b' -> m !! q = Some x -> q ∈ b \/ Z.to_nat (bucket_of (lh_hash x) (zlen bs)) = i) -> placed m (<[i := b']> bs).
Proof.
  intros Hp Eb Hb' j c q x Ej Hq Ex. rewrite length_insert. destruct (decide (j = i)) as [->|Hj].
  - apply list_lookup_insert_Some in Ej as [(_ & <- & _)|[? _]]; [|done]. destruct (Hb' q x Hq Ex) as [Hqb|]; [by apply (Hp i b q)|done].
  - rewrite list_lookup_insert_ne in Ej by done. by apply (Hp j c q).
Qed.

Lemma ht_Remove_spec t m bs key hash : table_ok t m bs -> Forall (keyed m) (concat bs) -> zlen (concat bs) <= 2 ^ 31 ->
  exists p t' m' bs', ht_Remove key hash t m = Done (p, t', m') /\ same_core m m' /\ table_ok t' m' bs' /\
    (p = 0 /\ concat bs' = concat bs /\ (forall q, q ∈ concat bs -> ~ matches m key hash q) \/ concat bs ≡ₚ p :: concat bs' /\ matches m key hash p).
Proof.
  intros K Hk Hsz. destruct (find_in_table t m bs key hash K Hk) as (i & b & ps1 & ps2 & Eb & -> & _ & Ef & Er & Hyes & Hno). unfold ht_Remove. rewrite Ef. cbn [mbind outcome_bind]. rewrite Er. cbn [mbind outcome_bind].
  destruct ps2 as [|p ps2]; cbn [head first] in *.
  - rewrite Z.eqb_refl. exists 0, t, m, bs. split_and!; [done|done|done|]. left. split_and!; [done|done|by apply Hno].
  - destruct (Forall2_lookup_r _ _ _ _ _ (tk_chains _ _ _ K) Eb) as (h & Eh & Hc). destruct (concat_insert bs i _ Eb) as (rest & Hperm & Hins & Hrest).
    destruct (chain_dom m (ps1 ++ p :: ps2) h p Hc) as [Hp0 [x Ex]]; [apply elem_of_app; right; apply list_elem_of_here|]. destruct (Z.eqb_spec p 0); [done|].
    unfold handle. rewrite Ex. cbn [demand mbind outcome_bind]. pose proof (tk_nodup _ _ _ K) as Hnd. rewrite Hperm in Hnd. apply NoDup_app in Hnd as (Hnb & Hdb & Hndr).
    pose proof Hnb as Hnb'. apply NoDup_app in Hnb' as (Hn1 & Hd1 & Hn2). apply NoDup_cons in Hn2 as [Hp2 Hn2].
    assert (Hch2 : chain m (next_hash x) ps2).
    { clear -Hc Ex. revert h Hc. induction ps1 as [|q ps1 IH]; intros h Hc; cbn [app chain] in Hc; [|destruct Hc as (_ & _ & n & _ & Hc); by apply (IH n)].
      destruct Hc as (_ & _ & n & En & Hc). unfold nh in En. rewrite Ex in En. apply Some_inj in En. by rewrite En. }
    destruct (write_slot_spec t m bs i _ ps1 (p :: ps2) (next_hash x) ps2 (tk_chains _ _ _ K) (tk_nodup _ _ _ K) Eb eq_refl Hch2) as (t' & m' & -> & Hcore & El & Ee & Hch').
    { intros q Hq Hq2. apply (Hd1 q Hq). by apply list_elem_of_further. }
    cbn [mbind outcome_bind]. eexists p, _, m', (<[i := ps1 ++ ps2]> bs). split; [done|]. split; [done|]. specialize (Hins (ps1 ++ ps2)).
    assert (Hperm2 : concat bs ≡ₚ p :: concat (<[i := ps1 ++ ps2]> bs)) by (rewrite Hperm, Hins; rewrite <- !app_assoc; cbn [app]; by rewrite <- Permutation_middle).
    split; [|right; split; [done|by apply Hyes]]. assert (Hlen : zlen (concat bs) = zlen (concat (<[i := ps1 ++ ps2]> bs)) + 1) by (rewrite Hperm2; cbn [length]; lia).
    split; cbn [length_ elems_ list_].
    + rewrite El, length_insert. apply (tk_length _ _ _ K).
    + rewrite length_insert. apply (tk_pow _ _ _ K).
    + done.
    + pose proof (tk_nodup _ _ _ K) as Hnd. rewrite Hperm2 in Hnd. by apply NoDup_cons in Hnd as [_ ?].
    + apply (placed_core m m' _ Hcore). apply (placed_insert m bs i _ _ (tk_place _ _ _ K) Eb). intros q y Hq _. left. apply elem_of_app in Hq as [Hq|Hq]; apply elem_of_app; [by left|right; by apply list_elem_of_further].
    + rewrite Ee, (tk_elems _ _ _ K), u32_small; lia.
    + intros q q' key' hash' Hq Hq' M1 M2. apply (tk_unique _ _ _ K q q' key' hash'); [rewrite Hperm2; by apply list_elem_of_further..|by apply (matches_core m m')|by apply (matches_core m m')].
Qed.

Lemma ht_Insert_spec t m bs h x : table_ok t m bs -> Forall (keyed m) (concat bs) -> keyed m h -> h ∉ concat bs -> h <> 0 -> m !! h = Some x -> zlen (concat bs) < 2 ^ 31 ->
  exists p t' m' bs', ht_Insert h t m = Done (p, t', m') /\ same_core m m' /\ table_ok t' m' bs' /\
    (p = 0 /\ concat bs' ≡ₚ h :: concat bs /\ (forall q, q ∈ concat bs -> ~ matches m (key_data x) (lh_hash x) q) \/
     exists rest, concat bs ≡ₚ p :: rest /\ concat bs' ≡ₚ h :: rest /\ matches m (key_data x) (lh_hash x) p).
Proof.
  intros K Hk Hkh Hh Hh0 Ex Hsz. unfold ht_Insert. rewrite (keyed_key m h x Hkh Ex). cbn [mbind outcome_bind]. assert (Ehx : handle h m = Done x) by (unfold handle; by rewrite Ex).
  rewrite Ehx. cbn [mbind outcome_bind].
  destruct (find_in_table t m bs (key_data x) (lh_hash x) K Hk) as (i & b & ps1 & ps2 & Eb & -> & Ei & Ef & Er & Hyes & Hno). rewrite Ef. cbn [mbind outcome_bind]. rewrite Er. cbn [mbind outcome_bind].
  destruct (Forall2_lookup_r _ _ _ _ _ (tk_chains _ _ _ K) Eb) as (s & Es & Hc). destruct (concat_insert bs i _ Eb) as (rest & Hperm & Hins & Hrest).
  pose proof (tk_nodup _ _ _ K) as Hnd. rewrite Hperm in Hnd. apply NoDup_app in Hnd as (Hnb & Hdb & Hndr). pose proof Hnb as Hnb'. apply NoDup_app in Hnb' as (Hn1 & Hd1 & Hn2).
  assert (Hhb : h ∉ ps1 ++ ps2) by (intros H; apply Hh; rewrite Hperm; apply elem_of_app; by left).
  (* what [h] is linked to, and the chain behind it *)
  assert (Hafter : exists after, (if first ps2 =? 0 then Done 0 else y ← handle (first ps2) m; Done (next_hash y)) = Done after /\ chain m after (tail ps2)).
  { destruct ps2 as [|p ps2]; cbn [head first tail]; [by exists 0|]. destruct (chain_dom m (ps1 ++ p :: ps2) s p Hc) as [Hp0 [y Ey]]; [apply elem_of_app; right; apply list_elem_of_here|].
    destruct (Z.eqb_spec p 0); [done|]. unfold handle. rewrite Ey. cbn [demand mbind outcome_bind]. eexists. split; [done|].
    clear -Hc Ey. revert s Hc. induction ps1 as [|q ps1 IH]; intros s Hc; cbn [app chain] in Hc; [|destruct Hc as (_ & _ & n & _ & Hc); by apply (IH n)].
    destruct Hc as (_ & _ & n & En & Hc). unfold nh in En. rewrite Ey in En. apply Some_inj in En. by rewrite En. }
  destruct Hafter as (after & -> & Hca). cbn [mbind outcome_bind]. destruct (update_nh m h after) as (m1 & -> & Hcore1 & Hnh & Hno1); [by eexists|]. cbn [mbind outcome_bind].
  assert (Hch1 : Forall2 (chain m1) (list_ t) bs).
  { apply Forall2_same_length_lookup. split; [by eapply Forall2_length, (tk_chains _ _ _ K)|]. intros j p' b' Ep' Eb'. apply (chain_frame m); [exact (Forall2_lookup_lr _ _ _ _ _ _ (tk_chains _ _ _ K) Ep' Eb')|].
    intros q Hq. apply Hno1. intros ->. apply Hh, elem_of_concat. exists b'. split; [done|by apply list_elem_of_lookup_2 with j]. }
  assert (Htail : forall q, q ∈ tail ps2 -> q ∈ ps2) by (intros q Hq; destruct ps2; [done|by apply list_elem_of_further]).
  assert (Hcv : chain m1 h (h :: tail ps2)).
  { cbn [chain]. split_and!; [done|done|]. exists after. split; [done|]. apply (chain_frame m); [done|]. intros q Hq. apply Hno1. intros ->. apply Hhb, elem_of_app. right. by apply Htail. }
  destruct (write_slot_spec t m1 bs i _ ps1 ps2 h (h :: tail ps2) Hch1 (tk_nodup _ _ _ K) Eb eq_refl Hcv) as (t2 & m2 & -> & Hcore2 & El & Ee & Hch2).
  { intros q Hq Hin. apply elem_of_cons in Hin as [->|Hin]; [apply Hhb, elem_of_app; by left|]. apply (Hd1 q Hq). by apply Htail. }
  cbn [mbind outcome_bind]. assert (Hcore : same_core m m2) by by apply (same_core_trans m m1). set (bs1 := <[i := ps1 ++ h :: tail ps2]> bs) in *. specialize (Hins (ps1 ++ h :: tail ps2)). fold bs1 in Hins.
  assert (Hpl : placed m2 bs1).
  { apply (placed_core m m2 _ Hcore). apply (placed_insert m bs i _ _ (tk_place _ _ _ K) Eb). intros q y Hq Ey. apply elem_of_app in Hq as [Hq|Hq]; [left; apply elem_of_app; by left|].
    apply elem_of_cons in Hq as [->|Hq]; [right|left; apply elem_of_app; right; by apply Htail]. rewrite Ex in Ey. apply Some_inj in Ey. by subst y. }
  assert (Hlb1 : length bs1 = length bs) by apply length_insert.
  assert (Hself : matches m (key_data x) (lh_hash x) h) by by exists x.
  assert (Hun : forall rest', concat bs1 ≡ₚ h :: rest' -> (forall q, q ∈ rest' -> q ∈ concat bs /\ ~ matches m (key_data x) (lh_hash x) q) ->
    forall q q' key hash, q ∈ concat bs1 -> q' ∈ concat bs1 -> matches m2 key hash q -> matches m2 key hash q' -> q = q').
  { intros rest' Hp Hr q q' key hash Hq Hq' M1 M2. apply (matches_core m m2 _ _ _ Hcore) in M1, M2. rewrite Hp in Hq, Hq'. apply elem_of_cons in Hq as [->|Hq], Hq' as [->|Hq']; [done| | |].
    - destruct M1 as (y & Ey & <- & <-). rewrite Ex in Ey. apply Some_inj in Ey. subst y. by apply Hr in Hq' as [_ ?].
    - destruct M2 as (y & Ey & <- & <-). rewrite Ex in Ey. apply Some_inj in Ey. subst y. by apply Hr in Hq as [_ ?].
    - apply (tk_unique _ _ _ K q q' key hash); [by apply Hr|by apply Hr|done|done]. }
  destruct ps2 as [|p ps2]; cbn [head first tail] in *.
  - rewrite Z.eqb_refl. assert (Hp1 : concat bs1 ≡ₚ h :: concat bs) by (rewrite Hins, Hperm, app_nil_r, <- app_assoc; cbn [app]; by rewrite <- Permutation_middle).
    specialize (Hun (concat bs) Hp1 ltac:(intros q Hq; split; [done|by apply Hno])). assert (Hnd1 : NoDup (concat bs1)) by (rewrite Hp1; apply NoDup_cons; split; [done|apply (tk_nodup _ _ _ K)]).
    assert (Hl1 : zlen (concat bs1) = zlen (concat bs) + 1) by (rewrite Hp1; cbn [length]; lia). rewrite Ee, (tk_elems _ _ _ K), El. cbn [length_ elems_ list_]. rewrite u32_small by lia.
    destruct (length_ t <? zlen (concat bs) + 1).
    + destruct (Resize_spec (MkTab (length_ t) (zlen (concat bs) + 1) (list_ t2)) m2 bs1) as (t3 & m3 & bs3 & -> & Hcore3 & K3 & Hp3); [done|cbn; rewrite (tk_length _ _ _ K), Hlb1; done|done|cbn; lia|lia|done|].
      cbn [mbind outcome_bind]. exists 0, t3, m3, bs3. split_and!; [done|by apply (same_core_trans m m2)|done|]. left. split_and!; [done|by rewrite Hp3|by apply Hno].
    + eexists 0, _, m2, bs1. split_and!; [done|done| |left; split_and!; [done|done|by apply Hno]].
      split; cbn [length_ elems_ list_]; [rewrite (tk_length _ _ _ K), Hlb1; done|rewrite Hlb1; apply (tk_pow _ _ _ K)|done|done|done|lia|done].
  - destruct (chain_dom m (ps1 ++ p :: ps2) s p Hc) as [Hp0 _]; [apply elem_of_app; right; apply list_elem_of_here|]. destruct (Z.eqb_spec p 0); [done|].
    set (rest' := ps1 ++ ps2 ++ rest). assert (Hp1 : concat bs1 ≡ₚ h :: rest') by (rewrite Hins; unfold rest'; rewrite <- !app_assoc; cbn [app]; by rewrite <- Permutation_middle).
    assert (Hp2 : concat bs ≡ₚ p :: rest') by (rewrite Hperm; unfold rest'; rewrite <- !app_assoc; cbn [app]; by rewrite <- Permutation_middle).
    pose proof (tk_nodup _ _ _ K) as Hnd. rewrite Hp2 in Hnd. apply NoDup_cons in Hnd as [Hpr Hndr'].
    assert (Hsub : forall q, q ∈ rest' -> q ∈ concat bs /\ ~ matches m (key_data x) (lh_hash x) q).
    { intros q Hq. assert (Hqc : q ∈ concat bs) by (rewrite Hp2; by apply list_elem_of_further). split; [done|]. intros M. apply Hpr.
      rewrite (tk_unique _ _ _ K p q (key_data x) (lh_hash x)); [done|rewrite Hp2; apply list_elem_of_here|done|by apply Hyes|done]. }
    exists p, t2, m2, bs1. split_and!; [done|done| |right; exists rest'; split_and!; [done|done|by apply Hyes]].
    split; [rewrite El, (tk_length _ _ _ K), Hlb1; done|rewrite Hlb1; apply (tk_pow _ _ _ K)|done| |done| |by apply (Hun rest')].
    + rewrite Hp1. apply NoDup_cons. split; [|done]. intros H. by apply Hsub in H as [? _].
    + rewrite Ee, (tk_elems _ _ _ K). rewrite Hp1, Hp2. done.
Qed.
End Table.
