(* ===== verification/LdbCacheSpec.v ===== *)
(** * LdbCacheSpec: what a shard of the cache promises.

    The abstract cache has the unused entries in the order they were released,
    the used ones, and for every entry how many handles clients hold.  Each
    operation of the shard does what the abstract operation does, for clients
    that release only handles they hold. *)

From Stdlib Require Import ZifyBool.
From stdpp Require Import base tactics numbers list gmap strings.
From S2P Require Import Prelude LdbBloom LdbCache LdbCacheRing LdbCacheTable.
Open Scope Z_scope.

Section Spec.
Context {V : Type}.

(** ** The abstract cache *)

Record aentry : Type := MkEntry { a_key : list Z; a_hash : Z; a_value : V; a_charge : Z; a_deleter : Z; a_held : Z }.

Record acache : Type := MkACache {
  a_capacity : Z;
  (** not held by clients, the oldest first *)
  a_lru : list Z;
  a_used : list Z;
  (** all entries, also those no longer in the cache *)
  a_live : gmap Z aentry;
  a_deleted : list (Z * list Z * option V);
}.

Definition a_cached (a : acache) : list Z := a_lru a ++ a_used a.
Definition hold (n : Z) (y : aentry) : aentry := MkEntry (a_key y) (a_hash y) (a_value y) (a_charge y) (a_deleter y) n.
Definition charge_of (a : acache) (p : Z) : Z := match a_live a !! p with Some y => a_charge y | None => 0 end.
Definition charges (f : Z -> Z) (l : list Z) : Z := foldr (fun p n => f p + n) 0 l.
Definition a_usage (a : acache) : Z := charges (charge_of a) (a_cached a).
Definition a_is (key : list Z) (hash : Z) (a : acache) (p : Z) : bool :=
  match a_live a !! p with Some y => bool_decide (a_key y = key /\ a_hash y = hash) | None => false end.
Definition a_find (key : list Z) (hash : Z) (a : acache) : option Z := head (filter (fun p => a_is key hash a p = true) (a_cached a)).

(** An entry that nobody refers to goes to its deleter. *)
Definition a_collect (p : Z) (y : aentry) (a : acache) : acache :=
  MkACache (a_capacity a) (a_lru a) (a_used a) (delete p (a_live a)) (a_deleted a ++ [(a_deleter y, a_key y, Some (a_value y))]).

Definition a_hold (p : Z) (a : acache) : acache :=
  match a_live a !! p with
  | None => a
  | Some y =>
    MkACache (a_capacity a) (without p (a_lru a)) (if bool_decide (p ∈ a_lru a) then a_used a ++ [p] else a_used a)
      (<[p := hold (a_held y + 1) y]> (a_live a)) (a_deleted a)
  end.

Definition a_release (p : Z) (a : acache) : acache :=
  match a_live a !! p with
  | None => a
  | Some y =>
    if negb (a_held y =? 1) then MkACache (a_capacity a) (a_lru a) (a_used a) (<[p := hold (a_held y - 1) y]> (a_live a)) (a_deleted a)
    else if bool_decide (p ∈ a_used a) then MkACache (a_capacity a) (a_lru a ++ [p]) (without p (a_used a)) (<[p := hold 0 y]> (a_live a)) (a_deleted a)
    else a_collect p y a
  end.

(** Out of the cache; the entry stays while it is held. *)
Definition a_uncache (p : Z) (a : acache) : acache :=
  let a' := MkACache (a_capacity a) (without p (a_lru a)) (without p (a_used a)) (a_live a) (a_deleted a) in
  match a_live a !! p with
  | None => a'
  | Some y => if a_held y =? 0 then a_collect p y a' else a'
  end.

Definition a_lookup (key : list Z) (hash : Z) (a : acache) : Z * acache :=
  match a_find key hash a with Some p => (p, a_hold p a) | None => (0, a) end.
Definition a_erase (key : list Z) (hash : Z) (a : acache) : acache :=
  match a_find key hash a with Some p => a_uncache p a | None => a end.

(** The oldest unused entries leave while [more]. *)
Fixpoint a_evict (l : list Z) (more : acache -> bool) (a : acache) : acache :=
  match l with
  | [] => a
  | p :: l => if more a then a_evict l more (a_uncache p a) else a
  end.

Definition a_over (a : acache) : bool := a_capacity a <? u64 (a_usage a).

Definition a_insert (e : Z) (key : list Z) (hash : Z) (value : V) (chg del : Z) (a : acache) : acache :=
  let y := MkEntry key hash value chg del 1 in
  let a' :=
    if 0 <? a_capacity a then
      let a1 := MkACache (a_capacity a) (a_lru a) (a_used a ++ [e]) (<[e := y]> (a_live a)) (a_deleted a) in
      match a_find key hash a with Some old => a_uncache old a1 | None => a1 end
    else MkACache (a_capacity a) (a_lru a) (a_used a) (<[e := y]> (a_live a)) (a_deleted a) in
  a_evict (a_lru a') a_over a'.

Definition a_prune (a : acache) : acache := a_evict (a_lru a) (fun _ => true) a.

(** ** The simulation *)

(** An entry without its links. *)
Definition plain (x : LRUHandle V) : LRUHandle V := core (body x).
Definition plain_of (cached : bool) (y : aentry) : LRUHandle V :=
  MkLRU (Some (a_value y)) (a_deleter y) 0 0 0 (a_charge y) (a_key y) cached (a_held y + if cached then 1 else 0) (a_hash y).

(** In memory are the two heads and the live entries. *)
Definition holds_entries (m : gmap Z (LRUHandle V)) (cached : list Z) (live : gmap Z aentry) : Prop :=
  forall p, p <> lru_ -> p <> in_use_ -> plain <$> m !! p = plain_of (bool_decide (p ∈ cached)) <$> live !! p.

(** The hash table has the entries [tl]. *)
Record sim_table (c : LRUCache V) (a : acache) (tl : list Z) : Prop := {
  sm_rings : two_rings (mem c) lru_ (a_lru a) in_use_ (a_used a);
  sm_heads p : is_Some (a_live a !! p) -> p <> lru_ /\ p <> in_use_ /\ p <> 0;
  sm_table : exists bs, table_ok (table_ c) (mem c) bs /\ concat bs ≡ₚ tl;
  sm_entries : holds_entries (mem c) (a_cached a) (a_live a);
  sm_cached p : p ∈ a_cached a -> is_Some (a_live a !! p);
  sm_held p y : a_live a !! p = Some y -> 0 <= a_held y < 2 ^ 32 - 2 /\ (p ∈ a_lru a <-> a_held y = 0);
  sm_keyed p : is_Some (a_live a !! p) -> keyed (mem c) p;
  sm_usage : usage_ c = u64 (a_usage a);
  sm_capacity : capacity_ c = a_capacity a;
  sm_deleted : deleted c = a_deleted a;
}.

Definition sim (c : LRUCache V) (a : acache) : Prop := sim_table c a (a_cached a).

(** ** Memory *)

Lemma plain_fields x cached y : plain x = plain_of cached y ->
  lh_value x = Some (a_value y) /\ deleter x = a_deleter y /\ charge x = a_charge y /\ key_data x = a_key y /\ in_cache x = cached /\
  refs x = a_held y + (if cached then 1 else 0) /\ lh_hash x = a_hash y.
Proof. destruct x. cbn. by intros [= -> -> -> -> -> -> ->]. Qed.

Lemma body_plain x x' : body x' = body x -> plain x' = plain x.
Proof. unfold plain. by intros ->. Qed.
Lemma core_plain x x' : core x' = core x -> plain x' = plain x.
Proof. intros E. change (body (core x') = body (core x)). by rewrite E. Qed.

Lemma bodies_plain m m' : same_bodies m m' -> forall p, plain <$> m' !! p = plain <$> m !! p.
Proof. intros B p. specialize (B p). destruct (m' !! p), (m !! p); try done. apply Some_inj in B. cbn. f_equal. by apply body_plain. Qed.
Lemma cores_plain m m' : same_core m m' -> forall p, plain <$> m' !! p = plain <$> m !! p.
Proof. intros B p. specialize (B p). destruct (m' !! p), (m !! p); try done. apply Some_inj in B. cbn. f_equal. by apply core_plain. Qed.

(** What the hash table looks at. *)
Definition hashed (x : LRUHandle V) : Z * Z * list Z := (next_hash x, lh_hash x, key_data x).

Lemma table_frame t m m' bs : table_ok t m bs -> (forall q, q ∈ concat bs -> hashed <$> m' !! q = hashed <$> m !! q) -> table_ok t m' bs.
Proof.
  intros K Hf. assert (Hm : forall key hash q, q ∈ concat bs -> matches m' key hash q -> matches m key hash q).
  { intros key hash q Hq (x' & E & Hh & Hk). specialize (Hf q Hq). rewrite E in Hf. destruct (m !! q) as [x|] eqn:Ex; [|done]. injection Hf as _ E1 E2. exists x. split_and!; congruence. }
  split; [apply (tk_length _ _ _ K)|apply (tk_pow _ _ _ K)| |apply (tk_nodup _ _ _ K)| |apply (tk_elems _ _ _ K)|].
  - apply Forall2_same_length_lookup. split; [by eapply Forall2_length, (tk_chains _ _ _ K)|]. intros j p b Ep Eb.
    apply (chain_frame m); [exact (Forall2_lookup_lr _ _ _ _ _ _ (tk_chains _ _ _ K) Ep Eb)|]. intros q Hq. assert (Hqc : q ∈ concat bs) by (apply elem_of_concat; exists b; split; [done|by apply list_elem_of_lookup_2 with j]).
    specialize (Hf q Hqc). unfold nh. destruct (m' !! q), (m !! q); try done. injection Hf as E1 _ _. cbn. by rewrite E1.
  - intros j b q x' Eb Hq Ex'. assert (Hqc : q ∈ concat bs) by (apply elem_of_concat; exists b; split; [done|by apply list_elem_of_lookup_2 with j]). specialize (Hf q Hqc). rewrite Ex' in Hf.
    destruct (m !! q) as [x|] eqn:Ex; [|done]. injection Hf as _ -> _. by apply (tk_place _ _ _ K j b q).
  - intros q q' key hash Hq Hq' M1 M2. apply (tk_unique _ _ _ K q q' key hash); [done|done|by apply Hm|by apply Hm].
Qed.

Lemma bodies_hashed m m' q : same_bodies m m' -> hashed <$> m' !! q = hashed <$> m !! q.
Proof.
  intros B. specialize (B q). destruct (m' !! q) as [x'|], (m !! q) as [x|]; try done. apply Some_inj in B. cbn. f_equal. change (hashed (body x') = hashed (body x)). by rewrite B.
Qed.

Lemma links_insert (m : gmap Z (LRUHandle V)) e x x' : m !! e = Some x -> lh_next x' = lh_next x -> lh_prev x' = lh_prev x -> forall p, next (<[e := x']> m) p = next m p /\ prev (<[e := x']> m) p = prev m p.
Proof.
  intros E Hn Hp p. unfold next, prev. destruct (decide (p = e)) as [->|]; [rewrite lookup_insert_eq, E; cbn; by rewrite Hn, Hp|by rewrite lookup_insert_ne].
Qed.

Lemma two_rings_frame (m m' : gmap Z (LRUHandle V)) h1 l1 h2 l2 : two_rings m h1 l1 h2 l2 -> (forall p, p ∈ h1 :: h2 :: l1 ++ l2 -> next m' p = next m p /\ prev m' p = prev m p) -> two_rings m' h1 l1 h2 l2.
Proof.
  intros (R1 & R2 & Hnd) Hf. split_and!; [apply (ring_frame m); [done|]|apply (ring_frame m); [done|]|done]; intros p Hp; apply Hf; apply elem_of_cons in Hp as [->|Hp].
  - apply list_elem_of_here.
  - apply list_elem_of_further, list_elem_of_further, elem_of_app. by left.
  - apply list_elem_of_further, list_elem_of_here.
  - apply list_elem_of_further, list_elem_of_further, elem_of_app. by right.
Qed.

(** ** Sums and lists *)

Lemma charges_perm f l l' : l ≡ₚ l' -> charges f l = charges f l'.
Proof. unfold charges. induction 1; cbn [foldr]; lia. Qed.
Lemma charges_ext f g l : (forall p, p ∈ l -> f p = g p) -> charges f l = charges g l.
Proof. induction l as [|p l IH]; intros Hf; [done|]. cbn. rewrite Hf by apply list_elem_of_here. f_equal. apply IH. intros q Hq. apply Hf. by apply list_elem_of_further. Qed.
Lemma charges_app f l l' : charges f (l ++ l') = charges f l + charges f l'.
Proof. unfold charges. induction l as [|p l IH]; [done|]. cbn [app foldr]. lia. Qed.

Lemma u64_sub_l a b : u64 (u64 a - b) = u64 (a - b).
Proof. unfold u64, wrap. by rewrite Zminus_mod_idemp_l. Qed.
Lemma u64_add_l a b : u64 (u64 a + b) = u64 (a + b).
Proof. unfold u64, wrap. by rewrite Zplus_mod_idemp_l. Qed.

Lemma without_app e l l' : without e (l ++ l') = without e l ++ without e l'.
Proof. unfold without. apply filter_app. Qed.
Lemma without_perm e l l' : l ≡ₚ l' -> without e l ≡ₚ without e l'.
Proof. unfold without. by intros ->. Qed.
Lemma without_cons e l : e ∉ l -> without e (e :: l) = l.
Proof. intros He. unfold without. rewrite filter_cons_False by (intros H; by apply H). by apply without_not. Qed.

Lemma cached_nodup c a tl : sim_table c a tl -> NoDup (a_cached a) /\ (lru_ ∉ a_cached a) /\ (in_use_ ∉ a_cached a).
Proof.
  intros S. destruct (sm_rings _ _ _ S) as (_ & _ & Hnd). apply NoDup_cons in Hnd as [H1 Hnd]. apply NoDup_cons in Hnd as [H2 Hnd]. rewrite elem_of_cons in H1. unfold a_cached. tauto.
Qed.

(** The entry of a live address. *)
Lemma live_entry c a tl e y : sim_table c a tl -> a_live a !! e = Some y -> exists x, mem c !! e = Some x /\ plain x = plain_of (bool_decide (e ∈ a_cached a)) y.
Proof.
  intros S E. destruct (sm_heads _ _ _ S e ltac:(by eexists)) as (H1 & H2 & _). pose proof (sm_entries _ _ _ S e H1 H2) as He. rewrite E in He. destruct (mem c !! e) as [x|]; [|done].
  exists x. split; [done|]. exact (Some_inj _ _ He).
Qed.

(** ** Finding *)

Lemma matches_is c a tl q key hash : sim_table c a tl -> q ∈ a_cached a -> matches (mem c) key hash q <-> a_is key hash a q = true.
Proof.
  intros S Hq. destruct (sm_cached _ _ _ S q Hq) as [y Ey]. destruct (live_entry c a tl q y S Ey) as (x & Ex & Epl). apply plain_fields in Epl as (_ & _ & _ & Ek & _ & _ & Eh).
  unfold a_is. rewrite Ey, bool_decide_eq_true. split.
  - intros (x' & Ex' & Hh & Hk). rewrite Ex in Ex'. apply Some_inj in Ex'. subst x'. split; congruence.
  - intros [Hk Hh]. exists x. split_and!; congruence.
Qed.

Lemma find_some a key hash p : a_find key hash a = Some p -> p ∈ a_cached a /\ a_is key hash a p = true.
Proof. unfold a_find. intros E. apply head_Some_elem_of in E. apply list_elem_of_filter in E as [H1 H2]. done. Qed.

Lemma find_none a key hash : a_find key hash a = None -> forall p, p ∈ a_cached a -> a_is key hash a p <> true.
Proof.
  unfold a_find. intros E p Hp H. apply head_None in E. assert (Hin : p ∈ filter (fun p => a_is key hash a p = true) (a_cached a)) by by apply list_elem_of_filter. rewrite E in Hin. by apply elem_of_nil in Hin.
Qed.

(** What the hash table finds is what the abstract cache finds. *)
Lemma find_unique c a bs key hash : sim c a -> table_ok (table_ c) (mem c) bs -> concat bs ≡ₚ a_cached a -> forall p, p ∈ concat bs -> matches (mem c) key hash p -> a_find key hash a = Some p.
Proof.
  intros S K Hp p Hin M. pose proof Hin as Hc. rewrite Hp in Hc. destruct (a_find key hash a) as [q|] eqn:E.
  - apply find_some in E as [Hq Hi]. f_equal. apply (tk_unique _ _ _ K q p key hash); [by rewrite Hp|done|by apply (matches_is c a _ q key hash S Hq)|done].
  - exfalso. apply (find_none a key hash E p Hc). by apply (matches_is c a _ p key hash S Hc).
Qed.

Lemma find_absent c a bs key hash : sim c a -> concat bs ≡ₚ a_cached a -> (forall q, q ∈ concat bs -> ~ matches (mem c) key hash q) -> a_find key hash a = None.
Proof.
  intros S Hp Hno. destruct (a_find key hash a) as [q|] eqn:E; [|done]. apply find_some in E as [Hq Hi]. exfalso. apply (Hno q); [by rewrite Hp|]. by apply (matches_is c a _ q key hash S Hq).
Qed.

Lemma table_keyed c a tl bs : sim_table c a tl -> concat bs ≡ₚ tl -> (forall p, p ∈ tl -> p ∈ a_cached a) -> Forall (keyed (mem c)) (concat bs).
Proof. intros S Hp Hin. apply Forall_forall. intros p H. rewrite Hp in H. apply (sm_keyed _ _ _ S), (sm_cached _ _ _ S), Hin, H. Qed.
End Spec.
Arguments aentry V : clear implicits.
Arguments acache V : clear implicits.
