(* ===== verification/LdbCacheOps.v ===== *)
(** * LdbCacheOps: the operations of a shard do what the abstract ones do. *)

From Stdlib Require Import ZifyBool.
From stdpp Require Import base tactics numbers list gmap strings.
From S2P Require Import Prelude LdbBloom LdbCache LdbCacheRing LdbCacheTable LdbCacheSpec.
Open Scope Z_scope.

Section Ops.
Context {V : Type}.
Implicit Types (c : LRUCache V) (a : acache V).

Lemma hold_plain b n y : plain_of (V := V) b (hold n y) = set_refs (n + if b then 1 else 0) (plain_of b y).
Proof. by destruct b. Qed.

Lemma charge_hold a lru used e y n log : a_live a !! e = Some y -> forall p, charge_of (MkACache (V := V) (a_capacity a) lru used (<[e := hold n y]> (a_live a)) log) p = charge_of a p.
Proof. intros E p. unfold charge_of. cbn [a_live]. destruct (decide (p = e)) as [->|]; [by rewrite lookup_insert_eq, E|by rewrite lookup_insert_ne]. Qed.

(** Only the number of handles and the ring of one entry changed. *)
Lemma sim_rehold c a e y n m' lru' used' : sim c a -> a_live a !! e = Some y -> two_rings m' lru_ lru' in_use_ used' -> lru' ++ used' ≡ₚ a_cached a ->
  (forall p, p <> e -> plain <$> m' !! p = plain <$> mem c !! p) -> plain <$> m' !! e = Some (plain_of (bool_decide (e ∈ a_cached a)) (hold n y)) ->
  (forall q, hashed <$> m' !! q = hashed <$> mem c !! q) -> (forall p, is_Some (a_live a !! p) -> keyed m' p) ->
  0 <= n < 2 ^ 32 - 2 -> (forall p, p <> e -> p ∈ lru' <-> p ∈ a_lru a) -> (e ∈ lru' <-> n = 0) ->
  sim (c_set_mem m' c) (MkACache (a_capacity a) lru' used' (<[e := hold n y]> (a_live a)) (a_deleted a)).
Proof.
  intros S Ey R Hp Hpl He Hh Hk Hn Hl Hel. split; cbn [mem table_ usage_ capacity_ deleted c_set_mem c_set a_lru a_used a_live a_deleted a_capacity].
  - done.
  - intros p Hs. apply (sm_heads _ _ _ S). destruct (decide (p = e)) as [->|Hne]; [by eexists|by rewrite lookup_insert_ne in Hs].
  - destruct (sm_table _ _ _ S) as (bs & K & Hb). exists bs. split; [|unfold a_cached; cbn; by rewrite Hb, Hp]. by apply (table_frame _ (mem c)).
  - intros p H1 H2. unfold a_cached. cbn [a_lru a_used]. rewrite (bool_decide_ext (p ∈ lru' ++ used') (p ∈ a_cached a)) by (by rewrite Hp). destruct (decide (p = e)) as [->|Hne].
    + by rewrite lookup_insert_eq, He.
    + rewrite lookup_insert_ne by done. rewrite Hpl by done. by apply (sm_entries _ _ _ S).
  - intros p Hin. unfold a_cached in Hin. cbn in Hin. rewrite Hp in Hin. destruct (decide (p = e)) as [->|Hne]; [rewrite lookup_insert_eq; by eexists|rewrite lookup_insert_ne by done; by apply (sm_cached _ _ _ S)].
  - intros p y' Ep. destruct (decide (p = e)) as [->|Hne].
    + rewrite lookup_insert_eq in Ep. injection Ep as <-. cbn [a_held hold]. by split.
    + rewrite lookup_insert_ne in Ep by done. rewrite Hl by done. by apply (sm_held _ _ _ S).
  - intros p Hs. apply Hk. destruct (decide (p = e)) as [->|Hne]; [by eexists|by rewrite lookup_insert_ne in Hs].
  - rewrite (sm_usage _ _ _ S). f_equal. unfold a_usage, a_cached. cbn [a_lru a_used]. rewrite (charges_perm _ _ _ Hp). apply charges_ext. intros p _. symmetry. by apply charge_hold.
  - apply (sm_capacity _ _ _ S).
  - apply (sm_deleted _ _ _ S).
Qed.

(** Changing the count of references. *)
Lemma update_refs (m : gmap Z (LRUHandle V)) e x n : m !! e = Some x -> lh_update e (set_refs n) m = Done (<[e := set_refs n x]> m) /\
  (forall p, next (<[e := set_refs n x]> m) p = next m p /\ prev (<[e := set_refs n x]> m) p = prev m p) /\
  (forall q, hashed <$> <[e := set_refs n x]> m !! q = hashed <$> m !! q) /\ (forall p, p <> e -> plain <$> <[e := set_refs n x]> m !! p = plain <$> m !! p).
Proof.
  intros E. split_and!.
  - unfold lh_update, handle. by rewrite E.
  - by apply (links_insert m e x).
  - intros q. destruct (decide (q = e)) as [->|]; [by rewrite lookup_insert_eq, E|by rewrite lookup_insert_ne].
  - intros p Hp. by rewrite lookup_insert_ne.
Qed.

Lemma in_lru_used c a tl e : sim_table c a tl -> e ∈ a_lru a -> e ∉ a_used a.
Proof. intros S H1 H2. destruct (cached_nodup _ _ _ S) as (Hnd & _). unfold a_cached in Hnd. apply NoDup_app in Hnd as (_ & Hd & _). by apply (Hd e). Qed.

(** Moving an entry between the rings. *)
Lemma move_ring (m : gmap Z (LRUHandle V)) h1 l1 h2 l2 e : two_rings m h1 l1 h2 l2 -> e ∈ l1 ->
  exists m1 m2, LRU_Remove e m = Done m1 /\ LRU_Append h2 e m1 = Done m2 /\ same_bodies m m2 /\ two_rings m2 h1 (without e l1) h2 (l2 ++ [e]) /\
    (forall p, p <> h1 -> p <> h2 -> keyed m p -> keyed m2 p).
Proof.
  intros R He. destruct (detach m h1 l1 h2 l2 e R He) as (m1 & E1 & B1 & R1 & F1). pose proof R as (_ & _ & Hnd). apply NoDup_cons in Hnd as [Hh1 Hnd]. apply NoDup_cons in Hnd as [Hh2 Hnd]. apply NoDup_app in Hnd as (_ & Hd & _).
  assert (Hh1e : e <> h1) by (intros ->; apply Hh1, list_elem_of_further, elem_of_app; by left). assert (Hh2e : e <> h2) by (intros ->; apply Hh2, elem_of_app; by left).
  destruct (attach m1 h2 l2 h1 (without e l1) e (two_rings_sym _ _ _ _ _ R1)) as (m2 & E2 & B2 & R2 & F2).
  - apply (same_bodies_dom m); [done|]. destruct R as ([_ Hs] & _ & _). apply (seg_dom m l1 h1 h1); [done|]. apply list_elem_of_further, elem_of_app. by left.
  - rewrite !elem_of_cons, elem_of_app, elem_without. intros [H|[H|[H|H]]]; [done|done|by apply (Hd e)|tauto].
  - exists m1, m2. split_and!; [done|done|by apply (same_bodies_trans m m1)|by apply two_rings_sym|].
    intros p Hp1 Hp2 Hk. apply (keyed_rings m m2 h1 (without e l1) h2 (l2 ++ [e])); [by apply two_rings_sym| |done]. intros Hp. rewrite !elem_of_app in Hp. rewrite F2; [apply F1|]; rewrite elem_of_cons; [tauto|].
    rewrite elem_of_app. tauto.
Qed.

Lemma Ref_spec c a e y : sim c a -> a_live a !! e = Some y -> e ∈ a_cached a -> a_held y < 2 ^ 32 - 3 -> exists c', lru_Ref e c = Done c' /\ sim c' (a_hold e a).
Proof.
  intros S Ey Hin Hheld. destruct (live_entry c a _ e y S Ey) as (x & Ex & Epl). rewrite bool_decide_true in Epl by done. pose proof (plain_fields _ _ _ Epl) as (_ & _ & _ & _ & Eic & Erefs & _).
  destruct (sm_held _ _ _ S e y Ey) as [Hh Hlru]. destruct (sm_heads _ _ _ S e ltac:(by eexists)) as (He1 & He2 & _). unfold lru_Ref, a_hold. assert (Ehx : handle e (mem c) = Done x) by (unfold handle; by rewrite Ex).
  rewrite Ehx, Ey. cbn [mbind outcome_bind]. rewrite Eic, andb_true_r, Erefs. pose proof (sm_rings _ _ _ S) as R.
  assert (Hfin : forall m lru' used', same_bodies (mem c) m -> two_rings m lru_ lru' in_use_ used' -> lru' ++ used' ≡ₚ a_cached a -> (forall p, is_Some (a_live a !! p) -> keyed m p) ->
    (forall p, p <> e -> p ∈ lru' <-> p ∈ a_lru a) -> e ∉ lru' ->
    exists c', (m' ← lh_update e (fun x => set_refs (u32 (refs x + 1)) x) m; Done (c_set_mem m' c)) = Done c' /\ sim c' (MkACache (a_capacity a) lru' used' (<[e := hold (a_held y + 1) y]> (a_live a)) (a_deleted a))).
  { intros m lru' used' B R' Hp Hk Hl Hel. destruct (same_bodies_some _ _ _ _ B Ex) as (x' & Ex' & Bx). pose proof (body_plain _ _ Bx) as Epl'. rewrite Epl in Epl'.
    pose proof (plain_fields _ _ _ Epl') as (_ & _ & _ & _ & _ & Erefs' & _). destruct (update_refs m e x' (u32 (refs x' + 1)) Ex') as (_ & Hlinks & Hhash & Hpl).
    eexists. split; [unfold lh_update, handle; rewrite Ex'; done|]. apply sim_rehold; [done|done| |done| | | | |lia|done|].
    - apply (two_rings_frame m); [done|]. intros p _. apply Hlinks.
    - intros p Hne. rewrite Hpl by done. by apply bodies_plain.
    - rewrite lookup_insert_eq. cbn [fmap option_fmap option_map]. f_equal. rewrite bool_decide_true by done. rewrite hold_plain. change (set_refs (u32 (refs x' + 1)) (plain x') = set_refs (a_held y + 1 + 1) (plain_of true y)).
      rewrite Epl', Erefs', u32_small by lia. f_equal. 
    - intros q. rewrite Hhash. by apply bodies_hashed.
    - intros p Hs. destruct (Hk p Hs) as (n & En & Hne). exists n. by rewrite (proj1 (Hlinks p)).
    - split; [done|lia]. }
  destruct (Z.eqb_spec (a_held y + 1) 1) as [E0|E0].
  - assert (Hlin : e ∈ a_lru a) by (apply Hlru; lia). rewrite bool_decide_true by done. destruct (move_ring _ _ _ _ _ e R Hlin) as (m1 & m2 & Er & Ea & B & R2 & Hk2). rewrite Er. cbn [mbind outcome_bind]. rewrite Ea. cbn [mbind outcome_bind].
    apply Hfin; [done|done| | | |].
    + unfold a_cached. rewrite app_assoc, Permutation_app_comm. cbn [app]. apply list_elem_of_split in Hlin as (l1 & l2 & El). rewrite El in R |- *. destruct R as ([Hnd _] & _ & _). apply NoDup_cons in Hnd as [_ Hnd].
      rewrite (without_split e l1 l2 Hnd), <- !app_assoc. cbn [app]. by rewrite <- Permutation_middle.
    + intros p Hs. destruct (sm_heads _ _ _ S p Hs) as (Hp1 & Hp2 & _). apply Hk2; [done|done|]. by apply (sm_keyed _ _ _ S).
    + intros p Hne. rewrite elem_without. tauto.
    + rewrite elem_without. tauto.
  - assert (Hlin : e ∉ a_lru a) by (rewrite Hlru; lia). rewrite bool_decide_false by done. cbn [mbind outcome_bind]. rewrite (without_not e _ Hlin). apply Hfin; [done|done|done| |done|done].
    intros p Hs. by apply (sm_keyed _ _ _ S).
Qed.

(** ** Entries that go *)

Lemma charge_delete a lru used e log p : p <> e -> charge_of (MkACache (V := V) (a_capacity a) lru used (delete e (a_live a)) log) p = charge_of a p.
Proof. intros Hp. unfold charge_of. cbn [a_live]. by rewrite lookup_delete_ne. Qed.

(** An entry leaves the memory. *)
Lemma sim_gone c a tl e y m' t u lru' used' bs : sim_table c a tl -> a_live a !! e = Some y -> two_rings m' lru_ lru' in_use_ used' -> (forall p, p ∈ lru' ++ used' <-> p ∈ a_cached a /\ p <> e) ->
  table_ok t m' bs -> concat bs ≡ₚ lru' ++ used' -> (forall p, p <> e -> plain <$> m' !! p = plain <$> mem c !! p) -> (forall p, is_Some (a_live a !! p) -> p <> e -> keyed m' p) ->
  (forall p, p <> e -> p ∈ lru' <-> p ∈ a_lru a) -> u = u64 (charges (charge_of a) (lru' ++ used')) ->
  sim (MkLRUCache (capacity_ c) u t (delete e m') (deleted c ++ [(a_deleter y, a_key y, Some (a_value y))]))
    (MkACache (a_capacity a) lru' used' (delete e (a_live a)) (a_deleted a ++ [(a_deleter y, a_key y, Some (a_value y))])).
Proof.
  intros S Ey R Hin K Hb Hpl Hk Hl Hu. destruct (sm_heads _ _ _ S e ltac:(by eexists)) as (H1 & H2 & _). assert (Hsame : forall p, p <> e -> next (delete e m') p = next m' p /\ prev (delete e m') p = prev m' p).
  { intros p Hp. unfold next, prev. by rewrite lookup_delete_ne. }
  split; cbn [mem table_ usage_ capacity_ deleted a_lru a_used a_live a_deleted a_capacity]; unfold a_cached; cbn [a_lru a_used].
  - apply (two_rings_frame m'); [done|]. intros p Hp. apply Hsame. intros ->. rewrite !elem_of_cons in Hp. destruct Hp as [?|[?|Hp]]; [done|done|]. by apply Hin in Hp as [_ ?].
  - intros p [z Ez]. apply lookup_delete_Some in Ez as [_ Ez]. apply (sm_heads _ _ _ S). by eexists.
  - exists bs. split; [|done]. apply (table_frame _ m'); [done|]. intros q Hq. rewrite Hb in Hq. apply Hin in Hq as [_ Hq]. by rewrite lookup_delete_ne.
  - intros p Hp1 Hp2. destruct (decide (p = e)) as [->|Hne]; [by rewrite !lookup_delete_eq|]. rewrite !lookup_delete_ne by done. rewrite Hpl by done. rewrite (sm_entries _ _ _ S p Hp1 Hp2). f_equal. f_equal.
    apply bool_decide_ext. rewrite Hin. tauto.
  - intros p Hp. apply Hin in Hp as [Hp Hne]. rewrite lookup_delete_ne by done. by apply (sm_cached _ _ _ S).
  - intros p z Ez. apply lookup_delete_Some in Ez as [Hne Ez]. rewrite Hl by done. by apply (sm_held _ _ _ S).
  - intros p [z Ez]. apply lookup_delete_Some in Ez as [Hne Ez]. destruct (Hk p ltac:(by eexists) ltac:(done)) as (n & En & Hn). exists n. split; [|done]. by rewrite (proj1 (Hsame p ltac:(congruence))).
  - rewrite Hu. f_equal. apply charges_ext. intros p Hp. apply Hin in Hp as [_ Hp]. symmetry. by apply charge_delete.
  - apply (sm_capacity _ _ _ S).
  - f_equal. apply (sm_deleted _ _ _ S).
Qed.

(** An entry leaves the cache, but is still held. *)
Lemma sim_out c a tl e y m' t u lru' used' bs : sim_table c a tl -> a_live a !! e = Some y -> a_held y <> 0 -> two_rings m' lru_ lru' in_use_ used' -> (forall p, p ∈ lru' ++ used' <-> p ∈ a_cached a /\ p <> e) ->
  table_ok t m' bs -> concat bs ≡ₚ lru' ++ used' -> (forall p, p <> e -> plain <$> m' !! p = plain <$> mem c !! p) -> plain <$> m' !! e = Some (plain_of false y) ->
  (forall p, is_Some (a_live a !! p) -> keyed m' p) -> (forall p, p <> e -> p ∈ lru' <-> p ∈ a_lru a) -> u = u64 (charges (charge_of a) (lru' ++ used')) ->
  sim (MkLRUCache (capacity_ c) u t m' (deleted c)) (MkACache (a_capacity a) lru' used' (a_live a) (a_deleted a)).
Proof.
  intros S Ey Hheld R Hin K Hb Hpl He Hk Hl Hu.
  split; cbn [mem table_ usage_ capacity_ deleted a_lru a_used a_live a_deleted a_capacity]; unfold a_cached; cbn [a_lru a_used].
  - done.
  - apply (sm_heads _ _ _ S).
  - by exists bs.
  - intros p Hp1 Hp2. destruct (decide (p = e)) as [->|Hne].
    + rewrite He, Ey, bool_decide_false; [done|]. rewrite Hin. tauto.
    + rewrite Hpl by done. rewrite (sm_entries _ _ _ S p Hp1 Hp2). f_equal. f_equal. apply bool_decide_ext. rewrite Hin. tauto.
  - intros p Hp. apply Hin in Hp as [Hp _]. by apply (sm_cached _ _ _ S).
  - intros p z Ez. destruct (sm_held _ _ _ S p z Ez) as [Hh Hz]. split; [done|]. destruct (decide (p = e)) as [->|Hne]; [|by rewrite Hl].
    rewrite Ey in Ez. injection Ez as <-. split; [|done]. intros Hp. assert (Hp' : e ∈ lru' ++ used') by (apply elem_of_app; by left). by apply Hin in Hp' as [_ ?].
  - done.
  - done.
  - apply (sm_capacity _ _ _ S).
  - apply (sm_deleted _ _ _ S).
Qed.

Lemma lru_Release_spec c a e y : sim c a -> a_live a !! e = Some y -> 1 <= a_held y -> exists c', lru_Release e c = Done c' /\ sim c' (a_release e a).
Proof.
  intros S Ey Hheld. destruct (live_entry c a _ e y S Ey) as (x & Ex & Epl). pose proof (plain_fields _ _ _ Epl) as (Ev & Ed & _ & Ek & Eic & Erefs & _).
  destruct (sm_held _ _ _ S e y Ey) as [Hh Hlru]. destruct (sm_heads _ _ _ S e ltac:(by eexists)) as (He1 & He2 & _). unfold lru_Release, lru_Unref, a_release. unfold handle at 1. rewrite Ex, Ey. cbn [demand mbind outcome_bind].
  assert (Hnl : e ∉ a_lru a) by (rewrite Hlru; lia). pose proof (sm_rings _ _ _ S) as R.
  destruct (update_refs (mem c) e x (refs x - 1) Ex) as (-> & Hlinks & Hhash & Hpl). set (m1 := <[e := _]> (mem c)) in *. cbn [mbind outcome_bind].
  assert (R1 : two_rings m1 lru_ (a_lru a) in_use_ (a_used a)) by (apply (two_rings_frame (mem c)); [done|]; intros p _; apply Hlinks).
  assert (Hk1 : forall p, is_Some (a_live a !! p) -> keyed m1 p) by (intros p Hs; destruct (sm_keyed _ _ _ S p Hs) as (n & En & Hne); exists n; by rewrite (proj1 (Hlinks p))).
  assert (Hrefs : refs x - 1 = a_held y - 1 + (if bool_decide (e ∈ a_cached a) then 1 else 0)) by lia.
  assert (He1' : plain <$> m1 !! e = Some (plain_of (bool_decide (e ∈ a_cached a)) (hold (a_held y - 1) y))).
  { unfold m1. rewrite lookup_insert_eq. cbn [fmap option_fmap option_map]. f_equal. rewrite hold_plain, <- Hrefs. change (set_refs (refs x - 1) (plain x) = set_refs (refs x - 1) (plain_of (bool_decide (e ∈ a_cached a)) y)). by rewrite Epl. }
  destruct (Z.leb_spec (refs x) 0) as [Hr0|_]; [case_bool_decide; lia|]. rewrite Hrefs, Eic.
  destruct (Z.eqb_spec (a_held y) 1) as [E1|E1]; cbn [negb].
  - case_bool_decide as Hc.
    + assert (Hu : e ∈ a_used a) by (unfold a_cached in Hc; rewrite elem_of_app in Hc; tauto). rewrite E1, (bool_decide_true (e ∈ a_used a)) by done. cbn.
      destruct (move_ring m1 in_use_ (a_used a) lru_ (a_lru a) e (two_rings_sym _ _ _ _ _ R1) Hu) as (m2 & m3 & Er & Ea & B & R3 & Hk3). rewrite Er. cbn [mbind outcome_bind]. rewrite Ea. cbn [mbind outcome_bind].
      eexists. split; [done|]. apply sim_rehold; [done|done|by apply two_rings_sym| | | | | |lia| |].
      * unfold a_cached. rewrite <- app_assoc. f_equiv. apply list_elem_of_split in Hu as (l1 & l2 & El). rewrite El in R |- *. destruct R as (_ & [Hnd _] & _). apply NoDup_cons in Hnd as [_ Hnd].
        rewrite (without_split e l1 l2 Hnd). cbn [app]. by rewrite <- Permutation_middle.
      * intros p Hne. rewrite (bodies_plain _ _ B). by apply Hpl.
      * rewrite (bodies_plain _ _ B), He1', E1. by rewrite bool_decide_true.
      * intros q. rewrite (bodies_hashed _ _ q B). apply Hhash.
      * intros p Hs. destruct (sm_heads _ _ _ S p Hs) as (Hp1 & Hp2 & _). apply Hk3; [done|done|]. by apply Hk1.
      * intros p Hne. rewrite elem_of_app, list_elem_of_singleton. tauto.
      * rewrite elem_of_app, list_elem_of_singleton. split; [lia|tauto].
    + rewrite (bool_decide_false (e ∈ a_used a)) by (unfold a_cached in Hc; rewrite elem_of_app in Hc; tauto). rewrite E1. cbn.
      rewrite (keyed_key m1 e (set_refs (refs x - 1) x)); [|apply Hk1; by eexists|unfold m1; by rewrite lookup_insert_eq]. cbn [mbind outcome_bind]. eexists. split; [done|].
      change (key_data (set_refs (refs x - 1) x)) with (key_data x). rewrite Ek, Ed, Ev. destruct (sm_table _ _ _ S) as (bs & K & Hb).
      apply (sim_gone c a (a_cached a) e y m1 (table_ c) (usage_ c) (a_lru a) (a_used a) bs); [done|done|done| |by apply (table_frame _ (mem c))|done|done|by intros p Hs _; apply Hk1|done|apply (sm_usage _ _ _ S)].
      intros p. split; [|by intros [? _]]. intros Hp. split; [done|]. intros ->. done.
  - destruct (Z.eqb_spec (a_held y - 1 + (if bool_decide (e ∈ a_cached a) then 1 else 0)) 0) as [E0|_]; [case_bool_decide; lia|].
    assert (Hno : bool_decide (e ∈ a_cached a) && (a_held y - 1 + (if bool_decide (e ∈ a_cached a) then 1 else 0) =? 1) = false) by (case_bool_decide; cbn; lia). rewrite Hno.
    eexists. split; [done|]. apply sim_rehold; [done|done|done|done|done|done|done|done|lia|done|]. split; [done|lia].
Qed.

(** ** Out of the cache *)

Lemma detach_any (m : gmap Z (LRUHandle V)) l1 l2 e : two_rings m lru_ l1 in_use_ l2 -> e ∈ l1 ++ l2 ->
  exists m', LRU_Remove e m = Done m' /\ same_bodies m m' /\ two_rings m' lru_ (without e l1) in_use_ (without e l2) /\ (forall p, p <> lru_ -> p <> in_use_ -> keyed m p -> keyed m' p).
Proof.
  intros R He. pose proof R as (_ & _ & Hnd). apply NoDup_cons in Hnd as [_ Hnd]. apply NoDup_cons in Hnd as [_ Hnd]. apply NoDup_app in Hnd as (_ & Hd & _).
  apply elem_of_app in He as [He|He].
  - destruct (detach m _ l1 _ l2 e R He) as (m' & Er & B & R' & F). rewrite (without_not e l2) by by apply Hd. exists m'. split_and!; [done|done|done|].
    intros p H1 H2 Hk. apply (keyed_rings m m' lru_ (without e l1) in_use_ l2); [done| |done]. intros Hp. apply F. rewrite elem_of_app in Hp. rewrite elem_of_cons. tauto.
  - destruct (detach m _ l2 _ l1 e (two_rings_sym _ _ _ _ _ R) He) as (m' & Er & B & R' & F). rewrite (without_not e l1) by (intros H; by apply (Hd e)). exists m'. split_and!; [done|done|by apply two_rings_sym|].
    intros p H1 H2 Hk. apply (keyed_rings m m' in_use_ (without e l2) lru_ l1); [done| |done]. intros Hp. apply F. rewrite elem_of_app in Hp. rewrite elem_of_cons. tauto.
Qed.

Lemma FinishErase_spec c a e tl : sim_table c a tl -> a_cached a ≡ₚ e :: tl -> exists c', FinishErase e c = Done (true, c') /\ sim c' (a_uncache e a).
Proof.
  intros S Htl. assert (Hin : e ∈ a_cached a) by (rewrite Htl; apply list_elem_of_here). destruct (sm_cached _ _ _ S e Hin) as [y Ey].
  destruct (live_entry c a _ e y S Ey) as (x & Ex & Epl). rewrite bool_decide_true in Epl by done. pose proof (plain_fields _ _ _ Epl) as (Ev & Ed & Echg & Ek & Eic & Erefs & _).
  destruct (sm_held _ _ _ S e y Ey) as [Hh Hlru]. destruct (sm_heads _ _ _ S e ltac:(by eexists)) as (He1 & He2 & He0). destruct (cached_nodup _ _ _ S) as (Hnd & _).
  unfold FinishErase, a_uncache. destruct (Z.eqb_spec e 0); [done|]. unfold handle at 1. rewrite Ex, Ey. cbn [demand mbind outcome_bind]. rewrite Eic.
  destruct (detach_any (mem c) (a_lru a) (a_used a) e (sm_rings _ _ _ S) Hin) as (m1 & -> & B1 & R1 & Hk1). cbn [mbind outcome_bind].
  destruct (same_bodies_some _ _ _ _ B1 Ex) as (x1 & Ex1 & Bx1). pose proof (body_plain _ _ Bx1) as Epl1. rewrite Epl in Epl1. pose proof (plain_fields _ _ _ Epl1) as (Ev1 & Ed1 & _ & Ek1 & _ & Erefs1 & _).
  unfold lh_update at 1, handle at 1. rewrite Ex1. cbn [demand mbind outcome_bind]. set (m2 := <[e := set_in_cache false x1]> m1).
  assert (Ex2 : m2 !! e = Some (set_in_cache false x1)) by apply lookup_insert_eq. unfold lru_Unref. cbn [mem c_set_usage c_set_mem c_set]. unfold handle at 1. rewrite Ex2. cbn [demand mbind outcome_bind refs set_in_cache in_cache].
  rewrite Erefs1. destruct (Z.leb_spec (a_held y + 1) 0); [lia|]. replace (a_held y + 1 - 1) with (a_held y) by lia. destruct (update_refs m2 e _ (a_held y) Ex2) as (-> & Hlinks & Hhash & Hpl). cbn [mbind outcome_bind]. set (m3 := <[e := _]> m2) in *.
  cbn [andb].
  (* the table, which does not have [e] any more *)
  assert (Hnt : e ∉ tl) by (rewrite Htl in Hnd; by apply NoDup_cons in Hnd as [? _]).
  assert (Hcat : without e (a_lru a) ++ without e (a_used a) ≡ₚ tl) by (rewrite <- without_app; fold (a_cached a); rewrite (without_perm e _ _ Htl), without_cons by done; done).
  destruct (sm_table _ _ _ S) as (bs & K & Hb).
  assert (Hlinks2 : forall p, next m3 p = next m1 p /\ prev m3 p = prev m1 p).
  { intros p. destruct (Hlinks p) as [-> ->]. by apply (links_insert m1 e x1). }
  assert (K3 : table_ok (table_ c) m3 bs).
  { apply (table_frame _ (mem c)); [done|]. intros q Hq. rewrite Hhash. unfold m2. rewrite Hb in Hq. rewrite lookup_insert_ne by (intros ->; done). by apply bodies_hashed. }
  assert (R3 : two_rings m3 lru_ (without e (a_lru a)) in_use_ (without e (a_used a))) by (apply (two_rings_frame m1); [done|]; intros p _; apply Hlinks2).
  assert (Hin3 : forall p, p ∈ without e (a_lru a) ++ without e (a_used a) <-> p ∈ a_cached a /\ p <> e) by (intros p; rewrite <- without_app; apply elem_without).
  assert (Hpl3 : forall p, p <> e -> plain <$> m3 !! p = plain <$> mem c !! p) by (intros p Hp; rewrite Hpl by done; unfold m2; rewrite lookup_insert_ne by done; by apply bodies_plain).
  assert (Hk3 : forall p, is_Some (a_live a !! p) -> keyed m3 p).
  { intros p Hs. destruct (sm_heads _ _ _ S p Hs) as (Hp1 & Hp2 & _). destruct (Hk1 p Hp1 Hp2 (sm_keyed _ _ _ S p Hs)) as (q & En & Hn). exists q. by rewrite (proj1 (Hlinks2 p)). }
  assert (Hl3 : forall p, p <> e -> p ∈ without e (a_lru a) <-> p ∈ a_lru a) by (intros p Hp; rewrite elem_without; tauto).
  assert (Hu3 : u64 (usage_ c - charge x) = u64 (charges (charge_of a) (without e (a_lru a) ++ without e (a_used a)))).
  { rewrite (sm_usage _ _ _ S), u64_sub_l. f_equal. unfold a_usage. rewrite (charges_perm _ _ _ Htl), (charges_perm _ _ _ Hcat). cbn [charges foldr]. unfold charge_of at 1. rewrite Ey, Echg. unfold charges. lia. }
  destruct (Z.eqb_spec (a_held y) 0) as [E0|E0].
  - rewrite (keyed_key m3 e (set_refs (a_held y) (set_in_cache false x1))); [|by apply Hk3; eexists|unfold m3; by rewrite lookup_insert_eq]. cbn [mbind outcome_bind].
    eexists. split; [done|]. change (key_data (set_refs (a_held y) (set_in_cache false x1))) with (key_data x1). change (deleter (set_in_cache false x1)) with (deleter x1). change (lh_value (set_in_cache false x1)) with (lh_value x1).
    rewrite Ek1, Ed1, Ev1. apply (sim_gone c a tl e y m3 (table_ c) _ _ _ bs); [done|done|done|done|done|by rewrite Hb, Hcat|done|by intros p Hs _; apply Hk3|done|exact Hu3].
  - eexists. split; [done|]. apply (sim_out c a tl e y m3 (table_ c) _ _ _ bs); [done|done|done|done|done|done|by rewrite Hb, Hcat|done| |done|done|exact Hu3].
    unfold m3. rewrite lookup_insert_eq. cbn [fmap option_fmap option_map]. f_equal. change (set_refs (a_held y) (set_in_cache false (plain x1)) = plain_of false y). rewrite Epl1. unfold plain_of. cbn. by rewrite Z.add_0_r.
Qed.

(** ** The operations *)

(** A change of the hash table. *)
Lemma sim_retable c a tl t m' bs tl' : sim_table c a tl -> same_core (mem c) m' -> table_ok t m' bs -> concat bs ≡ₚ tl' -> sim_table (c_set t m' c) a tl'.
Proof.
  intros S Hc K Hb. split; cbn [mem table_ usage_ capacity_ deleted c_set].
  - apply (two_rings_frame (mem c)); [apply (sm_rings _ _ _ S)|]. intros p _. by apply same_core_links.
  - apply (sm_heads _ _ _ S).
  - by exists bs.
  - intros p H1 H2. rewrite (cores_plain _ _ Hc). by apply (sm_entries _ _ _ S).
  - apply (sm_cached _ _ _ S).
  - apply (sm_held _ _ _ S).
  - intros p Hs. destruct (sm_keyed _ _ _ S p Hs) as (n & En & Hn). exists n. by rewrite (proj1 (same_core_links _ _ p Hc)).
  - apply (sm_usage _ _ _ S).
  - apply (sm_capacity _ _ _ S).
  - apply (sm_deleted _ _ _ S).
Qed.

(** Room for one handle more on every entry, and for one entry more. *)
Definition roomy a : Prop := (forall p y, a_live a !! p = Some y -> a_held y < 2 ^ 32 - 3) /\ zlen (a_cached a) < 2 ^ 31.

Lemma lru_Lookup_spec c a key hash : sim c a -> roomy a -> exists c', lru_Lookup key hash c = Done ((a_lookup key hash a).1, c') /\ sim c' (a_lookup key hash a).2.
Proof.
  intros S [Hroom _]. destruct (sm_table _ _ _ S) as (bs & K & Hb). pose proof (table_keyed c a _ bs S Hb ltac:(done)) as Hk. unfold lru_Lookup, a_lookup.
  destruct (ht_Lookup_spec (table_ c) (mem c) bs key hash K Hk) as (p & -> & Hcase). cbn [mbind outcome_bind]. destruct Hcase as [[-> Hno]|[Hin M]].
  - rewrite Z.eqb_refl, (find_absent c a bs key hash S Hb Hno). by exists c.
  - rewrite (find_unique c a bs key hash S K Hb p Hin M). rewrite Hb in Hin. destruct (sm_cached _ _ _ S p Hin) as [y Ey]. destruct (sm_heads _ _ _ S p ltac:(by eexists)) as (_ & _ & H0).
    destruct (Z.eqb_spec p 0); [done|]. destruct (Ref_spec c a p y S Ey Hin (Hroom p y Ey)) as (c' & -> & S'). cbn [mbind outcome_bind fst snd]. by exists c'.
Qed.

Lemma lru_Erase_spec c a key hash : sim c a -> zlen (a_cached a) <= 2 ^ 31 ->
  exists c', lru_Erase key hash c = Done (bool_decide (a_find key hash a <> None), c') /\ sim c' (a_erase key hash a).
Proof.
  intros S Hroom. destruct (sm_table _ _ _ S) as (bs & K & Hb). pose proof (table_keyed c a _ bs S Hb ltac:(done)) as Hk. unfold lru_Erase, a_erase.
  destruct (ht_Remove_spec (table_ c) (mem c) bs key hash K Hk) as (p & t & m & bs' & -> & Hcore & K' & Hcase); [by rewrite Hb|]. cbn [mbind outcome_bind]. destruct Hcase as [(-> & Hsame & Hno)|[Hperm M]].
  - rewrite (find_absent c a bs key hash S Hb Hno). unfold FinishErase. rewrite Z.eqb_refl. eexists. split; [done|]. apply (sim_retable c a (a_cached a) t m bs'); [done|done|done|]. by rewrite Hsame.
  - rewrite (find_unique c a bs key hash S K Hb p); [|rewrite Hperm; apply list_elem_of_here|done].
    assert (S' : sim_table (c_set t m c) a (concat bs')) by by apply (sim_retable c a (a_cached a) t m bs').
    destruct (FinishErase_spec _ a p (concat bs') S') as (c' & -> & S''); [by rewrite <- Hb|]. by exists c'.
Qed.

Lemma without_length e l : (length (without e l) <= length l)%nat.
Proof. unfold without. apply length_filter. Qed.

Lemma uncache_lists p a : a_lru (a_uncache p a) = without p (a_lru a) /\ a_used (a_uncache p a) = without p (a_used a) /\ a_capacity (a_uncache p a) = a_capacity a.
Proof. unfold a_uncache, a_collect. destruct (a_live a !! p) as [y|]; [|done]. by destruct (a_held y =? 0). Qed.

Lemma uncache_small p a : zlen (a_cached (a_uncache p a)) <= zlen (a_cached a).
Proof. unfold a_cached. destruct (uncache_lists p a) as (-> & -> & _). rewrite <- without_app. pose proof (without_length p (a_lru a ++ a_used a)). lia. Qed.

Lemma evict_oldest_spec c a p l : sim c a -> a_lru a = p :: l -> zlen (a_cached a) <= 2 ^ 31 -> exists c', evict_oldest c = Done c' /\ sim c' (a_uncache p a).
Proof.
  intros S El Hroom. assert (Hin : p ∈ a_cached a) by (unfold a_cached; rewrite El; apply list_elem_of_here). destruct (sm_cached _ _ _ S p Hin) as [y Ey].
  destruct (live_entry c a _ p y S Ey) as (x & Ex & Epl). rewrite bool_decide_true in Epl by done. pose proof (plain_fields _ _ _ Epl) as (_ & _ & _ & Ek & _ & Erefs & Eh).
  destruct (sm_held _ _ _ S p y Ey) as [_ Hl]. assert (E0 : a_held y = 0) by (apply Hl; rewrite El; apply list_elem_of_here).
  destruct (sm_rings _ _ _ S) as ([_ Hs] & _ & _). rewrite El in Hs. cbn [seg] in Hs. destruct Hs as (Hn & _ & _). unfold evict_oldest.
  destruct (handle_next (mem c) lru_ p Hn) as (h & -> & Eh'). cbn [mbind outcome_bind]. rewrite Eh'. unfold handle at 1. rewrite Ex. cbn [demand mbind outcome_bind]. rewrite Erefs, E0. cbn [Z.add Z.eqb negb].
  rewrite (keyed_key (mem c) p x); [|apply (sm_keyed _ _ _ S); by eexists|done]. cbn [mbind outcome_bind]. rewrite Ek, Eh.
  assert (Ef : a_find (a_key y) (a_hash y) a = Some p).
  { destruct (sm_table _ _ _ S) as (bs & K & Hb). apply (find_unique c a bs _ _ S K Hb); [by rewrite Hb|]. exists x. by split_and!. }
  destruct (lru_Erase_spec c a (a_key y) (a_hash y) S Hroom) as (c' & E & S'). rewrite E, Ef. cbn [mbind outcome_bind]. rewrite bool_decide_true by done. unfold a_erase in S'. rewrite Ef in S'. by exists c'.
Qed.

Lemma evict_loop_spec more amore : (forall c a, sim c a -> more c = amore a) -> forall l fuel c a, sim c a -> a_lru a = l -> (length l < fuel)%nat -> zlen (a_cached a) <= 2 ^ 31 ->
  exists c', evict_loop fuel more c = Done c' /\ sim c' (a_evict l amore a).
Proof.
  intros Hmore. induction l as [|p l IH]; intros fuel c a S El Hf Hroom; (destruct fuel as [|fuel]; [lia|]); cbn [evict_loop a_evict]; destruct (sm_rings _ _ _ S) as ([Hnd Hs] & _ & _); rewrite El in Hs, Hnd; cbn [seg] in Hs.
  - destruct Hs as [Hn _]. destruct (handle_next (mem c) lru_ lru_ Hn) as (h & -> & Eh). cbn [mbind outcome_bind]. rewrite Eh, Z.eqb_refl. cbn [negb]. rewrite andb_false_r. by exists c.
  - destruct Hs as (Hn & _ & _). destruct (handle_next (mem c) lru_ p Hn) as (h & -> & Eh). cbn [mbind outcome_bind]. rewrite Eh. apply NoDup_cons in Hnd as [Hp Hnd].
    destruct (Z.eqb_spec p lru_) as [->|_]; [exfalso; apply Hp, list_elem_of_here|]. cbn [negb]. rewrite andb_true_r, (Hmore c a S). destruct (amore a); [|by exists c].
    destruct (evict_oldest_spec c a p l S El Hroom) as (c1 & -> & S1). cbn [mbind outcome_bind]. apply (IH fuel c1); [done| |cbn in Hf; lia|pose proof (uncache_small p a); lia].
    destruct (uncache_lists p a) as (-> & _ & _). rewrite El. apply NoDup_cons in Hnd as [Hnp _]. by apply without_cons.
Qed.

Lemma over_spec c a : sim c a -> (capacity_ c <? usage_ c) = a_over a.
Proof. intros S. unfold a_over. by rewrite (sm_capacity _ _ _ S), (sm_usage _ _ _ S). Qed.

(** The fuel of the loops is enough. *)
Lemma lru_fuel c a : sim c a -> (length (a_lru a) < S (size (mem c)))%nat.
Proof.
  intros S. apply Nat.lt_succ_r. apply nodup_size; [destruct (sm_rings _ _ _ S) as ([Hnd _] & _ & _); by apply NoDup_cons in Hnd as [_ ?]|].
  intros q Hq. assert (Hc : q ∈ a_cached a) by (apply elem_of_app; by left). destruct (sm_cached _ _ _ S q Hc) as [y Ey]. destruct (live_entry c a _ q y S Ey) as (x & Ex & _). by eexists.
Qed.

Lemma lru_Prune_spec c a : sim c a -> zlen (a_cached a) <= 2 ^ 31 -> exists c', lru_Prune c = Done c' /\ sim c' (a_prune a).
Proof. intros S Hr. exact (evict_loop_spec (fun _ => true) (fun _ => true) (fun _ _ _ => eq_refl) (a_lru a) _ c a S eq_refl (lru_fuel c a S) Hr). Qed.

(** ** New entries *)

Lemma sim_add c a e y m' u used' (b : bool) : sim c a -> a_live a !! e = None -> e <> 0 -> e <> lru_ -> e <> in_use_ -> two_rings m' lru_ (a_lru a) in_use_ used' ->
  (forall p, p ∈ used' <-> p ∈ a_used a \/ b = true /\ p = e) -> (forall p, p <> e -> plain <$> m' !! p = plain <$> mem c !! p) -> plain <$> m' !! e = Some (plain_of b y) -> a_held y = 1 ->
  (forall q, q <> e -> hashed <$> m' !! q = hashed <$> mem c !! q) -> (forall p, is_Some (a_live a !! p) \/ p = e -> keyed m' p) ->
  u = u64 (a_usage a + if b then a_charge y else 0) -> (b = true -> a_lru a ++ used' ≡ₚ e :: a_cached a) -> (b = false -> used' = a_used a) ->
  sim_table (MkLRUCache (capacity_ c) u (table_ c) m' (deleted c)) (MkACache (a_capacity a) (a_lru a) used' (<[e := y]> (a_live a)) (a_deleted a)) (a_cached a).
Proof.
  intros S Ee H0 H1 H2 R Hused Hpl He Hheld Hh Hk Hu Hperm Hsame. assert (Hnew : e ∉ a_cached a) by (intros H; destruct (sm_cached _ _ _ S e H); congruence).
  assert (Hin : forall p, p <> e -> p ∈ a_lru a ++ used' <-> p ∈ a_cached a) by (intros p Hp; unfold a_cached; rewrite !elem_of_app, Hused; tauto).
  assert (Hine : e ∈ a_lru a ++ used' <-> b = true) by (unfold a_cached in Hnew; rewrite elem_of_app in Hnew |- *; rewrite Hused; tauto).
  split; cbn [mem table_ usage_ capacity_ deleted a_lru a_used a_live a_deleted a_capacity]; unfold a_cached; cbn [a_lru a_used].
  - done.
  - intros p Hs. destruct (decide (p = e)) as [->|Hne]; [done|]. rewrite lookup_insert_ne in Hs by done. by apply (sm_heads _ _ _ S).
  - destruct (sm_table _ _ _ S) as (bs & K & Hb). exists bs. split; [|done]. apply (table_frame _ (mem c)); [done|]. intros q Hq. apply Hh. rewrite Hb in Hq. intros ->. done.
  - intros p Hp1 Hp2. destruct (decide (p = e)) as [->|Hne].
    + rewrite lookup_insert_eq, He. cbn. do 2 f_equal. destruct b; [by rewrite bool_decide_true by tauto|]. rewrite bool_decide_false; [done|]. rewrite Hine. done.
    + rewrite lookup_insert_ne by done. rewrite Hpl by done. rewrite (sm_entries _ _ _ S p Hp1 Hp2). f_equal. f_equal. apply bool_decide_ext. symmetry. by apply Hin.
  - intros p Hp. destruct (decide (p = e)) as [->|Hne]; [rewrite lookup_insert_eq; by eexists|]. rewrite lookup_insert_ne by done. apply (sm_cached _ _ _ S). by apply Hin.
  - intros p z Ez. destruct (decide (p = e)) as [->|Hne].
    + rewrite lookup_insert_eq in Ez. injection Ez as <-. rewrite Hheld. split; [lia|]. split; [|lia]. intros Hl. exfalso. apply Hnew, elem_of_app. by left.
    + rewrite lookup_insert_ne in Ez by done. by apply (sm_held _ _ _ S).
  - intros p Hs. apply Hk. destruct (decide (p = e)) as [->|Hne]; [by right|]. rewrite lookup_insert_ne in Hs by done. by left.
  - rewrite Hu. f_equal. assert (Hc : forall p, p <> e -> charge_of (MkACache (a_capacity a) (a_lru a) used' (<[e := y]> (a_live a)) (a_deleted a)) p = charge_of a p).
    { intros p Hp. unfold charge_of. cbn [a_live]. by rewrite lookup_insert_ne. }
    set (a1 := MkACache (a_capacity a) (a_lru a) used' (<[e := y]> (a_live a)) (a_deleted a)) in *.
    assert (Hc2 : charges (charge_of a1) (a_cached a) = charges (charge_of a) (a_cached a)) by (apply charges_ext; intros p Hp; apply Hc; intros ->; done).
    unfold a_usage. change (a_cached a1) with (a_lru a ++ used'). destruct b.
    + rewrite (charges_perm _ _ _ (Hperm eq_refl)). change (charges (charge_of a1) (e :: a_cached a)) with (charge_of a1 e + charges (charge_of a1) (a_cached a)). rewrite Hc2.
      assert (charge_of a1 e = a_charge y) by (unfold charge_of, a1; cbn [a_live]; by rewrite lookup_insert_eq). lia.
    + rewrite (Hsame eq_refl). fold (a_cached a). lia.
  - apply (sm_capacity _ _ _ S).
  - apply (sm_deleted _ _ _ S).
Qed.

Lemma plain_same_but (m m' : gmap Z (LRUHandle V)) e x : same_bodies (<[e := x]> m) m' -> forall p, p <> e -> plain <$> m' !! p = plain <$> m !! p.
Proof. intros B p Hp. rewrite (bodies_plain _ _ B). by rewrite lookup_insert_ne. Qed.

Lemma lru_Insert_spec c a e key hash value chg del : sim c a -> roomy a -> a_live a !! e = None -> e <> 0 -> e <> lru_ -> e <> in_use_ ->
  exists c', lru_Insert e key hash value chg del c = Done (e, c') /\ sim c' (a_insert e key hash value chg del a).
Proof.
  intros S [Hroom Hsz] Ee H0 H1 H2. assert (Hnew : e ∉ a_cached a) by (intros H; destruct (sm_cached _ _ _ S e H); congruence).
  assert (Em : mem c !! e = None). { pose proof (sm_entries _ _ _ S e H1 H2) as H. rewrite Ee in H. by destruct (mem c !! e). }
  unfold lru_Insert, a_insert. rewrite (sm_capacity _ _ _ S). cbv zeta. set (y := MkEntry key hash value chg del 1). set (x := MkLRU (Some value) del 0 0 0 chg key false 1 hash).
  (* the loop at the end *)
  assert (Hend : forall c1 a1, sim c1 a1 -> zlen (a_cached a1) <= 2 ^ 31 ->
    exists c', (c ← Done c1; c ← evict_loop (Datatypes.S (size (mem c))) (fun c => capacity_ c <? usage_ c) c; Done (e, c)) = Done (e, c') /\ sim c' (a_evict (a_lru a1) a_over a1)).
  { intros c1 a1 S1 Hs1. cbn [mbind outcome_bind]. destruct (evict_loop_spec _ a_over over_spec (a_lru a1) _ c1 a1 S1 eq_refl (lru_fuel c1 a1 S1) Hs1) as (c' & -> & S'). by exists c'. }
  pose proof (sm_rings _ _ _ S) as R. assert (Hrings : forall x', two_rings (<[e := x']> (mem c)) lru_ (a_lru a) in_use_ (a_used a)).
  { intros x'. apply (two_rings_frame (mem c)); [done|]. intros p Hp. assert (p <> e) by (intros ->; rewrite !elem_of_cons in Hp; unfold a_cached in Hnew; tauto). unfold next, prev. by rewrite lookup_insert_ne. }
  destruct (Z.ltb_spec 0 (a_capacity a)) as [Hcap|Hcap].
  - set (x0 := set_in_cache true (set_refs 2 x)). destruct (attach (<[e := x0]> (mem c)) in_use_ (a_used a) lru_ (a_lru a) e (two_rings_sym _ _ _ _ _ (Hrings x0))) as (m1 & -> & B1 & R1 & F1).
    { rewrite lookup_insert_eq. by eexists. } { rewrite !elem_of_cons, elem_of_app. unfold a_cached in Hnew. rewrite elem_of_app in Hnew. tauto. }
    apply two_rings_sym in R1. cbn [mbind outcome_bind]. set (a1 := MkACache (a_capacity a) (a_lru a) (a_used a ++ [e]) (<[e := y]> (a_live a)) (a_deleted a)).
    assert (Hcat : a_cached a1 ≡ₚ e :: a_cached a) by (unfold a_cached; cbn; rewrite app_assoc, Permutation_app_comm; done).
    destruct (same_bodies_some _ m1 e x0 B1 (lookup_insert_eq _ _ _)) as (x1 & Ex1 & Bx1). pose proof (body_plain _ _ Bx1) as Epl1. change (plain x0) with (plain_of true y) in Epl1.
    assert (Hke : keyed m1 e) by (destruct R1 as (_ & R1 & _); apply (ring_next m1 in_use_ (a_used a ++ [e])); [done|]; apply elem_of_app; right; apply list_elem_of_here).
    assert (S1 : sim_table (MkLRUCache (capacity_ c) (u64 (usage_ c + chg)) (table_ c) m1 (deleted c)) a1 (a_cached a)).
    { apply (sim_add c a e y m1 _ (a_used a ++ [e]) true); try done.
      - intros p. rewrite elem_of_app, list_elem_of_singleton. tauto.
      - by apply (plain_same_but _ _ _ x0).
      - by rewrite Ex1, <- Epl1.
      - intros q Hq. rewrite (bodies_hashed _ _ q B1). by rewrite lookup_insert_ne.
      - intros p [Hs| ->]; [|done]. destruct (decide (p = e)) as [->|Hne]; [done|]. destruct (sm_heads _ _ _ S p Hs) as (Hp1 & Hp2 & _).
        apply (keyed_rings (mem c) m1 lru_ (a_lru a) in_use_ (a_used a ++ [e]) p R1); [|by apply (sm_keyed _ _ _ S)]. intros Hp. rewrite F1; [unfold next; by rewrite lookup_insert_ne|].
        rewrite elem_of_cons. rewrite elem_of_app in Hp. tauto.
      - by rewrite (sm_usage _ _ _ S), u64_add_l. }
    destruct (sm_table _ _ _ S1) as (bs & K & Hb). cbn [mem table_] in K.
    destruct (ht_Insert_spec (table_ c) m1 bs e x1 K) as (p & t & m2 & bs' & Ei & Hcore & K2 & Hcase).
    + apply (table_keyed _ a1 _ bs S1 Hb). intros p Hp. rewrite Hcat. by apply list_elem_of_further.
    + done.
    + by rewrite Hb.
    + done.
    + done.
    + by rewrite Hb.
    + apply plain_fields in Epl1 as (_ & _ & _ & Ekx & _ & _ & Ehx). cbn [a_key a_hash y] in Ekx, Ehx. rewrite Ekx, Ehx in Hcase.
      change (table_ (c_set_usage (u64 (usage_ c + chg)) c)) with (table_ c). rewrite Ei. cbn [mbind outcome_bind].
      assert (Hmm : forall q, q ∈ concat bs -> matches m1 key hash q <-> matches (mem c) key hash q).
      { intros q Hq. assert (q <> e) by (intros ->; rewrite Hb in Hq; done). pose proof (bodies_hashed _ _ q B1) as Hq'. rewrite lookup_insert_ne in Hq' by done. unfold matches.
        destruct (m1 !! q) as [z1|], (mem c !! q) as [z|]; try done. injection Hq' as _ E1 E2.
        split; intros (z' & Ez & ? & ?); apply Some_inj in Ez; subst z'; eexists; split_and!; [done|congruence|congruence|done|congruence|congruence]. }
      destruct (sm_table _ _ _ S) as (bs0 & K0 & Hb0). destruct Hcase as [(-> & Hp & Hno)|(rest & Hp1 & Hp2 & M)].
      * rewrite (find_absent c a bs key hash S Hb) by (intros q Hq; rewrite <- (Hmm q Hq); by apply Hno). unfold FinishErase. rewrite Z.eqb_refl. cbn [mbind outcome_bind].
        apply Hend; [|rewrite Hcat; cbn [length]; lia]. apply (sim_retable _ a1 (a_cached a) t m2 bs' (a_cached a1) S1); [done|done|]. by rewrite Hp, Hb, Hcat.
      * assert (Hin : p ∈ concat bs) by (rewrite Hp1; apply list_elem_of_here). rewrite (find_unique c a bs0 key hash S K0 Hb0 p); [|by rewrite Hb0, <- Hb|by apply Hmm].
        assert (S2 : sim_table (c_set t m2 (MkLRUCache (capacity_ c) (u64 (usage_ c + chg)) (table_ c) m1 (deleted c))) a1 (e :: rest)) by by apply (sim_retable _ a1 (a_cached a) t m2 bs').
        destruct (FinishErase_spec _ a1 p (e :: rest) S2) as (c2 & E2 & S3); [rewrite Hcat, <- Hb, Hp1; apply perm_swap|]. change (c_set t m2 (c_set_usage _ c)) with (c_set t m2 (MkLRUCache (capacity_ c) (u64 (usage_ c + chg)) (table_ c) m1 (deleted c))).
        rewrite E2. cbn [mbind outcome_bind]. apply Hend; [done|]. pose proof (uncache_small p a1) as Hsm. rewrite Hcat in Hsm. cbn [length] in Hsm. lia.
  - apply Hend; [|unfold a_cached; cbn; fold (a_cached a); lia].
    apply (sim_add c a e y _ _ (a_used a) false S Ee H0 H1 H2); try done.
    + intros p. split; [by left|]. intros [?|[? _]]; done.
    + intros p Hp. by rewrite lookup_insert_ne.
    + by rewrite lookup_insert_eq.
    + intros q Hq. by rewrite lookup_insert_ne.
    + intros p Hs. destruct (decide (p = e)) as [->|Hne]; [exists 0; unfold next; rewrite lookup_insert_eq; done|]. destruct Hs as [Hs|?]; [|done].
      destruct (sm_keyed _ _ _ S p Hs) as (n & En & Hn). exists n. unfold next. by rewrite lookup_insert_ne.
    + rewrite Z.add_0_r. apply (sm_usage _ _ _ S).
Qed.
End Ops.
