(* ===== verification/LdbCacheTrace.v ===== *)
(** * LdbCacheTrace: sequences of calls of a shard of the cache.

    Clients call the operations in any order.  They insert at addresses that
    [malloc] gives, which are not in use, and release only handles they hold. *)

From Stdlib Require Import ZifyBool.
From stdpp Require Import base tactics numbers list gmap strings.
From S2P Require Import Prelude LdbBloom LdbCache LdbCacheRing LdbCacheTable LdbCacheSpec LdbCacheOps.
Open Scope Z_scope.

Section Trace.
Context {V : Type}.
Implicit Types (c : LRUCache V) (a : acache V).

Inductive cache_op : Type :=
  | OpInsert (e : Z) (key : list Z) (hash : Z) (value : V) (chg del : Z)
  | OpLookup (key : list Z) (hash : Z)
  | OpRelease (p : Z)
  | OpErase (key : list Z) (hash : Z)
  | OpPrune.
Implicit Types (o : cache_op) (ops : list cache_op).

(** A call, with the handle it returns, or 0. *)
Definition cache_step (o : cache_op) (c : LRUCache V) : outcome (Z * LRUCache V) :=
  match o with
  | OpInsert e key hash value chg del => lru_Insert e key hash value chg del c
  | OpLookup key hash => lru_Lookup key hash c
  | OpRelease p => c ← lru_Release p c; Done (0, c)
  | OpErase key hash => r ← lru_Erase key hash c; Done (0, r.2)
  | OpPrune => c ← lru_Prune c; Done (0, c)
  end.

Fixpoint cache_run (ops : list cache_op) (c : LRUCache V) : outcome (list Z * LRUCache V) :=
  match ops with
  | [] => Done ([], c)
  | o :: ops => r ← cache_step o c; rs ← cache_run ops r.2; Done (r.1 :: rs.1, rs.2)
  end.

Definition a_step (o : cache_op) (a : acache V) : Z * acache V :=
  match o with
  | OpInsert e key hash value chg del => (e, a_insert e key hash value chg del a)
  | OpLookup key hash => a_lookup key hash a
  | OpRelease p => (0, a_release p a)
  | OpErase key hash => (0, a_erase key hash a)
  | OpPrune => (0, a_prune a)
  end.

Fixpoint a_run (ops : list cache_op) (a : acache V) : list Z * acache V :=
  match ops with
  | [] => ([], a)
  | o :: ops => let r := a_step o a in let rs := a_run ops r.2 in (r.1 :: rs.1, rs.2)
  end.

(** The part of the client. *)
Definition legal (o : cache_op) (a : acache V) : bool :=
  match o with
  | OpInsert e _ _ _ _ _ => negb (e =? 0) && negb (e =? lru_) && negb (e =? in_use_) && match a_live a !! e with Some _ => false | None => true end
  | OpRelease p => match a_live a !! p with Some y => 0 <? a_held y | None => false end
  | _ => true
  end.

Fixpoint legal_run (ops : list cache_op) (a : acache V) : bool :=
  match ops with
  | [] => true
  | o :: ops => legal o a && legal_run ops (a_step o a).2
  end.

Definition a_new (capacity : Z) : acache V := MkACache capacity [] [] ∅ [].
Definition new_shard (capacity : Z) : outcome (LRUCache V) := c ← new_LRUCache; Done (SetCapacity capacity c).

(** ** A new shard *)

Lemma new_sim capacity : exists c, new_shard capacity = Done c /\ sim c (a_new capacity).
Proof.
  exists (MkLRUCache capacity 0 (MkTab 4 0 [0; 0; 0; 0]) (<[lru_ := list_head lru_]> (<[in_use_ := list_head in_use_]> ∅)) []). split; [reflexivity|]. split; cbn [mem table_ usage_ capacity_ deleted a_new a_lru a_used a_live a_deleted a_capacity]; try done.
  - split_and!; [split; [apply NoDup_singleton|by cbn]..|]. repeat constructor; set_solver.
  - intros p [y Hy]. done.
  - exists (replicate 4 []). split; [|done]. split; cbn; try done.
    + by exists 2.
    + repeat constructor.
    + constructor.
    + intros j b q x Eb Hq. change (replicate 4 [] !! j = Some b) in Eb. apply lookup_replicate in Eb as [-> _]. by apply elem_of_nil in Hq.
    + intros q q' key hash Hq. by apply elem_of_nil in Hq.
  - intros p H1 H2. by rewrite !lookup_insert_ne by done.
  - intros p Hp. by apply elem_of_nil in Hp.
  - intros p [y Hy]. done.
Qed.
(** ** Evictions keep what leaving the cache keeps *)

Lemma evict_inv (P : acache V -> Prop) more : (forall p a, P a -> P (a_uncache p a)) -> forall l a, P a -> P (a_evict l more a).
Proof. intros Hu l. induction l as [|p l IH]; intros a Ha; [done|]. cbn [a_evict]. destruct (more a); [|done]. by apply IH, Hu. Qed.

Lemma uncache_live p a q y : a_live (a_uncache p a) !! q = Some y -> a_live a !! q = Some y.
Proof.
  unfold a_uncache, a_collect. destruct (a_live a !! p) as [z|]; [|done]. destruct (a_held z =? 0); [|done]. cbn [a_live]. intros E. apply lookup_delete_Some in E as [_ E]. done.
Qed.
Lemma uncache_cached p a : a_cached (a_uncache p a) = without p (a_cached a).
Proof. unfold a_cached. destruct (uncache_lists p a) as (-> & -> & _). by rewrite <- without_app. Qed.

(** ** The counters do not overflow *)

(** After [n] calls. *)
Definition bounded (n : Z) a : Prop := (forall p y, a_live a !! p = Some y -> a_held y <= n) /\ zlen (a_cached a) <= n.

Lemma uncache_bounded n p a : bounded n a -> bounded n (a_uncache p a).
Proof. intros [H1 H2]. split; [|pose proof (uncache_small p a); lia]. intros q y E. by eapply H1, uncache_live. Qed.

Lemma rehold_bounded n a lru used e y k log : bounded n a -> k <= n -> zlen (lru ++ used) <= n -> bounded n (MkACache (a_capacity a) lru used (<[e := hold k y]> (a_live a)) log).
Proof.
  intros [H1 _] Hk Hl. split; [|done]. cbn [a_live]. intros q z E. destruct (decide (q = e)) as [->|Hne]; [rewrite lookup_insert_eq in E; by injection E as <-|]. rewrite lookup_insert_ne in E by done. by apply (H1 q).
Qed.

Lemma bounded_le n n' a : bounded n a -> n <= n' -> bounded n' a.
Proof. intros [H1 H2] Hn. split; [|lia]. intros p y E. specialize (H1 p y E). lia. Qed.

Lemma insert_bounded n e key hash value chg del a : 0 <= n -> bounded n a -> bounded (n + 1) (a_insert e key hash value chg del a).
Proof.
  intros Hn [H1 H2]. unfold a_insert. cbv zeta. apply evict_inv; [intros; by apply uncache_bounded|].
  assert (Hb : forall used, zlen (a_lru a ++ used) <= n + 1 -> bounded (n + 1) (MkACache (a_capacity a) (a_lru a) used (<[e := MkEntry key hash value chg del 1]> (a_live a)) (a_deleted a))).
  { intros used Hl. split; [|done]. cbn [a_live]. intros q z E. destruct (decide (q = e)) as [->|Hne]; [rewrite lookup_insert_eq in E; injection E as <-; cbn; lia|]. rewrite lookup_insert_ne in E by done. specialize (H1 q z E). lia. }
  destruct (0 <? a_capacity a); [|apply Hb; unfold a_cached in H2; lia]. destruct (a_find key hash a); [apply uncache_bounded|]; apply Hb; unfold a_cached in H2; rewrite !length_app in *; cbn; lia.
Qed.

Lemma step_bounded n o a : 0 <= n -> bounded n a -> bounded (n + 1) (a_step o a).2.
Proof.
  intros Hn B. assert (B' : bounded (n + 1) a) by (apply (bounded_le n); [done|lia]). pose proof B as [H1 H2]. unfold a_cached in H2. rewrite length_app in H2.
  destruct o as [e key hash value chg del|key hash|p|key hash|]; cbn [a_step snd].
  - by apply insert_bounded.
  - unfold a_lookup. destruct (a_find key hash a) as [p|]; cbn [snd]; [|done]. unfold a_hold. destruct (a_live a !! p) as [y|] eqn:Ey; [|done]. specialize (H1 p y Ey).
    apply rehold_bounded; [done|lia|]. pose proof (without_length p (a_lru a)). rewrite length_app. destruct (bool_decide _); rewrite ?length_app; cbn [length]; lia.
  - unfold a_release. destruct (a_live a !! p) as [y|] eqn:Ey; [|done]. specialize (H1 p y Ey). pose proof (without_length p (a_used a)). destruct (Z.eqb_spec (a_held y) 1); cbn [negb].
    + destruct (bool_decide _); [apply rehold_bounded; [done|lia|]; rewrite !length_app; cbn [length]; lia|]. destruct B' as [H1' H2']. split; [|done]. cbn [a_live a_collect]. intros q z E. apply lookup_delete_Some in E as [_ E]. by apply (H1' q).
    + apply rehold_bounded; [done|lia|]. rewrite length_app. lia.
  - unfold a_erase. destruct (a_find key hash a); [|done]. by apply uncache_bounded.
  - unfold a_prune. apply evict_inv; [intros; by apply uncache_bounded|done].
Qed.

Lemma run_bounded ops : forall n a, 0 <= n -> bounded n a -> bounded (n + zlen ops) (a_run ops a).2.
Proof.
  induction ops as [|o ops IH]; intros n a Hn B; [by rewrite Z.add_0_r|]. cbn [a_run snd length]. replace (n + Z.of_nat (S (length ops))) with (n + 1 + zlen ops) by lia. apply IH; [lia|by apply step_bounded].
Qed.

(** ** The runs *)

Lemma step_spec n o c a : sim c a -> legal o a = true -> bounded n a -> n < 2 ^ 31 -> exists c', cache_step o c = Done ((a_step o a).1, c') /\ sim c' (a_step o a).2.
Proof.
  intros S L [B1 B2] Hn. assert (Hr : roomy a) by (split; [intros p y E; specialize (B1 p y E); lia|lia]).
  destruct o as [e key hash value chg del|key hash|p|key hash|]; cbn [cache_step a_step fst snd legal] in *.
  - apply lru_Insert_spec; [done|done| |lia..]. destruct (a_live a !! e); [|done]. by rewrite andb_false_r in L.
  - by apply lru_Lookup_spec.
  - destruct (a_live a !! p) as [y|] eqn:Ey; [|done]. destruct (lru_Release_spec c a p y S Ey ltac:(lia)) as (c' & -> & S'). by exists c'.
  - destruct (lru_Erase_spec c a key hash S ltac:(lia)) as (c' & -> & S'). by exists c'.
  - destruct (lru_Prune_spec c a S ltac:(lia)) as (c' & -> & S'). by exists c'.
Qed.

Lemma run_spec ops : forall n c a, 0 <= n -> sim c a -> bounded n a -> n + zlen ops <= 2 ^ 31 -> legal_run ops a = true ->
  exists c', cache_run ops c = Done ((a_run ops a).1, c') /\ sim c' (a_run ops a).2.
Proof.
  induction ops as [|o ops IH]; intros n c a Hn S B Hl L; [by exists c|]. cbn [cache_run a_run legal_run fst snd length] in *. apply andb_true_iff in L as [L1 L2].
  destruct (step_spec n o c a S L1 B ltac:(lia)) as (c1 & -> & S1). cbn [mbind outcome_bind fst snd].
  destruct (IH (n + 1) c1 _ ltac:(lia) S1 (step_bounded n o a Hn B) ltac:(lia) L2) as (c2 & -> & S2). cbn [mbind outcome_bind fst snd]. by exists c2.
Qed.
End Trace.
Arguments cache_op V : clear implicits.

(** * What a shard of the cache guarantees over any sequence of calls.

    The entries in memory and those given to their deleters are the inserted
    ones, each once; a lookup gives the value inserted last; what fits is found;
    and the destructor frees what is left. *)


Section Theorems.
Context {V : Type}.
Implicit Types (c : LRUCache V) (a : acache V) (o : cache_op V) (ops : list (cache_op V)).

(** ** Every value is freed once *)

(** What a deleter is called with. *)
Abbreviation dead := (Z * list Z * option V)%type.
Definition dead_of (x : LRUHandle V) : dead := (deleter x, key_data x, lh_value x).
Definition a_dead (y : aentry V) : dead := (a_deleter y, a_key y, Some (a_value y)).

Definition inserted (o : cache_op V) : list dead :=
  match o with OpInsert e key hash value chg del => [(del, key, Some value)] | _ => [] end.

(** The entries in memory, without the heads of the rings. *)
Definition entries (c : LRUCache V) : gmap Z (LRUHandle V) := delete lru_ (delete in_use_ (mem c)).
Definition in_memory (c : LRUCache V) : list dead := dead_of <$> (map_to_list (entries c)).*2.

Definition a_owned a : list dead := a_deleted a ++ (map_to_list (a_dead <$> a_live a)).*2.

Lemma owned_insert (m : gmap Z dead) p d : m !! p = None -> (map_to_list (<[p := d]> m)).*2 ≡ₚ d :: (map_to_list m).*2.
Proof. intros E. by rewrite map_to_list_insert. Qed.

Lemma owned_delete (m : gmap Z dead) p d : m !! p = Some d -> (map_to_list m).*2 ≡ₚ d :: (map_to_list (delete p m)).*2.
Proof. intros E. rewrite <- (insert_delete_id m p d E) at 1. apply owned_insert, lookup_delete_eq. Qed.

Lemma owned_collect p y a lru used : a_live a !! p = Some y -> a_owned (a_collect p y (MkACache (a_capacity a) lru used (a_live a) (a_deleted a))) ≡ₚ a_owned a.
Proof.
  intros E. unfold a_owned, a_collect. cbn [a_deleted a_live]. rewrite fmap_delete. rewrite (owned_delete (a_dead <$> a_live a) p (a_dead y)) by by rewrite lookup_fmap, E. by rewrite <- app_assoc.
Qed.

Lemma owned_hold p y n a lru used : a_live a !! p = Some y -> a_owned (MkACache (a_capacity a) lru used (<[p := hold n y]> (a_live a)) (a_deleted a)) = a_owned a.
Proof. intros E. unfold a_owned. cbn [a_deleted a_live]. rewrite fmap_insert. change (a_dead (hold n y)) with (a_dead y). rewrite insert_id; [done|]. by rewrite lookup_fmap, E. Qed.

Lemma owned_uncache p a : a_owned (a_uncache p a) ≡ₚ a_owned a.
Proof. unfold a_uncache. destruct (a_live a !! p) as [y|] eqn:E; [|done]. destruct (a_held y =? 0); [by apply owned_collect|done]. Qed.

Lemma step_owned o a : legal o a = true -> a_owned (a_step o a).2 ≡ₚ a_owned a ++ inserted o.
Proof.
  intros L. destruct o as [e key hash value chg del|key hash|p|key hash|]; cbn [a_step inserted snd legal] in *; rewrite ?app_nil_r.
  - assert (En : a_live a !! e = None) by (destruct (a_live a !! e); [by rewrite andb_false_r in L|done]). unfold a_insert. cbv zeta.
    apply (evict_inv (fun b => a_owned b ≡ₚ a_owned a ++ _)); [intros q b <-; apply owned_uncache|].
    assert (Hadd : forall used, a_owned (MkACache (a_capacity a) (a_lru a) used (<[e := MkEntry key hash value chg del 1]> (a_live a)) (a_deleted a)) ≡ₚ a_owned a ++ [(del, key, Some value)]).
    { intros used. unfold a_owned. cbn [a_deleted a_live]. rewrite fmap_insert, owned_insert by by rewrite lookup_fmap, En. by rewrite <- app_assoc, <- Permutation_cons_append. }
    destruct (0 <? a_capacity a); [|done]. destruct (a_find key hash a); [by rewrite owned_uncache|done].
  - unfold a_lookup. destruct (a_find key hash a) as [p|]; [|done]. cbn [snd]. unfold a_hold. destruct (a_live a !! p) as [y|] eqn:E; [|done]. by rewrite owned_hold.
  - unfold a_release. destruct (a_live a !! p) as [y|] eqn:E; [|done]. destruct (negb _); [by rewrite owned_hold|]. destruct (bool_decide _); [by rewrite owned_hold|]. by destruct a; apply (owned_collect p y (MkACache _ _ _ _ _)).
  - unfold a_erase. destruct (a_find key hash a); [apply owned_uncache|done].
  - unfold a_prune. apply (evict_inv (fun b => a_owned b ≡ₚ a_owned a)); [intros q b <-; apply owned_uncache|done].
Qed.

Lemma run_owned ops : forall a, legal_run ops a = true -> a_owned (a_run ops a).2 ≡ₚ a_owned a ++ (ops ≫= inserted).
Proof.
  induction ops as [|o ops IH]; intros a L; cbn [a_run legal_run snd mbind list_bind] in *; [by rewrite app_nil_r|]. apply andb_true_iff in L as [L1 L2].
  rewrite (IH _ L2), (step_owned o a L1). by rewrite <- app_assoc.
Qed.

Lemma sim_memory c a : sim c a -> in_memory c = (map_to_list (a_dead <$> a_live a)).*2.
Proof.
  intros S. unfold in_memory. assert (E : dead_of <$> entries c = a_dead <$> a_live a).
  { apply map_eq. intros p. rewrite !lookup_fmap. unfold entries. destruct (decide (p = lru_)) as [->|H1]; [|destruct (decide (p = in_use_)) as [->|H2]].
    - rewrite lookup_delete_eq. destruct (a_live a !! lru_) eqn:E; [|done]. by destruct (sm_heads _ _ _ S lru_ ltac:(by eexists)).
    - rewrite lookup_delete_ne, lookup_delete_eq by done. destruct (a_live a !! in_use_) eqn:E; [|done]. by destruct (sm_heads _ _ _ S in_use_ ltac:(by eexists)) as (_ & ? & _).
    - rewrite !lookup_delete_ne by done. pose proof (sm_entries _ _ _ S p H1 H2) as E. destruct (mem c !! p) as [x|], (a_live a !! p) as [y|]; try done. apply Some_inj in E.
      apply plain_fields in E as (E1 & E2 & _ & E3 & _). cbn. unfold dead_of, a_dead. by rewrite E1, E2, E3. }
  rewrite <- E, map_to_list_fmap, <- !list_fmap_compose. apply list_fmap_ext. intros i [p x] _. done.
Qed.

(** ** The last value *)

(** The value the last insertion of a key gave, unless the key was erased after it. *)
Definition latest_step (key : list Z) (hash : Z) (last : option V) o : option V :=
  match o with
  | OpInsert e key' hash' value chg del => if bool_decide (key = key' /\ hash = hash') then Some value else last
  | OpErase key' hash' => if bool_decide (key = key' /\ hash = hash') then None else last
  | _ => last
  end.
Definition latest (key : list Z) (hash : Z) ops : option V := fold_left (latest_step key hash) ops None.

(** What is in the cache is the latest. *)
Definition up_to_date (last : list Z -> Z -> option V) a : Prop :=
  forall p y, p ∈ a_cached a -> a_live a !! p = Some y -> last (a_key y) (a_hash y) = Some (a_value y).
Definition one_per_key a : Prop := forall p q y z, p ∈ a_cached a -> q ∈ a_cached a -> a_live a !! p = Some y -> a_live a !! q = Some z -> a_key y = a_key z -> a_hash y = a_hash z -> p = q.

Lemma sim_one_per_key c a : sim c a -> one_per_key a.
Proof.
  intros S p q y z Hp Hq Ey Ez Hk Hh. destruct (sm_table _ _ _ S) as (bs & K & Hb). apply (tk_unique _ _ _ K p q (a_key y) (a_hash y)); [by rewrite Hb..| |].
  - apply (matches_is c a _ p _ _ S Hp). unfold a_is. rewrite Ey. by rewrite bool_decide_true.
  - apply (matches_is c a _ q _ _ S Hq). unfold a_is. rewrite Ez. by rewrite bool_decide_true.
Qed.

Lemma uncache_up_to_date last p a : up_to_date last a -> up_to_date last (a_uncache p a).
Proof. intros U q y Hq E. rewrite uncache_cached in Hq. apply elem_without in Hq as [Hq _]. apply (U q); [done|]. by apply uncache_live with p. Qed.

Lemma is_key a p y key hash : a_live a !! p = Some y -> a_is key hash a p = true <-> a_key y = key /\ a_hash y = hash.
Proof. intros E. unfold a_is. by rewrite E, bool_decide_eq_true. Qed.

Lemma find_key a key hash p y : one_per_key a -> p ∈ a_cached a -> a_live a !! p = Some y -> (forall q, q ∈ a_cached a -> is_Some (a_live a !! q)) -> a_key y = key /\ a_hash y = hash -> a_find key hash a = Some p.
Proof.
  intros One Hp Ey Hl Hk. destruct (a_find key hash a) as [q|] eqn:E.
  - apply find_some in E as [Hq Hi]. destruct (Hl q Hq) as [z Ez]. apply (is_key a q z) in Hi; [|done]. f_equal. apply (One q p z y); [done..| |]; destruct Hk, Hi; congruence.
  - exfalso. apply (find_none a key hash E p Hp). by apply (is_key a p y).
Qed.
(** Entries that change their ring or their number of handles. *)
Lemma hold_up_to_date last p y n a lru used : up_to_date last a -> a_live a !! p = Some y -> (forall q, q ∈ lru ++ used -> q ∈ a_cached a) -> up_to_date last (MkACache (a_capacity a) lru used (<[p := hold n y]> (a_live a)) (a_deleted a)).
Proof.
  intros U E Hin q z Hq Ez. apply Hin in Hq. cbn [a_live] in Ez. destruct (decide (q = p)) as [->|Hne]; [|rewrite lookup_insert_ne in Ez by done; by apply (U q)].
  rewrite lookup_insert_eq in Ez. injection Ez as <-. exact (U p y Hq E).
Qed.

Lemma insert_up_to_date last e key hash value chg del c a : sim c a -> (0 < a_capacity a \/ a_cached a = []) -> a_live a !! e = None -> up_to_date last a ->
  up_to_date (fun k h => latest_step k h (last k h) (OpInsert e key hash value chg del)) (a_insert e key hash value chg del a).
Proof.
  intros S Hcap En U. unfold a_insert. cbv zeta. apply evict_inv; [intros; by apply uncache_up_to_date|]. set (last' := fun k h => _).
  assert (Hold : forall p y, p ∈ a_cached a -> a_live a !! p = Some y -> a_find key hash a <> Some p -> last' (a_key y) (a_hash y) = Some (a_value y)).
  { intros p y Hp Ey Hf. unfold last'. cbn [latest_step]. rewrite bool_decide_false; [by apply (U p)|]. intros [<- <-]. apply Hf. apply (find_key a _ _ p y); [by apply (sim_one_per_key c)|done|done|apply (sm_cached _ _ _ S)|done]. }
  destruct (Z.ltb_spec 0 (a_capacity a)) as [_|Hc].
  - set (a1 := MkACache _ _ _ _ _). assert (H1 : forall p y, p ∈ a_cached a1 -> a_live a1 !! p = Some y -> a_find key hash a <> Some p -> last' (a_key y) (a_hash y) = Some (a_value y)).
    { intros p y Hp Ey Hf. unfold a1, a_cached in Hp. cbn [a_lru a_used] in Hp. rewrite app_assoc in Hp. apply elem_of_app in Hp. unfold a1 in Ey. cbn [a_live] in Ey. destruct (decide (p = e)) as [->|Hne].
      - rewrite lookup_insert_eq in Ey. injection Ey as <-. unfold last'. cbn. by rewrite bool_decide_true.
      - rewrite lookup_insert_ne in Ey by done. destruct Hp as [Hp|Hp]; [by apply (Hold p)|]. by apply list_elem_of_singleton in Hp. }
    destruct (a_find key hash a) as [old|] eqn:Ef; intros p y Hp Ey.
    + rewrite uncache_cached in Hp. apply elem_without in Hp as [Hp Hne]. apply (H1 p); [done|by apply uncache_live with old|]. intros [= ->]. done.
    + by apply (H1 p).
  - destruct Hcap as [?|Hnil]; [lia|]. intros p y Hp. change (p ∈ a_cached a) in Hp. rewrite Hnil in Hp. by apply elem_of_nil in Hp.
Qed.

Lemma step_up_to_date last o c a : sim c a -> (0 < a_capacity a \/ a_cached a = []) -> legal o a = true -> up_to_date last a -> up_to_date (fun k h => latest_step k h (last k h) o) (a_step o a).2.
Proof.
  intros S Hcap L U. destruct o as [e key hash value chg del|key hash|p|key hash|]; cbn [a_step snd legal] in *; [| | | |unfold a_prune; by apply evict_inv; [intros; by apply uncache_up_to_date|]].
  - apply (insert_up_to_date last e key hash value chg del c a); [done|done| |done]. destruct (a_live a !! e); [by rewrite andb_false_r in L|done].
  - cbn [latest_step]. unfold a_lookup. destruct (a_find key hash a) as [p|]; [|done]. cbn [snd]. unfold a_hold. destruct (a_live a !! p) as [y|] eqn:Ey; [|done]. apply hold_up_to_date; [done|done|].
    intros q Hq. apply elem_of_app in Hq as [Hq|Hq]; [apply elem_without in Hq as [Hq _]; apply elem_of_app; by left|]. destruct (bool_decide_reflect (p ∈ a_lru a)); [|apply elem_of_app; by right].
    apply elem_of_app in Hq as [Hq|Hq]; [apply elem_of_app; by right|]. apply list_elem_of_singleton in Hq as ->. apply elem_of_app. by left.
  - cbn [latest_step]. unfold a_release. destruct (a_live a !! p) as [y|] eqn:Ey; [|done]. destruct (negb _); [by apply hold_up_to_date|]. destruct (bool_decide_reflect (p ∈ a_used a)).
    + apply hold_up_to_date; [done|done|]. intros q Hq. unfold a_cached. rewrite !elem_of_app, elem_without, list_elem_of_singleton in *. destruct Hq as [[?| ->]|[? _]]; tauto.
    + intros q z Hq Ez. cbn [a_live a_collect] in Ez. apply lookup_delete_Some in Ez as [_ Ez]. by apply (U q).
  - intros q z Hq Ez. unfold a_erase in *. destruct (a_find key hash a) as [p|] eqn:Ef.
    + rewrite uncache_cached in Hq. apply elem_without in Hq as [Hq Hne]. apply uncache_live in Ez. cbn [latest_step]. rewrite bool_decide_false; [by apply (U q)|]. intros Hk. apply Hne.
      assert (Some q = Some p) as [= ->]; [|done]. rewrite <- Ef. symmetry. apply (find_key a _ _ q z); [by apply (sim_one_per_key c)|done|done|apply (sm_cached _ _ _ S)|done].
    + cbn [latest_step]. rewrite bool_decide_false; [by apply (U q)|]. intros Hk. apply (find_none a key hash Ef q Hq). by apply (is_key a q z).
Qed.

(** Only a cache with a capacity has entries. *)
Definition thin (capacity : Z) a : Prop := a_capacity a = capacity /\ (0 < capacity \/ a_cached a = []).

Lemma uncache_thin capacity p a : thin capacity a -> thin capacity (a_uncache p a).
Proof. intros [Hc Hn]. split; [by rewrite (proj2 (proj2 (uncache_lists p a)))|]. destruct Hn as [?|Hn]; [by left|]. right. by rewrite uncache_cached, Hn. Qed.

Lemma step_thin capacity o a : thin capacity a -> thin capacity (a_step o a).2.
Proof.
  intros T. pose proof T as [Hc Hn]. destruct o as [e key hash value chg del|key hash|p|key hash|]; cbn [a_step snd].
  - unfold a_insert. cbv zeta. apply evict_inv; [intros; by apply uncache_thin|]. rewrite Hc. destruct (Z.ltb_spec 0 capacity).
    + destruct (a_find key hash a); [apply uncache_thin|]; split; [done|by left|done|by left].
    + done.
  - unfold a_lookup. destruct (a_find key hash a) as [p|] eqn:E; [|done]. apply find_some in E as [E _]. destruct Hn as [Hn|Hn]; [|rewrite Hn in E; by apply elem_of_nil in E]. cbn [snd]. unfold a_hold. destruct (a_live a !! p); [|done]. split; [done|by left].
  - unfold a_release. destruct (a_live a !! p) as [y|]; [|done]. destruct (negb _); [done|]. destruct (bool_decide_reflect (p ∈ a_used a)) as [Hu|]; [|done]. split; [done|]. destruct Hn as [?|Hn]; [by left|].
    unfold a_cached in Hn. apply app_nil in Hn as [_ Hn]. rewrite Hn in Hu. by apply elem_of_nil in Hu.
  - unfold a_erase. destruct (a_find key hash a); [by apply uncache_thin|done].
  - unfold a_prune. apply evict_inv; [intros; by apply uncache_thin|done].
Qed.

Lemma run_up_to_date capacity ops : forall last n c a, 0 <= n -> sim c a -> bounded n a -> n + zlen ops <= 2 ^ 31 -> thin capacity a -> legal_run ops a = true -> up_to_date last a ->
  up_to_date (fun k h => fold_left (latest_step k h) ops (last k h)) (a_run ops a).2.
Proof.
  induction ops as [|o ops IH]; intros last n c a Hn S B Hl T L U; [done|]. cbn [a_run legal_run snd length fold_left] in *. apply andb_true_iff in L as [L1 L2].
  destruct (step_spec n o c a S L1 B ltac:(lia)) as (c1 & _ & S1). pose proof T as [Hc Ht]. rewrite <- Hc in Ht.
  exact (IH _ (n + 1) c1 _ ltac:(lia) S1 (step_bounded n o a Hn B) ltac:(lia) (step_thin _ _ _ T) L2 (step_up_to_date last o c a S Ht L1 U)).
Qed.

(** ** The destructor *)

Lemma destroy_spec c (live : gmap Z (aentry V)) l : forall fuel e m log, NoDup l -> lru_ ∉ l -> (length l < fuel)%nat -> e = hd lru_ l ->
  (forall i p, l !! i = Some p -> exists x y, m !! p = Some x /\ live !! p = Some y /\ plain x = plain_of true y /\ a_held y = 0 /\ lh_next x = hd lru_ (drop (S i) l) /\ lh_next x <> p) ->
  exists m', destroy_loop fuel e (MkLRUCache (capacity_ c) (usage_ c) (table_ c) m log) =
    Done (MkLRUCache (capacity_ c) (usage_ c) (table_ c) m' (log ++ omap (fun p => a_dead <$> live !! p) l)) /\ m' = foldl (fun m p => delete p m) m l.
Proof.
  induction l as [|p l IH]; intros fuel e m log Hnd Hl Hf -> Hx; (destruct fuel as [|fuel]; [cbn in Hf; lia|]); cbn [destroy_loop hd omap list_omap foldl].
  - rewrite Z.eqb_refl. eexists. split; [by rewrite app_nil_r|done].
  - destruct (Hx 0%nat p eq_refl) as (x & y & Ex & Ey & Epl & Eh & Hn & Hne). apply plain_fields in Epl as (Ev & Ed & _ & Ek & Eic & Erefs & _). rewrite Eh in Erefs. change (refs x = 1) in Erefs. apply not_elem_of_cons in Hl as [Hlp Hl]. apply NoDup_cons in Hnd as [Hp Hnd].
    destruct (Z.eqb_spec p lru_); [done|]. cbn [mem]. unfold handle at 1. rewrite Ex. cbn [demand mbind outcome_bind]. rewrite Eic. unfold lh_update at 1, handle at 1. rewrite Ex. cbn [demand mbind outcome_bind]. rewrite Erefs, Z.eqb_refl.
    unfold lru_Unref. cbn [mem c_set_mem c_set]. unfold handle at 1. rewrite lookup_insert_eq. cbn [demand mbind outcome_bind]. cbn [refs set_in_cache]. rewrite Erefs. change (1 <=? 0) with false. change (1 - 1 =? 0) with true. cbv iota.
    unfold lh_update at 1, handle at 1. rewrite lookup_insert_eq. cbn [demand mbind outcome_bind in_cache set_in_cache]. unfold lh_key, handle. rewrite lookup_insert_eq. cbn [demand mbind outcome_bind].
    cbn [lh_next set_refs set_in_cache key_data deleter lh_value]. destruct (Z.eqb_spec (lh_next x) p); [done|]. cbn [mbind outcome_bind capacity_ usage_ table_ deleted c_set_mem c_set].
    rewrite insert_insert_eq, delete_insert_eq.
    destruct (IH fuel (lh_next x) (delete p m) (log ++ [(deleter x, key_data x, lh_value x)]) Hnd Hl ltac:(cbn in Hf; lia) Hn) as (m' & E & Em).
    { intros i q Eq. destruct (Hx (S i) q Eq) as (x' & y' & Ex' & Hr). exists x', y'. split; [|done]. rewrite lookup_delete_ne; [done|]. intros ->. apply Hp. by apply list_elem_of_lookup_2 with i. }
    exists m'. split; [|done]. rewrite E. do 2 f_equal. rewrite <- app_assoc. f_equal. rewrite Ey. cbn. unfold a_dead. by rewrite Ed, Ek, Ev.
Qed.

Lemma sum_deleted (m : gmap Z dead) l : NoDup l -> (forall p, p ∈ l <-> is_Some (m !! p)) -> omap (fun p => m !! p) l ≡ₚ (map_to_list m).*2.
Proof.
  revert m. induction l as [|p l IH]; intros m Hnd Hin.
  - assert (m = ∅) as ->; [|by rewrite map_to_list_empty]. apply map_empty. intros p. destruct (m !! p) as [d|] eqn:E; [|done]. assert (p ∈ []) as H by (apply Hin; by eexists). by apply elem_of_nil in H.
  - apply NoDup_cons in Hnd as [Hp Hnd]. destruct (proj1 (Hin p) (list_elem_of_here _ _)) as [d Ed]. cbn. rewrite Ed. rewrite (owned_delete m p d Ed). f_equiv. rewrite <- (IH (delete p m) Hnd).
    + apply reflexive_eq, list_omap_ext, Forall2_same_length_lookup_2; [done|]. intros j q q' E1 E2. assert (q' = q) as -> by congruence. rewrite lookup_delete_ne; [done|]. intros ->. apply Hp. by apply list_elem_of_lookup_2 with j.
    + intros q. destruct (decide (q = p)) as [->|Hne].
      * rewrite lookup_delete_eq. split; [done|]. by intros [? ?].
      * rewrite lookup_delete_ne by done. rewrite <- Hin, elem_of_cons. tauto.
Qed.

Lemma deletes_none (l : list Z) p : forall m : gmap Z (LRUHandle V), p ∈ l \/ m !! p = None -> foldl (fun m p => delete p m) m l !! p = None.
Proof.
  induction l as [|q l IH]; intros m H; cbn [foldl]; [destruct H as [H|H]; [by apply elem_of_nil in H|done]|]. apply IH. rewrite elem_of_cons in H. destruct (decide (q = p)) as [->|]; [right; apply lookup_delete_eq|].
  rewrite lookup_delete_ne by done. destruct H as [[->|?]|?]; [done|by left|by right].
Qed.

(** Nobody holds a handle. *)
Definition all_released a : bool := bool_decide (map_Forall (fun _ y => a_held y = 0) (a_live a)).

Lemma seg_next_lookup (m : gmap Z (LRUHandle V)) l : forall h b i p, seg m h l b -> l !! i = Some p -> next m p = Some (hd b (drop (S i) l)).
Proof.
  induction l as [|q l IH]; intros h b i p Hs E; [done|]. cbn [seg] in Hs. destruct Hs as (_ & _ & Hs). destruct i as [|i]; cbn [lookup list_lookup drop] in *; [|by apply (IH q)]. injection E as ->.
  destruct l as [|r l]; cbn [seg] in Hs; by destruct Hs as [-> _].
Qed.

Lemma delete_spec c a : sim c a -> all_released a = true -> exists c', delete_LRUCache c = Done c' /\ deleted c' ≡ₚ a_owned a /\ entries c' = ∅.
Proof.
  intros S Hr. apply bool_decide_eq_true in Hr. destruct (cached_nodup _ _ _ S) as (Hnd & Hnl & Hnu).
  assert (Hlive : forall p, p ∈ a_lru a <-> is_Some (a_live a !! p)).
  { intros p. split; [intros H; apply (sm_cached _ _ _ S), elem_of_app; by left|]. intros [y Ey]. by apply (sm_held _ _ _ S p y Ey), (Hr p). }
  assert (Hu : a_used a = []).
  { destruct (a_used a) as [|p l] eqn:E; [done|]. assert (Hp : p ∈ a_used a) by (rewrite E; apply list_elem_of_here). exfalso. apply (in_lru_used c a _ p S); [|done]. apply Hlive, (sm_cached _ _ _ S), elem_of_app. by right. }
  assert (Hc : a_cached a = a_lru a) by (unfold a_cached; by rewrite Hu, app_nil_r). rewrite Hc in Hnd, Hnl. destruct (sm_rings _ _ _ S) as ([_ Hl] & [_ Hs] & _). rewrite Hu in Hs. cbn [seg] in Hs.
  unfold delete_LRUCache. destruct Hs as [Hs _]. destruct (handle_next (mem c) in_use_ in_use_ Hs) as (u & -> & Eu). cbn [mbind outcome_bind]. rewrite Eu, Z.eqb_refl. cbn [negb].
  assert (Hfirst : next (mem c) lru_ = Some (hd lru_ (a_lru a))) by (destruct (a_lru a); cbn [seg hd] in *; by destruct Hl as [-> _]).
  destruct (handle_next (mem c) lru_ _ Hfirst) as (h & -> & Eh). cbn [mbind outcome_bind].
  destruct (destroy_spec c (a_live a) (a_lru a) (Datatypes.S (size (mem c))) (lh_next h) (mem c) (deleted c) Hnd Hnl (lru_fuel c a S) Eh) as (m' & E & Em).
  { intros i p Ei. pose proof (list_elem_of_lookup_2 _ _ _ Ei) as Hp. destruct (proj1 (Hlive p) Hp) as [y Ey]. destruct (live_entry c a _ p y S Ey) as (x & Ex & Epl). rewrite bool_decide_true in Epl by by rewrite Hc.
    exists x, y. pose proof (seg_next_lookup _ _ _ _ i p Hl Ei) as Hn. destruct (sm_keyed _ _ _ S p ltac:(by eexists)) as (n & En & Hne). unfold next in Hn, En. rewrite Ex in Hn, En. injection Hn as Hn. injection En as En.
    split_and!; [done|done|done|by apply (Hr p)|done|by rewrite En]. }
  destruct c as [cap us tab m log]. cbn [capacity_ usage_ table_ mem deleted] in *. rewrite E. eexists. split; [done|]. split; cbn [deleted entries mem].
  - unfold a_owned. rewrite <- (sum_deleted (a_dead <$> a_live a) (a_lru a) Hnd).
    + rewrite <- (sm_deleted _ _ _ S). cbn [deleted]. apply reflexive_eq. f_equal. apply list_omap_ext, Forall2_same_length_lookup_2; [done|]. intros j q q' E1 E2. rewrite lookup_fmap. congruence.
    + intros p. rewrite lookup_fmap, fmap_is_Some. apply Hlive.
  - unfold entries. cbn [mem]. apply map_empty. intros p. destruct (decide (p = lru_)) as [->|H1]; [by rewrite lookup_delete_eq|]. rewrite lookup_delete_ne by done. destruct (decide (p = in_use_)) as [->|H2]; [by rewrite lookup_delete_eq|].
    rewrite lookup_delete_ne by done. rewrite Em. apply deletes_none. destruct (decide (p ∈ a_lru a)) as [Hp|Hp]; [by left|right].
    pose proof (sm_entries _ _ _ S p H1 H2) as Ep. cbn [mem] in Ep. assert (Ea : a_live a !! p = None) by (apply eq_None_not_Some; by rewrite <- Hlive). rewrite Ea in Ep. by destruct (m !! p).
Qed.

(** ** Usage *)

Lemma evict_done l : forall a, NoDup l -> a_lru a = l -> a_over (a_evict l a_over a) = false \/ a_lru (a_evict l a_over a) = [].
Proof.
  induction l as [|p l IH]; intros a Hnd El; cbn [a_evict]; [by right|]. destruct (a_over a) eqn:E; [|by left]. apply NoDup_cons in Hnd as [Hp Hnd]. apply IH; [done|]. rewrite (proj1 (uncache_lists p a)), El. by apply without_cons.
Qed.

Lemma evict_stop l a : a_over a = false -> a_evict l a_over a = a.
Proof. destruct l as [|p l]; [done|]. cbn. by intros ->. Qed.

Lemma without_in p l : NoDup l -> p ∈ l -> l ≡ₚ p :: without p l.
Proof. intros Hnd Hp. apply list_elem_of_split in Hp as (l1 & l2 & ->). rewrite without_split by done. by rewrite <- Permutation_middle. Qed.

(** The charges of a cache whose insertions fit. *)
Definition fits (total : Z) a : Prop := NoDup (a_cached a) /\ (forall p y, a_live a !! p = Some y -> 0 <= a_charge y) /\ a_usage a <= total.

Lemma charge_nonneg total a p : fits total a -> 0 <= charge_of a p.
Proof. intros (_ & Hc & _). unfold charge_of. destruct (a_live a !! p) as [y|] eqn:E; [by apply (Hc p)|lia]. Qed.
Lemma charges_nonneg f l : (forall p, 0 <= f p) -> 0 <= charges f l.
Proof. intros Hf. induction l as [|p l IH]; [done|]. cbn. specialize (Hf p). unfold charges in IH. lia. Qed.

Lemma uncache_usage p a : (forall q, 0 <= charge_of a q) -> NoDup (a_cached a) -> a_usage (a_uncache p a) <= a_usage a.
Proof.
  intros Hc Hnd. unfold a_usage. rewrite uncache_cached. assert (E : charges (charge_of (a_uncache p a)) (without p (a_cached a)) = charges (charge_of a) (without p (a_cached a))).
  { apply charges_ext. intros q Hq. apply elem_without in Hq as [_ Hq]. unfold charge_of, a_uncache, a_collect. destruct (a_live a !! p) as [y|]; [|done]. destruct (a_held y =? 0); [|done]. cbn [a_live]. by rewrite lookup_delete_ne. }
  rewrite E. destruct (decide (p ∈ a_cached a)) as [Hp|Hp]; [|by rewrite without_not]. rewrite (charges_perm _ _ _ (without_in p _ Hnd Hp)) at 1. cbn. specialize (Hc p). unfold charges. lia.
Qed.

Lemma uncache_fits total p a : fits total a -> fits total (a_uncache p a).
Proof.
  intros F. pose proof F as (Hnd & Hc & Hu). split_and!; [|intros q y E; by eapply Hc, uncache_live|].
  - rewrite uncache_cached. unfold without. by apply NoDup_filter.
  - pose proof (uncache_usage p a (fun q => charge_nonneg total a q F) Hnd). lia.
Qed.

Lemma hold_fits total p y n a lru used : fits total a -> a_live a !! p = Some y -> lru ++ used ≡ₚ a_cached a -> fits total (MkACache (a_capacity a) lru used (<[p := hold n y]> (a_live a)) (a_deleted a)).
Proof.
  intros (Hnd & Hc & Hu) Ey Hp. split_and!.
  - unfold a_cached. cbn [a_lru a_used]. by rewrite Hp.
  - cbn [a_live]. intros q z Ez. destruct (decide (q = p)) as [->|]; [rewrite lookup_insert_eq in Ez; injection Ez as <-; exact (Hc p y Ey)|rewrite lookup_insert_ne in Ez by done; by apply (Hc q)].
  - unfold a_usage. unfold a_cached at 1. cbn [a_lru a_used]. rewrite (charges_perm _ _ _ Hp). rewrite (charges_ext _ (charge_of a)); [done|]. intros q _. by apply charge_hold.
Qed.

Lemma add_fits total e y a : fits total a -> a_live a !! e = None -> e ∉ a_cached a -> 0 <= a_charge y -> fits (total + a_charge y) (MkACache (a_capacity a) (a_lru a) (a_used a ++ [e]) (<[e := y]> (a_live a)) (a_deleted a)).
Proof.
  intros (Hnd & Hc & Hu) En He Hy. set (a1 := MkACache _ _ _ _ _). assert (Hp : a_cached a1 ≡ₚ e :: a_cached a) by (unfold a_cached; cbn; rewrite app_assoc, Permutation_app_comm; done).
  assert (Hq : charges (charge_of a1) (a_cached a) = a_usage a) by (apply charges_ext; intros q Hq; unfold charge_of, a1; cbn [a_live]; rewrite lookup_insert_ne; [done|]; by intros ->). split_and!.
  - rewrite Hp. by constructor.
  - intros q z Ez. unfold a1 in Ez. cbn [a_live] in Ez. destruct (decide (q = e)) as [->|]; [rewrite lookup_insert_eq in Ez; by injection Ez as <-|rewrite lookup_insert_ne in Ez by done; by apply (Hc q)].
  - unfold a_usage at 1. rewrite (charges_perm _ _ _ Hp). cbn. unfold charges in Hq. rewrite Hq. assert (charge_of a1 e = a_charge y) by (unfold charge_of, a1; cbn [a_live]; by rewrite lookup_insert_eq). lia.
Qed.

(** What a call adds to the charges. *)
Definition charge_in o : Z := match o with OpInsert _ _ _ _ chg _ => chg | _ => 0 end.
Definition is_prune o : bool := match o with OpPrune => true | _ => false end.

Lemma fits_not_over total a : fits total a -> total <= a_capacity a < 2 ^ 64 -> a_over a = false.
Proof.
  intros F Ht. pose proof F as (_ & _ & Hu). unfold a_over. pose proof (charges_nonneg (charge_of a) (a_cached a) (fun q => charge_nonneg total a q F)) as H0. fold (a_usage a) in H0. rewrite u64_small by lia. lia.
Qed.

(** An insertion that fits evicts nothing. *)
Lemma insert_fits total e key hash value chg del a : fits total a -> a_live a !! e = None -> e ∉ a_cached a -> 0 <= chg -> 0 < a_capacity a -> total + chg <= a_capacity a < 2 ^ 64 ->
  let a1 := MkACache (a_capacity a) (a_lru a) (a_used a ++ [e]) (<[e := MkEntry key hash value chg del 1]> (a_live a)) (a_deleted a) in
  let a2 := match a_find key hash a with Some old => a_uncache old a1 | None => a1 end in
  a_insert e key hash value chg del a = a2 /\ fits (total + chg) a2.
Proof.
  intros F En He Hchg Hcap Ht a1 a2. pose proof (add_fits total e (MkEntry key hash value chg del 1) a F En He Hchg) as F1. fold a1 in F1. cbn [a_charge] in F1.
  assert (F2 : fits (total + chg) a2 /\ a_capacity a2 = a_capacity a).
  { unfold a2. destruct (a_find key hash a); [|done]. split; [by apply uncache_fits|]. by rewrite (proj2 (proj2 (uncache_lists _ _))). }
  destruct F2 as [F2 Ec]. split; [|done]. unfold a_insert. cbv zeta. rewrite (proj2 (Z.ltb_lt _ _) Hcap). fold a1 a2. apply evict_stop. apply (fits_not_over (total + chg)); [done|]. by rewrite Ec.
Qed.

Lemma lookup_rings p a : NoDup (a_cached a) -> p ∈ a_lru a -> without p (a_lru a) ++ a_used a ++ [p] ≡ₚ a_cached a.
Proof.
  intros Hnd Hp. unfold a_cached in *. rewrite app_assoc, Permutation_app_comm. cbn [app]. apply NoDup_app in Hnd as (Hnd & _ & _). by rewrite app_comm_cons, <- (without_in p (a_lru a) Hnd Hp).
Qed.
Lemma release_rings p a : NoDup (a_cached a) -> p ∈ a_used a -> (a_lru a ++ [p]) ++ without p (a_used a) ≡ₚ a_cached a.
Proof. intros Hnd Hp. unfold a_cached in *. rewrite <- app_assoc. cbn [app]. apply NoDup_app in Hnd as (_ & _ & Hnd). by rewrite <- (without_in p (a_used a) Hnd Hp). Qed.

(** ** What was inserted is found *)

Definition present (k : list Z) (h : Z) a : Prop := exists p y, p ∈ a_cached a /\ a_live a !! p = Some y /\ a_key y = k /\ a_hash y = h.
Definition hits (last : list Z -> Z -> option V) a : Prop := forall k h v, last k h = Some v -> present k h a.

Lemma hold_present k h p y n a lru used : present k h a -> a_live a !! p = Some y -> lru ++ used ≡ₚ a_cached a -> present k h (MkACache (a_capacity a) lru used (<[p := hold n y]> (a_live a)) (a_deleted a)).
Proof.
  intros (q & z & Hq & Ez & Hk & Hh) Ey Hp. assert (Hc : q ∈ a_cached (MkACache (a_capacity a) lru used (<[p := hold n y]> (a_live a)) (a_deleted a))) by (unfold a_cached at 1; cbn [a_lru a_used]; by rewrite Hp).
  exists q. cbn [a_live]. destruct (decide (q = p)) as [->|]; [|rewrite lookup_insert_ne by done; by exists z].
  rewrite lookup_insert_eq. exists (hold n y). assert (z = y) as -> by congruence. by split_and!.
Qed.

Lemma uncache_present k h p a : present k h a -> a_is k h a p = false -> present k h (a_uncache p a).
Proof.
  intros (q & z & Hq & Ez & Hk & Hh) Hp. assert (Hne : q <> p). { intros ->. unfold a_is in Hp. rewrite Ez, bool_decide_eq_false in Hp. tauto. }
  exists q, z. split_and!; [rewrite uncache_cached; by apply elem_without| |done|done]. unfold a_uncache, a_collect. destruct (a_live a !! p) as [y|]; [|done]. destruct (a_held y =? 0); [|done]. cbn [a_live]. by rewrite lookup_delete_ne.
Qed.

Lemma insert_hits last total e key hash value chg del c a : sim c a -> a_live a !! e = None -> fits total a -> 0 <= chg -> 0 < a_capacity a -> total + chg <= a_capacity a < 2 ^ 64 -> hits last a ->
  fits (total + chg) (a_insert e key hash value chg del a) /\ hits (fun k h => latest_step k h (last k h) (OpInsert e key hash value chg del)) (a_insert e key hash value chg del a).
Proof.
  intros S En F Hchg Hcap Ht Hh. assert (He : e ∉ a_cached a) by (intros H; destruct (sm_cached _ _ _ S e H); congruence). destruct (insert_fits total e key hash value chg del a F En He Hchg Hcap Ht) as [-> F2]. split; [done|]. clear F2.
  set (a1 := MkACache _ _ _ _ _). intros k h v. cbn [latest_step].
  assert (H1 : forall k h, present k h a -> present k h a1).
  { intros k' h' (q & z & Hq & Ez & Hr). exists q, z. unfold a_cached in Hq |- *. cbn [a1 a_lru a_used a_live]. rewrite lookup_insert_ne by congruence. split_and!; [|done|apply Hr|apply Hr]. rewrite !elem_of_app in *. tauto. }
  assert (H2 : forall old, a_find key hash a = Some old -> a_live a1 !! old = a_live a !! old /\ old <> e).
  { intros old Eo. apply find_some in Eo as [Eo _]. assert (old <> e) by (intros ->; done). split; [|done]. cbn [a1 a_live]. by rewrite lookup_insert_ne. }
  destruct (bool_decide_reflect (k = key /\ h = hash)) as [[-> ->]|Hne].
  - intros _. assert (Hl : a_live a1 !! e = Some (MkEntry key hash value chg del 1)) by apply lookup_insert_eq. assert (Hc : e ∈ a_cached a1) by (unfold a_cached; cbn; rewrite !elem_of_app, list_elem_of_singleton; tauto).
    destruct (a_find key hash a) as [old|] eqn:Eo; [|by exists e, (MkEntry key hash value chg del 1)]. destruct (H2 old eq_refl) as [E2 Hoe]. exists e, (MkEntry key hash value chg del 1). split_and!; [| |done|done].
    + rewrite uncache_cached. apply elem_without. by split.
    + unfold a_uncache, a_collect. destruct (a_live a1 !! old) as [z|]; [|done]. destruct (a_held z =? 0); [|done]. cbn [a_live]. by rewrite lookup_delete_ne.
  - intros Hv. destruct (a_find key hash a) as [old|] eqn:Eo; [|by apply H1, (Hh k h v)]. destruct (H2 old eq_refl) as [E2 _]. apply uncache_present; [by apply H1, (Hh k h v)|]. unfold a_is. rewrite E2.
    apply find_some in Eo as [_ Eo]. unfold a_is in Eo. destruct (a_live a !! old) as [z|]; [|done]. apply bool_decide_eq_true in Eo as [<- <-]. apply bool_decide_eq_false. intros [<- <-]. by apply Hne.
Qed.

Lemma step_hits last total o c a : sim c a -> legal o a = true -> fits total a -> is_prune o = false -> 0 <= charge_in o -> 0 < a_capacity a -> total + charge_in o <= a_capacity a < 2 ^ 64 -> hits last a ->
  fits (total + charge_in o) (a_step o a).2 /\ hits (fun k h => latest_step k h (last k h) o) (a_step o a).2.
Proof.
  intros S L F Hp Hchg Hcap Ht Hh. destruct o as [e key hash value chg del|key hash|p|key hash|]; cbn [charge_in a_step snd legal latest_step] in *; rewrite ?Z.add_0_r; [| | | |done].
  - apply (insert_hits last total e key hash value chg del c a); try done. destruct (a_live a !! e); [by rewrite andb_false_r in L|done].
  - unfold a_lookup. destruct (a_find key hash a) as [p|]; [|done]. cbn [snd]. unfold a_hold. destruct (a_live a !! p) as [y|] eqn:Ey; [|done].
    assert (Hr : without p (a_lru a) ++ (if bool_decide (p ∈ a_lru a) then a_used a ++ [p] else a_used a) ≡ₚ a_cached a).
    { destruct (bool_decide_reflect (p ∈ a_lru a)) as [Hl|Hl]; [apply lookup_rings; [apply F|done]|by rewrite without_not]. }
    split; [by apply hold_fits|]. intros k h v Hv. apply hold_present; [by apply (Hh k h v)|done|done].
  - unfold a_release. destruct (a_live a !! p) as [y|] eqn:Ey; [|done]. destruct (Z.eqb_spec (a_held y) 1) as [E1|E1]; cbn [negb].
    + destruct (bool_decide_reflect (p ∈ a_used a)) as [Hu|Hu].
      * pose proof (release_rings p a ltac:(apply F) Hu) as Hr. split; [by apply hold_fits|]. intros k h v Hv. apply hold_present; [by apply (Hh k h v)|done|done].
      * assert (Hc : p ∉ a_cached a). { unfold a_cached. rewrite elem_of_app. intros [Hl|?]; [|done]. apply (sm_held _ _ _ S p y Ey) in Hl. lia. }
        assert (Hq : forall q, q ∈ a_cached a -> delete p (a_live a) !! q = a_live a !! q) by (intros q Hq; apply lookup_delete_ne; by intros ->). split.
        -- pose proof F as (F1 & F2 & F3). split_and!; [done|intros q z Ez; cbn [a_live a_collect] in Ez; apply lookup_delete_Some in Ez as [_ Ez]; by apply (F2 q)|]. unfold a_usage. change (a_cached (a_collect p y a)) with (a_cached a).
           rewrite (charges_ext _ (charge_of a)); [done|]. intros q Hin. unfold charge_of. cbn [a_live a_collect]. by rewrite Hq.
        -- intros k h v Hv. destruct (Hh k h v Hv) as (q & z & Hin & Ez & Hr). exists q, z. split; [done|]. cbn [a_live a_collect]. by rewrite Hq.
    + split; [by apply hold_fits|]. intros k h v Hv. apply hold_present; [by apply (Hh k h v)|done|done].
  - unfold a_erase. destruct (a_find key hash a) as [p|] eqn:Ef.
    + split; [by apply uncache_fits|]. intros k h v Hv. destruct (bool_decide_reflect (k = key /\ h = hash)) as [|Hne]; [done|]. apply uncache_present; [by apply (Hh k h v)|]. apply find_some in Ef as [_ Ef]. unfold a_is in *.
      destruct (a_live a !! p) as [y|]; [|done]. apply bool_decide_eq_true in Ef as [<- <-]. apply bool_decide_eq_false. intros [<- <-]. by apply Hne.
    + split; [done|]. intros k h v Hv. destruct (bool_decide _); [done|]. by apply (Hh k h v).
Qed.

Definition total_charge ops : Z := foldr (fun o n => charge_in o + n) 0 ops.
Definition roomy_op o : bool := negb (is_prune o) && (0 <=? charge_in o).

Lemma run_hits capacity ops : forall last total n c a, 0 <= n -> sim c a -> bounded n a -> n + zlen ops <= 2 ^ 31 -> thin capacity a -> legal_run ops a = true -> forallb roomy_op ops = true -> 0 < capacity -> total + total_charge ops <= capacity < 2 ^ 64 ->
  fits total a -> hits last a -> hits (fun k h => fold_left (latest_step k h) ops (last k h)) (a_run ops a).2.
Proof.
  induction ops as [|o ops IH]; intros last total n c a Hn S B Hl T L R Hcap Ht F Hh; [done|]. cbn [a_run legal_run snd length fold_left forallb total_charge foldr] in *. apply andb_true_iff in L as [L1 L2]. apply andb_true_iff in R as [R1 R2]. apply andb_true_iff in R1 as [R0 R1].
  assert (Hpos : 0 <= total_charge ops). { clear -R2. induction ops as [|o ops IH]; [done|]. cbn [forallb total_charge foldr] in *. apply andb_true_iff in R2 as [R0 R2]. specialize (IH R2). unfold total_charge in IH. unfold roomy_op in R0. lia. }
  fold (total_charge ops) in Ht. destruct (step_spec n o c a S L1 B ltac:(lia)) as (c1 & _ & S1). pose proof T as [Hc _].
  destruct (step_hits last total o c a S L1 F) as [F1 H1]; [by destruct (is_prune o)|lia|lia|rewrite Hc; lia|done|].
  exact (IH _ (total + charge_in o) (n + 1) c1 _ ltac:(lia) S1 (step_bounded n o a Hn B) ltac:(lia) (step_thin _ _ _ T) L2 R2 Hcap ltac:(lia) F1 H1).
Qed.

(** ** What clients see *)

(** A new shard and the calls on it. *)
Definition cache_session (capacity : Z) ops : outcome (list Z * LRUCache V) := c ← new_shard capacity; cache_run ops c.

Lemma session_spec capacity ops : zlen ops <= 2 ^ 31 -> legal_run ops (a_new capacity) = true ->
  exists c, cache_session capacity ops = Done ((a_run ops (a_new capacity)).1, c) /\ sim c (a_run ops (a_new capacity)).2.
Proof.
  intros Hl L. destruct (new_sim (V := V) capacity) as (c0 & E0 & S0). unfold cache_session. rewrite E0. cbn [mbind outcome_bind]. apply (run_spec ops 0); [done|done| |lia|done]. split; [intros p y E; done|done].
Qed.

Lemma run_snoc ops o : forall a, (a_run (ops ++ [o]) a).2 = (a_step o (a_run ops a).2).2.
Proof. induction ops as [|o' ops IH]; intros a; [done|]. cbn [app a_run snd]. apply IH. Qed.
Lemma legal_snoc ops o : forall a, legal_run (ops ++ [o]) a = legal_run ops a && legal o (a_run ops a).2.
Proof. induction ops as [|o' ops IH]; intros a; cbn [app a_run legal_run snd]; [by rewrite andb_true_r|]. by rewrite IH, andb_assoc. Qed.

Lemma shard_frees_once capacity ops : zlen ops <= 2 ^ 31 -> legal_run ops (a_new capacity) = true ->
  exists hs c, cache_session capacity ops = Done (hs, c) /\ deleted c ++ in_memory c ≡ₚ ops ≫= inserted /\
    (all_released (a_run ops (a_new capacity)).2 = true -> exists c', delete_LRUCache c = Done c' /\ deleted c' ≡ₚ ops ≫= inserted /\ entries c' = ∅).
Proof.
  intros Hl L. destruct (session_spec capacity ops Hl L) as (c & E & S). eexists _, c. split; [done|]. pose proof (run_owned ops (a_new capacity) L) as Ho. cbn [a_owned a_new a_deleted a_live app] in Ho.
  rewrite fmap_empty, map_to_list_empty in Ho. cbn [fmap list_fmap app] in Ho. split.
  - rewrite <- Ho. unfold a_owned. by rewrite (sim_memory c _ S), (sm_deleted _ _ _ S).
  - intros Hr. destruct (delete_spec c _ S Hr) as (c' & E' & Hd & He). exists c'. by rewrite Hd, Ho.
Qed.

Lemma shard_lookup_latest capacity ops key hash : zlen ops < 2 ^ 31 -> legal_run ops (a_new capacity) = true ->
  exists hs c p c', cache_session capacity ops = Done (hs, c) /\ lru_Lookup key hash c = Done (p, c') /\
    (p <> 0 -> exists x v, entries c' !! p = Some x /\ key_data x = key /\ lh_hash x = hash /\ lh_value x = Some v /\ (if in_cache x then 1 else 0) < refs x /\ latest key hash ops = Some v) /\
    (forallb roomy_op ops = true -> 0 < capacity -> total_charge ops <= capacity < 2 ^ 64 -> latest key hash ops <> None -> p <> 0).
Proof.
  intros Hl L. set (o := OpLookup (V := V) key hash).
  destruct (new_sim (V := V) capacity) as (c0 & E0 & S0). destruct (session_spec capacity ops ltac:(lia) L) as (c & E & S). assert (B0 : bounded 0 (a_new (V := V) capacity)) by (split; [intros p y Ep; done|done]).
  assert (T0 : thin capacity (a_new (V := V) capacity)) by (split; [done|by right]). set (a := (a_run ops (a_new capacity)).2) in *.
  assert (B : bounded (zlen ops) a) by (apply (run_bounded ops 0); done).
  destruct (step_spec (zlen ops) o c a S eq_refl B ltac:(lia)) as (c' & Es & S'). exists (a_run ops (a_new capacity)).1, c, (a_lookup key hash a).1, c'. split_and!; [done|done| |].
  - cbn [o a_step] in S'. unfold a_lookup in *. destruct (a_find key hash a) as [p|] eqn:Ef; cbn [fst snd] in *; [|done]. intros _. apply find_some in Ef as [Hp Hi]. destruct (sm_cached _ _ _ S p Hp) as [y Ey].
    assert (Hy : a_live (a_hold p a) !! p = Some (hold (a_held y + 1) y)) by (unfold a_hold; rewrite Ey; cbn [a_live]; apply lookup_insert_eq). destruct (live_entry c' _ _ p _ S' Hy) as (x & Ex & Epl).
    apply plain_fields in Epl as (Ev & _ & _ & Ek & Eic & Er & Eh). destruct (sm_held _ _ _ S p y Ey) as [Hheld _]. apply (is_key a p y key hash Ey) in Hi as [Hk Hh]. exists x, (a_value y). destruct (sm_heads _ _ _ S' p ltac:(by eexists)) as (Hp1 & Hp2 & _). split_and!; [unfold entries; by rewrite !lookup_delete_ne|by rewrite Ek|by rewrite Eh|done|rewrite Er, Eic; cbn [a_held hold]; case_bool_decide; lia|].
    pose proof (run_up_to_date capacity ops (fun _ _ => None) 0 c0 (a_new capacity) ltac:(lia) S0 B0 ltac:(lia) T0 L) as U. unfold latest. rewrite <- Hk, <- Hh. apply (U ltac:(intros q z Hq; by apply elem_of_nil in Hq) p y Hp Ey).
  - intros R Hcap Ht Hlast. destruct (latest key hash ops) as [v|] eqn:Ev; [|done].
    destruct (run_hits capacity ops (fun _ _ => None) 0 0 c0 (a_new capacity) ltac:(lia) S0 B0 ltac:(lia) T0 L R Hcap ltac:(lia)) with (k := key) (h := hash) (v := v) as (q & z & Hq & Ez & Hk); [|done|done|].
    + split_and!; [apply NoDup_nil_2|done|done].
    + fold a in Hq, Ez. unfold a_lookup. rewrite (find_key a key hash q z); [|by apply (sim_one_per_key c)|done|done|apply (sm_cached _ _ _ S)|done]. cbn [fst]. apply (sm_heads _ _ _ S). by eexists.
Qed.

End Theorems.
