(* ===== verification/LdbCacheShards.v ===== *)
(** * LdbCacheShards: the whole cache, as its clients see it.

    A key's shard is that of its hash, so each shard sees the calls on its
    keys, in order, and what was proved of a shard holds of the cache. *)

From Stdlib Require Import ZifyBool.
From stdpp Require Import base tactics numbers list gmap strings.
From S2P Require Import Prelude LdbBloom LdbIter LdbBlock LdbFormat LdbTable LdbTableRead LdbCache LdbCacheRing LdbCacheTable LdbCacheSpec LdbCacheOps LdbCacheTrace.
Open Scope Z_scope.

Section Shards.
Context {V : Type}.
Implicit Types (c : LRUCache V) (a : acache V) (s : ShardedLRUCache V) (T : nat -> list (cache_op V)).

Inductive client_op : Type :=
  | CInsert (e : Z) (key : list Z) (value : V) (chg del : Z)
  | CLookup (key : list Z)
  | CRelease (p : Z)
  | CErase (key : list Z)
  | CPrune
  | CNewId.
Implicit Types (o : client_op) (ops : list client_op).

Definition client_step (o : client_op) (s : ShardedLRUCache V) : outcome (Z * ShardedLRUCache V) :=
  match o with
  | CInsert e key value chg del => cache_Insert e key value chg del s
  | CLookup key => cache_Lookup key s
  | CRelease p => s ← cache_Release p s; Done (0, s)
  | CErase key => s ← cache_Erase key s; Done (0, s)
  | CPrune => s ← cache_Prune s; Done (0, s)
  | CNewId => Done (cache_NewId s)
  end.

Fixpoint client_run (ops : list client_op) (s : ShardedLRUCache V) : outcome (list Z * ShardedLRUCache V) :=
  match ops with
  | [] => Done ([], s)
  | o :: ops => r ← client_step o s; rs ← client_run ops r.2; Done (r.1 :: rs.1, rs.2)
  end.

(** The handles clients hold of an entry. *)
Definition handles (x : LRUHandle V) : Z := refs x - if in_cache x then 1 else 0.

(** Memory given by [malloc] is not in use; only handles that are held are released. *)
Definition client_legal (o : client_op) (s : ShardedLRUCache V) : bool :=
  match o with
  | CInsert e _ _ _ _ => negb (e =? 0) && forallb (fun c => match mem c !! e with Some _ => false | None => true end) (shard_ s)
  | CRelease p => negb (p =? lru_) && negb (p =? in_use_) && match find_handle p (shard_ s) with Some x => 0 <? handles x | None => false end
  | _ => true
  end.

Fixpoint client_legal_run (ops : list client_op) (s : ShardedLRUCache V) : bool :=
  match ops with
  | [] => true
  | o :: ops => client_legal o s && match client_step o s with Done r => client_legal_run ops r.2 | _ => true end
  end.

(** The value inserted last under a key that was not erased. *)
Definition client_latest_step (key : list Z) (last : option V) o : option V :=
  match o with
  | CInsert _ key' value _ _ => if bool_decide (key = key') then Some value else last
  | CErase key' => if bool_decide (key = key') then None else last
  | _ => last
  end.
Definition client_latest (key : list Z) ops : option V := fold_left (client_latest_step key) ops None.
Definition client_inserted o : list (Z * list Z * option V) := match o with CInsert _ key value _ del => [(del, key, Some value)] | _ => [] end.

Definition client_charge o : Z := match o with CInsert _ _ _ chg _ => chg | _ => 0 end.
Definition client_roomy o : bool := match o with CPrune => false | CInsert _ _ _ chg _ => 0 <=? chg | _ => true end.
Definition client_total ops : Z := foldr (fun o n => client_charge o + n) 0 ops.

(** ** One shard per hash *)

Lemma done_pair {A B} (x x' : A) (y y' : B) : Done (x, y) = Done (x', y') -> y = y'.
Proof. by intros [= _ ->]. Qed.

Lemma HashSlice_total key : exists h, HashSlice key = Done h /\ 0 <= h < 2 ^ 32.
Proof.
  unfold HashSlice, Hash. cbv zeta. destruct (hash_words_total (length key) key (u32 (Z.lxor 0 (u64 (zlen key * hash_m)))) ltac:(lia) (u32_range _)) as (h & data & -> & Hh).
  cbn [mbind outcome_bind]. eexists. split; [done|]. by apply hash_tail_word.
Qed.

(** ** Which entries there are *)

Definition keyed_by (P : Z -> list Z -> Z -> Prop) a : Prop := forall p y, a_live a !! p = Some y -> P p (a_key y) (a_hash y).

Lemma uncache_keyed_by P p a : keyed_by P a -> keyed_by P (a_uncache p a).
Proof. intros H q y E. apply (H q). by apply uncache_live with p. Qed.
Lemma hold_keyed_by P p y n a lru used : keyed_by P a -> a_live a !! p = Some y -> keyed_by P (MkACache (a_capacity a) lru used (<[p := hold n y]> (a_live a)) (a_deleted a)).
Proof.
  intros H Ey q z Ez. cbn [a_live] in Ez. destruct (decide (q = p)) as [->|]; [rewrite lookup_insert_eq in Ez; injection Ez as <-; exact (H p y Ey)|]. rewrite lookup_insert_ne in Ez by done. by apply (H q).
Qed.

Lemma step_keyed_by P (o : cache_op V) a : keyed_by P a -> match o with OpInsert e key hash _ _ _ => P e key hash | _ => True end -> keyed_by P (a_step o a).2.
Proof.
  intros H Ho. destruct o as [e key hash value chg del|key hash|p|key hash|]; cbn [a_step snd].
  - unfold a_insert. cbv zeta. apply evict_inv; [intros; by apply uncache_keyed_by|].
    assert (Hadd : forall used, keyed_by P (MkACache (a_capacity a) (a_lru a) used (<[e := MkEntry key hash value chg del 1]> (a_live a)) (a_deleted a))).
    { intros used q z Ez. cbn [a_live] in Ez. destruct (decide (q = e)) as [->|]; [rewrite lookup_insert_eq in Ez; by injection Ez as <-|]. rewrite lookup_insert_ne in Ez by done. by apply (H q). }
    destruct (0 <? a_capacity a); [|done]. destruct (a_find key hash a); [by apply uncache_keyed_by|done].
  - unfold a_lookup. destruct (a_find key hash a) as [p|]; [|done]. cbn [snd]. unfold a_hold. destruct (a_live a !! p) as [y|] eqn:Ey; [|done]. by apply hold_keyed_by.
  - unfold a_release. destruct (a_live a !! p) as [y|] eqn:Ey; [|done]. destruct (negb _); [by apply hold_keyed_by|]. destruct (bool_decide _); [by apply hold_keyed_by|]. intros q z Ez. cbn [a_live a_collect] in Ez. apply lookup_delete_Some in Ez as [_ Ez]. by apply (H q).
  - unfold a_erase. destruct (a_find key hash a); [by apply uncache_keyed_by|done].
  - unfold a_prune. apply evict_inv; [intros; by apply uncache_keyed_by|done].
Qed.

(** What a shard has in memory besides the heads of its rings. *)
Definition has (p : Z) c : Prop := p <> lru_ /\ p <> in_use_ /\ is_Some (mem c !! p).

Lemma has_live c a tl p : sim_table c a tl -> has p c <-> is_Some (a_live a !! p).
Proof.
  intros S. split.
  - intros (H1 & H2 & [x Ex]). pose proof (sm_entries _ _ _ S p H1 H2) as E. rewrite Ex in E. by destruct (a_live a !! p).
  - intros Hs. destruct (sm_heads _ _ _ S p Hs) as (H1 & H2 & _). split_and!; [done|done|]. destruct Hs as [y Ey]. destruct (live_entry c a tl p y S Ey) as (x & Ex & _). by eexists.
Qed.

(** A call adds at most the entry it inserts. *)
Definition fresh_in (o : cache_op V) c : Prop := match o with OpInsert e _ _ _ _ _ => ~ has e c | _ => True end.
Lemma step_has (o : cache_op V) c c' a a' p : sim c a -> sim c' a' -> a' = (a_step o a).2 -> has p c' -> has p c \/ match o with OpInsert e _ _ _ _ _ => p = e | _ => False end.
Proof.
  intros S S' -> Hp. rewrite (has_live _ _ _ p S') in Hp. rewrite (has_live _ _ _ p S). destruct Hp as [y Ey].
  apply (step_keyed_by (fun q _ _ => is_Some (a_live a !! q) \/ match o with OpInsert e _ _ _ _ _ => q = e | _ => False end) o a) in Ey; [done| |]; [intros q z Ez; left; by eexists|]. destruct o; try done. by right.
Qed.

Definition home (hash : Z) : nat := Z.to_nat (Shard hash).
Lemma home_range h : 0 <= h < 2 ^ 32 -> (home h < 16)%nat.
Proof. intros Hh. unfold home, Shard, kNumShardBits. rewrite Z.shiftr_div_pow2 by lia. assert (h / 2 ^ (32 - 4) < 16) by (apply Z.div_lt_upper_bound; lia). lia. Qed.

Definition at_home (j : nat) (o : cache_op V) : Prop :=
  match o with
  | OpInsert _ key hash _ _ _ | OpErase key hash => HashSlice key = Done hash /\ home hash = j
  | _ => True
  end.

(** Each shard has seen a trace of its own. *)
Record shards_are (per n : Z) s T : Prop := {
  sh_length : length (shard_ s) = 16%nat;
  sh_session j c : shard_ s !! j = Some c -> exists hs, cache_session per (T j) = Done (hs, c);
  sh_legal j : (j < 16)%nat -> legal_run (T j) (a_new per) = true;
  sh_short j : zlen (T j) <= n;
  sh_home j : Forall (at_home j) (T j);
  (** an entry is in one shard *)
  sh_apart i j c d p : shard_ s !! i = Some c -> shard_ s !! j = Some d -> has p c -> has p d -> i = j;
}.

Lemma shard_sim per n s T j c : shards_are per n s T -> n <= 2 ^ 31 -> shard_ s !! j = Some c -> sim c (a_run (T j) (a_new per)).2.
Proof.
  intros I Hn Ec. destruct (sh_session _ _ _ _ I j c Ec) as (hs & E). pose proof (lookup_lt_Some _ _ _ Ec) as Hj. rewrite (sh_length _ _ _ _ I) in Hj. pose proof (sh_short _ _ _ _ I j).
  destruct (session_spec per (T j) ltac:(lia) (sh_legal _ _ _ _ I j Hj)) as (c' & E' & S). rewrite E in E'. by injection E' as _ <-.
Qed.

Lemma session_snoc per tr (o : cache_op V) hs c r c' : cache_session per tr = Done (hs, c) -> cache_step o c = Done (r, c') -> cache_session per (tr ++ [o]) = Done (hs ++ [r], c').
Proof.
  unfold cache_session. destruct (new_shard per) as [c0| |]; try done. cbn [mbind outcome_bind]. revert hs c0. induction tr as [|o' tr IH]; intros hs c0 E Es; cbn [app cache_run] in *.
  - injection E as <- <-. rewrite Es. done.
  - destruct (cache_step o' c0) as [[r' c1]| |]; try done. cbn [mbind outcome_bind fst snd] in *. destruct (cache_run tr c1) as [[rs c2]| |] eqn:Er; try done. cbn [mbind outcome_bind fst snd] in E. injection E as <- <-.
    rewrite (IH rs c1 Er Es). done.
Qed.

Definition extend T (j : nat) (o : cache_op V) : nat -> list (cache_op V) := fun i => if decide (i = j) then T j ++ [o] else T i.

(** A call of one shard. *)
Lemma shard_step per n s T j c (o : cache_op V) : shards_are per n s T -> 0 <= n < 2 ^ 31 -> shard_ s !! j = Some c -> at_home j o -> (forall d, d ∈ shard_ s -> fresh_in o d) -> legal o (a_run (T j) (a_new per)).2 = true ->
  exists r c', cache_step o c = Done (r, c') /\ shards_are per (n + 1) (MkSharded (<[j := c']> (shard_ s)) (last_id_ s)) (extend T j o).
Proof.
  intros I Hn Ec Ho Hf L. pose proof (shard_sim _ _ _ _ j c I ltac:(lia) Ec) as S. pose proof (lookup_lt_Some _ _ _ Ec) as Hj. pose proof (sh_length _ _ _ _ I) as Hlen. pose proof (sh_short _ _ _ _ I j) as Hs.
  assert (B : bounded (zlen (T j)) (a_run (T j) (a_new per)).2) by (apply (run_bounded (T j) 0); [done|]; split; done).
  destruct (step_spec (zlen (T j)) o c _ S L B ltac:(lia)) as (c' & Es & S'). exists (a_step o (a_run (T j) (a_new per)).2).1, c'. split; [done|]. unfold extend. split; cbn [shard_].
  - by rewrite length_insert.
  - intros i d Ed. destruct (decide (i = j)) as [->|Hne].
    + rewrite list_lookup_insert_eq in Ed by done. injection Ed as <-. destruct (sh_session _ _ _ _ I j c Ec) as (hs & E). eexists. by apply (session_snoc per (T j) o hs c).
    + rewrite list_lookup_insert_ne in Ed by done. by apply (sh_session _ _ _ _ I).
  - intros i Hi. destruct (decide (i = j)) as [->|Hne]; [|by apply (sh_legal _ _ _ _ I)]. by rewrite legal_snoc, (sh_legal _ _ _ _ I j Hi), L.
  - intros i. pose proof (sh_short _ _ _ _ I i). destruct (decide (i = j)) as [->|Hne]; [|lia]. rewrite length_app. cbn [length]. lia.
  - intros i. destruct (decide (i = j)) as [->|Hne]; [|apply (sh_home _ _ _ _ I)]. apply Forall_app. split; [apply (sh_home _ _ _ _ I)|]. by constructor.
  - assert (Hone : forall k d p, k <> j -> shard_ s !! k = Some d -> has p c' -> has p d -> False).
    { intros k d p Hne Ed Hp Hd. destruct (step_has o c c' _ _ p S S' eq_refl Hp) as [Hc|He]; [by apply Hne, (sh_apart _ _ _ _ I k j d c p)|]. pose proof (Hf d ltac:(by apply list_elem_of_lookup_2 with k)) as Hd'. destruct o; try done. by subst p. }
    intros i k d d' p Ed Ed' Hp Hp'. destruct (decide (i = j)) as [->|Hi], (decide (k = j)) as [->|Hk]; [done| | |].
    + rewrite list_lookup_insert_eq in Ed by done. injection Ed as <-. rewrite list_lookup_insert_ne in Ed' by done. by destruct (Hone k d' p).
    + rewrite list_lookup_insert_eq in Ed' by done. injection Ed' as <-. rewrite list_lookup_insert_ne in Ed by done. by destruct (Hone i d p).
    + rewrite list_lookup_insert_ne in Ed, Ed' by done. by apply (sh_apart _ _ _ _ I i k d d' p).
Qed.

Lemma run_keyed_by j tr : forall a, keyed_by (fun _ _ hash => home hash = j) a -> Forall (at_home j) tr -> keyed_by (fun _ _ hash => home hash = j) (a_run tr a).2.
Proof.
  induction tr as [|o tr IH]; intros a H Ht; [done|]. apply Forall_cons in Ht as [Ho Ht]. cbn [a_run snd]. apply IH; [|done]. apply step_keyed_by; [done|]. destruct o; try done. by destruct Ho.
Qed.

Lemma find_handle_some p (cs : list (LRUCache V)) x : find_handle p cs = Some x -> exists j c, cs !! j = Some c /\ mem c !! p = Some x.
Proof.
  induction cs as [|c cs IH]; [done|]. cbn [find_handle]. destruct (mem c !! p) as [z|] eqn:E.
  - intros [= <-]. by exists 0%nat, c.
  - intros H. destruct (IH H) as (j & d & Ed & Hd). by exists (S j), d.
Qed.

(** An entry of a shard that is not a head is live. *)
Lemma entry_live c a p x : sim c a -> mem c !! p = Some x -> p <> lru_ -> p <> in_use_ -> exists y, a_live a !! p = Some y /\ a_held y = handles x /\ a_hash y = lh_hash x.
Proof.
  intros S Ex H1 H2. pose proof (sm_entries _ _ _ S p H1 H2) as E. rewrite Ex in E. destruct (a_live a !! p) as [y|]; [|done]. apply Some_inj in E. apply plain_fields in E as (_ & _ & _ & _ & Eic & Er & Ehs). exists y. split_and!; [done| |done]. unfold handles. rewrite Er, Eic. lia.
Qed.

(** ** The calls of a client *)

(** The traces as one. *)
Definition all_inserted T : list (Z * list Z * option V) := seq 0 16 ≫= fun j => T j ≫= inserted.

Lemma bind_extend T j (o : cache_op V) l : NoDup l -> j ∈ l -> (l ≫= fun i => extend T j o i ≫= inserted) ≡ₚ (l ≫= fun i => T i ≫= inserted) ++ inserted o.
Proof.
  intros Hnd Hj. apply list_elem_of_split in Hj as (l1 & l2 & ->). apply NoDup_app in Hnd as (_ & Hd & Hnd). apply NoDup_cons in Hnd as [Hn _]. rewrite !bind_app, !bind_cons.
  assert (Hsame : forall l', j ∉ l' -> (l' ≫= fun i => extend T j o i ≫= inserted) = (l' ≫= fun i => T i ≫= inserted)).
  { clear. induction l' as [|i l' IH]; intros Hj; [done|]. apply not_elem_of_cons in Hj as [Hne Hj]. rewrite !bind_cons, (IH Hj). f_equal. unfold extend. by rewrite decide_False by done. }
  rewrite (Hsame l1), (Hsame l2); [|done|intros H; apply (Hd j H), list_elem_of_here]. unfold extend. rewrite decide_True by done. rewrite bind_app. assert (([o] ≫= inserted) = inserted o) as -> by apply app_nil_r. rewrite <- !app_assoc. do 2 f_equiv. by rewrite Permutation_app_comm.
Qed.

Lemma total_snoc tr (o : cache_op V) : total_charge (tr ++ [o]) = total_charge tr + charge_in o.
Proof. unfold total_charge. induction tr as [|o' tr IH]; cbn [app foldr]; lia. Qed.

(** The traces of the shards after a call. *)
Record follows T T' o : Prop := {
  fl_latest key h : HashSlice key = Done h -> latest key h (T' (home h)) = client_latest_step key (latest key h (T (home h))) o;
  fl_inserted : all_inserted T' ≡ₚ all_inserted T ++ client_inserted o;
  fl_charge j : client_roomy o = true -> forallb roomy_op (T j) = true -> forallb roomy_op (T' j) = true /\ total_charge (T' j) <= total_charge (T j) + client_charge o;
}.

Lemma latest_snoc key h tr (o : cache_op V) : latest key h (tr ++ [o]) = latest_step key h (latest key h tr) o.
Proof. unfold latest. by rewrite fold_left_app. Qed.

(** A call of the shard of a key. *)
Lemma extend_follows T j (o : cache_op V) o' : (j < 16)%nat -> at_home j o -> inserted o = client_inserted o' -> charge_in o = client_charge o' -> roomy_op o = client_roomy o' ->
  (forall key h last, HashSlice key = Done h -> home h = j -> latest_step key h last o = client_latest_step key last o') ->
  (forall key h last, HashSlice key = Done h -> home h <> j -> client_latest_step key last o' = last) -> follows T (extend T j o) o'.
Proof.
  intros Hj Ho Hi Hc Hr H1 H2. split.
  - intros key h Eh. unfold extend. destruct (decide (home h = j)) as [<-|Hne]; [rewrite latest_snoc; by apply H1|]. symmetry. by apply (H2 key h).
  - rewrite <- Hi. apply bind_extend; [apply NoDup_seq|]. apply elem_of_seq. lia.
  - intros i Hro Hf. rewrite <- Hr in Hro. rewrite <- Hc. assert (0 <= charge_in o) by (unfold roomy_op in Hro; lia). unfold extend. destruct (decide (i = j)) as [->|]; [|split; [done|lia]]. rewrite forallb_app, Hf, total_snoc. cbn [forallb]. rewrite Hro. split; [done|lia].
Qed.

Lemma prune_shards_spec (Q : nat -> LRUCache V -> Prop) cs : forall k, (forall j c, cs !! j = Some c -> exists c', lru_Prune c = Done c' /\ Q (k + j)%nat c') ->
  exists cs', prune_shards cs = Done cs' /\ length cs' = length cs /\ forall j c, cs' !! j = Some c -> Q (k + j)%nat c.
Proof.
  induction cs as [|c cs IH]; intros k H; [by exists []|]. cbn [prune_shards]. destruct (H 0%nat c eq_refl) as (c' & -> & Hq). cbn [mbind outcome_bind].
  destruct (IH (S k)) as (cs' & -> & Hl & Hcs); [intros j d Ed; destruct (H (S j) d Ed) as (d' & Ep & Hd); exists d'; split; [done|]; by rewrite Nat.add_succ_comm|]. cbn [mbind outcome_bind]. exists (c' :: cs'). split_and!; [done|cbn; by rewrite Hl|].
  intros [|j] d Ed; [injection Ed as <-; done|]. rewrite <- Nat.add_succ_comm. by apply Hcs.
Qed.

Lemma prune_spec per n s T : shards_are per n s T -> 0 <= n < 2 ^ 31 -> exists s', cache_Prune s = Done s' /\ shards_are per (n + 1) s' (fun j => T j ++ [OpPrune]).
Proof.
  intros I Hn. destruct (prune_shards_spec (fun j c' => (exists hs, cache_session per (T j ++ [OpPrune]) = Done (hs, c')) /\ exists c, shard_ s !! j = Some c /\ forall p, has p c' -> has p c) (shard_ s) 0) as (cs & E & Hl & Hcs).
  - intros j c Ec. pose proof (shard_sim _ _ _ _ j c I ltac:(lia) Ec) as S. pose proof (sh_short _ _ _ _ I j).
    destruct (step_spec (zlen (T j)) OpPrune c _ S eq_refl (run_bounded (T j) 0 (a_new per) ltac:(done) ltac:(done)) ltac:(lia)) as (c' & Es & S'). destruct (sh_session _ _ _ _ I j c Ec) as (hs & E).
    pose proof (session_snoc per (T j) OpPrune hs c _ c' E Es) as E'. cbn [cache_step] in Es. destruct (lru_Prune c) as [d| |]; try done. cbn [mbind outcome_bind] in Es. apply done_pair in Es. subst d. exists c'. split; [done|]. split; [by eexists|].
    exists c. split; [done|]. intros p Hp. by destruct (step_has OpPrune c c' _ _ p S S' eq_refl Hp).
  - unfold cache_Prune. rewrite E. cbn [mbind outcome_bind]. eexists. split; [done|]. split; cbn [shard_].
    + by rewrite Hl, (sh_length _ _ _ _ I).
    + intros j c Ec. by destruct (Hcs j c Ec).
    + intros j Hj. by rewrite legal_snoc, (sh_legal _ _ _ _ I j Hj).
    + intros j. pose proof (sh_short _ _ _ _ I j). rewrite length_app. cbn [length]. lia.
    + intros j. apply Forall_app. split; [apply (sh_home _ _ _ _ I)|by constructor].
    + intros i j c d p Ec Ed Hp Hp'. destruct (Hcs i c Ec) as (_ & c0 & Ec0 & Hc0), (Hcs j d Ed) as (_ & d0 & Ed0 & Hd0). apply (sh_apart _ _ _ _ I i j c0 d0 p); [done|done|by apply Hc0|by apply Hd0].
Qed.

(** An operation of a shard through its hash. *)
Lemma in_shard_spec per n s T hash (o : cache_op V) : shards_are per n s T -> 0 <= n < 2 ^ 31 -> (home hash < 16)%nat -> at_home (home hash) o -> (forall d, d ∈ shard_ s -> fresh_in o d) -> legal o (a_run (T (home hash)) (a_new per)).2 = true ->
  exists r s', in_shard hash (cache_step o) s = Done (r, s') /\ shards_are per (n + 1) s' (extend T (home hash) o).
Proof.
  intros I Hn Hh Ho Hf L. destruct (lookup_lt_is_Some_2 (shard_ s) (home hash)) as [c Ec]; [by rewrite (sh_length _ _ _ _ I)|]. destruct (shard_step per n s T _ c o I Hn Ec Ho Hf L) as (r & c' & Es & I').
  unfold in_shard. fold (home hash). rewrite Ec. cbn [demand mbind outcome_bind]. rewrite Es. cbn [mbind outcome_bind]. by eexists _, _.
Qed.

Lemma in_shard_map {A B} hash (f : LRUCache V -> outcome (A * LRUCache V)) (g : LRUCache V -> outcome (B * LRUCache V)) s r s' :
  (forall c x c', f c = Done (x, c') -> exists y, g c = Done (y, c')) -> in_shard hash f s = Done (r, s') -> exists y, in_shard hash g s = Done (y, s').
Proof.
  intros H. unfold in_shard. destruct (demand _) as [c| |]; try done. cbn [mbind outcome_bind]. destruct (f c) as [[x c']| |] eqn:Ef; try done. cbn [mbind outcome_bind]. intros E. apply done_pair in E. subst s'. destruct (H c x c' Ef) as (y & ->). exists y. reflexivity.
Qed.

Lemma legal_fresh e key value chg del s : client_legal (CInsert e key value chg del) s = true -> forall d, d ∈ shard_ s -> ~ has e d.
Proof.
  cbn [client_legal]. rewrite andb_true_iff, forallb_forall. intros [_ L] d Hd (_ & _ & [x Ex]). specialize (L d ltac:(by apply list_elem_of_In)). by rewrite Ex in L.
Qed.

Lemma fresh_legal per n s T j e key hash value chg del : shards_are per n s T -> n <= 2 ^ 31 -> (j < 16)%nat -> client_legal (CInsert e key value chg del) s = true -> legal (OpInsert e key hash value chg del) (a_run (T j) (a_new per)).2 = true.
Proof.
  intros I Hn Hj L. cbn [client_legal legal] in *. apply andb_true_iff in L as [L0 L]. destruct (lookup_lt_is_Some_2 (shard_ s) j) as [c Ec]; [by rewrite (sh_length _ _ _ _ I)|]. pose proof (shard_sim _ _ _ _ j c I Hn Ec) as S.
  assert (Em : mem c !! e = None). { rewrite forallb_forall in L. specialize (L c ltac:(apply list_elem_of_In; by apply list_elem_of_lookup_2 with j)). by destruct (mem c !! e). }
  destruct (sm_rings _ _ _ S) as ([_ R1] & [_ R2] & _). destruct (seg_dom _ _ _ _ lru_ R1 (list_elem_of_here _ _)) as [x1 E1]. destruct (seg_dom _ _ _ _ in_use_ R2 (list_elem_of_here _ _)) as [x2 E2].
  assert (H1 : e <> lru_) by congruence. assert (H2 : e <> in_use_) by congruence. pose proof (sm_entries _ _ _ S e H1 H2) as E. rewrite Em in E. destruct (a_live (a_run (T j) (a_new per)).2 !! e); [done|]. lia.
Qed.

Lemma release_unit p c (x : Z) c' : cache_step (OpRelease p) c = Done (x, c') -> exists y, (c ← lru_Release p c; Done (tt, c)) = Done (y, c').
Proof. cbn [cache_step]. destruct (lru_Release p c) as [d| |]; try done. cbn [mbind outcome_bind]. intros [= _ <-]. by exists tt. Qed.
Lemma erase_unit key hash c (x : Z) c' : cache_step (OpErase key hash) c = Done (x, c') -> exists y, lru_Erase key hash c = Done (y, c').
Proof. cbn [cache_step]. destruct (lru_Erase key hash c) as [[b d]| |]; try done. cbn [mbind outcome_bind snd]. intros [= _ <-]. by exists b. Qed.

(** Only the shards matter. *)
Lemma shards_are_later per n s s' T : shards_are per n s T -> shard_ s' = shard_ s -> shards_are per (n + 1) s' T.
Proof.
  intros I E. split; rewrite ?E; [apply (sh_length _ _ _ _ I)|apply (sh_session _ _ _ _ I)|apply (sh_legal _ _ _ _ I)| |apply (sh_home _ _ _ _ I)|apply (sh_apart _ _ _ _ I)]. intros j. pose proof (sh_short _ _ _ _ I j). lia.
Qed.

Lemma client_step_spec per n s T o : shards_are per n s T -> 0 <= n < 2 ^ 31 -> client_legal o s = true ->
  exists r s' T', client_step o s = Done (r, s') /\ shards_are per (n + 1) s' T' /\ follows T T' o.
Proof.
  intros I Hn L. destruct o as [e key value chg del|key|p|key| |]; cbn [client_step].
  - destruct (HashSlice_total key) as (hash & Eh & Hr). pose proof (home_range hash Hr) as Hj. unfold cache_Insert. rewrite Eh. cbn [mbind outcome_bind].
    destruct (in_shard_spec per n s T hash (OpInsert e key hash value chg del) I Hn Hj) as (r & s' & E & I'); [done|by apply (legal_fresh e key value chg del)|apply (fresh_legal per n s T); [done|lia|done|done]|]. cbn [cache_step] in E. eexists _, _, _. split; [exact E|]. split; [done|].
    apply extend_follows; [done|done|done|done|done| |]; intros key' h last Eh' Hh; cbn [latest_step client_latest_step].
    + destruct (bool_decide_reflect (key' = key)) as [->|]; [|by rewrite bool_decide_false by tauto]. rewrite bool_decide_true; [done|]. split; congruence.
    + rewrite bool_decide_false; [done|]. intros ->. congruence.
  - destruct (HashSlice_total key) as (hash & Eh & Hr). pose proof (home_range hash Hr) as Hj. unfold cache_Lookup. rewrite Eh. cbn [mbind outcome_bind].
    destruct (in_shard_spec per n s T hash (OpLookup key hash) I Hn Hj) as (r & s' & E & I'); [done..|]. cbn [cache_step] in E. eexists _, _, _. split; [exact E|]. split; [done|]. by apply extend_follows.
  - cbn [client_legal] in L. apply andb_true_iff in L as [L0 L]. unfold cache_Release. destruct (find_handle p (shard_ s)) as [x|] eqn:Ef; [|done]. cbn [demand mbind outcome_bind]. destruct (find_handle_some _ _ _ Ef) as (j & c & Ec & Ex).
    pose proof (shard_sim _ _ _ _ j c I ltac:(lia) Ec) as S. destruct (entry_live c _ p x S Ex ltac:(lia) ltac:(lia)) as (y & Ey & Hheld & Hhash).
    assert (Hh : home (lh_hash x) = j). { rewrite <- Hhash. apply (run_keyed_by j (T j) (a_new per) ltac:(intros q z Ez; done) (sh_home _ _ _ _ I j) p y Ey). }
    pose proof (lookup_lt_Some _ _ _ Ec) as Hj. rewrite (sh_length _ _ _ _ I) in Hj.
    destruct (in_shard_spec per n s T (lh_hash x) (OpRelease p) I Hn) as (r & s' & E & I'); [by rewrite Hh|done|done|rewrite Hh; cbn [legal]; rewrite Ey, Hheld; done|]. rewrite Hh in I'.
    exists 0, s', (extend T j (OpRelease p)). split; [|split; [done|by apply extend_follows]]. destruct (in_shard_map _ _ (fun c => c ← lru_Release p c; Done (tt, c)) _ _ _ (release_unit p) E) as (u & ->). done.
  - destruct (HashSlice_total key) as (hash & Eh & Hr). pose proof (home_range hash Hr) as Hj. unfold cache_Erase. rewrite Eh. cbn [mbind outcome_bind].
    destruct (in_shard_spec per n s T hash (OpErase key hash) I Hn Hj) as (r & s' & E & I'); [done..|]. exists 0, s', (extend T (home hash) (OpErase key hash)). split; [|split; [done|]].
    + destruct (in_shard_map _ _ (lru_Erase key hash) _ _ _ (erase_unit key hash) E) as (u & ->). done.
    + apply extend_follows; [done|done|done|done|done| |]; intros key' h last Eh' Hh; cbn [latest_step client_latest_step].
      * destruct (bool_decide_reflect (key' = key)) as [->|]; [|by rewrite bool_decide_false by tauto]. rewrite bool_decide_true; [done|]. split; congruence.
      * rewrite bool_decide_false; [done|]. intros ->. congruence.
  - destruct (prune_spec per n s T I Hn) as (s' & -> & I'). cbn [mbind outcome_bind]. eexists _, _, _. split; [done|]. split; [done|]. split.
    + intros key h _. by rewrite latest_snoc.
    + unfold all_inserted. cbn [client_inserted]. rewrite app_nil_r. apply reflexive_eq. apply list_bind_ext; [|done]. intros j. rewrite bind_app. by rewrite app_nil_r.
    + done.
  - eexists _, _, T. split; [done|]. split; [by apply (shards_are_later per n s)|]. split; [done|by rewrite app_nil_r|]. intros j _ Hf. split; [done|cbn; lia].
Qed.

Record follows_all T T' ops : Prop := {
  fa_latest key h : HashSlice key = Done h -> latest key h (T' (home h)) = fold_left (client_latest_step key) ops (latest key h (T (home h)));
  fa_inserted : all_inserted T' ≡ₚ all_inserted T ++ (ops ≫= client_inserted);
  fa_charge j : forallb client_roomy ops = true -> forallb roomy_op (T j) = true -> forallb roomy_op (T' j) = true /\ total_charge (T' j) <= total_charge (T j) + client_total ops;
}.

Lemma client_run_spec per ops : forall n s T, shards_are per n s T -> 0 <= n -> n + zlen ops <= 2 ^ 31 -> client_legal_run ops s = true ->
  exists hs s' T', client_run ops s = Done (hs, s') /\ shards_are per (n + zlen ops) s' T' /\ follows_all T T' ops.
Proof.
  induction ops as [|o ops IH]; intros n s T I Hn Hl L; cbn [client_run client_legal_run length] in *.
  - eexists _, _, T. split; [done|]. rewrite Z.add_0_r. split; [done|]. split; [done|by rewrite app_nil_r|intros j _ ?; split; [done|cbn; lia]].
  - apply andb_true_iff in L as [L1 L2]. destruct (client_step_spec per n s T o I ltac:(lia) L1) as (r & s1 & T1 & E1 & I1 & F). rewrite E1 in L2 |- *. cbn [mbind outcome_bind fst snd] in *.
    destruct (IH (n + 1) s1 T1 I1 ltac:(lia) ltac:(lia) L2) as (hs & s2 & T2 & E2 & I2 & G). rewrite E2. cbn [mbind outcome_bind fst snd]. eexists _, _, T2. split; [done|]. split; [|split].
    + by replace (n + Z.of_nat (S (length ops))) with (n + 1 + zlen ops) by lia.
    + intros key h Eh. rewrite (fa_latest _ _ _ G key h Eh), (fl_latest _ _ _ F key h Eh). done.
    + rewrite (fa_inserted _ _ _ G), (fl_inserted _ _ _ F), bind_cons. by rewrite <- app_assoc.
    + intros j Hr Hf. cbn [forallb] in Hr. apply andb_true_iff in Hr as [Hr1 Hr2]. destruct (fl_charge _ _ _ F j Hr1 Hf) as [Hf1 Ht1]. destruct (fa_charge _ _ _ G j Hr2 Hf1) as [Hf2 Ht2]. split; [done|]. cbn [client_total foldr]. unfold client_total in Ht2. lia.
Qed.

(** ** A new cache *)

Definition shard_capacity (capacity : Z) : Z := u64 (capacity + 15) / 16.

Lemma new_shards_spec per n : exists c, new_shard per = Done c /\ new_shards (V := V) n per = Done (replicate n c).
Proof.
  destruct (new_sim (V := V) per) as (c & E & _). exists c. split; [done|]. induction n as [|n IH]; [done|]. cbn [new_shards]. unfold new_shard in E. destruct new_LRUCache as [d| |]; try done. cbn [mbind outcome_bind] in *. rewrite IH. cbn [mbind outcome_bind replicate].
  injection E as <-. done.
Qed.

Lemma new_cache_spec capacity : exists s, NewLRUCache (V := V) capacity = Done s /\ shards_are (shard_capacity capacity) 0 s (fun _ => []).
Proof.
  unfold NewLRUCache. change (u64 (capacity + (kNumShards - 1)) / kNumShards) with (shard_capacity capacity). destruct (new_shards_spec (shard_capacity capacity) 16) as (c & Ec & E). change (Z.to_nat kNumShards) with 16%nat. rewrite E. cbn [mbind outcome_bind].
  eexists. split; [done|]. destruct (new_sim (V := V) (shard_capacity capacity)) as (c' & Ec' & S). rewrite Ec in Ec'. injection Ec' as <-. split; cbn [shard_].
  - apply length_replicate.
  - intros j d Ed. apply lookup_replicate in Ed as [-> _]. exists []. unfold cache_session. by rewrite Ec.
  - done.
  - done.
  - done.
  - intros i j d d' p Ed Ed' Hp _. apply lookup_replicate in Ed as [-> _]. rewrite (has_live _ _ _ p S) in Hp. by destruct Hp.
Qed.

Definition client_session (capacity : Z) ops : outcome (list Z * ShardedLRUCache V) := s ← NewLRUCache capacity; client_run ops s.
Definition client_session_legal (capacity : Z) ops : bool := match NewLRUCache capacity with Done s => client_legal_run ops s | _ => false end.

Lemma client_session_spec capacity ops : zlen ops <= 2 ^ 31 -> client_session_legal capacity ops = true ->
  exists hs s T, client_session capacity ops = Done (hs, s) /\ shards_are (shard_capacity capacity) (zlen ops) s T /\ follows_all (fun _ => []) T ops.
Proof.
  intros Hl L. destruct (new_cache_spec capacity) as (s0 & E0 & I0). unfold client_session_legal, client_session in *. rewrite E0 in L |- *. cbn [mbind outcome_bind].
  exact (client_run_spec _ ops 0 s0 _ I0 ltac:(lia) ltac:(lia) L).
Qed.

(** ** All shards together *)

Lemma shards_concat {A} (f : LRUCache V -> list A) (g : nat -> list A) (cs : list (LRUCache V)) : forall k, (forall j c, cs !! j = Some c -> f c ≡ₚ g (k + j)%nat) -> (cs ≫= f) ≡ₚ (seq k (length cs) ≫= g).
Proof.
  induction cs as [|c cs IH]; intros k H; [done|]. cbn [length seq]. rewrite !bind_cons. pose proof (H 0%nat c eq_refl) as H0. rewrite Nat.add_0_r in H0. rewrite H0. f_equiv. apply IH. intros j d Ed. rewrite Nat.add_succ_comm. by apply H.
Qed.

(** Nobody holds a handle of the shard. *)
Definition unheld c : bool := forallb (fun px => handles px.2 =? 0) (map_to_list (entries c)).

Lemma unheld_released c a : sim c a -> unheld c = true -> all_released a = true.
Proof.
  intros S Hu. apply bool_decide_eq_true. intros p y Ey. unfold unheld in Hu. rewrite forallb_forall in Hu. destruct (live_entry c a _ p y S Ey) as (x & Ex & Epl). apply plain_fields in Epl as (_ & _ & _ & _ & Eic & Er & _).
  destruct (sm_heads _ _ _ S p ltac:(by eexists)) as (H1 & H2 & _). specialize (Hu (p, x)). cbn [snd] in Hu. assert (Hin : In (p, x) (map_to_list (entries c))).
  { apply list_elem_of_In, elem_of_map_to_list. unfold entries. by rewrite !lookup_delete_ne. }
  specialize (Hu Hin). unfold handles in Hu. rewrite Er, Eic in Hu. lia.
Qed.

Lemma delete_shards_spec (Q : nat -> LRUCache V -> Prop) cs : forall k, (forall j c, cs !! j = Some c -> exists c', delete_LRUCache c = Done c' /\ Q (k + j)%nat c') ->
  exists cs', delete_shards cs = Done cs' /\ length cs' = length cs /\ forall j c, cs' !! j = Some c -> Q (k + j)%nat c.
Proof.
  induction cs as [|c cs IH]; intros k H; [by exists []|]. cbn [delete_shards]. destruct (IH (S k)) as (cs' & -> & Hl & Hcs); [intros j d Ed; destruct (H (S j) d Ed) as (d' & Ep & Hd); exists d'; split; [done|]; by rewrite Nat.add_succ_comm|].
  cbn [mbind outcome_bind]. destruct (H 0%nat c eq_refl) as (c' & -> & Hq). cbn [mbind outcome_bind]. exists (c' :: cs'). split_and!; [done|cbn; by rewrite Hl|].
  intros [|j] d Ed; [injection Ed as <-; done|]. rewrite <- Nat.add_succ_comm. by apply Hcs.
Qed.

(** ** The value of a handle *)

Lemma find_handle_in p (cs : list (LRUCache V)) : forall j c x, cs !! j = Some c -> mem c !! p = Some x -> (forall i d, cs !! i = Some d -> is_Some (mem d !! p) -> i = j) -> find_handle p cs = Some x.
Proof.
  induction cs as [|d cs IH]; intros j c x Ec Ex Hu; [done|]. cbn [find_handle]. destruct (mem d !! p) as [z|] eqn:Ed.
  - pose proof (Hu 0%nat d eq_refl ltac:(by eexists)) as <-. injection Ec as ->. congruence.
  - destruct j as [|j]; [injection Ec as ->; congruence|]. apply (IH j c x); [done|done|]. intros i d' Ed' Hs. by injection (Hu (S i) d' Ed' Hs).
Qed.

(** A lookup after a session. *)
Lemma lookup_after capacity ops key : zlen ops < 2 ^ 31 -> client_session_legal capacity ops = true ->
  exists hs s p s', client_session capacity ops = Done (hs, s) /\ cache_Lookup key s = Done (p, s') /\
    (p <> 0 -> client_legal (CRelease p) s' = true /\ exists v, cache_Value p s' = Done v /\ client_latest key ops = Some v) /\
    (forallb client_roomy ops = true -> 0 < shard_capacity capacity -> client_total ops <= shard_capacity capacity -> client_latest key ops <> None -> p <> 0).
Proof.
  intros Hl L. destruct (client_session_spec capacity ops ltac:(lia) L) as (hs & s & T & E & I & G). destruct (HashSlice_total key) as (hash & Eh & Hr). pose proof (home_range hash Hr) as Hj. set (j := home hash) in *.
  pose proof (sh_short _ _ _ _ I j) as Hs. assert (Hlat : latest key hash (T j) = client_latest key ops) by exact (fa_latest _ _ _ G key hash Eh).
  destruct (lookup_lt_is_Some_2 (shard_ s) j) as [c Ec]; [by rewrite (sh_length _ _ _ _ I)|]. destruct (sh_session _ _ _ _ I j c Ec) as (hs1 & E1).
  destruct (shard_lookup_latest (shard_capacity capacity) (T j) key hash ltac:(lia) (sh_legal _ _ _ _ I j Hj)) as (hs2 & c2 & p & c' & E2 & El & Hval & Hhit). rewrite E1 in E2. apply done_pair in E2. subst c2.
  destruct (shard_step _ _ s T j c (OpLookup key hash) I ltac:(lia) Ec) as (r & c2 & Es & I'); [done|done|done|]. cbn [cache_step] in Es. rewrite El in Es. apply done_pair in Es as Hc. subst c2.
  set (s' := MkSharded (<[j := c']> (shard_ s)) (last_id_ s)) in *. exists hs, s, p, s'. split_and!; [done| | |].
  - unfold cache_Lookup. rewrite Eh. cbn [mbind outcome_bind]. unfold in_shard. fold (home hash). fold j. rewrite Ec. cbn [demand mbind outcome_bind]. rewrite El. reflexivity.
  - intros Hp. destruct (Hval Hp) as (x & v & Ex & _ & _ & Ev & Hheld & Elast). rewrite <- Hlat. assert (Ec' : shard_ s' !! j = Some c') by (unfold s'; cbn [shard_]; rewrite list_lookup_insert_eq; [done|by rewrite (sh_length _ _ _ _ I)]).
    unfold entries in Ex. apply lookup_delete_Some in Ex as [Hp1 Ex]. apply lookup_delete_Some in Ex as [Hp2 Ex]. assert (Hhas : has p c') by (split_and!; [done|done|by eexists]).
    assert (Ef : find_handle p (shard_ s') = Some x).
    { apply (find_handle_in p (shard_ s') j c' x Ec' Ex). intros i d Ed Hd. apply (sh_apart _ _ _ _ I' i j d c' p); [done|done| |done]. destruct Hhas as (? & ? & _). by split_and!. }
    split; [cbn [client_legal]; rewrite Ef; unfold handles; lia|]. exists v. unfold cache_Value. rewrite Ef. cbn [demand mbind outcome_bind]. by rewrite Ev.
  - intros Hro Hcap Ht Hne. destruct (fa_charge _ _ _ G j Hro eq_refl) as [Hf Hc]. change (total_charge []) with 0 in Hc. apply Hhit; [done|done| |by rewrite Hlat]. split; [lia|]. unfold shard_capacity. apply Z.div_lt_upper_bound; [lia|]. pose proof (u64_range (capacity + 15)). lia.
Qed.
End Shards.
Arguments client_op V : clear implicits.

(** * The cache of tables.

    table.cc uses a cache through the interface [Cache]; here the LRU cache is
    an instance of it.  Table readers look a block up or insert it, and release
    the handle when they are done with the block.  The state is kept as the
    calls so far, which are legal, so that the theorems on sequences of calls
    give the laws that readers of tables rely on. *)


Section Runs.
Context {V : Type}.
Implicit Types (s : ShardedLRUCache V) (ops : list (client_op V)).

Lemma client_run_app ops1 ops2 s : client_run (ops1 ++ ops2) s = (r ← client_run ops1 s; rs ← client_run ops2 r.2; Done (r.1 ++ rs.1, rs.2)).
Proof.
  revert s. induction ops1 as [|o ops1 IH]; intros s; cbn [app client_run].
  - cbn [mbind outcome_bind fst snd]. by destruct (client_run ops2 s) as [[]| |].
  - destruct (client_step o s) as [[r s1]| |]; [|done|done]. cbn [mbind outcome_bind fst snd]. rewrite IH. destruct (client_run ops1 s1) as [[rs s2]| |]; [|done|done]. cbn [mbind outcome_bind fst snd]. by destruct (client_run ops2 s2) as [[]| |].
Qed.

Lemma client_legal_app ops1 ops2 s hs s' : client_run ops1 s = Done (hs, s') -> client_legal_run (ops1 ++ ops2) s = client_legal_run ops1 s && client_legal_run ops2 s'.
Proof.
  revert s hs. induction ops1 as [|o ops1 IH]; intros s hs E; cbn [app client_run client_legal_run] in *; [by injection E as _ ->|]. rewrite <- andb_assoc. f_equal.
  destruct (client_step o s) as [[r s1]| |]; [|done|done]. cbn [mbind outcome_bind fst snd] in *. destruct (client_run ops1 s1) as [[rs s2]| |] eqn:E1; [|done|done]. cbn [mbind outcome_bind fst snd] in E. apply done_pair in E. subst s2. exact (IH s1 rs E1).
Qed.

Lemma session_legal_app capacity ops1 ops2 hs s : client_session capacity ops1 = Done (hs, s) -> client_session_legal capacity ops1 = true -> client_session_legal capacity (ops1 ++ ops2) = client_legal_run ops2 s.
Proof.
  unfold client_session, client_session_legal. destruct (NewLRUCache capacity) as [s0| |]; [|done|done]. cbn [mbind outcome_bind]. intros E L. rewrite (client_legal_app _ _ _ _ _ E), L. done.
Qed.

(** ** Addresses *)

(** Above all addresses in use, as [malloc] may choose. *)
Definition fresh_address s : Z := foldr Z.max 2 (shard_ s ≫= fun c => (map_to_list (mem c)).*1) + 1.

Lemma foldr_max l p : p ∈ l -> p <= foldr Z.max 2 l.
Proof. induction l as [|q l IH]; intros Hp; [by apply elem_of_nil in Hp|]. apply elem_of_cons in Hp as [->|Hp]; cbn; [lia|]. specialize (IH Hp). lia. Qed.
Lemma foldr_max_2 l : 2 <= foldr Z.max 2 l.
Proof. induction l; cbn; lia. Qed.

Lemma fresh_address_legal s key value chg del : client_legal (CInsert (fresh_address s) key value chg del) s = true.
Proof.
  cbn [client_legal]. apply andb_true_iff. unfold fresh_address. set (l := shard_ s ≫= _). pose proof (foldr_max_2 l). split; [lia|]. apply forallb_forall. intros c Hc. destruct (mem c !! (foldr Z.max 2 l + 1)) as [x|] eqn:E; [|done]. exfalso.
  assert (Hin : foldr Z.max 2 l + 1 ∈ l). { unfold l. apply list_elem_of_bind. exists c. split; [|by apply list_elem_of_In]. apply list_elem_of_fmap. exists (foldr Z.max 2 l + 1, x). split; [done|]. by apply elem_of_map_to_list. }
  apply foldr_max in Hin. lia.
Qed.

(** ** The handle of an insertion is held *)

Lemma insert_live (e : Z) key hash (value : V) chg del a : a_live (a_insert e key hash value chg del a) !! e = Some (MkEntry key hash value chg del 1).
Proof.
  unfold a_insert. cbv zeta. set (y := MkEntry key hash value chg del 1). assert (Hu : forall p (b : acache V), a_live b !! e = Some y -> a_live (a_uncache p b) !! e = Some y).
  { intros p b E. unfold a_uncache, a_collect. destruct (a_live b !! p) as [z|] eqn:Ep; [|done]. destruct (Z.eqb_spec (a_held z) 0); [|done]. cbn [a_live]. rewrite lookup_delete_ne; [done|]. intros ->. rewrite E in Ep. injection Ep as <-. done. }
  apply evict_inv; [done|]. destruct (0 <? a_capacity a); [|apply lookup_insert_eq]. destruct (a_find key hash a); [apply Hu|]; apply lookup_insert_eq.
Qed.

Lemma insert_after capacity ops key value chg del : zlen ops < 2 ^ 31 -> client_session_legal capacity ops = true ->
  forall hs s, client_session capacity ops = Done (hs, s) -> exists s', client_step (CInsert (fresh_address s) key value chg del) s = Done (fresh_address s, s') /\ client_legal (CRelease (fresh_address s)) s' = true.
Proof.
  intros Hl L hs s Es. destruct (client_session_spec capacity ops ltac:(lia) L) as (hs' & s1 & T & E & I & _). rewrite Es in E. apply done_pair in E. subst s1. clear hs'. pose proof (fresh_address_legal s key value chg del) as Lf. set (e := fresh_address s) in *.
  destruct (HashSlice_total key) as (hash & Eh & Hr). pose proof (home_range hash Hr) as Hj. set (j := home hash) in *. destruct (lookup_lt_is_Some_2 (shard_ s) j) as [c Ec]; [by rewrite (sh_length _ _ _ _ I)|].
  pose proof (fresh_legal _ _ s T j e key hash value chg del I ltac:(lia) Hj Lf) as Lo. pose proof (shard_sim _ _ _ _ j c I ltac:(lia) Ec) as S. pose proof (sh_short _ _ _ _ I j).
  destruct (step_spec (zlen (T j)) (OpInsert e key hash value chg del) c _ S Lo (run_bounded (T j) 0 (a_new _) ltac:(done) ltac:(done)) ltac:(lia)) as (c' & Ei & S'). cbn [cache_step a_step fst snd] in *.
  destruct (shard_step _ _ s T j c (OpInsert e key hash value chg del) I ltac:(lia) Ec) as (r & c2 & Ei2 & I'); [done|by apply (legal_fresh e key value chg del)|done|]. cbn [cache_step] in Ei2. rewrite Ei in Ei2. apply done_pair in Ei2 as Hc. subst c2.
  set (s' := MkSharded (<[j := c']> (shard_ s)) (last_id_ s)) in *. exists s'. split.
  - cbn [client_step]. unfold cache_Insert. rewrite Eh. cbn [mbind outcome_bind]. unfold in_shard. fold (home hash). fold j. rewrite Ec. cbn [demand mbind outcome_bind]. rewrite Ei. reflexivity.
  - pose proof (insert_live e key hash value chg del (a_run (T j) (a_new (shard_capacity capacity))).2) as Ey. destruct (live_entry c' _ _ e _ S' Ey) as (x & Ex & Epl). apply plain_fields in Epl as (_ & _ & _ & _ & Eic & Er & _).
    destruct (sm_heads _ _ _ S' e ltac:(by eexists)) as (H1 & H2 & _). assert (Ec' : shard_ s' !! j = Some c') by (unfold s'; cbn [shard_]; rewrite list_lookup_insert_eq; [done|by rewrite (sh_length _ _ _ _ I)]).
    assert (Ef : find_handle e (shard_ s') = Some x).
    { apply (find_handle_in e (shard_ s') j c' x Ec' Ex). intros i d Ed Hd. apply (sh_apart _ _ _ _ I' i j d c' e); [done|done|by split_and!|split_and!; [done|done|by eexists]]. }
    cbn [client_legal]. rewrite Ef. unfold handles. rewrite Er, Eic. cbn [a_held]. case_bool_decide; lia.
Qed.
End Runs.

(** ** The instance *)

Section Blocks.
Context (capacity : Z).
Abbreviation calls := (list (client_op Block)).

Definition good_calls (ops : calls) : bool := client_session_legal capacity ops && (zlen ops <? 2 ^ 31).
Record lru_blocks : Type := MkLruBlocks { lb_calls : calls; lb_good : good_calls lb_calls = true }.
Definition lb_state (c : lru_blocks) : ShardedLRUCache Block := match client_session capacity (lb_calls c) with Done r => r.2 | _ => MkSharded [] 0 end.

(** More calls; see [call_runs]. *)
Definition call (ops : calls) (c : lru_blocks) : lru_blocks :=
  match decide (good_calls (lb_calls c ++ ops) = true) with left H => MkLruBlocks (lb_calls c ++ ops) H | right _ => c end.

Definition lb_Lookup (k : list Z) (c : lru_blocks) : option Block * lru_blocks :=
  match cache_Lookup k (lb_state c) with
  | Done (p, s) =>
    if p =? 0 then (None, call [CLookup k] c)
    else match cache_Value p s with Done b => (Some b, call [CLookup k; CRelease p] c) | _ => (None, c) end
  | _ => (None, c)
  end.
Definition lb_Insert (k : list Z) (b : Block) (n : Z) (c : lru_blocks) : lru_blocks :=
  let e := fresh_address (lb_state c) in call [CInsert e k b n 0; CRelease e] c.
Definition lb_NewId (c : lru_blocks) : Z * lru_blocks := ((cache_NewId (lb_state c)).1, call [CNewId] c).

#[export] Instance lru_blocks_cache : Cache lru_blocks := {| Lookup := lb_Lookup; Insert := lb_Insert; NewId := lb_NewId |}.

(** Calls are refused only after 2^31 others. *)
Lemma call_runs ops c : zlen (lb_calls c) + zlen ops < 2 ^ 31 -> client_legal_run ops (lb_state c) = true -> lb_calls (call ops c) = lb_calls c ++ ops.
Proof.
  intros Hl L. unfold call. destruct (decide _) as [H|H]; [done|]. exfalso. apply H. pose proof (lb_good c) as G. unfold good_calls in *. apply andb_true_iff in G as [G1 G2]. destruct (client_session_spec capacity (lb_calls c) ltac:(lia) G1) as (hs & s & T & E & _).
  rewrite (session_legal_app _ _ _ _ _ E G1). unfold lb_state in L. rewrite E in L. cbn [snd] in L. rewrite L, length_app. lia.
Qed.

Lemma state_session c : exists hs, client_session capacity (lb_calls c) = Done (hs, lb_state c).
Proof.
  pose proof (lb_good c) as G. apply andb_true_iff in G as [G1 G2]. destruct (client_session_spec capacity (lb_calls c) ltac:(lia) G1) as (hs & s & T & E & _). exists hs. unfold lb_state. rewrite E. done.
Qed.

Lemma lookup_runs k c : zlen (lb_calls c) + 2 < 2 ^ 31 -> exists ops, lb_calls (lb_Lookup k c).2 = lb_calls c ++ ops /\ (ops = [CLookup k] \/ exists p, ops = [CLookup k; CRelease p]).
Proof.
  intros Hl. pose proof (lb_good c) as G. apply andb_true_iff in G as [G1 _]. destruct (lookup_after capacity (lb_calls c) k ltac:(lia) G1) as (hs & s & p & s' & E & El & Hv & _). destruct (state_session c) as (hs' & E'). rewrite E in E'. apply done_pair in E'.
  unfold lb_Lookup. rewrite <- E', El. destruct (Z.eqb_spec p 0) as [->|Hp]; cbn [snd].
  - exists [CLookup k]. split; [|by left]. apply call_runs; [cbn [length]; lia|]. rewrite <- E'. cbn [client_legal_run client_legal]. by destruct (client_step (CLookup k) s) as [[]| |].
  - destruct (Hv Hp) as (Lr & v & Ev & _). rewrite Ev. cbn [snd]. exists [CLookup k; CRelease p]. split; [|right; by exists p]. apply call_runs; [cbn [length]; lia|]. rewrite <- E'. cbn [client_legal_run]. cbn [client_step]. rewrite El. cbn [snd]. rewrite Lr.
    cbn [andb client_legal]. by destruct (cache_Release p s') as [?| |].
Qed.

Lemma insert_runs k b n c : zlen (lb_calls c) + 2 < 2 ^ 31 -> exists e, lb_calls (lb_Insert k b n c) = lb_calls c ++ [CInsert e k b n 0; CRelease e].
Proof.
  intros Hl. pose proof (lb_good c) as G. apply andb_true_iff in G as [G1 _]. destruct (state_session c) as (hs & E). destruct (insert_after capacity (lb_calls c) k b n 0 ltac:(lia) G1 hs (lb_state c) E) as (s' & Es & Lr).
  unfold lb_Insert. cbv zeta. set (e := fresh_address (lb_state c)) in *. exists e. apply call_runs; [cbn [length]; lia|]. cbn [client_legal_run]. rewrite Es. cbn [snd]. rewrite Lr. unfold e. rewrite fresh_address_legal. cbn [andb]. fold e. by destruct (client_step (CRelease e) s') as [[]| |].
Qed.

(** What it may hold is what was inserted last. *)
Definition lb_cached (c : lru_blocks) (k : list Z) (b : Block) : Prop := client_latest k (lb_calls c) = Some b.

Lemma latest_app k (ops1 ops2 : calls) : client_latest k (ops1 ++ ops2) = fold_left (client_latest_step k) ops2 (client_latest k ops1).
Proof. unfold client_latest. apply fold_left_app. Qed.

Lemma call_latest ops c k b : lb_cached (call ops c) k b -> lb_cached c k b \/ fold_left (client_latest_step k) ops (client_latest k (lb_calls c)) = Some b.
Proof. unfold lb_cached, call. destruct (decide _) as [H|H]; [|by left]. cbn [lb_calls]. rewrite latest_app. by right. Qed.

#[export] Instance lru_blocks_good : GoodCache lb_cached.
Proof.
  split; cbn [Lookup Insert lru_blocks_cache].
  - intros k c b. unfold lb_Lookup. destruct (cache_Lookup k (lb_state c)) as [[p s]| |] eqn:El; [|done|done]. destruct (Z.eqb_spec p 0) as [->|Hp]; [done|]. destruct (cache_Value p s) as [v| |] eqn:Ev; [|done|done]. cbn [fst]. intros [= ->].
    pose proof (lb_good c) as G. apply andb_true_iff in G as [G1 G2]. destruct (lookup_after capacity (lb_calls c) k ltac:(lia) G1) as (hs & s0 & p' & s' & E & El' & Hv & _).
    destruct (state_session c) as (hs' & E'). rewrite E in E'. apply done_pair in E'. subst s0. rewrite El in El'. injection El' as <- <-.
    destruct (Hv Hp) as (_ & v & Ev' & Hlat). unfold lb_cached. congruence.
  - intros k c k' b. unfold lb_Lookup. destruct (cache_Lookup k (lb_state c)) as [[p s]| |]; [|done|done]. destruct (p =? 0); cbn [snd]; [intros H; by apply call_latest in H as [H|H]|]. destruct (cache_Value p s); cbn [snd]; [|done|done]. intros H. by apply call_latest in H as [H|H].
  - intros k b n c k' b' H. unfold lb_Insert in H. cbv zeta in H. apply call_latest in H as [H|H]; [by right|]. cbn [fold_left client_latest_step] in H. destruct (bool_decide_reflect (k' = k)); [|by right]. injection H as <-. by left.
Qed.
End Blocks.
