(* ===== verification/LdbCacheTheorems.v ===== *)
(** * LdbCacheTheorems: what clients of the cache can rely on. *)

From Stdlib Require Import ZifyBool.
From stdpp Require Import base tactics numbers list gmap strings.
From S2P Require Import Prelude LdbBloom LdbCache LdbCacheRing LdbCacheTable LdbCacheSpec LdbCacheOps LdbCacheTrace LdbCacheShards.
Open Scope Z_scope.

Section Clients.
Context {V : Type}.

(** C19: a shard does what the abstract cache does.  Any sequence of calls in
    which the client inserts at fresh addresses and releases only handles it
    holds runs without undefined behaviour or failed assertion, returns the
    handles the abstract cache returns, calls the deleters the abstract cache
    calls in the same order, has the charges of what it caches (modulo 2^64) as
    its usage, and keeps the value of every handle a client holds. *)
Theorem cache_refines (capacity : Z) (ops : list (cache_op V)) : zlen ops <= 2 ^ 31 -> legal_run ops (a_new capacity) = true ->
  exists c, cache_session capacity ops = Done ((a_run ops (a_new capacity)).1, c) /\ let a := (a_run ops (a_new capacity)).2 in
    sim c a /\ deleted c = a_deleted a /\ lru_TotalCharge c = u64 (a_usage a) /\
    forall p y, a_live a !! p = Some y -> 0 < a_held y -> exists x, mem c !! p = Some x /\ lh_value x = Some (a_value y) /\ key_data x = a_key y.
Proof.
  intros Hl L. destruct (session_spec capacity ops Hl L) as (c & E & S). exists c. cbv zeta. split_and!; [done|done|apply (sm_deleted _ _ _ S)|apply (sm_usage _ _ _ S)|].
  intros p y Ey _. destruct (live_entry c _ _ p y S Ey) as (x & Ex & Epl). apply plain_fields in Epl as (Ev & _ & _ & Ek & _). by exists x.
Qed.

(** C31: an insertion respects the capacity.  After it the usage of the shard is
    at most its capacity, or nothing is left to evict: every entry in the
    cache is in use. *)
Theorem cache_within_capacity (capacity : Z) (ops : list (cache_op V)) e key hash value chg del : zlen ops < 2 ^ 31 -> legal_run (ops ++ [OpInsert e key hash value chg del]) (a_new capacity) = true ->
  exists hs c, cache_session capacity (ops ++ [OpInsert e key hash value chg del]) = Done (hs, c) /\ (lru_TotalCharge c <= capacity_ c \/ next (mem c) lru_ = Some lru_).
Proof.
  intros Hl L. destruct (session_spec capacity (ops ++ [OpInsert e key hash value chg del])) as (c & E & S); [rewrite length_app; cbn [length]; lia|done|]. eexists _, c. split; [done|]. rewrite run_snoc in S. cbn [a_step snd] in S.
  set (a := (a_run ops (a_new capacity)).2) in *. unfold a_insert in S. cbv zeta in S. set (a1 := if 0 <? a_capacity a then _ else _) in S.
  rewrite legal_snoc in L. apply andb_true_iff in L as [L _]. destruct (session_spec capacity ops ltac:(lia) L) as (c1 & _ & S1). fold a in S1. destruct (cached_nodup _ _ _ S1) as (Hnd & _). unfold a_cached in Hnd. apply NoDup_app in Hnd as (Hnd & _ & _).
  assert (Hnd1 : NoDup (a_lru a1)). { unfold a1. destruct (0 <? a_capacity a); [|done]. destruct (a_find key hash a); [|done]. rewrite (proj1 (uncache_lists _ _)). unfold without. by apply NoDup_filter. }
  destruct (evict_done (a_lru a1) a1 Hnd1 eq_refl) as [H|H].
  - left. unfold lru_TotalCharge. rewrite (sm_usage _ _ _ S), (sm_capacity _ _ _ S). by apply Z.ltb_ge in H.
  - right. destruct (sm_rings _ _ _ S) as ([_ Hs] & _ & _). rewrite H in Hs. by destruct Hs.
Qed.
(** C7: every value is freed exactly once.  Over any sequence of calls, the
    entries in memory together with those given to their deleters are the
    inserted ones, each as often as it was inserted.  When the clients have
    released all handles, the destructor of the cache frees the rest. *)
Theorem cache_frees_once (capacity : Z) (ops : list (client_op V)) : zlen ops <= 2 ^ 31 -> client_session_legal capacity ops = true ->
  exists hs s, client_session capacity ops = Done (hs, s) /\ (shard_ s ≫= fun c => deleted c ++ in_memory c) ≡ₚ ops ≫= client_inserted /\
    (forallb unheld (shard_ s) = true -> exists cs, delete_ShardedLRUCache s = Done cs /\ (cs ≫= deleted) ≡ₚ ops ≫= client_inserted /\ Forall (fun c => entries c = ∅) cs).
Proof.
  intros Hl L. destruct (client_session_spec capacity ops Hl L) as (hs & s & T & E & I & G). pose proof (fa_inserted _ _ _ G : all_inserted T ≡ₚ ops ≫= client_inserted) as Hins. exists hs, s. split; [done|].
  assert (Hsh : forall j c, shard_ s !! j = Some c -> deleted c ++ in_memory c ≡ₚ T j ≫= inserted /\ (unheld c = true -> exists c', delete_LRUCache c = Done c' /\ (deleted c' ≡ₚ T j ≫= inserted) /\ entries c' = ∅)).
  { intros j c Ec. pose proof (shard_sim _ _ _ _ j c I Hl Ec) as S. pose proof (lookup_lt_Some _ _ _ Ec) as Hj. rewrite (sh_length _ _ _ _ I) in Hj. pose proof (sh_short _ _ _ _ I j). destruct (sh_session _ _ _ _ I j c Ec) as (hs' & E').
    destruct (shard_frees_once (shard_capacity capacity) (T j) ltac:(lia) (sh_legal _ _ _ _ I j Hj)) as (hs2 & c2 & E2 & Hp & Hd). rewrite E' in E2. apply done_pair in E2. subst c2. split; [done|]. intros Hu. apply Hd. by apply (unheld_released c). }
  split.
  - rewrite <- Hins. unfold all_inserted. rewrite <- (sh_length _ _ _ _ I). apply shards_concat. intros j c Ec. by apply Hsh.
  - intros Hu. rewrite forallb_forall in Hu. destruct (delete_shards_spec (fun j c' => (deleted c' ≡ₚ T j ≫= inserted) /\ entries c' = ∅) (shard_ s) 0) as (cs & Ed & Hlen & Hcs).
    + intros j c Ec. apply (Hsh j c Ec), Hu, list_elem_of_In. by apply list_elem_of_lookup_2 with j.
    + exists cs. split_and!; [done| |].
      * rewrite <- Hins. unfold all_inserted. rewrite <- (sh_length _ _ _ _ I), <- Hlen. apply shards_concat. intros j c Ec. by apply Hcs.
      * apply Forall_forall. intros c Hc. apply list_elem_of_lookup in Hc as [j Ec]. by apply (Hcs j).
Qed.

(** C14: a lookup is never stale.  After any sequence of calls a lookup of a key
    either finds nothing or gives a handle whose value is the one inserted last
    under the key, which was not erased since; and while the charges of all
    insertions fit into one shard and the client does not prune, every value
    that was not erased is found. *)
Theorem cache_lookup_latest (capacity : Z) (ops : list (client_op V)) key : zlen ops < 2 ^ 31 -> client_session_legal capacity ops = true ->
  exists hs s p s', client_session capacity ops = Done (hs, s) /\ cache_Lookup key s = Done (p, s') /\
    (p <> 0 -> exists v, cache_Value p s' = Done v /\ client_latest key ops = Some v) /\
    (forallb client_roomy ops = true -> 0 < shard_capacity capacity -> client_total ops <= shard_capacity capacity -> client_latest key ops <> None -> p <> 0).
Proof.
  intros Hl L. destruct (lookup_after capacity ops key Hl L) as (hs & s & p & s' & E & El & Hv & Hh). exists hs, s, p, s'. split_and!; [done|done| |done]. intros Hp. by destruct (Hv Hp).
Qed.

(** What holds of the representation of a shard between calls. *)
Definition well_formed (c : LRUCache V) : Prop := exists unused used bs,
  two_rings (mem c) lru_ unused in_use_ used /\ table_ok (table_ c) (mem c) bs /\ concat bs ≡ₚ unused ++ used /\
  (forall p x, entries c !! p = Some x -> 1 <= refs x < 2 ^ 32 /\ (in_cache x = true <-> p ∈ unused ++ used) /\ (p ∈ unused <-> in_cache x = true /\ refs x = 1)).

Lemma sim_well_formed (c : LRUCache V) a : sim c a -> well_formed c.
Proof.
  intros S. destruct (sm_table _ _ _ S) as (bs & K & Hb). exists (a_lru a), (a_used a), bs. split_and!; [apply (sm_rings _ _ _ S)|done|done|]. intros p x Ex. unfold entries in Ex. apply lookup_delete_Some in Ex as [H1 Ex]. apply lookup_delete_Some in Ex as [H2 Ex].
  destruct (entry_live c a p x S Ex ltac:(done) ltac:(done)) as (y & Ey & _). destruct (live_entry c a _ p y S Ey) as (x' & Ex' & Epl). rewrite Ex in Ex'. apply Some_inj in Ex'. subst x'. apply plain_fields in Epl as (_ & _ & _ & _ & Eic & Er & _).
  destruct (sm_held _ _ _ S p y Ey) as [Hh Hl]. rewrite Er, Eic, Hl, bool_decide_eq_true. fold (a_cached a). destruct (bool_decide_reflect (p ∈ a_cached a)) as [Hc|Hc].
  - split_and!; [lia|lia|done|]. split; [intros ->; by split|lia].
  - assert (a_held y <> 0) by (intros H0; apply Hc, elem_of_app; left; by apply Hl). split_and!; [lia|lia|done|]. split; [done|]. by intros [? _].
Qed.

(** C22: the representation stays well formed.  After any sequence of calls, in
    every shard the two rings are disjoint doubly linked rings, the hash table
    has in each bucket the chain of the entries whose hash belongs there, each
    key once, and exactly the entries of the rings; reference counts are
    positive, and an entry is in the ring of unused ones just when the cache
    alone refers to it. *)
Theorem cache_wellformed (capacity : Z) (ops : list (client_op V)) : zlen ops <= 2 ^ 31 -> client_session_legal capacity ops = true ->
  exists hs s, client_session capacity ops = Done (hs, s) /\ length (shard_ s) = 16%nat /\ Forall well_formed (shard_ s).
Proof.
  intros Hl L. destruct (client_session_spec capacity ops Hl L) as (hs & s & T & E & I & _). exists hs, s. split_and!; [done|apply (sh_length _ _ _ _ I)|]. apply Forall_forall. intros c Hc. apply list_elem_of_lookup in Hc as [j Ec].
  exact (sim_well_formed c _ (shard_sim _ _ _ _ j c I Hl Ec)).
Qed.
End Clients.

(** ** Instances *)

(** Three insertions into a shard of two; the oldest unused entry leaves. *)
Definition shard_calls : list (cache_op Z) :=
  [OpInsert 100 [1] 5 10 1 7; OpRelease 100; OpInsert 101 [2] 5 20 1 7; OpRelease 101; OpLookup [1] 5; OpInsert 102 [3] 9 30 1 7].

Lemma cache_refines_witness : exists c, cache_session 2 shard_calls = Done ([100; 0; 101; 0; 100; 102], c) /\ deleted c = [(7, [2], Some 20)] /\ lru_TotalCharge c = 2.
Proof.
  destruct (cache_refines 2 shard_calls) as (c & E & _ & Hd & Ht & _); [vm_compute; discriminate|vm_compute; reflexivity|]. exists c. split; [rewrite E; vm_compute; reflexivity|]. split; [rewrite Hd; vm_compute; reflexivity|].
  rewrite Ht. vm_compute. reflexivity.
Defined.

Lemma cache_within_capacity_witness : exists hs c, cache_session 2 (shard_calls ++ [OpInsert 103 [4] 9 40 1 7]) = Done (hs, c) /\ (lru_TotalCharge c <= capacity_ c \/ next (mem c) lru_ = Some lru_).
Proof. apply (cache_within_capacity 2 shard_calls 103 [4] 9 40 1 7); [vm_compute; reflexivity|vm_compute; reflexivity]. Defined.

(** A client that inserts under one key twice, erases another one and lets go of everything. *)
Definition client_calls : list (client_op Z) :=
  [CInsert 100 [1] 10 1 7; CInsert 101 [2] 20 1 7; CInsert 102 [1] 30 1 8; CLookup [2]; CErase [2]; CRelease 100; CRelease 101; CRelease 101; CRelease 102].

Lemma cache_frees_once_witness : exists hs s cs, client_session 64 client_calls = Done (hs, s) /\ delete_ShardedLRUCache s = Done cs /\ (cs ≫= deleted) ≡ₚ [(7, [1], Some 10); (7, [2], Some 20); (8, [1], Some 30)].
Proof.
  destruct (cache_frees_once 64 client_calls) as (hs & s & E & _ & H); [vm_compute; discriminate|vm_compute; reflexivity|].
  assert (Hu : forallb unheld (shard_ s) = true). { assert (E' : (r ← client_session 64 client_calls; Done (forallb unheld (shard_ r.2))) = Done true) by (vm_compute; reflexivity). rewrite E in E'. cbn [mbind outcome_bind snd] in E'. by injection E'. }
  destruct (H Hu) as (cs & Ed & Hp & _). exists hs, s, cs. split; [exact E|]. split; [exact Ed|]. exact Hp.
Defined.

Lemma cache_lookup_latest_witness : exists hs s p s', client_session 64 client_calls = Done (hs, s) /\ cache_Lookup [1] s = Done (p, s') /\ cache_Value p s' = Done 30.
Proof.
  destruct (cache_lookup_latest 64 client_calls [1]) as (hs & s & p & s' & E & El & Hv & Hh); [vm_compute; reflexivity|vm_compute; reflexivity|].
  exists hs, s, p, s'. split; [exact E|]. split; [exact El|]. destruct Hv as (v & Ev & Elast); [apply Hh; [vm_compute; reflexivity|vm_compute; reflexivity|vm_compute; discriminate|vm_compute; discriminate]|].
  rewrite Ev. f_equal. vm_compute in Elast. by injection Elast.
Defined.

Lemma cache_wellformed_witness : exists hs s, client_session 64 client_calls = Done (hs, s) /\ length (shard_ s) = 16%nat /\ Forall well_formed (shard_ s).
Proof. apply (cache_wellformed 64 client_calls); [vm_compute; discriminate|vm_compute; reflexivity]. Defined.
