(* ===== verification/LdbSstTheorems.v ===== *)
(** * LdbSstTheorems: whole tables, the properties.

    What [TableBuilder] writes, [Table] reads: over any file, any cache that gives
    out what was put in, any comparator and any filter policy that keep their
    contracts. *)

From Stdlib Require Import ZifyBool Sorting.Sorted.
From stdpp Require Import base tactics numbers list gmap strings sorting.
From S2P Require Import Prelude PbOStream PbWire LdbCoding LdbCrc LdbCrcSpec LdbLog LdbLogSpec LdbBloom LdbKey LdbKeySpec LdbBatch LdbTheorems LdbIter LdbBlock LdbBlockSpec LdbBlockIter LdbBlockBuild LdbFormat LdbFilter LdbTwoLevel LdbTable LdbTableWrite LdbTableRead LdbTableTheorems LdbCacheShards.
Open Scope Z_scope.

(** Calls of [InternalGet], with the cache that each leaves. *)
Fixpoint gets {F C} `{!RandomAccessFile F} `{!Cache C} `{!Snappy} (buf ubuf : Z) (t : Table F) (options : ReadOptions) (ks : list (list Z)) (cache : option C) : outcome (list (Status * option entry)) :=
  match ks with
  | [] => Done []
  | k :: ks => '(s, found, cache) ← InternalGet buf ubuf t options k cache; rest ← gets buf ubuf t options ks cache; Done ((s, found) :: rest)
  end.

(** What a table is made from. *)
Record table_params (o : Options) (valid : list Z -> Prop) (cmp : list Z -> list Z -> Z) (same : list Z -> list Z -> Prop) (B : Z) (es : list entry) : Prop := {
  tp_comparator : GoodComparator (comparator o) valid cmp;
  tp_short : ShortComparator (comparator o) valid;
  tp_apart : KeepsApart (comparator o) valid cmp same;
  tp_interval : 1 <= block_restart_interval o;
  tp_compression : compression o = kNoCompression \/ compression o = kSnappyCompression;
  tp_policy p : filter_policy o = Some p -> GoodPolicy p valid same B /\ Forall is_byte (Name p) /\ zlen (Name p) < 2 ^ 16;
  tp_bytes : 0 <= B;
  tp_good : Forall (fun e => good_entry (valid := valid) e) es;
  tp_sorted : sorted_entries (cmp := cmp) es;
  tp_size : (B + 8) * total_cost es + 2 ^ 20 < 2 ^ 31;
}.

Section Tables.
Context {W : Type} `{GW : GoodFile W} {F : Type} `{!RandomAccessFile F} {rcontents : F -> list Z} `{!GoodRandomFile rcontents} `{SN : !Snappy} `{!GoodSnappy}.
Context {C : Type} `{!Cache C} {cached : C -> list Z -> Block -> Prop} `{!GoodCache cached}.
Context (addr_of : list Z -> Z) (Haddr : forall bs, zlen bs < 2 ^ 62 -> address (addr_of bs) (zlen bs)) (buf ubuf : Z) (Hbuf : address buf (2 ^ 35)).
Context (o : Options) (valid : list Z -> Prop) (cmp : list Z -> list Z -> Z) (same : list Z -> list Z -> Prop) (B : Z) (es : list entry) (P : table_params o valid cmp same B es).

Lemma build_table_good (file : W) : contents file = [] ->
  exists r, build_table addr_of o file es = Done (OK, r) /\ is_table (valid := valid) (cmp := cmp) o same (contents (r_file r)) es.
Proof.
  intros Hf. destruct P. eapply (build_table_spec addr_of Haddr o tp_interval0 tp_compression0 same B tp_bytes0 tp_policy0 file es Hf); done.
Qed.

Lemma names p : filter_policy o = Some p -> Forall is_byte (Name p).
Proof. intros E. by apply (tp_policy _ _ _ _ _ _ P). Qed.

Lemma gets_spec file blks hs idx fh mh ih t options : table_file (valid := valid) (cmp := cmp) o same (rcontents file) blks hs idx fh mh ih -> concat blks = es ->
  good_table (valid := valid) (cmp := cmp) o same file blks hs idx mh t -> forall ks cache, cache_good (cached := cached) (valid := valid) (cmp := cmp) o blks hs (t_cache_id t) cache -> Forall valid ks ->
  exists rs, gets buf ubuf t options ks cache = Done rs /\
    Forall2 (fun k r => r.1 = OK /\ (forall e, r.2 = Some e -> es !! lower_bound cmp k es = Some e) /\
      (forall e, es !! lower_bound cmp k es = Some e -> same k e.1 -> r.2 = Some e)) ks rs.
Proof.
  intros T Ecat G. pose proof (tp_comparator _ _ _ _ _ _ P) as GC. induction ks as [|k ks IH]; intros cache Hc Hk; [by exists []|]. apply Forall_cons in Hk as [Hk Hks].
  destruct (InternalGet_spec buf ubuf Hbuf o same names file blks hs idx fh mh ih T t options k cache G Hc Hk) as (found & cache' & E & Hc' & H1' & H2'). rewrite Ecat in *.
  cbn [gets]. rewrite E. cbn [mbind outcome_bind]. destruct (IH cache' Hc' Hks) as (rs & -> & Hrs). cbn [mbind outcome_bind]. eexists. split; [done|]. by constructor.
Qed.
(** C10: a table gives back its entries.  Entries in order are added to a table
    builder, which finishes without error; the file is opened as a table
    without error, and its iterator, with or without a cache, reads exactly the
    entries forward, reads them in reverse backward, and seeks to the first entry
    that is not before the target. *)
Theorem table_roundtrip (file : W) : contents file = [] ->
  exists r, build_table addr_of o file es = Done (OK, r) /\
    forall (rf : F) options footer_space (cache : option C), rcontents rf = contents (r_file r) -> fresh (cached := cached) cache ->
      exists t cache' it, Open buf ubuf o rf (zlen (rcontents rf)) footer_space cache = Done (OK, Some t, cache') /\ table_NewIterator t options cache' = Done it /\
        let iterator := table_iterator buf ubuf t options in
        (forall fuel, (length es < fuel)%nat ->
          (it ← vSeekToFirst it; scan_forward fuel it) = Done es /\ (it ← vSeekToLast it; scan_backward fuel it) = Done (reverse es)) /\
        (forall target, valid target -> exists it', vSeek target it = Done it' /\ vstatus it' = OK /\
          forall fuel, (length es < fuel)%nat -> scan_forward fuel it' = Done (drop (lower_bound cmp target es) es)).
Proof.
  intros Hf. destruct (build_table_good file Hf) as (r & E & Ht). exists r. split; [done|]. intros rf options space cache Erf Hfresh. rewrite <- Erf in Ht.
  destruct Ht as (blks & hs & idx & fh & mh & ih & T & Ecat). destruct (Open_spec buf ubuf Hbuf o same names rf blks hs idx fh mh ih T space cache Hfresh) as (t & cache' & Eo & G & Hc).
  pose proof (tp_comparator _ _ _ _ _ _ P) as GC. destruct (table_NewIterator_spec o same rf blks hs idx mh t options cache' G Hc) as (it & Eit & At).
  pose proof (table_cursor (cached := cached) buf ubuf Hbuf o same rf blks hs idx fh mh ih T t options G) as Cu. rewrite Ecat in *.
  exists t, cache', it. split; [done|]. split; [done|]. cbv zeta. set (iterator := table_iterator buf ubuf t options) in *. split; [intros fuel Hfuel; by apply (scan_all it (length es))|].
  intros target Hv. destruct (cur_seek it _ target At Hv) as (it' & E' & At'). exists it'. split; [done|]. split; [exact (cur_status _ _ At')|].
  intros fuel Hfuel. apply scan_forward_spec; [done|lia].
Qed.

(** C5: lookups in a table are exact.  Over the finished file, any sequence of
    [InternalGet] calls succeeds, whatever the filter and the cache do between
    them; what a call finds is the first entry that is not before the key, and
    if that entry is alike to the key (for internal keys: of the same user key)
    the call finds it. *)
Theorem table_get_exact (file : W) : contents file = [] ->
  exists r, build_table addr_of o file es = Done (OK, r) /\
    forall (rf : F) options footer_space (cache : option C) ks, rcontents rf = contents (r_file r) -> fresh (cached := cached) cache -> Forall valid ks ->
      exists t cache' rs, Open buf ubuf o rf (zlen (rcontents rf)) footer_space cache = Done (OK, Some t, cache') /\ gets buf ubuf t options ks cache' = Done rs /\
        Forall2 (fun k r => r.1 = OK /\ (forall e, r.2 = Some e -> es !! lower_bound cmp k es = Some e) /\
          (forall e, es !! lower_bound cmp k es = Some e -> same k e.1 -> r.2 = Some e)) ks rs.
Proof.
  intros Hf. destruct (build_table_good file Hf) as (r & E & Ht). exists r. split; [done|]. intros rf options space cache ks Erf Hfresh Hks. rewrite <- Erf in Ht.
  destruct Ht as (blks & hs & idx & fh & mh & ih & T & Ecat). destruct (Open_spec buf ubuf Hbuf o same names rf blks hs idx fh mh ih T space cache Hfresh) as (t & cache' & Eo & G & Hc).
  destruct (gets_spec rf blks hs idx fh mh ih t options T Ecat G ks cache' Hc Hks) as (rs & Eg & Hrs). by exists t, cache', rs.
Qed.
End Tables.

(** ** Instances *)

(** The LRU cache, with room for eight megabytes. *)
Definition new_blocks : lru_blocks 8388608 := MkLruBlocks 8388608 [] ltac:(vm_compute; reflexivity).

Lemma weaken_policy p (valid valid' : list Z -> Prop) same B : (forall k, valid' k -> valid k) -> GoodPolicy p valid same B -> GoodPolicy p valid' same B.
Proof.
  intros Hv G. split; [|intros k Hk; by apply policy_empty, Hv]. intros keys dst Hk Hn. destruct (policy_create keys dst) as (f & E & Hm & Ht & Hb & Hs); [by eapply Forall_impl|done|].
  exists f. split_and!; [done| | |done|done]; [intros k k' Hkv; by apply Hm, Hv|intros k Hkv; by apply Ht, Hv].
Qed.


#[local] Existing Instance no_snappy.

(** Tables of strings in byte order, with a Bloom filter. *)
Definition string_options : Options := MkOptions BytewiseComparator 1 true 40 2 kNoCompression (Some (bloom_policy (MkBloom 10 6))).
Definition string_entries : list entry := [([97; 98], [1; 2; 3]); ([97; 99], replicate 30 7); ([98], [5]); ([100; 1], [6])].

Ltac name_bytes := apply (bool_decide_unpack _); vm_compute; exact I.

Lemma string_params : table_params string_options (Forall is_byte) lex (fun k k' => k = k') 20 string_entries.
Proof.
  split.
  - exact _.
  - exact _.
  - exact _.
  - cbn. lia.
  - by left.
  - intros p [= <-]. split; [|split; [name_bytes|vm_compute; reflexivity]]. apply (weaken_policy _ (fun _ => True)); [done|]. apply (bloom_policy_good (MkBloom 10 6)). unfold bloom_ok. cbn. lia.
  - lia.
  - unfold good_entry, string_entries. repeat (apply Forall_cons_2; [split_and!; cbn [fst snd replicate]; byte_list|]). apply Forall_nil_2.
  - unfold sorted_entries, string_entries. sorted_list.
  - vm_compute. reflexivity.
Qed.

(** Addresses with room for any block. *)
Lemma const_address (bs : list Z) : zlen bs < 2 ^ 62 -> address 4096 (zlen bs).
Proof. intros Hl. unfold address. lia. Qed.

Lemma large_address : address 4096 (2 ^ 35).
Proof. unfold address. lia. Qed.

Lemma fresh_empty : fresh (cached := lb_cached 8388608) (Some new_blocks).
Proof. intros c [= <-] off b E. done. Qed.

Lemma table_roundtrip_witness :
  exists r t cache it, build_table (fun _ => 4096) string_options ([] : list Z) string_entries = Done (OK, r) /\
    Open 4096 8192 string_options (r_file r) (zlen (r_file r)) 1000 (Some new_blocks) = Done (OK, Some t, cache) /\
    table_NewIterator t (MkReadOptions true true) cache = Done it /\
    (it ← vSeekToFirst (Iterator := table_iterator 4096 8192 t (MkReadOptions true true)) it; scan_forward (Iterator0 := table_iterator 4096 8192 t (MkReadOptions true true)) 5 it) = Done string_entries.
Proof.
  destruct (table_roundtrip (GW := string_good) (C := lru_blocks 8388608) (cached := lb_cached 8388608) (F := list Z) (rcontents := fun f => f) (fun _ => 4096) const_address 4096 8192 large_address string_options (Forall is_byte) lex (fun k k' => k = k') 20 string_entries
    string_params ([] : list Z) eq_refl) as (r & E & H).
  destruct (H (r_file r) (MkReadOptions true true) 1000 (Some new_blocks) eq_refl fresh_empty) as (t & cache & it & Eo & Ei & Hscan & _).
  exists r, t, cache, it. split; [exact E|]. split; [exact Eo|]. split; [exact Ei|]. apply Hscan. cbn. lia.
Defined.

(** Tables of a database: internal keys, and filters of their user keys. *)
Definition version_key (user : list Z) (seq : Z) : list Z := user ++ EncodeFixed64 (seq * 256 + 1).
Definition database_options : Options :=
  MkOptions (InternalKeyComparator BytewiseComparator) 1 true 4096 16 kSnappyCompression (Some (InternalFilterPolicy (bloom_policy (MkBloom 10 6)))).
Definition database_entries : list entry := [(version_key [97] 9, [1]); (version_key [97] 5, [2]); (version_key [98] 7, [3])].

Lemma version_key_valid user seq : Forall is_byte user -> 0 <= seq < 2 ^ 50 -> valid_ikey (Forall is_byte) (version_key user seq).
Proof. intros Hu Hs. apply valid_ikey_app; [lia|done]. Qed.

Lemma version_key_good user seq value : Forall is_byte user -> 0 <= seq < 2 ^ 50 -> Forall is_byte value -> good_entry (valid := valid_ikey (Forall is_byte)) (version_key user seq, value).
Proof.
  intros Hu Hs Hv. split_and!; cbn [fst snd]; [by apply version_key_valid| |done].
  by apply (short_bytes (c := InternalKeyComparator BytewiseComparator)), version_key_valid.
Qed.

Lemma database_params : table_params database_options (valid_ikey (Forall is_byte)) (icmp lex) (fun k k' => user_part k = user_part k') 20 database_entries.
Proof.
  split.
  - exact _.
  - exact _.
  - exact _.
  - cbn. lia.
  - by right.
  - intros p [= <-]. split; [|split; [name_bytes|vm_compute; reflexivity]].
    apply (weaken_policy _ (fun k => (8 <= length k)%nat /\ True)); [intros k (Hl & _); by split|].
    apply (internal_policy_good (bloom_policy (MkBloom 10 6)) (fun _ => True) (fun k k' => k = k')). apply (bloom_policy_good (MkBloom 10 6)). unfold bloom_ok. cbn. lia.
  - lia.
  - unfold database_entries. repeat (apply Forall_cons_2; [apply version_key_good; [byte_list|lia|byte_list]|]). apply Forall_nil_2.
  - unfold sorted_entries, database_entries. sorted_list.
  - vm_compute. reflexivity.
Qed.

(** At sequence number 6 the key has its older value. *)
Lemma table_get_exact_witness :
  exists r t cache rs, build_table (fun _ => 4096) database_options ([] : list Z) database_entries = Done (OK, r) /\
    Open 4096 8192 database_options (r_file r) (zlen (r_file r)) 1000 (Some new_blocks) = Done (OK, Some t, cache) /\
    gets 4096 8192 t (MkReadOptions true true) [version_key [97] 6; version_key [98] 7] cache = Done rs /\ rs !! 0%nat = Some (OK, Some (version_key [97] 5, [2])).
Proof.
  destruct (table_get_exact (GW := string_good) (C := lru_blocks 8388608) (cached := lb_cached 8388608) (F := list Z) (rcontents := fun f => f) (fun _ => 4096) const_address 4096 8192 large_address database_options (valid_ikey (Forall is_byte)) (icmp lex)
    (fun k k' => user_part k = user_part k') 20 database_entries database_params ([] : list Z) eq_refl) as (r & E & H).
  destruct (H (r_file r) (MkReadOptions true true) 1000 (Some new_blocks) [version_key [97] 6; version_key [98] 7] eq_refl fresh_empty) as (t & cache & rs & Eo & Eg & Hrs).
  { repeat (apply Forall_cons_2; [apply version_key_valid; [byte_list|lia]|]). apply Forall_nil_2. }
  exists r, t, cache, rs. split; [exact E|]. split; [exact Eo|]. split; [exact Eg|]. inversion Hrs as [|k [s f] ks rs' (Es & _ & Hf) _]. subst. cbn [fst snd] in *.
  rewrite (Hf (version_key [97] 5, [2]) eq_refl eq_refl), Es. reflexivity.
Defined.
