(* ===== verification/LdbEdit.v ===== *)
(** * LdbEdit: edits of versions (db/version_edit.h, db/version_edit.cc).

    A set of pairs, which a C++ set keeps in order, is a list in increasing
    order.  [InternalKey] wraps the string of an internal key. *)

From Stdlib Require Import ZifyBool.
From stdpp Require Import base tactics numbers list gmap strings sorting.
From S2P Require Import Prelude PbOStream PbWire LdbCoding LdbLog LdbBatch.
Open Scope Z_scope.

Definition kNumLevels : Z := 7.

(** [InternalKey::Encode], with its assertion. *)
Definition ik_Encode (rep : list Z) : outcome (list Z) := if bool_decide (rep = []) then Undef else Done rep.

Record FileMetaData : Type := MkFile {
  f_refs : Z;
  allowed_seeks : Z;
  number : Z;
  file_size : Z;
  smallest : list Z;
  largest : list Z;
}.
Definition new_FileMetaData (n size : Z) (small large : list Z) : FileMetaData := MkFile 0 (Z.shiftl 1 30) n size small large.

Record VersionEdit : Type := MkEdit {
  comparator_ : list Z;
  log_number_ : Z;
  prev_log_number_ : Z;
  next_file_number_ : Z;
  last_sequence_ : Z;
  has_comparator_ : bool;
  has_log_number_ : bool;
  has_prev_log_number_ : bool;
  has_next_file_number_ : bool;
  has_last_sequence_ : bool;
  compact_pointers_ : list (Z * list Z);
  deleted_files_ : list (Z * Z);
  new_files_ : list (Z * FileMetaData);
}.

(** [Clear] leaves [compact_pointers_] as they are. *)
Definition ve_Clear (e : VersionEdit) : VersionEdit := MkEdit [] 0 0 0 0 false false false false false (compact_pointers_ e) [] [].
Definition new_VersionEdit : VersionEdit := ve_Clear (MkEdit [] 0 0 0 0 false false false false false [] [] []).

Definition SetComparatorName (name : list Z) (e : VersionEdit) : VersionEdit :=
  MkEdit name (log_number_ e) (prev_log_number_ e) (next_file_number_ e) (last_sequence_ e) true (has_log_number_ e) (has_prev_log_number_ e) (has_next_file_number_ e) (has_last_sequence_ e)
    (compact_pointers_ e) (deleted_files_ e) (new_files_ e).
Definition SetLogNumber (num : Z) (e : VersionEdit) : VersionEdit :=
  MkEdit (comparator_ e) num (prev_log_number_ e) (next_file_number_ e) (last_sequence_ e) (has_comparator_ e) true (has_prev_log_number_ e) (has_next_file_number_ e) (has_last_sequence_ e)
    (compact_pointers_ e) (deleted_files_ e) (new_files_ e).
Definition SetPrevLogNumber (num : Z) (e : VersionEdit) : VersionEdit :=
  MkEdit (comparator_ e) (log_number_ e) num (next_file_number_ e) (last_sequence_ e) (has_comparator_ e) (has_log_number_ e) true (has_next_file_number_ e) (has_last_sequence_ e)
    (compact_pointers_ e) (deleted_files_ e) (new_files_ e).
Definition SetNextFile (num : Z) (e : VersionEdit) : VersionEdit :=
  MkEdit (comparator_ e) (log_number_ e) (prev_log_number_ e) num (last_sequence_ e) (has_comparator_ e) (has_log_number_ e) (has_prev_log_number_ e) true (has_last_sequence_ e)
    (compact_pointers_ e) (deleted_files_ e) (new_files_ e).
Definition SetLastSequence (seq : Z) (e : VersionEdit) : VersionEdit :=
  MkEdit (comparator_ e) (log_number_ e) (prev_log_number_ e) (next_file_number_ e) seq (has_comparator_ e) (has_log_number_ e) (has_prev_log_number_ e) (has_next_file_number_ e) true
    (compact_pointers_ e) (deleted_files_ e) (new_files_ e).
Definition set_lists (ps : list (Z * list Z)) (ds : list (Z * Z)) (fs : list (Z * FileMetaData)) (e : VersionEdit) : VersionEdit :=
  MkEdit (comparator_ e) (log_number_ e) (prev_log_number_ e) (next_file_number_ e) (last_sequence_ e) (has_comparator_ e) (has_log_number_ e) (has_prev_log_number_ e) (has_next_file_number_ e) (has_last_sequence_ e) ps ds fs.
Definition SetCompactPointer (level : Z) (key : list Z) (e : VersionEdit) : VersionEdit := set_lists (compact_pointers_ e ++ [(level, key)]) (deleted_files_ e) (new_files_ e) e.
Definition push_file (level : Z) (f : FileMetaData) (e : VersionEdit) : VersionEdit := set_lists (compact_pointers_ e) (deleted_files_ e) (new_files_ e ++ [(level, f)]) e.
Definition AddFile (level file size : Z) (small large : list Z) (e : VersionEdit) : VersionEdit := push_file level (new_FileMetaData file size small large) e.

(** [std::set<std::pair<int, uint64_t>>] *)
Definition pair_lt (x y : Z * Z) : bool := (x.1 <? y.1) || ((x.1 =? y.1) && (x.2 <? y.2)).
Fixpoint set_insert (x : Z * Z) (l : list (Z * Z)) : list (Z * Z) :=
  match l with
  | [] => [x]
  | y :: l' => if pair_lt x y then x :: l else if pair_lt y x then y :: set_insert x l' else l
  end.
Definition DeleteFile (level file : Z) (e : VersionEdit) : VersionEdit := set_lists (compact_pointers_ e) (set_insert (level, file) (deleted_files_ e)) (new_files_ e) e.

(** ** version_edit.cc *)

Definition kComparator : Z := 1.
Definition kLogNumber : Z := 2.
Definition kNextFileNumber : Z := 3.
Definition kLastSequence : Z := 4.
Definition kCompactPointer : Z := 5.
Definition kDeletedFile : Z := 6.
Definition kNewFile : Z := 7.
Definition kPrevLogNumber : Z := 9.

Fixpoint encode_pointers (ps : list (Z * list Z)) (dst : list Z) : outcome (list Z) :=
  match ps with
  | [] => Done dst
  | (level, key) :: ps =>
    k ← ik_Encode key;
    encode_pointers ps (PutLengthPrefixedSlice (PutVarint32 (PutVarint32 dst kCompactPointer) (u32 level)) k)
  end.
Fixpoint encode_deleted (ds : list (Z * Z)) (dst : list Z) : outcome (list Z) :=
  match ds with
  | [] => Done dst
  | (level, file) :: ds => dst ← PutVarint64 (PutVarint32 (PutVarint32 dst kDeletedFile) (u32 level)) file; encode_deleted ds dst
  end.
Fixpoint encode_files (fs : list (Z * FileMetaData)) (dst : list Z) : outcome (list Z) :=
  match fs with
  | [] => Done dst
  | (level, f) :: fs =>
    dst ← PutVarint64 (PutVarint32 (PutVarint32 dst kNewFile) (u32 level)) (number f);
    dst ← PutVarint64 dst (file_size f);
    s ← ik_Encode (smallest f);
    let dst := PutLengthPrefixedSlice dst s in
    l ← ik_Encode (largest f);
    encode_files fs (PutLengthPrefixedSlice dst l)
  end.
(** [if (has) { PutVarint32(dst, tag); PutVarint64(dst, v); }] *)
Definition encode_number (has : bool) (tag v : Z) (dst : list Z) : outcome (list Z) := if has then PutVarint64 (PutVarint32 dst tag) v else Done dst.

Definition EncodeTo (e : VersionEdit) (dst : list Z) : outcome (list Z) :=
  let dst := if has_comparator_ e then PutLengthPrefixedSlice (PutVarint32 dst kComparator) (comparator_ e) else dst in
  dst ← encode_number (has_log_number_ e) kLogNumber (log_number_ e) dst;
  dst ← encode_number (has_prev_log_number_ e) kPrevLogNumber (prev_log_number_ e) dst;
  dst ← encode_number (has_next_file_number_ e) kNextFileNumber (next_file_number_ e) dst;
  dst ← encode_number (has_last_sequence_ e) kLastSequence (last_sequence_ e) dst;
  dst ← encode_pointers (compact_pointers_ e) dst;
  dst ← encode_deleted (deleted_files_ e) dst;
  encode_files (new_files_ e) dst.

Definition GetInternalKey (input : list Z) : option (list Z * list Z) := GetLengthPrefixedSlice input.
Definition GetLevel (input : list Z) : option (Z * list Z) :=
  match GetVarint32 input with
  | Some (v, rest) => if v <? kNumLevels then Some (v, rest) else None
  | None => None
  end.

(** What a tag is followed by; the message on the left. *)
Definition decode_field (tag : Z) (input : list Z) (e : VersionEdit) : string + (list Z * VersionEdit) :=
  let or (msg : string) (r : option (list Z * VersionEdit)) := match r with Some x => inr x | None => inl msg end in
  if tag =? kComparator then or "comparator name" ('(s, input) ← GetLengthPrefixedSlice input; Some (input, SetComparatorName s e))
  else if tag =? kLogNumber then or "log number" ('(v, input) ← GetVarint64 input; Some (input, SetLogNumber v e))
  else if tag =? kPrevLogNumber then or "previous log number" ('(v, input) ← GetVarint64 input; Some (input, SetPrevLogNumber v e))
  else if tag =? kNextFileNumber then or "next file number" ('(v, input) ← GetVarint64 input; Some (input, SetNextFile v e))
  else if tag =? kLastSequence then or "last sequence number" ('(v, input) ← GetVarint64 input; Some (input, SetLastSequence v e))
  else if tag =? kCompactPointer then
    or "compaction pointer" ('(level, input) ← GetLevel input; '(key, input) ← GetInternalKey input; Some (input, SetCompactPointer level key e))
  else if tag =? kDeletedFile then
    or "deleted file" ('(level, input) ← GetLevel input; '(v, input) ← GetVarint64 input; Some (input, DeleteFile level v e))
  else if tag =? kNewFile then
    or "new-file entry" ('(level, input) ← GetLevel input; '(n, input) ← GetVarint64 input; '(size, input) ← GetVarint64 input;
      '(small, input) ← GetInternalKey input; '(large, input) ← GetInternalKey input; Some (input, push_file level (new_FileMetaData n size small large) e))
  else inl "unknown tag".

(** The loop, with the message, the rest of the input and the edit. *)
Fixpoint decode_loop (fuel : nat) (input : list Z) (e : VersionEdit) : outcome (option string * list Z * VersionEdit) :=
  match fuel with
  | O => NoFuel
  | S fuel =>
    match GetVarint32 input with
    | None => Done (None, input, e)
    | Some (tag, input) =>
      match decode_field tag input e with
      | inl msg => Done (Some msg, input, e)
      | inr (input, e) => decode_loop fuel input e
      end
    end
  end.

Definition ve_DecodeFrom (src : list Z) (e : VersionEdit) : outcome (Status * VersionEdit) :=
  '(msg, input, e) ← decode_loop (S (length src)) src (ve_Clear e);
  let msg := match msg with None => if bool_decide (input = []) then None else Some "invalid tag"%string | Some m => Some m end in
  Done (match msg with Some m => Corruption ("VersionEdit: " +:+ m) | None => OK end, e).

(** * The bytes of an edit.

    An edit is written as a sequence of tagged fields; reading a sequence of
    fields applies them one after the other. *)


Inductive field : Type :=
  | FComparator (name : list Z)
  | FLog (n : Z)
  | FPrevLog (n : Z)
  | FNextFile (n : Z)
  | FLastSequence (n : Z)
  | FPointer (level : Z) (key : list Z)
  | FDeleted (level file : Z)
  | FNew (level file size : Z) (small large : list Z).

Definition field_bytes (x : field) : list Z :=
  match x with
  | FComparator name => wire_varint kComparator ++ slice_bytes name
  | FLog n => wire_varint kLogNumber ++ wire_varint n
  | FPrevLog n => wire_varint kPrevLogNumber ++ wire_varint n
  | FNextFile n => wire_varint kNextFileNumber ++ wire_varint n
  | FLastSequence n => wire_varint kLastSequence ++ wire_varint n
  | FPointer level key => wire_varint kCompactPointer ++ wire_varint level ++ slice_bytes key
  | FDeleted level file => wire_varint kDeletedFile ++ wire_varint level ++ wire_varint file
  | FNew level file size small large => wire_varint kNewFile ++ wire_varint level ++ wire_varint file ++ wire_varint size ++ slice_bytes small ++ slice_bytes large
  end.

Definition apply_field (e : VersionEdit) (x : field) : VersionEdit :=
  match x with
  | FComparator name => SetComparatorName name e
  | FLog n => SetLogNumber n e
  | FPrevLog n => SetPrevLogNumber n e
  | FNextFile n => SetNextFile n e
  | FLastSequence n => SetLastSequence n e
  | FPointer level key => SetCompactPointer level key e
  | FDeleted level file => DeleteFile level file e
  | FNew level file size small large => AddFile level file size small large e
  end.

(** Numbers and keys that a field can have. *)
Definition uint64 (n : Z) : Prop := 0 <= n < 2 ^ 64.
Definition is_level (n : Z) : Prop := 0 <= n < kNumLevels.
Definition is_ikey (key : list Z) : Prop := key <> [] /\ zlen key < 2 ^ 32.
Definition good_field (x : field) : Prop :=
  match x with
  | FComparator name => zlen name < 2 ^ 32
  | FLog n | FPrevLog n | FNextFile n | FLastSequence n => uint64 n
  | FPointer level key => is_level level /\ is_ikey key
  | FDeleted level file => is_level level /\ uint64 file
  | FNew level file size small large => is_level level /\ uint64 file /\ uint64 size /\ is_ikey small /\ is_ikey large
  end.

(** ** Reading *)

Lemma get_level level rest : is_level level -> GetLevel (wire_varint level ++ rest) = Some (level, rest).
Proof. unfold is_level, GetLevel, kNumLevels. intros Hl. rewrite get_varint32_digits by lia. destruct (Z.ltb_spec level 7); [done|lia]. Qed.

Lemma read_field x rest e : good_field x -> exists tag input, GetVarint32 (field_bytes x ++ rest) = Some (tag, input) /\ decode_field tag input e = inr (rest, apply_field e x).
Proof.
  intros G. assert (Htag : forall tag more, 0 <= tag < 10 -> GetVarint32 ((wire_varint tag ++ more) ++ rest) = Some (tag, more ++ rest)) by (intros tag more Ht; rewrite <- app_assoc; apply get_varint32_digits; lia).
  destruct x; cbn [field_bytes good_field apply_field] in *; unfold is_ikey in *; eexists _, _; (split; [apply Htag; cbv; by split|]); unfold decode_field; cbn [Z.eqb kComparator kLogNumber kPrevLogNumber kNextFileNumber kLastSequence kCompactPointer kDeletedFile kNewFile Pos.eqb]; cbv zeta iota; rewrite <- ?app_assoc.
  - by rewrite get_slice.
  - by rewrite get_varint64_digits.
  - by rewrite get_varint64_digits.
  - by rewrite get_varint64_digits.
  - by rewrite get_varint64_digits.
  - destruct G as (G1 & _ & G2). rewrite get_level by done. cbn [mbind option_bind]. unfold GetInternalKey. by rewrite get_slice.
  - destruct G as (G1 & G2). rewrite get_level by done. cbn [mbind option_bind]. by rewrite get_varint64_digits.
  - destruct G as (G1 & G2 & G3 & G4 & G5). rewrite get_level by done. cbn [mbind option_bind]. rewrite get_varint64_digits by done. cbn [mbind option_bind]. rewrite get_varint64_digits by done. cbn [mbind option_bind].
    unfold GetInternalKey. rewrite get_slice by apply G4. cbn [mbind option_bind]. by rewrite get_slice by apply G5.
Qed.

Lemma read_fields xs : forall fuel e, Forall good_field xs -> (length xs < fuel)%nat -> decode_loop fuel (concat (map field_bytes xs)) e = Done (None, [], fold_left apply_field xs e).
Proof.
  induction xs as [|x xs IH]; intros fuel e Hg Hf; (destruct fuel as [|fuel]; [lia|]); cbn [decode_loop map concat fold_left]; [done|]. apply Forall_cons in Hg as [Hx Hg]. destruct (read_field x (concat (map field_bytes xs)) e Hx) as (tag & input & -> & ->).
  apply IH; [done|cbn in Hf; lia].
Qed.

Lemma field_nonempty x : (1 <= length (field_bytes x))%nat.
Proof. destruct x; cbn [field_bytes]; rewrite !length_app; match goal with |- context [wire_varint ?t] => pose proof (wire_varint_length t) end; lia. Qed.

Lemma fields_length xs : (length xs <= length (concat (map field_bytes xs)))%nat.
Proof. induction xs as [|x xs IH]; [done|]. cbn [map concat length]. rewrite length_app. pose proof (field_nonempty x). lia. Qed.

(** ** Writing *)

Definition optional {A} (b : bool) (x : A) : list A := if b then [x] else [].
Definition fields (e : VersionEdit) : list field :=
  optional (has_comparator_ e) (FComparator (comparator_ e)) ++ optional (has_log_number_ e) (FLog (log_number_ e)) ++ optional (has_prev_log_number_ e) (FPrevLog (prev_log_number_ e)) ++
  optional (has_next_file_number_ e) (FNextFile (next_file_number_ e)) ++ optional (has_last_sequence_ e) (FLastSequence (last_sequence_ e)) ++
  map (fun p => FPointer p.1 p.2) (compact_pointers_ e) ++ map (fun p => FDeleted p.1 p.2) (deleted_files_ e) ++
  map (fun p => FNew p.1 (number p.2) (file_size p.2) (smallest p.2) (largest p.2)) (new_files_ e).

Definition bytes_of (xs : list field) : list Z := concat (map field_bytes xs).
Lemma bytes_app xs ys : bytes_of (xs ++ ys) = bytes_of xs ++ bytes_of ys.
Proof. unfold bytes_of. by rewrite map_app, concat_app. Qed.

Lemma put_tag dst tag : 0 <= tag < 10 -> PutVarint32 dst tag = dst ++ wire_varint tag.
Proof. intros Ht. unfold PutVarint32. by rewrite encode_varint32_digits by lia. Qed.
Lemma put_level dst level : is_level level -> PutVarint32 dst (u32 level) = dst ++ wire_varint level.
Proof. unfold is_level, kNumLevels. intros Hl. rewrite u32_small by lia. apply put_tag. lia. Qed.
Lemma ik_encode key : is_ikey key -> ik_Encode key = Done key.
Proof. intros [Hk _]. unfold ik_Encode. by rewrite bool_decide_false. Qed.

Lemma write_number has tag v (x : field) dst : 0 <= tag < 10 -> field_bytes x = wire_varint tag ++ wire_varint v -> (has = true -> uint64 v) -> encode_number has tag v dst = Done (dst ++ bytes_of (optional has x)).
Proof.
  intros Ht Hx Hv. unfold encode_number, bytes_of. destruct has; cbn [optional map concat]; [|by rewrite app_nil_r]. rewrite app_nil_r, Hx, put_tag, put_varint64_digits by (try done; by apply Hv). by rewrite <- app_assoc.
Qed.

Lemma write_pointers ps : forall dst, Forall good_field (map (fun p => FPointer p.1 p.2) ps) -> encode_pointers ps dst = Done (dst ++ bytes_of (map (fun p => FPointer p.1 p.2) ps)).
Proof.
  induction ps as [|[level key] ps IH]; intros dst G; cbn [encode_pointers map]; [by rewrite app_nil_r|]. apply Forall_cons in G as [(G1 & G2) G]. cbn [fst snd] in *. rewrite ik_encode by done. cbn [mbind outcome_bind].
  rewrite put_slice, put_level, put_tag by (try done; apply G2). rewrite IH by done. unfold bytes_of. cbn [map concat field_bytes fst snd]. by rewrite <- !app_assoc.
Qed.

Lemma write_deleted ds : forall dst, Forall good_field (map (fun p => FDeleted p.1 p.2) ds) -> encode_deleted ds dst = Done (dst ++ bytes_of (map (fun p => FDeleted p.1 p.2) ds)).
Proof.
  induction ds as [|[level file] ds IH]; intros dst G; cbn [encode_deleted map]; [by rewrite app_nil_r|]. apply Forall_cons in G as [(G1 & G2) G]. cbn [fst snd] in *. rewrite put_level, put_tag, put_varint64_digits by done. cbn [mbind outcome_bind].
  rewrite IH by done. unfold bytes_of. cbn [map concat field_bytes fst snd]. by rewrite <- !app_assoc.
Qed.

Abbreviation new_field := (fun p : Z * FileMetaData => FNew p.1 (number p.2) (file_size p.2) (smallest p.2) (largest p.2)).
Lemma write_files fs : forall dst, Forall good_field (map new_field fs) -> encode_files fs dst = Done (dst ++ bytes_of (map new_field fs)).
Proof.
  induction fs as [|[level f] fs IH]; intros dst G; cbn [encode_files map]; [by rewrite app_nil_r|]. apply Forall_cons in G as [(G1 & G2 & G3 & G4 & G5) G]. cbn [fst snd] in *. rewrite put_level, put_tag, put_varint64_digits by done. cbn [mbind outcome_bind].
  rewrite put_varint64_digits by done. cbn [mbind outcome_bind]. rewrite ik_encode by done. cbn [mbind outcome_bind]. cbv zeta. rewrite ik_encode by done. cbn [mbind outcome_bind]. rewrite put_slice by apply G5. rewrite put_slice by apply G4. rewrite IH by exact G.
  unfold bytes_of. cbn [map concat field_bytes fst snd]. by rewrite <- !app_assoc.
Qed.

Lemma write_edit e dst : Forall good_field (fields e) -> EncodeTo e dst = Done (dst ++ bytes_of (fields e)).
Proof.
  unfold fields. rewrite !Forall_app. intros (G1 & G2 & G3 & G4 & G5 & G6 & G7 & G8). unfold EncodeTo. cbv zeta.
  assert (Hnum : forall b n (x : field), Forall good_field (optional b x) -> (good_field x -> uint64 n) -> b = true -> uint64 n) by (intros b n x H Hx ->; cbn in H; apply Forall_cons in H as [H _]; by apply Hx).
  assert (E1 : (if has_comparator_ e then PutLengthPrefixedSlice (PutVarint32 dst kComparator) (comparator_ e) else dst) = dst ++ bytes_of (optional (has_comparator_ e) (FComparator (comparator_ e)))).
  { unfold bytes_of. destruct (has_comparator_ e); cbn [optional map concat] in *; [|by rewrite app_nil_r]. apply Forall_cons in G1 as [G1 _]. cbn in G1. rewrite app_nil_r, put_slice, put_tag by done. cbn [field_bytes]. by rewrite <- app_assoc. }
  rewrite E1. rewrite (write_number _ _ _ (FLog (log_number_ e))); [|done|done|by apply (Hnum _ _ _ G2)]. cbn [mbind outcome_bind]. rewrite (write_number _ _ _ (FPrevLog (prev_log_number_ e))); [|done|done|by apply (Hnum _ _ _ G3)]. cbn [mbind outcome_bind].
  rewrite (write_number _ _ _ (FNextFile (next_file_number_ e))); [|done|done|by apply (Hnum _ _ _ G4)]. cbn [mbind outcome_bind]. rewrite (write_number _ _ _ (FLastSequence (last_sequence_ e))); [|done|done|by apply (Hnum _ _ _ G5)]. cbn [mbind outcome_bind].
  rewrite write_pointers by done. cbn [mbind outcome_bind]. rewrite write_deleted by done. cbn [mbind outcome_bind]. rewrite write_files by done. rewrite !bytes_app. by rewrite <- !app_assoc.
Qed.

(** ** Edits made by the setters *)

Record canonical (e : VersionEdit) : Prop := {
  cn_comparator : has_comparator_ e = false -> comparator_ e = [];
  cn_log : has_log_number_ e = false -> log_number_ e = 0;
  cn_prev : has_prev_log_number_ e = false -> prev_log_number_ e = 0;
  cn_next : has_next_file_number_ e = false -> next_file_number_ e = 0;
  cn_last : has_last_sequence_ e = false -> last_sequence_ e = 0;
  cn_deleted : StronglySorted (fun x y => pair_lt x y = true) (deleted_files_ e);
  cn_files : Forall (fun p => p.2 = new_FileMetaData (number p.2) (file_size p.2) (smallest p.2) (largest p.2)) (new_files_ e);
}.

Lemma pair_lt_trans x y z : pair_lt x y = true -> pair_lt y z = true -> pair_lt x z = true.
Proof. unfold pair_lt. lia. Qed.
Lemma pair_lt_irrefl x : pair_lt x x = false.
Proof. unfold pair_lt. lia. Qed.

Lemma elem_set_insert x l y : y ∈ set_insert x l -> y = x \/ y ∈ l.
Proof.
  induction l as [|z l IH]; cbn [set_insert]; [intros H; left; by apply list_elem_of_singleton|]. destruct (pair_lt x z); [rewrite elem_of_cons; tauto|]. destruct (pair_lt z x); [|tauto]. rewrite !elem_of_cons. tauto.
Qed.

Lemma set_insert_sorted x l : StronglySorted (fun x y => pair_lt x y = true) l -> StronglySorted (fun x y => pair_lt x y = true) (set_insert x l).
Proof.
  induction 1 as [|y l Hs IH Hy]; cbn [set_insert]; [repeat constructor|]. destruct (pair_lt x y) eqn:Exy.
  - constructor; [by constructor|]. constructor; [done|]. eapply Forall_impl; [exact Hy|]. intros z Hz. by apply (pair_lt_trans x y z).
  - destruct (pair_lt y x) eqn:Eyx; [|by constructor]. constructor; [done|]. apply Forall_forall. intros z Hz. apply elem_set_insert in Hz as [->|Hz]; [done|]. by apply (proj1 (Forall_forall _ _) Hy).
Qed.

(** Elements inserted in order stay in order. *)
Lemma set_insert_last x l : Forall (fun y => pair_lt y x = true) l -> set_insert x l = l ++ [x].
Proof.
  induction 1 as [|y l Hy Hl IH]; [done|]. cbn [set_insert app]. destruct (pair_lt x y) eqn:E; [pose proof (pair_lt_trans x y x E Hy); rewrite pair_lt_irrefl in *; done|]. by rewrite Hy, IH.
Qed.

Lemma fold_deleted ds : forall e, StronglySorted (fun x y => pair_lt x y = true) (deleted_files_ e ++ ds) ->
  fold_left apply_field (map (fun p => FDeleted p.1 p.2) ds) e = set_lists (compact_pointers_ e) (deleted_files_ e ++ ds) (new_files_ e) e.
Proof.
  induction ds as [|[level file] ds IH]; intros e Hs; cbn [map fold_left apply_field fst snd]; [rewrite app_nil_r; by destruct e|].
  assert (E : set_insert (level, file) (deleted_files_ e) = deleted_files_ e ++ [(level, file)]).
  { apply set_insert_last, Forall_forall. intros y Hy. apply (StronglySorted_app_1_elem_of _ _ _ _ _ Hs Hy). apply list_elem_of_here. }
  rewrite IH; unfold DeleteFile; cbn [deleted_files_ set_lists]; rewrite E; [|by rewrite <- app_assoc]. rewrite <- app_assoc. by destruct e.
Qed.

Lemma fold_pointers ps : forall e, fold_left apply_field (map (fun p => FPointer p.1 p.2) ps) e = set_lists (compact_pointers_ e ++ ps) (deleted_files_ e) (new_files_ e) e.
Proof.
  induction ps as [|[level key] ps IH]; intros e; cbn [map fold_left apply_field fst snd]; [rewrite app_nil_r; by destruct e|]. rewrite IH. unfold SetCompactPointer. cbn [compact_pointers_ set_lists deleted_files_ new_files_]. rewrite <- app_assoc. by destruct e.
Qed.

Lemma fold_files fs : forall e, Forall (fun p => p.2 = new_FileMetaData (number p.2) (file_size p.2) (smallest p.2) (largest p.2)) fs ->
  fold_left apply_field (map new_field fs) e = set_lists (compact_pointers_ e) (deleted_files_ e) (new_files_ e ++ fs) e.
Proof.
  induction fs as [|[level f] fs IH]; intros e Hf; cbn [map fold_left apply_field fst snd]; [rewrite app_nil_r; by destruct e|]. apply Forall_cons in Hf as [Hf Hfs]. cbn [fst snd] in Hf. rewrite IH by done. unfold AddFile, push_file. cbn [compact_pointers_ set_lists deleted_files_ new_files_].
  rewrite <- Hf, <- app_assoc. by destruct e.
Qed.

(** Reading into an edit that has pointers keeps them. *)
Definition with_pointers (ps : list (Z * list Z)) (e : VersionEdit) : VersionEdit := set_lists (ps ++ compact_pointers_ e) (deleted_files_ e) (new_files_ e) e.

Lemma fold_fields e e0 : canonical e -> fold_left apply_field (fields e) (ve_Clear e0) = with_pointers (compact_pointers_ e0) e.
Proof.
  intros C. unfold fields. rewrite !fold_left_app. set (e1 := fold_left apply_field _ _) at 4.
  assert (E1 : e1 = set_lists (compact_pointers_ e0) [] [] e).
  { unfold e1. destruct C as [C1 C2 C3 C4 C5 _ _]. destruct e as [co lo pr ne la hc hl hp hn hs ps ds fs]. cbn [has_comparator_ has_log_number_ has_prev_log_number_ has_next_file_number_ has_last_sequence_ comparator_ log_number_ prev_log_number_ next_file_number_ last_sequence_] in *.
    destruct hc; [|rewrite C1 by done]; (destruct hl; [|rewrite C2 by done]); (destruct hp; [|rewrite C3 by done]); (destruct hn; [|rewrite C4 by done]); (destruct hs; [|rewrite C5 by done]); reflexivity. }
  rewrite E1. rewrite fold_pointers, fold_deleted by (cbn; apply (cn_deleted _ C)). rewrite fold_files by apply (cn_files _ C). unfold with_pointers. by destruct e.
Qed.

Lemma apply_canonical e x : canonical e -> canonical (apply_field e x).
Proof.
  intros [C1 C2 C3 C4 C5 C6 C7]. destruct x; split; cbn; try done; [by apply set_insert_sorted|]. apply Forall_app. split; [done|]. by constructor.
Qed.

Lemma apply_good e x : Forall good_field (fields e) -> good_field x -> Forall good_field (fields (apply_field e x)).
Proof.
  unfold fields. rewrite !Forall_app. intros (G1 & G2 & G3 & G4 & G5 & G6 & G7 & G8) Gx. assert (H1 : forall y, good_field y -> Forall good_field [y]) by (intros y Hy; by constructor).
  destruct x; cbn [apply_field]; split_and!; cbn -[good_field kNumLevels]; try done; try (by apply H1).
  - rewrite map_app, Forall_app. split; [done|]. by apply H1.
  - apply Forall_forall. intros y Hy. apply list_elem_of_fmap in Hy as ([l f] & -> & Hy). apply elem_set_insert in Hy as [[= -> ->]|Hy]; [done|]. apply (proj1 (Forall_forall _ _) G7). apply list_elem_of_fmap. by exists (l, f).
  - rewrite map_app, Forall_app. split; [done|]. by apply H1.
Qed.

Lemma built_good xs : forall e, canonical e -> Forall good_field (fields e) -> Forall good_field xs -> canonical (fold_left apply_field xs e) /\ Forall good_field (fields (fold_left apply_field xs e)).
Proof.
  induction xs as [|x xs IH]; intros e C G Hx; [done|]. apply Forall_cons in Hx as [Hx Hxs]. cbn [fold_left]. apply IH; [by apply apply_canonical|by apply apply_good|done].
Qed.

Lemma new_canonical : canonical new_VersionEdit.
Proof. split; cbn; try done; constructor. Qed.

(** ** Arbitrary input *)

Lemma varint32_fallback_shorter p : forall shift r v rest, varint32_fallback p shift r = Some (v, rest) -> (length rest < length p)%nat.
Proof. induction p as [|b p IH]; intros shift r v rest; cbn [varint32_fallback]; destruct (shift <=? 28); try done. destruct (negb _); [intros E; apply IH in E; cbn; lia|]. intros [= _ <-]. cbn. lia. Qed.
Lemma get_varint32_shorter p v rest : GetVarint32 p = Some (v, rest) -> (length rest < length p)%nat.
Proof. unfold GetVarint32, GetVarint32Ptr. destruct p as [|b p]; [by apply varint32_fallback_shorter|]. destruct (Z.land b 128 =? 0); [intros [= _ <-]; cbn; lia|by apply varint32_fallback_shorter]. Qed.
Lemma varint64_ptr_shorter p : forall shift r v rest, varint64_ptr p shift r = Some (v, rest) -> (length rest < length p)%nat.
Proof. induction p as [|b p IH]; intros shift r v rest; cbn [varint64_ptr]; destruct (shift <=? 63); try done. destruct (negb _); [intros E; apply IH in E; cbn; lia|]. intros [= _ <-]. cbn. lia. Qed.
Lemma get_varint64_shorter p v rest : GetVarint64 p = Some (v, rest) -> (length rest < length p)%nat.
Proof. apply varint64_ptr_shorter. Qed.
Lemma get_slice_shorter p v rest : GetLengthPrefixedSlice p = Some (v, rest) -> (length rest < length p)%nat.
Proof.
  unfold GetLengthPrefixedSlice. destruct (GetVarint32 p) as [[len q]|] eqn:E; [|done]. cbn [mbind option_bind]. apply get_varint32_shorter in E. destruct (len <=? zlen q); [|done]. intros [= _ <-]. rewrite length_drop. lia.
Qed.
Lemma get_level_shorter p v rest : GetLevel p = Some (v, rest) -> (length rest < length p)%nat.
Proof. unfold GetLevel. destruct (GetVarint32 p) as [[w q]|] eqn:E; [|done]. apply get_varint32_shorter in E. destruct (w <? kNumLevels); [|done]. by intros [= _ <-]. Qed.

Ltac shorter := repeat match goal with
  | E : GetVarint64 _ = Some (_, _) |- _ => apply get_varint64_shorter in E
  | E : GetLengthPrefixedSlice _ = Some (_, _) |- _ => apply get_slice_shorter in E
  | E : GetLevel _ = Some (_, _) |- _ => apply get_level_shorter in E
  end.

Lemma decode_field_shorter tag input e rest e' : decode_field tag input e = inr (rest, e') -> (length rest < length input)%nat.
Proof.
  unfold decode_field, GetInternalKey. cbv zeta.
  repeat match goal with
    | |- context [if ?b then _ else _] => destruct b
    | |- context [GetVarint64 ?p] => let E := fresh "E" in destruct (GetVarint64 p) as [[? ?]|] eqn:E; cbn [mbind option_bind]; [|done]
    | |- context [GetLengthPrefixedSlice ?p] => let E := fresh "E" in destruct (GetLengthPrefixedSlice p) as [[? ?]|] eqn:E; cbn [mbind option_bind]; [|done]
    | |- context [GetLevel ?p] => let E := fresh "E" in destruct (GetLevel p) as [[? ?]|] eqn:E; cbn [mbind option_bind]; [|done]
    end; try done; intros [= -> _]; shorter; lia.
Qed.

(** Reading always ends, with a message or at a place where no tag can be read. *)
Lemma decode_loop_total fuel : forall input e, (length input < fuel)%nat -> exists msg rest e', decode_loop fuel input e = Done (msg, rest, e').
Proof.
  induction fuel as [|fuel IH]; intros input e Hf; [lia|]. cbn [decode_loop]. destruct (GetVarint32 input) as [[tag p]|] eqn:E; [|by eexists _, _, _]. apply get_varint32_shorter in E.
  destruct (decode_field tag p e) as [msg|[rest e']] eqn:Ef; [by eexists _, _, _|]. apply decode_field_shorter in Ef. apply IH. lia.
Qed.
