(* ===== verification/LdbVersion.v ===== *)
(** * LdbVersion: versions and the choice of files (db/version_set.cc).

    A version is its lists of files, one per level.  Vectors of pointers to
    files are lists of files; the reference counts of versions, which only say
    when to free them, are left out.  The order of user keys and the tables of
    the files are interfaces. *)

From Stdlib Require Import ZifyBool.
From stdpp Require Import base tactics numbers list gmap strings sorting.
From S2P Require Import Prelude LdbCoding LdbLog LdbKey LdbIter LdbTable LdbEdit.
Open Scope Z_scope.

Abbreviation Files := (list FileMetaData).

(** ** Sizes *)

Section Sizes.
(** [options->max_file_size] *)
Context (max_file_size : Z).
Definition TargetFileSize : Z := max_file_size.
Definition MaxGrandParentOverlapBytes : Z := s64 (u64 (10 * TargetFileSize)).
Definition ExpandedCompactionByteSizeLimit : Z := s64 (u64 (25 * TargetFileSize)).
Definition MaxFileSizeForLevel (level : Z) : Z := TargetFileSize.
End Sizes.

(** [int64_t sum] with [uint64_t] sizes added to it. *)
Definition TotalFileSize (files : Files) : Z := fold_left (fun sum f => s64 (u64 (sum + file_size f))) files 0.

Section Versions.
(** [icmp.user_comparator()] *)
Context (ucmp : Comparator).

(** [InternalKeyComparator::Compare] of two [InternalKey]s. *)
Definition ik_Compare (a b : list Z) : outcome Z := a ← ik_Encode a; b ← ik_Encode b; internal_compare ucmp a b.

(** ** Finding files *)

Fixpoint find_file (fuel : nat) (files : Files) (key : list Z) (left right : Z) : outcome Z :=
  match fuel with
  | O => NoFuel
  | S fuel =>
    if left <? right then
      let mid := u32 (left + right) / 2 in
      f ← demand (files !! Z.to_nat mid);
      k ← ik_Encode (largest f);
      r ← internal_compare ucmp k key;
      if r <? 0 then find_file fuel files key (u32 (mid + 1)) right else find_file fuel files key left mid
    else Done right
  end.
Definition FindFile (files : Files) (key : list Z) : outcome Z := find_file (S (length files)) files key 0 (u32 (zlen files)).

(** A null pointer to a key is [None]. *)
Definition AfterFile (user_key : option (list Z)) (f : FileMetaData) : outcome bool :=
  match user_key with
  | None => Done false
  | Some u => l ← ExtractUserKey (largest f); r ← Compare ucmp u l; Done (0 <? r)
  end.
Definition BeforeFile (user_key : option (list Z)) (f : FileMetaData) : outcome bool :=
  match user_key with
  | None => Done false
  | Some u => s ← ExtractUserKey (smallest f); r ← Compare ucmp u s; Done (r <? 0)
  end.

Fixpoint some_overlaps (files : Files) (small large : option (list Z)) : outcome bool :=
  match files with
  | [] => Done false
  | f :: files =>
    a ← AfterFile small f;
    b ← (if a : bool then Done true else BeforeFile large f);
    if b : bool then some_overlaps files small large else Done true
  end.

(** [InternalKey(user_key, s, t)] *)
Definition new_InternalKey (user : list Z) (seq t : Z) : outcome (list Z) := AppendInternalKey [] (MkParsed user seq t).

Definition SomeFileOverlapsRange (disjoint_sorted_files : bool) (files : Files) (small large : option (list Z)) : outcome bool :=
  if negb disjoint_sorted_files then some_overlaps files small large
  else
    index ← match small with
      | None => Done 0
      | Some u => k ← new_InternalKey u kMaxSequenceNumber kValueTypeForSeek; k ← ik_Encode k; FindFile files k
      end;
    if zlen files <=? index then Done false
    else f ← demand (files !! Z.to_nat index); b ← BeforeFile large f; Done (negb b).

(** ** The files of a level as an iterator *)

Record LevelFileNumIterator : Type := MkLevelIter { flist_ : Files; index_ : Z }.
Definition new_LevelFileNumIterator (flist : Files) : LevelFileNumIterator := MkLevelIter flist (u32 (zlen flist)).
Definition lf_Valid (it : LevelFileNumIterator) : bool := index_ it <? zlen (flist_ it).
Definition lf_Seek (target : list Z) (it : LevelFileNumIterator) : outcome LevelFileNumIterator := i ← FindFile (flist_ it) target; Done (MkLevelIter (flist_ it) i).
Definition lf_SeekToFirst (it : LevelFileNumIterator) : LevelFileNumIterator := MkLevelIter (flist_ it) 0.
Definition lf_SeekToLast (it : LevelFileNumIterator) : LevelFileNumIterator :=
  MkLevelIter (flist_ it) (if bool_decide (flist_ it = []) then 0 else u32 (zlen (flist_ it) - 1)).
Definition lf_Next (it : LevelFileNumIterator) : outcome LevelFileNumIterator := if lf_Valid it then Done (MkLevelIter (flist_ it) (u32 (index_ it + 1))) else Undef.
Definition lf_Prev (it : LevelFileNumIterator) : outcome LevelFileNumIterator :=
  if lf_Valid it then Done (MkLevelIter (flist_ it) (if index_ it =? 0 then u32 (zlen (flist_ it)) else index_ it - 1)) else Undef.
Definition lf_file (it : LevelFileNumIterator) : outcome FileMetaData := if lf_Valid it then demand (flist_ it !! Z.to_nat (index_ it)) else Undef.
Definition lf_key (it : LevelFileNumIterator) : outcome (list Z) := f ← lf_file it; ik_Encode (largest f).
Definition lf_value (it : LevelFileNumIterator) : outcome (list Z) := f ← lf_file it; Done (EncodeFixed64 (number f) ++ EncodeFixed64 (file_size f)).

#[export] Instance level_iterator : Iterator LevelFileNumIterator :=
  MkIterator LevelFileNumIterator lf_Valid (fun it => Done (lf_SeekToFirst it)) (fun it => Done (lf_SeekToLast it)) lf_Seek lf_Next lf_Prev lf_key lf_value (fun _ => OK).

(** ** Version::Get *)

(** [TableCache::Get]: the status, and what [saver] is called with, if it is. *)
Class TableCache (C : Type) : Type := { tc_Get : ReadOptions -> Z -> Z -> list Z -> C -> outcome (Status * option entry * C) }.

Inductive SaverState : Type := kNotFound | kFound | kDeleted | kCorrupt.
Record Saver : Type := MkSaver { state : SaverState; saver_user_key : list Z; saver_value : list Z }.

Definition SaveValue (s : Saver) (ikey v : list Z) : outcome Saver :=
  parsed ← ParseInternalKey ikey;
  match parsed with
  | None => Done (MkSaver kCorrupt (saver_user_key s) (saver_value s))
  | Some p =>
    r ← Compare ucmp (user_key p) (saver_user_key s);
    if r =? 0 then
      if type_ p =? kTypeValue then Done (MkSaver kFound (saver_user_key s) v) else Done (MkSaver kDeleted (saver_user_key s) (saver_value s))
    else Done s
  end.

(** [std::sort] by [NewestFirst]. *)
Definition newest_first (a b : FileMetaData) : Prop := number b <= number a.
#[export] Instance newest_first_dec : RelDecision newest_first.
Proof. intros a b. unfold newest_first. apply _. Defined.

Record GetStats : Type := MkStats { seek_file : option FileMetaData; seek_file_level : Z }.

Context {C : Type} `{!TableCache C}.

Record Lookup_ : Type := MkLookup { l_stats : GetStats; last_file_read : option FileMetaData; last_file_read_level : Z; l_value : list Z; l_cache : C }.

(** The message of a status made from two slices. *)
Definition status_message (msg : string) (msg2 : list Z) : string :=
  if bool_decide (msg2 = []) then msg
  else msg +:+ ": " +:+ String.string_of_list_ascii (map (fun b => Ascii.ascii_of_N (Z.to_N b)) msg2).

(** One file; a status ends the search. *)
Definition get_in_file (options : ReadOptions) (ikey user : list Z) (level : Z) (f : FileMetaData) (l : Lookup_) : outcome (option Status * Lookup_) :=
  let stats := match last_file_read l, seek_file (l_stats l) with Some g, None => MkStats (Some g) (last_file_read_level l) | _, _ => l_stats l end in
  '(s, found, cache) ← tc_Get options (number f) (file_size f) ikey (l_cache l);
  saver ← match found with
    | Some (k, v) => SaveValue (MkSaver kNotFound user (l_value l)) k v
    | None => Done (MkSaver kNotFound user (l_value l))
    end;
  let l := MkLookup stats (Some f) level (saver_value saver) cache in
  if negb (ok s) then Done (Some s, l)
  else
    Done (match state saver with
      | kNotFound => None
      | kFound => Some s
      | kDeleted => Some (NotFound "")
      | kCorrupt => Some (Corruption (status_message "corrupted key for " user))
      end, l).

Fixpoint get_in_files (options : ReadOptions) (ikey user : list Z) (level : Z) (files : Files) (l : Lookup_) : outcome (option Status * Lookup_) :=
  match files with
  | [] => Done (None, l)
  | f :: files =>
    '(s, l) ← get_in_file options ikey user level f l;
    match s with Some s => Done (Some s, l) | None => get_in_files options ikey user level files l end
  end.

(** The files of level 0 that have [user] in their range. *)
Fixpoint overlapping_user (user : list Z) (files : Files) : outcome Files :=
  match files with
  | [] => Done []
  | f :: files =>
    s ← ExtractUserKey (smallest f);
    r ← Compare ucmp user s;
    inside ← (if 0 <=? r then l ← ExtractUserKey (largest f); r ← Compare ucmp user l; Done (r <=? 0) else Done false);
    rest ← overlapping_user user files;
    Done (if inside : bool then f :: rest else rest)
  end.

(** The files of a level to search. *)
Definition files_to_search (level : Z) (ikey user : list Z) (files : Files) : outcome Files :=
  if level =? 0 then tmp ← overlapping_user user files; Done (merge_sort newest_first tmp)
  else
    index ← FindFile files ikey;
    if zlen files <=? index then Done []
    else
      f ← demand (files !! Z.to_nat index);
      s ← ExtractUserKey (smallest f);
      r ← Compare ucmp user s;
      Done (if r <? 0 then [] else [f]).

Fixpoint get_in_levels (options : ReadOptions) (ikey user : list Z) (level : Z) (levels : list Files) (l : Lookup_) : outcome (Status * Lookup_) :=
  match levels with
  | [] => Done (NotFound "", l)
  | files :: levels =>
    if bool_decide (files = []) then get_in_levels options ikey user (level + 1) levels l
    else
      search ← files_to_search level ikey user files;
      '(s, l) ← get_in_files options ikey user level search l;
      match s with Some s => Done (s, l) | None => get_in_levels options ikey user (level + 1) levels l end
  end.

(** [files_] has one list per level. *)
Definition version_Get (files_ : list Files) (options : ReadOptions) (ikey user value : list Z) (cache : C) : outcome (Status * Lookup_) :=
  get_in_levels options ikey user 0 files_ (MkLookup (MkStats None (-1)) None (-1) value cache).

(** ** Files that overlap a range *)

(** The loop over the files of the level; [restart] begins again with a wider range. *)
Fixpoint overlapping_inputs (fuel : nat) (level : Z) (all files : Files) (begin end_ : option (list Z)) (inputs : Files) : outcome Files :=
  match fuel with
  | O => NoFuel
  | S fuel =>
    match files with
    | [] => Done inputs
    | f :: files =>
      file_start ← ExtractUserKey (smallest f);
      file_limit ← ExtractUserKey (largest f);
      before ← match begin with Some b => r ← Compare ucmp file_limit b; Done (r <? 0) | None => Done false end;
      after ← (if before : bool then Done false else match end_ with Some e => r ← Compare ucmp file_start e; Done (0 <? r) | None => Done false end);
      if before || after then overlapping_inputs fuel level all files begin end_ inputs
      else
        let inputs := inputs ++ [f] in
        if level =? 0 then
          lower ← match begin with Some b => r ← Compare ucmp file_start b; Done (r <? 0) | None => Done false end;
          if lower : bool then overlapping_inputs fuel level all all (Some file_start) end_ []
          else
            higher ← match end_ with Some e => r ← Compare ucmp file_limit e; Done (0 <? r) | None => Done false end;
            if higher : bool then overlapping_inputs fuel level all all begin (Some file_limit) []
            else overlapping_inputs fuel level all files begin end_ inputs
        else overlapping_inputs fuel level all files begin end_ inputs
    end
  end.

Definition user_of (k : option (list Z)) : outcome (option (list Z)) := match k with Some k => u ← ExtractUserKey k; Done (Some u) | None => Done None end.

(** Every restart widens one end to the start or limit of a file. *)
Definition overlap_fuel (files : Files) : nat := S (length files) * S (2 * length files).
Definition GetOverlappingInputs (files_ : list Files) (level : Z) (begin end_ : option (list Z)) : outcome Files :=
  if (level <? 0) || (kNumLevels <=? level) then Undef
  else
    files ← demand (files_ !! Z.to_nat level);
    b ← user_of begin;
    e ← user_of end_;
    overlapping_inputs (overlap_fuel files) level files files b e [].

Definition OverlapInLevel (files_ : list Files) (level : Z) (small large : option (list Z)) : outcome bool :=
  files ← demand (files_ !! Z.to_nat level); SomeFileOverlapsRange (0 <? level) files small large.

Definition kMaxMemCompactLevel : Z := 2.

Fixpoint pick_level (fuel : nat) (max_file_size : Z) (files_ : list Files) (small large start limit : list Z) (level : Z) : outcome Z :=
  match fuel with
  | O => NoFuel
  | S fuel =>
    if level <? kMaxMemCompactLevel then
      o ← OverlapInLevel files_ (level + 1) (Some small) (Some large);
      if o : bool then Done level
      else
        stop ← (if level + 2 <? kNumLevels then
                  overlaps ← GetOverlappingInputs files_ (level + 2) (Some start) (Some limit);
                  Done (MaxGrandParentOverlapBytes max_file_size <? TotalFileSize overlaps)
                else Done false);
        if stop : bool then Done level else pick_level fuel max_file_size files_ small large start limit (level + 1)
    else Done level
  end.

Definition PickLevelForMemTableOutput (max_file_size : Z) (files_ : list Files) (small large : list Z) : outcome Z :=
  o ← OverlapInLevel files_ 0 (Some small) (Some large);
  if o : bool then Done 0
  else
    start ← new_InternalKey small kMaxSequenceNumber kValueTypeForSeek;
    limit ← new_InternalKey large 0 0;
    pick_level 3 max_file_size files_ small large start limit 0.
End Versions.
