(* ===== verification/LdbVersionSpec.v ===== *)
(** * LdbVersionSpec: files in order.

    The files of a level above 0 are in order and apart.  [FindFile] finds the
    first file whose largest key is not before the key; a level is a cursor over
    its files; and a range overlaps some file of a level just when the check
    says so. *)

From Stdlib Require Import ZifyBool Sorting.Sorted.
From stdpp Require Import base tactics numbers list gmap strings sorting.
From S2P Require Import Prelude LdbCoding LdbLog LdbKey LdbKeySpec LdbIter LdbTable LdbEdit LdbVersion.
Open Scope Z_scope.

Section Spec.
Context {ucmp : Comparator} {valid : list Z -> Prop} {cmp : list Z -> list Z -> Z} `{GC : !GoodComparator ucmp valid cmp}.
Abbreviation ic := (icmp cmp).
Abbreviation ivalid := (valid_ikey valid).

(** ** Files *)

Record good_file (f : FileMetaData) : Prop := {
  gf_smallest : ivalid (smallest f);
  gf_largest : ivalid (largest f);
  gf_order : ic (smallest f) (largest f) <= 0;
}.

(** [f] lies before [g]. *)
Definition before (f g : FileMetaData) : Prop := ic (largest f) (smallest g) < 0.
Definition apart (files : Files) : Prop := Forall good_file files /\ StronglySorted before files /\ zlen files < 2 ^ 31.

Lemma ivalid_encode k : ivalid k -> ik_Encode k = Done k.
Proof. intros (Hl & _). unfold ik_Encode. rewrite bool_decide_false; [done|]. intros ->. cbn in Hl. lia. Qed.

Lemma ivalid_compare a b : ivalid a -> ivalid b -> ik_Compare ucmp a b = Done (ic a b).
Proof. intros Ha Hb. unfold ik_Compare. rewrite !ivalid_encode by done. cbn [mbind outcome_bind]. by apply internal_compare_spec. Qed.

Lemma ivalid_user k : ivalid k -> ExtractUserKey k = Done (user_part k) /\ valid (user_part k).
Proof. intros (Hl & Hu & _). split; [by apply ExtractUserKey_spec|done]. Qed.

(** What an iterator over the files shows. *)
Definition file_entry (f : FileMetaData) : entry := (largest f, EncodeFixed64 (number f) ++ EncodeFixed64 (file_size f)).
Definition file_index (files : Files) : list entry := file_entry <$> files.

#[local] Instance ic_ordered : Ordered (internal_compare ucmp) ivalid ic := internal_ordered.

Lemma largest_sorted files : apart files -> forall i j f g, (i < j)%nat -> files !! i = Some f -> files !! j = Some g -> ic (largest f) (largest g) < 0.
Proof.
  intros (Hg & Hs & _) i j f g Hij Ef Eg. pose proof (sorted_lookup _ _ Hs i j f g Hij Ef Eg) as Hb. rewrite Forall_forall in Hg.
  destruct (Hg f) as [F1 F2 F3]; [by apply list_elem_of_lookup_2 with i|]. destruct (Hg g) as [G1 G2 G3]; [by apply list_elem_of_lookup_2 with j|]. by apply (cmp_lt_le (largest f) (smallest g) (largest g)).
Qed.

Lemma find_file_spec files key : Forall good_file files -> zlen files < 2 ^ 31 -> ivalid key ->
  (forall i j f g, (i < j)%nat -> files !! i = Some f -> files !! j = Some g -> ic (largest f) (largest g) <= 0) ->
  forall fuel left right, 0 <= left <= right -> right <= zlen files -> right - left < Z.of_nat fuel ->
  (forall i f, (i < Z.to_nat left)%nat -> files !! i = Some f -> ic (largest f) key < 0) -> (forall f, files !! Z.to_nat right = Some f -> 0 <= ic (largest f) key) ->
  find_file ucmp fuel files key left right = Done (Z.of_nat (lower_bound ic key (file_index files))).
Proof.
  intros Hg Hlen Hk Hs. induction fuel as [|fuel IH]; intros left right Hlr Hr Hf Hl Hh; [lia|]. cbn [find_file]. destruct (Z.ltb_spec left right) as [Hlt|Hge].
  - rewrite (u32_small (left + right)) by lia. set (mid := (left + right) / 2). assert (Hmid : left <= mid < right) by (unfold mid; split; [apply Z.div_le_lower_bound; lia|apply Z.div_lt_upper_bound; lia]).
    destruct (lookup_lt_is_Some_2 files (Z.to_nat mid)) as [f Ef]; [lia|]. rewrite Ef. cbn [demand mbind outcome_bind]. rewrite Forall_forall in Hg. destruct (Hg f) as [_ F2 _]; [by apply list_elem_of_lookup_2 with (Z.to_nat mid)|].
    rewrite ivalid_encode by done. cbn [mbind outcome_bind]. rewrite internal_compare_spec by done. cbn [mbind outcome_bind]. destruct (Z.ltb_spec (ic (largest f) key) 0) as [Hc|Hc].
    + rewrite u32_small by lia. apply IH; [lia|lia|lia| |done]. intros i g Hi Eg. destruct (decide (i = Z.to_nat mid)) as [->|Hne]; [congruence|]. apply (cmp_le_lt (largest g) (largest f) key); [apply Hg; by apply list_elem_of_lookup_2 with i|done|done| |done].
      apply (Hs i (Z.to_nat mid)); [lia|done|done].
    + apply IH; [lia|lia|lia|done|]. intros g Eg. congruence.
  - f_equal. assert (right = left) as -> by lia. rewrite <- (Z2Nat.id left) by lia. f_equal. apply lower_bound_unique.
    + unfold file_index. rewrite length_fmap. lia.
    + intros i e Hi Ee. unfold file_index in Ee. rewrite list_lookup_fmap in Ee. destruct (files !! i) as [f|] eqn:Ef; [|done]. injection Ee as <-. by apply (Hl i).
    + intros e Ee. unfold file_index in Ee. rewrite list_lookup_fmap in Ee. destruct (files !! Z.to_nat left) as [f|] eqn:Ef; [|done]. injection Ee as <-. by apply Hh.
Qed.

Lemma FindFile_spec files key : apart files -> ivalid key -> FindFile ucmp files key = Done (Z.of_nat (lower_bound ic key (file_index files))).
Proof.
  intros A Hk. pose proof A as (Hg & _ & Hl). unfold FindFile. rewrite u32_small by lia. apply find_file_spec; [done|done|done| |lia|lia|lia|intros i f Hi; lia|].
  - intros i j f g Hij Ef Eg. pose proof (largest_sorted files A i j f g Hij Ef Eg). lia.
  - intros f Ef. rewrite Nat2Z.id in Ef. by rewrite lookup_ge_None_2 in Ef.
Qed.

(** What the result says. *)
Lemma found_file files key : let n := lower_bound ic key (file_index files) in
  (n <= length files)%nat /\ (forall i f, (i < n)%nat -> files !! i = Some f -> ic (largest f) key < 0) /\ (forall f, files !! n = Some f -> 0 <= ic (largest f) key).
Proof.
  cbv zeta. pose proof (lower_bound_le ic key (file_index files)) as Hn. unfold file_index in Hn at 2. rewrite length_fmap in Hn. split_and!; [done| |].
  - intros i f Hi Ef. apply (lower_bound_before ic key (file_index files) i (file_entry f) Hi). unfold file_index. by rewrite list_lookup_fmap, Ef.
  - intros f Ef. apply (lower_bound_at ic key (file_index files) (file_entry f)). set (n := lower_bound _ _ _) in *. unfold file_index. by rewrite list_lookup_fmap, Ef.
Qed.

(** ** A level as a cursor *)

Definition level_at (files : Files) (it : LevelFileNumIterator) (i : nat) : Prop := flist_ it = files /\ index_ it = Z.of_nat i /\ (i <= length files)%nat.

Lemma level_file files it i f : level_at files it i -> files !! i = Some f -> lf_file it = Done f.
Proof.
  intros (E1 & E2 & _) Ef. unfold lf_file, lf_Valid. rewrite E1, E2. pose proof (lookup_lt_Some _ _ _ Ef). destruct (Z.ltb_spec (Z.of_nat i) (zlen files)); [|lia]. by rewrite Nat2Z.id, Ef.
Qed.

Lemma level_cursor files : apart files -> @Cursor LevelFileNumIterator (level_iterator ucmp) ivalid ic (file_index files) (level_at files).
Proof.
  intros A. pose proof A as (Hg & _ & Hl). assert (Hlen : length (file_index files) = length files) by apply length_fmap.
  split; cbn [vValid vSeekToFirst vSeekToLast vSeek vNext vPrev vkey vvalue vstatus level_iterator]; rewrite ?Hlen.
  - intros it i (_ & _ & H). done.
  - intros it i (E1 & E2 & _). unfold lf_Valid. rewrite E1, E2. apply eq_true_iff_eq. rewrite bool_decide_eq_true. lia.
  - intros it i e Hat Ee. unfold file_index in Ee. rewrite list_lookup_fmap in Ee. destruct (files !! i) as [f|] eqn:Ef; [|done]. injection Ee as <-. unfold lf_key, lf_value. rewrite (level_file files it i f Hat Ef). cbn [mbind outcome_bind].
    rewrite ivalid_encode; [done|]. rewrite Forall_forall in Hg. apply Hg. by apply list_elem_of_lookup_2 with i.
  - done.
  - intros it i (E1 & _ & _). eexists. split; [done|]. split_and!; [done|done|lia].
  - intros it i (E1 & _ & _). eexists. split; [done|]. unfold lf_SeekToLast. rewrite E1. split_and!; cbn [flist_ index_]; [done| |lia]. case_bool_decide as H; [by rewrite H|]. destruct files; [done|]. rewrite u32_small by (cbn [length] in *; lia). cbn [length]. lia.
  - intros it i target (E1 & _ & _) Ht. unfold lf_Seek. rewrite E1, (FindFile_spec files target A Ht). cbn [mbind outcome_bind]. eexists. split; [done|]. split_and!; [done|done|]. rewrite <- Hlen. apply lower_bound_le.
  - intros it i (E1 & E2 & _) Hi. unfold lf_Next, lf_Valid. rewrite E1, E2. destruct (Z.ltb_spec (Z.of_nat i) (zlen files)); [|lia]. eexists. split; [done|]. split_and!; cbn [flist_ index_]; [done|rewrite u32_small by lia; lia|lia].
  - intros it i (E1 & E2 & _) Hi. unfold lf_Prev, lf_Valid. rewrite E1, E2. destruct (Z.ltb_spec (Z.of_nat i) (zlen files)); [|lia]. eexists. split; [done|]. split_and!; cbn [flist_ index_]; [done| |].
    + destruct i as [|i]; cbn [pred_index]; [rewrite u32_small by lia; by rewrite Hlen|]. destruct (Z.eqb_spec (Z.of_nat (S i)) 0); lia.
    + destruct i; cbn [pred_index]; lia.
Qed.

(** ** Overlap *)

(** The range of user keys has none of the file's. *)
Definition ends_before (small : option (list Z)) (f : FileMetaData) : Prop := match small with Some u => 0 < cmp u (user_part (largest f)) | None => False end.
Definition starts_after (large : option (list Z)) (f : FileMetaData) : Prop := match large with Some u => cmp u (user_part (smallest f)) < 0 | None => False end.
Definition overlaps (small large : option (list Z)) (f : FileMetaData) : Prop := ~ ends_before small f /\ ~ starts_after large f.
Definition opt_valid (u : option (list Z)) : Prop := match u with Some u => valid u | None => True end.

Lemma AfterFile_spec small f : opt_valid small -> good_file f -> exists b, AfterFile ucmp small f = Done b /\ (b = true <-> ends_before small f).
Proof.
  intros Hv [_ F2 _]. destruct small as [u|]; cbn; [|by exists false]. destruct (ivalid_user _ F2) as [-> Hu]. cbn [mbind outcome_bind]. rewrite (cmp_total u _ Hv Hu). cbn [mbind outcome_bind]. eexists. split; [done|]. lia.
Qed.
Lemma BeforeFile_spec large f : opt_valid large -> good_file f -> exists b, BeforeFile ucmp large f = Done b /\ (b = true <-> starts_after large f).
Proof.
  intros Hv [F1 _ _]. destruct large as [u|]; cbn; [|by exists false]. destruct (ivalid_user _ F1) as [-> Hu]. cbn [mbind outcome_bind]. rewrite (cmp_total u _ Hv Hu). cbn [mbind outcome_bind]. eexists. split; [done|]. lia.
Qed.

Lemma some_overlaps_spec files small large : opt_valid small -> opt_valid large -> Forall good_file files -> exists b, some_overlaps ucmp files small large = Done b /\ (b = true <-> Exists (overlaps small large) files).
Proof.
  intros Hs Hl. induction 1 as [|f files Hf Hfs IH]; cbn [some_overlaps]; [exists false; split; [done|]; by rewrite Exists_nil|]. destruct IH as (b & E & Hb). destruct (AfterFile_spec small f Hs Hf) as (b1 & -> & H1). destruct (BeforeFile_spec large f Hl Hf) as (b2 & E2 & H2).
  cbn [mbind outcome_bind]. setoid_rewrite Exists_cons. unfold overlaps. destruct b1.
  - cbn [mbind outcome_bind]. exists b. split; [done|]. tauto.
  - rewrite E2. cbn [mbind outcome_bind]. destruct b2; [exists b|exists true]; (split; [done|]); [tauto|]. split; [|done]. intros _. left. split; intros H; [by apply H1 in H|by apply H2 in H].
Qed.

(** The earliest internal key of a user key. *)
Lemma seek_key u : valid u -> exists k, new_InternalKey u kMaxSequenceNumber kValueTypeForSeek = Done k /\ ivalid k /\ user_part k = u /\ (forall k', ivalid k' -> ic k' k < 0 <-> cmp (user_part k') u < 0 \/ (cmp (user_part k') u = 0 /\ tag_part k < tag_part k')) /\ tag_part k = kMaxSequenceNumber * 256 + kValueTypeForSeek.
Proof.
  intros Hu. unfold new_InternalKey, AppendInternalKey. cbn [sequence type_ user_key]. destruct (pack_spec kMaxSequenceNumber kValueTypeForSeek) as [-> Hn]; [done|done|]. cbn [mbind outcome_bind]. unfold PutFixed64. cbn [app].
  set (num := kMaxSequenceNumber * 256 + kValueTypeForSeek) in *. destruct (ikey_parts u num Hn) as (_ & Hup & Htp). eexists. split; [done|]. split_and!; [by apply valid_ikey_app|done| |done].
  intros k' _. unfold icmp. rewrite Hup, Htp. destruct (Z.eqb_spec (cmp (user_part k') u) 0) as [->|]; [|lia]. destruct (Z.ltb_spec num (tag_part k')); [lia|]. destruct (Z.ltb_spec (tag_part k') num); lia.
Qed.

(** Tags that pack a sequence number and a type. *)
Definition packed (k : list Z) : Prop := tag_part k <= kMaxSequenceNumber * 256 + kValueTypeForSeek.

Lemma overlaps_exact files disjoint small large : opt_valid small -> opt_valid large -> Forall good_file files -> (disjoint = true -> apart files /\ Forall (fun f => packed (largest f)) files) ->
  exists b, SomeFileOverlapsRange ucmp disjoint files small large = Done b /\ (b = true <-> Exists (overlaps small large) files).
Proof.
  intros Hs Hl Hg Hd. unfold SomeFileOverlapsRange. destruct disjoint; cbn [negb]; [|by apply some_overlaps_spec]. destruct (Hd eq_refl) as [A Hpk].
  assert (Hfind : exists n : nat, (match small with None => Done 0 | Some u => k ← new_InternalKey u kMaxSequenceNumber kValueTypeForSeek; k ← ik_Encode k; FindFile ucmp files k end) = Done (Z.of_nat n) /\
    (forall i f, (i < n)%nat -> files !! i = Some f -> ends_before small f) /\ (forall f, files !! n = Some f -> ~ ends_before small f) /\ (n <= length files)%nat).
  { destruct small as [u|]; [|exists 0%nat; split_and!; [done|intros; lia|intros f _ H; done|lia]]. destruct (seek_key u Hs) as (k & -> & Hk & _ & Hcmp & Htag). cbn [mbind outcome_bind]. rewrite ivalid_encode by done. cbn [mbind outcome_bind].
    rewrite (FindFile_spec files k A Hk). eexists. split; [done|]. destruct (found_file files k) as (Hn & Hb & Ha). rewrite !Forall_forall in Hg, Hpk.
    assert (Hiff : forall i f, files !! i = Some f -> ic (largest f) k < 0 <-> 0 < cmp u (user_part (largest f))).
    { intros i f Ef. assert (Hin : f ∈ files) by by apply list_elem_of_lookup_2 with i. specialize (Hpk f Hin). destruct (Hg f Hin) as [_ F2 _]. rewrite (Hcmp _ F2). destruct (ivalid_user _ F2) as [_ Hu]. pose proof (cmp_anti u (user_part (largest f)) Hs Hu). unfold packed in Hpk. rewrite Htag. lia. }
    split_and!; [|intros f Ef H|done]; cbn [ends_before] in *.
    - intros i f Hi Ef. apply (Hiff i f Ef). by apply (Hb i).
    - apply (Hiff _ f Ef) in H. specialize (Ha f Ef). lia. }
  destruct Hfind as (n & -> & Hb & Ha & Hn). cbn [mbind outcome_bind]. destruct (Z.leb_spec (zlen files) (Z.of_nat n)) as [Hge|Hlt].
  - exists false. split; [done|]. split; [done|]. intros Hex. apply Exists_exists in Hex as (f & Hin & Ho & _). apply list_elem_of_lookup in Hin as [i Ei]. exfalso. apply Ho, (Hb i); [|done]. apply lookup_lt_Some in Ei. lia.
  - rewrite Nat2Z.id. destruct (lookup_lt_is_Some_2 files n) as [f Ef]; [lia|]. rewrite Ef. cbn [demand mbind outcome_bind]. assert (Hin : f ∈ files) by by apply list_elem_of_lookup_2 with n. pose proof Hg as Hg'. rewrite Forall_forall in Hg'.
    destruct (BeforeFile_spec large f Hl (Hg' f Hin)) as (b & -> & Hbf). cbn [mbind outcome_bind]. exists (negb b). split; [done|]. rewrite negb_true_iff, Exists_exists. split.
    + intros ->. exists f. split; [done|]. split; [by apply Ha|]. intros H. by apply Hbf in H.
    + intros (g & Hg2 & Hog & Hsg). destruct b; [|done]. exfalso. apply Hsg. assert (Hsf : starts_after large f) by by apply Hbf. apply list_elem_of_lookup in Hg2 as [j Ej]. destruct large as [u|]; [|done]. cbn [starts_after opt_valid] in *.
      destruct (Nat.lt_trichotomy j n) as [H|[->|H]]; [exfalso; apply Hog; by apply (Hb j)|congruence|]. destruct A as (_ & Hsort & _). pose proof (sorted_lookup _ _ Hsort n j f g H Ef Ej) as Hbg. unfold before in Hbg.
      destruct (Hg' f Hin) as [F1 F2 F3], (Hg' g ltac:(by apply list_elem_of_lookup_2 with j)) as [G1 _ _]. assert (Hle : ic (smallest f) (smallest g) < 0) by by apply (cmp_le_lt (smallest f) (largest f) (smallest g)).
      apply icmp_le_users in Hle. destruct (ivalid_user _ F1) as [_ Hu1], (ivalid_user _ G1) as [_ Hu2]. by apply (cmp_lt_le u (user_part (smallest f)) (user_part (smallest g))).
Qed.
End Spec.

(** * The files that overlap a range of keys.

    [GetOverlappingInputs] begins again whenever a file of level 0 widens the
    range; it ends because each time fewer files stick out. *)


(** A filter that lets fewer through. *)
Lemma filter_fewer {A} (P Q : A -> bool) l x : x ∈ l -> (forall y, y ∈ l -> P y = true -> Q y = true) -> Q x = true -> P x = false ->
  (length (filter (fun y => P y = true) l) < length (filter (fun y => Q y = true) l))%nat.
Proof.
  intros Hx Hpq HQ HP. assert (Hle : forall l', (forall y, y ∈ l' -> P y = true -> Q y = true) -> (length (filter (fun y => P y = true) l') <= length (filter (fun y => Q y = true) l'))%nat).
  { induction l' as [|y l' IH]; intros H; [done|]. specialize (IH ltac:(intros z Hz; apply H; by apply list_elem_of_further)). specialize (H y (list_elem_of_here _ _)). rewrite !filter_cons. repeat case_decide; cbn [length]; solve [lia|tauto]. }
  apply list_elem_of_split in Hx as (l1 & l2 & ->). rewrite !filter_app, !filter_cons, HP, HQ. rewrite decide_False, decide_True by done. rewrite !length_app. cbn [length].
  pose proof (Hle l1 ltac:(intros y Hy; apply Hpq; apply elem_of_app; by left)). pose proof (Hle l2 ltac:(intros y Hy; apply Hpq; apply elem_of_app; right; by apply list_elem_of_further)). lia.
Qed.

Section Range.
Context {ucmp : Comparator} {valid : list Z -> Prop} {cmp : list Z -> list Z -> Z} `{GC : !GoodComparator ucmp valid cmp}.
Abbreviation opt_valid := (opt_valid (valid := valid)).
Abbreviation good_file := (good_file (valid := valid) (cmp := cmp)).

Definition start_of (f : FileMetaData) : list Z := user_part (smallest f).
Definition limit_of (f : FileMetaData) : list Z := user_part (largest f).

(** The file has keys from [b] to [e]. *)
Definition in_range (b e : option (list Z)) (f : FileMetaData) : bool :=
  match b with Some u => 0 <=? cmp (limit_of f) u | None => true end && match e with Some u => cmp (start_of f) u <=? 0 | None => true end.
(** It begins before [b]; it ends after [e]. *)
Definition below (b : option (list Z)) (f : FileMetaData) : bool := match b with Some u => cmp (start_of f) u <? 0 | None => false end.
Definition above (e : option (list Z)) (f : FileMetaData) : bool := match e with Some u => 0 <? cmp (limit_of f) u | None => false end.
Definition sticking_out (b e : option (list Z)) (fs : Files) : nat := (length (filter (fun f => below b f = true) fs) + length (filter (fun f => above e f = true) fs))%nat.

Definition lower_to (b b' : option (list Z)) : Prop := match b, b' with Some u, Some u' => cmp u' u <= 0 | None, None => True | _, _ => False end.
Definition raise_to (e e' : option (list Z)) : Prop := match e, e' with Some u, Some u' => cmp u u' <= 0 | None, None => True | _, _ => False end.

Lemma file_parts f : good_file f -> ExtractUserKey (smallest f) = Done (start_of f) /\ ExtractUserKey (largest f) = Done (limit_of f) /\ valid (start_of f) /\ valid (limit_of f).
Proof. intros [F1 F2 _]. destruct (ivalid_user _ F1), (ivalid_user _ F2). done. Qed.

Lemma lower_refl b : opt_valid b -> lower_to b b.
Proof. destruct b as [u|]; cbn; [|done]. intros Hu. pose proof (cmp_refl u Hu). lia. Qed.
Lemma raise_refl e : opt_valid e -> raise_to e e.
Proof. destruct e as [u|]; cbn; [|done]. intros Hu. pose proof (cmp_refl u Hu). lia. Qed.
Lemma lower_trans a b c : opt_valid a -> opt_valid b -> opt_valid c -> lower_to a b -> lower_to b c -> lower_to a c.
Proof. destruct a as [x|], b as [y|], c as [z|]; cbn; try done. intros Hx Hy Hz H1 H2. by apply (cmp_trans z y x). Qed.
Lemma raise_trans a b c : opt_valid a -> opt_valid b -> opt_valid c -> raise_to a b -> raise_to b c -> raise_to a c.
Proof. destruct a as [x|], b as [y|], c as [z|]; cbn; try done. intros Hx Hy Hz H1 H2. by apply (cmp_trans x y z). Qed.

(** Fewer files stick out of a wider range. *)
Lemma lower_sticks b e f fs : Forall good_file fs -> opt_valid b -> f ∈ fs -> below b f = true -> (sticking_out (Some (start_of f)) e fs < sticking_out b e fs)%nat.
Proof.
  intros Hg Hb Hf Hbf. rewrite Forall_forall in Hg. destruct (file_parts f (Hg f Hf)) as (_ & _ & Hs & _). destruct b as [u|]; [|done]. cbn [below] in Hbf. unfold sticking_out. apply Nat.add_lt_mono_r. apply (filter_fewer _ _ fs f); [done| |done|].
  - intros g Hgin H. destruct (file_parts g (Hg g Hgin)) as (_ & _ & Hs' & _). cbn [below] in *. apply Z.ltb_lt in H, Hbf. apply Z.ltb_lt. by apply (cmp_lt_trans (start_of g) (start_of f) u).
  - cbn [below]. rewrite (cmp_refl (start_of f) Hs). done.
Qed.
Lemma raise_sticks b e f fs : Forall good_file fs -> opt_valid e -> f ∈ fs -> above e f = true -> (sticking_out b (Some (limit_of f)) fs < sticking_out b e fs)%nat.
Proof.
  intros Hg He Hf Haf. rewrite Forall_forall in Hg. destruct (file_parts f (Hg f Hf)) as (_ & _ & _ & Hl). destruct e as [u|]; [|done]. cbn [above] in Haf. unfold sticking_out. apply Nat.add_lt_mono_l. apply (filter_fewer _ _ fs f); [done| |done|].
  - intros g Hgin H. destruct (file_parts g (Hg g Hgin)) as (_ & _ & _ & Hl'). cbn [above] in *. apply Z.ltb_lt in H, Haf. apply Z.ltb_lt. pose proof (cmp_anti (limit_of g) (limit_of f) Hl' Hl). pose proof (cmp_anti (limit_of f) u Hl He). pose proof (cmp_anti (limit_of g) u Hl' He).
    assert (cmp u (limit_of g) < 0) by (apply (cmp_lt_trans u (limit_of f) (limit_of g)); try done; lia). lia.
  - cbn [above]. rewrite (cmp_refl (limit_of f) Hl). done.
Qed.

(** What the search returns: the files in a range that none of them leaves. *)
Record found_inputs (level : Z) (all : Files) (b e b' e' : option (list Z)) (inputs : Files) : Prop := {
  fi_inputs : inputs = filter (fun f => in_range b' e' f = true) all;
  fi_lower : lower_to b b';
  fi_raise : raise_to e e';
  fi_same : level <> 0 -> b' = b /\ e' = e;
  fi_closed : level = 0 -> Forall (fun f => below b' f = false /\ above e' f = false) inputs;
}.

Lemma compare_opt (x : list Z) (u : option (list Z)) (test : Z -> bool) : valid x -> opt_valid u ->
  match u with Some y => r ← Compare ucmp x y; Done (test r) | None => Done false end = Done (match u with Some y => test (cmp x y) | None => false end).
Proof. intros Hx Hu. destruct u as [y|]; [|done]. cbn in Hu. by rewrite (cmp_total x y Hx Hu). Qed.

Lemma overlapping_inputs_spec level all : Forall good_file all -> forall fuel passed files b e inputs, all = passed ++ files -> opt_valid b -> opt_valid e ->
  inputs = filter (fun f => in_range b e f = true) passed -> (level = 0 -> Forall (fun f => below b f = false /\ above e f = false) inputs) ->
  (sticking_out b e all * S (length all) + length files < fuel)%nat ->
  exists inputs' b' e', overlapping_inputs ucmp fuel level all files b e inputs = Done inputs' /\ opt_valid b' /\ opt_valid e' /\ found_inputs level all b e b' e' inputs'.
Proof.
  intros Hg. induction fuel as [|fuel IH]; intros passed files b e inputs Eall Hb He Hin Hclosed Hf; [lia|]. cbn [overlapping_inputs]. destruct files as [|f files].
  - rewrite app_nil_r in Eall. subst passed. exists inputs, b, e. split_and!; [done|done|done|]. split; [done|by apply lower_refl|by apply raise_refl|done|done].
  - assert (Hfin : f ∈ all) by (rewrite Eall; apply elem_of_app; right; apply list_elem_of_here). pose proof Hg as Hg'. rewrite Forall_forall in Hg'. destruct (file_parts f (Hg' f Hfin)) as (E1 & E2 & Hs & Hl). rewrite E1, E2. cbn [mbind outcome_bind].
    rewrite (compare_opt (limit_of f) b (fun r => r <? 0) Hl Hb). cbn [mbind outcome_bind]. set (bf := match b with Some y => cmp (limit_of f) y <? 0 | None => false end). set (af := match e with Some y => 0 <? cmp (start_of f) y | None => false end).
    assert (Hrange : in_range b e f = negb (bf || af)) by (unfold in_range, bf, af; destruct b, e; lia).
    assert (Hnext : forall inputs', inputs' = filter (fun f => in_range b e f = true) (passed ++ [f]) -> (level = 0 -> Forall (fun f => below b f = false /\ above e f = false) inputs') ->
      exists r b' e', overlapping_inputs ucmp fuel level all files b e inputs' = Done r /\ opt_valid b' /\ opt_valid e' /\ found_inputs level all b e b' e' r).
    { intros inputs' Hi Hc. apply (IH (passed ++ [f])); [by rewrite <- app_assoc|done|done|done|done|cbn [length] in Hf; lia]. }
    assert (Hafter : (if bf then Done false else match e with Some y => r ← Compare ucmp (start_of f) y; Done (0 <? r) | None => Done false end) = Done (if bf then false else af)).
    { destruct bf; [done|]. by rewrite (compare_opt (start_of f) e (fun r => 0 <? r) Hs He). }
    rewrite Hafter. cbn [mbind outcome_bind]. destruct (bf || (if bf then false else af)) eqn:Eskip.
    + apply Hnext; [|done]. rewrite filter_app, filter_cons, filter_nil, <- Hin. rewrite decide_False; [by rewrite app_nil_r|]. rewrite Hrange. destruct bf, af; cbn in *; done.
    + assert (Hin_f : in_range b e f = true) by (rewrite Hrange; destruct bf, af; cbn in *; done).
      assert (Hsnoc : inputs ++ [f] = filter (fun f => in_range b e f = true) (passed ++ [f])) by (rewrite filter_app, filter_cons, filter_nil, <- Hin; by rewrite decide_True).
      destruct (Z.eqb_spec level 0) as [->|Hlev]; [|by apply Hnext]. rewrite (compare_opt (start_of f) b (fun r => r <? 0) Hs Hb). cbn [mbind outcome_bind]. change (match b with Some y => cmp (start_of f) y <? 0 | None => false end) with (below b f).
      destruct (below b f) eqn:Ebelow; [|rewrite (compare_opt (limit_of f) e (fun r => 0 <? r) Hl He); cbn [mbind outcome_bind]; change (match e with Some y => 0 <? cmp (limit_of f) y | None => false end) with (above e f); destruct (above e f) eqn:Eabove].
      * pose proof (lower_sticks b e f all Hg Hb Hfin Ebelow) as Hless. destruct (IH [] all (Some (start_of f)) e []) as (r & b' & e' & -> & Hb' & He' & [F1 F2 F3 F4 F5]); [done|done|done|done|done|nia|]. exists r, b', e'. split_and!; [done|done|done|]. split; [done| |done|done|done].
        apply (lower_trans b (Some (start_of f)) b'); [done|done|done| |done]. destruct b as [u|]; [|done]. cbn in *. lia.
      * pose proof (raise_sticks b e f all Hg He Hfin Eabove) as Hless. destruct (IH [] all b (Some (limit_of f)) []) as (r & b' & e' & -> & Hb' & He' & [F1 F2 F3 F4 F5]); [done|done|done|done|done|nia|]. exists r, b', e'. split_and!; [done|done|done|]. split; [done|done| |done|done].
        apply (raise_trans e (Some (limit_of f)) e'); [done|done|done| |done]. destruct e as [u|]; [|done]. cbn in *. pose proof (cmp_anti (limit_of f) u Hl He). lia.
      * apply Hnext; [done|]. intros _. apply Forall_app. split; [by apply Hclosed|]. by constructor.
Qed.

Lemma sticking_le b e fs : (sticking_out b e fs <= 2 * length fs)%nat.
Proof. unfold sticking_out. pose proof (length_filter (fun f => below b f = true) fs). pose proof (length_filter (fun f => above e f = true) fs). lia. Qed.

(** The range as user keys. *)
Definition user_opt (k : option (list Z)) : option (list Z) := user_part <$> k.
Definition opt_ivalid (k : option (list Z)) : Prop := match k with Some k => valid_ikey valid k | None => True end.

Lemma user_of_spec k : opt_ivalid k -> user_of k = Done (user_opt k) /\ opt_valid (user_opt k).
Proof. destruct k as [k|]; cbn; [|done]. intros Hk. destruct (ivalid_user _ Hk) as [-> Hu]. done. Qed.

Lemma GetOverlappingInputs_spec files_ level files begin end_ : 0 <= level < kNumLevels -> files_ !! Z.to_nat level = Some files -> Forall good_file files -> opt_ivalid begin -> opt_ivalid end_ ->
  exists inputs b' e', GetOverlappingInputs ucmp files_ level begin end_ = Done inputs /\ opt_valid b' /\ opt_valid e' /\ found_inputs level files (user_opt begin) (user_opt end_) b' e' inputs.
Proof.
  intros Hlev Ef Hg Hb He. unfold GetOverlappingInputs. destruct (Z.ltb_spec level 0); [lia|]. destruct (Z.leb_spec kNumLevels level); [lia|]. cbn [orb]. rewrite Ef. cbn [demand mbind outcome_bind].
  destruct (user_of_spec begin Hb) as [-> Hvb], (user_of_spec end_ He) as [-> Hve]. cbn [mbind outcome_bind]. apply (overlapping_inputs_spec level files Hg _ []); [done|done|done|done|done|].
  pose proof (sticking_le (user_opt begin) (user_opt end_) files). unfold overlap_fuel. nia.
Qed.
End Range.

(** * The level a memtable is written to.

    [PickLevelForMemTableOutput] may push new data below level 0 only past
    levels that have no file in its range: older updates of a key are never
    above newer ones. *)


Section Pick.
Context {ucmp : Comparator} {valid : list Z -> Prop} {cmp : list Z -> list Z -> Z} `{GC : !GoodComparator ucmp valid cmp}.
Abbreviation ivalid := (valid_ikey valid).
Abbreviation good_file := (good_file (valid := valid) (cmp := cmp)).
Abbreviation overlaps := (overlaps (cmp := cmp)).

(** The files of a version: apart above level 0. *)
Record good_version (files_ : list Files) : Prop := {
  gv_levels : length files_ = Z.to_nat kNumLevels;
  gv_files i fs : files_ !! i = Some fs -> Forall good_file fs;
  gv_apart i fs : files_ !! i = Some fs -> (0 < i)%nat -> apart (valid := valid) (cmp := cmp) fs /\ Forall (fun f => packed (largest f)) fs;
}.

Definition free_level (files_ : list Files) (small large : list Z) (level : Z) : Prop := forall fs, files_ !! Z.to_nat level = Some fs -> ~ Exists (overlaps (Some small) (Some large)) fs.

Lemma OverlapInLevel_spec files_ level small large : good_version files_ -> 0 <= level < kNumLevels -> valid small -> valid large ->
  exists b, OverlapInLevel ucmp files_ level (Some small) (Some large) = Done b /\ (b = false -> free_level files_ small large level) /\ (b = true -> ~ free_level files_ small large level).
Proof.
  intros [Hlen Hg Ha] Hl Hs Hla. unfold OverlapInLevel. destruct (lookup_lt_is_Some_2 files_ (Z.to_nat level)) as [fs Ef]; [rewrite Hlen; lia|]. rewrite Ef. cbn [demand mbind outcome_bind].
  destruct (overlaps_exact (ucmp := ucmp) (valid := valid) (cmp := cmp) fs (0 <? level) (Some small) (Some large)) as (b & -> & Hb); [done|done|by apply (Hg _ _ Ef)|intros H; apply (Ha _ _ Ef); lia|].
  exists b. split; [done|]. split; [intros -> fs' Ef' H; assert (fs' = fs) as -> by congruence; by apply Hb in H|]. intros -> H. apply (H fs Ef). by apply Hb.
Qed.

Lemma limit_key u : valid u -> exists k, new_InternalKey u 0 0 = Done k /\ ivalid k /\ user_part k = u.
Proof.
  intros Hu. unfold new_InternalKey, AppendInternalKey. cbn [sequence type_ user_key]. destruct (pack_spec 0 0) as [-> Hn]; [done|done|]. cbn [mbind outcome_bind]. unfold PutFixed64. cbn [app].
  destruct (ikey_parts u (0 * 256 + 0) Hn) as (_ & Hup & _). eexists. split; [done|]. split; [by apply valid_ikey_app|done].
Qed.

Lemma pick_level_spec size files_ small large start limit : good_version files_ -> valid small -> valid large -> ivalid start -> ivalid limit -> forall fuel level,
  0 <= level <= kMaxMemCompactLevel -> kMaxMemCompactLevel - level < Z.of_nat fuel -> (forall i, 0 <= i <= level -> free_level files_ small large i) ->
  exists L, pick_level ucmp fuel size files_ small large start limit level = Done L /\ level <= L <= kMaxMemCompactLevel /\ (forall i, 0 <= i <= L -> free_level files_ small large i).
Proof.
  intros Hv Hs Hl Hst Hli. induction fuel as [|fuel IH]; intros level Hlev Hfuel Hfree; [lia|]. cbn [pick_level]. destruct (Z.ltb_spec level kMaxMemCompactLevel); [|exists level; split; [done|]; split; [lia|done]]. unfold kMaxMemCompactLevel in *.
  destruct (OverlapInLevel_spec files_ (level + 1) small large Hv) as (b & -> & Hb & _); [unfold kNumLevels; lia|done|done|]. cbn [mbind outcome_bind]. destruct b; [exists level; split; [done|]; split; [lia|done]|].
  assert (Hstop : exists stop, (if level + 2 <? kNumLevels then o ← GetOverlappingInputs ucmp files_ (level + 2) (Some start) (Some limit); Done (MaxGrandParentOverlapBytes size <? TotalFileSize o) else Done false) = Done stop).
  { destruct (Z.ltb_spec (level + 2) kNumLevels); [|by exists false]. destruct Hv as [Hlen Hg _]. destruct (lookup_lt_is_Some_2 files_ (Z.to_nat (level + 2))) as [fs Ef]; [rewrite Hlen; unfold kNumLevels; lia|].
    destruct (GetOverlappingInputs_spec (ucmp := ucmp) (valid := valid) (cmp := cmp) files_ (level + 2) fs (Some start) (Some limit)) as (inputs & _ & _ & -> & _); [lia|done|by apply (Hg _ _ Ef)|done|done|]. cbn [mbind outcome_bind]. by eexists. }
  destruct Hstop as [stop ->]. cbn [mbind outcome_bind]. destruct stop; [exists level; split; [done|]; split; [lia|done]|].
  destruct (IH (level + 1)) as (L & -> & HL & HfL); [lia|lia| |exists L; split; [done|]; split; [lia|done]]. intros i Hi. destruct (decide (i = level + 1)) as [->|]; [by apply Hb|]. apply Hfree. lia.
Qed.

Lemma pick_spec size files_ small large : good_version files_ -> valid small -> valid large ->
  exists L, PickLevelForMemTableOutput ucmp size files_ small large = Done L /\ 0 <= L <= kMaxMemCompactLevel /\ (0 < L -> forall i, 0 <= i <= L -> free_level files_ small large i).
Proof.
  intros Hv Hs Hl. unfold PickLevelForMemTableOutput. destruct (OverlapInLevel_spec files_ 0 small large Hv) as (b & -> & Hb & _); [done|done|done|]. cbn [mbind outcome_bind]. destruct b; [exists 0; split; [done|]; split; [done|lia]|].
  destruct (seek_key (valid := valid) (cmp := cmp) small Hs) as (k & -> & Hk & _). destruct (limit_key large Hl) as (k' & -> & Hk' & _). cbn [mbind outcome_bind].
  destruct (pick_level_spec size files_ small large k k' Hv Hs Hl Hk Hk' 3 0) as (L & -> & HL & Hf); [done|done| |exists L; split; [done|]; split; [done|by intros _]]. intros i Hi. replace i with 0 by lia. by apply Hb.
Qed.
End Pick.
