(* ===== verification/LdbVersionGet.v ===== *)
(** * LdbVersionGet: a lookup in a version finds the newest update.

    The tables of a version are an interface ([GoodTables]), kept by the tables
    of LdbTable.  In a version that is in order, what [Version::Get] returns
    comes from the newest update of the user key up to the sequence number of
    the lookup. *)

From Stdlib Require Import ZifyBool Sorting.Sorted.
From stdpp Require Import base tactics numbers list gmap strings sorting.
From S2P Require Import Prelude LdbCoding LdbLog LdbKey LdbKeySpec LdbIter LdbTwoLevel LdbTable LdbEdit LdbVersion LdbVersionSpec.
Open Scope Z_scope.

Section Get.
Context {ucmp : Comparator} {valid : list Z -> Prop} {cmp : list Z -> list Z -> Z} `{GC : !GoodComparator ucmp valid cmp}.
Abbreviation ic := (icmp cmp).
Abbreviation ivalid := (valid_ikey valid).
#[local] Instance ic_ordered2 : Ordered (internal_compare ucmp) ivalid ic := internal_ordered.

(** ** Updates *)

Definition type_of (k : list Z) : Z := Z.land (tag_part k) 0xff.

(** An update of the user key of [k], at or before its sequence number. *)
Definition visible (k : list Z) (e : entry) : Prop := cmp (user_part e.1) (user_part k) = 0 /\ tag_part e.1 <= tag_part k.
Definition newest_in (k : list Z) (es : list entry) (e : entry) : Prop := e ∈ es /\ visible k e /\ forall e', e' ∈ es -> visible k e' -> tag_part e'.1 <= tag_part e.1.
Definition none_in (k : list Z) (es : list entry) : Prop := forall e, e ∈ es -> ~ visible k e.

(** The entries of a table: internal keys in order, with a type. *)
Record good_entries (es : list entry) : Prop := {
  ge_valid : Forall (fun e => ivalid e.1 /\ type_of e.1 <= kTypeValue) es;
  ge_sorted : StronglySorted (fun a b => ic a.1 b.1 < 0) es;
}.

Lemma visible_ic k e : ivalid k -> ivalid e.1 -> visible k e -> 0 <= ic e.1 k.
Proof. intros _ _ [Hu Ht]. unfold icmp. rewrite Hu. cbn [Z.eqb]. destruct (Z.ltb_spec (tag_part k) (tag_part e.1)); [lia|]. case_match; lia. Qed.

(** The first entry from the key on is the newest update, if it is one. *)
Lemma first_newest es k : good_entries es -> ivalid k ->
  match es !! lower_bound ic k es with
  | Some e => if cmp (user_part e.1) (user_part k) =? 0 then newest_in k es e else none_in k es
  | None => none_in k es
  end.
Proof.
  intros [Hv Hs] Hk. rewrite Forall_forall in Hv. pose proof (lower_bound_before ic k es) as Hb. assert (Hbefore : forall i e', (i < lower_bound ic k es)%nat -> es !! i = Some e' -> ~ visible k e').
  { intros i e' Hi Ei Hvis. pose proof (visible_ic k e' Hk (proj1 (Hv e' ltac:(by apply list_elem_of_lookup_2 with i))) Hvis). specialize (Hb i e' Hi Ei). lia. }
  destruct (es !! lower_bound ic k es) as [e|] eqn:Ee.
  - pose proof (lower_bound_at ic k es e Ee) as Ha. assert (Hein : e ∈ es) by by apply list_elem_of_lookup_2 with (lower_bound ic k es). destruct (Hv e Hein) as [Hve _]. destruct (ivalid_user _ Hve) as [_ Hue], (ivalid_user _ Hk) as [_ Huk].
    destruct (Z.eqb_spec (cmp (user_part e.1) (user_part k)) 0) as [Hu|Hu].
    + assert (Hvis : visible k e). { split; [done|]. unfold icmp in Ha. rewrite Hu in Ha. cbn [Z.eqb] in Ha. destruct (Z.ltb_spec (tag_part k) (tag_part e.1)); lia. }
      split_and!; [done|done|]. intros e' He' Hvis'. apply list_elem_of_lookup in He' as [i Ei]. destruct (Nat.lt_trichotomy i (lower_bound ic k es)) as [H|[->|H]]; [by destruct (Hbefore i e' H Ei)|by simplify_eq|].
      pose proof (sorted_lookup _ _ Hs _ i e e' H Ee Ei) as Hlt. cbn in Hlt. destruct (Hv e' ltac:(by apply list_elem_of_lookup_2 with i)) as [Hve' _]. destruct (ivalid_user _ Hve') as [_ Hue'].
      unfold icmp in Hlt. destruct Hvis' as [Hu' _]. pose proof (cmp_zero_l (user_part e.1) (user_part k) (user_part e'.1) Hue Huk Hue' Hu) as [_ Hz]. pose proof (cmp_zero_sym _ _ Hue' Huk Hu').
      destruct (Z.eqb_spec (cmp (user_part e.1) (user_part e'.1)) 0); [|lia]. destruct (Z.ltb_spec (tag_part e'.1) (tag_part e.1)); [lia|]. case_match; lia.
    + intros e' He' Hvis'. apply list_elem_of_lookup in He' as [i Ei]. destruct (Nat.lt_trichotomy i (lower_bound ic k es)) as [H|[->|H]]; [by apply (Hbefore i e' H Ei)|simplify_eq; by destruct Hvis'|].
      pose proof (sorted_lookup _ _ Hs _ i e e' H Ee Ei) as Hlt. cbn in Hlt. destruct (Hv e' ltac:(by apply list_elem_of_lookup_2 with i)) as [Hve' _]. destruct (ivalid_user _ Hve') as [_ Hue']. apply icmp_le_users in Hlt. destruct Hvis' as [Hu' _].
      unfold icmp in Ha. destruct (Z.eqb_spec (cmp (user_part e.1) (user_part k)) 0); [done|]. assert (cmp (user_part e.1) (user_part k) <= 0) by (apply (cmp_trans (user_part e.1) (user_part e'.1) (user_part k)); try done; lia). lia.
  - intros e' He' Hvis'. apply list_elem_of_lookup in He' as [i Ei]. apply (Hbefore i e'); [|done|done]. apply lookup_ge_None in Ee. apply lookup_lt_Some in Ei. lia.
Qed.

Lemma parse_ikey k : ivalid k -> type_of k <= kTypeValue -> ParseInternalKey k = Done (Some (MkParsed (user_part k) (Z.shiftr (tag_part k) 8) (type_of k))).
Proof.
  intros (Hl & _ & _) Ht. unfold ParseInternalKey. destruct (Z.ltb_spec (zlen k) 8); [lia|]. rewrite key_tag_spec by done. cbn [mbind outcome_bind]. cbv zeta. unfold type_of in Ht. by destruct (Z.leb_spec (Z.land (tag_part k) 255) kTypeValue); [|lia].
Qed.

(** ** The tables *)

(** What looking a key up in the table of a file gives: the first entry from
    the key on, which filters may leave out if it is of another user key. *)
Class GoodTables {C : Type} `{!TableCache C} (good : C -> Prop) (stored : FileMetaData -> Prop) (contents : FileMetaData -> list entry) : Prop := {
  get_stored options f k c : good c -> stored f -> ivalid k -> exists r c', tc_Get options (number f) (file_size f) k c = Done (OK, r, c') /\ good c' /\
    (forall e, r = Some e -> contents f !! lower_bound ic k (contents f) = Some e) /\
    (forall e, contents f !! lower_bound ic k (contents f) = Some e -> cmp (user_part e.1) (user_part k) = 0 -> r = Some e);
}.

Context {C : Type} `{!TableCache C} {good : C -> Prop} {stored : FileMetaData -> Prop} {contents : FileMetaData -> list entry} `{GT : !GoodTables good stored contents}.

(** What the status and the value say of an update. *)
Definition answers (e : entry) (s : Status) (v : list Z) : Prop := if type_of e.1 =? kTypeValue then s = OK /\ v = e.2 else s = NotFound "".

(** The end of a search in entries. *)
Definition searched (k : list Z) (es : list entry) (s : option Status) (v v' : list Z) : Prop :=
  match s with
  | None => none_in k es /\ v' = v
  | Some s => exists e, newest_in k es e /\ answers e s v'
  end.

(** The first entry from the key on, if it is an update of its user key. *)
Definition first_update (k : list Z) (es : list entry) : option entry :=
  match es !! lower_bound ic k es with Some e => if cmp (user_part e.1) (user_part k) =? 0 then Some e else None | None => None end.
Definition reported (found : option entry) (s : option Status) (v v' : list Z) : Prop :=
  match found with Some e => exists st, s = Some st /\ answers e st v' | None => s = None /\ v' = v end.

Lemma reported_searched k es s v v' : good_entries es -> ivalid k -> reported (first_update k es) s v v' -> searched k es s v v'.
Proof.
  intros He Hk. pose proof (first_newest es k He Hk) as Hn. unfold first_update, reported. destruct (es !! lower_bound ic k es) as [e|]; [destruct (cmp (user_part e.1) (user_part k) =? 0)|].
  - intros (st & -> & Ha). by exists e.
  - by intros [-> ->].
  - by intros [-> ->].
Qed.

Lemma get_in_file_spec options k level f l : good (l_cache l) -> stored f -> good_entries (contents f) -> ivalid k ->
  exists s l', get_in_file ucmp options k (user_part k) level f l = Done (s, l') /\ good (l_cache l') /\ reported (first_update k (contents f)) s (l_value l) (l_value l').
Proof.
  intros Hc Hf He Hk. unfold get_in_file. destruct (get_stored options f k (l_cache l) Hc Hf Hk) as (r & c' & -> & Hc' & H1 & H2). cbn [mbind outcome_bind]. pose proof He as [Hv _]. rewrite Forall_forall in Hv. unfold first_update.
  destruct r as [e|].
  - rewrite (H1 e eq_refl). assert (Hin : e ∈ contents f) by (apply list_elem_of_lookup_2 with (lower_bound ic k (contents f)); by apply H1). destruct (Hv e Hin) as [Hve Hte]. destruct e as [ek ev]. cbn [fst snd] in *.
    unfold SaveValue. rewrite (parse_ikey ek Hve Hte). cbn [mbind outcome_bind user_key saver_user_key type_]. destruct (ivalid_user _ Hve) as [_ Hue], (ivalid_user _ Hk) as [_ Huk]. rewrite (cmp_total _ _ Hue Huk). cbn [mbind outcome_bind].
    destruct (Z.eqb_spec (cmp (user_part ek) (user_part k)) 0) as [Hu|Hu].
    + destruct (Z.eqb_spec (type_of ek) kTypeValue) as [Ht|Ht]; cbn [mbind outcome_bind ok negb state saver_value]; eexists _, _; (split; [done|]); (split; [done|]); cbn [reported]; eexists; (split; [done|]); unfold answers; cbn [fst snd l_value]; destruct (Z.eqb_spec (type_of ek) kTypeValue); done.
    + cbn [mbind outcome_bind ok negb state saver_value]. eexists _, _. split; [done|]. split; [done|]. done.
  - cbn [mbind outcome_bind ok negb state saver_value]. eexists _, _. split; [done|]. split; [done|]. destruct (contents f !! lower_bound ic k (contents f)) as [e|] eqn:Ee; [|done].
    destruct (Z.eqb_spec (cmp (user_part e.1) (user_part k)) 0) as [Hu|]; [|done]. by specialize (H2 e eq_refl Hu).
Qed.

(** Sources in the order of the search: what is found first is the newest. *)
Definition newer (es es' : list entry) : Prop := forall e e', e ∈ es -> e' ∈ es' -> cmp (user_part e.1) (user_part e'.1) = 0 -> tag_part e'.1 < tag_part e.1.

Lemma newest_app k es es' e : Forall (fun e => ivalid e.1) es -> Forall (fun e => ivalid e.1) es' -> ivalid k -> newest_in k es e -> newer es es' -> newest_in k (es ++ es') e.
Proof.
  intros Hv Hv' Hk (H1 & H2 & H3) Hn. rewrite Forall_forall in Hv, Hv'. split_and!; [apply elem_of_app; by left|done|]. intros e' He' Hvis. apply elem_of_app in He' as [He'|He']; [by apply H3|]. apply Z.lt_le_incl, (Hn e e' H1 He').
  destruct (ivalid_user _ (Hv e H1)) as [_ Hu1], (ivalid_user _ (Hv' e' He')) as [_ Hu2], (ivalid_user _ Hk) as [_ Hu3]. destruct H2 as [H2 _], Hvis as [Hvis _]. apply (cmp_zero_l (user_part e.1) (user_part k) (user_part e'.1) Hu1 Hu3 Hu2 H2). by apply cmp_zero_sym.
Qed.

Lemma none_app k es es' : none_in k es -> none_in k es' -> none_in k (es ++ es').
Proof. intros H1 H2 e He. apply elem_of_app in He as [He|He]; [by apply H1|by apply H2]. Qed.

Lemma newest_later k es es' e : none_in k es -> newest_in k es' e -> newest_in k (es ++ es') e.
Proof. intros Hn (H1 & H2 & H3). split_and!; [apply elem_of_app; by right|done|]. intros e' He' Hvis. apply elem_of_app in He' as [He'|He']; [by destruct (Hn e' He')|by apply H3]. Qed.

Lemma searched_ext k es es' s v v' : (forall e, visible k e -> e ∈ es <-> e ∈ es') -> searched k es s v v' -> searched k es' s v v'.
Proof.
  intros Hext. destruct s as [s|]; cbn [searched].
  - intros (e & (H1 & H2 & H3) & Ha). exists e. split; [|done]. split_and!; [by apply Hext|done|]. intros e' He' Hvis. apply H3; [by apply Hext|done].
  - intros [Hn ->]. split; [|done]. intros e He Hvis. apply (Hn e); [by apply Hext|done].
Qed.

Definition entries_of (files : Files) : list entry := concat (contents <$> files).
Lemma elem_entries files e : e ∈ entries_of files <-> exists f, f ∈ files /\ e ∈ contents f.
Proof.
  unfold entries_of. induction files as [|f files IH]; cbn; [split; [intros H; by apply elem_of_nil in H|intros (f & Hf & _); by apply elem_of_nil in Hf]|]. rewrite elem_of_app, IH. split.
  - intros [H|(g & Hg & He)]; [exists f; split; [apply list_elem_of_here|done]|exists g; split; [by apply list_elem_of_further|done]].
  - intros (g & Hg & He). apply elem_of_cons in Hg as [->|Hg]; [by left|right; by exists g].
Qed.

Lemma get_in_files_spec options k level files : forall l, good (l_cache l) -> Forall stored files -> Forall (fun f => good_entries (contents f)) files -> StronglySorted (fun f g => newer (contents f) (contents g)) files -> ivalid k ->
  exists s l', get_in_files ucmp options k (user_part k) level files l = Done (s, l') /\ good (l_cache l') /\ searched k (entries_of files) s (l_value l) (l_value l').
Proof.
  induction files as [|f files IH]; intros l Hc Hst Hg Hs Hk; cbn [get_in_files].
  - eexists _, l. split; [done|]. split; [done|]. split; [|done]. intros e He. by apply elem_of_nil in He.
  - apply Forall_cons in Hst as [Hst Hsts]. pose proof Hg as Hgall. apply Forall_cons in Hg as [Hg Hgs]. inversion Hs as [|? ? Hs' Hnew]. subst. destruct (get_in_file_spec options k level f l Hc Hst Hg Hk) as (s & l1 & -> & Hc1 & Hre). pose proof (reported_searched _ _ _ _ _ Hg Hk Hre) as Hse. cbn [mbind outcome_bind]. destruct s as [s|].
    + eexists _, l1. split; [done|]. split; [done|]. destruct Hse as (e & Hne & Ha). exists e. split; [|done]. unfold entries_of. cbn. assert (Hv : forall es, good_entries es -> Forall (fun e => ivalid e.1) es) by (intros es [Hv _]; eapply Forall_impl; [exact Hv|]; by intros ? []).
      apply newest_app; [by apply Hv| |done|done|].
      * apply Forall_forall. intros e' He'. apply elem_entries in He' as (g & Hg' & He'). rewrite Forall_forall in Hgs. specialize (Hv _ (Hgs g Hg')). rewrite Forall_forall in Hv. by apply Hv.
      * intros x y Hx Hy. apply elem_entries in Hy as (g & Hg' & Hy). rewrite Forall_forall in Hnew. by apply (Hnew g Hg').
    + destruct Hse as [Hno Ev]. destruct (IH l1 Hc1 Hsts Hgs Hs' Hk) as (s & l2 & E2 & Hc2 & Hse). eexists _, l2. split; [exact E2|]. split; [done|]. rewrite Ev in Hse. unfold entries_of. cbn. destruct s as [s|]; cbn [searched] in *.
      * destruct Hse as (e & Hne & Ha). exists e. split; [|done]. by apply newest_later.
      * destruct Hse as [Hn2 E]. split; [by apply none_app|done].
Qed.

(** ** Levels *)

(** The table of a file is what the file says. *)
Record good_table_file (f : FileMetaData) : Prop := {
  tf_file : good_file (valid := valid) (cmp := cmp) f;
  tf_stored : stored f;
  tf_entries : good_entries (contents f);
  tf_from e : e ∈ contents f -> ic (smallest f) e.1 <= 0;
  tf_to e : e ∈ contents f -> ic e.1 (largest f) <= 0;
  tf_last : exists v, (largest f, v) ∈ contents f;
}.

(** Files of level 0 may overlap, the one with the larger number is newer;
    files of other levels are in order and apart. *)
Definition good_level (level : Z) (files : Files) : Prop :=
  Forall good_table_file files /\
  if level =? 0 then NoDup (number <$> files) /\ forall f g, f ∈ files -> g ∈ files -> number g < number f -> newer (contents f) (contents g)
  else apart (valid := valid) (cmp := cmp) files.

Lemma overlapping_user_spec u files : valid u -> Forall good_table_file files -> exists tmp, overlapping_user ucmp u files = Done tmp /\ tmp `sublist_of` files /\
  forall f, f ∈ files -> f ∈ tmp \/ cmp u (user_part (smallest f)) < 0 \/ 0 < cmp u (user_part (largest f)).
Proof.
  intros Hu. induction 1 as [|f files Hf Hfs IH]; cbn [overlapping_user]; [exists []; split_and!; [done|done|intros f Hf; by apply elem_of_nil in Hf]|]. destruct IH as (tmp & E & Hsub & Hall). destruct Hf as [[F1 F2 _] _ _ _ _ _].
  destruct (ivalid_user _ F1) as [-> Hu1], (ivalid_user _ F2) as [E2 Hu2]. cbn [mbind outcome_bind]. rewrite (cmp_total u _ Hu Hu1). cbn [mbind outcome_bind]. destruct (Z.leb_spec 0 (cmp u (user_part (smallest f)))) as [H1|H1].
  - rewrite E2. cbn [mbind outcome_bind]. rewrite (cmp_total u _ Hu Hu2). cbn [mbind outcome_bind]. rewrite E. cbn [mbind outcome_bind]. destruct (Z.leb_spec (cmp u (user_part (largest f))) 0) as [H2|H2]; eexists; (split; [done|]).
    + split; [by apply sublist_skip|]. intros g Hg. apply elem_of_cons in Hg as [->|Hg]; [left; apply list_elem_of_here|]. destruct (Hall g Hg) as [?|?]; [left; by apply list_elem_of_further|by right].
    + split; [by apply sublist_cons|]. intros g Hg. apply elem_of_cons in Hg as [->|Hg]; [right; right; lia|]. by apply Hall.
  - cbn [mbind outcome_bind]. rewrite E. cbn [mbind outcome_bind]. eexists. split; [done|]. split; [by apply sublist_cons|]. intros g Hg. apply elem_of_cons in Hg as [->|Hg]; [right; left; lia|]. by apply Hall.
Qed.

(** A user key outside the range of a file is not in it. *)
Lemma outside_file k f e : ivalid k -> good_table_file f -> cmp (user_part k) (user_part (smallest f)) < 0 \/ 0 < cmp (user_part k) (user_part (largest f)) -> e ∈ contents f -> ~ visible k e.
Proof.
  intros Hk Hf Hout He [Hu _]. destruct (tf_file _ Hf) as [F1 F2 _]. destruct (tf_entries _ Hf) as [Hv _]. rewrite Forall_forall in Hv. destruct (Hv e He) as [Hve _]. destruct (ivalid_user _ F1) as [_ Hu1], (ivalid_user _ F2) as [_ Hu2], (ivalid_user _ Hve) as [_ Hue], (ivalid_user _ Hk) as [_ Huk].
  assert (Hle : forall a b, ic a b <= 0 -> cmp (user_part a) (user_part b) <= 0) by (intros a b; unfold icmp; destruct (Z.eqb_spec (cmp (user_part a) (user_part b)) 0); lia).
  pose proof (Hle _ _ (tf_from _ Hf e He)) as H1. pose proof (Hle _ _ (tf_to _ Hf e He)) as H2. destruct Hout as [Hout|Hout].
  - assert (cmp (user_part k) (user_part e.1) < 0) by by apply (cmp_lt_le _ (user_part (smallest f))). pose proof (cmp_zero_sym _ _ Hue Huk Hu). lia.
  - pose proof (cmp_anti _ _ Huk Hu2). assert (cmp (user_part e.1) (user_part k) < 0) by (apply (cmp_le_lt _ (user_part (largest f))); try done; lia). lia.
Qed.

Lemma newest_total : Total newest_first.
Proof. intros a b. unfold newest_first. lia. Qed.
Lemma newest_trans : Transitive newest_first.
Proof. intros a b c. unfold newest_first. lia. Qed.

Lemma search_level_0 k files : ivalid k -> good_level 0 files ->
  exists search, files_to_search ucmp 0 k (user_part k) files = Done search /\ Forall good_table_file search /\ StronglySorted (fun f g => newer (contents f) (contents g)) search /\
    forall e, visible k e -> e ∈ entries_of search <-> e ∈ entries_of files.
Proof.
  intros Hk (Hg & Hnd & Hnew). destruct (ivalid_user _ Hk) as [_ Huk]. unfold files_to_search. cbn [Z.eqb]. destruct (overlapping_user_spec (user_part k) files Huk Hg) as (tmp & -> & Hsub & Hall). cbn [mbind outcome_bind].
  pose proof (merge_sort_Permutation newest_first tmp) as Hp. rewrite Forall_forall in Hg. assert (Hin : forall f, f ∈ merge_sort newest_first tmp -> f ∈ files) by (intros f Hf; rewrite Hp in Hf; by apply (elem_of_sublist tmp)).
  eexists. split; [done|]. split_and!.
  - apply Forall_forall. intros f Hf. by apply Hg, Hin.
  - assert (Hs : StronglySorted newest_first (merge_sort newest_first tmp)) by (apply StronglySorted_merge_sort; [exact newest_trans|exact newest_total]). assert (Hnd' : NoDup (number <$> merge_sort newest_first tmp)).
    { rewrite Hp. apply (sublist_NoDup _ (number <$> files)); [done|]. by apply fmap_sublist. }
    clear Hp. induction Hs as [|f l Hl IH Hf]; constructor.
    + apply IH; [intros g Hgl; apply Hin; by apply list_elem_of_further|]. cbn in Hnd'. by apply NoDup_cons in Hnd' as [_ ?].
    + apply Forall_forall. intros g Hgl. rewrite Forall_forall in Hf. apply Hnew; [apply Hin, list_elem_of_here|apply Hin; by apply list_elem_of_further|]. specialize (Hf g Hgl). unfold newest_first in Hf. cbn in Hnd'. apply NoDup_cons in Hnd' as [Hnf _].
      assert (number g <> number f); [|lia]. intros E. apply Hnf. rewrite <- E. apply list_elem_of_fmap. by exists g.
  - intros e Hvis. rewrite !elem_entries. split; [intros (f & Hf & He); exists f; split; [by apply Hin|done]|]. intros (f & Hf & He). destruct (Hall f Hf) as [Ht|Hout]; [exists f; split; [by rewrite Hp|done]|]. by destruct (outside_file k f e Hk (Hg f Hf) Hout He).
Qed.

(** The entries of files that are in order are in order. *)
Lemma level_entries files : Forall good_table_file files -> apart (valid := valid) (cmp := cmp) files -> good_entries (entries_of files).
Proof.
  intros Hg (_ & Hs & _). split.
  - apply Forall_forall. intros e He. apply elem_entries in He as (f & Hf & He). rewrite Forall_forall in Hg. destruct (tf_entries _ (Hg f Hf)) as [Hv _]. rewrite Forall_forall in Hv. by apply Hv.
  - unfold entries_of. induction Hs as [|f files Hs IH Hf]; [constructor|]. apply Forall_cons in Hg as [Hg Hgs]. cbn. apply StronglySorted_app_2; [|apply (tf_entries _ Hg)|by apply IH]. intros a b Ha Hb. apply elem_entries in Hb as (g & Hgin & Hb). rewrite Forall_forall in Hf, Hgs.
    specialize (Hf g Hgin). unfold before in Hf. specialize (Hgs g Hgin). destruct (tf_file _ Hg) as [F1 F2 _], (tf_file _ Hgs) as [G1 G2 _]. destruct (tf_entries _ Hg) as [Hv _], (tf_entries _ Hgs) as [Hv' _]. rewrite Forall_forall in Hv, Hv'. destruct (Hv a Ha) as [Hva _], (Hv' b Hb) as [Hvb _].
    apply (cmp_lt_le a.1 (smallest g) b.1); [done|done|done| |by apply (tf_from _ Hgs)]. apply (cmp_le_lt a.1 (largest f) (smallest g)); [done|done|done|by apply (tf_to _ Hg)|done].
Qed.

Lemma first_update_level files k : Forall good_table_file files -> apart (valid := valid) (cmp := cmp) files -> ivalid k ->
  match files !! lower_bound ic k (file_index files) with Some f => first_update k (entries_of files) = first_update k (contents f) | None => first_update k (entries_of files) = None end.
Proof.
  intros Hg A Hk. destruct (found_file (cmp := cmp) files k) as (Hn & Hb & Ha). set (n := lower_bound ic k (file_index files)) in *. rewrite Forall_forall in Hg.
  assert (Hless : forall fs, (forall f, f ∈ fs -> good_table_file f /\ ic (largest f) k < 0) -> Forall (fun e => ic e.1 k < 0) (entries_of fs)).
  { intros fs Hfs. apply Forall_forall. intros e He. apply elem_entries in He as (f & Hf & He). destruct (Hfs f Hf) as [Hgf Hl]. destruct (tf_file _ Hgf) as [F1 F2 _]. destruct (tf_entries _ Hgf) as [Hv _]. rewrite Forall_forall in Hv. destruct (Hv e He) as [Hve _].
    apply (cmp_le_lt e.1 (largest f) k); [done|done|done|by apply (tf_to _ Hgf)|done]. }
  destruct (files !! n) as [f|] eqn:Ef.
  - assert (Hfin : f ∈ files) by by apply list_elem_of_lookup_2 with n. pose proof (Hg f Hfin) as Hgf. destruct (tf_file _ Hgf) as [F1 F2 _]. assert (Esplit : entries_of files = entries_of (take n files) ++ contents f ++ entries_of (drop (S n) files)).
    { unfold entries_of. rewrite <- (take_drop_middle files n f Ef) at 1. by rewrite fmap_app, concat_app. }
    assert (Hpre : lower_bound ic k (entries_of (take n files)) = length (entries_of (take n files))).
    { apply lower_bound_all, Hless. intros g Hg'. apply list_elem_of_lookup in Hg' as [i Ei]. apply lookup_take_Some in Ei as [Ei Hi]. split; [by apply Hg, list_elem_of_lookup_2 with i|by apply (Hb i)]. }
    assert (Hin : (lower_bound ic k (contents f) < length (contents f))%nat).
    { destruct (tf_last _ Hgf) as [v Hv]. apply list_elem_of_lookup in Hv as [i Ei]. pose proof (lookup_lt_Some _ _ _ Ei). destruct (Nat.lt_ge_cases i (lower_bound ic k (contents f))) as [H'|H']; [|lia]. pose proof (lower_bound_before ic k (contents f) i _ H' Ei) as Hlt. cbn in Hlt. specialize (Ha f eq_refl). lia. }
    unfold first_update. rewrite Esplit, lower_bound_app, Hpre. destruct (Nat.ltb_spec (length (entries_of (take n files))) (length (entries_of (take n files)))); [lia|]. rewrite lower_bound_app. destruct (Nat.ltb_spec (lower_bound ic k (contents f)) (length (contents f))); [|lia].
    rewrite lookup_app_r by lia. rewrite lookup_app_l by lia. by replace (length (entries_of (take n files)) + lower_bound ic k (contents f) - length (entries_of (take n files)))%nat with (lower_bound ic k (contents f)) by lia.
  - unfold first_update. rewrite lower_bound_all; [by rewrite lookup_ge_None_2|]. apply Hless. intros f Hf. split; [by apply Hg|]. apply list_elem_of_lookup in Hf as [i Ei]. apply (Hb i f); [|done]. apply lookup_ge_None in Ef. apply lookup_lt_Some in Ei. lia.
Qed.

(** One level. *)
Lemma get_in_level_spec options k level files l : good (l_cache l) -> good_level level files -> ivalid k ->
  exists search s l', files_to_search ucmp level k (user_part k) files = Done search /\ get_in_files ucmp options k (user_part k) level search l = Done (s, l') /\ good (l_cache l') /\ searched k (entries_of files) s (l_value l) (l_value l').
Proof.
  intros Hc Hlev Hk. destruct (Z.eq_dec level 0) as [->|Hne].
  - destruct (search_level_0 k files Hk Hlev) as (search & E & Hgs & Hs & Hext). exists search. destruct (get_in_files_spec options k 0 search l Hc) as (s & l' & E' & Hc' & Hse); [by eapply Forall_impl; [exact Hgs|apply tf_stored]|by eapply Forall_impl; [exact Hgs|apply tf_entries]|done|done|].
    exists s, l'. split_and!; [done|done|done|]. by apply (searched_ext k (entries_of search)).
  - destruct Hlev as [Hg A]. destruct (Z.eqb_spec level 0) as [|_]; [done|]. pose proof (first_update_level files k Hg A Hk) as Hfirst. pose proof (level_entries files Hg A) as Hes. unfold files_to_search. destruct (Z.eqb_spec level 0) as [|_]; [done|].
    rewrite (FindFile_spec files k A Hk). cbn [mbind outcome_bind]. set (n := lower_bound ic k (file_index files)) in *. rewrite Nat2Z.id. assert (Hnone : first_update k (entries_of files) = None -> exists search s l', Done [] = Done search /\ get_in_files ucmp options k (user_part k) level search l = Done (s, l') /\ good (l_cache l') /\ searched k (entries_of files) s (l_value l) (l_value l')).
    { intros E. exists [], None, l. split_and!; [done|done|done|]. apply reported_searched; [done|done|]. by rewrite E. }
    destruct (Z.leb_spec (zlen files) (Z.of_nat n)) as [Hge|Hlt]; [apply Hnone; by rewrite lookup_ge_None_2 in Hfirst by lia|]. destruct (lookup_lt_is_Some_2 files n) as [f Ef]; [lia|]. rewrite Ef in Hfirst |- *. cbn [demand mbind outcome_bind].
    rewrite Forall_forall in Hg. pose proof (Hg f ltac:(by apply list_elem_of_lookup_2 with n)) as Hgf. destruct (tf_file _ Hgf) as [F1 F2 _]. destruct (ivalid_user _ F1) as [-> Hu1], (ivalid_user _ Hk) as [_ Huk]. cbn [mbind outcome_bind]. rewrite (cmp_total _ _ Huk Hu1). cbn [mbind outcome_bind].
    destruct (Z.ltb_spec (cmp (user_part k) (user_part (smallest f))) 0) as [Hbelow|_].
    + apply Hnone. rewrite Hfirst. unfold first_update. destruct (contents f !! lower_bound ic k (contents f)) as [e|] eqn:Ee; [|done]. destruct (Z.eqb_spec (cmp (user_part e.1) (user_part k)) 0) as [Hu|]; [|done]. exfalso.
      pose proof (first_newest (contents f) k (tf_entries _ Hgf) Hk) as Hfn. rewrite Ee, Hu in Hfn. cbn [Z.eqb] in Hfn. destruct Hfn as (Hin & Hvis & _). apply (outside_file k f e Hk Hgf); [by left|done|done].
    + destruct (get_in_file_spec options k level f l Hc (tf_stored _ Hgf) (tf_entries _ Hgf) Hk) as (s & l1 & E1 & Hc1 & Hre). exists [f]. rewrite <- Hfirst in Hre. pose proof (reported_searched _ _ _ _ _ Hes Hk Hre) as Hse. cbn [get_in_files]. rewrite E1. cbn [mbind outcome_bind].
      destruct s as [s|]; eexists _, l1; (split_and!; [done|done|done|exact Hse]).
Qed.

(** Levels in the order of the search: each is newer than the later ones. *)
Fixpoint good_levels (level : Z) (levels : list Files) : Prop :=
  match levels with
  | [] => True
  | files :: levels => good_level level files /\ Forall (fun fs => newer (entries_of files) (entries_of fs)) levels /\ good_levels (level + 1) levels
  end.

Lemma level_valid level files : good_level level files -> Forall (fun e => ivalid e.1) (entries_of files).
Proof.
  intros [Hg _]. apply Forall_forall. intros e He. apply elem_entries in He as (f & Hf & He). rewrite Forall_forall in Hg. destruct (tf_entries _ (Hg f Hf)) as [Hv _]. rewrite Forall_forall in Hv. by apply Hv.
Qed.
Lemma levels_valid levels : forall level, good_levels level levels -> Forall (fun e => ivalid e.1) (concat (entries_of <$> levels)).
Proof. induction levels as [|files levels IH]; intros level H; [constructor|]. destruct H as (H1 & _ & H3). cbn. apply Forall_app. split; [by apply (level_valid level)|by apply (IH (level + 1))]. Qed.

Lemma get_in_levels_spec options k levels : forall level l, good (l_cache l) -> good_levels level levels -> ivalid k ->
  exists s l', get_in_levels ucmp options k (user_part k) level levels l = Done (s, l') /\ good (l_cache l') /\
    ((exists e, newest_in k (concat (entries_of <$> levels)) e /\ answers e s (l_value l')) \/ (none_in k (concat (entries_of <$> levels)) /\ s = NotFound "" /\ l_value l' = l_value l)).
Proof.
  induction levels as [|files levels IH]; intros level l Hc Hg Hk; cbn [get_in_levels].
  - eexists _, l. split; [done|]. split; [done|]. right. split_and!; [|done|done]. intros e He. by apply elem_of_nil in He.
  - pose proof Hg as Hgall. destruct Hg as (Hlev & Hnew & Hrest). assert (Hgo : forall l1, good (l_cache l1) -> l_value l1 = l_value l -> none_in k (entries_of files) -> exists s l', get_in_levels ucmp options k (user_part k) (level + 1) levels l1 = Done (s, l') /\ good (l_cache l') /\
      ((exists e, newest_in k (concat (entries_of <$> files :: levels)) e /\ answers e s (l_value l')) \/ (none_in k (concat (entries_of <$> files :: levels)) /\ s = NotFound "" /\ l_value l' = l_value l))).
    { intros l1 Hc1 Ev Hno. destruct (IH (level + 1) l1 Hc1 Hrest Hk) as (s & l' & E & Hc' & [(e & Hne & Ha)|(Hno' & Es & El)]); exists s, l'; (split; [done|]); (split; [done|]).
      - left. exists e. split; [|done]. cbn. by apply newest_later.
      - right. cbn. split_and!; [by apply none_app|done|congruence]. }
    case_bool_decide as Hnil; [apply Hgo; [done|done|]; subst files; intros e He; by apply elem_of_nil in He|]. destruct (get_in_level_spec options k level files l Hc Hlev Hk) as (search & s & l1 & -> & E & Hc1 & Hse). cbn [mbind outcome_bind]. rewrite E. cbn [mbind outcome_bind]. destruct s as [s|].
    + eexists s, l1. split; [done|]. split; [done|]. left. destruct Hse as (e & Hne & Ha). exists e. split; [|done]. cbn. apply newest_app; [by apply (level_valid level)|by apply (levels_valid _ (level + 1))|done|done|].
      intros x y Hx Hy. clear -Hnew Hx Hy. induction levels as [|fs levels IH]; [by apply elem_of_nil in Hy|]. apply Forall_cons in Hnew as [Hn Hns]. cbn in Hy. apply elem_of_app in Hy as [Hy|Hy]; [by apply Hn|by apply IH].
    + destruct Hse as [Hno Ev]. by apply Hgo.
Qed.
End Get.
