(* ===== verification/LdbBuilder.v ===== *)
(** * LdbBuilder: applying edits to a version ([VersionSet::Builder] of
    db/version_set.cc).

    A set of files ordered by [BySmallestKey] is a list in that order.
    [std::upper_bound] on such a list is its first element that is greater. *)

From Stdlib Require Import ZifyBool Sorting.Sorted.
From stdpp Require Import base tactics numbers list gmap strings sorting.
From S2P Require Import Prelude LdbCoding LdbLog LdbKey LdbKeySpec LdbIter LdbTable LdbEdit LdbVersion LdbVersionSpec.
Open Scope Z_scope.

Section Builder.
Context (ucmp : Comparator).

Definition BySmallestKey (f1 f2 : FileMetaData) : outcome bool :=
  r ← ik_Compare ucmp (smallest f1) (smallest f2); Done (if negb (r =? 0) then r <? 0 else number f1 <? number f2).

Record LevelState : Type := MkLevelState { deleted_files : gset Z; added_files : Files }.
(** [base_->files_], [levels_] and [vset_->compact_pointer_]. *)
Record Builder : Type := MkVersionBuilder { base_ : list Files; levels_ : list LevelState; compact_pointer_ : list (list Z) }.

Definition new_Builder (base : list Files) (pointers : list (list Z)) : Builder := MkVersionBuilder base (replicate (Z.to_nat kNumLevels) (MkLevelState ∅ [])) pointers.

(** [FileSet::insert] *)
Fixpoint added_insert (f : FileMetaData) (l : Files) : outcome Files :=
  match l with
  | [] => Done [f]
  | g :: l' =>
    b ← BySmallestKey f g;
    if b : bool then Done (f :: l)
    else b ← BySmallestKey g f; if b : bool then rest ← added_insert f l'; Done (g :: rest) else Done l
  end.

Fixpoint apply_pointers (ps : list (Z * list Z)) (pointers : list (list Z)) : outcome (list (list Z)) :=
  match ps with
  | [] => Done pointers
  | (level, key) :: ps =>
    if level <? 0 then Undef
    else _ ← demand (pointers !! Z.to_nat level);
         k ← ik_Encode key;
         apply_pointers ps (<[Z.to_nat level := k]> pointers)
  end.

Definition on_level (level : Z) (f : LevelState -> outcome LevelState) (ls : list LevelState) : outcome (list LevelState) :=
  if level <? 0 then Undef else s ← demand (ls !! Z.to_nat level); s ← f s; Done (<[Z.to_nat level := s]> ls).

Fixpoint apply_deleted (ds : list (Z * Z)) (ls : list LevelState) : outcome (list LevelState) :=
  match ds with
  | [] => Done ls
  | (level, n) :: ds =>
    ls ← on_level level (fun s => Done (MkLevelState ({[n]} ∪ deleted_files s) (added_files s))) ls;
    apply_deleted ds ls
  end.

(** The copy that is added. *)
Definition added_file (f : FileMetaData) : FileMetaData :=
  let seeks := s32 (u32 (file_size f / 16384)) in
  MkFile 1 (if seeks <? 100 then 100 else seeks) (number f) (file_size f) (smallest f) (largest f).

Fixpoint apply_added (fs : list (Z * FileMetaData)) (ls : list LevelState) : outcome (list LevelState) :=
  match fs with
  | [] => Done ls
  | (level, f) :: fs =>
    let f := added_file f in
    ls ← on_level level (fun s => l ← added_insert f (added_files s); Done (MkLevelState (deleted_files s ∖ {[number f]}) l)) ls;
    apply_added fs ls
  end.

Definition Apply (edit : VersionEdit) (b : Builder) : outcome Builder :=
  pointers ← apply_pointers (compact_pointers_ edit) (compact_pointer_ b);
  ls ← apply_deleted (deleted_files_ edit) (levels_ b);
  ls ← apply_added (new_files_ edit) ls;
  Done (MkVersionBuilder (base_ b) ls pointers).

(** ** SaveTo *)

(** [f->refs++], as the new version sees it. *)
Definition add_ref (f : FileMetaData) : FileMetaData := MkFile (f_refs f + 1) (allowed_seeks f) (number f) (file_size f) (smallest f) (largest f).

Definition MaybeAddFile (level : Z) (s : LevelState) (f : FileMetaData) (files : Files) : outcome Files :=
  if decide (number f ∈ deleted_files s) then Done files
  else
    match last files with
    | Some g => if 0 <? level then r ← ik_Compare ucmp (largest g) (smallest f); if r <? 0 then Done (files ++ [add_ref f]) else Undef else Done (files ++ [add_ref f])
    | None => Done (files ++ [add_ref f])
    end.

Fixpoint maybe_add_all (level : Z) (s : LevelState) (fs files : Files) : outcome Files :=
  match fs with
  | [] => Done files
  | f :: fs => files ← MaybeAddFile level s f files; maybe_add_all level s fs files
  end.

(** The base files up to [std::upper_bound(base_iter, base_end, f)], and the rest. *)
Fixpoint upper_bound (f : FileMetaData) (base : Files) : outcome (Files * Files) :=
  match base with
  | [] => Done ([], [])
  | g :: base' =>
    b ← BySmallestKey f g;
    if b : bool then Done ([], base) else r ← upper_bound f base'; Done (g :: r.1, r.2)
  end.

Fixpoint merge_added (level : Z) (s : LevelState) (added base files : Files) : outcome Files :=
  match added with
  | [] => maybe_add_all level s base files
  | f :: added =>
    r ← upper_bound f base;
    files ← maybe_add_all level s r.1 files;
    files ← MaybeAddFile level s f files;
    merge_added level s added r.2 files
  end.

(** The check for overlap in debug builds; it aborts. *)
Fixpoint no_overlap (files : Files) : outcome unit :=
  match files with
  | f :: (g :: _) as rest => r ← ik_Compare ucmp (largest f) (smallest g); if 0 <=? r then Undef else no_overlap rest
  | _ => Done tt
  end.

Fixpoint save_levels (level : Z) (ls : list LevelState) (base : list Files) : outcome (list Files) :=
  match ls with
  | [] => Done []
  | s :: ls =>
    base_files ← demand (head base);
    files ← merge_added level s (added_files s) base_files [];
    _ ← (if 0 <? level then no_overlap files else Done tt);
    rest ← save_levels (level + 1) ls (tail base);
    Done (files :: rest)
  end.
Definition SaveTo (b : Builder) : outcome (list Files) := save_levels 0 (levels_ b) (base_ b).

Fixpoint apply_all (edits : list VersionEdit) (b : Builder) : outcome Builder :=
  match edits with
  | [] => Done b
  | e :: edits => b ← Apply e b; apply_all edits b
  end.
End Builder.

(** * What the builder makes of a version.

    Per level, the reference is simple: an edit takes out the deleted files and
    adds the new ones.  The builder collects many edits and merges once. *)


Section Spec.
Context {ucmp : Comparator} {valid : list Z -> Prop} {cmp : list Z -> list Z -> Z} `{GC : !GoodComparator ucmp valid cmp}.
Abbreviation ic := (icmp cmp).
Abbreviation ivalid := (valid_ikey valid).
Abbreviation good_file := (good_file (valid := valid) (cmp := cmp)).
Abbreviation before := (before (cmp := cmp)).
#[local] Instance ic_ordered3 : Ordered (internal_compare ucmp) ivalid ic := internal_ordered.

(** ** The order of files *)

Definition file_less (f g : FileMetaData) : bool := if negb (ic (smallest f) (smallest g) =? 0) then ic (smallest f) (smallest g) <? 0 else number f <? number g.
Definition fless (f g : FileMetaData) : Prop := file_less f g = true.

Lemma bysmallest_spec f g : good_file f -> good_file g -> BySmallestKey ucmp f g = Done (file_less f g).
Proof. intros [F1 _ _] [G1 _ _]. unfold BySmallestKey. rewrite ivalid_compare by done. done. Qed.

Lemma fless_trans f g h : good_file f -> good_file g -> good_file h -> fless f g -> fless g h -> fless f h.
Proof.
  intros [F1 _ _] [G1 _ _] [H1 _ _]. unfold fless, file_less. intros Hfg Hgh. pose proof (cmp_lt_le (smallest f) (smallest g) (smallest h) F1 G1 H1). pose proof (cmp_le_lt (smallest f) (smallest g) (smallest h) F1 G1 H1). pose proof (cmp_trans (smallest f) (smallest g) (smallest h) F1 G1 H1).
  pose proof (cmp_zero_l (smallest f) (smallest g) (smallest h) F1 G1 H1) as Hz. destruct (Z.eqb_spec (ic (smallest f) (smallest g)) 0) as [E1|E1], (Z.eqb_spec (ic (smallest g) (smallest h)) 0) as [E2|E2], (Z.eqb_spec (ic (smallest f) (smallest h)) 0) as [E3|E3]; cbn [negb] in *; try lia.
  all: destruct (Hz E1) as [? ?]; lia.
Qed.

Lemma fless_total f g : good_file f -> good_file g -> number f <> number g -> file_less f g = false -> fless g f.
Proof.
  intros [F1 _ _] [G1 _ _] Hn. unfold fless, file_less. pose proof (cmp_anti (smallest f) (smallest g) F1 G1). pose proof (cmp_anti (smallest g) (smallest f) G1 F1). destruct (Z.eqb_spec (ic (smallest f) (smallest g)) 0) as [E1|E1], (Z.eqb_spec (ic (smallest g) (smallest f)) 0) as [E2|E2]; cbn [negb]; lia.
Qed.

Lemma fless_before f g : good_file f -> good_file g -> fless f g -> before f g \/ before g f -> before f g.
Proof.
  intros [F1 F2 F3] [G1 G2 G3] Hl [Hb|Hb]; [done|]. exfalso. unfold LdbVersionSpec.before in Hb. assert (ic (smallest g) (smallest f) < 0) by by apply (cmp_le_lt (smallest g) (largest g) (smallest f)). pose proof (cmp_anti (smallest f) (smallest g) F1 G1). unfold fless, file_less in Hl.
  destruct (Z.eqb_spec (ic (smallest f) (smallest g)) 0); cbn [negb] in Hl; [|lia]. pose proof (cmp_zero_sym _ _ F1 G1 ltac:(done)). lia.
Qed.

(** ** Insertion *)

Lemma added_insert_spec f l : good_file f -> Forall good_file l -> StronglySorted fless l -> number f ∉ number <$> l ->
  exists l', added_insert ucmp f l = Done l' /\ l' ≡ₚ f :: l /\ StronglySorted fless l'.
Proof.
  intros Hf. induction l as [|g l IH]; intros Hg Hs Hn; cbn [added_insert]; [exists [f]; split_and!; [done|done|repeat constructor]|]. pose proof Hg as Hgl. apply Forall_cons in Hg as [Hg Hl]. inversion Hs as [|? ? Hs' Hall]. subst. cbn in Hn. apply not_elem_of_cons in Hn as [Hne Hn].
  rewrite (bysmallest_spec f g) by done. cbn [mbind outcome_bind]. destruct (file_less f g) eqn:E1.
  - eexists. split_and!; [done|done|]. constructor; [done|]. constructor; [done|]. rewrite Forall_forall in Hall, Hl |- *. intros h Hh. apply (fless_trans f g h); [done|done|by apply Hl|done|by apply Hall].
  - pose proof (fless_total f g Hf Hg Hne E1) as E2. rewrite (bysmallest_spec g f) by done. cbn [mbind outcome_bind]. rewrite E2. destruct (IH Hl Hs' Hn) as (l' & -> & Hp & Hs2). cbn [mbind outcome_bind]. eexists. split_and!; [done| |].
    + rewrite Hp. apply perm_swap.
    + constructor; [done|]. rewrite Forall_forall in Hall |- *. intros h Hh. rewrite Hp in Hh. apply elem_of_cons in Hh as [->|Hh]; [done|by apply Hall].
Qed.

(** ** One level *)

Definition kept (D : gset Z) (fs : Files) : Files := filter (fun f => number f ∉ D) fs.

(** With base [B] and new files [N], the state of the level stands for [R]. *)
Record tracks (B : Files) (s : LevelState) (N R : Files) : Prop := {
  tr_added : added_files s ≡ₚ N;
  tr_sorted : StronglySorted fless (added_files s);
  tr_good : Forall good_file N;
  tr_result : R ≡ₚ kept (deleted_files s) (B ++ N);
}.

Definition delete_number (n : Z) (R : Files) : Files := filter (fun f => number f <> n) R.

Lemma tracks_delete B s N R n : tracks B s N R -> tracks B (MkLevelState ({[n]} ∪ deleted_files s) (added_files s)) N (delete_number n R).
Proof.
  intros [T1 T2 T3 T4]. split; cbn [added_files deleted_files]; [done|done|done|]. unfold delete_number, kept in *. rewrite T4, list_filter_filter. apply reflexive_eq, list_filter_iff. intros f. set_solver.
Qed.

Lemma kept_ext D D' fs : (forall f, f ∈ fs -> number f ∈ D <-> number f ∈ D') -> kept D fs = kept D' fs.
Proof.
  intros H. unfold kept. induction fs as [|f fs IH]; [done|]. rewrite !filter_cons, IH by (intros g Hg; apply H; by apply list_elem_of_further). specialize (H f (list_elem_of_here _ _)). repeat case_decide; [done|tauto|tauto|done].
Qed.

Lemma tracks_add B s N R f : tracks B s N R -> good_file f -> number f ∉ number <$> (B ++ N) ->
  exists l, added_insert ucmp f (added_files s) = Done l /\ tracks B (MkLevelState (deleted_files s ∖ {[number f]}) l) (N ++ [f]) (R ++ [f]).
Proof.
  intros [T1 T2 T3 T4] Hf Hn. destruct (added_insert_spec f (added_files s)) as (l & E & Hp & Hs); [done|by rewrite T1|done|rewrite T1; rewrite fmap_app, elem_of_app in Hn; tauto|].
  exists l. split; [done|]. split; cbn [added_files deleted_files].
  - rewrite Hp, T1. apply Permutation_cons_append.
  - done.
  - apply Forall_app. split; [done|]. by constructor.
  - rewrite T4. unfold kept. rewrite app_assoc, (filter_app _ (B ++ N) [f]). rewrite filter_cons, filter_nil, decide_True by set_solver. apply Permutation_app; [|done]. apply reflexive_eq. apply kept_ext. intros g Hg.
    assert (number g <> number f) by (intros E'; apply Hn; rewrite <- E'; apply list_elem_of_fmap; by exists g). set_solver.
Qed.

(** ** Merging *)

(** The base files that are not greater, and the rest. *)
Fixpoint span (f : FileMetaData) (base : Files) : Files * Files :=
  match base with [] => ([], []) | g :: base' => if file_less f g then ([], base) else (g :: (span f base').1, (span f base').2) end.
Fixpoint merged (added base : Files) : Files := match added with [] => base | f :: added => (span f base).1 ++ f :: merged added (span f base).2 end.

Lemma span_app f base : (span f base).1 ++ (span f base).2 = base.
Proof. induction base as [|g base IH]; [done|]. cbn [span]. destruct (file_less f g); [done|]. cbn. by rewrite IH. Qed.

Lemma upper_bound_spec f base : good_file f -> Forall good_file base -> upper_bound ucmp f base = Done (span f base).
Proof. intros Hf. induction 1 as [|g base Hg Hb IH]; [done|]. cbn [upper_bound span]. rewrite bysmallest_spec by done. cbn [mbind outcome_bind]. destruct (file_less f g); [done|]. rewrite IH. done. Qed.

Lemma merged_perm added : forall base, merged added base ≡ₚ base ++ added.
Proof.
  induction added as [|f added IH]; intros base; cbn [merged]; [by rewrite app_nil_r|]. rewrite IH. rewrite <- (span_app f base) at 3. rewrite <- app_assoc. apply Permutation_app_head. apply Permutation_middle.
Qed.

Lemma span_sorted f base : good_file f -> Forall good_file base -> StronglySorted fless base -> number f ∉ number <$> base -> Forall (fun g => fless g f) (span f base).1 /\ Forall (fless f) (span f base).2.
Proof.
  intros Hf. induction base as [|g base IH]; intros Hb Hs Hn; [done|]. apply Forall_cons in Hb as [Hg Hb]. inversion Hs as [|? ? Hs' Hall]. subst. cbn in Hn. apply not_elem_of_cons in Hn as [Hne Hn]. cbn [span]. destruct (file_less f g) eqn:E.
  - split; [done|]. constructor; [done|]. rewrite Forall_forall in Hall, Hb |- *. intros h Hh. apply (fless_trans f g h); [done|done|by apply Hb|done|by apply Hall].
  - destruct (IH Hb Hs' Hn) as [H1 H2]. cbn [fst snd]. split; [|done]. constructor; [|done]. by apply fless_total.
Qed.

Lemma merged_sorted added : forall base, Forall good_file (base ++ added) -> StronglySorted fless base -> StronglySorted fless added -> NoDup (number <$> (base ++ added)) -> StronglySorted fless (merged added base).
Proof.
  induction added as [|f added IH]; intros base Hg Hb Ha Hn; cbn [merged]; [done|]. inversion Ha as [|? ? Ha' Hfa]. subst. pose proof Hg as Hg0. apply Forall_app in Hg as [Hgb Hga]. apply Forall_cons in Hga as [Hgf Hga].
  assert (Hnf : number f ∉ number <$> base). { rewrite fmap_app in Hn. apply NoDup_app in Hn as (_ & Hd & _). intros H. apply (Hd _ H). apply list_elem_of_here. }
  destruct (span_sorted f base Hgf Hgb Hb Hnf) as [H1 H2]. pose proof (span_app f base) as Esp. rewrite <- Esp in Hb, Hgb. apply Forall_app in Hgb as [Hg1 Hg2]. rewrite Forall_forall in H1, H2, Hfa, Hg1, Hg2, Hga.
  assert (Hm : StronglySorted fless (merged added (span f base).2)).
  { apply IH; [apply Forall_app; split; by apply Forall_forall|by apply StronglySorted_app_1_r in Hb|done|]. rewrite <- Esp in Hn. rewrite fmap_app. rewrite fmap_app, (fmap_app _ (span f base).1) in Hn. apply NoDup_app in Hn as (Hn1 & Hn2 & Hn3). apply NoDup_app in Hn1 as (_ & _ & Hn1). cbn in Hn3. apply NoDup_cons in Hn3 as [_ Hn3]. apply NoDup_app. split_and!; [done| |done].
    intros n Hin Hin'. apply (Hn2 n); [apply elem_of_app; by right|]. by apply list_elem_of_further. }
  assert (Hfm : Forall (fless f) (merged added (span f base).2)). { apply Forall_forall. intros g Hgm. rewrite merged_perm, elem_of_app in Hgm. destruct Hgm as [?|?]; [by apply H2|by apply Hfa]. }
  apply StronglySorted_app_2; [|by apply StronglySorted_app_1_l in Hb|by constructor]. intros x y Hx Hy. apply elem_of_cons in Hy as [->|Hy]; [by apply H1|]. rewrite Forall_forall in Hfm. assert (Hgy : good_file y). { rewrite merged_perm, elem_of_app in Hy. destruct Hy as [?|?]; [by apply Hg2|by apply Hga]. }
  apply (fless_trans x f y); [by apply Hg1|done|done|by apply H1|by apply Hfm].
Qed.

(** Pushing files that come one after the other. *)
Definition pushed (s : LevelState) (fs : Files) : Files := add_ref <$> kept (deleted_files s) fs.
Lemma pushed_app s l1 l2 : pushed s (l1 ++ l2) = pushed s l1 ++ pushed s l2.
Proof. unfold pushed, kept. by rewrite filter_app, fmap_app. Qed.

Definition may_push (level : Z) (fs : Files) : Prop := Forall good_file fs /\ (level <= 0 \/ StronglySorted before fs).

Lemma may_push_prefix level l1 l2 : may_push level (l1 ++ l2) -> may_push level l1.
Proof. intros [H1 H2]. apply Forall_app in H1 as [H1 _]. split; [done|]. destruct H2 as [?|H2]; [by left|right]. by apply StronglySorted_app_1_l in H2. Qed.

Lemma maybe_add_spec level s f files : may_push level (files ++ pushed s [f]) -> MaybeAddFile ucmp level s f files = Done (files ++ pushed s [f]).
Proof.
  unfold MaybeAddFile, pushed, kept. rewrite filter_cons, filter_nil. intros [Hg Hs]. destruct (decide (number f ∈ deleted_files s)) as [Hd|Hd]; [rewrite decide_False by tauto; by rewrite fmap_nil, app_nil_r|]. rewrite decide_True in Hg, Hs |- * by done. rewrite list_fmap_singleton in Hg, Hs |- *. destruct (last files) as [g|] eqn:El; [|done]. destruct (Z.ltb_spec 0 level); [|done].
  apply last_Some in El as [l ->]. apply Forall_app in Hg as [Hg Hf]. apply Forall_app in Hg as [_ Hg]. rewrite Forall_singleton in Hf, Hg. destruct Hf as [F1 _ _], Hg as [_ G2 _]. rewrite ivalid_compare by done. cbn [mbind outcome_bind]. destruct Hs as [?|Hs]; [lia|].
  pose proof (StronglySorted_app_1_elem_of _ _ _ g (add_ref f) Hs) as Hb. unfold LdbVersionSpec.before in Hb. cbn [add_ref smallest] in Hb. destruct (Z.ltb_spec (ic (largest g) (smallest f)) 0) as [|Hge]; [done|]. exfalso. specialize (Hb ltac:(apply elem_of_app; right; apply list_elem_of_here) ltac:(apply list_elem_of_here)). lia.
Qed.

Lemma maybe_add_all_spec level s fs : forall files, may_push level (files ++ pushed s fs) -> maybe_add_all ucmp level s fs files = Done (files ++ pushed s fs).
Proof.
  induction fs as [|f fs IH]; intros files Hm; cbn [maybe_add_all]; [by rewrite app_nil_r|]. assert (E : pushed s (f :: fs) = pushed s [f] ++ pushed s fs) by by rewrite <- pushed_app.
  rewrite E, app_assoc in Hm |- *. rewrite maybe_add_spec by by apply may_push_prefix in Hm. cbn [mbind outcome_bind]. by apply IH.
Qed.

Lemma merge_added_spec level s added : forall base files, Forall good_file (base ++ added) -> may_push level (files ++ pushed s (merged added base)) -> merge_added ucmp level s added base files = Done (files ++ pushed s (merged added base)).
Proof.
  induction added as [|f added IH]; intros base files Hg Hm; cbn [merge_added merged] in *; [by apply maybe_add_all_spec|]. apply Forall_app in Hg as [Hgb Hga]. apply Forall_cons in Hga as [Hgf Hga]. rewrite upper_bound_spec by done. cbn [mbind outcome_bind].
  assert (E : pushed s ((span f base).1 ++ f :: merged added (span f base).2) = pushed s (span f base).1 ++ pushed s [f] ++ pushed s (merged added (span f base).2)) by by rewrite <- !pushed_app.
  rewrite E, !app_assoc in Hm |- *. assert (Hm1 := Hm). apply may_push_prefix in Hm1. assert (Hm2 := Hm1). apply may_push_prefix in Hm2. rewrite maybe_add_all_spec by done. cbn [mbind outcome_bind]. rewrite maybe_add_spec by done. cbn [mbind outcome_bind]. apply IH; [|done].
  rewrite <- (span_app f base) in Hgb. apply Forall_app in Hgb as [_ Hgb]. by apply Forall_app.
Qed.

Lemma no_overlap_spec files : Forall good_file files -> StronglySorted before files -> no_overlap ucmp files = Done tt.
Proof.
  induction files as [|f [|g files] IH]; intros Hg Hs; [done|done|]. cbn [no_overlap]. inversion Hs as [|? ? Hs' Hall]. subst. apply Forall_cons in Hg as [Hf Hg]. apply Forall_cons in Hall as [Hfg _]. pose proof Hg as Hg'. apply Forall_cons in Hg' as [Hgg _]. destruct Hf as [_ F2 _], Hgg as [G1 _ _].
  rewrite ivalid_compare by done. cbn [mbind outcome_bind]. unfold LdbVersionSpec.before in Hfg. destruct (Z.leb_spec 0 (ic (largest f) (smallest g))); [lia|]. by apply IH.
Qed.

Lemma refs_sorted (R : FileMetaData -> FileMetaData -> Prop) l : (forall f g, R f g -> R (add_ref f) (add_ref g)) -> StronglySorted R l -> StronglySorted R (add_ref <$> l).
Proof. intros HR. induction 1 as [|f l Hl IH Hf]; [constructor|]. constructor; [done|]. apply Forall_fmap. rewrite Forall_forall in Hf |- *. intros g Hg. by apply HR, Hf. Qed.

Lemma refs_good l : Forall good_file l -> Forall good_file (add_ref <$> l).
Proof. intros Hl. apply Forall_fmap. apply (Forall_impl _ _ _ Hl). by intros f [? ? ?]. Qed.

Definition pairwise_apart (fs : Files) : Prop := forall f g, f ∈ fs -> g ∈ fs -> f <> g -> before f g \/ before g f.

(** The saved level. *)
Lemma save_level level B s N R : tracks B s N R -> Forall good_file B -> StronglySorted fless B -> NoDup (number <$> (B ++ N)) -> (0 < level -> pairwise_apart R) ->
  exists files, merge_added ucmp level s (added_files s) B [] = Done files /\ files ≡ₚ add_ref <$> R /\ StronglySorted fless files /\ Forall good_file files /\ (0 < level -> StronglySorted before files).
Proof.
  intros [T1 T2 T3 T4] HB HsB Hnd Hap. set (M := merged (added_files s) B). assert (HgBA : Forall good_file (B ++ added_files s)) by (apply Forall_app; split; [done|]; by rewrite T1).
  assert (HndBA : NoDup (number <$> (B ++ added_files s))) by by rewrite T1. pose proof (merged_perm (added_files s) B) as Hp. fold M in Hp. pose proof (merged_sorted (added_files s) B HgBA HsB T2 HndBA) as Hs. fold M in Hs.
  assert (HgM : Forall good_file (kept (deleted_files s) M)). { apply Forall_forall. intros f Hf. unfold kept in Hf. apply list_elem_of_filter in Hf as [_ Hf]. rewrite Hp in Hf. rewrite Forall_forall in HgBA. by apply HgBA. }
  assert (HpR : kept (deleted_files s) M ≡ₚ R) by (rewrite T4; unfold kept; by rewrite Hp, T1). assert (HsK : StronglySorted fless (kept (deleted_files s) M)).
  { unfold kept. clear -Hs. induction Hs as [|f l Hl IH Hf]; [constructor|]. rewrite filter_cons. case_decide; [|done]. constructor; [done|]. rewrite Forall_forall in Hf |- *. intros g Hg. apply list_elem_of_filter in Hg as [_ Hg]. by apply Hf. }
  assert (HndK : NoDup (kept (deleted_files s) M)). { unfold kept. apply NoDup_filter. rewrite Hp. by apply NoDup_fmap_1 in HndBA. }
  assert (Hbef : 0 < level -> StronglySorted before (kept (deleted_files s) M)).
  { intros Hl. specialize (Hap Hl). assert (Hap' : pairwise_apart (kept (deleted_files s) M)) by (intros f g Hf Hg; rewrite HpR in Hf, Hg; by apply Hap). clear -HsK HgM HndK Hap' GC. induction HsK as [|f l Hl IH Hf]; [constructor|]. apply Forall_cons in HgM as [Hgf HgM]. apply NoDup_cons in HndK as [Hnf HndK]. constructor.
    - apply IH; [done|done|]. intros x y Hx Hy. apply Hap'; by apply list_elem_of_further.
    - rewrite Forall_forall in Hf, HgM |- *. intros g Hg. apply fless_before; [done|by apply HgM|by apply Hf|]. apply Hap'; [apply list_elem_of_here|by apply list_elem_of_further|]. by intros ->. }
  exists (add_ref <$> kept (deleted_files s) M). assert (Hb' : 0 < level -> StronglySorted before (add_ref <$> kept (deleted_files s) M)) by (intros Hl; apply refs_sorted; [done|by apply Hbef]).
  split_and!; [|by rewrite HpR|by apply refs_sorted|by apply refs_good|done]. rewrite merge_added_spec; [done|done|]. split; [by apply refs_good|]. destruct (Z.ltb_spec 0 level); [right; by apply Hb'|by left].
Qed.
End Spec.

(** * The builder over a sequence of edits and all the levels.

    The reference takes the edits one at a time: at each level, an edit drops
    the files it deletes and then adds its new files. *)


(** ** The reference *)

Definition deleted_at (level : Z) (ds : list (Z * Z)) : list Z := snd <$> filter (fun d => d.1 = level) ds.
Definition added_at (level : Z) (fs : list (Z * FileMetaData)) : Files := (fun p => added_file p.2) <$> filter (fun p => p.1 = level) fs.
Definition without (ns : list Z) (R : Files) : Files := filter (fun f => number f ∉ ns) R.
Definition apply_edit (level : Z) (R : Files) (e : VersionEdit) : Files := without (deleted_at level (deleted_files_ e)) R ++ added_at level (new_files_ e).
Definition apply_edits (level : Z) (R : Files) (edits : list VersionEdit) : Files := fold_left (apply_edit level) edits R.
Definition new_at (level : Z) (edits : list VersionEdit) : Files := edits ≫= (fun e => added_at level (new_files_ e)).

Lemma deleted_at_cons level d ds : deleted_at level (d :: ds) = if decide (d.1 = level) then d.2 :: deleted_at level ds else deleted_at level ds.
Proof. unfold deleted_at. rewrite filter_cons. by case_decide. Qed.

Lemma added_at_cons level p fs : added_at level (p :: fs) = (if decide (p.1 = level) then [added_file p.2] else []) ++ added_at level fs.
Proof. unfold added_at. rewrite filter_cons. by case_decide. Qed.

Lemma without_nil R : without [] R = R.
Proof. unfold without. induction R as [|f R IH]; [done|]. rewrite filter_cons, IH. rewrite decide_True; [done|]. apply not_elem_of_nil. Qed.

Lemma without_more n ns R : without ns (delete_number n R) = without (n :: ns) R.
Proof. unfold without, delete_number. rewrite list_filter_filter. apply list_filter_iff. intros f. rewrite not_elem_of_cons. tauto. Qed.

Definition in_levels (level : Z) : Prop := 0 <= level < kNumLevels.

Section Spec.
Context {ucmp : Comparator} {valid : list Z -> Prop} {cmp : list Z -> list Z -> Z} `{GC : !GoodComparator ucmp valid cmp}.
Abbreviation good_file := (good_file (valid := valid) (cmp := cmp)).
Abbreviation before := (before (cmp := cmp)).
Abbreviation fless := (fless (cmp := cmp)).
Abbreviation tracks := (tracks (valid := valid) (cmp := cmp)).
Abbreviation pairwise_apart := (pairwise_apart (cmp := cmp)).

Record good_edit (e : VersionEdit) : Prop := {
  ge_pointers : Forall (fun p => in_levels p.1 /\ p.2 <> []) (compact_pointers_ e);
  ge_deleted : Forall (fun d => in_levels d.1) (deleted_files_ e);
  ge_new : Forall (fun p => in_levels p.1 /\ good_file p.2) (new_files_ e);
}.

(** Every level's state tracks its base, new files and result. *)
Record levels_track (B : nat -> Files) (ls : list LevelState) (N R : nat -> Files) : Prop := {
  lt_length : length ls = Z.to_nat kNumLevels;
  lt_level : forall i s, ls !! i = Some s -> tracks (B i) s (N i) (R i);
}.

Lemma levels_track_ext B ls N R N' R' : levels_track B ls N R -> (forall i, N' i = N i) -> (forall i, R' i = R i) -> levels_track B ls N' R'.
Proof. intros [H1 H2] HN HR. split; [done|]. intros i s Hs. rewrite HN, HR. by apply H2. Qed.

Lemma track_level B ls N R level (F : LevelState -> outcome LevelState) N' R' : levels_track B ls N R -> in_levels level ->
  (forall s, tracks (B (Z.to_nat level)) s (N (Z.to_nat level)) (R (Z.to_nat level)) -> exists s', F s = Done s' /\ tracks (B (Z.to_nat level)) s' (N' (Z.to_nat level)) (R' (Z.to_nat level))) ->
  (forall i, Z.of_nat i <> level -> N' i = N i /\ R' i = R i) ->
  exists ls', on_level level F ls = Done ls' /\ levels_track B ls' N' R'.
Proof.
  intros [Hlen Hls] Hl HF Hext. unfold in_levels in Hl. unfold on_level. destruct (Z.ltb_spec level 0); [lia|]. destruct (lookup_lt_is_Some_2 ls (Z.to_nat level)) as [s Es]; [rewrite Hlen; lia|]. rewrite Es. cbn [demand mbind outcome_bind].
  destruct (HF s (Hls _ _ Es)) as (s' & -> & Ht). cbn [mbind outcome_bind]. eexists. split; [done|]. split; [by rewrite length_insert|]. intros i t Hi. apply list_lookup_insert_Some in Hi as [(<- & <- & _)|[Hne Hi]]; [done|]. destruct (Hext i) as [-> ->]; [lia|]. by apply Hls.
Qed.

Lemma apply_deleted_spec B N ds : forall ls R, levels_track B ls N R -> Forall (fun d => in_levels d.1) ds ->
  exists ls', apply_deleted ds ls = Done ls' /\ levels_track B ls' N (fun i => without (deleted_at (Z.of_nat i) ds) (R i)).
Proof.
  induction ds as [|[level n] ds IH]; intros ls R Ht Hd; cbn [apply_deleted].
  - exists ls. split; [done|]. apply (levels_track_ext _ _ _ _ _ _ Ht); [done|]. intros i. apply without_nil.
  - apply Forall_cons in Hd as [Hl Hd]. cbn [fst] in Hl.
    destruct (track_level B ls N R level (fun s => Done (MkLevelState ({[n]} ∪ deleted_files s) (added_files s))) N (fun i => if decide (Z.of_nat i = level) then delete_number n (R i) else R i) Ht Hl) as (ls1 & -> & Ht1).
    + intros s Hs. eexists. split; [done|]. rewrite decide_True by (unfold in_levels in Hl; lia). by apply tracks_delete.
    + intros i Hi. by rewrite decide_False.
    + cbn [mbind outcome_bind]. destruct (IH _ _ Ht1 Hd) as (ls2 & -> & Ht2). exists ls2. split; [done|]. apply (levels_track_ext _ _ _ _ _ _ Ht2); [done|]. intros i. rewrite deleted_at_cons. cbn [fst snd]. destruct (decide (level = Z.of_nat i)) as [->|Hne]; [rewrite decide_True by done; by rewrite without_more|by rewrite decide_False by done].
Qed.

Lemma added_good f : good_file f -> good_file (added_file f).
Proof. by intros [? ? ?]. Qed.

Lemma apply_added_spec B fs : forall ls N R, levels_track B ls N R -> Forall (fun p => in_levels p.1 /\ good_file p.2) fs -> (forall i, NoDup (number <$> (B i ++ N i ++ added_at (Z.of_nat i) fs))) ->
  exists ls', apply_added ucmp fs ls = Done ls' /\ levels_track B ls' (fun i => N i ++ added_at (Z.of_nat i) fs) (fun i => R i ++ added_at (Z.of_nat i) fs).
Proof.
  induction fs as [|[level f] fs IH]; intros ls N R Ht Hf Hn; cbn [apply_added].
  - exists ls. split; [done|]. apply (levels_track_ext _ _ _ _ _ _ Ht); intros i; by rewrite app_nil_r.
  - apply Forall_cons in Hf as [[Hl Hgf] Hf]. cbn [fst snd] in Hl, Hgf. pose (g i := if decide (level = Z.of_nat i) then [added_file f] else []).
    match goal with |- context [on_level level ?F ls] => destruct (track_level B ls N R level F (fun i => N i ++ g i) (fun i => R i ++ g i) Ht Hl) as (ls1 & -> & Ht1) end.
    + intros s Hs. unfold g. rewrite decide_True by (unfold in_levels in Hl; lia). destruct (tracks_add _ _ _ _ (added_file f) Hs (added_good f Hgf)) as (l & -> & Ht').
      * specialize (Hn (Z.to_nat level)). rewrite added_at_cons in Hn. cbn [fst snd] in Hn. rewrite decide_True in Hn by (unfold in_levels in Hl; lia). rewrite !app_assoc, <- app_assoc, fmap_app in Hn. apply NoDup_app in Hn as (_ & Hd & _). intros Hin. apply (Hd _ Hin). apply list_elem_of_here.
      * cbn [mbind outcome_bind]. by eexists.
    + intros i Hi. unfold g. rewrite decide_False by done. by rewrite !app_nil_r.
    + cbn [mbind outcome_bind]. destruct (IH _ _ _ Ht1 Hf) as (ls2 & -> & Ht2).
      * intros i. specialize (Hn i). rewrite added_at_cons in Hn. cbn [fst snd] in Hn. unfold g. by rewrite <- app_assoc.
      * exists ls2. split; [done|]. apply (levels_track_ext _ _ _ _ _ _ Ht2); intros i; rewrite added_at_cons; cbn [fst snd]; unfold g; by rewrite app_assoc.
Qed.

Lemma apply_pointers_spec ps : forall pointers, length pointers = Z.to_nat kNumLevels -> Forall (fun p => in_levels p.1 /\ p.2 <> []) ps ->
  apply_pointers ps pointers = Done (fold_left (fun ptrs p => <[Z.to_nat p.1 := p.2]> ptrs) ps pointers) /\ length (fold_left (fun ptrs p => <[Z.to_nat p.1 := p.2]> ptrs) ps pointers) = Z.to_nat kNumLevels.
Proof.
  induction ps as [|[level key] ps IH]; intros pointers Hlen Hp; [done|]. apply Forall_cons in Hp as [[Hl Hk] Hp]. cbn [fst snd] in Hl, Hk. unfold in_levels in Hl. cbn [apply_pointers]. destruct (Z.ltb_spec level 0); [lia|].
  destruct (lookup_lt_is_Some_2 pointers (Z.to_nat level)) as [k Ek]; [rewrite Hlen; lia|]. rewrite Ek. cbn [demand mbind outcome_bind]. unfold ik_Encode. rewrite bool_decide_false by done. cbn [mbind outcome_bind fold_left fst snd]. apply IH; [by rewrite length_insert|done].
Qed.

(** The last pointer set for a level wins. *)
Definition pointers_of (edits : list VersionEdit) : list (Z * list Z) := edits ≫= compact_pointers_.
Definition set_pointers (ps : list (Z * list Z)) (pointers : list (list Z)) : list (list Z) := fold_left (fun ptrs p => <[Z.to_nat p.1 := p.2]> ptrs) ps pointers.

Lemma apply_all_spec B edits : forall b N R, levels_track B (levels_ b) N R -> length (compact_pointer_ b) = Z.to_nat kNumLevels -> Forall good_edit edits -> (forall i, NoDup (number <$> (B i ++ N i ++ new_at (Z.of_nat i) edits))) ->
  exists b', apply_all ucmp edits b = Done b' /\ base_ b' = base_ b /\ compact_pointer_ b' = set_pointers (pointers_of edits) (compact_pointer_ b) /\
    levels_track B (levels_ b') (fun i => N i ++ new_at (Z.of_nat i) edits) (fun i => apply_edits (Z.of_nat i) (R i) edits).
Proof.
  induction edits as [|e edits IH]; intros b N R Ht Hlen Hg Hn; cbn [apply_all].
  - exists b. split_and!; [done|done|done|]. apply (levels_track_ext _ _ _ _ _ _ Ht); [|done]. intros i. cbn. by rewrite app_nil_r.
  - apply Forall_cons in Hg as [[G1 G2 G3] Hg]. unfold Apply. destruct (apply_pointers_spec _ _ Hlen G1) as [-> Hlen']. cbn [mbind outcome_bind]. destruct (apply_deleted_spec B N (deleted_files_ e) _ _ Ht G2) as (ls1 & -> & Ht1). cbn [mbind outcome_bind].
    destruct (apply_added_spec B (new_files_ e) _ _ _ Ht1 G3) as (ls2 & -> & Ht2).
    { intros i. specialize (Hn i). unfold new_at in Hn. cbn [mbind list_bind] in Hn. rewrite !app_assoc, fmap_app in Hn. rewrite app_assoc. by apply NoDup_app in Hn as (Hn & _). }
    cbn [mbind outcome_bind]. match goal with |- context [apply_all ucmp edits ?b1] => destruct (IH b1 _ _ Ht2 Hlen' Hg) as (b' & -> & Hb & Hp & Ht3) end.
    { intros i. specialize (Hn i). unfold new_at in Hn |- *. cbn [mbind list_bind] in Hn. by rewrite <- app_assoc. }
    exists b'. split_and!; [done|done| |].
    + rewrite Hp. cbn [compact_pointer_]. unfold set_pointers, pointers_of. cbn [mbind list_bind]. by rewrite fold_left_app.
    + apply (levels_track_ext _ _ _ _ _ _ Ht3); intros i; [|done]. unfold new_at. cbn [mbind list_bind]. by rewrite app_assoc.
Qed.

(** ** Saving the levels *)

Record saved_level (level : Z) (R files : Files) : Prop := {
  sl_files : files ≡ₚ add_ref <$> R;
  sl_good : Forall good_file files;
  sl_sorted : StronglySorted fless files;
  sl_apart : 0 < level -> StronglySorted before files;
}.

Lemma save_levels_spec (R : nat -> Files) ls : forall level base, length base = length ls ->
  (forall i s B, ls !! i = Some s -> base !! i = Some B -> exists files, merge_added ucmp (Z.of_nat (level + i)) s (added_files s) B [] = Done files /\ saved_level (Z.of_nat (level + i)) (R (level + i)%nat) files) ->
  exists out, save_levels ucmp (Z.of_nat level) ls base = Done out /\ length out = length ls /\ forall i files, out !! i = Some files -> saved_level (Z.of_nat (level + i)) (R (level + i)%nat) files.
Proof.
  induction ls as [|s ls IH]; intros level base Hlen Hm; cbn [save_levels]; [by exists []|]. destruct base as [|B base]; [done|]. cbn [head demand mbind outcome_bind tail]. destruct (Hm 0%nat s B eq_refl eq_refl) as (files & E & Hf). rewrite Nat.add_0_r in E, Hf. rewrite E. cbn [mbind outcome_bind].
  assert (E2 : (if 0 <? Z.of_nat level then no_overlap ucmp files else Done tt) = Done tt). { destruct (Z.ltb_spec 0 (Z.of_nat level)); [|done]. destruct Hf as [_ Hg _ Ha]. apply no_overlap_spec; [done|by apply Ha]. }
  rewrite E2. cbn [mbind outcome_bind]. replace (Z.of_nat level + 1) with (Z.of_nat (S level)) by lia. destruct (IH (S level) base) as (out & -> & Hol & Ho); [by injection Hlen| |].
  - intros i t B' Ht HB. specialize (Hm (S i) t B' Ht HB). by replace (S level + i)%nat with (level + S i)%nat by lia.
  - cbn [mbind outcome_bind]. exists (files :: out). split_and!; [done|cbn; by rewrite Hol|]. intros [|i] fs Hi; cbn in Hi; [rewrite Nat.add_0_r; by injection Hi as <-|]. replace (level + S i)%nat with (S level + i)%nat by lia. by apply Ho.
Qed.

(** A version the builder may start from. *)
Record good_base (base : list Files) : Prop := {
  gb_levels : length base = Z.to_nat kNumLevels;
  gb_files : forall i B, base !! i = Some B -> Forall good_file B /\ StronglySorted fless B;
}.

Lemma builder_spec base pointers edits : good_base base -> length pointers = Z.to_nat kNumLevels -> Forall good_edit edits ->
  (forall i, NoDup (number <$> (default [] (base !! i) ++ new_at (Z.of_nat i) edits))) -> (forall i, (0 < i)%nat -> pairwise_apart (apply_edits (Z.of_nat i) (default [] (base !! i)) edits)) ->
  exists b files, apply_all ucmp edits (new_Builder base pointers) = Done b /\ SaveTo ucmp b = Done files /\ compact_pointer_ b = set_pointers (pointers_of edits) pointers /\ length files = Z.to_nat kNumLevels /\
    forall i fs, files !! i = Some fs -> saved_level (Z.of_nat i) (apply_edits (Z.of_nat i) (default [] (base !! i)) edits) fs.
Proof.
  intros [Hlen Hb] Hp He Hn Ha. set (B i := default [] (base !! i)). destruct (apply_all_spec B edits (new_Builder base pointers) (fun _ => []) B) as (b & E & Hbase & Hptr & [Htl Ht]); [|done|done|done|].
  - split; [apply length_replicate|]. intros i s Hs. apply lookup_replicate in Hs as [-> _]. split; cbn [added_files deleted_files]; [done|constructor|done|]. rewrite app_nil_r. unfold kept. apply reflexive_eq. symmetry. rewrite <- (without_nil (B i)) at 2. apply list_filter_iff. intros f. set_solver.
  - destruct (save_levels_spec (fun i => apply_edits (Z.of_nat i) (B i) edits) (levels_ b) 0 base) as (files & Es & Hfl & Hf); [congruence| |].
    + intros i s B' Hs HB. cbn [Nat.add]. specialize (Ht i s Hs). specialize (Hb i B' HB) as [HgB HsB]. assert (EB : B i = B') by (unfold B; by rewrite HB). rewrite EB in Ht. specialize (Hn i). specialize (Ha i). rewrite HB in Hn, Ha. cbn [default from_option id] in Hn, Ha.
      destruct (save_level (Z.of_nat i) _ _ _ _ Ht HgB HsB Hn) as (fs & -> & H1 & H2 & H3 & H4); [intros H; apply Ha; lia|]. eexists. split; [done|]. rewrite EB. by split.
    + exists b, files. split_and!; [done|unfold SaveTo; by rewrite Hbase|done|congruence|]. intros i fs Hi. apply (Hf i fs Hi).
Qed.
End Spec.
