(* ===== verification/LdbVersionTheorems.v ===== *)
(** * LdbVersionTheorems: edits and versions, the properties. *)

From Stdlib Require Import ZifyBool Sorting.Sorted.
From stdpp Require Import base tactics numbers list gmap strings sorting.
From S2P Require Import Prelude PbOStream PbWire LdbCoding LdbLog LdbKey LdbKeySpec LdbBatch LdbTheorems LdbIter LdbTable LdbTableTheorems LdbEdit LdbVersion LdbVersionSpec LdbVersionGet LdbBuilder LdbSstTheorems.
Open Scope Z_scope.

(** ** Edits *)

(** C35: An edit made by any sequence of calls that set, add and delete is read
    back from the bytes that [EncodeTo] writes for it, except for the compaction
    pointers: those of the edit that is read into, which [Clear] leaves there, come
    first. *)
Theorem version_edit_roundtrip (xs : list field) (e0 : VersionEdit) : Forall good_field xs ->
  exists bs, EncodeTo (fold_left apply_field xs new_VersionEdit) [] = Done bs /\ ve_DecodeFrom bs e0 = Done (OK, with_pointers (compact_pointers_ e0) (fold_left apply_field xs new_VersionEdit)).
Proof.
  intros Hx. destruct (built_good xs new_VersionEdit new_canonical) as [C G]; [by repeat constructor|done|]. set (e := fold_left apply_field xs new_VersionEdit) in *. rewrite (write_edit e [] G). eexists. split; [done|].
  unfold ve_DecodeFrom, bytes_of. cbn [app]. rewrite read_fields; [|done|pose proof (fields_length (fields e)); lia]. cbn [mbind outcome_bind]. by rewrite fold_fields.
Qed.

Definition sample_fields : list field :=
  [FComparator [108; 101; 118]; FLog 12; FNextFile 300; FLastSequence (2 ^ 40); FPointer 2 (version_key [107] 5); FDeleted 1 9; FDeleted 0 300; FNew 1 17 4096 (version_key [97] 9) (version_key [98] 7)].
Lemma sample_fields_good : Forall good_field sample_fields.
Proof. unfold sample_fields. repeat (apply Forall_cons_2; [by vm_compute|]). apply Forall_nil_2. Qed.

Lemma version_edit_roundtrip_witness : exists bs, EncodeTo (fold_left apply_field sample_fields new_VersionEdit) [] = Done bs /\
  ve_DecodeFrom bs new_VersionEdit = Done (OK, with_pointers [] (fold_left apply_field sample_fields new_VersionEdit)).
Proof. apply (version_edit_roundtrip sample_fields new_VersionEdit). apply sample_fields_good. Defined.

(** Reading an edit from any bytes ends, with success or with a corruption
    status; it never fails in another way. *)
Theorem version_edit_total (bs : list Z) (e0 : VersionEdit) : exists s e, ve_DecodeFrom bs e0 = Done (s, e) /\ (s = OK \/ exists msg, s = Corruption ("VersionEdit: " +:+ msg)).
Proof.
  unfold ve_DecodeFrom. destruct (decode_loop_total (S (length bs)) bs (ve_Clear e0)) as (msg & rest & e' & ->); [lia|]. cbn [mbind outcome_bind]. eexists _, _. split; [done|]. destruct msg as [m|]; [right; by exists m|]. case_bool_decide; [by left|right; by eexists].
Qed.

(** ** Versions *)

Section Versions.
Context {ucmp : Comparator} {valid : list Z -> Prop} {cmp : list Z -> list Z -> Z} `{GC : !GoodComparator ucmp valid cmp}.

(** A range of user keys overlaps a level just when some file of the level
    has a key range that meets it, whether the files are scanned or, above level 0,
    searched. *)
Theorem overlap_exact (files : Files) (disjoint : bool) (small large : option (list Z)) :
  opt_valid (valid := valid) small -> opt_valid (valid := valid) large -> Forall (good_file (valid := valid) (cmp := cmp)) files ->
  (disjoint = true -> apart (valid := valid) (cmp := cmp) files /\ Forall (fun f => packed (largest f)) files) ->
  exists b, SomeFileOverlapsRange ucmp disjoint files small large = Done b /\ (b = true <-> Exists (overlaps (cmp := cmp) small large) files).
Proof. apply overlaps_exact. Qed.

(** C38: The inputs of a compaction: the search ends and returns just the files of
    the level in a range, the given one or, at level 0, a wider one that no returned
    file leaves. *)
Theorem overlapping_inputs_closed (files_ : list Files) (level : Z) (files : Files) (begin end_ : option (list Z)) :
  0 <= level < kNumLevels -> files_ !! Z.to_nat level = Some files -> Forall (good_file (valid := valid) (cmp := cmp)) files -> opt_ivalid (valid := valid) begin -> opt_ivalid (valid := valid) end_ ->
  exists inputs b' e', GetOverlappingInputs ucmp files_ level begin end_ = Done inputs /\ found_inputs (cmp := cmp) level files (user_opt begin) (user_opt end_) b' e' inputs.
Proof. intros H1 H2 H3 H4 H5. destruct (GetOverlappingInputs_spec (ucmp := ucmp) files_ level files begin end_ H1 H2 H3 H4 H5) as (inputs & b' & e' & E & _ & _ & H). by exists inputs, b', e'. Qed.

(** C36: A memtable goes to one of the levels 0 to 2; if below level 0, no file of
    that level or of one above has a key in its range. *)
Theorem pick_level_safe (size : Z) (files_ : list Files) (small large : list Z) : good_version (valid := valid) (cmp := cmp) files_ -> valid small -> valid large ->
  exists L, PickLevelForMemTableOutput ucmp size files_ small large = Done L /\ 0 <= L <= kMaxMemCompactLevel /\ (0 < L -> forall i, 0 <= i <= L -> free_level (cmp := cmp) files_ small large i).
Proof. apply pick_spec. Qed.

(** C4: [Version::Get] returns the newest update of the key that is not newer than
    the sequence number asked for, among all the files of all the levels: its value,
    or not found if it is a deletion or there is none. *)
Theorem version_get_newest {C : Type} `{!TableCache C} (good : C -> Prop) (stored : FileMetaData -> Prop) (contents : FileMetaData -> list entry) (GT : GoodTables (valid := valid) (cmp := cmp) good stored contents)
    (files_ : list Files) (options : ReadOptions) (k v : list Z) (c : C) :
  good c -> good_levels (valid := valid) (cmp := cmp) (stored := stored) (contents := contents) 0 files_ -> valid_ikey valid k ->
  exists s l, version_Get ucmp files_ options k (user_part k) v c = Done (s, l) /\ good (l_cache l) /\
    ((exists e, newest_in (cmp := cmp) k (concat (entries_of (contents := contents) <$> files_)) e /\ answers e s (l_value l)) \/
     (none_in (cmp := cmp) k (concat (entries_of (contents := contents) <$> files_)) /\ s = NotFound "" /\ l_value l = v)).
Proof. intros Hc Hl Hk. unfold version_Get. by apply (get_in_levels_spec (GT := GT) options k files_ 0 (MkLookup (MkStats None (-1)) None (-1) v c)). Qed.

(** C8: Saving the edits that a builder collected gives, at every level, the files
    that applying them one at a time gives, each with one more reference, in order,
    and apart above level 0; the compaction pointers are the last ones set. *)
Theorem version_builder_exact (base : list Files) (pointers : list (list Z)) (edits : list VersionEdit) :
  good_base (valid := valid) (cmp := cmp) base -> length pointers = Z.to_nat kNumLevels -> Forall (good_edit (valid := valid) (cmp := cmp)) edits ->
  (forall i, NoDup (number <$> (default [] (base !! i) ++ new_at (Z.of_nat i) edits))) -> (forall i, (0 < i)%nat -> pairwise_apart (cmp := cmp) (apply_edits (Z.of_nat i) (default [] (base !! i)) edits)) ->
  exists b files, apply_all ucmp edits (new_Builder base pointers) = Done b /\ SaveTo ucmp b = Done files /\ compact_pointer_ b = set_pointers (pointers_of edits) pointers /\ length files = Z.to_nat kNumLevels /\
    forall i fs, files !! i = Some fs -> saved_level (valid := valid) (cmp := cmp) (Z.of_nat i) (apply_edits (Z.of_nat i) (default [] (base !! i)) edits) fs.
Proof. apply builder_spec. Qed.
End Versions.

(** ** A database with three tables *)

Definition deletion_key (user : list Z) (seq : Z) : list Z := user ++ EncodeFixed64 (seq * 256).
Definition sample_table (n : Z) : list entry :=
  if n =? 7 then [(version_key [97] 9, [1]); (deletion_key [98] 8, [])]
  else if n =? 5 then [(version_key [97] 6, [2]); (version_key [98] 5, [3])]
  else if n =? 3 then [(version_key [97] 2, [4]); (version_key [99] 1, [5])] else [].

Definition file7 : FileMetaData := MkFile 1 100 7 90 (version_key [97] 9) (deletion_key [98] 8).
Definition file5 : FileMetaData := MkFile 1 100 5 90 (version_key [97] 6) (version_key [98] 5).
Definition file3 : FileMetaData := MkFile 1 100 3 90 (version_key [97] 2) (version_key [99] 1).
Definition file2 : FileMetaData := MkFile 1 100 2 90 (version_key [120] 2) (version_key [121] 1).
Definition sample_levels : list Files := [[file5; file7]; [file3]; []; []; []; []; []].

#[local] Instance sample_cache : TableCache unit := { tc_Get _ n _ k c := Done (OK, sample_table n !! lower_bound (icmp lex) k (sample_table n), c) }.
#[local] Instance sample_good : GoodTables (valid := Forall is_byte) (cmp := lex) (fun _ => True) (fun _ => True) (fun f => sample_table (number f)).
Proof. split. intros options f k c _ _ _. eexists _, c. split; [done|]. split; [done|]. split; [by intros e|]. by intros e -> _. Qed.

Abbreviation byte_file := (good_file (valid := Forall is_byte) (cmp := lex)).
Abbreviation table_file := (good_table_file (valid := Forall is_byte) (cmp := lex) (stored := fun _ => True) (contents := fun f => sample_table (number f))).

Lemma deletion_key_valid user seq : Forall is_byte user -> 0 <= seq < 2 ^ 50 -> valid_ikey (Forall is_byte) (deletion_key user seq).
Proof. intros Hu Hs. apply valid_ikey_app; [lia|done]. Qed.

Ltac sample_key := first [apply version_key_valid | apply deletion_key_valid]; [byte_list|lia].
Ltac in_list H := repeat (apply elem_of_cons in H as [->|H]); [..|by apply elem_of_nil in H].
Ltac sample_file := split; cbn [smallest largest]; [sample_key|sample_key|vm_compute; discriminate].

Lemma file7_good : byte_file file7. Proof. sample_file. Qed.
Lemma file5_good : byte_file file5. Proof. sample_file. Qed.
Lemma file3_good : byte_file file3. Proof. sample_file. Qed.
Lemma file2_good : byte_file file2. Proof. sample_file. Qed.

Lemma newer_forall (es es' : list entry) : Forall (fun e => Forall (fun e' => lex (user_part e.1) (user_part e'.1) = 0 -> tag_part e'.1 < tag_part e.1) es') es -> newer (cmp := lex) es es'.
Proof. intros H e e' He He'. rewrite Forall_forall in H. specialize (H e He). rewrite Forall_forall in H. by apply H. Qed.

Ltac table_entries := split; [repeat (apply Forall_cons_2; [split; [sample_key|vm_compute; discriminate]|]); apply Forall_nil_2|sorted_list].
Ltac table_file := split; cbn [number smallest largest]; [done|done|table_entries|intros e He; in_list He; vm_compute; discriminate|intros e He; in_list He; vm_compute; discriminate|].

Lemma file7_table : table_file file7. Proof. pose proof file7_good. table_file. exists []. by apply list_elem_of_further, list_elem_of_here. Qed.
Lemma file5_table : table_file file5. Proof. pose proof file5_good. table_file. exists [3]. by apply list_elem_of_further, list_elem_of_here. Qed.
Lemma file3_table : table_file file3. Proof. pose proof file3_good. table_file. exists [5]. by apply list_elem_of_further, list_elem_of_here. Qed.

Lemma level_cons level files levels : good_level (valid := Forall is_byte) (cmp := lex) (stored := fun _ => True) (contents := fun f => sample_table (number f)) level files ->
  Forall (fun fs => newer (cmp := lex) (entries_of (contents := fun f => sample_table (number f)) files) (entries_of (contents := fun f => sample_table (number f)) fs)) levels ->
  good_levels (valid := Forall is_byte) (cmp := lex) (stored := fun _ => True) (contents := fun f => sample_table (number f)) (level + 1) levels ->
  good_levels (valid := Forall is_byte) (cmp := lex) (stored := fun _ => True) (contents := fun f => sample_table (number f)) level (files :: levels).
Proof. intros H1 H2 H3. exact (conj H1 (conj H2 H3)). Qed.

Lemma empty_level level : good_level (valid := Forall is_byte) (cmp := lex) (stored := fun _ => True) (contents := fun f => sample_table (number f)) level [].
Proof. split; [constructor|]. destruct (level =? 0); [split; [constructor|]; intros f g Hf; by apply elem_of_nil in Hf|]. split; [constructor|]. split; [constructor|done]. Qed.

Ltac is_newer := apply newer_forall; repeat (apply Forall_cons_2; [repeat (apply Forall_cons_2; [vm_compute; first [reflexivity|discriminate]|]); apply Forall_nil_2|]); apply Forall_nil_2.

Lemma sample_levels_good : good_levels (valid := Forall is_byte) (cmp := lex) (stored := fun _ => True) (contents := fun f => sample_table (number f)) 0 sample_levels.
Proof.
  unfold sample_levels. apply level_cons; [| |apply level_cons].
  - split; [repeat (apply Forall_cons_2; [apply file5_table || apply file7_table|]); apply Forall_nil_2|]. cbn [Z.eqb]. split; [repeat constructor; cbn; set_solver by lia|]. intros f g Hf Hg Hn. in_list Hf; in_list Hg; cbn [number file5 file7] in Hn; try lia. is_newer.
  - repeat (apply Forall_cons_2; [is_newer|]). apply Forall_nil_2.
  - split; [constructor; [apply file3_table|constructor]|]. split; [constructor; [apply file3_good|constructor]|]. split; [repeat constructor|done].
  - repeat (apply Forall_cons_2; [is_newer|]). apply Forall_nil_2.
  - repeat (apply level_cons; [apply empty_level|repeat (apply Forall_cons_2; [is_newer|]); apply Forall_nil_2|]). done.
Qed.

(** At sequence number 6 the key [98] is not deleted yet. *)
Lemma version_get_newest_witness : exists s l, version_Get BytewiseComparator sample_levels (MkReadOptions true true) (version_key [98] 6) [98] [] tt = Done (s, l) /\
  ((exists e, newest_in (cmp := lex) (version_key [98] 6) (concat (entries_of (contents := fun f => sample_table (number f)) <$> sample_levels)) e /\ answers e s (l_value l)) \/ none_in (cmp := lex) (version_key [98] 6) (concat (entries_of (contents := fun f => sample_table (number f)) <$> sample_levels))).
Proof.
  destruct (version_get_newest (ucmp := BytewiseComparator) (fun _ => True) (fun _ => True) (fun f => sample_table (number f)) sample_good sample_levels (MkReadOptions true true) (version_key [98] 6) [] tt I sample_levels_good) as (s & l & E & _ & H).
  - sample_key.
  - exists s, l. split; [exact E|]. destruct H as [H|(H & _)]; [left; exact H|right; exact H].
Defined.
Example get_before_deletion : exists l, version_Get BytewiseComparator sample_levels (MkReadOptions true true) (version_key [98] 6) [98] [] tt = Done (OK, l) /\ l_value l = [3] /\ seek_file (l_stats l) = Some file7.
Proof. eexists. vm_compute. done. Qed.
Example get_deleted : exists l, version_Get BytewiseComparator sample_levels (MkReadOptions true true) (version_key [98] 10) [98] [] tt = Done (NotFound "", l).
Proof. eexists. vm_compute. done. Qed.

Lemma overlap_exact_witness : exists b, SomeFileOverlapsRange BytewiseComparator true [file3; file2] (Some [100]) (Some [120]) = Done b /\ (b = true <-> Exists (overlaps (cmp := lex) (Some [100]) (Some [120])) [file3; file2]).
Proof.
  apply (overlap_exact (ucmp := BytewiseComparator) (valid := Forall is_byte) (cmp := lex)); [byte_list|byte_list| |].
  - repeat (apply Forall_cons_2; [apply file3_good || apply file2_good|]); apply Forall_nil_2.
  - intros _. split; [|repeat constructor; vm_compute; discriminate]. split; [repeat (apply Forall_cons_2; [apply file3_good || apply file2_good|]); apply Forall_nil_2|]. split; [|vm_compute; reflexivity]. sorted_list.
Defined.

(** The file 5 lowers the range to a key that the file 7 has too. *)
Lemma overlapping_inputs_closed_witness : exists inputs b' e', GetOverlappingInputs BytewiseComparator sample_levels 0 (Some (version_key [98] 3)) (Some (version_key [98] 3)) = Done inputs /\
  found_inputs (cmp := lex) 0 [file5; file7] (Some [98]) (Some [98]) b' e' inputs.
Proof.
  apply (overlapping_inputs_closed (ucmp := BytewiseComparator) (valid := Forall is_byte) (cmp := lex) sample_levels 0 [file5; file7] (Some (version_key [98] 3)) (Some (version_key [98] 3))); [vm_compute; split; [discriminate|reflexivity]|reflexivity| |sample_key|sample_key].
  repeat (apply Forall_cons_2; [apply file5_good || apply file7_good|]). apply Forall_nil_2.
Defined.

Lemma sample_version : good_version (valid := Forall is_byte) (cmp := lex) sample_levels.
Proof.
  split; [done| |].
  - intros i fs Hi. destruct i as [|[|[|[|[|[|[|i]]]]]]]; cbn in Hi; try done; injection Hi as <-; repeat (apply Forall_cons_2; [apply file5_good || apply file7_good || apply file3_good|]); apply Forall_nil_2.
  - intros i fs Hi Hp. destruct i as [|[|[|[|[|[|[|i]]]]]]]; cbn in Hi; try done; [lia|..]; injection Hi as <-; (split; [split; [repeat (apply Forall_cons_2; [apply file3_good|]); apply Forall_nil_2|split; [repeat constructor|done]]|repeat constructor; vm_compute; discriminate]).
Qed.

Lemma pick_level_safe_witness : exists L, PickLevelForMemTableOutput BytewiseComparator 2097152 sample_levels [100] [101] = Done L /\ 0 <= L <= kMaxMemCompactLevel /\ (0 < L -> forall i, 0 <= i <= L -> free_level (cmp := lex) sample_levels [100] [101] i).
Proof. apply (pick_level_safe (ucmp := BytewiseComparator) 2097152 sample_levels [100] [101] sample_version); byte_list. Defined.
Example pick_two : PickLevelForMemTableOutput BytewiseComparator 2097152 sample_levels [100] [101] = Done 2.
Proof. vm_compute. reflexivity. Qed.

(** The file 5 is replaced by the file 7, and the file 2 added next to the file 3. *)
Definition sample_base : list Files := [[file5]; [file3]; []; []; []; []; []].
Definition sample_edits : list VersionEdit :=
  [AddFile 0 7 90 (version_key [97] 9) (deletion_key [98] 8) (DeleteFile 0 5 new_VersionEdit);
   SetCompactPointer 1 (version_key [99] 1) (AddFile 1 2 90 (version_key [120] 2) (version_key [121] 1) new_VersionEdit)].

Lemma sample_base_good : good_base (valid := Forall is_byte) (cmp := lex) sample_base.
Proof.
  split; [done|]. intros i B Hi. destruct i as [|[|[|[|[|[|[|i]]]]]]]; cbn in Hi; try done; injection Hi as <-; (split; [repeat (apply Forall_cons_2; [apply file5_good || apply file3_good|]); apply Forall_nil_2|repeat constructor]).
Qed.

Lemma sample_edits_good : Forall (good_edit (valid := Forall is_byte) (cmp := lex)) sample_edits.
Proof.
  repeat (apply Forall_cons_2; [split; cbn [new_files_ deleted_files_ compact_pointers_ AddFile DeleteFile SetCompactPointer push_file set_lists new_VersionEdit ve_Clear set_insert app];
    repeat (apply Forall_cons_2; [cbn [fst snd]; unfold in_levels, kNumLevels|]); try apply Forall_nil_2|]); [..|apply Forall_nil_2].
  - lia.
  - split; [lia|]. sample_file.
  - split; [lia|done].
  - split; [lia|]. sample_file.
Qed.

(** No edit is about a level from 2 on. *)
Lemma new_at_high i : (2 <= i)%nat -> new_at (Z.of_nat i) sample_edits = [].
Proof. intros Hi. unfold new_at, sample_edits. cbn [mbind list_bind]. unfold added_at. cbn [new_files_ AddFile DeleteFile SetCompactPointer push_file set_lists new_VersionEdit ve_Clear app]. rewrite !filter_cons, !filter_nil. cbn [fst]. rewrite !decide_False by lia. done. Qed.
Lemma apply_edits_high i : (2 <= i)%nat -> apply_edits (Z.of_nat i) [] sample_edits = [].
Proof.
  intros Hi. unfold apply_edits, sample_edits, apply_edit, added_at. cbn [fold_left new_files_ AddFile DeleteFile SetCompactPointer push_file set_lists new_VersionEdit ve_Clear app]. rewrite !filter_cons, !filter_nil. cbn [fst]. rewrite !decide_False by lia. done.
Qed.
Lemma base_high i : (2 <= i)%nat -> default [] (sample_base !! i) = [].
Proof. intros Hi. by destruct i as [|[|[|[|[|[|[|i]]]]]]]; [lia|lia|..]. Qed.

Lemma version_builder_exact_witness : exists b files, apply_all BytewiseComparator sample_edits (new_Builder sample_base (replicate 7 [])) = Done b /\ SaveTo BytewiseComparator b = Done files /\
  compact_pointer_ b !! 1%nat = Some (version_key [99] 1) /\ (forall fs, files !! 0%nat = Some fs -> fs ≡ₚ [MkFile 2 100 7 90 (version_key [97] 9) (deletion_key [98] 8)]).
Proof.
  destruct (version_builder_exact (ucmp := BytewiseComparator) (valid := Forall is_byte) (cmp := lex) sample_base (replicate 7 []) sample_edits sample_base_good eq_refl sample_edits_good) as (b & files & E1 & E2 & E3 & _ & H).
  - intros i. destruct i as [|[|i]]; [vm_compute; repeat constructor; set_solver by lia|vm_compute; repeat constructor; set_solver by lia|]. rewrite base_high, new_at_high by lia. constructor.
  - intros i Hi. destruct i as [|[|i]]; [lia| |rewrite base_high, apply_edits_high by lia; intros f g Hf; by apply elem_of_nil in Hf]. change (apply_edits (Z.of_nat 1) (default [] (sample_base !! 1%nat)) sample_edits) with [file3; MkFile 1 100 2 90 (version_key [120] 2) (version_key [121] 1)].
    intros f g Hf Hg Hne. in_list Hf; in_list Hg; first [done|left; vm_compute; reflexivity|right; vm_compute; reflexivity].
  - exists b, files. split; [exact E1|]. split; [exact E2|]. split; [rewrite E3; reflexivity|]. intros fs Hfs. destruct (H 0%nat fs Hfs) as [Hp _ _ _]. exact Hp.
Defined.
