(* ===== verification/LdbMerge.v ===== *)
(** * LdbMerge: iterators merged in key order (table/merger.cc).

    Over children that are cursors, with no key twice, the merging iterator is a
    cursor over all the entries in order, in both directions and through changes
    of direction. *)

From Stdlib Require Import ZifyBool Sorting.Sorted.
From stdpp Require Import base tactics numbers list gmap strings sorting.
From S2P Require Import Prelude LdbCoding LdbLog LdbKey LdbKeySpec LdbIter LdbTwoLevel.
Open Scope Z_scope.

Inductive Direction : Type := kForward | kReverse.
#[export] Instance direction_eq_dec : EqDecision Direction.
Proof. solve_decision. Defined.

Section Merge.
Context {I : Type} `{!Iterator I} (compare : list Z -> list Z -> outcome Z).
Abbreviation W := (IteratorWrapper I).

(** [current_] points into [children_]. *)
Record MergingIterator : Type := MkMerging { children_ : list W; current_ : option nat; direction_ : Direction }.

Fixpoint on_each (f : W -> outcome W) (cs : list W) : outcome (list W) :=
  match cs with
  | [] => Done []
  | c :: cs => c ← f c; cs ← on_each f cs; Done (c :: cs)
  end.

(** [new IteratorWrapper[n]] and [Set] for each. *)
Fixpoint set_children (its : list I) : outcome (list W) :=
  match its with
  | [] => Done []
  | it :: its => w ← w_Set (Some it) (MkWrapper None false []); ws ← set_children its; Done (w :: ws)
  end.
Definition new_MergingIterator (its : list I) : outcome MergingIterator := ws ← set_children its; Done (MkMerging ws None kForward).

(** The loop of [FindSmallest] and [FindLargest]; [better] tells by the result of
    the comparison whether the child replaces the best one so far. *)
Fixpoint find_best (better : Z -> bool) (cs : list (nat * W)) (best : option (nat * W)) : outcome (option nat) :=
  match cs with
  | [] => Done (fst <$> best)
  | (i, child) :: cs =>
    if w_valid child then
      match best with
      | None => find_best better cs (Some (i, child))
      | Some b =>
        k ← w_key child;
        k' ← w_key b.2;
        r ← compare k k';
        find_best better cs (if better r then Some (i, child) else best)
      end
    else find_best better cs best
  end.
Definition indexed (cs : list W) : list (nat * W) := imap pair cs.
Definition FindSmallest (cs : list W) (dir : Direction) : outcome MergingIterator := c ← find_best (fun r => r <? 0) (indexed cs) None; Done (MkMerging cs c dir).
Definition FindLargest (cs : list W) (dir : Direction) : outcome MergingIterator := c ← find_best (fun r => 0 <? r) (reverse (indexed cs)) None; Done (MkMerging cs c dir).

Definition mg_Valid (m : MergingIterator) : bool := bool_decide (current_ m <> None).
Definition mg_SeekToFirst (m : MergingIterator) : outcome MergingIterator := cs ← on_each w_SeekToFirst (children_ m); FindSmallest cs kForward.
Definition mg_SeekToLast (m : MergingIterator) : outcome MergingIterator := cs ← on_each w_SeekToLast (children_ m); FindLargest cs kReverse.
Definition mg_Seek (target : list Z) (m : MergingIterator) : outcome MergingIterator := cs ← on_each (w_Seek target) (children_ m); FindSmallest cs kForward.

(** [assert(Valid())] and [current_->]. *)
Definition current (m : MergingIterator) : outcome (nat * W) := i ← demand (current_ m); w ← demand (children_ m !! i); Done (i, w).
Definition mg_key (m : MergingIterator) : outcome (list Z) := c ← current m; w_key c.2.
Definition mg_value (m : MergingIterator) : outcome (list Z) := c ← current m; w_value c.2.

(** The loops over the children that are not [current_]. *)
Fixpoint on_others (f : W -> outcome W) (cur : nat) (i : nat) (cs : list W) : outcome (list W) :=
  match cs with
  | [] => Done []
  | c :: cs => c ← (if bool_decide (i = cur) then Done c else f c); cs ← on_others f cur (S i) cs; Done (c :: cs)
  end.
Definition after_key (k : list Z) (child : W) : outcome W :=
  child ← w_Seek k child;
  if w_valid child then
    k' ← w_key child;
    r ← compare k k';
    if r =? 0 then w_Next child else Done child
  else Done child.
Definition before_key (k : list Z) (child : W) : outcome W :=
  child ← w_Seek k child;
  if w_valid child then w_Prev child else w_SeekToLast child.

Definition mg_Next (m : MergingIterator) : outcome MergingIterator :=
  c ← current m;
  cs ← (if decide (direction_ m = kForward) then Done (children_ m) else k ← w_key c.2; on_others (after_key k) c.1 0 (children_ m));
  w ← demand (cs !! c.1);
  w ← w_Next w;
  FindSmallest (<[c.1 := w]> cs) kForward.
Definition mg_Prev (m : MergingIterator) : outcome MergingIterator :=
  c ← current m;
  cs ← (if decide (direction_ m = kReverse) then Done (children_ m) else k ← w_key c.2; on_others (before_key k) c.1 0 (children_ m));
  w ← demand (cs !! c.1);
  w ← w_Prev w;
  FindLargest (<[c.1 := w]> cs) kReverse.

(** The status of the first child that is not well. *)
Fixpoint first_status (cs : list W) : Status :=
  match cs with
  | [] => OK
  | c :: cs =>
    match w_iter c with
    | Some it => if ok (vstatus it) then first_status cs else vstatus it
    | None => first_status cs
    end
  end.
Definition mg_status (m : MergingIterator) : Status := first_status (children_ m).

#[export] Instance merging : Iterator MergingIterator := MkIterator MergingIterator mg_Valid mg_SeekToFirst mg_SeekToLast mg_Seek mg_Next mg_Prev mg_key mg_value mg_status.
End Merge.
Arguments MergingIterator I : clear implicits.

(** ** Prefixes *)

(** The number of entries at the front that [lo] holds of. *)
Fixpoint prefix_len (lo : entry -> bool) (es : list entry) : nat := match es with [] => 0%nat | e :: es => if lo e then S (prefix_len lo es) else 0%nat end.

Lemma prefix_lower cmp t es : lower_bound cmp t es = prefix_len (fun e => cmp e.1 t <? 0) es.
Proof. induction es as [|e es IH]; [done|]. cbn. by rewrite IH. Qed.

Lemma prefix_le lo es : (prefix_len lo es <= length es)%nat.
Proof. induction es as [|e es IH]; [done|]. cbn. case_match; lia. Qed.

Lemma prefix_before lo es : forall i e, (i < prefix_len lo es)%nat -> es !! i = Some e -> lo e = true.
Proof. induction es as [|d es IH]; intros i e Hi Ee; [done|]. cbn in Hi. destruct (lo d) eqn:Ed; [|lia]. destruct i as [|i]; cbn in Ee; [by injection Ee as <-|]. apply (IH i); [lia|done]. Qed.

Lemma prefix_at lo es : forall e, es !! prefix_len lo es = Some e -> lo e = false.
Proof. induction es as [|d es IH]; intros e Ee; [done|]. cbn in Ee. destruct (lo d) eqn:Ed; cbn in Ee; [by apply IH|by injection Ee as <-]. Qed.

Lemma prefix_ext lo lo' es : (forall e, e ∈ es -> lo e = lo' e) -> prefix_len lo es = prefix_len lo' es.
Proof. induction es as [|e es IH]; intros H; [done|]. cbn. rewrite (H e (list_elem_of_here _ _)), IH; [done|]. intros e' He'. apply H. by apply list_elem_of_further. Qed.

Lemma prefix_false es : prefix_len (fun _ => false) es = 0%nat.
Proof. by destruct es. Qed.
Lemma prefix_true es : prefix_len (fun _ => true) es = length es.
Proof. induction es as [|e es IH]; [done|]. cbn. by rewrite IH. Qed.

Lemma pred_length es : pred_index es (length es) = (length es - 1)%nat.
Proof. destruct es as [|e es]; [done|]. cbn. lia. Qed.

Lemma concat_unique {A} (ls : list (list A)) i j l l' x : NoDup (concat ls) -> ls !! i = Some l -> ls !! j = Some l' -> x ∈ l -> x ∈ l' -> i = j.
Proof.
  revert i j. induction ls as [|a ls IH]; intros i j Hnd Ei Ej Hx Hx'; [done|]. cbn [concat] in Hnd. apply NoDup_app in Hnd as (_ & Hd & Hnd).
  assert (Hin : forall k b, ls !! k = Some b -> x ∈ b -> x ∈ concat ls). { intros k b Ek Hb. apply list_elem_of_lookup in Hb as [n Hn]. apply list_elem_of_lookup_2 with (length (concat (take k ls)) + n)%nat. rewrite (concat_lookup ls k b n Ek); [done|by apply lookup_lt_Some in Hn]. }
  destruct i as [|i], j as [|j]; cbn in Ei, Ej; [done|injection Ei as ->; exfalso; by apply (Hd x Hx), (Hin j l')|injection Ej as ->; exfalso; by apply (Hd x Hx'), (Hin i l)|]. f_equal. by apply (IH i j).
Qed.

(** ** The merging iterator is a cursor *)

Section Spec.
Context {I : Type} `{!Iterator I} {compare : list Z -> list Z -> outcome Z} {valid : list Z -> Prop} {cmp : list Z -> list Z -> Z} `{!Ordered compare valid cmp}.
Context (ess : list (list entry)) (M : list entry) (dat : nat -> I -> nat -> Prop).
Abbreviation lt := (fun a b : entry => cmp a.1 b.1 < 0).

(** [M] has the entries of all the children, in order. *)
Record merge_of : Prop := {
  mo_perm : M ≡ₚ concat ess;
  mo_sorted : StronglySorted lt M;
  mo_each j es : ess !! j = Some es -> StronglySorted lt es;
  mo_valid : Forall (fun e => valid e.1) M;
}.
Context (MO : merge_of) (Hdat : forall j es, ess !! j = Some es -> Cursor valid cmp es (dat j)).

Definition closed (lo : entry -> bool) : Prop := forall e e', valid e.1 -> valid e'.1 -> cmp e.1 e'.1 < 0 -> lo e' = true -> lo e = true.

Lemma prefix_iff lo es i e : closed lo -> StronglySorted lt es -> Forall (fun e => valid e.1) es -> es !! i = Some e -> lo e = true <-> (i < prefix_len lo es)%nat.
Proof.
  intros Hc Hs Hv Ei. split; [|intros Hi; by apply (prefix_before lo es i)]. intros Hlo. destruct (decide (i < prefix_len lo es)%nat) as [|Hge]; [done|]. exfalso. pose proof (lookup_lt_Some _ _ _ Ei).
  destruct (lookup_lt_is_Some_2 es (prefix_len lo es)) as [d Ed]; [lia|]. pose proof (prefix_at lo es d Ed) as Hf. rewrite Forall_lookup in Hv. destruct (decide (i = prefix_len lo es)) as [E|Hne]; [subst i; congruence|].
  assert (lo d = true); [|congruence]. apply (Hc d e); [by apply (Hv _ _ Ed)|by apply (Hv _ _ Ei)| |done]. apply (sorted_lookup _ _ Hs (prefix_len lo es) i); [lia|done|done].
Qed.

Lemma elem_merged e : e ∈ M <-> exists j es, ess !! j = Some es /\ e ∈ es.
Proof.
  rewrite (mo_perm MO). rewrite list_elem_of_In, in_concat. split.
  - intros (es & H1 & H2). apply list_elem_of_In, list_elem_of_lookup in H1 as [j Hj]. exists j, es. split; [done|]. by apply list_elem_of_In.
  - intros (j & es & H1 & H2). exists es. split; [apply list_elem_of_In; by apply list_elem_of_lookup_2 with j|by apply list_elem_of_In].
Qed.

Lemma child_valid j es : ess !! j = Some es -> Forall (fun e => valid e.1) es.
Proof. intros Ej. apply Forall_forall. intros e He. apply (proj1 (Forall_forall _ _) (mo_valid MO)). apply elem_merged. by exists j, es. Qed.

Lemma merged_valid e : e ∈ M -> valid e.1.
Proof. apply (proj1 (Forall_forall _ _) (mo_valid MO)). Qed.

(** Positions in [M] are in the order of the keys. *)
Lemma merged_order p q d e : M !! p = Some d -> M !! q = Some e -> (cmp e.1 d.1 < 0 <-> (q < p)%nat) /\ (cmp e.1 d.1 <= 0 <-> (q <= p)%nat).
Proof.
  intros Ep Eq. assert (Hd : valid d.1) by by apply merged_valid, list_elem_of_lookup_2 with p. assert (He : valid e.1) by by apply merged_valid, list_elem_of_lookup_2 with q. pose proof (cmp_anti d.1 e.1 Hd He). pose proof (cmp_anti e.1 d.1 He Hd). pose proof (cmp_refl d.1 Hd).
  destruct (Nat.lt_trichotomy q p) as [Hl|[->|Hl]].
  - pose proof (sorted_lookup _ _ (mo_sorted MO) q p _ _ Hl Eq Ep). cbn in *. lia.
  - assert (e = d) as -> by congruence. lia.
  - pose proof (sorted_lookup _ _ (mo_sorted MO) p q _ _ Hl Ep Eq). cbn in *. lia.
Qed.

Lemma merged_nodup : NoDup (concat ess).
Proof.
  rewrite <- (mo_perm MO). apply NoDup_alt. intros i j x Ei Ej. destruct (merged_order i j x x Ei Ej) as [_ H1]. destruct (merged_order j i x x Ej Ei) as [_ H2]. assert (Hx : valid x.1) by by apply merged_valid, list_elem_of_lookup_2 with i. pose proof (cmp_refl x.1 Hx). lia.
Qed.

(** The bounds of an entry. *)
Abbreviation below := (fun (d e : entry) => cmp e.1 d.1 <? 0).
Abbreviation upto := (fun (d e : entry) => cmp e.1 d.1 <=? 0).

Lemma closed_below t : valid t -> closed (fun e => cmp e.1 t <? 0).
Proof. intros Ht e e' He He' Hlt H. apply Z.ltb_lt in H. apply Z.ltb_lt. by apply (cmp_lt_trans e.1 e'.1 t). Qed.
Lemma closed_upto t : valid t -> closed (fun e => cmp e.1 t <=? 0).
Proof. intros Ht e e' He He' Hlt H. apply Z.leb_le in H. apply Z.leb_le. apply (cmp_trans e.1 e'.1 t); [done|done|done|lia|done]. Qed.

Lemma prefix_child lo lo' j es : ess !! j = Some es -> (forall q e, M !! q = Some e -> lo e = lo' e) -> prefix_len lo es = prefix_len lo' es.
Proof. intros Ej H. apply prefix_ext. intros e He. assert (HM : e ∈ M) by (apply elem_merged; by exists j, es). apply list_elem_of_lookup in HM as [q Hq]. by apply (H q). Qed.

(** A prefix of [M] that ends before an entry is what is below it. *)
Lemma prefix_at_entry lo p d : closed lo -> prefix_len lo M = p -> M !! p = Some d -> forall j es, ess !! j = Some es -> prefix_len lo es = prefix_len (below d) es.
Proof.
  intros Hc Hp Ed j es Ej. apply (prefix_child _ _ j es Ej). intros q e Eq. pose proof (prefix_iff lo M q e Hc (mo_sorted MO) (mo_valid MO) Eq) as H. rewrite Hp in H. destruct (merged_order p q d e Ed Eq) as [H' _]. destruct (lo e), (Z.ltb_spec (cmp e.1 d.1) 0); try done; exfalso.
  - assert (q < p)%nat as H1 by by apply H. assert (cmp e.1 d.1 < 0) by by apply H'. lia.
  - assert (q < p)%nat by by apply H'. assert (false = true) by by apply H. done.
Qed.
Lemma prefix_past_entry lo p d : closed lo -> prefix_len lo M = S p -> M !! p = Some d -> forall j es, ess !! j = Some es -> prefix_len lo es = prefix_len (upto d) es.
Proof.
  intros Hc Hp Ed j es Ej. apply (prefix_child _ _ j es Ej). intros q e Eq. pose proof (prefix_iff lo M q e Hc (mo_sorted MO) (mo_valid MO) Eq) as H. rewrite Hp in H. destruct (merged_order p q d e Ed Eq) as [_ H']. destruct (lo e), (Z.leb_spec (cmp e.1 d.1) 0); try done; exfalso.
  - assert (q < S p)%nat as H1 by by apply H. assert (cmp e.1 d.1 <= 0) by (apply H'; lia). lia.
  - assert (q <= p)%nat by by apply H'. assert (false = true) by (apply H; lia). done.
Qed.

(** In [M] itself. *)
Lemma prefix_merged p d : M !! p = Some d -> prefix_len (below d) M = p /\ prefix_len (upto d) M = S p.
Proof.
  intros Ed. assert (Hd : valid d.1) by by apply merged_valid, list_elem_of_lookup_2 with p. pose proof (lookup_lt_Some _ _ _ Ed).
  pose proof (fun q e => prefix_iff (below d) M q e (closed_below d.1 Hd) (mo_sorted MO) (mo_valid MO)) as H1. pose proof (fun q e => prefix_iff (upto d) M q e (closed_upto d.1 Hd) (mo_sorted MO) (mo_valid MO)) as H2. cbn beta in H1, H2.
  pose proof (prefix_le (below d) M). pose proof (prefix_le (upto d) M). split.
  - pose proof (H1 p d Ed) as Hp. rewrite (cmp_refl d.1 Hd) in Hp. cbn in Hp. destruct (decide (prefix_len (below d) M = p)) as [|Hne]; [done|exfalso]. destruct (lookup_lt_is_Some_2 M (prefix_len (below d) M)) as [e Ee]; [lia|]. destruct (merged_order p _ d e Ed Ee) as [H' _]. pose proof (H1 _ e Ee) as Hx.
    assert (prefix_len (below d) M < p)%nat as Hlt by lia. apply H' in Hlt. apply Z.ltb_lt in Hlt. apply Hx in Hlt. lia.
  - assert (Hp : (p < prefix_len (upto d) M)%nat) by (apply (H2 p d Ed); rewrite (cmp_refl d.1 Hd); done). destruct (decide (prefix_len (upto d) M = S p)) as [|Hne]; [done|exfalso]. destruct (lookup_lt_is_Some_2 M (S p)) as [e Ee]; [lia|]. destruct (merged_order p _ d e Ed Ee) as [_ H'].
    assert (Hlo : (cmp e.1 d.1 <=? 0) = true) by (apply (H2 (S p) e Ee); lia). apply Z.leb_le, H' in Hlo. lia.
Qed.

(** In the child that has the entry, and in the others. *)
Lemma prefix_own j es i d : ess !! j = Some es -> es !! i = Some d -> prefix_len (below d) es = i /\ prefix_len (upto d) es = S i.
Proof.
  intros Ej Ed. pose proof (child_valid j es Ej) as Hv. pose proof (mo_each MO j es Ej) as Hs. rewrite Forall_lookup in Hv. pose proof (Hv _ _ Ed) as Hd. pose proof (cmp_refl d.1 Hd). pose proof (lookup_lt_Some _ _ _ Ed).
  assert (Hord : forall q e, es !! q = Some e -> (cmp e.1 d.1 < 0 <-> (q < i)%nat) /\ (cmp e.1 d.1 <= 0 <-> (q <= i)%nat)).
  { intros q e Eq. pose proof (Hv _ _ Eq) as He. pose proof (cmp_anti d.1 e.1 Hd He). pose proof (cmp_anti e.1 d.1 He Hd). destruct (Nat.lt_trichotomy q i) as [Hl|[->|Hl]].
    - pose proof (sorted_lookup _ _ Hs q i _ _ Hl Eq Ed). cbn in *. lia.
    - assert (e = d) as -> by congruence. lia.
    - pose proof (sorted_lookup _ _ Hs i q _ _ Hl Ed Eq). cbn in *. lia. }
  pose proof (prefix_le (below d) es). pose proof (prefix_le (upto d) es). split.
  - apply Nat.le_antisymm.
    + destruct (decide (prefix_len (below d) es <= i)%nat) as [|Hgt]; [done|exfalso]. pose proof (prefix_before (below d) es i d ltac:(lia) Ed) as Hb. cbn in Hb. lia.
    + destruct (decide (i <= prefix_len (below d) es)%nat) as [|Hgt]; [done|exfalso]. destruct (lookup_lt_is_Some_2 es (prefix_len (below d) es)) as [e Ee]; [lia|]. pose proof (prefix_at _ _ e Ee) as Ha. cbn in Ha. destruct (Hord _ e Ee) as [H' _]. assert (cmp e.1 d.1 < 0) by (apply H'; lia). lia.
  - apply Nat.le_antisymm.
    + destruct (decide (prefix_len (upto d) es <= S i)%nat) as [|Hgt]; [done|exfalso]. destruct (lookup_lt_is_Some_2 es (S i)) as [e Ee]; [lia|]. pose proof (prefix_before (upto d) es (S i) e ltac:(lia) Ee) as Hb. cbn in Hb. destruct (Hord _ e Ee) as [_ H']. assert (S i <= i)%nat by (apply H'; lia). lia.
    + destruct (decide (S i <= prefix_len (upto d) es)%nat) as [|Hgt]; [done|exfalso]. destruct (lookup_lt_is_Some_2 es (prefix_len (upto d) es)) as [e Ee]; [lia|]. pose proof (prefix_at _ _ e Ee) as Ha. cbn in Ha. destruct (Hord _ e Ee) as [_ H']. assert (cmp e.1 d.1 <= 0) by (apply H'; lia). lia.
Qed.

Lemma prefix_other c esc i j es d : ess !! c = Some esc -> esc !! i = Some d -> ess !! j = Some es -> j <> c -> prefix_len (upto d) es = prefix_len (below d) es /\ (forall e, e ∈ es -> cmp e.1 d.1 <> 0).
Proof.
  intros Ec Ei Ej Hne. assert (Hno : forall e, e ∈ es -> cmp e.1 d.1 <> 0).
  { intros e He Heq. assert (HdM : d ∈ M) by (apply elem_merged; exists c, esc; split; [done|by apply list_elem_of_lookup_2 with i]). assert (HeM : e ∈ M) by (apply elem_merged; by exists j, es). apply list_elem_of_lookup in HdM as [p Ep], HeM as [q Eq]. destruct (merged_order p q d e Ep Eq) as [H1 H2].
    assert (q = p) as -> by lia. assert (e = d) as -> by congruence. apply Hne. apply (concat_unique ess j c es esc d merged_nodup Ej Ec He). by apply list_elem_of_lookup_2 with i. }
  split; [|done]. apply prefix_ext. intros e He. specialize (Hno e He). lia.
Qed.

(** *** The children *)

Abbreviation W := (IteratorWrapper I).
Definition held (cs : list W) (K : nat -> nat) : Prop := length cs = length ess /\ forall j w es, cs !! j = Some w -> ess !! j = Some es -> exists it, wraps w it /\ dat j it (K j).

Lemma on_each_spec (P : nat -> W -> Prop) f cs : (forall j w, cs !! j = Some w -> exists w', f w = Done w' /\ P j w') -> exists cs', on_each f cs = Done cs' /\ length cs' = length cs /\ forall j w, cs' !! j = Some w -> P j w.
Proof.
  revert P. induction cs as [|c cs IH]; intros P H; cbn [on_each]; [by exists []|]. destruct (H 0%nat c eq_refl) as (c' & -> & Hc). destruct (IH (fun j => P (S j))) as (cs' & -> & Hl & Hcs); [intros j w Hj; by apply (H (S j))|]. cbn [mbind outcome_bind].
  exists (c' :: cs'). split_and!; [done|cbn; by rewrite Hl|]. intros [|j] w Hj; cbn in Hj; [by injection Hj as <-|by apply Hcs].
Qed.

Lemma on_others_spec (P : nat -> W -> Prop) f cur cs : forall i, (forall j w, cs !! j = Some w -> if bool_decide (i + j = cur)%nat then P j w else exists w', f w = Done w' /\ P j w') ->
  exists cs', on_others f cur i cs = Done cs' /\ length cs' = length cs /\ forall j w, cs' !! j = Some w -> P j w.
Proof.
  revert P. induction cs as [|c cs IH]; intros P i H; cbn [on_others]; [by exists []|]. pose proof (H 0%nat c eq_refl) as Hc. rewrite Nat.add_0_r in Hc. assert (Hc' : exists c', (if bool_decide (i = cur) then Done c else f c) = Done c' /\ P 0%nat c') by (case_bool_decide; [by exists c|done]). destruct Hc' as (c' & -> & Hc').
  destruct (IH (fun j => P (S j)) (S i)) as (cs' & E & Hl & Hcs); [intros j w Hj; specialize (H (S j) w Hj); by replace (S i + j)%nat with (i + S j)%nat by lia|]. cbn [mbind outcome_bind]. rewrite E. cbn [mbind outcome_bind].
  exists (c' :: cs'). split_and!; [done|cbn; by rewrite Hl|]. intros [|j] w Hj; cbn in Hj; [by injection Hj as <-|by apply Hcs].
Qed.

Lemma on_each_held f cs K K' : held cs K -> (forall j es w it, ess !! j = Some es -> wraps w it -> dat j it (K j) -> exists w' it', f w = Done w' /\ wraps w' it' /\ dat j it' (K' j)) -> exists cs', on_each f cs = Done cs' /\ held cs' K'.
Proof.
  intros [Hl Hc] Hf. destruct (on_each_spec (fun j w => forall es, ess !! j = Some es -> exists it, wraps w it /\ dat j it (K' j)) f cs) as (cs' & E & Hl' & Hcs).
  - intros j w Hj. destruct (lookup_lt_is_Some_2 ess j) as [es Ej]; [rewrite <- Hl; by apply lookup_lt_Some in Hj|]. destruct (Hc j w es Hj Ej) as (it & Hw & Hd). destruct (Hf j es w it Ej Hw Hd) as (w' & it' & E & Hw' & Hd'). exists w'. split; [done|]. intros _ _. by exists it'.
  - exists cs'. split; [done|]. split; [congruence|]. intros j w es Hj Ej. by apply (Hcs j w Hj es).
Qed.

Lemma on_others_held f cur cs K K' : held cs K -> K' cur = K cur -> (forall j es w it, j <> cur -> ess !! j = Some es -> wraps w it -> dat j it (K j) -> exists w' it', f w = Done w' /\ wraps w' it' /\ dat j it' (K' j)) -> exists cs', on_others f cur 0 cs = Done cs' /\ held cs' K'.
Proof.
  intros [Hl Hc] Hcur Hf. destruct (on_others_spec (fun j w => forall es, ess !! j = Some es -> exists it, wraps w it /\ dat j it (K' j)) f cur cs 0) as (cs' & E & Hl' & Hcs).
  - intros j w Hj. destruct (lookup_lt_is_Some_2 ess j) as [es Ej]; [rewrite <- Hl; by apply lookup_lt_Some in Hj|]. destruct (Hc j w es Hj Ej) as (it & Hw & Hd). cbn [Nat.add]. case_bool_decide as Ec; [subst j; rewrite Hcur; intros _ _; by exists it|]. destruct (Hf j es w it Ec Ej Hw Hd) as (w' & it' & E & Hw' & Hd'). exists w'. split; [done|]. intros _ _. by exists it'.
  - exists cs'. split; [done|]. split; [congruence|]. intros j w es Hj Ej. by apply (Hcs j w Hj es).
Qed.

Lemma held_insert cs K K' c es w it : held cs K -> ess !! c = Some es -> wraps w it -> dat c it (K' c) -> (forall j es', j <> c -> ess !! j = Some es' -> K' j = K j) -> held (<[c := w]> cs) K'.
Proof.
  intros [Hl Hc] Ec Hw Hd HK. split; [by rewrite length_insert|]. intros j w' es' Hj Ej. apply list_lookup_insert_Some in Hj as [(<- & <- & _)|[Hne Hj]]; [by exists it|]. rewrite (HK j es') by done. by apply (Hc j w' es').
Qed.

(** *** The best child *)

Section Best.
Context (better : Z -> bool) (le : entry -> entry -> Prop) (ent : nat -> option entry).
Context (Hbetter : forall a b, valid a.1 -> valid b.1 -> if better (cmp a.1 b.1) then le a b else le b a).
Context (Hle_refl : forall a, valid a.1 -> le a a) (Hle_trans : forall a b c, valid a.1 -> valid b.1 -> valid c.1 -> le a b -> le b c -> le a c).

Definition shows (x : nat * W) : Prop := match ent x.1 with Some e => w_valid x.2 = true /\ w_key x.2 = Done e.1 /\ valid e.1 | None => w_valid x.2 = false end.

(** Among the indices in [cs], [r] is the best that shows an entry. *)
Definition best_of (cs : list (nat * W)) (r : option nat) : Prop :=
  match r with
  | Some c => c ∈ cs.*1 /\ exists e, ent c = Some e /\ forall i e', i ∈ cs.*1 -> ent i = Some e' -> le e e'
  | None => forall i, i ∈ cs.*1 -> ent i = None
  end.

Lemma find_best_from cs : forall b done_, Forall shows cs -> shows b -> Forall shows done_ -> best_of done_ (Some b.1) -> exists r, find_best compare better cs (Some b) = Done r /\ best_of (done_ ++ cs) r.
Proof.
  induction cs as [|[i w] cs IH]; intros b done_ Hcs Hb Hd Hbest; cbn [find_best]; [exists (Some b.1); split; [done|by rewrite app_nil_r]|]. apply Forall_cons in Hcs as [Hi Hcs]. pose proof Hb as Hb'. pose proof Hi as Hi'. unfold shows in Hi', Hb'. cbn [fst snd] in Hi'.
  destruct Hbest as (Hin & e & He & Hmin). rewrite He in Hb'. destruct Hb' as (_ & Hkb & Hvb).
  assert (Hskip : forall P, (exists r, P = Done r /\ best_of ((done_ ++ [(i, w)]) ++ cs) r) -> exists r, P = Done r /\ best_of (done_ ++ (i, w) :: cs) r) by (intros P (r & -> & H); exists r; by rewrite <- app_assoc in H).
  destruct (ent i) as [e'|] eqn:Ei.
  - destruct Hi' as (-> & Hki & Hvi). rewrite Hki, Hkb. cbn [mbind outcome_bind]. rewrite (cmp_total e'.1 e.1 Hvi Hvb). cbn [mbind outcome_bind]. pose proof (Hbetter e' e Hvi Hvb) as Hb2. apply Hskip.
    assert (Hd' : Forall shows (done_ ++ [(i, w)])) by (apply Forall_app; split; [done|by constructor]). destruct (better (cmp e'.1 e.1)).
    + apply (IH (i, w) (done_ ++ [(i, w)])); [done|done|done|]. split; [rewrite fmap_app; apply elem_of_app; right; apply list_elem_of_here|]. exists e'. split; [done|]. intros k ek Hk Hek. rewrite fmap_app in Hk. apply elem_of_app in Hk as [Hk|Hk].
      * assert (Hvk : valid ek.1). { apply list_elem_of_fmap in Hk as ([k' wk] & -> & Hk). rewrite Forall_forall in Hd. specialize (Hd _ Hk). unfold shows in Hd. cbn [fst] in *. rewrite Hek in Hd. tauto. }
        apply (Hle_trans e' e ek); [done|done|done|done|by apply (Hmin k)].
      * apply list_elem_of_singleton in Hk. cbn in Hk. subst k. assert (ek = e') as -> by congruence. by apply Hle_refl.
    + apply (IH b (done_ ++ [(i, w)])); [done|done|done|]. split; [rewrite fmap_app; apply elem_of_app; by left|]. exists e. split; [done|]. intros k ek Hk Hek. rewrite fmap_app in Hk. apply elem_of_app in Hk as [Hk|Hk]; [by apply (Hmin k)|]. apply list_elem_of_singleton in Hk. cbn in Hk. subst k. by assert (ek = e') as -> by congruence.
  - rewrite Hi'. apply Hskip. apply (IH b (done_ ++ [(i, w)])); [done|done|apply Forall_app; split; [done|by constructor]|]. split; [rewrite fmap_app; apply elem_of_app; by left|]. exists e. split; [done|]. intros k ek Hk Hek. rewrite fmap_app in Hk. apply elem_of_app in Hk as [Hk|Hk]; [by apply (Hmin k)|]. apply list_elem_of_singleton in Hk. cbn in Hk. congruence.
Qed.

Lemma find_best_spec cs : Forall shows cs -> exists r, find_best compare better cs None = Done r /\ best_of cs r.
Proof.
  enough (H : forall done_, Forall shows cs -> (forall i, i ∈ done_.*1 -> ent i = None) -> Forall shows done_ -> exists r, find_best compare better cs None = Done r /\ best_of (done_ ++ cs) r) by (intros Hcs; apply (H []); [done|intros i Hi; by apply elem_of_nil in Hi|done]).
  induction cs as [|[i w] cs IH]; intros done_ Hcs Hno Hd; cbn [find_best]; [exists None; split; [done|]; by rewrite app_nil_r|]. apply Forall_cons in Hcs as [Hi Hcs]. pose proof Hi as Hi'. unfold shows in Hi'. cbn [fst snd] in Hi'. replace (done_ ++ (i, w) :: cs) with ((done_ ++ [(i, w)]) ++ cs) by by rewrite <- app_assoc.
  assert (Hd' : Forall shows (done_ ++ [(i, w)])) by (apply Forall_app; split; [done|by constructor]). destruct (ent i) as [e|] eqn:Ei.
  - destruct Hi' as (-> & _ & Hv). apply find_best_from; [done|done|done|]. split; [rewrite fmap_app; apply elem_of_app; right; apply list_elem_of_here|]. exists e. split; [done|]. intros k ek Hk Hek. rewrite fmap_app in Hk. apply elem_of_app in Hk as [Hk|Hk]; [by rewrite (Hno k Hk) in Hek|]. apply list_elem_of_singleton in Hk. cbn in Hk. subst k. assert (ek = e) as -> by congruence. by apply Hle_refl.
  - rewrite Hi'. apply IH; [done| |done]. intros k Hk. rewrite fmap_app in Hk. apply elem_of_app in Hk as [Hk|Hk]; [by apply Hno|]. apply list_elem_of_singleton in Hk. cbn in Hk. by subst k.
Qed.
End Best.

(** The entry that child [j] shows. *)
Definition shown (K : nat -> nat) (j : nat) : option entry := es ← ess !! j; es !! K j.

Lemma indexed_shows cs K : held cs K -> Forall (shows (shown K)) (indexed cs) /\ forall j, j ∈ (indexed cs).*1 <-> (j < length ess)%nat.
Proof.
  intros [Hl Hc]. split.
  - apply Forall_forall. intros [j w] Hj. unfold indexed in Hj. apply elem_of_lookup_imap in Hj as (j' & w' & [= -> ->] & Hj). destruct (lookup_lt_is_Some_2 ess j') as [es Ej]; [rewrite <- Hl; by apply lookup_lt_Some in Hj|]. destruct (Hc j' w' es Hj Ej) as (it & Hw & Hd). pose proof (Hdat j' es Ej) as Cu.
    unfold shows, shown. cbn [fst snd]. rewrite Ej. cbn [mbind option_bind]. destruct (es !! K j') as [e|] eqn:Ee.
    + destruct (wraps_entry w' it (K j') e Hw Hd Ee) as (-> & _ & ->). split_and!; [done|done|]. pose proof (child_valid j' es Ej) as Hv. rewrite Forall_lookup in Hv. by apply (Hv _ _ Ee).
    + rewrite (wraps_valid w' it (K j') Hw Hd). apply bool_decide_false. apply lookup_ge_None_1 in Ee. lia.
  - intros j. unfold indexed. rewrite list_elem_of_fmap. split.
    + intros ([j' w] & -> & Hj). apply elem_of_lookup_imap in Hj as (k & w' & [= -> ->] & Hj). cbn. rewrite <- Hl. by apply lookup_lt_Some in Hj.
    + intros Hj. destruct (lookup_lt_is_Some_2 cs j) as [w Ew]; [lia|]. exists (j, w). split; [done|]. apply elem_of_lookup_imap. by exists j, w.
Qed.

(** The current child shows the entry of [M] at [p]. *)
Definition stands (K : nat -> nat) (p : nat) (c : option nat) : Prop :=
  match M !! p with
  | Some d => exists j es, c = Some j /\ ess !! j = Some es /\ es !! K j = Some d
  | None => c = None
  end.

Lemma shown_merged K j e : shown K j = Some e -> exists es, ess !! j = Some es /\ es !! K j = Some e /\ e ∈ M.
Proof. unfold shown. intros H. apply bind_Some in H as (es & Ej & Ee). exists es. split_and!; [done|done|]. apply elem_merged. exists j, es. split; [done|]. by apply list_elem_of_lookup_2 with (K j). Qed.

Lemma FindSmallest_spec cs K lo dir : held cs K -> closed lo -> (forall j es, ess !! j = Some es -> K j = prefix_len lo es) -> exists c, FindSmallest compare cs dir = Done (MkMerging cs c dir) /\ stands K (prefix_len lo M) c.
Proof.
  intros Hh Hc HK. unfold FindSmallest. destruct (indexed_shows cs K Hh) as [Hsh Hidx].
  destruct (find_best_spec (fun r => r <? 0) (fun a b => cmp a.1 b.1 <= 0) (shown K)) with (cs := indexed cs) as (r & -> & Hr); [| | |done|].
  - intros a b Ha Hb. pose proof (cmp_anti a.1 b.1 Ha Hb). pose proof (cmp_anti b.1 a.1 Hb Ha). cbn beta. destruct (Z.ltb_spec (cmp a.1 b.1) 0); lia.
  - intros a Ha. pose proof (cmp_refl a.1 Ha). lia.
  - intros a b c Ha Hb Hc'. by apply cmp_trans.
  - cbn [mbind outcome_bind]. exists r. split; [done|]. unfold stands. destruct r as [c|].
    + destruct Hr as (_ & e & He & Hmin). destruct (shown_merged K c e He) as (es & Ec & Ee & HeM). rewrite (HK c es Ec) in Ee. pose proof (prefix_at lo es e Ee) as Hlo. apply list_elem_of_lookup in HeM as [q Eq]. pose proof (prefix_iff lo M q e Hc (mo_sorted MO) (mo_valid MO) Eq) as Hq. rewrite Hlo in Hq.
      assert (Hge : (prefix_len lo M <= q)%nat) by (destruct (decide (q < prefix_len lo M)%nat) as [H|]; [by apply Hq in H|lia]). pose proof (lookup_lt_Some _ _ _ Eq). destruct (lookup_lt_is_Some_2 M (prefix_len lo M)) as [d Ed]; [lia|]. rewrite Ed.
      assert (HdM : d ∈ M) by by apply list_elem_of_lookup_2 with (prefix_len lo M). apply elem_merged in HdM as (j & esj & Ej & Hdj). apply list_elem_of_lookup in Hdj as [n En]. pose proof (prefix_iff lo esj n d Hc (mo_each MO j esj Ej) (child_valid j esj Ej) En) as Hn. rewrite (prefix_at lo M d Ed) in Hn.
      assert (Hn' : (prefix_len lo esj <= n)%nat) by (destruct (decide (n < prefix_len lo esj)%nat) as [H1|]; [by apply Hn in H1|lia]). pose proof (lookup_lt_Some _ _ _ En). destruct (lookup_lt_is_Some_2 esj (prefix_len lo esj)) as [ej Eej]; [lia|].
      assert (Hle1 : cmp e.1 ej.1 <= 0). { apply (Hmin j); [apply Hidx; by apply lookup_lt_Some in Ej|]. unfold shown. rewrite Ej. cbn [mbind option_bind]. by rewrite (HK j esj Ej). }
      pose proof (child_valid j esj Ej) as Hvj. rewrite Forall_lookup in Hvj. assert (Hle2 : cmp ej.1 d.1 <= 0). { destruct (decide (n = prefix_len lo esj)) as [->|Hne]; [assert (ej = d) as -> by congruence; pose proof (cmp_refl d.1 (Hvj _ _ En)); lia|]. assert (Hln : (prefix_len lo esj < n)%nat) by lia. pose proof (sorted_lookup _ _ (mo_each MO j esj Ej) _ n _ _ Hln Eej En). cbn in *. lia. }
      assert (Hve : valid e.1) by by apply merged_valid, list_elem_of_lookup_2 with q. assert (Hle3 : cmp e.1 d.1 <= 0) by (apply (cmp_trans e.1 ej.1 d.1); [done|by apply (Hvj _ _ Eej)|by apply (Hvj _ _ En)|done|done]). apply (merged_order _ _ _ _ Ed Eq) in Hle3. assert (q = prefix_len lo M) as -> by lia.
      exists c, es. split_and!; [done|done|]. rewrite (HK c es Ec). congruence.
    + destruct (M !! prefix_len lo M) as [d|] eqn:Ed; [exfalso|done]. assert (HdM : d ∈ M) by by apply list_elem_of_lookup_2 with (prefix_len lo M). apply elem_merged in HdM as (j & esj & Ej & Hdj). apply list_elem_of_lookup in Hdj as [n En]. pose proof (prefix_iff lo esj n d Hc (mo_each MO j esj Ej) (child_valid j esj Ej) En) as Hn. rewrite (prefix_at lo M d Ed) in Hn.
      pose proof (lookup_lt_Some _ _ _ En). assert (Hs : shown K j = None) by (apply Hr, Hidx; by apply lookup_lt_Some in Ej). unfold shown in Hs. rewrite Ej in Hs. cbn [mbind option_bind] in Hs. rewrite (HK j esj Ej) in Hs. apply lookup_ge_None_1 in Hs. assert (false = true) by (apply Hn; lia). done.
Qed.

Lemma FindLargest_spec cs K lo dir : held cs K -> closed lo -> (forall j es, ess !! j = Some es -> K j = pred_index es (prefix_len lo es)) -> exists c, FindLargest compare cs dir = Done (MkMerging cs c dir) /\ stands K (pred_index M (prefix_len lo M)) c.
Proof.
  intros Hh Hc HK. unfold FindLargest. destruct (indexed_shows cs K Hh) as [Hsh Hidx].
  assert (Hrev : forall j, j ∈ (reverse (indexed cs)).*1 <-> (j < length ess)%nat) by (intros j; rewrite fmap_reverse, elem_of_reverse; apply Hidx).
  destruct (find_best_spec (fun r => 0 <? r) (fun a b => cmp b.1 a.1 <= 0) (shown K)) with (cs := reverse (indexed cs)) as (r & -> & Hr); [| | |by apply Forall_reverse|].
  - intros a b Ha Hb. pose proof (cmp_anti a.1 b.1 Ha Hb). pose proof (cmp_anti b.1 a.1 Hb Ha). cbn beta. destruct (Z.ltb_spec 0 (cmp a.1 b.1)); lia.
  - intros a Ha. pose proof (cmp_refl a.1 Ha). lia.
  - intros a b c Ha Hb Hc' H1 H2. by apply (cmp_trans c.1 b.1 a.1).
  - cbn [mbind outcome_bind]. exists r. split; [done|]. unfold stands.
    (* what a child shows is the last entry of its prefix *)
    assert (Hlast : forall j es, ess !! j = Some es -> match prefix_len lo es with O => shown K j = None | S k => exists e, es !! k = Some e /\ shown K j = Some e /\ lo e = true end).
    { intros j es Ej. unfold shown. rewrite Ej. cbn [mbind option_bind]. rewrite (HK j es Ej). pose proof (prefix_le lo es) as Hle. pose proof (prefix_before lo es) as Hb. destruct (prefix_len lo es) as [|k]; cbn [pred_index]; [by apply lookup_ge_None_2|]. destruct (lookup_lt_is_Some_2 es k) as [e Ee]; [lia|]. exists e. split_and!; [done|done|]. apply (Hb k e); [lia|done]. }
    destruct r as [c|].
    + destruct Hr as (_ & e & He & Hmax). destruct (shown_merged K c e He) as (es & Ec & Ee & HeM). pose proof (Hlast c es Ec) as Hlc. destruct (prefix_len lo es) as [|kc] eqn:Ekc; [congruence|]. destruct Hlc as (e2 & _ & He2 & Hlo). assert (e2 = e) as -> by congruence. clear He2.
      apply list_elem_of_lookup in HeM as [q Eq]. pose proof (proj1 (prefix_iff lo M q e Hc (mo_sorted MO) (mo_valid MO) Eq) Hlo) as Hq. pose proof (prefix_le lo M). pose proof (prefix_before lo M) as HbM. destruct (prefix_len lo M) as [|p] eqn:Ep; [lia|]. cbn [pred_index]. destruct (lookup_lt_is_Some_2 M p) as [d Ed]; [lia|]. rewrite Ed. pose proof (HbM p d ltac:(lia) Ed) as Hlod.
      assert (HdM : d ∈ M) by by apply list_elem_of_lookup_2 with p. apply elem_merged in HdM as (j & esj & Ej & Hdj). apply list_elem_of_lookup in Hdj as [n En]. pose proof (proj1 (prefix_iff lo esj n d Hc (mo_each MO j esj Ej) (child_valid j esj Ej) En) Hlod) as Hn. pose proof (Hlast j esj Ej) as Hlj. destruct (prefix_len lo esj) as [|kj] eqn:Ekj; [lia|]. destruct Hlj as (ej & Eej & Hsj & _).
      assert (Hle1 : cmp ej.1 e.1 <= 0) by (apply (Hmax j); [apply Hrev; by apply lookup_lt_Some in Ej|done]). pose proof (child_valid j esj Ej) as Hvj. rewrite Forall_lookup in Hvj.
      assert (Hle2 : cmp d.1 ej.1 <= 0). { destruct (decide (n = kj)) as [->|Hne]; [assert (ej = d) as -> by congruence; pose proof (cmp_refl d.1 (Hvj _ _ En)); lia|]. assert (Hln : (n < kj)%nat) by lia. pose proof (sorted_lookup _ _ (mo_each MO j esj Ej) n kj _ _ Hln En Eej). cbn in *. lia. }
      assert (Hve : valid e.1) by by apply merged_valid, list_elem_of_lookup_2 with q. assert (Hle3 : cmp d.1 e.1 <= 0) by (apply (cmp_trans d.1 ej.1 e.1); [by apply (Hvj _ _ En)|by apply (Hvj _ _ Eej)|done|done|done]). apply (merged_order _ _ _ _ Eq Ed) in Hle3. assert (q = p) as -> by lia.
      exists c, es. split_and!; [done|done|congruence].
    + assert (E0 : prefix_len lo M = 0%nat).
      { destruct (prefix_len lo M) as [|p] eqn:Ep; [done|exfalso]. pose proof (prefix_le lo M). destruct (lookup_lt_is_Some_2 M 0) as [d Ed]; [lia|]. pose proof (prefix_before lo M 0 d ltac:(lia) Ed) as Hlod. assert (HdM : d ∈ M) by by apply list_elem_of_lookup_2 with 0%nat. apply elem_merged in HdM as (j & esj & Ej & Hdj). apply list_elem_of_lookup in Hdj as [n En].
        pose proof (proj1 (prefix_iff lo esj n d Hc (mo_each MO j esj Ej) (child_valid j esj Ej) En) Hlod) as Hn. pose proof (Hlast j esj Ej) as Hlj. destruct (prefix_len lo esj); [lia|]. destruct Hlj as (ej & _ & Hsj & _). rewrite (Hr j) in Hsj; [done|]. apply Hrev. by apply lookup_lt_Some in Ej. }
      rewrite E0. cbn [pred_index]. by rewrite lookup_ge_None_2.
Qed.

(** *** Positions *)

(** Where the children stand, by the direction, when the current entry is [d]. *)
Definition placed (dir : Direction) (d : entry) (es : list entry) : nat :=
  match dir with kForward => prefix_len (below d) es | kReverse => pred_index es (prefix_len (upto d) es) end.

Definition merged_at (m : MergingIterator I) (p : nat) : Prop :=
  (p <= length M)%nat /\ exists K, held (children_ m) K /\ stands K p (current_ m) /\ forall d, M !! p = Some d -> forall j es, ess !! j = Some es -> K j = placed (direction_ m) d es.

Lemma smallest_at cs K lo : held cs K -> closed lo -> (forall j es, ess !! j = Some es -> K j = prefix_len lo es) -> exists m, FindSmallest compare cs kForward = Done m /\ merged_at m (prefix_len lo M).
Proof.
  intros Hh Hc HK. destruct (FindSmallest_spec cs K lo kForward Hh Hc HK) as (c & -> & Hs). eexists. split; [done|]. split; [apply prefix_le|]. exists K. cbn [children_ current_ direction_ placed]. split_and!; [done|done|]. intros d Ed j es Ej. rewrite (HK j es Ej). by apply (prefix_at_entry lo (prefix_len lo M) d Hc eq_refl Ed j).
Qed.

Lemma largest_at cs K lo : held cs K -> closed lo -> (forall j es, ess !! j = Some es -> K j = pred_index es (prefix_len lo es)) -> exists m, FindLargest compare cs kReverse = Done m /\ merged_at m (pred_index M (prefix_len lo M)).
Proof.
  intros Hh Hc HK. destruct (FindLargest_spec cs K lo kReverse Hh Hc HK) as (c & -> & Hs). eexists. split; [done|]. pose proof (prefix_le lo M). split; [destruct (prefix_len lo M); cbn; lia|]. exists K. cbn [children_ current_ direction_ placed]. split_and!; [done|done|]. intros d Ed j es Ej. rewrite (HK j es Ej). f_equal.
  destruct (prefix_len lo M) as [|p] eqn:Ep; cbn [pred_index] in Ed; [apply lookup_lt_Some in Ed; lia|]. by apply (prefix_past_entry lo p d Hc Ep Ed j).
Qed.

(** A move of a child. *)
Lemma move_child (f : I -> outcome I) j es w it k k' : ess !! j = Some es -> wraps w it -> dat j it k -> (exists it', f it = Done it' /\ dat j it' k') -> exists w' it', w_move f w = Done w' /\ wraps w' it' /\ dat j it' k'.
Proof. intros Ej Hw Hd (it' & E & Hd'). pose proof (Hdat j es Ej) as Cu. destruct (move_spec f w it it' k' Hw E Hd') as (w' & Ew & Hw'). by exists w', it'. Qed.

Lemma closed_const b : closed (fun _ => b).
Proof. intros e e' _ _ _ H. done. Qed.

(** The child that is current. *)
Lemma current_spec m p d : merged_at m p -> M !! p = Some d -> exists c es K w it, current m = Done (c, w) /\ current_ m = Some c /\ children_ m !! c = Some w /\ ess !! c = Some es /\ es !! K c = Some d /\ wraps w it /\ dat c it (K c) /\ held (children_ m) K /\
  (forall j es, ess !! j = Some es -> K j = placed (direction_ m) d es).
Proof.
  intros (_ & K & Hh & Hs & Hp) Ed. unfold stands in Hs. rewrite Ed in Hs. destruct Hs as (c & es & Ec & Ees & Ek). pose proof Hh as [Hl Hc]. destruct (lookup_lt_is_Some_2 (children_ m) c) as [w Ew]; [rewrite Hl; by apply lookup_lt_Some in Ees|]. destruct (Hc c w es Ew Ees) as (it & Hw & Hd).
  exists c, es, K, w, it. unfold current. rewrite Ec. cbn [demand mbind outcome_bind]. rewrite Ew. cbn [demand mbind outcome_bind]. split_and!; try done. by apply Hp.
Qed.

(** [Seek] of a child leaves it at what is below the key. *)
Lemma seek_child j es w it k d : ess !! j = Some es -> wraps w it -> dat j it k -> valid d.1 -> exists w' it', w_Seek d.1 w = Done w' /\ wraps w' it' /\ dat j it' (prefix_len (below d) es).
Proof. intros Ej Hw Hd Hv. pose proof (Hdat j es Ej) as Cu. apply (move_child _ j es w it k _ Ej Hw Hd). rewrite <- (prefix_lower cmp d.1 es). by apply (cur_seek it k). Qed.

Lemma after_child c esc i d j es w it k : ess !! c = Some esc -> esc !! i = Some d -> j <> c -> ess !! j = Some es -> wraps w it -> dat j it k -> exists w' it', after_key compare d.1 w = Done w' /\ wraps w' it' /\ dat j it' (prefix_len (below d) es).
Proof.
  intros Ec Ed Hne Ej Hw Hd. pose proof (child_valid c esc Ec) as Hv. rewrite Forall_lookup in Hv. pose proof (Hv _ _ Ed) as Hvd. destruct (seek_child j es w it k d Ej Hw Hd Hvd) as (w' & it' & E & Hw' & Hd'). pose proof (Hdat j es Ej) as Cu. unfold after_key. rewrite E. cbn [mbind outcome_bind]. rewrite (wraps_valid w' it' _ Hw' Hd').
  case_bool_decide as Hlt; [|by exists w', it']. destruct (lookup_lt_is_Some_2 es _ Hlt) as [e Ee]. destruct (wraps_entry w' it' _ e Hw' Hd' Ee) as (-> & _). cbn [mbind outcome_bind]. pose proof (child_valid j es Ej) as Hvj. rewrite Forall_lookup in Hvj. rewrite (cmp_total d.1 e.1 Hvd (Hvj _ _ Ee)). cbn [mbind outcome_bind].
  destruct (prefix_other c esc i j es d Ec Ed Ej Hne) as [_ Hno]. destruct (Z.eqb_spec (cmp d.1 e.1) 0) as [E0|]; [|by exists w', it']. exfalso. apply (Hno e); [by apply list_elem_of_lookup_2 with (prefix_len (below d) es)|]. apply cmp_zero_sym; [done|by apply (Hvj _ _ Ee)|done].
Qed.

Lemma before_child d j es w it k : valid d.1 -> ess !! j = Some es -> wraps w it -> dat j it k -> exists w' it', before_key d.1 w = Done w' /\ wraps w' it' /\ dat j it' (pred_index es (prefix_len (below d) es)).
Proof.
  intros Hv Ej Hw Hd. destruct (seek_child j es w it k d Ej Hw Hd Hv) as (w' & it' & E & Hw' & Hd'). pose proof (Hdat j es Ej) as Cu. unfold before_key. rewrite E. cbn [mbind outcome_bind]. rewrite (wraps_valid w' it' _ Hw' Hd'). case_bool_decide as Hlt.
  - apply (move_child _ j es w' it' _ _ Ej Hw' Hd'). by apply (cur_prev it').
  - apply (move_child _ j es w' it' _ _ Ej Hw' Hd'). pose proof (prefix_le (below d) es). replace (prefix_len (below d) es) with (length es) by lia. rewrite pred_length. by apply (cur_last it' _ Hd').
Qed.

Lemma merged_next m p : merged_at m p -> (p < length M)%nat -> exists m', mg_Next compare m = Done m' /\ merged_at m' (S p).
Proof.
  intros Hm Hp. destruct (lookup_lt_is_Some_2 M p Hp) as [d Ed]. destruct (current_spec m p d Hm Ed) as (c & esc & K & w & it & Ecur & _ & Ew & Ec & Ek & Hw & Hd & Hh & HK). destruct (prefix_merged p d Ed) as [_ Eup]. destruct (prefix_own c esc _ d Ec Ek) as [Ebelow Eupto]. pose proof (Hdat c esc Ec) as Cu.
  assert (Hvd : valid d.1) by by apply merged_valid, list_elem_of_lookup_2 with p. unfold mg_Next. rewrite Ecur. cbn [mbind outcome_bind fst snd].
  assert (Hcs : exists cs K1, (if decide (direction_ m = kForward) then Done (children_ m) else k ← w_key w; on_others (after_key compare k) c 0 (children_ m)) = Done cs /\ held cs K1 /\ (forall j es, ess !! j = Some es -> K1 j = prefix_len (below d) es)).
  { case_decide as Ed'; [exists (children_ m), K; split; [done|]; split; [done|]; intros j es Ej; by rewrite (HK j es Ej), Ed'|]. destruct (wraps_entry w it _ d Hw Hd Ek) as (-> & _). cbn [mbind outcome_bind].
    destruct (on_others_held (after_key compare d.1) c (children_ m) K (fun j => prefix_len (below d) (default [] (ess !! j))) Hh) as (cs & -> & Hcs); [by rewrite Ec| |exists cs; eexists; split; [done|]; split; [exact Hcs|]; intros j es Ej; cbn beta; by rewrite Ej].
    intros j es w' it' Hne Ej Hw' Hd'. cbn beta. rewrite Ej. by apply (after_child c esc (K c) d j es w' it' (K j)). }
  destruct Hcs as (cs & K1 & -> & Hh1 & HK1). cbn [mbind outcome_bind]. pose proof Hh1 as [Hl1 Hc1]. destruct (lookup_lt_is_Some_2 cs c) as [w1 Ew1]; [rewrite Hl1; by apply lookup_lt_Some in Ec|]. rewrite Ew1. cbn [demand mbind outcome_bind]. destruct (Hc1 c w1 esc Ew1 Ec) as (it1 & Hw1 & Hd1). rewrite (HK1 c esc Ec), Ebelow in Hd1.
  destruct (move_child vNext c esc w1 it1 (K c) (S (K c)) Ec Hw1 Hd1) as (w2 & it2 & E2 & Hw2 & Hd2); [apply (cur_next it1 _ Hd1); by apply lookup_lt_Some in Ek|]. unfold w_Next. rewrite E2. cbn [mbind outcome_bind]. rewrite <- Eup.
  apply (smallest_at _ (fun j => prefix_len (upto d) (default [] (ess !! j)))); [|by apply closed_upto|intros j es Ej; by rewrite Ej]. apply (held_insert cs K1 _ c esc w2 it2 Hh1 Ec Hw2); [rewrite Ec; cbn [default from_option id]; by rewrite Eupto|].
  intros j es Hne Ej. rewrite (HK1 j es Ej), Ej. apply (prefix_other c esc (K c) j es d Ec Ek Ej Hne).
Qed.

Lemma merged_prev m p : merged_at m p -> (p < length M)%nat -> exists m', mg_Prev compare m = Done m' /\ merged_at m' (pred_index M p).
Proof.
  intros Hm Hp. destruct (lookup_lt_is_Some_2 M p Hp) as [d Ed]. destruct (current_spec m p d Hm Ed) as (c & esc & K & w & it & Ecur & _ & Ew & Ec & Ek & Hw & Hd & Hh & HK). destruct (prefix_merged p d Ed) as [Elow _]. destruct (prefix_own c esc _ d Ec Ek) as [Ebelow Eupto]. pose proof (Hdat c esc Ec) as Cu.
  assert (Hvd : valid d.1) by by apply merged_valid, list_elem_of_lookup_2 with p. unfold mg_Prev. rewrite Ecur. cbn [mbind outcome_bind fst snd].
  assert (Hcs : exists cs K1, (if decide (direction_ m = kReverse) then Done (children_ m) else k ← w_key w; on_others (before_key k) c 0 (children_ m)) = Done cs /\ held cs K1 /\ K1 c = K c /\ (forall j es, j <> c -> ess !! j = Some es -> K1 j = pred_index es (prefix_len (below d) es))).
  { case_decide as Ed'.
    - exists (children_ m), K. split_and!; [done|done|done|]. intros j es Hne Ej. rewrite (HK j es Ej), Ed'. cbn [placed]. by rewrite (proj1 (prefix_other c esc (K c) j es d Ec Ek Ej Hne)).
    - destruct (wraps_entry w it _ d Hw Hd Ek) as (-> & _). cbn [mbind outcome_bind].
      destruct (on_others_held (before_key d.1) c (children_ m) K (fun j => if decide (j = c) then K c else pred_index (default [] (ess !! j)) (prefix_len (below d) (default [] (ess !! j)))) Hh) as (cs & -> & Hcs); [by rewrite decide_True| |exists cs; eexists; split; [done|]; split; [exact Hcs|]; split; [cbn beta; by rewrite decide_True|intros j es Hne Ej; cbn beta; rewrite decide_False by done; by rewrite Ej]].
      intros j es w' it' Hne Ej Hw' Hd'. cbn beta. rewrite decide_False by done. rewrite Ej. by apply (before_child d j es w' it' (K j)). }
  destruct Hcs as (cs & K1 & -> & Hh1 & HK1c & HK1). cbn [mbind outcome_bind]. pose proof Hh1 as [Hl1 Hc1]. destruct (lookup_lt_is_Some_2 cs c) as [w1 Ew1]; [rewrite Hl1; by apply lookup_lt_Some in Ec|]. rewrite Ew1. cbn [demand mbind outcome_bind]. destruct (Hc1 c w1 esc Ew1 Ec) as (it1 & Hw1 & Hd1). rewrite HK1c in Hd1.
  destruct (move_child vPrev c esc w1 it1 (K c) (pred_index esc (K c)) Ec Hw1 Hd1) as (w2 & it2 & E2 & Hw2 & Hd2); [apply (cur_prev it1 _ Hd1); by apply lookup_lt_Some in Ek|]. unfold w_Prev. rewrite E2. cbn [mbind outcome_bind]. rewrite <- Elow.
  apply (largest_at _ (fun j => pred_index (default [] (ess !! j)) (prefix_len (below d) (default [] (ess !! j))))); [|by apply closed_below|intros j es Ej; by rewrite Ej]. apply (held_insert cs K1 _ c esc w2 it2 Hh1 Ec Hw2); [rewrite Ec; cbn [default from_option id]; by rewrite Ebelow|].
  intros j es Hne Ej. by rewrite (HK1 j es Hne Ej), Ej.
Qed.

(** The children at their places, wherever the iterator stands. *)
Lemma merged_held m p : merged_at m p -> exists K, held (children_ m) K.
Proof. intros (_ & K & Hh & _). by exists K. Qed.

Lemma status_spec cs K : held cs K -> first_status cs = OK.
Proof.
  intros [Hl Hc]. assert (H : forall j w, cs !! j = Some w -> exists it, w_iter w = Some it /\ vstatus it = OK).
  { intros j w Hj. destruct (lookup_lt_is_Some_2 ess j) as [es Ej]; [rewrite <- Hl; by apply lookup_lt_Some in Hj|]. destruct (Hc j w es Hj Ej) as (it & (Ew & _) & Hd). pose proof (Hdat j es Ej) as Cu. exists it. split; [done|]. by apply (cur_status it (K j)). }
  clear Hl Hc. induction cs as [|c cs IH]; [done|]. cbn [first_status]. destruct (H 0%nat c eq_refl) as (it & -> & ->). cbn [ok]. apply IH. intros j w Hj. by apply (H (S j)).
Qed.

Definition merged_cursor : Cursor (Iterator0 := merging compare) valid cmp M merged_at.
Proof.
  split.
  - intros m p (Hp & _). done.
  - intros m p (Hp & K & Hh & Hs & _). cbn [vValid merging]. unfold mg_Valid, stands in *. destruct (M !! p) as [d|] eqn:Ed.
    + destruct Hs as (c & es & -> & _). pose proof (lookup_lt_Some _ _ _ Ed). by rewrite !bool_decide_true.
    + rewrite Hs. apply lookup_ge_None_1 in Ed. rewrite !bool_decide_false; [done|lia|tauto].
  - intros m p d Hm Ed. cbn [vkey vvalue merging]. destruct (current_spec m p d Hm Ed) as (c & es & K & w & it & Ecur & _ & _ & Ec & Ek & Hw & Hd & _). pose proof (Hdat c es Ec) as Cu. unfold mg_key, mg_value. rewrite Ecur. cbn [mbind outcome_bind snd]. by destruct (wraps_entry w it _ d Hw Hd Ek) as (-> & -> & _).
  - intros m p Hm. destruct (merged_held m p Hm) as [K Hh]. cbn [vstatus merging]. unfold mg_status. by apply (status_spec _ K).
  - intros m p Hm. destruct (merged_held m p Hm) as [K Hh]. cbn [vSeekToFirst merging]. unfold mg_SeekToFirst. destruct (on_each_held w_SeekToFirst _ K (fun _ => 0%nat) Hh) as (cs & -> & Hcs).
    { intros j es w it Ej Hw Hd. pose proof (Hdat j es Ej) as Cu. apply (move_child _ j es w it _ _ Ej Hw Hd). by apply (cur_first it _ Hd). }
    cbn [mbind outcome_bind]. rewrite <- (prefix_false M). apply (smallest_at cs (fun _ => 0%nat)); [done|apply closed_const|]. intros j es Ej. by rewrite prefix_false.
  - intros m p Hm. destruct (merged_held m p Hm) as [K Hh]. cbn [vSeekToLast merging]. unfold mg_SeekToLast. destruct (on_each_held w_SeekToLast _ K (fun j => (length (default [] (ess !! j)) - 1)%nat) Hh) as (cs & -> & Hcs).
    { intros j es w it Ej Hw Hd. pose proof (Hdat j es Ej) as Cu. cbn beta. rewrite Ej. apply (move_child _ j es w it _ _ Ej Hw Hd). by apply (cur_last it _ Hd). }
    cbn [mbind outcome_bind]. rewrite <- pred_length, <- (prefix_true M). apply (largest_at cs _ (fun _ => true) Hcs); [apply closed_const|]. intros j es Ej. cbn beta. rewrite Ej. cbn [default from_option id]. by rewrite prefix_true, pred_length.
  - intros m p target Hm Ht. destruct (merged_held m p Hm) as [K Hh]. cbn [vSeek merging]. unfold mg_Seek. destruct (on_each_held (w_Seek target) _ K (fun j => lower_bound cmp target (default [] (ess !! j))) Hh) as (cs & -> & Hcs).
    { intros j es w it Ej Hw Hd. pose proof (Hdat j es Ej) as Cu. cbn beta. rewrite Ej. apply (move_child _ j es w it _ _ Ej Hw Hd). by apply (cur_seek it _ target Hd). }
    cbn [mbind outcome_bind]. rewrite prefix_lower. apply (smallest_at cs _ _ Hcs); [by apply closed_below|]. intros j es Ej. cbn beta. rewrite Ej. cbn [default from_option id]. apply prefix_lower.
  - intros m p Hm Hp. cbn [vNext merging]. by apply merged_next.
  - intros m p Hm Hp. cbn [vPrev merging]. by apply merged_prev.
Qed.

(** A new iterator over children that stand anywhere. *)
Lemma new_merging its : length its = length ess -> (forall j it es, its !! j = Some it -> ess !! j = Some es -> exists k, dat j it k) -> exists m, new_MergingIterator its = Done m /\ merged_at m (length M).
Proof.
  intros Hl Hits. assert (H : forall l (P : nat -> I -> Prop), (forall j it, l !! j = Some it -> P j it /\ exists es k, Cursor valid cmp es (dat k) /\ exists n, dat k it n) -> exists ws, set_children l = Done ws /\ length ws = length l /\ forall j w, ws !! j = Some w -> exists it, wraps w it /\ P j it).
  { induction l as [|it l IH]; intros P HP; cbn [set_children]; [by exists []|]. destruct (HP 0%nat it eq_refl) as (Hp & es & k & Cu & n & Hn). cbn [w_Set]. destruct (Update_spec it n (MkWrapper None false []) Hn) as (w & -> & Hw). destruct (IH (fun j => P (S j))) as (ws & -> & Hlw & Hws); [intros j it' Hj; by apply (HP (S j))|]. cbn [mbind outcome_bind].
    exists (w :: ws). split_and!; [done|cbn; by rewrite Hlw|]. intros [|j] w' Hj; cbn in Hj; [injection Hj as <-; by exists it|by apply Hws]. }
  destruct (H its (fun j it => its !! j = Some it)) as (ws & E & Hlw & Hws).
  { intros j it Hj. split; [done|]. destruct (lookup_lt_is_Some_2 ess j) as [es Ej]; [rewrite <- Hl; by apply lookup_lt_Some in Hj|]. exists es, j. split; [by apply Hdat|]. by apply (Hits j it es). }
  unfold new_MergingIterator. rewrite E. cbn [mbind outcome_bind]. eexists. split; [done|]. split; [done|]. cbn [children_ current_ direction_].
  assert (HK : exists K, forall j it es, its !! j = Some it -> ess !! j = Some es -> dat j it (K j)).
  { clear -Hits Hl. revert its Hl Hits. set (D := dat). clearbody D. revert D. induction ess as [|es0 ess' IH]; intros D its Hl Hits; [exists (fun _ => 0%nat); by intros j it es _ Ej|]. destruct its as [|it0 its]; [done|]. destruct (Hits 0%nat it0 es0 eq_refl eq_refl) as [k0 H0]. destruct (IH (fun j => D (S j)) its) as [K HK]; [by injection Hl|intros j it es Hj Ej; by apply (Hits (S j) it es)|].
    exists (fun j => match j with O => k0 | S j => K j end). intros [|j] it es Hj Ej; cbn in Hj, Ej; [by injection Hj as <-|by apply (HK j it es)]. }
  destruct HK as [K HK]. exists K. split_and!; [|unfold stands; by rewrite lookup_ge_None_2|intros d Ed; apply lookup_lt_Some in Ed; lia].
  split; [congruence|]. intros j w es Hj Ej. destruct (Hws j w Hj) as (it & Hw & Hit). exists it. split; [done|]. by apply (HK j it es).
Qed.
End Spec.

(** ** NewMergingIterator *)

Section New.
Context {I : Type} `{!Iterator I} (compare : list Z -> list Z -> outcome Z).

(** What [NewMergingIterator] returns: an empty iterator, the only child, or a
    merging iterator. *)
Inductive merged_iterator : Type := MergedNone | MergedOne (it : I) | MergedMany (m : MergingIterator I).

Definition NewMergingIterator (children : list I) : outcome merged_iterator :=
  match children with
  | [] => Done MergedNone
  | [it] => Done (MergedOne it)
  | _ => m ← new_MergingIterator children; Done (MergedMany m)
  end.

Definition on_merged (f : I -> outcome I) (g : MergingIterator I -> outcome (MergingIterator I)) (empty : outcome merged_iterator) (x : merged_iterator) : outcome merged_iterator :=
  match x with
  | MergedNone => empty
  | MergedOne it => it ← f it; Done (MergedOne it)
  | MergedMany m => m ← g m; Done (MergedMany m)
  end.
Definition read_merged {A} (f : I -> A) (g : MergingIterator I -> A) (empty : A) (x : merged_iterator) : A :=
  match x with MergedNone => empty | MergedOne it => f it | MergedMany m => g m end.

#[export] Instance merged_iter : Iterator merged_iterator := MkIterator merged_iterator
  (read_merged vValid mg_Valid false)
  (on_merged vSeekToFirst (mg_SeekToFirst compare) (Done MergedNone))
  (on_merged vSeekToLast (mg_SeekToLast compare) (Done MergedNone))
  (fun target => on_merged (vSeek target) (mg_Seek compare target) (Done MergedNone))
  (on_merged vNext (mg_Next compare) Undef)
  (on_merged vPrev (mg_Prev compare) Undef)
  (read_merged vkey mg_key Undef)
  (read_merged vvalue mg_value Undef)
  (read_merged vstatus mg_status OK).
End New.
Arguments merged_iterator I : clear implicits.

Section NewSpec.
Context {I : Type} `{!Iterator I} {compare : list Z -> list Z -> outcome Z} {valid : list Z -> Prop} {cmp : list Z -> list Z -> Z} `{!Ordered compare valid cmp}.
Context (ess : list (list entry)) (M : list entry) (dat : nat -> I -> nat -> Prop).
Context (MO : merge_of (valid := valid) (cmp := cmp) ess M) (Hdat : forall j es, ess !! j = Some es -> Cursor valid cmp es (dat j)).

Definition new_at (x : merged_iterator I) (p : nat) : Prop :=
  match x with
  | MergedNone => ess = [] /\ p = 0%nat
  | MergedOne it => exists es, ess = [es] /\ dat 0%nat it p
  | MergedMany m => merged_at (cmp := cmp) ess M dat m p
  end.

Lemma merge_single es : ess = [es] -> M = es.
Proof.
  intros E. destruct MO as [Hp Hs He Hv]. rewrite E in Hp, He. cbn in Hp. rewrite app_nil_r in Hp. specialize (He 0%nat es eq_refl). clear -Hp Hs He Hv Ordered0. revert es Hp He. induction Hs as [|d M Hs IH Hd]; intros es Hp He; [by apply Permutation_nil_l in Hp as <-|].
  destruct es as [|e es]; [symmetry in Hp; by apply Permutation_nil_l in Hp|]. apply Forall_cons in Hv as [Hvd Hv]. inversion He as [|? ? He' Hee]. subst. assert (d = e) as <-.
  { assert (Hd1 : d ∈ e :: es) by (rewrite <- Hp; apply list_elem_of_here). assert (He1 : e ∈ d :: M) by (rewrite Hp; apply list_elem_of_here). apply elem_of_cons in Hd1 as [->|Hd1]; [done|]. apply elem_of_cons in He1 as [->|He1]; [done|]. exfalso. rewrite Forall_forall in Hd, Hee, Hv. pose proof (Hd e He1). pose proof (Hee d Hd1). cbn in *. pose proof (cmp_anti d.1 e.1 Hvd (Hv e He1)). lia. }
  f_equal. apply IH; [done| |done]. by apply Permutation_cons_inv in Hp.
Qed.

#[local] Instance merged_new_cursor : Cursor (Iterator0 := merged_iter compare) valid cmp M new_at.
Proof.
  pose proof (merged_cursor ess M dat MO Hdat) as CM. assert (Hnone : ess = [] -> M = []) by (intros E; destruct MO as [Hp _ _ _]; rewrite E in Hp; symmetry in Hp; by apply Permutation_nil_l in Hp).
  assert (Hone : forall es, ess = [es] -> M = es /\ Cursor valid cmp es (dat 0%nat)) by (intros es E; split; [by apply merge_single|apply (Hdat 0%nat); by rewrite E]).
  split.
  - intros [|it|m] p H; cbn in H; [destruct H as [E ->]; lia|destruct H as (es & E & H); destruct (Hone es E) as [-> Cu]; by apply (cur_range it)|by apply (cur_range (Cursor := CM) m)].
  - intros [|it|m] p H; cbn in H |- *; [destruct H as [E ->]; by rewrite (Hnone E)|destruct H as (es & E & H); destruct (Hone es E) as [-> Cu]; by apply (cur_valid it)|by apply (cur_valid (Cursor := CM) m)].
  - intros [|it|m] p e H Ee; cbn in H |- *; [destruct H as [E ->]; by rewrite (Hnone E) in Ee|destruct H as (es & E & H); destruct (Hone es E) as [E' Cu]; rewrite E' in Ee; by apply (cur_entry it p)|by apply (cur_entry (Cursor := CM) m p)].
  - intros [|it|m] p H; cbn in H |- *; [done|destruct H as (es & E & H); destruct (Hone es E) as [_ Cu]; by apply (cur_status it p)|by apply (cur_status (Cursor := CM) m p)].
  - intros [|it|m] p H; cbn in H |- *; [destruct H as [E ->]; by eexists|destruct H as (es & E & H); destruct (Hone es E) as [_ Cu]; destruct (cur_first it p H) as (it' & -> & H'); eexists; split; [done|by exists es]|].
    destruct (cur_first (Cursor := CM) m p H) as (m' & E & H'). cbn [vSeekToFirst merging] in E. rewrite E. by eexists.
  - intros [|it|m] p H; cbn in H |- *; [destruct H as [E ->]; rewrite (Hnone E); by eexists|destruct H as (es & E & H); destruct (Hone es E) as [E' Cu]; rewrite E'; destruct (cur_last it p H) as (it' & -> & H'); eexists; split; [done|by exists es]|].
    destruct (cur_last (Cursor := CM) m p H) as (m' & E & H'). cbn [vSeekToLast merging] in E. rewrite E. by eexists.
  - intros [|it|m] p t H Ht; cbn in H |- *; [destruct H as [E ->]; rewrite (Hnone E); by eexists|destruct H as (es & E & H); destruct (Hone es E) as [E' Cu]; rewrite E'; destruct (cur_seek it p t H Ht) as (it' & -> & H'); eexists; split; [done|by exists es]|].
    destruct (cur_seek (Cursor := CM) m p t H Ht) as (m' & E & H'). cbn [vSeek merging] in E. rewrite E. by eexists.
  - intros [|it|m] p H Hp; cbn in H |- *; [destruct H as [E ->]; rewrite (Hnone E) in Hp; cbn in Hp; lia|destruct H as (es & E & H); destruct (Hone es E) as [E' Cu]; rewrite E' in Hp; destruct (cur_next it p H Hp) as (it' & -> & H'); eexists; split; [done|by exists es]|].
    destruct (cur_next (Cursor := CM) m p H Hp) as (m' & E & H'). cbn [vNext merging] in E. rewrite E. by eexists.
  - intros [|it|m] p H Hp; cbn in H |- *; [destruct H as [E ->]; rewrite (Hnone E) in Hp; cbn in Hp; lia|destruct H as (es & E & H); destruct (Hone es E) as [E' Cu]; rewrite E' in Hp |- *; destruct (cur_prev it p H Hp) as (it' & -> & H'); eexists; split; [done|by exists es]|].
    destruct (cur_prev (Cursor := CM) m p H Hp) as (m' & E & H'). cbn [vPrev merging] in E. rewrite E. by eexists.
Qed.

Lemma new_merged its : length its = length ess -> (forall j it es, its !! j = Some it -> ess !! j = Some es -> exists k, dat j it k) -> exists x p, NewMergingIterator its = Done x /\ new_at x p.
Proof.
  intros Hl Hits. unfold NewMergingIterator. destruct its as [|it [|it' its]].
  - symmetry in Hl. apply nil_length_inv in Hl. by exists MergedNone, 0%nat.
  - destruct ess as [|es [|]] eqn:E; [done| |done]. destruct (Hits 0%nat it es eq_refl eq_refl) as [k Hk]. exists (MergedOne it), k. split; [done|]. cbn. rewrite E. by exists es.
  - destruct (new_merging ess M dat Hdat (it :: it' :: its) Hl Hits) as (m & -> & Hm). exists (MergedMany m), (length M). done.
Qed.
End NewSpec.
