(* ===== verification/LdbDbIter.v ===== *)
(** * LdbDbIter: the iterator of a database (db/db_iter.cc).

    It shows, over an iterator of internal keys, one entry per user key: the
    newest update that its snapshot sees, unless that is a deletion.  Strings that
    are kept only to save memory ([capacity]) have no counterpart here; the calls of
    [RecordReadSample], by which the database learns what is read, are collected. *)

From Stdlib Require Import ZifyBool Sorting.Sorted.
From stdpp Require Import base tactics numbers list gmap strings sorting.
From S2P Require Import Prelude LdbCoding LdbLog LdbKey LdbKeySpec LdbSkip LdbSkipSpec LdbIter LdbTwoLevel LdbVersionSpec LdbVersionGet LdbMerge.
Open Scope Z_scope.

Definition kReadBytesPeriod : Z := 1048576.

Section DbIter.
Context {I : Type} `{!Iterator I}.
(** [user_comparator_] and [sequence_]; [fuel] bounds the entries passed at once. *)
Context (ucmp : Comparator) (sequence_ : Z) (fuel : nat).

(** [rnd_], [bytes_until_read_sampling_] and the keys given to the database. *)
Record Sampling : Type := MkSampling { s_rnd : Z; s_bytes : Z; s_recorded : list (list Z) }.
Record DBIter : Type := MkDBIter {
  db_iter : I;
  db_status_ : Status;
  db_saved_key : list Z;
  db_saved_value : list Z;
  db_direction : Direction;
  db_valid : bool;
  db_sampling : Sampling;
}.
Definition set_iter (it : I) (d : DBIter) : DBIter := MkDBIter it (db_status_ d) (db_saved_key d) (db_saved_value d) (db_direction d) (db_valid d) (db_sampling d).
Definition set_db_status (s : Status) (d : DBIter) : DBIter := MkDBIter (db_iter d) s (db_saved_key d) (db_saved_value d) (db_direction d) (db_valid d) (db_sampling d).
Definition set_saved_key (k : list Z) (d : DBIter) : DBIter := MkDBIter (db_iter d) (db_status_ d) k (db_saved_value d) (db_direction d) (db_valid d) (db_sampling d).
Definition set_saved_value (v : list Z) (d : DBIter) : DBIter := MkDBIter (db_iter d) (db_status_ d) (db_saved_key d) v (db_direction d) (db_valid d) (db_sampling d).
Definition set_direction (dir : Direction) (d : DBIter) : DBIter := MkDBIter (db_iter d) (db_status_ d) (db_saved_key d) (db_saved_value d) dir (db_valid d) (db_sampling d).
Definition set_valid (b : bool) (d : DBIter) : DBIter := MkDBIter (db_iter d) (db_status_ d) (db_saved_key d) (db_saved_value d) (db_direction d) b (db_sampling d).
Definition set_sampling (s : Sampling) (d : DBIter) : DBIter := MkDBIter (db_iter d) (db_status_ d) (db_saved_key d) (db_saved_value d) (db_direction d) (db_valid d) s.

(** The number and the new seed. *)
Definition RandomCompactionPeriod (rnd : Z) : outcome (Z * Z) := Random_Uniform (2 * kReadBytesPeriod) rnd.

Definition new_DBIter (it : I) (seed : Z) : outcome DBIter :=
  r ← RandomCompactionPeriod (new_Random seed);
  Done (MkDBIter it OK [] [] kForward false (MkSampling r.2 r.1 [])).

Definition db_key (d : DBIter) : outcome (list Z) :=
  if db_valid d then match db_direction d with kForward => k ← vkey (db_iter d); ExtractUserKey k | kReverse => Done (db_saved_key d) end else Undef.
Definition db_value (d : DBIter) : outcome (list Z) :=
  if db_valid d then match db_direction d with kForward => vvalue (db_iter d) | kReverse => Done (db_saved_value d) end else Undef.
Definition db_status (d : DBIter) : Status := if ok (db_status_ d) then vstatus (db_iter d) else db_status_ d.

(** ** ParseKey *)

Fixpoint sample_loop (fuel : nat) (k : list Z) (bytes_read : Z) (s : Sampling) : outcome Sampling :=
  match fuel with
  | O => NoFuel
  | S fuel =>
    if s_bytes s <? bytes_read then
      r ← RandomCompactionPeriod (s_rnd s);
      sample_loop fuel k bytes_read (MkSampling r.2 (u64 (s_bytes s + r.1)) (s_recorded s ++ [k]))
    else Done s
  end.
(** Of two numbers one is not zero. *)
Definition sample_fuel (bytes_read : Z) : nat := Z.to_nat (2 * bytes_read + 3).

Definition db_ParseKey (d : DBIter) : outcome (option ParsedInternalKey * DBIter) :=
  k ← vkey (db_iter d);
  v ← vvalue (db_iter d);
  let bytes_read := u64 (zlen k + zlen v) in
  s ← sample_loop (sample_fuel bytes_read) k bytes_read (db_sampling d);
  if s_bytes s <? bytes_read then Undef
  else
    let d := set_sampling (MkSampling (s_rnd s) (s_bytes s - bytes_read) (s_recorded s)) d in
    p ← ParseInternalKey k;
    match p with
    | None => Done (None, set_db_status (Corruption "corrupted internal key in DBIter") d)
    | Some p => Done (Some p, d)
    end.

(** ** Moving forward *)

(** The loop of [FindNextUserEntry]; [skip] is always [saved_key_]. *)
Fixpoint find_next (fuel : nat) (skipping : bool) (d : DBIter) : outcome DBIter :=
  match fuel with
  | O => NoFuel
  | S fuel =>
    '(ikey, d) ← db_ParseKey d;
    let continue (skipping : bool) (d : DBIter) :=
      it ← vNext (db_iter d);
      let d := set_iter it d in
      if vValid it then find_next fuel skipping d else Done (set_valid false (set_saved_key [] d)) in
    match ikey with
    | Some ikey =>
      if sequence ikey <=? sequence_ then
        if type_ ikey =? kTypeDeletion then continue true (set_saved_key (user_key ikey) d)
        else if type_ ikey =? kTypeValue then
          hidden ← (if skipping then r ← Compare ucmp (user_key ikey) (db_saved_key d); Done (r <=? 0) else Done false);
          if hidden : bool then continue skipping d else Done (set_saved_key [] (set_valid true d))
        else continue skipping d
      else continue skipping d
    | None => continue skipping d
    end
  end.
Definition FindNextUserEntry (skipping : bool) (d : DBIter) : outcome DBIter :=
  if vValid (db_iter d) && bool_decide (db_direction d = kForward) then find_next fuel skipping d else Undef.

Definition db_Next (d : DBIter) : outcome DBIter :=
  if db_valid d then
    match db_direction d with
    | kReverse =>
      let d := set_direction kForward d in
      it ← (if negb (vValid (db_iter d)) then vSeekToFirst (db_iter d) else vNext (db_iter d));
      let d := set_iter it d in
      if negb (vValid it) then Done (set_saved_key [] (set_valid false d)) else FindNextUserEntry true d
    | kForward =>
      k ← vkey (db_iter d);
      u ← ExtractUserKey k;
      FindNextUserEntry true (set_saved_key u d)
    end
  else Undef.

(** ** Moving backward *)

(** [do ... while (iter_->Valid())]; the type of the last update that counts. *)
Fixpoint find_prev (fuel : nat) (value_type : Z) (d : DBIter) : outcome (Z * DBIter) :=
  match fuel with
  | O => NoFuel
  | S fuel =>
    '(ikey, d) ← db_ParseKey d;
    let continue (value_type : Z) (d : DBIter) :=
      it ← vPrev (db_iter d);
      let d := set_iter it d in
      if vValid it then find_prev fuel value_type d else Done (value_type, d) in
    match ikey with
    | Some ikey =>
      if sequence ikey <=? sequence_ then
        stop ← (if negb (value_type =? kTypeDeletion) then r ← Compare ucmp (user_key ikey) (db_saved_key d); Done (r <? 0) else Done false);
        if stop : bool then Done (value_type, d)
        else if type_ ikey =? kTypeDeletion then continue (type_ ikey) (set_saved_value [] (set_saved_key [] d))
        else
          v ← vvalue (db_iter d);
          k ← vkey (db_iter d);
          u ← ExtractUserKey k;
          continue (type_ ikey) (set_saved_value v (set_saved_key u d))
      else continue value_type d
    | None => continue value_type d
    end
  end.
Definition FindPrevUserEntry (d : DBIter) : outcome DBIter :=
  if bool_decide (db_direction d = kReverse) then
    '(value_type, d) ← (if vValid (db_iter d) then find_prev fuel kTypeDeletion d else Done (kTypeDeletion, d));
    Done (if value_type =? kTypeDeletion then set_direction kForward (set_saved_value [] (set_saved_key [] (set_valid false d))) else set_valid true d)
  else Undef.

(** Backwards past the entries of the saved key; [false] at the front. *)
Fixpoint leave_key (fuel : nat) (d : DBIter) : outcome (bool * DBIter) :=
  match fuel with
  | O => NoFuel
  | S fuel =>
    it ← vPrev (db_iter d);
    let d := set_iter it d in
    if negb (vValid it) then Done (false, d)
    else
      k ← vkey it;
      u ← ExtractUserKey k;
      r ← Compare ucmp u (db_saved_key d);
      if r <? 0 then Done (true, d) else leave_key fuel d
  end.

Definition db_Prev (d : DBIter) : outcome DBIter :=
  if db_valid d then
    match db_direction d with
    | kForward =>
      if vValid (db_iter d) then
        k ← vkey (db_iter d);
        u ← ExtractUserKey k;
        '(found, d) ← leave_key fuel (set_saved_key u d);
        if found : bool then FindPrevUserEntry (set_direction kReverse d) else Done (set_saved_value [] (set_saved_key [] (set_valid false d)))
      else Undef
    | kReverse => FindPrevUserEntry d
    end
  else Undef.

(** ** Seeking *)

(** [if (iter_->Valid()) FindNextUserEntry(false, ..); else valid_ = false;] *)
Definition first_from (d : DBIter) : outcome DBIter := if vValid (db_iter d) then FindNextUserEntry false d else Done (set_valid false d).
Definition db_Seek (target : list Z) (d : DBIter) : outcome DBIter :=
  k ← AppendInternalKey [] (MkParsed target sequence_ kValueTypeForSeek);
  it ← vSeek k (db_iter d);
  first_from (set_iter it (set_saved_key k (set_saved_value [] (set_direction kForward d)))).
Definition db_SeekToFirst (d : DBIter) : outcome DBIter :=
  it ← vSeekToFirst (db_iter d);
  first_from (set_iter it (set_saved_value [] (set_direction kForward d))).
Definition db_SeekToLast (d : DBIter) : outcome DBIter :=
  it ← vSeekToLast (db_iter d);
  FindPrevUserEntry (set_iter it (set_saved_value [] (set_direction kReverse d))).

Instance db_iterator : Iterator DBIter := MkIterator DBIter db_valid db_SeekToFirst db_SeekToLast db_Seek db_Next db_Prev db_key db_value db_status.
End DbIter.
Arguments DBIter I : clear implicits.

(** ** Sampling *)

Definition good_sampling (s : Sampling) : Prop := 0 < s_rnd s < 2147483647 /\ 0 <= s_bytes s < 2 ^ 21.

Lemma period_spec rnd : 0 < rnd < 2147483647 -> exists rnd', RandomCompactionPeriod rnd = Done (rnd' mod 2 ^ 21, rnd') /\ 0 < rnd' < 2147483647 /\ (rnd mod 2 ^ 21 = 0 -> rnd' mod 2 ^ 21 <> 0).
Proof.
  intros Hr. destruct (random_next_spec rnd Hr) as [E Hb]. exists (Random_Next rnd). split; [unfold RandomCompactionPeriod, Random_Uniform; change (u32 (2 * kReadBytesPeriod)) with (2 ^ 21); reflexivity|]. split; [done|]. intros Hz. rewrite E. apply Z.mod_divide in Hz as [q ->]; [|lia].
  pose proof (Z.div_mod (q * 16807) 1024 ltac:(lia)) as Hd. pose proof (Z.mod_pos_bound (q * 16807) 1024 ltac:(lia)) as Hm. set (a := q * 16807 / 1024) in *. set (b := (q * 16807) mod 1024) in *.
  replace (q * 2 ^ 21 * 16807) with ((a + b * 2 ^ 21) + a * 2147483647) by lia. rewrite Z.mod_add by lia. assert (16 <= a < 2 ^ 20) by lia. rewrite (Z.mod_small (a + b * 2 ^ 21)) by lia. rewrite Z.mod_add by lia. rewrite Z.mod_small by lia. lia.
Qed.

Lemma sample_loop_spec k B : 0 <= B < 2 ^ 62 -> forall fuel s, 0 < s_rnd s < 2147483647 -> 0 <= s_bytes s < B + 2 ^ 21 ->
  2 * Z.max 0 (B - s_bytes s) + (if s_rnd s mod 2 ^ 21 =? 0 then 0 else 1) < Z.of_nat fuel ->
  exists s', sample_loop fuel k B s = Done s' /\ 0 < s_rnd s' < 2147483647 /\ B <= s_bytes s' < B + 2 ^ 21.
Proof.
  intros HB. induction fuel as [|fuel IH]; intros s Hr Hb Hf; [case_match; lia|]. cbn [sample_loop]. destruct (Z.ltb_spec (s_bytes s) B) as [Hlt|Hge]; [|exists s; split; [done|]; lia].
  destruct (period_spec (s_rnd s) Hr) as (rnd' & -> & Hr' & Hz). cbn [mbind outcome_bind fst snd]. pose proof (Z.mod_pos_bound rnd' (2 ^ 21) ltac:(lia)). rewrite u64_small by lia. apply IH; cbn [s_rnd s_bytes]; [done|lia|].
  destruct (Z.eqb_spec (s_rnd s mod 2 ^ 21) 0) as [E|E], (Z.eqb_spec (rnd' mod 2 ^ 21) 0) as [E'|E']; first [lia|exfalso; by apply Hz].
Qed.

(** ** What a snapshot sees *)

Section View.
Context (cmp : list Z -> list Z -> Z) (s : Z).

Definition user (e : entry) : list Z := user_part e.1.
(** Not newer than the snapshot. *)
Definition seen (e : entry) : bool := Z.shiftr (tag_part e.1) 8 <=? s.
(** A newer update of the same user key is seen. *)
Definition shadowed (newer : list entry) (e : entry) : bool := existsb (fun e' => seen e' && (cmp (user e') (user e) =? 0)) newer.
Definition live (newer : list entry) (e : entry) : bool := seen e && (type_of e.1 =? kTypeValue) && negb (shadowed newer e).
(** The entries with the newest value of each user key, in order. *)
Fixpoint user_view (newer es : list entry) : list entry :=
  match es with
  | [] => []
  | e :: es => (if live newer e then [(user e, e.2)] else []) ++ user_view (newer ++ [e]) es
  end.

Lemma view_app l1 : forall newer l2, user_view newer (l1 ++ l2) = user_view newer l1 ++ user_view (newer ++ l1) l2.
Proof. induction l1 as [|e l1 IH]; intros newer l2; cbn [user_view app]; [by rewrite app_nil_r|]. rewrite IH, <- !app_assoc. done. Qed.
End View.

Section Spec.
Context {I : Type} `{!Iterator I} {ucmp : Comparator} {valid : list Z -> Prop} {cmp : list Z -> list Z -> Z} `{GC : !GoodComparator ucmp valid cmp}.
Context (s : Z) (fuel : nat) (es : list entry) (iat : I -> nat -> Prop).
Abbreviation ic := (icmp cmp).
Abbreviation ivalid := (valid_ikey valid).
#[local] Instance ic_ordered4 : Ordered (internal_compare ucmp) ivalid ic := internal_ordered.
Context `{CU : !Cursor ivalid ic es iat}.
Context (HE : good_entries (valid := valid) (cmp := cmp) es) (Hsize : Forall (fun e : entry => zlen e.1 + zlen e.2 < 2 ^ 62) es) (Hs : 0 <= s <= kMaxSequenceNumber) (Hfuel : (S (length es) < fuel)%nat).

Abbreviation n := (length es).
Abbreviation V := (user_view cmp s [] es).
Abbreviation seen := (seen s).
Definition rank (m : nat) : nat := length (user_view cmp s [] (take m es)).
Definition live_at (i : nat) : bool := match es !! i with Some e => live cmp s (take i es) e | None => false end.

Lemma entry_facts i e : es !! i = Some e -> ivalid e.1 /\ valid (user e) /\ type_of e.1 <= kTypeValue /\ 0 <= zlen e.1 + zlen e.2 < 2 ^ 62.
Proof.
  intros Ei. destruct HE as [Hv _]. rewrite Forall_lookup in Hv, Hsize. destruct (Hv i e Ei) as [H1 H2]. pose proof (Hsize i e Ei) as Hz. cbn beta in Hz. destruct (ivalid_user _ H1) as [_ Hu]. split_and!; [done|done|done|lia|lia].
Qed.

(** User keys are in order. *)
Lemma user_order i j e e' : (i < j)%nat -> es !! i = Some e -> es !! j = Some e' -> cmp (user e) (user e') <= 0.
Proof. intros Hij Ei Ej. destruct HE as [_ Hso]. pose proof (sorted_lookup _ _ Hso i j e e' Hij Ei Ej) as H. unfold icmp in H. cbn beta in H. unfold user. destruct (Z.eqb_spec (cmp (user_part e.1) (user_part e'.1)) 0); lia. Qed.
Lemma user_order_le i j e e' : (i <= j)%nat -> es !! i = Some e -> es !! j = Some e' -> cmp (user e) (user e') <= 0.
Proof. intros Hij Ei Ej. destruct (decide (i = j)) as [->|]; [|apply (user_order i j); [lia|done|done]]. assert (e' = e) as -> by congruence. destruct (entry_facts j e Ei) as (_ & Hu & _). pose proof (cmp_refl (user e) Hu). lia. Qed.

Lemma shadowed_iff i e : shadowed cmp s (take i es) e = true <-> exists j e', (j < i)%nat /\ es !! j = Some e' /\ seen e' = true /\ cmp (user e') (user e) = 0.
Proof.
  unfold shadowed. rewrite existsb_exists. split.
  - intros (e' & Hin & Hc). apply list_elem_of_In, list_elem_of_lookup in Hin as [j Hj]. apply lookup_take_Some in Hj as [Hj Hlt]. apply andb_true_iff in Hc as [H1 H2]. apply Z.eqb_eq in H2. by exists j, e'.
  - intros (j & e' & Hj & Ej & H1 & H2). exists e'. split; [|rewrite H1, H2; done]. apply list_elem_of_In, list_elem_of_lookup_2 with j. by apply lookup_take_Some.
Qed.

Definition newest (i : nat) (e : entry) : Prop := forall j e', (j < i)%nat -> es !! j = Some e' -> seen e' = true -> cmp (user e') (user e) <> 0.
Lemma live_iff i e : es !! i = Some e -> live_at i = true <-> seen e = true /\ type_of e.1 = kTypeValue /\ newest i e.
Proof.
  intros Ei. unfold live_at. rewrite Ei. unfold live. rewrite !andb_true_iff, negb_true_iff. rewrite Z.eqb_eq. split.
  - intros ((H1 & H2) & H3). split_and!; [done|done|]. intros j e' Hj Ej Hse Heq. assert (shadowed cmp s (take i es) e = true) by (apply shadowed_iff; by exists j, e'). congruence.
  - intros (H1 & H2 & H3). split_and!; [done|done|]. destruct (shadowed cmp s (take i es) e) eqn:E; [|done]. apply shadowed_iff in E as (j & e' & Hj & Ej & Hse & Heq). exfalso. by apply (H3 j e').
Qed.

(** ** Ranks *)

Lemma rank_S i e : es !! i = Some e -> rank (S i) = (rank i + if live_at i then 1 else 0)%nat.
Proof. intros Ei. unfold rank, live_at. rewrite (take_S_r es i e Ei), view_app, length_app, Ei. cbn [user_view app]. rewrite app_nil_r. by destruct (live cmp s (take i es) e). Qed.

Lemma rank_end : rank n = length V.
Proof. unfold rank. by rewrite take_ge. Qed.

Lemma rank_gap m i : (m <= i <= n)%nat -> (forall k, (m <= k < i)%nat -> live_at k = false) -> rank i = rank m.
Proof.
  intros [Hmi Hin]. induction i as [|i IH] in Hmi, Hin |- *; intros H; [by replace m with 0%nat by lia|]. destruct (decide (m = S i)) as [->|]; [done|]. destruct (lookup_lt_is_Some_2 es i) as [e Ee]; [lia|]. rewrite (rank_S i e Ee), (H i) by lia. rewrite IH; [lia|lia|lia|]. intros k Hk. apply H. lia.
Qed.

Lemma rank_le i j : (i <= j <= n)%nat -> (rank i <= rank j)%nat.
Proof. intros [Hij Hjn]. induction j as [|j IH] in Hij, Hjn |- *; [by replace i with 0%nat by lia|]. destruct (decide (i = S j)) as [->|]; [done|]. destruct (lookup_lt_is_Some_2 es j) as [e Ee]; [lia|]. rewrite (rank_S j e Ee). specialize (IH ltac:(lia) ltac:(lia)). lia. Qed.

Lemma rank_lt i j : live_at i = true -> (i < j <= n)%nat -> (rank i < rank j)%nat.
Proof. intros Hl Hij. destruct (lookup_lt_is_Some_2 es i) as [e Ee]; [lia|]. pose proof (rank_S i e Ee) as H. rewrite Hl in H. pose proof (rank_le (S i) j ltac:(lia)). lia. Qed.

Lemma view_at i e : es !! i = Some e -> live_at i = true -> V !! rank i = Some (user e, e.2).
Proof.
  intros Ei Hl. rewrite <- (take_drop_middle es i e Ei) at 1. rewrite view_app. unfold rank. rewrite lookup_app_r by done. rewrite Nat.sub_diag. cbn [user_view app]. unfold live_at in Hl. rewrite Ei in Hl. by rewrite Hl.
Qed.

Lemma view_inv p x : V !! p = Some x -> exists i e, es !! i = Some e /\ live_at i = true /\ rank i = p /\ x = (user e, e.2).
Proof.
  intros Hp. assert (H : forall m, (m <= n)%nat -> (p < rank m)%nat -> exists i e, es !! i = Some e /\ live_at i = true /\ rank i = p).
  { induction m as [|m IH]; intros Hm Hr; [unfold rank in Hr; rewrite take_0 in Hr; cbn [user_view length] in Hr; lia|]. destruct (lookup_lt_is_Some_2 es m) as [e Ee]; [lia|]. rewrite (rank_S m e Ee) in Hr. destruct (live_at m) eqn:El; cbv iota in Hr; [|apply IH; lia]. destruct (decide (p = rank m)) as [->|]; [by exists m, e|]. apply IH; lia. }
  destruct (H n) as (i & e & Ei & Hl & Hr); [done|rewrite rank_end; by apply lookup_lt_Some in Hp|]. exists i, e. split_and!; [done|done|done|]. rewrite <- Hr, (view_at i e Ei Hl) in Hp. congruence.
Qed.

(** ** The state *)

Definition fine (d : DBIter I) : Prop := db_status_ d = OK /\ good_sampling (db_sampling d).

(** At the [p]th entry of the view.  Moving forward, the iterator stands on the
    update; moving backward, before all updates of smaller keys that are seen. *)
Definition db_at (d : DBIter I) (p : nat) : Prop :=
  fine d /\
  ((exists i e, es !! i = Some e /\ live_at i = true /\ rank i = p /\ db_valid d = true /\
      match db_direction d with
      | kForward => iat (db_iter d) i
      | kReverse => db_saved_key d = user e /\ db_saved_value d = e.2 /\ exists r, (r <= i)%nat /\ iat (db_iter d) (pred_index es r) /\ forall k e', (r <= k < i)%nat -> es !! k = Some e' -> seen e' = false
      end) \/
   (p = length V /\ db_valid d = false /\ exists k, iat (db_iter d) k)).

Lemma ParseKey_spec d i e : fine d -> iat (db_iter d) i -> es !! i = Some e -> exists sp, good_sampling sp /\ db_ParseKey d = Done (Some (MkParsed (user e) (Z.shiftr (tag_part e.1) 8) (type_of e.1)), set_sampling sp d).
Proof.
  intros (_ & Hr & Hb) Hat Ei. destruct (entry_facts i e Ei) as (Hv & _ & Ht & Hz). unfold db_ParseKey. destruct (cur_entry (db_iter d) i e Hat Ei) as [-> ->]. cbn [mbind outcome_bind]. rewrite u64_small by lia. set (B := zlen e.1 + zlen e.2) in *.
  destruct (sample_loop_spec e.1 B Hz (sample_fuel B) (db_sampling d) Hr) as (sp & -> & Hr' & Hb'); [lia|unfold sample_fuel; case_match; lia|]. cbn [mbind outcome_bind]. destruct (Z.ltb_spec (s_bytes sp) B); [lia|]. rewrite (parse_ikey e.1 Hv Ht). cbn [mbind outcome_bind]. eexists. split; [|done]. split; cbn [s_rnd s_bytes]; [done|lia].
Qed.

Lemma db_step d i : iat (db_iter d) i -> (i < n)%nat -> exists it, vNext (db_iter d) = Done it /\ iat it (S i) /\ vValid it = bool_decide (S i < n)%nat.
Proof. intros Hat Hi. destruct (cur_next _ i Hat Hi) as (it & -> & Hat'). exists it. split_and!; [done|done|by apply cur_valid]. Qed.

(** ** Forward *)

(** The search for the first live entry from [m] on has come to [i]. *)
Record searching (i m : nat) (skipping : bool) (u : list Z) : Prop := {
  sg_live k e : (i <= k)%nat -> (m <= k)%nat -> es !! k = Some e -> live_at k = true -> skipping = true -> 0 < cmp (user e) u;
  sg_newest k e : (i <= k)%nat -> es !! k = Some e -> seen e = true -> (skipping = true -> 0 < cmp (user e) u) -> (forall j e', (i <= j < k)%nat -> es !! j = Some e' -> seen e' = true -> cmp (user e') (user e) <> 0) -> (m <= k)%nat /\ newest k e;
  sg_skip : skipping = true -> valid u /\ forall k e, (i <= k)%nat -> es !! k = Some e -> seen e = true -> cmp u (user e) <= 0;
  sg_none k : (m <= k < i)%nat -> live_at k = false;
}.

(** Passing an entry that is not seen, or hidden. *)
Lemma search_pass i m sk u e : searching i m sk u -> es !! i = Some e -> seen e = false \/ (sk = true /\ cmp (user e) u <= 0) -> searching (S i) m sk u.
Proof.
  intros [S1 S2 S3 S4] Ei Hp. assert (Hno : (m <= i)%nat -> live_at i = false). { intros Hm. destruct (live_at i) eqn:El; [|done]. pose proof (proj1 (live_iff i e Ei) El) as (Hse & _). destruct Hp as [Hp|[Hsk Hp]]; [congruence|]. pose proof (S1 i e ltac:(lia) Hm Ei El Hsk). lia. }
  split.
  - intros k e' Hk Hm Ek Hl Hsk. apply (S1 k); [lia|done..].
  - intros k e' Hk Ek Hse Hu Hj. apply (S2 k e'); [lia|done|done|done|]. intros j e'' Hj' Ej Hse' Heq. destruct (decide (j = i)) as [->|]; [|by apply (Hj j e''); [lia|..]]. assert (e'' = e) as -> by congruence. destruct Hp as [Hp|[Hsk Hp]]; [congruence|]. specialize (Hu Hsk). destruct (S3 Hsk) as [Hvu _].
    destruct (entry_facts i e Ei) as (_ & Hue & _), (entry_facts k e' Ek) as (_ & Huk & _). pose proof (cmp_anti (user e') u Huk Hvu) as Ha. assert (cmp u (user e) < 0); [|pose proof (cmp_anti (user e) u Hue Hvu); lia]. apply (cmp_lt_le u (user e') (user e)); [done|done|done|lia|]. pose proof (cmp_zero_sym _ _ Hue Huk Heq). lia.
  - intros Hsk. destruct (S3 Hsk) as [Hv H]. split; [done|]. intros k e' Hk. apply H. lia.
  - intros k Hk. destruct (decide (k = i)) as [->|]; [apply Hno; lia|]. apply S4. lia.
Qed.

(** Passing a deletion. *)
Lemma search_deletion i m sk u e : searching i m sk u -> es !! i = Some e -> seen e = true -> type_of e.1 <> kTypeValue -> searching (S i) m true (user e).
Proof.
  intros [S1 S2 S3 S4] Ei Hse Ht. destruct (entry_facts i e Ei) as (_ & Hue & _). split.
  - intros k e' Hk Hm Ek Hl _. destruct (entry_facts k e' Ek) as (_ & Huk & _). pose proof (user_order i k e e' ltac:(lia) Ei Ek). pose proof (proj1 (live_iff k e' Ek) Hl) as (_ & _ & Hnew). pose proof (Hnew i e ltac:(lia) Ei Hse). pose proof (cmp_anti (user e') (user e) Huk Hue). lia.
  - intros k e' Hk Ek Hse' Hu Hj. specialize (Hu eq_refl). destruct (entry_facts k e' Ek) as (_ & Huk & _). apply (S2 k e'); [lia|done|done| |].
    + intros Hsk. destruct (S3 Hsk) as [Hvu H]. specialize (H i e ltac:(lia) Ei Hse). pose proof (cmp_anti (user e') u Huk Hvu). assert (cmp u (user e') < 0); [|lia]. apply (cmp_le_lt u (user e) (user e')); [done|done|done|done|]. by apply cmp_anti.
    + intros j e'' Hj' Ej Hse'' Heq. destruct (decide (j = i)) as [->|]; [|by apply (Hj j e''); [lia|..]]. assert (e'' = e) as -> by congruence. pose proof (cmp_anti (user e') (user e) Huk Hue). lia.
  - intros _. split; [done|]. intros k e' Hk Ek _. apply (user_order i k); [lia|done|done].
  - intros k Hk. destruct (decide (k = i)) as [->|]; [|apply S4; lia]. destruct (live_at i) eqn:El; [|done]. by pose proof (proj1 (live_iff i e Ei) El) as (_ & ? & _).
Qed.

Lemma find_next_spec m : (m <= n)%nat -> forall fuel i d sk, (n - i < fuel)%nat -> (i < n)%nat -> fine d -> iat (db_iter d) i -> db_direction d = kForward -> searching i m sk (db_saved_key d) ->
  exists d', find_next ucmp s fuel sk d = Done d' /\ db_at d' (rank m).
Proof.
  intros Hm. induction fuel0 as [|fuel0 IH]; intros i d sk Hf Hi Hd Hat Hdir Hse; [lia|]. destruct (lookup_lt_is_Some_2 es i Hi) as [e Ei]. cbn [find_next]. destruct (ParseKey_spec d i e Hd Hat Ei) as (sp & Hsp & ->). cbn [mbind outcome_bind].
  destruct (entry_facts i e Ei) as (_ & Hue & Hty & _). set (d1 := set_sampling sp d). assert (Hd1 : fine d1) by (split; [apply Hd|done]).
  assert (Hcont : forall sk' key, searching (S i) m sk' key -> exists d', (it ← vNext (db_iter (set_saved_key key d1)); if vValid it then find_next ucmp s fuel0 sk' (set_iter it (set_saved_key key d1)) else Done (set_valid false (set_saved_key [] (set_iter it (set_saved_key key d1))))) = Done d' /\ db_at d' (rank m)).
  { intros sk' key Hse'. destruct (db_step (set_saved_key key d1) i Hat Hi) as (it & -> & Hat' & Hval). cbn [mbind outcome_bind]. rewrite Hval. case_bool_decide as Hn.
    - apply (IH (S i)); [lia|done|exact Hd1|exact Hat'|exact Hdir|exact Hse'].
    - eexists. split; [done|]. split; [exact Hd1|]. right. split; [|split; [done|by exists (S i)]]. rewrite <- rank_end. symmetry. apply rank_gap; [lia|]. intros k Hk. apply (sg_none _ _ _ _ Hse'). lia. }
  cbn [sequence type_ user_key]. change (Z.shiftr (tag_part e.1) 8 <=? s) with (seen e). destruct (seen e) eqn:Hseen; [|apply (Hcont sk (db_saved_key d1)); apply (search_pass i m sk _ e Hse Ei); by left].
  destruct (Z.eqb_spec (type_of e.1) kTypeDeletion) as [Ht|Ht].
  { apply (Hcont true (user e)). apply (search_deletion i m sk _ e Hse Ei Hseen). unfold kTypeDeletion, kTypeValue in *. lia. }
  assert (Htv : type_of e.1 = kTypeValue). { unfold kTypeDeletion, kTypeValue in *. assert (0 <= type_of e.1) by (unfold type_of; apply Z.land_nonneg; by right). lia. } rewrite Htv, Z.eqb_refl.
  assert (Hhid : exists b, (if sk then r ← Compare ucmp (user e) (db_saved_key d1); Done (r <=? 0) else Done false) = Done b /\ (b = true <-> sk = true /\ cmp (user e) (db_saved_key d) <= 0)).
  { destruct sk; [|exists false; split; [done|]; split; [done|intros [? _]; done]]. destruct (sg_skip _ _ _ _ Hse eq_refl) as [Hvk _]. change (db_saved_key d1) with (db_saved_key d). rewrite (cmp_total _ _ Hue Hvk). cbn [mbind outcome_bind]. eexists. split; [done|]. split; [intros H; split; [done|lia]|intros [_ H]; lia]. }
  destruct Hhid as (b & -> & Hb). cbn [mbind outcome_bind]. destruct b.
  - apply (Hcont sk (db_saved_key d1)). apply (search_pass i m sk _ e Hse Ei). right. by apply Hb.
  - assert (Hnh : sk = true -> 0 < cmp (user e) (db_saved_key d)). { intros Hsk. destruct (Z_lt_le_dec 0 (cmp (user e) (db_saved_key d))); [done|]. assert (false = true) by by apply Hb. done. }
    destruct (sg_newest _ _ _ _ Hse i e ltac:(lia) Ei Hseen Hnh) as [Hmi Hnew]; [intros j e' Hj; lia|]. assert (Hl : live_at i = true) by by apply (live_iff i e Ei).
    eexists. split; [done|]. split; [exact Hd1|]. left. exists i, e. split_and!; [done|done| |done|cbn; rewrite Hdir; exact Hat]. apply rank_gap; [lia|]. intros k Hk. apply (sg_none _ _ _ _ Hse). lia.
Qed.

(** Past the live entry [i], from [r] on, where nothing is seen up to [i]. *)
Lemma search_past i r e : es !! i = Some e -> live_at i = true -> (r <= i)%nat -> (forall k e', (r <= k < i)%nat -> es !! k = Some e' -> seen e' = false) -> searching r (S i) true (user e).
Proof.
  intros Ei Hl Hr Hno. pose proof (proj1 (live_iff i e Ei) Hl) as (Hse & _ & Hnew). destruct (entry_facts i e Ei) as (_ & Hue & _). split.
  - intros k e' Hk Hm Ek Hlk _. destruct (entry_facts k e' Ek) as (_ & Huk & _). pose proof (user_order i k e e' ltac:(lia) Ei Ek). pose proof (proj1 (live_iff k e' Ek) Hlk) as (_ & _ & Hnk). pose proof (Hnk i e ltac:(lia) Ei Hse). pose proof (cmp_anti (user e') (user e) Huk Hue). lia.
  - intros k e' Hk Ek Hsk Hu Hj. specialize (Hu eq_refl). destruct (entry_facts k e' Ek) as (_ & Huk & _). assert (Hik : (i < k)%nat). { destruct (decide (i < k)%nat) as [|Hge]; [done|exfalso]. pose proof (user_order_le k i e' e ltac:(lia) Ek Ei). lia. }
    split; [lia|]. intros j e'' Hjk Ej Hsj Heq. destruct (decide (r <= j)%nat) as [Hrj|Hrj]; [by apply (Hj j e'')|]. destruct (entry_facts j e'' Ej) as (_ & Huj & _). pose proof (user_order j i e'' e ltac:(lia) Ej Ei). assert (cmp (user e'') (user e') < 0); [|lia]. apply (cmp_le_lt (user e'') (user e) (user e')); [done|done|done|done|]. by apply cmp_anti.
  - intros _. split; [done|]. intros k e' Hk Ek Hsk. destruct (decide (k < i)%nat) as [Hlt|]; [rewrite (Hno k e') in Hsk by (done || lia); done|]. apply (user_order_le i k); [lia|done|done].
  - intros k Hk. lia.
Qed.

(** ** Backward *)

(** What is known when the entries from [r] up to [b] have been passed. *)
Definition scanned (r b : nat) (vt : Z) (key value : list Z) : Prop :=
  (vt = kTypeDeletion /\ forall k, (r <= k < b)%nat -> live_at k = false) \/
  (vt = kTypeValue /\ exists w e, (r <= w < b)%nat /\ es !! w = Some e /\ seen e = true /\ type_of e.1 = kTypeValue /\ key = user e /\ value = e.2 /\
     (forall k e', (r <= k < w)%nat -> es !! k = Some e' -> seen e' = false) /\ (forall k e', (r <= k < b)%nat -> es !! k = Some e' -> live_at k = true -> cmp (user e') (user e) = 0)).

Lemma type_cases i e : es !! i = Some e -> type_of e.1 = kTypeDeletion \/ type_of e.1 = kTypeValue.
Proof. intros Ei. destruct (entry_facts i e Ei) as (_ & _ & Ht & _). assert (0 <= type_of e.1) by (unfold type_of; apply Z.land_nonneg; by right). unfold kTypeDeletion, kTypeValue in *. lia. Qed.

Lemma scan_unseen i b vt key value e : scanned (S i) b vt key value -> es !! i = Some e -> seen e = false -> scanned i b vt key value.
Proof.
  intros Hsc Ei Hun. assert (Hnl : live_at i = false) by (destruct (live_at i) eqn:El; [|done]; pose proof (proj1 (live_iff i e Ei) El) as (? & _); congruence). destruct Hsc as [[-> H]|(-> & w & ew & Hw & Ew & H1 & H2 & H3 & H4 & H5 & H6)]; [left|right]; (split; [done|]).
  - intros k Hk. destruct (decide (k = i)) as [->|]; [done|]. apply H. lia.
  - exists w, ew. split_and!; try done; [lia|lia| |].
    + intros k e' Hk Ek. destruct (decide (k = i)) as [->|]; [congruence|]. apply (H5 k); [lia|done].
    + intros k e' Hk Ek Hl. destruct (decide (k = i)) as [->|]; [congruence|]. apply (H6 k); [lia|done|done].
Qed.

Lemma scan_seen i b vt key value e : (i < b)%nat -> scanned (S i) b vt key value -> es !! i = Some e -> seen e = true -> (vt = kTypeValue -> 0 <= cmp (user e) key) ->
  (type_of e.1 = kTypeDeletion -> scanned i b kTypeDeletion [] []) /\ (type_of e.1 = kTypeValue -> scanned i b kTypeValue (user e) e.2).
Proof.
  intros Hib Hsc Ei Hse Hcmp. destruct (entry_facts i e Ei) as (_ & Hue & _).
  (* a live entry after this one is of the same user key, and so hidden by it *)
  assert (Hnone : forall k, (S i <= k < b)%nat -> live_at k = false).
  { intros k Hk. destruct (live_at k) eqn:El; [|done]. destruct Hsc as [[-> H]|(-> & w & ew & Hw & Ew & H1 & H2 & -> & _ & H5 & H6)]; [by rewrite H in El|]. unfold live_at in El. destruct (es !! k) as [ek|] eqn:Ek; [|done]. assert (Elk : live_at k = true) by (unfold live_at; by rewrite Ek).
    pose proof (H6 k ek Hk Ek Elk) as Heq. specialize (Hcmp eq_refl). destruct (entry_facts w ew Ew) as (_ & Huw & _), (entry_facts k ek Ek) as (_ & Huk & _). pose proof (user_order i w e ew ltac:(lia) Ei Ew). assert (E0 : cmp (user e) (user ew) = 0) by lia.
    pose proof (proj1 (live_iff k ek Ek) Elk) as (_ & _ & Hnew). exfalso. apply (Hnew i e ltac:(lia) Ei Hse). apply (cmp_zero_l (user e) (user ew) (user ek) Hue Huw Huk E0). by apply cmp_zero_sym. }
  split; intros Ht.
  - left. split; [done|]. intros k Hk. destruct (decide (k = i)) as [->|]; [|apply Hnone; lia]. destruct (live_at i) eqn:El; [|done]. pose proof (proj1 (live_iff i e Ei) El) as (_ & Ht' & _). unfold kTypeDeletion, kTypeValue in *. lia.
  - right. split; [done|]. exists i, e. split_and!; try done; [intros k e' Hk; lia|]. intros k e' Hk Ek Hl. destruct (decide (k = i)) as [->|]; [assert (e' = e) as -> by congruence; by apply cmp_refl|]. rewrite Hnone in Hl by lia. done.
Qed.

Lemma find_prev_spec b : (b <= n)%nat -> forall fuel i d vt, (i < fuel)%nat -> (i < b)%nat -> fine d -> iat (db_iter d) i -> scanned (S i) b vt (db_saved_key d) (db_saved_value d) ->
  exists vt' d' r, find_prev ucmp s fuel vt d = Done (vt', d') /\ fine d' /\ db_direction d' = db_direction d /\ (r <= b)%nat /\ iat (db_iter d') (pred_index es r) /\ scanned r b vt' (db_saved_key d') (db_saved_value d') /\
    (vt' = kTypeDeletion -> r = 0%nat) /\ (vt' = kTypeValue -> forall k e, (k < r)%nat -> es !! k = Some e -> cmp (user e) (db_saved_key d') < 0).
Proof.
  intros Hb. induction fuel0 as [|fuel0 IH]; intros i d vt Hf Hi Hd Hat Hsc; [lia|]. destruct (lookup_lt_is_Some_2 es i) as [e Ei]; [lia|]. cbn [find_prev]. destruct (ParseKey_spec d i e Hd Hat Ei) as (sp & Hsp & ->). cbn [mbind outcome_bind].
  destruct (entry_facts i e Ei) as (Hiv & Hue & _ & _). set (d1 := set_sampling sp d). assert (Hd1 : fine d1) by (split; [apply Hd|done]).
  assert (Hcont : forall vt' d2, fine d2 -> db_direction d2 = db_direction d -> db_iter d2 = db_iter d -> scanned i b vt' (db_saved_key d2) (db_saved_value d2) ->
    exists vt'' d' r, (it ← vPrev (db_iter d2); if vValid it then find_prev ucmp s fuel0 vt' (set_iter it d2) else Done (vt', set_iter it d2)) = Done (vt'', d') /\ fine d' /\ db_direction d' = db_direction d /\ (r <= b)%nat /\ iat (db_iter d') (pred_index es r) /\ scanned r b vt'' (db_saved_key d') (db_saved_value d') /\
    (vt'' = kTypeDeletion -> r = 0%nat) /\ (vt'' = kTypeValue -> forall k e, (k < r)%nat -> es !! k = Some e -> cmp (user e) (db_saved_key d') < 0)).
  { intros vt' d2 Hd2 Hdir2 Hit2 Hsc2. rewrite Hit2. destruct (cur_prev _ i Hat) as (it & -> & Hat'); [lia|]. cbn [mbind outcome_bind]. rewrite (cur_valid it _ Hat'). destruct i as [|i]; cbn [pred_index] in Hat' |- *.
    - rewrite bool_decide_false by lia. exists vt', (set_iter it d2), 0%nat. split_and!; first [done|exact Hd2|lia].
    - rewrite bool_decide_true by lia. destruct (IH i (set_iter it d2) vt') as (vt'' & d' & r & E & H1 & H2 & H3 & H4 & H5 & H6 & H7); [lia|lia|exact Hd2|exact Hat'|exact Hsc2|]. exists vt'', d', r. split_and!; try done. by rewrite H2. }
  cbn [sequence type_ user_key]. change (Z.shiftr (tag_part e.1) 8 <=? s) with (seen e). destruct (seen e) eqn:Hseen; [|apply (Hcont vt d1 Hd1 eq_refl eq_refl); by apply (scan_unseen i b vt _ _ e)].
  assert (Hvt : vt = kTypeDeletion \/ vt = kTypeValue) by (destruct Hsc as [[? _]|[? _]]; tauto).
  assert (Hstop : exists stop, (if negb (vt =? kTypeDeletion) then r ← Compare ucmp (user e) (db_saved_key d1); Done (r <? 0) else Done false) = Done stop /\ (stop = true -> vt = kTypeValue /\ cmp (user e) (db_saved_key d) < 0) /\ (stop = false -> vt = kTypeValue -> 0 <= cmp (user e) (db_saved_key d))).
  { destruct Hvt as [->| ->]; [exists false; split; [done|]; split; [done|intros _ H; discriminate H]|]. cbn [negb Z.eqb kTypeValue kTypeDeletion]. destruct Hsc as [[H _]|(_ & w & ew & _ & Ew & _ & _ & Hk & _)]; [done|]. destruct (entry_facts w ew Ew) as (_ & Huw & _). change (db_saved_key d1) with (db_saved_key d). rewrite Hk. rewrite (cmp_total _ _ Hue Huw). cbn [mbind outcome_bind].
    eexists. split; [done|]. split; [intros H; split; [done|lia]|intros H _; lia]. }
  destruct Hstop as (stop & -> & Hst1 & Hst2). cbn [mbind outcome_bind]. destruct stop.
  - destruct (Hst1 eq_refl) as [-> Hlt]. exists kTypeValue, d1, (S i). split_and!; try first [done|exact Hd1|lia]. intros _ k e' Hk Ek. destruct (entry_facts k e' Ek) as (_ & Huk & _). destruct Hsc as [[H _]|(_ & w & ew & _ & Ew & _ & _ & Hkey & _)]; [done|]. change (db_saved_key d1) with (db_saved_key d). rewrite Hkey in Hlt |- *. destruct (entry_facts w ew Ew) as (_ & Huw & _).
    apply (cmp_le_lt (user e') (user e) (user ew)); [done|done|done| |done]. apply (user_order_le k i); [lia|done|done].
  - destruct (scan_seen i b vt _ _ e Hi Hsc Ei Hseen (Hst2 eq_refl)) as [Sd Sv]. destruct (Z.eqb_spec (type_of e.1) kTypeDeletion) as [Ht|Ht].
    + rewrite Ht. apply (Hcont kTypeDeletion (set_saved_value [] (set_saved_key [] d1))); [exact Hd1|done|done|by apply Sd].
    + assert (Htv : type_of e.1 = kTypeValue) by (destruct (type_cases i e Ei); done). change (db_iter d1) with (db_iter d). destruct (cur_entry (db_iter d) i e Hat Ei) as [-> ->]. cbn [mbind outcome_bind]. destruct (ivalid_user e.1 Hiv) as [-> _]. cbn [mbind outcome_bind]. rewrite Htv. apply (Hcont kTypeValue (set_saved_value e.2 (set_saved_key (user e) d1))); [exact Hd1|done|done|by apply Sv].
Qed.

(** From just before [b]. *)
Lemma FindPrev_spec b d : (b <= n)%nat -> fine d -> db_direction d = kReverse -> iat (db_iter d) (pred_index es b) -> exists d', FindPrevUserEntry ucmp s fuel d = Done d' /\ db_at d' (pred_index V (rank b)).
Proof.
  intros Hb Hd Hdir Hat. unfold FindPrevUserEntry. rewrite bool_decide_true by done. rewrite (cur_valid _ _ Hat).
  assert (Hend : forall d0, fine d0 -> iat (db_iter d0) n \/ True -> (exists k, iat (db_iter d0) k) -> (forall k, (0 <= k < b)%nat -> live_at k = false) -> db_at (set_direction kForward (set_saved_value [] (set_saved_key [] (set_valid false d0)))) (pred_index V (rank b))).
  { intros d0 Hd0 _ Hk Hno. split; [exact Hd0|]. right. split; [|done]. rewrite (rank_gap 0 b) by (done || lia). unfold rank. rewrite take_0. done. }
  destruct b as [|i]; cbn [pred_index] in Hat |- *.
  - rewrite bool_decide_false by lia. cbn [mbind outcome_bind]. rewrite Z.eqb_refl. eexists. split; [done|]. apply Hend; [done|by right|by exists n|]. intros k Hk. lia.
  - rewrite bool_decide_true by lia. destruct (find_prev_spec (S i) Hb fuel i d kTypeDeletion) as (vt & d' & r & -> & H1 & H2 & H3 & H4 & H5 & H6 & H7); [lia|lia|done|done|left; split; [done|]; intros k Hk; lia|]. cbn [mbind outcome_bind]. destruct H5 as [[-> Hno]|(-> & w & e & Hw & Ew & Hse & Ht & Hk & Hv & Hun & Hli)].
    + rewrite Z.eqb_refl. eexists. split; [done|]. apply Hend; [done|by right|by exists (pred_index es r)|]. rewrite (H6 eq_refl) in Hno. intros k Hk. by apply Hno.
    + cbn [Z.eqb kTypeValue kTypeDeletion]. eexists. split; [done|]. specialize (H7 eq_refl). assert (Hl : live_at w = true).
      { apply (live_iff w e Ew). split_and!; [done|done|]. intros j e' Hj Ej Hse' Heq. destruct (decide (r <= j)%nat) as [Hr|Hr]; [rewrite (Hun j e') in Hse' by (done || lia); done|]. pose proof (H7 j e' ltac:(lia) Ej). rewrite Hk in *. lia. }
      assert (Hrank : rank (S i) = S (rank w)).
      { rewrite <- (Nat.add_1_r (rank w)). pose proof (rank_S w e Ew) as Hrs. rewrite Hl in Hrs. rewrite <- Hrs. apply rank_gap; [lia|]. intros k Hk'. destruct (live_at k) eqn:El; [|done]. destruct (lookup_lt_is_Some_2 es k) as [ek Ek]; [lia|]. pose proof (Hli k ek ltac:(lia) Ek El) as Heq. pose proof (proj1 (live_iff k ek Ek) El) as (_ & _ & Hnew). exfalso. apply (Hnew w e ltac:(lia) Ew Hse).
        destruct (entry_facts w e Ew) as (_ & Huw & _), (entry_facts k ek Ek) as (_ & Huk & _). by apply cmp_zero_sym. }
      rewrite Hrank. cbn [pred_index]. split; [exact H1|]. left. exists w, e. split_and!; [done|done|done|done|]. cbn [set_valid db_direction]. rewrite H2, Hdir. split_and!; [done|done|]. exists r. split_and!; [lia|exact H4|]. intros k e' Hk' Ek. by apply (Hun k).
Qed.

(** Back past the entries of the user key of [i]. *)
Lemma leave_key_spec i e : es !! i = Some e -> live_at i = true -> forall fuel j d, (j < fuel)%nat -> (j <= i)%nat -> fine d -> iat (db_iter d) j -> db_saved_key d = user e -> (forall k, (j <= k < i)%nat -> live_at k = false) ->
  exists d' b, leave_key ucmp fuel d = Done (bool_decide (b <> 0%nat), d') /\ (b <= i)%nat /\ fine d' /\ db_direction d' = db_direction d /\ iat (db_iter d') (pred_index es b) /\ (forall k, (b <= k < i)%nat -> live_at k = false).
Proof.
  intros Ei Hl. pose proof (lookup_lt_Some _ _ _ Ei) as Hin. destruct (entry_facts i e Ei) as (_ & Hue & _). induction fuel0 as [|fuel0 IH]; intros j d Hf Hj Hd Hat Hk Hno; [lia|]. cbn [leave_key]. destruct (cur_prev _ j Hat) as (it & -> & Hat'); [lia|]. cbn [mbind outcome_bind]. rewrite (cur_valid it _ Hat'). destruct j as [|j]; cbn [pred_index] in Hat' |- *.
  - rewrite bool_decide_false by lia. cbn [negb]. exists (set_iter it d), 0%nat. split_and!; first [done|exact Hd|lia].
  - rewrite bool_decide_true by lia. cbn [negb]. destruct (lookup_lt_is_Some_2 es j) as [ej Ej]; [lia|]. destruct (cur_entry it j ej Hat' Ej) as [-> _]. cbn [mbind outcome_bind]. destruct (entry_facts j ej Ej) as (Hvj & Huj & _). destruct (ivalid_user _ Hvj) as [-> _]. cbn [mbind outcome_bind]. change (db_saved_key (set_iter it d)) with (db_saved_key d). rewrite Hk. rewrite (cmp_total (user_part ej.1) (user e) Huj Hue). cbn [mbind outcome_bind].
    destruct (Z.ltb_spec (cmp (user_part ej.1) (user e)) 0) as [Hlt|Hge]; [exists (set_iter it d), (S j); split_and!; first [done|exact Hd|lia]|]. apply (IH j (set_iter it d)); [lia|lia|exact Hd|exact Hat'|done|]. intros k Hk'. destruct (decide (k = j)) as [->|]; [|apply Hno; lia].
    destruct (live_at j) eqn:El; [|done]. exfalso. pose proof (proj1 (live_iff j ej Ej) El) as (Hsj & _). pose proof (proj1 (live_iff i e Ei) Hl) as (_ & _ & Hnew). apply (Hnew j ej ltac:(lia) Ej Hsj). pose proof (user_order j i ej e ltac:(lia) Ej Ei). unfold user in *. lia.
Qed.

(** ** The database iterator is a cursor over the view *)

(** Where the inner iterator may stand. *)
Lemma at_some d p : db_at d p -> fine d /\ exists k, iat (db_iter d) k.
Proof.
  intros [Hd [(i & e & _ & _ & _ & _ & H)|(_ & _ & H)]]; [|done]. split; [done|]. destruct (db_direction d); [by exists i|]. destruct H as (_ & _ & r & _ & H & _). by exists (pred_index es r).
Qed.

Lemma first_from_spec m k d : (m <= n)%nat -> (k <= n)%nat -> fine d -> db_direction d = kForward -> iat (db_iter d) k -> ((k < n)%nat -> searching k m false (db_saved_key d)) -> (k = n -> rank m = length V) ->
  exists d', first_from ucmp s fuel d = Done d' /\ db_at d' (rank m).
Proof.
  intros Hm Hk Hd Hdir Hat Hse Hend. unfold first_from. rewrite (cur_valid _ _ Hat). case_bool_decide as Hlt.
  - unfold FindNextUserEntry. rewrite (cur_valid _ _ Hat), !bool_decide_true by done. cbn [andb]. apply (find_next_spec m Hm fuel k d false); [lia|done|done|done|done|by apply Hse].
  - eexists. split; [done|]. split; [exact Hd|]. right. split; [apply Hend; lia|]. split; [done|by exists k].
Qed.

(** Seeking a user key. *)
Lemma seek_view target : valid target -> exists k, AppendInternalKey [] (MkParsed target s kValueTypeForSeek) = Done k /\ ivalid k /\
  (forall i e, es !! i = Some e -> (i < lower_bound ic k es)%nat -> seen e = true -> cmp (user e) target < 0) /\ (forall i e, es !! i = Some e -> (lower_bound ic k es <= i)%nat -> 0 <= cmp (user e) target).
Proof.
  intros Ht. unfold AppendInternalKey. cbn [sequence type_ user_key]. destruct (pack_spec s kValueTypeForSeek Hs) as [-> Hn]; [done|]. cbn [mbind outcome_bind]. unfold PutFixed64. cbn [app]. set (num := s * 256 + kValueTypeForSeek) in *. destruct (ikey_parts target num Hn) as (_ & Hup & Htp). set (k := target ++ EncodeFixed64 num) in *.
  assert (Hk : ivalid k) by by apply valid_ikey_app. exists k. split_and!; [done|done| |].
  - intros i e Ei Hi Hse. pose proof (lower_bound_before ic k es i e Hi Ei) as Hlt. unfold icmp in Hlt. rewrite Hup, Htp in Hlt. change (user_part e.1) with (user e) in Hlt. destruct (Z.eqb_spec (cmp (user e) target) 0) as [E0|]; [|done]. exfalso. unfold LdbDbIter.seen in Hse. apply Z.leb_le in Hse. rewrite Z.shiftr_div_pow2 in Hse by lia. change (2 ^ 8) with 256 in Hse.
    destruct (entry_facts i e Ei) as (_ & _ & Hty & _). assert (Hmod : type_of e.1 = tag_part e.1 mod 256) by (unfold type_of; apply (land_low_bits _ 8); lia). rewrite Hmod in Hty. unfold kTypeValue in Hty. pose proof (Z.div_mod (tag_part e.1) 256 ltac:(lia)). change kValueTypeForSeek with 1 in num. unfold num in Hlt. destruct (Z.ltb_spec (s * 256 + 1) (tag_part e.1)); [nia|]. destruct (Z.ltb_spec (tag_part e.1) (s * 256 + 1)); lia.
  - intros i e Ei Hi. destruct (entry_facts i e Ei) as (Hiv & Hue & _). assert (Hge : 0 <= ic e.1 k).
    { pose proof (lower_bound_le ic k es). destruct (lookup_lt_is_Some_2 es (lower_bound ic k es)) as [e0 E0]; [apply lookup_lt_Some in Ei; lia|]. pose proof (lower_bound_at ic k es e0 E0) as H0. destruct (decide (i = lower_bound ic k es)) as [->|Hne]; [congruence|]. destruct HE as [_ Hso]. assert (Hli : (lower_bound ic k es < i)%nat) by lia. pose proof (sorted_lookup _ _ Hso _ i e0 e Hli E0 Ei) as Hlt. cbn beta in Hlt.
      destruct (entry_facts _ e0 E0) as (Hiv0 & _). destruct (Z_lt_le_dec (ic e.1 k) 0) as [Hneg|]; [|done]. pose proof (cmp_lt_trans e0.1 e.1 k Hiv0 Hiv Hk Hlt Hneg). lia. }
    unfold icmp in Hge. rewrite Hup in Hge. change (user_part e.1) with (user e) in Hge. destruct (Z.eqb_spec (cmp (user e) target) 0); lia.
Qed.

Lemma rank_lower_bound k target : (k <= n)%nat -> (forall i e, es !! i = Some e -> (i < k)%nat -> seen e = true -> cmp (user e) target < 0) -> (forall i e, es !! i = Some e -> (k <= i)%nat -> 0 <= cmp (user e) target) -> rank k = lower_bound cmp target V.
Proof.
  intros Hk Hlt Hge. apply lower_bound_unique.
  - rewrite <- rank_end. apply rank_le. lia.
  - intros p x Hp Hx. destruct (view_inv p x Hx) as (i & e & Ei & Hl & Hr & ->). cbn [fst]. pose proof (proj1 (live_iff i e Ei) Hl) as (Hse & _). apply (Hlt i e Ei); [|done]. destruct (decide (i < k)%nat) as [|Hnl]; [done|]. pose proof (lookup_lt_Some _ _ _ Ei). pose proof (rank_le k i ltac:(lia)). lia.
  - intros x Hx. destruct (view_inv _ x Hx) as (i & e & Ei & Hl & Hr & ->). cbn [fst]. apply (Hge i e Ei). destruct (decide (k <= i)%nat) as [|Hnl]; [done|]. pose proof (rank_lt i k Hl ltac:(lia)). lia.
Qed.

Lemma db_next d p : db_at d p -> (p < length V)%nat -> exists d', db_Next ucmp s fuel d = Done d' /\ db_at d' (S p).
Proof.
  intros [Hd [(i & e & Ei & Hl & Hr & Hv & Hpos)|(-> & _)]] Hp; [|lia]. pose proof (lookup_lt_Some _ _ _ Ei) as Hi. assert (HS : rank (S i) = S p) by (rewrite (rank_S i e Ei), Hl; lia). unfold db_Next. rewrite Hv. destruct (db_direction d) eqn:Hdir.
  - destruct (cur_entry _ i e Hpos Ei) as [-> _]. cbn [mbind outcome_bind]. destruct (entry_facts i e Ei) as (Hiv & _). destruct (ivalid_user _ Hiv) as [-> _]. cbn [mbind outcome_bind]. unfold FindNextUserEntry. cbn [set_saved_key db_iter db_direction]. rewrite (cur_valid _ _ Hpos), Hdir, !bool_decide_true by done. cbn [andb]. rewrite <- HS.
    apply (find_next_spec (S i) ltac:(lia) fuel i); [lia|done|exact Hd|exact Hpos|exact Hdir|]. cbn [set_saved_key db_saved_key]. apply (search_past i i e Ei Hl); [lia|]. intros k e' Hk. lia.
  - destruct Hpos as (Hk & Hval & r & Hri & Hat & Hno). cbn [set_direction db_iter]. assert (Hmove : exists it, (if negb (vValid (db_iter d)) then vSeekToFirst (db_iter d) else vNext (db_iter d)) = Done it /\ iat it r).
    { rewrite (cur_valid _ _ Hat). destruct r as [|r]; cbn [pred_index] in *; [rewrite bool_decide_false by lia; cbn [negb]; by apply (cur_first _ n)|]. rewrite bool_decide_true by lia. cbn [negb]. apply (cur_next _ r Hat). lia. }
    destruct Hmove as (it & -> & Hat'). cbn [mbind outcome_bind]. rewrite (cur_valid it r Hat'), bool_decide_true by lia. cbn [negb]. unfold FindNextUserEntry. cbn [set_iter set_direction db_iter db_direction]. rewrite (cur_valid it r Hat'), !bool_decide_true by (done || lia). cbn [andb]. rewrite <- HS.
    apply (find_next_spec (S i) ltac:(lia) fuel r); [lia|lia|exact Hd|exact Hat'|done|]. cbn [set_iter set_direction db_saved_key]. rewrite Hk. by apply (search_past i r e Ei Hl).
Qed.

Lemma db_prev d p : db_at d p -> (p < length V)%nat -> exists d', db_Prev ucmp s fuel d = Done d' /\ db_at d' (pred_index V p).
Proof.
  intros [Hd [(i & e & Ei & Hl & Hr & Hv & Hpos)|(-> & _)]] Hp; [|lia]. pose proof (lookup_lt_Some _ _ _ Ei) as Hi. unfold db_Prev. rewrite Hv. destruct (db_direction d) eqn:Hdir.
  - rewrite (cur_valid _ _ Hpos), bool_decide_true by done. destruct (cur_entry _ i e Hpos Ei) as [-> _]. cbn [mbind outcome_bind]. destruct (entry_facts i e Ei) as (Hiv & _). destruct (ivalid_user _ Hiv) as [-> _]. cbn [mbind outcome_bind].
    destruct (leave_key_spec i e Ei Hl fuel i (set_saved_key (user_part e.1) d)) as (d' & b & -> & Hb & Hd' & Hdir' & Hat' & Hno); [lia|lia|exact Hd|exact Hpos|done|intros k Hk; lia|]. cbn [mbind outcome_bind]. assert (Hrb : rank b = p) by (rewrite <- Hr; symmetry; apply rank_gap; [lia|done]). case_bool_decide as Hb0.
    + rewrite <- Hrb. apply (FindPrev_spec b (set_direction kReverse d')); [lia|exact Hd'|done|exact Hat'].
    + assert (b = 0%nat) as -> by lia. eexists. split; [done|]. split; [exact Hd'|]. right. split; [|split; [done|by exists n]]. rewrite <- Hrb. unfold rank. rewrite take_0. done.
  - destruct Hpos as (Hk & Hval & r & Hri & Hat & Hno). assert (Hrr : rank r = p). { rewrite <- Hr. symmetry. apply rank_gap; [lia|]. intros k Hk'. destruct (live_at k) eqn:El; [|done]. destruct (lookup_lt_is_Some_2 es k) as [ek Ek]; [lia|]. pose proof (proj1 (live_iff k ek Ek) El) as (Hse & _). rewrite (Hno k ek Hk' Ek) in Hse. done. }
    rewrite <- Hrr. apply FindPrev_spec; [lia|done|done|done].
Qed.

Definition db_cursor : Cursor (Iterator0 := db_iterator ucmp s fuel) valid cmp V db_at.
Proof.
  split.
  - intros d p [_ [(i & e & Ei & Hl & Hr & _)|(-> & _)]]; [|done]. rewrite <- Hr, <- rank_end. apply rank_le. apply lookup_lt_Some in Ei. lia.
  - intros d p [_ [(i & e & Ei & Hl & Hr & Hv & _)|(-> & Hv & _)]]; cbn [vValid db_iterator]; rewrite Hv; symmetry; [|apply bool_decide_false; lia]. apply bool_decide_true. pose proof (view_at i e Ei Hl) as H. rewrite Hr in H. by apply lookup_lt_Some in H.
  - intros d p x [_ [(i & e & Ei & Hl & Hr & Hv & Hpos)|(-> & _)]] Hx; [|apply lookup_lt_Some in Hx; lia]. pose proof (view_at i e Ei Hl) as H. rewrite Hr, Hx in H. injection H as ->. cbn [vkey vvalue db_iterator fst snd]. unfold db_key, db_value. rewrite Hv. destruct (db_direction d).
    + destruct (cur_entry _ i e Hpos Ei) as [-> ->]. cbn [mbind outcome_bind]. destruct (entry_facts i e Ei) as (Hiv & _). destruct (ivalid_user _ Hiv) as [-> _]. done.
    + destruct Hpos as (-> & -> & _). done.
  - intros d p H. destruct (at_some d p H) as [[Hst _] [k Hk]]. cbn [vstatus db_iterator]. unfold db_status. rewrite Hst. cbn [ok]. by apply (cur_status _ k).
  - intros d p H. destruct (at_some d p H) as [Hd [k Hk]]. cbn [vSeekToFirst db_iterator]. unfold db_SeekToFirst. destruct (cur_first _ k Hk) as (it & -> & Hat). cbn [mbind outcome_bind]. change 0%nat with (rank 0). apply (first_from_spec 0 0); [lia|lia|exact Hd|done|exact Hat| |].
    + intros _. split; [done| |done|intros j Hj; lia]. intros j e Hj Ej Hse _ Hno. split; [lia|]. intros j' e' Hj'. apply Hno. lia.
    + intros E. rewrite <- rank_end. by rewrite <- E.
  - intros d p H. destruct (at_some d p H) as [Hd [k Hk]]. cbn [vSeekToLast db_iterator]. unfold db_SeekToLast. destruct (cur_last _ k Hk) as (it & -> & Hat). cbn [mbind outcome_bind]. rewrite <- pred_length, <- rank_end. apply (FindPrev_spec n); [done|exact Hd|done|]. cbn [set_iter db_iter]. by rewrite pred_length.
  - intros d p target H Ht. destruct (at_some d p H) as [Hd [k Hk]]. cbn [vSeek db_iterator]. unfold db_Seek. destruct (seek_view target Ht) as (key & -> & Hkey & Hlow & Hhigh). cbn [mbind outcome_bind]. destruct (cur_seek _ k key Hk Hkey) as (it & -> & Hat). cbn [mbind outcome_bind]. set (m := lower_bound ic key es) in *.
    assert (Hm : (m <= n)%nat) by apply lower_bound_le. rewrite <- (rank_lower_bound m target Hm Hlow Hhigh). apply (first_from_spec m m); [done|done|exact Hd|done|exact Hat| |intros ->; apply rank_end].
    intros _. split; [done| |done|intros j Hj; lia]. intros j e Hj Ej Hse _ Hno. split; [done|]. intros j' e' Hj' Ej' Hse' Heq. destruct (decide (m <= j')%nat) as [Hmj|Hmj]; [by apply (Hno j' e')|]. pose proof (Hlow j' e' Ej' ltac:(lia) Hse') as H1. pose proof (Hhigh j e Ej Hj) as H2.
    destruct (entry_facts j e Ej) as (_ & Huj & _), (entry_facts j' e' Ej') as (_ & Huj' & _). assert (cmp (user e) target < 0); [|lia]. apply (cmp_le_lt (user e) (user e') target); [done|done|done| |done]. pose proof (cmp_zero_sym _ _ Huj' Huj Heq). lia.
  - intros d p H Hp. cbn [vNext db_iterator]. by apply db_next.
  - intros d p H Hp. cbn [vPrev db_iterator]. by apply db_prev.
Qed.

Lemma new_db it k seed : iat it k -> exists d, new_DBIter it seed = Done d /\ db_at d (length V).
Proof.
  intros Hat. unfold new_DBIter. assert (Hseed : 0 < new_Random seed < 2147483647).
  { unfold new_Random. assert (Hl : Z.land seed 2147483647 = seed mod 2 ^ 31) by (apply (land_low_bits _ 31); lia). cbv zeta. rewrite Hl. pose proof (Z.mod_pos_bound seed (2 ^ 31) ltac:(lia)). destruct (Z.eqb_spec (seed mod 2 ^ 31) 0), (Z.eqb_spec (seed mod 2 ^ 31) 2147483647); cbn [orb]; lia. }
  destruct (period_spec _ Hseed) as (rnd & -> & Hr & _). cbn [mbind outcome_bind fst snd]. eexists. split; [done|]. pose proof (Z.mod_pos_bound rnd (2 ^ 21) ltac:(lia)). split; [split; [done|split; cbn; lia]|]. right. split_and!; [done|done|by exists k].
Qed.

(** ** The view has the newest updates *)

(** The lookup key of a user key at the snapshot. *)
Definition snapshot_key (u : list Z) : list Z := u ++ EncodeFixed64 (s * 256 + kValueTypeForSeek).

Lemma visible_seen i e u : es !! i = Some e -> visible (cmp := cmp) (snapshot_key u) e <-> cmp (user e) u = 0 /\ seen e = true.
Proof.
  intros Ei. destruct (entry_facts i e Ei) as (_ & _ & Hty & _). assert (Hn : 0 <= s * 256 + kValueTypeForSeek < 2 ^ 64) by (change kValueTypeForSeek with 1; change kMaxSequenceNumber with (2 ^ 56 - 1) in Hs; lia). destruct (ikey_parts u _ Hn) as (_ & Hup & Htp). unfold visible, snapshot_key. rewrite Hup, Htp. unfold LdbDbIter.seen. rewrite Z.leb_le, Z.shiftr_div_pow2 by lia. change (2 ^ 8) with 256.
  assert (Hmod : type_of e.1 = tag_part e.1 mod 256) by (unfold type_of; apply (land_low_bits _ 8); lia). rewrite Hmod in Hty. unfold kTypeValue in Hty. change kValueTypeForSeek with 1. pose proof (Z.div_mod (tag_part e.1) 256 ltac:(lia)). pose proof (Z.mod_pos_bound (tag_part e.1) 256 ltac:(lia)). unfold user. split; intros [H1 H2]; (split; [done|lia]).
Qed.

Lemma newest_iff i e u : es !! i = Some e -> valid u -> newest_in (cmp := cmp) (snapshot_key u) es e <-> cmp (user e) u = 0 /\ seen e = true /\ newest i e.
Proof.
  intros Ei Hu. destruct (entry_facts i e Ei) as (_ & Hue & _). destruct HE as [_ Hso]. assert (Htag : forall j k a b, (j < k)%nat -> es !! j = Some a -> es !! k = Some b -> cmp (user a) (user b) = 0 -> tag_part b.1 < tag_part a.1).
  { intros j k a b Hjk Ej Ek H0. pose proof (sorted_lookup _ _ Hso j k a b Hjk Ej Ek) as H. cbn beta in H. unfold icmp in H. unfold user in H0. rewrite H0 in H. cbn [Z.eqb] in H. destruct (Z.ltb_spec (tag_part b.1) (tag_part a.1)); [done|]. destruct (Z.ltb_spec (tag_part a.1) (tag_part b.1)); lia. }
  unfold newest_in. rewrite (visible_seen i e u Ei). split.
  - intros (_ & [H0 Hse] & Hmax). split_and!; [done|done|]. intros j e' Hj Ej Hse' Heq. destruct (entry_facts j e' Ej) as (_ & Huj & _). pose proof (Htag j i e' e Hj Ej Ei Heq). assert (cmp (user e') u = 0) by by apply (cmp_zero_l (user e') (user e) u). pose proof (Hmax e' ltac:(by apply list_elem_of_lookup_2 with j) (proj2 (visible_seen j e' u Ej) (conj ltac:(done) Hse'))). lia.
  - intros (H0 & Hse & Hnew). split_and!; [by apply list_elem_of_lookup_2 with i|done|done|]. intros e' Hin Hvis. apply list_elem_of_lookup in Hin as [j Ej]. apply (visible_seen j e' u Ej) in Hvis as [H0' Hse']. destruct (entry_facts j e' Ej) as (_ & Huj & _). assert (Heq : cmp (user e') (user e) = 0) by (apply (cmp_zero_l (user e') u (user e) Huj Hu Hue H0'); by apply cmp_zero_sym).
    destruct (Nat.lt_trichotomy j i) as [Hlt|[->|Hlt]]; [exfalso; by apply (Hnew j e' Hlt Ej Hse')|assert (e' = e) as -> by congruence; lia|]. pose proof (Htag i j e e' Hlt Ei Ej ltac:(by apply cmp_zero_sym)). lia.
Qed.

(** An entry is in the view just when it is the newest update, a value. *)
Lemma view_newest u v : valid u -> (u, v) ∈ V <-> exists e, u = user e /\ v = e.2 /\ newest_in (cmp := cmp) (snapshot_key u) es e /\ type_of e.1 = kTypeValue.
Proof.
  intros Hu. split.
  - intros Hin. apply list_elem_of_lookup in Hin as [p Hp]. destruct (view_inv p _ Hp) as (i & e & Ei & Hl & _ & [= -> ->]). pose proof (proj1 (live_iff i e Ei) Hl) as (Hse & Ht & Hnew). exists e. split_and!; [done|done| |done]. apply (newest_iff i e _ Ei Hu). split_and!; [by apply cmp_refl|done|done].
  - intros (e & -> & -> & Hne & Ht). pose proof Hne as [Hin _]. apply list_elem_of_lookup in Hin as [i Ei]. apply (newest_iff i e _ Ei Hu) in Hne as (_ & Hse & Hnew). apply list_elem_of_lookup_2 with (rank i). apply (view_at i e Ei). by apply (live_iff i e Ei).
Qed.
End Spec.
