(* ===== verification/LdbIterTheorems.v ===== *)
(** * LdbIterTheorems: merged iterators and the database iterator, the properties.

    Clients move an iterator in any order: to the ends, to a key, forward and
    backward.  What they see is compared with a walk on a list. *)

From Stdlib Require Import ZifyBool Sorting.Sorted.
From stdpp Require Import base tactics numbers list gmap strings sorting.
From S2P Require Import Prelude LdbCoding LdbLog LdbKey LdbKeySpec LdbSkip LdbTheorems LdbIter LdbTwoLevel LdbTableTheorems LdbSstTheorems LdbVersionSpec LdbVersionGet LdbMerge LdbDbIter.
Open Scope Z_scope.

(** ** Walks *)

Inductive iter_op : Type := OpFirst | OpLast | OpSeek (target : list Z) | OpNext | OpPrev.
Definition good_op (valid : list Z -> Prop) (op : iter_op) : Prop := match op with OpSeek t => valid t | _ => True end.

Section Walk.
Context {I : Type} `{!Iterator I}.

(** [Next] and [Prev] are called only where the iterator is valid. *)
Definition step_iter (op : iter_op) (it : I) : outcome I :=
  match op with
  | OpFirst => vSeekToFirst it
  | OpLast => vSeekToLast it
  | OpSeek t => vSeek t it
  | OpNext => if vValid it then vNext it else Done it
  | OpPrev => if vValid it then vPrev it else Done it
  end.
Definition observe (it : I) : outcome (option entry) := if vValid it then k ← vkey it; v ← vvalue it; Done (Some (k, v)) else Done None.
Fixpoint walk_iter (ops : list iter_op) (it : I) : outcome (list (option entry)) :=
  match ops with
  | [] => Done []
  | op :: ops => it ← step_iter op it; x ← observe it; rest ← walk_iter ops it; Done (x :: rest)
  end.

(** The same walk on the positions of a list. *)
Definition step_list (cmp : list Z -> list Z -> Z) (es : list entry) (op : iter_op) (i : nat) : nat :=
  match op with
  | OpFirst => 0%nat
  | OpLast => (length es - 1)%nat
  | OpSeek t => lower_bound cmp t es
  | OpNext => if bool_decide (i < length es)%nat then S i else i
  | OpPrev => if bool_decide (i < length es)%nat then pred_index es i else i
  end.
Fixpoint walk_list (cmp : list Z -> list Z -> Z) (es : list entry) (ops : list iter_op) (i : nat) : list (option entry) :=
  match ops with
  | [] => []
  | op :: ops => let i := step_list cmp es op i in (es !! i) :: walk_list cmp es ops i
  end.

Context {valid : list Z -> Prop} {cmp : list Z -> list Z -> Z} {es : list entry} {at_ : I -> nat -> Prop} `{CU : !Cursor valid cmp es at_}.

Lemma observe_spec it i : at_ it i -> observe it = Done (es !! i).
Proof.
  intros Hat. unfold observe. rewrite (cur_valid it i Hat). case_bool_decide as Hi; [|by rewrite lookup_ge_None_2 by lia]. destruct (lookup_lt_is_Some_2 es i Hi) as [e Ee]. destruct (cur_entry it i e Hat Ee) as [-> ->]. cbn [mbind outcome_bind]. rewrite Ee. by destruct e.
Qed.

Lemma step_cursor op it i : good_op valid op -> at_ it i -> exists it', step_iter op it = Done it' /\ at_ it' (step_list cmp es op i).
Proof.
  intros Hop Hat. destruct op; cbn [step_iter step_list]; [by apply (cur_first it i)|by apply (cur_last it i)|by apply (cur_seek it i)| |]; rewrite (cur_valid it i Hat); case_bool_decide as Hi; [by apply cur_next|by exists it|by apply cur_prev|by exists it].
Qed.

Lemma walk_cursor ops : forall it i, Forall (good_op valid) ops -> at_ it i -> walk_iter ops it = Done (walk_list cmp es ops i).
Proof.
  induction ops as [|op ops IH]; intros it i Hops Hat; [done|]. apply Forall_cons in Hops as [Hop Hops]. cbn [walk_iter walk_list]. destruct (step_cursor op it i Hop Hat) as (it' & -> & Hat'). cbn [mbind outcome_bind]. rewrite (observe_spec it' _ Hat'). cbn [mbind outcome_bind]. by rewrite (IH it' _ Hops Hat').
Qed.
End Walk.

(** ** The properties *)

Section Theorems.
Context {I : Type} `{!Iterator I} {ucmp : Comparator} {valid : list Z -> Prop} {cmp : list Z -> list Z -> Z} `{GC : !GoodComparator ucmp valid cmp}.

(** C11: Over children that each are a cursor over entries in order, with no key
    twice, the iterator that [NewMergingIterator] makes walks over all the entries in
    order: to the ends, to any key, forward and backward, in any sequence. *)
Theorem merging_iterator_exact (ess : list (list entry)) (M : list entry) (dat : nat -> I -> nat -> Prop) (its : list I) (ops : list iter_op) :
  merge_of (valid := valid) (cmp := cmp) ess M -> (forall j es, ess !! j = Some es -> Cursor valid cmp es (dat j)) -> length its = length ess ->
  (forall j it es, its !! j = Some it -> ess !! j = Some es -> exists k, dat j it k) -> Forall (good_op valid) ops ->
  exists x p, NewMergingIterator its = Done x /\ walk_iter (Iterator0 := merged_iter (Compare ucmp)) ops x = Done (walk_list cmp M ops p).
Proof.
  intros MO Hdat Hl Hits Hops. destruct (new_merged ess M dat MO Hdat its Hl Hits) as (x & p & E & Hx). exists x, p. split; [done|]. pose proof (merged_new_cursor ess M dat MO Hdat) as CU. by apply (walk_cursor (CU := CU)).
Qed.

(** C3: Over an iterator of internal keys in order, the database iterator at a
    snapshot walks over the view of the snapshot, in any sequence of moves; and the
    view has, for every user key, the newest update that the snapshot sees, unless
    it is a deletion. *)
Theorem db_iterator_exact (s : Z) (fuel : nat) (es : list entry) (iat : I -> nat -> Prop) (it : I) (k : nat) (seed : Z) (ops : list iter_op) :
  Cursor (valid_ikey valid) (icmp cmp) es iat -> good_entries (valid := valid) (cmp := cmp) es -> Forall (fun e : entry => zlen e.1 + zlen e.2 < 2 ^ 62) es -> 0 <= s <= kMaxSequenceNumber -> (S (length es) < fuel)%nat -> iat it k -> Forall (good_op valid) ops ->
  (exists d, new_DBIter it seed = Done d /\ walk_iter (Iterator0 := db_iterator ucmp s fuel) ops d = Done (walk_list cmp (user_view cmp s [] es) ops (length (user_view cmp s [] es)))) /\
  (forall u v, valid u -> (u, v) ∈ user_view cmp s [] es <-> exists e, u = user e /\ v = e.2 /\ newest_in (cmp := cmp) (snapshot_key s u) es e /\ type_of e.1 = kTypeValue).
Proof.
  intros CU HE Hsize Hs Hfuel Hat Hops. split; [|intros u v Hu; by apply (view_newest s fuel es HE Hsize Hs Hfuel)]. destruct (new_db (cmp := cmp) s fuel es iat Hfuel it k seed Hat) as (d & E & Hd). exists d. split; [done|].
  pose proof (db_cursor (ucmp := ucmp) s fuel es iat HE Hsize Hs Hfuel) as CD. by apply (walk_cursor (CU := CD)).
Qed.
End Theorems.

(** ** Example: two sorted runs *)

(** An iterator over a list. *)
Record ListIter : Type := MkListIter { li_items : list entry; li_pos : nat }.
#[local] Instance list_iterator : Iterator ListIter := MkIterator ListIter
  (fun it => bool_decide (li_pos it < length (li_items it))%nat)
  (fun it => Done (MkListIter (li_items it) 0))
  (fun it => Done (MkListIter (li_items it) (length (li_items it) - 1)))
  (fun target it => Done (MkListIter (li_items it) (lower_bound (icmp lex) target (li_items it))))
  (fun it => Done (MkListIter (li_items it) (S (li_pos it))))
  (fun it => Done (MkListIter (li_items it) (pred_index (li_items it) (li_pos it))))
  (fun it => e ← demand (li_items it !! li_pos it); Done e.1)
  (fun it => e ← demand (li_items it !! li_pos it); Done e.2)
  (fun _ => OK).
Definition list_at (es : list entry) (it : ListIter) (i : nat) : Prop := it = MkListIter es i /\ (i <= length es)%nat.
Lemma list_cursor es : Cursor (valid_ikey (Forall is_byte)) (icmp lex) es (list_at es).
Proof.
  split; intros it i.
  - by intros [-> Hi].
  - by intros [-> Hi].
  - intros e [-> Hi] He. cbn. by rewrite He.
  - done.
  - intros [-> Hi]. cbn. eexists. split; [done|]. split; [done|lia].
  - intros [-> Hi]. cbn. eexists. split; [done|]. split; [done|lia].
  - intros t [-> Hi] _. cbn. eexists. split; [done|]. split; [done|apply lower_bound_le].
  - intros [-> Hi] H. cbn. eexists. split; [done|]. split; [done|lia].
  - intros [-> Hi] H. cbn. eexists. split; [done|]. split; [done|]. destruct i; cbn; lia.
Qed.

(** The key [98] was written, deleted and written again. *)
Definition deletion_key (user : list Z) (seq : Z) : list Z := user ++ EncodeFixed64 (seq * 256).
Definition newer_run : list entry := [(version_key [97] 9, [1]); (version_key [98] 12, [2]); (deletion_key [98] 8, [])].
Definition older_run : list entry := [(version_key [98] 5, [3]); (version_key [99] 4, [4])].
Definition both_runs : list entry := [(version_key [97] 9, [1]); (version_key [98] 12, [2]); (deletion_key [98] 8, []); (version_key [98] 5, [3]); (version_key [99] 4, [4])].
Definition sample_walk : list iter_op := [OpFirst; OpNext; OpNext; OpPrev; OpPrev; OpNext; OpLast; OpPrev].

Lemma deletion_valid user seq : Forall is_byte user -> 0 <= seq < 2 ^ 50 -> valid_ikey (Forall is_byte) (deletion_key user seq).
Proof. intros Hu Hs. apply valid_ikey_app; [lia|done]. Qed.
Ltac run_key := first [apply version_key_valid | apply deletion_valid]; [byte_list|lia].

Lemma runs_merge : merge_of (valid := valid_ikey (Forall is_byte)) (cmp := icmp lex) [newer_run; older_run] both_runs.
Proof.
  split.
  - unfold both_runs, newer_run, older_run. cbn [concat app]. done.
  - unfold both_runs. sorted_list.
  - intros j es Ej. destruct j as [|[|j]]; cbn in Ej; [injection Ej as <-; unfold newer_run; sorted_list|injection Ej as <-; unfold older_run; sorted_list|done].
  - unfold both_runs. repeat (apply Forall_cons_2; [cbn [fst]; run_key|]). apply Forall_nil_2.
Qed.

Definition run_at (j : nat) : ListIter -> nat -> Prop := list_at (default [] ([newer_run; older_run] !! j)).

Lemma merging_iterator_exact_witness : exists x p, NewMergingIterator [MkListIter newer_run 0; MkListIter older_run 0] = Done x /\
  walk_iter (Iterator0 := merged_iter (Compare (InternalKeyComparator BytewiseComparator))) (OpSeek (version_key [98] 6) :: sample_walk) x = Done (walk_list (icmp lex) both_runs (OpSeek (version_key [98] 6) :: sample_walk) p).
Proof.
  apply (merging_iterator_exact (ucmp := InternalKeyComparator BytewiseComparator) (valid := valid_ikey (Forall is_byte)) (cmp := icmp lex) [newer_run; older_run] both_runs run_at).
  - exact runs_merge.
  - intros j es Ej. unfold run_at. rewrite Ej. apply list_cursor.
  - reflexivity.
  - intros j it es Hj Ej. unfold run_at. rewrite Ej. exists 0%nat. destruct j as [|[|j]]; cbn in Hj, Ej; [injection Hj as <-; injection Ej as <-|injection Hj as <-; injection Ej as <-|done]; (split; [done|lia]).
  - apply Forall_cons_2; [unfold good_op; run_key|]. unfold sample_walk. repeat (apply Forall_cons_2; [exact Logic.I|]). apply Forall_nil_2.
Defined.

Lemma runs_good : good_entries (valid := Forall is_byte) (cmp := lex) both_runs.
Proof.
  split; [|unfold both_runs; sorted_list]. unfold both_runs. repeat (apply Forall_cons_2; [split; [cbn [fst]; run_key|vm_compute; discriminate]|]). apply Forall_nil_2.
Qed.

(** At sequence number 10 the key [98] is deleted. *)
Lemma db_iterator_exact_witness : (exists d, new_DBIter (MkListIter both_runs 5) 7 = Done d /\
    walk_iter (Iterator0 := db_iterator BytewiseComparator 10 20) sample_walk d = Done [Some ([97], [1]); Some ([99], [4]); None; None; None; None; Some ([99], [4]); Some ([97], [1])]) /\
  ([98], [3]) ∉ user_view lex 10 [] both_runs.
Proof.
  destruct (db_iterator_exact (ucmp := BytewiseComparator) (valid := Forall is_byte) (cmp := lex) 10 20 both_runs (list_at both_runs) (MkListIter both_runs 5) 5 7 sample_walk (list_cursor both_runs) runs_good) as [(d & E & H) _].
  - unfold both_runs. repeat (apply Forall_cons_2; [vm_compute; reflexivity|]). apply Forall_nil_2.
  - split; vm_compute; discriminate.
  - cbn. lia.
  - split; [reflexivity|cbn; lia].
  - unfold sample_walk. repeat (apply Forall_cons_2; [exact Logic.I|]). apply Forall_nil_2.
  - split; [exists d; split; [exact E|rewrite H; vm_compute; reflexivity]|]. vm_compute. intros Hin. repeat (apply elem_of_cons in Hin as [Hin|Hin]; [discriminate Hin|]). by apply elem_of_nil in Hin.
Defined.

(** All together: the database iterator over the merged runs. *)
Example db_over_merged : (x ← NewMergingIterator [MkListIter newer_run 0; MkListIter older_run 0]; d ← new_DBIter x 7;
  walk_iter (Iterator0 := db_iterator (Iterator0 := merged_iter (Compare (InternalKeyComparator BytewiseComparator))) BytewiseComparator 20 20) sample_walk d) =
  Done [Some ([97], [1]); Some ([98], [2]); Some ([99], [4]); Some ([98], [2]); Some ([97], [1]); Some ([98], [2]); Some ([99], [4]); Some ([98], [2])].
Proof. vm_compute. reflexivity. Qed.
