(* ===== verification/LdbCompact.v ===== *)
(** * LdbCompact: compactions and their inputs (db/version_set.cc).

    A [Compaction] has the files of the version it was made for; pointers to files
    are files. *)

From Stdlib Require Import ZifyBool Sorting.Sorted.
From stdpp Require Import base tactics numbers list gmap strings sorting.
From S2P Require Import Prelude LdbCoding LdbLog LdbKey LdbKeySpec LdbIter LdbTable LdbEdit LdbVersion LdbVersionSpec.
Open Scope Z_scope.

Record Compaction : Type := MkCompaction {
  level_ : Z;
  max_output_file_size_ : Z;
  (** [input_version_->files_] *)
  input_version_ : list Files;
  edit_ : VersionEdit;
  inputs_0 : Files;
  inputs_1 : Files;
  grandparents_ : Files;
  grandparent_index_ : Z;
  seen_key_ : bool;
  overlapped_bytes_ : Z;
  level_ptrs_ : list Z;
}.
Definition set_inputs (i0 i1 : Files) (c : Compaction) : Compaction :=
  MkCompaction (level_ c) (max_output_file_size_ c) (input_version_ c) (edit_ c) i0 i1 (grandparents_ c) (grandparent_index_ c) (seen_key_ c) (overlapped_bytes_ c) (level_ptrs_ c).
Definition set_grandparents (gs : Files) (c : Compaction) : Compaction :=
  MkCompaction (level_ c) (max_output_file_size_ c) (input_version_ c) (edit_ c) (inputs_0 c) (inputs_1 c) gs (grandparent_index_ c) (seen_key_ c) (overlapped_bytes_ c) (level_ptrs_ c).
Definition set_edit (e : VersionEdit) (c : Compaction) : Compaction :=
  MkCompaction (level_ c) (max_output_file_size_ c) (input_version_ c) e (inputs_0 c) (inputs_1 c) (grandparents_ c) (grandparent_index_ c) (seen_key_ c) (overlapped_bytes_ c) (level_ptrs_ c).
Definition set_progress (i : Z) (seen : bool) (overlapped : Z) (c : Compaction) : Compaction :=
  MkCompaction (level_ c) (max_output_file_size_ c) (input_version_ c) (edit_ c) (inputs_0 c) (inputs_1 c) (grandparents_ c) i seen overlapped (level_ptrs_ c).
Definition set_ptrs (ptrs : list Z) (c : Compaction) : Compaction :=
  MkCompaction (level_ c) (max_output_file_size_ c) (input_version_ c) (edit_ c) (inputs_0 c) (inputs_1 c) (grandparents_ c) (grandparent_index_ c) (seen_key_ c) (overlapped_bytes_ c) ptrs.

Section Compactions.
(** [icmp_.user_comparator()] and [options_->max_file_size]. *)
Context (ucmp : Comparator) (max_file_size : Z).

Definition new_Compaction (level : Z) (version : list Files) : Compaction :=
  MkCompaction level (MaxFileSizeForLevel max_file_size level) version new_VersionEdit [] [] [] 0 false 0 (replicate (Z.to_nat kNumLevels) 0).

Definition IsTrivialMove (c : Compaction) : bool :=
  (zlen (inputs_0 c) =? 1) && (zlen (inputs_1 c) =? 0) && (TotalFileSize (grandparents_ c) <=? MaxGrandParentOverlapBytes max_file_size).

Definition delete_files (level : Z) (files : Files) (e : VersionEdit) : VersionEdit := fold_left (fun e f => DeleteFile level (number f) e) files e.
Definition AddInputDeletions (c : Compaction) (e : VersionEdit) : VersionEdit := delete_files (level_ c + 1) (inputs_1 c) (delete_files (level_ c) (inputs_0 c) e).

(** ** Questions asked during a compaction *)

(** The loop over the files of a level: whether the key is in the range of one,
    and the new [level_ptrs_[lvl]]. *)
Fixpoint scan_level (fuel : nat) (files : Files) (user : list Z) (ptr : Z) : outcome (bool * Z) :=
  match fuel with
  | O => NoFuel
  | S fuel =>
    if ptr <? zlen files then
      f ← demand (files !! Z.to_nat ptr);
      l ← ExtractUserKey (largest f);
      r ← Compare ucmp user l;
      if r <=? 0 then
        s ← ExtractUserKey (smallest f);
        r ← Compare ucmp user s;
        Done (0 <=? r, ptr)
      else scan_level fuel files user (ptr + 1)
    else Done (false, ptr)
  end.

Fixpoint base_level (fuel : nat) (version : list Files) (user : list Z) (lvl : Z) (ptrs : list Z) : outcome (bool * list Z) :=
  match fuel with
  | O => NoFuel
  | S fuel =>
    if lvl <? kNumLevels then
      files ← demand (version !! Z.to_nat lvl);
      ptr ← demand (ptrs !! Z.to_nat lvl);
      r ← scan_level (S (length files)) files user ptr;
      let ptrs := <[Z.to_nat lvl := r.2]> ptrs in
      if r.1 : bool then Done (false, ptrs) else base_level fuel version user (lvl + 1) ptrs
    else Done (true, ptrs)
  end.
Definition IsBaseLevelForKey (user : list Z) (c : Compaction) : outcome (bool * Compaction) :=
  r ← base_level (S (Z.to_nat kNumLevels)) (input_version_ c) user (level_ c + 2) (level_ptrs_ c);
  Done (r.1, set_ptrs r.2 c).

Fixpoint skip_grandparents (fuel : nat) (ikey : list Z) (c : Compaction) : outcome Compaction :=
  match fuel with
  | O => NoFuel
  | S fuel =>
    if grandparent_index_ c <? zlen (grandparents_ c) then
      f ← demand (grandparents_ c !! Z.to_nat (grandparent_index_ c));
      k ← ik_Encode (largest f);
      r ← internal_compare ucmp ikey k;
      if 0 <? r then
        let bytes := if seen_key_ c then s64 (u64 (overlapped_bytes_ c + file_size f)) else overlapped_bytes_ c in
        skip_grandparents fuel ikey (set_progress (grandparent_index_ c + 1) (seen_key_ c) bytes c)
      else Done c
    else Done c
  end.
Definition ShouldStopBefore (ikey : list Z) (c : Compaction) : outcome (bool * Compaction) :=
  c ← skip_grandparents (S (length (grandparents_ c))) ikey c;
  let c := set_progress (grandparent_index_ c) true (overlapped_bytes_ c) c in
  if MaxGrandParentOverlapBytes max_file_size <? overlapped_bytes_ c then Done (true, set_progress (grandparent_index_ c) true 0 c) else Done (false, c).

(** ** The inputs *)

Fixpoint range_from (files : Files) (small large : list Z) : outcome (list Z * list Z) :=
  match files with
  | [] => Done (small, large)
  | f :: files =>
    r ← ik_Compare ucmp (smallest f) small;
    let small := if r <? 0 then smallest f else small in
    r ← ik_Compare ucmp (largest f) large;
    range_from files small (if 0 <? r then largest f else large)
  end.
Definition GetRange (inputs : Files) : outcome (list Z * list Z) :=
  match inputs with
  | [] => Undef
  | f :: files => range_from files (smallest f) (largest f)
  end.
Definition GetRange2 (inputs1 inputs2 : Files) : outcome (list Z * list Z) := GetRange (inputs1 ++ inputs2).

Fixpoint largest_from (files : Files) (large : list Z) : outcome (list Z) :=
  match files with
  | [] => Done large
  | f :: files => r ← ik_Compare ucmp (largest f) large; largest_from files (if 0 <? r then largest f else large)
  end.
(** [None] is [return false]. *)
Definition FindLargestKey (files : Files) : outcome (option (list Z)) :=
  match files with
  | [] => Done None
  | f :: files => k ← largest_from files (largest f); Done (Some k)
  end.

Fixpoint boundary_file (files : Files) (largest_key : list Z) (best : option FileMetaData) : outcome (option FileMetaData) :=
  match files with
  | [] => Done best
  | f :: files =>
    r ← ik_Compare ucmp (smallest f) largest_key;
    boundary ← (if 0 <? r then
                  s ← ExtractUserKey (smallest f); l ← ExtractUserKey largest_key; r ← Compare ucmp s l; Done (r =? 0)
                else Done false);
    better ← (if boundary : bool then match best with None => Done true | Some b => r ← ik_Compare ucmp (smallest f) (smallest b); Done (r <? 0) end else Done false);
    boundary_file files largest_key (if better : bool then Some f else best)
  end.
Definition FindSmallestBoundaryFile (level_files : Files) (largest_key : list Z) : outcome (option FileMetaData) := boundary_file level_files largest_key None.

Fixpoint add_boundaries (fuel : nat) (level_files : Files) (largest_key : list Z) (files : Files) : outcome Files :=
  match fuel with
  | O => NoFuel
  | S fuel =>
    b ← FindSmallestBoundaryFile level_files largest_key;
    match b with
    | Some b => add_boundaries fuel level_files (largest b) (files ++ [b])
    | None => Done files
    end
  end.
(** Every file that is added begins after the ones before it. *)
Definition AddBoundaryInputs (level_files files : Files) : outcome Files :=
  k ← FindLargestKey files;
  match k with
  | None => Done files
  | Some k => add_boundaries (S (length level_files)) level_files k files
  end.

(** [SetupOtherInputs], with [compact_pointer_].  The sum of the sizes is an
    [int64_t]; it is modelled as wrapping, and the theorems hold whether or not
    the inputs are expanded. *)
Definition expand_inputs (version : list Files) (level : Z) (i0 i1 : Files) (small large all_start all_limit : list Z) : outcome (Files * Files * list Z * list Z * list Z * list Z) :=
  if bool_decide (i1 = []) then Done (i0, i1, small, large, all_start, all_limit)
  else
    expanded0 ← GetOverlappingInputs ucmp version level (Some all_start) (Some all_limit);
    level_files ← demand (version !! Z.to_nat level);
    expanded0 ← AddBoundaryInputs level_files expanded0;
    if (zlen i0 <? zlen expanded0) && (s64 (TotalFileSize i1 + TotalFileSize expanded0) <? ExpandedCompactionByteSizeLimit max_file_size) then
      new_range ← GetRange expanded0;
      expanded1 ← GetOverlappingInputs ucmp version (level + 1) (Some new_range.1) (Some new_range.2);
      if zlen expanded1 =? zlen i1 then
        all ← GetRange2 expanded0 expanded1;
        Done (expanded0, expanded1, new_range.1, new_range.2, all.1, all.2)
      else Done (i0, i1, small, large, all_start, all_limit)
    else Done (i0, i1, small, large, all_start, all_limit).

Definition SetupOtherInputs (c : Compaction) (pointers : list (list Z)) : outcome (Compaction * list (list Z)) :=
  let version := input_version_ c in
  level_files ← demand (version !! Z.to_nat (level_ c));
  i0 ← AddBoundaryInputs level_files (inputs_0 c);
  range ← GetRange i0;
  i1 ← GetOverlappingInputs ucmp version (level_ c + 1) (Some range.1) (Some range.2);
  all ← GetRange2 i0 i1;
  '(i0, i1, small, large, all_start, all_limit) ← expand_inputs version (level_ c) i0 i1 range.1 range.2 all.1 all.2;
  gs ← (if level_ c + 2 <? kNumLevels then GetOverlappingInputs ucmp version (level_ c + 2) (Some all_start) (Some all_limit) else Done (grandparents_ c));
  _ ← demand (pointers !! Z.to_nat (level_ c));
  k ← ik_Encode large;
  Done (set_edit (SetCompactPointer (level_ c) large (edit_ c)) (set_grandparents gs (set_inputs i0 i1 c)), <[Z.to_nat (level_ c) := k]> pointers).

(** The files up to the one with which their sizes reach the limit. *)
Fixpoint upto_limit (files : Files) (total limit : Z) : Files :=
  match files with
  | [] => []
  | f :: files => let total := u64 (total + file_size f) in if limit <=? total then [f] else f :: upto_limit files total limit
  end.
(** [None] is the null pointer. *)
Definition CompactRange (version : list Files) (level : Z) (begin end_ : option (list Z)) (pointers : list (list Z)) : outcome (option (Compaction * list (list Z))) :=
  inputs ← GetOverlappingInputs ucmp version level begin end_;
  if bool_decide (inputs = []) then Done None
  else
    let inputs := if 0 <? level then upto_limit inputs 0 (MaxFileSizeForLevel max_file_size level) else inputs in
    r ← SetupOtherInputs (set_inputs inputs [] (new_Compaction level version)) pointers;
    Done (Some r).

(** The first file after [compact_pointer_[level]]. *)
Fixpoint after_pointer (files : Files) (pointer : list Z) : outcome Files :=
  match files with
  | [] => Done []
  | f :: files =>
    after ← (if bool_decide (pointer = []) then Done true else k ← ik_Encode (largest f); r ← internal_compare ucmp k pointer; Done (0 <? r));
    if after : bool then Done [f] else after_pointer files pointer
  end.

(** What [Finalize] and the seeks have left in the version: [compaction_score_ >= 1],
    [compaction_level_], and [file_to_compact_] with its level. *)
Record CompactionHints : Type := MkHints { score_reached : bool; compaction_level_ : Z; file_to_compact_ : option (FileMetaData * Z) }.

Definition pick_inputs (version : list Files) (h : CompactionHints) (pointers : list (list Z)) : outcome (option (Z * Files)) :=
  if score_reached h then
    let level := compaction_level_ h in
    if (level <? 0) || (kNumLevels <=? level + 1) then Undef
    else
      files ← demand (version !! Z.to_nat level);
      pointer ← demand (pointers !! Z.to_nat level);
      picked ← after_pointer files pointer;
      picked ← match picked with [] => f ← demand (head files); Done [f] | _ => Done picked end;
      Done (Some (level, picked))
  else
    match file_to_compact_ h with
    | Some (f, level) => Done (Some (level, [f]))
    | None => Done None
    end.
Definition PickCompaction (version : list Files) (h : CompactionHints) (pointers : list (list Z)) : outcome (option (Compaction * list (list Z))) :=
  p ← pick_inputs version h pointers;
  match p with
  | None => Done None
  | Some (level, inputs) =>
    inputs ← (if level =? 0 then
                range ← GetRange inputs;
                inputs ← GetOverlappingInputs ucmp version 0 (Some range.1) (Some range.2);
                if bool_decide (inputs = []) then Undef else Done inputs
              else Done inputs);
    r ← SetupOtherInputs (set_inputs inputs [] (new_Compaction level version)) pointers;
    Done (Some r)
  end.
End Compactions.

(** * The inputs of compactions, and the levels below them. *)


Section Spec.
Context {ucmp : Comparator} {valid : list Z -> Prop} {cmp : list Z -> list Z -> Z} `{GC : !GoodComparator ucmp valid cmp}.
Abbreviation ic := (icmp cmp).
Abbreviation ivalid := (valid_ikey valid).
Abbreviation good_file := (good_file (valid := valid) (cmp := cmp)).
Abbreviation before := (before (cmp := cmp)).
Abbreviation apart := (apart (valid := valid) (cmp := cmp)).
#[local] Instance ic_ordered5 : Ordered (internal_compare ucmp) ivalid ic := internal_ordered.

Lemma ic_user a b : ic a b <= 0 -> cmp (user_part a) (user_part b) <= 0.
Proof. unfold icmp. destruct (Z.eqb_spec (cmp (user_part a) (user_part b)) 0); lia. Qed.

(** ** The levels below a compaction *)

(** The user key is in the range of the file. *)
Definition in_file (u : list Z) (f : FileMetaData) : Prop := 0 <= cmp u (user_part (smallest f)) /\ cmp u (user_part (largest f)) <= 0.

(** The files before [ptr] end before the key. *)
Definition ptr_ok (files : Files) (u : list Z) (ptr : Z) : Prop := 0 <= ptr <= zlen files /\ forall i f, (Z.of_nat i < ptr) -> files !! i = Some f -> 0 < cmp u (user_part (largest f)).

Lemma ptr_mono files u u' ptr : Forall good_file files -> valid u -> valid u' -> cmp u u' <= 0 -> ptr_ok files u ptr -> ptr_ok files u' ptr.
Proof.
  intros Hg Hu Hu' Hle [Hp H]. split; [done|]. intros i f Hi Ef. specialize (H i f Hi Ef). rewrite Forall_lookup in Hg. destruct (Hg i f Ef) as [_ F2 _]. destruct (ivalid_user _ F2) as [_ Hl]. pose proof (cmp_anti u (user_part (largest f)) Hu Hl). apply (cmp_anti u' _ Hu' Hl). apply (cmp_lt_le _ u _); [done|done|done|lia|done].
Qed.

Lemma scan_level_spec files u : apart files -> valid u -> forall fuel ptr, ptr_ok files u ptr -> zlen files - ptr < Z.of_nat fuel ->
  exists b ptr', scan_level ucmp fuel files u ptr = Done (b, ptr') /\ ptr_ok files u ptr' /\ (b = true <-> Exists (in_file u) files).
Proof.
  intros (Hg & Hso & _) Hu. rewrite Forall_lookup in Hg. induction fuel as [|fuel IH]; intros ptr [Hp Hb] Hf; [lia|]. cbn [scan_level].
  assert (Hbefore : forall i f, Z.of_nat i < ptr -> files !! i = Some f -> ~ in_file u f) by (intros i f Hi Ef [_ H]; specialize (Hb i f Hi Ef); lia).
  destruct (Z.ltb_spec ptr (zlen files)) as [Hlt|Hge].
  - destruct (lookup_lt_is_Some_2 files (Z.to_nat ptr)) as [f Ef]; [lia|]. rewrite Ef. cbn [demand mbind outcome_bind]. destruct (Hg _ f Ef) as [F1 F2 F3]. destruct (ivalid_user _ F1) as [E1 Hs]. destruct (ivalid_user _ F2) as [E2 Hl]. rewrite E2. cbn [mbind outcome_bind]. rewrite (cmp_total u _ Hu Hl). cbn [mbind outcome_bind]. destruct (Z.leb_spec (cmp u (user_part (largest f))) 0) as [Hle|Hgt].
    + rewrite E1. cbn [mbind outcome_bind]. rewrite (cmp_total u _ Hu Hs). cbn [mbind outcome_bind]. eexists _, ptr. split; [done|]. split; [done|]. rewrite Z.leb_le. split; [intros H; apply Exists_exists; exists f; split; [by apply list_elem_of_lookup_2 with (Z.to_nat ptr)|done]|].
      intros H. apply Exists_exists in H as (g & Hin & Hg'). apply list_elem_of_lookup in Hin as [i Ei]. destruct (Z_lt_le_dec (Z.of_nat i) ptr) as [Hi|Hi]; [exfalso; by apply (Hbefore i g)|]. destruct (decide (i = Z.to_nat ptr)) as [->|Hne]; [assert (g = f) as -> by congruence; apply Hg'|]. assert (Hlt2 : (Z.to_nat ptr < i)%nat) by lia. pose proof (sorted_lookup _ _ Hso _ i f g Hlt2 Ef Ei) as Hbf. unfold LdbVersionSpec.before in Hbf. destruct (Hg i g Ei) as [G1 _ _]. destruct (ivalid_user _ G1) as [_ Hgs].
      destruct Hg' as [Hge _]. pose proof (ic_user (smallest f) (largest f) F3). assert (cmp (user_part (largest f)) (user_part (smallest g)) <= 0) by (apply ic_user; lia). pose proof (cmp_anti u (user_part (smallest f)) Hu Hs). pose proof (cmp_anti (user_part (smallest f)) u Hs Hu). pose proof (cmp_anti u (user_part (smallest g)) Hu Hgs). pose proof (cmp_anti (user_part (smallest g)) u Hgs Hu).
      assert (cmp (user_part (smallest f)) u <= 0); [|lia]. apply (cmp_trans _ (user_part (smallest g)) u); [done|done|done| |lia]. by apply (cmp_trans _ (user_part (largest f)) _).
    + apply IH; [|lia]. split; [lia|]. intros i g Hi Ei. destruct (decide (i = Z.to_nat ptr)) as [->|Hne]; [assert (g = f) as -> by congruence; lia|]. apply (Hb i g); [lia|done].
  - eexists false, ptr. split; [done|]. split; [done|]. split; [done|]. intros H. apply Exists_exists in H as (g & Hin & Hg'). apply list_elem_of_lookup in Hin as [i Ei]. exfalso. apply (Hbefore i g); [|done|done]. apply lookup_lt_Some in Ei. lia.
Qed.

(** The pointers of the levels from [lvl] on. *)
Definition ptrs_ok (version : list Files) (u : list Z) (lvl : Z) (ptrs : list Z) : Prop :=
  length ptrs = Z.to_nat kNumLevels /\ forall i files ptr, lvl <= Z.of_nat i -> version !! i = Some files -> ptrs !! i = Some ptr -> ptr_ok files u ptr.
(** No file from that level on has the key in its range. *)
Definition absent_from (version : list Files) (u : list Z) (lvl : Z) : Prop := forall i files, lvl <= Z.of_nat i -> version !! i = Some files -> ~ Exists (in_file u) files.
Definition deep_apart (version : list Files) (lvl : Z) : Prop := length version = Z.to_nat kNumLevels /\ forall i files, lvl <= Z.of_nat i -> version !! i = Some files -> apart files.

Lemma base_level_spec version u lvl0 : deep_apart version lvl0 -> valid u -> forall fuel lvl ptrs, 0 <= lvl0 <= lvl -> ptrs_ok version u lvl0 ptrs -> Z.max 0 (kNumLevels - lvl) < Z.of_nat fuel ->
  exists b ptrs', base_level ucmp fuel version u lvl ptrs = Done (b, ptrs') /\ ptrs_ok version u lvl0 ptrs' /\ (b = true <-> absent_from version u lvl).
Proof.
  intros [Hlen Hap] Hu. induction fuel as [|fuel IH]; intros lvl ptrs Hlvl [Hpl Hp] Hf; [lia|].
  cbn [base_level]. destruct (Z.ltb_spec lvl kNumLevels) as [Hlt|Hge].
  - destruct (lookup_lt_is_Some_2 version (Z.to_nat lvl)) as [files Ef]; [lia|]. destruct (lookup_lt_is_Some_2 ptrs (Z.to_nat lvl)) as [ptr Eptr]; [lia|]. rewrite Ef, Eptr. cbn [demand mbind outcome_bind].
    destruct (scan_level_spec files u) with (fuel := S (length files)) (ptr := ptr) as (b & ptr' & -> & Hptr' & Hb); [apply (Hap (Z.to_nat lvl)); [lia|done]|done|apply (Hp (Z.to_nat lvl)); [lia|done|done]| |].
    { destruct (Hp (Z.to_nat lvl) files ptr ltac:(lia) Ef Eptr) as [Hr _]. lia. }
    cbn [mbind outcome_bind fst snd]. assert (Hp' : ptrs_ok version u lvl0 (<[Z.to_nat lvl := ptr']> ptrs)).
    { split; [by rewrite length_insert|]. intros i files' p Hi Ei Epi. apply list_lookup_insert_Some in Epi as [(<- & <- & _)|[Hne Epi]]; [by assert (files' = files) as -> by congruence|by apply (Hp i)]. }
    destruct b.
    + eexists false, _. split; [done|]. split; [done|]. split; [done|]. intros Ha. exfalso. apply (Ha (Z.to_nat lvl) files); [lia|done|]. by apply Hb.
    + destruct (IH (lvl + 1) _ ltac:(lia) Hp' ltac:(lia)) as (b & ptrs' & -> & Hp2 & Hb2). exists b, ptrs'. split; [done|]. split; [done|]. rewrite Hb2. split; intros Ha i fs Hi Ei; [|apply (Ha i); [lia|done]]. destruct (decide (i = Z.to_nat lvl)) as [->|]; [assert (fs = files) as -> by congruence; intros He; by apply Hb in He|]. apply (Ha i); [lia|done].
  - eexists true, ptrs. split; [done|]. split; [done|]. split; [|done]. intros _ i fs Hi Ei. apply lookup_lt_Some in Ei. lia.
Qed.

(** [IsBaseLevelForKey] is true just when no level below the output has the key. *)
Lemma base_for_key u c : deep_apart (input_version_ c) (level_ c + 2) -> 0 <= level_ c -> valid u -> ptrs_ok (input_version_ c) u (level_ c + 2) (level_ptrs_ c) ->
  exists b ptrs, IsBaseLevelForKey ucmp u c = Done (b, set_ptrs ptrs c) /\ ptrs_ok (input_version_ c) u (level_ c + 2) ptrs /\ (b = true <-> absent_from (input_version_ c) u (level_ c + 2)).
Proof.
  intros Hd Hl Hu Hp. unfold IsBaseLevelForKey. destruct (base_level_spec (input_version_ c) u (level_ c + 2) Hd Hu (S (Z.to_nat kNumLevels)) (level_ c + 2) (level_ptrs_ c)) as (b & ptrs & -> & Hp' & Hb); [lia|done|unfold kNumLevels; lia|]. cbn [mbind outcome_bind fst snd]. by exists b, ptrs.
Qed.

(** [ShouldStopBefore] always answers, and changes only its own progress. *)
Lemma skip_grandparents_spec ikey : ivalid ikey -> forall fuel c, Forall good_file (grandparents_ c) -> 0 <= grandparent_index_ c <= zlen (grandparents_ c) -> zlen (grandparents_ c) - grandparent_index_ c < Z.of_nat fuel ->
  exists i seen bytes, skip_grandparents ucmp fuel ikey c = Done (set_progress i seen bytes c) /\ 0 <= i <= zlen (grandparents_ c).
Proof.
  intros Hk. induction fuel as [|fuel IH]; intros c Hg Hi Hf; [lia|]. cbn [skip_grandparents]. assert (Hsame : c = set_progress (grandparent_index_ c) (seen_key_ c) (overlapped_bytes_ c) c) by by destruct c.
  destruct (Z.ltb_spec (grandparent_index_ c) (zlen (grandparents_ c))) as [Hlt|Hge]; [|eexists _, _, _; split; [by rewrite <- Hsame|lia]]. destruct (lookup_lt_is_Some_2 (grandparents_ c) (Z.to_nat (grandparent_index_ c))) as [f Ef]; [lia|]. rewrite Ef. cbn [demand mbind outcome_bind].
  pose proof Hg as Hg'. rewrite Forall_lookup in Hg'. destruct (Hg' _ f Ef) as [_ F2 _]. rewrite (ivalid_encode _ F2). cbn [mbind outcome_bind]. rewrite (cmp_total ikey _ Hk F2). cbn [mbind outcome_bind]. destruct (Z.ltb_spec 0 (ic ikey (largest f))); [|eexists _, _, _; split; [by rewrite <- Hsame|lia]].
  match goal with |- context [skip_grandparents ucmp fuel ikey ?c1] => destruct (IH c1) as (i & seen & bytes & -> & Hi'); [done|cbn; lia|cbn; lia|] end. exists i, seen, bytes. split; [by destruct c|done].
Qed.

Lemma should_stop_spec size ikey c : ivalid ikey -> Forall good_file (grandparents_ c) -> 0 <= grandparent_index_ c <= zlen (grandparents_ c) ->
  exists b i seen bytes, ShouldStopBefore ucmp size ikey c = Done (b, set_progress i seen bytes c) /\ 0 <= i <= zlen (grandparents_ c).
Proof.
  intros Hk Hg Hi. unfold ShouldStopBefore. destruct (skip_grandparents_spec ikey Hk (S (length (grandparents_ c))) c Hg Hi) as (i & seen & bytes & -> & Hi'); [lia|]. cbn [mbind outcome_bind]. case_match; [exists true|exists false]; eexists _, _, _; (split; [done|done]).
Qed.

(** ** The range of files *)

(** The range of keys of the files. *)
Definition tops (files : Files) (large : list Z) : Prop := (exists f, f ∈ files /\ large = largest f) /\ forall f, f ∈ files -> ic (largest f) large <= 0.
Definition bottoms (files : Files) (small : list Z) : Prop := (exists f, f ∈ files /\ small = smallest f) /\ forall f, f ∈ files -> ic small (smallest f) <= 0.

Lemma tops_valid files k : Forall good_file files -> tops files k -> ivalid k.
Proof. intros Hg [(f & Hf & ->) _]. rewrite Forall_forall in Hg. apply (Hg f Hf). Qed.
Lemma bottoms_valid files k : Forall good_file files -> bottoms files k -> ivalid k.
Proof. intros Hg [(f & Hf & ->) _]. rewrite Forall_forall in Hg. apply (Hg f Hf). Qed.

Lemma tops_one f : good_file f -> tops [f] (largest f).
Proof. intros [_ F2 _]. split; [exists f; split; [apply list_elem_of_here|done]|]. intros g ->%list_elem_of_singleton. rewrite cmp_refl by done. lia. Qed.
Lemma bottoms_one f : good_file f -> bottoms [f] (smallest f).
Proof. intros [F1 _ _]. split; [exists f; split; [apply list_elem_of_here|done]|]. intros g ->%list_elem_of_singleton. rewrite cmp_refl by done. lia. Qed.

Lemma tops_snoc files k f : Forall good_file (files ++ [f]) -> tops files k -> tops (files ++ [f]) (if 0 <? ic (largest f) k then largest f else k).
Proof.
  intros [Hg Hf]%Forall_app Ht. pose proof (tops_valid files k Hg Ht) as Hk. apply Forall_singleton in Hf as [_ F2 _]. destruct Ht as [(g & Hgin & Ek) Hle]. rewrite Forall_forall in Hg. pose proof (cmp_anti (largest f) k F2 Hk). destruct (Z.ltb_spec 0 (ic (largest f) k)) as [Hlt|Hge].
  - split; [exists f; split; [apply elem_of_app; right; apply list_elem_of_here|done]|]. intros x [Hx|Hx%list_elem_of_singleton]%elem_of_app; [|subst x; rewrite cmp_refl by done; lia]. apply (cmp_trans _ k); [apply (Hg x Hx)|done|done|by apply Hle|lia].
  - split; [exists g; split; [apply elem_of_app; by left|done]|]. intros x [Hx|Hx%list_elem_of_singleton]%elem_of_app; [by apply Hle|by subst x].
Qed.
Lemma bottoms_snoc files k f : Forall good_file (files ++ [f]) -> bottoms files k -> bottoms (files ++ [f]) (if ic (smallest f) k <? 0 then smallest f else k).
Proof.
  intros [Hg Hf]%Forall_app Ht. pose proof (bottoms_valid files k Hg Ht) as Hk. apply Forall_singleton in Hf as [F1 _ _]. destruct Ht as [(g & Hgin & Ek) Hle]. rewrite Forall_forall in Hg. pose proof (cmp_anti (smallest f) k F1 Hk). destruct (Z.ltb_spec (ic (smallest f) k) 0) as [Hlt|Hge].
  - split; [exists f; split; [apply elem_of_app; right; apply list_elem_of_here|done]|]. intros x [Hx|Hx%list_elem_of_singleton]%elem_of_app; [|subst x; rewrite cmp_refl by done; lia]. apply (cmp_trans _ k); [done|done|apply (Hg x Hx)|lia|by apply Hle].
  - split; [exists g; split; [apply elem_of_app; by left|done]|]. intros x [Hx|Hx%list_elem_of_singleton]%elem_of_app; [by apply Hle|subst x; pose proof (cmp_anti k (smallest f) Hk F1); lia].
Qed.

Lemma range_from_spec files : forall passed small large, Forall good_file (passed ++ files) -> bottoms passed small -> tops passed large ->
  exists small' large', range_from ucmp files small large = Done (small', large') /\ bottoms (passed ++ files) small' /\ tops (passed ++ files) large'.
Proof.
  induction files as [|f files IH]; intros passed small large Hg Hs Hl; [exists small, large; by rewrite app_nil_r|]. rewrite cons_middle, app_assoc in *. pose proof Hg as [Hg' _]%Forall_app. pose proof Hg' as [Hp Hf]%Forall_app. apply Forall_singleton in Hf as [F1 F2 _]. cbn [range_from].
  rewrite (ivalid_compare _ _ F1 (bottoms_valid _ _ Hp Hs)). cbn [mbind outcome_bind]. rewrite (ivalid_compare _ _ F2 (tops_valid _ _ Hp Hl)). cbn [mbind outcome_bind]. apply IH; [done|by apply bottoms_snoc|by apply tops_snoc].
Qed.
Lemma GetRange_spec files : files <> [] -> Forall good_file files -> exists small large, GetRange ucmp files = Done (small, large) /\ bottoms files small /\ tops files large.
Proof.
  destruct files as [|f files]; [done|]. intros _ Hg. cbn [GetRange]. pose proof Hg as [Hf _]%Forall_cons. apply (range_from_spec files [f]); [done|by apply bottoms_one|by apply tops_one].
Qed.

Lemma largest_from_spec files : forall passed large, Forall good_file (passed ++ files) -> tops passed large -> exists large', largest_from ucmp files large = Done large' /\ tops (passed ++ files) large'.
Proof.
  induction files as [|f files IH]; intros passed large Hg Hl; [exists large; by rewrite app_nil_r|]. rewrite cons_middle, app_assoc in *. pose proof Hg as [Hg' _]%Forall_app. pose proof Hg' as [Hp Hf]%Forall_app. apply Forall_singleton in Hf as [_ F2 _]. cbn [largest_from].
  rewrite (ivalid_compare _ _ F2 (tops_valid _ _ Hp Hl)). cbn [mbind outcome_bind]. apply IH; [done|by apply tops_snoc].
Qed.
Lemma FindLargestKey_spec files : files <> [] -> Forall good_file files -> exists large, FindLargestKey ucmp files = Done (Some large) /\ tops files large.
Proof.
  destruct files as [|f files]; [done|]. intros _ Hg. cbn [FindLargestKey]. pose proof Hg as [Hf _]%Forall_cons. destruct (largest_from_spec files [f] (largest f) Hg (tops_one f Hf)) as (k & -> & Hk). by exists k.
Qed.

(** ** Boundary files *)

(** The file begins with the user key with which the inputs end. *)
Definition boundary (k : list Z) (f : FileMetaData) : Prop := 0 < ic (smallest f) k /\ cmp (user_part (smallest f)) (user_part k) = 0.
Definition best_boundary (k : list Z) (files : Files) (best : option FileMetaData) : Prop :=
  match best with
  | None => forall g, g ∈ files -> ~ boundary k g
  | Some b => b ∈ files /\ boundary k b /\ forall g, g ∈ files -> boundary k g -> ic (smallest b) (smallest g) <= 0
  end.

Lemma best_snoc k files f best : Forall good_file (files ++ [f]) -> best_boundary k files best ->
  (~ boundary k f -> best_boundary k (files ++ [f]) best) /\
  (boundary k f -> best_boundary k (files ++ [f]) (if match best with None => true | Some b => ic (smallest f) (smallest b) <? 0 end then Some f else best)).
Proof.
  intros [Hg Hf]%Forall_app Hb. rewrite Forall_forall in Hg. apply Forall_singleton in Hf as [F1 _ _]. split; intros Hf.
  - destruct best as [b|]; [destruct Hb as (Hin & Hbb & Hmin); split_and!; [apply elem_of_app; by left|done|]|]; intros g [Hgin|Hgin%list_elem_of_singleton]%elem_of_app; [by apply Hmin|by subst g|by apply Hb|by subst g].
  - destruct best as [b|].
    + destruct Hb as (Hin & Hbb & Hmin). destruct (Hg b Hin) as [B1 _ _]. pose proof (cmp_anti (smallest f) (smallest b) F1 B1). pose proof (cmp_anti (smallest b) (smallest f) B1 F1). destruct (Z.ltb_spec (ic (smallest f) (smallest b)) 0).
      * split_and!; [apply elem_of_app; right; apply list_elem_of_here|done|]. intros g [Hgin|Hgin%list_elem_of_singleton]%elem_of_app Hgb; [|subst g; rewrite cmp_refl by done; lia]. apply (cmp_trans _ (smallest b)); [done|done|apply (Hg g Hgin)|lia|by apply Hmin].
      * split_and!; [apply elem_of_app; by left|done|]. intros g [Hgin|Hgin%list_elem_of_singleton]%elem_of_app Hgb; [by apply Hmin|subst g; lia].
    + split_and!; [apply elem_of_app; right; apply list_elem_of_here|done|]. intros g [Hgin|Hgin%list_elem_of_singleton]%elem_of_app Hgb; [by destruct (Hb g Hgin)|subst g; rewrite cmp_refl by done; lia].
Qed.

Lemma boundary_file_spec k files : ivalid k -> forall passed best, Forall good_file (passed ++ files) -> best_boundary k passed best ->
  exists best', boundary_file ucmp files k best = Done best' /\ best_boundary k (passed ++ files) best'.
Proof.
  intros Hk. induction files as [|f files IH]; intros passed best Hg Hb; [exists best; by rewrite app_nil_r|]. rewrite cons_middle, app_assoc in *. pose proof Hg as [Hg' _]%Forall_app. pose proof Hg' as [Hp Hf]%Forall_app. apply Forall_singleton in Hf as [F1 _ _]. destruct (ivalid_user _ F1) as [E1 Hs]. destruct (ivalid_user _ Hk) as [E2 Hu]. rewrite Forall_forall in Hp.
  destruct (best_snoc k passed f best Hg' Hb) as [Hno Hyes]. unfold boundary in Hno, Hyes. cbn [boundary_file]. rewrite (ivalid_compare _ _ F1 Hk). cbn [mbind outcome_bind]. destruct (Z.ltb_spec 0 (ic (smallest f) k)) as [Hgt|Hle]; cbn [mbind outcome_bind].
  - rewrite E1, E2. cbn [mbind outcome_bind]. rewrite (cmp_total _ _ Hs Hu). cbn [mbind outcome_bind]. destruct (Z.eqb_spec (cmp (user_part (smallest f)) (user_part k)) 0) as [E0|Hne]; cbn [mbind outcome_bind]; [|apply IH; [done|apply Hno; lia]]. specialize (Hyes (conj Hgt E0)).
    destruct best as [b|]; cbn [mbind outcome_bind]; [|by apply IH]. destruct Hb as (Hin & _). destruct (Hp b Hin) as [B1 _ _]. rewrite (ivalid_compare _ _ F1 B1). cbn [mbind outcome_bind]. by apply IH.
  - apply IH; [done|apply Hno; lia].
Qed.

(** Each boundary file begins after the key that it replaces. *)
Definition later_files (k : list Z) (files : Files) : nat := length (filter (fun f => (0 <? ic (smallest f) k) = true) files).
Lemma add_boundaries_spec level_files : Forall good_file level_files -> forall fuel k files, Forall good_file files -> tops files k -> (later_files k level_files < fuel)%nat ->
  exists added k', add_boundaries ucmp fuel level_files k files = Done (files ++ added) /\ (forall f, f ∈ added -> f ∈ level_files) /\ tops (files ++ added) k' /\ forall f, f ∈ level_files -> ~ boundary k' f.
Proof.
  intros Hg. induction fuel as [|fuel IH]; intros k files Hf Ht Hfuel; [lia|]. cbn [add_boundaries]. pose proof (tops_valid _ _ Hf Ht) as Hk. unfold FindSmallestBoundaryFile. destruct (boundary_file_spec k level_files Hk [] None Hg) as (best & -> & Hb); [intros g Hgin; by apply elem_of_nil in Hgin|]. cbn [mbind outcome_bind app] in *.
  destruct best as [b|]; [|exists [], k; rewrite app_nil_r; split_and!; [done|intros f Hin; by apply elem_of_nil in Hin|done|done]]. destruct Hb as (Hin & [Hb1 _] & _). pose proof Hg as Hg'. rewrite Forall_forall in Hg'. destruct (Hg' b Hin) as [B1 B2 B3].
  pose proof (cmp_anti (smallest b) k B1 Hk). assert (Hkb : ic k (largest b) < 0) by (apply (cmp_lt_le _ (smallest b)); [done|done|done|lia|done]). pose proof (cmp_anti (largest b) k B2 Hk). pose proof (cmp_anti k (largest b) Hk B2).
  assert (Hf' : Forall good_file (files ++ [b])) by (apply Forall_app; split; [done|apply Forall_singleton; by apply Hg']).
  pose proof (tops_snoc files k b Hf' Ht) as Ht'. destruct (Z.ltb_spec 0 (ic (largest b) k)); [|lia].
  destruct (IH (largest b) (files ++ [b]) Hf' Ht') as (added & k' & -> & Hadd & Htop & Hnone).
  { eapply Nat.lt_le_trans; [|apply Nat.lt_succ_r; exact Hfuel]. apply (filter_fewer _ _ level_files b); [done| | |].
    - intros g Hgin Hlt. destruct (Hg' g Hgin) as [G1 _ _]. apply Z.ltb_lt in Hlt. apply Z.ltb_lt. pose proof (cmp_anti (smallest g) (largest b) G1 B2). pose proof (cmp_anti (smallest g) k G1 Hk). assert (ic k (smallest g) < 0); [|lia]. apply (cmp_lt_trans _ (largest b)); [done|done|done|done|lia].
    - by apply Z.ltb_lt.
    - apply Z.ltb_ge. done. }
  exists (b :: added), k'. rewrite <- app_assoc in *. split_and!; [done| |done|done]. intros f [->|Hfa]%elem_of_cons; [done|by apply Hadd].
Qed.

Lemma AddBoundaryInputs_spec level_files files : Forall good_file level_files -> files <> [] -> Forall good_file files ->
  exists added k, AddBoundaryInputs ucmp level_files files = Done (files ++ added) /\ (forall f, f ∈ added -> f ∈ level_files) /\ tops (files ++ added) k /\ forall f, f ∈ level_files -> ~ boundary k f.
Proof.
  intros Hg Hne Hf. unfold AddBoundaryInputs. destruct (FindLargestKey_spec files Hne Hf) as (k & -> & Hk). cbn [mbind outcome_bind]. apply add_boundaries_spec; [done|done|done|]. unfold later_files. pose proof (length_filter (fun f => (0 <? ic (smallest f) k) = true) level_files). lia.
Qed.

(** ** The inputs from both levels *)

Section Inputs.
Context (version : list Files) (Hv : good_version (valid := valid) (cmp := cmp) version) (level : Z) (Hl : 0 <= level) (Hl1 : level + 1 < kNumLevels).
Context (files0 files1 : Files) (E0 : version !! Z.to_nat level = Some files0) (E1 : version !! Z.to_nat (level + 1) = Some files1) (size : Z).

Abbreviation within small large := (in_range (cmp := cmp) (Some (user_part small)) (Some (user_part large))).
(** Inputs from the level whose end is no boundary, and all the files of the next
    level in their range. *)
Record inputs_ok (i0 i1 : Files) (small large all_start all_limit : list Z) : Prop := {
  io_level : forall f, f ∈ i0 -> f ∈ files0;
  io_small : bottoms i0 small;
  io_large : tops i0 large;
  io_boundary : forall f, f ∈ files0 -> ~ boundary large f;
  io_next : i1 = filter (fun f => within small large f = true) files1;
  io_start : bottoms (i0 ++ i1) all_start;
  io_limit : tops (i0 ++ i1) all_limit;
}.

Lemma good_in i fs sub : version !! i = Some fs -> (forall f, f ∈ sub -> f ∈ fs) -> Forall good_file sub.
Proof. intros Ei Hsub. pose proof (gv_files _ Hv i fs Ei) as Hg. rewrite Forall_forall in *. intros f Hf. by apply Hg, Hsub. Qed.

Lemma next_inputs lvl files small large : 0 < lvl < kNumLevels -> version !! Z.to_nat lvl = Some files -> ivalid small -> ivalid large ->
  GetOverlappingInputs ucmp version lvl (Some small) (Some large) = Done (filter (fun f => within small large f = true) files).
Proof.
  intros Hlv Ef Hs Hla. destruct (GetOverlappingInputs_spec (ucmp := ucmp) version lvl files (Some small) (Some large)) as (inputs & b' & e' & -> & _ & _ & [-> _ _ Hsame _]); [lia|done|by apply (gv_files _ Hv _ _ Ef)|done|done|]. by destruct (Hsame ltac:(lia)) as [-> ->].
Qed.

(** From boundary-free inputs, the rest. *)
Lemma rest_ok i0 : i0 <> [] -> (forall f, f ∈ i0 -> f ∈ files0) -> (forall k, tops i0 k -> forall f, f ∈ files0 -> ~ boundary k f) ->
  exists small large i1 all_start all_limit, GetRange ucmp i0 = Done (small, large) /\ GetOverlappingInputs ucmp version (level + 1) (Some small) (Some large) = Done i1 /\
    GetRange2 ucmp i0 i1 = Done (all_start, all_limit) /\ inputs_ok i0 i1 small large all_start all_limit.
Proof.
  intros Hne Hin Hb. pose proof (good_in _ _ _ E0 Hin) as Hg. destruct (GetRange_spec i0 Hne Hg) as (small & large & Er & Hs & Hla). pose proof (next_inputs (level + 1) files1 small large ltac:(lia) E1 (bottoms_valid _ _ Hg Hs) (tops_valid _ _ Hg Hla)) as Ei1. set (i1 := filter _ files1) in Ei1.
  destruct (GetRange_spec (i0 ++ i1)) as (all_start & all_limit & Ea & Hst & Hli); [by destruct i0|apply Forall_app; split; [done|apply (good_in _ _ _ E1); by intros f [_ Hf]%list_elem_of_filter]|].
  exists small, large, i1, all_start, all_limit. split_and!; [done|done|done|]. split; [done|done|done|by apply Hb|done|done|done].
Qed.

Lemma tops_unique i0 k k' : Forall good_file i0 -> tops i0 k -> tops i0 k' -> ic k k' = 0.
Proof.
  intros Hg Hk Hk'. pose proof (tops_valid _ _ Hg Hk) as V. pose proof (tops_valid _ _ Hg Hk') as V'. destruct Hk as [(f & Hf & ->) Hle], Hk' as [(g & Hgin & ->) Hle']. specialize (Hle g Hgin). specialize (Hle' f Hf). pose proof (cmp_anti _ _ V V'). pose proof (cmp_anti _ _ V' V). lia.
Qed.
Lemma boundary_same k k' f : good_file f -> ivalid k -> ivalid k' -> ic k k' = 0 -> boundary k' f -> boundary k f.
Proof.
  intros [F1 _ _] Hk Hk' Ez [Hb1 Hb2]. destruct (ivalid_user _ F1) as [_ Hs], (ivalid_user _ Hk) as [_ Hu], (ivalid_user _ Hk') as [_ Hu']. assert (Euser : cmp (user_part k) (user_part k') = 0). { unfold icmp in Ez. destruct (Z.eqb_spec (cmp (user_part k) (user_part k')) 0); lia. }
  destruct (cmp_zero_l k k' (smallest f) Hk Hk' F1 Ez) as [Hlt Heq]. pose proof (cmp_anti k' (smallest f) Hk' F1). pose proof (cmp_anti (smallest f) k' F1 Hk'). pose proof (cmp_anti k (smallest f) Hk F1). pose proof (cmp_anti (smallest f) k F1 Hk). split; [lia|].
  apply (cmp_zero_sym _ _ Hu Hs). apply (cmp_zero_l _ _ _ Hu Hu' Hs Euser). by apply cmp_zero_sym.
Qed.

(** Adding the boundary files of a level. *)
Lemma boundary_inputs i0 : i0 <> [] -> (forall f, f ∈ i0 -> f ∈ files0) -> exists i0', AddBoundaryInputs ucmp files0 i0 = Done i0' /\ i0' <> [] /\ (forall f, f ∈ i0 -> f ∈ i0') /\ (forall f, f ∈ i0' -> f ∈ files0) /\ (forall k, tops i0' k -> forall f, f ∈ files0 -> ~ boundary k f).
Proof.
  intros Hne Hin. pose proof (good_in _ _ _ E0 Hin) as Hg. pose proof (good_in _ _ files0 E0 ltac:(done)) as Hg0. destruct (AddBoundaryInputs_spec files0 i0 Hg0 Hne Hg) as (added & k & -> & Hadd & Htop & Hnone). exists (i0 ++ added).
  assert (Hin' : forall f, f ∈ i0 ++ added -> f ∈ files0) by (intros f [Hf|Hf]%elem_of_app; auto). pose proof (good_in _ _ _ E0 Hin') as Hg'. split_and!; [done|by destruct i0|intros f Hf; apply elem_of_app; by left|done|].
  intros k' Hk' f Hf Hb. apply (Hnone f Hf). rewrite Forall_forall in Hg0. apply (boundary_same k k'); [by apply Hg0|by apply (tops_valid _ _ Hg')|by apply (tops_valid _ _ Hg')|by apply (tops_unique (i0 ++ added))|done].
Qed.

(** The files of the level in the whole range have those that there were. *)
Lemma range_has i0 i1 small large all_start all_limit b' e' inputs : inputs_ok i0 i1 small large all_start all_limit -> opt_valid (valid := valid) b' -> opt_valid (valid := valid) e' ->
  found_inputs (cmp := cmp) level files0 (Some (user_part all_start)) (Some (user_part all_limit)) b' e' inputs -> forall f, f ∈ i0 -> f ∈ inputs.
Proof.
  intros [Hin _ _ _ Hi1 [Hst1 Hst] [Hli1 Hli]] Hb He [-> Hlow Hrai _ _] f Hf. assert (Hg : Forall good_file (i0 ++ i1)). { apply Forall_app. split; [by apply (good_in _ _ _ E0)|]. apply (good_in _ _ _ E1). rewrite Hi1. by intros g [_ Hgin]%list_elem_of_filter. }
  pose proof (bottoms_valid _ all_start Hg (conj Hst1 Hst)) as Vs. pose proof (tops_valid _ all_limit Hg (conj Hli1 Hli)) as Vl. specialize (Hst f ltac:(apply elem_of_app; by left)). specialize (Hli f ltac:(apply elem_of_app; by left)). rewrite Forall_forall in Hg. destruct (Hg f ltac:(apply elem_of_app; by left)) as [F1 F2 F3].
  destruct (ivalid_user _ Vs) as [_ Us], (ivalid_user _ Vl) as [_ Ul], (ivalid_user _ F1) as [_ U1], (ivalid_user _ F2) as [_ U2]. apply ic_user in Hst, Hli, F3.
  apply list_elem_of_filter. split; [|by apply Hin]. unfold in_range, limit_of, start_of. destruct b' as [ub|]; [|done]. destruct e' as [ue|]; [|done]. cbn in Hlow, Hrai, Hb, He. apply andb_true_iff. split; [apply Z.leb_le|apply Z.leb_le].
  - pose proof (cmp_anti (user_part (largest f)) ub U2 Hb). pose proof (cmp_anti ub (user_part (largest f)) Hb U2). assert (cmp ub (user_part (largest f)) <= 0); [|lia]. apply (cmp_trans _ (user_part all_start)); [done..|]. by apply (cmp_trans _ (user_part (smallest f))).
  - apply (cmp_trans _ (user_part all_limit)); [done..| |done]. by apply (cmp_trans _ (user_part (largest f))).
Qed.

Lemma expand_spec i0 i1 small large all_start all_limit : i0 <> [] -> inputs_ok i0 i1 small large all_start all_limit ->
  exists i0' i1' small' large' all_start' all_limit', expand_inputs ucmp size version level i0 i1 small large all_start all_limit = Done (i0', i1', small', large', all_start', all_limit') /\
    (forall f, f ∈ i0 -> f ∈ i0') /\ inputs_ok i0' i1' small' large' all_start' all_limit' /\ (zlen i1' = zlen i1).
Proof.
  intros Hne Hok. assert (Hkeep : exists i0' i1' small' large' all_start' all_limit', Done (i0, i1, small, large, all_start, all_limit) = Done (i0', i1', small', large', all_start', all_limit') /\ (forall f, f ∈ i0 -> f ∈ i0') /\ inputs_ok i0' i1' small' large' all_start' all_limit' /\ (zlen i1' = zlen i1)) by by exists i0, i1, small, large, all_start, all_limit.
  unfold expand_inputs. case_bool_decide; [done|]. assert (Hg : Forall good_file (i0 ++ i1)). { apply Forall_app. split; [apply (good_in _ _ _ E0), Hok|]. apply (good_in _ _ _ E1). rewrite (io_next _ _ _ _ _ _ Hok). by intros g [_ Hgin]%list_elem_of_filter. }
  destruct (GetOverlappingInputs_spec (ucmp := ucmp) version level files0 (Some all_start) (Some all_limit)) as (inputs & b' & e' & -> & Hb & He & Hfound); [lia|done|by apply (good_in _ _ _ E0)|apply (bottoms_valid _ _ Hg), Hok|apply (tops_valid _ _ Hg), Hok|]. cbn [mbind outcome_bind]. rewrite E0. cbn [demand mbind outcome_bind].
  pose proof (range_has _ _ _ _ _ _ _ _ _ Hok Hb He Hfound) as Hhas. assert (Hine : inputs <> []) by (destruct i0 as [|f i0]; [done|]; intros ->; apply (elem_of_nil f), Hhas, list_elem_of_here).
  destruct (boundary_inputs inputs Hine) as (ex0 & -> & Hex & Hsub & Hlev & Hnb); [intros f; rewrite (fi_inputs _ _ _ _ _ _ _ Hfound); by intros [_ ?]%list_elem_of_filter|]. cbn [mbind outcome_bind].
  case_match; [|done]. destruct (rest_ok ex0 Hex Hlev Hnb) as (small' & large' & ex1 & start' & limit' & -> & E1' & E2' & Hok'). cbn [mbind outcome_bind fst snd]. rewrite E1'. cbn [mbind outcome_bind]. destruct (Z.eqb_spec (zlen ex1) (zlen i1)) as [Elen|]; [|done]. rewrite E2'. cbn [mbind outcome_bind fst snd].
  exists ex0, ex1, small', large', start', limit'. split_and!; [done|intros f Hf; by apply Hsub, Hhas|done|done].
Qed.

(** What [SetupOtherInputs] makes. *)
Record inputs_set (c c' : Compaction) (pointers pointers' : list (list Z)) : Prop := {
  is_kept : level_ c' = level_ c /\ input_version_ c' = input_version_ c /\ level_ptrs_ c' = level_ptrs_ c /\ grandparent_index_ c' = grandparent_index_ c;
  is_grand : kNumLevels <= level + 2 -> grandparents_ c' = grandparents_ c;
  is_more : forall f, f ∈ inputs_0 c -> f ∈ inputs_0 c';
  is_inputs : exists small large all_start all_limit, inputs_ok (inputs_0 c') (inputs_1 c') small large all_start all_limit /\
    (forall files2, level + 2 < kNumLevels -> version !! Z.to_nat (level + 2) = Some files2 -> grandparents_ c' = filter (fun f => within all_start all_limit f = true) files2) /\
    pointers' = <[Z.to_nat level := large]> pointers /\ edit_ c' = SetCompactPointer level large (edit_ c);
}.
Lemma setup_spec c pointers : level_ c = level -> input_version_ c = version -> inputs_0 c <> [] -> (forall f, f ∈ inputs_0 c -> f ∈ files0) -> length pointers = Z.to_nat kNumLevels ->
  exists c' pointers', SetupOtherInputs ucmp size c pointers = Done (c', pointers') /\ inputs_set c c' pointers pointers'.
Proof.
  intros El Ev Hne Hin Hp. unfold SetupOtherInputs. rewrite El, Ev, E0. cbn [demand mbind outcome_bind]. destruct (boundary_inputs (inputs_0 c) Hne Hin) as (i0 & -> & Hne0 & Hsub & Hlev & Hnb). cbn [mbind outcome_bind].
  destruct (rest_ok i0 Hne0 Hlev Hnb) as (small & large & i1 & start & limit & -> & E1' & E2' & Hok). cbn [mbind outcome_bind fst snd]. rewrite E1'. cbn [mbind outcome_bind]. rewrite E2'. cbn [mbind outcome_bind fst snd].
  destruct (expand_spec i0 i1 small large start limit Hne0 Hok) as (i0' & i1' & small' & large' & start' & limit' & -> & Hsub' & Hok' & _). cbn [mbind outcome_bind].
  assert (Hg : Forall good_file (i0' ++ i1')). { apply Forall_app. split; [apply (good_in _ _ _ E0), Hok'|]. apply (good_in _ _ _ E1). rewrite (io_next _ _ _ _ _ _ Hok'). by intros g [_ Hgin]%list_elem_of_filter. }
  assert (Hgs : exists gs, (if level + 2 <? kNumLevels then GetOverlappingInputs ucmp version (level + 2) (Some start') (Some limit') else Done (grandparents_ c)) = Done gs /\
    (forall files2, level + 2 < kNumLevels -> version !! Z.to_nat (level + 2) = Some files2 -> gs = filter (fun f => within start' limit' f = true) files2) /\ (kNumLevels <= level + 2 -> gs = grandparents_ c)).
  { destruct (Z.ltb_spec (level + 2) kNumLevels) as [Hlt|Hge]; [|exists (grandparents_ c); split_and!; [done|intros; lia|done]]. destruct (lookup_lt_is_Some_2 version (Z.to_nat (level + 2))) as [files2 E2]; [rewrite (gv_levels _ Hv); lia|]. exists (filter (fun f => within start' limit' f = true) files2). split_and!; [|by intros fs _ Efs; rewrite E2 in Efs; injection Efs as <-|lia].
    apply next_inputs; [lia|done|apply (bottoms_valid _ _ Hg), Hok'|apply (tops_valid _ _ Hg), Hok']. }
  destruct Hgs as (gs & -> & Hgs & Hgs'). cbn [mbind outcome_bind]. destruct (lookup_lt_is_Some_2 pointers (Z.to_nat level)) as [ptr Eptr]; [lia|]. rewrite Eptr. cbn [demand mbind outcome_bind].
  assert (Vl : ivalid large') by (apply (tops_valid i0'); [by apply Forall_app in Hg as [? _]|apply Hok']). rewrite (ivalid_encode _ Vl). cbn [mbind outcome_bind]. eexists _, _. split; [done|]. split; cbn [level_ input_version_ inputs_0 inputs_1 grandparents_ edit_ set_edit set_grandparents set_inputs].
  - done.
  - done.
  - intros f Hf. by apply Hsub', Hsub.
  - exists small', large', start', limit'. by split_and!.
Qed.
End Inputs.

(** ** Picking a compaction *)

Lemma after_pointer_spec pointer files : pointer = [] \/ ivalid pointer -> Forall good_file files ->
  exists picked, after_pointer ucmp files pointer = Done picked /\ (picked = [] \/ exists f, f ∈ files /\ picked = [f]).
Proof.
  intros Hp. induction files as [|f files IH]; intros Hg; [exists []; split; [done|by left]|]. apply Forall_cons in Hg as [[_ F2 _] Hg]. cbn [after_pointer].
  assert (Hafter : exists b : bool, (if bool_decide (pointer = []) then Done true else k ← ik_Encode (largest f); r ← internal_compare ucmp k pointer; Done (0 <? r)) = Done b).
  { case_bool_decide; [by eexists|]. destruct Hp as [|Hp]; [done|]. rewrite (ivalid_encode _ F2). cbn [mbind outcome_bind]. rewrite (cmp_total _ _ F2 Hp). by eexists. }
  destruct Hafter as [b ->]. cbn [mbind outcome_bind]. destruct b; [exists [f]; split; [done|right; exists f; split; [apply list_elem_of_here|done]]|]. destruct (IH Hg) as (picked & -> & [->|(g & Hgin & ->)]); [by exists []; split; [|left]|]. exists [g]. split; [done|]. right. exists g. split; [by apply list_elem_of_further|done].
Qed.

(** The level to compact, and that there is something to compact. *)
Definition hint_level (h : CompactionHints) : option Z := if score_reached h then Some (compaction_level_ h) else snd <$> file_to_compact_ h.
Definition hints_ok (version : list Files) (h : CompactionHints) : Prop :=
  (forall level, hint_level h = Some level -> 0 <= level /\ level + 1 < kNumLevels) /\
  (if score_reached h then version !! Z.to_nat (compaction_level_ h) <> Some []
   else forall f level files, file_to_compact_ h = Some (f, level) -> version !! Z.to_nat level = Some files -> f ∈ files).

Lemma pick_inputs_spec version h pointers : good_version (valid := valid) (cmp := cmp) version -> hints_ok version h -> length pointers = Z.to_nat kNumLevels -> Forall (fun k => k = [] \/ ivalid k) pointers ->
  match hint_level h with
  | None => pick_inputs ucmp version h pointers = Done None
  | Some level => exists files f, version !! Z.to_nat level = Some files /\ f ∈ files /\ pick_inputs ucmp version h pointers = Done (Some (level, [f]))
  end.
Proof.
  intros Hv [Hr Hh] Hl Hp. unfold hint_level in *. unfold pick_inputs. destruct (score_reached h).
  - specialize (Hr _ eq_refl). set (level := compaction_level_ h) in *. destruct (Z.ltb_spec level 0); [lia|]. destruct (Z.leb_spec kNumLevels (level + 1)); [lia|]. cbn [orb]. destruct (lookup_lt_is_Some_2 version (Z.to_nat level)) as [files Ef]; [rewrite (gv_levels _ Hv); lia|]. destruct (lookup_lt_is_Some_2 pointers (Z.to_nat level)) as [ptr Eptr]; [lia|].
    rewrite Ef, Eptr. cbn [demand mbind outcome_bind]. rewrite Forall_lookup in Hp. destruct (after_pointer_spec ptr files (Hp _ _ Eptr) (gv_files _ Hv _ _ Ef)) as (picked & -> & [->|(f & Hf & ->)]); cbn [mbind outcome_bind]; [|by exists files, f]. destruct files as [|f files]; [done|]. exists (f :: files), f. split_and!; [done|apply list_elem_of_here|done].
  - destruct (file_to_compact_ h) as [[f level]|]; [|done]. cbn [fmap option_fmap option_map snd] in *. specialize (Hr _ eq_refl). destruct (lookup_lt_is_Some_2 version (Z.to_nat level)) as [files Ef]; [rewrite (gv_levels _ Hv); lia|]. exists files, f. split_and!; [done|by apply (Hh f level)|done].
Qed.

(** A compaction that is ready to run. *)
Record picked_ok (version : list Files) (level : Z) (c : Compaction) : Prop := {
  pk_level : level_ c = level /\ input_version_ c = version;
  pk_start : level_ptrs_ c = replicate (Z.to_nat kNumLevels) 0 /\ grandparent_index_ c = 0;
  pk_some : inputs_0 c <> [];
  pk_inputs : exists files0 files1 small large all_start all_limit, version !! Z.to_nat level = Some files0 /\ version !! Z.to_nat (level + 1) = Some files1 /\
    inputs_ok files0 files1 (inputs_0 c) (inputs_1 c) small large all_start all_limit;
  pk_grand : Forall good_file (grandparents_ c);
}.

Lemma ready size version level inputs pointers files0 : good_version (valid := valid) (cmp := cmp) version -> 0 <= level -> level + 1 < kNumLevels -> version !! Z.to_nat level = Some files0 -> inputs <> [] -> (forall f, f ∈ inputs -> f ∈ files0) -> length pointers = Z.to_nat kNumLevels ->
  exists c pointers', SetupOtherInputs ucmp size (set_inputs inputs [] (new_Compaction size level version)) pointers = Done (c, pointers') /\ picked_ok version level c /\ (forall f, f ∈ inputs -> f ∈ inputs_0 c).
Proof.
  intros Hv Hl Hl1 E0 Hne Hin Hp. destruct (lookup_lt_is_Some_2 version (Z.to_nat (level + 1))) as [files1 E1]; [rewrite (gv_levels _ Hv); lia|].
  destruct (setup_spec version Hv level Hl Hl1 files0 files1 E0 E1 size (set_inputs inputs [] (new_Compaction size level version)) pointers) as (c & pointers' & E & [(K1 & K2 & K3 & K4) Hgr Hmore (small & large & st & li & Hok & Hgp & _)]); [done|done|done|done|done|]. exists c, pointers'. split; [done|]. split; [|done]. split.
  - done.
  - done.
  - destruct (io_small _ _ _ _ _ _ _ _ Hok) as [(f & Hf & _) _]. intros Hnil. rewrite Hnil in Hf. by apply elem_of_nil in Hf.
  - by exists files0, files1, small, large, st, li.
  - destruct (Z_lt_le_dec (level + 2) kNumLevels) as [Hlt|Hge].
    + destruct (lookup_lt_is_Some_2 version (Z.to_nat (level + 2))) as [files2 E2]; [rewrite (gv_levels _ Hv); lia|]. rewrite (Hgp files2 Hlt E2). pose proof (gv_files _ Hv _ _ E2) as Hg. rewrite Forall_forall in *. intros f [_ Hf]%list_elem_of_filter. by apply Hg.
    + rewrite (Hgr Hge). constructor.
Qed.

Lemma pick_compaction_spec size version h pointers : good_version (valid := valid) (cmp := cmp) version -> hints_ok version h -> length pointers = Z.to_nat kNumLevels -> Forall (fun k => k = [] \/ ivalid k) pointers ->
  match hint_level h with
  | None => PickCompaction ucmp size version h pointers = Done None
  | Some level => exists c pointers', PickCompaction ucmp size version h pointers = Done (Some (c, pointers')) /\ picked_ok version level c
  end.
Proof.
  intros Hv Hh Hl Hp. pose proof (pick_inputs_spec version h pointers Hv Hh Hl Hp) as Hpick. unfold PickCompaction. destruct Hh as [Hr _]. destruct (hint_level h) as [level|]; [|by rewrite Hpick]. specialize (Hr level eq_refl). destruct Hpick as (files & f & Ef & Hf & ->). cbn [mbind outcome_bind].
  assert (Hg : Forall good_file [f]) by (apply Forall_singleton; pose proof (gv_files _ Hv _ _ Ef) as Hg; rewrite Forall_forall in Hg; by apply Hg).
  assert (Hin : exists inputs, (if level =? 0 then range ← GetRange ucmp [f]; inputs ← GetOverlappingInputs ucmp version 0 (Some range.1) (Some range.2); (if bool_decide (inputs = []) then Undef else Done inputs) else Done [f]) = Done inputs /\ inputs <> [] /\ forall g, g ∈ inputs -> g ∈ files).
  { destruct (Z.eqb_spec level 0) as [->|]; [|exists [f]; split_and!; [done|done|by intros g ->%list_elem_of_singleton]]. destruct (GetRange_spec [f]) as (small & large & -> & Hs & Hla); [done|done|]. cbn [mbind outcome_bind fst snd].
    destruct (GetOverlappingInputs_spec (ucmp := ucmp) version 0 files (Some small) (Some large)) as (inputs & b' & e' & -> & Hb & He & [Hi Hlow Hrai _ _]); [unfold kNumLevels; lia|done|by apply (gv_files _ Hv _ _ Ef)|by apply (bottoms_valid _ _ Hg)|by apply (tops_valid _ _ Hg)|]. cbn [mbind outcome_bind].
    assert (Hne : f ∈ inputs). { rewrite Hi. apply list_elem_of_filter. split; [|done]. destruct Hs as [(x & ->%list_elem_of_singleton & ->) _], Hla as [(y & ->%list_elem_of_singleton & ->) _]. apply Forall_singleton in Hg as [F1 F2 F3]. destruct (ivalid_user _ F1) as [_ U1], (ivalid_user _ F2) as [_ U2]. apply ic_user in F3. unfold in_range, limit_of, start_of. destruct b' as [ub|]; [|done]. destruct e' as [ue|]; [|done]. cbn in Hlow, Hrai, Hb, He.
      apply andb_true_iff. split; apply Z.leb_le; [|by apply (cmp_trans _ (user_part (largest f)))]. pose proof (cmp_anti (user_part (largest f)) ub U2 Hb). pose proof (cmp_anti ub (user_part (largest f)) Hb U2). assert (cmp ub (user_part (largest f)) <= 0); [|lia]. by apply (cmp_trans _ (user_part (smallest f))). }
    rewrite bool_decide_false by (intros ->; by apply elem_of_nil in Hne). exists inputs. split_and!; [done|intros ->; by apply elem_of_nil in Hne|]. intros g. rewrite Hi. by intros [_ ?]%list_elem_of_filter. }
  destruct Hin as (inputs & -> & Hne & Hin). cbn [mbind outcome_bind]. destruct (ready size version level inputs pointers files Hv ltac:(lia) ltac:(lia) Ef Hne Hin Hl) as (c & pointers' & -> & Hok & _). cbn [mbind outcome_bind]. by exists c, pointers'.
Qed.
End Spec.
