(* ===== verification/LdbInputs.v ===== *)
(** * LdbInputs: iterators over the files of versions and compactions
    (db/version_set.cc).

    [Version::AddIterators] and [VersionSet::MakeInputIterator] make one iterator for
    a file of level 0 and one two-level iterator for the files of another level; the
    iterators of tables come from an interface. *)

From Stdlib Require Import ZifyBool Sorting.Sorted.
From stdpp Require Import base tactics numbers list gmap strings sorting.
From S2P Require Import Prelude LdbCoding LdbLog LdbKey LdbKeySpec LdbIter LdbTwoLevel LdbTable LdbEdit LdbVersion LdbVersionSpec LdbVersionGet LdbMerge LdbCompact.
Open Scope Z_scope.

(** [TableCache::NewIterator] for a file number and size, and [NewErrorIterator]. *)
Class TableIterators (TI : Type) : Type := {
  tc_NewIterator : ReadOptions -> Z -> Z -> outcome TI;
  ErrorIterator : Status -> TI;
}.

Section Model.
Context {TI : Type} `{!Iterator TI} `{!TableIterators TI} (ucmp : Comparator) (options : ReadOptions).
#[local] Hint Extern 0 (Iterator LevelFileNumIterator) => exact (level_iterator ucmp) : typeclass_instances.

Definition GetFileIterator (file_value : list Z) (arg : unit) : outcome (TI * unit) :=
  if negb (zlen file_value =? 16) then Done (ErrorIterator (Corruption "FileReader invoked with unexpected value"), arg)
  else
    n ← DecodeFixed64 file_value;
    size ← DecodeFixed64 (drop 8 file_value);
    it ← tc_NewIterator options n size;
    Done (it, arg).

(** The iterator of a table, or that of a level with enough fuel for its files. *)
Abbreviation concatenating := (TwoLevelIterator LevelFileNumIterator TI unit).
Inductive child : Type := OneTable (it : TI) | OneLevel (fuel : nat) (t : concatenating).
Definition on_child (f : TI -> outcome TI) (g : nat -> concatenating -> outcome concatenating) (x : child) : outcome child :=
  match x with
  | OneTable it => it ← f it; Done (OneTable it)
  | OneLevel fuel t => t ← g fuel t; Done (OneLevel fuel t)
  end.
Definition of_child {A} (f : TI -> A) (g : concatenating -> A) (x : child) : A := match x with OneTable it => f it | OneLevel _ t => g t end.
#[export] Instance child_iterator : Iterator child := MkIterator child
  (of_child vValid tl_Valid)
  (on_child vSeekToFirst (tl_SeekToFirst GetFileIterator))
  (on_child vSeekToLast (tl_SeekToLast GetFileIterator))
  (fun target => on_child (vSeek target) (fun fuel => tl_Seek GetFileIterator fuel target))
  (on_child vNext (tl_Next GetFileIterator))
  (on_child vPrev (tl_Prev GetFileIterator))
  (of_child vkey tl_key)
  (of_child vvalue tl_value)
  (of_child vstatus tl_status).

Definition NewConcatenatingIterator (files : Files) : outcome child :=
  t ← NewTwoLevelIterator (new_LevelFileNumIterator files) tt;
  Done (OneLevel (S (S (S (length files)))) t).

Fixpoint table_iterators (files : Files) : outcome (list child) :=
  match files with
  | [] => Done []
  | f :: files => it ← tc_NewIterator options (number f) (file_size f); rest ← table_iterators files; Done (OneTable it :: rest)
  end.
(** The iterators for the files of a level. *)
Definition level_iterators (level : Z) (files : Files) : outcome (list child) :=
  if bool_decide (files = []) then Done []
  else if level =? 0 then table_iterators files
  else it ← NewConcatenatingIterator files; Done [it].

Fixpoint add_levels (level : Z) (levels : list Files) : outcome (list child) :=
  match levels with
  | [] => Done []
  | files :: levels => its ← level_iterators level files; rest ← add_levels (level + 1) levels; Done (its ++ rest)
  end.
(** The iterators that are added. *)
Definition AddIterators (files_ : list Files) : outcome (list child) := if zlen files_ =? kNumLevels then add_levels 0 files_ else Undef.
End Model.
Arguments child TI : clear implicits.

(** [options] are made with [paranoid_checks]. *)
Definition MakeInputIterator {TI} `{!Iterator TI} `{!TableIterators TI} (ucmp : Comparator) (paranoid_checks : bool) (c : Compaction) : outcome (merged_iterator (child TI)) :=
  let options := MkReadOptions paranoid_checks false in
  let space := if level_ c =? 0 then zlen (inputs_0 c) + 1 else 2 in
  l0 ← level_iterators ucmp options (level_ c) (inputs_0 c);
  l1 ← level_iterators ucmp options (level_ c + 1) (inputs_1 c);
  if space <? zlen (l0 ++ l1) then Undef else NewMergingIterator (I := child TI) (Iterator0 := child_iterator ucmp options) (l0 ++ l1).

(** ** What the iterators show *)

Section Spec.
Context {ucmp : Comparator} {valid : list Z -> Prop} {cmp : list Z -> list Z -> Z} `{GC : !GoodComparator ucmp valid cmp}.
Abbreviation ic := (icmp cmp).
Abbreviation ivalid := (valid_ikey valid).
#[local] Instance inputs_ordered : Ordered (internal_compare ucmp) ivalid ic := internal_ordered.
Context {TI : Type} `{!Iterator TI} `{!TableIterators TI} (options : ReadOptions).

(** The iterator of a stored table is a cursor over its entries, at their end. *)
Class GoodTableIterators (stored : FileMetaData -> Prop) (contents : FileMetaData -> list entry) (tat : FileMetaData -> TI -> nat -> Prop) : Prop := {
  table_cursor_of f : stored f -> Cursor ivalid ic (contents f) (tat f);
  new_table_iterator opts f : stored f -> exists it, tc_NewIterator opts (number f) (file_size f) = Done it /\ tat f it (length (contents f));
}.
Context {stored : FileMetaData -> Prop} {contents : FileMetaData -> list entry} {tat : FileMetaData -> TI -> nat -> Prop} `{GT : !GoodTableIterators stored contents tat}.
Abbreviation good_table_file := (good_table_file (valid := valid) (cmp := cmp) (stored := stored) (contents := contents)).
Abbreviation entries_of := (entries_of (contents := contents)).
#[local] Hint Extern 0 (Iterator LevelFileNumIterator) => exact (level_iterator ucmp) : typeclass_instances.
#[local] Hint Extern 0 (Iterator (child TI)) => exact (child_iterator ucmp options) : typeclass_instances.
Abbreviation concatenating := (TwoLevelIterator LevelFileNumIterator TI unit).

Definition table_at (at_ : TI -> nat -> Prop) (x : child TI) (k : nat) : Prop := exists it, x = OneTable it /\ at_ it k.
Definition concat_at (fuel : nat) (at_ : concatenating -> nat -> Prop) (x : child TI) (k : nat) : Prop := exists t, x = OneLevel fuel t /\ at_ t k.

Lemma table_child es at_ : Cursor ivalid ic es at_ -> Cursor ivalid ic es (table_at at_).
Proof.
  intros C. split.
  - intros x k (it & -> & H). by apply (cur_range it).
  - intros x k (it & -> & H). by apply (cur_valid it).
  - intros x k e (it & -> & H) He. by apply (cur_entry it k).
  - intros x k (it & -> & H). by apply (cur_status it k).
  - intros x k (it & -> & H). destruct (cur_first it k H) as (it' & E & H'). cbn in E |- *. rewrite E. cbn [mbind outcome_bind]. eexists. split; [done|]. by exists it'.
  - intros x k (it & -> & H). destruct (cur_last it k H) as (it' & E & H'). cbn in E |- *. rewrite E. cbn [mbind outcome_bind]. eexists. split; [done|]. by exists it'.
  - intros x k target (it & -> & H) Ht. destruct (cur_seek it k target H Ht) as (it' & E & H'). cbn in E |- *. rewrite E. cbn [mbind outcome_bind]. eexists. split; [done|]. by exists it'.
  - intros x k (it & -> & H) Hk. destruct (cur_next it k H Hk) as (it' & E & H'). cbn in E |- *. rewrite E. cbn [mbind outcome_bind]. eexists. split; [done|]. by exists it'.
  - intros x k (it & -> & H) Hk. destruct (cur_prev it k H Hk) as (it' & E & H'). cbn in E |- *. rewrite E. cbn [mbind outcome_bind]. eexists. split; [done|]. by exists it'.
Qed.
Lemma concat_child fuel es at_ : Cursor (Iterator0 := two_level (GetFileIterator options) fuel) ivalid ic es at_ -> Cursor ivalid ic es (concat_at fuel at_).
Proof.
  intros C. split.
  - intros x k (t & -> & H). by apply (cur_range (Cursor := C) t).
  - intros x k (t & -> & H). by apply (cur_valid (Cursor := C) t).
  - intros x k e (t & -> & H) He. by apply (cur_entry (Cursor := C) t k).
  - intros x k (t & -> & H). by apply (cur_status (Cursor := C) t k).
  - intros x k (t & -> & H). destruct (cur_first (Cursor := C) t k H) as (t' & E & H'). cbn in E |- *. rewrite E. cbn [mbind outcome_bind]. eexists. split; [done|]. by exists t'.
  - intros x k (t & -> & H). destruct (cur_last (Cursor := C) t k H) as (t' & E & H'). cbn in E |- *. rewrite E. cbn [mbind outcome_bind]. eexists. split; [done|]. by exists t'.
  - intros x k target (t & -> & H) Ht. destruct (cur_seek (Cursor := C) t k target H Ht) as (t' & E & H'). cbn in E |- *. rewrite E. cbn [mbind outcome_bind]. eexists. split; [done|]. by exists t'.
  - intros x k (t & -> & H) Hk. destruct (cur_next (Cursor := C) t k H Hk) as (t' & E & H'). cbn in E |- *. rewrite E. cbn [mbind outcome_bind]. eexists. split; [done|]. by exists t'.
  - intros x k (t & -> & H) Hk. destruct (cur_prev (Cursor := C) t k H Hk) as (t' & E & H'). cbn in E |- *. rewrite E. cbn [mbind outcome_bind]. eexists. split; [done|]. by exists t'.
Qed.

(** ** A level *)

Record readable (level : Z) (files : Files) : Prop := {
  rd_tables : Forall good_table_file files;
  rd_range : Forall (fun f => 0 <= number f < 2 ^ 64 /\ 0 <= file_size f < 2 ^ 64) files;
  rd_distinct : NoDup (number <$> files);
  rd_apart : level <> 0 -> apart (valid := valid) (cmp := cmp) files;
}.

Lemma level_separated files : Forall good_table_file files -> apart (valid := valid) (cmp := cmp) files -> separated (valid := ivalid) (cmp := ic) (file_index files) (contents <$> files).
Proof.
  intros Ht (Hg & Hs & _). rewrite Forall_lookup in Ht. unfold file_index. split.
  - by rewrite !length_fmap.
  - intros i b Eb. rewrite list_lookup_fmap in Eb. destruct (files !! i) as [f|] eqn:Ef; [|done]. injection Eb as <-. destruct (tf_last _ (Ht i f Ef)) as [v Hv]. intros Hnil. rewrite Hnil in Hv. by apply elem_of_nil in Hv.
  - split; apply Forall_fmap, Forall_lookup; intros i f Ef; cbn; [apply (tf_file _ (Ht i f Ef))|]. eapply Forall_impl; [apply (ge_valid _ (tf_entries _ (Ht i f Ef)))|]. by intros e [? _].
  - intros i e b Ee Eb. rewrite list_lookup_fmap in Ee. rewrite list_lookup_fmap in Eb. destruct (files !! i) as [f|] eqn:Ef; [|done]. injection Ee as <-. injection Eb as <-. apply Forall_forall. intros d Hd. by apply (tf_to _ (Ht i f Ef)).
  - intros i j e b Ee Eb Hij. rewrite list_lookup_fmap in Ee. rewrite list_lookup_fmap in Eb. destruct (files !! i) as [f|] eqn:Ef; [|done]. destruct (files !! j) as [g|] eqn:Eg; [|done]. injection Ee as <-. injection Eb as <-. apply Forall_forall. intros d Hd. cbn. pose proof (sorted_lookup _ _ Hs i j f g Hij Ef Eg) as Hb. unfold before in Hb.
    pose proof (tf_from _ (Ht j g Eg) d Hd) as Hfrom. destruct (tf_file _ (Ht i f Ef)) as [_ F2 _]. destruct (tf_file _ (Ht j g Eg)) as [G1 _ _]. pose proof (ge_valid _ (tf_entries _ (Ht j g Eg))) as Hv. rewrite Forall_forall in Hv. apply (cmp_lt_le _ (smallest g)); [done|done|by apply (Hv d)|done|done].
Qed.

Lemma separated_sorted idx blks : separated (valid := ivalid) (cmp := ic) idx blks -> Forall (StronglySorted (fun a b => ic a.1 b.1 < 0)) blks -> StronglySorted (fun a b => ic a.1 b.1 < 0) (concat blks).
Proof.
  intros [Hlen Hne [Hvi Hvb] Hbelow Habove] Hs. assert (Hall : forall i j b b', (i < j)%nat -> blks !! i = Some b -> blks !! j = Some b' -> forall e e', e ∈ b -> e' ∈ b' -> ic e.1 e'.1 < 0).
  { intros i j b b' Hij Eb Eb' e e' He He'. destruct (lookup_lt_is_Some_2 idx i) as [x Ex]; [rewrite Hlen; by apply lookup_lt_Some in Eb|]. pose proof (Hbelow i x b Ex Eb) as H1. pose proof (Habove i j x b' Ex Eb' Hij) as H2. rewrite Forall_forall in H1. rewrite Forall_forall in H2. rewrite Forall_lookup in Hvi. rewrite Forall_lookup in Hvb. pose proof (Hvb i b Eb) as Hv1. pose proof (Hvb j b' Eb') as Hv2. rewrite Forall_forall in Hv1. rewrite Forall_forall in Hv2.
    apply (cmp_le_lt e.1 x.1 e'.1); [by apply Hv1|by apply (Hvi i)|by apply Hv2|by apply H1|by apply H2]. }
  clear -Hall Hs. induction blks as [|b blks IH]; [constructor|]. apply Forall_cons in Hs as [Hb Hs]. cbn [concat]. apply StronglySorted_app_2; [|done|].
  - intros e e' He He'. apply list_elem_of_In in He'. apply in_concat in He' as (b' & Hb' & He'). apply list_elem_of_In in Hb', He'. apply list_elem_of_lookup in Hb' as [j Ej]. by apply (Hall 0%nat (S j) b b' ltac:(lia) eq_refl Ej).
  - apply IH; [done|]. intros i j c c' Hij Ec Ec'. by apply (Hall (S i) (S j)); [lia|..].
Qed.

(** The states of any cursors over the same entries. *)
Definition any_at (es : list entry) (x : child TI) (k : nat) : Prop := exists at_, Cursor ivalid ic es at_ /\ at_ x k.
Lemma any_cursor es : Cursor ivalid ic es (any_at es).
Proof.
  split.
  - intros x k (at_ & C & H). by apply (cur_range x).
  - intros x k (at_ & C & H). by apply (cur_valid x).
  - intros x k e (at_ & C & H) He. by apply (cur_entry x k).
  - intros x k (at_ & C & H). by apply (cur_status x k).
  - intros x k (at_ & C & H). destruct (cur_first x k H) as (x' & E & H'). exists x'. split; [done|by exists at_].
  - intros x k (at_ & C & H). destruct (cur_last x k H) as (x' & E & H'). exists x'. split; [done|by exists at_].
  - intros x k target (at_ & C & H) Ht. destruct (cur_seek x k target H Ht) as (x' & E & H'). exists x'. split; [done|by exists at_].
  - intros x k (at_ & C & H) Hk. destruct (cur_next x k H Hk) as (x' & E & H'). exists x'. split; [done|by exists at_].
  - intros x k (at_ & C & H) Hk. destruct (cur_prev x k H Hk) as (x' & E & H'). exists x'. split; [done|by exists at_].
Qed.

(** An iterator that walks over entries in order. *)
Definition walks (x : child TI) (es : list entry) : Prop := (exists k, any_at es x k) /\ StronglySorted (fun a b => ic a.1 b.1 < 0) es.

Lemma table_iterators_spec files : Forall good_table_file files -> exists its, table_iterators options files = Done its /\ Forall2 walks its (contents <$> files).
Proof.
  induction files as [|f files IH]; intros Hg; [exists []; split; [done|constructor]|]. apply Forall_cons in Hg as [Hf Hg]. cbn [table_iterators]. destruct (new_table_iterator options f (tf_stored _ Hf)) as (it & -> & Hat). destruct (IH Hg) as (its & -> & Hits). cbn [mbind outcome_bind].
  exists (OneTable it :: its). split; [done|]. constructor; [|done]. split; [|apply (ge_sorted _ (tf_entries _ Hf))]. exists (length (contents f)), (table_at (tat f)). split; [apply table_child, table_cursor_of, (tf_stored _ Hf)|by exists it].
Qed.
Lemma concatenating_spec files : readable 1 files -> exists it, NewConcatenatingIterator ucmp files = Done it /\ walks it (entries_of files).
Proof.
  intros [Ht Hr Hd Ha]. specialize (Ha ltac:(lia)). pose proof (level_separated files Ht Ha) as Sep. unfold NewConcatenatingIterator. set (fuel := S (S (S (length files)))). pose proof (level_cursor (ucmp := ucmp) files Ha) as LC. rewrite Forall_lookup in Ht. rewrite Forall_lookup in Hr.
  set (dat := fun i => match files !! i with Some f => tat f | None => fun _ _ => False end).
  assert (Hdat : forall i b, (contents <$> files) !! i = Some b -> Cursor ivalid ic b (dat i)). { intros i b Eb. rewrite list_lookup_fmap in Eb. unfold dat. destruct (files !! i) as [f|] eqn:Ef; [|done]. injection Eb as <-. apply table_cursor_of, (tf_stored _ (Ht i f Ef)). }
  assert (Hvalue : forall i f, files !! i = Some f -> DecodeFixed64 (EncodeFixed64 (number f) ++ EncodeFixed64 (file_size f)) = Done (number f) /\ DecodeFixed64 (drop 8 (EncodeFixed64 (number f) ++ EncodeFixed64 (file_size f))) = Done (file_size f)).
  { intros i f Ef. destruct (Hr i f Ef) as [H1 H2]. split; [by apply fixed64_back|]. rewrite drop_app_length' by (by rewrite length_fixed64). rewrite <- (app_nil_r (EncodeFixed64 (file_size f))). by apply fixed64_back. }
  assert (Hdistinct : forall i j e e', file_index files !! i = Some e -> file_index files !! j = Some e' -> e.2 = e'.2 -> i = j).
  { intros i j e e' Ee Ee' Heq. unfold file_index in Ee, Ee'. rewrite list_lookup_fmap in Ee. rewrite list_lookup_fmap in Ee'. destruct (files !! i) as [f|] eqn:Ef; [|done]. destruct (files !! j) as [g|] eqn:Eg; [|done]. injection Ee as <-. injection Ee' as <-. cbn [file_entry snd] in Heq. destruct (Hvalue i f Ef) as [Hn _]. destruct (Hvalue j g Eg) as [Hn' _]. rewrite Heq, Hn' in Hn. injection Hn as Hn. apply (NoDup_lookup (number <$> files) i j (number f)); [done| |]; rewrite list_lookup_fmap; [by rewrite Ef|rewrite Eg; cbn; by rewrite Hn]. }
  assert (Hblock : forall i e b (s : unit), file_index files !! i = Some e -> (contents <$> files) !! i = Some b -> True -> exists d s', GetFileIterator options e.2 s = Done (d, s') /\ True /\ dat i d (length b)).
  { intros i e b s Ee Eb _. unfold file_index in Ee. rewrite list_lookup_fmap in Ee. rewrite list_lookup_fmap in Eb. unfold dat. destruct (files !! i) as [f|] eqn:Ef; [|done]. injection Ee as <-. injection Eb as <-. cbn [file_entry snd]. unfold GetFileIterator. destruct (Hvalue i f Ef) as [H1 H2]. rewrite H1, H2, length_app, !length_fixed64. cbn [Z.of_nat Nat.add Z.eqb Pos.of_succ_nat Pos.succ Pos.eqb negb mbind outcome_bind].
    destruct (new_table_iterator options f (tf_stored _ (Ht i f Ef))) as (it & -> & Hat). cbn [mbind outcome_bind]. by exists it, s. }
  destruct (NewTwoLevelIterator_spec (file_index files) (contents <$> files) (level_at files) dat (fun _ : unit => True) (new_LevelFileNumIterator files) tt) as (t & Et & Hat).
  { destruct Ha as (_ & _ & Hl). unfold new_LevelFileNumIterator, level_at, file_index. cbn [flist_ index_]. rewrite length_fmap, u32_small by lia. done. } { done. }
  rewrite Et. cbn [mbind outcome_bind]. exists (OneLevel fuel t). split; [done|]. split; [|apply (separated_sorted _ _ Sep); apply Forall_fmap, Forall_lookup; intros i f Ef; apply (ge_sorted _ (tf_entries _ (Ht i f Ef)))].
  eexists _, (concat_at fuel _). split; [|exists t; split; [done|exact Hat]]. apply concat_child. apply (two_level_cursor (Ordered0 := inputs_ordered) (GetFileIterator options) fuel (file_index files) (contents <$> files) (level_at files) dat (fun _ => True)); [lia|done..].
Qed.

Lemma level_iterators_spec level files : readable level files -> exists its ess, level_iterators ucmp options level files = Done its /\ Forall2 walks its ess /\ concat ess = entries_of files /\ zlen its <= (if level =? 0 then zlen files else 1).
Proof.
  intros Hr. unfold level_iterators. case_bool_decide as Hnil; [exists [], []; subst files; split_and!; [done|constructor|done|case_match; cbn; lia]|]. destruct (Z.eqb_spec level 0) as [->|Hne].
  - destruct (table_iterators_spec files (rd_tables _ _ Hr)) as (its & -> & Hw). exists its, (contents <$> files). split_and!; [done|done|done|]. apply Forall2_length in Hw. rewrite length_fmap in Hw. lia.
  - destruct Hr as [H1 H2 H3 H4]. destruct (concatenating_spec files) as (it & -> & Hw); [split; [done|done|done|by intros _; apply H4]|]. cbn [mbind outcome_bind]. exists [it], [entries_of files]. split_and!; [done|constructor; [done|constructor]|cbn; by rewrite app_nil_r|cbn; lia].
Qed.

(** The iterators of all the levels. *)
Lemma add_levels_spec levels : forall level, 0 <= level -> (forall i files, levels !! i = Some files -> readable (level + Z.of_nat i) files) ->
  exists its ess, add_levels ucmp options level levels = Done its /\ Forall2 walks its ess /\ concat ess = concat (entries_of <$> levels).
Proof.
  induction levels as [|files levels IH]; intros level Hl Hr; [exists [], []; split_and!; [done|constructor|done]|]. cbn [add_levels]. destruct (level_iterators_spec level files) as (its & ess & -> & Hw & Ec & _); [specialize (Hr 0%nat files eq_refl); by rewrite Z.add_0_r in Hr|]. cbn [mbind outcome_bind].
  destruct (IH (level + 1)) as (its' & ess' & -> & Hw' & Ec'); [lia|intros i fs Ei; replace (level + 1 + Z.of_nat i) with (level + Z.of_nat (S i)) by lia; by apply Hr|]. cbn [mbind outcome_bind]. exists (its ++ its'), (ess ++ ess'). split_and!; [done|by apply Forall2_app|]. cbn. by rewrite concat_app, Ec, Ec'.
Qed.

Lemma merged_walks its ess M : Forall2 walks its ess -> M ≡ₚ concat ess -> StronglySorted (fun a b => ic a.1 b.1 < 0) M -> Forall (fun e => ivalid e.1) M ->
  exists x at_ p, NewMergingIterator its = Done x /\ Cursor (Iterator0 := merged_iter (internal_compare ucmp)) ivalid ic M at_ /\ at_ x p.
Proof.
  intros Hw Hp Hs Hv. set (dat := fun j => any_at (default [] (ess !! j))). assert (MO : merge_of (valid := ivalid) (cmp := ic) ess M). { split; [done|done| |done]. intros j es Ej. destruct (Forall2_lookup_r _ _ _ _ _ Hw Ej) as (it & _ & _ & H). done. }
  assert (Hdat : forall j es, ess !! j = Some es -> Cursor ivalid ic es (dat j)) by (intros j es Ej; unfold dat; rewrite Ej; apply any_cursor).
  destruct (new_merged ess M dat MO Hdat its) as (x & p & E & Hx); [by apply Forall2_length in Hw|intros j it es Ei Ej; unfold dat; rewrite Ej; destruct (Forall2_lookup_lr _ _ _ _ _ _ Hw Ei Ej) as [[k Hk] _]; by exists k|].
  exists x, (new_at (cmp := ic) ess M dat), p. split_and!; [done| |done]. apply (merged_new_cursor ess M dat MO Hdat).
Qed.
End Spec.

Section Whole.
Context {ucmp : Comparator} {valid : list Z -> Prop} {cmp : list Z -> list Z -> Z} `{GC : !GoodComparator ucmp valid cmp}.
Context {TI : Type} `{!Iterator TI} `{!TableIterators TI} {stored : FileMetaData -> Prop} {contents : FileMetaData -> list entry} {tat : FileMetaData -> TI -> nat -> Prop} `{GT : !GoodTableIterators (valid := valid) (cmp := cmp) stored contents tat}.
Abbreviation readable := (readable (valid := valid) (cmp := cmp) (stored := stored) (contents := contents)).
Abbreviation entries_of := (entries_of (contents := contents)).
(** The entries, in order, without a key twice. *)
Definition sorted_as (es M : list entry) : Prop := M ≡ₚ es /\ StronglySorted (fun a b => icmp cmp a.1 b.1 < 0) M /\ Forall (fun e => valid_ikey valid e.1) M.

Lemma MakeInputIterator_spec paranoid c M : 0 <= level_ c -> readable (level_ c) (inputs_0 c) -> readable (level_ c + 1) (inputs_1 c) -> sorted_as (entries_of (inputs_0 c) ++ entries_of (inputs_1 c)) M ->
  exists (x : merged_iterator (child TI)) at_ p, MakeInputIterator ucmp paranoid c = Done x /\
    Cursor (Iterator0 := merged_iter (Iterator0 := child_iterator ucmp (MkReadOptions paranoid false)) (internal_compare ucmp)) (valid_ikey valid) (icmp cmp) M at_ /\ at_ x p.
Proof.
  intros Hl H0 H1 (Hp & Hs & Hv). unfold MakeInputIterator. cbv zeta. set (options := MkReadOptions paranoid false). destruct (level_iterators_spec (ucmp := ucmp) options _ _ H0) as (l0 & ess0 & -> & Hw0 & Ec0 & Hn0). cbn [mbind outcome_bind]. destruct (level_iterators_spec (ucmp := ucmp) options _ _ H1) as (l1 & ess1 & -> & Hw1 & Ec1 & Hn1). cbn [mbind outcome_bind].
  destruct (Z.eqb_spec (level_ c + 1) 0); [lia|]. destruct (Z.ltb_spec (if level_ c =? 0 then zlen (inputs_0 c) + 1 else 2) (zlen (l0 ++ l1))) as [Hbad|_]; [rewrite length_app in Hbad; destruct (Z.eqb_spec (level_ c) 0); lia|].
  apply (merged_walks (ucmp := ucmp) options (l0 ++ l1) (ess0 ++ ess1) M); [by apply Forall2_app|by rewrite concat_app, Ec0, Ec1|done|done].
Qed.

Lemma AddIterators_spec options files_ M : length files_ = Z.to_nat kNumLevels -> (forall i files, files_ !! i = Some files -> readable (Z.of_nat i) files) -> sorted_as (concat (entries_of <$> files_)) M ->
  exists its (x : merged_iterator (child TI)) at_ p, AddIterators ucmp options files_ = Done its /\ NewMergingIterator (Iterator0 := child_iterator ucmp options) its = Done x /\
    Cursor (Iterator0 := merged_iter (Iterator0 := child_iterator ucmp options) (internal_compare ucmp)) (valid_ikey valid) (icmp cmp) M at_ /\ at_ x p.
Proof.
  intros Hl Hr (Hp & Hs & Hv). unfold AddIterators. destruct (Z.eqb_spec (zlen files_) kNumLevels); [|unfold kNumLevels in *; lia]. destruct (add_levels_spec (ucmp := ucmp) options files_ 0) as (its & ess & -> & Hw & Ec); [lia|intros i files Ei; rewrite Z.add_0_l; by apply Hr|].
  destruct (merged_walks (ucmp := ucmp) options its ess M Hw) as (x & at_ & p & E & C & Hx); [by rewrite Ec|done|done|]. by exists its, x, at_, p.
Qed.
End Whole.
