(* ===== verification/LdbCompactWork.v ===== *)
(** * LdbCompactWork: the work of a compaction (DBImpl::DoCompactionWork,
    OpenCompactionOutputFile, FinishCompactionOutputFile and
    InstallCompactionResults of db/db_impl.cc).

    The input is any iterator, the tables are written with [TableBuilder]; files,
    the table cache, the memtable compaction that may run in between, the manifest
    and the flag that stops the work are an interface.  Messages and statistics are
    left out; files that were closed are kept with their numbers. *)

From Stdlib Require Import ZifyBool Sorting.Sorted.
From stdpp Require Import base tactics numbers list gmap strings sorting.
From S2P Require Import Prelude LdbCoding LdbCrcSpec LdbLog LdbLogSpec LdbKey LdbKeySpec LdbIter LdbBlockBuild LdbFormat LdbFilter LdbTable LdbTableWrite LdbSstTheorems LdbEdit LdbVersion LdbVersionSpec LdbVersionGet LdbCompact.
Open Scope Z_scope.

Class SyncFile (F : Type) : Type := { fSync : F -> Status * F; fClose : F -> Status * F }.
Class CompactionEnv (F E : Type) : Type := {
  (** of [TableFileName(dbname_, number)]; no file if it fails *)
  NewWritableFile : Z -> E -> Status * option F * E;
  (** the status of [table_cache_->NewIterator(ReadOptions(), number, size)] *)
  CheckTable : Z -> Z -> E -> Status * E;
  (** [shutting_down_.load] *)
  ShuttingDown : E -> bool * E;
  (** [CompactMemTable], if there is an immutable memtable; it may take a number
      from the counter of file numbers *)
  CompactImm : Z -> E -> Z * E;
  (** [versions_->LogAndApply] *)
  LogAndApply : VersionEdit -> E -> Status * E;
  RecordBackgroundError : Status -> E -> E;
}.

Record Output : Type := MkOutput { o_number : Z; o_file_size : Z; o_smallest : list Z; o_largest : list Z }.

Section Work.
Context {F : Type} `{!WritableFile F} `{!SyncFile F} {E : Type} `{!CompactionEnv F E} `{!Snappy} (addr_of : list Z -> Z).
Context {I : Type} `{!Iterator I}.
(** [user_comparator()], [options_] and its [max_file_size]. *)
Context (ucmp : Comparator) (options_ : Options) (max_file_size : Z).

Record CompactionState : Type := MkCompactionState {
  compaction : Compaction;
  smallest_snapshot : Z;
  outputs : list Output;
  (** with [outfile], the file of the builder *)
  builder : option (Rep F);
  total_bytes : Z;
  next_file_number_ : Z;
  pending_outputs_ : gset Z;
  environment : E;
  closed_files : list (Z * F);
}.
Definition set_compaction (c : Compaction) (st : CompactionState) : CompactionState :=
  MkCompactionState c (smallest_snapshot st) (outputs st) (builder st) (total_bytes st) (next_file_number_ st) (pending_outputs_ st) (environment st) (closed_files st).
Definition set_environment (e : E) (st : CompactionState) : CompactionState :=
  MkCompactionState (compaction st) (smallest_snapshot st) (outputs st) (builder st) (total_bytes st) (next_file_number_ st) (pending_outputs_ st) e (closed_files st).
Definition after_imm (x : Z * E) (st : CompactionState) : CompactionState :=
  MkCompactionState (compaction st) (smallest_snapshot st) (outputs st) (builder st) (total_bytes st) x.1 (pending_outputs_ st) x.2 (closed_files st).
Definition set_output (outs : list Output) (b : option (Rep F)) (st : CompactionState) : CompactionState :=
  MkCompactionState (compaction st) (smallest_snapshot st) outs b (total_bytes st) (next_file_number_ st) (pending_outputs_ st) (environment st) (closed_files st).

(** [*current_output() = f(...)] *)
Definition on_current (f : Output -> Output) (outs : list Output) : outcome (list Output) :=
  match last outs with Some o => Done (take (length outs - 1) outs ++ [f o]) | None => Undef end.

(** The size of the new output, which the code leaves uninitialised and sets when the
    file is finished, is 0. *)
Definition OpenCompactionOutputFile (st : CompactionState) : outcome (Status * CompactionState) :=
  match builder st with
  | Some _ => Undef
  | None =>
    let file_number := next_file_number_ st in
    let '(s, file, env) := NewWritableFile file_number (environment st) in
    let st := MkCompactionState (compaction st) (smallest_snapshot st) (outputs st ++ [MkOutput file_number 0 [] []]) None (total_bytes st)
                (u64 (file_number + 1)) ({[file_number]} ∪ pending_outputs_ st) env (closed_files st) in
    if ok s then
      file ← demand file;
      r ← new_TableBuilder options_ file;
      Done (s, set_output (outputs st) (Some r) st)
    else Done (s, st)
  end.

Definition FinishCompactionOutputFile (input_status : Status) (st : CompactionState) : outcome (Status * CompactionState) :=
  r ← demand (builder st);
  out ← demand (last (outputs st));
  if o_number out =? 0 then Undef
  else
    let current_entries := NumEntries r in
    x ← (if ok input_status then table_Finish addr_of r else r ← Abandon r; Done (input_status, r));
    let current_bytes := FileSize x.2 in
    outs ← on_current (fun o => MkOutput (o_number o) current_bytes (o_smallest o) (o_largest o)) (outputs st);
    let y := if ok x.1 then fSync (r_file x.2) else (x.1, r_file x.2) in
    let z := if ok y.1 then fClose y.2 else y in
    let w := if ok z.1 && (0 <? current_entries) then CheckTable (o_number out) current_bytes (environment st) else (z.1, environment st) in
    Done (w.1, MkCompactionState (compaction st) (smallest_snapshot st) outs None (u64 (total_bytes st + current_bytes)) (next_file_number_ st) (pending_outputs_ st) w.2
                 (closed_files st ++ [(o_number out, z.2)])).

(** ** The loop *)

Record Progress : Type := MkProgress { current_user_key : list Z; has_current_user_key : bool; last_sequence_for_key : Z }.
Definition no_progress : Progress := MkProgress [] false kMaxSequenceNumber.

(** Whether the entry is dropped. *)
Definition drop_entry (key : list Z) (snapshot : Z) (p : Progress) (c : Compaction) : outcome (bool * Progress * Compaction) :=
  parsed ← ParseInternalKey key;
  match parsed with
  | None => Done (false, no_progress, c)
  | Some ikey =>
    fresh ← (if negb (has_current_user_key p) then Done true else r ← Compare ucmp (user_key ikey) (current_user_key p); Done (negb (r =? 0)));
    let p := if fresh : bool then MkProgress (user_key ikey) true kMaxSequenceNumber else p in
    d ← (if last_sequence_for_key p <=? snapshot then Done (true, c)
         else if (type_ ikey =? kTypeDeletion) && (sequence ikey <=? snapshot) then IsBaseLevelForKey ucmp (user_key ikey) c
         else Done (false, c));
    Done (d.1, MkProgress (current_user_key p) (has_current_user_key p) (sequence ikey), d.2)
  end.

(** Adding an entry that is not dropped; a status that is not [OK] ends the loop. *)
Definition keep_entry (key value : list Z) (input_status : Status) (st : CompactionState) : outcome (Status * CompactionState) :=
  o ← match builder st with None => OpenCompactionOutputFile st | Some _ => Done (OK, st) end;
  if negb (ok o.1) then Done o
  else
    let st := o.2 in
    r ← demand (builder st);
    outs ← (if NumEntries r =? 0 then on_current (fun o => MkOutput (o_number o) (o_file_size o) key (o_largest o)) (outputs st) else Done (outputs st));
    outs ← on_current (fun o => MkOutput (o_number o) (o_file_size o) (o_smallest o) key) outs;
    r ← table_Add addr_of key value r;
    let st := set_output outs (Some r) st in
    if max_output_file_size_ (compaction st) <=? FileSize r then FinishCompactionOutputFile input_status st else Done (OK, st).

Fixpoint compact_loop (fuel : nat) (input : I) (p : Progress) (st : CompactionState) : outcome (Status * I * CompactionState) :=
  match fuel with
  | O => NoFuel
  | S fuel =>
    if vValid input then
      let sd := ShuttingDown (environment st) in
      let st := set_environment sd.2 st in
      if sd.1 then Done (OK, input, st)
      else
        let st := after_imm (CompactImm (next_file_number_ st) (environment st)) st in
        key ← vkey input;
        stop ← ShouldStopBefore ucmp max_file_size key (compaction st);
        let st := set_compaction stop.2 st in
        f ← (if stop.1 && bool_decide (is_Some (builder st)) then FinishCompactionOutputFile (vstatus input) st else Done (OK, st));
        if negb (ok f.1) then Done (f.1, input, f.2)
        else
          let st := f.2 in
          d ← drop_entry key (smallest_snapshot st) p (compaction st);
          let st := set_compaction d.2 st in
          k ← (if d.1.1 : bool then Done (OK, st) else value ← vvalue input; keep_entry key value (vstatus input) st);
          if negb (ok k.1) then Done (k.1, input, k.2)
          else
            input ← vNext input;
            compact_loop fuel input d.1.2 k.2
    else Done (OK, input, st)
  end.

Fixpoint add_outputs (level : Z) (outs : list Output) (e : VersionEdit) : VersionEdit :=
  match outs with
  | [] => e
  | o :: outs => add_outputs level outs (AddFile level (o_number o) (o_file_size o) (o_smallest o) (o_largest o) e)
  end.
(** The edit that [InstallCompactionResults] applies. *)
Definition results_edit (st : CompactionState) : VersionEdit :=
  add_outputs (level_ (compaction st) + 1) (outputs st) (AddInputDeletions (compaction st) (edit_ (compaction st))).
Definition InstallCompactionResults (st : CompactionState) : Status * CompactionState :=
  let e := results_edit st in
  let a := LogAndApply e (environment st) in
  (a.1, set_environment a.2 (set_compaction (set_edit e (compaction st)) st)).

(** [input] is the iterator over the inputs; [oldest] is the oldest snapshot, if
    there is one.  The mutex is held since the compaction was picked, so the
    current version, whose level must have files, is still the input version. *)
Definition DoCompactionWork (fuel : nat) (input : I) (oldest : option Z) (last_sequence : Z) (st : CompactionState) : outcome (Status * CompactionState) :=
  level_files ← demand (input_version_ (compaction st) !! Z.to_nat (level_ (compaction st)));
  if bool_decide (level_files = []) then Undef else
  match builder st with
  | Some _ => Undef
  | None =>
    let snapshot := match oldest with Some s => s | None => last_sequence end in
    let st := MkCompactionState (compaction st) snapshot (outputs st) None (total_bytes st) (next_file_number_ st) (pending_outputs_ st) (environment st) (closed_files st) in
    input ← vSeekToFirst input;
    l ← compact_loop fuel input no_progress st;
    let input := l.1.2 in
    let st := l.2 in
    let sd := if ok l.1.1 then ShuttingDown (environment st) else (false, environment st) in
    let st := set_environment sd.2 st in
    let status := if sd.1 then IOError "Deleting DB during compaction" else l.1.1 in
    f ← (if ok status && bool_decide (is_Some (builder st)) then FinishCompactionOutputFile (vstatus input) st else Done (status, st));
    let status := if ok f.1 then vstatus input else f.1 in
    let i := if ok status then InstallCompactionResults f.2 else (status, f.2) in
    Done (i.1, if ok i.1 then i.2 else set_environment (RecordBackgroundError i.1 (environment i.2)) i.2)
  end.

(** The numbers that stay in [pending_outputs_]. *)
Definition CleanupCompaction (st : CompactionState) : outcome (gset Z) :=
  _ ← match builder st with Some r => r ← Abandon r; Done tt | None => Done tt end;
  Done (fold_left (fun pending o => pending ∖ {[o_number o]}) (outputs st) (pending_outputs_ st)).
End Work.
Arguments CompactionState F E : clear implicits.

(** * What a compaction writes.

    The output tables have, in order, the input entries that survive: those that
    are not hidden from all snapshots by the entry before them, and are not
    deletions that nothing below needs. *)


(** ** The entries that survive *)

Definition seq_of (e : entry) : Z := Z.shiftr (tag_part e.1) 8.

Section Survivors.
Context (cmp : list Z -> list Z -> Z) (snapshot : Z) (base : list Z -> bool).
(** An entry is hidden by an update of its key that every snapshot sees, or it is
    such an update itself, a deletion of a key that is in no deeper level. *)
Definition dropped (prev : option entry) (e : entry) : bool :=
  match prev with Some p => (cmp (user_part e.1) (user_part p.1) =? 0) && (seq_of p <=? snapshot) | None => false end ||
  ((type_of e.1 =? kTypeDeletion) && (seq_of e <=? snapshot) && base (user_part e.1)).
Fixpoint survivors (prev : option entry) (es : list entry) : list entry :=
  match es with
  | [] => []
  | e :: es => (if dropped prev e then [] else [e]) ++ survivors (Some e) es
  end.

Lemma survivors_snoc e l : forall prev, survivors prev (l ++ [e]) = survivors prev l ++ (if dropped (match last l with Some p => Some p | None => prev end) e then [] else [e]).
Proof.
  induction l as [|e' l IH]; intros prev; [cbn; by rewrite app_nil_r|]. cbn [survivors app]. rewrite IH, <- app_assoc. do 2 f_equal. rewrite last_cons. by destruct (last l).
Qed.
Lemma survivors_sublist l : forall prev, sublist (survivors prev l) l.
Proof.
  induction l as [|e l IH]; intros prev; [constructor|]. cbn [survivors]. case_match; cbn [app]; constructor; apply IH.
Qed.
End Survivors.

Section Drop.
Context {ucmp : Comparator} {valid : list Z -> Prop} {cmp : list Z -> list Z -> Z} `{GC : !GoodComparator ucmp valid cmp}.
Abbreviation ivalid := (valid_ikey valid).

(** No file from a level on has the key in its range. *)
Definition file_has (u : list Z) (f : FileMetaData) : bool := (0 <=? cmp u (user_part (smallest f))) && (cmp u (user_part (largest f)) <=? 0).
Definition absent_b (version : list Files) (lvl : Z) (u : list Z) : bool := forallb (fun files => negb (existsb (file_has u) files)) (drop (Z.to_nat lvl) version).

Lemma file_has_spec u files : existsb (file_has u) files = true <-> Exists (in_file (cmp := cmp) u) files.
Proof.
  rewrite existsb_exists, Exists_exists. unfold file_has, in_file. split; intros (f & Hf & H); exists f; (split; [by apply list_elem_of_In|lia]).
Qed.
Lemma absent_spec version lvl u : 0 <= lvl -> absent_b version lvl u = true <-> absent_from (cmp := cmp) version u lvl.
Proof.
  intros Hl. unfold absent_b. rewrite forallb_forall. split.
  - intros H i files Hi Ei He. specialize (H files). rewrite (proj2 (file_has_spec u files) He) in H. cbn in H. assert (false = true); [apply H|done]. apply list_elem_of_In, list_elem_of_lookup. exists (i - Z.to_nat lvl)%nat. rewrite lookup_drop. rewrite <- Ei. f_equal. lia.
  - intros H files Hin. apply list_elem_of_In, list_elem_of_lookup in Hin as [i Ei]. rewrite lookup_drop in Ei. specialize (H (Z.to_nat lvl + i)%nat files ltac:(lia) Ei). destruct (existsb (file_has u) files) eqn:E; [|done]. by apply file_has_spec in E.
Qed.

(** What the loop remembers of the entry before. *)
Definition progress_ok (prev : option entry) (p : Progress) : Prop :=
  match prev with
  | None => p = no_progress
  | Some e => has_current_user_key p = true /\ valid (current_user_key p) /\ cmp (current_user_key p) (user_part e.1) = 0 /\ valid (user_part e.1) /\ last_sequence_for_key p = seq_of e
  end.

Lemma drop_entry_spec prev p c e snapshot : deep_apart (valid := valid) (cmp := cmp) (input_version_ c) (level_ c + 2) -> 0 <= level_ c -> ptrs_ok (cmp := cmp) (input_version_ c) (user_part e.1) (level_ c + 2) (level_ptrs_ c) ->
  ivalid e.1 -> type_of e.1 <= kTypeValue -> snapshot < kMaxSequenceNumber -> progress_ok prev p ->
  exists p' ptrs, drop_entry ucmp e.1 snapshot p c = Done (dropped cmp snapshot (absent_b (input_version_ c) (level_ c + 2)) prev e, p', set_ptrs ptrs c) /\
    progress_ok (Some e) p' /\ ptrs_ok (cmp := cmp) (input_version_ c) (user_part e.1) (level_ c + 2) ptrs.
Proof.
  intros Hd Hlv Hp Hk Ht Hs Hpr. unfold drop_entry. rewrite (parse_ikey e.1 Hk Ht). cbn [mbind outcome_bind user_key type_ sequence]. destruct (ivalid_user _ Hk) as [_ Hu].
  set (same := match prev with Some q => cmp (user_part e.1) (user_part q.1) =? 0 | None => false end).
  assert (Hfresh : (if negb (has_current_user_key p) then Done true else r ← Compare ucmp (user_part e.1) (current_user_key p); Done (negb (r =? 0))) = Done (negb same)).
  { unfold progress_ok in Hpr. subst same. destruct prev as [q|]; [|by subst p]. destruct Hpr as (-> & Hc & Hz & Hq & _). cbn [negb]. rewrite (cmp_total _ _ Hu Hc). cbn [mbind outcome_bind]. do 2 f_equal. destruct (cmp_zero_l _ _ _ Hc Hq Hu Hz) as [? ?]. pose proof (cmp_anti (user_part e.1) (current_user_key p) Hu Hc). pose proof (cmp_anti (current_user_key p) (user_part e.1) Hc Hu). pose proof (cmp_anti (user_part e.1) (user_part q.1) Hu Hq). pose proof (cmp_anti (user_part q.1) (user_part e.1) Hq Hu). lia. }
  rewrite Hfresh. cbn [mbind outcome_bind]. cbv zeta. set (p1 := if negb same then _ else p).
  assert (Hp1 : has_current_user_key p1 = true /\ valid (current_user_key p1) /\ cmp (current_user_key p1) (user_part e.1) = 0 /\
    (last_sequence_for_key p1 <=? snapshot) = match prev with Some q => (cmp (user_part e.1) (user_part q.1) =? 0) && (seq_of q <=? snapshot) | None => false end).
  { subst p1. destruct same eqn:Es; cbn [negb].
    - subst same. destruct prev as [q|]; [|done]. destruct Hpr as (? & Hc & Hz & Hq & ->). split_and!; [done|done| |by rewrite Es]. apply Z.eqb_eq in Es. destruct (cmp_zero_l _ _ _ Hc Hq Hu Hz) as [? ?]. pose proof (cmp_zero_sym _ _ Hu Hq Es). tauto.
    - cbn. split_and!; [done|done|by apply cmp_refl|]. destruct (Z.leb_spec kMaxSequenceNumber snapshot); [lia|]. subst same. destruct prev; [|done]. by rewrite Es. }
  destruct Hp1 as (H1 & H2 & H3 & H4). unfold dropped. rewrite H4. set (hid := match prev with Some q => (cmp (user_part e.1) (user_part q.1) =? 0) && (seq_of q <=? snapshot) | None => false end). destruct hid; cbn [orb].
  - exists (MkProgress (current_user_key p1) (has_current_user_key p1) (seq_of e)), (level_ptrs_ c). cbn [mbind outcome_bind fst snd]. split; [by destruct c|]. split; [|done]. cbn. done.
  - change (Z.shiftr (tag_part e.1) 8) with (seq_of e). destruct ((type_of e.1 =? kTypeDeletion) && (seq_of e <=? snapshot)); cbn [andb].
    + destruct (base_for_key (user_part e.1) c Hd Hlv Hu Hp) as (b & ptrs & -> & Hp' & Hb). cbn [mbind outcome_bind fst snd]. exists (MkProgress (current_user_key p1) (has_current_user_key p1) (seq_of e)), ptrs. split; [|split; [|done]; cbn; done]. do 3 f_equal. rewrite <- (absent_spec _ (level_ c + 2)) in Hb by lia. destruct b, (absent_b (input_version_ c) (level_ c + 2) (user_part e.1)); try done; [by symmetry; apply Hb|by apply Hb].
    + exists (MkProgress (current_user_key p1) (has_current_user_key p1) (seq_of e)), (level_ptrs_ c). cbn [mbind outcome_bind fst snd]. split; [by destruct c|]. split; [|done]. cbn. done.
Qed.

Lemma ptrs_mono version u u' lvl ptrs : deep_apart (valid := valid) (cmp := cmp) version lvl -> valid u -> valid u' -> cmp u u' <= 0 -> ptrs_ok (cmp := cmp) version u lvl ptrs -> ptrs_ok (cmp := cmp) version u' lvl ptrs.
Proof.
  intros [_ Hd] Hu Hu' Hle [Hl H]. split; [done|]. intros i files ptr Hi Ef Ep. destruct (Hd i files Hi Ef) as (Hg & _). by apply (ptr_mono files u u'), (H i).
Qed.
Lemma ptrs_start version u lvl : ptrs_ok (cmp := cmp) version u lvl (replicate (Z.to_nat kNumLevels) 0).
Proof.
  split; [done|]. intros i files ptr _ _ Ep. apply lookup_replicate in Ep as [-> _]. split; [lia|]. intros j f Hj. lia.
Qed.
End Drop.

(** ** What the environment promises *)

Class GoodSync (F : Type) `{GF : GoodFile F} `{!SyncFile F} : Prop := {
  Sync_good f : exists f', fSync f = (OK, f') /\ contents f' = contents f;
  Close_good f : exists f', fClose f = (OK, f') /\ contents f' = contents f;
}.
(** Nothing fails, the work is not stopped, and the compaction of a memtable takes
    one file number at most. *)
Class GoodCompactionEnv (F E : Type) `{GF : GoodFile F} `{!CompactionEnv F E} : Prop := {
  env_new n (e : E) : exists f e', NewWritableFile n e = (OK, Some f, e') /\ contents f = [];
  env_check n size e : exists e', CheckTable (F := F) n size e = (OK, e');
  env_running e : exists e', ShuttingDown (F := F) e = (false, e');
  env_imm n e : exists n' e', CompactImm (F := F) n e = (n', e') /\ n <= n' <= n + 1;
  env_apply edit e : exists e', LogAndApply (F := F) edit e = (OK, e');
}.

(** ** The output files *)

Lemma cleanup_spec {F E : Type} `{!WritableFile F} (st : CompactionState F E) : builder st = None -> exists pending, CleanupCompaction st = Done pending /\ forall n, n ∈ pending <-> n ∈ pending_outputs_ st /\ n ∉ o_number <$> outputs st.
Proof.
  intros Hb. unfold CleanupCompaction. rewrite Hb. cbn [mbind outcome_bind]. eexists. split; [done|]. intros n. generalize (pending_outputs_ st). induction (outputs st) as [|out outs IH]; intros pending; cbn [fold_left]; [cbn; set_solver|]. rewrite IH, fmap_cons. set_solver.
Qed.

Section Outputs.
Context {F : Type} `{GF : GoodFile F} `{!SyncFile F} `{GY : !GoodSync F} {E : Type} `{!CompactionEnv F E} `{GE : !GoodCompactionEnv F E} `{!Snappy} `{!GoodSnappy}.
Context (addr_of : list Z -> Z) (Haddr : forall bs, zlen bs < 2 ^ 62 -> address (addr_of bs) (zlen bs)).
Context {valid : list Z -> Prop} {cmp : list Z -> list Z -> Z} (o : Options) (same : list Z -> list Z -> Prop) (B : Z) (es : list entry).
Abbreviation ic := (icmp cmp).
Abbreviation ivalid := (valid_ikey valid).
Context (P : table_params o ivalid ic same B es).
#[local] Instance run_comparator : GoodComparator (comparator o) ivalid ic := tp_comparator _ _ _ _ _ _ P.
#[local] Instance run_short : ShortComparator (comparator o) ivalid := tp_short _ _ _ _ _ _ P.
#[local] Instance run_apart : KeepsApart (comparator o) ivalid ic same := tp_apart _ _ _ _ _ _ P.

Definition holds_table (file : F) (seg : list entry) : Prop := is_table (valid := ivalid) (cmp := ic) o same (contents file) seg.
Definition building (r : Rep F) (seg : list entry) : Prop :=
  exists blks hs idx cur, r_closed r = false /\ table_inv (valid := ivalid) (cmp := ic) o same B r blks hs idx cur /\ between r blks cur /\ concat blks ++ cur = seg.

Definition fits (seg : list entry) : Prop := total_cost seg <= total_cost es.

Lemma building_new file : contents file = [] -> exists r, new_TableBuilder o file = Done r /\ building r [].
Proof.
  intros Hf. destruct (new_table_spec (cmp := ic) o (tp_interval _ _ _ _ _ _ P) same B (tp_policy _ _ _ _ _ _ P) file Hf) as (r & -> & Hc & I & Hb). exists r. split; [done|]. by exists [], [], [], [].
Qed.
Lemma budget seg : fits seg -> (B + 8) * total_cost seg + 2 ^ 20 < 2 ^ 31.
Proof. unfold fits. intros Hfit. pose proof (tp_size _ _ _ _ _ _ P). pose proof (tp_bytes _ _ _ _ _ _ P). pose proof (total_cost_nonneg seg). nia. Qed.
Lemma building_add r seg k v : building r seg -> good_entry (valid := ivalid) (k, v) -> sorted_entries (cmp := ic) (seg ++ [(k, v)]) -> fits (seg ++ [(k, v)]) ->
  exists r', table_Add addr_of k v r = Done r' /\ building r' (seg ++ [(k, v)]).
Proof.
  intros (blks & hs & idx & cur & Hc & I & Hb & <-) Hg Hs Hf. pose proof (budget _ Hf). pose proof (tp_bytes _ _ _ _ _ _ P). pose proof (total_cost_nonneg ((concat blks ++ cur) ++ [(k, v)])).
  destruct (table_Add_spec (cmp := ic) addr_of Haddr o (tp_interval _ _ _ _ _ _ P) (tp_compression _ _ _ _ _ _ P) same B (tp_policy _ _ _ _ _ _ P) r blks hs idx cur k v I Hb Hc Hg Hs ltac:(nia)) as (r' & blks' & hs' & idx' & cur' & -> & Hc' & I' & Hb' & Ecat).
  exists r'. split; [done|]. by exists blks', hs', idx', cur'.
Qed.
Lemma building_finish r seg : building r seg -> fits seg -> exists r', table_Finish addr_of r = Done (OK, r') /\ holds_table (r_file r') seg /\ FileSize r' = zlen (contents (r_file r')).
Proof.
  intros (blks & hs & idx & cur & Hc & I & Hb & <-) Hf. pose proof (budget _ Hf). by apply (table_Finish_spec (cmp := ic) addr_of Haddr o (tp_interval _ _ _ _ _ _ P) (tp_compression _ _ _ _ _ _ P) same B (tp_bytes _ _ _ _ _ _ P) (tp_policy _ _ _ _ _ _ P) r blks hs idx cur).
Qed.
Lemma building_entries r seg : building r seg -> fits seg -> (NumEntries r =? 0) = bool_decide (seg = []).
Proof.
  intros (blks & hs & idx & cur & Hc & I & Hb & <-) Hf. unfold NumEntries. rewrite (ti_num _ _ _ _ _ _ _ _ I). pose proof (budget _ Hf). pose proof (tp_bytes _ _ _ _ _ _ P). pose proof (total_cost_length (concat blks ++ cur)). pose proof (total_cost_nonneg (concat blks ++ cur)).
  rewrite u64_small by nia. case_bool_decide as E0; [by rewrite E0|]. apply Z.eqb_neq. destruct (concat blks ++ cur); [done|cbn; lia].
Qed.

(** The keys at the ends of a file. *)
Definition ends (out : Output) (seg : list entry) : Prop := Some (o_smallest out) = fst <$> head seg /\ Some (o_largest out) = fst <$> last seg.
Definition written (out : Output) (file : Z * F) (seg : list entry) : Prop :=
  o_number out = file.1 /\ holds_table file.2 seg /\ o_file_size out = zlen (contents file.2) /\ ends out seg.

(** The files that are closed have the segments, the builder has the current one. *)
Definition output_ok (st : CompactionState F E) (segs : list (list entry)) (cur : list entry) : Prop :=
  match builder st with
  | None => cur = [] /\ Forall3 written (outputs st) (closed_files st) segs
  | Some r => building r cur /\ exists outs out, outputs st = outs ++ [out] /\ Forall3 written outs (closed_files st) segs /\ ends out cur
  end.
(** Every output has a number of its own, and is protected. *)
Definition numbers_ok (st : CompactionState F E) : Prop :=
  0 < next_file_number_ st /\ StronglySorted Z.lt (o_number <$> outputs st) /\ Forall (fun out => 0 < o_number out < next_file_number_ st /\ o_number out ∈ pending_outputs_ st) (outputs st).
Definition state_ok (st : CompactionState F E) (segs : list (list entry)) (cur : list entry) : Prop := output_ok st segs cur /\ numbers_ok st.

Lemma on_current_snoc f outs out : on_current f (outs ++ [out]) = Done (outs ++ [f out]).
Proof. unfold on_current. rewrite last_snoc, length_app. cbn [length]. by rewrite Nat.add_sub, take_app_length. Qed.

Lemma finish_output_spec st segs cur r : state_ok st segs cur -> builder st = Some r -> fits cur ->
  exists st', FinishCompactionOutputFile addr_of OK st = Done (OK, st') /\ state_ok st' (segs ++ [cur]) [] /\ builder st' = None /\
    compaction st' = compaction st /\ smallest_snapshot st' = smallest_snapshot st /\ next_file_number_ st' = next_file_number_ st.
Proof.
  intros [Ho (Hpos & Hso & Hnum)] Er Hfit. unfold output_ok in Ho. rewrite Er in Ho. destruct Ho as (Hb & outs & out & Eouts & Hw & He). unfold FinishCompactionOutputFile. rewrite Er, Eouts, last_snoc. cbn [demand mbind outcome_bind ok].
  rewrite Eouts in Hnum, Hso. pose proof Hnum as Hn. apply Forall_app in Hn as [_ Hn]. apply Forall_singleton in Hn as [[Hn1 Hn2] Hn3]. destruct (Z.eqb_spec (o_number out) 0); [lia|].
  destruct (building_finish r cur Hb Hfit) as (r' & -> & Ht & Hsize). cbn [mbind outcome_bind fst snd]. rewrite on_current_snoc. cbn [mbind outcome_bind ok]. destruct (Sync_good (r_file r')) as (f1 & -> & C1). cbn [fst snd ok]. destruct (Close_good f1) as (f2 & -> & C2). cbn [fst snd ok andb].
  set (w := if 0 <? _ then _ else _). assert (Hw' : exists e', w = (OK, e')) by (subst w; case_match; [apply env_check|by eexists]). destruct Hw' as [e' ->]. cbn [fst snd]. eexists. split; [done|]. unfold state_ok, output_ok, numbers_ok. cbn [builder outputs closed_files next_file_number_ pending_outputs_ compaction smallest_snapshot].
  split_and!; try done.
  - apply Forall3_app; [done|]. constructor; [|constructor]. unfold written, holds_table. cbn [fst snd o_number o_file_size]. rewrite C2, C1. split_and!; [done|done|done|done].
  - by rewrite fmap_app in *.
  - apply Forall_app in Hnum as [Hn0 _]. apply Forall_app. split; [done|]. by apply Forall_singleton.
Qed.

Lemma open_output_spec st segs : state_ok st segs [] -> builder st = None -> next_file_number_ st < 2 ^ 64 - 1 ->
  exists st' r, OpenCompactionOutputFile o st = Done (OK, st') /\ builder st' = Some r /\ building r [] /\ numbers_ok st' /\ (exists out, outputs st' = outputs st ++ [out]) /\
    closed_files st' = closed_files st /\ compaction st' = compaction st /\ smallest_snapshot st' = smallest_snapshot st /\ next_file_number_ st' = next_file_number_ st + 1.
Proof.
  intros [Ho (Hpos & Hso & Hnum)] Er Hn. unfold OpenCompactionOutputFile. rewrite Er. cbv zeta. destruct (env_new (next_file_number_ st) (environment st)) as (f & e' & -> & Cf). cbn [ok demand mbind outcome_bind]. destruct (building_new f Cf) as (r & -> & Hb). cbn [mbind outcome_bind]. rewrite u64_small by lia.
  eexists _, r. split; [done|]. unfold numbers_ok, set_output. cbn [builder outputs closed_files next_file_number_ pending_outputs_ compaction smallest_snapshot]. split_and!; try done; [lia| | |by eexists].
  - rewrite fmap_app. apply StronglySorted_app_2; [|done|by repeat constructor]. intros a b Ha Hb'. apply list_elem_of_fmap in Ha as (x & -> & Hx). cbn in Hb'. apply list_elem_of_singleton in Hb' as ->. rewrite Forall_forall in Hnum. apply (Hnum x Hx).
  - apply Forall_app. split; [|apply Forall_singleton; cbn; set_solver by lia]. eapply Forall_impl; [exact Hnum|]. cbn. intros x [? ?]. split; [lia|set_solver].
Qed.

Lemma ends_snoc out cur k v : cur = [] \/ ends out cur -> ends (MkOutput (o_number out) (o_file_size out) (if bool_decide (cur = []) then k else o_smallest out) k) (cur ++ [(k, v)]).
Proof.
  unfold ends. rewrite last_snoc. cbn. intros [->|[H1' _]]; [done|]. destruct cur as [|e cur]; [done|]. rewrite bool_decide_false by done. done.
Qed.

(** An entry that is kept is the last one of the outputs. *)
Lemma keep_spec st segs cur k v : state_ok st segs cur -> next_file_number_ st < 2 ^ 64 - 1 -> good_entry (valid := ivalid) (k, v) -> sorted_entries (cmp := ic) (cur ++ [(k, v)]) -> fits (cur ++ [(k, v)]) ->
  exists st' segs' cur', keep_entry addr_of o k v OK st = Done (OK, st') /\ state_ok st' segs' cur' /\ concat segs' ++ cur' = concat segs ++ cur ++ [(k, v)] /\
    compaction st' = compaction st /\ smallest_snapshot st' = smallest_snapshot st /\ next_file_number_ st <= next_file_number_ st' <= next_file_number_ st + 1.
Proof.
  intros Hok Hn Hg Hs Hfit. unfold keep_entry.
  assert (Hfit0 : fits cur). { unfold fits in *. rewrite total_cost_app in Hfit. pose proof (total_cost_nonneg [(k, v)]). lia. }
  assert (Hopen : exists st1 r outs out, match builder st with None => OpenCompactionOutputFile o st | Some _ => Done (OK, st) end = Done (OK, st1) /\ builder st1 = Some r /\ building r cur /\ numbers_ok st1 /\
    outputs st1 = outs ++ [out] /\ Forall3 written outs (closed_files st1) segs /\ (cur = [] \/ ends out cur) /\ compaction st1 = compaction st /\ smallest_snapshot st1 = smallest_snapshot st /\ next_file_number_ st <= next_file_number_ st1 <= next_file_number_ st + 1).
  { pose proof Hok as [Ho Hnum]. unfold output_ok in Ho. destruct (builder st) as [r|] eqn:Er.
    - destruct Ho as (Hb & outs & out & Eouts & Hw & He). exists st, r, outs, out. split_and!; first [done|lia|by right].
    - destruct Ho as [-> Hw]. destruct (open_output_spec st segs Hok Er Hn) as (st1 & r & E1 & Er1 & Hb & Hnum1 & (out & Eout) & Ecl & Ec & Es & En). exists st1, r, (outputs st), out. rewrite Ecl. split_and!; first [done|lia|by left]. }
  destruct Hopen as (st1 & r & outs & out & -> & Er1 & Hb & Hnum & Eouts & Hw & Hends & Ec & Es & En). cbn [mbind outcome_bind fst snd ok negb]. rewrite Er1. cbn [demand mbind outcome_bind]. rewrite (building_entries r cur Hb Hfit0), Eouts.
  set (out' := MkOutput (o_number out) (o_file_size out) (if bool_decide (cur = []) then k else o_smallest out) k).
  assert (Eon : (outs0 ← (if bool_decide (cur = []) then on_current (fun o => MkOutput (o_number o) (o_file_size o) k (o_largest o)) (outs ++ [out]) else Done (outs ++ [out]));
    on_current (fun o => MkOutput (o_number o) (o_file_size o) (o_smallest o) k) outs0) = Done (outs ++ [out'])).
  { subst out'. case_bool_decide; cbn [mbind outcome_bind]; rewrite ?on_current_snoc; cbn [mbind outcome_bind]; by rewrite ?on_current_snoc. }
  destruct (building_add r cur k v Hb Hg Hs Hfit) as (r' & Eadd & Hb').
  set (st2 := set_output (outs ++ [out']) (Some r') st1).
  assert (Hok2 : state_ok st2 segs (cur ++ [(k, v)])).
  { split; [split; [done|]; exists outs, out'; split_and!; [done|done|by apply ends_snoc]|]. unfold numbers_ok in *. subst st2. cbn [set_output next_file_number_ outputs pending_outputs_]. rewrite Eouts in Hnum. rewrite fmap_app in *. destruct Hnum as (? & ? & Hf). split_and!; [done|done|]. apply Forall_app in Hf as [Hf1 Hf2]. apply Forall_app. split; [done|]. apply Forall_singleton. by inversion_clear Hf2. }
  destruct (bool_decide (cur = [])) eqn:Ebd; rewrite ?on_current_snoc in *; cbn [mbind outcome_bind] in *; rewrite Eon; cbn [mbind outcome_bind]; rewrite Eadd; cbn [mbind outcome_bind]; fold st2; (case_match;
    [destruct (finish_output_spec st2 segs (cur ++ [(k, v)]) r' Hok2 eq_refl Hfit) as (st3 & -> & Hok3 & _ & Ec3 & Es3 & En3); exists st3, (segs ++ [cur ++ [(k, v)]]), []; rewrite Ec3, Es3, En3; split_and!; first [done|apply En|rewrite concat_app; cbn [concat]; by rewrite !app_nil_r]
    |exists st2, segs, (cur ++ [(k, v)]); split_and!; first [done|apply En]]).
Qed.

(** ** The loop *)

Context {ucmp : Comparator} `{GC : !GoodComparator ucmp valid cmp}.
Context {I : Type} `{!Iterator I} {at_ : I -> nat -> Prop} `{CU : !Cursor ivalid ic es at_}.
Context (max_file_size snap : Z) (c0 : Compaction) (Hsnap : snap < kMaxSequenceNumber) (Htypes : Forall (fun e => type_of e.1 <= kTypeValue) es).
Context (Hdeep : deep_apart (valid := valid) (cmp := cmp) (input_version_ c0) (level_ c0 + 2)) (Hlevel : 0 <= level_ c0) (Hgrand : Forall (good_file (valid := valid) (cmp := cmp)) (grandparents_ c0)).

Definition kept (l : list entry) : list entry := survivors cmp snap (absent_b (cmp := cmp) (input_version_ c0) (level_ c0 + 2)) None l.
(** The compaction has moved on, but its pointers are not past any key to come. *)
Definition comp_ok (i : nat) (c : Compaction) : Prop :=
  exists ptrs j seen bytes, c = set_ptrs ptrs (set_progress j seen bytes c0) /\ 0 <= j <= zlen (grandparents_ c0) /\
    forall e, e ∈ drop i es -> ptrs_ok (cmp := cmp) (input_version_ c0) (user_part e.1) (level_ c0 + 2) ptrs.

Lemma sublist_cost l l' : sublist l l' -> total_cost l <= total_cost l'.
Proof.
  induction 1 as [|e l l' _ IH|e l l' _ IH]; [done| |]; rewrite !total_cost_cons; [lia|]. assert (0 <= entry_cost e) by (unfold entry_cost; lia). lia.
Qed.
Lemma sublist_fits l : sublist l es -> fits l.
Proof. apply sublist_cost. Qed.
Lemma sublist_sorted {A} (R : A -> A -> Prop) l l' : sublist l l' -> StronglySorted R l' -> StronglySorted R l.
Proof.
  induction 1 as [|x l l' Hl IH|x l l' _ IH]; intros Hs; [done| |]; apply StronglySorted_inv in Hs as [Hs Hx]; [|by apply IH]. constructor; [by apply IH|]. rewrite Forall_forall in Hx. apply Forall_forall. intros y Hy. apply Hx. by apply (sublist_subseteq l).
Qed.
Lemma kept_sublist i l' l : l' ++ l = kept (take i es) -> sublist l es.
Proof.
  intros El. transitivity (take i es); [|apply sublist_take]. transitivity (l' ++ l); [by apply sublist_inserts_l|]. rewrite El. apply survivors_sublist.
Qed.

Lemma entry_good i e : es !! i = Some e -> good_entry (valid := ivalid) e /\ ivalid e.1 /\ type_of e.1 <= kTypeValue.
Proof.
  intros Ei. pose proof (tp_good _ _ _ _ _ _ P) as Hg. rewrite Forall_lookup in Hg, Htypes. specialize (Hg i e Ei). split_and!; [done|apply Hg|by apply (Htypes i)].
Qed.

(** The pointers that are right for one key are right for the keys after it. *)
Lemma ptrs_later i e ptrs : es !! i = Some e -> ptrs_ok (cmp := cmp) (input_version_ c0) (user_part e.1) (level_ c0 + 2) ptrs ->
  forall e', e' ∈ drop (S i) es -> ptrs_ok (cmp := cmp) (input_version_ c0) (user_part e'.1) (level_ c0 + 2) ptrs.
Proof.
  intros Ei Hp e' He'. apply list_elem_of_lookup in He' as [j Ej]. rewrite lookup_drop in Ej. destruct (entry_good i e Ei) as (_ & Hv & _). destruct (entry_good _ e' Ej) as (_ & Hv' & _). destruct (ivalid_user _ Hv) as [_ Hu]. destruct (ivalid_user _ Hv') as [_ Hu'].
  apply (ptrs_mono (ucmp := ucmp) _ (user_part e.1)); [done|done|done| |done]. pose proof (sorted_lookup _ _ (tp_sorted _ _ _ _ _ _ P) i (S i + j)%nat e e' ltac:(lia) Ei Ej) as Hlt. cbn in Hlt. apply ic_user. lia.
Qed.

Record loop_inv (i : nat) (p : Progress) (st : CompactionState F E) (segs : list (list entry)) (cur : list entry) : Prop := {
  li_state : state_ok st segs cur;
  li_kept : concat segs ++ cur = kept (take i es);
  li_progress : progress_ok (valid := valid) (cmp := cmp) (last (take i es)) p;
  li_comp : comp_ok i (compaction st);
  li_snap : smallest_snapshot st = snap;
  li_next : next_file_number_ st + 2 * (zlen es - Z.of_nat i) < 2 ^ 64 - 1;
}.

(** Closing the file before a key, if the compaction wants it. *)
Lemma stop_output_spec (stop : bool) st segs cur : state_ok st segs cur -> fits cur ->
  exists st' segs' cur', (if stop && bool_decide (is_Some (builder st)) then FinishCompactionOutputFile addr_of OK st else Done (OK, st)) = Done (OK, st') /\ state_ok st' segs' cur' /\ concat segs' ++ cur' = concat segs ++ cur /\
    compaction st' = compaction st /\ smallest_snapshot st' = smallest_snapshot st /\ next_file_number_ st' = next_file_number_ st.
Proof.
  intros Hok Hfit. destruct (stop && bool_decide (is_Some (builder st))) eqn:Eb; [|by exists st, segs, cur]. apply andb_true_iff in Eb as [_ Hb]. apply bool_decide_eq_true in Hb as [r Er].
  destruct (finish_output_spec st segs cur r Hok Er Hfit) as (st' & -> & Hok' & _ & ? & ? & ?). exists st', (segs ++ [cur]), []. split_and!; try done. rewrite concat_app. cbn [concat]. by rewrite !app_nil_r.
Qed.

Lemma loop_step fuel it i p st segs cur e : at_ it i -> es !! i = Some e -> loop_inv i p st segs cur ->
  exists it' p' st' segs' cur', compact_loop addr_of ucmp o max_file_size (S fuel) it p st = compact_loop addr_of ucmp o max_file_size fuel it' p' st' /\ at_ it' (S i) /\ loop_inv (S i) p' st' segs' cur'.
Proof.
  intros Hat Ei [Hok Hk Hp Hc Hsn Hn]. pose proof (lookup_lt_Some _ _ _ Ei) as Hi. destruct (entry_good i e Ei) as (Hg & Hv & Ht). destruct (ivalid_user _ Hv) as [_ Hu]. cbn [compact_loop]. rewrite (cur_valid it i Hat), bool_decide_true by done.
  destruct (env_running (F := F) (environment st)) as (e1 & ->). cbn [fst snd set_environment environment next_file_number_]. destruct (env_imm (F := F) (next_file_number_ st) e1) as (n' & e2 & -> & Hn'). destruct (cur_entry it i e Hat Ei) as [-> ->]. cbn [mbind outcome_bind].
  match goal with |- context [ShouldStopBefore ucmp max_file_size e.1 (compaction ?s)] => set (st1 := s) end.
  assert (Hok1 : state_ok st1 segs cur). { destruct Hok as [Ho (? & ? & Hf)]. split; [exact Ho|]. split_and!; [cbn; lia|done|]. eapply Forall_impl; [exact Hf|]. cbn. intros out [? ?]. split; [lia|done]. }
  change (compaction st1) with (compaction st). destruct Hc as (ptrs & j & seen & bytes & Ec & Hj & Hptrs). rewrite Ec.
  destruct (should_stop_spec (ucmp := ucmp) max_file_size e.1 (set_ptrs ptrs (set_progress j seen bytes c0)) Hv Hgrand Hj) as (stop & j1 & seen1 & bytes1 & -> & Hj1). cbn [mbind outcome_bind fst snd].
  match goal with |- context [set_compaction ?c st1] => set (c1 := c) end. set (st2 := set_compaction c1 st1). rewrite (cur_status it i Hat).
  destruct (stop_output_spec stop st2 segs cur Hok1) as (st3 & segs3 & cur3 & -> & Hok3 & Ek3 & Ec3 & Es3 & En3). { apply sublist_fits. by apply (kept_sublist i (concat segs)). }
  cbn [mbind outcome_bind fst snd ok negb]. rewrite Ec3, Es3. change (compaction st2) with c1. change (smallest_snapshot st2) with (smallest_snapshot st). rewrite Hsn.
  destruct (drop_entry_spec (ucmp := ucmp) (last (take i es)) p c1 e snap) as (p' & ptrs' & -> & Hp' & Hptrs'); [exact Hdeep|exact Hlevel| |done|done|done|done|].
  { apply Hptrs. apply list_elem_of_lookup. exists 0%nat. by rewrite lookup_drop, Nat.add_0_r. }
  cbn [mbind outcome_bind fst snd]. change (input_version_ c1) with (input_version_ c0) in *. change (level_ c1) with (level_ c0) in *. set (st4 := set_compaction (set_ptrs ptrs' c1) st3).
  assert (Hok4 : state_ok st4 segs3 cur3) by exact Hok3. destruct (cur_next it i Hat Hi) as (it' & Enext & Hat').
  assert (Hcomp : comp_ok (S i) (compaction st4)) by (exists ptrs', j1, seen1, bytes1; split_and!; first [done|apply Hj1|by apply (ptrs_later i e)]).
  assert (Hlast : last (take (S i) es) = Some e) by by rewrite (take_S_r es i e Ei), last_snoc.
  assert (Hkeep : kept (take (S i) es) = kept (take i es) ++ (if dropped cmp snap (absent_b (cmp := cmp) (input_version_ c0) (level_ c0 + 2)) (last (take i es)) e then [] else [e])).
  { unfold kept. rewrite (take_S_r es i e Ei), survivors_snoc. by destruct (last (take i es)). }
  assert (Hsn4 : smallest_snapshot st4 = snap) by (rewrite <- Hsn; exact Es3). rewrite <- Hk, <- Ek3 in Hkeep. assert (Hnext4 : next_file_number_ st4 = n') by exact En3.
  destruct (dropped _ _ _ _ _); cbn [mbind outcome_bind fst snd ok negb]; [|destruct e as [k v]; rewrite <- app_assoc in Hkeep; destruct (keep_spec st4 segs3 cur3 k v Hok4) as (st5 & segs5 & cur5 & Ekeep & Hok5 & Ek5 & Ec5 & Es5 & En5); [lia|done| | |cbn [fst snd]; rewrite Ekeep; cbn [mbind outcome_bind fst snd ok negb]]].
  - rewrite Enext. cbn [mbind outcome_bind]. eexists it', p', st4, segs3, cur3. split; [done|]. split; [done|]. split; [done|by rewrite Hkeep, app_nil_r|by rewrite Hlast|done|exact Hsn4|lia].
  - eapply sublist_sorted; [|exact (tp_sorted _ _ _ _ _ _ P)]. by apply (kept_sublist (S i) (concat segs3)).
  - apply sublist_fits. by apply (kept_sublist (S i) (concat segs3)).
  - rewrite Enext. cbn [mbind outcome_bind]. eexists it', p', st5, segs5, cur5. split; [done|]. split; [done|]. split; [done|by rewrite Hkeep|by rewrite Hlast|by rewrite Ec5|by rewrite Es5|lia].
Qed.

Lemma loop_spec : forall fuel it i p st segs cur, at_ it i -> loop_inv i p st segs cur -> (length es - i < fuel)%nat ->
  exists it' p' st' segs' cur', compact_loop addr_of ucmp o max_file_size fuel it p st = Done (OK, it', st') /\ at_ it' (length es) /\ loop_inv (length es) p' st' segs' cur'.
Proof.
  induction fuel as [|fuel IH]; intros it i p st segs cur Hat Hinv Hf; [lia|]. destruct (es !! i) as [e|] eqn:Ei.
  - destruct (loop_step fuel it i p st segs cur e Hat Ei Hinv) as (it1 & p1 & st1 & segs1 & cur1 & -> & Hat1 & Hinv1). apply lookup_lt_Some in Ei. by apply (IH it1 (S i) p1 st1 segs1 cur1); [|..|lia].
  - apply lookup_ge_None in Ei. pose proof (cur_range it i Hat). assert (i = length es) as -> by lia. exists it, p, st, segs, cur. cbn [compact_loop]. by rewrite (cur_valid it _ Hat), bool_decide_false by lia.
Qed.

(** ** The whole work *)

(** A compaction and a state at the start. *)
Record starts (c : Compaction) (st : CompactionState F E) : Prop := {
  sc_compaction : compaction st = c;
  sc_level : exists f files, input_version_ c !! Z.to_nat (level_ c) = Some (f :: files);
  sc_ptrs : level_ptrs_ c = replicate (Z.to_nat kNumLevels) 0;
  sc_index : grandparent_index_ c = 0;
  sc_builder : builder st = None;
  sc_outputs : outputs st = [] /\ closed_files st = [];
  sc_next : 0 < next_file_number_ st /\ next_file_number_ st + 2 * zlen es < 2 ^ 64 - 1;
}.

Lemma work_spec fuel it i oldest last_sequence st : at_ it i -> starts c0 st -> snap = match oldest with Some s => s | None => last_sequence end -> (length es < fuel)%nat ->
  exists st' segs env, DoCompactionWork addr_of ucmp o max_file_size fuel it oldest last_sequence st = Done (OK, st') /\
    builder st' = None /\ Forall3 written (outputs st') (closed_files st') segs /\ concat segs = kept es /\ numbers_ok st' /\
    edit_ (compaction st') = add_outputs (level_ c0 + 1) (outputs st') (AddInputDeletions c0 (edit_ c0)) /\
    environment st' = (LogAndApply (F := F) (edit_ (compaction st')) env).2.
Proof.
  intros Hat [Ec (f0 & files0 & Hlev) Hptr Hgi Hb [Ho Hcl] [Hn0 Hn1]] Hs Hf. unfold DoCompactionWork. rewrite Ec, Hlev, Hb, <- Hs. cbn [demand mbind outcome_bind]. rewrite bool_decide_false by done. cbv zeta. destruct (cur_first it i Hat) as (it0 & -> & Hat0). cbn [mbind outcome_bind].
  match goal with |- context [compact_loop _ _ _ _ fuel it0 _ ?s] => set (st0 := s) end.
  assert (Hinv : loop_inv 0 no_progress st0 [] []).
  { split; subst st0; cbn [compaction smallest_snapshot next_file_number_ concat app take last]; [|done|done| |done|lia].
    - split; [|split_and!]; cbn [outputs closed_files next_file_number_ pending_outputs_ builder output_ok]; rewrite ?Ho, ?Hcl; first [lia|by split; [|constructor]|constructor].
    - exists (level_ptrs_ c0), (grandparent_index_ c0), (seen_key_ c0), (overlapped_bytes_ c0). split; [by destruct c0|]. rewrite Hgi. split; [lia|]. rewrite Hptr. intros e _. apply ptrs_start. }
  destruct (loop_spec fuel it0 0 no_progress st0 [] [] Hat0 Hinv ltac:(lia)) as (it1 & p1 & st1 & segs1 & cur1 & -> & Hat1 & [Hok Hk _ Hc _ _]). rewrite take_ge in Hk by done. cbn [mbind outcome_bind fst snd ok].
  destruct (env_running (F := F) (environment st1)) as (e1 & ->). cbn [fst snd ok andb]. set (st2 := set_environment e1 st1). rewrite (cur_status it1 _ Hat1).
  assert (Hok2 : state_ok st2 segs1 cur1) by exact Hok. assert (Hfit : fits cur1) by (apply sublist_fits, (kept_sublist (length es) (concat segs1)); by rewrite take_ge).
  destruct (stop_output_spec true st2 segs1 cur1 Hok2 Hfit) as (st3 & segs3 & cur3 & Estop & Hok3 & Ek3 & Ec3 & _ & _). cbn [andb] in Estop.
  assert (Hend : builder st3 = None). { case_bool_decide as Hsome; [|injection Estop as Eeq; rewrite <- Eeq; by apply eq_None_not_Some]. destruct Hsome as [r Er]. destruct (finish_output_spec st2 segs1 cur1 r Hok2 Er Hfit) as (st3' & E3 & _ & Hb3 & _). rewrite E3 in Estop. by injection Estop as <-. }
  rewrite Estop. cbn [mbind outcome_bind fst snd ok]. unfold InstallCompactionResults. cbv zeta. destruct (env_apply (F := F) (results_edit st3) (environment st3)) as (e4 & E4). rewrite E4. cbn [fst snd ok].
  destruct Hok3 as [Ho3 Hnum3]. unfold output_ok in Ho3. rewrite Hend in Ho3. destruct Ho3 as [-> Hw3]. eexists _, segs3, (environment st3). split; [done|]. cbn [set_environment set_compaction builder outputs closed_files compaction set_edit edit_ environment].
  destruct Hc as (ptrs & j & seen & bytes & Ec1 & _ & _). rewrite app_nil_r in Ek3. split_and!; [done|done|by rewrite Ek3|exact Hnum3| |by rewrite E4].
  unfold results_edit. rewrite Ec3. subst st2. cbn [set_environment compaction]. by rewrite Ec1.
Qed.
End Outputs.

(** ** What readers see *)

Section Views.
Context {ucmp : Comparator} {valid : list Z -> Prop} {cmp : list Z -> list Z -> Z} `{GC : !GoodComparator ucmp valid cmp}.
Abbreviation ic := (icmp cmp).
Abbreviation ivalid := (valid_ikey valid).

(** The answer to a lookup of an internal key: the value of the newest update, if
    that is not a deletion. *)
Definition sees (k : list Z) (es : list entry) (v : option (list Z)) : Prop :=
  (none_in (cmp := cmp) k es /\ v = None) \/ exists e, newest_in (cmp := cmp) k es e /\ v = if type_of e.1 =? kTypeValue then Some e.2 else None.

Section Survive.
Context (snapshot : Z) (base : list Z -> bool).
Definition prev_at (prev : option entry) (es : list entry) (i : nat) : option entry := match i with O => prev | S j => es !! j end.
Lemma elem_survivors e es : forall prev, e ∈ survivors cmp snapshot base prev es <-> exists i, es !! i = Some e /\ dropped cmp snapshot base (prev_at prev es i) e = false.
Proof.
  induction es as [|e' es IH]; intros prev.
  { split; [by intros H%elem_of_nil|intros (i & Ei & _); done]. }
  cbn [survivors]. rewrite elem_of_app, IH. split.
  - intros [He|(i & Ei & Hd)]; [|by exists (S i); destruct i]. exists 0%nat. destruct (dropped cmp snapshot base prev e') eqn:Ed; [by apply elem_of_nil in He|]. by apply list_elem_of_singleton in He as ->.
  - intros ([|i] & Ei & Hd); cbn in Ei, Hd; [left; injection Ei as ->; rewrite Hd; by apply list_elem_of_singleton|]. right. exists i. split; [done|]. by destruct i.
Qed.

Lemma tag_split k : ivalid k -> type_of k <= kTypeValue -> 256 * Z.shiftr (tag_part k) 8 <= tag_part k <= 256 * Z.shiftr (tag_part k) 8 + 1.
Proof.
  intros _ Ht. assert (Hmod : type_of k = tag_part k mod 256) by (unfold type_of; apply (land_low_bits _ 8); lia). rewrite Hmod in Ht. unfold kTypeValue in Ht. rewrite Z.shiftr_div_pow2 by lia. change (2 ^ 8) with 256. pose proof (Z.div_mod (tag_part k) 256 ltac:(lia)). pose proof (Z.mod_pos_bound (tag_part k) 256). lia.
Qed.

Lemma ic_same_user a b : cmp (user_part a) (user_part b) = 0 -> ic a b < 0 <-> tag_part b < tag_part a.
Proof. intros E0. unfold icmp. rewrite E0. cbn [Z.eqb]. destruct (Z.ltb_spec (tag_part b) (tag_part a)); [lia|]. case_match; lia. Qed.

(** Dropping entries changes no answer to a reader at the snapshot or after it,
    when what is not compacted is newer, or deeper and asked for. *)
Lemma survivors_view U es D k v : good_entries (valid := valid) (cmp := cmp) es -> Forall (fun e => ivalid e.1) (U ++ D) -> ivalid k -> 256 * snapshot + kValueTypeForSeek <= tag_part k ->
  newer (cmp := cmp) U es -> (forall e e', e ∈ es -> e' ∈ D -> cmp (user_part e.1) (user_part e'.1) = 0 -> base (user_part e.1) = false) ->
  sees k (U ++ es ++ D) v -> sees k (U ++ survivors cmp snapshot base None es ++ D) v.
Proof.
  intros [Hv Hso] HUD Hk Htag HU HD Hsees. set (out := survivors cmp snapshot base None es). rewrite Forall_forall in Hv, HUD.
  assert (Hsub : forall x, x ∈ U ++ out ++ D -> x ∈ U ++ es ++ D) by (intros x; rewrite !elem_of_app; pose proof (sublist_subseteq _ _ (survivors_sublist cmp snapshot base es None) x); tauto).
  destruct Hsees as [[Hnone ->]|(e & (Hin & Hvis & Hmax) & ->)]; [left; split; [|done]; intros x Hx; by apply Hnone, Hsub|].
  destruct (decide (e ∈ U ++ out ++ D)) as [Hstay|Hgone]; [right; exists e; split; [|done]; split_and!; [done|done|]; intros x Hx; by apply Hmax, Hsub|].
  assert (Hes : e ∈ es) by (rewrite !elem_of_app in Hin, Hgone; tauto). pose proof Hes as Hes'. apply list_elem_of_lookup in Hes' as [i Ei].
  assert (Hdrop : dropped cmp snapshot base (prev_at None es i) e = true). { destruct (dropped _ _ _ (prev_at None es i) e) eqn:Ed; [done|]. destruct Hgone. rewrite !elem_of_app. right; left. apply elem_survivors. by exists i. }
  destruct (Hv e Hes) as [He Hte]. destruct (ivalid_user _ He) as [_ Hue]. destruct (ivalid_user _ Hk) as [_ Huk]. destruct Hvis as [Huser Hte'].
  assert (Hother : forall x, x ∈ U ++ es ++ D -> visible (cmp := cmp) k x -> valid (user_part x.1) /\ cmp (user_part x.1) (user_part e.1) = 0 /\ cmp (user_part e.1) (user_part x.1) = 0).
  { intros x Hx [Hxu _]. assert (Hvx : ivalid x.1) by (rewrite !elem_of_app in Hx; destruct Hx as [Hx|[Hx|Hx]]; [apply HUD; set_solver|by apply Hv|apply HUD; set_solver]). destruct (ivalid_user _ Hvx) as [_ Hux]. split; [done|].
    assert (cmp (user_part x.1) (user_part e.1) = 0); [|split; [done|by apply cmp_zero_sym]]. apply (cmp_zero_l _ _ _ Hux Huk Hue Hxu). by apply cmp_zero_sym. }
  unfold dropped in Hdrop. apply orb_true_iff in Hdrop as [Hhid|Hdel].
  - exfalso. destruct i as [|j]; [done|]. cbn [prev_at] in Hhid. destruct (es !! j) as [p|] eqn:Ej; [|done]. apply andb_true_iff in Hhid as [Hz Hsp]. apply Z.eqb_eq in Hz. apply Z.leb_le in Hsp. assert (Hp : p ∈ es) by by apply list_elem_of_lookup_2 with j. destruct (Hv p Hp) as [Hvp Htp]. destruct (ivalid_user _ Hvp) as [_ Hup].
    pose proof (tag_split p.1 Hvp Htp). unfold seq_of in Hsp. change kValueTypeForSeek with 1 in Htag. pose proof (cmp_zero_sym _ _ Hue Hup Hz) as Hz'.
    assert (Hvp' : visible (cmp := cmp) k p) by (split; [by apply (cmp_zero_l _ _ _ Hup Hue Huk Hz')|lia]). specialize (Hmax p ltac:(rewrite !elem_of_app; tauto) Hvp').
    pose proof (sorted_lookup _ _ Hso j (S j) p e ltac:(lia) Ej Ei) as Hlt. cbn in Hlt. apply (ic_same_user _ _ Hz') in Hlt. lia.
  - apply andb_true_iff in Hdel as [Hdel Hbase]. apply andb_true_iff in Hdel as [Htype Hse]. apply Z.eqb_eq in Htype. apply Z.leb_le in Hse. left. split; [|by rewrite Htype]. intros x Hx Hvisx. pose proof (Hmax x (Hsub x Hx) Hvisx) as Hxe. destruct (Hother x (Hsub x Hx) Hvisx) as (Hux & Hz1 & Hz2).
    rewrite !elem_of_app in Hx. destruct Hx as [Hx|[Hx|Hx]]; [specialize (HU x e Hx Hes Hz1); lia| |by rewrite (HD e x Hes Hx Hz2) in Hbase].
    apply elem_survivors in Hx as (j & Ej & Hd). destruct (Nat.lt_trichotomy j i) as [Hji|[->|Hji]].
    + pose proof (sorted_lookup _ _ Hso j i x e Hji Ej Ei) as Hlt. cbn in Hlt. apply (ic_same_user _ _ Hz1) in Hlt. lia.
    + simplify_eq. unfold dropped in Hd. rewrite Hbase in Hd. destruct (Z.eqb_spec (type_of e.1) kTypeDeletion); [|lia]. destruct (Z.leb_spec (seq_of e) snapshot); [|lia]. by rewrite orb_true_r in Hd.
    + destruct j as [|j]; [lia|]. cbn [prev_at] in Hd. destruct (lookup_lt_is_Some_2 es j) as [p Ep]; [apply lookup_lt_Some in Ej; lia|]. rewrite Ep in Hd. destruct (Hv p ltac:(by apply list_elem_of_lookup_2 with j)) as [Hvp Htp]. destruct (ivalid_user _ Hvp) as [_ Hup].
      pose proof (sorted_lookup _ _ Hso j (S j) p x ltac:(lia) Ep Ej) as Hpx. cbn in Hpx. assert (Hpxu : cmp (user_part p.1) (user_part x.1) <= 0) by (apply ic_user; lia).
      assert (Hep : p = e \/ ic e.1 p.1 < 0). { destruct (decide (j = i)) as [->|]; [left; congruence|right]. exact (sorted_lookup _ _ Hso i j e p ltac:(lia) Ei Ep). }
      assert (Hepu : cmp (user_part e.1) (user_part p.1) <= 0). { destruct Hep as [->|Hep]; [rewrite cmp_refl by done; lia|]. apply ic_user. lia. }
      assert (Hxp : cmp (user_part x.1) (user_part p.1) = 0). { pose proof (cmp_anti (user_part x.1) (user_part p.1) Hux Hup). pose proof (cmp_anti (user_part p.1) (user_part x.1) Hup Hux). assert (cmp (user_part x.1) (user_part p.1) <= 0); [|lia]. apply (cmp_trans _ (user_part e.1)); [done|done|done|lia|done]. }
      assert (Hseqp : seq_of p <= snapshot). { destruct Hep as [->|Hep]; [done|]. assert (Hz3 : cmp (user_part e.1) (user_part p.1) = 0) by (apply (cmp_zero_l _ _ _ Hue Hux Hup Hz2); done). apply (ic_same_user _ _ Hz3) in Hep. pose proof (tag_split _ Hvp Htp). pose proof (tag_split _ He Hte). unfold seq_of in *. lia. }
      unfold dropped in Hd. destruct (Z.eqb_spec (cmp (user_part x.1) (user_part p.1)) 0); [|lia]. destruct (Z.leb_spec (seq_of p) snapshot); [done|lia].
Qed.
End Survive.
End Views.
