(* ===== verification/LdbCompactTheorems.v ===== *)
(** * LdbCompactTheorems: compactions, the properties.

    Which files a compaction takes, what it writes, and that readers see the same
    before and after it. *)

From Stdlib Require Import ZifyBool Sorting.Sorted.
From stdpp Require Import base tactics numbers list gmap strings sorting.
From S2P Require Import Prelude LdbCoding LdbCrcSpec LdbLog LdbLogSpec LdbBloom LdbKey LdbKeySpec LdbTheorems LdbIter LdbBlockBuild LdbFormat LdbFilter LdbTable LdbTableWrite LdbTableTheorems LdbSstTheorems LdbEdit LdbVersion LdbVersionSpec LdbVersionGet LdbVersionTheorems LdbMerge LdbDbIter LdbIterTheorems LdbCompact LdbInputs LdbCompactWork.
Open Scope Z_scope.

Section Compactions.
Context {ucmp : Comparator} {valid : list Z -> Prop} {cmp : list Z -> list Z -> Z} `{GC : !GoodComparator ucmp valid cmp}.
Abbreviation ivalid := (valid_ikey valid).
Abbreviation ic := (icmp cmp).

(** C37: When a version asks for a compaction, [PickCompaction] makes one.  It has
    files of the level, and no file of the level begins after them with the user key
    with which they end; its files of the next level are all those in the range of
    user keys of the first ones; and its state is ready for the work.  When the
    version asks for none, there is none. *)
Theorem picked_inputs_closed (max_file_size : Z) (version : list Files) (h : CompactionHints) (pointers : list (list Z)) :
  good_version (valid := valid) (cmp := cmp) version -> hints_ok version h -> length pointers = Z.to_nat kNumLevels -> Forall (fun k => k = [] \/ ivalid k) pointers ->
  match hint_level h with
  | None => PickCompaction ucmp max_file_size version h pointers = Done None
  | Some level => exists c pointers', PickCompaction ucmp max_file_size version h pointers = Done (Some (c, pointers')) /\ picked_ok (valid := valid) (cmp := cmp) version level c
  end.
Proof. apply pick_compaction_spec. Qed.

Section Work.
Context {F : Type} `{GF : GoodFile F} `{!SyncFile F} `{GY : !GoodSync F} {E : Type} `{!CompactionEnv F E} `{GE : !GoodCompactionEnv F E} `{!Snappy} `{!GoodSnappy}.
Context (addr_of : list Z -> Z) (Haddr : forall bs, zlen bs < 2 ^ 62 -> address (addr_of bs) (zlen bs)).
Context (o : Options) (same : list Z -> list Z -> Prop) (B : Z) (es : list entry) (P : table_params o ivalid ic same B es).
Context {I : Type} `{!Iterator I} (at_ : I -> nat -> Prop) (CU : Cursor ivalid ic es at_).
Context (max_file_size : Z) (c : Compaction) (oldest : option Z) (last_sequence : Z).
Definition oldest_seen : Z := match oldest with Some s => s | None => last_sequence end.
Context (Hsnap : oldest_seen < kMaxSequenceNumber) (Htypes : Forall (fun e => type_of e.1 <= kTypeValue) es).
Context (Hdeep : deep_apart (valid := valid) (cmp := cmp) (input_version_ c) (level_ c + 2)) (Hlevel : 0 <= level_ c) (Hgrand : Forall (good_file (valid := valid) (cmp := cmp)) (grandparents_ c)).
Context (fuel : nat) (it : I) (i : nat) (st : CompactionState F E) (Hat : at_ it i) (Hst : starts es c st) (Hfuel : (length es < fuel)%nat).

(** C9: The work of a compaction whose input has the entries [es] in order: it ends
    without error; every output has a number of its own and is a table of a segment,
    with its size and its first and last key; the segments one after another are the
    entries that survive; and one edit is applied that deletes the inputs and adds
    the outputs to the next level.  The cleanup afterwards gives up the protection of
    just the outputs. *)
Theorem compaction_exact :
  exists st' segs env, DoCompactionWork addr_of ucmp o max_file_size fuel it oldest last_sequence st = Done (OK, st') /\
    builder st' = None /\ Forall3 (written (valid := valid) (cmp := cmp) o same) (outputs st') (closed_files st') segs /\ concat segs = kept (cmp := cmp) oldest_seen c es /\ numbers_ok st' /\
    edit_ (compaction st') = add_outputs (level_ c + 1) (outputs st') (AddInputDeletions c (edit_ c)) /\
    environment st' = (LogAndApply (F := F) (edit_ (compaction st')) env).2 /\
    exists pending, CleanupCompaction st' = Done pending /\ forall n, n ∈ pending <-> n ∈ pending_outputs_ st' /\ n ∉ o_number <$> outputs st'.
Proof.
  destruct (work_spec addr_of Haddr o same B es P max_file_size oldest_seen c Hsnap Htypes Hdeep Hlevel Hgrand fuel it i oldest last_sequence st Hat Hst eq_refl Hfuel) as (st' & segs & env & E1 & Hb & Hw & Ecat & Hnum & Hedit & Henv).
  exists st', segs, env. split_and!; [done..|]. by apply cleanup_spec.
Qed.

End Work.

(** What the outputs hide and show. *)
Lemma kept_view o same B es c snap U D k v : table_params o ivalid ic same B es -> Forall (fun e => type_of e.1 <= kTypeValue) es -> deep_apart (valid := valid) (cmp := cmp) (input_version_ c) (level_ c + 2) -> 0 <= level_ c ->
  Forall (fun e => ivalid e.1) (U ++ D) -> newer (cmp := cmp) U es ->
  (forall e, e ∈ D -> exists l files f, level_ c + 2 <= Z.of_nat l /\ input_version_ c !! l = Some files /\ f ∈ files /\ in_file (cmp := cmp) (user_part e.1) f) ->
  ivalid k -> 256 * snap + kValueTypeForSeek <= tag_part k -> sees (cmp := cmp) k (U ++ es ++ D) v -> sees (cmp := cmp) k (U ++ kept (cmp := cmp) snap c es ++ D) v.
Proof.
  intros P Htypes Hdeep Hlevel HUD HU HD Hk Htag Hs. pose proof (tp_good _ _ _ _ _ _ P) as Hg. rewrite Forall_forall in Hg, HUD. apply (survivors_view (ucmp := ucmp) (valid := valid)); try done; [|by apply Forall_forall|].
  - split; [|exact (tp_sorted _ _ _ _ _ _ P)]. rewrite Forall_forall in *. intros e He. split; [apply (Hg e He)|by apply Htypes].
  - intros e e' He He' Hz. destruct (HD e' He') as (l & files & f & Hl & Ef & Hf & [Hin1 Hin2]). destruct (absent_b (cmp := cmp) (input_version_ c) (level_ c + 2) (user_part e.1)) eqn:Ea; [|done]. exfalso. apply absent_spec in Ea; [|lia]. apply (Ea l files Hl Ef). apply Exists_exists. exists f. split; [done|].
    destruct Hdeep as [_ Hd]. destruct (Hd l files Hl Ef) as (Hgf & _). rewrite Forall_forall in Hgf. destruct (Hgf f Hf) as [F1 F2 _]. destruct (ivalid_user _ F1) as [_ U1], (ivalid_user _ F2) as [_ U2]. assert (Ue : valid (user_part e.1)) by apply (Hg e He). assert (Ue' : valid (user_part e'.1)) by (apply (HUD e'); apply elem_of_app; by right).
    destruct (cmp_zero_l _ _ (user_part (smallest f)) Ue Ue' U1 Hz) as [Hz1 Hz1']. destruct (cmp_zero_l _ _ (user_part (largest f)) Ue Ue' U2 Hz) as [Hz2 Hz2']. split; lia.
Qed.

Section Files.
Context {TI : Type} `{!Iterator TI} `{!TableIterators TI} {stored : FileMetaData -> Prop} {contents : FileMetaData -> list entry} {tat : FileMetaData -> TI -> nat -> Prop} `{GT : !GoodTableIterators (valid := valid) (cmp := cmp) stored contents tat}.
Abbreviation readable := (readable (valid := valid) (cmp := cmp) (stored := stored) (contents := contents)).
Abbreviation entries_of := (entries_of (contents := contents)).

(** C2: A compaction of files changes no answer.  The iterator over the input files
    has their entries [es] in order; the work over it ends without error, and whoever
    looks up a key at the oldest snapshot or later, among the inputs, entries [D] of
    the levels below the output and entries [U] that are newer than those of the same
    keys in the inputs, gets the same answer with the outputs in place of the inputs. *)
Theorem compaction_keeps_views {F : Type} `{GF : GoodFile F} `{!SyncFile F} `{GY : !GoodSync F} {E : Type} `{!CompactionEnv F E} `{GE : !GoodCompactionEnv F E} `{!Snappy} `{!GoodSnappy} (addr_of : list Z -> Z) (o : Options) (same : list Z -> list Z -> Prop) (B : Z) (es : list entry)
    (max_file_size : Z) (c : Compaction) (oldest : option Z) (last_sequence : Z) (paranoid : bool) (fuel : nat) (st : CompactionState F E) :
  (forall bs, zlen bs < 2 ^ 62 -> address (addr_of bs) (zlen bs)) -> table_params o ivalid ic same B es -> oldest_seen oldest last_sequence < kMaxSequenceNumber -> Forall (fun e => type_of e.1 <= kTypeValue) es ->
  deep_apart (valid := valid) (cmp := cmp) (input_version_ c) (level_ c + 2) -> 0 <= level_ c -> Forall (good_file (valid := valid) (cmp := cmp)) (grandparents_ c) ->
  readable (level_ c) (inputs_0 c) -> readable (level_ c + 1) (inputs_1 c) -> sorted_as (valid := valid) (cmp := cmp) (entries_of (inputs_0 c) ++ entries_of (inputs_1 c)) es ->
  starts es c st -> (length es < fuel)%nat ->
  exists (it : merged_iterator (child TI)) st' segs, MakeInputIterator ucmp paranoid c = Done it /\
    DoCompactionWork (Iterator0 := merged_iter (Iterator0 := child_iterator ucmp (MkReadOptions paranoid false)) (internal_compare ucmp)) addr_of ucmp o max_file_size fuel it oldest last_sequence st = Done (OK, st') /\
    Forall3 (written (valid := valid) (cmp := cmp) o same) (outputs st') (closed_files st') segs /\
    forall U D k v, Forall (fun e => ivalid e.1) (U ++ D) -> newer (cmp := cmp) U es ->
      (forall e, e ∈ D -> exists l files f, level_ c + 2 <= Z.of_nat l /\ input_version_ c !! l = Some files /\ f ∈ files /\ in_file (cmp := cmp) (user_part e.1) f) ->
      ivalid k -> 256 * oldest_seen oldest last_sequence + kValueTypeForSeek <= tag_part k ->
      sees (cmp := cmp) k (U ++ es ++ D) v -> sees (cmp := cmp) k (U ++ concat segs ++ D) v.
Proof.
  intros Haddr P Hsnap Htypes Hdeep Hlevel Hgrand Hr0 Hr1 Hes Hst Hfuel. destruct (MakeInputIterator_spec (ucmp := ucmp) paranoid c es Hlevel Hr0 Hr1 Hes) as (it & at_ & i & Eit & CU & Hat).
  destruct (work_spec (CU := CU) addr_of Haddr o same B es P max_file_size _ c Hsnap Htypes Hdeep Hlevel Hgrand fuel it i oldest last_sequence st Hat Hst eq_refl Hfuel) as (st' & segs & env & E1 & _ & Hw & Ecat & _). exists it, st', segs. split_and!; [done|done|done|].
  intros U D k v. rewrite Ecat. by apply (kept_view o same B).
Qed.

(** C12: An iterator over a version shows what a snapshot sees.  [AddIterators] makes
    iterators over the files of all levels; the database iterator over their merge
    walks, in any sequence of moves, over the user keys with their newest value that
    the snapshot sees. *)
Theorem version_iterator_exact (options : ReadOptions) (files_ : list Files) (es : list entry) (s seed : Z) (fuel : nat) (ops : list iter_op) :
  length files_ = Z.to_nat kNumLevels -> (forall i files, files_ !! i = Some files -> readable (Z.of_nat i) files) -> sorted_as (valid := valid) (cmp := cmp) (concat (entries_of <$> files_)) es ->
  Forall (fun e => type_of e.1 <= kTypeValue /\ zlen e.1 + zlen e.2 < 2 ^ 62) es -> 0 <= s <= kMaxSequenceNumber -> (S (length es) < fuel)%nat -> Forall (good_op valid) ops ->
  exists its (it : merged_iterator (child TI)) d, AddIterators ucmp options files_ = Done its /\ NewMergingIterator (Iterator0 := child_iterator ucmp options) its = Done it /\
    new_DBIter it seed = Done d /\
    walk_iter (Iterator0 := db_iterator (Iterator0 := merged_iter (Iterator0 := child_iterator ucmp options) (internal_compare ucmp)) ucmp s fuel) ops d = Done (walk_list cmp (user_view cmp s [] es) ops (length (user_view cmp s [] es))).
Proof.
  intros Hl Hr Hes Hsz Hs Hfuel Hops. destruct (AddIterators_spec (ucmp := ucmp) options files_ es Hl Hr Hes) as (its & it & at_ & p & E1 & E2 & CU & Hat). destruct Hes as (_ & Hso & Hv).
  assert (HE : good_entries (valid := valid) (cmp := cmp) es). { split; [|done]. rewrite Forall_forall in *. intros e He. split; [by apply Hv|by apply Hsz]. } assert (Hsize : Forall (fun e : entry => zlen e.1 + zlen e.2 < 2 ^ 62) es) by (eapply Forall_impl; [exact Hsz|]; by intros e [_ ?]).
  destruct (new_db (cmp := cmp) s fuel es at_ Hfuel it p seed Hat) as (d & E & Hd). exists its, it, d. split_and!; [done|done|done|]. pose proof (db_cursor (ucmp := ucmp) (CU := CU) s fuel es at_ HE Hsize Hs Hfuel) as CD. by apply (walk_cursor (CU := CD)).
Qed.
End Files.
End Compactions.

(** ** A database with four tables *)

#[local] Existing Instance no_snappy.
#[local] Existing Instance list_iterator.

(** Files are strings; the environment keeps the edits that were applied. *)
#[local] Instance string_sync : SyncFile (list Z) := {| fSync f := (OK, f); fClose f := (OK, f) |}.
#[local] Instance edits_env : CompactionEnv (list Z) (list VersionEdit) := {|
  NewWritableFile _ env := (OK, Some [], env); CheckTable _ _ env := (OK, env); ShuttingDown env := (false, env); CompactImm n env := (n + 1, env);
  LogAndApply edit env := (OK, env ++ [edit]); RecordBackgroundError _ env := env |}.
#[local] Instance string_sync_good : GoodSync (list Z).
Proof. split; intros f; by exists f. Qed.
#[local] Instance edits_env_good : GoodCompactionEnv (list Z) (list VersionEdit).
Proof. split; [intros n e; by exists [], e|intros n size e; by exists e|intros e; by exists e|intros n e; exists (n + 1), e; split; [done|lia]|intros edit e; by eexists]. Qed.

Definition file20 : FileMetaData := MkFile 1 100 20 90 (deletion_key [98] 20) (version_key [100] 21).
Definition file11 : FileMetaData := MkFile 1 100 11 90 (version_key [99] 10) (deletion_key [109] 9).
Definition file12 : FileMetaData := MkFile 1 100 12 90 (version_key [109] 3) (version_key [112] 4).
Definition file6 : FileMetaData := MkFile 1 100 6 90 (version_key [98] 1) (version_key [98] 1).
Definition four_levels : list Files := [[]; [file20]; [file11; file12]; [file6]; []; []; []].
(** The entries of the files 20 and 11. *)
Definition input_entries : list entry := [(deletion_key [98] 20, []); (version_key [98] 18, [1]); (version_key [99] 10, [2]); (version_key [100] 21, [3]); (deletion_key [109] 9, [])].

Ltac run_file := split; cbn [smallest largest]; [run_key|run_key|vm_compute; discriminate].
Lemma file20_good : byte_file file20. Proof. run_file. Qed.
Lemma file11_good : byte_file file11. Proof. run_file. Qed.
Lemma file12_good : byte_file file12. Proof. run_file. Qed.
Lemma file6_good : byte_file file6. Proof. run_file. Qed.
Ltac run_files := repeat (apply Forall_cons_2; [apply file20_good || apply file11_good || apply file12_good || apply file6_good|]); apply Forall_nil_2.

Lemma four_good : good_version (valid := Forall is_byte) (cmp := lex) four_levels.
Proof.
  split; [done| |].
  - intros i fs Hi. destruct i as [|[|[|[|[|[|[|i]]]]]]]; cbn in Hi; try done; injection Hi as <-; run_files.
  - intros i fs Hi Hp. destruct i as [|[|[|[|[|[|[|i]]]]]]]; cbn in Hi; try done; [lia|..]; injection Hi as <-; (split; [split; [run_files|split; [sorted_list|done]]|repeat (apply Forall_cons_2; [vm_compute; discriminate|]); apply Forall_nil_2]).
Qed.

Definition no_pointers : list (list Z) := replicate 7 [].
Definition ask_level_1 : CompactionHints := MkHints true 1 None.

Lemma picked_inputs_closed_witness : exists c pointers', PickCompaction BytewiseComparator 2097152 four_levels ask_level_1 no_pointers = Done (Some (c, pointers')) /\ picked_ok (valid := Forall is_byte) (cmp := lex) four_levels 1 c.
Proof.
  apply (picked_inputs_closed (ucmp := BytewiseComparator) (valid := Forall is_byte) (cmp := lex) 2097152 four_levels ask_level_1 no_pointers four_good).
  - split; [intros level [= <-]; vm_compute; split; [discriminate|reflexivity]|discriminate].
  - reflexivity.
  - unfold no_pointers. cbn [replicate]. repeat (apply Forall_cons_2; [left; reflexivity|]). apply Forall_nil_2.
Defined.

Lemma input_params : table_params database_options (valid_ikey (Forall is_byte)) (icmp lex) (fun k k' => user_part k = user_part k') 20 input_entries.
Proof.
  destruct database_params as [H1 H2 H3 H4 H5 H6 H7 _ _ _]. split; [done..| | |vm_compute; reflexivity].
  - unfold input_entries. repeat (apply Forall_cons_2; [split_and!; cbn [fst snd]; [run_key|apply (short_bytes (c := InternalKeyComparator BytewiseComparator)); run_key|byte_list]|]). apply Forall_nil_2.
  - unfold sorted_entries, input_entries. sorted_list.
Qed.

Definition sample_compaction : Compaction := set_inputs [file20] [file11] (new_Compaction 2097152 1 four_levels).
Definition start_state (c : Compaction) : CompactionState (list Z) (list VersionEdit) := MkCompactionState c 0 [] None 0 31 ∅ [] [].

Lemma sample_starts : starts input_entries sample_compaction (start_state sample_compaction).
Proof. split; [done|by eexists _, _|done|done|done|done|]. split; vm_compute; reflexivity. Qed.
Lemma sample_types : Forall (fun e => type_of e.1 <= kTypeValue) input_entries.
Proof. unfold input_entries. repeat (apply Forall_cons_2; [vm_compute; discriminate|]). apply Forall_nil_2. Qed.
Lemma sample_deep : deep_apart (valid := Forall is_byte) (cmp := lex) four_levels 3.
Proof. split; [done|]. intros i fs Hi Ei. by apply (gv_apart _ four_good i fs Ei); lia. Qed.

(** The deletion of [98] is kept, the update before it is not; the deletion of [109]
    is dropped. *)
Lemma compaction_exact_witness : exists st' segs, DoCompactionWork (fun _ => 4096) BytewiseComparator database_options 2097152 6 (MkListIter input_entries 0) None 30 (start_state sample_compaction) = Done (OK, st') /\
  concat segs = [(deletion_key [98] 20, []); (version_key [99] 10, [2]); (version_key [100] 21, [3])] /\
  edit_ (compaction st') = add_outputs 2 (outputs st') (AddInputDeletions sample_compaction new_VersionEdit).
Proof.
  destruct (compaction_exact (ucmp := BytewiseComparator) (valid := Forall is_byte) (cmp := lex) (fun _ => 4096) const_address database_options (fun k k' => user_part k = user_part k') 20 input_entries input_params
    (list_at input_entries) (list_cursor input_entries) 2097152 sample_compaction None 30) with (fuel := 6%nat) (it := MkListIter input_entries 0) (i := 0%nat) (st := start_state sample_compaction) as (st' & segs & env & E & _ & _ & Ecat & _ & Hedit & _).
  - vm_compute. reflexivity.
  - exact sample_types.
  - exact sample_deep.
  - vm_compute. discriminate.
  - constructor.
  - split; [reflexivity|cbn; lia].
  - exact sample_starts.
  - cbn. lia.
  - exists st', segs. split; [exact E|]. split; [|exact Hedit]. rewrite Ecat. vm_compute. reflexivity.
Defined.

(** Newest updates in lists that can be computed. *)
Lemma newest_forall k (es : list entry) e : e ∈ es -> visible (cmp := lex) k e -> Forall (fun x => lex (user_part x.1) (user_part k) = 0 -> tag_part x.1 <= tag_part k -> tag_part x.1 <= tag_part e.1) es -> newest_in (cmp := lex) k es e.
Proof. intros He Hv Hm. split_and!; [done|done|]. rewrite Forall_forall in Hm. intros x Hx [H1 H2]. by apply Hm. Qed.
Ltac newest_is n := apply newest_forall; [apply list_elem_of_lookup_2 with n; vm_compute; reflexivity|split; vm_compute; [reflexivity|discriminate]|repeat (apply Forall_cons_2; [vm_compute; intros; discriminate|]); apply Forall_nil_2].

(** The tables of the files, and their iterators. *)
Definition four_tables (n : Z) : list entry :=
  if n =? 20 then [(deletion_key [98] 20, []); (version_key [98] 18, [1]); (version_key [100] 21, [3])]
  else if n =? 11 then [(version_key [99] 10, [2]); (deletion_key [109] 9, [])]
  else if n =? 12 then [(version_key [109] 3, [4]); (version_key [112] 4, [5])]
  else if n =? 6 then [(version_key [98] 1, [9])] else [].
#[local] Instance list_tables : TableIterators ListIter := {| tc_NewIterator _ n _ := Done (MkListIter (four_tables n) (length (four_tables n))); ErrorIterator _ := MkListIter [] 0 |}.
#[local] Instance list_tables_good : GoodTableIterators (valid := Forall is_byte) (cmp := lex) (fun _ => True) (fun f => four_tables (number f)) (fun f => list_at (four_tables (number f))).
Proof. split; [intros f _; apply list_cursor|]. intros opts f _. eexists. split; [done|]. split; [done|lia]. Qed.

Abbreviation four_file := (good_table_file (valid := Forall is_byte) (cmp := lex) (stored := fun _ => True) (contents := fun f => four_tables (number f))).
Ltac four_entries := split; [repeat (apply Forall_cons_2; [split; [cbn [fst]; run_key|vm_compute; discriminate]|]); apply Forall_nil_2|sorted_list].
Ltac four_table n := split; cbn [number smallest largest]; [done|done|four_entries|intros e He; in_list He; vm_compute; discriminate|intros e He; in_list He; vm_compute; discriminate|eexists; apply list_elem_of_lookup_2 with n; reflexivity].
Lemma file20_table : four_file file20. Proof. pose proof file20_good. four_table 2%nat. Qed.
Lemma file11_table : four_file file11. Proof. pose proof file11_good. four_table 1%nat. Qed.
Lemma file12_table : four_file file12. Proof. pose proof file12_good. four_table 1%nat. Qed.
Lemma file6_table : four_file file6. Proof. pose proof file6_good. four_table 0%nat. Qed.

Abbreviation four_readable := (readable (valid := Forall is_byte) (cmp := lex) (stored := fun _ => True) (contents := fun f => four_tables (number f))).
Ltac run_tables := repeat (apply Forall_cons_2; [apply file20_table || apply file11_table || apply file12_table || apply file6_table|]); apply Forall_nil_2.
Ltac four_level := split; [run_tables|repeat (apply Forall_cons_2; [cbn; lia|]); apply Forall_nil_2|repeat constructor; cbn; set_solver by lia|intros _; split; [run_files|split; [sorted_list|done]]].
Lemma readable_level_1 : four_readable 1 [file20]. Proof. four_level. Qed.
Lemma readable_level_2 : four_readable 2 [file11]. Proof. four_level. Qed.
Lemma four_levels_readable i files : four_levels !! i = Some files -> four_readable (Z.of_nat i) files.
Proof. intros Hi. destruct i as [|[|[|[|[|[|[|i]]]]]]]; cbn in Hi; try done; injection Hi as <-; four_level. Qed.

Ltac entries_ok := repeat (apply Forall_cons_2; [cbn [fst]; run_key|]); apply Forall_nil_2.
Lemma inputs_sorted : sorted_as (valid := Forall is_byte) (cmp := lex) (entries_of (contents := fun f => four_tables (number f)) [file20] ++ entries_of (contents := fun f => four_tables (number f)) [file11]) input_entries.
Proof.
  split_and!; [|unfold input_entries; sorted_list|unfold input_entries; entries_ok]. cbn. unfold input_entries. do 2 constructor. apply perm_swap.
Qed.

(** The key [98], deleted, does not come back from the level below. *)
Lemma compaction_keeps_views_witness : exists (it : merged_iterator (child ListIter)) st' segs, MakeInputIterator BytewiseComparator true sample_compaction = Done it /\
  DoCompactionWork (Iterator0 := merged_iter (Iterator0 := child_iterator BytewiseComparator (MkReadOptions true false)) (internal_compare BytewiseComparator)) (fun _ => 4096) BytewiseComparator database_options 2097152 6 it None 30 (start_state sample_compaction) = Done (OK, st') /\
  Forall3 (written (valid := Forall is_byte) (cmp := lex) database_options (fun k k' => user_part k = user_part k')) (outputs st') (closed_files st') segs /\
  sees (cmp := lex) (version_key [98] 40) (concat segs ++ [(version_key [98] 1, [9])]) None.
Proof.
  destruct (compaction_keeps_views (ucmp := BytewiseComparator) (valid := Forall is_byte) (cmp := lex) (TI := ListIter) (stored := fun _ => True) (contents := fun f => four_tables (number f)) (fun _ => 4096) database_options (fun k k' => user_part k = user_part k') 20 input_entries
    2097152 sample_compaction None 30 true 6%nat (start_state sample_compaction)) as (it & st' & segs & Eit & E & Hw & Hview).
  - exact const_address.
  - exact input_params.
  - vm_compute. reflexivity.
  - exact sample_types.
  - exact sample_deep.
  - vm_compute. discriminate.
  - constructor.
  - exact readable_level_1.
  - exact readable_level_2.
  - exact inputs_sorted.
  - exact sample_starts.
  - cbn. lia.
  - exists it, st', segs. split; [exact Eit|]. split; [exact E|]. split; [exact Hw|]. apply (Hview [] [(version_key [98] 1, [9])]).
    + apply Forall_cons_2; [cbn [fst]; run_key|apply Forall_nil_2].
    + intros e e' He. destruct (not_elem_of_nil e He).
    + intros e ->%list_elem_of_singleton. exists 3%nat, [file6], file6. split_and!; [vm_compute; discriminate|reflexivity|apply list_elem_of_here|split; vm_compute; discriminate].
    + run_key.
    + vm_compute. discriminate.
    + right. exists (deletion_key [98] 20, []). split; [|reflexivity]. newest_is 0%nat.
Defined.

Definition all_entries : list entry := [(deletion_key [98] 20, []); (version_key [98] 18, [1]); (version_key [98] 1, [9]); (version_key [99] 10, [2]); (version_key [100] 21, [3]); (deletion_key [109] 9, []); (version_key [109] 3, [4]); (version_key [112] 4, [5])].
Lemma all_sorted : sorted_as (valid := Forall is_byte) (cmp := lex) (concat (entries_of (contents := fun f => four_tables (number f)) <$> four_levels)) all_entries.
Proof.
  split_and!; [|unfold all_entries; sorted_list|unfold all_entries; entries_ok]. apply (bool_decide_unpack (_ ≡ₚ _)). vm_compute. exact Logic.I.
Qed.

(** The deleted keys [98] and [109] are not shown. *)
Lemma version_iterator_exact_witness : exists its (it : merged_iterator (child ListIter)) d, AddIterators BytewiseComparator (MkReadOptions true true) four_levels = Done its /\
  NewMergingIterator (Iterator0 := child_iterator BytewiseComparator (MkReadOptions true true)) its = Done it /\ new_DBIter it 7 = Done d /\
  walk_iter (Iterator0 := db_iterator (Iterator0 := merged_iter (Iterator0 := child_iterator BytewiseComparator (MkReadOptions true true)) (internal_compare BytewiseComparator)) BytewiseComparator 30 20) [OpFirst; OpNext; OpNext; OpPrev; OpSeek [109]] d =
    Done [Some ([99], [2]); Some ([100], [3]); Some ([112], [5]); Some ([100], [3]); Some ([112], [5])].
Proof.
  destruct (version_iterator_exact (ucmp := BytewiseComparator) (valid := Forall is_byte) (cmp := lex) (TI := ListIter) (stored := fun _ => True) (contents := fun f => four_tables (number f)) (MkReadOptions true true) four_levels all_entries 30 7 20 [OpFirst; OpNext; OpNext; OpPrev; OpSeek [109]]) as (its & it & d & E1 & E2 & E3 & Hwalk).
  - reflexivity.
  - exact four_levels_readable.
  - exact all_sorted.
  - unfold all_entries. repeat (apply Forall_cons_2; [split; [vm_compute; discriminate|vm_compute; reflexivity]|]). apply Forall_nil_2.
  - split; vm_compute; discriminate.
  - cbn. lia.
  - repeat (apply Forall_cons_2; [first [exact Logic.I|unfold good_op; byte_list]|]). apply Forall_nil_2.
  - exists its, it, d. split; [exact E1|]. split; [exact E2|]. split; [exact E3|]. rewrite Hwalk. vm_compute. reflexivity.
Defined.

(** ** A boundary of the next level *)

Definition three_levels : list Files := [[]; [file20]; [file11; file12]; []; []; []; []].
Definition outputs_of (segs : list (list entry)) : outcome (list (list Z)) :=
  foldr (fun seg rest => r ← build_table (fun _ => 4096) database_options ([] : list Z) seg; rest ← rest; Done (r_file r.2 :: rest)) (Done []) segs.

(** C40: The files of the next level may end at a boundary.  In a version in order,
    the key [109] is deleted in the file 11 of level 2 and has an older value in the
    file 12 of that level, which begins with it.  A compaction of level 1 takes the file
    11 and leaves the file 12; it drops the deletion, for no level below has the key;
    and a reader who saw no value before sees the old value afterwards. *)
Theorem next_level_boundary_left :
  good_version (valid := Forall is_byte) (cmp := lex) three_levels /\
  exists c pointers (it : merged_iterator (child ListIter)) st' out, CompactRange BytewiseComparator 2097152 three_levels 1 None None no_pointers = Done (Some (c, pointers)) /\ inputs_0 c = [file20] /\ inputs_1 c = [file11] /\
    MakeInputIterator BytewiseComparator true c = Done it /\
    DoCompactionWork (Iterator0 := merged_iter (Iterator0 := child_iterator BytewiseComparator (MkReadOptions true false)) (internal_compare BytewiseComparator)) (fun _ => 4096) BytewiseComparator database_options 2097152 6 it None 30 (start_state c) = Done (OK, st') /\
    outputs_of [out] = Done (snd <$> closed_files st') /\
    sees (cmp := lex) (version_key [109] 40) ((four_tables 20 ++ four_tables 11) ++ four_tables 12) None /\ sees (cmp := lex) (version_key [109] 40) (out ++ four_tables 12) (Some [4]).
Proof.
  split.
  - split; [done| |].
    + intros i fs Hi. destruct i as [|[|[|[|[|[|[|i]]]]]]]; cbn in Hi; try done; injection Hi as <-; run_files.
    + intros i fs Hi Hp. destruct i as [|[|[|[|[|[|[|i]]]]]]]; cbn in Hi; try done; [lia|..]; injection Hi as <-; (split; [split; [run_files|split; [sorted_list|done]]|repeat (apply Forall_cons_2; [vm_compute; discriminate|]); apply Forall_nil_2]).
  - eexists _, _, _, _, [(version_key [99] 10, [2]); (version_key [100] 21, [3])]. split; [vm_compute; reflexivity|]. split; [reflexivity|]. split; [reflexivity|]. split; [vm_compute; reflexivity|]. split; [vm_compute; reflexivity|]. split; [vm_compute; reflexivity|]. split; right.
    + exists (deletion_key [109] 9, []). split; [|reflexivity]. newest_is 4%nat.
    + exists (version_key [109] 3, [4]). split; [|reflexivity]. newest_is 2%nat.
Qed.
